(* ===== verification/_CoqProject ===== *)
-Q . S2P
Prelude.v
DeviceTree.v
Dtb.v
BootArgs.v
Page.v
SystemInfo.v
MemoryMap.v
PageAllocator.v
El2Stage1.v
Atomics.v
TlbUpdate.v
SecondaryMailbox.v
Management.v
PublishOnce.v
Sync.v
Failure.v
El2Policy.v
Pcpu.v
SecondaryBoot.v
GuestStage2.v
Registers.v
GuestPlatform.v
LinuxBoot.v
Mmio.v
Gicv2.v
Discovery.v
Mm.v
Vcpu.v
Machine.v
WorldSwitch.v
BootEntry.v
Vmctl.v
Stage2Tree.v
VmIsolation.v
HostMap.v
StartupResources.v
Takeover.v
Heap.v
Platform.v
GuestFdt.v
LinuxVm.v
HostSpace.v
SecondaryEntry.v
Topology.v
CpuStartup.v
Publication.v
StartAll.v
CpuPreparation.v
SecondaryMain.v
ManagementIrq.v
ManagementDriver.v
ExceptionEntry.v
GuestRun.v
