(* ===== verification/Prelude.v ===== *)
(** * tvisor: a verification library for the AArch64 type-1 hypervisor

    tvisor boots on one CPU of a Raspberry Pi 4, takes the machine's memory
    over from the firmware, builds its own EL2 translation tables, starts the
    other CPUs as workers, and runs one Linux guest whose memory it maps with
    stage-2 tables and whose devices it emulates.  This library models those
    parts as Rocq functions and programs, close to the Rust and assembly they
    translate, and proves what makes them correct.

    ** The program and its model

    Paths are relative to the repository; [util] is src/tvisor_util.

    Device trees and discovery
    - [DeviceTree] (third_party/dtoolkit/src): nodes, properties and the
      accessors the hypervisor calls, over a decoded tree of bytes.
    - [Dtb] (dtoolkit's fdt.rs, fdt/, model/writer.rs): validation of a blob,
      its iterators, the writer with its string table.
    - [BootArgs] (util/fdt.rs): U-Boot's argument vector in memory.
    - [Discovery] (util/fdt.rs): the console and the interrupt controller, with
      address translation through every bus.
    - [Platform] (util/platform.rs): RAM, reservations and device windows.
    - [Topology] (util/cpu_topology.rs): CPUs, their order and numbering.
    - [CpuStartup] (util/cpu_startup.rs, util/secondary_backend.rs): the release
      cells, their protection, and the selection of the platform.

    Memory and its ownership
    - [Page] (util/page.rs): alignment helpers.
    - [SystemInfo] (util/system_info.rs): [PhysRegion] and the array-backed
      [FixedList], refined to lists by [fl_rep].
    - [MemoryMap] (util/memory_map.rs): insertion with merging, subtraction of
      reservations, [finalize].
    - [PageAllocator] (util/page_allocator.rs): the two bitmaps and every
      operation; [pstate] is the map of page states they stand for.
    - [Mm] (src/src/mm.rs): the global allocator; [PageSource] is the interface
      its clients are proved against and [mm_source] discharges it.
    - [Takeover] (src/src/mm.rs): the memory map becomes the allocator.
    - [Heap] (util/heap_allocator.rs, src/src/heap.rs, util/allocation_check.rs,
      util/publish.rs): the Rust heap in pages of that allocator, over the
      interface [LinkedHeap] of the crate that manages its bytes.

    The processor
    - [Machine]: an executable semantics of the instructions the hand-written
      assembly uses, and a symbolic executor proved sound against it.
    - [Registers] (util/aarch64_reg.rs, [status_check] of src/src/main.rs): the
      register accessors and the checks before the takeover.
    - [BootEntry] (src/src/main.rs, src/src/boot.rs, src/src/host_el2_controls.S):
      clearing of the statics, the private stack and vectors, the switch of
      the translation regime.
    - [ExceptionEntry] (src/src/exception.rs, [panic] of src/src/main.rs): the
      vector table, the frame, the handler and the panic handler.
    - [WorldSwitch] (src/src/vcpu.rs): entry of the guest and both exits.

    The host's address space
    - [El2Stage1] (util/el2_stage1_translation.rs): the table pool, [map], the
      software [walk], the break-before-make replacement.
    - [HostMap], [HostSpace] (src/src/mm.rs, util/startup_resources.rs): the
      identity mappings, the gate that freezes the tables, and the life of the
      tables as the step relation [host_step]; the check of device mappings.
    - [StartupResources] (util/startup_resources.rs): what must be mapped
      before a CPU may be released.

    Starting the other CPUs
    - [El2Policy] (util/el2_policy.rs): the register profile and its one-time
      publication.
    - [Pcpu] (util/pcpu.rs): slots, guarded stacks, allocation with rollback.
    - [SecondaryMailbox] (util/secondary_mailbox.rs): the lifecycle.
    - [SecondaryEntry] (util/secondary_entry.rs): which CPUs start and which
      firmware cell releases each.
    - [Publication] (util/startup_publication.rs, util/secondary_hardware.rs):
      cache maintenance and the release of one CPU.
    - [SecondaryMain] (src/src/secondary.rs, util/secondary_validation.rs): the
      entry assembly, the readback validation, parking or failing.
    - [SecondaryBoot] (util/secondary_boot.rs): the collective boot status, the
      verification of all checkpoints, the deadline.
    - [CpuPreparation] (src/src/smp.rs, src/src/pcpu.rs): slots and stacks of all
      CPUs before any of them runs.
    - [StartAll] (src/src/secondary.rs, src/src/smp.rs): the collective start,
      composed of all of these.

    Running CPUs
    - [Management] (util/management.rs): the request channel between two CPUs.
    - [TlbUpdate] (util/tlb_update.rs): the change of a live host mapping.
    - [ManagementIrq] (src/src/management.rs, src/src/pcpu.rs): the dispatch of
      a doorbell interrupt, from acknowledging it to the reply.
    - [ManagementDriver] (src/src/management.rs, src/src/tlb.rs): interfaces,
      requests and waits, activation and test of the workers, their life, and
      parking them before the guest runs.
    - [Sync] (util/sync.rs): the lock that masks interrupts, over the interface
      [SpinMutex] of the spin crate.
    - [Failure] (util/failure.rs): first-failure records; [PublishOnce] is the
      discipline it shares with [El2Policy] and [Pcpu].

    The guest
    - [GuestStage2], [GuestPlatform], [LinuxBoot] (the util files of those
      names): descriptor and register encodings, the address layout, placement
      of image, device tree and initial RAM disk.
    - [Vmctl] (src/src/vmctl.rs): a VM's memory and stage-2 tables; [Stage2Tree]
      reads the tables as the hardware walks them, [VmIsolation] holds the
      invariant and the theorems.
    - [GuestFdt] (util/guest_fdt.rs): the guest's device tree; [IndexMap] is the
      interface of the ordered map it is built on.
    - [LinuxVm] (src/src/vmctl.rs, [run_linux_vm]): the preparation of the Linux
      guest out of all of these.
    - [GuestRun] (src/src/guest.rs): the loop that runs it, with an arbitrary
      guest.
    - [Mmio] (util/mmio.rs), [Gicv2] (util/gicv2.rs), [Vcpu] (src/src/vcpu.rs):
      emulated devices, the interrupt controller driver, exits and their
      emulation.

    ** How code is represented

    Machine integers are [Z] with their overflow written out ([add64] panics as
    the checked build does, [checked_add] is the method, [as_u8] truncates),
    indices are [nat].  Fallible code returns [outcome] ([Ok], [Err], or
    [Panic]); methods on [&mut self] are [stateful], so what they wrote before
    an error stays written.  Lock-free code is a [prog] of [Atomics]: a tree of
    atomic accesses whose interleavings are [concurrent]; acquire and release
    are read as sequential consistency.  Code that drives devices is a program
    of volatile accesses answered by an arbitrary device ([Gicv2.mmio]), or,
    where it also uses shared memory, a [prog] in which device registers are
    locations read with any value.  Cache and barrier instructions are
    locations of their own: only their place in the trace matters.  Assembly
    is a list of instructions of [Machine].  Where code runs under a lock its
    critical section is one step; [Sync] is about the lock itself.

    ** What the theorems show

    - Isolation: a guest reaches only memory its VM owns and devices mapped on
      purpose, in every state the VM's operations reach ([guest_isolated]), and
      releasing the VM gives every page back ([vm_release_restores]).
    - The Linux guest: a prepared VM has exactly the memory its device tree
      describes, with image and blob where its CPU expects them
      ([linux_guest_prepared]); the guest runs with exactly its own registers
      and the host gets its own back ([world_switch_transparent]); every exit
      is handled as the loop promises, and [guest_run_sound] lists the cases
      in which EL2 panics.
    - The takeover: no address is ever translated by a mixture of two regimes
      ([takeover_switch_safe]); an exception returns to code that does not
      notice it, and only for a handled interrupt or the test breakpoint
      ([exception_return_transparent]).
    - Device trees: a blob that validates can be read to its end
      ([validated_blob_readable]), writing and reading a tree give it back
      ([dtb_round_trip]), the guest's blob decodes to its configuration
      ([guest_dtb_describes]), and the accessors return exactly what a tree
      encodes ([device_tree_values_exact]).
    - Discovery: topology, startup memory, the memory map, the console and the
      interrupt controller are exactly what the tree describes, and discovery
      never panics ([topology_discovered], [startup_memory_protected], and the
      lemmas of [Platform] and [Discovery]).
    - The host's tables: mapping is exact ([TableSet_map_correct]), a live page
      is replaced by break-before-make ([replace_data_page_bbm]), no page is
      ever both writable and executable ([host_never_writable_executable]), and
      what was validated before the tables froze stays mapped
      ([frozen_resources_permanent]).
    - Memory: from the device tree to the allocator, pages handed out are RAM
      outside every reservation and the live device tree
      ([discovered_pages_safe]); the allocator's operations are exact on page
      states; the heap's blocks and the pages of others never overlap
      ([heap_memory_exclusive]).
    - Starting CPUs: what is prepared ([cpus_prepared]) is started in the order
      publish, release, park, verify ([collective_start_ordered]); the store
      that releases a CPU happens once and only after its publication
      ([release_secondary_ordered], [cell_written_once]); a CPU parks only with
      the registers of the published record
      ([secondary_parks_only_validated]), and one released as the protocol asks
      does park ([released_secondary_parks]).
    - Workers: they are activated, come up and are parked as the guest's start
      needs it ([secondaries_activated], [worker_comes_up], [workers_parked]),
      and a doorbell is completed before it is answered
      ([management_irq_completed]).
    - Protocols, for all interleavings: requests are served exactly once, live
      mappings change only when every member is quiet, the lifecycle has one
      entrant, records are never torn, a lock has one owner with its
      interrupts masked ([irq_lock_exclusive]).
    - Devices: a trapped access is contained, the UART refines a bounded queue,
      the driver touches only the controller's windows.

    ** Bounds and fuel

    Loops that are not structural take fuel from their callers, computed from
    the loop's own bound (pages of a region, slots of a list, polls of a wait);
    running out is [Panic] and the theorems show it does not happen
    (in [Dtb] the length of the blob bounds every walk over it).
    Programs that retry, poll or serve for ever ([claim_attempt], the waits of
    [ManagementDriver], the receive loop of [GuestRun]) take the number of
    turns; safety holds for every number.  [PageAllocator] is proved for every bitmap size
    below 2^64 bytes of aperture, [El2Stage1] for every pool size.

    ** Not modelled

    - The Rust code of src/src/main.rs and src/src/boot.rs that calls the
      modelled steps one after another, and in src/src/guest.rs the register
      writes that switch stage 2 on and off.
    - The crates linked_list_allocator, spin and indexmap, which are
      parameters with their documented laws.
    - Weak memory ordering, cache contents and timing.
    - Code behind test features, printing and the [Display] implementations,
      and the parts of the vendored dtoolkit that the hypervisor does not
      call. *)

From stdpp Require Export prelude numbers list.
From Stdlib Require Export ZArith Lia Bool Btauto.

#[global] Open Scope Z_scope.

(** ** Fallible code

    [outcome E A] is the result of a Rust expression of type [Result<A, E>]
    that may also panic: [Panic] stands for an arithmetic overflow in a build
    with overflow checks, an index out of range, a failed [expect] or
    [assert!], and for a loop whose fuel ran out.  A theorem that excludes
    [Panic] therefore shows that the checked and the wrapping builds agree
    and that the loop terminates. *)
Inductive outcome (E A : Type) : Type :=
| Ok (a : A)
| Err (e : E)
| Panic.
Arguments Ok {E A} a.
Arguments Err {E A} e.
Arguments Panic {E A}.

#[global] Instance outcome_eq_dec {E A} `{EqDecision E, EqDecision A} :
  EqDecision (outcome E A).
Proof. solve_decision. Defined.

Definition obind {E A B} (m : outcome E A) (k : A -> outcome E B) : outcome E B :=
  match m with
  | Ok a => k a
  | Err e => Err e
  | Panic => Panic
  end.

Definition outcome_map {E A B} (f : A -> B) (m : outcome E A) : outcome E B :=
  match m with
  | Ok a => Ok (f a)
  | Err e => Err e
  | Panic => Panic
  end.

Definition map_err {E F A} (f : E -> F) (m : outcome E A) : outcome F A :=
  match m with
  | Ok a => Ok a
  | Err e => Err (f e)
  | Panic => Panic
  end.

(** [opt.ok_or(e)] and [opt.expect(..)]/[opt.unwrap()]. *)
Definition ok_or {E A} (o : option A) (e : E) : outcome E A :=
  match o with Some a => Ok a | None => Err e end.

Definition expect {E A} (o : option A) : outcome E A :=
  match o with Some a => Ok a | None => Panic end.

Declare Scope outcome_scope.
Delimit Scope outcome_scope with outcome.

(** [let? x := m in k] is Rust's [let x = m?; k]; [reject b with e in k] is an
    early [return Err(e)] taken when [b] holds. *)
Notation "'let?' x ':=' m 'in' k" := (obind m (fun x => k))
  (at level 10, x pattern, m at level 100, k at level 200,
   format "'let?'  x  ':='  m  'in' '//' k") : outcome_scope.
Notation "'reject' b 'with' e 'in' k" := (if b then Err e else k)
  (at level 10, b at level 100, e at level 100, k at level 200,
   format "'reject'  b  'with'  e  'in' '//' k") : outcome_scope.
#[global] Open Scope outcome_scope.

Definition no_panic {E A} (m : outcome E A) : Prop := m <> Panic.

Definition is_ok {E A} (m : outcome E A) : bool :=
  match m with Ok _ => true | _ => false end.

(** ** Stateful fallible code

    A method that takes [&mut self] and returns a [Result]: the state it leaves
    is part of the result also when it returns an error. *)
Definition stateful (S E A : Type) : Type := S -> outcome E A * S.

Definition sret {S E A} (a : A) : stateful S E A := fun s => (Ok a, s).
Definition sfail {S E A} (e : E) : stateful S E A := fun s => (Err e, s).
Definition slift {S E A} (m : outcome E A) : stateful S E A := fun s => (m, s).
Definition sread {S E A} (f : S -> A) : stateful S E A := fun s => (Ok (f s), s).
Definition stry {S E A} (f : S -> outcome E A) : stateful S E A := fun s => (f s, s).
Definition supdate {S E} (f : S -> outcome E S) : stateful S E unit :=
  fun s => match f s with
           | Ok s' => (Ok tt, s')
           | Err e => (Err e, s)
           | Panic => (Panic, s)
           end.

Definition sbind {S E A B} (m : stateful S E A) (k : A -> stateful S E B) : stateful S E B :=
  fun s => match m s with
           | (Ok a, s') => k a s'
           | (Err e, s') => (Err e, s')
           | (Panic, s') => (Panic, s')
           end.

(** [let! x := m in k] is [let x = m?; k] for methods with side effects. *)
Notation "'let!' x ':=' m 'in' k" := (sbind m (fun x => k))
  (at level 10, x pattern, m at level 100, k at level 200,
   format "'let!'  x  ':='  m  'in' '//' k") : outcome_scope.

(** ** Machine integers

    A [u64], [usize], [u32] or [u8] is a [Z] in its range; the target is
    AArch64, so [usize] is 64 bits wide. *)
Definition u64 (z : Z) : Prop := 0 <= z < 2 ^ 64.
Definition u32 (z : Z) : Prop := 0 <= z < 2 ^ 32.
Definition u8 (z : Z) : Prop := 0 <= z < 2 ^ 8.

Definition checked_add (a b : Z) : option Z :=
  if a + b <? 2 ^ 64 then Some (a + b) else None.
Definition checked_sub (a b : Z) : option Z :=
  if b <=? a then Some (a - b) else None.
Definition checked_mul (a b : Z) : option Z :=
  if a * b <? 2 ^ 64 then Some (a * b) else None.
Definition saturating_add (a b : Z) : Z := Z.min (a + b) (2 ^ 64 - 1).
Definition saturating_sub (a b : Z) : Z := Z.max (a - b) 0.
Definition wrapping_add (a b : Z) : Z := (a + b) mod 2 ^ 64.
Definition wrapping_sub (a b : Z) : Z := (a - b) mod 2 ^ 64.

(** The unchecked operators [+], [-] and [*]. *)
Definition add64 {E} (a b : Z) : outcome E Z := expect (checked_add a b).
Definition sub64 {E} (a b : Z) : outcome E Z := expect (checked_sub a b).
Definition mul64 {E} (a b : Z) : outcome E Z := expect (checked_mul a b).

(** [!x] on a [u64], [x as u32], [x as u8]. *)
Definition not64 (x : Z) : Z := Z.land (Z.lnot x) (Z.ones 64).
Definition as_u32 (x : Z) : Z := Z.land x (Z.ones 32).
Definition as_u16 (x : Z) : Z := Z.land x (Z.ones 16).
Definition as_u8 (x : Z) : Z := Z.land x (Z.ones 8).

(** The field of [width] bits of a register from bit [shift] on, as the
    architecture reads it. *)
Definition field (v shift width : Z) : Z := Z.land (Z.shiftr v shift) (Z.ones width).

(** [x.is_power_of_two()]: exactly one bit set. *)
Definition is_power_of_two (x : Z) : bool :=
  (0 <? x) && (2 ^ Z.log2 x =? x).

(** ** Arrays

    Reads and writes of a Rust array or slice at an index; both panic out of
    range. *)
Definition arr_get {E A} (l : list A) (i : nat) : outcome E A := expect (l !! i).
Definition arr_set {E A} (l : list A) (i : nat) (x : A) : outcome E (list A) :=
  if (i <? length l)%nat then Ok (<[i := x]> l) else Panic.

(** ** Tactics *)

(** Case analysis on the outermost conditional or match of the goal or of a
    hypothesis. *)
Ltac case_step :=
  match goal with
  | |- context [if ?b then _ else _] => destruct b eqn:?
  | |- context [match ?x with _ => _ end] => destruct x eqn:?
  end.

Ltac case_hyp H :=
  match type of H with
  | context [if ?b then _ else _] => destruct b eqn:?
  | context [match ?x with _ => _ end] => destruct x eqn:?
  end.

(** Boolean comparisons of the code turned into the propositions they decide. *)
Ltac bool_prop :=
  repeat match goal with
  | H : (_ && _) = true |- _ => apply andb_true_iff in H; destruct H
  | H : (_ || _) = false |- _ => apply orb_false_iff in H; destruct H
  | H : (_ && _) = false |- _ => apply andb_false_iff in H
  | H : (_ || _) = true |- _ => apply orb_true_iff in H
  | H : negb _ = true |- _ => apply negb_true_iff in H
  | H : negb _ = false |- _ => apply negb_false_iff in H
  | H : (_ =? _) = true |- _ => apply Z.eqb_eq in H
  | H : (_ =? _) = false |- _ => apply Z.eqb_neq in H
  | H : (_ <? _) = true |- _ => apply Z.ltb_lt in H
  | H : (_ <? _) = false |- _ => apply Z.ltb_ge in H
  | H : (_ <=? _) = true |- _ => apply Z.leb_le in H
  | H : (_ <=? _) = false |- _ => apply Z.leb_gt in H
  | H : (_ =? _)%nat = true |- _ => apply Nat.eqb_eq in H
  | H : (_ =? _)%nat = false |- _ => apply Nat.eqb_neq in H
  | H : (_ <? _)%nat = true |- _ => apply Nat.ltb_lt in H
  | H : (_ <? _)%nat = false |- _ => apply Nat.ltb_ge in H
  | H : (_ <=? _)%nat = true |- _ => apply Nat.leb_le in H
  | H : (_ <=? _)%nat = false |- _ => apply Nat.leb_gt in H
  end.

(** Opens the first premise of [H] as a goal and specialises [H] with it. *)
Ltac discharge H :=
  match type of H with
  | ?P -> _ => let h := fresh "h" in assert (h : P); [| specialize (H h); clear h]
  end.

(** Peels the monadic prefix of a successful run in hypothesis [H]. *)
Ltac inv_ok H :=
  repeat first
    [ progress simpl in H
    | discriminate H
    | match type of H with
      | obind ?m _ = _ =>
          let E := fresh "Eq" in destruct m eqn:E; cbn [obind] in H; try discriminate H
      | (if ?b then _ else _) = _ =>
          let E := fresh "Eq" in destruct b eqn:E; try discriminate H
      | Ok _ = Ok _ => injection H as H
      end ].

(** ** Lemmas on outcomes *)

Create HintDb tv discriminated.
Create HintDb tv_bits discriminated.

Lemma obind_ok {E A B} (m : outcome E A) (k : A -> outcome E B) b :
  obind m k = Ok b <-> exists a, m = Ok a /\ k a = Ok b.
Proof. destruct m; simpl; naive_solver. Qed.

Lemma obind_err {E A B} (m : outcome E A) (k : A -> outcome E B) e :
  obind m k = Err e <-> m = Err e \/ exists a, m = Ok a /\ k a = Err e.
Proof. destruct m; simpl; naive_solver. Qed.

Lemma obind_assoc {E A B C} (m : outcome E A) (f : A -> outcome E B) (g : B -> outcome E C) :
  obind (obind m f) g = obind m (fun a => obind (f a) g).
Proof. by destruct m. Qed.

Lemma obind_ret_r {E A} (m : outcome E A) : obind m Ok = m.
Proof. by destruct m. Qed.

Lemma obind_no_panic {E A B} (m : outcome E A) (k : A -> outcome E B) :
  no_panic m -> (forall a, m = Ok a -> no_panic (k a)) -> no_panic (obind m k).
Proof. unfold no_panic. destruct m; simpl; naive_solver. Qed.

Lemma arr_get_ok {E A} (l : list A) i x : l !! i = Some x -> arr_get (E:=E) l i = Ok x.
Proof. unfold arr_get. by intros ->. Qed.

Lemma arr_get_inv {E A} (l : list A) i x : arr_get (E:=E) l i = Ok x -> l !! i = Some x.
Proof. unfold arr_get, expect. destruct (l !! i); naive_solver. Qed.

Lemma arr_get_lt {E A} (l : list A) i :
  (i < length l)%nat -> exists x, l !! i = Some x /\ arr_get (E:=E) l i = Ok x.
Proof. intros H. destruct (lookup_lt_is_Some_2 l i H) as [x Hx]. eauto using arr_get_ok. Qed.

Lemma arr_set_ok {E A} (l : list A) i x :
  (i < length l)%nat -> arr_set (E:=E) l i x = Ok (<[i := x]> l).
Proof. unfold arr_set. intros H. by rewrite (proj2 (Nat.ltb_lt _ _) H). Qed.

Lemma arr_set_inv {E A} (l l' : list A) i x :
  arr_set (E:=E) l i x = Ok l' -> (i < length l)%nat /\ l' = <[i := x]> l.
Proof. unfold arr_set. case_match; intros; simplify_eq. bool_prop. auto. Qed.

(** ** Lemmas on machine integers *)

Lemma checked_add_Some a b c : checked_add a b = Some c <-> c = a + b /\ a + b < 2 ^ 64.
Proof. unfold checked_add. case_match; bool_prop; naive_solver lia. Qed.

Lemma checked_add_ok a b : a + b < 2 ^ 64 -> checked_add a b = Some (a + b).
Proof. intros H. by apply checked_add_Some. Qed.

Lemma checked_add_None a b : checked_add a b = None <-> 2 ^ 64 <= a + b.
Proof. unfold checked_add. case_match; bool_prop; naive_solver lia. Qed.

Lemma checked_sub_Some a b c : checked_sub a b = Some c <-> c = a - b /\ b <= a.
Proof. unfold checked_sub. case_match; bool_prop; naive_solver lia. Qed.

Lemma add64_ok {E} a b : a + b < 2 ^ 64 -> add64 (E:=E) a b = Ok (a + b).
Proof. intros H. unfold add64. by rewrite (proj2 (checked_add_Some a b _) (conj eq_refl H)). Qed.

Lemma sub64_ok {E} a b : b <= a -> sub64 (E:=E) a b = Ok (a - b).
Proof. intros H. unfold sub64. by rewrite (proj2 (checked_sub_Some a b _) (conj eq_refl H)). Qed.

Lemma sub64_panic {E} a b : a < b -> sub64 (E:=E) a b = Panic.
Proof. intros H. unfold sub64, checked_sub. by rewrite (proj2 (Z.leb_gt _ _) H). Qed.

Lemma mul64_ok {E} a b : a * b < 2 ^ 64 -> mul64 (E:=E) a b = Ok (a * b).
Proof. intros H. unfold mul64, checked_mul. by rewrite (proj2 (Z.ltb_lt _ _) H). Qed.

Lemma is_power_of_two_spec x :
  is_power_of_two x = true <-> exists k, 0 <= k /\ x = 2 ^ k.
Proof.
  unfold is_power_of_two. rewrite andb_true_iff, Z.ltb_lt, Z.eqb_eq. split.
  - intros [H1 H2]. exists (Z.log2 x). split; [apply Z.log2_nonneg | done].
  - intros (k & Hk & ->). rewrite Z.log2_pow2 by done. split; [lia | done].
Qed.

(** A power of two that fits in a [u64] is [2 ^ k] with [k < 64]. *)
Lemma is_power_of_two_u64 x :
  u64 x -> is_power_of_two x = true -> exists k, 0 <= k < 64 /\ x = 2 ^ k.
Proof.
  intros [_ Hx] (k & Hk & ->)%is_power_of_two_spec. exists k.
  split; [|done]. apply Z.pow_lt_mono_r_iff in Hx; lia.
Qed.

Lemma ones_pred k : 0 <= k -> 2 ^ k - 1 = Z.ones k.
Proof. intros. rewrite Z.ones_equiv. lia. Qed.

Lemma land_pow2_pred v k : 0 <= k -> Z.land v (2 ^ k - 1) = v mod 2 ^ k.
Proof. intros. rewrite ones_pred, Z.land_ones by done. done. Qed.

Lemma u64_land_ones v : u64 v -> Z.land v (Z.ones 64) = v.
Proof. intros H. rewrite Z.land_ones by lia. apply Z.mod_small, H. Qed.

(** [v & !(2^k - 1)] clears the low [k] bits. *)
Lemma land_not64_pow2 v k :
  u64 v -> 0 <= k -> Z.land v (not64 (2 ^ k - 1)) = v - v mod 2 ^ k.
Proof.
  intros Hv Hk. unfold not64.
  rewrite (Z.land_comm (Z.lnot _)), Z.land_assoc, u64_land_ones by done.
  by rewrite <- Z.sub_land_same_l, land_pow2_pred.
Qed.

Lemma sub_mod_le v m : 0 < m -> 0 <= v -> 0 <= v - v mod m <= v.
Proof.
  intros. pose proof (Z.mod_pos_bound v m ltac:(lia)).
  pose proof (Z.mod_le v m ltac:(lia) ltac:(lia)). lia.
Qed.

Lemma sub_mod_aligned v m : 0 < m -> (v - v mod m) mod m = 0.
Proof. intros. by rewrite Zminus_mod_idemp_r, Z.sub_diag. Qed.

(** The largest multiple of [m] below [v], characterised. *)
Lemma sub_mod_largest v m w : 0 < m -> w mod m = 0 -> w <= v -> w <= v - v mod m.
Proof.
  intros Hm Hw Hle. rewrite Z.mod_eq in * by lia.
  pose proof (Z.div_le_mono w v m ltac:(lia) ltac:(lia)). nia.
Qed.

(** ** Bitwise equalities *)

Lemma testbit_bounded x n i : 0 <= x < 2 ^ n -> n <= i -> 0 <= n -> Z.testbit x i = false.
Proof. intros [H1 H2] Hi Hn. eapply Z.bounded_iff_bits_nonneg; eauto. Qed.

Lemma land_pow2_bit b k : 0 <= k -> Z.land b (2 ^ k) = if Z.testbit b k then 2 ^ k else 0.
Proof.
  intros Hk. apply Z.bits_inj'. intros j Hj. rewrite Z.land_spec, Z.pow2_bits_eqb by done.
  destruct (Z.eqb_spec k j) as [<-|Hne].
  - destruct (Z.testbit b k); [by rewrite Z.pow2_bits_true by done|by rewrite Z.bits_0].
  - rewrite andb_false_r. destruct (Z.testbit b k); [by rewrite Z.pow2_bits_false|by rewrite Z.bits_0].
Qed.

(** Joining a value below [2 ^ k] to a multiple of [2 ^ k] adds it. *)
Lemma lor_disjoint_add a x k : 0 <= k -> a mod 2 ^ k = 0 -> 0 <= x < 2 ^ k -> Z.lor a x = a + x.
Proof.
  intros Hk Ha Hx.
  assert (Hd : Z.land a x = 0).
  { apply Z.bits_inj'. intros i Hi. rewrite Z.land_spec, Z.bits_0.
    destruct (Z.lt_ge_cases i k).
    - rewrite <- (Z.mod_pow2_bits_low a k i), Ha, Z.bits_0 by done. done.
    - rewrite (testbit_bounded x k i) by done. apply andb_false_r. }
  rewrite Z.add_nocarry_lxor by done. by rewrite Z.lxor_lor.
Qed.

(** [x & (1 << k) != 0] tests bit [k]. *)
Lemma land_single_bit b k :
  0 <= k -> negb (Z.land b (Z.shiftl 1 k) =? 0) = Z.testbit b k.
Proof.
  intros Hk. rewrite Z.shiftl_1_l, land_pow2_bit by done.
  destruct (Z.testbit b k); [|done]. apply negb_true_iff, Z.eqb_neq. lia.
Qed.

#[export] Hint Rewrite Z.land_spec Z.lor_spec Z.lxor_spec Z.ldiff_spec Z.bits_0 : tv_bits.
#[export] Hint Rewrite Z.shiftl_spec Z.shiftr_spec Z.lnot_spec Z.testbit_ones_nonneg
  Z.pow2_bits_eqb Z.testbit_mod_pow2 using lia : tv_bits.

Ltac bits_step :=
  match goal with
  | |- context [?a <? ?b] => destruct (Z.ltb_spec a b)
  | |- context [?a <=? ?b] => destruct (Z.leb_spec a b)
  | |- context [?a =? ?b] => destruct (Z.eqb_spec a b)
  end.

Ltac bits_solve :=
  simpl; rewrite ?andb_false_r, ?andb_true_r, ?orb_false_r, ?orb_true_r;
  first [ done | lia | btauto | (f_equal; lia) | idtac ].

(** Extensionality on bits, then case analysis on the positions. *)
Ltac bitwise :=
  apply Z.bits_inj'; let i := fresh "i" in intros i ?;
  autorewrite with tv_bits; repeat bits_step; bits_solve.
