(* ===== verification/DeviceTree.v ===== *)
(** * Device trees: src/third_party/dtoolkit/src

    The reading interface of the vendored device tree library: property values
    (lib.rs, values.rs), names (util.rs, validate.rs), nodes and their standard
    properties (fdt/node.rs, standard.rs, standard/*.rs).  A node is a tree of
    names and byte strings; [Dtb] relates it to the flattened blob.  A string
    is the list of its bytes. *)

From Stdlib Require Import String.
Export String.StringSyntax.
From S2P Require Import Prelude.

(** ** Strings *)

Notation str := (list Z).

(** A string literal of the source. *)
Fixpoint bytes (s : String.string) : str :=
  match s with
  | String.EmptyString => []
  | String.String a s' => Z.of_N (Ascii.N_of_ascii a) :: bytes s'
  end.

Declare Scope bytes_scope.
Delimit Scope bytes_scope with bytes.
Notation "'b' s" := (bytes s%string) (at level 9, s at level 0, only parsing) : bytes_scope.
#[global] Open Scope bytes_scope.

Definition str_eqb (s t : str) : bool := bool_decide (s = t).

(** [s.split(sep)] *)
Fixpoint split_on (sep : Z) (s : str) : list str :=
  match s with
  | [] => [[]]
  | c :: s' =>
      if c =? sep then [] :: split_on sep s'
      else match split_on sep s' with
           | w :: ws => (c :: w) :: ws
           | [] => [[c]]
           end
  end.

Definition contains_char (c : Z) (s : str) : bool := existsb (Z.eqb c) s.
Definition starts_with (c : Z) (s : str) : bool := match s with x :: _ => x =? c | [] => false end.

(** The bytes before the first NUL and those after it, if there is one:
    [CStr::from_bytes_until_nul]. *)
Fixpoint until_nul (s : str) : option (str * str) :=
  match s with
  | [] => None
  | 0 :: s' => Some ([], s')
  | c :: s' => match until_nul s' with Some (w, rest) => Some (c :: w, rest) | None => None end
  end.

(** [core::str::from_utf8]: well-formed sequences of one to four bytes, without
    overlong forms, surrogates and values above U+10FFFF. *)
Definition cont (lo hi c : Z) : bool := (lo <=? c) && (c <=? hi).

Fixpoint valid_utf8 (s : str) : bool :=
  match s with
  | [] => true
  | c :: s1 =>
      if c <? 0x80 then valid_utf8 s1
      else match s1 with
      | c1 :: s2 =>
          if cont 0xc2 0xdf c then cont 0x80 0xbf c1 && valid_utf8 s2
          else match s2 with
          | c2 :: s3 =>
              if cont 0xe0 0xef c then
                cont (if c =? 0xe0 then 0xa0 else 0x80) (if c =? 0xed then 0x9f else 0xbf) c1
                && cont 0x80 0xbf c2 && valid_utf8 s3
              else match s3 with
              | c3 :: s4 =>
                  cont 0xf0 0xf4 c
                  && cont (if c =? 0xf0 then 0x90 else 0x80) (if c =? 0xf4 then 0x8f else 0xbf) c1
                  && cont 0x80 0xbf c2 && cont 0x80 0xbf c3 && valid_utf8 s4
              | [] => false
              end
          | [] => false
          end
      | [] => false
      end
  end.

(** ** Names: util.rs, validate.rs *)

Definition name_without_address (name : str) : str := hd [] (split_on 64 name).

Definition is_ascii_alphanumeric (c : Z) : bool := cont 48 57 c || cont 65 90 c || cont 97 122 c.

(** The letters and digits, and [,._+-]. *)
Definition is_valid_node_char (c : Z) : bool :=
  is_ascii_alphanumeric c || existsb (Z.eqb c) [44; 46; 95; 43; 45].

Definition is_valid_property_char (c : Z) : bool := is_valid_node_char c || existsb (Z.eqb c) [63; 35].

Definition is_valid_node_name (name : str) : bool :=
  match name with
  | [] => true
  | _ =>
      match split_on 64 name with
      | [] => false
      | node_name :: rest =>
          match rest with
          | _ :: _ :: _ => false
          | _ =>
              negb (str_eqb node_name []) && (length node_name <=? 31)%nat && forallb is_valid_node_char node_name
              && match rest with
                 | addr :: _ => negb (str_eqb addr []) && forallb is_valid_node_char addr
                 | [] => true
                 end
          end
      end
  end.

Definition is_valid_property_name (name : str) : bool :=
  negb (str_eqb name []) && forallb is_valid_property_char name.

(** [result.map_err(|_| e)] *)
Definition or_err {E F A} (r : outcome E A) (e : F) : outcome F A := Prelude.map_err (fun _ => e) r.

(** Evaluation of a sequence whose first step has become a value. *)
Ltac sequence := cbn [or_err Prelude.map_err obind ok_or negb].

(** [for x in l { f(x)?; }] *)
Fixpoint try_each {E A} (f : A -> outcome E unit) (l : list A) : outcome E unit :=
  match l with
  | [] => Ok ()
  | x :: rest => let? _ := f x in try_each f rest
  end.

Lemma try_each_Ok {E A} (f : A -> outcome E unit) l : try_each f l = Ok () <-> Forall (fun x => f x = Ok ()) l.
Proof.
  induction l as [|x l IH]; cbn [try_each]; [by split|]. rewrite Forall_cons, <- IH.
  destruct (f x) as [[]| |]; cbn [obind]; naive_solver.
Qed.

Lemma try_each_exact {E A} (f : A -> outcome E unit) (P : A -> Prop) l :
  (forall x, x ∈ l -> f x <> Panic /\ (f x = Ok () <-> P x)) ->
  try_each f l <> Panic /\ (try_each f l = Ok () <-> forall x, x ∈ l -> P x).
Proof.
  induction l as [|x l IH]; intros H; cbn [try_each]; [split; [done|]; by split; [intros _ x ?%elem_of_nil|]|].
  destruct (H x) as [Hn Hx]; [by left|]. destruct IH as [IHn IH]; [intros y Hy; apply H; by right|].
  destruct (f x) as [[]| |]; cbn [obind]; [| |done].
  - split; [done|]. rewrite IH. split; [|intros Hl y Hy; apply Hl; by right].
    intros Hl y [->|Hy]%elem_of_cons; [by apply Hx|by apply Hl].
  - split; [done|]. split; [done|]. intros Hl. discriminate (proj2 Hx). apply Hl. by left.
Qed.

(** ** Property values: lib.rs, values.rs *)

Inductive PropertyError := InvalidLength | InvalidString | PropEncodedArraySizeMismatch.
Inductive StandardError := TooManyCells | InvalidStatus | PropertyErr (e : PropertyError).

(** [uN::from_be_bytes] and [n.to_be_bytes()] for a value of [k] bytes. *)
Definition from_be_bytes (l : list Z) : Z := fold_left (fun v x => v * 256 + x) l 0.

Fixpoint to_be_bytes (k : nat) (n : Z) : list Z :=
  match k with
  | O => []
  | S k' => (n / 256 ^ Z.of_nat k') mod 256 :: to_be_bytes k' n
  end.

Record FdtProperty := mkProp { p_name : str; p_value : list Z }.

Definition Property_as_u32 (p : FdtProperty) : outcome PropertyError Z :=
  if (length (p_value p) =? 4)%nat then Ok (from_be_bytes (p_value p)) else Err InvalidLength.

Definition Property_as_u64 (p : FdtProperty) : outcome PropertyError Z :=
  if (length (p_value p) =? 8)%nat then Ok (from_be_bytes (p_value p)) else Err InvalidLength.

(** [CStr::from_bytes_with_nul]: one NUL, at the end. *)
Definition as_str (p : FdtProperty) : outcome PropertyError str :=
  match until_nul (p_value p) with
  | Some (s, []) => if valid_utf8 s then Ok s else Err InvalidString
  | _ => Err InvalidString
  end.

(** The strings the iterator yields before it ends; the fuel counts bytes. *)
Fixpoint str_list (fuel : nat) (value : list Z) : list str :=
  match fuel with
  | O => []
  | S fuel' =>
      match until_nul value with
      | Some (s, rest) => if valid_utf8 s then s :: str_list fuel' rest else []
      | None => []
      end
  end.

Definition as_str_list (p : FdtProperty) : list str := str_list (length (p_value p)) (p_value p).

(** [value.chunks_exact(n)], all of whose chunks are full. *)
Fixpoint chunks (fuel n : nat) (value : list Z) : list (list Z) :=
  match fuel with
  | O => []
  | S fuel' => match value with [] => [] | _ => take n value :: chunks fuel' n (drop n value) end
  end.

Definition chunks_exact (n : nat) (value : list Z) : list (list Z) := chunks (length value) n value.

(** A field of a chunk for each count of cells. *)
Fixpoint split_fields (fields : list Z) (cells : list Z) : list (list Z) :=
  match fields with
  | [] => []
  | n :: rest => take (Z.to_nat n) cells :: split_fields rest (drop (Z.to_nat n) cells)
  end.

(** The elements of a prop-encoded-array, each a list of fields of cells. *)
Definition as_prop_encoded_array (p : FdtProperty) (fields_cells : list Z) :
    outcome PropertyError (list (list (list Z))) :=
  let chunk_cells := fold_left Z.add fields_cells 0 in
  let chunk_bytes := chunk_cells * 4 in
  reject (chunk_cells =? 0) || negb (Z.of_nat (length (p_value p)) mod chunk_bytes =? 0)
    with PropEncodedArraySizeMismatch in
  Ok (map (fun chunk => split_fields fields_cells (map from_be_bytes (chunks_exact 4 chunk)))
        (chunks_exact (Z.to_nat chunk_bytes) (p_value p))).

(** [as_cells] *)
Definition as_cells (p : FdtProperty) : outcome PropertyError (list Z) :=
  reject negb (Z.of_nat (length (p_value p)) mod 4 =? 0) with InvalidLength in
  Ok (map from_be_bytes (chunks_exact 4 (p_value p))).

(** [cells.to_int::<u64>()] *)
Definition to_int (cells : list Z) : outcome StandardError Z :=
  if (8 <? length cells * 4)%nat then Err TooManyCells
  else Ok (fold_left (fun value cell => Z.lor (Z.shiftl value 32) cell) cells 0).

(** ** Nodes *)

Inductive dt_node := mkNode (name : str) (props : list FdtProperty) (children : list dt_node).

Definition node_name (n : dt_node) : str := let 'mkNode name _ _ := n in name.
Definition node_props (n : dt_node) : list FdtProperty := let 'mkNode _ props _ := n in props.
Definition node_children (n : dt_node) : list dt_node := let 'mkNode _ _ children := n in children.

Record AddressSpaceProperties := mkSpace { address_cells_of : Z; size_cells_of : Z }.

Definition DEFAULT_ADDRESS_CELLS : Z := 2.
Definition DEFAULT_SIZE_CELLS : Z := 1.

Definition AddressSpaceProperties_default : AddressSpaceProperties := mkSpace DEFAULT_ADDRESS_CELLS DEFAULT_SIZE_CELLS.

(** A node with the cell counts of its parent. *)
Record FdtNode := mkFdtNode { fn_node : dt_node; parent_address_space : AddressSpaceProperties }.

Definition name (n : FdtNode) : str := node_name (fn_node n).
Definition properties (n : FdtNode) : list FdtProperty := node_props (fn_node n).

Definition property (n : FdtNode) (key : str) : option FdtProperty :=
  List.find (fun p => str_eqb (p_name p) key) (properties n).

(** *** standard.rs *)

Definition is_compatible (n : FdtNode) (filter : str) : bool :=
  match property n (b"compatible") with
  | Some p => existsb (fun c => str_eqb c filter) (as_str_list p)
  | None => false
  end.

Inductive Status := Okay | Disabled | SReserved | Fail | FailSss.

#[global] Instance Status_eq_dec : EqDecision Status.
Proof. solve_decision. Defined.

Definition status_from_str (s : str) : outcome StandardError Status :=
  if str_eqb s (b"okay") then Ok Okay
  else if str_eqb s (b"disabled") then Ok Disabled
  else if str_eqb s (b"reserved") then Ok SReserved
  else if str_eqb s (b"fail") then Ok Fail
  else if str_eqb s (b"fail-sss") then Ok FailSss
  else Err InvalidStatus.

Definition status (n : FdtNode) : outcome StandardError Status :=
  match property n (b"status") with
  | Some p => let? s := Prelude.map_err PropertyErr (as_str p) in status_from_str s
  | None => Ok Okay
  end.

Definition address_cells (n : FdtNode) : outcome PropertyError Z :=
  match property n (b"#address-cells") with Some p => Property_as_u32 p | None => Ok DEFAULT_ADDRESS_CELLS end.

Definition size_cells (n : FdtNode) : outcome PropertyError Z :=
  match property n (b"#size-cells") with Some p => Property_as_u32 p | None => Ok DEFAULT_SIZE_CELLS end.

(** [r.unwrap_or(default)] *)
Definition unwrap_or {E A} (r : outcome E A) (default : A) : A := match r with Ok a => a | _ => default end.

Definition address_space (n : FdtNode) : AddressSpaceProperties :=
  mkSpace (unwrap_or (address_cells n) DEFAULT_ADDRESS_CELLS) (unwrap_or (size_cells n) DEFAULT_SIZE_CELLS).

Definition children (n : FdtNode) : list FdtNode :=
  map (fun c => mkFdtNode c (address_space n)) (node_children (fn_node n)).

Definition child (n : FdtNode) (key : str) : option FdtNode :=
  List.find (fun c => str_eqb (if contains_char 64 key then name c else name_without_address (name c)) key) (children n).

(** A [Reg]: address and size cells. *)
Record Reg := mkReg { reg_address : list Z; reg_size : list Z }.

Definition Reg_from_cells (fields : list (list Z)) : Reg := mkReg (nth 0 fields []) (nth 1 fields []).

Definition reg_named (n : FdtNode) (key : str) : outcome PropertyError (option (list Reg)) :=
  match property n key with
  | Some p =>
      let? l := as_prop_encoded_array p [address_cells_of (parent_address_space n); size_cells_of (parent_address_space n)] in
      Ok (Some (map Reg_from_cells l))
  | None => Ok None
  end.

Definition reg (n : FdtNode) : outcome PropertyError (option (list Reg)) := reg_named n (b"reg").

Record Range := mkRange { child_bus_address : list Z; parent_bus_address : list Z; range_length : list Z }.

Definition Range_from_cells (fields : list (list Z)) : Range :=
  mkRange (nth 0 fields []) (nth 1 fields []) (nth 2 fields []).

Definition ranges (n : FdtNode) : outcome PropertyError (option (list Range)) :=
  match property n (b"ranges") with
  | Some p =>
      let? l := as_prop_encoded_array p
        [unwrap_or (address_cells n) DEFAULT_ADDRESS_CELLS; address_cells_of (parent_address_space n);
         unwrap_or (size_cells n) DEFAULT_SIZE_CELLS] in
      Ok (Some (map Range_from_cells l))
  | None => Ok None
  end.

(** ** The tree: fdt.rs *)

(** The root, the memory reservation block and the length of the blob. *)
Record Fdt := mkFdt { fdt_root : dt_node; memory_reservations : list (Z * Z); data_len : Z }.

Definition root_node (fdt : Fdt) : FdtNode := mkFdtNode (fdt_root fdt) AddressSpaceProperties_default.

Fixpoint follow_path (n : FdtNode) (components : list str) : option FdtNode :=
  match components with
  | [] => Some n
  | c :: rest => match child n c with Some n' => follow_path n' rest | None => None end
  end.

Definition find_node (fdt : Fdt) (path : str) : option FdtNode :=
  if negb (starts_with 47 path) then None
  else if str_eqb path (b"/") then Some (root_node fdt)
  else follow_path (root_node fdt) (List.filter (fun s => negb (str_eqb s [])) (split_on 47 path)).

(** *** standard/chosen.rs, standard/memory.rs *)

Definition chosen (fdt : Fdt) : option FdtNode := find_node fdt (b"/chosen").

(** [opt.map(f).transpose()] *)
Definition transpose {E A B} (o : option A) (f : A -> outcome E B) : outcome E (option B) :=
  match o with Some a => let? x := f a in Ok (Some x) | None => Ok None end.

Definition stdout_path (n : FdtNode) : outcome PropertyError (option str) :=
  transpose (property n (b"stdout-path")) as_str.

Definition reserved_memory (fdt : Fdt) : option (list FdtNode) :=
  match find_node fdt (b"/reserved-memory") with Some n => Some (children n) | None => None end.

Definition has (n : FdtNode) (key : str) : bool := match property n key with Some _ => true | None => false end.

Definition ReservedMemory_size (n : FdtNode) : outcome PropertyError (option (list Z)) :=
  transpose (property n (b"size")) as_cells.

Definition alignment (n : FdtNode) : outcome PropertyError (option (list Z)) :=
  transpose (property n (b"alignment")) as_cells.

Definition alloc_ranges (n : FdtNode) : outcome PropertyError (option (list Reg)) := reg_named n (b"alloc-ranges").

Lemma dt_node_nested_ind (P : dt_node -> Prop) :
  (forall nm ps l, Forall P l -> P (mkNode nm ps l)) -> forall n, P n.
Proof.
  intros H. fix IH 1. intros [nm ps l]. apply H. induction l as [|c l IHl]; constructor; [apply IH|exact IHl].
Qed.

(** ** What is read from bytes fits its type *)

(** A tree whose property values are bytes. *)
Inductive bytes_node : dt_node -> Prop :=
| bytes_mkNode name props l :
    Forall (fun p => Forall u8 (p_value p)) props -> Forall bytes_node l ->
    bytes_node (mkNode name props l).

Record fdt_bytes (fdt : Fdt) : Prop := {
  fb_root : bytes_node (fdt_root fdt);
  fb_reservations : Forall (fun '(a, s) => u64 a /\ u64 s) (memory_reservations fdt);
  fb_len : u64 (data_len fdt)
}.

Definition from_bytes (n : FdtNode) : Prop := bytes_node (fn_node n).

Lemma fold_be_bound l v m :
  Forall u8 l -> 0 <= v < m ->
  0 <= fold_left (fun v x => v * 256 + x) l v < m * 256 ^ Z.of_nat (length l).
Proof.
  intros H. revert v m. induction H as [|x l [? Hx] _ IH]; intros v m Hv; cbn [fold_left length]; [rewrite Z.mul_1_r; lia|].
  rewrite Nat2Z.inj_succ, Z.pow_succ_r, Z.mul_assoc by lia. apply IH. lia.
Qed.

Lemma from_be_bytes_bound l : Forall u8 l -> 0 <= from_be_bytes l < 256 ^ Z.of_nat (length l).
Proof. intros H. pose proof (fold_be_bound l 0 1 H ltac:(lia)). unfold from_be_bytes. lia. Qed.

Lemma to_be_bytes_u8 k n : Forall u8 (to_be_bytes k n).
Proof. induction k as [|k IH]; cbn [to_be_bytes]; constructor; [apply Z.mod_pos_bound; lia|done]. Qed.

Lemma length_to_be_bytes k n : length (to_be_bytes k n) = k.
Proof. induction k as [|k IH]; cbn [to_be_bytes length]; congruence. Qed.

Lemma fold_be_shift l v :
  fold_left (fun v x => v * 256 + x) l v = v * 256 ^ Z.of_nat (length l) + from_be_bytes l.
Proof.
  unfold from_be_bytes. revert v. induction l as [|x l IH]; intros v; cbn [fold_left length]; [lia|].
  rewrite IH, (IH (0 * 256 + x)), Nat2Z.inj_succ, Z.pow_succ_r by lia. lia.
Qed.

Lemma from_be_cons x l : from_be_bytes (x :: l) = x * 256 ^ Z.of_nat (length l) + from_be_bytes l.
Proof. unfold from_be_bytes at 1. cbn [fold_left]. by rewrite fold_be_shift. Qed.

(** The two conversions are inverse to each other. *)
Lemma from_be_to_be k n : from_be_bytes (to_be_bytes k n) = n mod 256 ^ Z.of_nat k.
Proof.
  induction k as [|k IH]; [by rewrite Z.mod_1_r|]. cbn [to_be_bytes]. rewrite from_be_cons, length_to_be_bytes, IH.
  rewrite Nat2Z.inj_succ, Z.pow_succ_r, (Z.mul_comm 256) by lia.
  assert (0 < 256 ^ Z.of_nat k) by (apply Z.pow_pos_nonneg; lia). rewrite Z.rem_mul_r by lia. lia.
Qed.

Lemma to_be_skip k a n : to_be_bytes k (a * 256 ^ Z.of_nat k + n) = to_be_bytes k n.
Proof.
  revert a. induction k as [|k IH]; intros a; [done|]. cbn [to_be_bytes]. rewrite Nat2Z.inj_succ, Z.pow_succ_r by lia.
  assert (0 < 256 ^ Z.of_nat k) by (apply Z.pow_pos_nonneg; lia). f_equal.
  - replace (a * (256 * 256 ^ Z.of_nat k) + n) with (n + (a * 256) * 256 ^ Z.of_nat k) by lia.
    rewrite Z.div_add by lia. by rewrite Z.mod_add.
  - rewrite Z.mul_assoc. apply IH.
Qed.

Lemma to_be_from_be l : Forall u8 l -> to_be_bytes (length l) (from_be_bytes l) = l.
Proof.
  induction 1 as [|x l Hx Hl IH]; [done|]. cbn [length to_be_bytes]. rewrite from_be_cons, to_be_skip, IH. f_equal.
  pose proof (from_be_bytes_bound l Hl). rewrite Z.div_add_l, (Z.div_small (from_be_bytes l)), Z.add_0_r by lia.
  by apply Z.mod_small.
Qed.

Lemma chunks_ok {P : Z -> Prop} fuel n value :
  Forall P value -> Forall (fun c => Forall P c /\ (length c <= n)%nat) (chunks fuel n value).
Proof.
  revert value. induction fuel as [|fuel IH]; intros value H; cbn [chunks]; [constructor|].
  destruct value as [|x value]; [constructor|]. constructor; [|by apply IH, Forall_drop].
  split; [by apply Forall_take|]. rewrite length_take. lia.
Qed.

Lemma cells_u32 value :
  Forall u8 value -> Forall u32 (map from_be_bytes (chunks_exact 4 value)).
Proof.
  intros H. apply Forall_fmap. eapply Forall_impl; [by apply (chunks_ok (P:=u8))|]. cbn. intros c [Hc Hl].
  pose proof (from_be_bytes_bound c Hc). pose proof (Z.pow_le_mono_r 256 (Z.of_nat (length c)) 4 ltac:(lia) ltac:(lia)).
  unfold u32. change (2 ^ 32) with (256 ^ 4). lia.
Qed.

Lemma split_fields_u32 fields cells : Forall u32 cells -> Forall (Forall u32) (split_fields fields cells).
Proof.
  revert cells. induction fields as [|n fields IH]; intros cells H; cbn [split_fields]; constructor.
  - by apply Forall_take.
  - by apply IH, Forall_drop.
Qed.

Lemma to_int_u64 cells v : Forall u32 cells -> to_int cells = Ok v -> u64 v.
Proof.
  intros H. unfold to_int. destruct (Nat.ltb_spec 8 (length cells * 4)); [done|]. intros [= <-].
  destruct cells as [|c [|d [|e l]]]; cbn [length fold_left] in *; [unfold u64; lia| | |lia].
  - apply Forall_cons_1 in H as [[? ?] _]. rewrite Z.shiftl_0_l, Z.lor_0_l. unfold u64, u32 in *. lia.
  - apply Forall_cons_1 in H as [[? ?] [[? ?] _]%Forall_cons_1]. rewrite Z.shiftl_0_l, Z.lor_0_l.
    rewrite Z.shiftl_mul_pow2, (lor_disjoint_add _ d 32) by (lia || (by apply Z.mod_mul)). unfold u64. lia.
Qed.

Lemma property_bytes n key p : from_bytes n -> property n key = Some p -> Forall u8 (p_value p).
Proof.
  unfold from_bytes, property, properties. destruct (fn_node n) as [nm props l]. cbn [node_props].
  inversion 1 as [? ? ? Hp _]; subst. intros [Hin _]%find_some. rewrite Forall_forall in Hp. by apply Hp, list_elem_of_In.
Qed.

Lemma children_bytes n : from_bytes n -> Forall from_bytes (children n).
Proof.
  unfold from_bytes, children. destruct (fn_node n) as [nm props l] eqn:E. cbn [node_children]. inversion 1 as [? ? ? _ Hl]; subst.
  apply Forall_fmap. eapply Forall_impl; [exact Hl|]. done.
Qed.

Lemma follow_path_bytes n path m : from_bytes n -> follow_path n path = Some m -> from_bytes m.
Proof.
  revert n. induction path as [|c path IH]; intros n Hn; cbn [follow_path]; [by intros [= <-]|].
  unfold child. destruct (List.find _ (children n)) as [x|] eqn:E; [|done]. apply find_some in E as [Hin _].
  apply IH. pose proof (children_bytes n Hn) as Hc. rewrite Forall_forall in Hc. by apply Hc, list_elem_of_In.
Qed.

Lemma find_node_bytes fdt path m : fdt_bytes fdt -> find_node fdt path = Some m -> from_bytes m.
Proof.
  intros [Hr _ _]. unfold find_node. destruct (negb _); [done|]. destruct (str_eqb _ _); [by intros [= <-]|].
  by apply follow_path_bytes.
Qed.

Lemma as_prop_encoded_array_u32 p fields l :
  Forall u8 (p_value p) -> as_prop_encoded_array p fields = Ok l -> Forall (Forall (Forall u32)) l.
Proof.
  intros H. unfold as_prop_encoded_array. destruct (_ || _); [done|]. intros [= <-]. apply Forall_fmap.
  eapply Forall_impl; [by apply (chunks_ok (P:=u8))|]. cbn. intros c [Hc _]. by apply split_fields_u32, cells_u32.
Qed.

Lemma nth_u32 k (l : list (list Z)) : Forall (Forall u32) l -> Forall u32 (nth k l []).
Proof.
  revert k. induction l as [|c l IH]; intros k H; [destruct k; constructor|]. apply Forall_cons_1 in H as [? ?].
  destruct k; cbn [nth]; auto.
Qed.

Lemma reg_named_u64 n key l r :
  from_bytes n -> reg_named n key = Ok (Some l) -> r ∈ l ->
  (forall a, to_int (reg_address r) = Ok a -> u64 a) /\ (forall s, to_int (reg_size r) = Ok s -> u64 s).
Proof.
  intros Hn. unfold reg_named. destruct (property n key) as [p|] eqn:Ep; [|done].
  destruct (as_prop_encoded_array p _) as [fs| |] eqn:Ef; sequence; [|done..]. intros [= <-].
  pose proof (as_prop_encoded_array_u32 _ _ _ (property_bytes _ _ _ Hn Ep) Ef) as Hf.
  intros (f & -> & Hin)%list_elem_of_fmap. rewrite Forall_forall in Hf. specialize (Hf f Hin).
  split; intros v; apply to_int_u64; by apply nth_u32.
Qed.

Lemma ranges_u64 n l r :
  from_bytes n -> ranges n = Ok (Some l) -> r ∈ l ->
  (forall a, to_int (child_bus_address r) = Ok a -> u64 a) /\ (forall a, to_int (parent_bus_address r) = Ok a -> u64 a) /\
  (forall s, to_int (range_length r) = Ok s -> u64 s).
Proof.
  intros Hn. unfold ranges. destruct (property n _) as [p|] eqn:Ep; [|done].
  destruct (as_prop_encoded_array p _) as [fs| |] eqn:Ef; sequence; [|done..]. intros [= <-].
  pose proof (as_prop_encoded_array_u32 _ _ _ (property_bytes _ _ _ Hn Ep) Ef) as Hf.
  intros (f & -> & Hin)%list_elem_of_fmap. rewrite Forall_forall in Hf. specialize (Hf f Hin).
  split_and!; intros v; apply to_int_u64; by apply nth_u32.
Qed.

(** ** No accessor panics *)

Lemma to_int_total cells : to_int cells <> Panic.
Proof. unfold to_int. by destruct (_ <? _)%nat. Qed.

Lemma ranges_total n : ranges n <> Panic.
Proof.
  unfold ranges. destruct (property n _); [|done]. unfold as_prop_encoded_array. by destruct (_ || _).
Qed.

Lemma reg_named_total n key : reg_named n key <> Panic.
Proof. unfold reg_named. destruct (property n key); [|done]. unfold as_prop_encoded_array. by destruct (_ || _). Qed.

Lemma reg_total n : reg n <> Panic.
Proof. apply reg_named_total. Qed.

Lemma status_total n : status n <> Panic.
Proof.
  unfold status. destruct (property n _) as [p|]; [|done]. unfold as_str. destruct (until_nul _) as [[s [|? ?]]|]; [|done..].
  destruct (valid_utf8 s); [|done]. cbn. unfold status_from_str. by repeat case_match.
Qed.

Lemma as_str_total p : as_str p <> Panic.
Proof. unfold as_str. repeat case_match; done. Qed.

(** ** What the readers accept and return *)

(** Cells as bytes. *)
Definition cells_value (cells : list Z) : list Z := concat (map (to_be_bytes 4) cells).

Lemma chunks_concat n ls : forall fuel,
  (0 < n)%nat -> Forall (fun l => length l = n) ls -> (length (concat ls) <= fuel)%nat -> chunks fuel n (concat ls) = ls.
Proof.
  induction ls as [|l ls IH]; intros fuel Hn H Hf; cbn [concat] in *; [by destruct fuel|]. apply Forall_cons_1 in H as [Hl H].
  rewrite length_app in Hf. destruct fuel as [|fuel]; [lia|]. cbn [chunks]. destruct l as [|x l]; [cbn in Hl; lia|].
  change ((x :: l) ++ concat ls) with (x :: (l ++ concat ls)) at 1. cbn [app]. change (x :: l ++ concat ls) with ((x :: l) ++ concat ls).
  rewrite take_app_length', drop_app_length' by done. rewrite IH; [done|done|done|cbn [length] in *; lia].
Qed.

Lemma to_be_bytes_split k j n : to_be_bytes (k + j) n = to_be_bytes k (n / 256 ^ Z.of_nat j) ++ to_be_bytes j n.
Proof.
  induction k as [|k IH]; [done|]. cbn [Nat.add to_be_bytes app]. rewrite IH. do 2 f_equal.
  rewrite Nat2Z.inj_add, Z.div_div by lia. rewrite <- Z.pow_add_r by lia. do 2 f_equal. lia.
Qed.

Lemma concat_chunks n value : forall fuel,
  (0 < n)%nat -> (length value <= fuel)%nat -> Nat.divide n (length value) ->
  concat (chunks fuel n value) = value /\ Forall (fun c => length c = n) (chunks fuel n value).
Proof.
  intros fuel Hn. revert value. induction fuel as [|fuel IH]; intros value Hf [k Hk]; cbn [chunks].
  { destruct value; [by split|cbn in Hf; lia]. }
  destruct (decide (value = [])) as [->|Hne]; [by split|].
  assert (0 < length value)%nat by (destruct value; cbn; [done|lia]).
  assert (n <= length value)%nat by (destruct k; nia). destruct (IH (drop n value)) as [H1 H2].
  - rewrite length_drop. lia.
  - exists (k - 1)%nat. rewrite length_drop. nia.
  - destruct value as [|x v]; [done|]. cbn [concat]. rewrite H1, take_drop. split; [done|]. constructor; [|done].
    rewrite length_take. lia.
Qed.

Lemma length_concat_chunks {A} n (ls : list (list A)) : Forall (fun l => length l = n) ls -> length (concat ls) = (n * length ls)%nat.
Proof. induction 1 as [|l ls Hl _ IH]; cbn [concat length]; [lia|]. rewrite length_app, Hl, IH. lia. Qed.

Lemma cells_value_read cells : Forall u32 cells -> map from_be_bytes (chunks_exact 4 (cells_value cells)) = cells.
Proof.
  intros H. unfold chunks_exact, cells_value. rewrite chunks_concat; [|lia| |done].
  2: { apply Forall_map, Forall_forall. intros x _. apply length_to_be_bytes. }
  rewrite map_map. rewrite <- (map_id cells) at 2. apply map_ext_Forall. eapply Forall_impl; [exact H|].
  intros c Hc. rewrite from_be_to_be. by apply Z.mod_small.
Qed.

Lemma read_cells_value value :
  Forall u8 value -> Nat.divide 4 (length value) ->
  cells_value (map from_be_bytes (chunks_exact 4 value)) = value /\
  (4 * length (map from_be_bytes (chunks_exact 4 value)) = length value)%nat.
Proof.
  intros Hu Hd. destruct (concat_chunks 4 value (length value)) as [Hc Hl]; [lia|done|done|].
  assert (Hall : map (to_be_bytes 4) (map from_be_bytes (chunks_exact 4 value)) = chunks_exact 4 value).
  { rewrite map_map. rewrite <- (map_id (chunks_exact 4 value)) at 2. apply map_ext_Forall.
    pose proof (chunks_ok (P := u8) (length value) 4 value Hu) as Ho. rewrite Forall_forall in Hl, Ho. apply Forall_forall.
    intros c Hin. destruct (Ho c Hin) as [Hcu _]. rewrite <- (Hl c Hin). by apply to_be_from_be. }
  unfold cells_value. rewrite Hall. split; [exact Hc|]. 
  rewrite length_map. pose proof (length_concat_chunks 4 _ Hl) as E. rewrite Hc in E. unfold chunks_exact. lia.
Qed.

(** An element of an array has a field of so many cells for each count. *)
Definition element (counts : list Z) (e : list (list Z)) : Prop :=
  Forall2 (fun n f => Z.of_nat (length f) = n /\ Forall u32 f) counts e.

Definition element_value (e : list (list Z)) : list Z := cells_value (concat e).

Definition cell_count (counts : list Z) : Z := fold_left Z.add counts 0.

Lemma cell_count_cons n counts : cell_count (n :: counts) = n + cell_count counts.
Proof.
  unfold cell_count. cbn [fold_left]. generalize 0. revert n. induction counts as [|m counts IH]; intros n z; cbn [fold_left]; [lia|].
  replace (z + n + m) with ((z + m) + n) by lia. apply IH.
Qed.

Lemma split_fields_element counts e : element counts e -> split_fields counts (concat e) = e.
Proof.
  induction 1 as [|n f counts e [Hl _] _ IH]; cbn [split_fields concat]; [done|]. rewrite <- Hl, Nat2Z.id.
  by rewrite take_app_length, drop_app_length, IH.
Qed.

Lemma element_length counts e : element counts e -> Z.of_nat (length (concat e)) = cell_count counts.
Proof.
  induction 1 as [|n f counts e [Hl _] _ IH]; cbn [concat]; [done|]. rewrite cell_count_cons, length_app. lia.
Qed.

Lemma element_u32 counts e : element counts e -> Forall u32 (concat e).
Proof. induction 1 as [|n f counts e [_ Hu] _ IH]; cbn [concat]; [constructor|]. by apply Forall_app. Qed.

Lemma element_split_fields counts cells :
  Forall (Z.le 0) counts -> Forall u32 cells -> Z.of_nat (length cells) = cell_count counts ->
  element counts (split_fields counts cells) /\ concat (split_fields counts cells) = cells.
Proof.
  intros Hc. revert cells. induction Hc as [|n counts Hn Hc IH]; intros cells Hu Hl; cbn [split_fields concat].
  { split; [constructor|]. destruct cells; [done|]. cbn in Hl. lia. }
  rewrite cell_count_cons in Hl. assert (Hpos : 0 <= cell_count counts).
  { clear -Hc. induction Hc; [done|]. rewrite cell_count_cons. lia. }
  destruct (IH (drop (Z.to_nat n) cells)) as [He Hd]; [by apply Forall_drop|rewrite length_drop; lia|].
  rewrite Hd, take_drop. split; [|done]. constructor; [|done]. rewrite length_take. split; [lia|by apply Forall_take].
Qed.

(** The arrays that are read are exactly those whose encoding the value is. *)
Lemma array_exact p counts l :
  Forall u8 (p_value p) -> Forall (Z.le 0) counts ->
  as_prop_encoded_array p counts = Ok l <->
  0 < cell_count counts /\ Forall (element counts) l /\ p_value p = concat (map element_value l).
Proof.
  intros Hu Hc. unfold as_prop_encoded_array. fold (cell_count counts).
  assert (Hpos : 0 <= cell_count counts) by (clear -Hc; induction Hc; [done|]; rewrite cell_count_cons; lia).
  set (k := Z.to_nat (cell_count counts * 4)). split.
  - destruct (Z.eqb_spec (cell_count counts) 0) as [|Hne]; [done|]. cbn [orb].
    destruct (Z.eqb_spec (Z.of_nat (length (p_value p)) mod (cell_count counts * 4)) 0) as [Hm|]; [|done]. cbn [negb]. intros [= <-].
    destruct (concat_chunks k (p_value p) (length (p_value p))) as [Hcat Hlen]; [lia|done| |].
    { apply Z.mod_divide in Hm as [q Hq]; [|lia]. exists (Z.to_nat q). unfold k. nia. }
    pose proof (chunks_ok (P := u8) (length (p_value p)) k (p_value p) Hu) as Hok. fold (chunks_exact k (p_value p)) in *.
    assert (Hall : Forall (fun c => element counts (split_fields counts (map from_be_bytes (chunks_exact 4 c))) /\
      element_value (split_fields counts (map from_be_bytes (chunks_exact 4 c))) = c) (chunks_exact k (p_value p))).
    { rewrite Forall_forall in Hlen, Hok. apply Forall_forall. intros c Hin. specialize (Hlen c Hin). destruct (Hok c Hin) as [Hcu _].
      destruct (read_cells_value c Hcu) as [Hv Hl]; [exists (Z.to_nat (cell_count counts)); lia|].
      destruct (element_split_fields counts (map from_be_bytes (chunks_exact 4 c)) Hc (cells_u32 c Hcu)) as [He Hd]; [lia|].
      split; [done|]. unfold element_value. by rewrite Hd. }
    split; [lia|]. split; [apply Forall_fmap; eapply Forall_impl; [exact Hall|]; by intros c []|].
    rewrite map_map. rewrite <- Hcat at 1. f_equal. rewrite <- (map_id (chunks_exact k (p_value p))) at 1. apply map_ext_Forall.
    eapply Forall_impl; [exact Hall|]. by intros c [_ ->].
  - intros (H0 & Hl & ->). rewrite (proj2 (Z.eqb_neq (cell_count counts) 0)) by lia. cbn [orb].
    assert (Hlen : Forall (fun c => length c = k) (map element_value l)).
    { apply Forall_fmap. eapply Forall_impl; [exact Hl|]. intros e He. cbn. unfold element_value, cells_value.
      rewrite (length_concat_chunks 4), length_map by (apply Forall_map, Forall_forall; intros; apply length_to_be_bytes).
      pose proof (element_length _ _ He). lia. }
    rewrite (length_concat_chunks k _ Hlen), Nat2Z.inj_mul. unfold k at 1. rewrite Z2Nat.id by lia.
    rewrite Z.mul_comm, Z.mod_mul by lia. cbn [Z.eqb negb]. f_equal. unfold chunks_exact at 2.
    rewrite chunks_concat; [|lia|done|done]. rewrite map_map. rewrite <- (map_id l) at 2. apply map_ext_Forall.
    eapply Forall_impl; [exact Hl|]. intros e He. unfold element_value. rewrite cells_value_read by (by eapply element_u32).
    by apply split_fields_element.
Qed.

(** [l] is what [value] encodes, an array of elements with the fields of an [R]. *)
Definition encodes {R} (fields : R -> list (list Z)) (counts value : list Z) (l : list R) : Prop :=
  0 < cell_count counts /\ Forall (fun r => element counts (fields r)) l /\
  value = concat (map (fun r => element_value (fields r)) l).

Definition reg_fields (r : Reg) : list (list Z) := [reg_address r; reg_size r].
Definition range_fields (r : Range) : list (list Z) := [child_bus_address r; parent_bus_address r; range_length r].

Lemma encodes_exact {R} (from : list (list Z) -> R) fields counts p rs :
  (forall e, element counts e -> fields (from e) = e) -> (forall r, from (fields r) = r) ->
  Forall u8 (p_value p) -> Forall (Z.le 0) counts ->
  (let? l := as_prop_encoded_array p counts in Ok (Some (map from l))) = Ok (Some rs) <-> encodes fields counts (p_value p) rs.
Proof.
  intros Hfrom Hto Hu Hc. pose proof (fun l => array_exact p counts l Hu Hc) as Hex. unfold encodes. split.
  - destruct (as_prop_encoded_array p counts) as [l| |]; cbn [obind]; [|done..]. intros [= <-].
    destruct (proj1 (Hex l) eq_refl) as (H0 & Hl & ->). split; [done|].
    assert (Hf : Forall (fun e => fields (from e) = e) l) by (eapply Forall_impl; [exact Hl|apply Hfrom]). split.
    + apply Forall_fmap, Forall_forall. intros e He. rewrite Forall_forall in Hl, Hf. cbn. rewrite Hf by done. by apply Hl.
    + rewrite map_map. f_equal. apply map_ext_Forall. eapply Forall_impl; [exact Hf|]. by intros e ->.
  - intros (H0 & Hl & Hv). rewrite (proj2 (Hex (map fields rs))).
    + cbn [obind]. rewrite map_map. do 2 f_equal. rewrite <- (map_id rs) at 2. apply map_ext. exact Hto.
    + split; [done|]. split; [by apply Forall_fmap|]. by rewrite map_map.
Qed.

(** A number of at most two cells. *)
Definition reads_as (cells : list Z) (v : Z) : Prop :=
  (length cells <= 2)%nat /\ 0 <= v < 2 ^ (32 * Z.of_nat (length cells)) /\
  to_be_bytes (4 * length cells) v = cells_value cells.

Lemma to_be_inj k v w : 0 <= v < 256 ^ Z.of_nat k -> 0 <= w < 256 ^ Z.of_nat k -> to_be_bytes k v = to_be_bytes k w -> v = w.
Proof.
  intros Hv Hw E. apply (f_equal from_be_bytes) in E. rewrite !from_be_to_be, !Z.mod_small in E by done. exact E.
Qed.

Lemma to_int_exact cells : Forall u32 cells ->
  (forall v, to_int cells = Ok v <-> reads_as cells v) /\ (to_int cells = Err TooManyCells <-> (2 < length cells)%nat).
Proof.
  intros Hu. unfold to_int, reads_as. destruct (Nat.ltb_spec 8 (length cells * 4)) as [Hlt|Hle].
  { split; [intros v; split; [done|lia]|]. split; [lia|done]. }
  split; [|split; [done|lia]]. set (w := fold_left _ cells 0).
  assert (Hw : 0 <= w < 2 ^ (32 * Z.of_nat (length cells)) /\ to_be_bytes (4 * length cells) w = cells_value cells).
  { unfold w. clear w. destruct cells as [|c [|d [|e l]]]; cbn [length fold_left] in *; [by split| | |lia].
    - apply Forall_cons_1 in Hu as [Hc _]. rewrite Z.shiftl_0_l, Z.lor_0_l. split; [exact Hc|]. unfold cells_value. cbn [map concat]. by rewrite app_nil_r.
    - apply Forall_cons_1 in Hu as [Hc [Hd _]%Forall_cons_1]. rewrite Z.shiftl_0_l, Z.lor_0_l. unfold u32 in *.
      rewrite Z.shiftl_mul_pow2, (lor_disjoint_add _ d 32) by (lia || (by apply Z.mod_mul)). split; [cbn; lia|].
      change (4 * 2)%nat with (4 + 4)%nat. rewrite to_be_bytes_split. change (256 ^ Z.of_nat 4) with (2 ^ 32).
      rewrite Z.div_add_l, (Z.div_small d), Z.add_0_r by lia. change (2 ^ 32) with (256 ^ Z.of_nat 4). rewrite to_be_skip.
      unfold cells_value. cbn [map concat]. by rewrite app_nil_r. }
  assert (Hpow : 2 ^ (32 * Z.of_nat (length cells)) = 256 ^ Z.of_nat (4 * length cells)).
  { rewrite Nat2Z.inj_mul. change 256 with (2 ^ 8). rewrite <- Z.pow_mul_r by lia. f_equal. lia. }
  rewrite Hpow in *. destruct Hw as [Hw Hb]. intros v. split; [by intros [= <-]; split; [lia|]|].
  intros (_ & Hv & E). f_equal. by apply (to_be_inj (4 * length cells)); [..|rewrite E].
Qed.

(** ** The cell counts of a node found in a tree *)

Lemma be_bytes_exact k value v :
  Forall u8 value ->
  (if (length value =? k)%nat then Ok (from_be_bytes value) else Err InvalidLength) = Ok v <->
  0 <= v < 256 ^ Z.of_nat k /\ value = to_be_bytes k v.
Proof.
  intros Hu. destruct (Nat.eqb_spec (length value) k) as [El|Hne].
  - pose proof (from_be_bytes_bound _ Hu) as Hb. pose proof (to_be_from_be _ Hu) as Ht. rewrite El in Hb, Ht. split.
    + intros [= <-]. by split.
    + intros [Hv ->]. rewrite from_be_to_be. f_equal. by apply Z.mod_small.
  - split; [done|]. intros [_ E]. destruct Hne. rewrite E. apply length_to_be_bytes.
Qed.

Lemma Property_as_u32_exact p v : Forall u8 (p_value p) -> Property_as_u32 p = Ok v <-> u32 v /\ p_value p = to_be_bytes 4 v.
Proof. exact (be_bytes_exact 4 (p_value p) v). Qed.

Lemma Property_as_u64_exact p v : Forall u8 (p_value p) -> Property_as_u64 p = Ok v <-> u64 v /\ p_value p = to_be_bytes 8 v.
Proof. exact (be_bytes_exact 8 (p_value p) v). Qed.

Definition space_u32 (sp : AddressSpaceProperties) : Prop := u32 (address_cells_of sp) /\ u32 (size_cells_of sp).

Lemma address_space_u32 n : from_bytes n -> space_u32 (address_space n).
Proof.
  intros Hn. assert (Hcells : forall key d, u32 d ->
    u32 (unwrap_or (match property n key with Some p => Property_as_u32 p | None => Ok d end) d)).
  { intros key d Hd. destruct (property n key) as [p|] eqn:Ep; [|done]. destruct (Property_as_u32 p) as [v| |] eqn:E; [|done..].
    by apply (Property_as_u32_exact p v (property_bytes _ _ _ Hn Ep)) in E as [Hv _]. }
  split; by apply Hcells.
Qed.

Lemma find_node_space fdt path n : fdt_bytes fdt -> find_node fdt path = Some n -> space_u32 (parent_address_space n).
Proof.
  intros [Hr _ _]. unfold find_node. destruct (negb _); [done|]. assert (H0 : space_u32 (parent_address_space (root_node fdt))) by done.
  destruct (str_eqb _ _); [by intros [= <-]|]. assert (Hb : from_bytes (root_node fdt)) by exact Hr. revert Hb H0.
  generalize (root_node fdt). induction (List.filter _ _) as [|c path' IH]; intros m Hm Hs; cbn [follow_path]; [by intros [= <-]|].
  unfold child. destruct (List.find _ (children m)) as [x|] eqn:E; [|done]. apply find_some in E as [Hin%list_elem_of_In _].
  pose proof (children_bytes m Hm) as Hc. rewrite Forall_forall in Hc. apply IH; [by apply Hc|].
  unfold children in Hin. apply list_elem_of_fmap in Hin as (c' & -> & _). by apply address_space_u32.
Qed.

(** C37 [device_tree_values_exact]: the accessors of a node found in a device tree
    of bytes return exactly what the tree encodes.  A 32-bit or 64-bit number
    is read if and only if the property has its big-endian bytes and no
    others.  The registers and the ranges are read if and only if the property
    is the concatenation of their fields, each of as many cells as the node
    and its parent say, with at least one cell in an element; otherwise, if
    the property is there, it is an error.  The number of such a field is read if and only if
    it has at most two cells, of which it is the big-endian value; more cells
    are refused and never truncated. *)
Theorem device_tree_values_exact fdt path n :
  fdt_bytes fdt -> find_node fdt path = Some n ->
  (forall key p v, property n key = Some p ->
     (Property_as_u32 p = Ok v <-> u32 v /\ p_value p = to_be_bytes 4 v) /\
     (Property_as_u64 p = Ok v <-> u64 v /\ p_value p = to_be_bytes 8 v)) /\
  (let counts := [address_cells_of (parent_address_space n); size_cells_of (parent_address_space n)] in
   match property n (b"reg") with
   | Some p => reg n <> Ok None /\ reg n <> Panic /\ forall l, reg n = Ok (Some l) <-> encodes reg_fields counts (p_value p) l
   | None => reg n = Ok None
   end) /\
  (let counts := [address_cells_of (address_space n); address_cells_of (parent_address_space n); size_cells_of (address_space n)] in
   match property n (b"ranges") with
   | Some p => ranges n <> Ok None /\ ranges n <> Panic /\ forall l, ranges n = Ok (Some l) <-> encodes range_fields counts (p_value p) l
   | None => ranges n = Ok None
   end) /\
  (forall cells, Forall u32 cells ->
     (forall v, to_int cells = Ok v <-> reads_as cells v) /\ (to_int cells = Err TooManyCells <-> (2 < length cells)%nat)).
Proof.
  intros Hf Hn. pose proof (find_node_bytes _ _ _ Hf Hn) as Hb. pose proof (find_node_space _ _ _ Hf Hn) as [[Ha _] [Hs _]].
  destruct (address_space_u32 n Hb) as [[Hna _] [Hns _]]. split_and!.
  - intros key p v Hp. pose proof (property_bytes _ _ _ Hb Hp). split; [by apply Property_as_u32_exact|by apply Property_as_u64_exact].
  - destruct (property n (b"reg")) as [p|] eqn:Ep; [|by unfold reg, reg_named; rewrite Ep]. split_and!; [|apply reg_total|].
    + unfold reg, reg_named. rewrite Ep. by destruct (as_prop_encoded_array _ _).
    + intros l. unfold reg, reg_named. rewrite Ep. apply encodes_exact; [|by intros []|by eapply property_bytes|by repeat constructor].
      intros e He. inversion_clear He as [|? f ? e' _ He']. inversion_clear He' as [|? g ? e'' _ He'']. by inversion_clear He''.
  - destruct (property n (b"ranges")) as [p|] eqn:Ep; [|by unfold ranges; rewrite Ep]. split_and!; [|apply ranges_total|].
    + unfold ranges. rewrite Ep. by destruct (as_prop_encoded_array _ _).
    + intros l. unfold ranges. rewrite Ep. apply encodes_exact; [|by intros []|by eapply property_bytes|by repeat constructor].
      intros e He. inversion_clear He as [|? f ? e' _ He']. inversion_clear He' as [|? g ? e'' _ He''].
      inversion_clear He'' as [|? h ? e3 _ He3]. by inversion_clear He3.
  - apply to_int_exact.
Qed.

(** ** Concrete instances *)

Definition memory_tree : Fdt :=
  mkFdt (mkNode [] [] [mkNode (b"memory@0") [mkProp (b"reg") (to_be_bytes 8 0x80000000 ++ to_be_bytes 4 0x40000000)] []]) [] 0.

Lemma bytes_checked l : forallb (fun x => (0 <=? x) && (x <? 256)) l = true -> Forall u8 l.
Proof.
  intros H. apply Forall_forall. intros x Hx. rewrite forallb_forall in H. specialize (H x (proj1 (list_elem_of_In _ _) Hx)).
  unfold u8. lia.
Qed.

Ltac bytes_tree :=
  constructor;
  [repeat (constructor; [apply bytes_checked; vm_compute; reflexivity|]); constructor
  |repeat (constructor; [bytes_tree|]); constructor].

Lemma memory_tree_bytes : fdt_bytes memory_tree.
Proof. split; [bytes_tree|constructor|cbn; unfold u64; lia]. Qed.

Lemma device_tree_values_exact_witness :
  exists n l r, find_node memory_tree (b"/memory") = Some n /\ reg n = Ok (Some l) /\ r ∈ l /\
    encodes reg_fields [2; 1] (to_be_bytes 8 0x80000000 ++ to_be_bytes 4 0x40000000) l /\ reads_as (reg_address r) 0x80000000.
Proof.
  destruct (find_node memory_tree (b"/memory")) as [n|] eqn:E; [|by vm_compute in E].
  destruct (device_tree_values_exact memory_tree (b"/memory") n memory_tree_bytes E) as (_ & Hr & _ & Hi).
  vm_compute in E. injection E as <-. eexists _, _, _. split; [reflexivity|]. split; [vm_compute; reflexivity|].
  split; [by left|]. split.
  - apply Hr. vm_compute. reflexivity.
  - apply Hi; [apply Forall_cons_2; [cbn; unfold u32; lia|apply Forall_cons_2; [cbn; unfold u32; lia|constructor]]|]. vm_compute. reflexivity.
Defined.
