(* ===== verification/Dtb.v ===== *)
(** * Flattened device trees: src/third_party/dtoolkit/src/fdt.rs, fdt, model

    The blob behind the trees of [DeviceTree]: its validation, the iterators
    that read names, properties and children out of it, and the writer.  The
    iterators panic ([expect]) where the blob is malformed; a theorem shows that
    they do not on a blob that validation accepts, and another that reading
    what the writer wrote returns the tree.  Offsets are [nat]: they are sums
    of 32-bit fields and stay below the range of [usize]. *)

From S2P Require Import Prelude DeviceTree.

(** ** Errors and tokens *)

Inductive FdtErrorKind :=
| InvalidMagic
| UnsupportedVersion (version : Z)
| BlobInvalidLength
| InvalidHeader (why : str)
| BadToken (token : Z)
| InvalidOffset
| BlobInvalidString
| InvalidNodeName
| InvalidPropertyName
| MemReserveNotTerminated
| MemReserveInvalid.

Record FdtParseError := mkParseError { kind : FdtErrorKind; error_offset : nat }.

Notation perr k o := (Err (mkParseError k o)).

Definition FDT_VERSION : Z := 17.
Definition FDT_TAGSIZE : nat := 4.
Definition FDT_MAGIC : Z := 0xd00dfeed.
Definition FDT_BEGIN_NODE : Z := 1.
Definition FDT_END_NODE : Z := 2.
Definition FDT_END : Z := 9.
Definition FDT_PROP : Z := 3.
Definition FDT_NOP : Z := 4.

Inductive FdtToken := BeginNode | EndNode | Prop_ | Nop | End_.

#[global] Instance FdtToken_eq_dec : EqDecision FdtToken.
Proof. solve_decision. Defined.

Definition FdtToken_try_from (value : Z) : option FdtToken :=
  if value =? FDT_BEGIN_NODE then Some BeginNode
  else if value =? FDT_END_NODE then Some EndNode
  else if value =? FDT_PROP then Some Prop_
  else if value =? FDT_NOP then Some Nop
  else if value =? FDT_END then Some End_
  else None.

(** [offset.next_multiple_of(FDT_TAGSIZE)] *)
Definition align_tag_offset (offset : nat) : nat := ((offset + 3) / 4 * 4)%nat.

(** ** Reading *)

Section Reader.
Context (data : list Z).

(** [uN::ref_from_prefix(&data[offset..])], [k] bytes. *)
Definition be_at (k offset : nat) : option Z :=
  if (offset + k <=? length data)%nat then Some (from_be_bytes (take k (drop offset data))) else None.

(** A 32-bit field: [data_at_offset] and [ref_from_prefix]. *)
Definition read_u32 (offset : nat) : outcome FdtParseError Z :=
  reject (length data <? offset)%nat with mkParseError InvalidOffset offset in
  ok_or (be_at 4 offset) (mkParseError BlobInvalidLength offset).

Definition read_token (offset : nat) : outcome FdtParseError FdtToken :=
  let? value := read_u32 offset in
  ok_or (FdtToken_try_from value) (mkParseError (BadToken value) offset).

(** The header's fields, by their position. *)
Definition field (i : nat) : Z := from_be_bytes (take 4 (drop (4 * i) data)).
Definition magic : Z := field 0.
Definition totalsize : Z := field 1.
Definition off_dt_struct : nat := Z.to_nat (field 2).
Definition off_dt_strings : nat := Z.to_nat (field 3).
Definition off_mem_rsvmap : nat := Z.to_nat (field 4).
Definition version : Z := field 5.
Definition last_comp_version : Z := field 6.
Definition size_dt_strings : nat := Z.to_nat (field 8).
Definition size_dt_struct : nat := Z.to_nat (field 9).

(** [data.get(offset)] until a NUL; the fuel is the rest of the blob. *)
Fixpoint string_end_loop (start offset fuel : nat) : outcome FdtParseError nat :=
  match fuel with
  | O => perr BlobInvalidString start
  | S fuel' =>
      match data !! offset with
      | Some 0 => Ok (S offset)
      | Some _ => string_end_loop start (S offset) fuel'
      | None => perr BlobInvalidString start
      end
  end.

Definition find_string_end (start : nat) : outcome FdtParseError nat :=
  string_end_loop start start (S (length data - start)).

(** [data.get(offset..end)] *)
Definition get_range (offset stop : nat) : option (list Z) :=
  if (offset <=? stop)%nat && (stop <=? length data)%nat then Some (take (stop - offset) (drop offset data)) else None.

Definition string_at_offset (offset : nat) (stop : option nat) : outcome FdtParseError str :=
  let? slice := ok_or (get_range offset (match stop with Some e => e | None => length data end))
                  (mkParseError InvalidOffset offset) in
  match until_nul slice with
  | Some (val, _) => if valid_utf8 val then Ok val else perr BlobInvalidString offset
  | None => perr BlobInvalidString offset
  end.

Definition string (string_block_offset : nat) : outcome FdtParseError str :=
  let str_block_end := (off_dt_strings + size_dt_strings)%nat in
  let str_start := (off_dt_strings + string_block_offset)%nat in
  reject (str_block_end <=? str_start)%nat with mkParseError BlobInvalidLength str_start in
  string_at_offset str_start (Some str_block_end).

Definition next_property_offset (offset : nat) (check_name : bool) : outcome FdtParseError nat :=
  let? len := read_u32 offset in
  let nameoff_offset := (offset + FDT_TAGSIZE)%nat in
  let? nameoff := read_u32 nameoff_offset in
  let? _ :=
    if check_name then
      let? name := string (Z.to_nat nameoff) in
      reject negb (is_valid_property_name name) with mkParseError InvalidPropertyName (offset + FDT_TAGSIZE) in Ok ()
    else Ok () in
  let prop_offset := (offset + 2 * FDT_TAGSIZE)%nat in
  let end_offset := (prop_offset + Z.to_nat len)%nat in
  reject (length data <? end_offset)%nat with mkParseError BlobInvalidLength prop_offset in
  Ok (align_tag_offset end_offset).

(** The loop of [traverse_node]; every turn moves at least one tag forward, so
    the length of the blob is enough fuel, and it panics without. *)
Fixpoint traverse_loop (fuel offset depth : nat) (check_strings : bool) : outcome FdtParseError nat :=
  match fuel with
  | O => Panic
  | S fuel' =>
      let? token := read_token offset in
      match token with
      | BeginNode =>
          let depth := S depth in
          let offset := (offset + FDT_TAGSIZE)%nat in
          let? end_offset := find_string_end offset in
          let? _ :=
            if check_strings then
              let? name := string_at_offset offset (Some end_offset) in
              if (depth =? 1)%nat then reject negb (str_eqb name []) with mkParseError InvalidNodeName offset in Ok ()
              else reject str_eqb name [] || negb (is_valid_node_name name) with mkParseError InvalidNodeName offset in Ok ()
            else Ok () in
          traverse_loop fuel' (align_tag_offset end_offset) depth check_strings
      | EndNode =>
          match depth with
          | O => perr (BadToken FDT_END_NODE) offset
          | S depth =>
              let offset := (offset + FDT_TAGSIZE)%nat in
              if (depth =? 0)%nat then Ok offset else traverse_loop fuel' offset depth check_strings
          end
      | Prop_ =>
          let? offset := next_property_offset (offset + FDT_TAGSIZE) check_strings in
          traverse_loop fuel' offset depth check_strings
      | Nop => traverse_loop fuel' (offset + FDT_TAGSIZE) depth check_strings
      | End_ => perr (BadToken FDT_END) offset
      end
  end.

Definition traverse_node (offset : nat) (check_strings : bool) : outcome FdtParseError nat :=
  traverse_loop (S (length data)) offset 0 check_strings.

Definition next_sibling_offset (offset : nat) : outcome FdtParseError nat := traverse_node offset false.

(** *** Validation *)

Definition bad_header (why : str) (field : nat) : outcome FdtParseError unit := perr (InvalidHeader why) (4 * field).

Definition validate_header : outcome FdtParseError unit :=
  if (off_mem_rsvmap <? 40)%nat then bad_header (b"memrsvmap not after header") 4
  else if (off_dt_struct <? off_mem_rsvmap)%nat then bad_header (b"dt_struct not after memrsvmap") 4
  else if negb (off_mem_rsvmap mod 8 =? 0)%nat then bad_header (b"memrsvmap is not 8-byte aligned") 4
  else if (length data <? off_dt_struct)%nat then bad_header (b"struct offset out of bounds") 2
  else if negb (off_dt_struct mod 4 =? 0)%nat then bad_header (b"struct offset is not 4-byte aligned") 2
  else if (length data <? off_dt_strings)%nat then bad_header (b"strings offset out of bounds") 3
  else if (length data <? off_dt_struct + size_dt_struct)%nat then bad_header (b"struct block overflows") 9
  else if (length data <? off_dt_strings + size_dt_strings)%nat then bad_header (b"strings block overflows") 8
  else if (off_dt_strings <? off_dt_struct + size_dt_struct)%nat then bad_header (b"strings block not after struct block") 3
  else Ok ().

(** A reservation: [None] if it does not fit the blob. *)
Definition reservation_at (offset : nat) : option (Z * Z) :=
  match be_at 8 offset, be_at 8 (offset + 8) with
  | Some a, Some s => Some (a, s)
  | _, _ => None
  end.

Definition is_terminator '((address, size) : Z * Z) : bool := (address =? 0) && (size =? 0).

Fixpoint mem_reservations_loop (fuel offset : nat) : outcome FdtParseError unit :=
  match fuel with
  | O => Panic
  | S fuel' =>
      reject (off_dt_struct <=? offset)%nat with mkParseError MemReserveNotTerminated offset in
      if (length data <? offset)%nat then Panic
      else
        let? reservation := ok_or (reservation_at offset) (mkParseError MemReserveInvalid offset) in
        if is_terminator reservation then Ok () else mem_reservations_loop fuel' (offset + 16)
  end.

Definition validate_mem_reservations : outcome FdtParseError unit :=
  mem_reservations_loop (S (length data)) off_mem_rsvmap.

Definition validate : outcome FdtParseError unit :=
  reject (length data <? 40)%nat with mkParseError BlobInvalidLength 0 in
  reject negb (magic =? FDT_MAGIC) with mkParseError InvalidMagic 0 in
  reject negb ((last_comp_version <=? FDT_VERSION) && (FDT_VERSION <=? version))
    with mkParseError (UnsupportedVersion version) 20 in
  reject negb (totalsize =? Z.of_nat (length data)) with mkParseError BlobInvalidLength 4 in
  let? _ := validate_header in
  let? _ := validate_mem_reservations in
  let offset := off_dt_struct in
  let? token := read_token offset in
  reject negb (bool_decide (token = BeginNode)) with mkParseError (BadToken FDT_BEGIN_NODE) offset in
  let? end_offset := traverse_node offset true in
  let? token := read_token end_offset in
  reject negb (bool_decide (token = End_)) with mkParseError (BadToken FDT_END) end_offset in
  Ok ().

(** *** Iterators *)

(** [result.expect("Fdt should be valid")] *)
Definition expected {E A} (r : outcome E A) : outcome unit A := match r with Ok a => Ok a | _ => Panic end.

Definition name_at (offset : nat) : outcome unit str := expected (string_at_offset (offset + FDT_TAGSIZE) None).

(** The first offset after a node's name, where both iterators start. *)
Definition iter_start (offset : nat) : outcome unit nat :=
  let? e := expected (find_string_end (offset + FDT_TAGSIZE)) in Ok (align_tag_offset e).

(** The properties [next_property_impl] yields from [offset] on. *)
Fixpoint properties_from (fuel offset : nat) : outcome unit (list FdtProperty) :=
  match fuel with
  | O => Panic
  | S fuel' =>
      let? token := expected (read_token offset) in
      match token with
      | Prop_ =>
          let? len := expected (ok_or (be_at 4 (offset + FDT_TAGSIZE)) ()) in
          let? nameoff := expected (ok_or (be_at 4 (offset + 2 * FDT_TAGSIZE)) ()) in
          let value_offset := (offset + 3 * FDT_TAGSIZE)%nat in
          let? name := expected (string (Z.to_nat nameoff)) in
          let? value := expected (ok_or (get_range value_offset (value_offset + Z.to_nat len)) ()) in
          let? rest := properties_from fuel' (align_tag_offset (value_offset + Z.to_nat len)) in
          Ok (mkProp name value :: rest)
      | Nop => properties_from fuel' (offset + FDT_TAGSIZE)
      | _ => Ok []
      end
  end.

(** The offsets of the children [next_child_parsed] yields. *)
Fixpoint children_from (fuel offset : nat) : outcome unit (list nat) :=
  match fuel with
  | O => Panic
  | S fuel' =>
      let? token := expected (read_token offset) in
      match token with
      | BeginNode =>
          let? next := expected (next_sibling_offset offset) in
          let? rest := children_from fuel' next in
          Ok (offset :: rest)
      | Prop_ =>
          let? next := expected (next_property_offset (offset + FDT_TAGSIZE) false) in
          children_from fuel' next
      | EndNode | End_ => Ok []
      | Nop => children_from fuel' (offset + FDT_TAGSIZE)
      end
  end.

Definition properties_at (offset : nat) : outcome unit (list FdtProperty) :=
  let? start := iter_start offset in properties_from (S (length data)) start.

Definition children_at (offset : nat) : outcome unit (list nat) :=
  let? start := iter_start offset in children_from (S (length data)) start.

(** The tree the accessors show below a node, [fuel] levels deep. *)
Fixpoint tree_at (fuel offset : nat) : outcome unit dt_node :=
  match fuel with
  | O => Panic
  | S fuel' =>
      let? name := name_at offset in
      let? props := properties_at offset in
      let? offsets := children_at offset in
      let? l := (fix each (l : list nat) : outcome unit (list dt_node) :=
                   match l with
                   | [] => Ok []
                   | o :: rest => let? n := tree_at fuel' o in let? ns := each rest in Ok (n :: ns)
                   end) offsets in
      Ok (mkNode name props l)
  end.

Fixpoint reservations_from (fuel offset : nat) : outcome unit (list (Z * Z)) :=
  match fuel with
  | O => Panic
  | S fuel' =>
      let? reservation := expected (ok_or (reservation_at offset) ()) in
      if is_terminator reservation then Ok []
      else let? rest := reservations_from fuel' (offset + 16) in Ok (reservation :: rest)
  end.

(** Everything the reading interface shows of a blob. *)
Definition decode : outcome unit Fdt :=
  let? root := tree_at (S (length data)) off_dt_struct in
  let? reservations := reservations_from (S (length data)) off_mem_rsvmap in
  Ok (mkFdt root reservations (Z.of_nat (length data))).

(** [Fdt::new] *)
Definition Fdt_new : outcome FdtParseError Fdt :=
  let? _ := validate in
  match decode with Ok fdt => Ok fdt | _ => Panic end.

End Reader.

(** ** Writing: model/writer.rs *)

Definition LAST_VERSION : Z := 17.
Definition LAST_COMP_VERSION : Z := 16.

(** The map from names to their offsets in the strings block. *)
Record StringMap := mkStringMap { string_map : list (str * Z); next_offset : Z }.

Definition StringMap_new : StringMap := mkStringMap [] 0.

Definition StringMap_get (self : StringMap) (key : str) : option Z :=
  snd <$> List.find (fun e => str_eqb (fst e) key) (string_map self).

(** [u32::try_from(x).expect(..)] *)
Definition expect_u32 (x : Z) : outcome unit Z := if x <? 2 ^ 32 then Ok x else Panic.

Definition StringMap_insert (self : StringMap) (key : str) : outcome unit StringMap :=
  match StringMap_get self key with
  | Some _ => Ok self
  | None =>
      let offset := next_offset self in
      let? next := expect_u32 (offset + Z.of_nat (length key) + 1) in
      Ok (mkStringMap (string_map self ++ [(key, offset)]) next)
  end.

Definition get_offset (self : StringMap) (key : str) : outcome unit Z := expect (StringMap_get self key).

(** [items.sort_unstable_by_key(|(_, offset)| offset)]; offsets are distinct. *)
Fixpoint insert_by_offset (e : str * Z) (l : list (str * Z)) : list (str * Z) :=
  match l with
  | [] => [e]
  | x :: rest => if snd e <=? snd x then e :: l else x :: insert_by_offset e rest
  end.

Fixpoint sort_by_offset (l : list (str * Z)) : list (str * Z) :=
  match l with
  | [] => []
  | e :: rest => insert_by_offset e (sort_by_offset rest)
  end.

Definition write_string_block (self : StringMap) (dtb : list Z) : list Z :=
  fold_left (fun dtb e => dtb ++ fst e ++ [0]) (sort_by_offset (string_map self)) dtb.

Definition calculate_prop_size (sm : StringMap) (prop : FdtProperty) : outcome unit (StringMap * nat) :=
  let? sm := StringMap_insert sm (p_name prop) in
  Ok (sm, (FDT_TAGSIZE + 4 + 4 + align_tag_offset (length (p_value prop)))%nat).

Fixpoint calculate_props_size (sm : StringMap) (l : list FdtProperty) (size : nat) : outcome unit (StringMap * nat) :=
  match l with
  | [] => Ok (sm, size)
  | prop :: rest =>
      let? r := calculate_prop_size sm prop in
      let '(sm, n) := r in calculate_props_size sm rest (size + n)
  end.

Fixpoint calculate_node_size (sm : StringMap) (node : dt_node) : outcome unit (StringMap * nat) :=
  let 'mkNode name props l := node in
  let name_len := (length name + 1)%nat in
  let size := (FDT_TAGSIZE + align_tag_offset name_len)%nat in
  let? r := calculate_props_size sm props size in
  let? r := (fix each (l : list dt_node) (r : StringMap * nat) : outcome unit (StringMap * nat) :=
               match l with
               | [] => Ok r
               | child :: rest =>
                   let? c := calculate_node_size (fst r) child in
                   each rest (fst c, (snd r + snd c)%nat)
               end) l r in
  Ok (fst r, (snd r + FDT_TAGSIZE)%nat).

(** [vec.resize(align_tag_offset(vec.len()), 0)] *)
Definition align (vec : list Z) : list Z := vec ++ replicate (align_tag_offset (length vec) - length vec) 0.

Definition write_prop (dtb : list Z) (sm : StringMap) (prop : FdtProperty) : outcome unit (list Z) :=
  let? name_offset := get_offset sm (p_name prop) in
  let? len := expect_u32 (Z.of_nat (length (p_value prop))) in
  Ok (align (dtb ++ to_be_bytes 4 FDT_PROP ++ to_be_bytes 4 len ++ to_be_bytes 4 name_offset ++ p_value prop)).

Fixpoint write_props (dtb : list Z) (sm : StringMap) (l : list FdtProperty) : outcome unit (list Z) :=
  match l with
  | [] => Ok dtb
  | prop :: rest => let? dtb := write_prop dtb sm prop in write_props dtb sm rest
  end.

Fixpoint write_node (dtb : list Z) (sm : StringMap) (node : dt_node) : outcome unit (list Z) :=
  let 'mkNode name props l := node in
  let dtb := align (dtb ++ to_be_bytes 4 FDT_BEGIN_NODE ++ name ++ [0]) in
  let? dtb := write_props dtb sm props in
  let? dtb := (fix each (l : list dt_node) (dtb : list Z) : outcome unit (list Z) :=
                 match l with
                 | [] => Ok dtb
                 | child :: rest => let? dtb := write_node dtb sm child in each rest dtb
                 end) l dtb in
  Ok (dtb ++ to_be_bytes 4 FDT_END_NODE).

(** A tree to be written. *)
Record DeviceTree := mkDeviceTree { dt_root : dt_node; dt_reservations : list (Z * Z) }.

Definition write_memory_reservations (self : DeviceTree) (dtb : list Z) : list Z :=
  dtb ++ concat (map (fun '(a, s) => to_be_bytes 8 a ++ to_be_bytes 8 s) (dt_reservations self)) ++
  to_be_bytes 8 0 ++ to_be_bytes 8 0.

Definition write_root (self : DeviceTree) (dtb : list Z) (sm : StringMap) : outcome unit (list Z) :=
  let? dtb := write_node dtb sm (dt_root self) in Ok (dtb ++ to_be_bytes 4 FDT_END).

(** The header's ten fields. *)
Definition generate_header (self : DeviceTree) : outcome unit (StringMap * list Z) :=
  let mem_reservations_size := ((length (dt_reservations self) + 1) * 16)%nat in
  let? r := calculate_node_size StringMap_new (dt_root self) in
  let '(sm, node_size) := r in
  let dt_struct_size := (node_size + FDT_TAGSIZE)%nat in
  let dt_strings_size := Z.to_nat (next_offset sm) in
  let off_mem_rsvmap := 40%nat in
  let off_dt_struct := (off_mem_rsvmap + mem_reservations_size)%nat in
  let off_dt_strings := (off_dt_struct + dt_struct_size)%nat in
  let totalsize := (off_dt_strings + dt_strings_size)%nat in
  let? totalsize' := expect_u32 (Z.of_nat totalsize) in
  let? off_dt_struct' := expect_u32 (Z.of_nat off_dt_struct) in
  let? off_dt_strings' := expect_u32 (Z.of_nat off_dt_strings) in
  let? off_mem_rsvmap' := expect_u32 (Z.of_nat off_mem_rsvmap) in
  let? size_dt_strings' := expect_u32 (Z.of_nat (totalsize - off_dt_strings)) in
  let? size_dt_struct' := expect_u32 (Z.of_nat (off_dt_strings - off_dt_struct)) in
  Ok (sm, [FDT_MAGIC; totalsize'; off_dt_struct'; off_dt_strings'; off_mem_rsvmap'; LAST_VERSION; LAST_COMP_VERSION;
           0; size_dt_strings'; size_dt_struct']).

Definition to_dtb (self : DeviceTree) : outcome unit (list Z) :=
  let? r := generate_header self in
  let '(sm, header) := r in
  let dtb := concat (map (to_be_bytes 4) header) in
  let dtb := write_memory_reservations self dtb in
  let? dtb := write_root self dtb sm in
  let dtb := write_string_block sm dtb in
  if (Z.of_nat (length dtb) =? nth 1 header 0) then Ok dtb else Panic.

(** ** The structure of a blob *)

(** What a walk over a node's body meets, in order. *)
Inductive event := EProp (p : FdtProperty) | ENode (n : dt_node) (start stop : nat).

(** The property iterator stops at the first child. *)
Fixpoint props_of (l : list event) : list FdtProperty :=
  match l with EProp p :: rest => p :: props_of rest | _ => [] end.

Fixpoint nodes_of (l : list event) : list (dt_node * nat * nat) :=
  match l with
  | [] => []
  | ENode n s e :: rest => (n, s, e) :: nodes_of rest
  | EProp _ :: rest => nodes_of rest
  end.

Definition trees_of (l : list event) : list dt_node := map (fun '(n, _, _) => n) (nodes_of l).

Section Structure.
Context (data : list Z).

(** A property at the offset of its tag. *)
Record prop_at (offset : nat) (p : FdtProperty) (next : nat) : Prop := {
  pa_len : exists len, read_u32 data (offset + 4) = Ok len /\ p_value p = take (Z.to_nat len) (drop (offset + 12) data) /\
    (offset + 12 + Z.to_nat len <= length data)%nat /\ next = align_tag_offset (offset + 12 + Z.to_nat len);
  pa_name : exists nameoff, read_u32 data (offset + 8) = Ok nameoff /\ string data (Z.to_nat nameoff) = Ok (p_name p);
  pa_valid : is_valid_property_name (p_name p) = true
}.

(** A name after a tag, up to [stop]. *)
Definition name_is (offset : nat) (name : str) (stop : nat) : Prop :=
  find_string_end data (offset + 4) = Ok stop /\ string_at_offset data (offset + 4) (Some stop) = Ok name.

(** The body of a node from [offset] to behind its end tag. *)
Inductive items : nat -> list event -> nat -> Prop :=
| it_end offset : read_token data offset = Ok EndNode -> items offset [] (offset + 4)
| it_nop offset l e : read_token data offset = Ok Nop -> items (offset + 4) l e -> items offset l e
| it_prop offset p next l e :
    read_token data offset = Ok Prop_ -> prop_at offset p next -> items next l e -> items offset (EProp p :: l) e
| it_node offset name stop body e1 l e :
    read_token data offset = Ok BeginNode -> name_is offset name stop -> name <> [] -> is_valid_node_name name = true ->
    items (align_tag_offset stop) body e1 -> items e1 l e ->
    items offset (ENode (mkNode name (props_of body) (trees_of body)) offset e1 :: l) e.

(** ** Bounds *)

Lemma align_tag_offset_ge n : (n <= align_tag_offset n)%nat.
Proof. unfold align_tag_offset. pose proof (Nat.div_mod_eq (n + 3) 4). pose proof (Nat.mod_upper_bound (n + 3) 4). lia. Qed.

Lemma read_u32_bound offset v : read_u32 data offset = Ok v -> (offset + 4 <= length data)%nat.
Proof.
  unfold read_u32, be_at. destruct (_ <? _)%nat; [done|]. destruct (Nat.leb_spec (offset + 4) (length data)); [done|done].
Qed.

Lemma read_token_bound offset t : read_token data offset = Ok t -> (offset + 4 <= length data)%nat.
Proof.
  unfold read_token. destruct (read_u32 data offset) as [v| |] eqn:E; cbn [obind]; [|done..]. intros _. by eapply read_u32_bound.
Qed.

Lemma string_end_loop_bound start offset fuel e :
  string_end_loop data start offset fuel = Ok e -> (offset < e <= length data)%nat.
Proof.
  revert offset. induction fuel as [|fuel IH]; intros offset; cbn [string_end_loop]; [done|].
  destruct (data !! offset) as [c|] eqn:E; [|done]. apply lookup_lt_Some in E.
  destruct c; [intros [= <-]; lia|intros ?%IH; lia..].
Qed.

Lemma find_string_end_bound start e : find_string_end data start = Ok e -> (start < e <= length data)%nat.
Proof. apply string_end_loop_bound. Qed.

Lemma prop_at_bound offset p next : prop_at offset p next -> (offset + 12 <= next)%nat.
Proof. intros [(len & _ & _ & _ & ->) _ _]. pose proof (align_tag_offset_ge (offset + 12 + Z.to_nat len)). lia. Qed.

Lemma items_bound offset l e : items offset l e -> (offset + 4 <= e)%nat.
Proof.
  induction 1 as [offset Ht|offset l e Ht Hi IH|offset p next l e Ht Hp Hi IH|offset nm stop body e1 l e Ht [Hs _] _ _ Hb IHb Hi IH]; [lia|lia|..].
  - pose proof (prop_at_bound _ _ _ Hp). lia.
  - pose proof (find_string_end_bound _ _ Hs). pose proof (align_tag_offset_ge stop). lia.
Qed.

Lemma items_nodes_bound offset l e :
  items offset l e -> Forall (fun '(_, s, t) => (offset <= s)%nat /\ (s + 4 < t)%nat /\ (t <= e)%nat) (nodes_of l).
Proof.
  induction 1 as [offset Ht|offset l e Ht Hi IH|offset p next l e Ht Hp Hi IH|offset nm stop body e1 l e Ht [Hs _] _ _ Hb IHb Hi IH];
    cbn [nodes_of].
  - constructor.
  - eapply Forall_impl; [exact IH|]. intros [[n s] t]. lia.
  - pose proof (prop_at_bound _ _ _ Hp). eapply Forall_impl; [exact IH|]. intros [[n s] t]. lia.
  - pose proof (find_string_end_bound _ _ Hs). pose proof (align_tag_offset_ge stop). pose proof (items_bound _ _ _ Hb).
    pose proof (items_bound _ _ _ Hi). constructor; [lia|]. eapply Forall_impl; [exact IH|]. intros [[n s] t]. lia.
Qed.

(** ** The walk and the iterators on a structure *)

Lemma next_property_offset_of offset p next check :
  prop_at offset p next -> next_property_offset data (offset + 4) check = Ok next.
Proof.
  intros [(len & Hl & _ & Hb & ->) (nameoff & Hn & Hs) Hv]. unfold next_property_offset, FDT_TAGSIZE. rewrite Hl. cbn [obind].
  replace (offset + 4 + 4)%nat with (offset + 8)%nat by lia. rewrite Hn. cbn [obind]. rewrite Hs. cbn [obind]. rewrite Hv. cbn [negb].
  replace (offset + 4 + 2 * 4)%nat with (offset + 12)%nat by lia.
  destruct check; cbn [obind]; by rewrite (proj2 (Nat.ltb_ge _ _)).
Qed.

Lemma traverse_items offset l e :
  items offset l e -> forall fuel depth check, (e - offset < fuel)%nat ->
  exists fuel', (fuel <= fuel' + (e - offset))%nat /\
    traverse_loop data fuel offset (S depth) check =
      if (depth =? 0)%nat then Ok e else traverse_loop data fuel' e depth check.
Proof.
  induction 1 as [offset Ht|offset l e Ht Hi IH|offset p next l e Ht Hp Hi IH
    |offset nm stop body e1 l e Ht [Hs Hn] Hne Hv Hb IHb Hi IH]; intros fuel depth check Hf;
    (destruct fuel as [|fuel]; [lia|]); cbn [traverse_loop]; rewrite Ht; cbn [obind].
  - exists fuel. split; [lia|]. by destruct depth.
  - pose proof (items_bound _ _ _ Hi). destruct (IH fuel depth check) as (f & Hf' & E); [lia|]. exists f. split; [lia|].
    rewrite <- E. done.
  - pose proof (prop_at_bound _ _ _ Hp). pose proof (items_bound _ _ _ Hi).
    unfold FDT_TAGSIZE. rewrite (next_property_offset_of _ _ _ check Hp). cbn [obind].
    destruct (IH fuel depth check) as (f & Hf' & E); [lia|]. exists f. split; [lia|]. exact E.
  - pose proof (find_string_end_bound _ _ Hs). pose proof (align_tag_offset_ge stop). pose proof (items_bound _ _ _ Hb).
    pose proof (items_bound _ _ _ Hi). unfold FDT_TAGSIZE. rewrite Hs. cbn [obind]. rewrite Hn. cbn [obind].
    change (S (S depth) =? 1)%nat with false. unfold str_eqb at 2. rewrite bool_decide_eq_false_2, Hv by done. cbn [negb orb].
    destruct (IHb fuel (S depth) check) as (f1 & Hf1 & E1); [lia|].
    destruct (IH f1 depth check) as (f2 & Hf2 & E2); [lia|]. exists f2. split; [lia|].
    destruct check; cbn [obind]; rewrite E1; exact E2.
Qed.

(** The tree of a node between two offsets. *)
Record node_at (offset : nat) (n : dt_node) (e : nat) : Prop := {
  na_token : read_token data offset = Ok BeginNode;
  na_body : exists name stop body, name_is offset name stop /\ items (align_tag_offset stop) body e /\
    n = mkNode name (props_of body) (trees_of body)
}.

Lemma next_sibling_of offset n e : node_at offset n e -> (e <= length data)%nat -> next_sibling_offset data offset = Ok e.
Proof.
  intros [Ht (nm & stop & body & [Hs Hn] & Hb & _)] He. unfold next_sibling_offset, traverse_node. cbn [traverse_loop].
  rewrite Ht. cbn [obind]. unfold FDT_TAGSIZE. rewrite Hs. cbn [obind].
  pose proof (find_string_end_bound _ _ Hs). pose proof (align_tag_offset_ge stop).
  destruct (traverse_items _ _ _ Hb (length data) 0 false) as (f & _ & E); [lia|]. exact E.
Qed.

Lemma items_end_bound offset l e : items offset l e -> (e <= length data)%nat.
Proof. induction 1; [by eapply read_token_bound|done..]. Qed.

Lemma properties_of_items offset l e :
  items offset l e -> forall fuel, (e - offset < fuel)%nat -> properties_from data fuel offset = Ok (props_of l).
Proof.
  induction 1 as [offset Ht|offset l e Ht Hi IH|offset p next l e Ht Hp Hi IH
    |offset nm stop body e1 l e Ht Hn Hne Hv Hb IHb Hi IH]; intros fuel Hf;
    (destruct fuel as [|fuel]; [lia|]); cbn [properties_from props_of]; rewrite Ht; cbn [expected obind]; [done|..|done].
  - pose proof (items_bound _ _ _ Hi). apply IH. lia.
  - pose proof (prop_at_bound _ _ _ Hp). pose proof (items_bound _ _ _ Hi).
    destruct Hp as [(len & Hl & Hval & Hb & ->) (nameoff & Hn & Hs) _].
    assert (Hbe : forall o v, read_u32 data o = Ok v -> be_at data 4 o = Some v).
    { intros o v. unfold read_u32. destruct (_ <? _)%nat; [done|]. by destruct (be_at data 4 o); cbn; [intros [= ->]|]. }
    unfold FDT_TAGSIZE. rewrite (Hbe _ _ Hl). cbn [ok_or expected obind]. change (2 * 4)%nat with 8%nat. rewrite (Hbe _ _ Hn).
    cbn [ok_or expected obind]. change (3 * 4)%nat with 12%nat. rewrite Hs. cbn [expected obind]. unfold get_range.
    rewrite (proj2 (Nat.leb_le _ _)), (proj2 (Nat.leb_le _ _)) by lia. cbn [andb ok_or expected obind].
    replace (offset + 12 + Z.to_nat len - (offset + 12))%nat with (Z.to_nat len) by lia. rewrite IH by lia. cbn [obind].
    rewrite <- Hval. by destruct p.
Qed.

Lemma children_of_items offset l e :
  items offset l e -> Forall (fun '(n, s, t) => node_at s n t) (nodes_of l) ->
  forall fuel, (e - offset < fuel)%nat -> children_from data fuel offset = Ok (map (fun '(_, s, _) => s) (nodes_of l)).
Proof.
  induction 1 as [offset Ht|offset l e Ht Hi IH|offset p next l e Ht Hp Hi IH
    |offset nm stop body e1 l e Ht [Hs Hn] Hne Hv Hb IHb Hi IH]; intros Hall fuel Hf;
    (destruct fuel as [|fuel]; [lia|]); cbn [children_from nodes_of] in *; rewrite Ht; cbn [expected obind]; [done|..].
  - pose proof (items_bound _ _ _ Hi). apply IH; [done|lia].
  - pose proof (prop_at_bound _ _ _ Hp). pose proof (items_bound _ _ _ Hi). unfold FDT_TAGSIZE.
    rewrite (next_property_offset_of _ _ _ false Hp). cbn [expected obind]. apply IH; [done|lia].
  - apply Forall_cons_1 in Hall as [Hnode Hall]. pose proof (items_end_bound _ _ _ Hb) as Hle.
    rewrite (next_sibling_of _ _ _ Hnode Hle). cbn [expected obind]. pose proof (items_bound _ _ _ Hi).
    pose proof (find_string_end_bound _ _ Hs). pose proof (align_tag_offset_ge stop). pose proof (items_bound _ _ _ Hb).
    rewrite IH by (done || lia). done.
Qed.

Lemma items_nodes_at offset l e : items offset l e -> Forall (fun '(n, s, t) => node_at s n t) (nodes_of l).
Proof.
  induction 1 as [offset Ht|offset l e Ht Hi IH|offset p next l e Ht Hp Hi IH
    |offset nm stop body e1 l e Ht Hn Hne Hv Hb IHb Hi IH]; cbn [nodes_of]; [constructor|done|done|].
  constructor; [|done]. split; [done|]. by exists nm, stop, body.
Qed.

Lemma until_nul_app s t w r : until_nul s = Some (w, r) -> until_nul (s ++ t) = Some (w, r ++ t).
Proof.
  revert w. induction s as [|c s IH]; intros w; cbn [until_nul app]; [done|].
  destruct c; [by intros [= <- <-]|..]; (destruct (until_nul s) as [[w' r']|]; [|done]; intros [= <- <-]; by rewrite (IH w')).
Qed.

Lemma name_at_of offset name stop : name_is offset name stop -> name_at data offset = Ok name.
Proof.
  intros [Hs Hn]. unfold name_at, FDT_TAGSIZE. unfold string_at_offset, get_range in *.
  pose proof (find_string_end_bound _ _ Hs). rewrite (proj2 (Nat.leb_le _ _)), (proj2 (Nat.leb_le _ _)) in Hn by lia.
  rewrite (proj2 (Nat.leb_le _ _)), (proj2 (Nat.leb_le _ _)) by lia. cbn [andb ok_or obind] in *.
  rewrite <- (take_drop (stop - (offset + 4)) (take (length data - (offset + 4)) (drop (offset + 4) data))).
  rewrite take_take, Nat.min_l by lia.
  destruct (until_nul (take (stop - (offset + 4)) (drop (offset + 4) data))) as [[w r]|] eqn:E; [|done].
  rewrite (until_nul_app _ _ _ _ E). destruct (valid_utf8 w); [|done]. by injection Hn as ->.
Qed.

(** The accessors show the tree of the structure. *)
Lemma tree_at_node offset n e :
  node_at offset n e -> forall fuel, (e - offset <= fuel)%nat -> tree_at data fuel offset = Ok n.
Proof.
  intros Hn fuel. revert offset n e Hn. induction fuel as [|fuel IH]; intros offset n e [Ht (nm & stop & body & Hname & Hb & ->)] Hf.
  { destruct Hname as [Hs _]. pose proof (find_string_end_bound _ _ Hs). pose proof (align_tag_offset_ge stop).
    pose proof (items_bound _ _ _ Hb). lia. }
  pose proof (items_end_bound _ _ _ Hb) as Hend. pose proof Hname as [Hs _]. pose proof (find_string_end_bound _ _ Hs).
  pose proof (align_tag_offset_ge stop). pose proof (items_bound _ _ _ Hb). cbn [tree_at].
  rewrite (name_at_of _ _ _ Hname). cbn [obind]. unfold properties_at, children_at, iter_start, FDT_TAGSIZE. rewrite Hs.
  cbn [expected obind]. rewrite (properties_of_items _ _ _ Hb) by lia. cbn [obind].
  pose proof (items_nodes_at _ _ _ Hb) as Hat. rewrite (children_of_items _ _ _ Hb Hat) by lia. cbn [obind]. unfold trees_of.
  pose proof (items_nodes_bound _ _ _ Hb) as Hbd. revert Hat Hbd. generalize (nodes_of body) as l. intros l Hat Hbd.
  set (each := fix each (l : list nat) : outcome unit (list dt_node) := _).
  assert (He : each (map (fun '(_, s, _) => s) l) = Ok (map (fun '(n, _, _) => n) l)); [|by rewrite He].
  induction l as [|[[n s] t] l IHl]; [done|]. apply Forall_cons_1 in Hat as [Hn Hat]. apply Forall_cons_1 in Hbd as [Hb' Hbd].
  cbn [map each]. rewrite (IH s n t Hn) by lia. cbn [obind]. by rewrite (IHl Hat Hbd).
Qed.

(** ** What validation accepts has a structure *)

Lemma next_property_offset_sound offset next :
  next_property_offset data (offset + 4) true = Ok next -> exists p, prop_at offset p next.
Proof.
  unfold next_property_offset, FDT_TAGSIZE. replace (offset + 4 + 4)%nat with (offset + 8)%nat by lia.
  replace (offset + 4 + 2 * 4)%nat with (offset + 12)%nat by lia.
  destruct (read_u32 data (offset + 4)) as [len| |] eqn:El; cbn [obind]; [|done..].
  destruct (read_u32 data (offset + 8)) as [nameoff| |] eqn:En; cbn [obind]; [|done..].
  destruct (string data (Z.to_nat nameoff)) as [name| |] eqn:Es; cbn [obind]; [|done..].
  destruct (is_valid_property_name name) eqn:Ev; cbn [negb obind]; [|done].
  destruct (Nat.ltb_spec (length data) (offset + 12 + Z.to_nat len)); [done|]. intros [= <-].
  exists (mkProp name (take (Z.to_nat len) (drop (offset + 12) data))). split; [by exists len|by exists nameoff|done].
Qed.

Lemma traverse_sound fuel offset d e :
  traverse_loop data fuel offset (S d) true = Ok e ->
  exists l e1, items offset l e1 /\
    if (d =? 0)%nat then e = e1 else exists fuel', (fuel' < fuel)%nat /\ traverse_loop data fuel' e1 d true = Ok e.
Proof.
  revert offset d. induction (lt_wf fuel) as [fuel _ IH]. intros offset d. destruct fuel as [|fuel]; [done|]. cbn [traverse_loop].
  destruct (read_token data offset) as [[]| |] eqn:Et; cbn [obind]; [| | | |done..].
  - destruct (find_string_end data (offset + FDT_TAGSIZE)) as [stop| |] eqn:Es; cbn [obind]; [|done..].
    destruct (string_at_offset data (offset + FDT_TAGSIZE) (Some stop)) as [name| |] eqn:En; cbn [obind]; [|done..].
    change (S (S d) =? 1)%nat with false. unfold str_eqb at 2. case_bool_decide as Hne; cbn [orb obind]; [done|].
    destruct (is_valid_node_name name) eqn:Ev; cbn [negb obind]; [|done]. intros (body & e1 & Hb & f1 & Hf1 & E1)%IH; [|lia].
    destruct (IH f1 ltac:(lia) _ _ E1) as (l & e2 & Hl & Hrest).
    exists (ENode (mkNode name (props_of body) (trees_of body)) offset e1 :: l), e2. split; [by econstructor|].
    destruct (d =? 0)%nat; [done|]. destruct Hrest as (f2 & ? & ?). exists f2. split; [lia|done].
  - intros E. exists [], (offset + 4)%nat. split; [by constructor|]. destruct (d =? 0)%nat; [by injection E as <-|].
    exists fuel. split; [lia|exact E].
  - destruct (next_property_offset data (offset + FDT_TAGSIZE) true) as [next| |] eqn:En; cbn [obind]; [|done..].
    intros (l & e1 & Hl & Hrest)%IH; [|lia]. destruct (next_property_offset_sound _ _ En) as [p Hp].
    exists (EProp p :: l), e1. split; [by econstructor|]. destruct (d =? 0)%nat; [done|].
    destruct Hrest as (f2 & ? & ?). exists f2. split; [lia|done].
  - intros (l & e1 & Hl & Hrest)%IH; [|lia]. exists l, e1. split; [by apply it_nop|]. destruct (d =? 0)%nat; [done|].
    destruct Hrest as (f2 & ? & ?). exists f2. split; [lia|done].
Qed.

Lemma root_sound offset e :
  read_token data offset = Ok BeginNode -> traverse_node data offset true = Ok e ->
  exists n, node_at offset n e /\ node_name n = [].
Proof.
  intros Ht. unfold traverse_node. cbn [traverse_loop]. rewrite Ht. cbn [obind].
  destruct (find_string_end data (offset + FDT_TAGSIZE)) as [stop| |] eqn:Es; cbn [obind]; [|done..].
  destruct (string_at_offset data (offset + FDT_TAGSIZE) (Some stop)) as [name| |] eqn:En; cbn [obind]; [|done..].
  change (1 =? 1)%nat with true. unfold str_eqb. case_bool_decide as Hne; cbn [negb obind]; [|done]. subst name.
  intros (body & e1 & Hb & ->)%traverse_sound. exists (mkNode [] (props_of body) (trees_of body)).
  split; [|done]. split; [done|]. by exists [], stop, body.
Qed.

(** ** No walk panics *)

Lemma read_u32_total offset : read_u32 data offset <> Panic.
Proof. unfold read_u32. destruct (_ <? _)%nat; [done|]. by destruct (be_at data 4 offset). Qed.

Lemma read_token_total offset : read_token data offset <> Panic.
Proof.
  unfold read_token. pose proof (read_u32_total offset). destruct (read_u32 data offset) as [v| |]; cbn [obind]; [|done..].
  by destruct (FdtToken_try_from v).
Qed.

Lemma string_at_offset_total offset stop : string_at_offset data offset stop <> Panic.
Proof. unfold string_at_offset. destruct (get_range _ _ _) as [sl|]; cbn; [|done]. repeat case_match; done. Qed.

Lemma find_string_end_total start : find_string_end data start <> Panic.
Proof.
  unfold find_string_end. generalize start at 2 as o. generalize (S (length data - start))%nat as f.
  induction f as [|f IH]; intros o; cbn [string_end_loop]; [done|]. by destruct (data !! o) as [[]|].
Qed.

Lemma next_property_offset_total offset check : next_property_offset data offset check <> Panic.
Proof.
  unfold next_property_offset. pose proof (read_u32_total offset). destruct (read_u32 data offset) as [len| |]; cbn [obind]; [|done..].
  pose proof (read_u32_total (offset + FDT_TAGSIZE)). destruct (read_u32 data (offset + FDT_TAGSIZE)) as [no| |]; cbn [obind]; [|done..].
  destruct check; cbn [obind]; [|by destruct (_ <? _)%nat]. unfold string. destruct (_ <=? _)%nat; cbn [obind]; [done|].
  pose proof (string_at_offset_total (off_dt_strings data + Z.to_nat no) (Some (off_dt_strings data + size_dt_strings data)%nat)).
  destruct (string_at_offset data _ _) as [nm| |]; cbn [obind]; [|done..].
  destruct (is_valid_property_name nm); cbn [negb obind]; [|done]. by destruct (_ <? _)%nat.
Qed.

Lemma next_property_offset_advances offset check next :
  next_property_offset data offset check = Ok next -> (offset < next)%nat.
Proof.
  unfold next_property_offset, FDT_TAGSIZE. destruct (read_u32 data offset) as [len| |]; cbn [obind]; [|done..].
  destruct (read_u32 data (offset + 4)) as [no| |]; cbn [obind]; [|done..].
  destruct (if check then _ else _) as [[]| |]; cbn [obind]; [|done..]. destruct (_ <? _)%nat; [done|]. intros [= <-].
  eapply Nat.lt_le_trans; [|apply align_tag_offset_ge]. lia.
Qed.

Lemma traverse_total fuel offset d check :
  (length data - offset < fuel)%nat -> traverse_loop data fuel offset d check <> Panic.
Proof.
  revert offset d. induction fuel as [|fuel IH]; intros offset d Hf; [lia|]. cbn [traverse_loop].
  pose proof (read_token_total offset). destruct (read_token data offset) as [t| |] eqn:Et; cbn [obind]; [|done..].
  pose proof (read_token_bound _ _ Et). destruct t.
  - pose proof (find_string_end_total (offset + FDT_TAGSIZE)).
    destruct (find_string_end data (offset + FDT_TAGSIZE)) as [stop| |] eqn:Es; cbn [obind]; [|done..].
    pose proof (find_string_end_bound _ _ Es). pose proof (align_tag_offset_ge stop). unfold FDT_TAGSIZE in *.
    assert (Hk : traverse_loop data fuel (align_tag_offset stop) (S d) check <> Panic) by (apply IH; lia).
    destruct check; cbn [obind]; [|done]. pose proof (string_at_offset_total (offset + 4) (Some stop)).
    destruct (string_at_offset data (offset + 4) (Some stop)) as [name| |] eqn:En; cbn [obind]; [|done..].
    destruct (S d =? 1)%nat; [by destruct (str_eqb name [])|]. by destruct (_ || _).
  - destruct d; [done|]. destruct (d =? 0)%nat; [done|]. apply IH. unfold FDT_TAGSIZE. lia.
  - pose proof (next_property_offset_total (offset + FDT_TAGSIZE) check).
    destruct (next_property_offset data (offset + FDT_TAGSIZE) check) as [next| |] eqn:En; cbn [obind]; [|done..].
    apply next_property_offset_advances in En. apply IH. lia.
  - apply IH. unfold FDT_TAGSIZE. lia.
  - done.
Qed.

(** *** Reservations *)

Lemma mem_reservations_readable fuel offset :
  (length data - offset < fuel)%nat -> (off_dt_struct data <= length data)%nat ->
  mem_reservations_loop data fuel offset <> Panic /\
  (mem_reservations_loop data fuel offset = Ok () -> exists l, reservations_from data fuel offset = Ok l).
Proof.
  revert offset. induction fuel as [|fuel IH]; intros offset Hf Hs; [lia|]. cbn [mem_reservations_loop reservations_from].
  destruct (Nat.leb_spec (off_dt_struct data) offset); [done|]. rewrite (proj2 (Nat.ltb_ge _ _)) by lia.
  destruct (reservation_at data offset) as [r|] eqn:Er; cbn [ok_or expected obind]; [|done]. destruct (is_terminator r); [split; [done|by eexists]|].
  assert (offset + 16 <= length data)%nat.
  { unfold reservation_at, be_at in Er. destruct (Nat.leb_spec (offset + 8) (length data)); [|done].
    destruct (Nat.leb_spec (offset + 8 + 8) (length data)); [lia|done]. }
  destruct (IH (offset + 16)%nat) as [Hn Hr]; [lia|done|]. split; [done|]. intros H1. destruct (Hr H1) as [l ->]. cbn [obind]. eauto.
Qed.

Lemma reservations_u64 fuel offset l :
  Forall u8 data -> reservations_from data fuel offset = Ok l -> Forall (fun '(a, s) => u64 a /\ u64 s) l.
Proof.
  intros Hd. assert (Hbe : forall o v, be_at data 8 o = Some v -> u64 v).
  { intros o v. unfold be_at. destruct (Nat.leb_spec (o + 8) (length data)); [|done]. intros [= <-].
    pose proof (from_be_bytes_bound (take 8 (drop o data)) ltac:(by apply Forall_take, Forall_drop)) as Hb.
    rewrite length_take, length_drop, Nat.min_l in Hb by lia. exact Hb. }
  revert offset l. induction fuel as [|fuel IH]; intros offset l; cbn [reservations_from]; [done|].
  unfold reservation_at. destruct (be_at data 8 offset) as [a|] eqn:Ea; cbn [ok_or expected obind]; [|done].
  destruct (be_at data 8 (offset + 8)) as [s|] eqn:Es; cbn [ok_or expected obind]; [|done].
  destruct (is_terminator (a, s)); [by intros [= <-]|].
  destruct (reservations_from data fuel (offset + 16)) as [rest| |] eqn:Er; cbn [obind]; [|done..]. intros [= <-].
  constructor; [eauto|]. by eapply IH.
Qed.

End Structure.

(** ** Readable blobs *)

(** The names validation has checked, and values made of bytes. *)
Inductive valid_node : dt_node -> Prop :=
| valid_mkNode name props l :
    Forall (fun p => is_valid_property_name (p_name p) = true /\ Forall u8 (p_value p)) props ->
    Forall (fun c => node_name c <> [] /\ is_valid_node_name (node_name c) = true) l ->
    Forall valid_node l -> valid_node (mkNode name props l).

Record valid_fdt (fdt : Fdt) : Prop := {
  vf_root : node_name (fdt_root fdt) = [];
  vf_nodes : valid_node (fdt_root fdt);
  vf_reservations : Forall (fun '(a, s) => u64 a /\ u64 s) (memory_reservations fdt);
  vf_len : u64 (data_len fdt)
}.

Lemma valid_node_bytes n : valid_node n -> bytes_node n.
Proof.
  revert n. fix IH 2. intros n H. destruct H as [nm ps l Hp _ Hl]. constructor.
  - eapply Forall_impl; [exact Hp|]. by intros p [_ ?].
  - induction Hl as [|c l Hc Hl IHl]; constructor; [by apply IH|exact IHl].
Qed.

Lemma valid_fdt_bytes fdt : valid_fdt fdt -> fdt_bytes fdt.
Proof. intros [_ Hn Hr Hl]. split; [by apply valid_node_bytes|done|done]. Qed.

Definition event_ok (ev : event) : Prop :=
  match ev with
  | EProp p => is_valid_property_name (p_name p) = true /\ Forall u8 (p_value p)
  | ENode n _ _ => (node_name n <> [] /\ is_valid_node_name (node_name n) = true) /\ valid_node n
  end.

Lemma events_node name l : Forall event_ok l -> valid_node (mkNode name (props_of l) (trees_of l)).
Proof.
  intros Hl. constructor.
  - induction Hl as [|[p|n s e] l Hp _ IH]; cbn [props_of]; [constructor|by constructor|constructor].
  - unfold trees_of. induction Hl as [|[p|n s e] l Hp _ IH]; cbn [nodes_of map]; [constructor|done|constructor; [apply Hp|done]].
  - unfold trees_of. induction Hl as [|[p|n s e] l Hp _ IH]; cbn [nodes_of map]; [constructor|done|constructor; [apply Hp|done]].
Qed.

Lemma items_ok data offset l e : Forall u8 data -> items data offset l e -> Forall event_ok l.
Proof.
  intros Hd. induction 1 as [offset Ht|offset l e Ht Hi IH|offset p next l e Ht Hp Hi IH
    |offset nm stop body e1 l e Ht Hn Hne Hv Hb IHb Hi IH]; [constructor|done|..].
  - constructor; [|done]. destruct Hp as [(len & _ & Hval & _) _ Hv]. split; [done|]. rewrite Hval. by apply Forall_take, Forall_drop.
  - constructor; [|done]. split; [done|]. by apply events_node.
Qed.

Lemma validate_header_inv data :
  validate_header data = Ok () -> (off_dt_struct data <= length data)%nat.
Proof.
  unfold validate_header, bad_header. destruct (_ <? 40)%nat; [discriminate|].
  destruct (off_dt_struct data <? off_mem_rsvmap data)%nat; [discriminate|]. destruct (negb _); [discriminate|].
  destruct (Nat.ltb_spec (length data) (off_dt_struct data)); [discriminate|]. intros _. assumption.
Qed.

Lemma validate_header_total data : validate_header data <> Panic.
Proof. unfold validate_header, bad_header. repeat case_match; discriminate. Qed.

Lemma decode_of_structure data n e l :
  node_at data (off_dt_struct data) n e -> reservations_from data (S (length data)) (off_mem_rsvmap data) = Ok l ->
  decode data = Ok (mkFdt n l (Z.of_nat (length data))).
Proof.
  intros Hn Hr. unfold decode. pose proof Hn as [_ (nm & stop & body & _ & Hb & _)]. pose proof (items_end_bound _ _ _ _ Hb).
  rewrite (tree_at_node _ _ _ _ Hn) by lia. cbn [obind]. by rewrite Hr.
Qed.

(** C24 [validated_blob_readable]: validation of a blob ends on every sequence of
    bytes, without a panic.  On a blob it accepts, none of the iterators the
    reading interface consists of panics: they terminate and show one tree,
    with an empty root name, well-formed names everywhere else, values made of
    bytes and 64-bit reservations. *)
Theorem validated_blob_readable data :
  Forall u8 data -> (Z.of_nat (length data) < 2 ^ 64) ->
  match Fdt_new data with
  | Ok fdt => decode data = Ok fdt /\ valid_fdt fdt /\ data_len fdt = Z.of_nat (length data)
  | Err e => validate data = Err e
  | Panic => False
  end.
Proof.
  intros Hd Hlen. unfold Fdt_new. destruct (validate data) as [[]|e|] eqn:Ev; cbn [obind]; [|done|].
  - revert Ev. unfold validate. destruct (_ <? _)%nat; [done|]. destruct (negb _); [done|]. destruct (negb _); [done|].
    destruct (negb _); [done|]. destruct (validate_header data) as [[]| |] eqn:Eh; cbn [obind]; [|done..].
    unfold validate_mem_reservations. destruct (mem_reservations_readable data (S (length data)) (off_mem_rsvmap data)
      ltac:(lia) (validate_header_inv _ Eh)) as [_ Hres].
    destruct (mem_reservations_loop data _ _) as [[]| |]; cbn [obind]; [|done..]. destruct (Hres eq_refl) as [l Hl].
    destruct (read_token data (off_dt_struct data)) as [t| |] eqn:Et; cbn [obind]; [|done..].
    case_bool_decide as Eb; cbn [negb]; [subst t|done].
    destruct (traverse_node data (off_dt_struct data) true) as [e| |] eqn:Etr; cbn [obind]; [|done..]. intros _.
    destruct (root_sound _ _ _ Et Etr) as (n & Hn & Hroot). rewrite (decode_of_structure _ _ _ _ Hn Hl).
    split; [done|]. split; [|done]. split; [done| |by eapply reservations_u64|cbn; unfold u64; lia].
    destruct Hn as [_ (nm & stop & body & _ & Hb & ->)]. cbn. apply events_node. by eapply items_ok.
  - revert Ev. unfold validate. destruct (_ <? _)%nat; [done|]. destruct (negb _); [done|]. destruct (negb _); [done|].
    destruct (negb _); [done|]. pose proof (validate_header_total data). destruct (validate_header data) as [[]| |] eqn:Eh; cbn [obind]; [|done..].
    unfold validate_mem_reservations. destruct (mem_reservations_readable data (S (length data)) (off_mem_rsvmap data)
      ltac:(lia) (validate_header_inv _ Eh)) as [Hn _].
    destruct (mem_reservations_loop data _ _) as [[]| |]; cbn [obind]; [|done..].
    pose proof (read_token_total data (off_dt_struct data)). destruct (read_token data (off_dt_struct data)) as [t| |]; cbn [obind]; [|done..].
    case_bool_decide; cbn [negb]; [|done]. unfold traverse_node.
    pose proof (traverse_total data (S (length data)) (off_dt_struct data) 0 true ltac:(lia)).
    destruct (traverse_loop data _ _ _ _) as [e| |]; cbn [obind]; [|done..].
    pose proof (read_token_total data e). destruct (read_token data e) as [t'| |]; cbn [obind]; [|done..]. by case_bool_decide.
Qed.

(** ** What the writer writes *)

Definition pad (k : nat) : list Z := replicate (align_tag_offset k - k) 0.

Definition prop_bytes (sm : StringMap) (p : FdtProperty) : list Z :=
  to_be_bytes 4 FDT_PROP ++ to_be_bytes 4 (Z.of_nat (length (p_value p))) ++
  to_be_bytes 4 (default 0 (StringMap_get sm (p_name p))) ++ p_value p ++ pad (length (p_value p)).

Fixpoint node_bytes (sm : StringMap) (n : dt_node) : list Z :=
  let 'mkNode name props l := n in
  (to_be_bytes 4 FDT_BEGIN_NODE ++ name ++ [0] ++ pad (length name + 1)) ++ concat (map (prop_bytes sm) props) ++
  (fix each (l : list dt_node) : list Z := match l with [] => [] | c :: rest => node_bytes sm c ++ each rest end) l ++
  to_be_bytes 4 FDT_END_NODE.

Definition nodes_bytes (sm : StringMap) (l : list dt_node) : list Z := concat (map (node_bytes sm) l).

Lemma node_bytes_eq sm name props l :
  node_bytes sm (mkNode name props l) =
    (to_be_bytes 4 FDT_BEGIN_NODE ++ name ++ [0] ++ pad (length name + 1)) ++ concat (map (prop_bytes sm) props) ++
    nodes_bytes sm l ++ to_be_bytes 4 FDT_END_NODE.
Proof. cbn [node_bytes]. do 3 f_equal. unfold nodes_bytes. induction l as [|c l IH]; [done|]. cbn [map concat]. by rewrite IH. Qed.

Lemma align_tag_offset_add a n : (a mod 4 = 0)%nat -> align_tag_offset (a + n) = (a + align_tag_offset n)%nat.
Proof.
  intros Ha. apply Nat.Div0.mod_divides in Ha as [q ->]. unfold align_tag_offset.
  replace (4 * q + n + 3)%nat with (n + 3 + q * 4)%nat by lia. rewrite Nat.div_add by lia. lia.
Qed.

Lemma align_tag_offset_aligned n : (align_tag_offset n mod 4 = 0)%nat.
Proof. unfold align_tag_offset. apply Nat.Div0.mod_mul. Qed.

Lemma align_tag_offset_lt n : (align_tag_offset n < n + 4)%nat.
Proof. unfold align_tag_offset. pose proof (Nat.div_mod_eq (n + 3) 4). lia. Qed.

Lemma align_app dtb x : (length dtb mod 4 = 0)%nat -> align (dtb ++ x) = dtb ++ x ++ pad (length x).
Proof.
  intros H. unfold align, pad. rewrite length_app, align_tag_offset_add, <- app_assoc by done. do 3 f_equal. lia.
Qed.

Lemma length_pad k : (k + length (pad k) = align_tag_offset k)%nat.
Proof. unfold pad. rewrite length_replicate. pose proof (align_tag_offset_ge k). lia. Qed.

Lemma mod4_add a c : (a mod 4 = 0 -> c mod 4 = 0 -> (a + c) mod 4 = 0)%nat.
Proof. intros Ha Hc. rewrite <- Nat.Div0.add_mod_idemp_l, Ha. done. Qed.

Lemma length_prop_bytes sm p : length (prop_bytes sm p) = (12 + align_tag_offset (length (p_value p)))%nat.
Proof. unfold prop_bytes. rewrite !length_app, !length_to_be_bytes, <- length_pad. lia. Qed.

Lemma prop_bytes_aligned sm p : (length (prop_bytes sm p) mod 4 = 0)%nat.
Proof. rewrite length_prop_bytes. apply mod4_add; [done|apply align_tag_offset_aligned]. Qed.

Lemma concat_aligned {A} (f : A -> list Z) l :
  Forall (fun x => length (f x) mod 4 = 0)%nat l -> (length (concat (map f l)) mod 4 = 0)%nat.
Proof. induction 1 as [|x l Hx _ IH]; [done|]. cbn [map concat]. rewrite length_app. by apply mod4_add. Qed.

Lemma props_aligned sm props : (length (concat (map (prop_bytes sm) props)) mod 4 = 0)%nat.
Proof. apply concat_aligned, Forall_forall. intros p _. apply prop_bytes_aligned. Qed.

Lemma name_bytes_length (name : str) :
  length (to_be_bytes 4 FDT_BEGIN_NODE ++ name ++ [0] ++ pad (length name + 1)) = (4 + align_tag_offset (length name + 1))%nat.
Proof. rewrite !length_app, length_to_be_bytes, <- length_pad. cbn [length]. lia. Qed.

Lemma node_bytes_aligned sm n : (length (node_bytes sm n) mod 4 = 0)%nat.
Proof.
  induction n as [nm ps l IH] using dt_node_nested_ind. rewrite node_bytes_eq, length_app, name_bytes_length.
  apply mod4_add; [apply mod4_add; [done|apply align_tag_offset_aligned]|].
  rewrite length_app. apply mod4_add; [apply props_aligned|]. rewrite length_app, length_to_be_bytes. apply mod4_add; [|done].
  by apply concat_aligned.
Qed.

(** *** The strings block *)

Definition block_of (l : list (str * Z)) : list Z := concat (map (fun e => fst e ++ [0]) l).

(** Entries in the order of their offsets, from [start] on, with distinct
    names. *)
Fixpoint entries_from (start : Z) (l : list (str * Z)) : Prop :=
  match l with
  | [] => True
  | (s, o) :: rest => o = start /\ entries_from (start + Z.of_nat (length s) + 1) rest
  end.

Record sm_ok (sm : StringMap) : Prop := {
  so_entries : entries_from 0 (string_map sm);
  so_next : next_offset sm = Z.of_nat (length (block_of (string_map sm)));
  so_names : Forall (fun e => Forall u8 (fst e)) (string_map sm)
}.

Lemma length_block_cons s o l : length (block_of ((s, o) :: l)) = (length s + 1 + length (block_of l))%nat.
Proof. unfold block_of. cbn [map concat fst]. rewrite !length_app. cbn [length]. lia. Qed.

Lemma block_app l k : block_of (l ++ k) = block_of l ++ block_of k.
Proof. unfold block_of. by rewrite map_app, concat_app. Qed.

Lemma entries_from_snoc start l s :
  entries_from start l -> entries_from start (l ++ [(s, start + Z.of_nat (length (block_of l)))]).
Proof.
  revert start. induction l as [|[x o] l IH]; intros start; cbn [entries_from app]; [cbn; intros _; split; [lia|done]|].
  intros [-> H]. split; [done|]. specialize (IH _ H). rewrite length_block_cons.
  replace (start + Z.of_nat (length x + 1 + length (block_of l))) with (start + Z.of_nat (length x) + 1 + Z.of_nat (length (block_of l))) by lia.
  exact IH.
Qed.

Lemma StringMap_get_app l k next next' key :
  is_Some (StringMap_get (mkStringMap l next) key) ->
  StringMap_get (mkStringMap (l ++ k) next') key = StringMap_get (mkStringMap l next) key.
Proof.
  unfold StringMap_get. cbn [string_map]. induction l as [|e l IH]; cbn [List.find app]; [by intros [? ?]|].
  destruct (str_eqb (fst e) key); [done|]. exact IH.
Qed.

(** The map [sm'] keeps the offsets of [sm]. *)
Definition extends (sm sm' : StringMap) : Prop :=
  forall key o, StringMap_get sm key = Some o -> StringMap_get sm' key = Some o.

Lemma StringMap_insert_spec sm key :
  sm_ok sm -> Forall u8 key -> next_offset sm + Z.of_nat (length key) + 1 < 2 ^ 32 ->
  exists sm', StringMap_insert sm key = Ok sm' /\ sm_ok sm' /\ extends sm sm' /\ is_Some (StringMap_get sm' key) /\
    next_offset sm' <= next_offset sm + Z.of_nat (length key) + 1.
Proof.
  intros [He Hn Hu] Hkey Hlt. unfold StringMap_insert. destruct (StringMap_get sm key) as [o|] eqn:Eg.
  - exists sm. split_and!; [done|by split|by intros ? ?|by eexists|lia].
  - unfold expect_u32. rewrite (proj2 (Z.ltb_lt _ _) Hlt). cbn [obind]. eexists. split; [done|].
    destruct sm as [l n]. cbn [string_map next_offset] in *. split_and!.
    + split; cbn [string_map next_offset]; [rewrite Hn; exact (entries_from_snoc 0 l key He)| |by apply Forall_app_2; [|by constructor]].
      rewrite block_app, length_app. unfold block_of at 2. cbn [map concat fst]. rewrite !length_app. cbn [length]. lia.
    + intros k o Hk. rewrite <- Hk. apply StringMap_get_app. rewrite Hk. by eexists.
    + unfold StringMap_get in *. cbn [string_map] in *. clear -Eg. induction l as [|e l IH]; cbn [List.find app fst].
      * unfold str_eqb. rewrite bool_decide_eq_true_2 by done. by eexists.
      * cbn [List.find] in Eg. destruct (str_eqb (fst e) key); [done|]. by apply IH.
    + cbn [next_offset]. lia.
Qed.

(** *** Names *)

(** A byte of a name that can be written: ASCII and no NUL. *)
Definition plain (c : Z) : Prop := 0 < c < 128.

Lemma plain_utf8 s : Forall plain s -> valid_utf8 s = true.
Proof.
  induction 1 as [|c s Hc _ IH]; [done|]. cbn [valid_utf8]. unfold plain in Hc. by rewrite (proj2 (Z.ltb_lt _ _)) by lia.
Qed.

Lemma plain_until_nul s t : Forall plain s -> until_nul (s ++ 0 :: t) = Some (s, t).
Proof.
  induction 1 as [|c s Hc _ IH]; [done|]. cbn [app until_nul]. unfold plain in Hc. rewrite IH. destruct c; [lia|done..].
Qed.

Lemma plain_u8 s : Forall plain s -> Forall u8 s.
Proof. intros Hs. eapply Forall_impl; [exact Hs|]. unfold plain, u8. lia. Qed.

Lemma node_char_plain c : is_valid_node_char c = true -> plain c.
Proof.
  unfold is_valid_node_char, is_ascii_alphanumeric, cont, plain. cbn [existsb]. rewrite !orb_true_iff, !andb_true_iff, !Z.leb_le, !Z.eqb_eq. lia.
Qed.

Lemma property_name_plain name : is_valid_property_name name = true -> Forall plain name.
Proof.
  unfold is_valid_property_name. intros [_ H]%andb_true_iff. rewrite forallb_forall in H. apply Forall_forall. intros c Hc.
  apply list_elem_of_In, H in Hc. unfold is_valid_property_char in Hc. apply orb_true_iff in Hc as [Hc|Hc]; [by apply node_char_plain|].
  cbn [existsb] in Hc. rewrite !orb_true_iff, !Z.eqb_eq in Hc. unfold plain. lia.
Qed.

Lemma split_on_plain sep s : plain sep -> Forall (Forall plain) (split_on sep s) -> Forall plain s.
Proof.
  intros Hsep. induction s as [|c s IH]; cbn [split_on]; [done|]. destruct (Z.eqb_spec c sep) as [->|Hc].
  - intros [_ H]%Forall_cons_1. constructor; [done|by apply IH].
  - destruct (split_on sep s) as [|w ws].
    + intros [H _]%Forall_cons_1. apply Forall_cons_1 in H as [H _]. constructor; [done|]. apply IH. constructor.
    + intros [H H']%Forall_cons_1. apply Forall_cons_1 in H as [H1 H2]. constructor; [done|]. apply IH. by constructor.
Qed.

Lemma forallb_plain s : forallb is_valid_node_char s = true -> Forall plain s.
Proof. rewrite forallb_forall. intros H. apply Forall_forall. intros c Hc%list_elem_of_In. by apply node_char_plain, H. Qed.

Lemma node_name_plain name : is_valid_node_name name = true -> Forall plain name.
Proof.
  intros H. apply (split_on_plain 64); [by unfold plain|]. destruct name as [|c name]; [by repeat constructor|].
  unfold is_valid_node_name in H. destruct (split_on 64 (c :: name)) as [|nm [|addr [|? ?]]]; [done|..|done].
  - rewrite !andb_true_iff in H. destruct H as [[_ H] _]. constructor; [by apply forallb_plain|constructor].
  - rewrite !andb_true_iff in H. destruct H as [[_ H] [_ H']]. constructor; [by apply forallb_plain|].
    constructor; [by apply forallb_plain|constructor].
Qed.

(** *** Sizes *)

Definition prop_len (p : FdtProperty) : nat := (12 + align_tag_offset (length (p_value p)))%nat.
Definition sum_of {A} (f : A -> nat) (l : list A) : nat := fold_right (fun x n => (f x + n)%nat) 0%nat l.

Fixpoint node_len (n : dt_node) : nat :=
  let 'mkNode name props l := n in
  (8 + align_tag_offset (length name + 1) + sum_of prop_len props + sum_of node_len l)%nat.

(** The property names below a node, once per use. *)
Definition names_len (props : list FdtProperty) : nat := sum_of (fun p => (length (p_name p) + 1)%nat) props.

Fixpoint strings_len (n : dt_node) : nat :=
  let 'mkNode _ props l := n in (names_len props + sum_of strings_len l)%nat.

Lemma length_concat_map {A} (f : A -> list Z) (g : A -> nat) l :
  Forall (fun x => length (f x) = g x) l -> length (concat (map f l)) = sum_of g l.
Proof. induction 1 as [|x l Hx _ IH]; [done|]. cbn [map concat sum_of fold_right]. rewrite length_app, Hx, IH. done. Qed.

Lemma length_props_bytes sm props : length (concat (map (prop_bytes sm) props)) = sum_of prop_len props.
Proof. apply length_concat_map, Forall_forall. intros p _. apply length_prop_bytes. Qed.

Lemma length_node_bytes sm n : length (node_bytes sm n) = node_len n.
Proof.
  induction n as [nm ps l IH] using dt_node_nested_ind. rewrite node_bytes_eq, length_app, name_bytes_length.
  rewrite !length_app, length_to_be_bytes, length_props_bytes. unfold nodes_bytes. rewrite (length_concat_map _ node_len) by done.
  cbn [node_len]. lia.
Qed.

(** Every property name below a node has an offset. *)
Inductive known (sm : StringMap) : dt_node -> Prop :=
| known_mkNode name props l :
    Forall (fun p => is_Some (StringMap_get sm (p_name p))) props -> Forall (known sm) l -> known sm (mkNode name props l).

Lemma extends_is_Some sm sm' key : extends sm sm' -> is_Some (StringMap_get sm key) -> is_Some (StringMap_get sm' key).
Proof. intros He [o Ho]. eexists. by apply He. Qed.

Lemma known_extends sm sm' n : extends sm sm' -> known sm n -> known sm' n.
Proof.
  intros He. induction n as [nm ps l IH] using dt_node_nested_ind. inversion 1 as [? ? ? Hp Hl]; subst. constructor.
  - eapply Forall_impl; [exact Hp|]. intros p. by apply extends_is_Some.
  - rewrite Forall_forall in *. auto.
Qed.

Lemma extends_refl sm : extends sm sm.
Proof. by intros ? ?. Qed.

Lemma extends_trans sm1 sm2 sm3 : extends sm1 sm2 -> extends sm2 sm3 -> extends sm1 sm3.
Proof. intros H1 H2 k o Hk. by apply H2, H1. Qed.

(** What a size calculation returns from the map [sm] on, the names adding at
    most [names] bytes. *)
Definition calculated (sm : StringMap) (names : nat) (r : outcome unit (StringMap * nat)) (size : nat) (Q : StringMap -> Prop) : Prop :=
  exists sm', r = Ok (sm', size) /\ sm_ok sm' /\ extends sm sm' /\ Q sm' /\ next_offset sm' <= next_offset sm + Z.of_nat names.

Lemma calculate_props_size_spec sm props size :
  sm_ok sm -> Forall (fun p => Forall u8 (p_name p)) props -> next_offset sm + Z.of_nat (names_len props) < 2 ^ 32 ->
  calculated sm (names_len props) (calculate_props_size sm props size) (size + sum_of prop_len props)
    (fun sm' => Forall (fun p => is_Some (StringMap_get sm' (p_name p))) props).
Proof.
  revert sm size. induction props as [|p props IH]; intros sm size Hok Hu Hlt; cbn [calculate_props_size].
  { exists sm. cbn [sum_of fold_right names_len]. rewrite Nat.add_0_r. split_and!; [done|done|apply extends_refl|constructor|cbn; lia]. }
  apply Forall_cons_1 in Hu as [Hup Hu].
  unfold names_len in *. cbn [sum_of fold_right] in *. fold (sum_of (fun p => (length (p_name p) + 1)%nat) props) in *.
  unfold calculate_prop_size. destruct (StringMap_insert_spec sm (p_name p)) as (sm1 & -> & Hok1 & He1 & Hs1 & Hn1); [done|done|lia|].
  cbn [obind]. destruct (IH sm1 (size + (FDT_TAGSIZE + 4 + 4 + align_tag_offset (length (p_value p))))%nat) as (sm2 & -> & Hok2 & He2 & Hs2 & Hn2);
    [done|done|lia|]. exists sm2. split_and!; [|done|by eapply extends_trans| |lia].
  - do 2 f_equal. unfold prop_len at 2, FDT_TAGSIZE. fold (sum_of prop_len props). lia.
  - constructor; [by eapply extends_is_Some|done].
Qed.

Lemma valid_names_u8 props :
  Forall (fun p => is_valid_property_name (p_name p) = true /\ Forall u8 (p_value p)) props -> Forall (fun p => Forall u8 (p_name p)) props.
Proof. intros Hp. eapply Forall_impl; [exact Hp|]. intros p [Hv _]. by apply plain_u8, property_name_plain. Qed.

Lemma calculate_node_size_spec n : forall sm,
  sm_ok sm -> valid_node n -> next_offset sm + Z.of_nat (strings_len n) < 2 ^ 32 ->
  calculated sm (strings_len n) (calculate_node_size sm n) (node_len n) (fun sm' => known sm' n).
Proof.
  induction n as [nm ps l IH] using dt_node_nested_ind. intros sm Hok Hv Hlt. cbn [strings_len] in Hlt.
  inversion Hv as [? ? ? Hvp _ Hvl]; subst. apply valid_names_u8 in Hvp. cbn [calculate_node_size].
  destruct (calculate_props_size_spec sm ps (FDT_TAGSIZE + align_tag_offset (length nm + 1))%nat) as (sm1 & -> & Hok1 & He1 & Hs1 & Hn1);
    [done|done|lia|]. cbn [obind].
  set (each := fix each (l : list dt_node) (r : StringMap * nat) : outcome unit (StringMap * nat) := _).
  assert (Heach : forall size, calculated sm1 (sum_of strings_len l) (each l (sm1, size)) (size + sum_of node_len l) (fun sm' => Forall (known sm') l)).
  { assert (Hlt1 : next_offset sm1 + Z.of_nat (sum_of strings_len l) < 2 ^ 32) by lia. clear -IH Hok1 Hlt1 Hvl. revert sm1 Hok1 Hlt1.
    induction l as [|c l IHl]; intros sm1 Hok1 Hlt1 size.
    - exists sm1. cbn [sum_of fold_right]. rewrite Nat.add_0_r. split_and!; [done|done|apply extends_refl|constructor|cbn; lia].
    - apply Forall_cons_1 in IH as [IHc IH]. apply Forall_cons_1 in Hvl as [Hvc Hvl]. cbn [sum_of fold_right] in *.
      fold (sum_of strings_len l) (sum_of node_len l) in *.
      cbn [each fst snd]. destruct (IHc sm1) as (sm2 & -> & Hok2 & He2 & Hk2 & Hn2); [done|done|lia|]. cbn [obind fst snd].
      destruct (IHl IH Hvl sm2 Hok2 ltac:(lia) (size + node_len c)%nat) as (sm3 & -> & Hok3 & He3 & Hk3 & Hn3).
      exists sm3. split_and!; [do 2 f_equal; lia|done|by eapply extends_trans| |lia].
      constructor; [by eapply known_extends|done]. }
  destruct (Heach (FDT_TAGSIZE + align_tag_offset (length nm + 1) + sum_of prop_len ps)%nat) as (sm2 & -> & Hok2 & He2 & Hk2 & Hn2).
  cbn [obind fst snd]. exists sm2. split_and!; [|done|by eapply extends_trans| |cbn [strings_len]; lia].
  - do 2 f_equal. cbn [node_len]. unfold FDT_TAGSIZE. lia.
  - constructor; [|done]. eapply Forall_impl; [exact Hs1|]. intros p. by apply extends_is_Some.
Qed.

(** *** Writing *)

Lemma expect_u32_ok x : x < 2 ^ 32 -> expect_u32 x = Ok x.
Proof. intros H. unfold expect_u32. by rewrite (proj2 (Z.ltb_lt _ _) H). Qed.

Lemma write_prop_spec dtb sm p :
  (length dtb mod 4 = 0)%nat -> is_Some (StringMap_get sm (p_name p)) -> Z.of_nat (prop_len p) < 2 ^ 32 ->
  write_prop dtb sm p = Ok (dtb ++ prop_bytes sm p).
Proof.
  intros Hd [o Ho] Hl. unfold write_prop, get_offset, expect. rewrite Ho. cbn [obind]. unfold prop_len in Hl.
  pose proof (align_tag_offset_ge (length (p_value p))). rewrite expect_u32_ok by lia. cbn [obind]. f_equal.
  rewrite align_app by done. f_equal. unfold prop_bytes. rewrite Ho. cbn [default].
  rewrite !length_app, !length_to_be_bytes, <- !app_assoc. do 4 f_equal. unfold pad. f_equal.
  change (4 + (4 + (4 + length (p_value p))))%nat with (12 + length (p_value p))%nat. rewrite align_tag_offset_add by done. cbn [id]. lia.
Qed.

Lemma write_props_spec sm props : forall dtb,
  (length dtb mod 4 = 0)%nat -> Forall (fun p => is_Some (StringMap_get sm (p_name p))) props ->
  Z.of_nat (sum_of prop_len props) < 2 ^ 32 ->
  write_props dtb sm props = Ok (dtb ++ concat (map (prop_bytes sm) props)).
Proof.
  induction props as [|p props IH]; intros dtb Hd Hk Hl; cbn [write_props map concat]; [by rewrite app_nil_r|].
  apply Forall_cons_1 in Hk as [Hp Hk]. cbn [sum_of fold_right] in Hl. fold (sum_of prop_len props) in Hl.
  rewrite write_prop_spec by (done || lia). cbn [obind]. rewrite IH; [by rewrite app_assoc| |done|lia].
  rewrite length_app. apply mod4_add; [done|apply prop_bytes_aligned].
Qed.

Lemma write_node_spec sm n : forall dtb,
  (length dtb mod 4 = 0)%nat -> known sm n -> Z.of_nat (node_len n) < 2 ^ 32 -> write_node dtb sm n = Ok (dtb ++ node_bytes sm n).
Proof.
  induction n as [nm ps l IH] using dt_node_nested_ind. intros dtb Hd Hk Hl. inversion Hk as [? ? ? Hp Hc]; subst.
  cbn [node_len] in Hl. cbn [write_node]. rewrite align_app by done.
  replace ((to_be_bytes 4 FDT_BEGIN_NODE ++ nm ++ [0]) ++ pad (length (to_be_bytes 4 FDT_BEGIN_NODE ++ nm ++ [0])))
    with (to_be_bytes 4 FDT_BEGIN_NODE ++ nm ++ [0] ++ pad (length nm + 1)).
  2:{ rewrite <- !app_assoc. do 3 f_equal. rewrite !length_app, length_to_be_bytes. unfold pad. f_equal. cbn [length].
      rewrite (align_tag_offset_add 4) by done. lia. }
  set (name := _ ++ nm ++ _). assert (Hname : (length name mod 4 = 0)%nat).
  { unfold name. rewrite name_bytes_length. apply mod4_add; [done|apply align_tag_offset_aligned]. }
  rewrite write_props_spec; [|rewrite length_app; by apply mod4_add|done|lia]. cbn [obind].
  set (each := fix each (l : list dt_node) (dtb : list Z) : outcome unit (list Z) := _).
  assert (Heach : forall dtb, (length dtb mod 4 = 0)%nat -> each l dtb = Ok (dtb ++ nodes_bytes sm l)).
  { assert (Hl' : Z.of_nat (sum_of node_len l) < 2 ^ 32) by lia. clear -IH Hc Hl'.
    induction l as [|c l IHl]; intros dtb Hd; cbn [each nodes_bytes map concat]; [by rewrite app_nil_r|].
    apply Forall_cons_1 in IH as [IHc IH]. apply Forall_cons_1 in Hc as [Hcc Hc]. cbn [sum_of fold_right] in Hl'.
    fold (sum_of node_len l) in Hl'. rewrite IHc by (done || lia). cbn [obind]. rewrite IHl; [unfold nodes_bytes; by rewrite <- app_assoc|done|done|lia|].
    rewrite length_app. apply mod4_add; [done|apply node_bytes_aligned]. }
  rewrite Heach; cbn [obind]; [rewrite node_bytes_eq; unfold name; by rewrite <- !app_assoc|].
  rewrite length_app. apply mod4_add; [rewrite length_app; by apply mod4_add|apply props_aligned].
Qed.

Lemma sort_entries start l : entries_from start l -> sort_by_offset l = l.
Proof.
  revert start. induction l as [|[s o] l IH]; intros start; cbn [sort_by_offset entries_from]; [done|]. intros [-> H].
  rewrite (IH _ H). destruct l as [|[s' o'] l]; [done|]. cbn [entries_from] in H. destruct H as [-> _]. cbn [insert_by_offset snd].
  by rewrite (proj2 (Z.leb_le _ _)) by lia.
Qed.

Lemma write_string_block_spec sm dtb : sm_ok sm -> write_string_block sm dtb = dtb ++ block_of (string_map sm).
Proof.
  intros [He _]. unfold write_string_block. rewrite (sort_entries _ _ He). generalize (string_map sm) as l. intros l. revert dtb.
  induction l as [|e l IH]; intros dtb; cbn [fold_left]; [by rewrite app_nil_r|]. rewrite IH. unfold block_of. cbn [map concat].
  by rewrite <- !app_assoc.
Qed.

(** *** Reading back *)

Section ReadBack.
Context (data : list Z).

(** The bytes of [x] are those of the blob from [offset] on. *)
Definition seg (offset : nat) (x : list Z) : Prop := exists pre post, data = pre ++ x ++ post /\ length pre = offset.

Lemma seg_app offset x y : seg offset (x ++ y) -> seg offset x /\ seg (offset + length x) y.
Proof.
  intros (pre & post & E & <-). split; [exists pre, (y ++ post); by rewrite E, <- app_assoc|].
  exists (pre ++ x), post. by rewrite length_app, E, <- !app_assoc.
Qed.

Lemma seg_bound offset x : seg offset x -> (offset + length x <= length data)%nat.
Proof. intros (pre & post & E & <-). rewrite E, !length_app. lia. Qed.

Lemma seg_drop offset x : seg offset x -> exists post, drop offset data = x ++ post.
Proof. intros (pre & post & E & <-). exists post. rewrite E. apply drop_app_length. Qed.

Lemma seg_take offset x : seg offset x -> take (length x) (drop offset data) = x.
Proof. intros [post ->]%seg_drop. apply take_app_length. Qed.

Lemma be_at_seg k offset v :
  seg offset (to_be_bytes k v) -> 0 <= v < 256 ^ Z.of_nat k -> be_at data k offset = Some v.
Proof.
  intros H Hv. pose proof (seg_bound _ _ H) as Hb. apply seg_take in H. rewrite length_to_be_bytes in *. unfold be_at.
  rewrite (proj2 (Nat.leb_le _ _) Hb), H, from_be_to_be. by rewrite Z.mod_small.
Qed.

Lemma read_u32_seg offset v : seg offset (to_be_bytes 4 v) -> u32 v -> read_u32 data offset = Ok v.
Proof.
  intros H Hv. unfold read_u32. pose proof (seg_bound _ _ H). rewrite (proj2 (Nat.ltb_ge _ _)) by lia.
  by rewrite (be_at_seg _ _ _ H Hv).
Qed.

Lemma read_token_seg offset v t :
  seg offset (to_be_bytes 4 v) -> u32 v -> FdtToken_try_from v = Some t -> read_token data offset = Ok t.
Proof. intros H Hv Ht. unfold read_token. rewrite (read_u32_seg _ _ H Hv). cbn [obind]. by rewrite Ht. Qed.

Lemma find_string_end_seg offset name :
  seg offset (name ++ [0]) -> Forall plain name -> find_string_end data offset = Ok (offset + length name + 1)%nat.
Proof.
  unfold find_string_end. intros H Hp. pose proof (seg_bound _ _ H) as Hb. rewrite length_app in Hb. cbn [length] in Hb.
  generalize offset at 1 as start. assert (Hf : (length name < S (length data - offset))%nat) by lia. clear Hb.
  revert Hf. generalize (S (length data - offset)) as fuel. revert offset H. induction Hp as [|c name Hc _ IH];
    intros offset H fuel Hf start; (destruct fuel as [|fuel]; [lia|]); cbn [string_end_loop].
  - destruct H as (pre & post & E & <-). rewrite E. cbn [app]. rewrite list_lookup_middle by done. f_equal. cbn [length]. lia.
  - replace (data !! offset) with (Some c).
    2:{ destruct H as (pre & post & E & <-). rewrite E. cbn [app]. by rewrite list_lookup_middle. }
    change ((c :: name) ++ [0]) with ([c] ++ (name ++ [0])) in H. apply seg_app in H as [_ H]. cbn [length] in *.
    rewrite (Nat.add_1_r offset) in H. rewrite (IH (S offset) H) by lia. unfold plain in Hc.
    destruct c; [lia|..]; f_equal; lia.
Qed.

Lemma string_at_offset_seg offset name stop :
  seg offset (name ++ [0]) -> Forall plain name -> (offset + length name + 1 <= stop <= length data)%nat ->
  string_at_offset data offset (Some stop) = Ok name.
Proof.
  intros H Hp Hs. unfold string_at_offset, get_range. rewrite (proj2 (Nat.leb_le offset stop)), (proj2 (Nat.leb_le stop _)) by lia.
  cbn [andb ok_or obind]. destruct (seg_drop _ _ H) as [post ->].
  replace (stop - offset)%nat with (length (name ++ [0%Z]) + (stop - offset - length (name ++ [0%Z])))%nat.
  2:{ rewrite length_app. cbn [length]. lia. }
  rewrite take_app_add, <- app_assoc. cbn [app]. rewrite plain_until_nul by done. by rewrite plain_utf8.
Qed.

Lemma block_lookup start l key o :
  entries_from start l -> StringMap_get (mkStringMap l 0) key = Some o ->
  exists pre post, block_of l = pre ++ (key ++ [0]) ++ post /\ start + Z.of_nat (length pre) = o.
Proof.
  revert start. induction l as [|[s x] l IH]; intros start; [done|]. cbn [entries_from]. intros [-> H].
  unfold StringMap_get. cbn [string_map List.find fst]. unfold str_eqb. case_bool_decide as Hs.
  - cbn. intros [= <-]. subst s. exists [], (block_of l). split; [done|]. cbn [length]. lia.
  - intros Hg. destruct (IH _ H Hg) as (pre & post & Hb & <-). exists (s ++ [0] ++ pre), post. split.
    + unfold block_of in *. cbn [map concat fst]. rewrite Hb, <- !app_assoc. done.
    + rewrite !length_app. cbn [length]. lia.
Qed.

(** The strings block of a blob is the one of a map. *)
Context (sm : StringMap).
Hypothesis sm_is_ok : sm_ok sm.
Hypothesis sm_u32 : next_offset sm < 2 ^ 32.
Hypothesis block_read : seg (off_dt_strings data) (block_of (string_map sm)).
Hypothesis block_size : size_dt_strings data = length (block_of (string_map sm)).

Lemma string_seg key o :
  StringMap_get sm key = Some o -> Forall plain key -> u32 o /\ string data (Z.to_nat o) = Ok key.
Proof using sm_is_ok sm_u32 block_read block_size.
  intros Hg Hp. destruct sm_is_ok as [He Hn]. destruct (block_lookup 0 _ key o He Hg) as (pre & post & Hb & <-).
  pose proof (seg_bound _ _ block_read) as Hbd. pose proof block_read as Hseg. rewrite Hb in Hseg.
  apply seg_app in Hseg as [_ Hseg]. apply seg_app in Hseg as [Hseg _].
  assert (Hl : length (block_of (string_map sm)) = (length pre + (length key + 1) + length post)%nat).
  { rewrite Hb, !length_app. cbn [length]. lia. }
  split; [unfold u32; lia|]. unfold string. rewrite Z.add_0_l, Nat2Z.id, block_size, Hl.
  rewrite (proj2 (Nat.leb_gt _ _)) by lia. apply string_at_offset_seg; [done|done|lia].
Qed.

Lemma prop_at_seg offset p :
  seg offset (prop_bytes sm p) -> (offset mod 4 = 0)%nat -> is_Some (StringMap_get sm (p_name p)) ->
  is_valid_property_name (p_name p) = true -> Z.of_nat (prop_len p) < 2 ^ 32 ->
  read_token data offset = Ok Prop_ /\ prop_at data offset p (offset + length (prop_bytes sm p)).
Proof using sm_is_ok sm_u32 block_read block_size.
  intros H Ha [o Ho] Hv Hl. pose proof (property_name_plain _ Hv) as Hp. destruct (string_seg _ _ Ho Hp) as [Hu Hs].
  unfold prop_len in Hl. pose proof (align_tag_offset_ge (length (p_value p))). rewrite length_prop_bytes.
  unfold prop_bytes in H. rewrite Ho in H. cbn [default id] in H. apply seg_app in H as [H1 H]. apply seg_app in H as [H2 H].
  apply seg_app in H as [H3 H]. apply seg_app in H as [H4 _]. rewrite !length_to_be_bytes in *.
  replace (offset + 4 + 4)%nat with (offset + 8)%nat in * by lia. replace (offset + 8 + 4)%nat with (offset + 12)%nat in * by lia.
  split; [by eapply read_token_seg|]. split; [|by exists o; split; [apply read_u32_seg|]|done].
  exists (Z.of_nat (length (p_value p))). rewrite Nat2Z.id. pose proof (seg_bound _ _ H4). split_and!.
  - apply read_u32_seg; [done|]. unfold u32. lia.
  - by rewrite (seg_take _ _ H4).
  - done.
  - rewrite (align_tag_offset_add (offset + 12)); [lia|]. by apply mod4_add.
Qed.

Lemma items_props props : forall offset evs e,
  seg offset (concat (map (prop_bytes sm) props)) -> (offset mod 4 = 0)%nat ->
  Forall (fun p => is_Some (StringMap_get sm (p_name p))) props ->
  Forall (fun p => is_valid_property_name (p_name p) = true /\ Forall u8 (p_value p)) props ->
  Z.of_nat (sum_of prop_len props) < 2 ^ 32 ->
  items data (offset + length (concat (map (prop_bytes sm) props))) evs e ->
  items data offset (map EProp props ++ evs) e.
Proof using sm_is_ok sm_u32 block_read block_size.
  induction props as [|p props IH]; intros offset evs e H Ha Hk Hv Hl Hi; cbn [map app concat] in *;
    [by rewrite Nat.add_0_r in Hi|].
  apply Forall_cons_1 in Hk as [Hkp Hk]. apply Forall_cons_1 in Hv as [[Hvp _] Hv]. apply seg_app in H as [Hp H].
  cbn [sum_of fold_right] in Hl. fold (sum_of prop_len props) in Hl.
  destruct (prop_at_seg offset p Hp Ha Hkp Hvp ltac:(lia)) as [Ht Hat]. eapply it_prop; [done|exact Hat|].
  apply IH; [done|apply mod4_add; [done|apply prop_bytes_aligned]|done|done|lia|].
  by rewrite length_app, Nat.add_assoc in Hi.
Qed.

Lemma props_of_map props evs : props_of (map EProp props ++ evs) = props ++ props_of evs.
Proof. induction props as [|p props IH]; cbn [map app props_of]; congruence. Qed.

Lemma trees_of_map props evs : trees_of (map EProp props ++ evs) = trees_of evs.
Proof. induction props as [|p props IH]; [done|]. exact IH. Qed.

(** A node below the root, as the writer leaves it. *)
Definition written_back (n : dt_node) : Prop :=
  forall offset, seg offset (node_bytes sm n) -> (offset mod 4 = 0)%nat -> Forall plain (node_name n) ->
  node_at data offset n (offset + length (node_bytes sm n)).

Lemma items_nodes l : forall offset,
  Forall written_back l -> Forall (fun c => node_name c <> [] /\ is_valid_node_name (node_name c) = true) l ->
  seg offset (nodes_bytes sm l ++ to_be_bytes 4 FDT_END_NODE) -> (offset mod 4 = 0)%nat ->
  exists evs, items data offset evs (offset + length (nodes_bytes sm l) + 4) /\ trees_of evs = l /\ props_of evs = [].
Proof.
  induction l as [|c l IH]; intros offset Hw Hv H Ha.
  - exists []. cbn in H |- *. rewrite Nat.add_0_r. split; [|done]. apply it_end. by eapply (read_token_seg _ FDT_END_NODE).
  - apply Forall_cons_1 in Hw as [Hwc Hw]. apply Forall_cons_1 in Hv as [[Hne Hvc] Hv]. unfold nodes_bytes in *.
    cbn [map concat] in *. rewrite <- app_assoc in H. apply seg_app in H as [Hc H].
    destruct (IH _ Hw Hv H) as (evs & Hi & Ht & Hp); [apply mod4_add; [done|apply node_bytes_aligned]|].
    destruct (Hwc offset Hc Ha (node_name_plain _ Hvc)) as [Htok (nm & stop & body & Hn & Hb & ->)]. cbn [node_name] in *.
    eexists (ENode _ _ _ :: evs). split_and!; [|cbn; by rewrite <- Ht|done].
    rewrite length_app, Nat.add_assoc. by eapply it_node.
Qed.

Lemma node_written_back n :
  valid_node n -> known sm n -> Z.of_nat (node_len n) < 2 ^ 32 -> written_back n.
Proof using sm_is_ok sm_u32 block_read block_size.
  induction n as [nm ps l IH] using dt_node_nested_ind. intros Hv Hk Hl. inversion Hv as [? ? ? Hvp Hvn Hvl]; subst.
  inversion Hk as [? ? ? Hkp Hkl]; subst. cbn [node_len] in Hl. intros offset H Ha Hname. cbn [node_name] in Hname.
  rewrite length_node_bytes. rewrite node_bytes_eq in H. apply seg_app in H as [Hn H]. rewrite name_bytes_length in H.
  set (start := (offset + (4 + align_tag_offset (length nm + 1)))%nat) in *.
  assert (Hstart : (start mod 4 = 0)%nat) by (apply mod4_add; [done|]; apply mod4_add; [done|apply align_tag_offset_aligned]).
  apply seg_app in H as [Hps H]. assert (Hw : Forall written_back l).
  { assert (Hlen : Forall (fun c => Z.of_nat (node_len c) < 2 ^ 32) l).
    { assert (Hs : Z.of_nat (sum_of node_len l) < 2 ^ 32) by lia. clear -Hs.
      induction l as [|c l IHl]; [constructor|]. cbn [sum_of fold_right] in Hs. fold (sum_of node_len l) in Hs.
      constructor; [lia|apply IHl; lia]. }
    rewrite Forall_forall in *. auto. }
  destruct (items_nodes l _ Hw Hvn H) as (evs & Hi & Ht & Hp); [apply mod4_add; [done|apply props_aligned]|].
  apply items_props in Hi; [|done|done|done|done|lia]. apply seg_app in Hn as [Htok Hn].
  rewrite app_assoc in Hn. apply seg_app in Hn as [Hn _]. rewrite length_to_be_bytes in Hn.
  pose proof (find_string_end_seg _ _ Hn Hname) as Hend. pose proof (find_string_end_bound _ _ _ Hend).
  split; [by eapply (read_token_seg _ FDT_BEGIN_NODE)|].
  exists nm, (offset + 4 + length nm + 1)%nat, (map EProp ps ++ evs). split_and!.
  - split; [done|]. apply string_at_offset_seg; [done|done|lia].
  - replace (align_tag_offset (offset + 4 + length nm + 1)) with start.
    2:{ replace (offset + 4 + length nm + 1)%nat with (offset + (4 + (length nm + 1)))%nat by lia.
        by rewrite (align_tag_offset_add offset), (align_tag_offset_add 4) by done. }
    replace (offset + node_len (mkNode nm ps l))%nat
      with (start + length (concat (map (prop_bytes sm) ps)) + length (nodes_bytes sm l) + 4)%nat; [done|].
    unfold start, nodes_bytes. rewrite length_props_bytes. rewrite (length_concat_map (node_bytes sm) node_len).
    2:{ apply Forall_forall. intros c _. apply length_node_bytes. }
    cbn [node_len]. lia.
  - by rewrite props_of_map, trees_of_map, Hp, app_nil_r, Ht.
Qed.

End ReadBack.

(** *** The header and the reservations *)

Section HeaderBack.
Context (data : list Z).

Notation seg := (seg data).

Lemma words_seg header i v offset :
  seg offset (concat (map (to_be_bytes 4) header)) -> header !! i = Some v -> seg (offset + 4 * i) (to_be_bytes 4 v).
Proof.
  revert i offset. induction header as [|x header IH]; intros i offset H Hi; [done|]. cbn [map concat] in H.
  apply seg_app in H as [H1 H2]. destruct i as [|i]; [injection Hi as ->; by rewrite Nat.mul_0_r, Nat.add_0_r|].
  rewrite length_to_be_bytes in H2. replace (offset + 4 * S i)%nat with (offset + 4 + 4 * i)%nat by lia. by apply IH.
Qed.

Lemma field_seg header i v :
  seg 0 (concat (map (to_be_bytes 4) header)) -> header !! i = Some v -> u32 v -> field data i = v.
Proof.
  intros H Hi Hv. pose proof (seg_take _ _ _ (words_seg _ _ _ _ H Hi)) as Hseg. rewrite length_to_be_bytes in Hseg.
  unfold field. cbn [Nat.add] in Hseg. rewrite Hseg, from_be_to_be. by apply Z.mod_small.
Qed.

Definition resv_bytes (r : Z * Z) : list Z := to_be_bytes 8 (fst r) ++ to_be_bytes 8 (snd r).

Lemma reservation_at_seg offset r :
  seg offset (resv_bytes r) -> u64 (fst r) -> u64 (snd r) -> reservation_at data offset = Some r.
Proof.
  intros [H1 H2]%seg_app Ha Hs. rewrite length_to_be_bytes in H2. unfold reservation_at.
  rewrite (be_at_seg _ _ _ _ H1 Ha), (be_at_seg _ _ _ _ H2 Hs). by destruct r.
Qed.

Lemma reservations_seg rs : forall offset fuel,
  seg offset (concat (map resv_bytes rs) ++ resv_bytes (0, 0)) ->
  Forall (fun r => u64 (fst r) /\ u64 (snd r) /\ is_terminator r = false) rs ->
  (length rs < fuel)%nat -> (offset + 16 * length rs < off_dt_struct data)%nat ->
  reservations_from data fuel offset = Ok rs /\ mem_reservations_loop data fuel offset = Ok ().
Proof.
  induction rs as [|r rs IH]; intros offset fuel H Hr Hf Ho; (destruct fuel as [|fuel]; [lia|]);
    cbn [reservations_from mem_reservations_loop length map concat app] in *; pose proof (seg_bound _ _ _ H) as Hb.
  - rewrite (proj2 (Nat.leb_gt _ _)), (proj2 (Nat.ltb_ge _ _)) by lia. rewrite (reservation_at_seg _ _ H) by done. done.
  - apply Forall_cons_1 in Hr as [(Ha & Hs & Ht) Hr]. rewrite (proj2 (Nat.leb_gt _ _)), (proj2 (Nat.ltb_ge _ _)) by lia.
    rewrite <- app_assoc in H. apply seg_app in H as [H1 H2]. rewrite (reservation_at_seg _ _ H1) by done.
    cbn [ok_or expected obind]. rewrite Ht. unfold resv_bytes at 1 in H2. rewrite length_app, !length_to_be_bytes in H2.
    destruct (IH (offset + 16)%nat fuel H2 Hr ltac:(lia) ltac:(lia)) as [-> ->]. done.
Qed.

End HeaderBack.

(** ** The round trip *)

(** What can be written: the names validation accepts, values of bytes and
    reservations that are not the terminator. *)
Record writable (t : DeviceTree) : Prop := {
  wr_root : node_name (dt_root t) = [];
  wr_nodes : valid_node (dt_root t);
  wr_reservations : Forall (fun r => u64 (fst r) /\ u64 (snd r) /\ is_terminator r = false) (dt_reservations t)
}.

(** A bound on the size of the blob: a name used by several properties is
    counted for each. *)
Definition blob_bound (t : DeviceTree) : nat :=
  (40 + 16 * (length (dt_reservations t) + 1) + node_len (dt_root t) + 4 + strings_len (dt_root t))%nat.

Section RoundTrip.
Context (t : DeviceTree) (sm : StringMap).

Definition struct_start : nat := (40 + (length (dt_reservations t) + 1) * 16)%nat.
Definition strings_start : nat := (struct_start + (node_len (dt_root t) + 4))%nat.
Definition blob_len : nat := (strings_start + length (block_of (string_map sm)))%nat.

Definition header_of : list Z :=
  [FDT_MAGIC; Z.of_nat blob_len; Z.of_nat struct_start; Z.of_nat strings_start; 40; LAST_VERSION; LAST_COMP_VERSION; 0;
   Z.of_nat (length (block_of (string_map sm))); Z.of_nat (node_len (dt_root t) + 4)].

Definition blob_of : list Z :=
  concat (map (to_be_bytes 4) header_of) ++ (concat (map resv_bytes (dt_reservations t)) ++ resv_bytes (0, 0)) ++
  node_bytes sm (dt_root t) ++ to_be_bytes 4 FDT_END ++ block_of (string_map sm).

Lemma length_reservations rs : length (concat (map resv_bytes rs) ++ resv_bytes (0, 0)) = ((length rs + 1) * 16)%nat.
Proof.
  rewrite length_app, (length_concat_map _ (fun _ => 16%nat)); [|by apply Forall_forall].
  change (length (resv_bytes (0, 0))) with 16%nat. induction rs as [|r rs IH]; [done|]. cbn [sum_of fold_right length] in *.
  fold (sum_of (fun _ : Z * Z => 16%nat) rs) in *. lia.
Qed.

Lemma length_blob_of : length blob_of = blob_len.
Proof.
  unfold blob_of. rewrite length_app. change (length (concat (map (to_be_bytes 4) header_of))) with 40%nat.
  rewrite length_app, length_reservations, !length_app, length_node_bytes, length_to_be_bytes.
  unfold blob_len, strings_start, struct_start. lia.
Qed.
End RoundTrip.

(** What the writer leaves, and the map it has used. *)
Lemma to_dtb_written t :
  writable t -> Z.of_nat (blob_bound t) < 2 ^ 32 ->
  exists sm, sm_ok sm /\ known sm (dt_root t) /\ next_offset sm <= Z.of_nat (strings_len (dt_root t)) /\ to_dtb t = Ok (blob_of t sm).
Proof.
  intros Hw Hb. unfold blob_bound in Hb. destruct (calculate_node_size_spec (dt_root t) StringMap_new) as (sm & Hc & Hok & _ & Hk & Hn).
  { split; [done|done|constructor]. }
  { apply Hw. }
  { cbn [next_offset StringMap_new]. lia. }
  cbn [next_offset StringMap_new] in Hn. exists sm. split_and!; [done|done|lia|].
  unfold to_dtb, generate_header. rewrite Hc. cbn [obind]. pose proof (so_next _ Hok) as Hnext. rewrite Hnext, Nat2Z.id in *.
  unfold FDT_TAGSIZE. change (40 + (length (dt_reservations t) + 1) * 16)%nat with (struct_start t).
  change (struct_start t + (node_len (dt_root t) + 4))%nat with (strings_start t).
  change (strings_start t + length (block_of (string_map sm)))%nat with (blob_len t sm).
  assert (Z.of_nat (blob_len t sm) < 2 ^ 32) by (unfold blob_len, strings_start, struct_start; lia).
  rewrite !expect_u32_ok by (unfold blob_len, strings_start, struct_start in *; lia). cbn [obind].
  replace (blob_len t sm - strings_start t)%nat with (length (block_of (string_map sm))) by (unfold blob_len; lia).
  replace (strings_start t - struct_start t)%nat with (node_len (dt_root t) + 4)%nat by (unfold strings_start; lia).
  change (Z.of_nat 40) with 40. fold (header_of t sm). unfold write_root.
  assert (Hwm : write_memory_reservations t (concat (map (to_be_bytes 4) (header_of t sm))) =
    concat (map (to_be_bytes 4) (header_of t sm)) ++ (concat (map resv_bytes (dt_reservations t)) ++ resv_bytes (0, 0))).
  { unfold write_memory_reservations. do 2 f_equal. f_equal. apply map_ext. by intros [? ?]. }
  rewrite Hwm, write_node_spec; [|rewrite length_app, length_reservations|done|lia].
  2:{ change (length (concat (map (to_be_bytes 4) (header_of t sm)))) with 40%nat. apply mod4_add; [done|].
      replace ((length (dt_reservations t) + 1) * 16)%nat with ((length (dt_reservations t) + 1) * 4 * 4)%nat by lia.
      apply Nat.Div0.mod_mul. }
  cbn [obind]. rewrite write_string_block_spec, <- !app_assoc by done. rewrite !app_assoc, <- (app_assoc (concat (map _ (header_of t sm)))).
  rewrite <- !app_assoc. change (nth 1 (header_of t sm) 0) with (Z.of_nat (blob_len t sm)).
  replace (_ ++ _) with (blob_of t sm); [|unfold blob_of; by rewrite <- !app_assoc].
  by rewrite length_blob_of, Z.eqb_refl.
Qed.

Section Validated.
Context (t : DeviceTree) (sm : StringMap).
Hypothesis t_writable : writable t.
Hypothesis t_small : Z.of_nat (blob_bound t) < 2 ^ 32.
Hypothesis sm_is_ok : sm_ok sm.
Hypothesis sm_known : known sm (dt_root t).
Hypothesis sm_small : next_offset sm <= Z.of_nat (strings_len (dt_root t)).

Notation blob := (blob_of t sm).

Lemma blob_fields i v : header_of t sm !! i = Some v -> u32 v -> field blob i = v.
Proof. apply field_seg. exists [], (drop 40 blob). split; [|done]. reflexivity. Qed.

Lemma blob_seg : seg blob 40 (concat (map resv_bytes (dt_reservations t)) ++ resv_bytes (0, 0)) /\
  seg blob (struct_start t) (node_bytes sm (dt_root t)) /\ seg blob (strings_start t - 4) (to_be_bytes 4 FDT_END) /\
  seg blob (strings_start t) (block_of (string_map sm)).
Proof.
  assert (H : seg blob 0 blob) by (exists [], []; by rewrite app_nil_r). unfold blob_of in H at 2.
  apply seg_app in H as [_ H]. change (0 + length (concat (map (to_be_bytes 4) (header_of t sm))))%nat with 40%nat in H.
  apply seg_app in H as [H1 H]. rewrite length_reservations in H. apply seg_app in H as [H2 H]. apply seg_app in H as [H3 H4].
  rewrite length_to_be_bytes, length_node_bytes in *. unfold strings_start. split_and!; [done|done|..].
  - replace (struct_start t + (node_len (dt_root t) + 4) - 4)%nat with (struct_start t + node_len (dt_root t))%nat by lia. done.
  - by rewrite <- Nat.add_assoc in H4.
Qed.

Lemma blob_header :
  magic blob = FDT_MAGIC /\ totalsize blob = Z.of_nat (length blob) /\ off_dt_struct blob = struct_start t /\
  off_dt_strings blob = strings_start t /\ off_mem_rsvmap blob = 40%nat /\ version blob = 17 /\ last_comp_version blob = 16 /\
  size_dt_strings blob = length (block_of (string_map sm)) /\ size_dt_struct blob = (node_len (dt_root t) + 4)%nat.
Proof using t_small sm_is_ok sm_small.
  pose proof (so_next _ sm_is_ok) as Hn. pose proof t_small as Hb. unfold blob_bound in Hb.
  assert (Hl : Z.of_nat (blob_len t sm) < 2 ^ 32) by (unfold blob_len, strings_start, struct_start; lia).
  assert (Hs : Z.of_nat (strings_start t) < 2 ^ 32) by (unfold strings_start, struct_start; lia).
  assert (Hd : Z.of_nat (struct_start t) < 2 ^ 32) by (unfold struct_start; lia).
  rewrite length_blob_of. unfold magic, totalsize, off_dt_struct, off_dt_strings, off_mem_rsvmap, version, last_comp_version,
    size_dt_strings, size_dt_struct.
  rewrite (blob_fields 0 FDT_MAGIC), (blob_fields 1 (Z.of_nat (blob_len t sm))), (blob_fields 2 (Z.of_nat (struct_start t))),
    (blob_fields 3 (Z.of_nat (strings_start t))), (blob_fields 4 40), (blob_fields 5 17), (blob_fields 6 16),
    (blob_fields 8 (Z.of_nat (length (block_of (string_map sm))))), (blob_fields 9 (Z.of_nat (node_len (dt_root t) + 4)));
    first [by rewrite !Nat2Z.id|done|unfold u32; lia].
Qed.

Lemma struct_aligned : (struct_start t mod 4 = 0)%nat.
Proof.
  unfold struct_start. replace (40 + (length (dt_reservations t) + 1) * 16)%nat with ((10 + (length (dt_reservations t) + 1) * 4) * 4)%nat by lia.
  apply Nat.Div0.mod_mul.
Qed.

Lemma blob_node : node_at blob (struct_start t) (dt_root t) (strings_start t - 4).
Proof using t_writable t_small sm_is_ok sm_known sm_small.
  destruct blob_header as (_ & _ & _ & Hs & _ & _ & _ & Hz & _). destruct blob_seg as (_ & Hroot & _ & Hblock).
  destruct t_writable as [Hname Hvalid _]. pose proof t_small as Hb. unfold blob_bound in Hb.
  replace (strings_start t - 4)%nat with (struct_start t + length (node_bytes sm (dt_root t)))%nat
    by (rewrite length_node_bytes; unfold strings_start; lia).
  apply (node_written_back blob sm); [done|lia|by rewrite Hs|done|done|done|lia|done|apply struct_aligned|by rewrite Hname].
Qed.

Lemma blob_validate_header : validate_header blob = Ok ().
Proof using t_small sm_is_ok sm_small.
  destruct blob_header as (_ & _ & Ed & Es & Em & _ & _ & Ezs & Ezd). unfold validate_header. rewrite Ed, Es, Em, Ezs, Ezd.
  rewrite length_blob_of, struct_aligned. unfold blob_len, strings_start.
  repeat rewrite (proj2 (Nat.ltb_ge _ _)) by (unfold struct_start; lia). done.
Qed.

Lemma blob_validate : validate blob = Ok ().
Proof using t_writable t_small sm_is_ok sm_known sm_small.
  pose proof blob_node as Hnode. pose proof Hnode as [Htok (nm & stop & body & [Hend Hstr] & Hitems & Hroot)].
  destruct blob_seg as (Hr & _ & Hfin & _). destruct blob_header as (E0 & E1 & Ed & _ & Em & E5 & E6 & _).
  assert (Hnm : nm = []) by (destruct t_writable as [Hname _ _]; by rewrite Hroot in Hname). subst nm.
  assert (Hlen : (strings_start t <= length blob)%nat) by (rewrite length_blob_of; unfold blob_len; lia).
  assert (Hs : (40 + (length (dt_reservations t) + 1) * 16 = struct_start t)%nat) by done.
  unfold validate, validate_mem_reservations. rewrite E0, E1, E5, E6, Em, Ed, Z.eqb_refl. cbn [negb andb Z.leb].
  rewrite (proj2 (Nat.ltb_ge _ _)) by (unfold strings_start in Hlen; lia). change (negb (FDT_MAGIC =? FDT_MAGIC)) with false.
  cbn [negb]. change (negb ((16 <=? FDT_VERSION) && (FDT_VERSION <=? 17))) with false. cbn [negb].
  rewrite blob_validate_header. cbn [obind].
  destruct (reservations_seg blob _ 40 (S (length blob)) Hr (wr_reservations _ t_writable)) as [_ ->].
  { unfold strings_start in Hlen. lia. }
  { rewrite Ed. lia. }
  cbn [obind]. rewrite Htok. cbn [obind]. rewrite bool_decide_eq_true_2 by done. cbn [negb].
  unfold traverse_node. cbn [traverse_loop]. rewrite Htok. cbn [obind]. unfold FDT_TAGSIZE. rewrite Hend. cbn [obind]. rewrite Hstr.
  cbn [obind]. change (1 =? 1)%nat with true. cbn [negb]. change (negb (str_eqb [] [])) with false. cbn [obind].
  pose proof (items_end_bound _ _ _ _ Hitems). pose proof (find_string_end_bound _ _ _ Hend). pose proof (align_tag_offset_ge stop).
  destruct (traverse_items _ _ _ _ Hitems (length blob) 0 true) as (f & _ & ->); [lia|].
  cbn [Nat.eqb obind]. rewrite (read_token_seg _ _ _ End_ Hfin); [|by unfold u32|done].
  cbn [obind]. by rewrite bool_decide_eq_true_2, Z.eqb_refl.
Qed.
End Validated.

(** *** Every byte is a byte *)

Lemma prop_bytes_u8 sm p : Forall u8 (p_value p) -> Forall u8 (prop_bytes sm p).
Proof.
  intros Hp. unfold prop_bytes. repeat apply Forall_app_2; try apply to_be_bytes_u8; [done|].
  apply Forall_replicate. by unfold u8.
Qed.

Lemma concat_bytes {A} (f : A -> list Z) l : Forall (fun x => Forall u8 (f x)) l -> Forall u8 (concat (map f l)).
Proof. induction 1 as [|x l Hx _ IH]; cbn [map concat]; [constructor|by apply Forall_app_2]. Qed.

Lemma node_bytes_u8 sm n : valid_node n -> Forall u8 (node_name n) -> Forall u8 (node_bytes sm n).
Proof.
  induction n as [nm ps l IH] using dt_node_nested_ind. intros Hv Hn. inversion Hv as [? ? ? Hp Hc Hl]; subst. rewrite node_bytes_eq.
  cbn [node_name] in Hn. repeat apply Forall_app_2; try apply to_be_bytes_u8; [done|by constructor|apply Forall_replicate; by unfold u8|..].
  - apply concat_bytes. eapply Forall_impl; [exact Hp|]. intros p [_ Hb]. by apply prop_bytes_u8.
  - apply concat_bytes. rewrite Forall_forall in *. intros c Hin. apply IH; [done|by apply Hl|].
    by apply plain_u8, node_name_plain, Hc.
Qed.

Lemma blob_u8 t sm : writable t -> sm_ok sm -> Forall u8 (blob_of t sm).
Proof.
  intros [Hroot Hnodes _] Hok. unfold blob_of. apply Forall_app_2; [|apply Forall_app_2; [|apply Forall_app_2; [|apply Forall_app_2]]].
  - apply concat_bytes, Forall_forall. intros x _. apply to_be_bytes_u8.
  - apply Forall_app_2; [|apply Forall_app_2; apply to_be_bytes_u8].
    apply concat_bytes, Forall_forall. intros r _. apply Forall_app_2; apply to_be_bytes_u8.
  - apply node_bytes_u8; [done|]. by rewrite Hroot.
  - apply to_be_bytes_u8.
  - apply concat_bytes. eapply Forall_impl; [exact (so_names _ Hok)|]. intros e He. apply Forall_app_2; [done|by constructor].
Qed.

(** A tree that fits is written and read back. *)
Lemma dtb_written t :
  writable t -> Z.of_nat (blob_bound t) < 2 ^ 32 ->
  exists blob, to_dtb t = Ok blob /\ Forall u8 blob /\ (length blob <= blob_bound t)%nat /\
    Fdt_new blob = Ok (mkFdt (dt_root t) (dt_reservations t) (Z.of_nat (length blob))).
Proof.
  intros Hw Hs. destruct (to_dtb_written t Hw Hs) as (sm & Hok & Hk & Hn & Ht). exists (blob_of t sm). split; [done|]. split; [by apply blob_u8|]. split.
  - rewrite length_blob_of. pose proof (so_next _ Hok). unfold blob_len, strings_start, struct_start, blob_bound. lia.
  - unfold Fdt_new. rewrite (blob_validate t sm Hw Hs Hok Hk Hn). cbn [obind].
    destruct (blob_header t sm Hs Hok Hn) as (_ & _ & Ed & _ & Em & _). destruct (blob_seg t sm) as (Hr & _).
    destruct (reservations_seg _ _ 40 (S (length (blob_of t sm))) Hr (wr_reservations _ Hw)) as [Hl _].
    { rewrite length_blob_of. unfold blob_len, strings_start, struct_start. lia. }
    { rewrite Ed. unfold struct_start. lia. }
    rewrite <- Em in Hl. pose proof (blob_node t sm Hw Hs Hok Hk Hn) as Hnode. rewrite <- Ed in Hnode.
    by rewrite (decode_of_structure _ _ _ _ Hnode Hl).
Qed.

(** C17 [dtb_round_trip]: a tree with valid names, whose reservations are 64-bit
    words and none of them the pair of zeros that ends their block, and whose
    blob fits 32-bit offsets is written without a panic, into no more bytes than [blob_bound] counts, and
    reading the blob back, validation included, shows exactly that tree and
    exactly its reservations. *)
Theorem dtb_round_trip t :
  writable t -> Z.of_nat (blob_bound t) < 2 ^ 32 ->
  exists blob, to_dtb t = Ok blob /\ (length blob <= blob_bound t)%nat /\
    Fdt_new blob = Ok (mkFdt (dt_root t) (dt_reservations t) (Z.of_nat (length blob))).
Proof. intros Hw Hs. destruct (dtb_written t Hw Hs) as (blob & Ht & _ & Hl & Hr). eauto. Qed.

(** A tree with a board's memory node and a boot reservation. *)
Definition sample_tree : DeviceTree :=
  mkDeviceTree
    (mkNode [] [mkProp (b"#address-cells") (to_be_bytes 4 2); mkProp (b"#size-cells") (to_be_bytes 4 1)]
       [mkNode (b"memory@80000000") [mkProp (b"device_type") (b"memory" ++ [0]);
          mkProp (b"reg") (to_be_bytes 8 0x80000000 ++ to_be_bytes 4 0x40000000)] [];
        mkNode (b"chosen") [] []])
    [(0x1000, 0x2000)].

(** Concrete trees: names and bytes are evaluated. *)
Ltac solve_valid_node :=
  constructor;
  [ repeat (constructor; [split; [reflexivity|apply bytes_checked; reflexivity]|]); constructor
  | repeat (constructor; [split; [discriminate|reflexivity]|]); constructor
  | repeat (constructor; [solve_valid_node|]); constructor ].

Lemma sample_writable : writable sample_tree.
Proof. split; [reflexivity|solve_valid_node|]. repeat constructor; discriminate. Qed.

Lemma dtb_round_trip_witness :
  writable sample_tree /\ Z.of_nat (blob_bound sample_tree) < 2 ^ 32 /\
  exists blob, to_dtb sample_tree = Ok blob /\ (length blob <= blob_bound sample_tree)%nat /\
    Fdt_new blob = Ok (mkFdt (dt_root sample_tree) (dt_reservations sample_tree) (Z.of_nat (length blob))).
Proof. split; [exact sample_writable|]. split; [reflexivity|]. exact (dtb_round_trip sample_tree sample_writable eq_refl). Defined.

Definition sample_blob : list Z := match to_dtb sample_tree with Ok blob => blob | _ => [] end.

Lemma validated_blob_readable_witness :
  match Fdt_new sample_blob with
  | Ok fdt => decode sample_blob = Ok fdt /\ valid_fdt fdt /\ data_len fdt = Z.of_nat (length sample_blob)
  | Err e => validate sample_blob = Err e
  | Panic => False
  end /\ validate sample_blob = Ok ().
Proof.
  split; [|vm_compute; reflexivity]. apply (validated_blob_readable sample_blob); [|vm_compute; reflexivity].
  apply bytes_checked. vm_compute. reflexivity.
Defined.
