(* ===== verification/BootArgs.v ===== *)
(** * Boot arguments: src/tvisor_util/fdt.rs

    The device tree and the Linux image arrive as U-Boot arguments, C strings
    behind an array of pointers.  Memory is a function from addresses to bytes;
    a slice borrowed from it is the list of its bytes. *)

From S2P Require Import Prelude DeviceTree.

Definition MAX_UBOOT_ARGS : Z := 16.
Definition MAX_UBOOT_ARG_LEN : nat := 64.
Definition FDT_ARG_PREFIX : str := b"fdt=".
Definition IMAGE_ARG_PREFIX : str := b"image=".

Inductive FdtArgError :=
| InvalidArgCount
| NullArgv
| NullArgument
| ArgumentTooLong
| MissingAddress
| DuplicateAddress
| InvalidAddress
| ArgAddressOverflow
| ZeroAddress.

Record UbootImage := mkImage { image_address : Z; image_size : Z }.

Module Image.
Inductive ImageArgError :=
| InvalidArgCount
| NullArgv
| NullArgument
| ArgumentTooLong
| MissingImage
| DuplicateImage
| InvalidAddress
| InvalidSize
| AddressOverflow
| ZeroAddress
| ZeroSize.
End Image.

(** ** Numbers *)

(** [s.strip_prefix(prefix)] *)
Fixpoint strip_prefix (prefix s : str) : option str :=
  match prefix, s with
  | [], _ => Some s
  | p :: ps, c :: cs => if p =? c then strip_prefix ps cs else None
  | _ :: _, [] => None
  end.

Definition hex_digit (byte : Z) : option Z :=
  if (48 <=? byte) && (byte <=? 57) then Some (byte - 48)
  else if (97 <=? byte) && (byte <=? 102) then Some (byte - 97 + 10)
  else if (65 <=? byte) && (byte <=? 70) then Some (byte - 65 + 10)
  else None.

Definition without_0x (value : str) : str :=
  match strip_prefix (b"0x") value with
  | Some s => s
  | None => match strip_prefix (b"0X") value with Some s => s | None => value end
  end.

(** The [try_fold] over the digits. *)
Fixpoint fold_hex (address : Z) (value : str) : outcome FdtArgError Z :=
  match value with
  | [] => Ok address
  | byte :: rest =>
      let? digit := ok_or (hex_digit byte) InvalidAddress in
      let? address :=
        ok_or (match checked_mul address 16 with Some a => checked_add a digit | None => None end) ArgAddressOverflow in
      fold_hex address rest
  end.

Definition parse_hex_address (value : str) : outcome FdtArgError Z :=
  let value := without_0x value in
  reject match value with [] => true | _ => false end with InvalidAddress in
  fold_hex 0 value.

Definition map_image_address_error (error : FdtArgError) : Image.ImageArgError :=
  match error with
  | InvalidAddress => Image.InvalidAddress
  | ArgAddressOverflow => Image.AddressOverflow
  | _ => Image.InvalidAddress
  end.

Definition map_image_size_error (error : FdtArgError) : Image.ImageArgError :=
  match error with
  | InvalidAddress => Image.InvalidSize
  | ArgAddressOverflow => Image.AddressOverflow
  | _ => Image.InvalidSize
  end.

(** ** Arguments *)

Section Memory.
(** The bytes in memory. *)
Context (mem : Z -> Z).

(** The loop of [bounded_c_string] from [length] on. *)
Fixpoint c_string_loop (pointer : Z) (length fuel : nat) : outcome FdtArgError nat :=
  match fuel with
  | O => Err ArgumentTooLong
  | S fuel' => if mem (pointer + Z.of_nat length) =? 0 then Ok length else c_string_loop pointer (S length) fuel'
  end.

(** [slice::from_raw_parts(pointer, length)] *)
Definition slice (pointer : Z) (length : nat) : str := (fun i => mem (pointer + Z.of_nat i)) <$> seq 0 length.

Definition bounded_c_string (pointer : Z) : outcome FdtArgError str :=
  let? length := c_string_loop pointer 0 MAX_UBOOT_ARG_LEN in Ok (slice pointer length).

(** [*argv.add(index)]: a little-endian pointer. *)
Definition load_pointer (address : Z) : Z :=
  fold_right (fun i v => mem (address + Z.of_nat i) + 256 * v) 0 (seq 0 8).

Definition argument_at (argv : Z) (index : nat) : Z := load_pointer (argv + 8 * Z.of_nat index).

(** [usize::try_from(argc)] and the checks on the count. *)
Definition arg_count {E} (argc : Z) (e : E) : outcome E nat :=
  reject argc <? 0 with e in
  reject (argc =? 0) || (MAX_UBOOT_ARGS <? argc) with e in
  Ok (Z.to_nat argc).

Fixpoint fdt_args_loop (argv : Z) (index fuel : nat) (address : option Z) : outcome FdtArgError (option Z) :=
  match fuel with
  | O => Ok address
  | S fuel' =>
      let argument := argument_at argv index in
      reject argument =? 0 with NullArgument in
      let? argument := bounded_c_string argument in
      match strip_prefix FDT_ARG_PREFIX argument with
      | None => fdt_args_loop argv (S index) fuel' address
      | Some value =>
          reject match address with Some _ => true | None => false end with DuplicateAddress in
          let? a := parse_hex_address value in
          fdt_args_loop argv (S index) fuel' (Some a)
      end
  end.

Definition fdt_address_from_uboot_args (argc argv : Z) : outcome FdtArgError Z :=
  let? argc := arg_count argc InvalidArgCount in
  reject argv =? 0 with NullArgv in
  let? address := fdt_args_loop argv 0 argc None in
  let? address := ok_or address MissingAddress in
  reject address =? 0 with ZeroAddress in
  Ok address.

(** [value.iter().position(|byte| byte == b',')] with the two parts. *)
Fixpoint split_comma (value : str) : option (str * str) :=
  match value with
  | [] => None
  | c :: rest =>
      if c =? 44 then Some ([], rest)
      else match split_comma rest with Some (w, r) => Some (c :: w, r) | None => None end
  end.

Definition decode_image (value : str) : outcome Image.ImageArgError UbootImage :=
  let? parts := ok_or (split_comma value) Image.InvalidSize in
  let '(address, size) := parts in
  let? address := Prelude.map_err map_image_address_error (parse_hex_address address) in
  let? size := Prelude.map_err map_image_size_error (parse_hex_address size) in
  reject address =? 0 with Image.ZeroAddress in
  reject size =? 0 with Image.ZeroSize in
  Ok (mkImage address size).

(** The error of [bounded_c_string]; the other arms are [unreachable!]. *)
Definition image_string (pointer : Z) : outcome Image.ImageArgError str :=
  match bounded_c_string pointer with
  | Ok s => Ok s
  | Err ArgumentTooLong => Err Image.ArgumentTooLong
  | Err _ | Panic => Panic
  end.

Fixpoint image_args_loop (argv : Z) (index fuel : nat) (image : option UbootImage) :
    outcome Image.ImageArgError (option UbootImage) :=
  match fuel with
  | O => Ok image
  | S fuel' =>
      let argument := argument_at argv index in
      reject argument =? 0 with Image.NullArgument in
      let? argument := image_string argument in
      match strip_prefix IMAGE_ARG_PREFIX argument with
      | None => image_args_loop argv (S index) fuel' image
      | Some value =>
          reject match image with Some _ => true | None => false end with Image.DuplicateImage in
          let? i := decode_image value in
          image_args_loop argv (S index) fuel' (Some i)
      end
  end.

Definition image_from_uboot_args (argc argv : Z) : outcome Image.ImageArgError UbootImage :=
  let? argc := arg_count argc Image.InvalidArgCount in
  reject argv =? 0 with Image.NullArgv in
  let? image := image_args_loop argv 0 argc None in
  ok_or image Image.MissingImage.

End Memory.

(** ** The global device tree *)

Inductive FdtInitError (P : Type) := AlreadyInitialized | Parse (e : P).
Arguments AlreadyInitialized {P}.
Arguments Parse {P} _.

(** A parsed tree and the address of its blob. *)
Record FdtHandle := mkHandle { handle_base : Z; handle_fdt : Fdt }.

(** [from_raw] is [Fdt::from_raw] on the memory at the address. *)
Definition fdt_init {P} (from_raw : Z -> outcome P Fdt) (dtb_base : Z) (global : option FdtHandle) :
    outcome (FdtInitError P) FdtHandle * option FdtHandle :=
  match global with
  | Some g => (if handle_base g =? dtb_base then Ok g else Err AlreadyInitialized, global)
  | None =>
      match from_raw dtb_base with
      | Ok parsed =>
          let g := mkHandle dtb_base parsed in
          (if handle_base g =? dtb_base then Ok g else Err AlreadyInitialized, Some g)
      | Err e => (Err (Parse e), None)
      | Panic => (Panic, None)
      end
  end.

(** ** Specification *)

(** The longest prefix of digits. *)
Fixpoint hex_prefix (s : str) : str :=
  match s with
  | [] => []
  | c :: rest => match hex_digit c with Some _ => c :: hex_prefix rest | None => [] end
  end.

Definition digit_value (c : Z) : Z := match hex_digit c with Some d => d | None => 0 end.

(** The unbounded number a string of digits denotes, after [v]. *)
Definition hex_value_from (v : Z) (s : str) : Z := fold_left (fun v c => v * 16 + digit_value c) s v.
Definition hex_value (s : str) : Z := hex_value_from 0 s.

(** [k] hexadecimal digits of [n], as a printer emits them. *)
Definition hex_char (d : Z) : Z := if d <? 10 then 48 + d else 87 + d.

Fixpoint to_hex (k : nat) (n : Z) : str :=
  match k with
  | O => []
  | S k' => to_hex k' (n / 16) ++ [hex_char (n mod 16)]
  end.

(** A NUL-terminated string in memory. *)
Definition c_string_at (mem : Z -> Z) (p : Z) (s : str) : Prop :=
  (forall i c, s !! i = Some c -> mem (p + Z.of_nat i) = c /\ c <> 0) /\ mem (p + Z.of_nat (length s)) = 0.

Definition args_at (mem : Z -> Z) (argv : Z) (args : list str) : Prop :=
  forall i s, args !! i = Some s ->
    argument_at mem argv i <> 0 /\ c_string_at mem (argument_at mem argv i) s /\ (length s < MAX_UBOOT_ARG_LEN)%nat.

(** The value of the only argument with a tag. *)
Definition tagged {E A} (tag : str) (decode : str -> outcome E A) (missing duplicate : E) (args : list str) : outcome E A :=
  match omap (strip_prefix tag) args with
  | [] => Err missing
  | value :: rest => let? a := decode value in
                     match rest with [] => Ok a | _ => Err duplicate end
  end.

(** ** Lemmas *)

Lemma hex_digit_bound c d : hex_digit c = Some d -> 0 <= d < 16.
Proof. unfold hex_digit. repeat case_match; intros; simplify_eq; bool_prop; lia. Qed.

Lemma digit_value_bound c : 0 <= digit_value c < 16.
Proof. unfold digit_value. destruct (hex_digit c) eqn:E; [by eapply hex_digit_bound|lia]. Qed.

Lemma hex_value_from_grows v s : 0 <= v -> v <= hex_value_from v s.
Proof.
  revert v. induction s as [|c s IH]; intros v Hv; cbn; [lia|]. pose proof (digit_value_bound c).
  specialize (IH (v * 16 + digit_value c) ltac:(lia)). unfold hex_value_from in IH. lia.
Qed.

Lemma fold_hex_exact v s :
  0 <= v < 2 ^ 64 ->
  fold_hex v s = if 2 ^ 64 <=? hex_value_from v (hex_prefix s) then Err ArgAddressOverflow
                 else if bool_decide (hex_prefix s = s) then Ok (hex_value_from v s) else Err InvalidAddress.
Proof.
  revert v. induction s as [|c s IH]; intros v Hv; cbn [fold_hex hex_prefix].
  { cbn. rewrite (proj2 (Z.leb_gt _ _)) by lia. done. }
  destruct (hex_digit c) as [d|] eqn:Ed; sequence.
  2:{ change (hex_value_from v []) with v. rewrite (proj2 (Z.leb_gt (2 ^ 64) v)) by lia. by rewrite bool_decide_eq_false_2. }
  pose proof (hex_digit_bound _ _ Ed). change (hex_value_from v (c :: ?l)) with (hex_value_from (v * 16 + digit_value c) l).
  assert (Hd : digit_value c = d) by (unfold digit_value; by rewrite Ed).
  rewrite (bool_decide_ext (c :: hex_prefix s = c :: s) (hex_prefix s = s)) by (split; congruence).
  unfold checked_mul. destruct (Z.ltb_spec (v * 16) (2 ^ 64)).
  - unfold checked_add. destruct (Z.ltb_spec (v * 16 + d) (2 ^ 64)); sequence.
    + rewrite IH by lia. change (hex_value_from v (c :: s)) with (hex_value_from (v * 16 + digit_value c) s). by rewrite Hd.
    + change (hex_value_from v (c :: ?l)) with (hex_value_from (v * 16 + digit_value c) l).
      pose proof (hex_value_from_grows (v * 16 + digit_value c) (hex_prefix s) ltac:(lia)).
      by rewrite (proj2 (Z.leb_le _ _)) by lia.
  - change (hex_value_from v (c :: hex_prefix s)) with (hex_value_from (v * 16 + digit_value c) (hex_prefix s)).
    pose proof (hex_value_from_grows (v * 16 + digit_value c) (hex_prefix s) ltac:(lia)). sequence.
    by rewrite (proj2 (Z.leb_le _ _)) by lia.
Qed.

Lemma hex_prefix_idem s : hex_prefix s = s -> Forall (fun c => is_Some (hex_digit c)) s.
Proof.
  induction s as [|c s IH]; cbn [hex_prefix]; [constructor|]. destruct (hex_digit c) eqn:E; [|done].
  intros [= ?]. constructor; [by eexists|auto].
Qed.

Lemma hex_prefix_digits s : Forall (fun c => is_Some (hex_digit c)) s -> hex_prefix s = s.
Proof. induction 1 as [|c s [d Hd] _ IH]; cbn [hex_prefix]; [done|]. by rewrite Hd, IH. Qed.

(** C38 [parse_hex_address_exact]: the parser of boot addresses accepts, after an
    optional 0x or 0X, exactly the non-empty strings of hexadecimal digits
    whose unbounded value fits 64 bits, and returns that value: nothing wraps
    around.  It reports an overflow exactly when the leading digits already
    exceed 64 bits, however many digits follow, and an invalid address
    otherwise. *)
Theorem parse_hex_address_exact s :
  parse_hex_address s =
    let digits := without_0x s in
    if bool_decide (digits = []) then Err InvalidAddress
    else if 2 ^ 64 <=? hex_value (hex_prefix digits) then Err ArgAddressOverflow
    else if bool_decide (hex_prefix digits = digits) then Ok (hex_value digits)
    else Err InvalidAddress.
Proof.
  unfold parse_hex_address. cbv zeta. destruct (without_0x s) as [|c l] eqn:E; [done|].
  rewrite (bool_decide_eq_false_2 (c :: l = [])) by done. by apply fold_hex_exact.
Qed.

Lemma c_string_loop_exact mem p s n fuel :
  c_string_at mem p s -> (n <= length s)%nat -> (length s - n < fuel)%nat -> c_string_loop mem p n fuel = Ok (length s).
Proof.
  intros [Hs H0]. revert n. induction fuel as [|fuel IH]; intros n Hn Hf; [lia|]. cbn [c_string_loop].
  destruct (decide (n = length s)) as [->|Hne]; [by rewrite H0|].
  destruct (lookup_lt_is_Some_2 s n) as [c Hc]; [lia|]. destruct (Hs n c Hc) as [-> Hc0].
  rewrite (proj2 (Z.eqb_neq _ _) Hc0). apply IH; lia.
Qed.

Lemma slice_exact mem p s : c_string_at mem p s -> slice mem p (length s) = s.
Proof.
  intros [Hs _]. unfold slice. apply list_eq. intros i. rewrite list_lookup_fmap.
  destruct (s !! i) as [c|] eqn:Ec.
  - rewrite lookup_seq_lt by (by eapply lookup_lt_Some). cbn. f_equal. by apply Hs.
  - rewrite lookup_seq_ge; [done|]. by apply lookup_ge_None.
Qed.

Lemma bounded_c_string_exact mem p s :
  c_string_at mem p s -> (length s < MAX_UBOOT_ARG_LEN)%nat -> bounded_c_string mem p = Ok s.
Proof.
  intros Hs Hl. unfold bounded_c_string. rewrite (c_string_loop_exact mem p s) by (done || lia).
  sequence. by rewrite slice_exact.
Qed.

(** What a loop over arguments does with a tagged value it may already have. *)
Definition gather {E A} (decode : str -> outcome E A) (duplicate : E) (acc : option A) (values : list str) :
    outcome E (option A) :=
  match acc, values with
  | _, [] => Ok acc
  | Some _, _ => Err duplicate
  | None, value :: rest => let? a := decode value in match rest with [] => Ok (Some a) | _ => Err duplicate end
  end.

(** The strings from [index] on, as a suffix of the arguments. *)
Lemma args_at_head mem argv args index s rest :
  args_at mem argv args -> drop index args = s :: rest ->
  (argument_at mem argv index =? 0) = false /\ bounded_c_string mem (argument_at mem argv index) = Ok s /\
  drop (S index) args = rest.
Proof.
  intros Ha Hd. assert (Hs : args !! index = Some s) by (by rewrite <- (Nat.add_0_r index), <- lookup_drop, Hd).
  destruct (Ha index s Hs) as (H0 & Hc & Hl). split_and!; [by apply Z.eqb_neq|by apply bounded_c_string_exact|].
  replace (S index) with (index + 1)%nat by lia. by rewrite <- drop_drop, Hd.
Qed.

Lemma fdt_args_loop_exact mem argv args index rest acc :
  args_at mem argv args -> drop index args = rest ->
  fdt_args_loop mem argv index (length rest) acc =
    gather parse_hex_address DuplicateAddress acc (omap (strip_prefix FDT_ARG_PREFIX) rest).
Proof.
  intros Ha. revert index acc. induction rest as [|s rest IH]; intros index acc Hd; [by destruct acc|].
  destruct (args_at_head _ _ _ _ _ _ Ha Hd) as (H0 & Hb & Hd'). cbn [length fdt_args_loop]. rewrite H0, Hb. sequence.
  cbn [omap list_omap]. destruct (strip_prefix FDT_ARG_PREFIX s) as [v|]; [|by apply IH].
  destruct acc; [done|]. cbn [gather]. destruct (parse_hex_address v); sequence; [|done..]. rewrite IH by done.
  by destruct (omap _ rest).
Qed.

Lemma image_args_loop_exact mem argv args index rest acc :
  args_at mem argv args -> drop index args = rest ->
  image_args_loop mem argv index (length rest) acc =
    gather decode_image Image.DuplicateImage acc (omap (strip_prefix IMAGE_ARG_PREFIX) rest).
Proof.
  intros Ha. revert index acc. induction rest as [|s rest IH]; intros index acc Hd; [by destruct acc|].
  destruct (args_at_head _ _ _ _ _ _ Ha Hd) as (H0 & Hb & Hd'). cbn [length image_args_loop]. unfold image_string. rewrite H0, Hb.
  sequence. cbn [omap list_omap]. destruct (strip_prefix IMAGE_ARG_PREFIX s) as [v|]; [|by apply IH].
  destruct acc; [done|]. cbn [gather]. destruct (decode_image v); sequence; [|done..]. rewrite IH by done.
  by destruct (omap _ rest).
Qed.

Lemma arg_count_ok {E} n (e : E) : (1 <= n <= 16)%nat -> arg_count (Z.of_nat n) e = Ok n.
Proof.
  intros H. unfold arg_count, MAX_UBOOT_ARGS. rewrite (proj2 (Z.ltb_ge _ _)), (proj2 (Z.eqb_neq _ _)), (proj2 (Z.ltb_ge _ _)) by lia.
  cbn [orb]. by rewrite Nat2Z.id.
Qed.

Section Boot.
Context (mem : Z -> Z) (argv : Z) (args : list str).
Hypotheses (Hcount : (1 <= length args <= 16)%nat) (Hargv : argv <> 0) (Hargs : args_at mem argv args).

Lemma fdt_address_exact :
  fdt_address_from_uboot_args mem (Z.of_nat (length args)) argv =
    let? a := tagged FDT_ARG_PREFIX parse_hex_address MissingAddress DuplicateAddress args in
    reject a =? 0 with ZeroAddress in Ok a.
Proof using Type*.
  unfold fdt_address_from_uboot_args. rewrite arg_count_ok by done. sequence. rewrite (proj2 (Z.eqb_neq _ _) Hargv).
  rewrite (fdt_args_loop_exact mem argv args 0 args) by done. unfold tagged.
  destruct (omap _ args) as [|v [|w l]]; cbn [gather]; [done|..]; destruct (parse_hex_address v); done.
Qed.

Lemma image_exact :
  image_from_uboot_args mem (Z.of_nat (length args)) argv =
    tagged IMAGE_ARG_PREFIX decode_image Image.MissingImage Image.DuplicateImage args.
Proof using Type*.
  unfold image_from_uboot_args. rewrite arg_count_ok by done. sequence. rewrite (proj2 (Z.eqb_neq _ _) Hargv).
  rewrite (image_args_loop_exact mem argv args 0 args) by done. unfold tagged.
  destruct (omap _ args) as [|v [|w l]]; cbn [gather]; [done|..]; destruct (decode_image v); done.
Qed.

End Boot.

(** ** Printing and parsing *)

Lemma hex_digit_char d : 0 <= d < 16 -> hex_digit (hex_char d) = Some d.
Proof.
  intros Hd. unfold hex_char, hex_digit. destruct (Z.ltb_spec d 10).
  - rewrite !(proj2 (Z.leb_le _ _)) by lia. cbn [andb]. f_equal. lia.
  - rewrite (proj2 (Z.leb_gt (87 + d) 57)), andb_false_r by lia. rewrite !(proj2 (Z.leb_le _ _)) by lia. cbn [andb]. f_equal. lia.
Qed.

Lemma to_hex_digits k n : 0 <= n -> Forall (fun c => is_Some (hex_digit c)) (to_hex k n).
Proof.
  revert n. induction k as [|k IH]; intros n Hn; cbn [to_hex]; [constructor|].
  apply Forall_app. split; [apply IH, Z.div_pos; lia|]. constructor; [|constructor].
  eexists. apply hex_digit_char, Z.mod_pos_bound. lia.
Qed.

Lemma hex_value_to_hex k n : 0 <= n < 16 ^ Z.of_nat k -> hex_value (to_hex k n) = n.
Proof.
  revert n. induction k as [|k IH]; intros n Hn; cbn [to_hex].
  { change (16 ^ Z.of_nat 0) with 1 in Hn. unfold hex_value, hex_value_from. cbn. lia. }
  unfold hex_value, hex_value_from in *. rewrite fold_left_app. cbn [fold_left]. rewrite IH.
  - unfold digit_value. rewrite hex_digit_char by (apply Z.mod_pos_bound; lia). pose proof (Z.div_mod n 16 ltac:(lia)). lia.
  - rewrite Nat2Z.inj_succ, Z.pow_succ_r in Hn by lia. split; [apply Z.div_pos; lia|]. apply Z.div_lt_upper_bound; lia.
Qed.

Lemma to_hex_nonempty k n : (0 < k)%nat -> to_hex k n <> [].
Proof. destruct k as [|k]; [lia|]. cbn [to_hex]. intros _. by destruct (to_hex k (n / 16)). Qed.

Lemma without_0x_digits s : Forall (fun c => is_Some (hex_digit c)) s -> without_0x s = s.
Proof.
  intros Hs. unfold without_0x. destruct s as [|c [|d s]]; [done| |].
  - change (b"0x") with [48; 120]. change (b"0X") with [48; 88]. cbn [strip_prefix]. by destruct (48 =? c).
  - change (b"0x") with [48; 120]. change (b"0X") with [48; 88]. cbn [strip_prefix].
    apply Forall_cons_1 in Hs as [_ [[x Hd] _]%Forall_cons_1]. destruct (48 =? c); [|done].
    destruct (Z.eqb_spec 120 d) as [<-|]; [done|]. by destruct (Z.eqb_spec 88 d) as [<-|].
Qed.

(** A number as a boot script may write it. *)
Inductive written (n : Z) : str -> Prop :=
| written_as prefix k : prefix ∈ [[]; b"0x"; b"0X"] -> (0 < k)%nat -> n < 16 ^ Z.of_nat k -> written n (prefix ++ to_hex k n).

Lemma parse_written n s : u64 n -> written n s -> parse_hex_address s = Ok n.
Proof.
  intros [Hn0 Hn] [prefix k Hp Hk Hlt]. pose proof (to_hex_digits k n Hn0) as Hd. unfold parse_hex_address.
  assert (Hw : without_0x (prefix ++ to_hex k n) = to_hex k n).
  { rewrite !elem_of_cons, elem_of_nil in Hp. destruct Hp as [->|[->|[->|[]]]]; [by apply without_0x_digits|done|done]. }
  rewrite Hw. pose proof (to_hex_nonempty k n Hk) as Hne. destruct (to_hex k n) as [|c l] eqn:E; [done|]. rewrite <- E in *.
  rewrite fold_hex_exact, (hex_prefix_digits _ Hd), bool_decide_eq_true_2 by (done || lia).
  fold (hex_value (to_hex k n)). rewrite hex_value_to_hex by lia. by rewrite (proj2 (Z.leb_gt _ _)).
Qed.

Lemma split_comma_app w r : Forall (fun c => c <> 44) w -> split_comma (w ++ 44 :: r) = Some (w, r).
Proof.
  induction 1 as [|c w Hc _ IH]; cbn [split_comma app]; [done|]. by rewrite (proj2 (Z.eqb_neq _ _) Hc), IH.
Qed.

Lemma written_no_comma n s : 0 <= n -> written n s -> Forall (fun c => c <> 44) s.
Proof.
  intros Hn [prefix k Hp _ _]. apply Forall_app. split.
  - rewrite !elem_of_cons, elem_of_nil in Hp. destruct Hp as [->|[->|[->|[]]]]; repeat constructor; done.
  - eapply Forall_impl; [by apply to_hex_digits|]. cbn. intros c [d Hd] ->. done.
Qed.

(** [uboot_args_round_trip]: when U-Boot passes up to sixteen arguments, one of
    them the device tree address and one the image's address and size, each
    written in hexadecimal with any number of digits, with or without a 0x, in
    any order among other arguments, the two scans return exactly these
    numbers. *)
Lemma uboot_args_round_trip mem argv args dtb image size s_dtb s_image s_size :
  (1 <= length args <= 16)%nat -> argv <> 0 -> args_at mem argv args ->
  0 < dtb < 2 ^ 64 -> 0 < image < 2 ^ 64 -> 0 < size < 2 ^ 64 ->
  written dtb s_dtb -> written image s_image -> written size s_size ->
  omap (strip_prefix FDT_ARG_PREFIX) args = [s_dtb] ->
  omap (strip_prefix IMAGE_ARG_PREFIX) args = [s_image ++ 44 :: s_size] ->
  fdt_address_from_uboot_args mem (Z.of_nat (length args)) argv = Ok dtb /\
  image_from_uboot_args mem (Z.of_nat (length args)) argv = Ok (mkImage image size).
Proof.
  intros Hc Hv Ha Hd Hi Hs Wd Wi Ws Ed Ei. rewrite fdt_address_exact, image_exact by done. unfold tagged. rewrite Ed, Ei.
  rewrite (parse_written dtb s_dtb) by (done || (unfold u64; lia)). unfold decode_image.
  rewrite (split_comma_app s_image s_size) by (apply (written_no_comma image); [lia|done]). sequence.
  rewrite (parse_written image s_image), (parse_written size s_size) by (done || (unfold u64; lia)). sequence.
  by rewrite !(proj2 (Z.eqb_neq _ 0)) by lia.
Qed.

(** Once installed, the global tree stays: later calls return it for the same
    address and are refused for any other, and an installed tree is the one
    that was parsed at its address. *)
Lemma fdt_init_permanent {P} (from_raw : Z -> outcome P Fdt) base global r global' :
  fdt_init from_raw base global = (r, global') ->
  (forall g, global = Some g -> global' = Some g /\ r = if handle_base g =? base then Ok g else Err AlreadyInitialized) /\
  (forall g, r = Ok g -> global' = Some g /\ handle_base g = base) /\
  (forall g, global = None -> global' = Some g -> handle_base g = base /\ from_raw base = Ok (handle_fdt g)).
Proof.
  unfold fdt_init. destruct global as [g0|].
  - intros [= <- <-]. split_and!; [by intros g [= <-]| |done]. intros g. destruct (Z.eqb_spec (handle_base g0) base); [|done].
    by intros [= <-].
  - destruct (from_raw base) as [f| |] eqn:E; cbn [handle_base]; rewrite ?Z.eqb_refl; intros [= <- <-]; (split_and!; [done|..]).
    all: intros g; intros; simplify_eq; done.
Qed.

(** ** Concrete instances *)

(** Memory with the arguments' pointers at 0x100 and the strings at 0x200, a
    page row of 64 bytes each. *)
Definition sample_args : list str := [b"4001010"; b"fdt=37b3aca0"; b"image=0x04000000,305008"].

Definition sample_memory (a : Z) : Z :=
  if (0x100 <=? a) && (a <? 0x118) then
    nth (Z.to_nat (a mod 8)) [64 * ((a - 0x100) / 8); 2; 0; 0; 0; 0; 0; 0] 0
  else nth (Z.to_nat ((a - 0x200) mod 64)) (nth (Z.to_nat ((a - 0x200) / 64)) sample_args []) 0.

Lemma sample_memory_args : args_at sample_memory 0x100 sample_args.
Proof.
  intros i s Hi. assert (Hlt : (i < 3)%nat) by (by apply lookup_lt_Some in Hi).
  destruct i as [|[|[|i]]]; [..|lia]; vm_compute in Hi; injection Hi as <-; (split_and!; [vm_compute; done| |vm_compute; lia]);
    (split; [|vm_compute; reflexivity]); intros j c Hj; pose proof (lookup_lt_Some _ _ _ Hj) as Hl; vm_compute in Hl.
  all: do 24 (destruct j as [|j]; [vm_compute in Hj; first [discriminate Hj|injection Hj as <-; vm_compute; done]|]); lia.
Qed.

