(* ===== verification/Page.v ===== *)
(** * Page arithmetic: src/tvisor_util/page.rs

    The alignment helpers on [usize] every other component uses.  The code
    works with masks; the lemmas below give each helper its arithmetic
    meaning once, so the later files never reason about masks again. *)

From S2P Require Import Prelude.

Definition PAGE_SIZE : Z := 0x1000.

Definition is_aligned (addr alignment : Z) : bool :=
  is_power_of_two alignment && (Z.land addr (alignment - 1) =? 0).

Definition is_page_aligned (addr : Z) : bool := is_aligned addr PAGE_SIZE.

Definition align_down (value alignment : Z) : option Z :=
  if negb (is_power_of_two alignment) then None
  else Some (Z.land value (not64 (alignment - 1))).

Definition align_up (value alignment : Z) : option Z :=
  if negb (is_power_of_two alignment) then None
  else match checked_add value (alignment - 1) with
       | Some v => Some (Z.land v (not64 (alignment - 1)))
       | None => None
       end.

Definition page_offset (addr : Z) : Z := Z.land addr (PAGE_SIZE - 1).

Definition page_address (addr : Z) : Z := Z.land addr (not64 (PAGE_SIZE - 1)).

Definition round_up_to_page (value : Z) : Z :=
  if is_page_aligned value then value / PAGE_SIZE else value / PAGE_SIZE + 1.

(** ** Arithmetic meaning *)

Lemma PAGE_SIZE_pow2 : PAGE_SIZE = 2 ^ 12.
Proof. reflexivity. Qed.

Lemma PAGE_SIZE_is_pow2 : is_power_of_two PAGE_SIZE = true.
Proof. reflexivity. Qed.

Lemma is_aligned_mod addr alignment :
  is_power_of_two alignment = true ->
  is_aligned addr alignment = (addr mod alignment =? 0).
Proof.
  intros H. unfold is_aligned. rewrite H. simpl.
  apply is_power_of_two_spec in H as (k & Hk & ->).
  by rewrite land_pow2_pred.
Qed.

Lemma is_page_aligned_mod addr : is_page_aligned addr = (addr mod PAGE_SIZE =? 0).
Proof. apply is_aligned_mod. reflexivity. Qed.

Lemma is_page_aligned_iff addr : is_page_aligned addr = true <-> addr mod PAGE_SIZE = 0.
Proof. rewrite is_page_aligned_mod. apply Z.eqb_eq. Qed.

Lemma page_offset_mod addr : page_offset addr = addr mod PAGE_SIZE.
Proof. apply (land_pow2_pred addr 12). lia. Qed.

Lemma page_address_sub addr : u64 addr -> page_address addr = addr - addr mod PAGE_SIZE.
Proof. intros. apply (land_not64_pow2 addr 12); [done | lia]. Qed.

Lemma align_down_eq v a :
  u64 v -> is_power_of_two a = true -> align_down v a = Some (v - v mod a).
Proof.
  intros Hv Ha. unfold align_down. rewrite Ha. simpl. f_equal.
  apply is_power_of_two_spec in Ha as (k & Hk & ->).
  by apply land_not64_pow2.
Qed.

Lemma align_up_eq v a :
  u64 v -> is_power_of_two a = true ->
  align_up v a =
    if v + (a - 1) <? 2 ^ 64
    then Some (v + (a - 1) - (v + (a - 1)) mod a) else None.
Proof.
  intros Hv Ha. unfold align_up, checked_add. rewrite Ha. cbn [negb].
  apply is_power_of_two_spec in Ha as (k & Hk & ->).
  destruct (_ <? _) eqn:Hlt; [|done]. bool_prop. f_equal. apply land_not64_pow2; [|done].
  unfold u64 in *. lia.
Qed.

(** [align_up] is the least aligned value at or above its argument. *)
Lemma align_up_least v a w :
  u64 v -> is_power_of_two a = true -> align_up v a = Some w ->
  v <= w < v + a /\ w mod a = 0 /\ u64 w /\
  forall x, x mod a = 0 -> v <= x -> w <= x.
Proof.
  intros Hv Ha. rewrite align_up_eq by done. case_match; [|done].
  intros [= <-]. bool_prop. unfold u64 in *.
  apply is_power_of_two_spec in Ha as (k & Hk & ->).
  pose proof (Z.mod_pos_bound (v + (2 ^ k - 1)) (2 ^ k) ltac:(lia)).
  split; [lia|]. split; [apply sub_mod_aligned; lia|]. split; [lia|].
  intros x Hx Hle. rewrite (Z.mod_eq x) in Hx by lia.
  rewrite (Z.mod_eq (v + _)) by lia.
  assert ((v + (2 ^ k - 1)) / 2 ^ k <= x / 2 ^ k); [|nia].
  apply Zlt_succ_le, Z.div_lt_upper_bound; nia.
Qed.

Lemma round_up_to_page_ceil v :
  0 <= v -> round_up_to_page v = (v + (PAGE_SIZE - 1)) / PAGE_SIZE.
Proof.
  intros Hv. unfold round_up_to_page. rewrite is_page_aligned_mod. unfold PAGE_SIZE.
  case_match; bool_prop; Z.to_euclidean_division_equations; lia.
Qed.

#[export] Hint Resolve PAGE_SIZE_is_pow2 : tv.
