(* ===== verification/SystemInfo.v ===== *)
(** * Physical regions and fixed-capacity lists: src/tvisor_util/system_info.rs

    [PhysAddr] is a transparent wrapper of a [u64] and is the integer itself
    here.  [PhysRegion] is a half-open physical interval whose constructors
    establish [region_ok]; [FixedList] is the array-backed list the discovery
    code fills.  The array operations are translated as loops over the array
    and refined to operations on a mathematical list by [fl_rep]. *)

From S2P Require Import Prelude Page.

(** ** Physical regions *)

Definition PhysAddr_checked_add (self offset : Z) : option Z := checked_add self offset.

Inductive RegionError :=
| Empty
| EndBeforeStart
| AddressOverflow
| InvalidAlignment.

#[global] Instance RegionError_eq_dec : EqDecision RegionError.
Proof. solve_decision. Defined.

Record PhysRegion := mkRegion { rstart : Z; rsize : Z }.

#[global] Instance PhysRegion_eq_dec : EqDecision PhysRegion.
Proof. solve_decision. Defined.

Definition PhysRegion_new (start size : Z) : outcome RegionError PhysRegion :=
  reject size =? 0 with Empty in
  match PhysAddr_checked_add start size with
  | None => Err AddressOverflow
  | Some _ => Ok (mkRegion start size)
  end.

Definition PhysRegion_new_aligned (start size alignment : Z) : outcome RegionError PhysRegion :=
  reject size =? 0 with Empty in
  reject negb (is_power_of_two alignment) with InvalidAlignment in
  let? aligned_start := ok_or (align_down start alignment) InvalidAlignment in
  let? e := ok_or (checked_add start size) AddressOverflow in
  let? aligned_end := ok_or (align_up e alignment) AddressOverflow in
  let? sz := sub64 aligned_end aligned_start in
  Ok (mkRegion aligned_start sz).

Definition PhysRegion_from_bounds (start e : Z) : outcome RegionError PhysRegion :=
  reject e <? start with EndBeforeStart in
  reject e =? start with Empty in
  let? sz := sub64 e start in
  PhysRegion_new start sz.

(** [self.start + self.size]: [region_ok] shows that the sum fits. *)
Definition rend (r : PhysRegion) : Z := rstart r + rsize r.

Definition contains_address (r : PhysRegion) (address : Z) : bool :=
  (rstart r <=? address) && (address <? rend r).

Definition contains_region (self other : PhysRegion) : bool :=
  (rstart self <=? rstart other) && (rend other <=? rend self).

Definition overlaps (self other : PhysRegion) : bool :=
  (rstart self <? rend other) && (rstart other <? rend self).

Definition is_adjacent (self other : PhysRegion) : bool :=
  (rend self =? rstart other) || (rend other =? rstart self).

(** ** Fixed-capacity lists *)

Record CapacityError := mkCapacity { capacity : nat }.

Record FixedList (T : Type) := mkFixedList { entries : list (option T); len : nat }.
Arguments mkFixedList {T} _ _.
Arguments entries {T} _.
Arguments len {T} _.

Section FixedListOps.
Context {T : Type} (N : nat).

Definition FixedList_new : FixedList T := mkFixedList (replicate N None) 0.

Definition FixedList_is_empty (self : FixedList T) : bool := (len self =? 0)%nat.

Definition FixedList_is_full (self : FixedList T) : bool := (len self =? N)%nat.

Definition FixedList_clear (self : FixedList T) : FixedList T :=
  mkFixedList ((fun _ => None) <$> entries self) 0.

Definition FixedList_push (self : FixedList T) (value : T) :
  outcome CapacityError (FixedList T) :=
  reject FixedList_is_full self with mkCapacity N in
  let? es := arr_set (entries self) (len self) (Some value) in
  Ok (mkFixedList es (S (len self))).

(** The loop [for i in (index..len).rev()] of [insert], [n] iterations left. *)
Fixpoint shift_right {E} (es : list (option T)) (index n : nat) :
  outcome E (list (option T)) :=
  match n with
  | O => Ok es
  | S n' =>
      let i := (index + n')%nat in
      let? taken := arr_get es i in
      let? es1 := arr_set es i None in
      let? es2 := arr_set es1 (i + 1)%nat taken in
      shift_right es2 index n'
  end.

Definition FixedList_insert (self : FixedList T) (index : nat) (value : T) :
  outcome CapacityError (FixedList T) :=
  reject FixedList_is_full self with mkCapacity N in
  reject (len self <? index)%nat with mkCapacity N in
  let? es := shift_right (entries self) index (len self - index) in
  let? es' := arr_set es index (Some value) in
  Ok (mkFixedList es' (S (len self))).

(** The loop [for i in index..(len - 1)] of [remove], [n] iterations left. *)
Fixpoint shift_left {E} (es : list (option T)) (i n : nat) :
  outcome E (list (option T)) :=
  match n with
  | O => Ok es
  | S n' =>
      let? taken := arr_get es (i + 1)%nat in
      let? es1 := arr_set es (i + 1)%nat None in
      let? es2 := arr_set es1 i taken in
      shift_left es2 (i + 1)%nat n'
  end.

Definition FixedList_remove {E} (self : FixedList T) (index : nat) :
  outcome E (option T * FixedList T) :=
  if (len self <=? index)%nat then Ok (None, self)
  else
    let? removed := arr_get (entries self) index in
    let? es0 := arr_set (entries self) index None in
    let? es1 := shift_left es0 index (len self - 1 - index) in
    let? es2 := arr_set es1 (len self - 1)%nat None in
    Ok (removed, mkFixedList es2 (len self - 1)).

Definition FixedList_get {E} (self : FixedList T) (index : nat) : outcome E (option T) :=
  if (len self <=? index)%nat then Ok None else arr_get (entries self) index.

(** [*list.get_mut(index).unwrap() = value]. *)
Definition FixedList_get_mut_assign {E} (self : FixedList T) (index : nat) (value : T) :
  outcome E (FixedList T) :=
  if (len self <=? index)%nat then Panic
  else
    let? slot := arr_get (entries self) index in
    match slot with
    | None => Panic
    | Some _ =>
        let? es := arr_set (entries self) index (Some value) in
        Ok (mkFixedList es (len self))
    end.

(** The items [iter()] and [into_iter()] yield: the slice [entries[..len]],
    every slot of which is expected to be initialised. *)
Definition FixedList_iter {E} (self : FixedList T) : outcome E (list T) :=
  if (len self <=? length (entries self))%nat
  then expect (mapM id (take (len self) (entries self)))
  else Panic.

(** The list a [FixedList] of capacity [N] represents. *)
Definition fl_rep (self : FixedList T) (xs : list T) : Prop :=
  entries self = (Some <$> xs) ++ replicate (N - length xs) None /\
  len self = length xs /\ (length xs <= N)%nat.

End FixedListOps.

(** [list.get(index).unwrap()]. *)
Definition get_unwrap {T E} (self : FixedList T) (index : nat) : outcome E T :=
  let? o := FixedList_get self index in expect o.

(** ** Regions: what the constructors establish *)

Definition region_ok (r : PhysRegion) : Prop :=
  0 <= rstart r /\ 0 < rsize r /\ rend r < 2 ^ 64.

(** Linear arithmetic on the bounds of well-formed regions. *)
Ltac region :=
  repeat match goal with H : region_ok _ |- _ => destruct H as (?&?&?) end;
  unfold region_ok, rend in *; simpl in *; lia.

Lemma contains_address_iff r a : contains_address r a = true <-> rstart r <= a < rend r.
Proof. unfold contains_address. rewrite andb_true_iff, Z.leb_le, Z.ltb_lt. done. Qed.

Lemma overlaps_iff a b :
  region_ok a -> region_ok b ->
  overlaps a b = true <->
  exists x, contains_address a x = true /\ contains_address b x = true.
Proof.
  intros (?&?&?) (?&?&?). unfold overlaps, rend in *.
  rewrite andb_true_iff, !Z.ltb_lt. setoid_rewrite contains_address_iff. unfold rend.
  split.
  - intros []. exists (Z.max (rstart a) (rstart b)). lia.
  - intros (x & ? & ?). lia.
Qed.

Lemma PhysRegion_new_spec start size :
  u64 start -> u64 size ->
  PhysRegion_new start size =
    if size =? 0 then Err Empty
    else if start + size <? 2 ^ 64 then Ok (mkRegion start size) else Err AddressOverflow.
Proof.
  intros. unfold PhysRegion_new, PhysAddr_checked_add, checked_add.
  destruct (size =? 0); [done|]. by destruct (_ <? _).
Qed.

Lemma PhysRegion_new_ok start size r :
  0 <= start -> 0 <= size ->
  PhysRegion_new start size = Ok r -> r = mkRegion start size /\ region_ok r.
Proof.
  intros ??. unfold PhysRegion_new, PhysAddr_checked_add, checked_add, region_ok, rend.
  destruct (size =? 0) eqn:?; [done|]. destruct (_ <? _) eqn:?; [|done].
  intros [= <-]. bool_prop. simpl. auto with lia.
Qed.

(** [from_bounds] succeeds exactly on non-empty bounds. *)
Lemma PhysRegion_from_bounds_ok start e :
  0 <= start < e -> e < 2 ^ 64 ->
  PhysRegion_from_bounds start e = Ok (mkRegion start (e - start)).
Proof.
  intros. unfold PhysRegion_from_bounds.
  rewrite (proj2 (Z.ltb_ge e start)), (proj2 (Z.eqb_neq e start)) by lia.
  rewrite sub64_ok by lia. simpl.
  unfold PhysRegion_new, PhysAddr_checked_add, checked_add.
  rewrite (proj2 (Z.eqb_neq (e - start) 0)) by lia.
  by rewrite (proj2 (Z.ltb_lt (start + (e - start)) (2 ^ 64))) by lia.
Qed.

(** ** The array loops move a block of slots by one *)

Section FixedListRefinement.
Context {T : Type} (N : nat).
Implicit Types (xs : list T) (fl : FixedList T).

Lemma shift_right_spec {E} (pre mid post : list (option T)) :
  shift_right (E:=E) (pre ++ mid ++ None :: post) (length pre) (length mid) =
  Ok (pre ++ None :: mid ++ post).
Proof.
  revert post. induction mid as [|x mid IH] using rev_ind; intros post; [done|].
  rewrite length_app, Nat.add_1_r. simpl.
  set (i := (length pre + length mid)%nat).
  assert (Hes : pre ++ (mid ++ [x]) ++ None :: post = (pre ++ mid) ++ x :: None :: post)
    by (by rewrite <- !app_assoc).
  assert (Hi : i = length (pre ++ mid)) by (subst i; rewrite length_app; lia).
  rewrite Hes, (arr_get_ok _ i x) by (rewrite Hi; apply list_lookup_middle; done). simpl.
  rewrite arr_set_ok by (rewrite Hi, !length_app; simpl; lia). simpl.
  rewrite Hi, insert_app_r_alt, Nat.sub_diag by lia. simpl.
  rewrite arr_set_ok by (rewrite !length_app; simpl; lia). simpl.
  rewrite insert_app_r_alt by lia.
  replace (length (pre ++ mid) + 1 - length (pre ++ mid))%nat with 1%nat by lia. simpl.
  rewrite <- app_assoc, IH. by rewrite <- !app_assoc.
Qed.

Lemma shift_left_spec {E} (pre mid post : list (option T)) :
  shift_left (E:=E) (pre ++ None :: mid ++ post) (length pre) (length mid) =
  Ok (pre ++ mid ++ None :: post).
Proof.
  revert pre. induction mid as [|x mid IH]; intros pre; [done|]. simpl.
  rewrite (arr_get_ok _ (length pre + 1) x).
  2:{ rewrite lookup_app_r by lia.
      by replace (length pre + 1 - length pre)%nat with 1%nat by lia. }
  simpl. rewrite arr_set_ok by (rewrite !length_app; simpl; lia). simpl.
  rewrite insert_app_r_alt by lia.
  replace (length pre + 1 - length pre)%nat with 1%nat by lia. simpl.
  rewrite arr_set_ok by (rewrite !length_app; simpl; lia). simpl.
  rewrite insert_app_r_alt, Nat.sub_diag by lia. simpl.
  specialize (IH (pre ++ [x])). rewrite <- !app_assoc in IH. simpl in IH.
  by rewrite length_app in IH.
Qed.

(** ** Refinement of the operations to mathematical lists *)

Lemma fl_rep_new : fl_rep N (FixedList_new N) ([] : list T).
Proof. split; [|simpl; lia]. simpl. by rewrite Nat.sub_0_r. Qed.

Lemma fl_rep_length fl xs : fl_rep N fl xs -> length (entries fl) = N.
Proof. intros (-> & _ & H). rewrite length_app, length_fmap, length_replicate. lia. Qed.

Lemma fl_rep_clear fl xs : fl_rep N fl xs -> fl_rep N (FixedList_clear fl) [].
Proof.
  intros H. split; [|simpl; lia]. simpl. rewrite Nat.sub_0_r.
  apply fl_rep_length in H. rewrite <- H.
  generalize (entries fl). intros es. induction es as [|? es IH]; simpl; [done|]. by f_equal.
Qed.

Lemma fl_rep_full fl xs : fl_rep N fl xs -> FixedList_is_full N fl = (length xs =? N)%nat.
Proof. intros (_ & H & _). unfold FixedList_is_full. by rewrite H. Qed.

Lemma fl_rep_len fl xs : fl_rep N fl xs -> len fl = length xs.
Proof. by intros (_ & H & _). Qed.

Lemma fl_rep_lookup fl xs i :
  fl_rep N fl xs -> (i < length xs)%nat -> entries fl !! i = Some (xs !! i).
Proof.
  intros (-> & _ & _) Hi. rewrite lookup_app_l by (by rewrite length_fmap).
  rewrite list_lookup_fmap. by destruct (lookup_lt_is_Some_2 xs i Hi) as [x ->].
Qed.

Lemma replicate_S_split n : (0 < n)%nat ->
  replicate n (None : option T) = None :: replicate (n - 1) None.
Proof. destruct n; [lia|]. intros _. simpl. by rewrite Nat.sub_0_r. Qed.

Lemma push_refines fl xs v :
  fl_rep N fl xs ->
  if (length xs =? N)%nat
  then FixedList_push N fl v = Err (mkCapacity N)
  else exists fl', FixedList_push N fl v = Ok fl' /\ fl_rep N fl' (xs ++ [v]).
Proof.
  intros H. unfold FixedList_push. rewrite (fl_rep_full _ _ H).
  destruct (Nat.eqb_spec (length xs) N); [done|].
  pose proof (fl_rep_length _ _ H) as HL. destruct H as (He & Hl & Hle).
  rewrite arr_set_ok by lia. simpl. eexists. split; [done|].
  split; [|simpl; rewrite length_app; simpl; lia]. simpl.
  rewrite He, Hl, length_app, Nat.add_1_r, replicate_S_split by lia.
  rewrite insert_app_r_alt by (by rewrite length_fmap).
  rewrite length_fmap, Nat.sub_diag. simpl.
  rewrite fmap_app, <- app_assoc. simpl. do 3 f_equal. lia.
Qed.

Lemma insert_refines fl xs ys v :
  fl_rep N fl (xs ++ ys) ->
  if (length (xs ++ ys) =? N)%nat
  then FixedList_insert N fl (length xs) v = Err (mkCapacity N)
  else exists fl', FixedList_insert N fl (length xs) v = Ok fl' /\ fl_rep N fl' (xs ++ v :: ys).
Proof.
  intros H. unfold FixedList_insert. rewrite (fl_rep_full _ _ H).
  destruct (Nat.eqb_spec (length (xs ++ ys)) N); [done|].
  pose proof (fl_rep_length _ _ H) as HL. destruct H as (He & Hl & Hle).
  rewrite Hl, length_app. rewrite length_app in *.
  rewrite (proj2 (Nat.ltb_ge _ _)) by lia.
  replace (length xs + length ys - length xs)%nat with (length ys) by lia.
  rewrite He, fmap_app, <- app_assoc, replicate_S_split by lia.
  pose proof (shift_right_spec (E:=CapacityError) (Some <$> xs) (Some <$> ys)
    (replicate (N - (length xs + length ys) - 1) None)) as HS.
  rewrite !length_fmap in HS. rewrite HS. simpl.
  rewrite arr_set_ok by (rewrite length_app, length_fmap; simpl; lia). simpl.
  eexists. split; [done|]. split; [|simpl; rewrite length_app; simpl; lia]. simpl.
  rewrite insert_app_r_alt by (by rewrite length_fmap).
  rewrite length_fmap, Nat.sub_diag, fmap_app, length_app. simpl.
  rewrite <- app_assoc. simpl. do 4 f_equal. lia.
Qed.

Lemma remove_refines {E} fl xs x ys :
  fl_rep N fl (xs ++ x :: ys) ->
  exists fl', FixedList_remove (E:=E) fl (length xs) = Ok (Some x, fl') /\
              fl_rep N fl' (xs ++ ys).
Proof.
  intros H. unfold FixedList_remove. pose proof (fl_rep_length _ _ H) as HL.
  destruct H as (He & Hl & Hle). rewrite length_app in *. simpl in Hl, Hle.
  rewrite Hl, (proj2 (Nat.leb_gt _ _)) by lia.
  rewrite He, fmap_app, fmap_cons, <- app_assoc, <- app_comm_cons.
  rewrite (arr_get_ok _ _ (Some x)) by (rewrite lookup_app_r, length_fmap, Nat.sub_diag by
    (rewrite length_fmap; lia); done). simpl.
  rewrite arr_set_ok by (rewrite length_app, length_fmap; simpl; lia). simpl.
  rewrite insert_app_r_alt, length_fmap, Nat.sub_diag by (by rewrite length_fmap). simpl.
  replace (length xs + S (length ys) - 1 - length xs)%nat with (length ys) by lia.
  pose proof (shift_left_spec (E:=E) (Some <$> xs) (Some <$> ys)
    (replicate (N - (length xs + S (length ys))) None)) as HS.
  rewrite !length_fmap in HS. rewrite HS. simpl.
  rewrite arr_set_ok by (rewrite !length_app, !length_fmap; simpl; lia). simpl.
  eexists. split; [done|]. split; [|simpl; rewrite length_app; lia]. simpl.
  rewrite insert_app_r_alt by (rewrite length_fmap; lia).
  rewrite insert_app_r_alt by (rewrite !length_fmap; lia). rewrite !length_fmap.
  replace (length xs + S (length ys) - 1 - length xs - length ys)%nat with 0%nat by lia.
  simpl. rewrite fmap_app, <- app_assoc, length_app.
  rewrite (replicate_S_split (N - (length xs + length ys))) by lia.
  do 4 f_equal. lia.
Qed.

Lemma get_refines {E} fl xs i :
  fl_rep N fl xs -> FixedList_get (E:=E) fl i = Ok (xs !! i).
Proof.
  intros H. unfold FixedList_get. rewrite (fl_rep_len _ _ H).
  destruct (Nat.leb_spec (length xs) i) as [Hle|Hlt].
  - by rewrite lookup_ge_None_2.
  - eapply arr_get_ok, fl_rep_lookup; eauto.
Qed.

Lemma get_unwrap_refines {E} fl xs i x :
  fl_rep N fl xs -> xs !! i = Some x -> get_unwrap (E:=E) fl i = Ok x.
Proof. intros H Hx. unfold get_unwrap. rewrite (get_refines _ _ _ H). simpl. by rewrite Hx. Qed.

Lemma get_mut_assign_refines {E} fl xs x ys v :
  fl_rep N fl (xs ++ x :: ys) ->
  exists fl', FixedList_get_mut_assign (E:=E) fl (length xs) v = Ok fl' /\
              fl_rep N fl' (xs ++ v :: ys).
Proof.
  intros H. unfold FixedList_get_mut_assign.
  assert (Hi : (length xs < length (xs ++ x :: ys))%nat) by (rewrite length_app; simpl; lia).
  rewrite (fl_rep_len _ _ H), (proj2 (Nat.leb_gt _ _)) by done.
  rewrite (arr_get_ok _ _ (Some x)).
  2:{ rewrite (fl_rep_lookup _ _ _ H Hi). by rewrite list_lookup_middle. }
  simpl. rewrite arr_set_ok by (rewrite (fl_rep_length _ _ H); destruct H as (?&?&?); lia).
  cbn [obind]. eexists. split; [done|]. destruct H as (He & Hl & Hle).
  rewrite !length_app in *. simpl in Hl, Hle. split; [|simpl; rewrite length_app; simpl; lia].
  cbn [entries]. rewrite He, !fmap_app, !fmap_cons, <- !app_assoc, <- !app_comm_cons.
  rewrite insert_app_r_alt, length_fmap, Nat.sub_diag by (by rewrite length_fmap). simpl.
  rewrite !length_app. done.
Qed.

Lemma iter_refines {E} fl xs : fl_rep N fl xs -> FixedList_iter (E:=E) fl = Ok xs.
Proof.
  intros H. unfold FixedList_iter. rewrite (fl_rep_length _ _ H).
  destruct H as (He & Hl & Hle). rewrite Hl, (proj2 (Nat.leb_le _ _) Hle), He.
  rewrite <- (length_fmap Some xs) at 1. rewrite take_app_length.
  replace (mapM id (Some <$> xs)) with (Some xs); [done|].
  symmetry. apply mapM_Some_2, Forall2_fmap_l. clear. induction xs; constructor; auto.
Qed.

End FixedListRefinement.

(** ** A run of list operations

    Every client only reaches a [FixedList] through its methods; [fl_run]
    executes a sequence of them on the array and [spec_run] on a list. *)
Inductive fl_op (T : Type) :=
| OpPush (v : T)
| OpInsert (i : nat) (v : T)
| OpRemove (i : nat)
| OpAssign (i : nat) (v : T)
| OpClear.
Arguments OpPush {T} v.
Arguments OpInsert {T} i v.
Arguments OpRemove {T} i.
Arguments OpAssign {T} i v.
Arguments OpClear {T}.

(** The new state and the value the method returned; a method that returns an
    error leaves the list as it was. *)
Definition fl_step {T} (N : nat) (fl : FixedList T) (op : fl_op T) :
  outcome False (FixedList T * outcome CapacityError (option T)) :=
  let reply m := match m with
                 | Ok fl' => Ok (fl', Ok None)
                 | Err e => Ok (fl, Err e)
                 | Panic => Panic
                 end in
  match op with
  | OpPush v => reply (FixedList_push N fl v)
  | OpInsert i v => reply (FixedList_insert N fl i v)
  | OpRemove i => let? r := FixedList_remove fl i in Ok (r.2, Ok r.1)
  | OpAssign i v =>
      let? fl' := FixedList_get_mut_assign fl i v in Ok (fl', Ok None)
  | OpClear => Ok (FixedList_clear fl, Ok None)
  end.

Definition spec_step {T} (N : nat) (xs : list T) (op : fl_op T) :
  outcome False (list T * outcome CapacityError (option T)) :=
  match op with
  | OpPush v =>
      if (length xs <? N)%nat then Ok (xs ++ [v], Ok None)
      else Ok (xs, Err (mkCapacity N))
  | OpInsert i v =>
      if (length xs <? N)%nat && (i <=? length xs)%nat
      then Ok (take i xs ++ v :: drop i xs, Ok None)
      else Ok (xs, Err (mkCapacity N))
  | OpRemove i => Ok (delete i xs, Ok (xs !! i))
  | OpAssign i v => if (i <? length xs)%nat then Ok (<[i := v]> xs, Ok None) else Panic
  | OpClear => Ok ([], Ok None)
  end.

Fixpoint run {S T R} (step : S -> fl_op T -> outcome False (S * R)) (s : S)
  (ops : list (fl_op T)) : outcome False (S * list R) :=
  match ops with
  | [] => Ok (s, [])
  | op :: rest =>
      let? r := step s op in
      let? rs := run step r.1 rest in
      Ok (rs.1, r.2 :: rs.2)
  end.

Lemma fl_rep_bound {T} N (fl : FixedList T) xs : fl_rep N fl xs -> (length xs <= N)%nat.
Proof. by intros (_ & _ & ?). Qed.

(** Two runs correspond when both panic or both return the same replies from
    related states. *)
Definition run_related {T R} (N : nat) (a : outcome False (FixedList T * R))
  (b : outcome False (list T * R)) : Prop :=
  match a, b with
  | Ok (fl, r), Ok (xs, r') => fl_rep N fl xs /\ r = r'
  | Panic, Panic => True
  | _, _ => False
  end.

Lemma fl_step_refines {T} N (fl : FixedList T) xs op :
  fl_rep N fl xs -> run_related N (fl_step N fl op) (spec_step N xs op).
Proof.
  intros H. pose proof (fl_rep_bound _ _ _ H) as Hb. destruct op as [v|i v|i|i v|]; simpl.
  - pose proof (push_refines N fl xs v H) as P.
    destruct (Nat.eqb_spec (length xs) N), (Nat.ltb_spec (length xs) N); try lia.
    + by rewrite P.
    + by destruct P as (fl' & -> & ?).
  - destruct (Nat.leb_spec i (length xs)) as [Hi|Hi].
    + rewrite <- (take_drop i xs) in H.
      pose proof (insert_refines N fl _ _ v H) as P.
      rewrite take_drop, length_take_le in P by done.
      destruct (Nat.eqb_spec (length xs) N), (Nat.ltb_spec (length xs) N); try lia; simpl.
      * rewrite P. rewrite take_drop in H. done.
      * by destruct P as (fl' & -> & ?).
    + rewrite andb_false_r. unfold FixedList_insert. rewrite (fl_rep_len _ _ _ H).
      destruct (FixedList_is_full N fl); [done|].
      by rewrite (proj2 (Nat.ltb_lt _ _) Hi).
  - destruct (xs !! i) as [x|] eqn:Hx.
    + pose proof (lookup_lt_Some _ _ _ Hx). rewrite <- (take_drop_middle xs i x) in H by done.
      destruct (remove_refines (E:=False) N fl _ _ _ H) as (fl' & Hr & Hrep).
      rewrite length_take_le in Hr by lia. rewrite Hr. simpl. split; [|done].
      by rewrite delete_take_drop.
    + pose proof (lookup_ge_None_1 _ _ Hx) as Hge. unfold FixedList_remove.
      rewrite (fl_rep_len _ _ _ H), (proj2 (Nat.leb_le _ _) Hge). simpl.
      split; [|done]. by rewrite delete_take_drop, take_ge, drop_ge, app_nil_r by lia.
  - destruct (Nat.ltb_spec i (length xs)) as [Hi|Hi].
    + destruct (lookup_lt_is_Some_2 xs i Hi) as [x Hx].
      rewrite <- (take_drop_middle xs i x) in H by done.
      destruct (get_mut_assign_refines (E:=False) N fl _ _ _ v H) as (fl' & Hr & Hrep).
      rewrite length_take_le in Hr by lia. rewrite Hr. simpl. split; [|done].
      by rewrite insert_take_drop.
    + unfold FixedList_get_mut_assign.
      by rewrite (fl_rep_len _ _ _ H), (proj2 (Nat.leb_le _ _) Hi).
  - split; [|done]. eapply fl_rep_clear; eauto.
Qed.

(** [FixedList_run_refines]: from a fresh list, any
    sequence of method calls on the array-backed list returns exactly the
    replies of the same calls on an unbounded list cut at capacity [N], and
    panics only where the caller assigns through an absent entry. *)
Lemma FixedList_run_refines (T : Type) (N : nat) (ops : list (fl_op T)) :
  run_related N (run (fl_step N) (FixedList_new N) ops) (run (spec_step N) [] ops).
Proof.
  assert (Hgen : forall fl xs, fl_rep N fl xs ->
    run_related N (run (fl_step N) fl ops) (run (spec_step N) xs ops));
    [|apply Hgen, fl_rep_new].
  induction ops as [|op ops IH]; intros fl xs H; simpl; [done|].
  pose proof (fl_step_refines N fl xs op H) as Hs.
  destruct (fl_step N fl op) as [[fl1 r1]| |], (spec_step N xs op) as [[xs1 r2]| |];
    simpl in Hs |- *; try done.
  destruct Hs as [Hrep ->]. specialize (IH _ _ Hrep).
  destruct (run (fl_step N) fl1 ops) as [[]| |], (run (spec_step N) xs1 ops) as [[]| |];
    simpl in *; try done.
  destruct IH as [? ->]. done.
Qed.

(** [PhysRegion_new_aligned_least]: on machine-width arguments the constructor never
    panics; when it succeeds the region is well formed, both bounds are
    multiples of the alignment, it covers the requested bytes, and every other
    aligned region covering them contains it. *)
Lemma PhysRegion_new_aligned_least start size a :
  u64 start -> u64 size -> u64 a ->
  match PhysRegion_new_aligned start size a with
  | Ok r =>
      region_ok r /\ rstart r mod a = 0 /\ rend r mod a = 0 /\
      contains_region r (mkRegion start size) = true /\
      (forall r', rstart r' mod a = 0 -> rend r' mod a = 0 ->
         contains_region r' (mkRegion start size) = true ->
         contains_region r' r = true)
  | Err Empty => size = 0
  | Err InvalidAlignment => is_power_of_two a = false
  | Err AddressOverflow => 2 ^ 64 <= start + size + (a - 1)
  | _ => False
  end.
Proof.
  intros Hs Hz Ha. unfold PhysRegion_new_aligned.
  destruct (size =? 0) eqn:Hz0; bool_prop; [done|].
  destruct (is_power_of_two a) eqn:Hp; [|done]. cbn [negb].
  rewrite align_down_eq by done. cbn [ok_or obind].
  pose proof Hp as (k & Hk & Hak)%is_power_of_two_spec.
  assert (0 < a) by lia. pose proof (sub_mod_le start a ltac:(lia) ltac:(apply Hs)).
  unfold u64 in *.
  destruct (checked_add start size) as [e|] eqn:He; cbn [ok_or obind].
  2:{ apply checked_add_None in He. lia. }
  apply checked_add_Some in He as [-> He].
  destruct (align_up (start + size) a) as [e'|] eqn:He'; cbn [ok_or obind].
  2:{ rewrite align_up_eq in He' by (unfold u64; auto with lia).
      destruct (_ <? _) eqn:?; [done|]. bool_prop. lia. }
  apply align_up_least in He' as (Hb & Hm & Hu & Hl); [|unfold u64; lia|done].
  rewrite sub64_ok by lia. cbn [obind]. unfold region_ok, contains_region, rend, u64 in *.
  simpl. rewrite Zplus_minus.
  split; [lia|]. split; [apply sub_mod_aligned; lia|]. split; [done|].
  split; [apply andb_true_iff; split; apply Z.leb_le; lia|].
  intros r' Hr1 Hr2 Hc. bool_prop. apply andb_true_iff. split; apply Z.leb_le.
  - by apply sub_mod_largest.
  - by apply Hl.
Qed.

