(* ===== verification/MemoryMap.v ===== *)
(** * Physical memory classification: src/tvisor_util/memory_map.rs

    [MemoryMap] keeps four lists of physical regions.  [insert_sorted_merged]
    keeps each list sorted, disjoint and free of adjacent neighbours while
    device-tree entries arrive in any order; [finalize] rejects RAM that
    overlaps a device window and computes the RAM outside every permanent
    reservation.  The operations run on the array-backed [FixedList]; the
    theorems are stated on the sets of addresses the lists cover. *)

From S2P Require Import Prelude Page SystemInfo.

Definition MAX_RAM_REGIONS : nat := 8.
Definition MAX_MMIO_REGIONS : nat := 64.
Definition MAX_NORMALIZED_RESERVED_REGIONS : nat := 192.
Definition MAX_USABLE_RAM_REGIONS : nat :=
  MAX_RAM_REGIONS + MAX_NORMALIZED_RESERVED_REGIONS.

Inductive MemoryMapError :=
| Capacity (cap : nat)
| InvalidRegion (e : RegionError)
| RamMmioConflict (ram mmio : PhysRegion).

Definition merge_regions (a b : PhysRegion) : outcome MemoryMapError PhysRegion :=
  let start := if rstart a <? rstart b then rstart a else rstart b in
  let e := if rend b <? rend a then rend a else rend b in
  map_err InvalidRegion (PhysRegion_from_bounds start e).

(** The first loop of [insert_sorted_merged]: the index of the first entry
    that does not start below the new region. *)
Fixpoint find_index (fuel : nat) (lst : FixedList PhysRegion) (region : PhysRegion)
  (index : nat) : outcome MemoryMapError nat :=
  match fuel with
  | O => Panic
  | S fuel' =>
      if (index <? len lst)%nat then
        let? r := get_unwrap lst index in
        if rstart r <? rstart region then find_index fuel' lst region (index + 1)
        else Ok index
      else Ok index
  end.

(** The two inner loops of [insert_sorted_merged], which are the same code:
    entry [index - 1] absorbs its successors while they touch it. *)
Fixpoint absorb (fuel : nat) (lst : FixedList PhysRegion) (index : nat) :
  outcome MemoryMapError (FixedList PhysRegion) :=
  match fuel with
  | O => Panic
  | S fuel' =>
      if (index <? len lst)%nat then
        let? previous := get_unwrap lst (index - 1) in
        let? current := get_unwrap lst index in
        if overlaps previous current || is_adjacent previous current then
          let? new_merged := merge_regions previous current in
          let? lst1 := FixedList_get_mut_assign lst (index - 1) new_merged in
          let? removed := FixedList_remove lst1 index in
          absorb fuel' removed.2 index
        else Ok lst
      else Ok lst
  end.

(** The tail of [insert_sorted_merged] from [if index < list.len()] on. *)
Definition insert_at (N : nat) (lst : FixedList PhysRegion) (region : PhysRegion)
  (index : nat) : outcome MemoryMapError (FixedList PhysRegion) :=
  let insert := map_err (fun _ => Capacity N) (FixedList_insert N lst index region) in
  if (index <? len lst)%nat then
    let? current := get_unwrap lst index in
    if overlaps current region || is_adjacent current region then
      let? merged := merge_regions current region in
      let? lst1 := FixedList_get_mut_assign lst index merged in
      absorb (S (len lst1)) lst1 (index + 1)
    else insert
  else insert.

Definition insert_sorted_merged (N : nat) (lst : FixedList PhysRegion)
  (region : PhysRegion) : outcome MemoryMapError (FixedList PhysRegion) :=
  let? index := find_index (S (len lst)) lst region 0 in
  if (0 <? index)%nat then
    let? prev := get_unwrap lst (index - 1) in
    if overlaps prev region || is_adjacent prev region then
      let? merged := merge_regions prev region in
      let? lst1 := FixedList_get_mut_assign lst (index - 1) merged in
      absorb (S (len lst1)) lst1 index
    else insert_at N lst region index
  else insert_at N lst region index.

(** [output.push(PhysRegion::from_bounds(a, b)?)?] of [subtract_all]. *)
Definition push_bounds (output : FixedList PhysRegion) (a b : Z) :
  outcome MemoryMapError (FixedList PhysRegion) :=
  let? r := map_err InvalidRegion (PhysRegion_from_bounds a b) in
  map_err (fun _ => Capacity MAX_USABLE_RAM_REGIONS)
    (FixedList_push MAX_USABLE_RAM_REGIONS output r).

(** The loop over the reservations and the final push; [cursor] is the first
    address of [ram] not yet classified. *)
Fixpoint subtract_loop (ram : PhysRegion) (reserved : list PhysRegion) (cursor : Z)
  (output : FixedList PhysRegion) : outcome MemoryMapError (FixedList PhysRegion) :=
  match reserved with
  | [] => if cursor <? rend ram then push_bounds output cursor (rend ram) else Ok output
  | reservation :: rest =>
      if (rend reservation <=? cursor) || (rend ram <=? rstart reservation)
      then subtract_loop ram rest cursor output
      else
        let? output1 :=
          if cursor <? rstart reservation
          then push_bounds output cursor (rstart reservation) else Ok output in
        if rend ram <=? rend reservation then Ok output1
        else subtract_loop ram rest (rend reservation) output1
  end.

Definition subtract_all (ram : PhysRegion) (reserved output : FixedList PhysRegion) :
  outcome MemoryMapError (FixedList PhysRegion) :=
  let? rs := FixedList_iter reserved in
  subtract_loop ram rs (rstart ram) output.

Record MemoryMap := mkMemoryMap {
  ram : FixedList PhysRegion;
  permanent_reserved : FixedList PhysRegion;
  mmio : FixedList PhysRegion;
  usable_ram : FixedList PhysRegion
}.

Definition MemoryMap_empty : MemoryMap := {|
  ram := FixedList_new MAX_RAM_REGIONS;
  permanent_reserved := FixedList_new MAX_NORMALIZED_RESERVED_REGIONS;
  mmio := FixedList_new MAX_MMIO_REGIONS;
  usable_ram := FixedList_new MAX_USABLE_RAM_REGIONS
|}.

Definition MemoryMap_clear (self : MemoryMap) : MemoryMap := {|
  ram := FixedList_clear (ram self);
  permanent_reserved := FixedList_clear (permanent_reserved self);
  mmio := FixedList_clear (mmio self);
  usable_ram := FixedList_clear (usable_ram self)
|}.

Definition insert_ram (self : MemoryMap) (region : PhysRegion) :
  outcome MemoryMapError MemoryMap :=
  let? l := insert_sorted_merged MAX_RAM_REGIONS (ram self) region in
  Ok (mkMemoryMap l (permanent_reserved self) (mmio self) (usable_ram self)).

Definition insert_reserved (self : MemoryMap) (region : PhysRegion) :
  outcome MemoryMapError MemoryMap :=
  let? l := insert_sorted_merged MAX_NORMALIZED_RESERVED_REGIONS
              (permanent_reserved self) region in
  Ok (mkMemoryMap (ram self) l (mmio self) (usable_ram self)).

Definition insert_mmio (self : MemoryMap) (region : PhysRegion) :
  outcome MemoryMapError MemoryMap :=
  let? l := insert_sorted_merged MAX_MMIO_REGIONS (mmio self) region in
  Ok (mkMemoryMap (ram self) (permanent_reserved self) l (usable_ram self)).

(** The nested conflict loops: the first overlapping pair in list order. *)
Fixpoint conflict_with (r : PhysRegion) (devices : list PhysRegion) :
  outcome MemoryMapError unit :=
  match devices with
  | [] => Ok tt
  | d :: rest =>
      reject overlaps r d with RamMmioConflict r d in
      conflict_with r rest
  end.

Fixpoint check_conflicts (rams devices : list PhysRegion) : outcome MemoryMapError unit :=
  match rams with
  | [] => Ok tt
  | r :: rest =>
      let? _ := conflict_with r devices in
      check_conflicts rest devices
  end.

Fixpoint subtract_each (rams : list PhysRegion) (reserved output : FixedList PhysRegion) :
  outcome MemoryMapError (FixedList PhysRegion) :=
  match rams with
  | [] => Ok output
  | r :: rest =>
      let? output1 := subtract_all r reserved output in
      subtract_each rest reserved output1
  end.

Definition finalize (self : MemoryMap) : outcome MemoryMapError MemoryMap :=
  let? rams := FixedList_iter (ram self) in
  let? devices := FixedList_iter (mmio self) in
  let? _ := check_conflicts rams devices in
  let? usable := subtract_each rams (permanent_reserved self)
                   (FixedList_clear (usable_ram self)) in
  Ok (mkMemoryMap (ram self) (permanent_reserved self) (mmio self) usable).

(** ** Address sets and canonical lists *)

(** Address [a] lies in some region of the list. *)
Definition covers (xs : list PhysRegion) (a : Z) : Prop :=
  exists r, r ∈ xs /\ rstart r <= a < rend r.

(** Well-formed regions in increasing order with a gap before each one, all
    of them above [lo]. *)
Fixpoint canonical_from (lo : Z) (xs : list PhysRegion) : Prop :=
  match xs with
  | [] => True
  | r :: rest => lo < rstart r /\ region_ok r /\ canonical_from (rend r) rest
  end.

Definition canonical (xs : list PhysRegion) : Prop := canonical_from (-1) xs.

Definition touches (a b : PhysRegion) : bool := overlaps a b || is_adjacent a b.

(** The smallest region that contains both. *)
Definition hull (a b : PhysRegion) : PhysRegion :=
  let s := Z.min (rstart a) (rstart b) in
  mkRegion s (Z.max (rend a) (rend b) - s).

Lemma covers_nil a : covers [] a <-> False.
Proof. unfold covers. set_solver. Qed.

Lemma covers_cons r xs a : covers (r :: xs) a <-> rstart r <= a < rend r \/ covers xs a.
Proof. unfold covers. setoid_rewrite elem_of_cons. naive_solver. Qed.

Lemma covers_app xs ys a : covers (xs ++ ys) a <-> covers xs a \/ covers ys a.
Proof. unfold covers. setoid_rewrite elem_of_app. naive_solver. Qed.

#[export] Hint Rewrite covers_nil covers_cons covers_app : covers.

Lemma touches_iff a b :
  region_ok a -> region_ok b ->
  touches a b = true <-> rstart a <= rend b /\ rstart b <= rend a.
Proof.
  intros (?&?&?) (?&?&?). unfold touches, overlaps, is_adjacent, rend in *.
  rewrite orb_true_iff, andb_true_iff, orb_true_iff, !Z.ltb_lt, !Z.eqb_eq. lia.
Qed.

Lemma touches_false a b :
  region_ok a -> region_ok b ->
  touches a b = false <-> rend b < rstart a \/ rend a < rstart b.
Proof. intros Ha Hb. rewrite <- not_true_iff_false, touches_iff by done. lia. Qed.

Lemma rend_hull a b : rend (hull a b) = Z.max (rend a) (rend b).
Proof. unfold hull, rend. simpl. lia. Qed.

Lemma hull_ok a b : region_ok a -> region_ok b -> region_ok (hull a b).
Proof.
  intros Ha Hb. unfold region_ok. rewrite rend_hull. simpl. region.
Qed.

Lemma hull_covers a b x :
  region_ok a -> region_ok b -> touches a b = true ->
  rstart (hull a b) <= x < rend (hull a b) <->
  (rstart a <= x < rend a) \/ (rstart b <= x < rend b).
Proof.
  intros Ha Hb Ht. apply touches_iff in Ht; [|done..]. rewrite rend_hull. simpl.
  region.
Qed.

Lemma hull_comm a b : hull a b = hull b a.
Proof. unfold hull. f_equal; lia. Qed.

Lemma merge_regions_hull a b :
  region_ok a -> region_ok b -> merge_regions a b = Ok (hull a b).
Proof.
  intros Ha Hb. unfold merge_regions.
  replace (if rstart a <? rstart b then _ else _) with (Z.min (rstart a) (rstart b))
    by (destruct (Z.ltb_spec (rstart a) (rstart b)); lia).
  replace (if rend b <? rend a then _ else _) with (Z.max (rend a) (rend b))
    by (destruct (Z.ltb_spec (rend b) (rend a)); lia).
  destruct Ha as (?&?&?), Hb as (?&?&?). unfold rend in *.
  rewrite PhysRegion_from_bounds_ok by lia. done.
Qed.

Lemma canonical_from_weaken lo lo' xs :
  lo' <= lo -> canonical_from lo xs -> canonical_from lo' xs.
Proof. destruct xs; simpl; [done|]. intros ? (?&?&?). auto with lia. Qed.

Lemma canonical_from_ok lo xs : canonical_from lo xs -> Forall region_ok xs.
Proof. revert lo. induction xs; simpl; [done|]. intros lo (?&?&?). constructor; eauto. Qed.

Lemma canonical_from_above lo xs :
  canonical_from lo xs -> Forall (fun r => lo < rstart r) xs.
Proof.
  revert lo. induction xs as [|r xs IH]; simpl; [done|]. intros lo (?&(?&?&?)&Hxs).
  constructor; [done|]. apply IH. eapply canonical_from_weaken; [|done]. unfold rend. lia.
Qed.

(** The end of the last region of a prefix, or [lo]. *)
Fixpoint last_end (lo : Z) (xs : list PhysRegion) : Z :=
  match xs with [] => lo | r :: rest => last_end (rend r) rest end.

Lemma canonical_from_app lo xs ys :
  canonical_from lo (xs ++ ys) <->
  canonical_from lo xs /\ canonical_from (last_end lo xs) ys.
Proof. revert lo. induction xs as [|r xs IH]; intros lo; simpl; [naive_solver|]. rewrite IH. naive_solver. Qed.

Lemma last_end_snoc lo xs r : last_end lo (xs ++ [r]) = rend r.
Proof. revert lo. induction xs; simpl; auto. Qed.

(** ** The loops on lists *)

(** What [absorb] leaves of [m] and the regions after it. *)
Fixpoint absorb_list (m : PhysRegion) (post : list PhysRegion) : list PhysRegion :=
  match post with
  | [] => [m]
  | c :: rest => if touches m c then absorb_list (hull m c) rest else m :: c :: rest
  end.

Lemma absorb_list_canonical lo lo' m post :
  region_ok m -> lo < rstart m -> canonical_from lo' post ->
  Forall (fun c => rstart m <= rstart c) post ->
  canonical_from lo (absorb_list m post) /\
  forall a, covers (absorb_list m post) a <-> (rstart m <= a < rend m) \/ covers post a.
Proof.
  revert lo' m. induction post as [|c post IH]; intros lo' m Hm Hlo Hc Hs; simpl.
  { split; [done|]. intros a. by autorewrite with covers. }
  destruct Hc as (Hc1 & Hc & Hpost). apply Forall_cons in Hs as [Hs1 Hs].
  assert (Hst : rstart (hull m c) = rstart m) by (simpl; lia).
  destruct (touches m c) eqn:Ht.
  - destruct (IH (rend c) (hull m c)) as [IH1 IH2];
      [by apply hull_ok | lia | done | by rewrite Hst |].
    split; [done|]. intros a. rewrite IH2. autorewrite with covers.
    rewrite hull_covers by done. tauto.
  - apply touches_false in Ht; [|done..].
    split; [|intros a; by autorewrite with covers].
    simpl. split_and!; try done; region.
Qed.

Lemma absorb_refines fuel fl pre m post N :
  fl_rep N fl (pre ++ m :: post) -> Forall region_ok (m :: post) ->
  (length post < fuel)%nat ->
  exists fl', absorb fuel fl (length pre + 1) = Ok fl' /\
              fl_rep N fl' (pre ++ absorb_list m post).
Proof.
  revert fl m post. induction fuel as [|fuel IH]; intros fl m post H Hok Hf; [lia|].
  simpl. rewrite (fl_rep_len _ _ _ H), length_app. simpl.
  destruct post as [|c post]; simpl.
  { rewrite (proj2 (Nat.ltb_ge _ _)) by lia. eauto. }
  rewrite (proj2 (Nat.ltb_lt _ _)) by lia.
  replace (length pre + 1 - 1)%nat with (length pre) by lia.
  rewrite (get_unwrap_refines _ _ _ _ m H) by (by apply list_lookup_middle).
  rewrite (get_unwrap_refines _ _ _ _ c H) by
    (rewrite lookup_app_r by lia;
     by replace (length pre + 1 - length pre)%nat with 1%nat by lia).
  cbn [obind]. apply Forall_cons in Hok as [Hm Hok]. apply Forall_cons in Hok as [Hc Hok].
  change (overlaps m c || is_adjacent m c) with (touches m c).
  destruct (touches m c); [|eauto].
  rewrite merge_regions_hull by done. cbn [obind].
  destruct (get_mut_assign_refines (E:=MemoryMapError) N fl pre m (c :: post) (hull m c) H)
    as (fl1 & -> & H1). cbn [obind].
  rewrite cons_middle, app_assoc in H1.
  destruct (remove_refines (E:=MemoryMapError) N fl1 _ _ _ H1) as (fl2 & Hr & H2).
  rewrite length_app in Hr. simpl in Hr. rewrite Hr. cbn [obind snd].
  rewrite <- app_assoc in H2. simpl in H2, Hf. apply IH; [done | | lia].
  constructor; [by apply hull_ok | done].
Qed.

Lemma find_index_refines fuel fl r before after done N :
  fl_rep N fl (done ++ before ++ after) ->
  Forall (fun x => rstart x < rstart r) before ->
  (forall c rest, after = c :: rest -> rstart r <= rstart c) ->
  (length before < fuel)%nat ->
  find_index fuel fl r (length done) = Ok (length done + length before)%nat.
Proof.
  revert done fuel. induction before as [|b before IH]; intros done fuel H Hb Ha Hf;
    (destruct fuel as [|fuel]; [simpl in Hf; lia|]); simpl;
    rewrite (fl_rep_len _ _ _ H), !length_app; simpl.
  - rewrite Nat.add_0_r. destruct after as [|c rest].
    { by rewrite (proj2 (Nat.ltb_ge _ _)) by (simpl; lia). }
    rewrite (proj2 (Nat.ltb_lt _ _)) by (simpl; lia).
    rewrite (get_unwrap_refines _ _ _ _ c H) by (by apply list_lookup_middle).
    simpl. by rewrite (proj2 (Z.ltb_ge _ _)) by eauto.
  - rewrite (proj2 (Nat.ltb_lt _ _)) by lia.
    rewrite (get_unwrap_refines _ _ _ _ b H) by (by apply list_lookup_middle).
    apply Forall_cons in Hb as [Hb1 Hb]. simpl. rewrite (proj2 (Z.ltb_lt _ _)) by done.
    specialize (IH (done ++ [b]) fuel). rewrite <- app_assoc in IH.
    rewrite length_app in IH. simpl in IH, Hf. rewrite IH by (done || lia).
    f_equal. lia.
Qed.

Lemma touches_sym a b : touches a b = touches b a.
Proof. unfold touches, overlaps, is_adjacent. rewrite andb_comm, orb_comm. btauto. Qed.

Lemma split_by_start r lo xs :
  canonical_from lo xs ->
  exists before after, xs = before ++ after /\
    Forall (fun x => rstart x < rstart r) before /\
    Forall (fun x => rstart r <= rstart x) after.
Proof.
  revert lo. induction xs as [|x xs IH]; intros lo Hc; simpl in Hc.
  { exists [], []. done. }
  destruct Hc as (_ & Hx & Hc). destruct (Z.lt_ge_cases (rstart x) (rstart r)).
  - destruct (IH _ Hc) as (b & a & -> & ? & ?). exists (x :: b), a. auto.
  - exists [], (x :: xs). split; [done|]. split; [constructor|]. constructor; [lia|].
    apply canonical_from_above in Hc. eapply Forall_impl; [done|]. simpl. region.
Qed.

(** [insert_at] adds [r] between [before] and [after], or reports a full list. *)
Lemma insert_at_refines N fl r before after :
  fl_rep N fl (before ++ after) -> Forall region_ok after -> region_ok r ->
  (exists fl', insert_at N fl r (length before) = Ok fl' /\
               fl_rep N fl' (before ++ absorb_list r after)) \/
  (insert_at N fl r (length before) = Err (Capacity N) /\
   length (before ++ after) = N /\
   match after with c :: _ => touches c r = false | [] => True end).
Proof.
  intros H Hok Hr. unfold insert_at. rewrite (fl_rep_len _ _ _ H), length_app.
  pose proof (insert_refines N fl before after r H) as Hi. rewrite length_app in Hi.
  destruct after as [|c rest]; cbn [length absorb_list] in *.
  - rewrite (proj2 (Nat.ltb_ge _ _)) by lia.
    destruct (Nat.eqb_spec (length before + 0) N).
    + rewrite Hi. right. auto.
    + destruct Hi as (fl' & -> & Hr'). left. eauto.
  - rewrite (proj2 (Nat.ltb_lt _ _)) by lia.
    rewrite (get_unwrap_refines _ _ _ _ c H) by (by apply list_lookup_middle). cbn [obind].
    change (overlaps c r || is_adjacent c r) with (touches c r).
    rewrite (touches_sym r c). apply Forall_cons in Hok as [Hc Hok].
    destruct (touches c r) eqn:Ht.
    + rewrite merge_regions_hull by done. cbn [obind].
      destruct (get_mut_assign_refines (E:=MemoryMapError) N fl before c rest (hull c r) H)
        as (fl1 & -> & H1). cbn [obind].
      destruct (absorb_refines (S (len fl1)) fl1 before (hull c r) rest N H1) as (fl2 & -> & H2).
      * constructor; [by apply hull_ok | done].
      * rewrite (fl_rep_len _ _ _ H1), length_app. simpl. lia.
      * left. exists fl2. by rewrite (hull_comm r c).
    + destruct (Nat.eqb_spec (length before + S (length rest)) N).
      * rewrite Hi. right. auto.
      * destruct Hi as (fl' & -> & Hr'). left. eauto.
Qed.

(** The list an insertion produces, in one piece. *)
Inductive inserted (r : PhysRegion) : list PhysRegion -> list PhysRegion -> Prop :=
| inserted_prev b p after :
    rstart p < rstart r -> Forall (fun x => rstart r <= rstart x) after ->
    touches p r = true ->
    inserted r (b ++ p :: after) (b ++ absorb_list (hull p r) after)
| inserted_gap before after :
    (before = [] \/ exists b p, before = b ++ [p] /\ rstart p < rstart r /\
                               touches p r = false) ->
    Forall (fun x => rstart r <= rstart x) after ->
    inserted r (before ++ after) (before ++ absorb_list r after).

Lemma inserted_canonical r xs ys :
  inserted r xs ys -> canonical xs -> region_ok r ->
  canonical ys /\ forall a, covers ys a <-> covers xs a \/ rstart r <= a < rend r.
Proof.
  unfold canonical. intros [b p after Hp Ha Ht | before after Hb Ha] Hc Hr.
  - rewrite canonical_from_app in *. simpl in Hc. destruct Hc as (Hb & Hlo & Hpo & Hafter).
    destruct (absorb_list_canonical (last_end (-1) b) (rend p) (hull p r) after) as [H1 H2].
    + by apply hull_ok.
    + simpl. lia.
    + done.
    + simpl. eapply Forall_impl; [done|]. simpl. lia.
    + split; [done|]. intros a. autorewrite with covers. rewrite H2.
      rewrite hull_covers by done. tauto.
  - rewrite canonical_from_app in *. destruct Hc as (Hcb & Hca).
    destruct (absorb_list_canonical (last_end (-1) before) (last_end (-1) before) r after)
      as [H1 H2]; [done | | done | done |].
    + destruct Hb as [-> | (b & p & -> & Hlt & Ht)]; [region|].
      rewrite last_end_snoc. apply canonical_from_app in Hcb as [_ (_ & Hp & _)].
      apply touches_false in Ht; [|done..]. region.
    + split; [done|]. intros a. autorewrite with covers. rewrite H2. tauto.
Qed.

Lemma last_end_ge lo xs : canonical_from lo xs -> lo <= last_end lo xs.
Proof.
  revert lo. induction xs as [|y xs IH]; simpl; [lia|]. intros lo (? & Hy & Hxs).
  specialize (IH _ Hxs). region.
Qed.

Lemma last_end_max lo xs x :
  canonical_from lo xs -> x ∈ xs -> rend x <= last_end lo xs.
Proof.
  revert lo. induction xs as [|y xs IH]; [set_solver|]. intros lo (_ & Hy & Hxs) Hx. simpl.
  apply elem_of_cons in Hx as [->|Hx]; [by apply last_end_ge | by apply IH].
Qed.

Lemma untouched_list lo xs r before after :
  xs = before ++ after -> canonical_from lo xs -> region_ok r ->
  Forall (fun x => rstart x < rstart r) before ->
  (before = [] \/ exists b p, before = b ++ [p] /\ touches p r = false) ->
  Forall (fun x => rstart r <= rstart x) after ->
  match after with c :: _ => touches c r = false | [] => True end ->
  forall x, x ∈ xs -> touches x r = false.
Proof.
  intros -> Hc Hr Hlt Hb Hge Ha x Hx. apply canonical_from_app in Hc as [Hcb Hca].
  pose proof (canonical_from_ok _ _ Hcb) as Hob. pose proof (canonical_from_ok _ _ Hca) as Hoa.
  apply elem_of_app in Hx as [Hx | Hx].
  - destruct Hb as [-> | (b & p & -> & Ht)]; [set_solver|].
    apply elem_of_app in Hx as [Hx | ->%list_elem_of_singleton]; [|done].
    rewrite Forall_app, Forall_singleton in Hob. destruct Hob as [Hob Hp].
    rewrite Forall_forall in Hob. apply canonical_from_app in Hcb as [Hcb (Hlo & _ & _)].
    apply touches_false in Ht; [|done..]. apply touches_false; [by apply Hob | done |].
    pose proof (last_end_max _ _ _ Hcb Hx).
    rewrite Forall_app, Forall_singleton in Hlt. destruct Hlt as [_ Hlt].
    right. region.
  - destruct after as [|c rest]; [set_solver|].
    apply elem_of_cons in Hx as [->|Hx]; [done|].
    apply Forall_cons in Hoa as [Hco Hoa]. apply Forall_cons in Hge as [Hgc Hge].
    destruct Hca as (_ & _ & Hca). apply canonical_from_above in Hca.
    rewrite Forall_forall in Hca, Hoa. specialize (Hca _ Hx). specialize (Hoa _ Hx).
    apply touches_false in Ha; [|done..]. apply touches_false; [done..|]. region.
Qed.

Lemma insert_sorted_merged_cases N fl xs r :
  fl_rep N fl xs -> canonical xs -> region_ok r ->
  (exists fl' ys, insert_sorted_merged N fl r = Ok fl' /\ fl_rep N fl' ys /\ inserted r xs ys) \/
  (insert_sorted_merged N fl r = Err (Capacity N) /\ length xs = N /\
   forall x, x ∈ xs -> touches x r = false).
Proof.
  intros H Hc Hr. destruct (split_by_start r (-1) xs Hc) as (before & after & -> & Hb & Ha).
  assert (Hoks : Forall region_ok (before ++ after)) by (by eapply canonical_from_ok).
  apply Forall_app in Hoks as [Hokb Hoka]. unfold insert_sorted_merged.
  pose proof (find_index_refines (S (len fl)) fl r before after [] N H Hb) as Hfi.
  simpl length in Hfi. rewrite Hfi; clear Hfi.
  2:{ intros c rest ->. by apply Forall_cons in Ha as [? _]. }
  2:{ rewrite (fl_rep_len _ _ _ H), length_app. lia. }
  cbn [obind]. rewrite Nat.add_0_l.
  pose proof (insert_at_refines N fl r before after H Hoka Hr) as Hat.
  destruct before as [|p b _] using rev_ind.
  { cbn [length Nat.ltb Nat.leb] in *. destruct Hat as [(fl' & -> & H') | (-> & Hlen & Hn)].
    - left. exists fl', ([] ++ absorb_list r after). split_and!; [done..|]. constructor; auto.
    - right. split_and!; [done..|]. eapply (untouched_list (-1)); eauto. }
  rewrite length_app in *. cbn [length] in *. rewrite (proj2 (Nat.ltb_lt _ _)) by lia.
  replace (length b + 1 - 1)%nat with (length b) by lia.
  rewrite <- app_assoc in H |- *. rewrite <- app_assoc in Hc. simpl in H, Hc.
  rewrite (get_unwrap_refines _ _ _ _ p H) by (by apply list_lookup_middle). cbn [obind].
  change (overlaps p r || is_adjacent p r) with (touches p r).
  pose proof Hb as [Hb1 Hp1]%Forall_app. rewrite Forall_singleton in Hp1.
  rewrite Forall_app, Forall_singleton in Hokb. destruct Hokb as [Hokb Hpo].
  destruct (touches p r) eqn:Ht.
  - rewrite merge_regions_hull by done. cbn [obind].
    destruct (get_mut_assign_refines (E:=MemoryMapError) N fl b p after (hull p r) H)
      as (fl1 & -> & H1). cbn [obind].
    destruct (absorb_refines (S (len fl1)) fl1 b (hull p r) after N H1) as (fl2 & -> & H2).
    + constructor; [by apply hull_ok | done].
    + rewrite (fl_rep_len _ _ _ H1), length_app. simpl. lia.
    + left. eexists _, _. split_and!; [done..|]. by constructor.
  - destruct Hat as [(fl' & -> & H') | (-> & Hlen & Hn)].
    + left. eexists _, _. split_and!; [done..|].
      change (b ++ [p] ++ after) with (b ++ ([p] ++ after)). rewrite app_assoc.
      constructor; [right|done]. eauto 10.
    + right. rewrite <- app_assoc in Hlen. split_and!; [done..|].
      eapply (untouched_list (-1)); [apply app_assoc | done..| eauto | done | done].
Qed.

(** [insert_sorted_merged_correct]: on a canonical list (sorted, disjoint, no adjacent
    neighbours) insertion of a well-formed region never panics; it either
    yields a canonical list that covers exactly the old addresses and the new
    region, or reports [Capacity] when the list is full and the region
    touches no entry. *)
Lemma insert_sorted_merged_correct N fl xs r :
  fl_rep N fl xs -> canonical xs -> region_ok r ->
  match insert_sorted_merged N fl r with
  | Ok fl' =>
      exists ys, fl_rep N fl' ys /\ canonical ys /\
        forall a, covers ys a <-> covers xs a \/ rstart r <= a < rend r
  | Err e => e = Capacity N /\ length xs = N /\ forall x, x ∈ xs -> touches x r = false
  | Panic => False
  end.
Proof.
  intros H Hc Hr.
  destruct (insert_sorted_merged_cases N fl xs r H Hc Hr)
    as [(fl' & ys & -> & Hrep & Hi) | (-> & ? & ?)]; [|done].
  exists ys. split; [done|]. by eapply inserted_canonical.
Qed.

(** ** A canonical list is determined by the addresses it covers *)

Lemma covers_above lo xs a : canonical_from lo xs -> covers xs a -> lo < a.
Proof.
  intros Hc%canonical_from_above (r & Hr & Ha). rewrite Forall_forall in Hc.
  specialize (Hc _ Hr). lia.
Qed.

Lemma covers_head x xs : region_ok x -> covers (x :: xs) (rstart x).
Proof. intros. apply covers_cons. left. region. Qed.

Lemma canonical_head_eq lo lo' x xs y ys :
  canonical_from lo (x :: xs) -> canonical_from lo' (y :: ys) ->
  (forall a, covers (x :: xs) a <-> covers (y :: ys) a) -> x = y.
Proof.
  intros (_ & Hx & Hxs) (_ & Hy & Hys) He.
  assert (Hs : rstart x = rstart y).
  { pose proof (proj1 (He _) (covers_head x xs Hx)) as H1.
    pose proof (proj2 (He _) (covers_head y ys Hy)) as H2.
    apply covers_cons in H1, H2.
    destruct H1 as [H1 | H1%(covers_above _ _ _ Hys)],
      H2 as [H2 | H2%(covers_above _ _ _ Hxs)]; region. }
  assert (Hend : forall p ps q qs, rstart p = rstart q -> region_ok p ->
    canonical_from (rend p) ps -> (forall a, covers (q :: qs) a -> covers (p :: ps) a) ->
    rend q <= rend p).
  { intros p ps q qs Hpq Hp Hps Hsub. destruct (Z.le_gt_cases (rend q) (rend p)) as [|Hgt]; [done|].
    assert (Hc : covers (p :: ps) (rend p)).
    { apply Hsub, covers_cons. left. region. }
    apply covers_cons in Hc as [Hc | Hc%(covers_above _ _ _ Hps)]; lia. }
  pose proof (Hend x xs y ys Hs Hx Hxs (fun a => proj2 (He a))).
  pose proof (Hend y ys x xs (eq_sym Hs) Hy Hys (fun a => proj1 (He a))).
  destruct x as [sx zx], y as [sy zy]. unfold rend in *. simpl in *. f_equal; lia.
Qed.

Lemma canonical_unique lo lo' xs ys :
  canonical_from lo xs -> canonical_from lo' ys ->
  (forall a, covers xs a <-> covers ys a) -> xs = ys.
Proof.
  revert lo lo' ys. induction xs as [|x xs IH]; intros lo lo' [|y ys] Hx Hy He.
  - done.
  - destruct Hy as (_ & Hy & _). by destruct (proj2 (He _) (covers_head y ys Hy)) as (?&?%elem_of_nil&?).
  - destruct Hx as (_ & Hx & _). by destruct (proj1 (He _) (covers_head x xs Hx)) as (?&?%elem_of_nil&?).
  - assert (x = y) as <- by (by eapply canonical_head_eq).
    f_equal. destruct Hx as (_ & Hx & Hxs), Hy as (_ & _ & Hys).
    eapply IH; [done..|]. intros a. specialize (He a). rewrite !covers_cons in He.
    pose proof (covers_above _ _ a Hxs). pose proof (covers_above _ _ a Hys). intuition lia.
Qed.

Fixpoint insert_all (N : nat) (fl : FixedList PhysRegion) (rs : list PhysRegion) :
  outcome MemoryMapError (FixedList PhysRegion) :=
  match rs with
  | [] => Ok fl
  | r :: rest => let? fl' := insert_sorted_merged N fl r in insert_all N fl' rest
  end.

Lemma insert_all_covers N fl xs rs fl' :
  fl_rep N fl xs -> canonical xs -> Forall region_ok rs -> insert_all N fl rs = Ok fl' ->
  exists ys, fl_rep N fl' ys /\ canonical ys /\
    forall a, covers ys a <-> covers xs a \/ covers rs a.
Proof.
  revert fl xs. induction rs as [|r rs IH]; intros fl xs Hf Hc Hok Hi; simpl in Hi.
  { injection Hi as <-. exists xs. split_and!; [done..|]. intros a. rewrite covers_nil. tauto. }
  apply Forall_cons in Hok as [Hr Hok].
  destruct (insert_sorted_merged_cases N fl xs r Hf Hc Hr)
    as [(fl1 & ys & E & Hrep & Hins) | (E & _)]; rewrite E in Hi; [|done]. simpl in Hi.
  destruct (inserted_canonical _ _ _ Hins Hc Hr) as [Hcy Hcov].
  destruct (IH _ _ Hrep Hcy Hok Hi) as (zs & ? & ? & Hz). exists zs. split_and!; [done..|].
  intros a. rewrite Hz, Hcov, covers_cons. tauto.
Qed.

Lemma fl_rep_inj {T} N (fl fl' : FixedList T) xs : fl_rep N fl xs -> fl_rep N fl' xs -> fl = fl'.
Proof. destruct fl, fl'. unfold fl_rep. simpl. intros (-> & -> & _) (-> & -> & _). done. Qed.

(** [insert_all_order_independent]: the order in which the device tree lists its regions does not
    matter. Two insertion sequences that are permutations of each other, both
    without a capacity error, leave identical lists. *)
Lemma insert_all_order_independent N rs rs' fl fl' :
  rs ≡ₚ rs' -> Forall region_ok rs ->
  insert_all N (FixedList_new N) rs = Ok fl ->
  insert_all N (FixedList_new N) rs' = Ok fl' ->
  fl = fl'.
Proof.
  intros Hp Hok H H'. assert (Hok' : Forall region_ok rs') by (by rewrite <- Hp).
  destruct (insert_all_covers N _ [] rs _ (fl_rep_new N) I Hok H) as (xs & Hx & Hcx & Ex).
  destruct (insert_all_covers N _ [] rs' _ (fl_rep_new N) I Hok' H') as (ys & Hy & Hcy & Ey).
  assert (xs = ys) as ->; [|by eapply fl_rep_inj].
  eapply canonical_unique; [done..|]. intros a. rewrite Ex, Ey. unfold covers.
  by setoid_rewrite Hp.
Qed.

(** ** Subtracting the reservations from one RAM region *)

(** The pieces [subtract_loop] pushes. *)
Fixpoint pieces (r : PhysRegion) (rs : list PhysRegion) (cursor : Z) : list PhysRegion :=
  match rs with
  | [] => if cursor <? rend r then [mkRegion cursor (rend r - cursor)] else []
  | v :: rest =>
      if (rend v <=? cursor) || (rend r <=? rstart v) then pieces r rest cursor
      else
        (if cursor <? rstart v then [mkRegion cursor (rstart v - cursor)] else []) ++
        (if rend r <=? rend v then [] else pieces r rest (rend v))
  end.

Lemma push_bounds_refines out us a b :
  fl_rep MAX_USABLE_RAM_REGIONS out us -> 0 <= a < b -> b < 2 ^ 64 ->
  (length us < MAX_USABLE_RAM_REGIONS)%nat ->
  exists out', push_bounds out a b = Ok out' /\
    fl_rep MAX_USABLE_RAM_REGIONS out' (us ++ [mkRegion a (b - a)]).
Proof.
  intros H Hab Hb Hn. unfold push_bounds. rewrite PhysRegion_from_bounds_ok by lia.
  cbn [map_err obind]. pose proof (push_refines _ out us (mkRegion a (b - a)) H) as P.
  destruct (Nat.eqb_spec (length us) MAX_USABLE_RAM_REGIONS); [lia|].
  destruct P as (out' & -> & ?). eauto.
Qed.

Lemma subtract_loop_refines r rs cursor out us :
  fl_rep MAX_USABLE_RAM_REGIONS out us -> region_ok r -> Forall region_ok rs -> 0 <= cursor ->
  (length us + length (pieces r rs cursor) <= MAX_USABLE_RAM_REGIONS)%nat ->
  exists out', subtract_loop r rs cursor out = Ok out' /\
    fl_rep MAX_USABLE_RAM_REGIONS out' (us ++ pieces r rs cursor).
Proof.
  intros H Hr Hrs. revert cursor out us H.
  induction Hrs as [|v rs Hv Hrs IH]; intros cursor out us H Hc Hn; simpl in *.
  - destruct (cursor <? rend r) eqn:E; bool_prop.
    + simpl in Hn. apply push_bounds_refines; [done|lia|region|lia].
    + rewrite app_nil_r. eauto.
  - destruct (_ || _) eqn:Eskip; [by apply IH|]. bool_prop.
    assert (Hstep : exists out1,
      (if cursor <? rstart v then push_bounds out cursor (rstart v) else Ok out) = Ok out1 /\
      fl_rep MAX_USABLE_RAM_REGIONS out1
        (us ++ if cursor <? rstart v then [mkRegion cursor (rstart v - cursor)] else [])).
    { destruct (cursor <? rstart v) eqn:E; bool_prop; [|rewrite app_nil_r; eauto].
      simpl in Hn. apply push_bounds_refines; [done|lia|region|lia]. }
    destruct Hstep as (out1 & -> & Hout1). cbn [obind]. rewrite length_app in Hn.
    destruct (rend r <=? rend v); [rewrite app_nil_r; eauto|].
    rewrite app_assoc. apply IH; [done|region|]. rewrite length_app. lia.
Qed.

(** The pieces cover the part of the RAM region from [cursor] on that no
    reservation covers, and nothing else. *)
Lemma pieces_covers r lo rs cursor a :
  canonical_from lo rs ->
  covers (pieces r rs cursor) a <-> (cursor <= a < rend r /\ ~ covers rs a).
Proof.
  revert lo cursor. induction rs as [|v rs IH]; intros lo cursor Hc; simpl.
  - rewrite covers_nil. destruct (Z.ltb_spec cursor (rend r)).
    + rewrite covers_cons, covers_nil. unfold rend. simpl. unfold rend in *. lia.
    + rewrite covers_nil. lia.
  - destruct Hc as (_ & Hv & Hc). rewrite covers_cons.
    pose proof (covers_above _ _ a Hc) as Hab.
    destruct (_ || _) eqn:Eskip; bool_prop.
    { rewrite (IH (rend v)) by done. intuition bool_prop; region. }
    rewrite covers_app.
    assert (Hfst : covers (if cursor <? rstart v then [mkRegion cursor (rstart v - cursor)] else []) a
                   <-> cursor <= a < rstart v).
    { destruct (Z.ltb_spec cursor (rstart v)); rewrite ?covers_cons, covers_nil; [|lia].
      unfold rend. simpl. lia. }
    rewrite Hfst. destruct (Z.leb_spec (rend r) (rend v)).
    + rewrite covers_nil. intuition region.
    + rewrite (IH (rend v)) by done. destruct (Z.lt_ge_cases a (rend v)); intuition region.
Qed.

Lemma pieces_canonical r lo lo' rs cursor :
  canonical_from lo' rs -> region_ok r -> 0 <= cursor -> lo < cursor ->
  canonical_from lo (pieces r rs cursor).
Proof.
  revert lo lo' cursor. induction rs as [|v rs IH]; intros lo lo' cursor Hc Hr H0 Hlo; simpl.
  - destruct (Z.ltb_spec cursor (rend r)); simpl; [|done]. split_and!; [done|region|done].
  - destruct Hc as (_ & Hv & Hc). destruct (_ || _) eqn:Eskip; [by eapply IH|]. bool_prop.
    destruct (Z.ltb_spec cursor (rstart v)); simpl.
    + split_and!; [done|region|]. destruct (rend r <=? rend v); [done|].
      eapply IH; [done..|region|region].
    + destruct (rend r <=? rend v); [done|]. eapply IH; [done..|region|region].
Qed.

Definition starts_within (lo hi : Z) (v : PhysRegion) : bool :=
  (lo <? rstart v) && (rstart v <? hi).

Lemma pieces_length r rs cursor :
  rstart r <= cursor -> Forall region_ok rs ->
  (length (pieces r rs cursor) <= 1 + length (List.filter (starts_within (rstart r) (rend r)) rs))%nat.
Proof.
  intros Hc Hrs. revert cursor Hc. induction Hrs as [|v rs Hv Hrs IH]; intros cursor Hc; simpl.
  { destruct (_ <? _); simpl; lia. }
  assert (Hmono : (length (List.filter (starts_within (rstart r) (rend r)) rs) <=
    length (if starts_within (rstart r) (rend r) v
            then v :: List.filter (starts_within (rstart r) (rend r)) rs
            else List.filter (starts_within (rstart r) (rend r)) rs))%nat)
    by (destruct (starts_within _ _ v); simpl; lia).
  destruct (_ || _) eqn:Eskip; [specialize (IH cursor Hc); lia|]. bool_prop.
  rewrite length_app.
  assert (Hrest : (length (if (rend r <=? rend v)%Z then [] else pieces r rs (rend v)) <=
    1 + length (List.filter (starts_within (rstart r) (rend r)) rs))%nat).
  { destruct (_ <=? _); [simpl; lia|]. apply IH. region. }
  destruct (Z.ltb_spec cursor (rstart v)); cbn [length]; [|lia].
  assert (starts_within (rstart r) (rend r) v = true) as ->.
  { unfold starts_within. apply andb_true_iff; split; apply Z.ltb_lt; lia. }
  cbn [length] in *. lia.
Qed.

(** ** All RAM regions *)

Definition all_pieces (rs rams : list PhysRegion) : list PhysRegion :=
  concat ((fun r => pieces r rs (rstart r)) <$> rams).

Lemma all_pieces_cons rs r rams :
  all_pieces rs (r :: rams) = pieces r rs (rstart r) ++ all_pieces rs rams.
Proof. reflexivity. Qed.

Lemma filter_disjoint_length (P Q R : PhysRegion -> bool) rs :
  (forall v, P v = true -> Q v = false /\ R v = true) -> (forall v, Q v = true -> R v = true) ->
  (length (List.filter P rs) + length (List.filter Q rs) <= length (List.filter R rs))%nat.
Proof.
  intros HP HQ. induction rs as [|v rs IH]; simpl; [lia|].
  specialize (HP v). specialize (HQ v).
  destruct (P v), (Q v), (R v); simpl; naive_solver lia.
Qed.

(** A reservation splits at most the one RAM region it starts in, so the
    capacity of the usable list is never exceeded. *)
Lemma all_pieces_length lo rams rs :
  canonical_from lo rams -> Forall region_ok rs ->
  (length (all_pieces rs rams) <=
   length rams + length (List.filter (fun v => (lo <? rstart v)%Z) rs))%nat.
Proof.
  intros Hc Hrs. revert lo Hc. induction rams as [|r rams IH]; intros lo Hc; [simpl; lia|].
  destruct Hc as (Hlo & Hr & Hc). rewrite all_pieces_cons, length_app. cbn [length].
  specialize (IH _ Hc). pose proof (pieces_length r rs (rstart r) ltac:(lia) Hrs).
  pose proof (filter_disjoint_length (starts_within (rstart r) (rend r))
    (fun v => rend r <? rstart v) (fun v => lo <? rstart v) rs) as Hf.
  assert (Hf1 : forall v, starts_within (rstart r) (rend r) v = true ->
    (rend r <? rstart v) = false /\ (lo <? rstart v) = true).
  { unfold starts_within. intros v Hv. bool_prop. split; [apply Z.ltb_ge|apply Z.ltb_lt]; lia. }
  specialize (Hf Hf1). assert (Hf2 : forall v, (rend r <? rstart v) = true -> (lo <? rstart v) = true).
  { intros v Hv. bool_prop. apply Z.ltb_lt. region. }
  specialize (Hf Hf2). lia.
Qed.

Lemma last_end_bound lo xs e :
  canonical_from lo xs -> (forall a, covers xs a -> a < e) -> lo <= e -> last_end lo xs <= e.
Proof.
  revert lo. induction xs as [|x xs IH]; intros lo Hc Hlt Hlo; simpl; [done|].
  destruct Hc as (_ & Hx & Hc). apply IH; [done| |].
  - intros a Ha. apply Hlt, covers_cons. auto.
  - pose proof (Hlt (rend x - 1)) as H. rewrite covers_cons in H. region.
Qed.

Lemma all_pieces_spec lo rams rs :
  canonical_from lo rams -> canonical rs ->
  canonical_from lo (all_pieces rs rams) /\
  forall a, covers (all_pieces rs rams) a <-> covers rams a /\ ~ covers rs a.
Proof.
  intros Hc Hrs. revert lo Hc. induction rams as [|r rams IH]; intros lo Hc.
  { split; [done|]. intros a. unfold all_pieces. simpl. rewrite !covers_nil. tauto. }
  destruct Hc as (Hlo & Hr & Hc). rewrite all_pieces_cons.
  destruct (IH _ Hc) as [IH1 IH2].
  assert (Hp : canonical_from lo (pieces r rs (rstart r))).
  { eapply pieces_canonical; [done..|region|done]. }
  split.
  - apply canonical_from_app. split; [done|]. eapply canonical_from_weaken; [|done].
    apply last_end_bound; [done| |region].
    intros a (Ha & _)%(pieces_covers r (-1)); [lia|done].
  - intros a. rewrite covers_app, covers_cons, IH2, (pieces_covers r (-1)) by done. tauto.
Qed.

Lemma subtract_each_refines rams reserved rs out us :
  fl_rep MAX_NORMALIZED_RESERVED_REGIONS reserved rs -> Forall region_ok rs ->
  fl_rep MAX_USABLE_RAM_REGIONS out us -> Forall region_ok rams ->
  (length us + length (all_pieces rs rams) <= MAX_USABLE_RAM_REGIONS)%nat ->
  exists out', subtract_each rams reserved out = Ok out' /\
    fl_rep MAX_USABLE_RAM_REGIONS out' (us ++ all_pieces rs rams).
Proof.
  intros Hres Hrs Hout Hrams. revert out us Hout.
  induction Hrams as [|r rams Hr Hrams IH]; intros out us Hout Hn; simpl.
  { rewrite app_nil_r. eauto. }
  rewrite all_pieces_cons in *. rewrite length_app in Hn.
  unfold subtract_all. rewrite (iter_refines _ _ _ Hres). cbn [obind].
  destruct (subtract_loop_refines r rs (rstart r) out us) as (out1 & -> & H1);
    [done..|region|lia|]. cbn [obind].
  rewrite app_assoc. apply IH; [done|]. rewrite length_app. lia.
Qed.

(** ** Finalisation *)

(** The invariant the insertions maintain: each list represents a canonical
    list of regions. *)
Record map_wf (m : MemoryMap) (rams rsv devs us : list PhysRegion) : Prop := {
  wf_ram : fl_rep MAX_RAM_REGIONS (ram m) rams;
  wf_rsv : fl_rep MAX_NORMALIZED_RESERVED_REGIONS (permanent_reserved m) rsv;
  wf_mmio : fl_rep MAX_MMIO_REGIONS (mmio m) devs;
  wf_usable : fl_rep MAX_USABLE_RAM_REGIONS (usable_ram m) us;
  wf_ram_canonical : canonical rams;
  wf_rsv_canonical : canonical rsv;
  wf_mmio_canonical : canonical devs
}.

Lemma map_wf_empty : map_wf MemoryMap_empty [] [] [] [].
Proof. split; simpl; try apply fl_rep_new; done. Qed.

Lemma conflict_with_spec r devs :
  match conflict_with r devs with
  | Ok _ => Forall (fun d => overlaps r d = false) devs
  | Err e => exists d, d ∈ devs /\ overlaps r d = true /\ e = RamMmioConflict r d
  | Panic => False
  end.
Proof.
  induction devs as [|d devs IH]; simpl; [done|].
  destruct (overlaps r d) eqn:E; [exists d; set_solver|].
  destruct (conflict_with r devs); [by constructor| set_solver | done].
Qed.

Lemma check_conflicts_spec rams devs :
  match check_conflicts rams devs with
  | Ok _ => Forall (fun r => Forall (fun d => overlaps r d = false) devs) rams
  | Err e => exists r d, r ∈ rams /\ d ∈ devs /\ overlaps r d = true /\ e = RamMmioConflict r d
  | Panic => False
  end.
Proof.
  induction rams as [|r rams IH]; simpl; [done|].
  pose proof (conflict_with_spec r devs) as Hr.
  destruct (conflict_with r devs); simpl; [|set_solver|done].
  destruct (check_conflicts rams devs); [by constructor| set_solver | done].
Qed.

Lemma no_overlap_disjoint rams devs :
  Forall region_ok rams -> Forall region_ok devs ->
  Forall (fun r => Forall (fun d => overlaps r d = false) devs) rams ->
  forall a, ~ (covers rams a /\ covers devs a).
Proof.
  intros Hr Hd Hf a [(r & Hr1 & ?) (d & Hd1 & ?)].
  rewrite !Forall_forall in *. specialize (Hf r Hr1). rewrite Forall_forall in Hf.
  specialize (Hf d Hd1). unfold overlaps in Hf. bool_prop. destruct Hf; bool_prop; lia.
Qed.

Lemma finalize_effect m rams rsv devs us :
  map_wf m rams rsv devs us ->
  match finalize m with
  | Ok m' =>
      (forall a, ~ (covers rams a /\ covers devs a)) /\
      exists us', map_wf m' rams rsv devs us' /\ canonical us' /\
        forall a, covers us' a <-> covers rams a /\ ~ covers rsv a
  | Err e => exists r d, r ∈ rams /\ d ∈ devs /\ overlaps r d = true /\ e = RamMmioConflict r d
  | Panic => False
  end.
Proof.
  intros []. unfold finalize.
  rewrite (iter_refines _ _ _ wf_ram0), (iter_refines _ _ _ wf_mmio0). cbn [obind].
  pose proof (check_conflicts_spec rams devs) as Hcc.
  destruct (check_conflicts rams devs) as [[]| |]; cbn [obind]; [|done..].
  pose proof (canonical_from_ok _ _ wf_ram_canonical0) as Hokr.
  pose proof (canonical_from_ok _ _ wf_rsv_canonical0) as Hoks.
  pose proof (canonical_from_ok _ _ wf_mmio_canonical0) as Hokd.
  destruct (subtract_each_refines rams (permanent_reserved m) rsv
    (FixedList_clear (usable_ram m)) []) as (out & -> & Hout); try done.
  { by eapply fl_rep_clear. }
  { pose proof (all_pieces_length (-1) rams rsv wf_ram_canonical0 Hoks) as Hl.
    pose proof (List.filter_length_le (fun v => -1 <? rstart v) rsv).
    apply fl_rep_bound in wf_ram0, wf_rsv0. unfold MAX_USABLE_RAM_REGIONS. simpl length. lia. }
  cbn [obind]. split; [by apply no_overlap_disjoint|].
  destruct (all_pieces_spec (-1) rams rsv) as [Hc Hcov]; [done..|].
  exists (all_pieces rsv rams). split; [by split|]. done.
Qed.

(** [finalize_correct]: finalisation of a map whose lists are canonical never panics and
    never runs out of capacity. It fails exactly by naming a RAM region and a
    device window that overlap; otherwise RAM and device windows are disjoint
    and the usable list is canonical and covers exactly the RAM addresses
    outside every reservation, the other lists being unchanged. *)
Lemma finalize_correct m rams rsv devs us :
  map_wf m rams rsv devs us ->
  match finalize m with
  | Ok m' =>
      (forall a, ~ (covers rams a /\ covers devs a)) /\
      exists us', map_wf m' rams rsv devs us' /\ canonical us' /\
        forall a, covers us' a <-> covers rams a /\ ~ covers rsv a
  | Err e => exists r d, r ∈ rams /\ d ∈ devs /\ overlaps r d = true /\ e = RamMmioConflict r d
  | Panic => False
  end.
Proof. apply finalize_effect. Qed.

(** ** Concrete instances *)

Definition region_a : PhysRegion := mkRegion 0x1000 0x1000.
Definition region_b : PhysRegion := mkRegion 0x2000 0x3000.
Definition region_c : PhysRegion := mkRegion 0x9000 0x1000.

(** Two banks of RAM with a reserved range inside the first, and a device. *)
Definition sample_map : MemoryMap :=
  let ram1 := mkRegion 0x40000000 0x10000000 in
  let ram2 := mkRegion 0x80000000 0x10000000 in
  let rsv := mkRegion 0x42000000 0x100000 in
  let dev := mkRegion 0x9000000 0x1000 in
  match insert_ram MemoryMap_empty ram1 with
  | Ok m => match insert_ram m ram2 with
            | Ok m => match insert_reserved m rsv with
                      | Ok m => match insert_mmio m dev with Ok m => m | _ => MemoryMap_empty end
                      | _ => MemoryMap_empty
                      end
            | _ => MemoryMap_empty
            end
  | _ => MemoryMap_empty
  end.

