(* ===== verification/PageAllocator.v ===== *)
(** * Physical page allocator: src/tvisor_util/page_allocator.rs

    Two bitmaps over the physical aperture, each with a cached population
    count: [managed] selects the pages the allocator owns and [in_use] the
    allocated ones among them.  [PageBitmap] and [PageAllocator] are
    translated byte by byte; [pstate] is the three-state map of pages they
    stand for, and the theorems state every operation as an update of that
    map.  The bitmaps are borrowed mutably by the allocator: here they are
    fields of its state.  An operation that returns an error leaves the state
    as it was, except [new], whose bitmaps are then not used. *)

From S2P Require Import Prelude Page SystemInfo.

Definition MAX_PHYSICAL_ADDRESS : Z := Z.shiftl 1 32.
Definition PAGE_BITMAP_BYTES : nat := Z.to_nat (MAX_PHYSICAL_ADDRESS / PAGE_SIZE / 8).

Inductive PageState := Reserved | InUse | Unused.

#[global] Instance PageState_eq_dec : EqDecision PageState.
Proof. solve_decision. Defined.

Inductive AllocatorError :=
| AAddressOverflow
| NotInitialized
| AInvalidRegion (e : RegionError)
| PhysicalAddressOutOfRange
| Exhausted
| UnalignedPage
| ReservedPage
| DoubleFree
| AlreadyAllocated
| InvalidateParameter
| InvalidIpa
| OverlappingIpa
| Unexpected.

#[global] Instance AllocatorError_eq_dec : EqDecision AllocatorError.
Proof. solve_decision. Defined.

Record AllocatorStats := mkStats {
  st_ram_pages : Z;
  st_reserved_pages : Z;
  st_in_use_pages : Z;
  st_unused_pages : Z
}.

(** ** Bitmaps *)

Definition bit_is_set {E} (bitmap : list Z) (index : nat) : outcome E bool :=
  let? b := arr_get bitmap (index / 8)%nat in
  Ok (negb (Z.land b (Z.shiftl 1 (Z.of_nat (index mod 8)%nat)) =? 0)).

Definition write_bit {E} (bitmap : list Z) (index : nat) (value : bool) : outcome E (list Z) :=
  let mask := Z.shiftl 1 (Z.of_nat (index mod 8)%nat) in
  let? b := arr_get bitmap (index / 8)%nat in
  if value then arr_set bitmap (index / 8)%nat (Z.lor b mask)
  else arr_set bitmap (index / 8)%nat (Z.land b (as_u8 (Z.lnot mask))).

Record PageBitmap := mkBitmap { bits : list Z; set_pages : Z }.

Definition PageBitmap_zeroed (BYTES : nat) : PageBitmap := mkBitmap (replicate BYTES 0) 0.

Definition is_set {E} (self : PageBitmap) (index : nat) : outcome E bool :=
  bit_is_set (bits self) index.

Definition PageBitmap_clear (self : PageBitmap) : PageBitmap :=
  mkBitmap ((fun _ => 0) <$> bits self) 0.

Definition set_bit {E} (self : PageBitmap) (index : nat) (value : bool) : outcome E PageBitmap :=
  let? old := is_set self index in
  if eqb old value then Ok self
  else
    let? bs := write_bit (bits self) index value in
    let? n := if value then add64 (set_pages self) 1 else sub64 (set_pages self) 1 in
    Ok (mkBitmap bs n).

(** ** The allocator *)

Record PageAllocator := mkAllocator {
  managed : PageBitmap;
  in_use : PageBitmap;
  ram_pages : Z
}.

Definition with_in_use (self : PageAllocator) (b : PageBitmap) : PageAllocator :=
  mkAllocator (managed self) b (ram_pages self).
Definition with_managed (self : PageAllocator) (b : PageBitmap) : PageAllocator :=
  mkAllocator b (in_use self) (ram_pages self).

(** [while page < end { body; page = page.checked_add(PAGE_SIZE)?; }]: the
    body continues with a new state or returns early. *)
Fixpoint while_pages {S R} (fuel : nat) (body : Z -> S -> outcome AllocatorError (S + R))
  (page e : Z) (st : S) : outcome AllocatorError (S + R) :=
  match fuel with
  | O => Panic
  | Datatypes.S fuel' =>
      if page <? e then
        let? step := body page st in
        match step with
        | inl st' =>
            let? page' := ok_or (checked_add page PAGE_SIZE) AAddressOverflow in
            while_pages fuel' body page' e st'
        | inr r => Ok (inr r)
        end
      else Ok (inl st)
  end.

Section Allocator.
Context (BITMAP_BYTES : nat).

Definition page_count : nat := (BITMAP_BYTES * 8)%nat.

Definition aperture_end : Z := Z.of_nat page_count * PAGE_SIZE.

Definition bitmap_index (address : Z) : outcome AllocatorError nat :=
  let page := address / PAGE_SIZE in
  reject Z.of_nat page_count <=? page with PhysicalAddressOutOfRange in
  Ok (Z.to_nat page).

Definition validate_bitmaps : outcome AllocatorError unit :=
  reject (BITMAP_BYTES =? 0)%nat with PhysicalAddressOutOfRange in Ok tt.

(** [managed.is_set(index) && !in_use.is_set(index)]. *)
Definition is_free (self : PageAllocator) (index : nat) : outcome AllocatorError bool :=
  let? m := is_set (managed self) index in
  if m then let? u := is_set (in_use self) index in Ok (negb u) else Ok false.

(** The loop of [allocate_high] with [n] lower indices left to try. *)
Fixpoint allocate_high_loop (self : PageAllocator) (n : nat) :
  outcome AllocatorError (Z * PageAllocator) :=
  match n with
  | O => Err Exhausted
  | S index =>
      let? free := is_free self index in
      if free then
        let? b := set_bit (in_use self) index true in
        Ok (Z.of_nat index * PAGE_SIZE, with_in_use self b)
      else allocate_high_loop self index
  end.

Definition allocate_high (self : PageAllocator) : outcome AllocatorError (Z * PageAllocator) :=
  allocate_high_loop self page_count.

(** [for page in first..first + n { in_use.set_bit(page, true) }]. *)
Fixpoint mark_run {E} (b : PageBitmap) (first n : nat) : outcome E PageBitmap :=
  match n with
  | O => Ok b
  | S n' => let? b' := set_bit b first true in mark_run b' (S first) n'
  end.

(** The scan of [allocate_contiguous]: [n] pages left, from [index] on. *)
Fixpoint contiguous_loop (self : PageAllocator) (pages n index run_start run_len : nat) :
  outcome AllocatorError (Z * PageAllocator) :=
  match n with
  | O => Err Exhausted
  | S n' =>
      let? free := is_free self index in
      if free then
        let run_start := if (run_len =? 0)%nat then index else run_start in
        let run_len := (run_len + 1)%nat in
        if (run_len =? pages)%nat then
          let? b := mark_run (in_use self) run_start pages in
          Ok (Z.of_nat run_start * PAGE_SIZE, with_in_use self b)
        else contiguous_loop self pages n' (index + 1) run_start run_len
      else contiguous_loop self pages n' (index + 1) run_start 0
  end.

Definition allocate_contiguous (self : PageAllocator) (pages : nat) :
  outcome AllocatorError (Z * PageAllocator) :=
  reject (pages =? 0)%nat with Exhausted in
  contiguous_loop self pages page_count 0 0 0.

Definition allocate (self : PageAllocator) : outcome AllocatorError (Z * PageAllocator) :=
  allocate_contiguous self 1.

Definition state (self : PageAllocator) (page : Z) : outcome AllocatorError PageState :=
  reject negb (is_page_aligned page) with UnalignedPage in
  let? index := bitmap_index page in
  let? m := is_set (managed self) index in
  if negb m then Ok Reserved
  else
    let? u := is_set (in_use self) index in
    Ok (if u then InUse else Unused).

(** The page-aligned bounds of the pages fully inside a region. *)
Definition inner_bounds (region : PhysRegion) : outcome AllocatorError (Z * Z) :=
  let? start := ok_or (align_up (rstart region) PAGE_SIZE) AAddressOverflow in
  let? e := ok_or (align_down (rend region) PAGE_SIZE) AAddressOverflow in
  Ok (start, e).

Definition allocate_in_body (page : Z) (self : PageAllocator) :
  outcome AllocatorError (PageAllocator + Z * PageAllocator) :=
  let? s := state self page in
  if decide (s = Unused) then
    let? index := bitmap_index page in
    let? b := set_bit (in_use self) index true in
    Ok (inr (page, with_in_use self b))
  else Ok (inl self).

Definition allocate_in (self : PageAllocator) (requested : PhysRegion) :
  outcome AllocatorError (Z * PageAllocator) :=
  let? bounds := inner_bounds requested in
  let e := Z.min bounds.2 aperture_end in
  let? r := while_pages (S page_count) allocate_in_body bounds.1 e self in
  match r with inl _ => Err Exhausted | inr found => Ok found end.

Definition free (self : PageAllocator) (page : Z) : outcome AllocatorError PageAllocator :=
  let? s := state self page in
  match s with
  | Reserved => Err ReservedPage
  | Unused => Err DoubleFree
  | InUse =>
      let? index := bitmap_index page in
      let? b := set_bit (in_use self) index false in
      Ok (with_in_use self b)
  end.

Definition release_body (page : Z) (st : PageAllocator * Z) :
  outcome AllocatorError (PageAllocator * Z + Empty_set) :=
  let '(self, released) := st in
  let? index := bitmap_index page in
  let? m := is_set (managed self) index in
  let? u := if m then is_set (in_use self) index else Ok false in
  if u then
    let? b := set_bit (in_use self) index false in
    Ok (inl (with_in_use self b, released + 1))
  else Ok (inl (self, released)).

Definition release (self : PageAllocator) (region : PhysRegion) :
  outcome AllocatorError (Z * PageAllocator) :=
  let? bounds := inner_bounds region in
  let e := Z.min bounds.2 aperture_end in
  let? r := while_pages (S page_count) release_body bounds.1 e (self, 0) in
  match r with
  | inl (self', released) => Ok (released, self')
  | inr v => match v with end
  end.

Definition mark_managed_body (page : Z) (self : PageAllocator) :
  outcome AllocatorError (PageAllocator + Empty_set) :=
  let? index := bitmap_index page in
  let? b := set_bit (managed self) index true in
  Ok (inl (with_managed self b)).

Definition mark_managed (self : PageAllocator) (region : PhysRegion) :
  outcome AllocatorError PageAllocator :=
  let? bounds := inner_bounds region in
  reject aperture_end <? bounds.2 with PhysicalAddressOutOfRange in
  let? r := while_pages (S page_count) mark_managed_body bounds.1 bounds.2 self in
  match r with inl self' => Ok self' | inr v => match v with end end.

(** [mark_all_managed_in_use] from [index] on, [n] pages left. *)
Fixpoint mark_in_use_loop {E} (self : PageAllocator) (n index : nat) : outcome E PageAllocator :=
  match n with
  | O => Ok self
  | S n' =>
      let? m := is_set (managed self) index in
      if m then
        let? b := set_bit (in_use self) index true in
        mark_in_use_loop (with_in_use self b) n' (S index)
      else mark_in_use_loop self n' (S index)
  end.

Definition mark_all_managed_in_use {E} (self : PageAllocator) : outcome E PageAllocator :=
  mark_in_use_loop self page_count 0.

Definition stats {E} (self : PageAllocator) : outcome E AllocatorStats :=
  let? reserved := sub64 (ram_pages self) (set_pages (managed self)) in
  let? unused := sub64 (set_pages (managed self)) (set_pages (in_use self)) in
  Ok (mkStats (ram_pages self) reserved (set_pages (in_use self)) unused).

Fixpoint count_pages_loop (regions : list PhysRegion) (pages : Z) : outcome AllocatorError Z :=
  match regions with
  | [] => Ok pages
  | region :: rest =>
      let? bounds := inner_bounds region in
      reject MAX_PHYSICAL_ADDRESS <? bounds.2 with PhysicalAddressOutOfRange in
      let? span := sub64 bounds.2 bounds.1 in
      let? pages' := ok_or (checked_add pages (span / PAGE_SIZE)) AAddressOverflow in
      count_pages_loop rest pages'
  end.

Definition count_pages (regions : FixedList PhysRegion) : outcome AllocatorError Z :=
  let? rs := FixedList_iter regions in count_pages_loop rs 0.

(** [for region in list { f(region)?; }] threading the allocator. *)
Fixpoint for_regions (f : PageAllocator -> PhysRegion -> outcome AllocatorError PageAllocator)
  (regions : list PhysRegion) (self : PageAllocator) : outcome AllocatorError PageAllocator :=
  match regions with
  | [] => Ok self
  | region :: rest => let? self' := f self region in for_regions f rest self'
  end.

Definition PageAllocator_new (ram allocatable initially_unused : FixedList PhysRegion)
  (managed0 in_use0 : PageBitmap) : outcome AllocatorError PageAllocator :=
  let? _ := validate_bitmaps in
  let? ram_pages0 := count_pages ram in
  let allocator :=
    mkAllocator (PageBitmap_clear managed0) (PageBitmap_clear in_use0) ram_pages0 in
  let? to_manage := FixedList_iter allocatable in
  let? a1 := for_regions mark_managed to_manage allocator in
  let? a2 := mark_all_managed_in_use a1 in
  let? to_release := FixedList_iter initially_unused in
  for_regions (fun a r => let? x := release a r in Ok x.2) to_release a2.

Definition from_existing (managed0 in_use0 : PageBitmap) (ram_pages0 : Z) :
  outcome AllocatorError PageAllocator :=
  let? _ := validate_bitmaps in
  reject (Z.of_nat page_count <? ram_pages0) || (ram_pages0 <? set_pages managed0)
         || (set_pages managed0 <? set_pages in_use0) with AAddressOverflow in
  Ok (mkAllocator managed0 in_use0 ram_pages0).

End Allocator.

(** ** Bits of a byte array *)

Definition testl (bs : list Z) (i : nat) : bool :=
  match bs !! (i / 8)%nat with
  | Some b => Z.testbit b (Z.of_nat (i mod 8)%nat)
  | None => false
  end.

Definition test (bm : PageBitmap) (i : nat) : bool := testl (bits bm) i.

(** The number of set bits below [n]. *)
Fixpoint countb (f : nat -> bool) (n : nat) : Z :=
  match n with O => 0 | S n' => countb f n' + Z.b2z (f n') end.

Lemma countb_ext f g n : (forall i, (i < n)%nat -> f i = g i) -> countb f n = countb g n.
Proof. induction n; simpl; intros H; [done|]. rewrite IHn, H by auto. done. Qed.

Lemma countb_update f n i v :
  (i < n)%nat ->
  countb (fun j => if (j =? i)%nat then v else f j) n = countb f n + (Z.b2z v - Z.b2z (f i)).
Proof.
  induction n as [|n IH]; intros Hi; [lia|]. simpl.
  destruct (Nat.eqb_spec n i) as [<-|].
  - rewrite (countb_ext _ f); [lia|]. intros j Hj. by rewrite (proj2 (Nat.eqb_neq j n)) by lia.
  - rewrite IH by lia. lia.
Qed.

Lemma countb_false n : countb (fun _ => false) n = 0.
Proof. induction n; simpl; lia. Qed.

Lemma countb_range f n : 0 <= countb f n <= Z.of_nat n.
Proof. induction n; cbn [countb]; [lia|]. destruct (f n); simpl Z.b2z; lia. Qed.

Lemma countb_pos f n i : (i < n)%nat -> f i = true -> 0 < countb f n.
Proof.
  induction n; intros Hi Hf; [lia|]. cbn [countb]. pose proof (countb_range f n).
  destruct (decide (i = n)) as [->|]; [rewrite Hf; simpl; lia|].
  specialize (IHn ltac:(lia) Hf). destruct (f n); simpl; lia.
Qed.

Lemma countb_lt f n i : (i < n)%nat -> f i = false -> countb f n < Z.of_nat n.
Proof.
  induction n; intros Hi Hf; [lia|]. cbn [countb]. pose proof (countb_range f n).
  destruct (decide (i = n)) as [->|]; [rewrite Hf; simpl; lia|].
  specialize (IHn ltac:(lia) Hf). destruct (f n); simpl; lia.
Qed.

Lemma countb_mono f g n : (forall i, f i = true -> g i = true) -> countb f n <= countb g n.
Proof.
  intros H. induction n; cbn [countb]; [lia|]. specialize (H n).
  destruct (f n), (g n); simpl Z.b2z; naive_solver lia.
Qed.

Lemma div_mod_8_lt i n : (i < n * 8)%nat -> (i / 8 < n)%nat.
Proof. intros. apply Nat.Div0.div_lt_upper_bound. lia. Qed.

Lemma div_mod_8_inj i j : (i / 8 = j / 8)%nat -> (i mod 8 = j mod 8)%nat -> i = j.
Proof. intros H1 H2. rewrite (Nat.div_mod_eq i 8), (Nat.div_mod_eq j 8). lia. Qed.

Lemma bit_is_set_spec {E} bs i :
  (i < length bs * 8)%nat -> bit_is_set (E:=E) bs i = Ok (testl bs i).
Proof.
  intros Hi. unfold bit_is_set, testl.
  destruct (arr_get_lt (E:=E) bs (i / 8) (div_mod_8_lt _ _ Hi)) as (b & -> & ->).
  cbn [obind]. by rewrite land_single_bit by lia.
Qed.

Lemma testl_insert bs i b v value :
  (i < length bs * 8)%nat -> bs !! (i / 8)%nat = Some b ->
  (forall k, 0 <= k < 8 -> Z.testbit v k =
     if k =? Z.of_nat (i mod 8)%nat then value else Z.testbit b k) ->
  forall j, testl (<[(i / 8)%nat := v]> bs) j = if (j =? i)%nat then value else testl bs j.
Proof.
  intros Hi Hb Hv j. unfold testl. pose proof (Nat.mod_upper_bound j 8 ltac:(lia)).
  destruct (decide (i / 8 = j / 8)%nat) as [Heq|Hne].
  - rewrite <- Heq, list_lookup_insert_eq, Hb, Hv by (by apply div_mod_8_lt || lia).
    destruct (Nat.eqb_spec j i) as [->|Hji]; [by rewrite Z.eqb_refl|].
    destruct (Z.eqb_spec (Z.of_nat (j mod 8)) (Z.of_nat (i mod 8))); [|done].
    exfalso. apply Hji, div_mod_8_inj; lia.
  - rewrite list_lookup_insert_ne by done.
    by destruct (Nat.eqb_spec j i) as [->|].
Qed.

Lemma u8_bits b : 0 <= b -> (forall k, 8 <= k -> Z.testbit b k = false) -> u8 b.
Proof. intros H0 H. split; [done|]. by apply Z.bounded_iff_bits_nonneg. Qed.

Lemma write_bit_spec {E} bs i value :
  (i < length bs * 8)%nat -> Forall u8 bs ->
  exists bs', write_bit (E:=E) bs i value = Ok bs' /\ length bs' = length bs /\ Forall u8 bs' /\
    forall j, testl bs' j = if (j =? i)%nat then value else testl bs j.
Proof.
  intros Hi Hu. unfold write_bit. set (k := Z.of_nat (i mod 8)).
  assert (Hk : 0 <= k < 8) by (pose proof (Nat.mod_upper_bound i 8); lia).
  destruct (arr_get_lt (E:=E) bs (i / 8) (div_mod_8_lt _ _ Hi)) as (b & Hb & ->). cbn [obind].
  assert (Hub : u8 b) by (rewrite Forall_lookup in Hu; eauto).
  assert (Hhi : forall m, 8 <= m -> Z.testbit b m = false)
    by (intros; eapply (testbit_bounded _ 8); eauto; lia).
  set (v := if value then Z.lor b (Z.shiftl 1 k) else Z.land b (as_u8 (Z.lnot (Z.shiftl 1 k)))).
  assert (Hv : forall m, 0 <= m -> Z.testbit v m = if m =? k then value && (m <? 8) else Z.testbit b m).
  { intros m Hm. subst v. unfold as_u8. rewrite Z.shiftl_1_l. destruct value; autorewrite with tv_bits.
    - rewrite (Z.eqb_sym m k). destruct (Z.eqb_spec k m) as [<-|].
      + rewrite orb_true_r. symmetry. apply Z.ltb_lt. lia.
      + by rewrite orb_false_r.
    - rewrite (Z.eqb_sym m k). destruct (Z.eqb_spec k m) as [<-|]; simpl; [by rewrite andb_false_r|].
      destruct (Z.ltb_spec m 8); [by rewrite andb_true_r|]. by rewrite andb_false_r, Hhi. }
  assert (Hset : (if value then arr_set (E:=E) bs (i / 8)%nat (Z.lor b (Z.shiftl 1 k))
      else arr_set bs (i / 8)%nat (Z.land b (as_u8 (Z.lnot (Z.shiftl 1 k))))) =
      Ok (<[(i / 8)%nat := v]> bs))
    by (subst v; destruct value; apply arr_set_ok, div_mod_8_lt; done).
  rewrite Hset. eexists. split; [done|]. split; [apply length_insert|]. split.
  - apply Forall_insert; [done|]. apply u8_bits.
    + subst v. destruct Hub. destruct value; [apply Z.lor_nonneg|apply Z.land_nonneg; auto].
      split; [done|]. rewrite Z.shiftl_1_l. lia.
    + intros m Hm. rewrite Hv, (proj2 (Z.eqb_neq m k)) by lia. by apply Hhi.
  - eapply testl_insert; [done..|]. intros m Hm. fold k. rewrite Hv by lia.
    by rewrite (proj2 (Z.ltb_lt m 8)), andb_true_r by lia.
Qed.

(** ** The bitmap invariant *)

Section Invariant.
Context (B : nat) (HB : aperture_end B < 2 ^ 64).
Implicit Types (bm : PageBitmap) (al : PageAllocator).

(** [set_pages == popcount(bits)], and every byte is a byte. *)
Record bm_ok bm : Prop := {
  bm_len : length (bits bm) = B;
  bm_u8 : Forall u8 (bits bm);
  bm_count : set_pages bm = countb (test bm) (page_count B)
}.

Lemma page_count_bound : 0 <= Z.of_nat (page_count B) < 2 ^ 64.
Proof. clear -HB. unfold aperture_end, PAGE_SIZE in HB. lia. Qed.

Lemma is_set_spec {E} bm i :
  bm_ok bm -> (i < page_count B)%nat -> is_set (E:=E) bm i = Ok (test bm i).
Proof. intros [<- _ _] Hi. by apply bit_is_set_spec. Qed.

Lemma set_bit_spec {E} bm i v :
  bm_ok bm -> (i < page_count B)%nat ->
  exists bm', set_bit (E:=E) bm i v = Ok bm' /\ bm_ok bm' /\
    forall j, test bm' j = if (j =? i)%nat then v else test bm j.
Proof using HB.
  intros H Hi. unfold set_bit. rewrite is_set_spec by done. cbn [obind].
  destruct (eqb (test bm i) v) eqn:Heq.
  { apply eqb_prop in Heq as <-. exists bm. split_and!; [done..|].
    intros j. by destruct (Nat.eqb_spec j i) as [->|]. }
  apply eqb_false_iff in Heq. pose proof page_count_bound.
  destruct H as [HL Hu Hc].
  destruct (write_bit_spec (E:=E) (bits bm) i v) as (bs & -> & Hlen & Hu' & Ht); [by rewrite HL|done|].
  cbn [obind].
  assert (Hn : (if v then add64 (E:=E) (set_pages bm) 1 else sub64 (set_pages bm) 1) =
    Ok (set_pages bm + (Z.b2z v - Z.b2z (test bm i)))).
  { rewrite Hc. destruct v, (test bm i) eqn:Et; try done; simpl Z.b2z.
    - pose proof (countb_lt _ _ _ Hi Et). rewrite add64_ok by lia. f_equal; lia.
    - pose proof (countb_pos _ _ _ Hi Et). rewrite sub64_ok by lia. f_equal; lia. }
  rewrite Hn. eexists. split; [done|]. split; [|done]. split; simpl; [congruence|done|].
  rewrite (countb_ext (test _) (fun j => if (j =? i)%nat then v else test bm j)) by (intros; apply Ht).
  by rewrite countb_update, Hc by done.
Qed.

Lemma mark_run_spec {E} bm first n :
  bm_ok bm -> (first + n <= page_count B)%nat ->
  exists bm', mark_run (E:=E) bm first n = Ok bm' /\ bm_ok bm' /\
    forall j, test bm' j = (((first <=? j) && (j <? first + n))%nat || test bm j).
Proof using HB.
  revert bm first. induction n as [|n IH]; intros bm first H Hn; simpl.
  { exists bm. split_and!; [done..|]. intros j.
    destruct (Nat.leb_spec first j), (Nat.ltb_spec j (first + 0)); simpl; done || lia. }
  destruct (set_bit_spec (E:=E) bm first true H) as (b1 & -> & H1 & T1); [lia|]. cbn [obind].
  destruct (IH b1 (S first) H1 ltac:(lia)) as (b2 & -> & H2 & T2).
  exists b2. split_and!; [done..|]. intros j. rewrite T2, T1.
  destruct (Nat.eqb_spec j first), (Nat.leb_spec (S first) j), (Nat.leb_spec first j),
    (Nat.ltb_spec j (S first + n)), (Nat.ltb_spec j (first + S n)); simpl; done || lia.
Qed.

Lemma clear_ok bm :
  length (bits bm) = B ->
  bm_ok (PageBitmap_clear bm) /\ forall i, test (PageBitmap_clear bm) i = false.
Proof.
  intros HL.
  assert (Ht : forall i, test (PageBitmap_clear bm) i = false).
  { intros i. unfold test, testl. simpl. rewrite list_lookup_fmap.
    destruct (bits bm !! _); simpl; [apply Z.bits_0 | done]. }
  split; [|done]. split; simpl.
  - by rewrite length_fmap.
  - apply Forall_fmap, Forall_true. intros. split; simpl; lia.
  - rewrite (countb_ext _ (fun _ => false)) by auto.
    by rewrite countb_false.
Qed.

(** ** The allocator as a map from pages to states *)

Definition pstate al (i : nat) : PageState :=
  if negb (test (managed al) i) then Reserved
  else if test (in_use al) i then InUse else Unused.

Record alloc_ok al : Prop := {
  al_managed : bm_ok (managed al);
  al_in_use : bm_ok (in_use al);
  al_subset : forall i, test (in_use al) i = true -> test (managed al) i = true
}.

Lemma is_free_spec al i :
  alloc_ok al -> (i < page_count B)%nat ->
  is_free al i = Ok (bool_decide (pstate al i = Unused)).
Proof.
  intros [Hm Hu _] Hi. unfold is_free, pstate. rewrite is_set_spec by done. cbn [obind].
  destruct (test (managed al) i); simpl; [|done]. rewrite is_set_spec by done. simpl.
  by destruct (test (in_use al) i).
Qed.

(** Allocating and freeing change the state of the pages concerned only. *)
Lemma with_in_use_ok al b (P : nat -> bool) (v : bool) :
  alloc_ok al -> bm_ok b ->
  (forall j, test b j = if P j then v else test (in_use al) j) ->
  (forall j, P j = true -> test (managed al) j = true) ->
  alloc_ok (with_in_use al b) /\
  forall j, pstate (with_in_use al b) j =
    if P j then (if v then InUse else Unused) else pstate al j.
Proof.
  intros [Hm Hu Hs] Hb Ht HP. split.
  - split; [done..|]. simpl. intros j. rewrite Ht. destruct (P j) eqn:E; auto.
  - intros j. unfold pstate. simpl. rewrite Ht. destruct (P j) eqn:E; [|done].
    by rewrite HP.
Qed.

Lemma pstate_managed al i : pstate al i <> Reserved <-> test (managed al) i = true.
Proof. unfold pstate. destruct (test (managed al) i), (test (in_use al) i); naive_solver. Qed.

Definition all_unused al (p n : nat) : Prop :=
  forall i, (p <= i < p + n)%nat -> pstate al i = Unused.

(** [al'] is [al] with the pages [p .. p + n) allocated. *)
Definition allocated al (p n : nat) al' : Prop :=
  alloc_ok al' /\ ram_pages al' = ram_pages al /\
  forall i, pstate al' i = if ((p <=? i) && (i <? p + n))%nat then InUse else pstate al i.

Lemma mark_run_allocated {E} al p n :
  alloc_ok al -> (p + n <= page_count B)%nat -> all_unused al p n ->
  exists b, mark_run (E:=E) (in_use al) p n = Ok b /\ allocated al p n (with_in_use al b).
Proof using HB.
  intros H Hp Hun.
  destruct (mark_run_spec (E:=E) (in_use al) p n (al_in_use _ H) Hp) as (b & -> & Hb & Ht).
  exists b. split; [done|].
  destruct (with_in_use_ok al b (fun j => (p <=? j) && (j <? p + n))%nat true) as [H1 H2];
    [done|done| | |split; [done|split; done]].
  - intros j. rewrite Ht. by destruct (_ && _).
  - intros j Hj. bool_prop. apply pstate_managed. by rewrite Hun by lia.
Qed.

(** Invariant of the scan before page [index]: the last [run_len] pages are
    unused, the page before them is not, and no earlier run is long enough. *)
Definition scan_inv al (pages index run_start run_len : nat) : Prop :=
  (run_len < pages)%nat /\ (run_len <= index)%nat /\
  (run_len = 0%nat \/ run_start = (index - run_len)%nat) /\
  all_unused al (index - run_len) run_len /\
  (index = run_len \/ pstate al (index - run_len - 1) <> Unused) /\
  (forall q, (q + pages <= index)%nat -> ~ all_unused al q pages).

Lemma scan_inv_extend al pages index run_start run_len :
  scan_inv al pages index run_start run_len -> pstate al index = Unused ->
  (run_len + 1 <> pages)%nat ->
  scan_inv al pages (index + 1) (if (run_len =? 0)%nat then index else run_start) (run_len + 1).
Proof.
  intros (H1 & H2 & H3 & H4 & H5 & H6) Hun Hne. unfold scan_inv, all_unused in *.
  replace (index + 1 - (run_len + 1))%nat with (index - run_len)%nat by lia.
  split_and!; [lia|lia| | |destruct H5; [left; lia|by right]|].
  - right. destruct (Nat.eqb_spec run_len 0); lia.
  - intros i Hi. destruct (decide (i = index)) as [->|]; [done|]. apply H4. lia.
  - intros q Hq Hall. destruct (decide (q + pages <= index)%nat) as [Hle|Hgt]; [by apply (H6 q)|].
    destruct H5 as [->|H5]; [lia|]. apply H5, Hall. lia.
Qed.

Lemma scan_inv_reset al pages index run_start run_len :
  scan_inv al pages index run_start run_len -> pstate al index <> Unused ->
  scan_inv al pages (index + 1) run_start 0.
Proof.
  intros (H1 & H2 & H3 & H4 & H5 & H6) Hun. unfold scan_inv, all_unused in *.
  split_and!; [lia|lia|by left| | |].
  - intros i Hi. lia.
  - right. by replace (index + 1 - 0 - 1)%nat with index by lia.
  - intros q Hq Hall. destruct (decide (q + pages <= index)%nat) as [Hle|Hgt]; [by apply (H6 q)|].
    apply Hun, Hall. lia.
Qed.

(** What an allocation of [pages] contiguous pages promises: the lowest run. *)
Definition contiguous_post al (pages : nat) (r : outcome AllocatorError (Z * PageAllocator)) : Prop :=
  match r with
  | Ok (pa, al') =>
      exists p, pa = Z.of_nat p * PAGE_SIZE /\ (p + pages <= page_count B)%nat /\
        all_unused al p pages /\ (forall q, (q < p)%nat -> ~ all_unused al q pages) /\
        allocated al p pages al'
  | Err e =>
      e = Exhausted /\
      forall q, (q + pages <= page_count B)%nat -> ~ all_unused al q pages
  | Panic => False
  end.

Lemma contiguous_loop_spec al pages n index run_start run_len :
  alloc_ok al -> (index + n = page_count B)%nat -> scan_inv al pages index run_start run_len ->
  contiguous_post al pages (contiguous_loop al pages n index run_start run_len).
Proof using HB.
  intros Hok. revert index run_start run_len.
  induction n as [|n IH]; intros index rs rl Hn Hinv; simpl.
  { split; [done|]. destruct Hinv as (_&_&_&_&_&H). rewrite <- Hn, Nat.add_0_r. done. }
  rewrite is_free_spec by (done || lia). cbn [obind]. case_bool_decide as Hun.
  2:{ apply IH; [lia|]. by eapply scan_inv_reset. }
  destruct (Nat.eqb_spec (rl + 1) pages) as [Heq|Hne].
  2:{ apply IH; [lia|]. by apply scan_inv_extend. }
  destruct Hinv as (H1 & H2 & H3 & H4 & H5 & H6).
  assert (Hrs : (if (rl =? 0)%nat then index else rs) = (index + 1 - pages)%nat)
    by (destruct (Nat.eqb_spec rl 0); lia).
  rewrite Hrs.
  assert (Hall : all_unused al (index + 1 - pages) pages).
  { intros i Hi. destruct (decide (i = index)) as [->|]; [done|]. apply H4. lia. }
  destruct (mark_run_allocated (E:=AllocatorError) al (index + 1 - pages) pages Hok ltac:(lia) Hall)
    as (b & -> & Hal).
  cbn [obind]. exists (index + 1 - pages)%nat. split_and!; [done|lia|done| |done].
  intros q Hq. apply H6. lia.
Qed.

Lemma scan_inv_init al pages : (0 < pages)%nat -> scan_inv al pages 0 0 0.
Proof.
  intros Hp. unfold scan_inv, all_unused. split_and!; lia.
Qed.

Lemma allocate_contiguous_post al pages :
  alloc_ok al -> (0 < pages)%nat ->
  contiguous_post al pages (allocate_contiguous B al pages).
Proof using HB.
  intros Hok Hp. unfold allocate_contiguous. rewrite (proj2 (Nat.eqb_neq pages 0)) by lia.
  apply contiguous_loop_spec; [done|done|]. by apply scan_inv_init.
Qed.

Lemma contiguous_loop_managed al pages n index rs rl pa al' :
  contiguous_loop al pages n index rs rl = Ok (pa, al') -> managed al' = managed al.
Proof.
  revert index rs rl. induction n as [|n IH]; intros index rs rl; simpl; [done|].
  destruct (is_free al index) as [[]| |]; cbn [obind]; try done; [|apply IH].
  destruct (_ =? _)%nat; [|apply IH].
  destruct (mark_run _ _ _); cbn [obind]; try done. by intros [= _ <-].
Qed.

Lemma allocate_managed al pages pa al' :
  allocate_contiguous B al pages = Ok (pa, al') -> managed al' = managed al.
Proof.
  unfold allocate_contiguous. destruct (_ =? _)%nat; [done|]. apply contiguous_loop_managed.
Qed.

(** C29 [allocate_contiguous_lowest]: an allocation of [pages > 0] contiguous pages returns the
    lowest run of unused pages and marks exactly these pages in use; it
    reports [Exhausted] only when no such run exists, and never panics. *)
Theorem allocate_contiguous_lowest al pages :
  alloc_ok al -> (0 < pages)%nat ->
  contiguous_post al pages (allocate_contiguous B al pages).
Proof using HB. apply allocate_contiguous_post. Qed.

(** [allocate_high_highest]: the highest unused page is returned and marked, or there is
    none. *)
Lemma allocate_high_highest al :
  alloc_ok al ->
  match allocate_high B al with
  | Ok (pa, al') =>
      exists p, pa = Z.of_nat p * PAGE_SIZE /\ (p < page_count B)%nat /\
        pstate al p = Unused /\ allocated al p 1 al' /\
        forall q, (p < q < page_count B)%nat -> pstate al q <> Unused
  | Err e => e = Exhausted /\ forall q, (q < page_count B)%nat -> pstate al q <> Unused
  | Panic => False
  end.
Proof using HB.
  intros Hok. unfold allocate_high.
  assert (Hgen : forall n, (n <= page_count B)%nat ->
    (forall q, (n <= q < page_count B)%nat -> pstate al q <> Unused) ->
    match allocate_high_loop al n with
    | Ok (pa, al') =>
        exists p, pa = Z.of_nat p * PAGE_SIZE /\ (p < page_count B)%nat /\
          pstate al p = Unused /\ allocated al p 1 al' /\
          forall q, (p < q < page_count B)%nat -> pstate al q <> Unused
    | Err e => e = Exhausted /\ forall q, (q < page_count B)%nat -> pstate al q <> Unused
    | Panic => False
    end); [|apply Hgen; [lia|intros; lia]].
  induction n as [|n IH]; intros Hn Hq; simpl.
  { split; [done|]. intros q ?. apply Hq. lia. }
  rewrite is_free_spec by (done || lia). cbn [obind]. case_bool_decide as Hun.
  - destruct (mark_run_allocated (E:=AllocatorError) al n 1 Hok ltac:(lia)) as (b & Hb & Hal).
    { intros i Hi. by replace i with n by lia. }
    simpl in Hb. rewrite obind_ret_r in Hb. rewrite Hb. cbn [obind].
    exists n. split_and!; [done|lia|done|done|]. intros q ?. apply Hq. lia.
  - apply IH; [lia|]. intros q ?. destruct (decide (q = n)) as [->|]; [done|]. apply Hq. lia.
Qed.

(** ** Pages of a region *)

(** Page [j] lies entirely inside the region. *)
Definition page_inside (r : PhysRegion) (j : nat) : bool :=
  (rstart r <=? Z.of_nat j * PAGE_SIZE) && ((Z.of_nat j + 1) * PAGE_SIZE <=? rend r).

Lemma inner_bounds_spec r :
  region_ok r ->
  match inner_bounds r with
  | Ok (s, e) =>
      exists i k : nat, s = Z.of_nat i * PAGE_SIZE /\ e = Z.of_nat k * PAGE_SIZE /\
        (forall j : nat, (rstart r <=? Z.of_nat j * PAGE_SIZE) = (i <=? j)%nat) /\
        (forall j : nat, (Z.of_nat j * PAGE_SIZE <=? rend r) = (j <=? k)%nat)
  | Err e => e = AAddressOverflow /\ 2 ^ 64 <= rstart r + (PAGE_SIZE - 1)
  | Panic => False
  end.
Proof.
  intros Hr. assert (Hs : u64 (rstart r)) by (unfold u64; region).
  assert (He : u64 (rend r)) by (unfold u64; region). unfold inner_bounds.
  destruct (align_up (rstart r) PAGE_SIZE) as [s|] eqn:Hup; cbn [ok_or obind].
  2:{ split; [done|]. rewrite align_up_eq in Hup by (done || reflexivity).
      destruct (_ <? _) eqn:?; [done|]. by bool_prop. }
  apply align_up_least in Hup as (Hb & Hm & Hu & Hl); [|done|reflexivity].
  rewrite align_down_eq by (done || reflexivity). cbn [ok_or obind].
  set (e := rend r - rend r mod PAGE_SIZE).
  pose proof (sub_mod_le (rend r) PAGE_SIZE ltac:(done) ltac:(apply He)) as Hel. fold e in Hel.
  assert (Hem : e mod PAGE_SIZE = 0) by (by apply sub_mod_aligned).
  exists (Z.to_nat (s / PAGE_SIZE)), (Z.to_nat (e / PAGE_SIZE)).
  unfold u64 in *. rewrite Z.mod_eq in Hm, Hem by done. unfold PAGE_SIZE in *.
  pose proof (Z.div_pos s 0x1000 ltac:(lia) ltac:(lia)).
  pose proof (Z.div_pos e 0x1000 ltac:(lia) ltac:(lia)).
  split_and!; [lia|lia| |]; intros j.
  - destruct (Nat.leb_spec (Z.to_nat (s / 0x1000)) j); [apply Z.leb_le; lia|apply Z.leb_gt].
    destruct (Z.lt_ge_cases (Z.of_nat j * 0x1000) (rstart r)); [done|].
    pose proof (Hl (Z.of_nat j * 0x1000) ltac:(by rewrite Z.mod_mul) ltac:(lia)). lia.
  - destruct (Nat.leb_spec j (Z.to_nat (e / 0x1000))); [apply Z.leb_le; lia|apply Z.leb_gt].
    destruct (Z.lt_ge_cases (rend r) (Z.of_nat j * 0x1000)) as [|Hge]; [done|].
    pose proof (sub_mod_largest (rend r) 0x1000 (Z.of_nat j * 0x1000) ltac:(lia)
      ltac:(by rewrite Z.mod_mul) ltac:(lia)). lia.
Qed.

Lemma page_inside_bounds r i k j :
  (forall j : nat, (rstart r <=? Z.of_nat j * PAGE_SIZE) = (i <=? j)%nat) ->
  (forall j : nat, (Z.of_nat j * PAGE_SIZE <=? rend r) = (j <=? k)%nat) ->
  page_inside r j = ((i <=? j) && (j <? k))%nat.
Proof.
  intros H1 H2. unfold page_inside. rewrite H1. f_equal. specialize (H2 (j + 1)%nat).
  replace (Z.of_nat (j + 1)) with (Z.of_nat j + 1) in H2 by lia. rewrite H2.
  destruct (Nat.leb_spec (j + 1) k), (Nat.ltb_spec j k); done || lia.
Qed.

Lemma bitmap_index_page j :
  (j < page_count B)%nat -> bitmap_index B (Z.of_nat j * PAGE_SIZE) = Ok j.
Proof.
  intros Hj. unfold bitmap_index. rewrite Z.div_mul by done.
  rewrite (proj2 (Z.leb_gt _ _)) by lia. by rewrite Nat2Z.id.
Qed.

Lemma state_page al j :
  alloc_ok al -> (j < page_count B)%nat -> state B al (Z.of_nat j * PAGE_SIZE) = Ok (pstate al j).
Proof.
  intros [Hm Hu _] Hj. unfold state, pstate.
  rewrite (proj2 (is_page_aligned_iff _)) by (by rewrite Z.mod_mul). cbn [negb].
  rewrite bitmap_index_page by done. cbn [obind]. rewrite is_set_spec by done. cbn [obind].
  destruct (test (managed al) j); cbn [negb]; [|done].
  rewrite is_set_spec by done. done.
Qed.

(** Partial correctness of the page loops is total: the fuel is enough. *)
Lemma while_pages_inv {S R} (body : Z -> S -> outcome AllocatorError (S + R))
  (I : nat -> S -> Prop) (Q : R -> Prop) fuel i k st :
  (k <= page_count B)%nat -> (k - i < fuel)%nat -> I i st ->
  (forall j s, (i <= j < k)%nat -> I j s ->
     match body (Z.of_nat j * PAGE_SIZE) s with
     | Ok (inl s') => I (j + 1)%nat s'
     | Ok (inr r) => Q r
     | _ => False
     end) ->
  match while_pages fuel body (Z.of_nat i * PAGE_SIZE) (Z.of_nat k * PAGE_SIZE) st with
  | Ok (inl s') => I (Nat.max i k) s'
  | Ok (inr r) => Q r
  | _ => False
  end.
Proof using HB.
  intros Hk. revert i st. induction fuel as [|fuel IH]; intros i st Hf Hi Hb; [lia|].
  cbn [while_pages]. destruct (Z.ltb_spec (Z.of_nat i * PAGE_SIZE) (Z.of_nat k * PAGE_SIZE)) as [Hlt|Hge].
  2:{ replace (Nat.max i k) with i by (unfold PAGE_SIZE in *; lia). done. }
  assert (i < k)%nat by (unfold PAGE_SIZE in *; lia).
  pose proof (Hb i st ltac:(lia) Hi) as H1.
  destruct (body _ st) as [[st'|r]| |]; cbn [obind]; try done.
  rewrite (proj2 (checked_add_Some _ _ (Z.of_nat (i + 1) * PAGE_SIZE))).
  2:{ clear -HB H Hk. unfold aperture_end, PAGE_SIZE in *. lia. }
  cbn [ok_or obind]. replace (Nat.max i k) with (Nat.max (i + 1) k) by lia.
  apply IH; [lia|done|]. intros j s Hj. apply Hb. lia.
Qed.

Lemma min_aperture k :
  Z.min (Z.of_nat k * PAGE_SIZE) (aperture_end B) = Z.of_nat (Nat.min k (page_count B)) * PAGE_SIZE.
Proof. unfold aperture_end, PAGE_SIZE. lia. Qed.

End Invariant.

(** ** Freeing, releasing and allocating inside a region *)

Section Operations.
Context (B : nat) (HB : aperture_end B < 2 ^ 64).
Implicit Types (al : PageAllocator).
Notation ok := (alloc_ok B).

Lemma set_in_use_page {E} al j v :
  ok al -> (j < page_count B)%nat -> test (managed al) j = true ->
  exists b, set_bit (E:=E) (in_use al) j v = Ok b /\ ok (with_in_use al b) /\
    forall i, pstate (with_in_use al b) i =
      if (i =? j)%nat then (if v then InUse else Unused) else pstate al i.
Proof using HB.
  intros Hok Hj Hm. destruct (set_bit_spec B HB (E:=E) (in_use al) j v (al_in_use _ _ Hok) Hj)
    as (b & -> & Hb & Ht).
  exists b. split; [done|]. apply (with_in_use_ok B al b (fun i => (i =? j)%nat) v); try done.
  intros i Hi. bool_prop. by subst.
Qed.

(** The state and [free] of an address in each of the cases of the code. *)
Lemma state_cases al page :
  ok al -> u64 page ->
  state B al page =
    if negb (is_page_aligned page) then Err UnalignedPage
    else if aperture_end B <=? page then Err PhysicalAddressOutOfRange
    else Ok (pstate al (Z.to_nat (page / PAGE_SIZE))).
Proof.
  intros Hok Hu. destruct (is_page_aligned page) eqn:Ha; cbn [negb].
  2:{ unfold state. by rewrite Ha. }
  apply is_page_aligned_iff in Ha. rewrite Z.mod_eq in Ha by done.
  assert (Hd : 0 <= page / PAGE_SIZE) by (apply Z.div_pos; [apply Hu | done]).
  destruct (Z.leb_spec (aperture_end B) page) as [Hge|Hlt].
  - unfold state. rewrite (proj2 (is_page_aligned_iff _)) by (rewrite Z.mod_eq by done; done).
    cbn [negb]. unfold bitmap_index. rewrite (proj2 (Z.leb_le _ _)); [done|].
    unfold aperture_end, PAGE_SIZE in *. lia.
  - replace page with (Z.of_nat (Z.to_nat (page / PAGE_SIZE)) * PAGE_SIZE) at 1
      by (unfold PAGE_SIZE in *; lia).
    apply state_page; [done..|]. unfold aperture_end, PAGE_SIZE in *. lia.
Qed.

(** [free_spec]: [free] rejects unaligned, out-of-range, reserved and already
    free pages with the matching error, and otherwise turns exactly that page
    from in use to unused. *)
Lemma free_spec al page :
  ok al -> u64 page ->
  match free B al page with
  | Ok al' =>
      exists p, page = Z.of_nat p * PAGE_SIZE /\ (p < page_count B)%nat /\
        pstate al p = InUse /\ ok al' /\ ram_pages al' = ram_pages al /\
        forall i, pstate al' i = if (i =? p)%nat then Unused else pstate al i
  | Err UnalignedPage => page mod PAGE_SIZE <> 0
  | Err PhysicalAddressOutOfRange => aperture_end B <= page
  | Err ReservedPage => pstate al (Z.to_nat (page / PAGE_SIZE)) = Reserved
  | Err DoubleFree => pstate al (Z.to_nat (page / PAGE_SIZE)) = Unused
  | _ => False
  end.
Proof using HB.
  intros Hok Hu. unfold free. rewrite state_cases by done.
  destruct (is_page_aligned page) eqn:Ha; cbn [negb obind].
  2:{ rewrite is_page_aligned_mod in Ha. by bool_prop. }
  apply is_page_aligned_iff in Ha. rewrite Z.mod_eq in Ha by done.
  destruct (Z.leb_spec (aperture_end B) page) as [|Hlt]; [done|]. cbn [obind].
  set (p := Z.to_nat (page / PAGE_SIZE)).
  assert (Hd : 0 <= page / PAGE_SIZE) by (apply Z.div_pos; [apply Hu | done]).
  assert (Hp : page = Z.of_nat p * PAGE_SIZE) by (unfold p, PAGE_SIZE in *; lia).
  assert (Hlp : (p < page_count B)%nat) by (unfold aperture_end, PAGE_SIZE in *; lia).
  destruct (pstate al p) eqn:Hst; [done| |done].
  rewrite Hp, bitmap_index_page by done. cbn [obind].
  destruct (set_in_use_page (E:=AllocatorError) al p false Hok Hlp) as (b & -> & Hb & Ht).
  { apply pstate_managed. by rewrite Hst. }
  cbn [obind]. exists p. done.
Qed.

Lemma release_body_spec al n j :
  ok al -> (j < page_count B)%nat ->
  exists al', release_body B (Z.of_nat j * PAGE_SIZE) (al, n) =
      Ok (inl (al', n + Z.b2z (bool_decide (pstate al j = InUse)))) /\
    ok al' /\ ram_pages al' = ram_pages al /\
    forall i, pstate al' i =
      if (i =? j)%nat && bool_decide (pstate al j = InUse) then Unused else pstate al i.
Proof using HB.
  intros Hok Hj. unfold release_body. rewrite bitmap_index_page by done. cbn [obind].
  rewrite (is_set_spec B) by (done || apply Hok). cbn [obind].
  assert (Hu : (if test (managed al) j then is_set (in_use al) j else Ok false) =
    Ok (bool_decide (pstate al j = InUse)) :> outcome AllocatorError bool).
  { unfold pstate. destruct (test (managed al) j); [|done].
    rewrite (is_set_spec B) by (done || apply Hok). by destruct (test (in_use al) j). }
  rewrite Hu. cbn [obind]. case_bool_decide as Hst; simpl Z.b2z.
  - destruct (set_in_use_page (E:=AllocatorError) al j false Hok Hj) as (b & -> & Hb & Ht).
    { apply pstate_managed. by rewrite Hst. }
    cbn [obind]. eexists. split_and!; [done..|]. intros i. by rewrite Ht, andb_true_r.
  - exists al. rewrite Z.add_0_r. split_and!; [done..|]. intros i. by rewrite andb_false_r.
Qed.

(** Pages [i .. m) that were in use before the loop over them. *)
Definition hit al (i m j : nat) : bool :=
  ((i <=? j) && (j <? m))%nat && bool_decide (pstate al j = InUse).

Lemma hit_empty al i j : hit al i i j = false.
Proof. unfold hit. destruct (Nat.leb_spec i j), (Nat.ltb_spec j i); simpl; done || lia. Qed.

Lemma hit_self al i j : hit al i j j = false.
Proof. unfold hit. by rewrite Nat.ltb_irrefl, andb_false_r. Qed.

Lemma hit_step al i j x :
  (i <= j)%nat ->
  hit al i (j + 1) x = if (x =? j)%nat then bool_decide (pstate al j = InUse) else hit al i j x.
Proof.
  intros Hj. unfold hit. destruct (Nat.eqb_spec x j) as [->|].
  - by rewrite (proj2 (Nat.leb_le i j)), (proj2 (Nat.ltb_lt j (j + 1))) by lia.
  - destruct (Nat.ltb_spec x (j + 1)), (Nat.ltb_spec x j); done || lia.
Qed.

Definition release_inv al (i j : nat) (st : PageAllocator * Z) : Prop :=
  st.2 = countb (hit al i j) (page_count B) /\ ok st.1 /\ ram_pages st.1 = ram_pages al /\
  forall x, pstate st.1 x = if hit al i j x then Unused else pstate al x.

Lemma release_inv_init al i : ok al -> release_inv al i i (al, 0).
Proof.
  intros Hok. split_and!; [|done..|]; simpl.
  - rewrite (countb_ext _ (fun _ => false)) by (intros; apply hit_empty).
    by rewrite countb_false.
  - intros x. by rewrite hit_empty.
Qed.

Lemma release_inv_step al i j st :
  (i <= j)%nat -> (j < page_count B)%nat -> release_inv al i j st ->
  match release_body B (Z.of_nat j * PAGE_SIZE) st with
  | Ok (inl st') => release_inv al i (j + 1) st'
  | _ => False
  end.
Proof using HB.
  destruct st as [al1 n1]. intros Hij Hj (Hn & Hok1 & Hram1 & Hst1). cbn [fst snd] in *.
  destruct (release_body_spec al1 n1 j Hok1 Hj) as (al2 & -> & Hok2 & Hram2 & Hst2).
  assert (Hj1 : pstate al1 j = pstate al j) by (by rewrite Hst1, hit_self).
  rewrite Hj1 in *. split_and!; simpl; [|done|congruence|].
  - rewrite (countb_ext _ _ _ (fun x _ => hit_step al i j x Hij)), countb_update by lia.
    rewrite hit_self, Hn. simpl. lia.
  - intros x. rewrite Hst2, Hst1, hit_step by done.
    destruct (Nat.eqb_spec x j) as [->|]; [|done]. simpl. rewrite hit_self. done.
Qed.

Lemma release_effect al r :
  ok al -> region_ok r ->
  match release B al r with
  | Ok (n, al') =>
      n = countb (fun i => page_inside r i && bool_decide (pstate al i = InUse)) (page_count B) /\
      ok al' /\ ram_pages al' = ram_pages al /\
      forall i, (i < page_count B)%nat ->
        pstate al' i =
          if page_inside r i && bool_decide (pstate al i = InUse) then Unused else pstate al i
  | Err e => e = AAddressOverflow /\ 2 ^ 64 <= rstart r + (PAGE_SIZE - 1)
  | Panic => False
  end.
Proof using HB.
  intros Hok Hr. unfold release. pose proof (inner_bounds_spec r Hr) as Hib.
  destruct (inner_bounds r) as [[s e]| |]; cbn [obind]; [|done..].
  destruct Hib as (i & k & -> & -> & Hlo & Hhi). cbn [fst snd].
  pose proof (fun j => page_inside_bounds r i k j Hlo Hhi) as Hin. rewrite min_aperture.
  set (k' := Nat.min k (page_count B)).
  pose proof (while_pages_inv B HB (release_body B) (release_inv al i) (fun _ => False)
    (S (page_count B)) i k' (al, 0) ltac:(lia) ltac:(lia) (release_inv_init al i Hok)) as Hw.
  discharge Hw.
  { intros j st Hj Hinv. pose proof (release_inv_step al i j st ltac:(lia) ltac:(lia) Hinv).
    by destruct (release_body _ _ _) as [[|]| |]. }
  destruct (while_pages _ _ _ _ _) as [[[al' n]|[]]| |]; [|done..]. cbn [obind].
  destruct Hw as (Hn & Hok' & Hram & Hst). simpl in *.
  assert (Hhit : forall x, (x < page_count B)%nat ->
    hit al i (Nat.max i k') x = page_inside r x && bool_decide (pstate al x = InUse)).
  { intros x Hx. unfold hit. rewrite Hin.
    destruct (Nat.leb_spec i x), (Nat.ltb_spec x (Nat.max i k')), (Nat.ltb_spec x k); simpl; done || lia. }
  split_and!; [|done|done|].
  - rewrite Hn. by apply countb_ext.
  - intros x Hx. by rewrite Hst, Hhit.
Qed.

(** [release_spec]: releasing a region turns every in-use page that lies
    entirely inside it into an unused page, changes no other page, and
    returns the number of pages it turned. *)
Lemma release_spec al r :
  ok al -> region_ok r ->
  match release B al r with
  | Ok (n, al') =>
      n = countb (fun i => page_inside r i && bool_decide (pstate al i = InUse)) (page_count B) /\
      ok al' /\ ram_pages al' = ram_pages al /\
      forall i, (i < page_count B)%nat ->
        pstate al' i =
          if page_inside r i && bool_decide (pstate al i = InUse) then Unused else pstate al i
  | Err e => e = AAddressOverflow /\ 2 ^ 64 <= rstart r + (PAGE_SIZE - 1)
  | Panic => False
  end.
Proof using HB. apply release_effect. Qed.

Lemma allocate_in_body_spec al j :
  ok al -> (j < page_count B)%nat ->
  match allocate_in_body B (Z.of_nat j * PAGE_SIZE) al with
  | Ok (inl al') => al' = al /\ pstate al j <> Unused
  | Ok (inr (pa, al')) => pa = Z.of_nat j * PAGE_SIZE /\ pstate al j = Unused /\ allocated B al j 1 al'
  | _ => False
  end.
Proof using HB.
  intros Hok Hj. unfold allocate_in_body. rewrite state_page by done. cbn [obind].
  case_decide as Hun; [|done]. rewrite bitmap_index_page by done. cbn [obind].
  destruct (mark_run_allocated B HB (E:=AllocatorError) al j 1 Hok ltac:(lia)) as (b & Hb & Hal).
  { intros i Hi. by replace i with j by lia. }
  simpl in Hb. rewrite obind_ret_r in Hb. by rewrite Hb.
Qed.

(** [allocate_in_lowest]: an allocation restricted to a region returns the lowest
    unused page lying entirely inside it and inside the aperture, or reports
    [Exhausted] when there is none. *)
Lemma allocate_in_lowest al r :
  ok al -> region_ok r ->
  match allocate_in B al r with
  | Ok (pa, al') =>
      exists p, pa = Z.of_nat p * PAGE_SIZE /\ (p < page_count B)%nat /\
        page_inside r p = true /\ pstate al p = Unused /\ allocated B al p 1 al' /\
        forall q, (q < p)%nat -> page_inside r q = true -> pstate al q <> Unused
  | Err Exhausted =>
      forall q, (q < page_count B)%nat -> page_inside r q = true -> pstate al q <> Unused
  | Err e => e = AAddressOverflow /\ 2 ^ 64 <= rstart r + (PAGE_SIZE - 1)
  | Panic => False
  end.
Proof using HB.
  intros Hok Hr. unfold allocate_in. pose proof (inner_bounds_spec r Hr) as Hib.
  destruct (inner_bounds r) as [[s e]|e|]; cbn [obind]; [|by destruct Hib as [-> ?]|done].
  destruct Hib as (i & k & -> & -> & Hlo & Hhi). cbn [fst snd].
  pose proof (fun j => page_inside_bounds r i k j Hlo Hhi) as Hin. rewrite min_aperture.
  set (k' := Nat.min k (page_count B)).
  pose proof (while_pages_inv B HB (allocate_in_body B)
    (fun j a => a = al /\ forall q, (i <= q < j)%nat -> pstate al q <> Unused)
    (fun '(pa, al') => exists p, pa = Z.of_nat p * PAGE_SIZE /\ (i <= p < k')%nat /\
       pstate al p = Unused /\ allocated B al p 1 al' /\
       forall q, (i <= q < p)%nat -> pstate al q <> Unused)
    (S (page_count B)) i k' al ltac:(lia) ltac:(lia)) as Hw.
  discharge Hw; [split; [done|intros; lia]|]. discharge Hw.
  { intros j a Hj [-> Hq]. pose proof (allocate_in_body_spec al j Hok ltac:(lia)) as Hb.
    destruct (allocate_in_body _ _ _) as [[a'|[pa a']]| |]; [|naive_solver|done..].
    destruct Hb as [-> Hb]. split; [done|]. intros q ?.
    destruct (decide (q = j)) as [->|]; [done|]. apply Hq. lia. }
  destruct (while_pages _ _ _ _ _) as [[a|[pa a]]| |]; [| |done..]; cbn [obind].
  - destruct Hw as [_ Hw]. intros q Hq Hqi. apply Hw. rewrite Hin in Hqi. bool_prop. lia.
  - destruct Hw as (p & -> & Hp & Hun & Hal & Hlow). exists p.
    split_and!; [done|lia| |done|done|].
    + rewrite Hin. apply andb_true_iff. split; [apply Nat.leb_le|apply Nat.ltb_lt]; lia.
    + intros q Hq Hqi. apply Hlow. rewrite Hin in Hqi. bool_prop. lia.
Qed.

End Operations.

(** ** Construction *)

Section Construction.
Context (B : nat) (HB : aperture_end B < 2 ^ 64).
Implicit Types (al : PageAllocator).
Notation ok := (alloc_ok B).

Lemma with_managed_ok al b :
  ok al -> bm_ok B b -> (forall j, test (managed al) j = true -> test b j = true) ->
  ok (with_managed al b).
Proof. intros [Hm Hu Hs] Hb Ht. split; simpl; auto. Qed.

Lemma mark_managed_spec al r :
  ok al -> region_ok r ->
  match mark_managed B al r with
  | Ok al' =>
      ok al' /\ ram_pages al' = ram_pages al /\ in_use al' = in_use al /\
      forall j, (j < page_count B)%nat ->
        test (managed al') j = (page_inside r j || test (managed al) j)
  | Err e => e = PhysicalAddressOutOfRange \/ e = AAddressOverflow
  | Panic => False
  end.
Proof using HB.
  intros Hok Hr. unfold mark_managed. pose proof (inner_bounds_spec r Hr) as Hib.
  destruct (inner_bounds r) as [[s e]| |]; cbn [obind]; [|destruct Hib; by right|done].
  destruct Hib as (i & k & -> & -> & Hlo & Hhi). cbn [fst snd].
  pose proof (fun j => page_inside_bounds r i k j Hlo Hhi) as Hin.
  destruct (Z.ltb_spec (aperture_end B) (Z.of_nat k * PAGE_SIZE)) as [|Hle]; [by left|].
  assert (Hk : (k <= page_count B)%nat) by (unfold aperture_end, PAGE_SIZE in *; lia).
  pose proof (while_pages_inv B HB (mark_managed_body B)
    (fun m al' => ok al' /\ ram_pages al' = ram_pages al /\ in_use al' = in_use al /\
       forall j, test (managed al') j = (((i <=? j) && (j <? m))%nat || test (managed al) j))
    (fun _ => False) (S (page_count B)) i k al Hk ltac:(lia)) as Hw.
  discharge Hw.
  { split_and!; [done..|]. intros j.
    destruct (Nat.leb_spec i j), (Nat.ltb_spec j i); simpl; done || lia. }
  discharge Hw.
  { intros j a Hj (Hoka & Hram & Hin_use & Ht). unfold mark_managed_body.
    rewrite bitmap_index_page by (done || lia). cbn [obind].
    destruct (set_bit_spec B HB (E:=AllocatorError) (managed a) j true (al_managed _ _ Hoka) ltac:(lia))
      as (b & -> & Hb & Htb). cbn [obind]. split_and!; [|done..|].
    - apply with_managed_ok; [done..|]. intros x Hx. rewrite Htb. by destruct (_ =? _)%nat.
    - intros x. simpl. rewrite Htb, Ht. destruct (Nat.eqb_spec x j), (Nat.leb_spec i x),
        (Nat.ltb_spec x j), (Nat.ltb_spec x (j + 1)); simpl; done || lia. }
  destruct (while_pages _ _ _ _ _) as [[a|[]]| |]; [|done..]. cbn [obind].
  destruct Hw as (? & ? & ? & Ht). split_and!; [done..|]. intros j _. rewrite Ht, Hin.
  destruct (Nat.leb_spec i j), (Nat.ltb_spec j (Nat.max i k)), (Nat.ltb_spec j k); simpl; done || lia.
Qed.

(** A page is managed when some region of the list contains it. *)
Definition inside_any (rs : list PhysRegion) (j : nat) : bool :=
  existsb (fun r => page_inside r j) rs.

Lemma mark_all_regions_spec al rs :
  ok al -> Forall region_ok rs ->
  match for_regions (mark_managed B) rs al with
  | Ok al' =>
      ok al' /\ ram_pages al' = ram_pages al /\ in_use al' = in_use al /\
      forall j, (j < page_count B)%nat ->
        test (managed al') j = (inside_any rs j || test (managed al) j)
  | Err e => e = PhysicalAddressOutOfRange \/ e = AAddressOverflow
  | Panic => False
  end.
Proof using HB.
  intros Hok Hrs. revert al Hok. induction Hrs as [|r rs Hr Hrs IH]; intros al Hok; simpl; [done|].
  pose proof (mark_managed_spec al r Hok Hr) as Hm.
  destruct (mark_managed B al r) as [a| |]; cbn [obind]; [|done..].
  destruct Hm as (Hoka & Hram & Hin & Ht). specialize (IH a Hoka).
  destruct (for_regions _ rs a); [|done..]. destruct IH as (? & ? & ? & Ht').
  split_and!; [done|congruence..|]. intros j Hj. rewrite Ht', Ht by done. btauto.
Qed.

Lemma mark_in_use_loop_spec {E} al n index :
  ok al -> (index + n <= page_count B)%nat ->
  exists al', mark_in_use_loop (E:=E) al n index = Ok al' /\ ok al' /\
    managed al' = managed al /\ ram_pages al' = ram_pages al /\
    forall j, test (in_use al') j =
      (test (in_use al) j || (((index <=? j) && (j <? index + n))%nat && test (managed al) j)).
Proof using HB.
  revert al index. induction n as [|n IH]; intros al index Hok Hn; simpl.
  { exists al. split_and!; [done..|]. intros j.
    destruct (Nat.leb_spec index j), (Nat.ltb_spec j (index + 0)); simpl; rewrite ?orb_false_r; done || lia. }
  rewrite (is_set_spec B) by (apply Hok || lia). cbn [obind].
  assert (Hcond : forall j, j <> index -> ((S index <=? j) && (j <? S index + n))%nat =
    ((index <=? j) && (j <? index + S n))%nat).
  { intros j Hj. destruct (Nat.leb_spec (S index) j), (Nat.leb_spec index j),
      (Nat.ltb_spec j (S index + n)), (Nat.ltb_spec j (index + S n)); simpl; done || lia. }
  destruct (test (managed al) index) eqn:Em.
  - destruct (set_in_use_page B HB (E:=E) al index true Hok ltac:(lia) Em) as (b & Hb & Hokb & _).
    destruct (set_bit_spec B HB (E:=E) (in_use al) index true (al_in_use _ _ Hok) ltac:(lia))
      as (b' & Hb' & _ & Htb). rewrite Hb in Hb'. injection Hb' as <-. rewrite Hb. cbn [obind].
    destruct (IH (with_in_use al b) (S index) Hokb ltac:(lia)) as (al' & -> & Hok' & Hm & Hr & Ht).
    exists al'. split_and!; [done..|]. intros j. rewrite Ht. cbn [in_use managed with_in_use]. rewrite Htb.
    destruct (Nat.eqb_spec j index) as [->|Hne]; [|by rewrite Hcond].
    rewrite Em. destruct (Nat.leb_spec index index), (Nat.ltb_spec index (index + S n)); lia.
  - destruct (IH al (S index) Hok ltac:(lia)) as (al' & -> & Hok' & Hm & Hr & Ht).
    exists al'. split_and!; [done..|]. intros j. rewrite Ht.
    destruct (Nat.eqb_spec j index) as [->|Hne]; [|by rewrite Hcond].
    by rewrite Em, !andb_false_r.
Qed.

Lemma release_all_spec al rs :
  ok al -> Forall region_ok rs ->
  match for_regions (fun a r => let? x := release B a r in Ok x.2) rs al with
  | Ok al' =>
      ok al' /\ ram_pages al' = ram_pages al /\
      forall j, (j < page_count B)%nat ->
        pstate al' j =
          if inside_any rs j && bool_decide (pstate al j = InUse) then Unused else pstate al j
  | Err e => e = AAddressOverflow
  | Panic => False
  end.
Proof using HB.
  intros Hok Hrs. revert al Hok. induction Hrs as [|r rs Hr Hrs IH]; intros al Hok; simpl; [done|].
  pose proof (release_effect B HB al r Hok Hr) as Hm.
  destruct (release B al r) as [[n a]| |]; cbn [obind snd]; [|by destruct Hm|done].
  destruct Hm as (_ & Hoka & Hram & Ht). specialize (IH a Hoka).
  destruct (for_regions _ rs a); [|done..]. destruct IH as (? & ? & Ht').
  split_and!; [done|congruence|]. intros j Hj. rewrite Ht', Ht by done.
  change (inside_any (r :: rs) j) with (page_inside r j || inside_any rs j).
  destruct (page_inside r j), (inside_any rs j); simpl; by destruct (pstate al j).
Qed.

(** ** Counting pages *)

(** No page boundary in [start, end]: the region lies strictly inside a page. *)
Definition within_page (r : PhysRegion) : Prop :=
  forall j : nat, ~ (rstart r <= Z.of_nat j * PAGE_SIZE <= rend r).

Lemma count_pages_loop_cases rs n :
  Forall region_ok rs -> 0 <= n ->
  match count_pages_loop rs n with
  | Ok m => n <= m
  | Err e => e = PhysicalAddressOutOfRange \/ e = AAddressOverflow
  | Panic => exists r, r ∈ rs /\ within_page r
  end.
Proof.
  clear B HB. intros Hrs. revert n. induction Hrs as [|r rs Hr Hrs IH]; intros n Hn; simpl; [lia|].
  pose proof (inner_bounds_spec r Hr) as Hib.
  destruct (inner_bounds r) as [[s e]| |]; cbn [obind]; [|destruct Hib; by right|done].
  destruct Hib as (i & k & -> & -> & Hlo & Hhi). cbn [fst snd].
  destruct (_ <? _); [by left|].
  destruct (Z.le_gt_cases (Z.of_nat i * PAGE_SIZE) (Z.of_nat k * PAGE_SIZE)) as [Hle|Hgt].
  - rewrite sub64_ok by done. cbn [obind].
    destruct (checked_add _ _) eqn:Hadd; cbn [ok_or obind]; [|by right].
    apply checked_add_Some in Hadd as [-> _].
    assert (0 <= (Z.of_nat k * PAGE_SIZE - Z.of_nat i * PAGE_SIZE) / PAGE_SIZE)
      by (apply Z.div_pos; [lia | done]).
    specialize (IH (n + (Z.of_nat k * PAGE_SIZE - Z.of_nat i * PAGE_SIZE) / PAGE_SIZE) ltac:(lia)).
    destruct (count_pages_loop _ _); [lia|done|]. set_solver.
  - rewrite sub64_panic by lia. cbn [obind]. exists r. split; [set_solver|].
    intros j [Hj1 Hj2]. apply Z.leb_le in Hj1, Hj2. rewrite Hlo in Hj1. rewrite Hhi in Hj2.
    bool_prop. unfold PAGE_SIZE in *. lia.
Qed.

End Construction.

(** ** The whole component *)

Section Component.
Context (B : nat) (HB : aperture_end B < 2 ^ 64).
Implicit Types (al : PageAllocator).
Notation ok := (alloc_ok B).

(** The state [new] gives page [j]. *)
Definition initial_state (allocatable unused : list PhysRegion) (j : nat) : PageState :=
  if inside_any allocatable j then (if inside_any unused j then Unused else InUse) else Reserved.

Lemma PageAllocator_new_effect R A U ram rams allocatable manages unused frees m0 u0 :
  (0 < B)%nat -> length (bits m0) = B -> length (bits u0) = B ->
  fl_rep R ram rams -> fl_rep A allocatable manages -> fl_rep U unused frees ->
  Forall region_ok rams -> Forall region_ok manages -> Forall region_ok frees ->
  match PageAllocator_new B ram allocatable unused m0 u0 with
  | Ok al =>
      ok al /\ count_pages_loop rams 0 = Ok (ram_pages al) /\
      forall j, (j < page_count B)%nat -> pstate al j = initial_state manages frees j
  | Err e => e = PhysicalAddressOutOfRange \/ e = AAddressOverflow
  | Panic => exists r, r ∈ rams /\ within_page r
  end.
Proof using HB.
  intros HB0 Hm0 Hu0 Hram Hal Hun Hrams Hmans Hfrees. unfold PageAllocator_new, validate_bitmaps.
  rewrite (proj2 (Nat.eqb_neq B 0)) by lia. cbn [obind].
  unfold count_pages. rewrite (iter_refines _ _ _ Hram). cbn [obind].
  pose proof (count_pages_loop_cases rams 0 Hrams ltac:(lia)) as Hc.
  destruct (count_pages_loop rams 0) as [n| |]; cbn [obind]; [|done..]. clear Hc.
  rewrite (iter_refines _ _ _ Hal). cbn [obind].
  destruct (clear_ok B m0 Hm0) as [Hcm Htm], (clear_ok B u0 Hu0) as [Hcu Htu].
  set (a0 := mkAllocator (PageBitmap_clear m0) (PageBitmap_clear u0) n).
  assert (H0 : ok a0) by (split; [done..|]; simpl; intros i; by rewrite Htu).
  pose proof (mark_all_regions_spec B HB a0 manages H0 Hmans) as H1.
  destruct (for_regions (mark_managed B) manages a0) as [a1| |]; cbn [obind]; [|done..].
  destruct H1 as (Hok1 & Hr1 & Hu1 & Ht1).
  destruct (mark_in_use_loop_spec B HB (E:=AllocatorError) a1 (page_count B) 0 Hok1 ltac:(lia))
    as (a2 & H2 & Hok2 & Hm2 & Hr2 & Ht2).
  unfold mark_all_managed_in_use. rewrite H2. cbn [obind].
  rewrite (iter_refines _ _ _ Hun). cbn [obind].
  pose proof (release_all_spec B HB a2 frees Hok2 Hfrees) as H3.
  destruct (for_regions _ frees a2) as [a3| |]; [|by right|done].
  destruct H3 as (Hok3 & Hr3 & Ht3). split; [done|]. split; [by rewrite Hr3, Hr2, Hr1|]. intros j Hj. rewrite Ht3 by done.
  assert (Hst : pstate a2 j = if inside_any manages j then InUse else Reserved).
  { unfold pstate. rewrite Ht2, Hm2, Ht1, Hu1 by done. simpl. rewrite Htm, Htu, orb_false_r.
    rewrite (proj2 (Nat.ltb_lt j _)) by done. by destruct (inside_any manages j). }
  rewrite Hst. unfold initial_state.
  by destruct (inside_any manages j), (inside_any frees j).
Qed.

(** [PageAllocator_new_spec]: on zero or dirty bitmaps of the right length, construction
    yields an allocator that satisfies its invariant and whose page states
    are determined by the region lists: managed exactly inside the allocatable
    regions, unused exactly where an initially unused region also contains the
    page. The only panic is a RAM region that contains no page boundary. *)
Lemma PageAllocator_new_spec R A U ram rams allocatable manages unused frees m0 u0 :
  (0 < B)%nat -> length (bits m0) = B -> length (bits u0) = B ->
  fl_rep R ram rams -> fl_rep A allocatable manages -> fl_rep U unused frees ->
  Forall region_ok rams -> Forall region_ok manages -> Forall region_ok frees ->
  match PageAllocator_new B ram allocatable unused m0 u0 with
  | Ok al =>
      ok al /\
      forall j, (j < page_count B)%nat -> pstate al j = initial_state manages frees j
  | Err e => e = PhysicalAddressOutOfRange \/ e = AAddressOverflow
  | Panic => exists r, r ∈ rams /\ within_page r
  end.
Proof using HB.
  intros HB0 Hm0 Hu0 Hram Hal Hun Hrams Hmans Hfrees.
  pose proof (PageAllocator_new_effect R A U ram rams allocatable manages unused frees m0 u0
    HB0 Hm0 Hu0 Hram Hal Hun Hrams Hmans Hfrees) as H.
  destruct (PageAllocator_new B ram allocatable unused m0 u0); [|done..]. by destruct H as (? & _ & ?).
Qed.

(** [stats_spec]: the cached counters are the numbers of pages in each state; the
    four numbers add up and the subtractions do not underflow. *)
Lemma stats_spec (E : Type) al :
  ok al -> set_pages (managed al) <= ram_pages al ->
  exists st, stats (E:=E) al = Ok st /\
    st_ram_pages st = ram_pages al /\
    st_in_use_pages st = countb (fun i => bool_decide (pstate al i = InUse)) (page_count B) /\
    st_unused_pages st = countb (fun i => bool_decide (pstate al i = Unused)) (page_count B) /\
    st_reserved_pages st + st_in_use_pages st + st_unused_pages st = st_ram_pages st.
Proof.
  intros [Hm Hu Hs] Hram. unfold stats. rewrite sub64_ok by done. cbn [obind].
  rewrite (bm_count _ _ Hm), (bm_count _ _ Hu) in *.
  pose proof (countb_mono (test (in_use al)) (test (managed al)) (page_count B) Hs) as Hmono.
  rewrite sub64_ok by done. cbn [obind]. eexists. split; [done|]. simpl.
  assert (Hin : countb (fun i => bool_decide (pstate al i = InUse)) (page_count B) =
                countb (test (in_use al)) (page_count B)).
  { apply countb_ext. intros i _. unfold pstate. pose proof (Hs i).
    destruct (test (managed al) i), (test (in_use al) i); naive_solver. }
  split_and!; [done|done| |lia].
  clear Hmono Hin Hram Hm Hu. induction (page_count B) as [|n IH]; cbn [countb]; [done|].
  rewrite <- IH. unfold pstate. pose proof (Hs n).
  destruct (test (managed al) n), (test (in_use al) n); simpl; naive_solver lia.
Qed.

(** Bitmaps with the same bits are the same bitmap. *)
Lemma bm_ext b1 b2 : bm_ok B b1 -> bm_ok B b2 -> (forall i, test b1 i = test b2 i) -> b1 = b2.
Proof.
  intros [L1 U1 C1] [L2 U2 C2] Ht.
  assert (Hb : bits b1 = bits b2).
  { apply list_eq_same_length with B; [done|lia|]. intros i x y Hi Hx Hy.
    rewrite Forall_lookup in U1, U2. pose proof (U1 _ _ Hx) as Ux. pose proof (U2 _ _ Hy) as Uy.
    apply Z.bits_inj'. intros k Hk. destruct (Z.lt_ge_cases k 8) as [Hk8|Hk8].
    - specialize (Ht (i * 8 + Z.to_nat k)%nat). unfold test, testl in Ht.
      rewrite Nat.div_add_l, Nat.div_small, Nat.add_0_r, Hx, Hy in Ht by lia.
      rewrite Nat.add_comm, Nat.Div0.mod_add, Nat.mod_small, Z2Nat.id in Ht by lia. done.
    - rewrite !(testbit_bounded _ 8) by (done || lia). done. }
  assert (Hc : set_pages b1 = set_pages b2).
  { rewrite C1, C2. apply countb_ext. intros. apply Ht. }
  destruct b1, b2. simpl in *. by subst.
Qed.

Lemma alloc_ext a1 a2 :
  ok a1 -> ok a2 -> managed a1 = managed a2 -> ram_pages a1 = ram_pages a2 ->
  (forall i, pstate a1 i = pstate a2 i) -> a1 = a2.
Proof.
  intros [M1 U1 S1] [M2 U2 S2] Hm Hr Hp.
  assert (in_use a1 = in_use a2) as Hu.
  { apply bm_ext; [done..|]. intros i. specialize (Hp i). specialize (S1 i). specialize (S2 i).
    unfold pstate in Hp. rewrite Hm in *.
    destruct (test (managed a2) i), (test (in_use a1) i), (test (in_use a2) i);
      simpl in *; naive_solver. }
  destruct a1, a2. simpl in *. by subst.
Qed.

(** [free] of a page in use. *)
Lemma free_in_use al p :
  ok al -> (p < page_count B)%nat -> pstate al p = InUse ->
  exists al', free B al (Z.of_nat p * PAGE_SIZE) = Ok al' /\ ok al' /\
    managed al' = managed al /\ ram_pages al' = ram_pages al /\
    forall i, pstate al' i = if (i =? p)%nat then Unused else pstate al i.
Proof using HB.
  intros Hok Hp Hsp. unfold free. rewrite state_page by (done || lia). cbn [obind]. rewrite Hsp.
  rewrite bitmap_index_page by (done || lia). cbn [obind].
  destruct (set_in_use_page B HB (E:=AllocatorError) al p false Hok Hp) as (b & -> & Hb & Ht).
  { apply pstate_managed. by rewrite Hsp. }
  cbn [obind]. eauto 10.
Qed.

(** [allocate_free_roundtrip]: freeing a freshly allocated page restores the
    allocator, bit for bit. *)
Lemma allocate_free_roundtrip al pa al1 :
  ok al -> allocate B al = Ok (pa, al1) -> free B al1 pa = Ok al.
Proof using HB.
  intros Hok Ha. pose proof (allocate_contiguous_post B HB al 1 Hok ltac:(lia)) as Hp.
  unfold allocate in Ha. rewrite Ha in Hp.
  destruct Hp as (p & -> & Hp & Hun & _ & Hok1 & Hr & Hst).
  assert (Hsp : pstate al1 p = InUse).
  { rewrite Hst. destruct (Nat.leb_spec p p), (Nat.ltb_spec p (p + 1)); done || lia. }
  destruct (free_in_use al1 p Hok1 ltac:(lia) Hsp) as (al' & -> & Hb & Hm & Hr' & Ht).
  f_equal. apply alloc_ext; [done..| |congruence|].
  - rewrite Hm. by eapply allocate_managed.
  - intros i. rewrite Ht, Hst. destruct (Nat.eqb_spec i p) as [->|].
    + symmetry. apply Hun. lia.
    + destruct (Nat.leb_spec p i), (Nat.ltb_spec i (p + 1)); simpl; done || lia.
Qed.

(** C39 [count_pages_sub_page_panics]: a RAM region that lies strictly inside one page, ends at or
    below the highest supported address and is the first of the list makes the
    page count underflow: the aligned-up start exceeds the aligned-down end. *)
Theorem count_pages_sub_page_panics N ram r rest :
  fl_rep N ram (r :: rest) -> region_ok r -> within_page r ->
  rend r <= MAX_PHYSICAL_ADDRESS -> count_pages ram = Panic.
Proof.
  intros Hrep Hr Hw Hmax. unfold count_pages. rewrite (iter_refines _ _ _ Hrep). simpl.
  pose proof (inner_bounds_spec r Hr) as Hib.
  destruct (inner_bounds r) as [[s e]| |]; cbn [obind]; [| |done].
  2:{ destruct Hib as [_ Hib]. change MAX_PHYSICAL_ADDRESS with 4294967296 in *.
      unfold PAGE_SIZE in *. region. }
  destruct Hib as (i & k & -> & -> & Hlo & Hhi). cbn [fst snd].
  pose proof (Hhi k) as Hk. rewrite Nat.leb_refl in Hk. bool_prop.
  rewrite (proj2 (Z.ltb_ge _ _)) by lia.
  rewrite sub64_panic; [done|].
  destruct (Z.lt_ge_cases (Z.of_nat k * PAGE_SIZE) (Z.of_nat i * PAGE_SIZE)) as [|Hge]; [done|].
  exfalso. apply (Hw i). pose proof (Hlo i) as Hi. rewrite Nat.leb_refl in Hi.
  pose proof (Hhi i) as Hi2. rewrite (proj2 (Nat.leb_le i k)) in Hi2 by (unfold PAGE_SIZE in *; lia).
  bool_prop. done.
Qed.

End Component.

(** ** Concrete instances *)

(** Eight pages, all managed, the lowest two in use. *)
Definition small_allocator : PageAllocator := mkAllocator (mkBitmap [255] 8) (mkBitmap [3] 2) 8.

Lemma small_ok : alloc_ok 1 small_allocator.
Proof.
  split; [split; [done|by repeat constructor|done]|split; [done|by repeat constructor|done]|].
  intros i. unfold test, testl. cbn [bits managed in_use small_allocator].
  destruct (i / 8)%nat eqn:E; cbn [lookup list_lookup]; [|done].
  intros _. assert (Hm : (i mod 8 < 8)%nat) by (by apply Nat.mod_upper_bound).
  remember (i mod 8)%nat as k eqn:Ek. clear Ek E. do 8 (destruct k as [|k]; [done|]). lia.
Qed.

Lemma aperture_1 : aperture_end 1 < 2 ^ 64.
Proof. done. Qed.

Lemma allocate_contiguous_lowest_witness :
  exists al, allocate_contiguous 1 small_allocator 3 = Ok (0x2000, al) /\
    contiguous_post 1 small_allocator 3 (Ok (0x2000, al)).
Proof.
  pose proof (allocate_contiguous_lowest 1 aperture_1 small_allocator 3 small_ok ltac:(lia)) as H.
  destruct (allocate_contiguous 1 small_allocator 3) as [[pa al]| |] eqn:E; [|by vm_compute in E..].
  assert (pa = 0x2000) as -> by (vm_compute in E; congruence). by exists al.
Defined.

(** One RAM region of eight pages; the upper six may be allocated, two of them
    are unused at first. *)
Definition one_region (start size : Z) : FixedList PhysRegion :=
  mkFixedList [Some (mkRegion start size); None] 1.

Lemma one_region_rep start size : fl_rep 2 (one_region start size) [mkRegion start size].
Proof. split_and!; simpl; [done|done|lia]. Qed.

Lemma count_pages_sub_page_panics_witness : count_pages (one_region 0x1100 0x200) = Panic.
Proof.
  apply (count_pages_sub_page_panics 2 _ (mkRegion 0x1100 0x200) []); [apply one_region_rep|done| |done].
  intros j. unfold rend. simpl. unfold PAGE_SIZE. lia.
Defined.
