(* ===== verification/El2Stage1.v ===== *)
(** * EL2 stage-1 translation tables: src/tvisor_util/el2_stage1_translation.rs

    [TableSet] is a pool of 4 KiB table pages, page 0 being the level-1 root
    of a 39-bit, 4 KiB-granule regime.  [map] installs block and page
    descriptors, allocating intermediate tables from the pool; [walk] is the
    software walk of the same tables; [replace_data_page] exchanges one page
    with a break-before-make sequence.  A method that fails keeps the tables
    it wrote before the failure, so the operations are [stateful].  The
    capacity [N] of the storage is the length of its page array. *)

From S2P Require Import Prelude Page.

Definition ENTRIES_PER_TABLE : nat := 512.
Definition VA_BITS : Z := 39.
Definition L1_SHIFT : Z := 30.
Definition L2_SHIFT : Z := 21.
Definition L3_SHIFT : Z := 12.
Definition L1_SIZE : Z := Z.shiftl 1 L1_SHIFT.
Definition L2_SIZE : Z := Z.shiftl 1 L2_SHIFT.
Definition ADDRESS_MASK : Z := 0x0000fffffffff000.
Definition VALID : Z := Z.shiftl 1 0.
Definition TABLE_OR_PAGE : Z := Z.shiftl 1 1.
Definition ATTR_INDEX_SHIFT : Z := 2.
Definition AP_READ_ONLY : Z := Z.shiftl 1 7.
Definition SH_INNER : Z := Z.shiftl 3 8.
Definition ACCESS_FLAG : Z := Z.shiftl 1 10.
Definition XN : Z := Z.shiftl 1 54.

(** src/tvisor_util/aarch64_reg.rs *)
Definition MAIR_INDEX_NORMAL_WB_WA : Z := 0.
Definition MAIR_INDEX_DEVICE_NGNRE : Z := 1.

Inductive MemoryType := Normal | Device.

#[global] Instance MemoryType_eq_dec : EqDecision MemoryType.
Proof. solve_decision. Defined.

Definition attr_index (t : MemoryType) : Z :=
  match t with
  | Normal => MAIR_INDEX_NORMAL_WB_WA
  | Device => MAIR_INDEX_DEVICE_NGNRE
  end.

Inductive TranslationError :=
| InvalidTableBase
| InvalidPaBits
| EmptyMapping
| UnalignedMapping
| AddressOverflow
| VirtualAddressOutOfRange
| PhysicalAddressOutOfRange
| TableExhausted
| ConflictingEntry
| CorruptTable
| InvalidateParameter
| Unexpected.

#[global] Instance TranslationError_eq_dec : EqDecision TranslationError.
Proof. solve_decision. Defined.

Definition pa_bits_from_pa_range (pa_range : Z) : outcome TranslationError Z :=
  match pa_range with
  | 0 => Ok 32
  | 1 => Ok 36
  | 2 => Ok 40
  | 3 => Ok 42
  | 4 => Ok 44
  | 5 => Ok 48
  | _ => Err InvalidPaBits
  end.

Definition is_in_physical_address_range (addr pa_range : Z) : outcome TranslationError bool :=
  let? pa_bits := pa_bits_from_pa_range pa_range in
  Ok (addr <? Z.shiftl 1 pa_bits).

Record Mapping := mkMapping {
  m_va : Z;
  m_pa : Z;
  m_size : Z;
  m_type : MemoryType;
  m_writable : bool;
  m_executable : bool
}.

Record Translation := mkTranslation {
  t_pa : Z;
  t_type : MemoryType;
  t_writable : bool;
  t_executable : bool;
  t_level : nat
}.

(** ** Descriptors *)

Definition aligned_for (va pa size : Z) : bool :=
  Z.land (Z.lor va pa) (size - 1) =? 0.

(** [index_for] and [level_size] are [unreachable!()] outside levels 1 to 3. *)
Definition shift_for {E} (level : nat) : outcome E Z :=
  match level with
  | 1%nat => Ok L1_SHIFT
  | 2%nat => Ok L2_SHIFT
  | 3%nat => Ok L3_SHIFT
  | _ => Panic
  end.

Definition index_for {E} (level : nat) (va : Z) : outcome E nat :=
  let? shift := shift_for level in
  Ok (Z.to_nat (Z.land (Z.shiftr va shift) 0x1ff)).

Definition level_size {E} (level : nat) : outcome E Z :=
  match level with
  | 1%nat => Ok L1_SIZE
  | 2%nat => Ok L2_SIZE
  | 3%nat => Ok PAGE_SIZE
  | _ => Panic
  end.

Definition output_mask {E} (level : nat) : outcome E Z :=
  let? size := level_size level in
  Ok (Z.land ADDRESS_MASK (not64 (size - 1))).

Definition leaf_descriptor {E} (level : nat) (pa : Z) (mapping : Mapping) : outcome E Z :=
  let? mask := output_mask level in
  let d0 := Z.lor (Z.lor (Z.lor (Z.land pa mask) VALID) ACCESS_FLAG)
              (Z.shiftl (attr_index (m_type mapping)) ATTR_INDEX_SHIFT) in
  let d1 := if (level =? 3)%nat then Z.lor d0 TABLE_OR_PAGE else d0 in
  let d2 := if decide (m_type mapping = Normal) then Z.lor d1 SH_INNER else d1 in
  let d3 := if negb (m_writable mapping) then Z.lor d2 AP_READ_ONLY else d2 in
  Ok (if negb (m_executable mapping) then Z.lor d3 XN else d3).

(** ** The table set *)

Record TableSet := mkTableSet {
  pages : list (list Z);
  used : nat;
  base_pa : Z;
  pa_bits : Z
}.

(** [self.storage.pages[table].entries[index]], read and written. *)
Definition get_entry {E} (self : TableSet) (table index : nat) : outcome E Z :=
  let? page := arr_get (pages self) table in arr_get page index.

Definition set_entry {E} (table index : nat) (d : Z) (self : TableSet) : outcome E TableSet :=
  let? page := arr_get (pages self) table in
  let? page' := arr_set page index d in
  let? pages' := arr_set (pages self) table page' in
  Ok (mkTableSet pages' (used self) (base_pa self) (pa_bits self)).

Definition allocate_page : stateful TableSet TranslationError nat := fun self =>
  if (used self =? length (pages self))%nat then (Err TableExhausted, self)
  else
    let index := used self in
    match arr_get (E:=TranslationError) (pages self) index with
    | Ok page =>
        (Ok index, mkTableSet (<[index := (fun _ => 0) <$> page]> (pages self))
                     (used self + 1) (base_pa self) (pa_bits self))
    | Err e => (Err e, self)
    | Panic => (Panic, self)
    end.

Definition table_pa {E} (self : TableSet) (index : nat) : outcome E Z :=
  let? offset := mul64 (Z.of_nat index) PAGE_SIZE in add64 (base_pa self) offset.

Definition table_index (self : TableSet) (pa : Z) : outcome TranslationError nat :=
  let? offset := ok_or (checked_sub pa (base_pa self)) CorruptTable in
  reject negb (is_page_aligned offset) with CorruptTable in
  let index := offset / PAGE_SIZE in
  reject Z.of_nat (used self) <=? index with CorruptTable in
  Ok (Z.to_nat index).

Definition TableSet_new (storage : list (list Z)) (base pa_bits0 : Z) :
  outcome TranslationError TableSet :=
  reject negb ((32 <=? pa_bits0) && (pa_bits0 <=? 48)) with InvalidPaBits in
  reject negb (is_page_aligned base) with InvalidTableBase in
  reject Z.shiftl 1 pa_bits0 <=? base with InvalidTableBase in
  reject (length storage =? 0)%nat with TableExhausted in
  let? byte_len := ok_or (checked_mul (Z.of_nat (length storage)) PAGE_SIZE) AddressOverflow in
  let? e := ok_or (checked_add base byte_len) AddressOverflow in
  reject Z.shiftl 1 pa_bits0 <? e with PhysicalAddressOutOfRange in
  match allocate_page (mkTableSet storage 0 base pa_bits0) with
  | (Ok _, set) => Ok set
  | (Err e, _) => Err e
  | (Panic, _) => Panic
  end.

Definition validate_mapping (self : TableSet) (mapping : Mapping) :
  outcome TranslationError unit :=
  reject m_size mapping =? 0 with EmptyMapping in
  reject negb (is_page_aligned (Z.lor (Z.lor (m_va mapping) (m_pa mapping)) (m_size mapping)))
    with UnalignedMapping in
  let? va_end := ok_or (checked_add (m_va mapping) (m_size mapping)) AddressOverflow in
  let? pa_end := ok_or (checked_add (m_pa mapping) (m_size mapping)) AddressOverflow in
  reject Z.shiftl 1 VA_BITS <? va_end with VirtualAddressOutOfRange in
  reject Z.shiftl 1 (pa_bits self) <? pa_end with PhysicalAddressOutOfRange in
  Ok tt.

Definition VALID_TABLE : Z := Z.lor VALID TABLE_OR_PAGE.

(** One iteration of the descent of [map_leaf]: the child table of an entry,
    allocated when the entry is zero. *)
Definition descend (va : Z) (table current_level : nat) :
  stateful TableSet TranslationError nat :=
  let! index := slift (index_for current_level va) in
  let! descriptor := stry (fun self => get_entry self table index) in
  if descriptor =? 0 then
    let! child := allocate_page in
    let! child_pa := stry (fun self => table_pa self child) in
    let! _ := supdate (set_entry table index (Z.lor (Z.lor child_pa VALID) TABLE_OR_PAGE)) in
    sret child
  else if Z.land descriptor VALID_TABLE =? VALID_TABLE then
    stry (fun self => table_index self (Z.land descriptor ADDRESS_MASK))
  else sfail ConflictingEntry.

Fixpoint descend_all (va : Z) (table : nat) (levels : list nat) :
  stateful TableSet TranslationError nat :=
  match levels with
  | [] => sret table
  | current_level :: rest =>
      let! child := descend va table current_level in
      descend_all va child rest
  end.

Definition map_leaf (level : nat) (va pa : Z) (mapping : Mapping) :
  stateful TableSet TranslationError unit :=
  let! table := descend_all va 0 (seq 1 (level - 1)) in
  let! index := slift (index_for level va) in
  let! descriptor := slift (leaf_descriptor level pa mapping) in
  let! entry := stry (fun self => get_entry self table index) in
  if negb (entry =? 0) && negb (entry =? descriptor) then sfail ConflictingEntry
  else supdate (set_entry table index descriptor).

(** The chunk [map] installs next. *)
Definition chunk_for (va pa remaining : Z) : nat * Z :=
  if aligned_for va pa L1_SIZE && (L1_SIZE <=? remaining) then (1%nat, L1_SIZE)
  else if aligned_for va pa L2_SIZE && (L2_SIZE <=? remaining) then (2%nat, L2_SIZE)
  else (3%nat, PAGE_SIZE).

Fixpoint map_loop (fuel : nat) (mapping : Mapping) (va pa remaining : Z) :
  stateful TableSet TranslationError unit :=
  match fuel with
  | O => slift Panic
  | S fuel' =>
      if remaining =? 0 then sret tt
      else
        let '(level, chunk) := chunk_for va pa remaining in
        let! _ := map_leaf level va pa mapping in
        let! va' := slift (add64 va chunk) in
        let! pa' := slift (add64 pa chunk) in
        let! remaining' := slift (sub64 remaining chunk) in
        map_loop fuel' mapping va' pa' remaining'
  end.

(** Every chunk is at least a page, so one iteration per page is enough. *)
Definition TableSet_map (mapping : Mapping) : stateful TableSet TranslationError unit :=
  let! _ := stry (fun self => validate_mapping self mapping) in
  map_loop (S (Z.to_nat (m_size mapping / PAGE_SIZE))) mapping
    (m_va mapping) (m_pa mapping) (m_size mapping).

(** ** The software walk *)

Definition memory_type_of (descriptor : Z) : outcome TranslationError MemoryType :=
  match Z.land (Z.shiftr descriptor ATTR_INDEX_SHIFT) 7 with
  | 0 => Ok Normal
  | 1 => Ok Device
  | _ => Err CorruptTable
  end.

(** The translation a leaf descriptor found at [level] denotes. *)
Definition leaf_translation (level : nat) (va descriptor : Z) :
  outcome TranslationError (option Translation) :=
  let? block_size := level_size level in
  let? mask := output_mask level in
  let base := Z.land descriptor mask in
  let pa := Z.lor base (Z.land va (block_size - 1)) in
  let? memory_type := memory_type_of descriptor in
  Ok (Some (mkTranslation pa memory_type (Z.land descriptor AP_READ_ONLY =? 0)
              (Z.land descriptor XN =? 0) level)).

Fixpoint walk_loop (self : TableSet) (va : Z) (table : nat) (levels : list nat) :
  outcome TranslationError (option Translation) :=
  match levels with
  | [] => Err CorruptTable
  | level :: rest =>
      let? index := index_for level va in
      let? descriptor := get_entry self table index in
      if Z.land descriptor VALID =? 0 then Ok None
      else
        let is_table_or_page := negb (Z.land descriptor TABLE_OR_PAGE =? 0) in
        if (level <? 3)%nat && is_table_or_page then
          let? table' := table_index self (Z.land descriptor ADDRESS_MASK) in
          walk_loop self va table' rest
        else if (level =? 3)%nat && negb is_table_or_page then Err CorruptTable
        else leaf_translation level va descriptor
  end.

Definition walk (self : TableSet) (va : Z) : outcome TranslationError (option Translation) :=
  reject Z.shiftl 1 VA_BITS <=? va with VirtualAddressOutOfRange in
  walk_loop self va 0 [1; 2; 3]%nat.

(** ** Replacing one page *)

(** The accesses [replace_data_page] makes to the live table, in order: a
    volatile store to an entry, and a call of the caller's [synchronize]. *)
Inductive table_event :=
| EvStore (table index : nat) (value : Z)
| EvSync (table index : nat).

(** The loop [for level in 1..3] of [replace_data_page]. *)
Fixpoint follow (self : TableSet) (va : Z) (table : nat) (levels : list nat) :
  outcome TranslationError nat :=
  match levels with
  | [] => Ok table
  | level :: rest =>
      let? index := index_for level va in
      let? d := get_entry self table index in
      reject negb (Z.land d VALID_TABLE =? VALID_TABLE) with ConflictingEntry in
      let? table' := table_index self (Z.land d ADDRESS_MASK) in
      follow self va table' rest
  end.

Definition data_page_mapping (va pa : Z) : Mapping :=
  mkMapping va pa PAGE_SIZE Normal true false.

(** The checks before the first store: the slot and the new descriptor. *)
Definition replace_target (self : TableSet) (va old_pa new_pa : Z) :
  outcome TranslationError (nat * nat * Z) :=
  let? _ := validate_mapping self (data_page_mapping va new_pa) in
  let? _ := validate_mapping self (data_page_mapping va old_pa) in
  reject negb (is_page_aligned old_pa) || (old_pa =? new_pa) with InvalidateParameter in
  let? table := follow self va 0 [1; 2]%nat in
  let? index := index_for 3 va in
  let? expected := leaf_descriptor 3 old_pa (data_page_mapping va old_pa) in
  let? current := get_entry self table index in
  reject negb (current =? expected) with ConflictingEntry in
  let? d := leaf_descriptor 3 new_pa (data_page_mapping va new_pa) in
  Ok (table, index, d).

(** A volatile store to a table entry, recorded in the trace. *)
Definition store_entry (table index : nat) (value : Z) :
  stateful (TableSet * list table_event) TranslationError unit := fun st =>
  match set_entry table index value st.1 with
  | Ok ts => (Ok tt, (ts, st.2 ++ [EvStore table index value]))
  | Err e => (Err e, st)
  | Panic => (Panic, st)
  end.

Section Replace.
Context (synchronize : nat -> outcome TranslationError unit).

(** The [call]-th call of the caller's callback. *)
Definition sync_entry (call table index : nat) :
  stateful (TableSet * list table_event) TranslationError unit := fun st =>
  (synchronize call, (st.1, st.2 ++ [EvSync table index])).

Definition replace_data_page (va old_pa new_pa : Z) :
  stateful (TableSet * list table_event) TranslationError unit :=
  let! target := stry (fun st => replace_target st.1 va old_pa new_pa) in
  let '(table, index, d) := target in
  let! _ := store_entry table index 0 in
  let! _ := sync_entry 0 table index in
  let! _ := store_entry table index d in
  sync_entry 1 table index.

End Replace.

(** ** Levels and descriptor fields *)

Definition lshift (level : nat) : Z :=
  match level with 1%nat => 30 | 2%nat => 21 | _ => 12 end.
Definition lsize (level : nat) : Z := 2 ^ lshift level.
Definition omask (level : nat) : Z := Z.land ADDRESS_MASK (not64 (lsize level - 1)).
Definition idx (level : nat) (va : Z) : nat :=
  Z.to_nat (Z.land (Z.shiftr va (lshift level)) 0x1ff).

Definition valid_level (level : nat) : Prop := (1 <= level <= 3)%nat.

(** Case analysis on a level in range. *)
Ltac levels H :=
  match type of H with
  | valid_level ?l =>
      destruct l as [|[|[|[|l]]]];
      try (exfalso; unfold valid_level in H; lia); clear H
  end.

Lemma lsize_pos level : 0 < lsize level.
Proof. unfold lsize, lshift. do 3 (destruct level as [|level]; [lia|]). lia. Qed.

Lemma index_for_eq {E} level va : valid_level level -> index_for (E:=E) level va = Ok (idx level va).
Proof. intros H. levels H; reflexivity. Qed.

Lemma level_size_eq {E} level : valid_level level -> level_size (E:=E) level = Ok (lsize level).
Proof. intros H. levels H; reflexivity. Qed.

Lemma output_mask_eq {E} level : valid_level level -> output_mask (E:=E) level = Ok (omask level).
Proof. intros H. levels H; reflexivity. Qed.

(** The bits of a leaf descriptor other than its output address. *)
Definition leaf_flags (level : nat) (m : Mapping) : Z :=
  Z.lor (Z.lor (Z.lor (Z.lor 0x401 (Z.shiftl (attr_index (m_type m)) 2))
    (if (level =? 3)%nat then 2 else 0))
    (if decide (m_type m = Normal) then 0x300 else 0))
    (Z.lor (if m_writable m then 0 else 0x80) (if m_executable m then 0 else 2 ^ 54)).

Definition leaf_desc (level : nat) (pa : Z) (m : Mapping) : Z :=
  Z.lor (Z.land pa (omask level)) (leaf_flags level m).

Lemma leaf_descriptor_eq {E} level pa m :
  valid_level level -> leaf_descriptor (E:=E) level pa m = Ok (leaf_desc level pa m).
Proof.
  intros H. unfold leaf_descriptor, leaf_desc. rewrite output_mask_eq by done. cbn [obind].
  f_equal. destruct m as [va mpa size [] [] []]; levels H; simpl;
    rewrite <- ?Z.lor_assoc; reflexivity.
Qed.

(** A field outside the output address is read from the flags. *)
Lemma leaf_desc_field level pa m k :
  Z.land (omask level) k = 0 -> Z.land (leaf_desc level pa m) k = Z.land (leaf_flags level m) k.
Proof.
  intros H. unfold leaf_desc. rewrite Z.land_lor_distr_l, <- Z.land_assoc, H, Z.land_0_r. apply Z.lor_0_l.
Qed.

Lemma leaf_desc_output level pa m :
  valid_level level -> Z.land (leaf_desc level pa m) (omask level) = Z.land pa (omask level).
Proof.
  intros H. unfold leaf_desc. rewrite Z.land_lor_distr_l, <- Z.land_assoc, Z.land_diag.
  replace (Z.land (leaf_flags level m) (omask level)) with 0; [apply Z.lor_0_r|].
  destruct m as [va mpa size [] [] []]; levels H; reflexivity.
Qed.

Ltac leaf_field :=
  intros H; rewrite leaf_desc_field by (levels H; reflexivity);
  match goal with m : Mapping |- _ => destruct m as [? ? ? [] [] []] end; levels H; reflexivity.

Lemma leaf_desc_valid level pa m :
  valid_level level -> Z.land (leaf_desc level pa m) VALID = 1.
Proof. leaf_field. Qed.

Lemma leaf_desc_table level pa m :
  valid_level level ->
  Z.land (leaf_desc level pa m) TABLE_OR_PAGE = if (level =? 3)%nat then 2 else 0.
Proof. leaf_field. Qed.

Lemma leaf_desc_valid_table level pa m :
  valid_level level ->
  Z.land (leaf_desc level pa m) VALID_TABLE = if (level =? 3)%nat then 3 else 1.
Proof. leaf_field. Qed.

Lemma leaf_desc_read_only level pa m :
  valid_level level -> (Z.land (leaf_desc level pa m) AP_READ_ONLY =? 0) = m_writable m.
Proof. leaf_field. Qed.

Lemma leaf_desc_xn level pa m :
  valid_level level -> (Z.land (leaf_desc level pa m) XN =? 0) = m_executable m.
Proof. leaf_field. Qed.

Lemma leaf_desc_type level pa m :
  valid_level level -> memory_type_of (leaf_desc level pa m) = Ok (m_type m).
Proof.
  intros H. unfold memory_type_of, ATTR_INDEX_SHIFT.
  replace (Z.land (Z.shiftr (leaf_desc level pa m) 2) 7)
    with (Z.shiftr (Z.land (leaf_desc level pa m) 28) 2) by (by rewrite Z.shiftr_land).
  rewrite leaf_desc_field by (levels H; reflexivity).
  destruct m as [? ? ? [] [] []]; levels H; reflexivity.
Qed.

Lemma leaf_desc_nonzero level pa m : valid_level level -> leaf_desc level pa m <> 0.
Proof. intros H H0. pose proof (leaf_desc_valid level pa m H) as Hv. by rewrite H0 in Hv. Qed.

Lemma output_aligned level pa :
  valid_level level -> 0 <= pa < 2 ^ 48 -> pa mod lsize level = 0 -> Z.land pa (omask level) = pa.
Proof.
  intros H Hpa Hm. unfold omask. change ADDRESS_MASK with (Z.shiftl (Z.ones 36) 12).
  assert (Hs : 12 <= lshift level < 64) by (levels H; simpl; lia).
  unfold lsize in *. apply Z.bits_inj'. intros i Hi. unfold not64.
  rewrite ones_pred by lia. autorewrite with tv_bits.
  destruct (Z.lt_ge_cases i (lshift level)) as [Hl|Hl].
  - rewrite <- (Z.mod_pow2_bits_low pa (lshift level) i), Hm, Z.bits_0 by done. done.
  - destruct (Z.lt_ge_cases i 48) as [Hh|Hh].
    + rewrite !Z.testbit_ones_nonneg by lia.
      repeat bits_step; simpl; rewrite ?andb_true_r; done || lia.
    + rewrite (testbit_bounded pa 48 i) by (done || lia). done.
Qed.

(** What the walk reads back from a descriptor [map_leaf] wrote. *)
Lemma leaf_translation_leaf level pa va m :
  valid_level level -> 0 <= pa < 2 ^ 48 -> pa mod lsize level = 0 ->
  leaf_translation level va (leaf_desc level pa m) =
  Ok (Some (mkTranslation (pa + va mod lsize level) (m_type m) (m_writable m) (m_executable m) level)).
Proof.
  intros H Hpa Hm. unfold leaf_translation.
  rewrite level_size_eq, output_mask_eq by done. cbn [obind].
  rewrite leaf_desc_output, output_aligned, leaf_desc_type by done. cbn [obind].
  rewrite leaf_desc_read_only, leaf_desc_xn by done. do 3 f_equal.
  pose proof (lsize_pos level). unfold lsize in *.
  assert (0 <= lshift level) by (levels H; simpl; lia).
  rewrite land_pow2_pred by done. apply (lor_disjoint_add _ _ (lshift level)); [done..|].
  apply Z.mod_pos_bound. done.
Qed.

(** ** Reaching a table

    [hop n va] is the table a walk of [va] reaches after [n] table
    descriptors, that is the table indexed at level [n + 1]. *)

Definition entry (ts : TableSet) (t i : nat) : Z := default 0 (pages ts !! t ≫= lookup i).

Definition tchild (ts : TableSet) (d : Z) : option nat :=
  if Z.land d VALID_TABLE =? VALID_TABLE then
    match table_index ts (Z.land d ADDRESS_MASK) with Ok c => Some c | _ => None end
  else None.

Fixpoint hop (ts : TableSet) (n : nat) (va : Z) : option nat :=
  match n with
  | O => Some 0%nat
  | S n' => t ← hop ts n' va; tchild ts (entry ts t (idx (S n') va))
  end.

(** The bits of [va] the first [n] levels index. *)
Definition pre (n : nat) (va : Z) : Z :=
  match n with O => 0 | _ => Z.shiftr va (lshift n) end.

Definition va_ok (va : Z) : Prop := 0 <= va < 2 ^ 39.

Lemma idx_lt level va : (idx level va < 512)%nat.
Proof.
  unfold idx. change 0x1ff with (Z.ones 9). rewrite Z.land_ones by lia.
  pose proof (Z.mod_pos_bound (Z.shiftr va (lshift level)) (2 ^ 9) ltac:(lia)). lia.
Qed.

Lemma idx_eq level va : Z.of_nat (idx level va) = Z.shiftr va (lshift level) mod 512.
Proof.
  unfold idx. change 0x1ff with (Z.ones 9). rewrite Z.land_ones by lia.
  rewrite Z2Nat.id; [done|]. apply Z.mod_pos_bound. lia.
Qed.

(** The bits of level [n + 1] extend those of level [n] by its index. *)
Lemma pre_S n va :
  (n <= 2)%nat -> va_ok va -> pre (S n) va = pre n va * 512 + Z.of_nat (idx (S n) va).
Proof.
  intros Hn [H0 H1]. rewrite idx_eq. unfold pre.
  destruct n as [|[|[|n]]]; [| | |lia]; cbn [lshift]; rewrite ?Z.shiftr_div_pow2 by lia.
  - rewrite Z.mod_small; [lia|]. split; [apply Z.div_pos; lia|].
    apply Z.div_lt_upper_bound; lia.
  - replace (2 ^ 30) with (2 ^ 21 * 512) by lia. rewrite <- Z.div_div by lia.
    rewrite Z.mul_comm. apply Z.div_mod. lia.
  - replace (2 ^ 21) with (2 ^ 12 * 512) by lia. rewrite <- Z.div_div by lia.
    rewrite Z.mul_comm. apply Z.div_mod. lia.
Qed.

Lemma pre_S_iff n va va' :
  (n <= 2)%nat -> va_ok va -> va_ok va' ->
  pre (S n) va = pre (S n) va' <-> pre n va = pre n va' /\ idx (S n) va = idx (S n) va'.
Proof.
  intros Hn Hv Hv'. rewrite !pre_S by done.
  pose proof (idx_lt (S n) va). pose proof (idx_lt (S n) va'). lia.
Qed.

Lemma hop_pre ts n va va' :
  (n <= 3)%nat -> va_ok va -> va_ok va' -> pre n va = pre n va' -> hop ts n va = hop ts n va'.
Proof.
  intros Hn Hv Hv'. induction n as [|n IH]; intros Hp; [done|].
  apply pre_S_iff in Hp as [Hp Hi]; [|lia|done|done]. simpl. rewrite IH, Hi by (done || lia). done.
Qed.

(** The tree invariant of a table set. *)
Record wf (ts : TableSet) : Prop := {
  wf_len : Forall (fun p => length p = 512%nat) (pages ts);
  wf_used : (1 <= used ts <= length (pages ts))%nat;
  wf_base : 0 <= base_pa ts /\ base_pa ts mod PAGE_SIZE = 0;
  wf_end : base_pa ts + Z.of_nat (length (pages ts)) * PAGE_SIZE <= 2 ^ 48;
  wf_pa_bits : 32 <= pa_bits ts <= 48;
  wf_lt : forall n va t, (n <= 2)%nat -> va_ok va -> hop ts n va = Some t -> (t < used ts)%nat;
  (* no table is shared: two walks that meet have followed the same indices *)
  wf_tree : forall n n' va va' t, (n <= 2)%nat -> (n' <= 2)%nat -> va_ok va -> va_ok va' ->
    hop ts n va = Some t -> hop ts n' va' = Some t -> n = n' /\ pre n va = pre n va';
  (* every table descriptor on a walk designates a used table *)
  wf_child : forall n va t, (n <= 1)%nat -> va_ok va -> hop ts n va = Some t ->
    Z.land (entry ts t (idx (S n) va)) VALID_TABLE = VALID_TABLE ->
    exists c, table_index ts (Z.land (entry ts t (idx (S n) va)) ADDRESS_MASK) = Ok c
}.

Lemma get_entry_eq {E} ts t i :
  wf ts -> (t < length (pages ts))%nat -> (i < 512)%nat ->
  get_entry (E:=E) ts t i = Ok (entry ts t i).
Proof.
  intros H Ht Hi. unfold get_entry, entry.
  destruct (arr_get_lt (E:=E) (pages ts) t Ht) as (p & Hp & ->). cbn [obind]. rewrite Hp. simpl.
  assert (length p = 512%nat) by (eapply (Forall_lookup_1 _ _ _ _ (wf_len _ H)); eauto).
  by destruct (arr_get_lt (E:=E) p i ltac:(lia)) as (d & -> & ->).
Qed.

Definition with_pages (ts : TableSet) (ps : list (list Z)) (n : nat) : TableSet :=
  mkTableSet ps n (base_pa ts) (pa_bits ts).

Lemma set_entry_eq {E} ts t i d :
  Forall (fun p => length p = 512%nat) (pages ts) -> (t < length (pages ts))%nat -> (i < 512)%nat ->
  exists ps, set_entry (E:=E) t i d ts = Ok (with_pages ts ps (used ts)) /\
    length ps = length (pages ts) /\ Forall (fun p => length p = 512%nat) ps /\
    forall t' i', entry (with_pages ts ps (used ts)) t' i' =
      if (t' =? t)%nat && (i' =? i)%nat then d else entry ts t' i'.
Proof.
  intros Hl Ht Hi. unfold set_entry.
  destruct (arr_get_lt (E:=E) (pages ts) t Ht) as (p & Hp & ->). cbn [obind].
  assert (Hlp : length p = 512%nat) by (eapply (Forall_lookup_1 _ _ _ _ Hl); eauto).
  rewrite (arr_set_ok p) by lia. cbn [obind]. rewrite arr_set_ok by done. cbn [obind].
  eexists. split; [done|]. split; [apply length_insert|]. split.
  { apply Forall_insert; [done|]. by rewrite length_insert. }
  intros t' i'. unfold entry. simpl. destruct (Nat.eqb_spec t' t) as [->|].
  - rewrite list_lookup_insert_eq, Hp by done. simpl. destruct (Nat.eqb_spec i' i) as [->|].
    + by rewrite list_lookup_insert_eq by lia.
    + by rewrite list_lookup_insert_ne by done.
  - by rewrite list_lookup_insert_ne by done.
Qed.

Lemma table_index_mono ts ts' pa c :
  base_pa ts' = base_pa ts -> (used ts <= used ts')%nat ->
  table_index ts pa = Ok c -> table_index ts' pa = Ok c.
Proof.
  intros Hb Hu. unfold table_index. rewrite Hb.
  destruct (checked_sub pa (base_pa ts)); simpl; [|done]. destruct (negb _); [done|].
  destruct (Z.leb_spec (Z.of_nat (used ts)) (z / PAGE_SIZE)); [done|].
  by rewrite (proj2 (Z.leb_gt _ _)) by lia.
Qed.

Lemma table_index_lt ts pa c : table_index ts pa = Ok c -> (c < used ts)%nat.
Proof.
  unfold table_index. destruct (checked_sub pa (base_pa ts)) as [z|] eqn:Hz; simpl; [|done].
  apply checked_sub_Some in Hz as [-> Hz].
  destruct (negb _); [done|]. destruct (Z.leb_spec (Z.of_nat (used ts)) ((pa - base_pa ts) / PAGE_SIZE)); [done|].
  assert (0 <= (pa - base_pa ts) / PAGE_SIZE) by (apply Z.div_pos; [lia|done]).
  intros [= <-]. lia.
Qed.

(** A table descriptor written for table [c] leads back to [c]. *)
Lemma table_descriptor_child ts c :
  0 <= base_pa ts -> base_pa ts mod PAGE_SIZE = 0 ->
  base_pa ts + (Z.of_nat c + 1) * PAGE_SIZE <= 2 ^ 48 -> (c < used ts)%nat ->
  exists p, table_pa (E:=TranslationError) ts c = Ok p /\
    Z.land (Z.lor (Z.lor p VALID) TABLE_OR_PAGE) VALID_TABLE = VALID_TABLE /\
    table_index ts (Z.land (Z.lor (Z.lor p VALID) TABLE_OR_PAGE) ADDRESS_MASK) = Ok c.
Proof.
  intros H0 Hb He Hc. unfold table_pa. unfold PAGE_SIZE in *. set (p := base_pa ts + Z.of_nat c * 0x1000).
  rewrite mul64_ok by lia. cbn [obind]. rewrite add64_ok by lia. exists p. split; [done|].
  assert (Hp : p mod 2 ^ 12 = 0).
  { unfold p. change (2 ^ 12) with 0x1000. by rewrite Z.mod_add by lia. }
  rewrite <- Z.lor_assoc. change (Z.lor VALID TABLE_OR_PAGE) with 3. change VALID_TABLE with (Z.ones 2).
  rewrite !Z.land_lor_distr_l. split.
  - rewrite Z.land_ones by lia. replace (p mod 2 ^ 2) with 0; [done|]. symmetry.
    apply Z.mod_divide; [lia|]. apply Z.mod_divide in Hp; [|lia].
    eapply Z.divide_trans; [|exact Hp]. by exists (2 ^ 10).
  - assert (Z.land p ADDRESS_MASK = p) as ->.
    { apply (output_aligned 3 p); [unfold valid_level; lia|lia|done]. }
    change (Z.land 3 ADDRESS_MASK) with 0. rewrite Z.lor_0_r. unfold table_index, p.
    rewrite (proj2 (checked_sub_Some _ _ (Z.of_nat c * 0x1000))) by lia. cbn [ok_or obind].
    rewrite (proj2 (is_page_aligned_iff _)) by (by rewrite Z.mod_mul). cbn [negb].
    unfold PAGE_SIZE. rewrite Z.div_mul by lia. rewrite (proj2 (Z.leb_gt _ _)) by lia.
    by rewrite Nat2Z.id.
Qed.

(** Two walks that read the same slot agree on every index so far. *)
Lemma slot_unique ts n n' va va' t :
  wf ts -> (n <= 2)%nat -> (n' <= 2)%nat -> va_ok va -> va_ok va' ->
  hop ts n va = Some t -> hop ts n' va' = Some t -> idx (S n) va = idx (S n') va' ->
  n = n' /\ pre (S n) va = pre (S n) va'.
Proof.
  intros H Hn Hn' Hv Hv' H1 H2 Hi.
  destruct (wf_tree _ H n n' va va' t Hn Hn' Hv Hv' H1 H2) as [<- Hp].
  split; [done|]. apply pre_S_iff; done.
Qed.

Lemma tchild_stable ts ts' n va t :
  wf ts -> base_pa ts' = base_pa ts -> (used ts <= used ts')%nat -> (n <= 1)%nat -> va_ok va ->
  hop ts n va = Some t ->
  tchild ts' (entry ts t (idx (S n) va)) = tchild ts (entry ts t (idx (S n) va)).
Proof.
  intros H Hb Hu Hn Hv Hh. unfold tchild. destruct (_ =? _) eqn:E; [|done].
  bool_prop. destruct (wf_child _ H n va t Hn Hv Hh E) as (c & Hc).
  by rewrite Hc, (table_index_mono ts ts' _ c).
Qed.

(** ** Installing an empty child table *)

Section AddTable.
Context (ts ts' : TableSet) (n : nat) (va : Z) (t : nat) (D : Z).
Context (Hwf : wf ts) (Hn : (n <= 1)%nat) (Hva : va_ok va) (Ht : hop ts n va = Some t).
Context (Hzero : entry ts t (idx (S n) va) = 0).
Context (Hbase : base_pa ts' = base_pa ts) (Hused : used ts' = (used ts + 1)%nat).
Context (Hentry : forall t' i', entry ts' t' i' =
  if (t' =? used ts)%nat then 0
  else if (t' =? t)%nat && (i' =? idx (S n) va)%nat then D else entry ts t' i').
Context (HD : Z.land D VALID_TABLE = VALID_TABLE).
Context (HDi : table_index ts' (Z.land D ADDRESS_MASK) = Ok (used ts)).

Lemma add_table_hop n' va' :
  (n' <= 2)%nat -> va_ok va' ->
  hop ts' n' va' =
    if (n <? n')%nat && (pre (S n) va' =? pre (S n) va) then
      if (n' =? S n)%nat then Some (used ts) else None
    else hop ts n' va'.
Proof using All.
  intros Hn' Hva'. induction n' as [|n' IH]; [done|].
  cbn [hop]. rewrite IH by lia. clear IH.
  destruct (Z.eqb_spec (pre (S n) va') (pre (S n) va)) as [Hsame|Hdiff]; rewrite ?andb_true_r, ?andb_false_r.
  - destruct (Nat.ltb_spec n n') as [Hlt|Hge].
    + rewrite (proj2 (Nat.ltb_lt n (S n'))) by lia. rewrite (proj2 (Nat.eqb_neq (S n') (S n))) by lia.
      destruct (Nat.eqb_spec n' (S n)); [|done]. simpl. rewrite Hentry, Nat.eqb_refl. done.
    + destruct (Nat.ltb_spec n (S n')) as [Hlt|?].
      * assert (n' = n) as -> by lia. rewrite Nat.eqb_refl.
        pose proof Hsame as [Hp Hi]%pre_S_iff; [|lia|done|done].
        rewrite (hop_pre ts n va' va), Ht by (done || lia). simpl.
        pose proof (wf_lt _ Hwf n va t ltac:(lia) Hva Ht).
        rewrite Hentry, (proj2 (Nat.eqb_neq t (used ts))), Hi, !Nat.eqb_refl by lia. simpl.
        unfold tchild. by rewrite HD, Z.eqb_refl, HDi.
      * destruct (hop ts n' va') as [t'|] eqn:E; simpl; [|done].
        pose proof (wf_lt _ Hwf n' va' t' ltac:(lia) Hva' E).
        rewrite Hentry, (proj2 (Nat.eqb_neq t' (used ts))) by lia.
        destruct ((t' =? t)%nat && _) eqn:Es.
        { bool_prop. subst t'. destruct (slot_unique ts n' n va' va t) as [? _]; try done; lia. }
        apply (tchild_stable ts ts' n' va' t'); done || lia.
  - destruct (hop ts n' va') as [t'|] eqn:E; simpl; [|done].
    pose proof (wf_lt _ Hwf n' va' t' ltac:(lia) Hva' E).
    rewrite Hentry, (proj2 (Nat.eqb_neq t' (used ts))) by lia.
    destruct ((t' =? t)%nat && _) eqn:Es.
    { bool_prop. subst t'. destruct (slot_unique ts n' n va' va t) as [-> ?]; try done; lia. }
    apply (tchild_stable ts ts' n' va' t'); done || lia.
Qed.

Lemma add_table_hop_inv m v x :
  (m <= 2)%nat -> va_ok v -> hop ts' m v = Some x ->
  (x = used ts /\ m = S n /\ pre (S n) v = pre (S n) va) \/
  (hop ts m v = Some x /\ (x < used ts)%nat).
Proof using All.
  intros Hm Hv. rewrite add_table_hop by done. destruct (_ && _) eqn:E; bool_prop.
  - destruct (Nat.eqb_spec m (S n)); [|done]. intros [= <-]. auto.
  - intros Hx. right. split; [done|]. by eapply (wf_lt _ Hwf).
Qed.

Context (Hlen : Forall (fun p => length p = 512%nat) (pages ts')).
Context (Hpages : length (pages ts') = length (pages ts)).
Context (Hroom : (used ts < length (pages ts))%nat) (Hbits : pa_bits ts' = pa_bits ts).

Lemma add_table_wf : wf ts'.
Proof using All.
  pose proof (wf_used _ Hwf). split; rewrite ?Hpages, ?Hbase, ?Hbits, ?Hused; try apply Hwf; [done|lia| | |].
  - intros m v x Hm Hv [(-> & _)|[_ ?]]%add_table_hop_inv; lia || done.
  - intros m m' v v' x Hm Hm' Hv Hv' H1 H2. apply add_table_hop_inv in H1, H2; [|done..].
    destruct H1 as [(-> & -> & H1)|[H1 ?]], H2 as [(? & ? & H2)|[H2 ?]]; try lia.
    by apply (wf_tree _ Hwf) with x.
  - intros m v x Hm Hv [(-> & _)|[Hx Hlt]]%add_table_hop_inv; [| |lia|done].
    + by rewrite Hentry, Nat.eqb_refl.
    + rewrite Hentry, (proj2 (Nat.eqb_neq x (used ts))) by lia.
      destruct ((x =? t)%nat && _) eqn:Es; [intros _; eauto|].
      intros Hd. destruct (wf_child _ Hwf m v x Hm Hv Hx Hd) as (c & Hc).
      exists c. eapply table_index_mono; [done| |done]. lia.
Qed.

End AddTable.

(** ** The walk from the table reached after [n] hops *)

Definition wl (ts : TableSet) (n : nat) (va : Z) : outcome TranslationError (option Translation) :=
  match hop ts n va with
  | Some t => walk_loop ts va t (seq (S n) (3 - n))
  | None => Panic
  end.

Lemma walk_wl ts va : va_ok va -> walk ts va = wl ts 0 va.
Proof.
  intros [H0 H1]. unfold walk. change (Z.shiftl 1 VA_BITS) with (2 ^ 39).
  by rewrite (proj2 (Z.leb_gt _ _)) by lia.
Qed.

Lemma valid_table_bits d :
  (Z.land d VALID_TABLE =? VALID_TABLE) =
  negb (Z.land d VALID =? 0) && negb (Z.land d TABLE_OR_PAGE =? 0).
Proof.
  change VALID_TABLE with (Z.lor (2 ^ 0) (2 ^ 1)). change VALID with (2 ^ 0).
  change TABLE_OR_PAGE with (2 ^ 1).
  rewrite Z.land_lor_distr_r, !land_pow2_bit by lia.
  by destruct (Z.testbit d 0), (Z.testbit d 1).
Qed.

(** What the walk does with the descriptor [d] found at level [n + 1]. *)
Definition wl_step (ts : TableSet) (n : nat) (va d : Z) : outcome TranslationError (option Translation) :=
  if Z.land d VALID =? 0 then Ok None
  else if (S n <? 3)%nat && negb (Z.land d TABLE_OR_PAGE =? 0) then wl ts (S n) va
  else if (S n =? 3)%nat && (Z.land d TABLE_OR_PAGE =? 0) then Err CorruptTable
  else leaf_translation (S n) va d.

Lemma wl_unfold ts n va t :
  wf ts -> (n <= 2)%nat -> va_ok va -> hop ts n va = Some t ->
  wl ts n va = wl_step ts n va (entry ts t (idx (S n) va)).
Proof.
  intros H Hn Hv Ht. unfold wl at 1. rewrite Ht.
  replace (3 - n)%nat with (S (3 - S n)) by lia. cbn [seq walk_loop].
  rewrite index_for_eq by (unfold valid_level; lia). cbn [obind].
  pose proof (wf_lt _ H n va t Hn Hv Ht). pose proof (wf_used _ H).
  rewrite get_entry_eq by (done || apply idx_lt || lia). cbn [obind].
  set (d := entry ts t (idx (S n) va)). unfold wl_step.
  destruct (Z.land d VALID =? 0) eqn:Ev; [done|].
  destruct (S n <? 3)%nat eqn:E3; simpl; [|by rewrite negb_involutive].
  destruct (Z.land d TABLE_OR_PAGE =? 0) eqn:Et; simpl; [by rewrite andb_true_r|].
  assert (Hvt : Z.land d VALID_TABLE = VALID_TABLE).
  { apply Z.eqb_eq. rewrite valid_table_bits, Ev, Et. done. }
  bool_prop. destruct (wf_child _ H n va t ltac:(lia) Hv Ht Hvt) as (c & Hc).
  fold d in Hc. rewrite Hc. cbn [obind]. unfold wl. cbn [hop]. rewrite Ht. simpl. fold d.
  unfold tchild. rewrite Hvt, Z.eqb_refl, Hc. done.
Qed.

(** A walk goes through every table it reaches. *)
Lemma wl_through ts n va c :
  wf ts -> (n <= 1)%nat -> va_ok va -> hop ts (S n) va = Some c -> wl ts n va = wl ts (S n) va.
Proof.
  intros H Hn Hv Hc. simpl in Hc. destruct (hop ts n va) as [t|] eqn:Ht; [|done]. simpl in Hc.
  rewrite (wl_unfold ts n va t) by (done || lia). unfold wl_step, tchild in *.
  destruct (Z.land _ VALID_TABLE =? _) eqn:E; [|done]. rewrite valid_table_bits in E.
  apply andb_true_iff in E as [E1%negb_true_iff E2%negb_true_iff]. rewrite E1, E2. simpl. by rewrite (proj2 (Nat.ltb_lt (S n) 3)) by lia.
Qed.

Lemma wl_0_through ts n va t :
  wf ts -> (n <= 2)%nat -> va_ok va -> hop ts n va = Some t -> wl ts 0 va = wl ts n va.
Proof.
  intros H Hn Hv. revert t. induction n as [|n IH]; intros t Ht; [done|].
  pose proof Ht as Ht'. simpl in Ht'. destruct (hop ts n va) as [t0|] eqn:E; [|done].
  rewrite (IH ltac:(lia) t0) by done. eapply wl_through; eauto. lia.
Qed.

(** Walks that read the same descriptors give the same result. *)
Lemma wl_frame ts ts' va n :
  wf ts -> wf ts' -> va_ok va -> (n <= 2)%nat ->
  (forall m, (n <= m <= 2)%nat -> hop ts' m va = hop ts m va) ->
  (forall m t, (n <= m <= 2)%nat -> hop ts m va = Some t ->
     entry ts' t (idx (S m) va) = entry ts t (idx (S m) va)) ->
  is_Some (hop ts n va) -> wl ts' n va = wl ts n va.
Proof.
  intros H H' Hv. remember (2 - n)%nat as k eqn:Ek. revert n Ek.
  induction k as [|k IH]; intros n Ek Hn Hh He [t Ht];
    rewrite (wl_unfold ts n va t), (wl_unfold ts' n va t) by (rewrite ?Hh by lia; done || lia);
    rewrite (He n t) by (done || lia); unfold wl_step.
  - assert (n = 2%nat) as -> by lia. done.
  - destruct (_ =? 0) eqn:Ev; [done|]. rewrite (proj2 (Nat.ltb_lt (S n) 3)) by lia.
    destruct (Z.land _ TABLE_OR_PAGE =? 0) eqn:Et; [done|]. cbn [andb negb].
    apply IH; [lia|lia| | |].
    + intros m Hm. apply Hh. lia.
    + intros m t' Hm. apply He. lia.
    + set (d := entry ts t (idx (S n) va)) in *.
      assert (Hvt : Z.land d VALID_TABLE = VALID_TABLE).
      { apply Z.eqb_eq. rewrite valid_table_bits, Ev, Et. done. }
      destruct (wf_child _ H n va t ltac:(lia) Hv Ht Hvt) as (c & Hc). exists c.
      simpl. rewrite Ht. simpl. fold d in Hc |- *. unfold tchild. by rewrite Hvt, Z.eqb_refl, Hc.
Qed.

(** Adding an empty child table changes no translation. *)
Lemma add_table_walk ts ts' n va t D va' :
  wf ts -> wf ts' -> (n <= 1)%nat -> va_ok va -> hop ts n va = Some t ->
  entry ts t (idx (S n) va) = 0 -> used ts' = (used ts + 1)%nat ->
  (forall t' i', entry ts' t' i' =
     if (t' =? used ts)%nat then 0
     else if (t' =? t)%nat && (i' =? idx (S n) va)%nat then D else entry ts t' i') ->
  (forall n' va', (n' <= 2)%nat -> va_ok va' -> hop ts' n' va' =
     if (n <? n')%nat && (pre (S n) va' =? pre (S n) va) then
       if (n' =? S n)%nat then Some (used ts) else None
     else hop ts n' va') ->
  va_ok va' -> wl ts' 0 va' = wl ts 0 va'.
Proof.
  intros H H' Hn Hva Ht Hz Hu Hentry Hhop Hva'.
  destruct (Z.eqb_spec (pre (S n) va') (pre (S n) va)) as [Hs|Hd].
  - assert (Ht' : hop ts n va' = Some t).
    { pose proof Hs as [Hp _]%pre_S_iff; [|lia|done|done]. by rewrite (hop_pre ts n va' va) by (done || lia). }
    assert (Hc : hop ts' (S n) va' = Some (used ts)).
    { rewrite Hhop by (done || lia). rewrite Hs, Z.eqb_refl, Nat.eqb_refl.
      by rewrite (proj2 (Nat.ltb_lt n (S n))) by lia. }
    rewrite (wl_0_through ts n va' t), (wl_0_through ts' (S n) va' (used ts)) by (done || lia).
    rewrite (wl_unfold ts n va' t), (wl_unfold ts' (S n) va' (used ts)) by (done || lia).
    pose proof Hs as [_ Hi]%pre_S_iff; [|lia|done|done].
    rewrite Hi, Hz, Hentry, Nat.eqb_refl. done.
  - apply wl_frame; [done..|lia| | |by eexists].
    + intros m Hm. rewrite Hhop by (done || lia).
      by rewrite (proj2 (Z.eqb_neq _ _) Hd), andb_false_r.
    + intros m t' Hm Hht. pose proof (wf_lt _ H m va' t' ltac:(lia) Hva' Hht).
      rewrite Hentry, (proj2 (Nat.eqb_neq t' (used ts))) by lia.
      destruct ((t' =? t)%nat && _) eqn:Es; [|done]. bool_prop. subst t'.
      destruct (slot_unique ts m n va' va t) as [-> ?]; try done; lia.
Qed.

(** ** Writing a slot that holds no table descriptor *)

Section SetSlot.
Context (ts ts' : TableSet) (n : nat) (va : Z) (t : nat) (d : Z).
Context (Hwf : wf ts) (Hn : (n <= 2)%nat) (Hva : va_ok va) (Ht : hop ts n va = Some t).
Context (Hleaf : n = 2%nat \/
  (Z.land (entry ts t (idx (S n) va)) VALID_TABLE <> VALID_TABLE /\ Z.land d VALID_TABLE <> VALID_TABLE)).
Context (Hbase : base_pa ts' = base_pa ts) (Hused : used ts' = used ts).
Context (Hbits : pa_bits ts' = pa_bits ts) (Hpages : length (pages ts') = length (pages ts)).
Context (Hlen : Forall (fun p => length p = 512%nat) (pages ts')).
Context (Hentry : forall t' i', entry ts' t' i' =
  if (t' =? t)%nat && (i' =? idx (S n) va)%nat then d else entry ts t' i').

Lemma set_slot_hop n' va' : (n' <= 2)%nat -> va_ok va' -> hop ts' n' va' = hop ts n' va'.
Proof using All.
  intros Hn' Hva'. induction n' as [|n' IH]; [done|].
  cbn [hop]. rewrite IH by lia. destruct (hop ts n' va') as [t'|] eqn:E; simpl; [|done].
  rewrite Hentry. destruct ((t' =? t)%nat && _) eqn:Es.
  - bool_prop. subst t'. destruct (slot_unique ts n' n va' va t) as [-> _]; try done; [lia|].
    destruct Hleaf as [->|[H1 H2]]; [lia|]. unfold tchild.
    rewrite (proj2 (Z.eqb_neq _ _) H2). rewrite H0.
    by rewrite (proj2 (Z.eqb_neq _ _) H1).
  - apply (tchild_stable ts ts' n' va' t'); done || lia.
Qed.

Lemma set_slot_wf : wf ts'.
Proof using All.
  split; rewrite ?Hpages, ?Hbase, ?Hbits, ?Hused; try apply Hwf; [done| | |].
  - intros m v x Hm Hv. rewrite set_slot_hop by done. by apply (wf_lt _ Hwf).
  - intros m m' v v' x Hm Hm' Hv Hv'. rewrite !set_slot_hop by done. by apply (wf_tree _ Hwf).
  - intros m v x Hm Hv. rewrite set_slot_hop by (done || lia). intros Hx. rewrite Hentry.
    destruct ((x =? t)%nat && _) eqn:Es.
    + bool_prop. subst x. destruct (slot_unique ts m n v va t) as [-> _]; try done; [lia|].
      destruct Hleaf as [->|[H1 H2]]; [lia|]. done.
    + intros Hd. destruct (wf_child _ Hwf m v x Hm Hv Hx Hd) as (c & Hc).
      exists c. eapply table_index_mono; [done| |done]. lia.
Qed.

(** Only addresses under the slot change their translation. *)
Lemma set_slot_walk va' :
  va_ok va' ->
  wl ts' 0 va' =
    if pre (S n) va' =? pre (S n) va then wl_step ts' n va' d else wl ts 0 va'.
Proof using All.
  intros Hva'. pose proof set_slot_wf as Hwf'.
  destruct (Z.eqb_spec (pre (S n) va') (pre (S n) va)) as [Hs|Hd].
  - pose proof Hs as [Hp Hi]%pre_S_iff; [|lia|done|done].
    assert (Ht' : hop ts' n va' = Some t)
      by (rewrite set_slot_hop by (done || lia); by rewrite (hop_pre ts n va' va) by (done || lia)).
    rewrite (wl_0_through ts' n va' t), (wl_unfold ts' n va' t) by (done || lia).
    by rewrite Hentry, Hi, !Nat.eqb_refl.
  - apply wl_frame; [done..|lia| | |by eexists].
    + intros m Hm. apply set_slot_hop; done || lia.
    + intros m t' Hm Hht. rewrite Hentry.
      destruct ((t' =? t)%nat && _) eqn:Es; [|done]. bool_prop. subst t'.
      destruct (slot_unique ts m n va' va t) as [-> ?]; try done; lia.
Qed.

End SetSlot.

(** ** [map_leaf] *)

(** [ts'] is a well-formed table set with the translations of [ts]. *)
Definition same_walks (ts ts' : TableSet) : Prop :=
  wf ts' /\ pa_bits ts' = pa_bits ts /\ forall va, va_ok va -> wl ts' 0 va = wl ts 0 va.

Lemma same_walks_refl ts : wf ts -> same_walks ts ts.
Proof. done. Qed.

Lemma same_walks_trans a b c : same_walks a b -> same_walks b c -> same_walks a c.
Proof.
  intros (_ & H1 & H2) (H3 & H4 & H5). split; [done|]. split; [congruence|].
  intros va Hva. by rewrite H5, H2.
Qed.

Lemma entry_alloc ts page t i :
  pages ts !! used ts = Some page ->
  entry (mkTableSet (<[used ts := (fun _ => 0) <$> page]> (pages ts)) (used ts + 1)
           (base_pa ts) (pa_bits ts)) t i =
  if (t =? used ts)%nat then 0 else entry ts t i.
Proof.
  intros Hp. pose proof (lookup_lt_Some _ _ _ Hp). unfold entry. simpl.
  destruct (Nat.eqb_spec t (used ts)) as [->|].
  - rewrite list_lookup_insert_eq by done. simpl. rewrite list_lookup_fmap. by destruct (page !! i).
  - by rewrite list_lookup_insert_ne by done.
Qed.

(** The zero-entry branch of [descend]: a fresh table is linked in. *)
Lemma link_child_spec ts n va t page :
  wf ts -> (n <= 1)%nat -> va_ok va -> hop ts n va = Some t -> entry ts t (idx (S n) va) = 0 ->
  pages ts !! used ts = Some page ->
  let ts1 := mkTableSet (<[used ts := (fun _ => 0) <$> page]> (pages ts)) (used ts + 1)
               (base_pa ts) (pa_bits ts) in
  exists p ts2, table_pa (E:=TranslationError) ts1 (used ts) = Ok p /\
    set_entry (E:=TranslationError) t (idx (S n) va) (Z.lor (Z.lor p VALID) TABLE_OR_PAGE) ts1 = Ok ts2 /\
    same_walks ts ts2 /\ hop ts2 (S n) va = Some (used ts).
Proof.
  intros H Hn Hva Ht Hz Hp ts1. pose proof (lookup_lt_Some _ _ _ Hp) as Hroom.
  pose proof (wf_lt _ H n va t ltac:(lia) Hva Ht). pose proof (idx_lt (S n) va) as Hix.
  destruct (wf_base _ H) as [Hb0 Hbm]. pose proof (wf_end _ H) as Hend.
  destruct (table_descriptor_child ts1 (used ts)) as (p & Hpa & HD & HDi);
    [done|done|unfold PAGE_SIZE in *; simpl; lia|simpl; lia|].
  set (D := Z.lor (Z.lor p VALID) TABLE_OR_PAGE) in *.
  destruct (set_entry_eq (E:=TranslationError) ts1 t (idx (S n) va) D) as (ps & Hse & Hlp & Hfp & He).
  { simpl. apply Forall_insert; [apply H|]. rewrite length_fmap.
    eapply (Forall_lookup_1 _ _ _ _ (wf_len _ H)); eauto. }
  { simpl. rewrite length_insert. lia. }
  { done. }
  set (ts2 := with_pages ts1 ps (used ts1)) in *. exists p, ts2. split; [done|]. split; [done|].
  assert (Hlen2 : length (pages ts2) = length (pages ts)) by (simpl; rewrite Hlp; simpl; apply length_insert).
  assert (Hentry : forall t' i', entry ts2 t' i' =
    if (t' =? used ts)%nat then 0
    else if (t' =? t)%nat && (i' =? idx (S n) va)%nat then D else entry ts t' i').
  { intros t' i'. rewrite He. unfold ts1. rewrite entry_alloc by done.
    destruct (Nat.eqb_spec t' t), (Nat.eqb_spec t' (used ts)), (i' =? _)%nat; simpl; done || lia. }
  assert (Hwf2 : wf ts2) by (eapply (add_table_wf ts ts2 n va t D); eauto; lia).
  assert (Hhop : forall n' va', (n' <= 2)%nat -> va_ok va' -> hop ts2 n' va' =
    if (n <? n')%nat && (pre (S n) va' =? pre (S n) va) then
      if (n' =? S n)%nat then Some (used ts) else None else hop ts n' va').
  { intros. eapply (add_table_hop ts ts2 n va t D); eauto. }
  split; [split; [done|split; [done|]]|].
  - intros va' Hva'. eapply (add_table_walk ts ts2 n va t D); eauto.
  - rewrite Hhop by (done || lia). rewrite Z.eqb_refl, Nat.eqb_refl.
    by rewrite (proj2 (Nat.ltb_lt n (S n))) by lia.
Qed.

Lemma descend_spec ts n va t r ts' :
  wf ts -> (n <= 1)%nat -> va_ok va -> hop ts n va = Some t ->
  descend va t (S n) ts = (r, ts') ->
  same_walks ts ts' /\
  match r with Ok c => hop ts' (S n) va = Some c | Err _ => True | Panic => False end.
Proof.
  intros H Hn Hva Ht. unfold descend, sbind, slift, stry.
  rewrite index_for_eq by (unfold valid_level; lia).
  pose proof (wf_lt _ H n va t ltac:(lia) Hva Ht). pose proof (wf_used _ H) as Hus.
  pose proof (idx_lt (S n) va) as Hix.
  rewrite get_entry_eq by (done || lia). set (d := entry ts t (idx (S n) va)).
  destruct (Z.eqb_spec d 0) as [Hd0|Hd0].
  - unfold allocate_page. destruct (Nat.eqb_spec (used ts) (length (pages ts))) as [|Hfull].
    { intros [= <- <-]. by split; [apply same_walks_refl|]. }
    destruct (arr_get_lt (E:=TranslationError) (pages ts) (used ts) ltac:(lia)) as (page & Hp & ->).
    destruct (link_child_spec ts n va t page H Hn Hva Ht Hd0 Hp) as (p & ts2 & -> & Hse & Hsw & Hhop).
    unfold supdate. rewrite Hse. intros [= <- <-]. done.
  - destruct (Z.eqb_spec (Z.land d VALID_TABLE) VALID_TABLE) as [Hvt|_].
    + destruct (wf_child _ H n va t Hn Hva Ht Hvt) as (c & Hc). fold d in Hc. rewrite Hc.
      intros [= <- <-]. split; [by apply same_walks_refl|]. simpl. rewrite Ht. simpl. fold d.
      unfold tchild. by rewrite Hvt, Z.eqb_refl, Hc.
    + intros [= <- <-]. by split; [apply same_walks_refl|].
Qed.

Lemma descend_all_spec ts n va t k r ts' :
  wf ts -> (n + k <= 2)%nat -> va_ok va -> hop ts n va = Some t ->
  descend_all va t (seq (S n) k) ts = (r, ts') ->
  same_walks ts ts' /\
  match r with Ok c => hop ts' (n + k) va = Some c | Err _ => True | Panic => False end.
Proof.
  revert ts n t. induction k as [|k IH]; intros ts n t H Hnk Hva Ht; cbn [seq descend_all].
  { intros [= <- <-]. split; [by apply same_walks_refl|]. by rewrite Nat.add_0_r. }
  unfold sbind. destruct (descend va t (S n) ts) as [r1 ts1] eqn:E.
  destruct (descend_spec ts n va t r1 ts1 H ltac:(lia) Hva Ht E) as [Hs Hr].
  destruct r1 as [c| |]; [|intros [= <- <-]; done..].
  intros E2. destruct (IH ts1 (S n) c) as [Hs2 Hr2]; [apply Hs|lia|done|done|done|].
  split; [by eapply same_walks_trans|]. by rewrite Nat.add_succ_comm in Hr2.
Qed.

Lemma map_leaf_spec ts level va pa m r ts' :
  wf ts -> valid_level level -> va_ok va ->
  map_leaf level va pa m ts = (r, ts') ->
  wf ts' /\ pa_bits ts' = pa_bits ts /\
  match r with
  | Ok _ => forall va', va_ok va' -> wl ts' 0 va' =
      if pre level va' =? pre level va then leaf_translation level va' (leaf_desc level pa m)
      else wl ts 0 va'
  | Err _ => forall va', va_ok va' -> wl ts' 0 va' = wl ts 0 va'
  | Panic => False
  end.
Proof.
  intros H Hl Hva. unfold map_leaf, sbind at 1.
  destruct (descend_all va 0 (seq 1 (level - 1)) ts) as [r1 ts1] eqn:E.
  destruct (descend_all_spec ts 0 va 0 (level - 1) r1 ts1 H) as [(Hwf1 & Hb1 & Hw1) Hr];
    [unfold valid_level in Hl; lia|done|done|done|].
  destruct r1 as [t| |]; [|intros [= <- <-]; done..].
  simpl in Hr. set (n := (level - 1)%nat) in *. assert (Hn : (n <= 2)%nat) by (unfold valid_level, n in *; lia).
  assert (HSn : level = S n) by (unfold valid_level, n in *; lia).
  unfold sbind, slift, stry. rewrite index_for_eq, leaf_descriptor_eq by done.
  pose proof (wf_lt _ Hwf1 n va t Hn Hva Hr). pose proof (wf_used _ Hwf1).
  rewrite get_entry_eq by (done || apply idx_lt || lia). set (d := leaf_desc level pa m).
  destruct (negb _ && negb _) eqn:Ec.
  { intros [= <- <-]. done. }
  unfold supdate.
  destruct (set_entry_eq (E:=TranslationError) ts1 t (idx level va) d) as (ps & -> & Hlp & Hfp & He);
    [apply Hwf1|lia|apply idx_lt|].
  intros [= <- <-]. rewrite HSn in He.
  assert (Hleaf : n = 2%nat \/ (Z.land (entry ts1 t (idx (S n) va)) VALID_TABLE <> VALID_TABLE /\
                               Z.land d VALID_TABLE <> VALID_TABLE)).
  { destruct (decide (n = 2%nat)) as [|Hn2]; [by left|right].
    assert (Hd : Z.land d VALID_TABLE <> VALID_TABLE).
    { unfold d. rewrite leaf_desc_valid_table by done. rewrite (proj2 (Nat.eqb_neq level 3)) by lia. done. }
    split; [|done]. rewrite <- HSn. apply andb_false_iff in Ec as [Ec|Ec]; bool_prop; rewrite Ec; done. }
  split; [eapply (set_slot_wf ts1); eauto|]. split; [done|]. intros va' Hva'.
  rewrite (set_slot_walk ts1 _ n va t d) by (try apply Hleaf; done).
  rewrite HSn. destruct (pre (S n) va' =? _); [|by apply Hw1].
  unfold wl_step, d. rewrite HSn. rewrite leaf_desc_valid, leaf_desc_table by (by rewrite <- HSn).
  cbn [Z.eqb]. destruct (Nat.eqb_spec (S n) 3) as [->|]; [done|].
  by rewrite andb_false_r.
Qed.

(** ** [map] *)

(** The walk of [va] finds the translation the mapping asks for. *)
Definition maps_to (ts : TableSet) (m : Mapping) (va : Z) : Prop :=
  exists level, valid_level level /\
    walk ts va = Ok (Some (mkTranslation (m_pa m + (va - m_va m)) (m_type m)
                             (m_writable m) (m_executable m) level)).

Lemma lor_mod_pow2 a b k :
  0 <= k -> Z.lor a b mod 2 ^ k = 0 <-> a mod 2 ^ k = 0 /\ b mod 2 ^ k = 0.
Proof.
  intros Hk. rewrite <- !Z.land_ones, Z.land_lor_distr_l by done. apply Z.lor_eq_0_iff.
Qed.

Lemma pre_div level va : valid_level level -> pre level va = va / lsize level.
Proof. intros Hl. unfold pre, lsize. levels Hl; apply Z.shiftr_div_pow2; cbn [lshift]; lia. Qed.

Lemma pre_block level va va' :
  valid_level level -> va mod lsize level = 0 ->
  pre level va' = pre level va <-> va <= va' < va + lsize level.
Proof.
  intros Hl Hm. rewrite !pre_div by done. pose proof (lsize_pos level) as Hp.
  rewrite Z.mod_eq in Hm by lia. split.
  - intros He. pose proof (Z.mod_pos_bound va' (lsize level) Hp) as Hb.
    rewrite Z.mod_eq in Hb by lia. lia.
  - intros Hb. symmetry. apply (Z.div_unique_pos _ _ _ (va' - va)); lia.
Qed.

Lemma chunk_for_spec va pa rem level chunk :
  0 <= va -> 0 <= pa -> va mod PAGE_SIZE = 0 -> pa mod PAGE_SIZE = 0 -> rem mod PAGE_SIZE = 0 ->
  0 < rem -> chunk_for va pa rem = (level, chunk) ->
  valid_level level /\ chunk = lsize level /\ va mod lsize level = 0 /\ pa mod lsize level = 0 /\
  chunk <= rem /\ chunk mod PAGE_SIZE = 0.
Proof.
  intros Hva Hpa Hv Hp Hr Hpos. unfold chunk_for, aligned_for, valid_level.
  change L1_SIZE with (2 ^ 30). change L2_SIZE with (2 ^ 21). rewrite !land_pow2_pred by lia.
  destruct ((_ =? 0) && (2 ^ 30 <=? rem)) eqn:E1.
  { intros [= <- <-]. bool_prop. apply lor_mod_pow2 in H as [? ?]; [|lia].
    split_and!; try done; lia. }
  destruct ((_ =? 0) && (2 ^ 21 <=? rem)) eqn:E2.
  { intros [= <- <-]. bool_prop. apply lor_mod_pow2 in H as [? ?]; [|lia].
    split_and!; try done; lia. }
  intros [= <- <-]. split_and!; try done; try lia.
  rewrite Z.mod_eq in Hr by done. unfold PAGE_SIZE in *.
  destruct (Z.le_gt_cases 1 (rem / 0x1000)); lia.
Qed.

Lemma maps_to_transfer ts ts' m va :
  walk ts' va = walk ts va -> maps_to ts m va -> maps_to ts' m va.
Proof. intros He (l & Hl & Hw). exists l. by rewrite He. Qed.

(** One aligned chunk: its addresses are mapped, the others keep their walk. *)
Lemma map_leaf_block ts level va pa m r ts' :
  wf ts -> valid_level level -> 0 <= va -> va + lsize level <= 2 ^ 39 ->
  0 <= pa -> pa + lsize level <= 2 ^ 48 ->
  va mod lsize level = 0 -> pa mod lsize level = 0 -> pa - va = m_pa m - m_va m ->
  map_leaf level va pa m ts = (r, ts') ->
  wf ts' /\ pa_bits ts' = pa_bits ts /\
  match r with
  | Ok _ => forall va', va_ok va' ->
      if (va <=? va') && (va' <? va + lsize level) then maps_to ts' m va'
      else walk ts' va' = walk ts va'
  | Err _ => forall va', va_ok va' -> walk ts' va' = walk ts va'
  | Panic => False
  end.
Proof.
  intros H Hl Hva Hve Hpa Hpe Hvl Hpl Hoff E. pose proof (lsize_pos level).
  destruct (map_leaf_spec ts level va pa m r ts' H Hl ltac:(split; lia) E) as (Hwf & Hb & Hw).
  split_and!; [done..|]. destruct r; [| |done]; intros va' Hv'; [|rewrite !walk_wl by done; by apply Hw].
  pose proof (pre_block level va va' Hl Hvl) as Hpb.
  destruct ((va <=? va') && _) eqn:Eb; bool_prop.
  - exists level. split; [done|]. rewrite walk_wl, Hw by done.
    rewrite (proj2 (Z.eqb_eq _ _)) by (apply Hpb; lia).
    rewrite leaf_translation_leaf by (done || lia).
    assert (va' mod lsize level = va' - va) as ->.
    { symmetry. apply Zmod_unique with (va / lsize level); [lia|]. rewrite Z.mod_eq in Hvl by lia. lia. }
    do 3 f_equal. lia.
  - rewrite !walk_wl, Hw by done. rewrite (proj2 (Z.eqb_neq _ _)); [done|]. intros He%Hpb.
    destruct Eb; bool_prop; lia.
Qed.

Lemma pages_decrease rem c :
  0 <= rem - c -> PAGE_SIZE <= c ->
  (Z.to_nat ((rem - c) / PAGE_SIZE) < Z.to_nat (rem / PAGE_SIZE))%nat.
Proof.
  intros H0 Hc. unfold PAGE_SIZE in *.
  pose proof (Z.div_le_mono (rem - c) (rem + -1 * 0x1000) 0x1000 ltac:(lia) ltac:(lia)) as Hd.
  rewrite Z.div_add in Hd by lia. pose proof (Z.div_pos (rem - c) 0x1000). lia.
Qed.

Lemma mod_add_0 a b : a mod PAGE_SIZE = 0 -> b mod PAGE_SIZE = 0 -> (a + b) mod PAGE_SIZE = 0.
Proof. intros Ha Hb. by rewrite Z.add_mod, Ha, Hb by done. Qed.

Lemma mod_sub_0 a b : a mod PAGE_SIZE = 0 -> b mod PAGE_SIZE = 0 -> (a - b) mod PAGE_SIZE = 0.
Proof. intros Ha Hb. by rewrite Zminus_mod, Ha, Hb. Qed.

Lemma lsize_ge_page level : valid_level level -> PAGE_SIZE <= lsize level.
Proof. intros Hl. levels Hl; done. Qed.

Lemma map_loop_spec fuel ts m va pa rem r ts' :
  wf ts -> 0 <= va -> 0 <= pa -> 0 <= rem ->
  va mod PAGE_SIZE = 0 -> pa mod PAGE_SIZE = 0 -> rem mod PAGE_SIZE = 0 ->
  va + rem <= 2 ^ 39 -> pa + rem <= 2 ^ 48 -> pa - va = m_pa m - m_va m ->
  (Z.to_nat (rem / PAGE_SIZE) < fuel)%nat ->
  map_loop fuel m va pa rem ts = (r, ts') ->
  wf ts' /\ pa_bits ts' = pa_bits ts /\
  match r with
  | Ok _ => forall va', va_ok va' ->
      if (va <=? va') && (va' <? va + rem) then maps_to ts' m va' else walk ts' va' = walk ts va'
  | Err _ => forall va', va_ok va' ->
      walk ts' va' = walk ts va' \/ (va <= va' < va + rem /\ maps_to ts' m va')
  | Panic => False
  end.
Proof.
  revert ts va pa rem. induction fuel as [|fuel IH];
    intros ts va pa rem H Hva Hpa Hrem Hvm Hpm Hrm Hve Hpe Hoff Hf; [lia|].
  cbn [map_loop]. destruct (Z.eqb_spec rem 0) as [->|Hnz].
  { intros [= <- <-]. split_and!; [done..|]. intros va' _.
    destruct (Z.leb_spec va va'), (Z.ltb_spec va' (va + 0)); simpl; done || lia. }
  destruct (chunk_for va pa rem) as [level chunk] eqn:Ec.
  destruct (chunk_for_spec va pa rem level chunk) as (Hl & -> & Hvl & Hpl & Hcr & Hcm); [done..|lia|done|].
  pose proof (lsize_ge_page level Hl) as Hlp. unfold sbind at 1.
  destruct (map_leaf level va pa m ts) as [r1 ts1] eqn:El.
  destruct (map_leaf_block ts level va pa m r1 ts1) as (Hwf1 & Hb1 & Hw1);
    [done|done|done|lia|done|lia|done|done|done|done|].
  destruct r1 as [[]| |]; [|intros [= <- <-]..]; [| |done]; [|split_and!; [done..|]; auto].
  unfold sbind, slift. rewrite (add64_ok va), (add64_ok pa), (sub64_ok rem) by (unfold PAGE_SIZE in *; lia).
  intros Eloop. pose proof (pages_decrease rem (lsize level) ltac:(lia) Hlp).
  destruct (IH ts1 (va + lsize level) (pa + lsize level) (rem - lsize level))
    as (Hwf2 & Hb2 & Hw2); try first [by apply mod_sub_0 | by apply mod_add_0]; try done;
    [unfold PAGE_SIZE in *; lia..|].
  pose proof (lsize_pos level).
  split; [done|]. split; [congruence|]. destruct r as [[]| |]; [| |done]; intros va' Hv';
    specialize (Hw2 va' Hv'); specialize (Hw1 va' Hv').
  - destruct (Z.leb_spec (va + lsize level) va'), (Z.ltb_spec va' (va + lsize level + (rem - lsize level))),
      (Z.leb_spec va va'), (Z.ltb_spec va' (va + lsize level)), (Z.ltb_spec va' (va + rem));
      simpl in *; try lia; try done; try (by eapply maps_to_transfer); congruence.
  - destruct Hw2 as [Hw2|[Hr2 Hw2]]; [|right; split; [lia|done]].
    destruct ((va <=? va') && _) eqn:Eb; [|left; congruence]. bool_prop.
    right. split; [lia|]. by eapply maps_to_transfer.
Qed.

Lemma validate_mapping_ok ts m :
  wf ts ->
  match validate_mapping ts m with
  | Ok _ => m_va m mod PAGE_SIZE = 0 /\ m_pa m mod PAGE_SIZE = 0 /\ m_size m mod PAGE_SIZE = 0 /\
            m_va m + m_size m <= 2 ^ 39 /\ m_pa m + m_size m <= 2 ^ 48 /\ m_size m <> 0
  | Err _ => True
  | Panic => False
  end.
Proof.
  intros H. unfold validate_mapping. destruct (_ =? 0) eqn:E0; [done|].
  destruct (is_page_aligned _) eqn:Ha; [|done]. cbn [negb].
  apply is_page_aligned_iff in Ha. rewrite PAGE_SIZE_pow2 in *.
  rewrite !lor_mod_pow2 in Ha by lia. destruct Ha as [[? ?] ?].
  destruct (checked_add (m_va m) _) eqn:E1; cbn [ok_or obind]; [|done].
  destruct (checked_add (m_pa m) _) eqn:E2; cbn [ok_or obind]; [|done].
  apply checked_add_Some in E1 as [-> _], E2 as [-> _].
  destruct (_ <? _) eqn:E3; [done|]. destruct (Z.shiftl 1 (pa_bits ts) <? _) eqn:E4; [done|]. bool_prop.
  change (Z.shiftl 1 VA_BITS) with (2 ^ 39) in E3. rewrite Z.shiftl_1_l in E4.
  pose proof (wf_pa_bits _ H). pose proof (Z.pow_le_mono_r 2 (pa_bits ts) 48). split_and!; done || lia.
Qed.

Lemma TableSet_map_effect ts m r ts' :
  wf ts -> u64 (m_va m) -> u64 (m_pa m) -> u64 (m_size m) ->
  TableSet_map m ts = (r, ts') ->
  wf ts' /\
  match r with
  | Ok _ => forall va, va_ok va ->
      if (m_va m <=? va) && (va <? m_va m + m_size m) then maps_to ts' m va
      else walk ts' va = walk ts va
  | Err _ => forall va, va_ok va ->
      walk ts' va = walk ts va \/ (m_va m <= va < m_va m + m_size m /\ maps_to ts' m va)
  | Panic => False
  end.
Proof.
  intros H [Hv0 _] [Hp0 _] [Hs0 _]. unfold TableSet_map, sbind at 1, stry.
  pose proof (validate_mapping_ok ts m H) as Hv.
  destruct (validate_mapping ts m) as [[]| |]; [|intros [= <- <-]; auto|done].
  destruct Hv as (? & ? & ? & ? & ? & ?). intros E.
  apply map_loop_spec in E as (? & ? & Hw); try done; lia.
Qed.

(** C14 [TableSet_map_correct]: on a well-formed table set, [map] never panics and keeps the
    set well formed. When it succeeds, the walk of every address of the
    mapping yields its physical address, memory type and permissions, and the
    walk of every other address is unchanged. When it fails, each address
    either keeps its walk or already has the requested one. *)
Theorem TableSet_map_correct ts m r ts' :
  wf ts -> u64 (m_va m) -> u64 (m_pa m) -> u64 (m_size m) ->
  TableSet_map m ts = (r, ts') ->
  wf ts' /\
  match r with
  | Ok _ => forall va, va_ok va ->
      if (m_va m <=? va) && (va <? m_va m + m_size m) then maps_to ts' m va
      else walk ts' va = walk ts va
  | Err _ => forall va, va_ok va ->
      walk ts' va = walk ts va \/ (m_va m <= va < m_va m + m_size m /\ maps_to ts' m va)
  | Panic => False
  end.
Proof. apply TableSet_map_effect. Qed.

(** ** Construction *)

Lemma fresh_hop ts n va :
  (forall i, entry ts 0 i = 0) -> hop ts n va = if (n =? 0)%nat then Some 0%nat else None.
Proof.
  intros H0. induction n as [|[|n] IH]; [done| |]; cbn [hop] in *.
  - simpl. by rewrite H0.
  - rewrite IH. done.
Qed.

Lemma TableSet_new_effect storage base bits :
  Forall (fun p => length p = 512%nat) storage -> u64 base -> 0 <= bits < 256 ->
  match TableSet_new storage base bits with
  | Ok ts => wf ts /\ base_pa ts = base /\ used ts = 1%nat /\
             forall va, va_ok va -> walk ts va = Ok None
  | Err _ => True
  | Panic => False
  end.
Proof.
  intros Hst [Hb0 _] _. unfold TableSet_new.
  destruct (_ && _) eqn:Ebits; [|done]. cbn [negb]. destruct (is_page_aligned base) eqn:Ha; [|done]. cbn [negb].
  destruct (_ <=? base) eqn:Eb; [done|]. destruct (length storage =? 0)%nat eqn:El; [done|].
  destruct (checked_mul _ _) as [bl|] eqn:Em; cbn [ok_or obind]; [|done].
  destruct (checked_add _ _) as [e|] eqn:Ee; cbn [ok_or obind]; [|done].
  destruct (_ <? e) eqn:Ep; [done|]. bool_prop. apply is_page_aligned_iff in Ha.
  unfold checked_mul in Em. destruct (_ <? _) in Em; [|done]. injection Em as <-.
  apply checked_add_Some in Ee as [-> _]. rewrite Z.shiftl_1_l in *.
  pose proof (Z.pow_le_mono_r 2 bits 48 ltac:(lia) ltac:(lia)).
  unfold allocate_page. cbn [used pages]. rewrite (proj2 (Nat.eqb_neq 0 (length storage))) by lia.
  destruct (arr_get_lt (E:=TranslationError) storage 0 ltac:(lia)) as (page & Hp & ->).
  match goal with |- wf ?x /\ _ => set (ts := x) end.
  assert (He : forall i, entry ts 0 i = 0).
  { intros i. unfold ts. by rewrite (entry_alloc (mkTableSet storage 0 base bits)). }
  assert (Hwf : wf ts).
  { split; simpl; rewrite ?length_insert; try lia.
    - apply Forall_insert; [done|]. rewrite length_fmap.
      eapply (Forall_lookup_1 _ _ _ _ Hst); eauto.
    - intros n va t _ _. rewrite fresh_hop by done. destruct (_ =? _)%nat; [|done]. intros [= <-]. lia.
    - intros n n' va va' t _ _ _ _. rewrite !fresh_hop by done.
      destruct (Nat.eqb_spec n 0), (Nat.eqb_spec n' 0); try done. intros _ _. by subst.
    - intros n va t _ _. rewrite fresh_hop by done. destruct (_ =? _)%nat; [|done].
      intros [= <-]. by rewrite He. }
  split_and!; [done..|]. intros va Hva. rewrite walk_wl by done.
  rewrite (wl_unfold ts 0 va 0) by (done || lia). by rewrite He.
Qed.

(** [TableSet_new_empty]: construction from any storage of 512-entry pages either
    reports an error or yields a well-formed table set that translates no
    address. *)
Lemma TableSet_new_empty storage base bits :
  Forall (fun p => length p = 512%nat) storage -> u64 base -> 0 <= bits < 256 ->
  match TableSet_new storage base bits with
  | Ok ts => wf ts /\ base_pa ts = base /\ used ts = 1%nat /\
             forall va, va_ok va -> walk ts va = Ok None
  | Err _ => True
  | Panic => False
  end.
Proof. apply TableSet_new_effect. Qed.

(** ** Break before make *)

Lemma follow_spec ts va n t k :
  wf ts -> va_ok va -> (n + k <= 2)%nat -> hop ts n va = Some t ->
  match follow ts va t (seq (S n) k) with
  | Ok c => hop ts (n + k) va = Some c
  | Err _ => True
  | Panic => False
  end.
Proof.
  intros H Hva. revert n t. induction k as [|k IH]; intros n t Hn Ht; cbn [seq follow].
  { by rewrite Nat.add_0_r. }
  rewrite index_for_eq by (unfold valid_level; lia). cbn [obind].
  pose proof (wf_lt _ H n va t ltac:(lia) Hva Ht). pose proof (wf_used _ H).
  rewrite get_entry_eq by (done || apply idx_lt || lia). cbn [obind].
  destruct (Z.eqb_spec (Z.land (entry ts t (idx (S n) va)) VALID_TABLE) VALID_TABLE) as [Hvt|]; [|done].
  cbn [negb]. destruct (wf_child _ H n va t ltac:(lia) Hva Ht Hvt) as (c & Hc). rewrite Hc. cbn [obind].
  rewrite <- Nat.add_succ_comm. apply IH; [lia|]. simpl. rewrite Ht. simpl.
  unfold tchild. by rewrite Hvt, Z.eqb_refl, Hc.
Qed.

Lemma replace_target_spec ts va old_pa new_pa :
  wf ts -> 0 <= va -> 0 <= old_pa -> 0 <= new_pa ->
  match replace_target ts va old_pa new_pa with
  | Ok (t, i, d) =>
      va_ok va /\ va mod PAGE_SIZE = 0 /\ hop ts 2 va = Some t /\ i = idx 3 va /\
      entry ts t i = leaf_desc 3 old_pa (data_page_mapping va old_pa) /\
      d = leaf_desc 3 new_pa (data_page_mapping va new_pa) /\
      old_pa mod PAGE_SIZE = 0 /\ new_pa mod PAGE_SIZE = 0 /\
      old_pa < 2 ^ 48 /\ new_pa < 2 ^ 48 /\ old_pa <> new_pa
  | Err _ => True
  | Panic => False
  end.
Proof.
  intros H Hva Hold Hnew. unfold replace_target.
  pose proof (validate_mapping_ok ts (data_page_mapping va new_pa) H) as Hv.
  destruct (validate_mapping ts _) as [[]| |]; cbn [obind]; [|done..].
  pose proof (validate_mapping_ok ts (data_page_mapping va old_pa) H) as Hv2.
  destruct (validate_mapping ts _) as [[]| |]; cbn [obind]; [|done..]. simpl in Hv, Hv2.
  destruct Hv as (? & ? & _ & ? & ? & _), Hv2 as (_ & ? & _ & _ & ? & _). unfold PAGE_SIZE in *.
  assert (Hvo : va_ok va) by (split; lia).
  destruct (_ || _) eqn:Eo; [done|]. bool_prop.
  pose proof (follow_spec ts va 0 0 2 H Hvo ltac:(lia) eq_refl) as Hf. cbn [seq] in Hf.
  destruct (follow ts va 0 _) as [t| |]; cbn [obind]; [|done..]. simpl in Hf.
  assert (Hl3 : valid_level 3) by (unfold valid_level; lia).
  rewrite index_for_eq, !leaf_descriptor_eq by done. cbn [obind].
  pose proof (wf_lt _ H 2 va t ltac:(lia) Hvo Hf). pose proof (wf_used _ H).
  rewrite get_entry_eq by (done || apply idx_lt || lia). cbn [obind].
  destruct (_ =? _) eqn:Ec; [|done]. cbn [negb]. bool_prop.
  split_and!; try done; lia.
Qed.

(** The page-level addresses of a page. *)
Definition in_page (va v : Z) : Prop := va <= v < va + PAGE_SIZE.

Definition page_translation (pa off : Z) : outcome TranslationError (option Translation) :=
  Ok (Some (mkTranslation (pa + off) Normal true false 3)).

(** Every walk of [ts'] outside the page at [va] is that of [ts]; inside, it is [f]. *)
Definition only_page (ts ts' : TableSet) (va : Z) (f : Z -> outcome TranslationError (option Translation)) : Prop :=
  wf ts' /\ forall v, va_ok v ->
    (in_page va v -> walk ts' v = f v) /\ (~ in_page va v -> walk ts' v = walk ts v).

Lemma store_page_slot ts va t d :
  wf ts -> va_ok va -> va mod PAGE_SIZE = 0 -> hop ts 2 va = Some t ->
  exists ts', set_entry (E:=TranslationError) t (idx 3 va) d ts = Ok ts' /\ wf ts' /\
    hop ts' 2 va = Some t /\ only_page ts ts' va (fun v => wl_step ts' 2 v d).
Proof.
  intros H Hva Hm Ht. pose proof (wf_lt _ H 2 va t ltac:(lia) Hva Ht). pose proof (wf_used _ H).
  destruct (set_entry_eq (E:=TranslationError) ts t (idx 3 va) d) as (ps & -> & Hlp & Hfp & He);
    [apply H|lia|apply idx_lt|].
  set (ts' := with_pages ts ps (used ts)) in *. exists ts'. split; [done|].
  assert (Hwf' : wf ts') by (eapply (set_slot_wf ts ts' 2 va t d); eauto).
  split; [done|]. split.
  { rewrite (set_slot_hop ts ts' 2 va t d); auto. }
  split; [done|]. intros v Hv. assert (Hl3 : valid_level 3) by (unfold valid_level; lia).
  pose proof (pre_block 3 va v Hl3 Hm) as Hpb. change (lsize 3) with PAGE_SIZE in Hpb.
  rewrite !walk_wl by done. rewrite (set_slot_walk ts ts' 2 va t d) by auto.
  destruct (Z.eqb_spec (pre 3 v) (pre 3 va)) as [He3|He3]; unfold in_page; split; naive_solver.
Qed.

Lemma wl_step_page ts v va pa :
  0 <= pa < 2 ^ 48 -> pa mod PAGE_SIZE = 0 -> va mod PAGE_SIZE = 0 -> in_page va v ->
  wl_step ts 2 v (leaf_desc 3 pa (data_page_mapping va pa)) = page_translation pa (v - va).
Proof.
  intros Hpa Hm Hva Hv. assert (Hl3 : valid_level 3) by (unfold valid_level; lia).
  unfold wl_step. rewrite leaf_desc_valid, leaf_desc_table by done. cbn [Z.eqb].
  rewrite leaf_translation_leaf by (done || exact Hm). unfold page_translation. do 4 f_equal.
  unfold in_page in Hv. change (lsize 3) with PAGE_SIZE. rewrite Z.mod_eq in Hva by done.
  symmetry. apply Zmod_unique with (va / PAGE_SIZE); lia.
Qed.

Lemma page_walk_before ts va t pa :
  wf ts -> va_ok va -> va mod PAGE_SIZE = 0 -> hop ts 2 va = Some t ->
  0 <= pa < 2 ^ 48 -> pa mod PAGE_SIZE = 0 ->
  entry ts t (idx 3 va) = leaf_desc 3 pa (data_page_mapping va pa) ->
  forall v, va_ok v -> in_page va v -> walk ts v = page_translation pa (v - va).
Proof.
  intros H Hva Hm Ht Hpa Hpm He v Hv Hin. assert (Hl3 : valid_level 3) by (unfold valid_level; lia).
  assert (Hpre : pre 3 v = pre 3 va) by (apply pre_block; done).
  apply pre_S_iff in Hpre as [Hp Hi]; [|lia|done|done].
  assert (Ht' : hop ts 2 v = Some t) by (by rewrite (hop_pre ts 2 v va) by (done || lia)).
  rewrite walk_wl, (wl_0_through ts 2 v t), (wl_unfold ts 2 v t) by (done || lia).
  rewrite Hi, He. by apply wl_step_page.
Qed.

Lemma only_page_trans ts ts1 ts2 va f g :
  only_page ts ts1 va f -> only_page ts1 ts2 va g -> only_page ts ts2 va g.
Proof.
  intros [_ H1] [Hw H2]. split; [done|]. intros v Hv. split; [by apply H2|].
  intros Hn. rewrite (proj2 (H2 v Hv) Hn). by apply H1.
Qed.

Lemma replace_data_page_effect synchronize ts va old_pa new_pa :
  wf ts -> u64 va -> u64 old_pa -> u64 new_pa ->
  let '(r, (ts', trace)) := replace_data_page synchronize va old_pa new_pa (ts, []) in
  (trace = [] /\ ts' = ts /\ r <> Ok tt /\ r <> Panic) \/
  exists t i d,
    (forall v, va_ok v -> in_page va v -> walk ts v = page_translation old_pa (v - va)) /\
    ((trace = [EvStore t i 0; EvSync t i] /\ r = synchronize 0%nat /\ r <> Ok tt /\
      only_page ts ts' va (fun _ => Ok None)) \/
     (trace = [EvStore t i 0; EvSync t i; EvStore t i d; EvSync t i] /\
      synchronize 0%nat = Ok tt /\ r = synchronize 1%nat /\
      only_page ts ts' va (fun v => page_translation new_pa (v - va)))).
Proof.
  intros H [Hva _] [Hold _] [Hnew _]. unfold replace_data_page, sbind, stry. cbn [fst snd].
  pose proof (replace_target_spec ts va old_pa new_pa H Hva Hold Hnew) as Hrt.
  destruct (replace_target ts va old_pa new_pa) as [[[t i] d]| |]; [|by left|done].
  destruct Hrt as (Hvo & Hvm & Hh & -> & He & -> & Hom & Hnm & Hol & Hnl & _).
  destruct (store_page_slot ts va t 0 H Hvo Hvm Hh) as (ts0 & Hs0 & Hwf0 & Hh0 & Ho0).
  unfold store_entry. cbn [fst snd app]. rewrite Hs0. unfold sync_entry. cbn [fst snd app].
  pose proof (page_walk_before ts va t old_pa H Hvo Hvm Hh (conj Hold Hol) Hom He) as Hbefore.
  destruct (synchronize 0%nat) as [[]| |] eqn:Es.
  - destruct (store_page_slot ts0 va t (leaf_desc 3 new_pa (data_page_mapping va new_pa))
      Hwf0 Hvo Hvm Hh0) as (ts1 & Hs1 & Hwf1 & _ & Ho1).
    rewrite Hs1. cbn [fst snd app]. right. eexists _, _, _. split; [done|]. right.
    split_and!; [done..|].
    eapply only_page_trans; [exact Ho0|]. destruct Ho1 as [_ Ho1]. split; [done|].
    intros v Hv. split; [|by apply Ho1]. intros Hin. rewrite (proj1 (Ho1 v Hv) Hin).
    by apply wl_step_page.
  - right. exists t, (idx 3 va), 0. split; [done|]. by left.
  - right. exists t, (idx 3 va), 0. split; [done|]. by left.
Qed.

(** C15 [replace_data_page_bbm]: whatever the caller's [synchronize] returns, the replacement
    follows break-before-make. It either refuses without a store, or stores
    zero and synchronises, the page then translating to nothing; only after
    that call succeeded does it store the new descriptor and synchronise
    again, the page then translating to the new address. No other address
    changes its translation at any point, and success means the full
    four-event sequence. *)
Theorem replace_data_page_bbm synchronize ts va old_pa new_pa :
  wf ts -> u64 va -> u64 old_pa -> u64 new_pa ->
  let '(r, (ts', trace)) := replace_data_page synchronize va old_pa new_pa (ts, []) in
  (trace = [] /\ ts' = ts /\ r <> Ok tt /\ r <> Panic) \/
  exists t i d,
    (forall v, va_ok v -> in_page va v -> walk ts v = page_translation old_pa (v - va)) /\
    ((trace = [EvStore t i 0; EvSync t i] /\ r = synchronize 0%nat /\ r <> Ok tt /\
      only_page ts ts' va (fun _ => Ok None)) \/
     (trace = [EvStore t i 0; EvSync t i; EvStore t i d; EvSync t i] /\
      synchronize 0%nat = Ok tt /\ r = synchronize 1%nat /\
      only_page ts ts' va (fun v => page_translation new_pa (v - va)))).
Proof. apply replace_data_page_effect. Qed.

(** ** Concrete instances *)

(** Three tables at 1 GiB with 40-bit physical addresses. *)
Definition fresh_tables : outcome TranslationError TableSet :=
  TableSet_new (replicate 3 (replicate 512 0)) 0x40000000 40.

Definition tables0 : TableSet :=
  match fresh_tables with Ok ts => ts | _ => mkTableSet [] 0 0 0 end.

Lemma fresh_storage : Forall (fun p => length p = 512%nat) (replicate 3 (replicate 512 0)).
Proof. apply Forall_replicate. apply length_replicate. Qed.

Lemma tables0_wf : wf tables0.
Proof.
  pose proof (TableSet_new_effect (replicate 3 (replicate 512 0)) 0x40000000 40 fresh_storage
    ltac:(done) ltac:(done)) as H.
  unfold tables0, fresh_tables.
  destruct (TableSet_new _ _ _) as [ts| |] eqn:E; [apply H|by vm_compute in E..].
Qed.

Lemma tables0_empty va : va_ok va -> walk tables0 va = Ok None.
Proof.
  pose proof (TableSet_new_effect (replicate 3 (replicate 512 0)) 0x40000000 40 fresh_storage
    ltac:(done) ltac:(done)) as H.
  unfold tables0, fresh_tables.
  destruct (TableSet_new _ _ _) as [ts| |] eqn:E; [apply H|by vm_compute in E..].
Qed.

Definition sample_mapping : Mapping := data_page_mapping 0x200000 0x80000000.

Lemma sample_mapping_ok : fst (TableSet_map sample_mapping tables0) = Ok tt.
Proof. vm_compute. reflexivity. Qed.

Lemma TableSet_map_correct_witness :
  exists ts, TableSet_map sample_mapping tables0 = (Ok tt, ts) /\ maps_to ts sample_mapping 0x200123.
Proof.
  assert (Hva : va_ok 0x200123) by done.
  assert (Hv : u64 (m_va sample_mapping)) by done.
  assert (Hp : u64 (m_pa sample_mapping)) by done.
  assert (Hl : u64 (m_size sample_mapping)) by done.
  pose proof sample_mapping_ok as Hr. destruct (TableSet_map sample_mapping tables0) as [r ts] eqn:E.
  destruct (TableSet_map_correct tables0 sample_mapping r ts tables0_wf Hv Hp Hl E) as [_ H].
  simpl in Hr. subst r. exists ts. split; [done|]. specialize (H 0x200123 Hva).
  replace ((_ <=? _) && _) with true in H by (clear; reflexivity). exact H.
Defined.

Definition mapped_tables : TableSet := snd (TableSet_map sample_mapping tables0).

Lemma mapped_tables_wf : wf mapped_tables.
Proof.
  assert (Hv : u64 (m_va sample_mapping)) by done.
  assert (Hp : u64 (m_pa sample_mapping)) by done.
  assert (Hl : u64 (m_size sample_mapping)) by done.
  unfold mapped_tables. destruct (TableSet_map sample_mapping tables0) as [r ts] eqn:E.
  apply (TableSet_map_effect tables0 sample_mapping r ts tables0_wf Hv Hp Hl E).
Qed.

Definition replaced : outcome TranslationError unit * (TableSet * list table_event) :=
  replace_data_page (fun _ => Ok tt) 0x200000 0x80000000 0x80001000 (mapped_tables, []).

Lemma replaced_ok : fst replaced = Ok tt.
Proof. vm_compute. reflexivity. Qed.

Lemma replace_data_page_bbm_witness :
  exists ts t i d, replaced = (Ok tt, (ts, [EvStore t i 0; EvSync t i; EvStore t i d; EvSync t i])).
Proof.
  pose proof (replace_data_page_bbm (fun _ => Ok tt) mapped_tables 0x200000 0x80000000 0x80001000 mapped_tables_wf
    ltac:(done) ltac:(done) ltac:(done)) as H. fold replaced in H.
  pose proof replaced_ok as Hr. destruct replaced as [r [ts tr]]. simpl in Hr. subst r.
  destruct H as [(_ & _ & H & _)|(t & i & d & _ & [(_ & _ & H & _)|(-> & _)])]; [done|done|].
  by exists ts, t, i, d.
Defined.
