(* ===== verification/Atomics.v ===== *)
(** * Programs over shared atomics

    The lock-free protocols of the hypervisor are written with [AtomicU64] and
    [AtomicBool] fields.  A method on such a structure becomes a [prog]: a tree
    of atomic accesses over a type [L] of locations, with Rust booleans as 0
    and 1 and [Input] for a value a caller's closure supplies (a counter, a
    fatal flag).  Every access is one atomic step on a single shared store:
    the acquire/release annotations of the source are read as sequential
    consistency, which the development assumes of the hardware.

    - [exec] runs a program without interference;
    - [steps] gives the accesses a program can make in any environment and
      [replay] executes a global trace of accesses on the store;
    - [emits] bounds the accesses a program can make, whatever it reads;
    - [rg] is a rely/guarantee triple, and [rg_parallel] composes the triples
      of the threads of a system. *)

From S2P Require Import Prelude.

Inductive prog (L A : Type) : Type :=
| Ret (a : A)
| Load (l : L) (k : Z -> prog L A)
| Store (l : L) (v : Z) (k : prog L A)
| Swap (l : L) (v : Z) (k : Z -> prog L A)
| Cas (l : L) (old new : Z) (k : Z + Z -> prog L A)
| Input (k : Z -> prog L A).
Arguments Ret {L A} a.
Arguments Load {L A} l k.
Arguments Store {L A} l v k.
Arguments Swap {L A} l v k.
Arguments Cas {L A} l old new k.
Arguments Input {L A} k.

Fixpoint pbind {L A B} (p : prog L A) (f : A -> prog L B) : prog L B :=
  match p with
  | Ret a => f a
  | Load l k => Load l (fun v => pbind (k v) f)
  | Store l v k => Store l v (pbind k f)
  | Swap l v k => Swap l v (fun x => pbind (k x) f)
  | Cas l o n k => Cas l o n (fun r => pbind (k r) f)
  | Input k => Input (fun v => pbind (k v) f)
  end.

(** [x <- m ;; k] sequences; [x <-? m ;; k] also propagates the error of [m]. *)
Declare Scope prog_scope.
Delimit Scope prog_scope with prog.

Definition pbind_res {L E A B} (p : prog L (outcome E A)) (f : A -> prog L (outcome E B)) :
  prog L (outcome E B) :=
  pbind p (fun r => match r with Ok a => f a | Err e => Ret (Err e) | Panic => Ret Panic end).

Notation "x <- m ;; k" := (pbind m (fun x => k))
  (at level 100, m at next level, right associativity,
   format "x  <-  m ;;  '//' k") : prog_scope.
Notation "x <-? m ;; k" := (pbind_res m (fun x => k))
  (at level 100, m at next level, right associativity,
   format "x  <-?  m ;;  '//' k") : prog_scope.
#[global] Open Scope prog_scope.

Definition load {L} (l : L) : prog L Z := Load l Ret.
Definition store {L} (l : L) (v : Z) : prog L unit := Store l v (Ret tt).
Definition swap {L} (l : L) (v : Z) : prog L Z := Swap l v Ret.
(** [compare_exchange(old, new)]: [inl] the replaced value or [inr] the one found. *)
Definition compare_exchange {L} (l : L) (old new : Z) : prog L (Z + Z) := Cas l old new Ret.
Definition input {L} : prog L Z := Input Ret.

(** [cas(..).map(|_| ()).map_err(|_| e)]. *)
Definition cas_or {L E} (l : L) (old new : Z) (e : E) : prog L (outcome E unit) :=
  r <- compare_exchange l old new ;;
  Ret (match r with inl _ => Ok tt | inr _ => Err e end).

(** A program of one CPU that carries state of its own along, which no other
    CPU touches; the state is part of the result also when it fails. *)
Definition carrying (L S E A : Type) : Type := S -> prog L (outcome E A * S).

Definition cret {L S E A} (a : A) : carrying L S E A := fun s => Ret (Ok a, s).
Definition cfail {L S E A} (e : E) : carrying L S E A := fun s => Ret (Err e, s).

Definition cbind {L S E A B} (m : carrying L S E A) (f : A -> carrying L S E B) : carrying L S E B := fun s =>
  pbind (m s) (fun '(r, s') =>
    match r with Ok a => f a s' | Err e => Ret (Err e, s') | Panic => Ret (Panic, s') end).

Notation "x <~ m ;; k" := (cbind m (fun x => k))
  (at level 100, m at next level, right associativity, format "x  <~  m ;;  '//' k") : prog_scope.

(** A program that leaves the state alone, and an operation on it only. *)
Definition running {L S E A} (p : prog L (outcome E A)) : carrying L S E A := fun s => pbind p (fun r => Ret (r, s)).
Definition privately {L S E A} (op : stateful S E A) : carrying L S E A := fun s => Ret (op s).

(** A thread that makes a list of calls. *)
Fixpoint run_all {L O A} (run : O -> prog L A) (os : list O) : prog L (list A) :=
  match os with
  | [] => Ret []
  | o :: rest => r <- run o ;; rs <- run_all run rest ;; Ret (r :: rs)
  end.

(** The same program on a larger set of locations. *)
Fixpoint relocate {L M A} (f : L -> M) (p : prog L A) : prog M A :=
  match p with
  | Ret a => Ret a
  | Load l k => Load (f l) (fun v => relocate f (k v))
  | Store l v k => Store (f l) v (relocate f k)
  | Swap l v k => Swap (f l) v (fun x => relocate f (k x))
  | Cas l o n k => Cas (f l) o n (fun r => relocate f (k r))
  | Input k => Input (fun v => relocate f (k v))
  end.

Section Semantics.
Context {L : Type} `{EqDecision L}.

Definition memory : Type := L -> Z.
Implicit Types (s : memory).

Definition upd s (l : L) (v : Z) : memory := fun l' => if decide (l' = l) then v else s l'.

Lemma upd_eq s l v : upd s l v l = v.
Proof. unfold upd. by rewrite decide_True. Qed.

Lemma upd_ne s l l' v : l' <> l -> upd s l v l' = s l'.
Proof. intros. unfold upd. by rewrite decide_False. Qed.

(** ** Uninterrupted execution

    [inputs] are the values the closures supply; a program that asks for more
    of them than there are does not finish. *)
Fixpoint exec {A} (p : prog L A) s (inputs : list Z) : option (A * memory) :=
  match p with
  | Ret a => Some (a, s)
  | Load l k => exec (k (s l)) s inputs
  | Store l v k => exec k (upd s l v) inputs
  | Swap l v k => exec (k (s l)) (upd s l v) inputs
  | Cas l o n k =>
      if s l =? o then exec (k (inl o)) (upd s l n) inputs else exec (k (inr (s l))) s inputs
  | Input k => match inputs with [] => None | v :: rest => exec (k v) s rest end
  end.

Lemma exec_bind {A B} (p : prog L A) (f : A -> prog L B) s :
  exec (pbind p f) s [] = match exec p s [] with Some (a, s') => exec (f a) s' [] | None => None end.
Proof. revert s. induction p; intros s; simpl; auto. by destruct (_ =? _). Qed.

(** ** Accesses and traces *)

Inductive event :=
| ELoad (l : L) (v : Z)
| EStore (l : L) (v : Z)
| ESwap (l : L) (old new : Z)
| ECasOk (l : L) (old new : Z)
| ECasFail (l : L) (expected found : Z)
| EInput (v : Z).

(** [steps p tr p']: the accesses [tr] can lead from [p] to [p']; the values
    read are arbitrary. *)
Inductive steps {A} : prog L A -> list event -> prog L A -> Prop :=
| steps_nil p : steps p [] p
| steps_load l k v tr p' : steps (k v) tr p' -> steps (Load l k) (ELoad l v :: tr) p'
| steps_store l v k tr p' : steps k tr p' -> steps (Store l v k) (EStore l v :: tr) p'
| steps_swap l v k old tr p' :
    steps (k old) tr p' -> steps (Swap l v k) (ESwap l old v :: tr) p'
| steps_cas_ok l o n k tr p' :
    steps (k (inl o)) tr p' -> steps (Cas l o n k) (ECasOk l o n :: tr) p'
| steps_cas_fail l o n k v tr p' :
    v <> o -> steps (k (inr v)) tr p' -> steps (Cas l o n k) (ECasFail l o v :: tr) p'
| steps_input k v tr p' : steps (k v) tr p' -> steps (Input k) (EInput v :: tr) p'.

(** One access on the store; [None] when the store does not allow it. *)
Definition apply_event s (e : event) : option memory :=
  match e with
  | ELoad l v => if s l =? v then Some s else None
  | EStore l v => Some (upd s l v)
  | ESwap l old new => if s l =? old then Some (upd s l new) else None
  | ECasOk l old new => if s l =? old then Some (upd s l new) else None
  | ECasFail l e v => if (s l =? v) && negb (v =? e) then Some s else None
  | EInput _ => Some s
  end.

Fixpoint replay s (tr : list event) : option memory :=
  match tr with
  | [] => Some s
  | e :: rest => match apply_event s e with Some s' => replay s' rest | None => None end
  end.

(** The accesses of thread [i] in a global trace. *)
Fixpoint thread_events (i : nat) (g : list (nat * event)) : list event :=
  match g with
  | [] => []
  | (j, e) :: rest => if (j =? i)%nat then e :: thread_events i rest else thread_events i rest
  end.

(** [g] is a concurrent execution of the programs [ps] from store [s] to [s']:
    each thread made its accesses in program order and reached [qs]. *)
Record concurrent {A} (ps : list (prog L A)) s (g : list (nat * event))
  (qs : list (prog L A)) (s' : memory) : Prop := {
  conc_replay : replay s (snd <$> g) = Some s';
  conc_threads : Forall (fun '(i, _) => (i < length ps)%nat) g;
  conc_steps : forall i p q, ps !! i = Some p -> qs !! i = Some q -> steps p (thread_events i g) q;
  conc_length : length qs = length ps
}.

(** ** Bounding the accesses of a program *)

Fixpoint emits {A} (P : event -> Prop) (p : prog L A) : Prop :=
  match p with
  | Ret _ => True
  | Load l k => forall v, P (ELoad l v) /\ emits P (k v)
  | Store l v k => P (EStore l v) /\ emits P k
  | Swap l v k => forall old, P (ESwap l old v) /\ emits P (k old)
  | Cas l o n k =>
      (P (ECasOk l o n) /\ emits P (k (inl o))) /\
      (forall v, P (ECasFail l o v) /\ emits P (k (inr v)))
  | Input k => forall v, P (EInput v) /\ emits P (k v)
  end.

Lemma emits_steps {A} P (p : prog L A) tr p' :
  emits P p -> steps p tr p' -> Forall P tr /\ emits P p'.
Proof. intros He Hs. induction Hs; simpl in He; naive_solver. Qed.

Lemma emits_mono {A} (P Q : event -> Prop) (p : prog L A) :
  (forall e, P e -> Q e) -> emits P p -> emits Q p.
Proof. intros H He. induction p; simpl in *; naive_solver. Qed.

Lemma emits_bind {A B} P (p : prog L A) (f : A -> prog L B) :
  emits P p -> (forall a, emits P (f a)) -> emits P (pbind p f).
Proof. intros Hp Hf. induction p; simpl in *; naive_solver. Qed.

Lemma emits_bind_res {E A B} P (p : prog L (outcome E A)) (f : A -> prog L (outcome E B)) :
  emits P p -> (forall a, emits P (f a)) -> emits P (pbind_res p f).
Proof. intros Hp Hf. apply emits_bind; [done|]. intros [a| |]; simpl; auto. Qed.

Lemma emits_run_all {O A} P (run : O -> prog L A) os :
  (forall o, emits P (run o)) -> emits P (run_all run os).
Proof.
  intros Hr. induction os as [|o os IH]; cbn [run_all]; [done|].
  apply emits_bind; [done|]. intros a. by apply emits_bind.
Qed.

(** ** Running a schedule

    [run_schedule] executes the threads in a given order of turns; a turn names
    its thread and the value a closure would supply. *)
Definition turn {A} (p : prog L A) s (v : Z) : option (event * prog L A * memory) :=
  match p with
  | Ret _ => None
  | Load l k => Some (ELoad l (s l), k (s l), s)
  | Store l x k => Some (EStore l x, k, upd s l x)
  | Swap l x k => Some (ESwap l (s l) x, k (s l), upd s l x)
  | Cas l o n k =>
      if s l =? o then Some (ECasOk l o n, k (inl o), upd s l n)
      else Some (ECasFail l o (s l), k (inr (s l)), s)
  | Input k => Some (EInput v, k v, s)
  end.

Fixpoint run_schedule {A} (ps : list (prog L A)) s (turns : list (nat * Z)) :
  option (list (nat * event) * list (prog L A) * memory) :=
  match turns with
  | [] => Some ([], ps, s)
  | (i, v) :: rest =>
      match ps !! i with
      | None => None
      | Some p =>
          match turn p s v with
          | None => None
          | Some (e, p', s1) =>
              match run_schedule (<[i := p']> ps) s1 rest with
              | Some (g, qs, s2) => Some ((i, e) :: g, qs, s2)
              | None => None
              end
          end
      end
  end.

Lemma turn_step {A} (p : prog L A) s v e p' s1 tr q :
  turn p s v = Some (e, p', s1) -> steps p' tr q ->
  apply_event s e = Some s1 /\ steps p (e :: tr) q.
Proof.
  intros Ht Hs. destruct p; simpl in Ht; repeat case_match; simplify_eq; simpl; bool_prop; subst;
    rewrite ?Z.eqb_refl; (split; [try done|by constructor]).
  rewrite (proj2 (Z.eqb_neq _ _)) by done. done.
Qed.

(** What a schedule runs is a concurrent execution. *)
Lemma run_schedule_sound {A} (ps : list (prog L A)) s turns g qs s' :
  run_schedule ps s turns = Some (g, qs, s') -> concurrent ps s g qs s'.
Proof.
  revert ps s g. induction turns as [|[i v] turns IH]; intros ps s g; simpl.
  { intros [= <- <- <-]. split; [done|constructor| |done]. intros i p q Hp Hq. simplify_eq. constructor. }
  destruct (ps !! i) as [p|] eqn:Hp; [|done]. destruct (turn p s v) as [[[e p'] s1]|] eqn:Ht; [|done].
  destruct (run_schedule _ s1 turns) as [[[g1 qs1] s2]|] eqn:Hr; [|done]. intros [= <- <- <-].
  destruct (IH _ _ _ Hr) as [Hrep Hth Hst Hlen]. rewrite length_insert in Hlen.
  assert (Hi : (i < length ps)%nat) by (by eapply lookup_lt_Some).
  destruct (lookup_lt_is_Some_2 qs1 i ltac:(lia)) as [q Hq].
  assert (Hip : <[i := p']> ps !! i = Some p') by (by apply list_lookup_insert_eq).
  destruct (turn_step _ _ _ _ _ _ _ _ Ht (Hst i p' q Hip Hq)) as [He Hsteps].
  split; [simpl; by rewrite He| | |done].
  - constructor; [done|]. eapply Forall_impl; [exact Hth|]. intros [j ej]. by rewrite length_insert.
  - intros j pj qj Hpj Hqj. simpl. destruct (Nat.eqb_spec i j) as [->|Hne]; [by simplify_eq|].
    apply Hst; [by rewrite list_lookup_insert_ne|done].
Qed.

Lemma thread_events_Forall P i g : Forall P (snd <$> g) -> Forall P (thread_events i g).
Proof.
  induction g as [|[j e] g IH]; simpl; [done|]. intros [? ?]%Forall_cons.
  destruct (_ =? _)%nat; auto.
Qed.

Lemma Forall_thread_events P n g :
  Forall (fun '(i, _) => (i < n)%nat) g ->
  (forall i, (i < n)%nat -> Forall P (thread_events i g)) -> Forall P (snd <$> g).
Proof.
  intros Hg. induction Hg as [|[j e] g Hj Hg IH]; simpl; intros HP; [done|]. constructor.
  - specialize (HP j Hj). rewrite Nat.eqb_refl in HP. by apply Forall_cons in HP as [? _].
  - apply IH. intros i Hi. specialize (HP i Hi). destruct (_ =? _)%nat; [|done].
    by apply Forall_cons in HP as [_ ?].
Qed.

(** Every access of a concurrent execution is one its programs may emit. *)
Lemma concurrent_emits {A} P (ps : list (prog L A)) s g qs s' :
  Forall (emits P) ps -> concurrent ps s g qs s' -> Forall P (snd <$> g).
Proof.
  intros Hps [_ Ht Hs Hl]. apply (Forall_thread_events _ (length ps)); [done|].
  intros i Hi. destruct (lookup_lt_is_Some_2 ps i Hi) as [p Hp].
  destruct (lookup_lt_is_Some_2 qs i ltac:(lia)) as [q Hq].
  eapply emits_steps; [|by eapply Hs]. by eapply Forall_lookup_1.
Qed.

(** An invariant of every allowed access holds along a trace. *)
Lemma replay_invariant (P : event -> Prop) (R : memory -> memory -> Prop) s tr s' :
  (forall s, R s s) -> (forall a b c, R a b -> R b c -> R a c) ->
  (forall s e s', P e -> apply_event s e = Some s' -> R s s') ->
  Forall P tr -> replay s tr = Some s' -> R s s'.
Proof.
  intros Hr Ht He Hf. revert s. induction Hf as [|e tr HPe Hf IH]; intros s; simpl.
  { by intros [= <-]. }
  destruct (apply_event s e) as [s1|] eqn:E; [|done]. eauto.
Qed.

Lemma replay_app s t1 t2 :
  replay s (t1 ++ t2) = match replay s t1 with Some s1 => replay s1 t2 | None => None end.
Proof.
  revert s. induction t1 as [|e t1 IH]; intros s; simpl; [done|].
  destruct (apply_event s e); [apply IH|done].
Qed.

(** ** Counting accesses *)

Definition count_events (f : event -> bool) (tr : list event) : nat := length (List.filter f tr).

Lemma count_events_app f t1 t2 : count_events f (t1 ++ t2) = (count_events f t1 + count_events f t2)%nat.
Proof. unfold count_events. by rewrite List.filter_app, length_app. Qed.

Lemma count_events_cons f e t :
  count_events f (e :: t) = ((if f e then 1 else 0) + count_events f t)%nat.
Proof. unfold count_events. simpl. by destruct (f e). Qed.

Definition sum_threads (n : nat) (c : nat -> nat) : nat := sum_list (c <$> seq 0 n).

Lemma sum_threads_ext n c c' :
  (forall i, (i < n)%nat -> c i = c' i) -> sum_threads n c = sum_threads n c'.
Proof.
  intros H. unfold sum_threads. f_equal. apply list_fmap_ext. intros j i Hi%lookup_seq. apply H. lia.
Qed.

Lemma sum_threads_S n c : sum_threads (S n) c = (sum_threads n c + c n)%nat.
Proof. unfold sum_threads. rewrite seq_S, fmap_app, sum_list_with_app. simpl. lia. Qed.

Lemma sum_threads_le n c c' :
  (forall i, (i < n)%nat -> (c i <= c' i)%nat) -> (sum_threads n c <= sum_threads n c')%nat.
Proof.
  intros H. induction n as [|n IH]; [done|]. rewrite !sum_threads_S. pose proof (H n ltac:(lia)).
  assert (sum_threads n c <= sum_threads n c')%nat by (apply IH; auto). lia.
Qed.

(** The accesses of a trace are those of its threads. *)
Lemma count_threads f n g :
  Forall (fun '(i, _) => (i < n)%nat) g ->
  count_events f (snd <$> g) = sum_threads n (fun i => count_events f (thread_events i g)).
Proof.
  intros Hg. induction Hg as [|[j e] g Hj Hg IH].
  { induction n as [|n IHn]; [done|]. rewrite sum_threads_S, <- IHn. done. }
  cbn [fmap list_fmap snd]. rewrite count_events_cons. change (list_fmap _ _ snd g) with (snd <$> g). rewrite IH.
  clear IH Hg. induction n as [|n IHn]; [lia|]. rewrite !sum_threads_S.
  destruct (decide (j = n)) as [->|Hne].
  - cbn [thread_events]. rewrite Nat.eqb_refl, count_events_cons.
    rewrite (sum_threads_ext n (fun i => count_events f (if (n =? i)%nat then _ else _))
      (fun i => count_events f (thread_events i g))); [lia|].
    intros i Hi. by rewrite (proj2 (Nat.eqb_neq n i)) by lia.
  - rewrite <- IHn by lia. cbn [thread_events]. rewrite (proj2 (Nat.eqb_neq j n)) by done. lia.
Qed.

(** Accesses that use up a budget of the store are at most as many. *)
Lemma replay_budget (P : event -> Prop) (f : event -> bool) (budget : memory -> nat) s tr s' :
  (forall s e s', P e -> apply_event s e = Some s' ->
     ((if f e then 1 else 0) + budget s' <= budget s)%nat) ->
  Forall P tr -> replay s tr = Some s' -> (count_events f tr + budget s' <= budget s)%nat.
Proof.
  intros Hb Hf. revert s. induction Hf as [|e tr He Hf IH]; intros s; simpl.
  { intros [= ->]. unfold count_events. simpl. lia. }
  destruct (apply_event s e) as [s1|] eqn:E; [|done]. intros Hr%IH.
  rewrite count_events_cons. pose proof (Hb _ _ _ He E). lia.
Qed.

Lemma replay_count_le (P : event -> Prop) (f : event -> bool) (budget : memory -> nat) s tr s' :
  (forall s e s', P e -> apply_event s e = Some s' ->
     ((if f e then 1 else 0) + budget s' <= budget s)%nat) ->
  Forall P tr -> replay s tr = Some s' -> (count_events f tr <= budget s)%nat.
Proof. intros Hb Hf Hr. pose proof (replay_budget P f budget s tr s' Hb Hf Hr). lia. Qed.

(** Accesses that occur at most once are made by one thread. *)
Lemma count_one_thread (f : event -> bool) (g : list (nat * event)) :
  (count_events f (snd <$> g) <= 1)%nat -> exists w, Forall (fun '(i, e) => f e = true -> i = w) g.
Proof.
  induction g as [|[j e] g IH]; intros Hc; [by exists 0%nat|].
  cbn [fmap list_fmap snd] in Hc. rewrite count_events_cons in Hc. destruct (f e) eqn:Hf.
  - exists j. constructor; [done|]. apply Forall_forall. intros [i e'] Hin Hf'. exfalso.
    assert (1 <= count_events f (snd <$> g))%nat; [|unfold fmap in *; lia].
    clear -Hin Hf'. induction g as [|[j e] g IH]; [by apply elem_of_nil in Hin|].
    cbn [fmap list_fmap snd]. rewrite count_events_cons. apply elem_of_cons in Hin as [[= <- <-]|Hin].
    + rewrite Hf'. lia.
    + apply IH in Hin. unfold fmap in *. lia.
  - destruct IH as [w Hw]; [unfold fmap in *; lia|]. exists w. constructor; [congruence|done].
Qed.

(** A completed sequence splits into its two completed parts. *)
Lemma steps_bind_inv {A B} (p : prog L A) (f : A -> prog L B) tr b :
  steps (pbind p f) tr (Ret b) ->
  exists t1 t2 a, tr = t1 ++ t2 /\ steps p t1 (Ret a) /\ steps (f a) t2 (Ret b).
Proof.
  revert tr. induction p as [a|l k IH|l v k IH|l v k IH|l o n k IH|k IH]; simpl; intros tr Hs.
  { exists [], tr, a. split_and!; [done|constructor|done]. }
  all: inversion Hs; subst;
    match goal with H : steps (pbind _ _) _ _ |- _ => apply IH in H as (t1 & t2 & a & -> & H1 & H2) end;
    eexists (_ :: t1), t2, a; split_and!; try done; econstructor; eassumption.
Qed.

Lemma steps_ret_inv {A} (a b : A) tr : steps (Ret a) tr (Ret b) -> tr = [] /\ a = b.
Proof. by inversion 1. Qed.

Lemma steps_ok_inv {E A B} (p : prog L (outcome E A)) (f : A -> prog L (outcome E B)) tr b :
  steps (pbind_res p f) tr (Ret (Ok b)) ->
  exists t1 t2 a, tr = t1 ++ t2 /\ steps p t1 (Ret (Ok a)) /\ steps (f a) t2 (Ret (Ok b)).
Proof.
  intros (t1 & t2 & [a|e|] & -> & H1 & H2)%steps_bind_inv; [by exists t1, t2, a|by inversion H2..].
Qed.

(** ** Complete executions

    [traces p Q acc]: whatever the program reads, when it finishes its accesses
    after [acc] and its result satisfy [Q]. *)
Fixpoint traces {A} (p : prog L A) (Q : list event -> A -> Prop) (acc : list event) : Prop :=
  match p with
  | Ret a => Q acc a
  | Load l k => forall v, traces (k v) Q (acc ++ [ELoad l v])
  | Store l v k => traces k Q (acc ++ [EStore l v])
  | Swap l v k => forall old, traces (k old) Q (acc ++ [ESwap l old v])
  | Cas l o n k =>
      traces (k (inl o)) Q (acc ++ [ECasOk l o n]) /\
      forall v, v <> o -> traces (k (inr v)) Q (acc ++ [ECasFail l o v])
  | Input k => forall v, traces (k v) Q (acc ++ [EInput v])
  end.

(** An uninterrupted run is one of the executions. *)
Lemma exec_steps {A} (p : prog L A) s inputs a s' :
  exec p s inputs = Some (a, s') -> exists tr, steps p tr (Ret a) /\ replay s tr = Some s'.
Proof.
  revert s inputs. induction p as [b|l k IH|l v k IH|l v k IH|l o n k IH|k IH]; cbn; intros s inputs E; simplify_eq.
  - exists []. by split; [constructor|].
  - destruct (IH _ _ _ E) as (tr & Hs & Hr). exists (ELoad l (s l) :: tr). split; [by constructor|]. cbn. by rewrite Z.eqb_refl.
  - destruct (IH _ _ E) as (tr & Hs & Hr). exists (EStore l v :: tr). split; [by constructor|done].
  - destruct (IH _ _ _ E) as (tr & Hs & Hr). exists (ESwap l (s l) v :: tr). split; [by constructor|]. cbn. by rewrite Z.eqb_refl.
  - destruct (Z.eqb_spec (s l) o) as [Ho|Ho]; destruct (IH _ _ _ E) as (tr & Hs & Hr).
    + exists (ECasOk l o n :: tr). split; [by constructor|]. cbn. by rewrite Ho, Z.eqb_refl.
    + exists (ECasFail l o (s l) :: tr). split; [by constructor|]. cbn. rewrite Z.eqb_refl, (proj2 (Z.eqb_neq _ _)) by done. done.
  - destruct inputs as [|v rest]; [done|]. destruct (IH _ _ _ E) as (tr & Hs & Hr). exists (EInput v :: tr).
    split; [by constructor|done].
Qed.

(** A run on a store that others change: [react e] is what they do to it right
    after the access [e]. *)
Fixpoint play {A} (react : event -> memory -> memory) (p : prog L A) s (inputs : list Z) : option (list event * A) :=
  let log e (r : option (list event * A)) := match r with Some (tr, a) => Some (e :: tr, a) | None => None end in
  match p with
  | Ret a => Some ([], a)
  | Load l k => let e := ELoad l (s l) in log e (play react (k (s l)) (react e s) inputs)
  | Store l v k => let e := EStore l v in log e (play react k (react e (upd s l v)) inputs)
  | Swap l v k => let e := ESwap l (s l) v in log e (play react (k (s l)) (react e (upd s l v)) inputs)
  | Cas l o n k =>
      if s l =? o then let e := ECasOk l o n in log e (play react (k (inl o)) (react e (upd s l n)) inputs)
      else let e := ECasFail l o (s l) in log e (play react (k (inr (s l))) (react e s) inputs)
  | Input k =>
      match inputs with
      | [] => None
      | v :: rest => let e := EInput v in log e (play react (k v) (react e s) rest)
      end
  end.

Lemma play_steps {A} react (p : prog L A) s inputs tr a : play react p s inputs = Some (tr, a) -> steps p tr (Ret a).
Proof.
  revert s inputs tr. induction p as [x|l k IH|l v k IH|l v k IH|l o n k IH|k IH]; cbn; intros s inputs tr E.
  - injection E as <- <-. constructor.
  - destruct (play _ _ _ _) as [[tr' a']|] eqn:Ep; [|done]. injection E as <- <-. constructor. by eapply IH.
  - destruct (play _ _ _ _) as [[tr' a']|] eqn:Ep; [|done]. injection E as <- <-. constructor. by eapply IH.
  - destruct (play _ _ _ _) as [[tr' a']|] eqn:Ep; [|done]. injection E as <- <-. constructor. by eapply IH.
  - destruct (Z.eqb_spec (s l) o); destruct (play _ _ _ _) as [[tr' a']|] eqn:Ep; try done; injection E as <- <-;
      constructor; try done; by eapply IH.
  - destruct inputs as [|v rest]; [done|]. destruct (play _ _ _ _) as [[tr' a']|] eqn:Ep; [|done]. injection E as <- <-.
    constructor. by eapply IH.
Qed.

Lemma traces_steps {A} (p : prog L A) Q acc tr a :
  traces p Q acc -> steps p tr (Ret a) -> Q (acc ++ tr) a.
Proof.
  revert acc tr. induction p as [b|l k IH|l v k IH|l v k IH|l o n k IH|k IH]; cbn; intros acc tr Ht Hs;
    inversion Hs; subst; rewrite ?app_nil_r; try done;
    match goal with H : steps _ ?t _ |- Q (acc ++ ?e :: ?t) _ =>
      replace (acc ++ e :: t) with ((acc ++ [e]) ++ t) by (by rewrite <- app_assoc) end; naive_solver.
Qed.

Lemma traces_of_steps {A} (p : prog L A) (Q : list event -> A -> Prop) acc :
  (forall t a, steps p t (Ret a) -> Q (acc ++ t) a) -> traces p Q acc.
Proof.
  revert acc. induction p as [b|l k IH|l v k IH|l v k IH|l o n k IH|k IH]; cbn; intros acc HQ;
    [rewrite <- (app_nil_r acc); apply HQ; constructor|..].
  all: try split; try intros x; try intros Hx; apply IH; intros t a Ht; rewrite <- app_assoc; apply HQ; by constructor.
Qed.

Lemma traces_bind {A B} (p : prog L A) (f : A -> prog L B) Q acc :
  traces p (fun t a => traces (f a) Q t) acc -> traces (pbind p f) Q acc.
Proof. revert acc. induction p; cbn; naive_solver. Qed.

Lemma traces_mono {A} (p : prog L A) (Q Q' : list event -> A -> Prop) acc :
  (forall t a, Q t a -> Q' t a) -> traces p Q acc -> traces p Q' acc.
Proof. intros H. revert acc. induction p; cbn; naive_solver. Qed.

Lemma traces_shift {A} (p : prog L A) (Q Q' : list event -> A -> Prop) acc t0 :
  (forall t a, Q t a -> Q' (acc ++ t) a) -> traces p Q t0 -> traces p Q' (acc ++ t0).
Proof.
  intros H. revert t0. induction p as [b|l k IH|l v k IH|l v k IH|l o n k IH|k IH]; cbn; intros t0 Hp; [by apply H|..].
  all: try (split; [destruct Hp as [Hp _]|destruct Hp as [_ Hp]]); try intros x; try intros Hx;
    rewrite <- app_assoc; apply IH; auto.
Qed.

Lemma traces_emits {A} (P : event -> Prop) (p : prog L A) (Q : list event -> A -> Prop) acc :
  emits P p -> (forall t a, Forall P t -> Q (acc ++ t) a) -> traces p Q acc.
Proof.
  revert acc. induction p as [b|l k IH|l v k IH|l v k IH|l o n k IH|k IH]; cbn; intros acc He HQ;
    [rewrite <- (app_nil_r acc); apply HQ; constructor|..].
  all: try (split; [destruct He as [He _]|destruct He as [_ He]]); try intros x; try intros _;
    (apply IH; [apply He|]); intros t a Ht; rewrite <- app_assoc; apply HQ; constructor; (apply He || done).
Qed.

Lemma traces_and_emits {A} (P : event -> Prop) (p : prog L A) (Q : list event -> A -> Prop) acc :
  Forall P acc -> emits P p -> traces p Q acc -> traces p (fun t a => Forall P t /\ Q t a) acc.
Proof.
  revert acc. induction p as [b|l k IH|l v k IH|l v k IH|l o n k IH|k IH]; cbn; intros acc Ha He Hq; [done|..].
  - intros x. apply IH; [apply Forall_app_2; [done|repeat constructor; apply He]|apply He|apply Hq].
  - apply IH; [apply Forall_app_2; [done|repeat constructor; apply He]|apply He|apply Hq].
  - intros x. apply IH; [apply Forall_app_2; [done|repeat constructor; apply He]|apply He|apply Hq].
  - destruct Hq as [Hq1 Hq2]. split; [|intros x Hx]; apply IH; try apply He; auto;
      (apply Forall_app_2; [done|repeat constructor; apply He]).
  - intros x. apply IH; [apply Forall_app_2; [done|repeat constructor; apply He]|apply He|apply Hq].
Qed.

(** [within P p Q]: whatever the program reads, its accesses are in [P] and its
    result, if it finishes, is in [Q]. *)
Fixpoint within {A} (P : event -> Prop) (p : prog L A) (Q : A -> Prop) : Prop :=
  match p with
  | Ret a => Q a
  | Load l k => forall v, P (ELoad l v) /\ within P (k v) Q
  | Store l v k => P (EStore l v) /\ within P k Q
  | Swap l v k => forall old, P (ESwap l old v) /\ within P (k old) Q
  | Cas l o n k =>
      (P (ECasOk l o n) /\ within P (k (inl o)) Q) /\
      forall v, v <> o -> P (ECasFail l o v) /\ within P (k (inr v)) Q
  | Input k => forall v, P (EInput v) /\ within P (k v) Q
  end.

Lemma within_mono {A} P (p : prog L A) (Q Q' : A -> Prop) : (forall a, Q a -> Q' a) -> within P p Q -> within P p Q'.
Proof. intros H. induction p; cbn; naive_solver. Qed.

Lemma within_bind {A B} P (p : prog L A) (f : A -> prog L B) Q :
  within P p (fun a => within P (f a) Q) -> within P (pbind p f) Q.
Proof. induction p; cbn; naive_solver. Qed.

Lemma emits_within {A} P (p : prog L A) : emits P p -> within P p (fun _ => True).
Proof. induction p; cbn; naive_solver. Qed.

Lemma traces_within {A} P (p : prog L A) Q (Q' : list event -> A -> Prop) acc :
  within P p Q -> (forall t a, Forall P t -> Q a -> Q' (acc ++ t) a) -> traces p Q' acc.
Proof.
  revert acc. induction p as [b|l k IH|l v k IH|l v k IH|l o n k IH|k IH]; cbn; intros acc Hw HQ;
    [rewrite <- (app_nil_r acc); by apply HQ|..].
  5: intros x; apply (IH x); [apply Hw|].
  4: split; [apply (IH (inl o)); [apply Hw|]|intros x Hx; apply (IH (inr x)); [by apply Hw|]].
  3: intros x; apply (IH x); [apply Hw|].
  2: apply IH; [apply Hw|].
  1: intros x; apply (IH x); [apply Hw|].
  all: intros t a Ht Ha; rewrite <- app_assoc; apply HQ; [constructor; [by apply Hw|done]|done].
Qed.

(** ** Accesses that must be earned

    [covered need have p n]: along every prefix of every execution of [p], the
    accesses in [need] are at most [n] more than the accesses in [have]. *)
Definition earns (need have : event -> bool) (n : nat) (e : event) (next : nat -> Prop) : Prop :=
  if need e then match n with O => False | S n' => next n' end else next (if have e then S n else n).

Fixpoint covered {A} (need have : event -> bool) (p : prog L A) (n : nat) : Prop :=
  match p with
  | Ret _ => True
  | Load l k => forall v, earns need have n (ELoad l v) (covered need have (k v))
  | Store l v k => earns need have n (EStore l v) (covered need have k)
  | Swap l v k => forall old, earns need have n (ESwap l old v) (covered need have (k old))
  | Cas l o m k =>
      earns need have n (ECasOk l o m) (covered need have (k (inl o))) /\
      forall v, earns need have n (ECasFail l o v) (covered need have (k (inr v)))
  | Input k => forall v, earns need have n (EInput v) (covered need have (k v))
  end.

Lemma earns_mono need have n m e (P Q : nat -> Prop) :
  (n <= m)%nat -> (forall i j, (i <= j)%nat -> P i -> Q j) -> earns need have n e P -> earns need have m e Q.
Proof.
  intros Hnm HPQ. unfold earns. destruct (need e); [|destruct (have e); apply HPQ; lia].
  destruct n as [|n]; [done|]. destruct m as [|m]; [lia|]. apply HPQ. lia.
Qed.

Lemma covered_mono {A} need have (p : prog L A) n m : (n <= m)%nat -> covered need have p n -> covered need have p m.
Proof.
  revert n m. induction p as [b|l k IH|l v k IH|l v k IH|l o w k IH|k IH]; cbn; intros i j Hij Hp; [done|..].
  all: try (split; [destruct Hp as [Hp _]|destruct Hp as [_ Hp]]); try intros x;
    (eapply earns_mono; [exact Hij| |apply Hp]); eauto.
Qed.

Lemma covered_bind {A B} need have (p : prog L A) (f : A -> prog L B) n :
  covered need have p n -> (forall a, covered need have (f a) 0) -> covered need have (pbind p f) n.
Proof.
  intros Hp Hf. revert n Hp.
  induction p as [b|l k IH|l v k IH|l v k IH|l o w k IH|k IH]; cbn; intros i Hp;
    [eapply covered_mono; [|apply Hf]; lia|..].
  all: try (split; [destruct Hp as [Hp _]|destruct Hp as [_ Hp]]); try intros x;
    (eapply earns_mono; [reflexivity| |apply Hp]); intros a b Hab Hc; apply IH; by eapply covered_mono.
Qed.

Lemma earns_free need have n e (next : nat -> Prop) : need e = false -> (forall m, next m) -> earns need have n e next.
Proof. intros He Hn. unfold earns. by rewrite He. Qed.

Lemma covered_emits {A} need have (p : prog L A) n :
  emits (fun e => need e = false) p -> covered need have p n.
Proof.
  revert n. induction p as [b|l k IH|l v k IH|l v k IH|l o w k IH|k IH]; cbn; intros i Hp; [done|..].
  all: try (split; [destruct Hp as [Hp _]|destruct Hp as [_ Hp]]); try intros x;
    (apply earns_free; [apply Hp|intros m; apply IH; apply Hp]).
Qed.

Lemma covered_run_all {O A} need have (run : O -> prog L A) os :
  (forall o, covered need have (run o) 0) -> covered need have (run_all run os) 0.
Proof.
  intros Hr. induction os as [|o os IH]; cbn [run_all]; [done|].
  apply covered_bind; [done|]. intros a. by apply covered_bind.
Qed.

Lemma earns_count need have n e tr (next : nat -> Prop) :
  earns need have n e next -> (forall m, next m -> (count_events need tr <= m + count_events have tr)%nat) ->
  (count_events need (e :: tr) <= n + count_events have (e :: tr))%nat.
Proof.
  unfold earns. intros He Hn. rewrite !count_events_cons. destruct (need e).
  - destruct n as [|n]; [done|]. specialize (Hn _ He). destruct (have e); lia.
  - specialize (Hn _ He). destruct (have e); lia.
Qed.

Lemma covered_steps {A} need have (p : prog L A) n tr q :
  covered need have p n -> steps p tr q -> (count_events need tr <= n + count_events have tr)%nat.
Proof.
  intros Hp Hs. revert n Hp. induction Hs; intros i Hp; [unfold count_events; cbn; lia|..]; cbn in Hp.
  all: first [eapply earns_count; [apply Hp|done]
             |eapply earns_count; [apply (proj1 Hp)|done]
             |eapply earns_count; [apply (proj2 Hp)|done]].
Qed.

(** ** Rely/guarantee *)

(** [rg R G p Q s]: from store [s], with the environment taking a step of [R]
    between any two accesses, every write of [p] is a step of [G] and a result
    satisfies [Q]. *)
Fixpoint rg {A} (R G : memory -> memory -> Prop) (p : prog L A) (Q : A -> memory -> Prop) s : Prop :=
  forall s', R s s' ->
  match p with
  | Ret a => Q a s'
  | Load l k => rg R G (k (s' l)) Q s'
  | Store l v k => G s' (upd s' l v) /\ rg R G k Q (upd s' l v)
  | Swap l v k => G s' (upd s' l v) /\ rg R G (k (s' l)) Q (upd s' l v)
  | Cas l o n k =>
      if s' l =? o then G s' (upd s' l n) /\ rg R G (k (inl o)) Q (upd s' l n)
      else rg R G (k (inr (s' l))) Q s'
  | Input k => forall v, rg R G (k v) Q s'
  end.

Lemma rg_env {A} R G (p : prog L A) Q s s1 :
  (forall a b c, R a b -> R b c -> R a c) -> R s s1 -> rg R G p Q s -> rg R G p Q s1.
Proof. intros Ht Hs. destruct p; simpl; intros Hw s' Hs'; by apply Hw, (Ht _ s1). Qed.

Lemma rg_mono {A} R G (p : prog L A) (Q Q' : A -> memory -> Prop) s :
  (forall a s, Q a s -> Q' a s) -> rg R G p Q s -> rg R G p Q' s.
Proof.
  intros HQ. revert s. induction p; simpl; intros s Hw s' Hs'; specialize (Hw s' Hs'); try naive_solver.
  destruct (_ =? _); naive_solver.
Qed.

Lemma rg_bind {A B} R G (p : prog L A) (f : A -> prog L B) Q s :
  (forall s, R s s) ->
  rg R G p (fun a s' => rg R G (f a) Q s') s -> rg R G (pbind p f) Q s.
Proof.
  intros Hr. revert s.
  induction p; simpl; intros s Hw; [by apply (Hw s)|..];
    intros s' Hs'; specialize (Hw s' Hs'); try naive_solver.
  destruct (_ =? _); naive_solver.
Qed.

(** A fact the environment and the program both keep. *)
Lemma rg_frame {A} R G (p : prog L A) Q (P : memory -> Prop) s :
  (forall a b, R a b -> P a -> P b) -> (forall a b, G a b -> P a -> P b) ->
  rg R G p Q s -> P s -> rg R G p (fun a s' => Q a s' /\ P s') s.
Proof.
  intros HR HG. revert s. induction p; simpl; intros s Hw HP s' Hs'; specialize (Hw s' Hs');
    specialize (HR _ _ Hs' HP); try naive_solver.
  destruct (_ =? _); naive_solver.
Qed.

(** ** Assumptions on the trace

    [rga P R G p Q s] is [rg] for the executions in which every access of [p]
    satisfies [P].  It expresses reasoning that fixes beforehand how a race is
    decided, such as which thread wins a claim: the other threads are proved
    under the assumption that they do not. *)
Fixpoint rga {A} (P : event -> Prop) (R G : memory -> memory -> Prop) (p : prog L A)
  (Q : A -> memory -> Prop) s : Prop :=
  forall s', R s s' ->
  match p with
  | Ret a => Q a s'
  | Load l k => P (ELoad l (s' l)) -> rga P R G (k (s' l)) Q s'
  | Store l v k => P (EStore l v) -> G s' (upd s' l v) /\ rga P R G k Q (upd s' l v)
  | Swap l v k =>
      P (ESwap l (s' l) v) -> G s' (upd s' l v) /\ rga P R G (k (s' l)) Q (upd s' l v)
  | Cas l o n k =>
      if s' l =? o then P (ECasOk l o n) -> G s' (upd s' l n) /\ rga P R G (k (inl o)) Q (upd s' l n)
      else P (ECasFail l o (s' l)) -> rga P R G (k (inr (s' l))) Q s'
  | Input k => forall v, P (EInput v) -> rga P R G (k v) Q s'
  end.

Lemma rg_rga {A} P R G (p : prog L A) Q s : rg R G p Q s -> rga P R G p Q s.
Proof.
  revert s. induction p; simpl; intros s Hw s' Hs'; specialize (Hw s' Hs'); try naive_solver.
  destruct (_ =? _); naive_solver.
Qed.

Lemma rga_env {A} P R G (p : prog L A) Q s s1 :
  (forall a b c, R a b -> R b c -> R a c) -> R s s1 -> rga P R G p Q s -> rga P R G p Q s1.
Proof. intros Ht Hs. destruct p; simpl; intros Hw s' Hs'; by apply Hw, (Ht _ s1). Qed.

Lemma rga_mono {A} P R G (p : prog L A) (Q Q' : A -> memory -> Prop) s :
  (forall a s, Q a s -> Q' a s) -> rga P R G p Q s -> rga P R G p Q' s.
Proof.
  intros HQ. revert s. induction p; simpl; intros s Hw s' Hs'; specialize (Hw s' Hs'); try naive_solver.
  destruct (_ =? _); naive_solver.
Qed.

Lemma rga_frame {A} P R G (p : prog L A) Q (F : memory -> Prop) s :
  (forall a b, R a b -> F a -> F b) -> (forall a b, G a b -> F a -> F b) ->
  rga P R G p Q s -> F s -> rga P R G p (fun a s' => Q a s' /\ F s') s.
Proof.
  intros HR HG. revert s. induction p; simpl; intros s Hw HP s' Hs'; specialize (Hw s' Hs');
    specialize (HR _ _ Hs' HP); try naive_solver.
  destruct (_ =? _); naive_solver.
Qed.

Lemma rga_bind {A B} P R G (p : prog L A) (f : A -> prog L B) Q s :
  (forall s, R s s) ->
  rga P R G p (fun a s' => rga P R G (f a) Q s') s -> rga P R G (pbind p f) Q s.
Proof.
  intros Hr. revert s.
  induction p; simpl; intros s Hw; [by apply (Hw s)|..];
    intros s' Hs'; specialize (Hw s' Hs'); try naive_solver.
  destruct (_ =? _); naive_solver.
Qed.

(** One access of a program within its triple. *)
Lemma rga_step {A} P R G (p : prog L A) Q s e tr q s1 :
  (forall s, R s s) -> (forall s, G s s) -> P e ->
  rga P R G p Q s -> apply_event s e = Some s1 -> steps p (e :: tr) q ->
  exists p', steps p' tr q /\ rga P R G p' Q s1 /\ G s s1.
Proof.
  intros Hr Hg HP Hw E Hst. inversion Hst; subst; simpl in E, Hw; specialize (Hw s (Hr s));
    repeat case_match; simplify_eq; bool_prop; subst; try naive_solver.
Qed.

(** Parallel composition: when the guarantee of each thread is within the rely
    of every other, the triples hold of every interleaving, and the store
    evolves by steps of the guarantees. *)
Lemma rga_parallel {A} (P : nat -> event -> Prop) (R G : nat -> memory -> memory -> Prop)
  (Q : nat -> A -> memory -> Prop) (ps : list (prog L A)) s g qs s' :
  (forall i s, R i s s) -> (forall i a b c, R i a b -> R i b c -> R i a c) -> (forall i s, G i s s) ->
  (forall i j s s1, i <> j -> G j s s1 -> R i s s1) ->
  (forall i p, ps !! i = Some p -> rga (P i) (R i) (G i) p (Q i) s) ->
  Forall (fun '(i, e) => P i e) g -> concurrent ps s g qs s' ->
  rtc (fun a b => exists j, G j a b) s s' /\ forall i a, qs !! i = Some (Ret a) -> Q i a s'.
Proof.
  intros Hr Ht Hg HGR Hrg HP [Hrep Hth Hst Hlen].
  revert ps s Hrg HP Hth Hst Hlen Hrep. induction g as [|[j e] g IH]; intros ps s Hrg HP Hth Hst Hlen; simpl.
  { intros [= <-]. split; [done|]. intros i a Hi. destruct (lookup_lt_is_Some_2 ps i) as [p Hp].
    { rewrite <- Hlen. by eapply lookup_lt_Some. }
    specialize (Hst i p _ Hp Hi). simpl in Hst. inversion Hst; subst.
    by apply (Hrg i _ Hp s). }
  destruct (apply_event s e) as [s1|] eqn:E; [|done]. intros Hrep.
  apply Forall_cons in Hth as [Hj Hth]. apply Forall_cons in HP as [HPj HP].
  destruct (lookup_lt_is_Some_2 ps j Hj) as [p Hp].
  destruct (lookup_lt_is_Some_2 qs j ltac:(lia)) as [q Hq].
  pose proof (Hst j p q Hp Hq) as Hjs. simpl in Hjs. rewrite Nat.eqb_refl in Hjs.
  destruct (rga_step (P j) (R j) (G j) p (Q j) s e _ q s1 (Hr j) (Hg j) HPj (Hrg j p Hp) E Hjs)
    as (p' & Hs' & Hrg' & HG).
  destruct (IH (<[j := p']> ps) s1) as [Hrtc HQ]; [|done| | |by rewrite length_insert|done|].
  - intros m pm. destruct (decide (m = j)) as [->|Hne].
    + rewrite list_lookup_insert_eq by done. by intros [= <-].
    + rewrite list_lookup_insert_ne by done. intros Hpm. eapply rga_env; [by apply Ht| |by apply Hrg].
      by eapply HGR.
  - eapply Forall_impl; [done|]. intros [m em] Hm. by rewrite length_insert.
  - intros m pm qm. destruct (decide (m = j)) as [->|Hne].
    + rewrite list_lookup_insert_eq by done. intros [= <-] Hqm. by simplify_eq.
    + rewrite list_lookup_insert_ne by done. intros Hpm Hqm. specialize (Hst m pm qm Hpm Hqm).
      simpl in Hst. by rewrite (proj2 (Nat.eqb_neq j m)) in Hst by done.
  - split; [|done]. eapply rtc_l; [|done]. by exists j.
Qed.

Lemma rg_parallel {A} (R G : nat -> memory -> memory -> Prop) (Q : nat -> A -> memory -> Prop)
  (ps : list (prog L A)) s g qs s' :
  (forall i s, R i s s) -> (forall i a b c, R i a b -> R i b c -> R i a c) -> (forall i s, G i s s) ->
  (forall i j s s1, i <> j -> G j s s1 -> R i s s1) ->
  (forall i p, ps !! i = Some p -> rg (R i) (G i) p (Q i) s) ->
  concurrent ps s g qs s' ->
  rtc (fun a b => exists j, G j a b) s s' /\ forall i a, qs !! i = Some (Ret a) -> Q i a s'.
Proof.
  intros Hr Ht Hg HGR Hrg Hc. apply (rga_parallel (fun _ _ => True) R G Q ps s g qs s'); try done.
  - intros i p Hp. by apply rg_rga, Hrg.
  - apply Forall_true. by intros [].
Qed.

End Semantics.

Arguments memory L : clear implicits.
Arguments event L : clear implicits.

(** ** Protocols

    What the methods of a shared object promise to each other: an invariant of
    its store, and a preorder on stores that every write stays within.  A
    method proved against this interface keeps its triple whatever the others
    interleave with it. *)
Class Protocol (L : Type) := {
  pinv : memory L -> Prop;
  pstep : memory L -> memory L -> Prop;
  pstep_refl s : pstep s s;
  pstep_trans a b c : pstep a b -> pstep b c -> pstep a c
}.

Section Protocol.
Context {L : Type} `{EqDecision L} `{Protocol L}.
Implicit Types (s : memory L).

Definition pkeeps s s' : Prop := pinv s -> pinv s' /\ pstep s s'.

Lemma pkeeps_refl s : pkeeps s s.
Proof. intros Hi. split; [done|apply pstep_refl]. Qed.

Lemma pkeeps_trans a b c : pkeeps a b -> pkeeps b c -> pkeeps a c.
Proof.
  intros H1 H2 Ha. destruct (H1 Ha) as [Hb K1]. destruct (H2 Hb) as [Hc K2].
  split; [done|]. by eapply pstep_trans.
Qed.

Definition triple {A} (p : prog L A) (Q : A -> memory L -> Prop) s : Prop := rg pkeeps pkeeps p Q s.

(** Facts that survive what the other threads do. *)
Definition pstable (P : memory L -> Prop) : Prop :=
  forall s s', pinv s -> pinv s' -> pstep s s' -> P s -> P s'.

Lemma triple_ret {A} (a : A) (Q : A -> memory L -> Prop) s :
  pinv s -> Q a s -> pstable (Q a) -> triple (Ret a) Q s.
Proof. intros Hi HQ Hst s' Hs'. destruct (Hs' Hi). by apply (Hst s). Qed.

Lemma triple_ret_pure {A} (a : A) (Q : A -> memory L -> Prop) s :
  pinv s -> (forall s', Q a s') -> triple (Ret a) Q s.
Proof. intros Hi HQ. apply triple_ret; [done..|]. by intros ? ? _ _ _ _. Qed.

Lemma triple_load {A} l (k : Z -> prog L A) Q s :
  pinv s -> (forall s', pinv s' -> pstep s s' -> triple (k (s' l)) Q s') -> triple (Load l k) Q s.
Proof. intros Hi Hk s' Hs'. destruct (Hs' Hi). by apply Hk. Qed.

Lemma triple_input {A} (k : Z -> prog L A) Q s :
  pinv s -> (forall v s', pinv s' -> pstep s s' -> triple (k v) Q s') -> triple (Input k) Q s.
Proof. intros Hi Hk s' Hs' v. destruct (Hs' Hi). by apply Hk. Qed.

Lemma triple_store {A} l v (k : prog L A) Q s :
  pinv s ->
  (forall s', pinv s' -> pstep s s' ->
     pinv (upd s' l v) /\ pstep s' (upd s' l v) /\ triple k Q (upd s' l v)) ->
  triple (Store l v k) Q s.
Proof.
  intros Hi Hk s' Hs'. destruct (Hs' Hi) as [H1 H2]. destruct (Hk s' H1 H2) as (H3 & H4 & H5).
  by split.
Qed.

Lemma triple_cas {A} l o n (k : Z + Z -> prog L A) Q s :
  pinv s ->
  (forall s', pinv s' -> pstep s s' -> s' l = o ->
     pinv (upd s' l n) /\ pstep s' (upd s' l n) /\ triple (k (inl o)) Q (upd s' l n)) ->
  (forall s', pinv s' -> pstep s s' -> s' l <> o -> triple (k (inr (s' l))) Q s') ->
  triple (Cas l o n k) Q s.
Proof.
  intros Hi Hok Hno s' Hs'. destruct (Hs' Hi) as [H1 H2]. destruct (Z.eqb_spec (s' l) o) as [E|E].
  - destruct (Hok s' H1 H2 E) as (H3 & H4 & H5). by split.
  - by apply Hno.
Qed.

(** The continuation starts from a later store that still satisfies the
    invariant. *)
Lemma triple_bind {A B} (p : prog L A) (f : A -> prog L B) P Q s :
  pinv s -> triple p P s ->
  (forall a s', pinv s' -> pstep s s' -> P a s' -> triple (f a) Q s') -> triple (pbind p f) Q s.
Proof.
  intros Hi Hp Hf. apply rg_bind; [apply pkeeps_refl|].
  eapply rg_mono; [|apply (rg_frame pkeeps pkeeps p P (fun s' => pinv s' /\ pstep s s'));
    [| |exact Hp|split; [done|apply pstep_refl]]].
  - intros a s' (HP & H1 & H2). by apply Hf.
  - intros a b Hk [Ha Hs]. destruct (Hk Ha). split; [done|]. by eapply pstep_trans.
  - intros a b Hk [Ha Hs]. destruct (Hk Ha). split; [done|]. by eapply pstep_trans.
Qed.

Lemma triple_bind_res {E A B} (p : prog L (outcome E A)) (f : A -> prog L (outcome E B)) P Q s :
  pinv s -> triple p P s ->
  (forall a s', pinv s' -> pstep s s' -> P (Ok a) s' -> triple (f a) Q s') ->
  (forall e s', pinv s' -> pstep s s' -> P (Err e) s' -> triple (Ret (Err e)) Q s') ->
  (forall s', pinv s' -> pstep s s' -> P Panic s' -> triple (Ret Panic) Q s') ->
  triple (pbind_res p f) Q s.
Proof. intros Hi Hp H1 H2 H3. eapply triple_bind; [done..|]. intros [a|e|] s' ???; auto. Qed.

(** The last call of a method: its postcondition gives the method's. *)
Lemma triple_bind_ret {A} (p : prog L A) P (Q : A -> memory L -> Prop) s :
  pinv s -> triple p P s ->
  (forall a s', pinv s' -> pstep s s' -> P a s' -> Q a s' /\ pstable (Q a)) -> triple p Q s.
Proof.
  intros Hi Hp Hf. assert (Hb : triple (pbind p Ret) Q s).
  { eapply triple_bind; [done..|]. intros a s' H1 H2 H3. destruct (Hf a s' H1 H2 H3). by apply triple_ret. }
  clear -Hb. revert s Hb. unfold triple. induction p; intros s Hb s' Hs'; specialize (Hb s' Hs'); simpl in *;
    repeat case_match; naive_solver.
Qed.

Lemma triple_mono {A} (p : prog L A) (P Q : A -> memory L -> Prop) s :
  (forall a s, P a s -> Q a s) -> triple p P s -> triple p Q s.
Proof. apply rg_mono. Qed.

(** A program whose every access keeps the protocol by itself. *)
Lemma triple_harmless {A} (p : prog L A) s :
  emits (fun e => forall s s', pinv s -> apply_event s e = Some s' -> pinv s' /\ pstep s s') p -> pinv s ->
  triple p (fun _ _ => True) s.
Proof.
  revert s. induction p as [a|l k IH|l v k IH|l v k IH|l o n k IH|k IH]; intros s He Hi; simpl in He.
  - by apply triple_ret_pure.
  - apply triple_load; [done|]. intros s1 I1 _. apply IH; [apply He|done].
  - destruct He as [Hw He]. apply triple_store; [done|]. intros s1 I1 _.
    destruct (Hw s1 _ I1 eq_refl) as [I2 K2]. auto.
  - intros s1 K1. destruct (K1 Hi) as [I1 _]. destruct (He (s1 l)) as [Hw Hk].
    destruct (Hw s1 (upd s1 l v) I1) as [I2 K2]; [simpl; by rewrite Z.eqb_refl|]. split; [done|by apply IH].
  - destruct He as [[Hw Hk] Hf]. apply triple_cas; [done|..].
    + intros s1 I1 _ E. destruct (Hw s1 (upd s1 l n) I1) as [I2 K2]; [simpl; by rewrite (proj2 (Z.eqb_eq _ _))|]. auto.
    + intros s1 I1 _ _. apply IH; [apply Hf|done].
  - apply triple_input; [done|]. intros v s1 I1 _. apply IH; [apply He|done].
Qed.

Lemma triple_run_all {O A} (run : O -> prog L A) (Q : A -> memory L -> Prop) os s :
  (forall r, pstable (Q r)) -> (forall o s, o ∈ os -> pinv s -> triple (run o) Q s) -> pinv s ->
  triple (run_all run os) (fun rs s' => Forall (fun r => Q r s') rs) s.
Proof.
  intros Hst. revert s. induction os as [|o os IH]; intros s Hrun Hi; cbn [run_all]; [by apply triple_ret_pure|].
  eapply triple_bind; [done|apply Hrun; [set_solver|done]|]. intros r s1 H1 _ Hr.
  eapply triple_bind; [done|apply IH; [|done]|]. { intros o' s' Ho'. apply Hrun. set_solver. }
  intros rs s2 H2 K2 Hrs. apply triple_ret; [done|constructor; [by apply (Hst r s1 s2)|done]|].
  intros a b Ha Hb Hs HF. eapply Forall_impl; [exact HF|]. intros x. by apply (Hst x a b).
Qed.

(** Threads proved against the protocol run together under it. *)
Lemma triple_parallel {A} (Q : nat -> A -> memory L -> Prop) (ps : list (prog L A)) s g qs s' :
  pinv s -> (forall i p, ps !! i = Some p -> triple p (Q i) s) -> concurrent ps s g qs s' ->
  pinv s' /\ pstep s s' /\ forall i a, qs !! i = Some (Ret a) -> Q i a s'.
Proof.
  intros Hi Hps Hc.
  destruct (rg_parallel (fun _ => pkeeps) (fun _ => pkeeps) Q ps s g qs s') as [Hrtc HQ]; try done.
  - intros _. apply pkeeps_refl.
  - intros _. apply pkeeps_trans.
  - intros _. apply pkeeps_refl.
  - assert (Hk : pkeeps s s').
    { clear -Hrtc. induction Hrtc as [|a b c [_ Hk] _ IH]; [apply pkeeps_refl|by eapply pkeeps_trans]. }
    destruct (Hk Hi). auto.
Qed.
End Protocol.

(** An access on a larger set of locations. *)
Definition relocated {L M} (f : L -> M) (e : event L) : event M :=
  match e with
  | ELoad l v => ELoad (f l) v
  | EStore l v => EStore (f l) v
  | ESwap l o n => ESwap (f l) o n
  | ECasOk l o n => ECasOk (f l) o n
  | ECasFail l o v => ECasFail (f l) o v
  | EInput v => EInput v
  end.

Lemma emits_relocate {L M A} (f : L -> M) (P : event M -> Prop) (p : prog L A) :
  emits (fun e => P (relocated f e)) p -> emits P (relocate f p).
Proof. induction p; simpl; naive_solver. Qed.

Lemma covered_relocate {L M A} (f : L -> M) need have need' have' (p : prog L A) n :
  (forall e, need (relocated f e) = need' e) -> (forall e, have (relocated f e) = have' e) ->
  covered need' have' p n -> covered need have (relocate f p) n.
Proof.
  intros Hn Hh. assert (He : forall i e (P Q : nat -> Prop), (forall j, P j -> Q j) ->
    earns need' have' i e P -> earns need have i (relocated f e) Q).
  { unfold earns. intros i e P Q HPQ. rewrite Hn, Hh. destruct (need' e); [destruct i; auto|auto]. }
  revert n. induction p as [b|l k IH|l v k IH|l v k IH|l o w k IH|k IH]; cbn [covered relocate]; intros i Hp; [done|..].
  1,2,3,5: try intros x; (eapply (He i (ELoad l x)) || eapply (He i (EStore l v)) || eapply (He i (ESwap l x v)) || eapply (He i (EInput x))); [|apply Hp]; apply IH.
  split; [eapply (He i (ECasOk l o w)); [|apply Hp]; apply IH|]. intros x. eapply (He i (ECasFail l o x)); [|apply Hp]. apply IH.
Qed.

Lemma within_relocate {L M A} (f : L -> M) (P : event M -> Prop) (p : prog L A) Q :
  within (fun e => P (relocated f e)) p Q -> within P (relocate f p) Q.
Proof. induction p; cbn; naive_solver. Qed.

Lemma traces_relocate {L M A} (f : L -> M) (p : prog L A) (Q : list (event M) -> A -> Prop) acc t0 :
  traces p (fun t a => Q (acc ++ (relocated f <$> t)) a) t0 -> traces (relocate f p) Q (acc ++ (relocated f <$> t0)).
Proof.
  assert (Hs : forall t e, (acc ++ (relocated f <$> t)) ++ [relocated f e] = acc ++ (relocated f <$> t ++ [e]))
    by (intros t e; by rewrite fmap_app, <- app_assoc).
  revert t0. induction p as [b|l k IH|l v k IH|l v k IH|l o n k IH|k IH]; cbn [traces relocate]; intros t0 Hp; [done|..].
  - intros v. change (ELoad (f l) v) with (relocated f (ELoad l v)). rewrite Hs. apply IH, Hp.
  - change (EStore (f l) v) with (relocated f (EStore l v)). rewrite Hs. apply IH, Hp.
  - intros old. change (ESwap (f l) old v) with (relocated f (ESwap l old v)). rewrite Hs. apply IH, Hp.
  - destruct Hp as [Hp Hq]. split.
    { change (ECasOk (f l) o n) with (relocated f (ECasOk l o n)). rewrite Hs. by apply IH. }
    intros v Hv. change (ECasFail (f l) o v) with (relocated f (ECasFail l o v)). rewrite Hs. by apply IH, Hq.
  - intros v. change (EInput v) with (relocated f (EInput v)). rewrite Hs. apply IH, Hp.
Qed.

Create HintDb emits discriminated.

(** Symbolic execution of [emits] goals: follow the program, splitting on the
    values it reads, with the facts of the hint base [emits] for the methods it
    calls. *)
Ltac emits_go :=
  repeat match goal with
  | |- emits _ (Ret _) => exact I
  | |- emits _ (pbind_res _ _) => apply emits_bind_res; [|intros ?]
  | |- emits _ (pbind _ _) => apply emits_bind; [|intros ?]
  | |- emits _ (if ?b then _ else _) => destruct b eqn:?
  | |- emits _ (match ?x with _ => _ end) => destruct x eqn:?
  | |- emits _ (relocate _ _) => first [solve [eauto with emits]|apply emits_relocate]
  | |- emits _ _ => solve [eauto with emits]
  | |- emits _ _ =>
      progress (cbv beta delta [load store swap compare_exchange input cas_or]; cbn [emits pbind])
  | |- forall _, _ => intros ?
  | |- _ /\ _ => split
  | |- True => exact I
  end.
