(* ===== verification/TlbUpdate.v ===== *)
(** * EL2 mapping updates: src/tvisor_util/tlb_update.rs

    [UpdateState] coordinates a change of a live EL2 mapping among the CPUs:
    the coordinator opens an epoch, the members acknowledge that they are
    quiet, the table is replaced, the members acknowledge that they are
    synchronised, and the old page becomes reusable.  Each method is a program
    over the atomics of the structure.  The theorems hold for any number of
    callers interleaved in any order; where a method reads several fields, the
    interference it tolerates is the rely of a triple. *)

From S2P Require Import Prelude Atomics.

(** src/tvisor_util/cpu_topology.rs *)
Definition MAX_CPUS : nat := 4.

Inductive Phase := Idle | Quiescing | Replacing | Synchronizing | Complete | Failed.

#[global] Instance Phase_eq_dec : EqDecision Phase.
Proof. solve_decision. Defined.

(** [phase as u64]. *)
Definition phase_u64 (p : Phase) : Z :=
  match p with
  | Idle => 0 | Quiescing => 1 | Replacing => 2 | Synchronizing => 3 | Complete => 4 | Failed => 5
  end.

Inductive Error := Busy | EFailed | Membership | EEpoch | EPhase | MissingAck | EpochExhausted.

(** The atomics of [UpdateState]. *)
Inductive loc :=
| Gate
| Epoch
| Members
| PhaseCell
| Requested (id : nat)
| Quiet (id : nat)
| Synced (id : nat).

#[global] Instance loc_eq_dec : EqDecision loc.
Proof. solve_decision. Defined.

Definition UpdateState_new : memory loc := fun _ => 0.

Definition phase_of (v : Z) : Phase :=
  match v with
  | 0 => Idle | 1 => Quiescing | 2 => Replacing | 3 => Synchronizing | 4 => Complete | _ => Failed
  end.

Definition phase : prog loc Phase := v <- load PhaseCell ;; Ret (phase_of v).
Definition epoch : prog loc Z := load Epoch.
Definition members : prog loc Z := load Members.

(** [a && b] with a [b] that reads the state. *)
Definition and_then {L} (a : prog L bool) (b : prog L bool) : prog L bool :=
  x <- a ;; if (x : bool) then b else Ret false.

Definition phase_is (p : Phase) : prog loc bool := x <- phase ;; Ret (bool_decide (x = p)).

Definition try_membership_change : prog loc bool :=
  and_then (x <- phase ;; Ret (bool_decide (x <> Failed)))
    (and_then (r <- compare_exchange Gate 0 2 ;; Ret (match r with inl _ => true | inr _ => false end))
      (x <- phase ;; Ret (bool_decide (x <> Failed)))).

(** [assert_eq!(self.gate.swap(0), 2)]. *)
Definition finish_membership_change : prog loc (outcome Error unit) :=
  old <- swap Gate 0 ;; Ret (if old =? 2 then Ok tt else Panic).

Definition fail : prog loc unit := store PhaseCell (phase_u64 Failed).

Definition begin_update (ms : Z) : prog loc (outcome Error Z) :=
  p0 <- phase ;;
  if decide (p0 = Failed) then Ret (Err EFailed)
  else if (Z.land ms 1 =? 0) || negb (Z.shiftr ms (Z.of_nat MAX_CPUS) =? 0) || (ms =? 1)
  then Ret (Err Membership)
  else
    _ <-? cas_or Gate 0 1 Busy ;;
    previous <- phase ;;
    if negb (bool_decide (previous = Idle) || bool_decide (previous = Complete)) then
      _ <- fail ;; Ret (Err EPhase)
    else
      e <- epoch ;;
      match checked_add e 1 with
      | None => _ <- fail ;; Ret (Err EpochExhausted)
      | Some e' =>
          _ <- store Members ms ;;
          _ <- store Epoch e' ;;
          _ <-? cas_or PhaseCell (phase_u64 previous) (phase_u64 Quiescing) EFailed ;;
          Ret (Ok e')
      end.

Definition member_bit (ms : Z) (id : nat) : bool :=
  negb (Z.land ms (Z.shiftl 1 (Z.of_nat id)) =? 0).

Definition check (id : nat) (ep : Z) (ph : Phase) : prog loc (outcome Error unit) :=
  p0 <- phase ;;
  if decide (p0 = Failed) then Ret (Err EFailed)
  else
    in_set <- (if (MAX_CPUS <=? id)%nat then Ret false
               else ms <- members ;; Ret (member_bit ms id)) ;;
    if negb in_set then Ret (Err Membership)
    else
      current <- (if ep =? 0 then Ret false else e <- epoch ;; Ret (e =? ep)) ;;
      if negb current then Ret (Err EEpoch)
      else
        in_phase <- and_then (phase_is ph) (g <- load Gate ;; Ret (g =? 1)) ;;
        if negb in_phase then Ret (Err EPhase) else Ret (Ok tt).

Definition admit_request (id : nat) (ep : Z) : prog loc (outcome Error unit) :=
  _ <-? check id ep Quiescing ;;
  if (id =? 0)%nat then Ret (Err Membership)
  else
    previous <- load (Requested id) ;;
    if ep <=? previous then Ret (Err EEpoch)
    else cas_or (Requested id) previous ep EEpoch.

Definition pending (id : nat) : prog loc bool :=
  if (id <? MAX_CPUS)%nat then
    and_then (phase_is Quiescing)
      (and_then (r <- load (Requested id) ;; e <- epoch ;; Ret (r =? e))
        (q <- load (Quiet id) ;; e <- epoch ;; Ret (negb (q =? e))))
  else Ret false.

Definition quiesce (id : nat) (ep : Z) : prog loc (outcome Error unit) :=
  _ <-? check id ep Quiescing ;;
  late <- (if (id =? 0)%nat then Ret false else r <- load (Requested id) ;; Ret (negb (r =? ep))) ;;
  if (late : bool) then Ret (Err EEpoch)
  else _ <- store (Quiet id) ep ;; Ret (Ok tt).

(** [(0..MAX_CPUS).all(..)] from [id] on, [n] CPUs left. *)
Fixpoint all_from (acks : nat -> loc) (n id : nat) : prog loc bool :=
  match n with
  | O => Ret true
  | S n' =>
      ms <- members ;;
      ok <- (if member_bit ms id then a <- load (acks id) ;; e <- epoch ;; Ret (a =? e) else Ret true) ;;
      if (ok : bool) then all_from acks n' (S id) else Ret false
  end.

Definition all (acks : nat -> loc) : prog loc bool := all_from acks MAX_CPUS 0.

Definition all_quiet : prog loc bool := and_then (phase_is Quiescing) (all Quiet).

Definition start_replace (ep : Z) : prog loc (outcome Error unit) :=
  _ <-? check 0 ep Quiescing ;;
  ok <- all Quiet ;;
  if negb ok then Ret (Err MissingAck) else cas_or PhaseCell 1 2 EPhase.

Definition may_write (ep : Z) : prog loc bool :=
  r <- check 0 ep Replacing ;;
  match r with Ok _ => all Quiet | _ => Ret false end.

Definition publish (ep : Z) : prog loc (outcome Error unit) :=
  _ <-? check 0 ep Replacing ;; cas_or PhaseCell 2 3 EPhase.

Definition synchronized (id : nat) (ep : Z) : prog loc (outcome Error unit) :=
  _ <-? check id ep Synchronizing ;;
  _ <- store (Synced id) ep ;; Ret (Ok tt).

Definition all_synced : prog loc bool := and_then (phase_is Synchronizing) (all Synced).

Definition finish (ep : Z) : prog loc (outcome Error unit) :=
  _ <-? check 0 ep Synchronizing ;;
  ok <- all Synced ;;
  if negb ok then Ret (Err MissingAck)
  else
    _ <-? cas_or PhaseCell (phase_u64 Synchronizing) (phase_u64 Complete) EPhase ;;
    _ <- store Gate 0 ;; Ret (Ok tt).

Definition reusable (ep : Z) : prog loc bool :=
  if ep =? 0 then Ret false
  else
    and_then (e <- epoch ;; Ret (e =? ep))
      (and_then (phase_is Complete) (all Synced)).

(** ** The methods as one family of operations *)

Inductive op :=
| OTryMembership
| OFinishMembership
| OBegin (ms : Z)
| OAdmit (id : nat) (ep : Z)
| OPending (id : nat)
| OQuiesce (id : nat) (ep : Z)
| OAllQuiet
| OStartReplace (ep : Z)
| OMayWrite (ep : Z)
| OPublish (ep : Z)
| OSynchronized (id : nat) (ep : Z)
| OAllSynced
| OFinish (ep : Z)
| OReusable (ep : Z)
| OFail.

(** What a call returned. *)
Inductive reply := RBool (b : bool) | RUnit (r : outcome Error unit) | REpoch (r : outcome Error Z) | RNone.

Definition run_op (o : op) : prog loc reply :=
  match o with
  | OTryMembership => b <- try_membership_change ;; Ret (RBool b)
  | OFinishMembership => r <- finish_membership_change ;; Ret (RUnit r)
  | OBegin ms => r <- begin_update ms ;; Ret (REpoch r)
  | OAdmit id ep => r <- admit_request id ep ;; Ret (RUnit r)
  | OPending id => b <- pending id ;; Ret (RBool b)
  | OQuiesce id ep => r <- quiesce id ep ;; Ret (RUnit r)
  | OAllQuiet => b <- all_quiet ;; Ret (RBool b)
  | OStartReplace ep => r <- start_replace ep ;; Ret (RUnit r)
  | OMayWrite ep => b <- may_write ep ;; Ret (RBool b)
  | OPublish ep => r <- publish ep ;; Ret (RUnit r)
  | OSynchronized id ep => r <- synchronized id ep ;; Ret (RUnit r)
  | OAllSynced => b <- all_synced ;; Ret (RBool b)
  | OFinish ep => r <- finish ep ;; Ret (RUnit r)
  | OReusable ep => b <- reusable ep ;; Ret (RBool b)
  | OFail => _ <- fail ;; Ret RNone
  end.

(** A thread that performs a sequence of calls. *)
Fixpoint run_ops (os : list op) : prog loc (list reply) :=
  match os with
  | [] => Ret []
  | o :: rest => r <- run_op o ;; rs <- run_ops rest ;; Ret (r :: rs)
  end.

(** ** The phase only moves along the protocol *)

Inductive phase_step : Phase -> Phase -> Prop :=
| step_begin : phase_step Idle Quiescing
| step_again : phase_step Complete Quiescing
| step_replace : phase_step Quiescing Replacing
| step_publish : phase_step Replacing Synchronizing
| step_finish : phase_step Synchronizing Complete
| step_fail p : phase_step p Failed.

(** The accesses to the phase and to the gate the methods may make. *)
Definition allowed (e : event loc) : Prop :=
  match e with
  | EStore PhaseCell v => v = 5
  | ESwap PhaseCell _ _ => False
  | ECasOk PhaseCell o n =>
      (o = 0 /\ n = 1) \/ (o = 4 /\ n = 1) \/ (o = 1 /\ n = 2) \/ (o = 2 /\ n = 3) \/ (o = 3 /\ n = 4)
  | EStore Gate v => v = 0
  | ESwap Gate _ v => v = 0
  | ECasOk Gate o n => o = 0 /\ (n = 1 \/ n = 2)
  | _ => True
  end.

Ltac tlb_emits := emits_go; simpl; auto 10 with lia.

Lemma emits_phase : emits allowed phase.
Proof. unfold phase. tlb_emits. Qed.
#[local] Hint Resolve emits_phase : emits.

Lemma emits_phase_is p : emits allowed (phase_is p).
Proof. unfold phase_is. tlb_emits. Qed.
#[local] Hint Resolve emits_phase_is : emits.

Lemma emits_check id ep ph : emits allowed (check id ep ph).
Proof. unfold check, and_then, members, epoch. tlb_emits. Qed.
#[local] Hint Resolve emits_check : emits.

Lemma emits_all acks : (forall i v, allowed (ELoad (acks i) v)) -> emits allowed (all acks).
Proof.
  intros Ha. unfold all. generalize 0%nat. induction MAX_CPUS as [|n IH]; intros id; [exact I|].
  cbn [all_from]. unfold members, epoch. tlb_emits.
Qed.

Lemma emits_all_quiet_acks : emits allowed (all Quiet).
Proof. by apply emits_all. Qed.
Lemma emits_all_synced_acks : emits allowed (all Synced).
Proof. by apply emits_all. Qed.
#[local] Hint Resolve emits_all_quiet_acks emits_all_synced_acks : emits.

Lemma emits_begin ms : emits allowed (begin_update ms).
Proof.
  unfold begin_update, fail, epoch. tlb_emits.
  destruct a1; simpl in *; try done; auto 10.
Qed.
#[local] Hint Resolve emits_begin : emits.

Lemma emits_op o : emits allowed (run_op o).
Proof.
  destruct o; cbn [run_op];
    unfold try_membership_change, finish_membership_change, admit_request, pending, quiesce, all_quiet,
      start_replace, may_write, publish, synchronized, all_synced, finish, reusable, fail, and_then,
      epoch; tlb_emits.
Qed.

Lemma emits_ops os : emits allowed (run_ops os).
Proof.
  induction os as [|o os IH]; simpl; [exact I|].
  apply emits_bind; [apply emits_op|]. intros r. by apply emits_bind.
Qed.

Lemma allowed_phase s e s' :
  allowed e -> apply_event s e = Some s' ->
  rtc phase_step (phase_of (s PhaseCell)) (phase_of (s' PhaseCell)).
Proof.
  destruct e as [l v|l v|l o n|l o n|l x v|v]; cbn [apply_event]; intros Ha;
    repeat case_match; intros; simplify_eq; bool_prop; try reflexivity;
    destruct l; try (rewrite upd_ne by done; reflexivity); rewrite upd_eq; simpl in Ha; try done.
  - subst v. apply rtc_once, step_fail.
  - destruct Ha as [[-> ->]|[[-> ->]|[[-> ->]|[[-> ->]|[-> ->]]]]]; simplify_eq;
      rewrite H; apply rtc_once; constructor.
Qed.

Lemma phase_step_failed p q : rtc phase_step p q -> p = Failed -> q = Failed.
Proof. induction 1 as [|x y z Hxy Hyz IH]; [done|]. intros ->. apply IH. by inversion Hxy. Qed.

(** [tlb_phase_path]: however many threads call the methods of one [UpdateState], and
    however their atomic accesses interleave, the phase moves only along the
    protocol's edges; in particular a failure is never undone. *)
Lemma tlb_phase_path (threads : list (list op)) s g qs s' :
  concurrent (run_ops <$> threads) s g qs s' ->
  rtc phase_step (phase_of (s PhaseCell)) (phase_of (s' PhaseCell)) /\
  (phase_of (s PhaseCell) = Failed -> phase_of (s' PhaseCell) = Failed).
Proof.
  intros Hc. assert (Hr : rtc phase_step (phase_of (s PhaseCell)) (phase_of (s' PhaseCell))).
  { apply (replay_invariant allowed (fun a b => rtc phase_step (phase_of (a PhaseCell)) (phase_of (b PhaseCell))))
      with (snd <$> g).
    - reflexivity.
    - intros a b c ??. by etrans.
    - apply allowed_phase.
    - eapply concurrent_emits; [|done]. apply Forall_fmap, Forall_true. intros. apply emits_ops.
    - by apply Hc. }
  split; [done|]. by apply phase_step_failed.
Qed.

(** ** While an update holds the gate

    [keeps] is both the rely and the guarantee of every thread during an
    update: the epoch and the member set stay, and an acknowledgement slot
    only ever receives the current epoch. *)

Definition held (s : memory loc) : Prop := s Gate = 1.

Definition keeps (s s' : memory loc) : Prop :=
  held s ->
  held s' /\ s' Epoch = s Epoch /\ s' Members = s Members /\
  (forall id, s' (Quiet id) = s (Quiet id) \/ s' (Quiet id) = s Epoch) /\
  (forall id, s' (Synced id) = s (Synced id) \/ s' (Synced id) = s Epoch).

Lemma keeps_refl s : keeps s s.
Proof. intros Hh. split_and!; auto. Qed.

Lemma keeps_trans a b c : keeps a b -> keeps b c -> keeps a c.
Proof.
  unfold keeps. intros H1 H2 Ha. destruct (H1 Ha) as (Hb & E1 & M1 & Q1 & S1).
  destruct (H2 Hb) as (Hc & E2 & M2 & Q2 & S2). split_and!; [done|congruence..| |]; intros id.
  - destruct (Q2 id) as [->| ->]; [apply Q1|]. right. congruence.
  - destruct (S2 id) as [->| ->]; [apply S1|]. right. congruence.
Qed.

(** Accesses that keep an update's invariant from any store that holds the gate. *)
Definition harmless (e : event loc) : Prop :=
  forall s s', apply_event s e = Some s' -> keeps s s'.

Lemma harmless_triple {A} (p : prog loc A) s :
  emits harmless p -> held s -> rg keeps keeps p (fun _ s' => held s') s.
Proof.
  revert s. induction p as [a|l k IH|l v k IH|l v k IH|l o n k IH|k IH]; simpl; intros s He Hh s' Hs';
    assert (Hh' : held s') by (by apply Hs').
  - done.
  - apply IH; [apply He|done].
  - destruct He as [Hw He]. assert (Hk : keeps s' (upd s' l v)) by (by apply Hw).
    split; [done|]. apply IH; [done|by apply Hk].
  - destruct (He (s' l)) as [Hw Hk]. assert (Hg : keeps s' (upd s' l v)).
    { apply Hw. simpl. by rewrite Z.eqb_refl. }
    split; [done|]. apply IH; [done|by apply Hg].
  - destruct He as [[Hw Hk] Hf]. destruct (s' l =? o) eqn:E; [|apply IH; [apply Hf|done]].
    assert (Hg : keeps s' (upd s' l n)) by (apply Hw; simpl; by rewrite E).
    split; [done|]. apply IH; [done|by apply Hg].
  - intros v. apply IH; [apply He|done].
Qed.

Lemma harmless_read l v : harmless (ELoad l v).
Proof. intros s s'. simpl. case_match; [|done]. intros [= <-]. apply keeps_refl. Qed.

Lemma harmless_fail l o v : harmless (ECasFail l o v).
Proof. intros s s'. simpl. case_match; [|done]. intros [= <-]. apply keeps_refl. Qed.

(** A write to the phase or to a request slot touches nothing [keeps] speaks of. *)
Lemma harmless_phase_store v : harmless (EStore PhaseCell v).
Proof. intros s s' [= <-] Hh. unfold held in *. rewrite !upd_ne by done. split_and!; auto. Qed.

Lemma harmless_phase_cas o n : harmless (ECasOk PhaseCell o n).
Proof.
  intros s s'. simpl. case_match; [|done]. intros [= <-] Hh. unfold held in *. rewrite !upd_ne by done.
  split_and!; auto.
Qed.

Lemma harmless_request id o n : harmless (ECasOk (Requested id) o n).
Proof.
  intros s s'. simpl. case_match; [|done]. intros [= <-] Hh. unfold held in *. rewrite !upd_ne by done.
  split_and!; auto.
Qed.

(** While the gate is held, no one takes it. *)
Lemma harmless_gate n : harmless (ECasOk Gate 0 n).
Proof. intros s s'. simpl. case_match; [|done]. intros [= <-] Hh. unfold held in Hh. bool_prop. congruence. Qed.

#[local] Hint Resolve harmless_read harmless_fail harmless_phase_store harmless_phase_cas
  harmless_request harmless_gate : harm.

(** ** Triples of the methods *)

Section Triples.
(* the guarantee plays no part in methods that only read *)
Context (G : memory loc -> memory loc -> Prop).
Notation triple p Q s := (rg keeps G p Q s).

(** Facts about a store the environment keeps. *)
Definition stable (P : memory loc -> Prop) : Prop :=
  forall s s', held s -> keeps s s' -> P s -> P s'.

Lemma utriple_ret {A} (a : A) (Q : A -> memory loc -> Prop) s :
  held s -> Q a s -> stable (Q a) -> triple (Ret a) Q s.
Proof. intros Hh HQ Hst s' Hs'. by eapply Hst. Qed.

Lemma utriple_load {A} l (k : Z -> prog loc A) Q s :
  held s -> (forall s', held s' -> keeps s s' -> triple (k (s' l)) Q s') -> triple (Load l k) Q s.
Proof. intros Hh Hk s' Hs'. apply Hk; [by apply Hs'|done]. Qed.

(** Sequencing: the continuation starts from a store the environment may have
    changed since. *)
Lemma utriple_bind {A B} (p : prog loc A) (f : A -> prog loc B) P Q s :
  triple p P s -> (forall a s', P a s' -> triple (f a) Q s') -> triple (pbind p f) Q s.
Proof. intros Hp Hf. apply rg_bind; [apply keeps_refl|]. eapply rg_mono; [|done]. auto. Qed.

Lemma utriple_bind_res {E A B} (p : prog loc (outcome E A)) (f : A -> prog loc (outcome E B)) P Q s :
  triple p P s -> (forall a s', P (Ok a) s' -> triple (f a) Q s') ->
  (forall e s', P (Err e) s' -> triple (Ret (Err e)) Q s') ->
  (forall s', P Panic s' -> triple (Ret Panic) Q s') -> triple (pbind_res p f) Q s.
Proof. intros Hp H1 H2 H3. eapply utriple_bind; [done|]. intros [a|e|] s' Hs'; auto. Qed.

Definition member_at (id : nat) (ep : Z) (s : memory loc) : Prop :=
  held s /\ s Epoch = ep /\ member_bit (s Members) id = true.

Lemma member_at_stable id ep : stable (member_at id ep).
Proof. intros s s' Hh Hk (_ & He & Hm). destruct (Hk Hh) as (? & E & M & _). split_and!; congruence. Qed.

Lemma held_stable : stable held.
Proof. intros s s' _ Hk Hh. by apply Hk. Qed.

Lemma triple_check id ep ph s :
  held s ->
  triple (check id ep ph)
    (fun r s' => held s' /\ (r = Ok tt -> (id < MAX_CPUS)%nat /\ member_at id ep s')) s.
Proof.
  intros Hh. set (Q := fun (r : outcome Error unit) s' => _).
  assert (Herr : forall e s', held s' -> triple (Ret (Err e)) Q s').
  { intros e s' Hs'. apply utriple_ret; [done|by split|]. intros x y Hx Hk _. split; [by apply Hk|done]. }
  unfold check, phase, load. cbn [pbind]. apply utriple_load; [done|]. intros s1 H1 _.
  case_decide; [auto|]. destruct (Nat.leb_spec MAX_CPUS id) as [|Hid]; cbn [pbind negb]; [auto|].
  apply utriple_load; [done|]. intros s2 H2 _. destruct (member_bit (s2 Members) id) eqn:Hm; cbn [pbind negb]; [|auto].
  destruct (ep =? 0); cbn [pbind negb]; [auto|].
  apply utriple_load; [done|]. intros s3 H3 K3. destruct (s3 Epoch =? ep) eqn:He; cbn [pbind negb]; [|auto].
  assert (Hat : member_at id ep s3).
  { bool_prop. split_and!; [done..|]. by rewrite (proj1 (proj2 (proj2 (K3 H2)))). }
  unfold and_then, phase_is, phase, load. cbn [pbind].
  apply utriple_load; [done|]. intros s4 H4 K4. apply (member_at_stable _ _ _ _ H3 K4) in Hat.
  case_bool_decide; cbn [pbind negb]; [|auto].
  apply utriple_load; [done|]. intros s5 H5 K5. apply (member_at_stable _ _ _ _ H4 K5) in Hat.
  destruct (_ =? 1); cbn [pbind negb]; [|auto].
  apply utriple_ret; [done|by split|]. intros x y Hx Hk [_ HQ]. split; [by apply Hk|].
  intros Hr. split; [done|]. destruct (HQ Hr). by eapply member_at_stable.
Qed.

(** [acks] of the members seen so far equal the epoch. *)
Definition acked (acks : nat -> loc) (n : nat) (s : memory loc) : Prop :=
  held s /\ forall id, (id < n)%nat -> member_bit (s Members) id = true -> s (acks id) = s Epoch.

Lemma acked_stable acks n : acks = Quiet \/ acks = Synced -> stable (acked acks n).
Proof.
  intros Ha s s' Hh Hk [_ Hq]. destruct (Hk Hh) as (Hh' & E & M & HQ & HS). split; [done|].
  intros id Hid. rewrite M, E. intros Hm. specialize (Hq id Hid Hm).
  destruct Ha as [-> | ->]; [destruct (HQ id)|destruct (HS id)]; congruence.
Qed.

Lemma triple_all_from acks n id s :
  acks = Quiet \/ acks = Synced -> acked acks id s ->
  triple (all_from acks n id)
    (fun b s' => held s' /\ (b = true -> acked acks (id + n) s')) s.
Proof.
  intros Ha. revert id s. induction n as [|n IH]; intros id s Hq; cbn [all_from].
  { apply utriple_ret; [apply Hq|split; [apply Hq|]; by rewrite Nat.add_0_r|].
    intros x y Hx Hk [_ HQ]. split; [by apply Hk|]. intros Hb. by eapply acked_stable; [..|apply HQ]. }
  rewrite <- Nat.add_succ_comm.
  assert (Hfalse : forall s', held s' ->
    triple (Ret false) (fun b s' => held s' /\ (b = true -> acked acks (S id + n) s')) s').
  { intros s' Hs'. apply utriple_ret; [done|by split|]. intros x y Hx Hk _. split; [by apply Hk|done]. }
  unfold members, load. cbn [pbind]. apply utriple_load; [apply Hq|]. intros s1 H1 K1.
  apply (acked_stable _ _ Ha _ _ (proj1 Hq) K1) in Hq.
  destruct (member_bit (s1 Members) id) eqn:Hm; cbn [pbind].
  - apply utriple_load; [done|]. intros s2 H2 K2. apply (acked_stable _ _ Ha _ _ H1 K2) in Hq.
    unfold epoch, load. cbn [pbind]. apply utriple_load; [done|]. intros s3 H3 K3. 
    destruct (K3 H2) as (_ & E3 & M3 & Q3 & S3).
    apply (acked_stable _ _ Ha _ _ H2 K3) in Hq. destruct (_ =? _) eqn:Heq; [|auto]. bool_prop.
    apply IH. split; [done|]. intros i Hi Hmi. destruct (decide (i = id)) as [->|]; [|apply Hq; [lia|done]].
    rewrite E3 in *. destruct Ha as [-> | ->]; [destruct (Q3 id)|destruct (S3 id)]; congruence.
  - apply IH. split; [done|]. intros i Hi Hmi. destruct (decide (i = id)) as [->|]; [congruence|].
    apply Hq; [lia|done].
Qed.

Lemma triple_all acks s :
  acks = Quiet \/ acks = Synced -> held s ->
  triple (all acks) (fun b s' => held s' /\ (b = true -> acked acks MAX_CPUS s')) s.
Proof. intros Ha Hh. apply (triple_all_from acks MAX_CPUS 0); [done|]. split; [done|]. intros id ?. lia. Qed.

End Triples.

(** Every member of epoch [ep] has acknowledged it. *)
Definition all_acked (acks : nat -> loc) (ep : Z) (s : memory loc) : Prop :=
  s Epoch = ep /\
  forall id, (id < MAX_CPUS)%nat -> member_bit (s Members) id = true -> s (acks id) = ep.

Lemma acked_all_acked acks id ep s :
  acked acks MAX_CPUS s -> member_at id ep s -> all_acked acks ep s.
Proof. intros [_ Ha] (_ & He & _). split; [done|]. intros i Hi Hm. by rewrite Ha. Qed.

(** The acknowledgement stores write the epoch the store currently has. *)
Lemma ack_store_keeps (acks : nat -> loc) id ep s :
  acks = Quiet \/ acks = Synced -> member_at id ep s -> keeps s (upd s (acks id) ep).
Proof.
  intros Ha (Hh & He & _) _. unfold held in *.
  destruct Ha as [-> | ->]; rewrite !upd_ne by done; split_and!; auto; intros i;
    unfold upd; case_decide; auto.
Qed.

Notation triple p Q s := (rg keeps keeps p Q s).

Lemma triple_ack (acks : nat -> loc) id ep s :
  acks = Quiet \/ acks = Synced -> member_at id ep s ->
  triple (_ <- store (acks id) ep ;; Ret (Ok tt : outcome Error unit)) (fun _ s' => held s') s.
Proof.
  intros Ha Hm s1 K1. pose proof (member_at_stable id ep _ _ (proj1 Hm) K1 Hm) as Hm1.
  pose proof (ack_store_keeps acks id ep s1 Ha Hm1) as Hk. split; [done|].
  apply utriple_ret; [by apply Hk, Hm1| by apply Hk, Hm1|apply held_stable].
Qed.

Lemma triple_quiesce id ep s : held s -> triple (quiesce id ep) (fun _ s' => held s') s.
Proof.
  intros Hh. unfold quiesce. eapply utriple_bind_res; [by apply triple_check|..].
  - intros [] s1 [H1 Hm]. destruct (Hm eq_refl) as [_ Hat]. destruct (id =? 0)%nat; cbn [pbind].
    + by apply triple_ack; auto.
    + unfold load. cbn [pbind]. apply utriple_load; [done|]. intros s2 H2 K2.
      apply (member_at_stable _ _ _ _ H1 K2) in Hat.
      destruct (negb _); [apply utriple_ret; [done|done|apply held_stable]|].
      by apply triple_ack; auto.
  - intros e s1 [H1 _]. apply utriple_ret; [done|done|apply held_stable].
  - intros s1 [H1 _]. apply utriple_ret; [done|done|apply held_stable].
Qed.

Lemma triple_synchronized id ep s : held s -> triple (synchronized id ep) (fun _ s' => held s') s.
Proof.
  intros Hh. unfold synchronized. eapply utriple_bind_res; [by apply triple_check|..].
  - intros [] s1 [H1 Hm]. destruct (Hm eq_refl) as [_ Hat]. by apply triple_ack; auto.
  - intros e s1 [H1 _]. apply utriple_ret; [done|done|apply held_stable].
  - intros s1 [H1 _]. apply utriple_ret; [done|done|apply held_stable].
Qed.

(** A second [begin] finds the gate taken. *)
Lemma triple_begin ms s : held s -> triple (begin_update ms) (fun _ s' => held s') s.
Proof.
  intros Hh. assert (Hret : forall (r : outcome Error Z) s', held s' -> triple (Ret r) (fun _ s' => held s') s').
  { intros r s' Hs'. apply utriple_ret; [done|done|apply held_stable]. }
  unfold begin_update, phase, load. cbn [pbind]. apply utriple_load; [done|]. intros s1 H1 _.
  case_decide; [auto|]. destruct (_ || _); [auto|].
  unfold pbind_res, cas_or, compare_exchange. cbn [pbind]. intros s2 K2.
  assert (Hh2 : held s2) by (by apply K2). unfold held in Hh2. rewrite Hh2. simpl.
  intros s3 K3. by apply K3.
Qed.

(** The other methods only read, or write the phase or a request slot. *)
Ltac harm := emits_go; auto with harm.

Lemma harmless_phase_read : emits harmless phase.
Proof. unfold phase. harm. Qed.
#[local] Hint Resolve harmless_phase_read : emits.

Lemma harmless_check id ep ph : emits harmless (check id ep ph).
Proof. unfold check, and_then, phase_is, members, epoch. harm. Qed.

Lemma harmless_all acks : emits harmless (all acks).
Proof.
  unfold all. generalize 0%nat. induction MAX_CPUS as [|n IH]; intros id; [exact I|].
  cbn [all_from]. unfold members, epoch. harm.
Qed.
#[local] Hint Resolve harmless_check harmless_all : emits.

(** The calls that leave the gate alone: all but the two that release it. *)
Definition member_op (o : op) : Prop :=
  match o with OFinish _ | OFinishMembership => False | _ => True end.

(** The calls whose triple is proved separately. *)
Definition special_op (o : op) : bool :=
  match o with
  | OBegin _ | OQuiesce _ _ | OSynchronized _ _ | OFinish _ | OFinishMembership => true
  | _ => false
  end.

Lemma harmless_op o : special_op o = false -> emits harmless (run_op o).
Proof.
  intros Ho. destruct o; try discriminate Ho; cbn [run_op];
    unfold try_membership_change, admit_request, pending, all_quiet, start_replace, may_write, publish,
      all_synced, reusable, fail, and_then, phase_is, epoch; harm.
Qed.

Lemma triple_reply {A} (p : prog loc A) (f : A -> reply) s :
  triple p (fun _ s' => held s') s -> triple (r <- p ;; Ret (f r)) (fun _ s' => held s') s.
Proof.
  intros Hp. eapply utriple_bind; [done|]. intros r s' Hs'.
  apply utriple_ret; [done|done|apply held_stable].
Qed.

Lemma triple_op o s : member_op o -> held s -> triple (run_op o) (fun _ s' => held s') s.
Proof.
  intros Ho Hh. destruct (special_op o) eqn:Es.
  - destruct o; try discriminate Es; try done; apply triple_reply;
      [apply triple_begin|apply triple_quiesce|apply triple_synchronized]; done.
  - apply harmless_triple; [by apply harmless_op|done].
Qed.

Lemma triple_ops os s : Forall member_op os -> held s -> triple (run_ops os) (fun _ s' => held s') s.
Proof.
  intros Hos. revert s. induction Hos as [|o os Ho Hos IH]; intros s Hh; cbn [run_ops].
  { apply utriple_ret; [done|done|apply held_stable]. }
  eapply utriple_bind; [by apply triple_op|]. intros r s1 H1.
  eapply utriple_bind; [by apply IH|]. intros rs s2 H2. apply utriple_ret; [done|done|apply held_stable].
Qed.

Definition replace_post (ep : Z) (r : outcome Error unit) (s : memory loc) : Prop :=
  held s /\ (r = Ok tt -> all_acked Quiet ep s).

Lemma all_acked_stable acks ep : acks = Quiet \/ acks = Synced -> stable (all_acked acks ep).
Proof.
  intros Ha s s' Hh Hk [He Hq]. destruct (Hk Hh) as (_ & E & M & HQ & HS). split; [congruence|].
  intros id Hid. rewrite M. intros Hm. specialize (Hq id Hid Hm).
  destruct Ha as [-> | ->]; [destruct (HQ id)|destruct (HS id)]; congruence.
Qed.

Lemma replace_post_stable ep r : stable (replace_post ep r).
Proof.
  intros s s' Hh Hk [_ Hp]. split; [by apply Hk|]. intros Hr.
  by eapply all_acked_stable; [left|..|apply Hp].
Qed.

Lemma keeps_member_at id ep a b : keeps a b -> member_at id ep a -> member_at id ep b.
Proof. intros Hk Ha. by eapply member_at_stable; [apply Ha|..]. Qed.

(** [check] followed by a complete scan of the acknowledgements. *)
Lemma triple_scan acks ep ph (f : bool -> prog loc (outcome Error unit)) Q s :
  acks = Quiet \/ acks = Synced -> held s ->
  (forall e s', held s' -> triple (Ret (Err e)) Q s') ->
  (forall s', held s' -> triple (Ret Panic) Q s') ->
  (forall b s', member_at 0 ep s' -> (b = true -> all_acked acks ep s') -> triple (f b) Q s') ->
  triple (_ <-? check 0 ep ph ;; b <- all acks ;; f b) Q s.
Proof.
  intros Ha Hh Herr Hpanic Hf. eapply utriple_bind_res; [by apply triple_check|..].
  - intros [] s1 [H1 Hm]. destruct (Hm eq_refl) as [_ Hat].
    eapply utriple_bind.
    { eapply (rg_frame keeps keeps) with (P := member_at 0 ep);
        [apply keeps_member_at|apply keeps_member_at|by apply triple_all|done]. }
    intros b s2 [[H2 Hb] Hat2]. apply Hf; [done|]. intros ->. eapply acked_all_acked; eauto.
  - intros e s1 [H1 _]. auto.
  - intros s1 [H1 _]. auto.
Qed.

Lemma triple_start_replace ep s : held s -> triple (start_replace ep) (replace_post ep) s.
Proof.
  intros Hh. assert (Hret : forall r s', r <> Ok tt -> held s' -> triple (Ret r) (replace_post ep) s').
  { intros r s' Hr Hs'. apply utriple_ret; [done|by split|apply replace_post_stable]. }
  apply triple_scan; [by left|done|auto|auto|].
  intros [] s1 Hat Hall; cbn [negb]; [|apply Hret; [done|apply Hat]].
  unfold cas_or, compare_exchange. cbn [pbind]. intros s2 K2.
  assert (H2 : held s2) by (by apply K2, Hat).
  destruct (s2 PhaseCell =? 1) eqn:Hp; [|by apply Hret].
  assert (Hk : keeps s2 (upd s2 PhaseCell 2)) by (apply (harmless_phase_cas 1 2); simpl; by rewrite Hp).
  split; [done|]. apply utriple_ret; [by apply Hk| |apply replace_post_stable]. split; [by apply Hk|].
  intros _. eapply all_acked_stable; [by left|exact H2|exact Hk|].
  eapply all_acked_stable; [by left|apply Hat|exact K2|]. by apply Hall.
Qed.

(** C27 [tlb_replace_needs_all_quiet]: one thread runs [start_replace] while any number of
    others run any calls that do not release the gate, their accesses
    interleaved arbitrarily. When [start_replace] has returned [Ok], every
    member CPU of that epoch has acknowledged that it is quiet. *)
Theorem tlb_replace_needs_all_quiet ep (others : list (list op)) s g qs s' :
  held s -> Forall (Forall member_op) others ->
  concurrent ((r <- start_replace ep ;; Ret [RUnit r]) :: (run_ops <$> others)) s g qs s' ->
  qs !! 0%nat = Some (Ret [RUnit (Ok tt)]) ->
  all_acked Quiet ep s'.
Proof.
  intros Hh Hos Hc Hq.
  refine (proj2 (rg_parallel (fun _ => keeps) (fun _ => keeps)
    (fun i rs s => i = 0%nat -> rs = [RUnit (Ok tt)] -> all_acked Quiet ep s)
    _ s g qs s' _ _ _ _ _ Hc) 0%nat _ Hq eq_refl eq_refl).
  - intros _. apply keeps_refl.
  - intros _. apply keeps_trans.
  - intros _. apply keeps_refl.
  - done.
  - intros [|i] p Hp.
    + apply (inj Some) in Hp as <-. cbn beta. eapply utriple_bind; [by apply triple_start_replace|].
      intros r s1 Hr. apply utriple_ret; [apply Hr|..].
      * intros _ [= ->]. by apply Hr.
      * intros a b Ha Hk HQ ? ?. by eapply all_acked_stable; [left|..|apply HQ].
    + change ((run_ops <$> others) !! i = Some p) in Hp.
      rewrite list_lookup_fmap in Hp. destruct (others !! i) as [os|] eqn:Ho; [|done].
      apply (inj Some) in Hp as <-. cbn beta. eapply rg_mono; [|apply triple_ops; [by eapply Forall_lookup_1|done]]. done.
Qed.

(** ** Concrete executions *)

(** An open epoch of CPUs 0 and 1; only CPU 1 has yet to acknowledge. *)
Definition quiescing : memory loc := fun l =>
  match l with
  | Gate | Epoch | PhaseCell | Requested 1 | Quiet 0 => 1
  | Members => 3
  | _ => 0
  end.

Lemma tlb_replace_needs_all_quiet_witness :
  exists g qs s',
    concurrent ((r <- start_replace 1 ;; Ret [RUnit r]) :: (run_ops <$> [[OQuiesce 1 1]])) quiescing g qs s' /\
    qs !! 0%nat = Some (Ret [RUnit (Ok tt)]) /\ all_acked Quiet 1 s'.
Proof.
  destruct (run_schedule ((r <- start_replace 1 ;; Ret [RUnit r]) :: (run_ops <$> [[OQuiesce 1 1]])) quiescing
    (replicate 7 (1%nat, 0) ++ replicate 14 (0%nat, 0))) as [[[g qs] s']|] eqn:E; [|by vm_compute in E].
  pose proof (run_schedule_sound _ _ _ _ _ _ E) as Hc.
  assert (Hq : qs !! 0%nat = Some (Ret [RUnit (Ok tt)])) by (vm_compute in E; injection E as <- <- <-; reflexivity).
  exists g, qs, s'. split_and!; [done|done|].
  apply (tlb_replace_needs_all_quiet 1 [[OQuiesce 1 1]] quiescing g qs s'); [done|by repeat constructor|done|done].
Defined.
