(* ===== verification/SecondaryMailbox.v ===== *)
(** * Secondary CPU lifecycle: src/tvisor_util/secondary_mailbox.rs

    Each secondary CPU has a mailbox with a publication token, a lifecycle
    state and an entry claim.  Every method is a program over the three
    atomics.  The theorems hold for any threads calling any methods in any
    interleaving: the lifecycle only moves along its graph, the token and the
    claim are written once, at most one entrant wins, and waiting neither
    writes nor exceeds its poll budget. *)

From S2P Require Import Prelude Atomics.

Inductive ProtocolError := InvalidGeneration | InvalidTransition | DuplicateEntry.

Inductive CpuState := Offline | Prepared | Starting | Parked | Online | CpuFailedState.

#[global] Instance CpuState_eq_dec : EqDecision CpuState.
Proof. solve_decision. Defined.

Definition cpu_state_u64 (s : CpuState) : Z :=
  match s with
  | Offline => 0 | Prepared => 1 | Starting => 2 | Parked => 3 | Online => 4 | CpuFailedState => 5
  end.

Inductive WaitError := Timeout | CpuFailed | PollLimit | InvalidDeadline | WInvalidGeneration.

(** The atomics of [SecondaryMailbox]. *)
Inductive mailbox_loc := Ready | StateCell | EntryClaimed.

#[global] Instance mailbox_loc_eq_dec : EqDecision mailbox_loc.
Proof. solve_decision. Defined.

Definition SecondaryMailbox_new : memory mailbox_loc := fun _ => 0.

(** [unreachable!()] on a value no transition writes. *)
Definition cpu_state_of {E} (v : Z) : outcome E CpuState :=
  match v with
  | 0 => Ok Offline
  | 1 => Ok Prepared
  | 2 => Ok Starting
  | 3 => Ok Parked
  | 4 => Ok Online
  | 5 => Ok CpuFailedState
  | _ => Panic
  end.

Definition lifecycle {E} : prog mailbox_loc (outcome E CpuState) :=
  v <- load StateCell ;; Ret (cpu_state_of v).

Definition mark_prepared : prog mailbox_loc (outcome ProtocolError unit) :=
  cas_or StateCell (cpu_state_u64 Offline) (cpu_state_u64 Prepared) InvalidTransition.

Definition publish (generation : Z) : prog mailbox_loc (outcome ProtocolError unit) :=
  if generation =? 0 then Ret (Err InvalidGeneration)
  else
    st <-? lifecycle ;;
    if decide (st <> Prepared) then Ret (Err InvalidTransition)
    else cas_or Ready 0 generation InvalidTransition.

Definition observe_ready (generation : Z) : prog mailbox_loc bool :=
  if generation =? 0 then Ret false else r <- load Ready ;; Ret (r =? generation).

Definition check (generation : Z) : prog mailbox_loc (outcome ProtocolError unit) :=
  b <- observe_ready generation ;; Ret (if (b : bool) then Ok tt else Err InvalidGeneration).

Definition state (generation : Z) : prog mailbox_loc (outcome ProtocolError CpuState) :=
  _ <-? check generation ;; lifecycle.

Definition transition (generation : Z) (from to : CpuState) :
  prog mailbox_loc (outcome ProtocolError unit) :=
  _ <-? check generation ;;
  cas_or StateCell (cpu_state_u64 from) (cpu_state_u64 to) InvalidTransition.

Definition begin_start (generation : Z) := transition generation Prepared Starting.
Definition management_online (generation : Z) := transition generation Parked Online.
Definition management_park (generation : Z) := transition generation Online Parked.

Definition management_failed (generation : Z) : prog mailbox_loc (outcome ProtocolError unit) :=
  st <-? state generation ;;
  match st with
  | Parked => transition generation Parked CpuFailedState
  | Online => transition generation Online CpuFailedState
  | _ => Ret (Err InvalidTransition)
  end.

(** [EntryClaim] carries the generation it was granted for. *)
Record EntryClaim := mkClaim { claim_generation : Z }.

Definition claim_entry (generation : Z) : prog mailbox_loc (outcome ProtocolError EntryClaim) :=
  st <-? state generation ;;
  if decide (st <> Starting) then Ret (Err InvalidTransition)
  else
    _ <-? cas_or EntryClaimed 0 1 DuplicateEntry ;;
    Ret (Ok (mkClaim generation)).

Definition EntryClaim_park (c : EntryClaim) := transition (claim_generation c) Starting Parked.
Definition EntryClaim_fail (c : EntryClaim) := transition (claim_generation c) Starting CpuFailedState.

Definition entry_is_claimed (generation : Z) : prog mailbox_loc (outcome ProtocolError bool) :=
  _ <-? check generation ;; v <- load EntryClaimed ;; Ret (Ok (v =? 1)).

Definition has_parked (generation : Z) : prog mailbox_loc (outcome ProtocolError bool) :=
  st <- state generation ;;
  Ret (match st with Ok Parked => Ok true | Panic => Panic | _ => Ok false end).

(** The poll loop of [wait_until_parked], [n] polls left; [counter] is the
    caller's closure. *)
Fixpoint poll {M} (counter : prog M Z) (lifecycle : prog M (outcome WaitError CpuState))
  (start ticks : Z) (n : nat) : prog M (outcome WaitError unit) :=
  match n with
  | O => Ret (Err PollLimit)
  | S n' =>
      c <- counter ;;
      if ticks <=? wrapping_sub c start then Ret (Err Timeout)
      else
        st <-? lifecycle ;;
        match st with
        | CpuFailedState => Ret (Err CpuFailed)
        | Parked =>
            c' <- counter ;;
            Ret (if ticks <=? wrapping_sub c' start then Err Timeout else Ok tt)
        | _ => poll counter lifecycle start ticks n'
        end
  end.

(** [wait_until_parked] with the two reads of the mailbox it makes. *)
Definition wait_with {M} (check : prog M (outcome ProtocolError unit)) (counter : prog M Z)
  (lifecycle : prog M (outcome WaitError CpuState)) (start ticks : Z) (max_polls : nat) :
  prog M (outcome WaitError unit) :=
  r <- check ;;
  match r with
  | Ok _ =>
      if (ticks =? 0) || (2 ^ 63 <=? ticks) then Ret (Err InvalidDeadline)
      else poll counter lifecycle start ticks max_polls
  | Err _ => Ret (Err WInvalidGeneration)
  | Panic => Ret Panic
  end.

(** Here the closure just supplies a value. *)
Definition wait_until_parked (generation start ticks : Z) (max_polls : nat) :
  prog mailbox_loc (outcome WaitError unit) :=
  wait_with (check generation) input lifecycle start ticks max_polls.

(** ** Callers

    An [EntryClaim] is obtained from [claim_entry] only and consumed by [park]
    or [fail], or dropped; [enter] is an entrant that does one of these. *)
Inductive entry_end := EndPark | EndFail | EndDrop.

Definition enter (generation : Z) (e : entry_end) :
  prog mailbox_loc (outcome ProtocolError EntryClaim * outcome ProtocolError unit) :=
  r <- claim_entry generation ;;
  match r with
  | Ok c =>
      x <- match e with
           | EndPark => EntryClaim_park c
           | EndFail => EntryClaim_fail c
           | EndDrop => Ret (Ok tt)
           end ;;
      Ret (r, x)
  | _ => Ret (r, Ok tt)
  end.

Inductive mop :=
| MMarkPrepared
| MPublish (g : Z)
| MBeginStart (g : Z)
| MEnter (g : Z) (e : entry_end)
| MOnline (g : Z)
| MPark (g : Z)
| MMgmtFailed (g : Z)
| MIsClaimed (g : Z)
| MHasParked (g : Z)
| MWait (g start ticks : Z) (polls : nat).

Inductive mreply :=
| MUnit (r : outcome ProtocolError unit)
| MBool (r : outcome ProtocolError bool)
| MEntered (r : outcome ProtocolError EntryClaim) (e : outcome ProtocolError unit)
| MWaited (r : outcome WaitError unit).

Definition run_mop (o : mop) : prog mailbox_loc mreply :=
  match o with
  | MMarkPrepared => r <- mark_prepared ;; Ret (MUnit r)
  | MPublish g => r <- publish g ;; Ret (MUnit r)
  | MBeginStart g => r <- begin_start g ;; Ret (MUnit r)
  | MEnter g e => r <- enter g e ;; Ret (MEntered (fst r) (snd r))
  | MOnline g => r <- management_online g ;; Ret (MUnit r)
  | MPark g => r <- management_park g ;; Ret (MUnit r)
  | MMgmtFailed g => r <- management_failed g ;; Ret (MUnit r)
  | MIsClaimed g => r <- entry_is_claimed g ;; Ret (MBool r)
  | MHasParked g => r <- has_parked g ;; Ret (MBool r)
  | MWait g start ticks polls => r <- wait_until_parked g start ticks polls ;; Ret (MWaited r)
  end.

Definition run_mops : list mop -> prog mailbox_loc (list mreply) := run_all run_mop.

(** ** The lifecycle *)

Inductive cpu_edge : CpuState -> CpuState -> Prop :=
| edge_prepare : cpu_edge Offline Prepared
| edge_start : cpu_edge Prepared Starting
| edge_entry_park : cpu_edge Starting Parked
| edge_entry_fail : cpu_edge Starting CpuFailedState
| edge_online : cpu_edge Parked Online
| edge_park : cpu_edge Online Parked
| edge_fail_parked : cpu_edge Parked CpuFailedState
| edge_fail_online : cpu_edge Online CpuFailedState.

(** How far the lifecycle has come: these never decrease along an edge. *)
Definition started (st : CpuState) : bool :=
  match st with Offline | Prepared => false | _ => true end.
Definition entered (st : CpuState) : bool :=
  match st with Offline | Prepared | Starting => false | _ => true end.

Definition at_state (s : memory mailbox_loc) (st : CpuState) : Prop := s StateCell = cpu_state_u64 st.

(** The lifecycle never runs ahead of the publication and of the claim, nor
    behind them. *)
Record mailbox_inv (s : memory mailbox_loc) (st : CpuState) : Prop := {
  mi_state : at_state s st;
  mi_published : s Ready <> 0 -> st <> Offline;
  mi_started : started st = true -> s Ready <> 0;
  mi_claimed : s EntryClaimed <> 0 -> started st = true;
  mi_entered : entered st = true -> s EntryClaimed = 1;
  mi_claim_bool : s EntryClaimed = 0 \/ s EntryClaimed = 1
}.

(** What a step of any caller may do: follow edges of the graph; the token and
    the claim are written once. *)
Record mailbox_step (s s' : memory mailbox_loc) : Prop := {
  ms_path st : at_state s st -> exists st', at_state s' st' /\ rtc cpu_edge st st';
  ms_ready : s Ready <> 0 -> s' Ready = s Ready;
  ms_claimed : s EntryClaimed = 1 -> s' EntryClaimed = 1
}.

Lemma at_state_inj s st st' : at_state s st -> at_state s st' -> st = st'.
Proof. unfold at_state. destruct st, st'; simpl; congruence. Qed.

Lemma mailbox_step_refl s : mailbox_step s s.
Proof. split; eauto using rtc_refl. Qed.

Lemma mailbox_step_trans a b c : mailbox_step a b -> mailbox_step b c -> mailbox_step a c.
Proof.
  intros [P1 R1 C1] [P2 R2 C2]. split.
  - intros st Hst. destruct (P1 st Hst) as (st1 & H1 & E1). destruct (P2 st1 H1) as (st2 & H2 & E2).
    exists st2. split; [done|by etrans].
  - intros Hr. rewrite R2, R1; [done..|by rewrite R1].
  - auto.
Qed.

#[local] Instance mailbox_protocol : Protocol mailbox_loc := {
  pinv s := exists st, mailbox_inv s st;
  pstep := mailbox_step;
  pstep_refl := mailbox_step_refl;
  pstep_trans := mailbox_step_trans
}.

(** ** Facts the callers rely on *)

Definition published (g : Z) (s : memory mailbox_loc) : Prop := g <> 0 /\ s Ready = g.
Definition reached (st : CpuState) (s : memory mailbox_loc) : Prop :=
  exists st', at_state s st' /\ rtc cpu_edge st st'.
Definition claimed (s : memory mailbox_loc) : Prop := s EntryClaimed = 1.

Lemma published_stable g : pstable (published g).
Proof. intros s s' _ _ Hs [Hg Hr]. split; [done|]. rewrite (ms_ready _ _ Hs); congruence. Qed.

Lemma reached_stable st : pstable (reached st).
Proof.
  intros s s' _ _ Hs (st1 & H1 & E1). destruct (ms_path _ _ Hs st1 H1) as (st2 & H2 & E2).
  exists st2. split; [done|by etrans].
Qed.

Lemma claimed_stable : pstable claimed.
Proof. intros s s' _ _ Hs Hc. by apply (ms_claimed _ _ Hs). Qed.

Lemma started_step st st' : rtc cpu_edge st st' -> started st = true -> started st' = true.
Proof. induction 1 as [|a b c E _ IH]; [done|]. intros Ha. apply IH. by destruct E. Qed.

(** ** Triples of the methods *)

Definition no_panic {E A} (r : outcome E A) (_ : memory mailbox_loc) : Prop := r <> Panic.

Lemma no_panic_ret {E A} (r : outcome E A) s : pinv s -> r <> Panic -> triple (Ret r) no_panic s.
Proof. intros Hi Hr. by apply triple_ret_pure. Qed.

Lemma triple_mcheck g s :
  pinv s -> triple (check g) (fun r s' => r <> Panic /\ (r = Ok tt -> published g s')) s.
Proof.
  intros Hi. unfold check, observe_ready. destruct (Z.eqb_spec g 0) as [Hg|Hg]; cbn [pbind].
  { by apply triple_ret_pure. }
  apply triple_load; [done|]. intros s1 H1 _. apply triple_ret; [done|..].
  - destruct (Z.eqb_spec (s1 Ready) g); by split.
  - intros a b Ha Hb Hs [Hp Hq]. split; [done|]. intros Hr. by apply (published_stable g a b), Hq.
Qed.

Lemma triple_lifecycle {E} s :
  pinv s -> triple (L := mailbox_loc) (lifecycle (E := E)) (fun r s' => exists st, r = Ok st /\ reached st s') s.
Proof.
  intros Hi. unfold lifecycle. cbn [pbind load]. apply triple_load; [done|]. intros s1 [st H1] _.
  rewrite (mi_state _ _ H1). apply triple_ret; [by exists st|..].
  - exists st. split; [by destruct st|]. exists st. split; [apply H1|done].
  - intros a b Ha Hb Hs (st' & Hr & Hst). exists st'. split; [done|]. by apply (reached_stable st' a b).
Qed.

(** A transition along an edge, by a caller who knows the entry is claimed
    where the edge enters. *)
Lemma triple_transition g a b s :
  pinv s -> cpu_edge a b -> a <> Offline -> (entered b = true -> entered a = true \/ claimed s) ->
  triple (transition g a b) (fun r s' => r <> Panic /\ (r = Ok tt -> reached b s')) s.
Proof.
  intros Hi He Ha Hc. eapply triple_bind_res; [done|by apply triple_mcheck|..].
  - intros [] s1 H1 K1 [_ Hp]. specialize (Hp eq_refl).
    unfold cas_or, compare_exchange. cbn [pbind]. apply triple_cas; [done|..].
    + intros s2 [st H2] K2 Hst. assert (st = a) as -> by (by eapply at_state_inj; [apply H2|]).
      assert (Hc2 : entered b = true -> s2 EntryClaimed = 1).
      { intros Hb. destruct (Hc Hb) as [Hea|Hcl]; [by apply (mi_entered _ _ H2)|].
        by apply (ms_claimed _ _ K2), (ms_claimed _ _ K1). }
      assert (Hp2 : s2 Ready <> 0) by (rewrite (ms_ready _ _ K2); destruct Hp; congruence).
      assert (Hinv : mailbox_inv (upd s2 StateCell (cpu_state_u64 b)) b).
      { destruct H2 as [E1 E2 E3 E4 E5 E6]. split; unfold at_state; rewrite ?upd_eq, ?upd_ne by done; auto.
        - intros _. by destruct He.
        - destruct He; try done; auto. }
      split_and!; [by exists b| |].
      * split; rewrite ?upd_ne by done; auto. intros st' Hst'. exists b. split; [apply Hinv|].
        assert (st' = a) as -> by (by eapply at_state_inj). by apply rtc_once.
      * apply triple_ret; [by exists b|split; [done|]; intros _; exists b; split; [apply Hinv|done]|].
        intros x y Hx Hy Hs [_ HQ]. split; [done|]. intros Hr. by apply (reached_stable b x y), HQ.
    + intros s2 H2 K2 _. by apply triple_ret_pure.
  - intros e s1 H1 _ _. by apply triple_ret_pure.
  - by intros s1 H1 _ [? _].
Qed.

Lemma triple_state g s :
  pinv s ->
  triple (state g)
    (fun r s' => r <> Panic /\ forall st, r = Ok st -> published g s' /\ reached st s') s.
Proof.
  intros Hi. eapply triple_bind_res; [done|by apply triple_mcheck|..].
  - intros [] s1 H1 _ [_ Hp]. specialize (Hp eq_refl).
    eapply triple_bind_ret; [done|by apply triple_lifecycle|].
    intros r s2 H2 K2 (st & -> & Hst). apply (published_stable g s1 s2) in Hp; [|done..].
    split; [split; [done|by intros ? [= <-]]|].
    intros a b Ha Hb Hs [_ HQ]. split; [done|]. intros st' E. destruct (HQ st' E).
    split; [by apply (published_stable g a b)|by apply (reached_stable st' a b)].
  - intros e s1 H1 _ _. by apply triple_ret_pure.
  - by intros s1 H1 _ [? _].
Qed.

Lemma triple_mark_prepared s : pinv s -> triple mark_prepared no_panic s.
Proof.
  intros Hi. unfold mark_prepared, cas_or, compare_exchange. cbn [pbind]. apply triple_cas; [done|..].
  - intros s1 [st H1] _ Hst. assert (st = Offline) as -> by (by eapply at_state_inj; [apply H1|]).
    assert (Hinv : mailbox_inv (upd s1 StateCell (cpu_state_u64 Prepared)) Prepared).
    { destruct H1 as [E1 E2 E3 E4 E5 E6]. split; unfold at_state; rewrite ?upd_eq, ?upd_ne by done; auto. }
    split_and!; [by exists Prepared| |apply no_panic_ret; [by exists Prepared|done]].
    split; rewrite ?upd_ne by done; auto. intros st' Hst'. exists Prepared. split; [apply Hinv|].
    assert (st' = Offline) as -> by (by eapply at_state_inj). apply rtc_once. constructor.
  - intros s1 H1 _ _. by apply no_panic_ret.
Qed.

Lemma triple_publish g s : pinv s -> triple (publish g) no_panic s.
Proof.
  intros Hi. unfold publish. destruct (Z.eqb_spec g 0) as [|Hg]; [by apply no_panic_ret|].
  eapply triple_bind_res; [done|by apply triple_lifecycle|..].
  - intros st s1 H1 K1 (st' & [= <-] & Hr). case_decide as Hd; [by apply no_panic_ret|].
    subst st. unfold cas_or, compare_exchange. cbn [pbind]. apply triple_cas; [done|..].
    + intros s2 [st H2] K2 H0.
      assert (Hst : st <> Offline).
      { destruct (reached_stable Prepared s1 s2) as (st' & Hst' & E); [done|by exists st|done|done|].
        rewrite (at_state_inj s2 st st'); [|apply H2|done].
        intros ->. inversion E as [|? ? ? E1 E2]; subst. inversion E1; subst.
        by apply started_step in E2. }
      assert (Hinv : mailbox_inv (upd s2 Ready g) st).
      { destruct H2 as [E1 E2 E3 E4 E5 E6]. split; unfold at_state; rewrite ?upd_eq, ?upd_ne by done; auto. }
      split_and!; [by exists st| |apply no_panic_ret; [by exists st|done]].
      split; rewrite ?upd_ne by done; try done. intros st' Hst'. exists st'. split; [|done].
      unfold at_state. by rewrite upd_ne.
    + intros s2 H2 _ _. by apply no_panic_ret.
  - intros e s1 H1 _ _. by apply no_panic_ret.
  - by intros s1 H1 _ (? & ? & _).
Qed.

Lemma triple_claim_entry g s :
  pinv s -> triple (claim_entry g) (fun r s' => r <> Panic /\ ((exists c, r = Ok c) -> claimed s')) s.
Proof.
  intros Hi. assert (Herr : forall e s', pinv s' ->
    triple (Ret (Err e : outcome ProtocolError EntryClaim))
      (fun r s' => r <> Panic /\ ((exists c, r = Ok c) -> claimed s')) s').
  { intros e s' Hs'. apply triple_ret_pure; [done|]. intros ?. split; [done|]. by intros [? ?]. }
  eapply triple_bind_res; [done|by apply triple_state|..].
  - intros st s1 H1 _ [_ Hst]. destruct (Hst st eq_refl) as [Hp Hr]. case_decide as Hd; [auto|].
    subst st. unfold pbind_res, cas_or, compare_exchange. cbn [pbind]. apply triple_cas; [done|..].
    + intros s2 [st H2] K2 H0.
      assert (Hst2 : started st = true).
      { destruct (reached_stable Starting s1 s2) as (st' & Hst' & E); [done|by exists st|done|done|].
        rewrite (at_state_inj s2 st st'); [|apply H2|done]. by eapply started_step. }
      assert (Hinv : mailbox_inv (upd s2 EntryClaimed 1) st).
      { destruct H2 as [E1 E2 E3 E4 E5 E6]. split; unfold at_state; rewrite ?upd_eq, ?upd_ne by done; auto. }
      split_and!; [by exists st| |].
      * split; rewrite ?upd_eq, ?upd_ne by done; try done. intros st' Hst'. exists st'. split; [|done].
        unfold at_state. by rewrite upd_ne.
      * apply triple_ret; [by exists st|split; [done|]; intros _; apply upd_eq|].
        intros a b Ha Hb Hs [_ HQ]. split; [done|]. intros Hc. by apply (claimed_stable a b), HQ.
    + intros s2 H2 _ _. auto.
  - intros e s1 H1 _ _. auto.
  - by intros s1 H1 _ [? _].
Qed.

Lemma triple_enter g e s :
  pinv s ->
  triple (enter g e)
    (fun r s' => (fst r <> Panic /\ snd r <> Panic) /\ ((exists c, fst r = Ok c) -> claimed s')) s.
Proof.
  intros Hi. eapply triple_bind; [done|by apply triple_claim_entry|].
  intros r s1 H1 _ [Hr Hc]. destruct r as [c|e'|]; [|apply triple_ret_pure; [done|]; naive_solver|done].
  specialize (Hc ltac:(eauto)).
  eapply (triple_bind _ _ (fun x s' => x <> Panic /\ claimed s')); [done| |].
  - assert (Htr : forall b, cpu_edge Starting b ->
      triple (transition (claim_generation c) Starting b) (fun x s' => x <> Panic /\ claimed s') s1).
    { intros b Hb. eapply triple_bind_ret; [done|by apply triple_transition; auto|].
      intros a s2 H2 K2 [Ha _]. split; [split; [done|by apply (claimed_stable s1 s2)]|].
      intros x y Hx Hy Hs [_ Hcl]. split; [done|by apply (claimed_stable x y)]. }
    destruct e; [apply Htr; constructor..|]. apply triple_ret; [done|done|].
    intros x y Hx Hy Hs [_ Hcl]. split; [done|by apply (claimed_stable x y)].
  - intros x s2 H2 _ [Hx Hcl]. apply triple_ret; [done|done|].
    intros a b Ha Hb Hs [HP HQ]. split; [done|]. intros E. by apply (claimed_stable a b), HQ.
Qed.

Lemma triple_poll start ticks n s :
  pinv s -> triple (poll input lifecycle start ticks n) (fun r s' => r <> Panic /\ (r = Ok tt -> reached Parked s')) s.
Proof.
  revert s. induction n as [|n IH]; intros s Hi; cbn [poll]; [by apply triple_ret_pure|].
  unfold input. cbn [pbind]. apply triple_input; [done|]. intros c s1 H1 _.
  destruct (ticks <=? _); [by apply triple_ret_pure|].
  eapply triple_bind_res; [done|by apply triple_lifecycle|..].
  - intros st s2 H2 _ (? & [= <-] & Hr).
    destruct st; [by apply IH..| |by apply IH|by apply triple_ret_pure].
    apply triple_input; [done|]. intros c' s3 H3 K3. destruct (ticks <=? _); [by apply triple_ret_pure|].
    apply triple_ret; [done|split; [done|]; intros _; by apply (reached_stable Parked s2 s3)|].
    intros a b Ha Hb Hs [_ HQ]. split; [done|]. intros Hrr. by apply (reached_stable Parked a b), HQ.
  - by intros e s2 H2 _ (? & ? & _).
  - by intros s2 H2 _ (? & ? & _).
Qed.

Lemma triple_wait g start ticks n s :
  pinv s ->
  triple (wait_until_parked g start ticks n) (fun r s' => r <> Panic /\ (r = Ok tt -> reached Parked s')) s.
Proof.
  intros Hi. eapply triple_bind; [done|by apply triple_mcheck|].
  intros [[]|e|] s1 H1 _ [Hp _]; [|by apply triple_ret_pure|done].
  destruct (_ || _); [by apply triple_ret_pure|by apply triple_poll].
Qed.

(** What a reply promises of the store it is received in. *)
Definition sound_reply (r : mreply) (s : memory mailbox_loc) : Prop :=
  match r with
  | MUnit x => x <> Panic
  | MBool x => x <> Panic
  | MEntered x y => (x <> Panic /\ y <> Panic) /\ ((exists c, x = Ok c) -> claimed s)
  | MWaited x => x <> Panic /\ (x = Ok tt -> reached Parked s)
  end.

Lemma sound_reply_stable r : pstable (sound_reply r).
Proof.
  intros s s' Hi Hi' Hs. destruct r; simpl; try done; intros [Hp HQ]; split; try done; intros E.
  - by apply (claimed_stable s s'), HQ.
  - by apply (reached_stable Parked s s'), HQ.
Qed.

Lemma triple_mreply {A} (p : prog mailbox_loc A) P (f : A -> mreply) s :
  pinv s -> triple p P s -> (forall a s', P a s' -> sound_reply (f a) s') ->
  triple (r <- p ;; Ret (f r)) sound_reply s.
Proof.
  intros Hi Hp Hf. eapply triple_bind; [done..|]. intros a s' Hs' _ HP.
  apply triple_ret; [done|by apply Hf|apply sound_reply_stable].
Qed.

Lemma triple_management_failed g s : pinv s -> triple (management_failed g) no_panic s.
Proof.
  intros Hi. eapply triple_bind_res; [done|by apply triple_state|..].
  - intros st s1 H1 _ _. destruct st; try (by apply no_panic_ret);
      (eapply triple_mono; [|apply triple_transition; [done|constructor|done|by left]]); naive_solver.
  - intros e s1 H1 _ _. by apply no_panic_ret.
  - by intros s1 H1 _ [? _].
Qed.

Lemma triple_entry_is_claimed g s : pinv s -> triple (entry_is_claimed g) no_panic s.
Proof.
  intros Hi. eapply triple_bind_res; [done|by apply triple_mcheck|..].
  - intros [] s1 H1 _ _. apply triple_load; [done|]. intros s2 H2 _. by apply no_panic_ret.
  - intros e s1 H1 _ _. by apply no_panic_ret.
  - by intros s1 H1 _ [? _].
Qed.

Lemma triple_has_parked g s : pinv s -> triple (has_parked g) no_panic s.
Proof.
  intros Hi. eapply triple_bind; [done|by apply triple_state|].
  intros r s1 H1 _ [Hr _]. apply no_panic_ret; [done|]. by destruct r as [[]| |].
Qed.

Lemma triple_mop o s : pinv s -> triple (run_mop o) sound_reply s.
Proof.
  intros Hi. destruct o; cbn [run_mop];
    first [ eapply triple_mreply; [done|by apply triple_mark_prepared|by intros]
          | eapply triple_mreply; [done|by apply triple_publish|by intros]
          | eapply triple_mreply; [done|by apply triple_enter|by intros]
          | eapply triple_mreply; [done|by apply triple_management_failed|by intros]
          | eapply triple_mreply; [done|by apply triple_entry_is_claimed|by intros]
          | eapply triple_mreply; [done|by apply triple_has_parked|by intros]
          | eapply triple_mreply; [done|by apply triple_wait|by intros]
          | eapply triple_mreply; [done|apply triple_transition; [done|constructor|done|by auto]|by intros ? ? []] ].
Qed.

Lemma triple_mops os s : pinv s -> triple (run_mops os) (fun rs s' => Forall (fun r => sound_reply r s') rs) s.
Proof. apply triple_run_all; [apply sound_reply_stable|]. intros o s' _. apply triple_mop. Qed.

Lemma mailbox_inv_new : mailbox_inv SecondaryMailbox_new Offline.
Proof. split; try done. by left. Qed.

(** C34 [mailbox_lifecycle]: any number of threads make any sequences of calls on
    one mailbox, their accesses interleaved arbitrarily. The lifecycle only
    follows its edges; a published token is never replaced and a claim never
    withdrawn; the CPU is past [Prepared] only once a token is published and
    past [Starting] only once an entrant has claimed it; and no call meets an
    impossible state, an entrant told it won holds the claim, and a wait that
    succeeded saw a CPU that had parked. *)
Theorem mailbox_lifecycle (threads : list (list mop)) s st g qs s' :
  mailbox_inv s st -> concurrent (run_mops <$> threads) s g qs s' ->
  exists st', mailbox_inv s' st' /\ rtc cpu_edge st st' /\
    (s Ready <> 0 -> s' Ready = s Ready) /\ (claimed s -> claimed s') /\
    forall i rs, qs !! i = Some (Ret rs) -> Forall (fun r => sound_reply r s') rs.
Proof.
  intros Hinv Hc.
  destruct (triple_parallel (fun _ rs s' => Forall (fun r => sound_reply r s') rs)
    (run_mops <$> threads) s g qs s') as ((st' & Hinv') & Hs & HQ); [by exists st| |done|].
  { intros i p Hp. rewrite list_lookup_fmap in Hp. destruct (threads !! i) as [os|]; [|done].
    apply (inj Some) in Hp as <-. apply triple_mops. by exists st. }
  destruct Hs as [P R C]. destruct (P st (mi_state _ _ Hinv)) as (st1 & H1 & E).
  rewrite (at_state_inj s' st1 st') in E; [|done|apply Hinv'].
  by exists st'.
Qed.

(** ** One winner *)

Definition is_claim (e : event mailbox_loc) : bool :=
  match e with ECasOk EntryClaimed _ _ => true | _ => false end.

(** The claim is only ever taken, from free. *)
Definition claims_only (e : event mailbox_loc) : Prop :=
  match e with
  | ECasOk EntryClaimed o n => o = 0 /\ n = 1
  | EStore EntryClaimed _ | ESwap EntryClaimed _ _ => False
  | _ => True
  end.

Lemma emits_poll start ticks n : emits claims_only (poll input lifecycle start ticks n).
Proof. induction n; cbn [poll]; emits_go; done. Qed.
#[local] Hint Resolve emits_poll : emits.

Lemma emits_mop o : emits claims_only (run_mop o).
Proof.
  destruct o; cbn [run_mop];
    unfold mark_prepared, publish, begin_start, enter, management_online, management_park, management_failed,
      entry_is_claimed, has_parked, wait_until_parked, wait_with, claim_entry, EntryClaim_park, EntryClaim_fail,
      transition, state, check, observe_ready, lifecycle; emits_go; done.
Qed.

Definition claims_left (s : memory mailbox_loc) : nat := if decide (s EntryClaimed = 0) then 1 else 0.

Lemma claims_left_step s e s' :
  claims_only e -> apply_event s e = Some s' ->
  ((if is_claim e then 1 else 0) + claims_left s' <= claims_left s)%nat.
Proof.
  unfold claims_left. intros He E.
  destruct e as [l v|l v|l o n|l o n|l o v|v]; simpl in E; repeat case_match; simplify_eq; simpl in *; bool_prop;
    try done; unfold upd in *; repeat case_decide; destruct_and?; simplify_eq; try done; try lia; by destruct l.
Qed.

(** The entries a list of replies reports as won. *)
Definition won (r : mreply) : bool := match r with MEntered (Ok _) _ => true | _ => false end.
Definition wins (rs : list mreply) : nat := length (List.filter won rs).

Lemma claim_entry_win g tr c :
  steps (claim_entry g) tr (Ret (Ok c)) -> (1 <= count_events is_claim tr)%nat.
Proof.
  unfold claim_entry, pbind_res at 1. intros (t1 & t2 & r & -> & _ & H2)%steps_bind_inv.
  rewrite count_events_app. destruct r as [st| |]; [|by inversion H2..].
  case_decide; [by inversion H2|]. unfold pbind_res, cas_or, compare_exchange in H2. cbn [pbind] in H2.
  inversion H2 as [| | | |? ? ? ? tr' ? Hs|? ? ? ? ? ? ? ? Hs|]; subst; [|by inversion Hs].
  rewrite count_events_cons. simpl. lia.
Qed.

Lemma mop_win o tr r :
  steps (run_mop o) tr (Ret r) -> won r = true -> (1 <= count_events is_claim tr)%nat.
Proof.
  intros Hs Hw. destruct o; cbn [run_mop] in Hs; apply steps_bind_inv in Hs as (t1 & t2 & x & -> & H1 & H2);
    inversion H2; subst; try discriminate Hw.
  unfold enter in H1. apply steps_bind_inv in H1 as (t3 & t4 & y & -> & H3 & H4).
  rewrite !count_events_app. destruct y as [c| |].
  - apply claim_entry_win in H3. lia.
  - inversion H4; subst. discriminate Hw.
  - inversion H4; subst. discriminate Hw.
Qed.

Lemma mops_wins os tr rs : steps (run_mops os) tr (Ret rs) -> (wins rs <= count_events is_claim tr)%nat.
Proof.
  revert tr rs. induction os as [|o os IH]; intros tr rs Hs; cbn [run_mops run_all] in Hs.
  { inversion Hs; subst. unfold wins. simpl. lia. }
  apply steps_bind_inv in Hs as (t1 & t2 & r & -> & H1 & H2).
  apply steps_bind_inv in H2 as (t3 & t4 & rs' & -> & H3 & H4). inversion H4; subst.
  apply IH in H3. rewrite !count_events_app. unfold wins in *. simpl.
  destruct (won r) eqn:Hw; simpl; [|lia]. apply mop_win in H1; [lia|done].
Qed.

(** What thread [i] has won, once it has finished. *)
Definition thread_wins (qs : list (prog mailbox_loc (list mreply))) (i : nat) : nat :=
  match qs !! i with Some (Ret rs) => wins rs | _ => 0 end.

(** [mailbox_single_entrant]: however many threads try to claim the entry, and
    however often, over any interleaving with all other calls, at most one
    [claim_entry] in the whole execution succeeds. *)
Lemma mailbox_single_entrant (threads : list (list mop)) s g qs s' :
  concurrent (run_mops <$> threads) s g qs s' ->
  (sum_threads (length threads) (thread_wins qs) <= 1)%nat.
Proof.
  intros Hc. assert (Hf : Forall claims_only (snd <$> g)).
  { eapply concurrent_emits; [|exact Hc]. apply Forall_fmap, Forall_true. intros os. apply emits_run_all, emits_mop. }
  destruct Hc as [Hrep Hth Hst Hlen]. rewrite length_fmap in Hlen.
  assert (Hth' : Forall (fun '(i, _) => (i < length threads)%nat) g).
  { eapply Forall_impl; [exact Hth|]. intros [i e]. by rewrite length_fmap. }
  apply (count_threads is_claim) in Hth'. apply (replay_count_le claims_only is_claim claims_left) in Hrep; [|apply claims_left_step|done].
  assert (count_events is_claim (snd <$> g) <= 1)%nat as Hle by (unfold claims_left in Hrep; case_decide; lia). clear Hrep.
  rewrite Hth' in Hle. etrans; [|exact Hle]. apply sum_threads_le.
  intros i Hi. unfold thread_wins. destruct (qs !! i) as [[rs| | | | |]|] eqn:Hq; try lia.
  destruct (threads !! i) as [os|] eqn:Ho; [|apply lookup_ge_None_1 in Ho; lia].
  eapply mops_wins, Hst; [|done]. by rewrite list_lookup_fmap, Ho.
Qed.

(** ** Waiting *)

(** Accesses that change nothing. *)
Definition reads (e : event mailbox_loc) : Prop :=
  match e with ELoad _ _ | EInput _ => True | _ => False end.

Lemma poll_reads start ticks n : emits reads (poll input lifecycle start ticks n).
Proof. induction n; cbn [poll]; emits_go; done. Qed.

(** The last accesses of a wait that succeeded: the state read as parked, then
    a counter value still before the deadline. *)
Definition saw_parked (start ticks : Z) (tr : list (event mailbox_loc)) : Prop :=
  exists pre c, tr = pre ++ [ELoad StateCell (cpu_state_u64 Parked); EInput c] /\
    wrapping_sub c start < ticks.

Lemma saw_parked_app start ticks t1 t2 : saw_parked start ticks t2 -> saw_parked start ticks (t1 ++ t2).
Proof. intros (pre & c & -> & Hc). exists (t1 ++ pre), c. by rewrite <- app_assoc. Qed.

Lemma cpu_state_of_Ok {E} v st : cpu_state_of (E := E) v = Ok st -> v = cpu_state_u64 st.
Proof. unfold cpu_state_of. repeat case_match; intros; by simplify_eq. Qed.

Lemma poll_steps start ticks n tr q :
  steps (poll input lifecycle start ticks n) tr q ->
  (length tr <= 2 * n + 1)%nat /\ (q = Ret (Ok tt) -> saw_parked start ticks tr).
Proof.
  revert tr. induction n as [|n IH]; intros tr Hs; cbn [poll] in Hs.
  { inversion Hs; subst. simpl. split; [lia|done]. }
  unfold input in Hs. cbn [pbind] in Hs. inversion Hs as [| | | | | |? c t1 ? H1]; subst; [simpl; split; [lia|done]|].
  clear Hs. destruct (ticks <=? wrapping_sub c start) eqn:Hlate; [inversion H1; subst; simpl; split; [lia|done]|].
  unfold lifecycle, load, pbind_res in H1. cbn [pbind] in H1.
  inversion H1 as [|? ? v t2 ? H2| | | | |]; subst; [simpl; split; [lia|done]|]. clear H1.
  destruct (cpu_state_of v) as [st| |] eqn:Hst; [|inversion H2; subst; simpl; split; [lia|done]..].
  apply cpu_state_of_Ok in Hst as ->.
  destruct st; try (apply IH in H2 as [Hl Ho]; simpl; split; [lia|];
    intros Hq; apply (saw_parked_app _ _ [_; _]); auto).
  - cbn [pbind] in H2. inversion H2 as [| | | | | |? c' t3 ? H3]; subst; [simpl; split; [lia|done]|].
    inversion H3; subst; simpl. split; [lia|]. intros [= Hq].
    destruct (ticks <=? wrapping_sub c' start) eqn:Hd; [done|]. bool_prop.
    exists [EInput c], c'. by split.
  - inversion H2; subst; simpl. split; [lia|done].
Qed.

(** C36 [wait_until_parked_spec]: whatever the other CPUs do meanwhile, a wait writes
    nothing and makes at most two accesses per poll plus two. When it returns
    [Ok], its generation was published, and it read the CPU as parked and then
    a counter value strictly before the deadline. *)
Theorem wait_until_parked_spec g start ticks n tr q :
  steps (wait_until_parked g start ticks n) tr q ->
  Forall reads tr /\ (length tr <= 2 * n + 2)%nat /\
  (q = Ret (Ok tt) ->
     g <> 0 /\ (ticks <> 0 /\ ticks < 2 ^ 63) /\ head tr = Some (ELoad Ready g) /\ saw_parked start ticks tr).
Proof.
  intros Hs. split.
  { eapply emits_steps; [|exact Hs]. pose proof poll_reads.
    unfold wait_until_parked, wait_with, check, observe_ready. emits_go; done. }
  unfold wait_until_parked, wait_with, check, observe_ready in Hs.
  destruct (Z.eqb_spec g 0) as [Hg|Hg]; cbn [pbind] in Hs; [inversion Hs; subst; simpl; split; [lia|done]|].
  unfold load in Hs. cbn [pbind] in Hs. inversion Hs as [|? ? v t1 ? H1| | | | |]; subst; [simpl; split; [lia|done]|].
  destruct (Z.eqb_spec v g) as [->|]; [|inversion H1; subst; simpl; split; [lia|done]].
  destruct (_ || _) eqn:Hd; [inversion H1; subst; simpl; split; [lia|done]|].
  apply poll_steps in H1 as [Hl Ho]. simpl. split; [lia|]. intros Hq. bool_prop.
  split_and!; [done|lia..|done|]. apply (saw_parked_app _ _ [_]); auto.
Qed.

(** ** Concrete executions *)

(** A CPU is prepared, published, started and claimed by one of two entrants. *)
Definition two_entrants : list (list mop) :=
  [[MMarkPrepared; MPublish 7; MBeginStart 7; MEnter 7 EndPark]; [MEnter 7 EndFail]].

Definition entrant_turns : list (nat * Z) := replicate 8 (0%nat, 0) ++ replicate 3 (1%nat, 0) ++ replicate 2 (0%nat, 0).

Lemma mailbox_lifecycle_witness :
  exists g qs s' st', concurrent (run_mops <$> two_entrants) SecondaryMailbox_new g qs s' /\
    mailbox_inv s' st' /\ rtc cpu_edge Offline st'.
Proof.
  destruct (run_schedule (run_mops <$> two_entrants) SecondaryMailbox_new entrant_turns)
    as [[[g qs] s']|] eqn:E; [|by vm_compute in E].
  pose proof (run_schedule_sound _ _ _ _ _ _ E) as Hc.
  destruct (mailbox_lifecycle two_entrants SecondaryMailbox_new Offline g qs s' mailbox_inv_new Hc)
    as (st' & H1 & H2 & _). by exists g, qs, s', st'.
Defined.

Lemma wait_until_parked_spec_witness :
  let tr := [ELoad Ready 7; EInput 10; ELoad StateCell 2; EInput 20; ELoad StateCell 3; EInput 30] in
  steps (wait_until_parked 7 0 100 5) tr (Ret (Ok tt)) /\ saw_parked 0 100 tr.
Proof.
  intros tr. assert (Hs : steps (wait_until_parked 7 0 100 5) tr (Ret (Ok tt))).
  { unfold tr. cbn. repeat (constructor; cbn). }
  split; [done|]. apply (wait_until_parked_spec 7 0 100 5 tr (Ret (Ok tt)) Hs). done.
Defined.
