(* ===== verification/Management.v ===== *)
(** * Management request channel: src/tvisor_util/management.rs

    One request slot between a sender and a receiver CPU, published and
    acknowledged by sequence numbers.  Each method is a program over the
    channel's atomics.  The theorems are about a sender making calls and a
    receiver serving doorbells with their accesses interleaved arbitrarily:
    requests are served exactly once, in order and untorn, and a reply belongs
    to its request. *)

From S2P Require Import Prelude Atomics.

Inductive Operation := Ping | WorkerTest | Park | FatalStop | RunTest | TlbQuiesce.

Definition operation_u64 (o : Operation) : Z :=
  match o with
  | Ping => 1 | WorkerTest => 2 | Park => 3 | FatalStop => 4 | RunTest => 5 | TlbQuiesce => 6
  end.

Inductive ChannelError := Busy | Exhausted | Completed.

Record Reply := mkReply { reply_value : Z; reply_failed : bool }.

(** The atomics of [Channel]. *)
Inductive chan_loc :=
| Writer | Sequence | Retired | Taken | Acknowledged | OperationCell | ArgumentCell | ResultCell | FailedCell.

#[global] Instance chan_loc_eq_dec : EqDecision chan_loc.
Proof. solve_decision. Defined.

Definition Channel_new : memory chan_loc := fun _ => 0.

(** [Pending] and [Request] hold the channel by reference. *)
Record Pending := mkPending { pending_sequence : Z; pending_completed : bool }.
Record Request := mkRequest { request_sequence : Z; request_operation : Operation; request_argument : Z }.

Definition submit (operation : Operation) (argument : Z) :
  prog chan_loc (outcome ChannelError Pending) :=
  _ <-? cas_or Writer 0 1 Busy ;;
  old <- load Sequence ;;
  retired <- load Retired ;;
  result <- (if negb (retired =? old) then Ret (Err Busy)
             else match checked_add old 1 with
             | Some sequence =>
                 _ <- store OperationCell (operation_u64 operation) ;;
                 _ <- store ArgumentCell argument ;;
                 _ <- store Sequence sequence ;;
                 Ret (Ok (mkPending sequence false))
             | None => Ret (Err Exhausted)
             end) ;;
  _ <- store Writer 0 ;;
  Ret result.

Definition completed_count : prog chan_loc Z := load Acknowledged.

(** [unreachable!()] on a code [submit] never stores. *)
Definition operation_of (v : Z) : option Operation :=
  match v with
  | 1 => Some Ping
  | 2 => Some WorkerTest
  | 3 => Some Park
  | 4 => Some FatalStop
  | 5 => Some RunTest
  | 6 => Some TlbQuiesce
  | _ => None
  end.

Lemma operation_of_u64 o : operation_of (operation_u64 o) = Some o.
Proof. by destruct o. Qed.

Definition take : prog chan_loc (outcome Empty_set (option Request)) :=
  sequence <- load Sequence ;;
  taken <- load Taken ;;
  won <- (if sequence =? taken then Ret false
          else r <- compare_exchange Taken taken sequence ;;
               Ret (match r with inl _ => true | inr _ => false end)) ;;
  if negb won then Ret (Ok None)
  else
    v <- load OperationCell ;;
    match operation_of v with
    | None => Ret Panic
    | Some operation =>
        argument <- load ArgumentCell ;;
        Ret (Ok (Some (mkRequest sequence operation argument)))
    end.

(** [try_result(&mut self)] returns the updated [Pending] with its result. *)
Definition try_result (p : Pending) :
  prog chan_loc (Pending * outcome ChannelError (option Reply)) :=
  if pending_completed p then Ret (p, Err Completed)
  else
    a <- load Acknowledged ;;
    if negb (a =? pending_sequence p) then Ret (p, Ok None)
    else
      value <- load ResultCell ;;
      failed <- load FailedCell ;;
      _ <- store Retired (pending_sequence p) ;;
      Ret (mkPending (pending_sequence p) true, Ok (Some (mkReply value (failed =? 1)))).

Definition acknowledge (r : Request) (reply : Reply) : prog chan_loc unit :=
  _ <- store ResultCell (reply_value reply) ;;
  _ <- store FailedCell (Z.b2z (reply_failed reply)) ;;
  store Acknowledged (request_sequence r).

(** ** A sender and a receiver *)

(** Up to [n] observations of a pending request; giving up drops it. *)
Fixpoint poll_result (n : nat) (p : Pending) : prog chan_loc (option Reply) :=
  match n with
  | O => Ret None
  | S n' =>
      r <- try_result p ;;
      match snd r with Ok (Some reply) => Ret (Some reply) | _ => poll_result n' (fst r) end
  end.

Record call := mkCall { call_operation : Operation; call_argument : Z; call_polls : nat }.

Definition run_call (c : call) : prog chan_loc (outcome ChannelError (option Reply)) :=
  p <-? submit (call_operation c) (call_argument c) ;;
  r <- poll_result (call_polls c) p ;;
  Ret (Ok r).

Fixpoint run_calls (cs : list call) : prog chan_loc (list (outcome ChannelError (option Reply))) :=
  match cs with
  | [] => Ret []
  | c :: rest => r <- run_call c ;; rs <- run_calls rest ;; Ret (r :: rs)
  end.

(** The receiver answers [n] doorbells; [handler] says how a request is
    answered, [None] for one that is dropped. *)
Fixpoint serve (handler : Operation -> Z -> option Reply) (n : nat) :
  prog chan_loc (outcome Empty_set (list (Operation * Z))) :=
  match n with
  | O => Ret (Ok [])
  | S n' =>
      r <-? take ;;
      match r with
      | None => serve handler n'
      | Some req =>
          _ <- match handler (request_operation req) (request_argument req) with
               | Some reply => acknowledge req reply
               | None => Ret tt
               end ;;
          rs <-? serve handler n' ;;
          Ret (Ok ((request_operation req, request_argument req) :: rs))
      end
  end.

(** ** The protocol of the two sides *)

(** The locations the sender writes; the receiver writes the others. *)
Definition sender_loc (l : chan_loc) : bool :=
  match l with Writer | Sequence | Retired | OperationCell | ArgumentCell => true | _ => false end.

Section Channel.
Context (cs : list call) (handler : Operation -> Z -> option Reply).
Implicit Types (s : memory chan_loc).

(** Request number [n] carries the [n]th call. *)
Definition payload (n o a : Z) : Prop :=
  exists c, cs !! Z.to_nat (n - 1) = Some c /\ o = operation_u64 (call_operation c) /\ a = call_argument c.

(** The handler's answer to call [n]. *)
Definition replied (n v f : Z) : Prop :=
  exists c reply, cs !! Z.to_nat (n - 1) = Some c /\
    handler (call_operation c) (call_argument c) = Some reply /\
    v = reply_value reply /\ f = Z.b2z (reply_failed reply).

(** At most one request is outstanding, and it is taken before it is
    acknowledged before it is retired; its cells hold its call until it is
    retired and its answer from when it is acknowledged. *)
Record chan_inv s : Prop := {
  ci_retired : 0 <= s Retired <= s Acknowledged;
  ci_acked : s Acknowledged <= s Taken;
  ci_taken : s Taken <= s Sequence;
  ci_one : s Sequence <= s Retired + 1;
  ci_payload : s Retired < s Sequence -> payload (s Sequence) (s OperationCell) (s ArgumentCell);
  ci_reply : s Retired < s Acknowledged -> replied (s Sequence) (s ResultCell) (s FailedCell)
}.

(** What the sender may rely on, and the receiver guarantees. *)
Definition receiver_step s s' : Prop :=
  chan_inv s -> chan_inv s' /\ s Acknowledged <= s' Acknowledged /\
    forall l, sender_loc l = true -> s' l = s l.

(** What the receiver may rely on, and the sender guarantees: an unacknowledged
    request stays as it was published. *)
Definition sender_step s s' : Prop :=
  chan_inv s -> chan_inv s' /\ (forall l, sender_loc l = false -> s' l = s l) /\
    (s Acknowledged < s Sequence ->
       s' Sequence = s Sequence /\ s' OperationCell = s OperationCell /\ s' ArgumentCell = s ArgumentCell).

Lemma receiver_step_refl s : receiver_step s s.
Proof. intros Hi. by split_and!. Qed.

Lemma receiver_step_trans a b c : receiver_step a b -> receiver_step b c -> receiver_step a c.
Proof.
  intros H1 H2 Ha. destruct (H1 Ha) as (Hb & A1 & E1). destruct (H2 Hb) as (Hc & A2 & E2).
  split_and!; [done|lia|]. intros l Hl. by rewrite E2, E1.
Qed.

Lemma sender_step_refl s : sender_step s s.
Proof. done. Qed.

Lemma sender_step_trans a b c : sender_step a b -> sender_step b c -> sender_step a c.
Proof.
  intros H1 H2 Ha. destruct (H1 Ha) as (Hb & E1 & P1). destruct (H2 Hb) as (Hc & E2 & P2). split_and!; [done|..].
  - intros l Hl. by rewrite E2, E1.
  - intros Hlt. destruct (P1 Hlt) as (Hs & Ho & Har).
    destruct P2 as (-> & -> & ->); [|done]. rewrite Hs. by rewrite (E1 Acknowledged).
Qed.

(** The writes of each side, where it makes them. *)
Ltac upd_solve :=
  rewrite ?upd_eq, ?upd_ne by done; try done; try lia.

Lemma write_writer s v : sender_step s (upd s Writer v).
Proof.
  intros [R A T O P Y]. split_and!; [split; upd_solve|intros []; by intros; upd_solve|intros; split_and!; upd_solve].
Qed.

Lemma write_operation s v : s Retired = s Sequence -> sender_step s (upd s OperationCell v).
Proof.
  intros E [R A T O P Y].
  split_and!; [split; upd_solve|intros []; by intros; upd_solve|intros; split_and!; upd_solve].
Qed.

Lemma write_argument s v : s Retired = s Sequence -> sender_step s (upd s ArgumentCell v).
Proof.
  intros E [R A T O P Y].
  split_and!; [split; upd_solve|intros []; by intros; upd_solve|intros; split_and!; upd_solve].
Qed.

Lemma write_sequence s v :
  s Retired = s Sequence -> v = s Sequence + 1 -> payload v (s OperationCell) (s ArgumentCell) ->
  sender_step s (upd s Sequence v).
Proof.
  intros E -> Hp [R A T O P Y].
  split_and!; [split; upd_solve|intros []; by intros; upd_solve|intros; split_and!; upd_solve].
Qed.

Lemma write_retired s v : s Acknowledged = v -> s Sequence = v -> sender_step s (upd s Retired v).
Proof.
  intros E <- [R A T O P Y].
  split_and!; [split; upd_solve|intros []; by intros; upd_solve|intros; split_and!; upd_solve].
Qed.

Lemma write_taken s v :
  s Taken < s Sequence -> v = s Sequence -> receiver_step s (upd s Taken v).
Proof. intros E -> [R A T O P Y]. split_and!; [split; upd_solve|upd_solve|intros []; by intros; upd_solve]. Qed.

Lemma write_result s v : s Acknowledged < s Sequence -> receiver_step s (upd s ResultCell v).
Proof. intros E [R A T O P Y]. split_and!; [split; upd_solve|upd_solve|intros []; by intros; upd_solve]. Qed.

Lemma write_failed s v : s Acknowledged < s Sequence -> receiver_step s (upd s FailedCell v).
Proof. intros E [R A T O P Y]. split_and!; [split; upd_solve|upd_solve|intros []; by intros; upd_solve]. Qed.

Lemma write_acknowledged s v :
  s Taken = v -> s Sequence = v -> replied v (s ResultCell) (s FailedCell) ->
  receiver_step s (upd s Acknowledged v).
Proof. intros <- E Hr [R A T O P Y]. split_and!; [split; upd_solve; by rewrite E|upd_solve|intros []; by intros; upd_solve]. Qed.

(** ** The sender *)

Notation striple p Q s := (rg receiver_step sender_step p Q s).

Definition idle (i : Z) s : Prop := s Writer = 0 /\ s Sequence = i /\ s Retired = i.
Definition outstanding (i : Z) s : Prop := s Writer = 0 /\ s Sequence = i /\ s Retired = i - 1.
(** Nothing can be submitted any more: a request was given up, or the sequence
    numbers are used up. *)
Definition blocked s : Prop :=
  s Writer = 0 /\ (s Retired <> s Sequence \/ checked_add (s Sequence) 1 = None).

(** One access of the sender: the receiver may have acted since. *)
Ltac sender_access s1 :=
  let H := fresh "H" in let Hi := fresh "Hinv" in let Ho := fresh "Hown" in
  intros s1 H;
  match goal with I : chan_inv _ |- _ => destruct (H I) as (Hi & ? & Ho); clear I end;
  clear H;
  pose proof (Ho Writer eq_refl); pose proof (Ho Sequence eq_refl); pose proof (Ho Retired eq_refl);
  pose proof (Ho OperationCell eq_refl); pose proof (Ho ArgumentCell eq_refl); clear Ho.

(** A write of either side, allowed by [tac]; [s2] names the store after it. *)
Ltac name_write s s2 l v :=
  let E := fresh "E" in
  remember (upd s l v) as s2 eqn:E;
  let eqs l' := (assert (s2 l' = upd s l v l') by (by rewrite E)) in
  eqs Writer; eqs Sequence; eqs Retired; eqs Taken; eqs Acknowledged;
  eqs OperationCell; eqs ArgumentCell; eqs ResultCell; eqs FailedCell; clear E;
  repeat match goal with
  | H : context [upd _ ?l ?v ?l] |- _ => rewrite upd_eq in H
  | H : context [upd _ ?l ?v ?l'] |- _ => rewrite (upd_ne _ l l' v) in H by done
  end.
Ltac write_access tac s2 :=
  match goal with
  | Hi : chan_inv ?s |- ?G ?s (upd ?s ?l ?v) /\ _ =>
      let Hw := fresh "Hw" in let Hi2 := fresh "Hinv" in
      assert (Hw : G s (upd s l v)) by tac;
      split; [exact Hw|]; destruct (Hw Hi) as [Hi2 _]; clear Hw Hi;
      name_write s s2 l v
  end.

Ltac inv_lia := match goal with I : chan_inv _ |- _ => destruct I; lia end.

Lemma submit_blocked o a s :
  chan_inv s -> blocked s ->
  striple (submit o a) (fun r s' => chan_inv s' /\ blocked s' /\ exists e, r = Err e) s.
Proof.
  intros Hinv [Hw Hb]. unfold submit, cas_or, pbind_res, compare_exchange, load, store. cbn [pbind].
  sender_access s1. destruct (Z.eqb_spec (s1 Writer) 0) as [_|]; [|congruence].
  write_access ltac:(apply write_writer) s2.
  sender_access s3. sender_access s4.
  assert (Hb4 : s4 Retired <> s3 Sequence \/ checked_add (s3 Sequence) 1 = None).
  { destruct Hb as [Hb|Hb]; [left; congruence|right]. by replace (s3 Sequence) with (s Sequence) by congruence. }
  destruct (Z.eqb_spec (s4 Retired) (s3 Sequence)) as [E|E]; cbn [negb pbind].
  - destruct Hb4 as [|Hb4]; [done|]. rewrite Hb4. cbn [pbind].
    sender_access s5. write_access ltac:(apply write_writer) s6. sender_access s7.
    split_and!; [done|split; [congruence|right]|by eexists].
    by replace (s7 Sequence) with (s3 Sequence) by congruence.
  - sender_access s5. write_access ltac:(apply write_writer) s6. sender_access s7.
    split_and!; [done|split; [congruence|left; congruence]|by eexists].
Qed.

Lemma submit_idle i c s :
  chan_inv s -> idle i s -> cs !! Z.to_nat i = Some c ->
  striple (submit (call_operation c) (call_argument c))
    (fun r s' => chan_inv s' /\
       ((r = Ok (mkPending (i + 1) false) /\ outstanding (i + 1) s') \/
        ((exists e, r = Err e) /\ blocked s'))) s.
Proof.
  intros Hinv (Hw & Hs & Hr) Hc. unfold submit, cas_or, pbind_res, compare_exchange, load, store. cbn [pbind].
  sender_access s1. destruct (Z.eqb_spec (s1 Writer) 0) as [_|]; [|congruence].
  write_access ltac:(apply write_writer) s2. sender_access s3. sender_access s4.
  destruct (Z.eqb_spec (s4 Retired) (s3 Sequence)) as [_|]; [|congruence]. cbn [negb].
  destruct (checked_add (s3 Sequence) 1) as [q|] eqn:Hq; cbn [pbind].
  - assert (q = i + 1) as -> by (unfold checked_add in Hq; case_match; simplify_eq; congruence).
    sender_access s5. write_access ltac:(apply write_operation; congruence) s6.
    sender_access s7. write_access ltac:(apply write_argument; congruence) s8.
    sender_access s9.
    assert (Hp : payload (i + 1) (s9 OperationCell) (s9 ArgumentCell)).
    { exists c. rewrite Z.add_simpl_r. split_and!; [done|congruence..]. }
    write_access ltac:(apply write_sequence; [congruence|congruence|done]) s10.
    sender_access s11. write_access ltac:(apply write_writer) s12. sender_access s13.
    split; [done|]. left. split; [done|]. split_and!; [congruence..|lia].
  - sender_access s5. write_access ltac:(apply write_writer) s6. sender_access s7.
    split; [done|]. right. split; [by eexists|]. split; [congruence|right].
    by replace (s7 Sequence) with (s3 Sequence) by congruence.
Qed.

Lemma poll_result_outstanding n i c s :
  chan_inv s -> outstanding i s -> cs !! Z.to_nat (i - 1) = Some c ->
  striple (poll_result n (mkPending i false))
    (fun r s' => chan_inv s' /\
       match r with
       | Some reply => handler (call_operation c) (call_argument c) = Some reply /\ idle i s'
       | None => blocked s'
       end) s.
Proof.
  intros Hinv Ho Hc. revert s Hinv Ho. induction n as [|n IH]; intros s Hinv (Hw & Hs & Hr); cbn [poll_result].
  { sender_access s1. split; [done|]. split; [congruence|left; lia]. }
  unfold try_result, load, store. cbn [pending_completed pending_sequence pbind].
  sender_access s1. destruct (Z.eqb_spec (s1 Acknowledged) i) as [Ha|Ha]; cbn [negb pbind].
  - assert (Hrep : forall s', chan_inv s' -> s' Sequence = i -> s' Retired = i - 1 -> s' Acknowledged = i ->
      exists reply, handler (call_operation c) (call_argument c) = Some reply /\
        s' ResultCell = reply_value reply /\ s' FailedCell = Z.b2z (reply_failed reply)).
    { intros s' Hi' A1 A2 A3. destruct (ci_reply _ Hi') as (c' & reply & Hc' & Hh & Hv & Hf); [lia|].
      rewrite A1, Hc in Hc'. simplify_eq. eauto. }
    sender_access s2. destruct (Hrep s2) as (reply & Hh & Hv & _); [done|congruence|congruence| |].
    { inv_lia. }
    sender_access s3. destruct (Hrep s3) as (reply' & Hh' & _ & Hf); [done|congruence|congruence| |].
    { inv_lia. }
    sender_access s4. write_access ltac:(apply write_retired; [inv_lia|congruence]) s5.
    cbn [pbind snd]. sender_access s6. split; [done|]. simplify_eq. split; [|split_and!; congruence].
    rewrite Hh, Hv, Hf. f_equal. by destruct reply as [? []].
  - cbn [snd fst]. apply IH; [done|]. split_and!; congruence.
Qed.

(** A reply handed to a caller is the handler's answer to that very call. *)
Definition sound_call (c : call) (r : outcome ChannelError (option Reply)) : Prop :=
  forall reply, r = Ok (Some reply) -> handler (call_operation c) (call_argument c) = Some reply.

Lemma run_call_blocked c s :
  chan_inv s -> blocked s ->
  striple (run_call c) (fun r s' => chan_inv s' /\ sound_call c r /\ blocked s') s.
Proof.
  intros Hinv Hb. unfold run_call, pbind_res. apply rg_bind; [apply receiver_step_refl|].
  eapply rg_mono; [|by apply submit_blocked]. intros r s1 (Hi & Hb1 & [e ->]).
  destruct Hb1. sender_access s2. split_and!; [done|done|]. split; [congruence|].
  replace (s2 Retired) with (s1 Retired) by congruence. by replace (s2 Sequence) with (s1 Sequence) by congruence.
Qed.

Lemma run_call_idle i c s :
  chan_inv s -> idle i s -> cs !! Z.to_nat i = Some c ->
  striple (run_call c)
    (fun r s' => chan_inv s' /\ sound_call c r /\ (idle (i + 1) s' \/ blocked s')) s.
Proof.
  intros Hinv Hid Hc. unfold run_call, pbind_res. apply rg_bind; [apply receiver_step_refl|].
  eapply rg_mono; [|by apply submit_idle]. intros r s1 (Hi & [[-> Ho]|[[e ->] Hb]]).
  - apply rg_bind; [apply receiver_step_refl|].
    eapply rg_mono; [|apply (poll_result_outstanding _ (i + 1) c); [done|done|by rewrite Z.add_simpl_r]].
    intros [reply|] s2 [Hi2 Hq].
    + destruct Hq as (Hh & ? & ? & ?). sender_access s3. split_and!; [done| |left; split_and!; congruence].
      by intros ? [= <-].
    + destruct Hq. sender_access s3. split_and!; [done|done|right]. split; [congruence|].
      replace (s3 Retired) with (s2 Retired) by congruence.
      by replace (s3 Sequence) with (s2 Sequence) by congruence.
  - destruct Hb. sender_access s2. split_and!; [done|done|right]. split; [congruence|].
    replace (s2 Retired) with (s1 Retired) by congruence. by replace (s2 Sequence) with (s1 Sequence) by congruence.
Qed.

Lemma run_calls_triple (before rest : list call) s :
  cs = before ++ rest -> chan_inv s -> idle (Z.of_nat (length before)) s \/ blocked s ->
  striple (run_calls rest) (fun rs _ => Forall2 sound_call rest rs) s.
Proof.
  revert before s. induction rest as [|c rest IH]; intros before s Hcs Hinv Hst; cbn [run_calls].
  { by intros s1 _. }
  apply rg_bind; [apply receiver_step_refl|].
  assert (Hcall : striple (run_call c)
    (fun r s' => chan_inv s' /\ sound_call c r /\ (idle (Z.of_nat (length before) + 1) s' \/ blocked s')) s).
  { destruct Hst as [Hid|Hb].
    - apply run_call_idle; [done..|]. rewrite Nat2Z.id, Hcs. by rewrite lookup_app_r, Nat.sub_diag by lia.
    - eapply rg_mono; [|by apply run_call_blocked]. naive_solver. }
  eapply rg_mono; [|exact Hcall]. intros r s1 (Hi & Hr & Hst1). cbn beta.
  apply rg_bind; [apply receiver_step_refl|].
  eapply rg_mono; [|apply (IH (before ++ [c]))].
  - intros rs s2 Hrs s3 _. by constructor.
  - by rewrite <- app_assoc.
  - done.
  - rewrite length_app. simpl. by replace (Z.of_nat (length before + 1)) with (Z.of_nat (length before) + 1) by lia.
Qed.

(** ** The receiver *)

Notation rtriple p Q s := (rg sender_step receiver_step p Q s).

Ltac receiver_access s1 :=
  let H := fresh "H" in let Hi := fresh "Hinv" in let Ho := fresh "Hown" in let Hp := fresh "Hpub" in
  intros s1 H;
  match goal with I : chan_inv _ |- _ => destruct (H I) as (Hi & Ho & Hp) end;
  clear H;
  pose proof (Ho Taken eq_refl); pose proof (Ho Acknowledged eq_refl);
  pose proof (Ho ResultCell eq_refl); pose proof (Ho FailedCell eq_refl); clear Ho;
  try (destruct Hp as (? & ? & ?); [inv_lia|]);
  match goal with I : chan_inv ?s, J : chan_inv s1 |- _ => tryif constr_eq s s1 then fail else clear I end.

(** The receiver holds request [k + 1]: taken, and still as submitted. *)
Definition holding (k : nat) (c : call) s : Prop :=
  cs !! k = Some c /\ s Taken = Z.of_nat k + 1 /\ s Sequence = Z.of_nat k + 1 /\ s Acknowledged = Z.of_nat k.

Lemma take_triple k s :
  chan_inv s -> s Taken = Z.of_nat k ->
  rtriple take
    (fun r s' => chan_inv s' /\
       ((r = Ok None /\ s' Taken = Z.of_nat k) \/
        exists c, r = Ok (Some (mkRequest (Z.of_nat k + 1) (call_operation c) (call_argument c))) /\
          holding k c s')) s.
Proof.
  intros Hinv Ht. unfold take, load, compare_exchange. cbn [pbind].
  receiver_access s1. destruct (decide (s1 Sequence = Z.of_nat k)) as [Hq|Hq].
  { receiver_access s2. destruct (Z.eqb_spec (s1 Sequence) (s2 Taken)) as [_|]; [|congruence]. cbn [pbind negb].
    receiver_access s3. split; [done|]. left. split; [done|congruence]. }
  assert (Hk : s1 Sequence = Z.of_nat k + 1 /\ s1 Acknowledged = Z.of_nat k) by inv_lia. destruct Hk as [Hk Ha].
  receiver_access s2. destruct (Z.eqb_spec (s1 Sequence) (s2 Taken)) as [|_]; [congruence|]. cbn [pbind negb].
  receiver_access s3. destruct (Z.eqb_spec (s3 Taken) (s2 Taken)) as [_|]; [|congruence].
  write_access ltac:(apply write_taken; [lia|congruence]) s4. cbn [pbind negb].
  receiver_access s5. destruct (ci_payload s5) as (c & Hc & Hop & Harg); [done|inv_lia|].
  replace (Z.to_nat (s5 Sequence - 1)) with k in Hc by lia.
  rewrite Hop. rewrite operation_of_u64.
  receiver_access s6. receiver_access s7. split; [done|]. right. exists c. split; [|split_and!; [done|lia..]].
  repeat f_equal; congruence.
Qed.

Lemma acknowledge_triple k c reply s :
  chan_inv s -> holding k c s -> handler (call_operation c) (call_argument c) = Some reply ->
  rtriple (acknowledge (mkRequest (Z.of_nat k + 1) (call_operation c) (call_argument c)) reply)
    (fun _ s' => chan_inv s' /\ s' Taken = Z.of_nat k + 1) s.
Proof.
  intros Hinv (Hc & Ht & Hs & Ha) Hh. unfold acknowledge, store. cbn [pbind request_sequence].
  receiver_access s1. write_access ltac:(apply write_result; lia) s2.
  receiver_access s3. write_access ltac:(apply write_failed; lia) s4.
  receiver_access s5.
  assert (Hr : replied (Z.of_nat k + 1) (s5 ResultCell) (s5 FailedCell)).
  { exists c, reply. replace (Z.to_nat (Z.of_nat k + 1 - 1)) with k by lia. split_and!; [done|done|congruence..]. }
  write_access ltac:(apply write_acknowledged; [lia|lia|done]) s6.
  receiver_access s7. split; [done|congruence].
Qed.

Definition call_payload (c : call) : Operation * Z := (call_operation c, call_argument c).

Lemma serve_triple n k s :
  chan_inv s -> s Taken = Z.of_nat k ->
  rtriple (serve handler n) (fun r _ => exists m, r = Ok (call_payload <$> firstn m (drop k cs))) s.
Proof.
  revert k s. induction n as [|n IH]; intros k s Hinv Ht; cbn [serve].
  { intros s1 _. by exists 0%nat. }
  unfold pbind_res at 1. apply rg_bind; [apply sender_step_refl|].
  eapply rg_mono; [|by apply (take_triple k)]. intros r s1 (Hi & [[-> Ht1]|(c & -> & Hh)]); [by apply IH|].
  cbn [request_operation request_argument]. apply rg_bind; [apply sender_step_refl|].
  eapply (rg_mono _ _ _ (fun _ s' => chan_inv s' /\ s' Taken = Z.of_nat (S k))).
  - intros [] s2 [Hi2 Ht2]. unfold pbind_res. apply rg_bind; [apply sender_step_refl|].
    eapply rg_mono; [|by apply (IH (S k))]. intros r s3 [m ->] s4 _. exists (S m).
    rewrite (drop_S cs c k) by apply Hh. done.
  - rewrite Nat2Z.inj_succ. unfold Z.succ.
    destruct (handler _ _) as [reply|] eqn:Hr; [by apply acknowledge_triple|].
    destruct Hh as (? & ? & ? & ?). receiver_access s2. split; [done|lia].
Qed.
End Channel.

(** The sender and the receiver as the two threads of a system. *)
Definition system (cs : list call) (handler : Operation -> Z -> option Reply) (doorbells : nat) :
  list (prog chan_loc (list (outcome ChannelError (option Reply)) + outcome Empty_set (list (Operation * Z)))) :=
  [ (rs <- run_calls cs ;; Ret (inl rs)); (r <- serve handler doorbells ;; Ret (inr r)) ].

Lemma chan_inv_new cs handler : chan_inv cs handler Channel_new.
Proof. split; unfold Channel_new; try done; lia. Qed.

(** C28 [management_exactly_once]: a sender makes calls, giving up on a reply after
    any number of polls, while the receiver answers any number of doorbells,
    needed or spurious, and the accesses of the two interleave arbitrarily.
    The requests the receiver takes are the sender's calls in order, each once
    and with its own operation and argument; a reply the sender obtains is the
    handler's answer to that call; and the receiver meets no invalid code. *)
Theorem management_exactly_once cs handler doorbells g qs s' :
  concurrent (system cs handler doorbells) Channel_new g qs s' ->
  (forall rs, qs !! 0%nat = Some (Ret (inl rs)) -> Forall2 (sound_call handler) cs rs) /\
  (forall r, qs !! 1%nat = Some (Ret (inr r)) -> exists m, r = Ok (call_payload <$> firstn m cs)).
Proof.
  intros Hc. pose (I := chan_inv_new cs handler).
  pose (Q := fun (i : nat) (r : list (outcome ChannelError (option Reply)) + outcome Empty_set (list (Operation * Z)))
      (_ : memory chan_loc) =>
    match r with
    | inl rs => Forall2 (sound_call handler) cs rs
    | inr r => exists m, r = Ok (call_payload <$> firstn m cs)
    end).
  destruct (rg_parallel
    (fun i => match i with O => receiver_step cs handler | 1%nat => sender_step cs handler | _ => fun _ _ => True end)
    (fun i => match i with O => sender_step cs handler | 1%nat => receiver_step cs handler | _ => eq end)
    Q (system cs handler doorbells) Channel_new g qs s') as [_ HQ].
  - intros [|[|i]] s; [apply receiver_step_refl|apply sender_step_refl|done].
  - intros [|[|i]] a b c; [apply receiver_step_trans|apply sender_step_trans|done].
  - intros [|[|i]] s; [apply sender_step_refl|apply receiver_step_refl|done].
  - intros [|[|i]] [|[|j]] s s1 Hne HG; try done; subst; [apply receiver_step_refl|apply sender_step_refl].
  - intros [|[|i]] p Hp; [..|done]; apply (inj Some) in Hp as <-.
    + apply rg_bind; [apply receiver_step_refl|].
      eapply rg_mono; [|by apply (run_calls_triple cs handler [] cs); [..|left]]. by intros rs s Hrs s1 _.
    + apply rg_bind; [apply sender_step_refl|].
      eapply rg_mono; [|by apply (serve_triple cs handler _ 0)]. by intros rs s Hrs s1 _.
  - done.
  - split; intros x Hx; apply (HQ _ _ Hx).
Qed.

(** A channel with no request outstanding. *)
Definition quiet_channel (s : memory chan_loc) : Prop :=
  s Writer = 0 /\ s Retired = s Sequence /\ s Taken = s Sequence.

Definition roundtrip (o : Operation) (a : Z) (reply : Reply) :
  prog chan_loc (outcome ChannelError (option (Operation * Z) * option Reply)) :=
  p <-? submit o a ;;
  r <- take ;;
  match r with
  | Ok (Some req) =>
      _ <- acknowledge req reply ;;
      x <- try_result p ;;
      Ret (outcome_map (fun y => (Some (request_operation req, request_argument req), y)) (snd x))
  | _ => Ret (Ok (None, None))
  end.

(** [management_roundtrip]: on a quiet channel a submitted request is taken as
    it was submitted, its reply reaches the sender, and the channel is quiet
    again with the sequence number advanced by one. *)
Lemma management_roundtrip o a reply s :
  quiet_channel s -> s Sequence + 1 < 2 ^ 64 ->
  exists s', exec (roundtrip o a reply) s [] = Some (Ok (Some (o, a), Some reply), s') /\
    quiet_channel s' /\ s' Sequence = s Sequence + 1.
Proof.
  intros (Hw & Hr & Ht) Hmax.
  assert (Hq : checked_add (s Sequence) 1 = Some (s Sequence + 1)) by (by apply checked_add_Some).
  unfold roundtrip, submit, take, acknowledge, try_result, cas_or, compare_exchange, pbind_res, load, store.
  repeat first
    [ progress cbn [exec pbind negb fst snd request_sequence request_operation request_argument
        pending_sequence pending_completed outcome_map reply_value reply_failed]
    | rewrite upd_eq | rewrite upd_ne by done | rewrite Hq | rewrite operation_of_u64
    | match goal with |- context [exec (if ?a =? ?b then _ else _)] =>
        first [rewrite (proj2 (Z.eqb_eq a b)) by lia|rewrite (proj2 (Z.eqb_neq a b)) by lia] end
    | match goal with |- context [?a =? ?b] =>
        first [rewrite (proj2 (Z.eqb_eq a b)) by lia|rewrite (proj2 (Z.eqb_neq a b)) by lia] end ].
  eexists. split; [by destruct reply as [? []]|]. unfold quiet_channel.
  split_and!; repeat first [rewrite upd_eq|rewrite upd_ne by done]; lia.
Qed.

(** ** Concrete executions *)

Definition increment (_ : Operation) (a : Z) : option Reply := Some (mkReply (a + 1) false).

Lemma management_exactly_once_witness :
  exists g qs s' rs r, concurrent (system [mkCall Ping 5 3] increment 2) Channel_new g qs s' /\
    qs = [Ret (inl rs); Ret (inr r)] /\ Forall2 (sound_call increment) [mkCall Ping 5 3] rs /\
    exists m, r = Ok (call_payload <$> firstn m [mkCall Ping 5 3]).
Proof.
  destruct (run_schedule (system [mkCall Ping 5 3] increment 2) Channel_new
    (replicate 7 (0%nat, 0) ++ replicate 10 (1%nat, 0) ++ replicate 4 (0%nat, 0))) as [[[g qs] s']|] eqn:E;
    [|by vm_compute in E].
  pose proof (run_schedule_sound _ _ _ _ _ _ E) as Hc.
  destruct (management_exactly_once [mkCall Ping 5 3] increment 2 g qs s' Hc) as [H1 H2].
  assert (Hq : qs = [Ret (inl [Ok (Some (mkReply 6 false))]); Ret (inr (Ok [(Ping, 5)]))])
    by (vm_compute in E; injection E as <- <- <-; reflexivity).
  eexists g, qs, s', _, _. split_and!; [done|exact Hq|apply H1|apply H2]; by rewrite Hq.
Defined.

