(* ===== verification/PublishOnce.v ===== *)
(** * One-shot publication

    Several structures of the source are published once: callers race for a
    gate, the winner writes plain fields and then makes them visible, and
    readers look at the fields only after seeing them published
    ([FailureRecord], [HostEl2ConfigStorage], the context of a [PcpuSlot]).
    This file states that discipline as an interface and proves what every
    user of it gets: readers see the fields complete, of one writer, and never
    changed again. *)

From S2P Require Import Prelude Atomics.

(** How a structure publishes: [os_win] recognises the access that wins the
    gate; the fields are visible in the stores where [os_pub] holds. *)
Class OneShot (L : Type) `{EqDecision L} := {
  os_gate : L;
  os_fields : list L;
  os_pub : memory L -> Prop;
  os_win : event L -> bool;
  os_gate_fresh : os_gate ∉ os_fields;
  os_pub_fields s l v : l ∈ os_fields -> os_pub (upd s l v) <-> os_pub s
}.

Section OneShot.
Context {L : Type} `{OneShot L}.
(** The contents writers may publish. *)
Context (data : list Z -> Prop).
Implicit Types (s : memory L).

Definition contents s : list Z := s <$> os_fields.

Definition os_inv s : Prop := os_pub s -> data (contents s) /\ s os_gate <> 0.

(** What the winner may do: before publication anything to the fields, after it
    nothing. *)
Definition os_step s s' : Prop :=
  os_inv s -> os_inv s' /\ (os_pub s -> os_pub s' /\ contents s' = contents s) /\
    (s os_gate <> 0 -> s' os_gate <> 0).

(** What the others may do: nothing. *)
Definition os_same s s' : Prop :=
  (forall l, l ∈ os_fields -> s' l = s l) /\ (os_pub s' <-> os_pub s) /\
    (s os_gate <> 0 -> s' os_gate <> 0).

Lemma contents_same s s' : (forall l, l ∈ os_fields -> s' l = s l) -> contents s' = contents s.
Proof.
  intros Hs. unfold contents. apply list_fmap_ext. intros i l Hl. apply Hs. by eapply list_elem_of_lookup_2.
Qed.

Lemma os_same_step s s' : os_same s s' -> os_step s s'.
Proof.
  intros (Hf & Hp & Hg) Hi. pose proof (contents_same _ _ Hf) as Hc. split_and!; [|by rewrite Hp|done].
  intros Hpub. destruct Hi as [Hd Hgate]; [by apply Hp|]. rewrite Hc. auto.
Qed.

Lemma os_step_refl s : os_step s s.
Proof. intros Hi. by split_and!. Qed.

Lemma os_step_trans a b c : os_step a b -> os_step b c -> os_step a c.
Proof.
  intros H1 H2 Ha. destruct (H1 Ha) as (Hb & P1 & G1). destruct (H2 Hb) as (Hc & P2 & G2).
  split_and!; [done| |auto]. intros Hp. destruct (P1 Hp) as [Hp1 E1]. destruct (P2 Hp1) as [Hp2 E2].
  split; [done|congruence].
Qed.

Lemma os_same_refl s : os_same s s.
Proof. by split_and!. Qed.

Lemma os_same_trans a b c : os_same a b -> os_same b c -> os_same a c.
Proof.
  intros (F1 & P1 & G1) (F2 & P2 & G2). split_and!; [|by rewrite P2|auto].
  intros l Hl. by rewrite F2, F1.
Qed.

(** ** Roles: the winner of the gate, and everyone else *)

Definition os_rely (winner : bool) : memory L -> memory L -> Prop := if winner then os_same else os_step.
Definition os_guar (winner : bool) : memory L -> memory L -> Prop := if winner then os_step else os_same.

Definition os_triple {A} (winner : bool) (p : prog L A) (Q : A -> memory L -> Prop) s : Prop :=
  rga (fun e => os_win e = true -> winner = true) (os_rely winner) (os_guar winner) p Q s.

Lemma os_rely_step b s s' : os_rely b s s' -> os_step s s'.
Proof. destruct b; [apply os_same_step|done]. Qed.

Lemma os_rely_refl b s : os_rely b s s.
Proof. destruct b; [apply os_same_refl|apply os_step_refl]. Qed.

Lemma os_rely_trans b x y z : os_rely b x y -> os_rely b y z -> os_rely b x z.
Proof. destruct b; [apply os_same_trans|apply os_step_trans]. Qed.

Lemma os_same_guar b s s' : os_same s s' -> os_guar b s s'.
Proof. destruct b; [apply os_same_step|done]. Qed.

(** The published contents. *)
Definition shows (v : list Z) s : Prop := os_pub s /\ contents s = v /\ data v.

Lemma shows_step v s s' : os_inv s -> os_step s s' -> shows v s -> shows v s'.
Proof.
  intros Hi Hs (Hp & Hc & Hd). destruct (Hs Hi) as (_ & HP & _). destruct (HP Hp) as [? ?].
  split_and!; [done|congruence|done].
Qed.

Lemma os_pub_shows s : os_inv s -> os_pub s -> shows (contents s) s.
Proof. intros Hi Hp. split_and!; [done|done|]. by apply Hi. Qed.

(** A write that touches neither the fields nor what makes them visible. *)
Lemma write_elsewhere b s l v :
  l ∉ os_fields -> (os_pub (upd s l v) <-> os_pub s) -> (l = os_gate -> v <> 0) -> os_guar b s (upd s l v).
Proof.
  intros Hl Hp Hg. apply os_same_guar. split_and!; [|done|].
  - intros l' Hl'. apply upd_ne. by intros ->.
  - intros Hs. unfold upd. case_decide; [by apply Hg|done].
Qed.

Lemma os_rely_inv b s s' : os_inv s -> os_rely b s s' -> os_inv s'.
Proof. intros Hi Hs%os_rely_step. by destruct (Hs Hi). Qed.

Lemma os_guar_inv b s s' : os_inv s -> os_guar b s s' -> os_inv s'.
Proof. destruct b; simpl; intros Hi Hs; [|apply os_same_step in Hs]; by destruct (Hs Hi). Qed.

Lemma os_ret {A} b (a : A) (Q : A -> memory L -> Prop) s :
  os_inv s -> (forall s', os_inv s' -> os_step s s' -> Q a s') -> os_triple b (Ret a) Q s.
Proof. intros Hi HQ s' Hs. apply HQ; [by eapply os_rely_inv|by eapply os_rely_step]. Qed.

Lemma os_load {A} b l (k : Z -> prog L A) Q s :
  os_inv s -> (forall s', os_inv s' -> os_step s s' -> os_triple b (k (s' l)) Q s') ->
  os_triple b (Load l k) Q s.
Proof. intros Hi Hk s' Hs _. apply Hk; [by eapply os_rely_inv|by eapply os_rely_step]. Qed.

(** A store the role allows in any state. *)
Lemma os_store {A} b l v (k : prog L A) Q s :
  os_inv s -> (forall s', os_guar b s' (upd s' l v)) ->
  (forall s', os_inv s' -> os_triple b k Q s') -> os_triple b (Store l v k) Q s.
Proof.
  intros Hi Hg Hk s' Hs _. split; [apply Hg|]. apply Hk.
  eapply os_guar_inv; [|apply Hg]. by eapply os_rely_inv.
Qed.

Lemma os_bind {A B} b (p : prog L A) (f : A -> prog L B) P Q s :
  os_inv s -> os_triple b p P s ->
  (forall a s', os_inv s' -> os_step s s' -> P a s' -> os_triple b (f a) Q s') ->
  os_triple b (pbind p f) Q s.
Proof.
  intros Hi Hp Hf. apply rga_bind; [apply os_rely_refl|].
  eapply rga_mono; [|apply (rga_frame _ _ _ _ P (fun s' => os_inv s' /\ os_step s s'));
    [| |exact Hp|split; [done|apply os_step_refl]]].
  - intros a s' (HP & H1 & H2). by apply Hf.
  - intros x y Hxy [Hx Hs]. split; [by eapply os_rely_inv|].
    eapply os_step_trans; [done|]. by eapply os_rely_step.
  - intros x y Hxy [Hx Hs]. split; [by eapply os_guar_inv|].
    eapply os_step_trans; [done|]. destruct b; [done|by apply os_same_step].
Qed.

Lemma os_run_all {O A} b (run : O -> prog L A) (Q : A -> memory L -> Prop) os s :
  (forall r s s', os_inv s -> os_step s s' -> Q r s -> Q r s') ->
  (forall o s, o ∈ os -> os_inv s -> os_triple b (run o) Q s) -> os_inv s ->
  os_triple b (run_all run os) (fun rs s' => Forall (fun r => Q r s') rs) s.
Proof.
  intros Hst. revert s. induction os as [|o os IH]; intros s Hrun Hi; cbn [run_all]; [by apply os_ret|].
  eapply os_bind; [done|apply Hrun; [set_solver|done]|]. intros r s1 I1 _ Hr.
  eapply os_bind; [done|apply IH; [|done]|]. { intros o' s' Ho'. apply Hrun. set_solver. }
  intros rs s2 I2 R2 Hrs. apply os_ret; [done|]. intros s3 I3 R3. constructor.
  - eapply Hst; [exact I2|exact R3|]. exact (Hst r s1 s2 I1 R2 Hr).
  - eapply Forall_impl; [exact Hrs|]. intros x. by apply (Hst x s2 s3).
Qed.

(** A reader that has seen the fields published reads them as they were. *)
Lemma os_load_field {A} b n l x v (k : Z -> prog L A) Q s :
  os_inv s -> shows v s -> os_fields !! n = Some l -> v !! n = Some x ->
  (forall s', os_inv s' -> shows v s' -> os_triple b (k x) Q s') -> os_triple b (Load l k) Q s.
Proof.
  intros Hi Hv Hl Hx Hk. apply os_load; [done|]. intros s1 I1 R1.
  pose proof (shows_step _ _ _ Hi R1 Hv) as (Hp & Hc & Hd).
  assert (s1 l = x) as ->; [|apply Hk; [done|by split_and!]].
  rewrite <- Hc in Hx. unfold contents in Hx. rewrite list_lookup_fmap, Hl in Hx. cbn in Hx. congruence.
Qed.

(** A program whose accesses are allowed to everyone. *)
Lemma os_harmless {A} b (p : prog L A) s :
  emits (fun e => forall s s', apply_event s e = Some s' -> os_same s s') p -> os_inv s ->
  os_triple b p (fun _ _ => True) s.
Proof.
  revert s. induction p as [a|l k IH|l v k IH|l v k IH|l o n k IH|k IH]; intros s He Hi; simpl in He.
  - by apply os_ret.
  - apply os_load; [done|]. intros s1 I1 _. apply IH; [apply He|done].
  - destruct He as [Hw He]. apply os_store; [done|intros s1; by apply os_same_guar, Hw|]. intros s1 I1. by apply IH.
  - intros s1 R1 _. destruct (He (s1 l)) as [Hw Hk].
    assert (Hg : os_guar b s1 (upd s1 l v)) by (apply os_same_guar, Hw; simpl; by rewrite Z.eqb_refl).
    split; [done|]. apply IH; [done|]. eapply os_guar_inv; [by eapply os_rely_inv|done].
  - destruct He as [[Hw Hk] Hf]. intros s1 R1. pose proof (os_rely_inv _ _ _ Hi R1) as I1.
    destruct (s1 l =? o) eqn:E; intros _; [|by apply IH; [apply Hf|]].
    assert (Hg : os_guar b s1 (upd s1 l n)) by (apply os_same_guar, Hw; simpl; by rewrite E).
    split; [done|]. apply IH; [done|]. by eapply os_guar_inv.
  - intros s1 R1 v _. apply IH; [apply He|]. by eapply os_rely_inv.
Qed.

(** The winner's state from taking the gate until publication. *)
Definition filling s : Prop := os_inv s /\ ~ os_pub s /\ s os_gate <> 0.

Lemma filling_same s s' : filling s -> os_same s s' -> filling s'.
Proof.
  intros (Hi & Hp & Hg) Hs. destruct (os_same_step _ _ Hs Hi) as (Hi' & _ & Hg').
  split_and!; [done| |auto]. by destruct Hs as (_ & -> & _).
Qed.

(** The winner fills the fields while they are not visible. *)
Lemma filling_write s l v : l ∈ os_fields -> filling s -> os_step s (upd s l v) /\ filling (upd s l v).
Proof.
  intros Hl (Hi & Hp & Hg). assert (Hp' : ~ os_pub (upd s l v)) by (by rewrite os_pub_fields).
  assert (Hg' : upd s l v os_gate <> 0).
  { rewrite upd_ne; [done|]. intros <-. by apply os_gate_fresh. }
  split; [intros _|]; split_and!; try done; by intros ?.
Qed.

Lemma os_fill {A} l v (k : prog L A) Q s :
  l ∈ os_fields -> filling s ->
  (forall s', filling s' -> s' l = v -> (forall l', l' ∈ os_fields -> l' <> l -> s' l' = s l') ->
     os_triple true k Q s') ->
  os_triple true (Store l v k) Q s.
Proof.
  intros Hl F Hk s' Rs _. apply (filling_same _ _ F) in Rs as F'.
  destruct (filling_write s' l v Hl F') as [G' F'']. split; [exact G'|].
  apply Hk; [done|apply upd_eq|]. intros l' Hl' Hne. rewrite upd_ne by done. by apply Rs.
Qed.

(** The winner writes something else in between. *)
Lemma os_fill_elsewhere {A} l v (k : prog L A) Q s :
  l ∉ os_fields -> l <> os_gate -> (forall s, os_pub (upd s l v) <-> os_pub s) -> filling s ->
  (forall s', filling s' -> (forall l', l' ∈ os_fields -> s' l' = s l') -> os_triple true k Q s') ->
  os_triple true (Store l v k) Q s.
Proof.
  intros Hl Hg Hpub F Hk s' Rs _. apply (filling_same _ _ F) in Rs as F'.
  assert (Hsame : os_same s' (upd s' l v)).
  { split_and!; [|done|by rewrite upd_ne by done]. intros l' Hl'. apply upd_ne. by intros ->. }
  split; [by apply os_same_step|]. apply Hk; [by eapply filling_same|].
  intros l' Hl'. rewrite (proj1 Hsame) by done. by apply Rs.
Qed.

(** The winner makes them visible. *)
Lemma write_publish s l v :
  l ∉ os_fields -> filling s -> data (contents s) -> upd s l v os_gate <> 0 -> os_step s (upd s l v).
Proof.
  intros Hl (_ & Hp & _) Hd Hg Hi. assert (Hc : contents (upd s l v) = contents s).
  { apply contents_same. intros l' Hl'. apply upd_ne. by intros ->. }
  split_and!; [|done|done]. intros _. by rewrite Hc.
Qed.

(** All threads of a system, when at most one access wins the gate. *)
Lemma os_parallel {A} (Q : nat -> A -> memory L -> Prop) (ps : list (prog L A)) s g qs s' :
  os_inv s -> (count_events os_win (snd <$> g) <= 1)%nat ->
  (forall b i p, ps !! i = Some p -> os_triple b p (Q i) s) ->
  concurrent ps s g qs s' ->
  os_inv s' /\ os_step s s' /\ forall i a, qs !! i = Some (Ret a) -> Q i a s'.
Proof.
  intros Hi Hc Hps Hconc. destruct (count_one_thread _ _ Hc) as [w Hw].
  destruct (rga_parallel (fun i e => os_win e = true -> bool_decide (i = w) = true)
    (fun i => os_rely (bool_decide (i = w))) (fun i => os_guar (bool_decide (i = w))) Q ps s g qs s')
    as [Hrtc HQ]; [intros; apply os_rely_refl|intros i x y z; apply os_rely_trans| | | | |done|].
  - intros i x. apply os_same_guar, os_same_refl.
  - intros i j x y Hij. case_bool_decide as Hj; case_bool_decide as Hi'; simpl; try congruence; [done..|].
    apply os_same_step.
  - intros i p Hp. by apply Hps.
  - eapply Forall_impl; [exact Hw|]. intros [i e] Hie He. rewrite bool_decide_eq_true. auto.
  - assert (Hstep : os_step s s').
    { clear -Hrtc. induction Hrtc as [|x y z [j Hj] _ IH]; [apply os_step_refl|].
      eapply os_step_trans; [|exact IH]. destruct (bool_decide (j = w)); [done|by apply os_same_step]. }
    split_and!; [by apply Hstep|done|done].
Qed.
End OneShot.
