(* ===== verification/Sync.v ===== *)
(** * Masking interrupts while a lock is held: src/tvisor_util/sync.rs

    [LocalIrq] changes the interrupt mask of the executing CPU; [IrqSpinLock]
    masks interrupts, takes a [spin::Mutex], and unmasks after its release.
    The mutex is a third-party crate: what it does is the class [SpinMutex],
    with its documented behaviour as the laws of [SpinMutexLaws].  The theorem
    is about any number of CPUs using one lock in any interleaving. *)

From S2P Require Import Prelude Atomics.

(** The I bit of DAIF. *)
Definition IRQ_BIT : Z := Z.shiftl 1 7.

Section LocalIrq.
(** The mask register of the CPU that runs the program. *)
Context {L : Type} (daif : L).

Definition save_and_mask : prog L Z :=
  state <- load daif ;;
  _ <- store daif (Z.lor state IRQ_BIT) ;;
  Ret state.

(** Only I changes. *)
Definition restore (state : Z) : prog L unit :=
  now <- load daif ;;
  store daif (if Z.land state IRQ_BIT =? 0 then Z.ldiff now IRQ_BIT else Z.lor now IRQ_BIT).
End LocalIrq.

(** ** Following a program with an automaton

    [obeys next sees p Q st]: from state [st] every access of [p] is one [next]
    allows, provided the values read are ones [sees] says the thread can read,
    and a result satisfies [Q] with the state reached. *)
Section Automaton.
Context {L S : Type} `{EqDecision L} (next : S -> event L -> option S) (sees : S -> event L -> Prop).

Definition advance (st : S) (e : event L) (K : S -> Prop) : Prop :=
  sees st e -> exists st', next st e = Some st' /\ K st'.

Fixpoint obeys {A} (p : prog L A) (Q : A -> S -> Prop) (st : S) : Prop :=
  match p with
  | Ret a => Q a st
  | Load l k => forall v, advance st (ELoad l v) (fun st' => obeys (k v) Q st')
  | Store l v k => advance st (EStore l v) (fun st' => obeys k Q st')
  | Swap l v k => forall old, advance st (ESwap l old v) (fun st' => obeys (k old) Q st')
  | Cas l o n k =>
      advance st (ECasOk l o n) (fun st' => obeys (k (inl o)) Q st') /\
      forall v, v <> o -> advance st (ECasFail l o v) (fun st' => obeys (k (inr v)) Q st')
  | Input k => forall v, advance st (EInput v) (fun st' => obeys (k v) Q st')
  end.

Ltac to_advance := repeat (lazymatch goal with |- advance _ _ _ => fail | |- _ => intro end).

Lemma advance_mono st e (K K' : S -> Prop) : (forall st', K st' -> K' st') -> advance st e K -> advance st e K'.
Proof. intros H Ha Hs. destruct (Ha Hs) as (st' & E & Hk). eauto. Qed.

Lemma obeys_mono {A} (p : prog L A) (Q Q' : A -> S -> Prop) st :
  (forall a st, Q a st -> Q' a st) -> obeys p Q st -> obeys p Q' st.
Proof.
  intros H. revert st. induction p as [a|l k IH|l v k IH|l v k IH|l o n k IH|k IH]; cbn; intros st Ho; [auto|..].
  all: try (split; [destruct Ho as [Ho _]|destruct Ho as [_ Ho]]); to_advance;
    eapply advance_mono; try apply Ho; cbn; auto.
Qed.

Lemma obeys_bind {A B} (p : prog L A) (f : A -> prog L B) Q st :
  obeys p (fun a st' => obeys (f a) Q st') st -> obeys (pbind p f) Q st.
Proof.
  revert st. induction p as [a|l k IH|l v k IH|l v k IH|l o n k IH|k IH]; cbn; intros st Ho; [auto|..].
  all: try (split; [destruct Ho as [Ho _]|destruct Ho as [_ Ho]]); to_advance;
    eapply advance_mono; try apply Ho; cbn; auto.
Qed.

(** One access of a thread that obeys. *)
Lemma obeys_step {A} (p p' : prog L A) Q st e tr :
  obeys p Q st -> steps p (e :: tr) p' -> sees st e ->
  exists st' p1, next st e = Some st' /\ obeys p1 Q st' /\ steps p1 tr p'.
Proof.
  intros Ho Hs He. inversion Hs; subst; cbn [obeys] in Ho;
    first [destruct (Ho _ He) as (st' & E & Hk) | destruct (Ho He) as (st' & E & Hk)
          |destruct (proj1 Ho He) as (st' & E & Hk) | destruct (proj2 Ho _ ltac:(eassumption) He) as (st' & E & Hk)]; eauto.
Qed.
End Automaton.

(** ** The mutex *)

(** [spin::Mutex]: an attempt, a lock that spins through at most that many
    attempts (false: still spinning), and the release a dropped guard does;
    the accesses its code makes, and which of them take and free it. *)
Class SpinMutex (M : Type) := {
  mutex_try_lock : prog M bool;
  mutex_lock : nat -> prog M bool;
  mutex_unlock : prog M unit;
  accesses : event M -> bool;
  acquires : event M -> bool;
  releases : event M -> bool;
  mutex_free : memory M -> bool
}.

(** A thread may take the mutex when it does not hold it, and free it when it does. *)
Definition mutex_next `{SpinMutex M} (held : bool) (e : event M) : option bool :=
  match e with
  | EInput _ => Some held
  | _ =>
      if negb (accesses e) then None
      else if acquires e then (if held then None else Some true)
      else if releases e then (if held then Some false else None)
      else Some held
  end.

Notation mutex_obeys := (obeys mutex_next (fun _ _ => True)).

Class SpinMutexLaws (M : Type) `{EqDecision M, SpinMutex M} := {
  (** Taking succeeds only on a free mutex; nothing but a release frees it. *)
  acquires_free s e s' : apply_event s e = Some s' -> accesses e = true -> acquires e = true -> mutex_free s = true /\ mutex_free s' = false;
  releases_free s e s' : apply_event s e = Some s' -> accesses e = true -> acquires e = false -> releases e = true -> mutex_free s' = true;
  others_free s e s' : apply_event s e = Some s' -> accesses e = true -> acquires e = false -> releases e = false -> mutex_free s' = mutex_free s;
  free_ext s s' : (forall l, s l = s' l) -> mutex_free s = mutex_free s';
  (** The guard is returned exactly when the mutex was taken. *)
  try_lock_obeys : mutex_obeys mutex_try_lock (fun b held => held = b) false;
  lock_obeys n : mutex_obeys (mutex_lock n) (fun b held => held = b) false;
  unlock_obeys : mutex_obeys mutex_unlock (fun _ held => held = false) true
}.

(** ** The lock *)

Section Lock.
Context {M D : Type} `{EqDecision M, EqDecision D, SpinMutex M}.

(** The mask of each CPU, the mutex, and what it protects. *)
Inductive lock_loc := Daif (cpu : nat) | Mutex (l : M) | Data (l : D).

#[global] Instance lock_loc_eq_dec : EqDecision lock_loc.
Proof. solve_decision. Defined.

Section Cpu.
Context (cpu : nat).

(** [lock]: the guard holds the saved mask; [None] is a CPU that still spins. *)
Definition lock (attempts : nat) : prog lock_loc (option Z) :=
  saved <- save_and_mask (Daif cpu) ;;
  inner <- relocate Mutex (mutex_lock attempts) ;;
  Ret (if (inner : bool) then Some saved else None).

Definition try_lock : prog lock_loc (option Z) :=
  saved <- save_and_mask (Daif cpu) ;;
  inner <- relocate Mutex mutex_try_lock ;;
  if (inner : bool) then Ret (Some saved) else _ <- restore (Daif cpu) saved ;; Ret None.

(** [IrqGuard::drop]: release before restoring interrupts. *)
Definition guard_drop (saved : Z) : prog lock_loc unit :=
  _ <- relocate Mutex mutex_unlock ;; restore (Daif cpu) saved.

(** A CPU that uses the lock: by [lock] or by [try_lock], with what it does to
    the protected data.  False: it spins for a lock. *)
Fixpoint sections (attempts : nat) (uses : list (bool * prog D unit)) : prog lock_loc bool :=
  match uses with
  | [] => Ret true
  | (waits, body) :: rest =>
      guard <- (if (waits : bool) then lock attempts else try_lock) ;;
      match guard with
      | Some saved =>
          _ <- relocate Data body ;;
          _ <- guard_drop saved ;;
          sections attempts rest
      | None => if waits then Ret false else sections attempts rest
      end
  end.
End Cpu.

(** ** What each CPU keeps to *)

Definition mutex_event (e : event lock_loc) : option (event M) :=
  match e with
  | ELoad (Mutex l) v => Some (ELoad l v)
  | EStore (Mutex l) v => Some (EStore l v)
  | ESwap (Mutex l) o n => Some (ESwap l o n)
  | ECasOk (Mutex l) o n => Some (ECasOk l o n)
  | ECasFail (Mutex l) o v => Some (ECasFail l o v)
  | _ => None
  end.

(** An access to the protected data. *)
Definition data_event (e : event lock_loc) : bool :=
  match e with
  | ELoad (Data _) _ | EStore (Data _) _ | ESwap (Data _) _ _ | ECasOk (Data _) _ _ | ECasFail (Data _) _ _ => true
  | _ => false
  end.

(** Whether the CPU holds the mutex, and whether its interrupts are masked: the
    data are touched only when both hold. *)
Definition lock_next (cpu : nat) (st : bool * bool) (e : event lock_loc) : option (bool * bool) :=
  match mutex_event e with
  | Some e' => (fun held => (held, st.2)) <$> mutex_next st.1 e'
  | None =>
      if data_event e then (if st.1 && st.2 then Some st else None)
      else match e with
           | ELoad (Daif c) _ => if (c =? cpu)%nat then Some st else None
           | EStore (Daif c) v => if (c =? cpu)%nat then Some (st.1, Z.testbit v 7) else None
           | EInput _ => Some st
           | _ => None
           end
  end.

(** The CPU reads its own mask. *)
Definition lock_sees (cpu : nat) (st : bool * bool) (e : event lock_loc) : Prop :=
  match e with ELoad (Daif c) v => c = cpu -> Z.testbit v 7 = st.2 | _ => True end.

Notation lock_obeys_by cpu := (obeys (lock_next cpu) (lock_sees cpu)).

Lemma obeys_mutex {A} cpu (p : prog M A) (Q : A -> bool * bool -> Prop) held m :
  mutex_obeys p (fun a held' => Q a (held', m)) held -> lock_obeys_by cpu (relocate Mutex p) Q (held, m).
Proof.
  assert (Hone : forall (e : event M) (e' : event lock_loc) held (K : bool -> Prop) (K' : bool * bool -> Prop),
    lock_next cpu (held, m) e' = (fun h => (h, m)) <$> mutex_next held e -> (forall h, K h -> K' (h, m)) ->
    advance mutex_next (fun _ _ => True) held e K -> advance (lock_next cpu) (lock_sees cpu) (held, m) e' K').
  { intros e e' h K K' En HK Ha _. destruct (Ha I) as (h' & E & Hk). rewrite En, E. eauto. }
  revert held. induction p as [a|l k IH|l v k IH|l v k IH|l o n k IH|k IH]; cbn [obeys relocate]; intros held Hp; [done|..].
  all: try (split; [destruct Hp as [Hp _]|destruct Hp as [_ Hp]]);
    repeat lazymatch goal with |- advance _ _ _ _ _ => fail | |- _ => let x := fresh in intros x; specialize (Hp x) end;
    (refine (Hone _ _ _ _ _ _ _ Hp); [reflexivity|intros h; apply IH]).
Qed.

Lemma obeys_data {A} cpu (p : prog D A) (Q : A -> bool * bool -> Prop) :
  (forall a, Q a (true, true)) -> lock_obeys_by cpu (relocate Data p) Q (true, true).
Proof.
  intros HQ. induction p as [a|l k IH|l v k IH|l v k IH|l o n k IH|k IH]; cbn [obeys relocate]; [done|..].
  all: try split; repeat lazymatch goal with |- advance _ _ _ _ _ => fail | |- _ => intro end;
    intros _; eexists; (split; [reflexivity|apply IH]).
Qed.

Lemma irq_bit v : (Z.land v IRQ_BIT =? 0) = negb (Z.testbit v 7).
Proof. apply negb_sym. by rewrite <- (land_single_bit v 7). Qed.

Lemma mask_read cpu st v : lock_next cpu st (ELoad (Daif cpu) v) = Some st.
Proof. unfold lock_next. cbn [mutex_event data_event]. by rewrite Nat.eqb_refl. Qed.

Lemma mask_write cpu st v : lock_next cpu st (EStore (Daif cpu) v) = Some (st.1, Z.testbit v 7).
Proof. unfold lock_next. cbn [mutex_event data_event]. by rewrite Nat.eqb_refl. Qed.

Lemma obeys_save cpu (Q : Z -> bool * bool -> Prop) held m :
  (forall v, Z.testbit v 7 = m -> Q v (held, true)) -> lock_obeys_by cpu (save_and_mask (Daif cpu)) Q (held, m).
Proof.
  intros HQ v Hv. rewrite mask_read. eexists. split; [done|]. intros _. rewrite mask_write. eexists. split; [done|].
  rewrite Z.lor_spec, orb_true_r. by apply HQ, Hv.
Qed.

Lemma obeys_restore cpu (Q : unit -> bool * bool -> Prop) held m v :
  Q tt (held, Z.testbit v 7) -> lock_obeys_by cpu (restore (Daif cpu) v) Q (held, m).
Proof.
  intros HQ w Hw. rewrite mask_read. eexists. split; [done|]. intros _. rewrite mask_write. eexists. split; [done|].
  rewrite irq_bit. destruct (Z.testbit v 7); cbn [negb].
  - by rewrite Z.lor_spec, orb_true_r.
  - by rewrite Z.ldiff_spec, andb_false_r.
Qed.

Context `{!SpinMutexLaws M}.

Lemma obeys_guard cpu waits attempts (Q : option Z -> bool * bool -> Prop) m :
  (forall v, Z.testbit v 7 = m -> Q (Some v) (true, true)) ->
  Q None (false, if (waits : bool) then true else m) ->
  lock_obeys_by cpu (if waits then lock cpu attempts else try_lock cpu) Q (false, m).
Proof.
  intros Hs Hn. destruct waits; apply obeys_bind, obeys_save; intros v Hv; apply obeys_bind, obeys_mutex.
  - eapply obeys_mono; [|apply lock_obeys]. intros b held ->. destruct b; cbn; auto.
  - eapply obeys_mono; [|apply try_lock_obeys]. intros b held ->. destruct b; [by apply Hs|].
    apply obeys_bind, obeys_restore. cbn [obeys]. by rewrite Hv.
Qed.

Lemma obeys_sections cpu attempts uses m :
  lock_obeys_by cpu (sections cpu attempts uses) (fun b st => b = true -> st = (false, m)) (false, m).
Proof.
  induction uses as [|[waits body] rest IH]; cbn [sections]; [done|]. apply obeys_bind, obeys_guard.
  - intros v Hv. apply obeys_bind, obeys_data. intros _. apply obeys_bind, obeys_bind, obeys_mutex.
    eapply obeys_mono; [|apply unlock_obeys]. intros _ held ->. apply obeys_restore. by rewrite Hv.
  - destruct waits; [done|exact IH].
Qed.

(** ** All CPUs together *)

Definition hold_step (held : bool) (e : event lock_loc) : bool :=
  match mutex_event e with
  | Some e' => if acquires e' then true else if releases e' then false else held
  | None => held
  end.

(** Whether a CPU with these accesses holds the mutex. *)
Definition holds (held : bool) (tr : list (event lock_loc)) : bool := fold_left hold_step tr held.

Definition mutex_part (s : memory lock_loc) : memory M := fun l => s (Mutex l).

Record lock_inv (s : memory lock_loc) (st : nat -> bool * bool) : Prop := {
  li_busy i : (st i).1 = true -> mutex_free (mutex_part s) = false;
  li_one i j : (st i).1 = true -> (st j).1 = true -> i = j;
  li_mask i : Z.testbit (s (Daif i)) 7 = (st i).2
}.

Lemma mutex_apply s e s' e' : mutex_event e = Some e' -> apply_event s e = Some s' ->
  exists sm, apply_event (mutex_part s) e' = Some sm /\ (forall l, sm l = mutex_part s' l) /\ forall i, s' (Daif i) = s (Daif i).
Proof.
  assert (Hu : forall l v, (forall l', upd (mutex_part s) l v l' = mutex_part (upd s (Mutex l) v) l') /\
    forall i, upd s (Mutex l) v (Daif i) = s (Daif i)).
  { intros l v. split; [|intros i; by rewrite upd_ne]. intros l'. unfold mutex_part, upd. repeat destruct (decide _); congruence. }
  intros He Ha. destruct e as [[]|[]|[]|[]|[]|]; cbn in He; simplify_eq; cbn in Ha |- *; unfold mutex_part at 1;
    repeat case_match; simplify_eq; eexists; (split; [reflexivity|]); try apply Hu; done.
Qed.

Lemma mutex_kept s e s' : mutex_event e = None -> apply_event s e = Some s' -> forall l, mutex_part s' l = mutex_part s l.
Proof.
  intros He Ha l. unfold mutex_part. destruct e as [[]|[]|[]|[]|[]|]; cbn in He; simplify_eq; cbn in Ha;
    repeat case_match; simplify_eq; by rewrite ?upd_ne by done.
Qed.

Lemma seen s st i e s' : lock_inv s st -> apply_event s e = Some s' -> lock_sees i (st i) e.
Proof.
  intros Hi Ha. destruct e as [[c| |]| | | | |]; cbn in *; try done. intros ->. destruct (Z.eqb_spec (s (Daif i)) v); [|done].
  subst. apply Hi.
Qed.

Definition at_cpu {A} (st : nat -> A) (i : nat) (x : A) (j : nat) : A := if (j =? i)%nat then x else st j.

Lemma at_cpu_self {A} (st : nat -> A) i x : at_cpu st i x i = x.
Proof. unfold at_cpu. by rewrite Nat.eqb_refl. Qed.

(** The accesses to the mutex of one CPU decide who holds it. *)
Lemma mutex_step s e s' st i e' st' : lock_inv s st -> apply_event s e = Some s' -> mutex_event e = Some e' ->
  lock_next i (st i) e = Some st' -> lock_inv s' (at_cpu st i st') /\ st'.1 = hold_step (st i).1 e.
Proof.
  intros Hi Ha He Hn. destruct (mutex_apply _ _ _ _ He Ha) as (sm & Hm & Hs & Hd).
  assert (Hfree : mutex_free sm = mutex_free (mutex_part s')) by (by apply free_ext).
  assert (Hin : match e' with EInput _ => False | _ => True end) by (by destruct e as [[]|[]|[]|[]|[]|]; cbn in He; simplify_eq).
  unfold lock_next, hold_step in *. rewrite He in *. destruct st' as [h' m']. destruct (st i) as [h m] eqn:Est. cbn [fst snd] in *.
  assert (Hnext : mutex_next h e' = Some h' /\ m' = m) by (destruct (mutex_next h e'); cbn in Hn; by simplify_eq). clear Hn.
  destruct Hnext as [Hn ->]. unfold mutex_next in Hn.
  assert (Hmask : forall j, Z.testbit (s' (Daif j)) 7 = (at_cpu st i (h', m) j).2).
  { intros j. rewrite Hd, (li_mask _ _ Hi). unfold at_cpu. destruct (Nat.eqb_spec j i) as [->|]; [by rewrite Est|done]. }
  assert (Hacc : accesses e' = true) by (destruct e'; [| | | | |done]; destruct (accesses _); done).
  assert (Hcase : acquires e' = true /\ h = false /\ h' = true \/ acquires e' = false /\ releases e' = true /\ h = true /\ h' = false \/
    acquires e' = false /\ releases e' = false /\ h' = h).
  { destruct e'; [| | | | |done]; rewrite Hacc in Hn; destruct (acquires _), (releases _), h; cbn in Hn; simplify_eq; auto 6. }
  clear Hn. destruct Hcase as [(Eq & -> & ->)|[(Eq & Er & -> & ->)|(Eq & Er & ->)]]; rewrite Eq, ?Er; (split; [|done]).
  - destruct (acquires_free _ _ _ Hm Hacc Eq) as [Hf Hf']. assert (Hnone : forall j, (st j).1 = false).
    { intros j. destruct (st j).1 eqn:Ej; [|done]. rewrite (li_busy _ _ Hi j Ej) in Hf. done. }
    split; [intros j _; congruence| |done]. unfold at_cpu. intros j k.
    destruct (Nat.eqb_spec j i), (Nat.eqb_spec k i); rewrite ?Hnone; congruence.
  - assert (Hnone : forall j, (at_cpu st i (false, m) j).1 = true -> False).
    { intros j. unfold at_cpu. destruct (Nat.eqb_spec j i) as [|Hne]; [done|]. intros Hj. apply Hne, (li_one _ _ Hi); [done|by rewrite Est]. }
    split; [intros j Hj; by destruct (Hnone j)|intros j k Hj; by destruct (Hnone j)|done].
  - assert (Hsame : forall j, (at_cpu st i (h, m) j).1 = (st j).1).
    { intros j. unfold at_cpu. destruct (Nat.eqb_spec j i) as [->|]; [by rewrite Est|done]. }
    split; [| |done].
    + intros j. rewrite Hsame, <- Hfree, (others_free _ _ _ Hm Hacc Eq Er). apply (li_busy _ _ Hi).
    + intros j k. rewrite !Hsame. apply (li_one _ _ Hi).
Qed.

(** The other accesses leave it to whoever has it. *)
Lemma other_step s e s' st i st' : lock_inv s st -> apply_event s e = Some s' -> mutex_event e = None ->
  lock_next i (st i) e = Some st' -> lock_inv s' (at_cpu st i st') /\ st'.1 = hold_step (st i).1 e.
Proof.
  intros Hi Ha He Hn. assert (Hfree : mutex_free (mutex_part s') = mutex_free (mutex_part s)) by (by apply free_ext, (mutex_kept _ e)).
  assert (Hheld : st'.1 = (st i).1 /\ Z.testbit (s' (Daif i)) 7 = st'.2 /\ forall j, j <> i -> s' (Daif j) = s (Daif j)).
  { pose proof (li_mask _ _ Hi i). unfold lock_next in Hn. rewrite He in Hn.
    destruct e as [[]|[]|[]|[]|[]|]; cbn in Hn, Ha, He; repeat case_match; simplify_eq; bool_prop; subst; split_and!; try done;
      intros; rewrite ?upd_eq, ?upd_ne by congruence; done. }
  destruct Hheld as (Hh & Hm & Ho). unfold hold_step. rewrite He. split; [|done].
  assert (Hsame : forall j, (at_cpu st i st' j).1 = (st j).1).
  { intros j. unfold at_cpu. by destruct (Nat.eqb_spec j i) as [->|]. }
  split.
  - intros j. rewrite Hsame, Hfree. apply (li_busy _ _ Hi).
  - intros j k. rewrite !Hsame. apply (li_one _ _ Hi).
  - intros j. unfold at_cpu. destruct (Nat.eqb_spec j i) as [->|Hne]; [done|]. rewrite Ho by done. apply Hi.
Qed.

Lemma lock_step s e s' st i st' : lock_inv s st -> apply_event s e = Some s' -> lock_next i (st i) e = Some st' ->
  lock_inv s' (at_cpu st i st') /\ st'.1 = hold_step (st i).1 e.
Proof.
  intros. destruct (mutex_event e) eqn:He; [by eapply mutex_step|by eapply other_step].
Qed.

(** What holds at each access to the data: its CPU alone holds the mutex, and
    has its interrupts masked. *)
Definition exclusive (st : nat -> bool * bool) (s : memory lock_loc) (g : list (nat * event lock_loc)) : Prop :=
  forall g1 i e g2 s1, g = g1 ++ (i, e) :: g2 -> data_event e = true -> replay s (snd <$> g1) = Some s1 ->
    (forall j, holds (st j).1 (thread_events j g1) = bool_decide (j = i)) /\ Z.testbit (s1 (Daif i)) 7 = true.

Lemma exclusive_at st s i e st' : lock_inv s st -> lock_next i (st i) e = Some st' -> data_event e = true ->
  (forall j, (st j).1 = bool_decide (j = i)) /\ Z.testbit (s (Daif i)) 7 = true.
Proof.
  intros Hi Hn Hd. unfold lock_next in Hn. assert (Hm : mutex_event e = None) by (by destruct e as [[]|[]|[]|[]|[]|]).
  rewrite Hm, Hd in Hn. destruct (st i) as [[] []] eqn:Est; cbn in Hn; simplify_eq. rewrite (li_mask _ _ Hi), Est. split; [|done].
  intros j. case_bool_decide as Hj; [by rewrite Hj, Est|]. destruct (st j).1 eqn:Ej; [|done].
  destruct Hj. apply (li_one _ _ Hi); [done|by rewrite Est].
Qed.

Lemma sections_follow {A} (Q : nat -> A -> bool * bool -> Prop) g : forall s ps qs s' st,
  concurrent ps s g qs s' -> lock_inv s st -> (forall i p, ps !! i = Some p -> lock_obeys_by i p (Q i) (st i)) ->
  exclusive st s g /\
  exists st', lock_inv s' st' /\ (forall i q, qs !! i = Some q -> lock_obeys_by i q (Q i) (st' i)) /\
    forall i, (st' i).1 = holds (st i).1 (thread_events i g).
Proof.
  induction g as [|[i e] g IH]; intros s ps qs s' st Hc Hi Hp.
  { destruct Hc as [Hr _ Hs Hl]. cbn in Hr. injection Hr as <-. split; [by intros [] **|]. exists st. split_and!; [done| |done].
    intros i q Hq. destruct (lookup_lt_is_Some_2 ps i) as [p Hpi]; [rewrite <- Hl; by eapply lookup_lt_Some|].
    specialize (Hs i p q Hpi Hq). inversion Hs; subst. by apply Hp. }
  destruct Hc as [Hr Ht Hs Hl]. cbn in Hr. destruct (apply_event s e) as [s1|] eqn:Ha; [|done].
  apply Forall_cons in Ht as [Hlt Ht]. destruct (lookup_lt_is_Some_2 ps i Hlt) as [p Hpi].
  destruct (lookup_lt_is_Some_2 qs i ltac:(lia)) as [q Hqi]. pose proof (Hs i p q Hpi Hqi) as Hsi. cbn in Hsi.
  rewrite Nat.eqb_refl in Hsi.
  destruct (obeys_step _ _ _ _ _ _ _ _ (Hp i p Hpi) Hsi (seen _ _ _ _ _ Hi Ha)) as (st' & p1 & Hn & Ho & Hs1).
  destruct (lock_step _ _ _ _ _ _ Hi Ha Hn) as [Hi1 Hh].
  assert (Hj : forall j tr, holds (at_cpu st i st' j).1 tr = holds (st j).1 (if (i =? j)%nat then e :: tr else tr)).
  { intros j tr. unfold at_cpu. rewrite (Nat.eqb_sym j i). destruct (Nat.eqb_spec i j) as [->|]; [|done]. cbn. by rewrite Hh. }
  destruct (IH s1 (<[i := p1]> ps) qs s' (at_cpu st i st')) as (Hex & st2 & Hi2 & Ho2 & Hh2); [|done| |].
  - split; [done|eapply Forall_impl; [exact Ht|]; intros [j ej]; by rewrite length_insert| |by rewrite length_insert].
    intros j pj qj Hpj Hqj. pose proof Hpj as Hpj'. destruct (decide (j = i)) as [->|Hne].
    + rewrite list_lookup_insert_eq in Hpj by done. simplify_eq. done.
    + rewrite list_lookup_insert_ne in Hpj by done. specialize (Hs j pj qj Hpj Hqj). cbn in Hs.
      by rewrite (proj2 (Nat.eqb_neq i j)) in Hs.
  - intros j pj. destruct (decide (j = i)) as [->|Hne].
    + rewrite list_lookup_insert_eq by done. intros [= <-]. by rewrite at_cpu_self.
    + rewrite list_lookup_insert_ne by done. unfold at_cpu. rewrite (proj2 (Nat.eqb_neq j i)) by done. apply Hp.
  - split; [|exists st2; split_and!; [done|done|]; intros j; rewrite Hh2, Hj; cbn; by destruct (i =? j)%nat].
    intros [|[i0 e0] g1] k f g2 s2 Hg Hd Hrep; cbn in Hg, Hrep; simplify_eq.
    + by eapply exclusive_at.
    + rewrite Ha in Hrep. destruct (Hex g1 k f g2 s2 eq_refl Hd Hrep) as [Hall Hmask]. split; [|done].
      intros j. rewrite <- Hall, Hj. cbn. by destruct (_ =? _)%nat.
Qed.

(** C11 [irq_lock_exclusive]: CPUs that use one lock, by waiting or by trying, in
    any interleaving and from a free mutex, touch the protected data only
    while they alone hold the mutex and with their own interrupts masked, so
    neither another CPU nor a handler on the same one sees the data in
    between.  A CPU that is done holds nothing and has its interrupts masked
    exactly if they were at first, failed attempts included. *)
Theorem irq_lock_exclusive attempts cpus s g qs s' :
  concurrent (imap (fun i uses => sections i attempts uses) cpus) s g qs s' -> mutex_free (mutex_part s) = true ->
  exclusive (fun _ => (false, false)) s g /\
  forall i, qs !! i = Some (Ret true) ->
    holds false (thread_events i g) = false /\ Z.testbit (s' (Daif i)) 7 = Z.testbit (s (Daif i)) 7.
Proof.
  intros Hc Hf. set (st i := (false, Z.testbit (s (Daif i)) 7)).
  destruct (sections_follow (fun i b st' => b = true -> st' = st i) g s _ qs s' st Hc) as (Hex & st' & Hi & Hq & Hh).
  - by split.
  - intros i p. rewrite list_lookup_imap. destruct (cpus !! i) as [uses|]; [|done]. intros [= <-]. apply obeys_sections.
  - split; [exact Hex|]. intros i Hqi. specialize (Hq i _ Hqi eq_refl). rewrite (li_mask _ _ Hi), Hq.
    specialize (Hh i). rewrite Hq in Hh. done.
Qed.
End Lock.

(** ** A concrete lock *)

(** A flag taken by compare-and-exchange. *)
Definition flag_try_lock : prog unit bool :=
  r <- compare_exchange tt 0 1 ;; Ret (match r with inl _ => true | inr _ => false end).

Fixpoint flag_lock (attempts : nat) : prog unit bool :=
  match attempts with
  | O => Ret false
  | S n => taken <- flag_try_lock ;; if (taken : bool) then Ret true else flag_lock n
  end.

#[local] Instance flag_mutex : SpinMutex unit := {|
  mutex_try_lock := flag_try_lock;
  mutex_lock := flag_lock;
  mutex_unlock := store tt 0;
  accesses e := match e with ECasOk _ 0 1 | ECasFail _ 0 _ | EStore _ 0 => true | _ => false end;
  acquires e := match e with ECasOk _ _ _ => true | _ => false end;
  releases e := match e with EStore _ _ => true | _ => false end;
  mutex_free s := s tt =? 0
|}.

Lemma flag_obeys : mutex_obeys flag_try_lock (fun b held => held = b) false.
Proof. split; [intros _; exists true; by split|]. intros v _ _. exists false. by split. Qed.

#[local] Instance flag_laws : SpinMutexLaws unit.
Proof.
  split.
  - intros s [| | |[] [] []| |] s' Ha Hc Hq; cbn in *; try discriminate. destruct p; try discriminate.
    destruct (s tt =? 0); [|discriminate]. simplify_eq. done.
  - intros s [|[] []| | | |] s' Ha Hc Hq Hr; cbn in *; try discriminate. by simplify_eq.
  - intros s [|[] v|[] o n|[] o n|[] o v|v] s' Ha Hc Hq Hr; cbn in *; try discriminate.
    destruct (_ && _); [by simplify_eq|discriminate].
  - intros s s' Hs. cbn. by rewrite Hs.
  - exact flag_obeys.
  - intros n. induction n as [|n IH]; cbn [mutex_lock flag_mutex flag_lock]; [done|]. apply obeys_bind.
    eapply obeys_mono; [|apply flag_obeys]. intros [] held ->; [done|exact IH].
  - intros _. exists false. by split.
Qed.

(** CPU 0 takes the lock and writes while CPU 1 tries in vain, then waits. *)
Definition two_cpus : list (list (bool * prog unit unit)) :=
  [[(true, store tt 7)]; [(false, store tt 8); (true, store tt 9)]].

Definition two_turns : list (nat * Z) :=
  (fun i => (i, 0)) <$> [0; 0; 0; 1; 1; 1; 1; 1; 1; 1; 1; 0; 0; 0; 0; 1; 1; 1; 1; 1]%nat.

Lemma irq_lock_exclusive_witness :
  exists g qs s', concurrent (imap (fun i uses => sections i 2 uses) two_cpus) (fun _ => 0) g qs s' /\
    exclusive (fun _ => (false, false)) (fun _ => 0) g /\ s' (Data tt) = 9 /\ Z.testbit (s' (Daif 1)) 7 = false.
Proof.
  destruct (run_schedule (imap (fun i uses => sections i 2 uses) two_cpus) (fun _ => 0) two_turns) as [[[g qs] s']|] eqn:E;
    [|discriminate E].
  pose proof (run_schedule_sound _ _ _ _ _ _ E) as Hc.
  destruct (irq_lock_exclusive 2 two_cpus (fun _ => 0) g qs s' Hc eq_refl) as [Hex Hend].
  exists g, qs, s'. split; [exact Hc|]. split; [exact Hex|].
  assert (Hq : (fun '(g, qs, s') => (s' (Data tt), match qs with [Ret true; Ret true] => true | _ => false end)) <$>
    run_schedule (imap (fun i uses => sections i 2 uses) two_cpus) (fun _ => 0) two_turns = Some (9, true)) by (vm_compute; reflexivity).
  rewrite E in Hq. cbn [fmap option_fmap option_map] in Hq.
  injection Hq as Hd Hr. split; [exact Hd|]. destruct qs as [|[[]| | | | |] [|[[]| | | | |] []]]; try discriminate Hr.
  exact (proj2 (Hend 1%nat eq_refl)).
Defined.
