(* ===== verification/Failure.v ===== *)
(** * First-failure records: src/tvisor_util/failure.rs

    A [FailureRecord] keeps the first failure a CPU reports; readers take
    snapshots without waiting.  It is a one-shot publication whose gate and
    visibility are the same state word. *)

From S2P Require Import Prelude Atomics PublishOnce.

Record Failure := mkFailure { kind : Z; syndrome : Z; pc : Z; address : Z }.

(** The atomics of a [FatalState]: the flag, and the words of record [cpu]. *)
Inductive fail_loc :=
| FatalFlag
| RecState (cpu : nat)
| RecKind (cpu : nat)
| RecSyndrome (cpu : nat)
| RecPc (cpu : nat)
| RecAddress (cpu : nat).

#[global] Instance fail_loc_eq_dec : EqDecision fail_loc.
Proof. solve_decision. Defined.

Definition FatalState_new : memory fail_loc := fun _ => 0.

Definition record (cpu : nat) (f : Failure) : prog fail_loc unit :=
  r <- compare_exchange (RecState cpu) 0 1 ;;
  match r with
  | inr _ => Ret tt
  | inl _ =>
      _ <- store (RecKind cpu) (kind f) ;;
      _ <- store (RecSyndrome cpu) (syndrome f) ;;
      _ <- store (RecPc cpu) (pc f) ;;
      _ <- store (RecAddress cpu) (address f) ;;
      store (RecState cpu) 2
  end.

Definition snapshot (cpu : nat) : prog fail_loc (option Failure) :=
  st <- load (RecState cpu) ;;
  if negb (st =? 2) then Ret None
  else
    k <- load (RecKind cpu) ;;
    y <- load (RecSyndrome cpu) ;;
    p <- load (RecPc cpu) ;;
    a <- load (RecAddress cpu) ;;
    Ret (Some (mkFailure k y p a)).

(** [N] records; a CPU number out of range only sets the flag. *)
Definition FatalState_record (N cpu : nat) (f : Failure) : prog fail_loc unit :=
  _ <- store FatalFlag 1 ;;
  if (cpu <? N)%nat then record cpu f else Ret tt.

(** ** Callers *)

Inductive fop := FRecord (cpu : nat) (f : Failure) | FSnapshot (cpu : nat).

(** A snapshot's reply carries the CPU it was taken of. *)
Definition run_fop (N : nat) (o : fop) : prog fail_loc (option (nat * option Failure)) :=
  match o with
  | FRecord cpu f => _ <- FatalState_record N cpu f ;; Ret None
  | FSnapshot cpu => r <- snapshot cpu ;; Ret (Some (cpu, r))
  end.

Definition run_fops (N : nat) : list fop -> prog fail_loc (list (option (nat * option Failure))) :=
  run_all (run_fop N).

(** ** One record *)

Section Record.
Context (N cpu : nat) (threads : list (list fop)).

Definition failure_words (f : Failure) : list Z := [kind f; syndrome f; pc f; address f].

(** The failures some thread reports for this CPU. *)
Definition reported (f : Failure) : Prop :=
  exists os, os ∈ threads /\ FRecord cpu f ∈ os.

Definition reported_words (v : list Z) : Prop := exists f, v = failure_words f /\ reported f.

Lemma record_pub_fields (s : memory fail_loc) l v :
  l ∈ [RecKind cpu; RecSyndrome cpu; RecPc cpu; RecAddress cpu] ->
  upd s l v (RecState cpu) = 2 <-> s (RecState cpu) = 2.
Proof. intros Hl. rewrite upd_ne; [done|]. intros <-. set_solver. Qed.

Lemma record_gate_fresh : RecState cpu ∉ [RecKind cpu; RecSyndrome cpu; RecPc cpu; RecAddress cpu].
Proof. set_solver. Qed.

#[local] Instance record_oneshot : OneShot fail_loc := {
  os_gate := RecState cpu;
  os_fields := [RecKind cpu; RecSyndrome cpu; RecPc cpu; RecAddress cpu];
  os_pub s := s (RecState cpu) = 2;
  os_win e := match e with ECasOk (RecState c) 0 1 => bool_decide (c = cpu) | _ => false end;
  os_gate_fresh := record_gate_fresh;
  os_pub_fields := record_pub_fields
}.

(** Every access of a caller to the state word is one of these. *)
Definition state_access (e : event fail_loc) : Prop :=
  match e with
  | ECasOk (RecState _) o n => o = 0 /\ n = 1
  | ESwap (RecState _) _ _ => False
  | EStore (RecState _) v => v = 2
  | _ => True
  end.

Lemma emits_fop o : emits state_access (run_fop N o).
Proof. destruct o; cbn [run_fop]; unfold FatalState_record, record, snapshot; emits_go; done. Qed.

Definition records_left (s : memory fail_loc) : nat := if decide (s (RecState cpu) = 0) then 1 else 0.

Lemma records_left_step s e s' :
  state_access e -> apply_event s e = Some s' ->
  ((if os_win e then 1 else 0) + records_left s' <= records_left s)%nat.
Proof.
  unfold records_left. intros He E.
  destruct e as [l v|l v|l o n|l o n|l o v|v]; simpl in E; repeat case_match; simplify_eq; bool_prop;
    unfold os_win, upd in *; simpl in *; repeat case_decide; simplify_eq; try lia;
    repeat case_match; destruct_and?; simplify_eq; bool_prop; try done; try lia.
  all: match goal with H : bool_decide _ = true |- _ => apply bool_decide_eq_true in H end; congruence.
Qed.

Notation inv := (os_inv reported_words).
Notation otriple b p Q s := (os_triple reported_words b p Q s).

(** What a caller may conclude from a reply. *)
Definition sound_snapshot (r : option (nat * option Failure)) (s : memory fail_loc) : Prop :=
  forall f, r = Some (cpu, Some f) -> shows reported_words (failure_words f) s.

Lemma sound_snapshot_step r s s' :
  inv s -> os_step reported_words s s' -> sound_snapshot r s -> sound_snapshot r s'.
Proof. intros Hi Hs Hr f E. by eapply shows_step; [..|apply Hr]. Qed.

Lemma snapshot_triple b c s :
  inv s -> otriple b (snapshot c) (fun r s' => sound_snapshot (Some (c, r)) s') s.
Proof.
  intros Hi. unfold snapshot, load. cbn [pbind]. apply os_load; [done|]. intros s1 I1 _.
  destruct (Z.eqb_spec (s1 (RecState c)) 2) as [Hp|Hp]; cbn [negb pbind]; [|by apply os_ret].
  destruct (decide (c = cpu)) as [->|Hc].
  - pose proof (os_pub_shows _ s1 I1 Hp) as W1. cbn in W1.
    eapply (os_load_field _ _ 0); [done..|]. intros s2 I2 W2. eapply (os_load_field _ _ 1); [done..|]. intros s3 I3 W3.
    eapply (os_load_field _ _ 2); [done..|]. intros s4 I4 W4. eapply (os_load_field _ _ 3); [done..|]. intros s5 I5 W5.
    apply os_ret; [done|]. intros s6 I6 R6. eapply sound_snapshot_step; [exact I5|exact R6|]. by intros f [= <-].
  - do 4 (apply os_load; [done|]; intros ? ? _). apply os_ret; [done|]. by intros s2 _ _ f [= ? ?].
Qed.

(** A write to the words of another CPU, or to the flag. *)
Lemma write_foreign b s l v :
  l ∉ os_fields -> l <> os_gate -> os_guar reported_words b s (upd s l v).
Proof. intros Hf Hg. apply write_elsewhere; [done| |done]. cbn. by rewrite upd_ne. Qed.

(** The winner's writes. *)
Lemma record_winner f s :
  filling reported_words s -> reported f ->
  otriple true
    (_ <- store (RecKind cpu) (kind f) ;; _ <- store (RecSyndrome cpu) (syndrome f) ;;
     _ <- store (RecPc cpu) (pc f) ;; _ <- store (RecAddress cpu) (address f) ;;
     store (RecState cpu) 2) (fun _ s' => inv s') s.
Proof.
  intros F Hf. unfold store. cbn [pbind].
  apply os_fill; [set_solver|done|]. intros s3 F3 E3 _.
  apply os_fill; [set_solver|done|]. intros s4 F4 E4 K4.
  apply os_fill; [set_solver|done|]. intros s5 F5 E5 K5.
  apply os_fill; [set_solver|done|]. intros s6 F6 E6 K6.
  intros s7 R7 _. pose proof (filling_same _ _ _ F6 R7) as F7.
  assert (G8 : os_step reported_words s7 (upd s7 (RecState cpu) 2)).
  { apply write_publish; [exact record_gate_fresh|done| |cbn; by rewrite upd_eq].
    exists f. split; [|done]. cbn. destruct R7 as (K7 & _). rewrite !K7 by set_solver. unfold failure_words.
    rewrite E6, (K6 (RecPc cpu)), E5, (K6 (RecSyndrome cpu)), (K5 (RecSyndrome cpu)), E4 by set_solver.
    by rewrite (K6 (RecKind cpu)), (K5 (RecKind cpu)), (K4 (RecKind cpu)), E3 by set_solver. }
  split; [exact G8|]. apply os_ret; [|done]. by apply G8, F7.
Qed.

Lemma record_triple b c f s :
  inv s -> (c = cpu -> reported f) -> otriple b (record c f) (fun _ s' => inv s') s.
Proof.
  intros Hi Hf. unfold record, compare_exchange. cbn [pbind].
  intros s1 R1. pose proof (os_rely_inv _ _ _ _ Hi R1) as I1.
  destruct (Z.eqb_spec (s1 (RecState c)) 0) as [H0|H0].
  2: { intros _. by apply os_ret. }
  destruct (decide (c = cpu)) as [->|Hc].
  - intros Hwin. assert (b = true) as -> by (apply Hwin; cbn; by rewrite bool_decide_true).
    assert (G2 : os_step reported_words s1 (upd s1 (RecState cpu) 1)).
    { intros _. unfold os_inv. cbn. rewrite upd_eq. split_and!; [done|lia|done]. }
    split; [exact G2|]. apply record_winner; [|auto].
    split_and!; [by apply G2|cbn; by rewrite upd_eq..].
  - intros _. assert (Hw : forall l v s, l ∈ [RecState c; RecKind c; RecSyndrome c; RecPc c; RecAddress c] ->
      os_guar reported_words b s (upd s l v)).
    { intros l v s0 Hl. apply write_foreign; cbn; set_solver. }
    split; [apply Hw; set_solver|]. unfold store. cbn [pbind].
    assert (I2 : inv (upd s1 (RecState c) 1)) by (eapply os_guar_inv; [done|]; apply Hw; set_solver).
    do 5 (apply os_store; [done|intros; apply Hw; set_solver|clear I2; intros ? I2]). by apply os_ret.
Qed.

Lemma fop_triple b o s :
  inv s -> (forall f, o = FRecord cpu f -> reported f) -> otriple b (run_fop N o) sound_snapshot s.
Proof.
  intros Hi Ho. destruct o as [c f|c]; cbn [run_fop].
  - eapply os_bind with (P := fun _ s' => inv s'); [done| |intros [] s1 I1 _ _; apply os_ret; [done|]; by intros s2 _ _ f' [=]].
    unfold FatalState_record, store. cbn [pbind].
    apply os_store; [done|intros; apply write_foreign; cbn; set_solver|]. intros s1 I1.
    destruct (_ <? _)%nat; [|by apply os_ret]. apply record_triple; [done|]. intros ->. auto.
  - eapply os_bind; [done|by apply snapshot_triple|]. intros r s1 I1 _ Hr. apply os_ret; [done|].
    intros s2 I2 R2. by apply (sound_snapshot_step _ s1 s2).
Qed.

Lemma record_inv_new : inv FatalState_new.
Proof. done. Qed.

(** C40 [failure_snapshot_untorn]: any threads report failures and take snapshots
    of any CPUs, interleaved arbitrarily. A snapshot of a CPU that shows a
    failure shows one that some thread reported for that CPU, whole, and the
    record holds it ever after: so all snapshots of the CPU that show one show
    the same. *)
Theorem failure_snapshot_untorn g qs s' :
  concurrent (run_fops N <$> threads) FatalState_new g qs s' ->
  forall i rs f, qs !! i = Some (Ret rs) -> Some (cpu, Some f) ∈ rs ->
    reported f /\ s' (RecState cpu) = 2 /\
    f = mkFailure (s' (RecKind cpu)) (s' (RecSyndrome cpu)) (s' (RecPc cpu)) (s' (RecAddress cpu)).
Proof.
  intros Hc i rs f Hi Hin.
  destruct (os_parallel reported_words (fun _ rs s' => Forall (fun r => sound_snapshot r s') rs)
    (run_fops N <$> threads) FatalState_new g qs s') as (_ & _ & HQ); [apply record_inv_new| | |done|].
  - change 1%nat with (records_left FatalState_new).
    eapply replay_count_le; [apply records_left_step| |apply Hc].
    eapply concurrent_emits; [|exact Hc]. apply Forall_fmap, Forall_true. intros os. apply emits_run_all, emits_fop.
  - intros b j p Hp. rewrite list_lookup_fmap in Hp. destruct (threads !! j) as [os|] eqn:Ho; [|done].
    apply (inj Some) in Hp as <-. apply os_run_all; [apply sound_snapshot_step| |apply record_inv_new].
    intros o s Hin' Hs. apply fop_triple; [done|]. intros f' ->. exists os. split; [by eapply list_elem_of_lookup_2|done].
  - pose proof (HQ i rs Hi) as Hrs. rewrite Forall_forall in Hrs.
    destruct (Hrs _ Hin f eq_refl) as (Hp & Hw & f' & E & Hrep).
    assert (f' = f) as -> by (destruct f, f'; unfold failure_words in E; simpl in E; congruence).
    split_and!; [done|done|]. unfold failure_words in Hw. destruct f; cbn in *. congruence.
Qed.
End Record.

(** ** A concrete execution *)

Definition data_abort : Failure := mkFailure 4 0x96000010 0x80080000 0x9000000.
Definition report_and_look : list (list fop) := [[FRecord 0 data_abort]; [FSnapshot 0]].

Lemma failure_snapshot_untorn_witness :
  exists g qs s', concurrent (run_fops 2 <$> report_and_look) FatalState_new g qs s' /\
    qs !! 1%nat = Some (Ret [Some (0%nat, Some data_abort)]) /\ s' (RecState 0) = 2.
Proof.
  destruct (run_schedule (run_fops 2 <$> report_and_look) FatalState_new (replicate 7 (0%nat, 0) ++ replicate 5 (1%nat, 0)))
    as [[[g qs] s']|] eqn:E; [|by vm_compute in E].
  pose proof (run_schedule_sound _ _ _ _ _ _ E) as Hc.
  assert (Hq : qs !! 1%nat = Some (Ret [Some (0%nat, Some data_abort)]))
    by (vm_compute in E; injection E as <- <- <-; reflexivity).
  exists g, qs, s'. split_and!; [done|done|].
  apply (failure_snapshot_untorn 2 0 report_and_look g qs s' Hc 1 _ data_abort Hq). set_solver.
Defined.
