(* ===== verification/El2Policy.v ===== *)
(** * Host EL2 register policy: src/tvisor_util/el2_policy.rs

    The translation policy of the host (checked construction of the root table
    and the TCR value), the register constants, and the one-time publication
    of the configuration the secondary CPUs boot with. *)

From S2P Require Import Prelude Page Atomics PublishOnce.

(** ** Register values: src/tvisor_util/aarch64_reg.rs *)

Definition TCR_EL2_RES1 : Z := Z.lor (Z.shiftl 1 31) (Z.shiftl 1 23).
Definition TCR_EL2_T0SZ_FOR_VA_39_BIT : Z := 64 - 39.
Definition TCR_EL2_IRGN0_MEM_WB_RA_WA : Z := Z.shiftl 1 8.
Definition TCR_EL2_ORGN0_MEM_WB_RA_WA : Z := Z.shiftl 1 10.
Definition TCR_EL2_SH0_INNER_SHAREABLE : Z := Z.shiftl 3 12.

Definition MAIR_NORMAL_WB_WA : Z := 0xff.
Definition MAIR_DEVICE_NGNRE : Z := 0x04.
Definition MAIR_EL2_VALUE : Z :=
  Z.lor (Z.shiftl MAIR_NORMAL_WB_WA (0 * 8)) (Z.shiftl MAIR_DEVICE_NGNRE (1 * 8)).

(** ** Host and guest controls *)

Definition HCR_RW : Z := Z.shiftl 1 31.
Definition HCR_IMO : Z := Z.shiftl 1 4.
Definition HCR_VM : Z := 1.
Definition HCR_SWIO : Z := Z.shiftl 1 1.
Definition HCR_TSC : Z := Z.shiftl 1 19.
Definition HOST_HCR : Z := Z.lor HCR_RW HCR_IMO.
Definition GUEST_HCR_ADDITIONS : Z := Z.lor (Z.lor HCR_VM HCR_SWIO) HCR_TSC.
Definition GUEST_HCR : Z := Z.lor HOST_HCR GUEST_HCR_ADDITIONS.
Definition CPTR_RES1 : Z := Z.lor (Z.shiftl 3 12) 0x3ff.
Definition HOST_CPTR : Z := CPTR_RES1.
Definition HOST_HSTR : Z := 0.
Definition HOST_VTTBR : Z := 0.
Definition HOST_CNTVOFF : Z := 0.
Definition HOST_CNTHCTL : Z := 3.
Definition DISABLED_TIMER_CTL : Z := 0.
Definition SCTLR_RES1 : Z :=
  Z.lor (Z.shiftl 3 28) (Z.lor (Z.shiftl 3 22) (Z.lor (Z.shiftl 1 18)
    (Z.lor (Z.shiftl 1 16) (Z.lor (Z.shiftl 1 11) (Z.shiftl 3 4))))).
Definition HOST_SCTLR : Z :=
  Z.lor SCTLR_RES1 (Z.lor (Z.shiftl 1 0) (Z.lor (Z.shiftl 1 2) (Z.lor (Z.shiftl 1 3)
    (Z.lor (Z.shiftl 1 12) (Z.shiftl 1 19))))).
Definition HOST_MAIR : Z := MAIR_EL2_VALUE.
Definition MASKED_DAIF : Z := 0x3c0.

(** ** The translation policy *)

Inductive PolicyError := UnsupportedPaRange | InvalidRoot.

Record HostTranslation := mkTranslation { ht_root : Z; ht_tcr : Z }.

(** The [tcr] expression of [new]. *)
Definition policy_tcr (pa_range : Z) : Z :=
  Z.lor TCR_EL2_RES1 (Z.lor TCR_EL2_T0SZ_FOR_VA_39_BIT (Z.lor TCR_EL2_IRGN0_MEM_WB_RA_WA
    (Z.lor TCR_EL2_ORGN0_MEM_WB_RA_WA (Z.lor TCR_EL2_SH0_INNER_SHAREABLE (Z.shiftl pa_range 16))))).

Definition HostTranslation_new (root pa_range : Z) : outcome PolicyError HostTranslation :=
  reject (5 <? pa_range) with UnsupportedPaRange in
  let? bits := arr_get [32; 36; 40; 42; 44; 48] (Z.to_nat pa_range) in
  reject (root =? 0) || negb (Z.land root 4095 =? 0) || negb (Z.shiftr root bits =? 0) with InvalidRoot in
  Ok (mkTranslation root (policy_tcr pa_range)).

Record HostEl2Config := mkConfig { mair : Z; tcr : Z; root : Z; sctlr : Z }.

Definition config_of (p : HostTranslation) : HostEl2Config :=
  mkConfig HOST_MAIR (ht_tcr p) (ht_root p) HOST_SCTLR.

(** ** One-time publication of the configuration *)

Inductive config_loc := ConfigClaimed | ConfigReady | CMair | CTcr | CRoot | CSctlr.

#[global] Instance config_loc_eq_dec : EqDecision config_loc.
Proof. solve_decision. Defined.

Definition HostEl2ConfigStorage_new : memory config_loc := fun _ => 0.

Inductive ConfigError := AlreadyPublished.

Definition config_publish (p : HostTranslation) : prog config_loc (outcome ConfigError unit) :=
  old <- swap ConfigClaimed 1 ;;
  if negb (old =? 0) then Ret (Err AlreadyPublished)
  else
    _ <- store CMair (mair (config_of p)) ;;
    _ <- store CTcr (tcr (config_of p)) ;;
    _ <- store CRoot (root (config_of p)) ;;
    _ <- store CSctlr (sctlr (config_of p)) ;;
    _ <- store ConfigReady 1 ;;
    Ret (Ok tt).

(** The reference [get] returns, read by its caller field by field. *)
Definition config_get : prog config_loc (option HostEl2Config) :=
  r <- load ConfigReady ;;
  if negb (r =? 1) then Ret None
  else
    m <- load CMair ;;
    t <- load CTcr ;;
    o <- load CRoot ;;
    c <- load CSctlr ;;
    Ret (Some (mkConfig m t o c)).

Inductive cop := CPublish (p : HostTranslation) | CGet.

Definition run_cop (o : cop) : prog config_loc (option (option HostEl2Config)) :=
  match o with
  | CPublish p => _ <- config_publish p ;; Ret None
  | CGet => r <- config_get ;; Ret (Some r)
  end.

Definition run_cops : list cop -> prog config_loc (list (option (option HostEl2Config))) := run_all run_cop.

(** ** The policy is well formed *)

(** The TCR fields of a policy: 39-bit region, write-back inner-shareable walks,
    4 KiB granule, the required ones, and the physical range. *)
Definition tcr_fields (t pa_range : Z) : Prop :=
  field t 0 6 = 25 /\ field t 8 2 = 1 /\ field t 10 2 = 1 /\ field t 12 2 = 3 /\ field t 14 2 = 0 /\
  field t 16 3 = pa_range /\ Z.testbit t 31 = true /\ Z.testbit t 23 = true.

Definition bits_of_range (pa_range : Z) : Z := nth (Z.to_nat pa_range) [32; 36; 40; 42; 44; 48] 0.

(** The six ranges one by one. *)
Ltac case_range H :=
  match type of H with 0 <= ?x <= 5 =>
    assert (x = 0 \/ x = 1 \/ x = 2 \/ x = 3 \/ x = 4 \/ x = 5) as [->|[->|[->|[->|[->| ->]]]]] by lia
  end.

Lemma bits_of_range_nonneg pa_range : 0 <= pa_range <= 5 -> 0 <= bits_of_range pa_range.
Proof. intros H. by case_range H. Qed.

Lemma policy_tcr_fields pa_range : 0 <= pa_range <= 5 -> tcr_fields (policy_tcr pa_range) pa_range.
Proof.
  intros H. by case_range H; vm_compute.
Qed.

Lemma HostTranslation_new_Ok r pa_range p :
  0 <= pa_range -> HostTranslation_new r pa_range = Ok p <->
  pa_range <= 5 /\ r <> 0 /\ Z.land r 4095 = 0 /\ Z.shiftr r (bits_of_range pa_range) = 0 /\
  p = mkTranslation r (policy_tcr pa_range).
Proof.
  intros H0. unfold HostTranslation_new. destruct (5 <? pa_range) eqn:H5; bool_prop; [naive_solver lia|].
  assert (arr_get (E := PolicyError) [32; 36; 40; 42; 44; 48] (Z.to_nat pa_range) = Ok (bits_of_range pa_range)) as ->.
  { assert (H : 0 <= pa_range <= 5) by lia. by case_range H. }
  cbn [obind]. destruct (_ || _) eqn:Hb.
  - split; [done|]. intros (_ & A & B & C & _). bool_prop. lia.
  - bool_prop. split; [intros [= <-]; tauto|]. by intros (_ & _ & _ & _ & ->).
Qed.

(** [host_translation_sound]: an accepted policy has a page-aligned, non-null root
    below the physical address limit of its range, and a TCR value with a
    39-bit region, write-back inner-shareable walks, a 4 KiB granule, the
    required ones and exactly that range in its size field. Constructing the
    policy again from its root and TCR gives the same policy, which is how a
    published configuration is validated. *)
Lemma host_translation_sound r pa_range p :
  0 <= r -> 0 <= pa_range -> HostTranslation_new r pa_range = Ok p ->
  ht_root p = r /\ r <> 0 /\ r mod PAGE_SIZE = 0 /\ r < 2 ^ bits_of_range pa_range /\
  tcr_fields (ht_tcr p) pa_range /\
  HostTranslation_new (ht_root p) (Z.land (Z.shiftr (ht_tcr p) 16) 7) = Ok p.
Proof.
  intros Hr Hp Hn. pose proof Hn as (H5 & H0 & Ha & Hs & ->)%HostTranslation_new_Ok; [|done]. cbn [ht_root ht_tcr].
  pose proof (policy_tcr_fields pa_range ltac:(lia)) as Ht. split_and!; [done|done| | |done|].
  - change 4095 with (Z.ones 12) in Ha. by rewrite Z.land_ones in Ha.
  - pose proof (bits_of_range_nonneg pa_range ltac:(lia)).
    rewrite Z.shiftr_div_pow2 in Hs by done. apply Z.div_small_iff in Hs; lia.
  - destruct Ht as (_ & _ & _ & _ & _ & Hf & _). unfold field in Hf. change (Z.ones 3) with 7 in Hf. by rewrite Hf.
Qed.

(** ** Publication *)

Section Config.
Context (threads : list (list cop)).

Definition config_words (c : HostEl2Config) : list Z := [mair c; tcr c; root c; sctlr c].

(** The configurations some thread publishes. *)
Definition offered (c : HostEl2Config) : Prop :=
  exists os p, os ∈ threads /\ CPublish p ∈ os /\ c = config_of p.

Definition offered_words (v : list Z) : Prop := exists c, v = config_words c /\ offered c.

Lemma config_pub_fields (s : memory config_loc) l v :
  l ∈ [CMair; CTcr; CRoot; CSctlr] -> upd s l v ConfigReady = 1 <-> s ConfigReady = 1.
Proof. intros Hl. rewrite upd_ne; [done|]. intros <-. set_solver. Qed.

Lemma config_gate_fresh : ConfigClaimed ∉ [CMair; CTcr; CRoot; CSctlr].
Proof. set_solver. Qed.

#[local] Instance config_oneshot : OneShot config_loc := {
  os_gate := ConfigClaimed;
  os_fields := [CMair; CTcr; CRoot; CSctlr];
  os_pub s := s ConfigReady = 1;
  os_win e := match e with ESwap ConfigClaimed 0 1 => true | _ => false end;
  os_gate_fresh := config_gate_fresh;
  os_pub_fields := config_pub_fields
}.

Definition claim_access (e : event config_loc) : Prop :=
  match e with
  | ESwap ConfigClaimed _ n => n = 1
  | ECasOk ConfigClaimed _ _ | EStore ConfigClaimed _ => False
  | _ => True
  end.

Lemma emits_cop o : emits claim_access (run_cop o).
Proof. destruct o; cbn [run_cop]; unfold config_publish, config_get; emits_go; done. Qed.

Definition publications_left (s : memory config_loc) : nat := if decide (s ConfigClaimed = 0) then 1 else 0.

Lemma publications_left_step s e s' :
  claim_access e -> apply_event s e = Some s' ->
  ((if os_win e then 1 else 0) + publications_left s' <= publications_left s)%nat.
Proof.
  unfold publications_left. intros He E.
  destruct e as [l v|l v|l o n|l o n|l o v|v]; simpl in E; repeat case_match; simplify_eq; bool_prop;
    unfold os_win, upd in *; simpl in *; repeat case_decide; simplify_eq; try lia;
    repeat case_match; destruct_and?; simplify_eq; try done; try lia.
Qed.

Notation inv := (os_inv offered_words).
Notation otriple b p Q s := (os_triple offered_words b p Q s).

Definition sound_config (r : option (option HostEl2Config)) (s : memory config_loc) : Prop :=
  forall c, r = Some (Some c) -> shows offered_words (config_words c) s.

Lemma sound_config_step r s s' :
  inv s -> os_step offered_words s s' -> sound_config r s -> sound_config r s'.
Proof. intros Hi Hs Hr c E. by eapply shows_step; [..|apply Hr]. Qed.

Lemma config_get_triple b s : inv s -> otriple b config_get (fun r s' => sound_config (Some r) s') s.
Proof.
  intros Hi. unfold config_get, load. cbn [pbind]. apply os_load; [done|]. intros s1 I1 _.
  destruct (Z.eqb_spec (s1 ConfigReady) 1) as [Hp|Hp]; cbn [negb pbind]; [|by apply os_ret].
  pose proof (os_pub_shows _ s1 I1 Hp) as W1. cbn in W1.
  eapply (os_load_field _ _ 0); [done..|]. intros s2 I2 W2. eapply (os_load_field _ _ 1); [done..|]. intros s3 I3 W3.
  eapply (os_load_field _ _ 2); [done..|]. intros s4 I4 W4. eapply (os_load_field _ _ 3); [done..|]. intros s5 I5 W5.
  apply os_ret; [done|]. intros s6 I6 R6. eapply sound_config_step; [exact I5|exact R6|]. by intros c [= <-].
Qed.

Lemma config_winner p s :
  filling offered_words s -> offered (config_of p) ->
  otriple true
    (_ <- store CMair (mair (config_of p)) ;; _ <- store CTcr (tcr (config_of p)) ;;
     _ <- store CRoot (root (config_of p)) ;; _ <- store CSctlr (sctlr (config_of p)) ;;
     _ <- store ConfigReady 1 ;; Ret (Ok tt : outcome ConfigError unit)) (fun _ s' => inv s') s.
Proof.
  intros F Hf. unfold store. cbn [pbind].
  apply os_fill; [set_solver|done|]. intros s3 F3 E3 _.
  apply os_fill; [set_solver|done|]. intros s4 F4 E4 K4.
  apply os_fill; [set_solver|done|]. intros s5 F5 E5 K5.
  apply os_fill; [set_solver|done|]. intros s6 F6 E6 K6.
  intros s7 R7 _. pose proof (filling_same _ _ _ F6 R7) as F7.
  assert (G8 : os_step offered_words s7 (upd s7 ConfigReady 1)).
  { apply write_publish; [cbn; set_solver|done| |].
    - exists (config_of p). split; [|done]. cbn. destruct R7 as (K7 & _). rewrite !K7 by set_solver.
      unfold config_words. rewrite E6, (K6 CRoot), E5, (K6 CTcr), (K5 CTcr), E4 by set_solver.
      by rewrite (K6 CMair), (K5 CMair), (K4 CMair), E3 by set_solver.
    - cbn. rewrite upd_ne by done. apply F7. }
  split; [exact G8|]. apply os_ret; [|done]. by apply G8, F7.
Qed.

Lemma config_publish_triple b p s :
  inv s -> offered (config_of p) -> otriple b (config_publish p) (fun _ s' => inv s') s.
Proof.
  intros Hi Hf. unfold config_publish, swap. cbn [pbind].
  intros s1 R1 Hwin. pose proof (os_rely_inv _ _ _ _ Hi R1) as I1.
  assert (HG : os_guar offered_words b s1 (upd s1 ConfigClaimed 1)).
  { apply write_elsewhere; [exact config_gate_fresh|cbn; by rewrite upd_ne|done]. }
  split; [exact HG|]. pose proof (os_guar_inv _ _ _ _ I1 HG) as I2.
  destruct (Z.eqb_spec (s1 ConfigClaimed) 0) as [H0|H0]; cbn [negb]; [|by apply os_ret].
  rewrite H0 in Hwin. rewrite (Hwin eq_refl) in *. apply config_winner; [|done].
  split_and!; [done| |cbn; by rewrite upd_eq]. cbn. rewrite upd_ne by done. intros Hp. by apply (I1 Hp).
Qed.

Lemma cop_triple b o s :
  inv s -> (forall p, o = CPublish p -> offered (config_of p)) -> otriple b (run_cop o) sound_config s.
Proof.
  intros Hi Ho. destruct o as [p|]; cbn [run_cop].
  - eapply os_bind with (P := fun _ s' => inv s'); [done|apply config_publish_triple; auto|].
    intros r s1 I1 _ _. apply os_ret; [done|]. by intros s2 _ _ c [=].
  - eapply os_bind; [done|by apply config_get_triple|]. intros r s1 I1 _ Hr. apply os_ret; [done|].
    intros s2 I2 R2. by apply (sound_config_step _ s1 s2).
Qed.

Lemma config_inv_new : inv HostEl2ConfigStorage_new.
Proof. done. Qed.

(** [host_config_published_once]: any threads publish policies and read the
    configuration, interleaved arbitrarily. A reader that gets a configuration
    gets the complete one of a single publisher, and the storage holds it ever
    after, so that all CPUs boot with the same registers. *)
Lemma host_config_published_once g qs s' :
  concurrent (run_cops <$> threads) HostEl2ConfigStorage_new g qs s' ->
  forall i rs c, qs !! i = Some (Ret rs) -> Some (Some c) ∈ rs ->
    offered c /\ s' ConfigReady = 1 /\ c = mkConfig (s' CMair) (s' CTcr) (s' CRoot) (s' CSctlr).
Proof.
  intros Hc i rs c Hi Hin.
  destruct (os_parallel offered_words (fun _ rs s' => Forall (fun r => sound_config r s') rs)
    (run_cops <$> threads) HostEl2ConfigStorage_new g qs s') as (_ & _ & HQ); [apply config_inv_new| | |done|].
  - change 1%nat with (publications_left HostEl2ConfigStorage_new).
    eapply replay_count_le; [apply publications_left_step| |apply Hc].
    eapply concurrent_emits; [|exact Hc]. apply Forall_fmap, Forall_true. intros os. apply emits_run_all, emits_cop.
  - intros b j p Hp. rewrite list_lookup_fmap in Hp. destruct (threads !! j) as [os|] eqn:Ho; [|done].
    apply (inj Some) in Hp as <-. apply os_run_all; [apply sound_config_step| |apply config_inv_new].
    intros o s Hin' Hs. apply cop_triple; [done|]. intros p' ->. exists os, p'.
    split_and!; [by eapply list_elem_of_lookup_2|done|done].
  - pose proof (HQ i rs Hi) as Hrs. rewrite Forall_forall in Hrs.
    destruct (Hrs _ Hin c eq_refl) as (Hp & Hw & c' & E & Hoff).
    assert (c' = c) as -> by (destruct c, c'; unfold config_words in E; simpl in E; congruence).
    split_and!; [done|done|]. unfold config_words in Hw. destruct c; cbn in *. congruence.
Qed.
End Config.

(** ** Concrete instances *)

Definition sample_policy : HostTranslation := mkTranslation 0x80000000 (policy_tcr 4).

Definition publish_and_read : list (list cop) := [[CPublish sample_policy]; [CGet; CGet]].

