(* ===== verification/Pcpu.v ===== *)
(** * Per-CPU slots and stacks: src/tvisor_util/pcpu.rs

    Each CPU has a slot whose context is written once by whoever prepares it
    and read by other CPUs afterwards; a slot is announced to its CPU through
    the mailbox.  The same file lays out the guarded stacks of the secondary
    CPUs, maps and validates them, and allocates them with rollback. *)

From S2P Require Import Prelude Page SystemInfo PageAllocator.
From S2P Require Import El2Stage1 Atomics PublishOnce SecondaryMailbox El2Policy.

(** src/tvisor_util/cpu_topology.rs *)
Definition MAX_CPUS : nat := 4.
Definition MPIDR_AFFINITY_MASK : Z := 0x000000ff00ffffff.

Inductive StartupMethod := Missing | Unsupported | SpinTable (release_address : Z) | Psci.

Record CpuDescriptor := mkCpu {
  cpu_affinity : Z;
  cpu_enabled : bool;
  cpu_logical_id : option nat;
  cpu_startup : StartupMethod
}.

(** ** Stack layout *)

Definition STACK_SIZE : Z := 64 * 1024.
Definition GUARD_SIZE : Z := PAGE_SIZE.
Definition STACK_ALLOCATION_SIZE : Z := GUARD_SIZE + STACK_SIZE.
Definition STACK_ALLOCATION_PAGES : nat := Z.to_nat (STACK_ALLOCATION_SIZE / PAGE_SIZE).

Record StackLayout := mkStack { guard_start : Z; bottom : Z; top : Z }.

#[global] Instance StackLayout_eq_dec : EqDecision StackLayout.
Proof. solve_decision. Defined.

Definition stack_layout (base : Z) : outcome TranslationError StackLayout :=
  reject negb (Z.land base (PAGE_SIZE - 1) =? 0) with InvalidateParameter in
  let? b := ok_or (checked_add base GUARD_SIZE) AddressOverflow in
  let? t := ok_or (checked_add b STACK_SIZE) AddressOverflow in
  Ok (mkStack base b t).

(** The addresses of [(a..b).step_by(PAGE_SIZE)]. *)
Definition page_steps (a b : Z) : list Z :=
  (fun k => a + Z.of_nat k * PAGE_SIZE) <$> seq 0 (Z.to_nat ((b - a + PAGE_SIZE - 1) / PAGE_SIZE)).

Definition stack_mapping (stack : StackLayout) : Mapping :=
  mkMapping (bottom stack) (bottom stack) STACK_SIZE Normal true false.

Fixpoint validate_guard (tables : TableSet) (addresses : list Z) : outcome TranslationError unit :=
  match addresses with
  | [] => Ok tt
  | address :: rest =>
      let? w := walk tables address in
      reject (match w with Some _ => true | None => false end) with Unexpected in
      validate_guard tables rest
  end.

Fixpoint validate_pages (tables : TableSet) (addresses : list Z) : outcome TranslationError unit :=
  match addresses with
  | [] => Ok tt
  | address :: rest =>
      let? w := walk tables address in
      let? mapping := ok_or w Unexpected in
      reject negb (t_pa mapping =? address) || negb (t_writable mapping) || t_executable mapping ||
          negb (bool_decide (t_type mapping = Normal)) with Unexpected in
      validate_pages tables rest
  end.

(** The subtraction of [stack.top - 1] is checked. *)
Definition validate_stack (tables : TableSet) (stack : StackLayout) : outcome TranslationError unit :=
  let? _ := validate_guard tables (page_steps (guard_start stack) (bottom stack)) in
  let? last := sub64 (top stack) 1 in
  validate_pages tables (page_steps (bottom stack) (top stack) ++ [last]).

Definition map_stack (stack : StackLayout) : stateful TableSet TranslationError unit :=
  let! _ := TableSet_map (stack_mapping stack) in
  stry (fun tables => validate_stack tables stack).

(** ** Allocating the stacks *)

Record SecondaryStack := mkSecondaryStack {
  ss_logical_id : nat;
  ss_affinity : Z;
  ss_layout : StackLayout
}.

Section Allocation.
Context (B : nat).

(** The CPUs the loop visits. *)
Definition needs_stack (cpu : CpuDescriptor) : bool :=
  cpu_enabled cpu && negb (bool_decide (cpu_logical_id cpu = Some 0%nat)).

(** The closure: it updates the allocator and the list, also when it fails. *)
Fixpoint allocate_loop (cpus : list CpuDescriptor) :
  stateful (PageAllocator * FixedList SecondaryStack) AllocatorError unit :=
  match cpus with
  | [] => sret tt
  | cpu :: rest =>
      let! id := slift (ok_or (cpu_logical_id cpu) PageAllocator.InvalidateParameter) in
      let! base := fun st =>
        match allocate_contiguous B (fst st) STACK_ALLOCATION_PAGES with
        | Ok (base, allocator) => (Ok base, (allocator, snd st))
        | Err e => (Err e, st)
        | Panic => (Panic, st)
        end in
      let! layout := slift (match stack_layout base with Ok l => Ok l | _ => Panic end) in
      let! _ := fun st =>
        match FixedList_push MAX_CPUS (snd st) (mkSecondaryStack id (cpu_affinity cpu) layout) with
        | Ok l => (Ok tt, (fst st, l))
        | _ => (Panic, st)
        end in
      allocate_loop rest
  end.

Fixpoint free_pages (addresses : list Z) : stateful PageAllocator AllocatorError unit :=
  match addresses with
  | [] => sret tt
  | address :: rest =>
      let! _ := supdate (fun allocator => free B allocator address) in free_pages rest
  end.

Fixpoint free_stacks (stacks : list SecondaryStack) : stateful PageAllocator AllocatorError unit :=
  match stacks with
  | [] => sret tt
  | stack :: rest =>
      let! _ := free_pages (page_steps (guard_start (ss_layout stack)) (top (ss_layout stack))) in
      free_stacks rest
  end.

Definition allocate_secondary_stacks (cpus : list CpuDescriptor) :
  stateful PageAllocator AllocatorError (FixedList SecondaryStack) :=
  fun allocator =>
    match allocate_loop (List.filter needs_stack cpus) (allocator, FixedList_new MAX_CPUS) with
    | (Ok _, (a, stacks)) => (Ok stacks, a)
    | (Err error, (a, stacks)) =>
        (let! l := slift (FixedList_iter stacks) in let! _ := free_stacks l in sfail error) a
    | (Panic, (a, _)) => (Panic, a)
    end.
End Allocation.

(** ** Slots *)

(** Snapshot of the immutable context fields; [context] is the context's address. *)
Record CpuIdentity := mkIdentity {
  id_logical_id : Z;
  id_affinity : Z;
  id_stack_bottom : Z;
  id_stack_top : Z;
  id_context : Z
}.

(** The words of [PcpuContext]. *)
Inductive ctx_field := HostSp | ActiveVcpu | LogicalId | Affinity | StackBottom | StackTop | Present.

#[global] Instance ctx_field_eq_dec : EqDecision ctx_field.
Proof. solve_decision. Defined.

(** The memory of a [PcpuSlot]: the claim, the mailbox and the context. *)
Inductive slot_loc := SlotClaimed | Mail (l : mailbox_loc) | Ctx (f : ctx_field).

#[global] Instance slot_loc_eq_dec : EqDecision slot_loc.
Proof. solve_decision. Defined.

Definition PcpuSlot_new : memory slot_loc := fun _ => 0.

Inductive SlotError :=
| InvalidPreparation | AlreadyPrepared | InvalidPreparationLifecycle
| NotPrepared | InvalidConfiguration | StartupAlreadyPublished.

Definition map_err {L E F A} (p : prog L (outcome E A)) (e : F) : prog L (outcome F A) :=
  r <- p ;; Ret (match r with Ok a => Ok a | Err _ => Err e | Panic => Panic end).

(** The argument check of [prepare]. *)
Definition invalid_preparation (id : nat) (affinity : Z) (stack : StackLayout) : bool :=
  (MAX_CPUS <=? id)%nat || negb (Z.land affinity (not64 MPIDR_AFFINITY_MASK) =? 0) || (bottom stack =? 0) ||
  match stack_layout (guard_start stack) with Ok l => negb (bool_decide (l = stack)) | _ => true end.

Definition prepare (id : nat) (affinity : Z) (stack : StackLayout) :
  prog slot_loc (outcome SlotError unit) :=
  if invalid_preparation id affinity stack then Ret (Err InvalidPreparation)
  else
    old <- swap SlotClaimed 1 ;;
    if negb (old =? 0) then Ret (Err AlreadyPrepared)
    else
      _ <- store (Ctx HostSp) 0 ;;
      _ <- store (Ctx ActiveVcpu) 0 ;;
      _ <- store (Ctx LogicalId) (Z.of_nat id) ;;
      _ <- store (Ctx Affinity) affinity ;;
      _ <- store (Ctx StackBottom) (bottom stack) ;;
      _ <- store (Ctx StackTop) (top stack) ;;
      _ <- store (Ctx Present) 1 ;;
      map_err (relocate Mail mark_prepared) InvalidPreparationLifecycle.

Definition is_prepared : prog slot_loc (outcome SlotError bool) :=
  r <-? relocate Mail lifecycle ;; Ret (Ok (negb (bool_decide (r = Offline)))).

(** [address] is where the context lies. *)
Definition identity (address : Z) : prog slot_loc (outcome SlotError (option CpuIdentity)) :=
  p <-? is_prepared ;;
  if negb p then Ret (Ok None)
  else
    l <- load (Ctx LogicalId) ;;
    a <- load (Ctx Affinity) ;;
    b <- load (Ctx StackBottom) ;;
    t <- load (Ctx StackTop) ;;
    Ret (Ok (Some (mkIdentity l a b t address))).

(** The configuration check of [publish_startup]. *)
Definition valid_config (c : HostEl2Config) : bool :=
  (mair c =? HOST_MAIR) && (sctlr c =? HOST_SCTLR) &&
  match HostTranslation_new (root c) (as_u8 (Z.land (Z.shiftr (tcr c) 16) 7)) with
  | Ok p => ht_tcr p =? tcr c
  | _ => false
  end.

Definition publish_startup (address generation : Z) (config : HostEl2Config) :
  prog slot_loc (outcome SlotError unit) :=
  i <-? identity address ;;
  match i with
  | None => Ret (Err NotPrepared)
  | Some identity =>
      if (id_logical_id identity =? 0) || negb (valid_config config)
      then Ret (Err InvalidConfiguration)
      else map_err (relocate Mail (SecondaryMailbox.publish generation)) StartupAlreadyPublished
  end.

Record StartupView := mkView {
  view_identity : CpuIdentity;
  view_config : HostEl2Config;
  view_generation : Z;
  view_slot_address : Z
}.

(** The context is the slot's first field, so both have the same address. *)
Definition startup_view (address generation : Z) (config : HostEl2Config) :
  prog slot_loc (outcome SlotError (option StartupView)) :=
  ready <- relocate Mail (observe_ready generation) ;;
  if negb (ready : bool) then Ret (Ok None)
  else
    i <-? identity address ;;
    Ret (Ok (match i with
             | Some identity => Some (mkView identity config generation address)
             | None => None
             end)).

(** [find_slot_by_affinity] over the identities of the slots, in order. *)
Fixpoint find_affinity (ids : list (option CpuIdentity)) (affinity : Z) (index : nat) (found : option nat) :
  option nat :=
  match ids with
  | [] => found
  | i :: rest =>
      if (match i with Some identity => id_affinity identity =? affinity | None => false end) then
        match found with
        | Some _ => None
        | None => find_affinity rest affinity (S index) (Some index)
        end
      else find_affinity rest affinity (S index) found
  end.

Definition find_slot_by_affinity (ids : list (option CpuIdentity)) (mpidr : Z) : option nat :=
  if (MAX_CPUS <? length ids)%nat then None
  else find_affinity ids (Z.land mpidr MPIDR_AFFINITY_MASK) 0 None.

(** [PcpuContext::matches_secondary] on the words of a context. *)
Definition matches_secondary (c : ctx_field -> Z) (id affinity bottom top : Z) : bool :=
  (0 <? id) && (id <? Z.of_nat MAX_CPUS) && (c Present =? 1) && (c LogicalId =? id) &&
  (c Affinity =? affinity) && (c StackBottom =? bottom) && (c StackTop =? top) &&
  (c HostSp =? 0) && (c ActiveVcpu =? 0).

(** src/src/pcpu.rs: what the boot CPU asserts of its own slot outside a world
    switch; the registers are arguments. *)
Definition assert_boot_cpu_idle (address tpidr mpidr sp : Z) : prog slot_loc (outcome SlotError unit) :=
  if negb (tpidr =? address) then Ret Panic
  else
    id <- load (Ctx LogicalId) ;;
    if negb (id =? 0) then Ret Panic
    else
      a <- load (Ctx Affinity) ;;
      if negb (a =? Z.land mpidr MPIDR_AFFINITY_MASK) then Ret Panic
      else
        present <- load (Ctx Present) ;;
        if negb (present =? 1) then Ret Panic
        else
          active <- load (Ctx ActiveVcpu) ;;
          if negb (active =? 0) then Ret Panic
          else
            saved <- load (Ctx HostSp) ;;
            bottom <- load (Ctx StackBottom) ;;
            top <- load (Ctx StackTop) ;;
            Ret (if ((saved =? 0) || ((bottom <=? saved) && (saved <? top) && (Z.land saved 15 =? 0)))
                    && ((bottom <=? sp) && (sp <? top)) then Ok tt else Panic).

(** ** Stacks are guarded *)

Lemma stack_layout_Ok base stack :
  stack_layout base = Ok stack ->
  base mod PAGE_SIZE = 0 /\ guard_start stack = base /\ bottom stack = base + PAGE_SIZE /\
  top stack = base + PAGE_SIZE + STACK_SIZE /\ base + PAGE_SIZE + STACK_SIZE < 2 ^ 64.
Proof.
  unfold stack_layout. destruct (_ =? 0) eqn:Ha; cbn [negb]; [|done].
  apply Z.eqb_eq in Ha. change (PAGE_SIZE - 1) with (2 ^ 12 - 1) in Ha. rewrite land_pow2_pred in Ha by done.
  destruct (checked_add base _) as [b|] eqn:Hb; cbn [ok_or obind]; [|done].
  destruct (checked_add b _) as [t|] eqn:Ht; cbn [ok_or obind]; [|done].
  apply checked_add_Some in Hb as [-> Hb], Ht as [-> Ht]. intros [= <-].
  unfold GUARD_SIZE in *. split_and!; done.
Qed.

Lemma page_steps_elem a b x :
  x ∈ page_steps a b -> a <= x < b /\ exists k, x = a + Z.of_nat k * PAGE_SIZE.
Proof.
  unfold page_steps. intros (k & -> & Hk%elem_of_seq)%list_elem_of_fmap. split; [|by exists k].
  assert (Hk' : Z.of_nat k < (b - a + PAGE_SIZE - 1) / PAGE_SIZE) by lia. unfold PAGE_SIZE in *.
  pose proof (Z.mul_div_le (b - a + 0x1000 - 1) 0x1000 ltac:(lia)). lia.
Qed.

Lemma validate_guard_Ok ts l :
  (forall x, x ∈ l -> walk ts x = Ok None) -> validate_guard ts l = Ok tt.
Proof.
  induction l as [|x l IH]; intros H; cbn [validate_guard]; [done|].
  rewrite H by set_solver. cbn [obind]. apply IH. set_solver.
Qed.

(** The translation a stack page must have. *)
Definition stack_page (ts : TableSet) (x : Z) : Prop :=
  exists level, walk ts x = Ok (Some (El2Stage1.mkTranslation x Normal true false level)).

Lemma validate_pages_Ok ts l :
  (forall x, x ∈ l -> stack_page ts x) -> validate_pages ts l = Ok tt.
Proof.
  induction l as [|x l IH]; intros H; cbn [validate_pages]; [done|].
  destruct (H x) as [level ->]; [set_solver|]. cbn [obind ok_or t_pa t_writable t_executable t_type].
  rewrite Z.eqb_refl, bool_decide_true by done. cbn. apply IH. set_solver.
Qed.

(** [map_stack_guarded]: mapping a stack laid out by [stack_layout] on a well-formed
    table set whose guard page is unmapped succeeds exactly when its table
    entries can be made: the validation that follows never rejects it. Then
    every byte of the stack is mapped to itself, writable and not executable,
    the guard page stays unmapped, and no other address changes. *)
Lemma map_stack_guarded ts base stack :
  wf ts -> 0 <= base -> stack_layout base = Ok stack ->
  (forall va, guard_start stack <= va < bottom stack -> walk ts va = Ok None) ->
  map_stack stack ts = TableSet_map (stack_mapping stack) ts /\
  match map_stack stack ts with
  | (Ok _, ts') =>
      wf ts' /\ forall va, va_ok va ->
        if (bottom stack <=? va) && (va <? top stack) then stack_page ts' va
        else walk ts' va = walk ts va
  | (Err _, ts') => wf ts'
  | (Panic, _) => False
  end.
Proof.
  intros Hwf H0 Hl Hguard. destruct (stack_layout_Ok _ _ Hl) as (Hal & Hg & Hb & Ht & Hmax).
  unfold STACK_SIZE, PAGE_SIZE in *.
  destruct (TableSet_map (stack_mapping stack) ts) as [r ts'] eqn:E.
  pose proof (TableSet_map_effect ts (stack_mapping stack) r ts' Hwf) as Heff.
  cbn [m_va m_pa m_size stack_mapping] in Heff. unfold STACK_SIZE in Heff.
  destruct Heff as [Hwf' Heff]; [split; lia..|done|].
  unfold map_stack, sbind. rewrite E. destruct r as [[]|e|]; [|by split|done].
  assert (Hend : bottom stack + 64 * 1024 <= 2 ^ 39).
  { pose proof (validate_mapping_ok ts (stack_mapping stack) Hwf) as Hv. unfold TableSet_map, sbind at 1, stry in E.
    destruct (validate_mapping _ _); [|done..]. apply Hv. }
  assert (Hpage : forall va, bottom stack <= va < top stack -> stack_page ts' va).
  { intros va Hva. specialize (Heff va). unfold va_ok in Heff.
    rewrite (proj2 (Z.leb_le _ _)), (proj2 (Z.ltb_lt _ _)) in Heff by lia.
    destruct Heff as (level & _ & Hw); [lia|]. exists level. rewrite Hw. cbn. by rewrite Zplus_minus. }
  assert (Hsame : forall va, va_ok va -> ~ (bottom stack <= va < top stack) -> walk ts' va = walk ts va).
  { intros va Hva Hn. specialize (Heff va Hva).
    destruct (_ && _) eqn:Hc in Heff; [|done]. bool_prop. lia. }
  unfold stry, validate_stack. rewrite validate_guard_Ok.
  2: { intros x [Hx _]%page_steps_elem. rewrite Hsame; [by apply Hguard|split; lia|lia]. }
  cbn [obind]. rewrite sub64_ok by lia. cbn [obind]. rewrite validate_pages_Ok.
  2: { intros x [Hx|Hx]%elem_of_app; apply Hpage; [by apply page_steps_elem in Hx as [? _]|set_solver by lia]. }
  split; [done|]. split; [done|]. intros va Hva. destruct (_ && _) eqn:Hc; bool_prop; [by apply Hpage|].
  apply Hsame; [done|lia].
Qed.

(** ** Allocation with rollback *)

Section AllocationSpec.
Context (B : nat) (HB : aperture_end B < 2 ^ 64).
Notation ok := (alloc_ok B).

Definition page_addr (p : nat) : Z := Z.of_nat p * PAGE_SIZE.

(** The pages of a stack, guard included. *)
Definition stack_pages (st : SecondaryStack) : list nat :=
  seq (Z.to_nat (guard_start (ss_layout st) / PAGE_SIZE)) STACK_ALLOCATION_PAGES.

Definition well_laid (st : SecondaryStack) : Prop :=
  exists p, stack_layout (page_addr p) = Ok (ss_layout st).

Definition all_pages (sts : list SecondaryStack) : list nat := concat (stack_pages <$> sts).

(** [al] is [al0] with exactly the pages [ps] taken from it. *)
Record taken (al0 al : PageAllocator) (ps : list nat) : Prop := {
  tk_ok : ok al;
  tk_managed : managed al = managed al0;
  tk_ram : ram_pages al = ram_pages al0;
  tk_nodup : NoDup ps;
  tk_free i : i ∈ ps -> (i < page_count B)%nat /\ pstate al0 i = Unused;
  tk_state i : pstate al i = if decide (i ∈ ps) then InUse else pstate al0 i
}.

Lemma well_laid_pages st :
  well_laid st -> page_steps (guard_start (ss_layout st)) (top (ss_layout st)) = page_addr <$> stack_pages st.
Proof.
  intros [p Hp]. destruct (stack_layout_Ok _ _ Hp) as (_ & Hg & _ & Ht & _).
  unfold page_steps, stack_pages. rewrite Hg, Ht. unfold page_addr.
  rewrite Z.div_mul, Nat2Z.id by done.
  replace (Z.to_nat _) with STACK_ALLOCATION_PAGES.
  2: { replace (Z.of_nat p * PAGE_SIZE + PAGE_SIZE + STACK_SIZE - Z.of_nat p * PAGE_SIZE + PAGE_SIZE - 1)
         with (PAGE_SIZE + STACK_SIZE + PAGE_SIZE - 1) by lia. done. }
  assert (seq p STACK_ALLOCATION_PAGES = Nat.add p <$> seq 0 STACK_ALLOCATION_PAGES) as ->.
  { by rewrite fmap_add_seq, Nat.add_0_r. }
  rewrite <- list_fmap_compose. apply list_fmap_ext. intros _ k _. unfold compose, page_addr. lia.
Qed.

Lemma free_pages_app l1 l2 al :
  free_pages B (l1 ++ l2) al = (let! _ := free_pages B l1 in free_pages B l2) al.
Proof.
  revert al. induction l1 as [|x l1 IH]; intros al; cbn [free_pages app]; [done|].
  unfold sbind in *. destruct (supdate _ al) as [[[]| |] a]; try done; apply IH.
Qed.

Lemma free_stacks_pages sts al :
  Forall well_laid sts -> free_stacks B sts al = free_pages B (page_addr <$> all_pages sts) al.
Proof.
  intros Hw. revert al. induction Hw as [|st sts Hst Hw IH]; intros al; [done|].
  unfold all_pages. cbn [fmap list_fmap concat free_stacks]. change (list_fmap _ _ ?f ?l) with (f <$> l).
  rewrite fmap_app, free_pages_app, well_laid_pages by done. unfold sbind at 1 2.
  destruct (free_pages B _ al) as [[[]| |] a]; try done; apply IH.
Qed.

(** Giving the taken pages back restores the allocator. *)
Lemma free_taken al0 al ps : ok al0 -> taken al0 al ps -> free_pages B (page_addr <$> ps) al = (Ok tt, al0).
Proof using HB.
  intros H0. revert al. induction ps as [|p ps IH]; intros al [Hok Hm Hr Hnd Hf Hst].
  { cbn. unfold sret. f_equal. apply (alloc_ext B); try done. }
  apply NoDup_cons in Hnd as [Hp Hnd]. destruct (Hf p) as [Hlt Hu]; [set_solver|].
  destruct (free_in_use B HB al p Hok Hlt) as (al' & E & Hok' & Hm' & Hr' & Ht').
  { rewrite Hst, decide_True by set_solver. done. }
  change (page_addr <$> p :: ps) with (page_addr p :: (page_addr <$> ps)). cbn [free_pages].
  unfold sbind, supdate. change (page_addr p) with (Z.of_nat p * PAGE_SIZE). rewrite E. apply IH. split; [done|congruence|congruence|done| |].
  - intros i Hi. apply Hf. set_solver.
  - intros i. rewrite Ht', Hst. destruct (Nat.eqb_spec i p) as [->|Hne].
    + by rewrite decide_False.
    + apply decide_ext. set_solver.
Qed.

Lemma taken_nil al : ok al -> taken al al [].
Proof. intros H. split; try done; [constructor|set_solver]. Qed.

(** One more run of pages. *)
Lemma taken_app al0 al ps p n al' :
  taken al0 al ps -> (p + n <= page_count B)%nat -> all_unused al p n -> allocated B al p n al' ->
  managed al' = managed al -> taken al0 al' (ps ++ seq p n).
Proof.
  intros [Hok Hm Hr Hnd Hf Hst] Hle Hun (Hok' & Hr' & Hst') Hm'.
  assert (Hdis : forall i, i ∈ seq p n -> i ∉ ps).
  { intros i Hi%elem_of_seq Hin. specialize (Hun i Hi). rewrite Hst, decide_True in Hun by done. done. }
  split; [done|congruence|congruence| | |].
  - apply NoDup_app. split_and!; [done|set_solver|apply NoDup_seq].
  - intros i [Hi|Hi]%elem_of_app; [by apply Hf|]. pose proof (Hdis i Hi). apply elem_of_seq in Hi as Hi'.
    split; [lia|]. specialize (Hun i Hi'). by rewrite Hst, decide_False in Hun.
  - intros i. rewrite Hst', Hst.
    destruct (decide (i ∈ seq p n)) as [Hi|Hi]; pose proof Hi as Hi'; rewrite elem_of_seq in Hi'.
    + rewrite (decide_True (P := i ∈ ps ++ _)) by set_solver.
      by rewrite (proj2 (Nat.leb_le _ _)), (proj2 (Nat.ltb_lt _ _)) by lia.
    + destruct (Nat.leb_spec p i), (Nat.ltb_spec i (p + n)); cbn [andb]; try lia; apply decide_ext; set_solver.
Qed.

Definition stack_for (cpu : CpuDescriptor) (st : SecondaryStack) : Prop :=
  cpu_logical_id cpu = Some (ss_logical_id st) /\ ss_affinity st = cpu_affinity cpu /\ well_laid st.

Lemma all_pages_snoc sts st : all_pages (sts ++ [st]) = all_pages sts ++ stack_pages st.
Proof. unfold all_pages. rewrite fmap_app, concat_app. cbn. by rewrite app_nil_r. Qed.

(** The layout of an allocated run. *)
Lemma stack_layout_run p :
  (p + STACK_ALLOCATION_PAGES <= page_count B)%nat ->
  exists l, stack_layout (page_addr p) = Ok l /\ guard_start l = page_addr p.
Proof using HB.
  intros Hp. change STACK_ALLOCATION_PAGES with 17%nat in Hp. unfold aperture_end, PAGE_SIZE in HB.
  unfold stack_layout, page_addr. change (PAGE_SIZE - 1) with (2 ^ 12 - 1). rewrite land_pow2_pred by done.
  rewrite Z.mod_mul by done. cbn [Z.eqb negb].
  assert (Hadd : forall a b, a + b < 2 ^ 64 -> checked_add a b = Some (a + b)) by (intros; by apply checked_add_Some).
  rewrite Hadd by (unfold GUARD_SIZE, PAGE_SIZE; lia). cbn [ok_or obind].
  rewrite Hadd by (unfold GUARD_SIZE, STACK_SIZE, PAGE_SIZE; lia).
  cbn [ok_or obind]. eauto.
Qed.

Lemma allocate_loop_spec al0 cpus xs al fl :
  taken al0 al (all_pages xs) -> fl_rep MAX_CPUS fl xs -> Forall well_laid xs ->
  (length xs + length cpus <= MAX_CPUS)%nat ->
  let '(r, (al', fl')) := allocate_loop B cpus (al, fl) in
  exists ys, taken al0 al' (all_pages (xs ++ ys)) /\ fl_rep MAX_CPUS fl' (xs ++ ys) /\
    Forall well_laid (xs ++ ys) /\
    match r with
    | Ok _ => Forall2 stack_for cpus ys
    | Err e => e = PageAllocator.Exhausted \/
               e = PageAllocator.InvalidateParameter /\ Exists (fun c => cpu_logical_id c = None) cpus
    | Panic => False
    end.
Proof using HB.
  revert xs al fl. induction cpus as [|cpu cpus IH]; intros xs al fl Htk Hfl Hw Hlen; cbn [allocate_loop].
  { exists []. rewrite app_nil_r. by split_and!. }
  unfold sbind at 1, slift. destruct (cpu_logical_id cpu) as [id|] eqn:Hid; cbn [ok_or].
  2: { exists []. rewrite app_nil_r. split_and!; [done..|]. right. split; [done|]. by constructor. }
  unfold sbind at 1. cbn [fst snd].
  pose proof (allocate_contiguous_post B HB al STACK_ALLOCATION_PAGES (tk_ok _ _ _ Htk) ltac:(vm_compute; lia)) as Hp.
  destruct (allocate_contiguous B al STACK_ALLOCATION_PAGES) as [[base al1]|e|] eqn:Ea; [|..|done].
  2: { exists []. rewrite app_nil_r. split_and!; [done..|]. left. apply Hp. }
  destruct Hp as (p & -> & Hle & Hun & _ & Hal).
  destruct (stack_layout_run p Hle) as (l & El & Hg). change (Z.of_nat p * PAGE_SIZE) with (page_addr p).
  rewrite El. unfold sbind at 1 2. cbn [fst snd].
  set (st := mkSecondaryStack id (cpu_affinity cpu) l).
  pose proof (push_refines MAX_CPUS fl xs st Hfl) as Hpush. simpl in Hlen.
  destruct (_ =? _)%nat eqn:Hfull in Hpush; [apply Nat.eqb_eq in Hfull; lia|].
  destruct Hpush as (fl1 & -> & Hfl1).
  assert (Hst : well_laid st) by (by exists p).
  specialize (IH (xs ++ [st]) al1 fl1). destruct (allocate_loop B cpus (al1, fl1)) as [r [al' fl']].
  destruct IH as (ys & H1 & H2 & H3 & H4).
  - rewrite all_pages_snoc. unfold stack_pages. cbn [ss_layout st]. rewrite Hg. unfold page_addr.
    rewrite Z.div_mul, Nat2Z.id by done. apply (taken_app _ al); try done. by eapply allocate_managed.
  - done.
  - apply Forall_app. split; [done|]. by constructor.
  - rewrite length_app. simpl. lia.
  - exists (st :: ys). rewrite <- app_assoc in H1, H2, H3. split_and!; [done..|].
    destruct r as [|e|]; [by constructor| |done]. destruct H4 as [?|[? ?]]; [by left|right; split; [done|by right]].
Qed.

Lemma allocate_secondary_stacks_effect al cpus :
  ok al -> (length cpus <= MAX_CPUS)%nat ->
  match allocate_secondary_stacks B cpus al with
  | (Ok fl, al') =>
      exists sts, fl_rep MAX_CPUS fl sts /\ Forall2 stack_for (List.filter needs_stack cpus) sts /\
        taken al al' (all_pages sts)
  | (Err e, al') => al' = al
  | (Panic, _) => False
  end.
Proof using HB.
  intros Hok Hlen. unfold allocate_secondary_stacks.
  pose proof (allocate_loop_spec al (List.filter needs_stack cpus) [] al (FixedList_new MAX_CPUS)
    (taken_nil al Hok) (fl_rep_new _) (Forall_nil_2 _)) as Hl.
  destruct (allocate_loop B _ _) as [r [al' fl']].
  destruct Hl as (sts & Htk & Hfl & Hw & Hr).
  { simpl. etrans; [apply List.filter_length_le|done]. }
  destruct r as [[]|e|]; [by exists sts| |done].
  unfold sbind at 1, slift. rewrite (iter_refines _ _ _ Hfl). unfold sbind.
  rewrite free_stacks_pages, (free_taken al) by done. done.
Qed.

(** C35 [allocate_secondary_stacks_spec]: for at most [MAX_CPUS] CPUs, the allocation never
    panics. When it succeeds, every enabled secondary CPU got, in order, a
    stack under its logical identifier and affinity, laid out on pages that
    were free and are now in use, no page in two stacks, and no other page
    changed. When it fails, the allocator is exactly as it was. *)
Theorem allocate_secondary_stacks_spec al cpus :
  ok al -> (length cpus <= MAX_CPUS)%nat ->
  match allocate_secondary_stacks B cpus al with
  | (Ok fl, al') =>
      exists sts, fl_rep MAX_CPUS fl sts /\ Forall2 stack_for (List.filter needs_stack cpus) sts /\
        taken al al' (all_pages sts)
  | (Err e, al') => al' = al
  | (Panic, _) => False
  end.
Proof using HB. apply allocate_secondary_stacks_effect. Qed.
End AllocationSpec.

(** ** Routing by affinity *)

Definition matches_at (ids : list (option CpuIdentity)) (affinity : Z) (i : nat) : Prop :=
  exists identity, ids !! i = Some (Some identity) /\ id_affinity identity = affinity.

Lemma matches_at_cons x ids affinity i :
  matches_at (x :: ids) affinity i <->
  match i with O => exists d, x = Some d /\ id_affinity d = affinity | S j => matches_at ids affinity j end.
Proof. unfold matches_at. destruct i; simpl; naive_solver. Qed.

Lemma find_affinity_spec ids affinity index found i :
  find_affinity ids affinity index found = Some i <->
  match found with
  | Some f => i = f /\ forall j, ~ matches_at ids affinity j
  | None => exists k, i = (index + k)%nat /\ matches_at ids affinity k /\
                      forall j, matches_at ids affinity j -> j = k
  end.
Proof.
  revert index found. induction ids as [|x ids IH]; intros index found; cbn [find_affinity].
  { unfold matches_at. destruct found; naive_solver. }
  destruct (match x with Some d => id_affinity d =? affinity | None => false end) eqn:Hx.
  - assert (H0 : matches_at (x :: ids) affinity 0).
    { destruct x as [d|]; [|done]. bool_prop. by exists d. }
    destruct found as [f|]; [naive_solver|]. rewrite IH. split.
    + intros [-> Hn]. exists 0%nat. split_and!; [lia|done|].
      intros [|j] Hj; [done|]. rewrite matches_at_cons in Hj. by apply Hn in Hj.
    + intros (k & -> & Hk & Hu). assert (k = 0%nat) as -> by (symmetry; by apply Hu). split; [lia|].
      intros j Hj. assert (S j = 0%nat); [|done]. apply Hu. by rewrite matches_at_cons.
  - assert (H0 : ~ matches_at (x :: ids) affinity 0).
    { intros (d & [= ->] & Hd). bool_prop. done. }
    rewrite IH. destruct found as [f|].
    + split; intros [-> Hn]; (split; [done|]); intros j Hj.
      * destruct j as [|j]; [done|]. rewrite matches_at_cons in Hj. by apply (Hn j).
      * apply (Hn (S j)). by rewrite matches_at_cons.
    + split.
      * intros (k & -> & Hk & Hu). exists (S k). split_and!; [lia|by rewrite matches_at_cons|].
        intros [|j] Hj; [done|]. rewrite matches_at_cons in Hj. f_equal. auto.
      * intros (k & -> & Hk & Hu). destruct k as [|k]; [done|]. rewrite matches_at_cons in Hk.
        exists k. split_and!; [lia|done|]. intros j Hj.
        assert (S j = S k); [|lia]. apply Hu. by rewrite matches_at_cons.
Qed.

(** [find_slot_by_affinity_unique]: a CPU is routed to a slot exactly when there are at most
    [MAX_CPUS] slots and that slot, and no other, is prepared for the affinity
    fields of its MPIDR; duplicates are never routed. *)
Lemma find_slot_by_affinity_unique ids mpidr i :
  find_slot_by_affinity ids mpidr = Some i <->
  (length ids <= MAX_CPUS)%nat /\ matches_at ids (Z.land mpidr MPIDR_AFFINITY_MASK) i /\
  forall j, matches_at ids (Z.land mpidr MPIDR_AFFINITY_MASK) j -> j = i.
Proof.
  unfold find_slot_by_affinity. destruct (Nat.ltb_spec MAX_CPUS (length ids)) as [|Hl]; [naive_solver lia|].
  rewrite find_affinity_spec. naive_solver lia.
Qed.

(** ** The identity of a slot *)

(** Calls on one slot; [mark_prepared] is private to [prepare]. *)
Inductive sop :=
| SPrepare (id : nat) (affinity : Z) (stack : StackLayout)
| SIdentity
| SPublish (generation : Z) (config : HostEl2Config)
| SView (generation : Z) (config : HostEl2Config)
| SMail (o : mop).

Section Slot.
Context (address : Z) (threads : list (list sop)).

(** The identity a call returned, if any. *)
Definition run_sop (o : sop) : prog slot_loc (outcome SlotError (option CpuIdentity)) :=
  match o with
  | SPrepare id affinity stack => _ <-? prepare id affinity stack ;; Ret (Ok None)
  | SIdentity => identity address
  | SPublish g c => _ <-? publish_startup address g c ;; Ret (Ok None)
  | SView g c => v <-? startup_view address g c ;; Ret (Ok (view_identity <$> v))
  | SMail o => _ <- relocate Mail (run_mop o) ;; Ret (Ok None)
  end.

Definition run_sops : list sop -> prog slot_loc (list (outcome SlotError (option CpuIdentity))) :=
  run_all run_sop.

(** The identity a preparation gives the slot. *)
Definition prepared_words (v : list Z) : Prop :=
  exists os id affinity stack, os ∈ threads /\ SPrepare id affinity stack ∈ os /\
    invalid_preparation id affinity stack = false /\
    v = [Z.of_nat id; affinity; bottom stack; top stack].

Definition identity_fields : list slot_loc := [Ctx LogicalId; Ctx Affinity; Ctx StackBottom; Ctx StackTop].

Lemma slot_gate_fresh : SlotClaimed ∉ identity_fields.
Proof. unfold identity_fields. set_solver. Qed.

Lemma slot_pub_fields (s : memory slot_loc) l v :
  l ∈ identity_fields -> upd s l v (Mail StateCell) <> 0 <-> s (Mail StateCell) <> 0.
Proof. intros Hl. rewrite upd_ne; [done|]. intros <-. unfold identity_fields in Hl. set_solver. Qed.

#[local] Instance slot_oneshot : OneShot slot_loc := {
  os_gate := SlotClaimed;
  os_fields := identity_fields;
  os_pub s := s (Mail StateCell) <> 0;
  os_win e := match e with ESwap SlotClaimed 0 1 => true | _ => false end;
  os_gate_fresh := slot_gate_fresh;
  os_pub_fields := slot_pub_fields
}.

Notation inv := (os_inv prepared_words).
Notation otriple b p Q s := (os_triple prepared_words b p Q s).

(** Mailbox accesses that do not leave or enter [Offline]. *)
Definition advances (e : event mailbox_loc) : Prop :=
  match e with
  | ECasOk StateCell o n => o <> 0 /\ n <> 0
  | EStore _ _ | ESwap _ _ _ => False
  | _ => True
  end.

Lemma advances_poll start ticks n : emits advances (poll input lifecycle start ticks n).
Proof. induction n; cbn [poll]; emits_go; done. Qed.
#[local] Hint Resolve advances_poll : emits.

Lemma advances_publish g : emits advances (SecondaryMailbox.publish g).
Proof. unfold SecondaryMailbox.publish, lifecycle. emits_go; done. Qed.

Lemma advances_mop o : o <> MMarkPrepared -> emits advances (run_mop o).
Proof.
  intros Ho. pose proof advances_publish.
  destruct o; try done; cbn [run_mop];
    unfold begin_start, enter, management_online, management_park, management_failed,
      entry_is_claimed, has_parked, wait_until_parked, wait_with, claim_entry, EntryClaim_park, EntryClaim_fail,
      transition, SecondaryMailbox.state, SecondaryMailbox.check, observe_ready, lifecycle; emits_go; done.
Qed.

Lemma advances_same e (s s' : memory slot_loc) :
  advances e ->
  apply_event s (match e with
    | ELoad l v => ELoad (Mail l) v
    | EStore l v => EStore (Mail l) v
    | ESwap l o n => ESwap (Mail l) o n
    | ECasOk l o n => ECasOk (Mail l) o n
    | ECasFail l o v => ECasFail (Mail l) o v
    | EInput v => EInput v
    end) = Some s' -> os_same s s'.
Proof.
  destruct e as [x v|x v|x o n|x o n|x o v|v]; simpl; intros He; try done.
  - destruct (_ =? _); [|done]. intros [= <-]. apply os_same_refl.
  - destruct (Z.eqb_spec (s (Mail x)) o) as [Ho|]; [|done]. intros [= <-]. split_and!.
    + intros l' Hl'. apply upd_ne. intros ->. cbn in Hl'. unfold identity_fields in Hl'. set_solver.
    + cbn. destruct x; try (by rewrite upd_ne). rewrite upd_eq. naive_solver.
    + cbn. by rewrite upd_ne.
  - destruct (_ && _); [|done]. intros [= <-]. apply os_same_refl.
  - intros [= <-]. apply os_same_refl.
Qed.

Lemma mail_triple {A} b (p : prog mailbox_loc A) s :
  emits advances p -> inv s -> otriple b (relocate Mail p) (fun _ _ => True) s.
Proof.
  intros He Hi. apply os_harmless; [|done]. apply emits_relocate. eapply emits_mono; [|exact He].
  intros e Ha s1 s2. by apply advances_same.
Qed.

(** What a caller may conclude from a reply. *)
Definition sound_identity (r : outcome SlotError (option CpuIdentity)) (s : memory slot_loc) : Prop :=
  forall d, r = Ok (Some d) -> id_context d = address /\
    shows prepared_words [id_logical_id d; id_affinity d; id_stack_bottom d; id_stack_top d] s.

Lemma sound_identity_step r s s' :
  inv s -> os_step prepared_words s s' -> sound_identity r s -> sound_identity r s'.
Proof. intros Hi Hs Hr d E. destruct (Hr d E). split; [done|]. by eapply shows_step. Qed.

Lemma sound_other r s : (forall d, r <> Ok (Some d)) -> sound_identity r s.
Proof. intros Hr d E. by apply Hr in E. Qed.

Lemma identity_triple b s : inv s -> otriple b (identity address) sound_identity s.
Proof.
  intros Hi. unfold identity, is_prepared, pbind_res, lifecycle, load. cbn [pbind relocate].
  apply os_load; [done|]. intros s1 I1 _. cbn [pbind].
  destruct (cpu_state_of (s1 (Mail StateCell))) as [st| |] eqn:Hst; cbn [pbind];
    [|by apply os_ret; [done|]; intros ? _ _; apply sound_other..].
  case_bool_decide as Hoff; cbn [negb pbind]; [by apply os_ret; [done|]; intros ? _ _; apply sound_other|].
  assert (Hp : os_pub s1).
  { cbn. apply cpu_state_of_Ok in Hst. rewrite Hst. by destruct st. }
  pose proof (os_pub_shows _ s1 I1 Hp) as W1. cbn in W1.
  eapply (os_load_field _ _ 0); [done..|]. intros s2 I2 W2. eapply (os_load_field _ _ 1); [done..|]. intros s3 I3 W3.
  eapply (os_load_field _ _ 2); [done..|]. intros s4 I4 W4. eapply (os_load_field _ _ 3); [done..|]. intros s5 I5 W5.
  apply os_ret; [done|]. intros s6 I6 R6. eapply sound_identity_step; [exact I5|exact R6|]. by intros d [= <-].
Qed.

(** The writes of the one that prepares the slot. *)
Lemma prepare_winner id affinity stack s :
  filling prepared_words s -> prepared_words [Z.of_nat id; affinity; bottom stack; top stack] ->
  otriple true
    (_ <- store (Ctx HostSp) 0 ;; _ <- store (Ctx ActiveVcpu) 0 ;;
     _ <- store (Ctx LogicalId) (Z.of_nat id) ;; _ <- store (Ctx Affinity) affinity ;;
     _ <- store (Ctx StackBottom) (bottom stack) ;; _ <- store (Ctx StackTop) (top stack) ;;
     _ <- store (Ctx Present) 1 ;;
     map_err (relocate Mail mark_prepared) InvalidPreparationLifecycle) (fun _ _ => True) s.
Proof.
  intros F Hd. unfold map_err, mark_prepared, cas_or, compare_exchange, store. cbn [pbind relocate].
  assert (Hpub : forall f v (s : memory slot_loc), os_pub (upd s (Ctx f) v) <-> os_pub s).
  { intros. cbn. by rewrite upd_ne. }
  apply os_fill_elsewhere; [cbn; unfold identity_fields; set_solver|done|apply Hpub|done|]. intros s1 F1 _.
  apply os_fill_elsewhere; [cbn; unfold identity_fields; set_solver|done|apply Hpub|done|]. intros s2 F2 _.
  apply os_fill; [cbn; unfold identity_fields; set_solver|done|]. intros s3 F3 E3 _.
  apply os_fill; [cbn; unfold identity_fields; set_solver|done|]. intros s4 F4 E4 K4.
  apply os_fill; [cbn; unfold identity_fields; set_solver|done|]. intros s5 F5 E5 K5.
  apply os_fill; [cbn; unfold identity_fields; set_solver|done|]. intros s6 F6 E6 K6.
  apply os_fill_elsewhere; [cbn; unfold identity_fields; set_solver|done|apply Hpub|done|]. intros s7 F7 K7.
  intros s8 R8. pose proof (filling_same _ _ _ F7 R8) as F8.
  assert (H0 : s8 (Mail StateCell) = 0) by (destruct F8 as (_ & Hp & _); cbn in Hp; lia).
  rewrite H0. cbn [cpu_state_u64 Z.eqb]. intros _.
  assert (Hc : contents s8 = [Z.of_nat id; affinity; bottom stack; top stack]).
  { unfold contents. cbn. destruct R8 as (K8 & _). cbn [os_fields slot_oneshot] in *. unfold identity_fields in *.
    rewrite !K8, !K7 by set_solver. rewrite E6, (K6 (Ctx StackBottom)), E5 by set_solver.
    rewrite (K6 (Ctx Affinity)), (K5 (Ctx Affinity)), E4 by set_solver.
    by rewrite (K6 (Ctx LogicalId)), (K5 (Ctx LogicalId)), (K4 (Ctx LogicalId)), E3 by set_solver. }
  assert (G9 : os_step prepared_words s8 (upd s8 (Mail StateCell) 1)).
  { apply write_publish; [cbn; unfold identity_fields; set_solver|done|by rewrite Hc|].
    cbn. rewrite upd_ne by done. apply F8. }
  split; [exact G9|]. apply os_ret; [|done]. by apply G9, F8.
Qed.

Lemma prepare_triple b id affinity stack s :
  inv s ->
  (invalid_preparation id affinity stack = false ->
     prepared_words [Z.of_nat id; affinity; bottom stack; top stack]) ->
  otriple b (prepare id affinity stack) (fun _ _ => True) s.
Proof.
  intros Hi Hd. unfold prepare. destruct (invalid_preparation id affinity stack); [by apply os_ret|].
  unfold swap. cbn [pbind]. intros s1 R1 Hwin. pose proof (os_rely_inv _ _ _ _ Hi R1) as I1.
  assert (HG : os_guar prepared_words b s1 (upd s1 SlotClaimed 1)).
  { apply write_elsewhere; [exact slot_gate_fresh|cbn; by rewrite upd_ne|done]. }
  split; [exact HG|]. pose proof (os_guar_inv _ _ _ _ I1 HG) as I2.
  destruct (Z.eqb_spec (s1 SlotClaimed) 0) as [H0|H0]; cbn [negb]; [|by apply os_ret].
  rewrite H0 in Hwin. rewrite (Hwin eq_refl) in *. apply prepare_winner; [|by apply Hd].
  split_and!; [done| |cbn; by rewrite upd_eq]. cbn. rewrite upd_ne by done. intros Hp. by apply (I1 Hp).
Qed.

Definition allowed_sop (o : sop) : Prop := o <> SMail MMarkPrepared.

Lemma sop_triple b o s :
  inv s -> allowed_sop o ->
  (forall id affinity stack, o = SPrepare id affinity stack ->
     invalid_preparation id affinity stack = false ->
     prepared_words [Z.of_nat id; affinity; bottom stack; top stack]) ->
  otriple b (run_sop o) sound_identity s.
Proof.
  intros Hi Hallow Ho. destruct o as [id affinity stack| |g c|g c|o]; cbn [run_sop].
  - eapply os_bind; [done|apply prepare_triple; [done|by apply Ho]|].
    intros [[]| |] s1 I1 _ _; (apply os_ret; [done|]); intros ? _ _; by apply sound_other.
  - by apply identity_triple.
  - eapply os_bind with (P := fun _ _ => True); [done| |].
    + eapply os_bind; [done|by apply identity_triple|]. intros [[d|]| |] s1 I1 _ _; try (by apply os_ret).
      destruct (_ || _); [by apply os_ret|]. eapply os_bind; [done|apply mail_triple; [apply advances_publish|done]|].
      intros r s2 I2 _ _. by apply os_ret.
    + intros [[]| |] s1 I1 _ _; (apply os_ret; [done|]); intros ? _ _; by apply sound_other.
  - eapply os_bind with (P := fun r s' => sound_identity (outcome_map (fmap view_identity) r) s'); [done| |].
    + unfold startup_view. eapply os_bind; [done|apply mail_triple; [|done]|].
      { unfold observe_ready. emits_go; done. }
      intros [] s1 I1 _ _; cbn [negb]; [|apply os_ret; [done|]; intros ? _ _; by apply sound_other].
      eapply os_bind; [done|by apply identity_triple|]. intros [[d|]| |] s2 I2 _ Hr;
        (apply os_ret; [done|]); intros s3 I3 R3; [|by apply sound_other..].
      intros d' [= <-]. by eapply sound_identity_step; [exact I2|exact R3|exact Hr|].
    + intros [v| |] s1 I1 _ Hr; (apply os_ret; [done|]); intros s2 I2 R2; [|by apply sound_other..].
      by apply (sound_identity_step _ s1 s2).
  - eapply os_bind; [done|apply mail_triple; [|done]|].
    { apply advances_mop. intros ->. by apply Hallow. }
    intros r s1 I1 _ _. apply os_ret; [done|]. intros ? _ _. by apply sound_other.
Qed.

Definition slot_access (e : event slot_loc) : Prop :=
  match e with
  | ESwap SlotClaimed _ n => n = 1
  | ECasOk SlotClaimed _ _ | EStore SlotClaimed _ => False
  | _ => True
  end.

Lemma emits_mail {A} (p : prog mailbox_loc A) : emits slot_access (relocate Mail p).
Proof. apply emits_relocate. induction p; simpl; naive_solver. Qed.
#[local] Hint Resolve emits_mail : emits.

Lemma emits_sop o : emits slot_access (run_sop o).
Proof.
  destruct o; cbn [run_sop]; unfold prepare, publish_startup, startup_view, identity, is_prepared, map_err;
    emits_go; done.
Qed.

Definition preparations_left (s : memory slot_loc) : nat := if decide (s SlotClaimed = 0) then 1 else 0.

Lemma preparations_left_step s e s' :
  slot_access e -> apply_event s e = Some s' ->
  ((if os_win e then 1 else 0) + preparations_left s' <= preparations_left s)%nat.
Proof.
  unfold preparations_left. intros He E.
  destruct e as [l v|l v|l o n|l o n|l o v|v]; simpl in E; repeat case_match; simplify_eq; bool_prop;
    unfold os_win, upd in *; simpl in *; repeat case_decide; simplify_eq; try lia;
    repeat case_match; destruct_and?; simplify_eq; try done; try lia.
Qed.

Lemma slot_inv_new : inv PcpuSlot_new.
Proof. done. Qed.

(** [slot_identity_immutable]: any threads prepare one slot, publish it, look at it and
    drive its mailbox, interleaved arbitrarily. An identity read from the slot
    is the complete identity of one accepted preparation, with the slot's own
    context address, and the slot holds it ever after: no reader sees a
    half-written context or two different identities. *)
Lemma slot_identity_immutable g qs s' :
  Forall (Forall allowed_sop) threads ->
  concurrent (run_sops <$> threads) PcpuSlot_new g qs s' ->
  forall i rs d, qs !! i = Some (Ret rs) -> Ok (Some d) ∈ rs ->
    prepared_words [id_logical_id d; id_affinity d; id_stack_bottom d; id_stack_top d] /\
    d = mkIdentity (s' (Ctx LogicalId)) (s' (Ctx Affinity)) (s' (Ctx StackBottom)) (s' (Ctx StackTop)) address.
Proof.
  intros Hall Hc i rs d Hi Hin.
  destruct (os_parallel prepared_words (fun _ rs s' => Forall (fun r => sound_identity r s') rs)
    (run_sops <$> threads) PcpuSlot_new g qs s') as (_ & _ & HQ); [apply slot_inv_new| | |done|].
  - change 1%nat with (preparations_left PcpuSlot_new).
    eapply replay_count_le; [apply preparations_left_step| |apply Hc].
    eapply concurrent_emits; [|exact Hc]. apply Forall_fmap, Forall_true. intros os. apply emits_run_all, emits_sop.
  - intros b j p Hp. rewrite list_lookup_fmap in Hp. destruct (threads !! j) as [os|] eqn:Ho; [|done].
    apply (inj Some) in Hp as <-. apply os_run_all; [apply sound_identity_step| |apply slot_inv_new].
    intros o s Hino Hs. pose proof (Forall_lookup_1 _ _ _ _ Hall Ho) as Hos. rewrite Forall_forall in Hos.
    apply sop_triple; [done|by apply Hos|]. intros id affinity stack -> Hv.
    exists os, id, affinity, stack. split_and!; [by eapply list_elem_of_lookup_2|done..].
  - pose proof (HQ i rs Hi) as Hrs. rewrite Forall_forall in Hrs.
    destruct (Hrs _ Hin d eq_refl) as (Hctx & Hp & Hw & Hd). split; [done|].
    destruct d; cbn in *. congruence.
Qed.
End Slot.

(** ** Concrete instances *)

Definition sample_stack : StackLayout := mkStack 0x200000 0x201000 0x211000.

(** Sixty-four free pages, and a boot CPU with two secondary CPUs, one disabled. *)
Definition free_allocator : PageAllocator := mkAllocator (mkBitmap (replicate 8 255) 64) (mkBitmap (replicate 8 0) 0) 64.

Lemma free_allocator_ok : alloc_ok 8 free_allocator.
Proof.
  split; [split; [done|by repeat constructor|by vm_compute]|split; [done|by repeat constructor|by vm_compute]|].
  intros i. unfold test, testl. cbn [bits managed in_use free_allocator].
  destruct (replicate 8 0 !! (i / 8)%nat) as [b|] eqn:E; [|done].
  apply lookup_replicate in E as [-> _]. by rewrite Z.bits_0.
Qed.

Definition sample_cpus : list CpuDescriptor :=
  [mkCpu 0 true (Some 0%nat) Missing; mkCpu 1 true (Some 1%nat) Psci; mkCpu 2 false None Missing].

Lemma allocate_secondary_stacks_spec_witness :
  exists fl al sts, allocate_secondary_stacks 8 sample_cpus free_allocator = (Ok fl, al) /\
    fl_rep MAX_CPUS fl sts /\ taken 8 free_allocator al (all_pages sts).
Proof.
  pose proof (allocate_secondary_stacks_spec 8 ltac:(done) free_allocator sample_cpus free_allocator_ok ltac:(by apply Nat.leb_le)) as H.
  assert (Hr : is_ok (fst (allocate_secondary_stacks 8 sample_cpus free_allocator)) = true) by (vm_compute; reflexivity).
  destruct (allocate_secondary_stacks 8 sample_cpus free_allocator) as [[fl| |] al]; [|done..].
  destruct H as (sts & H1 & _ & H2). by exists fl, al, sts.
Defined.

Definition prepare_and_look : list (list sop) :=
  [[SPrepare 1 0x101 sample_stack]; [SIdentity; SIdentity]; [SPrepare 2 0x102 sample_stack]].

