(* ===== verification/SecondaryBoot.v ===== *)
(** * Boot policy of the secondary CPUs: src/tvisor_util/secondary_boot.rs

    One status word records how far the collective start of the secondary
    CPUs has come; the guest may start only once it is [Ready].  Around it are
    the checks of each CPU's checkpoint and the deadline arithmetic. *)

From S2P Require Import Prelude Atomics SecondaryMailbox El2Policy Pcpu.

Inductive BootStatus :=
| Idle | Preparing | Releasing | BootReady | PreparationFailed | ReleaseFailed | WaitFailed.

#[global] Instance BootStatus_eq_dec : EqDecision BootStatus.
Proof. solve_decision. Defined.

(** src/tvisor_util/startup_publication.rs *)
Inductive PublicationError := InvalidLineSize | PubOverflow | Preconditions | Io | NonzeroCell.

(** The text of [Preparation] is only displayed. *)
Inductive BootError :=
| AlreadyAttempted
| BInvalidTransition
| InvalidCheckpoint
| Fatal
| Preparation
| Release (e : PublicationError)
| Wait (e : WaitError)
| Readback.

Definition boot_status_u64 (s : BootStatus) : Z :=
  match s with
  | Idle => 0 | Preparing => 1 | Releasing => 2 | BootReady => 3
  | PreparationFailed => 4 | ReleaseFailed => 5 | WaitFailed => 6
  end.

(** The status word, the slots with their failure counts, and the [saw_fatal]
    variable a waiting caller shares with its closure. *)
Inductive boot_loc :=
| BootState
| Slot (id : nat) (l : slot_loc)
| Failures (id : nat)
| SawFatal (caller : nat).

#[global] Instance boot_loc_eq_dec : EqDecision boot_loc.
Proof. solve_decision. Defined.

Definition boot_status_of (v : Z) : outcome BootError BootStatus :=
  match v with
  | 0 => Ok Idle
  | 1 => Ok Preparing
  | 2 => Ok Releasing
  | 3 => Ok BootReady
  | 4 => Ok PreparationFailed
  | 5 => Ok ReleaseFailed
  | 6 => Ok WaitFailed
  | _ => Panic
  end.

Definition boot_status : prog boot_loc (outcome BootError BootStatus) :=
  v <- load BootState ;; Ret (boot_status_of v).

Definition begin_boot_once : prog boot_loc (outcome BootError unit) :=
  cas_or BootState (boot_status_u64 Idle) (boot_status_u64 Preparing) AlreadyAttempted.

Definition begin_release : prog boot_loc (outcome BootError unit) :=
  cas_or BootState (boot_status_u64 Preparing) (boot_status_u64 Releasing) BInvalidTransition.

(** The status a result leads to; [None] where the code rejects it. *)
Definition final_status (old : BootStatus) (result : outcome BootError unit) : option BootStatus :=
  match old, result with
  | Releasing, Ok _ => Some BootReady
  | Preparing, _ => Some PreparationFailed
  | Releasing, Err (Wait _ | InvalidCheckpoint | Fatal | Readback) => Some WaitFailed
  | Releasing, Err _ => Some ReleaseFailed
  | _, _ => None
  end.

Definition finalize_boot (result : outcome BootError unit) : prog boot_loc (outcome BootError unit) :=
  old <-? boot_status ;;
  match final_status old result with
  | None => Ret (Err BInvalidTransition)
  | Some next =>
      _ <-? cas_or BootState (boot_status_u64 old) (boot_status_u64 next) BInvalidTransition ;;
      Ret (if decide (next = BootReady) then Ok tt
           else match result with Ok _ => Err BInvalidTransition | r => r end)
  end.

(** A [StartupView] and the slot it was taken of. *)
Record boot_record := mkRecord { rec_slot : nat; rec_view : StartupView }.

(** The conditions of [verify_checkpoint] that read no atomic. *)
Definition checkpoint_fields_ok (r : boot_record) (id : nat) (generation : Z) : bool :=
  negb ((id =? 0)%nat || (MAX_CPUS <=? id)%nat ||
        negb (id_logical_id (view_identity (rec_view r)) =? Z.of_nat id) ||
        negb (id_context (view_identity (rec_view r)) =? view_slot_address (rec_view r)) ||
        (generation =? 0) || negb (view_generation (rec_view r) =? generation)).

Definition slot_has_parked (id : nat) (generation : Z) : prog boot_loc (outcome BootError bool) :=
  r <- relocate (fun l => Slot id (Mail l)) (has_parked generation) ;;
  Ret (match r with Ok b => Ok b | _ => Panic end).

Definition verify_checkpoint (r : boot_record) (id : nat) (generation : Z) :
  prog boot_loc (outcome BootError unit) :=
  if negb (checkpoint_fields_ok r id generation) then Ret (Err InvalidCheckpoint)
  else
    p <-? slot_has_parked (rec_slot r) generation ;;
    if negb p then Ret (Err InvalidCheckpoint)
    else
      f <- load (Failures (rec_slot r)) ;;
      if negb (f =? 0) then Ret (Err InvalidCheckpoint) else Ret (Ok tt).

(** The loop over the records; [seen] is the mask of the identifiers so far. *)
Fixpoint verify_records (required generation : Z) (records : list (nat * boot_record)) (seen : Z) :
  prog boot_loc (outcome BootError Z) :=
  match records with
  | [] => Ret (Ok seen)
  | (id, record) :: rest =>
      _ <-? verify_checkpoint record id generation ;;
      let bit := Z.shiftl 1 (Z.of_nat id) in
      if (Z.land required bit =? 0) || negb (Z.land seen bit =? 0) then Ret (Err InvalidCheckpoint)
      else verify_records required generation rest (Z.lor seen bit)
  end.

Definition verify_all_parked (required generation : Z) (records : list (nat * boot_record)) (fatal : bool) :
  prog boot_loc (outcome BootError unit) :=
  st <-? boot_status ;;
  if decide (st <> Releasing) then Ret (Err BInvalidTransition)
  else if fatal then Ret (Err Fatal)
  else if (required =? 0) || negb (Z.land required 1 =? 0) ||
          negb (Z.shiftr required (Z.of_nat MAX_CPUS) =? 0)
  then Ret (Err InvalidCheckpoint)
  else
    seen <-? verify_records required generation records 0 ;;
    if negb (seen =? required) then Ret (Err InvalidCheckpoint) else Ret (Ok tt).

(** The closure passed to the mailbox: [fatal()] and [elapsed()] are inputs. *)
Definition fatal_counter (caller : nat) (ticks : Z) : prog boot_loc Z :=
  f <- input ;;
  if negb (f =? 0) then _ <- store (SawFatal caller) 1 ;; Ret ticks else input.

Definition wait_for_parked (caller : nat) (r : boot_record) (id : nat) (generation ticks : Z)
  (max_polls : nat) : prog boot_loc (outcome BootError unit) :=
  st <-? boot_status ;;
  if decide (st <> Releasing) then Ret (Err BInvalidTransition)
  else if (id =? 0)%nat || (MAX_CPUS <=? id)%nat ||
          negb (id_logical_id (view_identity (rec_view r)) =? Z.of_nat id) ||
          negb (view_generation (rec_view r) =? generation)
  then Ret (Err InvalidCheckpoint)
  else
    _ <- store (SawFatal caller) 0 ;;
    result <- wait_with (relocate (fun l => Slot (rec_slot r) (Mail l)) (check generation))
                (fatal_counter caller ticks)
                (relocate (fun l => Slot (rec_slot r) (Mail l)) lifecycle) 0 ticks max_polls ;;
    saw <- load (SawFatal caller) ;;
    fatal <- (if negb (saw =? 0) then Ret true else f <- input ;; Ret (negb (f =? 0))) ;;
    if (fatal : bool) then Ret (Err Fatal)
    else match result with
    | Err e => Ret (Err (Wait e))
    | Panic => Ret Panic
    | Ok _ =>
        st' <-? boot_status ;;
        if decide (st' <> Releasing) then Ret (Err BInvalidTransition)
        else verify_checkpoint r id generation
    end.

Definition guest_authorized (fatal : bool) : prog boot_loc (outcome BootError unit) :=
  if fatal then Ret (Err Fatal)
  else
    st <-? boot_status ;;
    Ret (if decide (st = BootReady) then Ok tt else Err BInvalidTransition).

(** ** The deadline *)

Record StartupDeadline := mkDeadline { deadline_ticks : Z }.

Definition StartupDeadline_new (frequency seconds : Z) : option StartupDeadline :=
  if (frequency =? 0) || (2 ^ 32 - 1 <? frequency) || (seconds =? 0) then None
  else match checked_mul frequency seconds with
  | None => None
  | Some ticks => if Z.shiftl 1 55 <=? ticks then None else Some (mkDeadline ticks)
  end.

Definition elapsed (start now : Z) : Z := Z.land (wrapping_sub now start) (Z.shiftl 1 56 - 1).

Definition counter_progresses (start now : Z) : bool :=
  let e := Z.land (wrapping_sub now start) (Z.shiftl 1 56 - 1) in
  negb (e =? 0) && (e <? Z.shiftl 1 55).

(** [deadline_elapsed_exact]: for every counter of 56 to 64 bits, if fewer than [2^56] ticks
    passed since [start] then [elapsed] is exactly their number, however the
    counter wrapped; progress is reported exactly for one to [2^55 - 1] ticks;
    and an accepted deadline is the product of frequency and seconds, positive
    and below the point where a tick count becomes ambiguous. *)
Lemma deadline_elapsed_exact width start d :
  56 <= width <= 64 -> 0 <= start < 2 ^ width -> 0 <= d < 2 ^ 56 ->
  elapsed start ((start + d) mod 2 ^ width) = d /\
  (counter_progresses start ((start + d) mod 2 ^ width) = true <-> 0 < d < 2 ^ 55) /\
  forall frequency seconds dl, 0 <= frequency -> 0 <= seconds ->
    StartupDeadline_new frequency seconds = Some dl ->
    deadline_ticks dl = frequency * seconds /\ 0 < deadline_ticks dl < 2 ^ 55.
Proof.
  intros Hw Hs Hd.
  assert (He : Z.land (wrapping_sub ((start + d) mod 2 ^ width) start) (Z.shiftl 1 56 - 1) = d).
  { change (Z.shiftl 1 56) with (2 ^ 56). rewrite land_pow2_pred by done. unfold wrapping_sub.
    rewrite Z.mod_mod_divide by (by exists (2 ^ 8)).
    rewrite Zminus_mod, Z.mod_mod_divide, <- Zminus_mod.
    2: { exists (2 ^ (width - 56)). rewrite <- Z.pow_add_r by lia. f_equal. lia. }
    rewrite Z.add_simpl_l. by apply Z.mod_small. }
  split_and!; [done| |].
  - unfold counter_progresses. rewrite He. change (Z.shiftl 1 55) with (2 ^ 55).
    rewrite andb_true_iff, negb_true_iff, Z.eqb_neq, Z.ltb_lt. lia.
  - intros frequency seconds dl Hf0 Hs0. unfold StartupDeadline_new.
    destruct (_ || _) eqn:Hb; [done|]. bool_prop. destruct (checked_mul _ _) as [t|] eqn:Hm; [|done].
    unfold checked_mul in Hm. destruct (_ <? _) in Hm; [|done]. simplify_eq.
    destruct (_ <=? _) eqn:Hl; [done|]. bool_prop. change (Z.shiftl 1 55) with (2 ^ 55) in Hl.
    intros [= <-]. cbn [deadline_ticks]. split; [done|]. nia.
Qed.

(** ** The collective check *)

Definition parked_record (s : memory boot_loc) (generation : Z) (e : nat * boot_record) : Prop :=
  checkpoint_fields_ok (snd e) (fst e) generation = true /\
  s (Slot (rec_slot (snd e)) (Mail Ready)) = generation /\
  s (Slot (rec_slot (snd e)) (Mail StateCell)) = cpu_state_u64 Parked /\
  s (Failures (rec_slot (snd e))) = 0.

Lemma verify_checkpoint_exec r id generation s s' :
  exec (verify_checkpoint r id generation) s [] = Some (Ok tt, s') <->
  s' = s /\ parked_record s generation (id, r).
Proof.
  unfold verify_checkpoint, parked_record. cbn [fst snd].
  destruct (checkpoint_fields_ok r id generation) eqn:Hf; cbn [negb exec]; [|naive_solver].
  assert (Hg : generation <> 0).
  { unfold checkpoint_fields_ok in Hf. bool_prop. lia. }
  unfold slot_has_parked, has_parked, SecondaryMailbox.state, SecondaryMailbox.check, observe_ready, lifecycle, pbind_res, load.
  destruct (Z.eqb_spec generation 0) as [|_]; [done|]. cbn [pbind relocate exec].
  destruct (Z.eqb_spec (s (Slot (rec_slot r) (Mail Ready))) generation) as [Hr|Hr]; cbn [pbind relocate exec negb]; [|naive_solver].
  destruct (cpu_state_of (s (Slot (rec_slot r) (Mail StateCell)))) as [st| |] eqn:Hst; cbn [pbind relocate exec negb].
  - apply cpu_state_of_Ok in Hst. rewrite Hst. destruct st; cbn [pbind relocate exec negb cpu_state_u64]; try naive_solver lia.
    destruct (Z.eqb_spec (s (Failures (rec_slot r))) 0); cbn [negb exec]; naive_solver.
  - unfold cpu_state_of in Hst. repeat case_match; done.
  - split; [done|]. intros (_ & _ & _ & H3 & _). by rewrite H3 in Hst.
Qed.

Lemma land_bit_zero v (id : nat) : (Z.land v (Z.shiftl 1 (Z.of_nat id)) =? 0) = negb (Z.testbit v (Z.of_nat id)).
Proof.
  rewrite Z.shiftl_1_l, land_pow2_bit by lia. destruct (Z.testbit v (Z.of_nat id)); [|done].
  apply Z.eqb_neq. lia.
Qed.

Lemma verify_records_exec required generation records seen m s s' :
  exec (verify_records required generation records seen) s [] = Some (Ok m, s') <->
  s' = s /\ Forall (parked_record s generation) records /\ NoDup (fst <$> records) /\
  (forall id, id ∈ fst <$> records ->
     Z.testbit required (Z.of_nat id) = true /\ Z.testbit seen (Z.of_nat id) = false) /\
  m = fold_left (fun acc e => Z.lor acc (Z.shiftl 1 (Z.of_nat (fst e)))) records seen.
Proof.
  revert seen. induction records as [|[id r] records IH]; intros seen; cbn [verify_records].
  { cbn. split; [intros [= -> ->]|intros (-> & _ & _ & _ & ->)]; [|done].
    split_and!; [done|constructor|constructor|set_solver|done]. }
  unfold pbind_res at 1. rewrite exec_bind. pose proof (verify_checkpoint_exec r id generation s) as Hv.
  destruct (exec (verify_checkpoint r id generation) s []) as [[[[]|e|] s1]|] eqn:E.
  2-4: split; [done|]; intros (_ & HF & _); apply Forall_cons in HF as [HF _];
       assert (Hc := proj2 (Hv s) (conj eq_refl HF)); congruence.
  destruct (proj1 (Hv s1) eq_refl) as [-> Hp]. rewrite !land_bit_zero, negb_involutive.
  rewrite fmap_cons, NoDup_cons. cbn [fst fold_left].
  destruct (Z.testbit required (Z.of_nat id)) eqn:Hreq; cbn [negb orb].
  2: { split; [done|]. intros (_ & _ & _ & Hb & _). destruct (Hb id); [set_solver|congruence]. }
  destruct (Z.testbit seen (Z.of_nat id)) eqn:Hseen.
  { split; [done|]. intros (_ & _ & _ & Hb & _). destruct (Hb id); [set_solver|congruence]. }
  rewrite IH, Forall_cons. 
  assert (Hbit : forall k, Z.testbit (Z.lor seen (Z.shiftl 1 (Z.of_nat id))) (Z.of_nat k) =
      Z.testbit seen (Z.of_nat k) || bool_decide (k = id)).
  { intros k. rewrite Z.lor_spec, Z.shiftl_1_l, Z.pow2_bits_eqb by lia. f_equal.
    case_bool_decide; [subst; apply Z.eqb_refl|apply Z.eqb_neq; lia]. }
  split.
  - intros (-> & HF & Hnd & Hb & ->). split_and!; [done|done|done| |done| |done].
    + intros Hin. destruct (Hb id Hin) as [_ Hb']. rewrite Hbit, bool_decide_true, orb_true_r in Hb' by done. done.
    + intros k [->|Hk]%elem_of_cons; [done|]. destruct (Hb k Hk) as [? Hb']. rewrite Hbit in Hb'.
      apply orb_false_iff in Hb'. tauto.
  - intros (-> & [_ HF] & [Hni Hnd] & Hb & ->). split_and!; [done|done|done| |done].
    intros k Hk. destruct (Hb k) as [? Hb']; [set_solver|]. split; [done|].
    rewrite Hbit, Hb', bool_decide_false; [done|]. by intros ->.
Qed.

Lemma fold_mask_bit (records : list (nat * boot_record)) seen k :
  Z.testbit (fold_left (fun acc e => Z.lor acc (Z.shiftl 1 (Z.of_nat (fst e)))) records seen) (Z.of_nat k) =
  Z.testbit seen (Z.of_nat k) || bool_decide (k ∈ fst <$> records).
Proof.
  revert seen. induction records as [|[id r] records IH]; intros seen; cbn [fold_left fst].
  { rewrite bool_decide_false by set_solver. by rewrite orb_false_r. }
  rewrite IH, Z.lor_spec, Z.shiftl_1_l, Z.pow2_bits_eqb, <- orb_assoc by lia. f_equal.
  rewrite fmap_cons. cbn [fst]. destruct (Z.eqb_spec (Z.of_nat id) (Z.of_nat k)) as [E|E]; cbn [orb].
  - symmetry. apply bool_decide_eq_true_2. apply elem_of_cons. left. lia.
  - apply bool_decide_ext. rewrite elem_of_cons. naive_solver lia.
Qed.

Definition valid_required (required : Z) : Prop :=
  required <> 0 /\ Z.testbit required 0 = false /\ required < 2 ^ Z.of_nat MAX_CPUS.

(** [verify_all_parked_exact]: the collective check accepts exactly when the boot is
    still releasing, nothing is fatal, the required mask names secondary CPUs
    only, every record shows its CPU parked under this generation without
    failures, and the records are exactly those of the required CPUs, each
    once: a count of arrivals is not enough. *)
Lemma verify_all_parked_exact required generation records fatal s s' :
  0 <= required ->
  exec (verify_all_parked required generation records fatal) s [] = Some (Ok tt, s') <->
  s' = s /\ s BootState = boot_status_u64 Releasing /\ fatal = false /\ valid_required required /\
  Forall (parked_record s generation) records /\ NoDup (fst <$> records) /\
  forall id, id ∈ fst <$> records <-> Z.testbit required (Z.of_nat id) = true.
Proof.
  intros H0. unfold verify_all_parked, boot_status, pbind_res, load. cbn [pbind exec].
  destruct (boot_status_of (s BootState)) as [st| |] eqn:Hst; cbn [exec];
    [|split; [done|]; intros (_ & Hs & _); rewrite Hs in Hst; done..].
  assert (Hst' : s BootState = boot_status_u64 st).
  { unfold boot_status_of in Hst. repeat case_match; by simplify_eq. }
  case_decide as Hd; [|subst st].
  { split; [done|]. intros (_ & Hs & _). rewrite Hst' in Hs. by destruct st. }
  destruct fatal; cbn [exec]; [naive_solver|].
  assert (Hmask : (required =? 0) || negb (Z.land required 1 =? 0) || negb (Z.shiftr required (Z.of_nat MAX_CPUS) =? 0) = false
    <-> valid_required required).
  { unfold valid_required. change 1 with (Z.shiftl 1 (Z.of_nat 0)) at 1. rewrite land_bit_zero, negb_involutive.
    rewrite !orb_false_iff, Z.eqb_neq, negb_false_iff, Z.eqb_eq, Z.shiftr_div_pow2 by done.
    assert (required / 2 ^ Z.of_nat MAX_CPUS = 0 <-> required < 2 ^ Z.of_nat MAX_CPUS) as ->; [|cbn; tauto].
    rewrite Z.div_small_iff by done. change (2 ^ Z.of_nat MAX_CPUS) with 16. lia. }
  destruct (_ || _ || _); cbn [exec]; [split; [done|]; intros (_ & _ & _ & Hv & _); apply Hmask in Hv; done|].
  pose proof (proj1 Hmask eq_refl) as Hv. rewrite exec_bind.
  destruct (exec (verify_records required generation records 0) s []) as [[[m|e|] s1]|] eqn:E.
  2-4: split; [done|]; intros (_ & _ & _ & _ & HF & Hnd & Hid);
    assert (Hc := proj2 (verify_records_exec required generation records 0 _ s s)
      (conj eq_refl (conj HF (conj Hnd (conj (fun id Hin => conj (proj1 (Hid id) Hin) (Z.bits_0 _)) eq_refl))))); congruence.
  apply verify_records_exec in E as (-> & HF & Hnd & Hb & ->).
  set (m := fold_left _ _ _).
  assert (Hm : forall k, Z.testbit m (Z.of_nat k) = bool_decide (k ∈ fst <$> records)).
  { intros k. unfold m. by rewrite fold_mask_bit, Z.bits_0. }
  assert (Heq : m = required <-> forall id, id ∈ fst <$> records <-> Z.testbit required (Z.of_nat id) = true).
  { split.
    - intros <- id. by rewrite Hm, bool_decide_eq_true.
    - intros Hid. apply Z.bits_inj'. intros k Hk. rewrite <- (Z2Nat.id k) by done. rewrite Hm.
      specialize (Hid (Z.to_nat k)). case_bool_decide; destruct (Z.testbit required _); naive_solver. }
  destruct (Z.eqb_spec m required) as [Hmr|Hmr]; cbn [negb exec].
  - split; [intros [= <-]|by intros (-> & _)]. split_and!; try done. by apply Heq.
  - split; [done|]. intros (_ & _ & _ & _ & _ & _ & Hid). by apply Heq in Hid.
Qed.

(** ** The status word under concurrent callers *)

Inductive bop :=
| BBegin
| BRelease
| BFinalize (result : outcome BootError unit)
| BAuthorize (fatal : bool)
| BVerify (required generation : Z) (records : list (nat * boot_record)) (fatal : bool)
| BWait (caller : nat) (r : boot_record) (id : nat) (generation ticks : Z) (polls : nat)
| BSlot (id : nat) (o : mop).

Definition run_bop (o : bop) : prog boot_loc (bop * outcome BootError unit) :=
  r <- match o with
       | BBegin => begin_boot_once
       | BRelease => begin_release
       | BFinalize result => finalize_boot result
       | BAuthorize fatal => guest_authorized fatal
       | BVerify required generation records fatal => verify_all_parked required generation records fatal
       | BWait caller r id generation ticks polls => wait_for_parked caller r id generation ticks polls
       | BSlot id o => _ <- relocate (fun l => Slot id (Mail l)) (run_mop o) ;; Ret (Ok tt)
       end ;;
  Ret (o, r).

Inductive boot_edge : BootStatus -> BootStatus -> Prop :=
| boot_begin : boot_edge Idle Preparing
| boot_release : boot_edge Preparing Releasing
| boot_preparation_failed : boot_edge Preparing PreparationFailed
| boot_ready : boot_edge Releasing BootReady
| boot_release_failed : boot_edge Releasing ReleaseFailed
| boot_wait_failed : boot_edge Releasing WaitFailed.

Definition terminal (st : BootStatus) : bool :=
  match st with Idle | Preparing | Releasing => false | _ => true end.

Lemma terminal_final st st' : terminal st = true -> rtc boot_edge st st' -> st' = st.
Proof. intros Ht H. destruct H as [|? ? ? E _]; [done|]. by destruct E. Qed.

Definition boot_at (s : memory boot_loc) (st : BootStatus) : Prop := s BootState = boot_status_u64 st.

Lemma boot_at_inj s st st' : boot_at s st -> boot_at s st' -> st = st'.
Proof. unfold boot_at. destruct st, st'; simpl; congruence. Qed.

Lemma boot_status_of_at s st : boot_at s st -> boot_status_of (s BootState) = Ok st.
Proof. unfold boot_at. intros ->. by destruct st. Qed.

Definition boot_step (s s' : memory boot_loc) : Prop :=
  forall st, boot_at s st -> exists st', boot_at s' st' /\ rtc boot_edge st st'.

Lemma boot_step_refl s : boot_step s s.
Proof. intros st Hst. by exists st. Qed.

Lemma boot_step_trans a b c : boot_step a b -> boot_step b c -> boot_step a c.
Proof.
  intros H1 H2 st Hst. destruct (H1 st Hst) as (st1 & A1 & E1). destruct (H2 st1 A1) as (st2 & A2 & E2).
  exists st2. split; [done|by etrans].
Qed.

#[local] Instance boot_protocol : Protocol boot_loc := {
  pinv s := exists st, boot_at s st;
  pstep := boot_step;
  pstep_refl := boot_step_refl;
  pstep_trans := boot_step_trans
}.

Lemma boot_at_terminal_stable st : terminal st = true -> pstable (fun s => boot_at s st).
Proof.
  intros Ht s s' _ _ Hs Hst. destruct (Hs st Hst) as (st' & H1 & H2). by apply terminal_final in H2 as ->.
Qed.

Lemma boot_foreign l v (s : memory boot_loc) :
  l <> BootState -> pinv s -> pinv (upd s l v) /\ pstep s (upd s l v).
Proof.
  intros Hl [st Hst]. assert (H : forall st', boot_at s st' -> boot_at (upd s l v) st').
  { intros st' H. unfold boot_at. by rewrite upd_ne. }
  split; [exists st; by apply H|]. intros st' Hst'. exists st'. split; [by apply H|done].
Qed.

(** Accesses that do not write the status. *)
Definition status_reads (e : event boot_loc) : Prop :=
  match e with
  | EStore l _ | ESwap l _ _ | ECasOk l _ _ => l <> BootState
  | _ => True
  end.

Lemma status_reads_harmless e s s' :
  status_reads e -> pinv s -> apply_event s e = Some s' -> pinv s' /\ pstep s s'.
Proof.
  intros He Hi. destruct e; simpl in *; repeat case_match; intros; simplify_eq; try (by apply boot_foreign);
    (split; [done|apply boot_step_refl]).
Qed.

Lemma triple_status_reads {A} (p : prog boot_loc A) s :
  emits status_reads p -> pinv s -> triple p (fun _ _ => True) s.
Proof.
  intros He. apply triple_harmless. eapply emits_mono; [|exact He].
  intros e He' s1 s2. by apply status_reads_harmless.
Qed.

Lemma emits_slot_mail {A} (id : nat) (p : prog mailbox_loc A) :
  emits status_reads (relocate (fun l => Slot id (Mail l)) p).
Proof. apply emits_relocate. induction p; simpl; naive_solver. Qed.
#[local] Hint Resolve emits_slot_mail : emits.

Lemma emits_boot_poll counter life start ticks n :
  emits status_reads counter -> emits status_reads life -> emits status_reads (poll counter life start ticks n).
Proof. intros H1 H2. induction n; cbn [poll]; emits_go; done. Qed.

Lemma emits_verify_checkpoint r id g : emits status_reads (verify_checkpoint r id g).
Proof. unfold verify_checkpoint, slot_has_parked. emits_go; done. Qed.
#[local] Hint Resolve emits_verify_checkpoint : emits.

Lemma emits_verify_records required g records seen : emits status_reads (verify_records required g records seen).
Proof. revert seen. induction records as [|[id r] records IH]; intros seen; cbn [verify_records]; emits_go; done. Qed.
#[local] Hint Resolve emits_verify_records : emits.

Lemma emits_verify required g records fatal : emits status_reads (verify_all_parked required g records fatal).
Proof. unfold verify_all_parked, boot_status. emits_go; done. Qed.

Lemma emits_wait caller r id g ticks n : emits status_reads (wait_for_parked caller r id g ticks n).
Proof.
  assert (Hc : emits status_reads (fatal_counter caller ticks)) by (unfold fatal_counter; emits_go; done).
  pose proof (emits_boot_poll (fatal_counter caller ticks) (relocate (fun l => Slot (rec_slot r) (Mail l)) lifecycle)
    0 ticks n Hc ltac:(auto with emits)).
  unfold wait_for_parked, wait_with, boot_status. emits_go; done.
Qed.

(** A transition of the status. *)
Lemma triple_boot_cas {E} a b (e : E) s :
  pinv s -> boot_edge a b ->
  triple (cas_or BootState (boot_status_u64 a) (boot_status_u64 b) e)
    (fun r s' => r <> Panic /\ (r = Ok tt -> terminal b = true -> boot_at s' b)) s.
Proof.
  intros Hi He. unfold cas_or, compare_exchange. cbn [pbind]. apply triple_cas; [done|..].
  - intros s1 _ _ Hst. assert (Hb : boot_at (upd s1 BootState (boot_status_u64 b)) b) by apply upd_eq.
    split_and!; [by exists b| |].
    + intros st Hst'. exists b. split; [done|]. rewrite (boot_at_inj _ _ _ Hst' Hst). by apply rtc_once.
    + apply triple_ret; [by exists b|done|]. intros x y Hx Hy Hs [_ HQ]. split; [done|].
      intros Hr Ht. apply (boot_at_terminal_stable b Ht x y); auto.
  - intros s1 I1 _ _. by apply triple_ret_pure.
Qed.

(** What a reply promises. *)
Definition sound_boot (r : bop * outcome BootError unit) (s : memory boot_loc) : Prop :=
  match r with
  | (BFinalize _, x) => x <> Panic /\ (x = Ok tt -> boot_at s BootReady)
  | (BAuthorize fatal, x) => x <> Panic /\ (x = Ok tt -> fatal = false /\ boot_at s BootReady)
  | ((BBegin | BRelease), x) => x <> Panic
  | _ => True
  end.

Lemma sound_boot_stable r : pstable (sound_boot r).
Proof.
  intros s s' Hi Hi' Hs. destruct r as [[] x]; simpl; try done.
  - intros [Hp HQ]. split; [done|]. intros E. by apply (boot_at_terminal_stable BootReady eq_refl s s'), HQ.
  - intros [Hp HQ]. split; [done|]. intros E. destruct (HQ E). split; [done|].
    by apply (boot_at_terminal_stable BootReady eq_refl s s').
Qed.

Lemma triple_boot_status s :
  pinv s -> triple boot_status (fun r s' => exists st, r = Ok st /\ (terminal st = true -> boot_at s' st)) s.
Proof.
  intros Hi. unfold boot_status, load. cbn [pbind]. apply triple_load; [done|]. intros s1 [st Hst] _.
  rewrite (boot_status_of_at _ _ Hst). apply triple_ret; [by exists st|by exists st|].
  intros x y Hx Hy Hs (st' & E & HQ). exists st'. split; [done|]. intros Ht.
  apply (boot_at_terminal_stable st' Ht x y); auto.
Qed.

Lemma final_status_edge old result next : result <> Panic -> final_status old result = Some next ->
  boot_edge old next /\ (next = BootReady -> result = Ok tt).
Proof.
  intros Hp. destruct old, result as [[]|[]|]; simpl; try done; intros [= <-]; split; try done; constructor.
Qed.

Lemma triple_finalize result s :
  pinv s -> result <> Panic ->
  triple (finalize_boot result) (fun x s' => x <> Panic /\ (x = Ok tt -> boot_at s' BootReady)) s.
Proof.
  intros Hi Hres. eapply triple_bind_res; [done|by apply triple_boot_status|..].
  - intros old s1 I1 _ _. destruct (final_status old result) as [next|] eqn:Hn; [|by apply triple_ret_pure].
    destruct (final_status_edge _ _ _ Hres Hn) as [He Hr].
    eapply triple_bind_res; [done|by apply triple_boot_cas|..].
    + intros [] s2 I2 _ [_ HQ]. case_decide as Hd.
      * subst next. apply triple_ret; [done|split; [done|intros _; by apply HQ]|].
        intros x y Hx Hy Hs [_ HQ']. split; [done|]. intros E. apply (boot_at_terminal_stable BootReady eq_refl x y); auto.
      * apply triple_ret_pure; [done|]. intros s3. destruct result as [[]| |]; split; try done.
    + intros e s2 I2 _ _. by apply triple_ret_pure.
    + by intros s2 _ _ [? _].
  - intros e s1 _ _ (? & ? & _). done.
  - intros s1 _ _ (? & ? & _). done.
Qed.

Lemma triple_authorize fatal s :
  pinv s -> triple (guest_authorized fatal)
    (fun x s' => x <> Panic /\ (x = Ok tt -> fatal = false /\ boot_at s' BootReady)) s.
Proof.
  intros Hi. unfold guest_authorized. destruct fatal; [by apply triple_ret_pure|].
  eapply triple_bind_res; [done|by apply triple_boot_status|..].
  - intros st s1 I1 _ (? & [= <-] & HQ). case_decide as Hd; [subst st|by apply triple_ret_pure].
    apply triple_ret; [done|split; [done|]; intros _; split; [done|by apply HQ]|].
    intros x y Hx Hy Hs [_ HQ']. split; [done|]. intros E. destruct (HQ' E).
    split; [done|]. by apply (boot_at_terminal_stable BootReady eq_refl x y).
  - intros e s1 _ _ (? & ? & _). done.
  - intros s1 _ _ (? & ? & _). done.
Qed.

(** [finalize_boot] is given a [Result]. *)
Definition valid_bop (o : bop) : Prop := match o with BFinalize r => r <> Panic | _ => True end.

Lemma triple_bop o s : valid_bop o -> pinv s -> triple (run_bop o) sound_boot s.
Proof.
  intros Ho Hi. unfold run_bop.
  assert (Hret : forall P (p : prog boot_loc (outcome BootError unit)), triple p P s ->
    (forall x s', P x s' -> sound_boot (o, x) s') -> triple (r <- p ;; Ret (o, r)) sound_boot s).
  { intros P p Hp Hs. eapply triple_bind; [done|exact Hp|]. intros x s1 I1 _ HP.
    apply triple_ret; [done|by apply Hs|apply sound_boot_stable]. }
  destruct o.
  - eapply Hret; [by apply triple_boot_cas; [|constructor]|]. by intros x s' [? _].
  - eapply Hret; [by apply triple_boot_cas; [|constructor]|]. by intros x s' [? _].
  - eapply Hret; [by apply triple_finalize|]. by intros x s' ?.
  - eapply Hret; [by apply triple_authorize|]. by intros x s' ?.
  - eapply Hret; [apply triple_status_reads; [apply emits_verify|done]|done].
  - eapply Hret; [apply triple_status_reads; [apply emits_wait|done]|done].
  - eapply Hret; [apply triple_status_reads; [|done]|done].
    apply emits_bind; [apply emits_slot_mail|]. done.
Qed.

(** [boot_status_terminal]: any threads begin, release, finalize and query the boot, wait
    for CPUs and drive mailboxes, interleaved arbitrarily. The status only
    moves along its graph, so a terminal status is never overwritten; no
    status call meets an impossible value; and a caller that is told the guest
    may start, or whose finalization succeeded, is right for good. *)
Lemma boot_status_terminal (threads : list (list bop)) s st g qs s' :
  Forall (Forall valid_bop) threads -> boot_at s st ->
  concurrent (run_all run_bop <$> threads) s g qs s' ->
  (exists st', boot_at s' st' /\ rtc boot_edge st st' /\ (terminal st = true -> st' = st)) /\
  forall i rs, qs !! i = Some (Ret rs) -> Forall (fun r => sound_boot r s') rs.
Proof.
  intros Hv Hst Hc.
  destruct (triple_parallel (fun _ rs s' => Forall (fun r => sound_boot r s') rs)
    (run_all run_bop <$> threads) s g qs s') as (_ & Hs & HQ); [by exists st| |done|].
  { intros i p Hp. rewrite list_lookup_fmap in Hp. destruct (threads !! i) as [os|] eqn:Ho; [|done].
    apply (inj Some) in Hp as <-. apply triple_run_all; [apply sound_boot_stable| |by exists st].
    intros o s1 Hin. apply triple_bop. pose proof (Forall_lookup_1 _ _ _ _ Hv Ho) as Hos.
    rewrite Forall_forall in Hos. by apply Hos. }
  split; [|exact HQ]. destruct (Hs st Hst) as (st' & H1 & H2). exists st'.
  split_and!; [done|done|]. intros Ht. by apply terminal_final.
Qed.

(** ** Concrete instances *)

(** CPU 1 has parked under generation 7. *)
Definition one_parked : memory boot_loc := fun l =>
  match l with
  | BootState => 2
  | Slot 1 (Mail Ready) => 7
  | Slot 1 (Mail StateCell) => 3
  | _ => 0
  end.

Definition record_1 : nat * boot_record :=
  (1%nat, mkRecord 1 (mkView (mkIdentity 1 0x101 0x201000 0x211000 0x9000) (config_of sample_policy) 7 0x9000)).

Definition boot_threads : list (list bop) := [[BBegin; BRelease; BFinalize (Ok tt)]; [BAuthorize false]].

