(* ===== verification/GuestStage2.v ===== *)
(** * Guest stage-2 encodings: src/tvisor_util/guest_stage2_translation.rs

    The level 3 page descriptor and the EL2 registers that install a guest's
    stage-2 regime.  [decode_l3_page_descriptor] reads a descriptor the way the
    architecture does, field by field; the round trip shows that no field of
    the encoding leaks into another.  The register values are read back the
    same way. *)

From S2P Require Import Prelude Page El2Stage1 El2Policy.

Definition IPA_BITS : Z := 39.

(** ** Descriptor fields *)

Definition S2_ADDRESS_MASK : Z := 0x0000fffffffff000.
Definition S2_VALID : Z := Z.shiftl 1 0.
Definition S2_TABLE_OR_PAGE : Z := Z.shiftl 1 1.
Definition MEM_ATTR_NORMAL_WB_WA : Z := Z.shiftl 15 2.
Definition MEM_ATTR_DEVICE_NGNRE : Z := Z.shiftl 1 2.
Definition S2AP_NONE : Z := Z.shiftl 0 6.
Definition S2AP_READ_ONLY : Z := Z.shiftl 1 6.
Definition S2AP_WRITE_ONLY : Z := Z.shiftl 2 6.
Definition S2AP_READ_WRITE : Z := Z.shiftl 3 6.
Definition SH_NONE : Z := Z.shiftl 0 8.
Definition S2_SH_INNER : Z := Z.shiftl 3 8.
Definition S2_ACCESS_FLAG : Z := Z.shiftl 1 10.
Definition XN_EXEC : Z := Z.shiftl 0 53.
Definition XN_NON_EXEC : Z := Z.shiftl 2 53.

Definition VTCR_EL2_T0SZ_39_BIT : Z := 25.
Definition VTCR_EL2_SL0_LEVEL_1 : Z := Z.shiftl 1 6.
Definition VTCR_EL2_IRGN0_NORMAL_WB_WA : Z := Z.shiftl 1 8.
Definition VTCR_EL2_ORGN0_NORMAL_WB_WA : Z := Z.shiftl 1 10.
Definition VTCR_EL2_SH0_INNER : Z := Z.shiftl 3 12.
Definition VTCR_EL2_TG0_4KB : Z := Z.shiftl 0 14.
Definition VTCR_EL2_RES1 : Z := Z.shiftl 1 31.

Definition HCR_EL2_STAGE2_VALUE : Z := GUEST_HCR.
Definition CPTR_EL2_STAGE2_VALUE : Z := HOST_CPTR.
Definition VMPIDR_EL2_VCPU0 : Z := Z.lor (Z.shiftl 1 31) (Z.shiftl 1 30).

Inductive GuestStage2MemoryType := NormalWbWa | DeviceNgNre.
Inductive GuestStage2Access := AccessNone | ReadOnly | WriteOnly | ReadWrite.
Inductive GuestStage2Exec := Executable | ExecuteNever.

Record GuestStage2RegisterValues := mkStage2Registers {
  vtcr_el2 : Z;
  vttbr_el2 : Z;
  hcr_el2 : Z;
  cptr_el2 : Z;
  vmpidr_el2 : Z
}.

(** ** Operations *)

Definition encode_l3_page_descriptor (pa : Z) (mem_type : GuestStage2MemoryType)
    (access : GuestStage2Access) (exec : GuestStage2Exec) : Z :=
  let mem_attr := match mem_type with
                  | NormalWbWa => MEM_ATTR_NORMAL_WB_WA
                  | DeviceNgNre => MEM_ATTR_DEVICE_NGNRE
                  end in
  let s2ap := match access with
              | AccessNone => S2AP_NONE
              | ReadOnly => S2AP_READ_ONLY
              | WriteOnly => S2AP_WRITE_ONLY
              | ReadWrite => S2AP_READ_WRITE
              end in
  let sh := match mem_type with NormalWbWa => S2_SH_INNER | DeviceNgNre => SH_NONE end in
  let xn := match exec with Executable => XN_EXEC | ExecuteNever => XN_NON_EXEC end in
  Z.lor (Z.lor (Z.lor (Z.lor (Z.lor (Z.lor (Z.lor S2_VALID S2_TABLE_OR_PAGE) mem_attr) s2ap) sh)
    S2_ACCESS_FLAG) xn) (Z.land pa S2_ADDRESS_MASK).

Definition guest_stage2_register_values (vm_id root_table_pa pa_range : Z) :
    outcome TranslationError GuestStage2RegisterValues :=
  let? pa_bits := pa_bits_from_pa_range pa_range in
  let? max_root_pa := sub64 (Z.shiftl 1 pa_bits) 1 in
  reject negb (is_page_aligned root_table_pa) || (max_root_pa <? root_table_pa) with InvalidTableBase in
  let ps_field := Z.shiftl (Z.land pa_range 7) 16 in
  let vtcr := Z.lor (Z.lor (Z.lor (Z.lor (Z.lor (Z.lor (Z.lor VTCR_EL2_RES1 VTCR_EL2_TG0_4KB)
    VTCR_EL2_SH0_INNER) VTCR_EL2_ORGN0_NORMAL_WB_WA) VTCR_EL2_IRGN0_NORMAL_WB_WA)
    VTCR_EL2_SL0_LEVEL_1) ps_field) VTCR_EL2_T0SZ_39_BIT in
  let vttbr := Z.lor (Z.shiftl vm_id 48) (Z.land root_table_pa S2_ADDRESS_MASK) in
  Ok (mkStage2Registers vtcr vttbr HCR_EL2_STAGE2_VALUE CPTR_EL2_STAGE2_VALUE VMPIDR_EL2_VCPU0).

(** ** The architectural reading *)

(** What a level 3 descriptor means to the stage-2 walker: [None] when it is
    not a page, has no access flag, or has a reserved attribute. *)
Definition decode_l3_page_descriptor (d : Z) :
    option (Z * GuestStage2MemoryType * GuestStage2Access * GuestStage2Exec) :=
  if negb (field d 0 2 =? 3) || negb (Z.testbit d 10) then None
  else
    match
      match field d 2 4, field d 8 2 with
      | 15, 3 => Some NormalWbWa
      | 1, 0 => Some DeviceNgNre
      | _, _ => None
      end,
      match field d 53 2 with 0 => Some Executable | 2 => Some ExecuteNever | _ => None end
    with
    | Some mt, Some ex =>
        let ac := match field d 6 2 with
                  | 0 => AccessNone | 1 => ReadOnly | 2 => WriteOnly | _ => ReadWrite
                  end in
        Some (Z.land d S2_ADDRESS_MASK, mt, ac, ex)
    | _, _ => None
    end.

(** ** Lemmas *)

(** A page address has no bit outside the address field. *)
Lemma page_in_mask pa :
  0 <= pa < 2 ^ 48 -> pa mod PAGE_SIZE = 0 -> Z.land pa S2_ADDRESS_MASK = pa.
Proof.
  intros Hr Ha. change S2_ADDRESS_MASK with (Z.shiftl (Z.ones 36) 12).
  apply Z.bits_inj'. intros i Hi. rewrite Z.land_spec, Z.shiftl_spec, Z.testbit_ones by lia.
  destruct (Z.testbit pa i) eqn:E; [|done]. simpl.
  assert (~ 48 <= i) by (intros ?; rewrite (testbit_bounded pa 48 i) in E by lia; done).
  assert (~ i < 12).
  { intros ?. pose proof (Z.mod_pow2_bits_low pa 12 i ltac:(lia)) as Hb.
    change (2 ^ 12) with PAGE_SIZE in Hb. rewrite Ha, Z.bits_0, E in Hb. done. }
  destruct (Z.leb_spec 0 (i - 12)), (Z.ltb_spec (i - 12) 36); simpl; lia.
Qed.

(** Joining a page address to fields outside the address changes no field. *)
Lemma field_lor_page f pa s w :
  0 <= s -> 0 <= w -> Z.land S2_ADDRESS_MASK (Z.shiftl (Z.ones w) s) = 0 ->
  field (Z.lor f (Z.land pa S2_ADDRESS_MASK)) s w = field f s w.
Proof.
  intros Hs Hw Hd. unfold field. rewrite Z.shiftr_lor, Z.land_lor_distr_l.
  replace (Z.land (Z.shiftr (Z.land pa S2_ADDRESS_MASK) s) (Z.ones w)) with 0; [apply Z.lor_0_r|].
  apply Z.bits_inj'. intros i Hi. rewrite Z.bits_0, Z.land_spec, Z.shiftr_spec, Z.land_spec by done.
  assert (Hb : Z.testbit (Z.land S2_ADDRESS_MASK (Z.shiftl (Z.ones w) s)) (i + s) = false)
    by (rewrite Hd; apply Z.bits_0).
  rewrite Z.land_spec, Z.shiftl_spec in Hb by lia. replace (i + s - s) with i in Hb by lia.
  rewrite <- andb_assoc, Hb. by rewrite andb_false_r.
Qed.

Lemma bit_lor_page f pa i :
  Z.testbit S2_ADDRESS_MASK i = false ->
  Z.testbit (Z.lor f (Z.land pa S2_ADDRESS_MASK)) i = Z.testbit f i.
Proof. intros H. rewrite Z.lor_spec, Z.land_spec, H, andb_false_r. apply orb_false_r. Qed.

Lemma page_lor_fields f pa :
  Z.land f S2_ADDRESS_MASK = 0 ->
  Z.land (Z.lor f (Z.land pa S2_ADDRESS_MASK)) S2_ADDRESS_MASK = Z.land pa S2_ADDRESS_MASK.
Proof. intros H. by rewrite Z.land_lor_distr_l, H, <- Z.land_assoc, Z.land_diag. Qed.

Lemma high_disjoint v : Z.land (Z.shiftl v 48) S2_ADDRESS_MASK = 0.
Proof.
  apply Z.bits_inj'. intros i Hi. rewrite Z.land_spec, Z.bits_0, Z.shiftl_spec by done.
  destruct (Z.ltb_spec i 48).
  - by rewrite Z.testbit_neg_r by lia.
  - rewrite (testbit_bounded S2_ADDRESS_MASK 48 i) by done. apply andb_false_r.
Qed.

Lemma pa_range_cases pa_range :
  u8 pa_range ->
  (exists bits, pa_bits_from_pa_range pa_range = Ok bits /\ 0 <= pa_range <= 5 /\ 32 <= bits <= 48) \/
  (pa_bits_from_pa_range pa_range = Err InvalidPaBits /\ 6 <= pa_range).
Proof.
  intros [H0 _]. destruct (decide (pa_range <= 5)) as [H5|H5].
  - left. assert (H : 0 <= pa_range <= 5) by lia.
    case_range H; eexists; (split; [reflexivity|lia]).
  - right. split; [|lia]. unfold pa_bits_from_pa_range. repeat case_match; done || lia.
Qed.

Lemma decode_encode pa mt ac ex :
  0 <= pa < 2 ^ 48 -> pa mod PAGE_SIZE = 0 ->
  decode_l3_page_descriptor (encode_l3_page_descriptor pa mt ac ex) = Some (pa, mt, ac, ex).
Proof.
  intros Hr Ha. unfold decode_l3_page_descriptor, encode_l3_page_descriptor.
  rewrite !field_lor_page, bit_lor_page by (done || reflexivity).
  rewrite page_lor_fields by (by destruct mt, ac, ex). rewrite page_in_mask by done.
  by destruct mt, ac, ex.
Qed.

(** ** Theorems *)

(** [stage2_descriptor_roundtrip]: the stage-2 walker reads from an encoded
    descriptor exactly the page address, memory type, access and execute
    permission it was built from, for every 48-bit page address. *)
Lemma stage2_descriptor_roundtrip pa mt ac ex :
  0 <= pa < 2 ^ 48 -> pa mod PAGE_SIZE = 0 ->
  decode_l3_page_descriptor (encode_l3_page_descriptor pa mt ac ex) = Some (pa, mt, ac, ex).
Proof. apply decode_encode. Qed.

(** [stage2_registers_spec]: the register values are produced for exactly the
    page-aligned roots below the physical range of a known [pa_range]; then
    the table register carries the VM identifier and the root, the control
    register selects a 39-bit space walked from level 1 with 4 KiB pages and
    that physical range, and the hypervisor configuration adds stage 2 to
    every host control. *)
Lemma stage2_registers_spec vm_id root pa_range :
  u8 vm_id -> u64 root -> u8 pa_range ->
  match guest_stage2_register_values vm_id root pa_range with
  | Ok v =>
      (exists bits, pa_bits_from_pa_range pa_range = Ok bits /\ root < 2 ^ bits) /\ root mod PAGE_SIZE = 0 /\
      field (vttbr_el2 v) 48 8 = vm_id /\ Z.land (vttbr_el2 v) S2_ADDRESS_MASK = root /\
      field (vtcr_el2 v) 0 6 = 64 - IPA_BITS /\ field (vtcr_el2 v) 6 2 = 1 /\ field (vtcr_el2 v) 14 2 = 0 /\
      field (vtcr_el2 v) 16 3 = pa_range /\
      Z.land (hcr_el2 v) HOST_HCR = HOST_HCR /\ Z.testbit (hcr_el2 v) 0 = true /\ Z.testbit HOST_HCR 0 = false
  | Err InvalidPaBits => 6 <= pa_range
  | Err InvalidTableBase =>
      exists bits, pa_bits_from_pa_range pa_range = Ok bits /\ (root mod PAGE_SIZE <> 0 \/ 2 ^ bits <= root)
  | _ => False
  end.
Proof.
  intros Hvm Hroot Hpr. unfold guest_stage2_register_values.
  destruct (pa_range_cases pa_range Hpr) as [(bits & Hb & H5 & Hbits)|[Hb H6]]; rewrite Hb; cbn [obind]; [|done].
  rewrite Z.shiftl_1_l, sub64_ok by lia. cbn [obind]. rewrite is_page_aligned_mod.
  destruct (_ || _) eqn:E; [bool_prop|apply orb_false_iff in E].
  { exists bits. split; [done|]. destruct E as [E|E]; bool_prop; [by left|right; lia]. }
  destruct E as [Ha Hm]. bool_prop. assert (Hp : 2 ^ bits <= 2 ^ 48) by (apply Z.pow_le_mono_r; lia).
  cbn [vttbr_el2 vtcr_el2 hcr_el2]. unfold u64, u8 in *.
  split_and!; [exists bits; split; [done|lia]|done| | |..|reflexivity|reflexivity|reflexivity].
  - rewrite field_lor_page by done. unfold field. rewrite Z.shiftr_shiftl_l by lia.
    change (48 - 48) with 0. rewrite Z.shiftl_0_r, Z.land_ones by lia. apply Z.mod_small. lia.
  - rewrite page_lor_fields by apply high_disjoint. apply page_in_mask; [lia|done].
  - by case_range H5.
  - by case_range H5.
  - by case_range H5.
  - by case_range H5.
Qed.

(** ** Concrete instances *)

