(* ===== verification/Registers.v ===== *)
(** * System registers: src/tvisor_util/aarch64_reg.rs, [status_check] of src/src/main.rs

    Each register of [aarch64_reg.rs] is a word with its accessors; here it is
    a record of what the accessors return for a word.  A [dump] reads CurrentEL
    and then the register, as a program over the registers of the CPU, so that
    its trace shows what was read at which level.  [registers_round_trip] reads
    with these accessors the values the host's and the guest's policies write,
    and [status_check_exact] is about the checks tvisor makes before it takes
    the machine over. *)

From S2P Require Import Prelude Page Atomics El2Policy El2Stage1 GuestStage2.

(** ** Levels *)

Definition bit_check (value bit : Z) : bool := Z.land value (Z.shiftl 1 bit) =? Z.shiftl 1 bit.

Inductive ExceptionLevel := ELInvalid | EL0 | EL1 | EL2 | EL3.

#[global] Instance ExceptionLevel_eq_dec : EqDecision ExceptionLevel.
Proof. solve_decision. Defined.

(** The discriminants order the levels. *)
Definition level_number (el : ExceptionLevel) : Z :=
  match el with ELInvalid => -1 | EL0 => 0 | EL1 => 1 | EL2 => 2 | EL3 => 3 end.

Definition level_ge (el el' : ExceptionLevel) : bool := level_number el' <=? level_number el.

Definition ExceptionLevel_from (value : Z) : ExceptionLevel :=
  match value with 0 => EL0 | 1 => EL1 | 2 => EL2 | 3 => EL3 | _ => ELInvalid end.

Definition current_el (value : Z) : ExceptionLevel := ExceptionLevel_from (Z.land (Z.shiftr value 2) 3).

(** ** Reading a register *)

Inductive sysreg :=
| SysCurrentEl | SysMpidr | SysSpSel | SysSp | SysSctlr | SysHcr | SysTcr | SysTtbr0 | SysMair | SysVtcr | SysVttbr
| SysVbar | SysDaif | SysCptr | SysCnthctl | SysCntvoff | SysPfr0 | SysMmfr0 | SysHpfar | SysVmpidr.

#[global] Instance sysreg_eq_dec : EqDecision sysreg.
Proof. solve_decision. Defined.

Notation rprog A := (prog sysreg A).

Definition CurrentEL_dump : rprog ExceptionLevel := v <- load SysCurrentEl ;; Ret (current_el v).

(** [if el >= least { mrs; Some(..) } else { None }] *)
Definition dump_from (least : ExceptionLevel) (r : sysreg) : rprog (option Z) :=
  el <- CurrentEL_dump ;;
  if level_ge el least then v <- load r ;; Ret (Some v) else Ret None.

Definition MpidrEl1_dump : rprog (option Z) := dump_from EL1 SysMpidr.
Definition SpSel_dump : rprog (option Z) := dump_from EL1 SysSpSel.
Definition Sp_dump : rprog Z := load SysSp.
Definition SctlrEl2_dump : rprog (option Z) := dump_from EL2 SysSctlr.
Definition HcrEl2_dump : rprog (option Z) := dump_from EL2 SysHcr.
Definition TcrEl2_dump : rprog (option Z) := dump_from EL2 SysTcr.
Definition Ttbr0El2_dump : rprog (option Z) := dump_from EL2 SysTtbr0.
Definition MairEl2_dump : rprog (option Z) := dump_from EL2 SysMair.
Definition VtcrEl2_dump : rprog (option Z) := dump_from EL2 SysVtcr.
Definition VttbrEl2_dump : rprog (option Z) := dump_from EL2 SysVttbr.
Definition VbarEl2_dump : rprog (option Z) := dump_from EL2 SysVbar.
Definition CptrEl2_dump : rprog (option Z) := dump_from EL2 SysCptr.
Definition CnthctlEl2_dump : rprog (option Z) := dump_from EL2 SysCnthctl.
Definition CntvoffEl2_dump : rprog (option Z) := dump_from EL2 SysCntvoff.
Definition IdAa64Pfr0El1_dump : rprog (option Z) := dump_from EL1 SysPfr0.
Definition IdAa64Mmfr0El1_dump : rprog (option Z) := dump_from EL1 SysMmfr0.
Definition HpfarEl2_dump : rprog (option Z) := dump_from EL2 SysHpfar.
Definition VmpidrEl2_dump : rprog (option Z) := dump_from EL2 SysVmpidr.
Definition VmpidrEl2_write (value : Z) : rprog unit := store SysVmpidr value.

(** At EL0 the caller says whether SCTLR_EL1.UMA allows the read. *)
Definition Daif_dump (uma : option bool) : rprog (option Z) :=
  el <- CurrentEL_dump ;;
  if level_ge el EL1 || (bool_decide (el = EL0) && default false uma)
  then v <- load SysDaif ;; Ret (Some v) else Ret None.

(** ** Accessors *)

Record MpidrEl1 := { mpidr_affinity : Z * Z * Z * Z; mpidr_u : bool; mpidr_mt : bool; mpidr_current_core : Z }.

(** [(aff3, aff2, aff1, aff0)] *)
Definition affinity (value : Z) : Z * Z * Z * Z :=
  (as_u8 (Z.land (Z.shiftr value 32) 0xff), as_u8 (Z.land (Z.shiftr value 16) 0xff),
   as_u8 (Z.land (Z.shiftr value 8) 0xff), as_u8 (Z.land value 0xff)).

Definition MpidrEl1_view (value : Z) : MpidrEl1 := {|
  mpidr_affinity := affinity value;
  mpidr_u := bit_check value 30;
  mpidr_mt := bit_check value 24;
  mpidr_current_core := snd (affinity value)
|}.

Inductive SpEl := SpEL0 | SpEL1 | SpEL2 | SpEL3 | SpInvalid.

Definition sp_el (value : Z) (current_el : ExceptionLevel) : SpEl :=
  if Z.land value 1 =? 1 then
    match current_el with EL1 => SpEL1 | EL2 => SpEL2 | EL3 => SpEL3 | _ => SpInvalid end
  else SpEL0.

Definition sp_align (value : Z) : Z := Z.land value 0xf.

Record SctlrEl2 := {
  sctlr_m : bool; sctlr_a : bool; sctlr_c : bool; sctlr_sa : bool; sctlr_i : bool; sctlr_wxn : bool; sctlr_ee : bool
}.

Definition SctlrEl2_view (value : Z) : SctlrEl2 := {|
  sctlr_m := bit_check value 0;
  sctlr_a := bit_check value 1;
  sctlr_c := bit_check value 2;
  sctlr_sa := bit_check value 3;
  sctlr_i := bit_check value 12;
  sctlr_wxn := bit_check value 19;
  sctlr_ee := bit_check value 25
|}.

Record HcrEl2 := {
  hcr_vm : bool; hcr_swio : bool; hcr_ptw : bool; hcr_fmo : bool; hcr_imo : bool; hcr_amo : bool; hcr_vf : bool;
  hcr_vi : bool; hcr_vse : bool; hcr_twi : bool; hcr_twe : bool; hcr_tsc : bool; hcr_ttlb : bool; hcr_tvm : bool;
  hcr_tge : bool; hcr_hcd : bool; hcr_trvm : bool; hcr_rw : bool; hcr_e2h : bool
}.

#[global] Instance HcrEl2_eq_dec : EqDecision HcrEl2.
Proof. solve_decision. Defined.

Definition HcrEl2_view (value : Z) : HcrEl2 := {|
  hcr_vm := bit_check value 0;
  hcr_swio := bit_check value 1;
  hcr_ptw := bit_check value 2;
  hcr_fmo := bit_check value 3;
  hcr_imo := bit_check value 4;
  hcr_amo := bit_check value 5;
  hcr_vf := bit_check value 6;
  hcr_vi := bit_check value 7;
  hcr_vse := bit_check value 8;
  hcr_twi := bit_check value 13;
  hcr_twe := bit_check value 14;
  hcr_tsc := bit_check value 19;
  hcr_ttlb := bit_check value 25;
  hcr_tvm := bit_check value 26;
  hcr_tge := bit_check value 27;
  hcr_hcd := bit_check value 29;
  hcr_trvm := bit_check value 30;
  hcr_rw := bit_check value 31;
  hcr_e2h := bit_check value 34
|}.

Record TcrEl2 := {
  tcr_t0sz : Z; tcr_input_address_bits : Z; tcr_irgn0 : Z; tcr_orgn0 : Z; tcr_sh0 : Z; tcr_tg0 : Z; tcr_ps : Z;
  tcr_tbi : bool
}.

(** A field the accessor extracts with a shift, a mask and [as u8]. *)
Definition u8_field (value shift mask : Z) : Z := as_u8 (Z.land (Z.shiftr value shift) mask).

(** [64 - t0sz] cannot underflow: the field has six bits. *)
Definition TcrEl2_view (value : Z) : TcrEl2 := {|
  tcr_t0sz := as_u8 (Z.land value 0x3f);
  tcr_input_address_bits := 64 - as_u8 (Z.land value 0x3f);
  tcr_irgn0 := u8_field value 8 3;
  tcr_orgn0 := u8_field value 10 3;
  tcr_sh0 := u8_field value 12 3;
  tcr_tg0 := u8_field value 14 3;
  tcr_ps := u8_field value 16 7;
  tcr_tbi := bit_check value 20
|}.

Record TableBase := { tb_baddr : Z; tb_cnp : bool }.

Definition Ttbr0El2_view (value : Z) : TableBase := {|
  tb_baddr := Z.land value 0x0000fffffffffffe;
  tb_cnp := bit_check value 0
|}.

Definition MairEl2_attributes (value : Z) : list Z :=
  map (fun index => as_u8 (Z.land (Z.shiftr value (Z.of_nat index * 8)) 0xff)) (seq 0 8).

Record VtcrEl2 := {
  vtcr_t0sz : Z; vtcr_ipa_bits : Z; vtcr_sl0 : Z; vtcr_irgn0 : Z; vtcr_orgn0 : Z; vtcr_sh0 : Z; vtcr_tg0 : Z; vtcr_ps : Z;
  vtcr_vs : bool; vtcr_ds : bool
}.

Definition VtcrEl2_view (value : Z) : VtcrEl2 := {|
  vtcr_t0sz := as_u8 (Z.land value 0x3f);
  vtcr_ipa_bits := 64 - as_u8 (Z.land value 0x3f);
  vtcr_sl0 := u8_field value 6 3;
  vtcr_irgn0 := u8_field value 8 3;
  vtcr_orgn0 := u8_field value 10 3;
  vtcr_sh0 := u8_field value 12 3;
  vtcr_tg0 := u8_field value 14 3;
  vtcr_ps := u8_field value 16 7;
  vtcr_vs := bit_check value 19;
  vtcr_ds := bit_check value 32
|}.

Record VttbrEl2 := { vttbr_vmid : Z; vttbr_baddr : Z; vttbr_cnp : bool }.

Definition VttbrEl2_view (value : Z) : VttbrEl2 := {|
  vttbr_vmid := as_u16 (Z.land (Z.shiftr value 48) 0xffff);
  vttbr_baddr := Z.land value 0x0000fffffffffffe;
  vttbr_cnp := bit_check value 0
|}.

Definition VbarEl2_alignment (value : Z) : Z := Z.land value 0x7ff.
Definition VbarEl2_is_aligned (value : Z) : bool := VbarEl2_alignment value =? 0.

Record Daif := { daif_d : bool; daif_a : bool; daif_i : bool; daif_f : bool }.

Definition Daif_view (value : Z) : Daif := {|
  daif_d := bit_check value 9;
  daif_a := bit_check value 8;
  daif_i := bit_check value 7;
  daif_f := bit_check value 6
|}.

Definition CptrEl2_tfp (value : Z) : bool := bit_check value 10.

Record CnthctlEl2 := { el1pcten : bool; el1pcen : bool }.

Definition CnthctlEl2_view (value : Z) : CnthctlEl2 := {|
  el1pcten := bit_check value 0;
  el1pcen := bit_check value 1
|}.

Record IdAa64Pfr0El1 := { pfr0_el2 : Z; pfr0_fp : Z; pfr0_advsimd : Z; pfr0_gic : Z }.

Definition IdAa64Pfr0El1_view (value : Z) : IdAa64Pfr0El1 := {|
  pfr0_el2 := u8_field value 8 0xf;
  pfr0_fp := u8_field value 16 0xf;
  pfr0_advsimd := u8_field value 20 0xf;
  pfr0_gic := u8_field value 24 0xf
|}.

Definition pa_bits (pa_range : Z) : option Z :=
  match pa_range with
  | 0 => Some 32 | 1 => Some 36 | 2 => Some 40 | 3 => Some 42 | 4 => Some 44 | 5 => Some 48 | _ => None
  end.

Record IdAa64Mmfr0El1 := {
  mmfr0_range : Z; mmfr0_pa_bits : option Z; mmfr0_asidbits : Z; mmfr0_tgran16 : Z; mmfr0_tgran64 : Z; mmfr0_tgran4 : Z
}.

Definition IdAa64Mmfr0El1_view (value : Z) : IdAa64Mmfr0El1 := {|
  mmfr0_range := as_u8 (Z.land value 0xf);
  mmfr0_pa_bits := pa_bits (as_u8 (Z.land value 0xf));
  mmfr0_asidbits := u8_field value 4 0xf;
  mmfr0_tgran16 := u8_field value 20 0xf;
  mmfr0_tgran64 := u8_field value 24 0xf;
  mmfr0_tgran4 := u8_field value 28 0xf
|}.

Definition HpfarEl2_fipa_page (value : Z) : Z := Z.shiftl (Z.land (Z.shiftr value 4) 0x00000fffffffffff) 12 mod 2 ^ 64.

Definition HpfarEl2_fault_ipa (value far_el2 : Z) : Z := Z.lor (HpfarEl2_fipa_page value) (Z.land far_el2 0xfff).

Definition VMPIDR_RES1_BIT : Z := Z.shiftl 1 31.
Definition VMPIDR_U_BIT : Z := Z.shiftl 1 30.
Definition VMPIDR_MT_BIT : Z := Z.shiftl 1 24.

Definition VmpidrEl2_uniprocessor (vcpu_id : Z) : Z := Z.lor (Z.lor VMPIDR_RES1_BIT VMPIDR_U_BIT) (Z.land vcpu_id 0xff).

Record VmpidrEl2 := { vmpidr_res1 : bool; vmpidr_u : bool; vmpidr_mt : bool; vmpidr_aff0 : Z; vmpidr_aff1 : Z; vmpidr_aff2 : Z }.

Definition VmpidrEl2_view (value : Z) : VmpidrEl2 := {|
  vmpidr_res1 := negb (Z.land value VMPIDR_RES1_BIT =? 0);
  vmpidr_u := negb (Z.land value VMPIDR_U_BIT =? 0);
  vmpidr_mt := negb (Z.land value VMPIDR_MT_BIT =? 0);
  vmpidr_aff0 := u8_field value 0 0xff;
  vmpidr_aff1 := u8_field value 8 0xff;
  vmpidr_aff2 := u8_field value 16 0xff
|}.

(** ** [status_check] of src/src/main.rs *)

Definition is_some_and {A} (o : option A) (f : A -> bool) : bool := match o with Some a => f a | None => false end.

Definition status_check : rprog (outcome unit unit) :=
  el <- CurrentEL_dump ;;
  if negb (bool_decide (el = EL2)) then Ret (Err tt)
  else
    sctlr <- SctlrEl2_dump ;;
    if is_some_and sctlr (fun s => sctlr_ee (SctlrEl2_view s)) then Ret (Err tt)
    else
      vbar <- VbarEl2_dump ;;
      if is_some_and vbar (fun v => negb (VbarEl2_is_aligned v)) then Ret (Err tt)
      else
        pfr0 <- IdAa64Pfr0El1_dump ;;
        if is_some_and pfr0 (fun v => pfr0_el2 (IdAa64Pfr0El1_view v) =? 0) then Ret (Err tt)
        else
          mpidr <- MpidrEl1_dump ;;
          if negb (is_some_and mpidr (fun _ => true)) then Ret (Err tt) else Ret (Ok tt).

(** ** Round trips *)

Lemma bit_check_testbit value bit : 0 <= bit -> bit_check value bit = Z.testbit value bit.
Proof.
  intros Hb. unfold bit_check. rewrite Z.shiftl_1_l. destruct (Z.testbit value bit) eqn:E.
  - apply Z.eqb_eq. apply Z.bits_inj'. intros i Hi. rewrite Z.land_spec, Z.pow2_bits_eqb by done.
    destruct (Z.eqb_spec bit i) as [->|]; [by rewrite E|by rewrite andb_false_r].
  - apply Z.eqb_neq. intros Hl. apply (f_equal (fun z => Z.testbit z bit)) in Hl.
    rewrite Z.land_spec, E, Z.pow2_bits_true in Hl by done. done.
Qed.

(** The base field of a table register, bits 47 to 1. *)
Notation BADDR := 0x0000fffffffffffe.

(** A page address below 2^48 is its own table base. *)
Lemma baddr_page root : 0 <= root < 2 ^ 48 -> root mod PAGE_SIZE = 0 -> Z.land root BADDR = root.
Proof.
  intros Hr Ha. rewrite <- (page_in_mask root Hr Ha) at 1. rewrite <- Z.land_assoc.
  change (Z.land S2_ADDRESS_MASK BADDR) with S2_ADDRESS_MASK. by apply page_in_mask.
Qed.

(** An identifier above a base leaves the base alone, and is read back. *)
Lemma vttbr_fields id root :
  u8 id -> 0 <= root < 2 ^ 48 -> root mod PAGE_SIZE = 0 ->
  VttbrEl2_view (Z.lor (Z.shiftl id 48) (Z.land root S2_ADDRESS_MASK)) =
    {| vttbr_vmid := id; vttbr_baddr := root; vttbr_cnp := false |}.
Proof.
  intros Hid Hr Ha. rewrite (page_in_mask root Hr Ha). unfold VttbrEl2_view, u8 in *. f_equal.
  - rewrite Z.shiftr_lor, Z.shiftr_shiftl_l, (Z.shiftr_div_pow2 root), (Z.div_small root) by lia.
    rewrite Z.lor_0_r. change (48 - 48) with 0. rewrite Z.shiftl_0_r. unfold as_u16.
    rewrite <- Z.land_assoc. change (Z.land 0xffff (Z.ones 16)) with (Z.ones 16). rewrite Z.land_ones by lia.
    apply Z.mod_small. lia.
  - rewrite Z.land_lor_distr_l, (baddr_page root Hr Ha).
    replace (Z.land (Z.shiftl id 48) BADDR) with 0; [by rewrite Z.lor_0_l|].
    symmetry. apply Z.bits_inj'. intros i Hi. rewrite Z.land_spec, Z.bits_0, Z.shiftl_spec by done.
    destruct (Z.ltb_spec i 48); [by rewrite Z.testbit_neg_r by lia|].
    rewrite (testbit_bounded BADDR 48 i) by (done || lia). apply andb_false_r.
  - rewrite bit_check_testbit by done. rewrite Z.lor_spec, Z.shiftl_spec, Z.testbit_neg_r by lia. cbn [orb].
    rewrite <- (page_in_mask root Hr Ha), Z.land_spec. apply andb_false_r.
Qed.

(** [registers_round_trip]: the accessors read back what the policies write.
    The host's registers select a 39-bit space with 4 KiB pages, write-back
    inner-shareable walks, the physical range of the processor and the given
    root, enable translation, caches, stack alignment and execute-never for
    writable memory, little-endian, and route interrupts to EL2.  The guest's
    registers carry its identifier and its root, the same geometry, and differ
    from the host's controls exactly in stage 2, set/way conversion and trapped
    secure calls; its identity is a single processor. *)
Theorem registers_round_trip root pa_range :
  u64 root -> u8 pa_range ->
  (forall p, HostTranslation_new root pa_range = Ok p ->
     TcrEl2_view (ht_tcr p) = {| tcr_t0sz := 25; tcr_input_address_bits := 39; tcr_irgn0 := 1; tcr_orgn0 := 1;
                                 tcr_sh0 := 3; tcr_tg0 := 0; tcr_ps := pa_range; tcr_tbi := false |} /\
     Ttbr0El2_view (ht_root p) = {| tb_baddr := root; tb_cnp := false |} /\
     MairEl2_attributes HOST_MAIR = [MAIR_NORMAL_WB_WA; MAIR_DEVICE_NGNRE; 0; 0; 0; 0; 0; 0] /\
     SctlrEl2_view HOST_SCTLR = {| sctlr_m := true; sctlr_a := false; sctlr_c := true; sctlr_sa := true; sctlr_i := true;
                                   sctlr_wxn := true; sctlr_ee := false |} /\
     hcr_vm (HcrEl2_view HOST_HCR) = false /\ hcr_imo (HcrEl2_view HOST_HCR) = true /\
     CptrEl2_tfp HOST_CPTR = false) /\
  (forall vm_id v, u8 vm_id -> guest_stage2_register_values vm_id root pa_range = Ok v ->
     VttbrEl2_view (vttbr_el2 v) = {| vttbr_vmid := vm_id; vttbr_baddr := root; vttbr_cnp := false |} /\
     VtcrEl2_view (vtcr_el2 v) = {| vtcr_t0sz := 25; vtcr_ipa_bits := IPA_BITS; vtcr_sl0 := 1; vtcr_irgn0 := 1;
                                    vtcr_orgn0 := 1; vtcr_sh0 := 3; vtcr_tg0 := 0; vtcr_ps := pa_range;
                                    vtcr_vs := false; vtcr_ds := false |} /\
     (let g := HcrEl2_view (hcr_el2 v) in let h := HcrEl2_view HOST_HCR in
      hcr_vm g = true /\ hcr_swio g = true /\ hcr_tsc g = true /\
      g = {| hcr_vm := true; hcr_swio := true; hcr_ptw := hcr_ptw h; hcr_fmo := hcr_fmo h; hcr_imo := hcr_imo h;
             hcr_amo := hcr_amo h; hcr_vf := hcr_vf h; hcr_vi := hcr_vi h; hcr_vse := hcr_vse h; hcr_twi := hcr_twi h;
             hcr_twe := hcr_twe h; hcr_tsc := true; hcr_ttlb := hcr_ttlb h; hcr_tvm := hcr_tvm h; hcr_tge := hcr_tge h;
             hcr_hcd := hcr_hcd h; hcr_trvm := hcr_trvm h; hcr_rw := hcr_rw h; hcr_e2h := hcr_e2h h |}) /\
     VmpidrEl2_view (vmpidr_el2 v) = VmpidrEl2_view (VmpidrEl2_uniprocessor 0)).
Proof.
  intros Hr Hp. split.
  - intros p Hn. pose proof Hn as (H5 & _ & Ha & Hs & ->)%HostTranslation_new_Ok; [|apply Hp].
    assert (H : 0 <= pa_range <= 5) by (unfold u8 in Hp; lia). cbn [ht_tcr ht_root].
    split_and!; [|..|vm_compute; reflexivity|vm_compute; reflexivity|vm_compute; reflexivity|vm_compute; reflexivity|vm_compute; reflexivity].
    + by case_range H; vm_compute.
    + pose proof (bits_of_range_nonneg pa_range H). unfold u64 in Hr. change 4095 with (Z.ones 12) in Ha.
      rewrite Z.land_ones in Ha by lia. rewrite Z.shiftr_div_pow2 in Hs by done. apply Z.div_small_iff in Hs; [|lia].
      assert (root < 2 ^ 48).
      { assert (2 ^ bits_of_range pa_range <= 2 ^ 48) by (apply Z.pow_le_mono_r; [lia|by case_range H]). lia. }
      unfold Ttbr0El2_view. rewrite baddr_page by (done || lia). f_equal. rewrite bit_check_testbit by done.
      rewrite <- (page_in_mask root), Z.land_spec by (done || lia). apply andb_false_r.
  - intros vm_id v Hid Hv. unfold guest_stage2_register_values in Hv.
    destruct (pa_range_cases pa_range Hp) as [(bits & Hb & H & Hbits)|[Hb _]]; rewrite Hb in Hv; cbn [obind] in Hv; [|done].
    rewrite Z.shiftl_1_l, sub64_ok in Hv by lia. cbn [obind] in Hv. rewrite is_page_aligned_mod in Hv.
    destruct (_ || _) eqn:E; [done|]. injection Hv as <-. apply orb_false_iff in E as [Ha Hm]. bool_prop.
    assert (2 ^ bits <= 2 ^ 48) by (apply Z.pow_le_mono_r; lia). unfold u64 in Hr. cbn [vttbr_el2 vtcr_el2 hcr_el2 vmpidr_el2].
    split_and!; [apply vttbr_fields; done || lia|by case_range H; vm_compute|vm_compute; reflexivity..].
Qed.

(** ** The checks before the takeover *)

(** The lowest level that may read a register. *)
Definition least_level (r : sysreg) : ExceptionLevel :=
  match r with
  | SysCurrentEl | SysSp => EL0
  | SysMpidr | SysSpSel | SysDaif | SysPfr0 | SysMmfr0 => EL1
  | _ => EL2
  end.

(** The registers do not change during the checks. *)
Definition reads_from (f : sysreg -> Z) (e : event sysreg) : Prop :=
  match e with ELoad r v => v = f r | _ => True end.

Definition allowed_at (el : ExceptionLevel) (e : event sysreg) : Prop :=
  match e with ELoad r _ => level_ge el (least_level r) = true | _ => False end.

Definition handed_over (f : sysreg -> Z) : Prop :=
  current_el (f SysCurrentEl) = EL2 /\ Z.testbit (f SysSctlr) 25 = false /\ f SysVbar mod 2048 = 0 /\
  field (f SysPfr0) 8 4 <> 0.

(** Reading a register of EL2 or below at EL2 gives its value. *)
Lemma dump_at_el2 f r least tr o :
  current_el (f SysCurrentEl) = EL2 -> Forall (reads_from f) tr -> steps (dump_from least r) tr (Ret o) ->
  level_ge EL2 least = true -> level_ge EL2 (least_level r) = true ->
  o = Some (f r) /\ Forall (allowed_at EL2) tr.
Proof.
  intros Hel Hf Hs Hge Hr. unfold dump_from, CurrentEL_dump in Hs. cbn in Hs. inversion Hs; subst.
  apply Forall_cons in Hf as [Hv Hf]. cbn in Hv. subst v. rewrite Hel, Hge in *. cbn in *.
  match goal with H : steps (Load _ _) _ _ |- _ => inversion H; subst end.
  apply Forall_cons in Hf as [Hv Hf]. cbn in Hv. subst v.
  match goal with H : steps (Ret _) _ _ |- _ => apply steps_ret_inv in H as [-> [= <-]] end.
  split; [done|]. by repeat constructor.
Qed.

Lemma u8_field_field value shift width : 0 <= width <= 8 -> u8_field value shift (Z.ones width) = field value shift width.
Proof.
  intros Hw. unfold u8_field, as_u8, field. rewrite <- Z.land_assoc. f_equal.
  rewrite Z.land_ones by lia. apply Z.mod_small. rewrite Z.ones_equiv.
  assert (2 ^ width <= 2 ^ 8) by (apply Z.pow_le_mono_r; lia). assert (0 < 2 ^ width) by (apply Z.pow_pos_nonneg; lia). lia.
Qed.

Lemma vbar_aligned value : VbarEl2_is_aligned value = true <-> value mod 2048 = 0.
Proof.
  unfold VbarEl2_is_aligned, VbarEl2_alignment. change 0x7ff with (Z.ones 11). rewrite Z.land_ones, Z.eqb_eq by lia. done.
Qed.

(** Peels one read off a run of the checks. *)
Ltac peel_dump Hs Hf Hel Ha :=
  let t1 := fresh "t" in let t2 := fresh "t" in let o := fresh "o" in let H1 := fresh "H" in let Hf1 := fresh "Hf" in
  apply steps_bind_inv in Hs as (t1 & t2 & o & -> & H1 & Hs); apply Forall_app in Hf as [Hf1 Hf];
  destruct (dump_at_el2 _ _ _ _ _ Hel Hf1 H1 eq_refl eq_refl) as [-> Ha]; cbn [is_some_and negb] in Hs.

(** The checks after the level, at EL2. *)
Definition el2_checks : rprog (outcome unit unit) :=
  match status_check with Load _ k => k 8 | p => p end.

Lemma el2_checks_exact f tr r :
  current_el (f SysCurrentEl) = EL2 -> Forall (reads_from f) tr -> steps el2_checks tr (Ret r) ->
  (r = Ok tt <-> Z.testbit (f SysSctlr) 25 = false /\ f SysVbar mod 2048 = 0 /\ field (f SysPfr0) 8 4 <> 0) /\
  no_panic r /\ Forall (allowed_at EL2) tr.
Proof.
  intros Hel Hf Hs. unfold el2_checks in Hs. cbn [status_check CurrentEL_dump load pbind] in Hs.
  change (negb (bool_decide (current_el 8 = EL2))) with false in Hs. cbn iota in Hs.
  peel_dump Hs Hf Hel Ha1. cbn [SctlrEl2_view sctlr_ee] in Hs. rewrite bit_check_testbit in Hs by done.
  destruct (Z.testbit (f SysSctlr) 25) eqn:E1.
  { apply steps_ret_inv in Hs as [-> <-]. rewrite app_nil_r. split_and!; [split; naive_solver|done|done]. }
  peel_dump Hs Hf Hel Ha2. pose proof (vbar_aligned (f SysVbar)) as Hv. destruct (VbarEl2_is_aligned (f SysVbar)); cbn [negb] in Hs.
  2:{ apply steps_ret_inv in Hs as [-> <-]. rewrite app_nil_r.
      split_and!; [split; naive_solver|done|by apply Forall_app_2]. }
  peel_dump Hs Hf Hel Ha3. cbn [IdAa64Pfr0El1_view pfr0_el2] in Hs. change 0xf with (Z.ones 4) in Hs.
  rewrite u8_field_field in Hs by lia. destruct (Z.eqb_spec (field (f SysPfr0) 8 4) 0) as [E3|E3].
  { apply steps_ret_inv in Hs as [-> <-]. rewrite app_nil_r.
    split_and!; [split; naive_solver|done|by repeat apply Forall_app_2]. }
  peel_dump Hs Hf Hel Ha4. apply steps_ret_inv in Hs as [-> <-]. rewrite app_nil_r.
  split_and!; [split; naive_solver|done|by repeat apply Forall_app_2].
Qed.

(** [status_check_exact]: the checks pass exactly when tvisor was entered at EL2
    with little-endian data accesses, an aligned vector base and EL2 in the
    processor's feature register.  They never panic, and whatever level they
    run at, they read only registers this level may read: nothing but CurrentEL
    before the level is known. *)
Theorem status_check_exact f tr r :
  Forall (reads_from f) tr -> steps status_check tr (Ret r) ->
  (r = Ok tt <-> handed_over f) /\ no_panic r /\ Forall (allowed_at (current_el (f SysCurrentEl))) tr.
Proof.
  intros Hf Hs. unfold status_check in Hs. apply steps_bind_inv in Hs as (t1 & t2 & el & -> & H1 & Hs).
  cbn in H1. inversion H1 as [|? ? v ? ? H2| | | | |]; subst. apply steps_ret_inv in H2 as [-> <-].
  apply Forall_cons in Hf as [Hv Hf]. cbn in Hv. subst v. cbn [app].
  assert (Hcur : allowed_at (current_el (f SysCurrentEl)) (ELoad SysCurrentEl (f SysCurrentEl))).
  { cbn. unfold current_el. assert (Hb : 0 <= Z.land (Z.shiftr (f SysCurrentEl) 2) 3 < 4).
    { change 3 with (Z.ones 2). rewrite Z.land_ones by lia. apply Z.mod_pos_bound. lia. }
    set (x := Z.land _ 3) in *. assert (x = 0 \/ x = 1 \/ x = 2 \/ x = 3) as [->|[->|[->| ->]]] by lia; done. }
  unfold handed_over. case_bool_decide as Hel; cbn [negb] in Hs.
  2:{ apply steps_ret_inv in Hs as [-> <-]. split_and!; [split; [done|tauto]|done|by repeat constructor]. }
  assert (Hs' : steps el2_checks t2 (Ret r)) by exact Hs.
  destruct (el2_checks_exact f t2 r Hel Hf Hs') as (Hr & Hp & Ha). rewrite Hel. split_and!; [tauto|done|].
  rewrite Hel in Hcur. by constructor.
Qed.

(** ** Concrete instances *)

(** A Cortex-A72 at EL2, as U-Boot leaves it. *)
Definition board_registers (r : sysreg) : Z :=
  match r with
  | SysCurrentEl => 8
  | SysMpidr => 0x80000000
  | SysSctlr => 0x30c5183d
  | SysVbar => 0x3b7f6000
  | SysPfr0 => 0x2222
  | _ => 0
  end.

Definition status_trace : list (event sysreg) :=
  map (fun r => ELoad r (board_registers r))
    [SysCurrentEl; SysCurrentEl; SysSctlr; SysCurrentEl; SysVbar; SysCurrentEl; SysPfr0; SysCurrentEl; SysMpidr].

Lemma status_check_exact_witness :
  steps status_check status_trace (Ret (Ok tt)) /\ handed_over board_registers /\ Forall (allowed_at EL2) status_trace.
Proof.
  assert (Hs : steps status_check status_trace (Ret (Ok tt))) by (repeat constructor).
  assert (Hf : Forall (reads_from board_registers) status_trace) by (by repeat constructor).
  destruct (status_check_exact board_registers status_trace (Ok tt) Hf Hs) as (Hr & _ & Ha).
  split; [exact Hs|]. split; [by apply Hr|exact Ha].
Defined.

Lemma registers_round_trip_witness :
  exists p, HostTranslation_new 0x40200000 4 = Ok p /\ tcr_ps (TcrEl2_view (ht_tcr p)) = 4 /\
    tb_baddr (Ttbr0El2_view (ht_root p)) = 0x40200000.
Proof.
  destruct (registers_round_trip 0x40200000 4 ltac:(unfold u64; lia) ltac:(unfold u8; lia)) as [Hh _].
  destruct (HostTranslation_new 0x40200000 4) as [p| |] eqn:E; [|by vm_compute in E..].
  destruct (Hh p eq_refl) as (Ht & Hb & _). exists p. by rewrite Ht, Hb.
Defined.
