(* ===== verification/GuestPlatform.v ===== *)
(** * The guest's address layout: src/tvisor_util/guest_platform.rs

    The intermediate physical addresses a guest sees: its RAM, the virtual
    interrupt controller and the virtual UART, the check of the whole layout,
    and the placement of a host device in a guest window. *)

From S2P Require Import Prelude Page SystemInfo GuestStage2.

Definition MIB : Z := 1024 * 1024.
Definition DEFAULT_GUEST_RAM_SIZE : Z := 512 * MIB.

Record IpaRegion := mkIpa { ipa_start : Z; ipa_size : Z }.

Definition IpaRegion_end (self : IpaRegion) : option Z := checked_add (ipa_start self) (ipa_size self).

Definition IpaRegion_overlaps (self other : IpaRegion) : bool :=
  match IpaRegion_end self, IpaRegion_end other with
  | Some e, Some other_end => (ipa_start self <? other_end) && (ipa_start other <? e)
  | _, _ => true
  end.

Definition GUEST_RAM : IpaRegion := mkIpa 0x40000000 DEFAULT_GUEST_RAM_SIZE.
Definition GUEST_GICV : IpaRegion := mkIpa 0x08010000 (2 * PAGE_SIZE).
Definition GUEST_GICD : IpaRegion := mkIpa 0x08000000 0x10000.
Definition GUEST_PL011 : IpaRegion := mkIpa 0x09000000 PAGE_SIZE.
Definition VIRTUAL_PL011_IRQ : Z := 33.
Definition GUEST_PL011_CLOCK_HZ : Z := 24000000.

Inductive GuestPlatformError :=
| EmptyRegion
| UnalignedRegion
| PlatformOverflow
| IpaOutOfRange
| OverlappingRegions
| InvalidDeviceSize
| DeviceDoesNotFit.

#[global] Instance GuestPlatformError_eq_dec : EqDecision GuestPlatformError.
Proof. solve_decision. Defined.

Record GuestDeviceMapping := mkDeviceMapping {
  device_ipa : Z;
  device : PhysRegion;
  mapped_pa : Z;
  mapping_size : Z
}.

Definition map_device_into_window (window : IpaRegion) (dev : PhysRegion) :
    outcome GuestPlatformError GuestDeviceMapping :=
  let page_size := PAGE_SIZE in
  reject (ipa_size window =? 0) || negb (Z.land (ipa_start window) (page_size - 1) =? 0)
      || negb (Z.land (ipa_size window) (page_size - 1) =? 0) with UnalignedRegion in
  let offset := Z.land (rstart dev) (page_size - 1) in
  let? mapped := sub64 (rstart dev) offset in
  let? required := ok_or (checked_add offset (rsize dev)) PlatformOverflow in
  let? padded := ok_or (checked_add required (page_size - 1)) PlatformOverflow in
  let msize := Z.land padded (not64 (page_size - 1)) in
  reject ipa_size window <? msize with DeviceDoesNotFit in
  let? ipa := ok_or (checked_add (ipa_start window) offset) PlatformOverflow in
  Ok (mkDeviceMapping ipa dev mapped msize).

(** The inner loop of [validate], from [other = index + 1] on. *)
Fixpoint check_overlaps (region : IpaRegion) (others : list IpaRegion) : outcome GuestPlatformError unit :=
  match others with
  | [] => Ok tt
  | other :: others => reject IpaRegion_overlaps region other with OverlappingRegions in check_overlaps region others
  end.

(** The outer loop of [validate] on the regions from [index] on. *)
Fixpoint validate_regions (max_ipa : Z) (regions : list IpaRegion) : outcome GuestPlatformError unit :=
  match regions with
  | [] => Ok tt
  | region :: rest =>
      reject ipa_size region =? 0 with EmptyRegion in
      reject negb (Z.land (ipa_start region) (PAGE_SIZE - 1) =? 0)
          || negb (Z.land (ipa_size region) (PAGE_SIZE - 1) =? 0) with UnalignedRegion in
      let? e := ok_or (IpaRegion_end region) PlatformOverflow in
      let? last := sub64 e 1 in
      reject max_ipa <? last with IpaOutOfRange in
      let? _ := check_overlaps region rest in
      validate_regions max_ipa rest
  end.

Definition validate : outcome GuestPlatformError unit :=
  let? max_ipa := sub64 (Z.shiftl 1 IPA_BITS) 1 in
  let? _ := validate_regions max_ipa [GUEST_RAM; GUEST_GICD; GUEST_GICV; GUEST_PL011] in
  reject negb (ipa_size GUEST_GICD =? 0x10000) || negb (ipa_size GUEST_GICV =? 2 * PAGE_SIZE)
      || negb (ipa_size GUEST_PL011 =? PAGE_SIZE) with InvalidDeviceSize in
  Ok tt.

(** ** Specification *)

Definition in_ipa (r : IpaRegion) (a : Z) : Prop := ipa_start r <= a < ipa_start r + ipa_size r.

Definition ipa_bounded (r : IpaRegion) : Prop := u64 (ipa_start r) /\ u64 (ipa_size r).

(** A non-empty page-aligned region that ends by [limit]. *)
Definition ipa_region_ok (limit : Z) (r : IpaRegion) : Prop :=
  0 < ipa_size r /\ ipa_start r mod PAGE_SIZE = 0 /\ ipa_size r mod PAGE_SIZE = 0 /\
  ipa_start r + ipa_size r <= limit.

Definition ipa_disjoint (r r' : IpaRegion) : Prop := forall a, in_ipa r a -> ~ in_ipa r' a.

(** ** Lemmas *)

Lemma land_page_mask v : Z.land v (PAGE_SIZE - 1) = v mod PAGE_SIZE.
Proof. apply (land_pow2_pred v 12). lia. Qed.

Lemma aligned_top v : v < 2 ^ 64 -> v mod PAGE_SIZE = 0 -> v + PAGE_SIZE <= 2 ^ 64.
Proof. unfold PAGE_SIZE. intros. Z.to_euclidean_division_equations. lia. Qed.

Lemma aligned_offset v o : v mod PAGE_SIZE = 0 -> 0 <= o < PAGE_SIZE -> (v + o) mod PAGE_SIZE = o.
Proof. intros Hv Ho. rewrite Z.add_mod, Hv, Z.add_0_l, Z.mod_mod by done. by apply Z.mod_small. Qed.

Lemma IpaRegion_overlaps_spec r r' limit :
  limit < 2 ^ 64 -> ipa_region_ok limit r -> ipa_region_ok limit r' ->
  IpaRegion_overlaps r r' = false <-> ipa_disjoint r r'.
Proof.
  intros Hl (Hp & _ & _ & He) (Hp' & _ & _ & He'). unfold IpaRegion_overlaps, IpaRegion_end.
  rewrite (proj2 (checked_add_Some _ _ _) (conj eq_refl (Z.le_lt_trans _ _ _ He Hl))).
  rewrite (proj2 (checked_add_Some _ _ _) (conj eq_refl (Z.le_lt_trans _ _ _ He' Hl))).
  unfold ipa_disjoint, in_ipa. split.
  - intros H a. bool_prop. destruct H; bool_prop; lia.
  - intros H. destruct (_ && _) eqn:E; [|done]. bool_prop.
    specialize (H (Z.max (ipa_start r) (ipa_start r'))). lia.
Qed.

Lemma check_overlaps_ok r rs :
  check_overlaps r rs = Ok tt <-> Forall (fun r' => IpaRegion_overlaps r r' = false) rs.
Proof.
  induction rs as [|r' rs IH]; simpl; [by split|]. rewrite Forall_cons, <- IH.
  destruct (IpaRegion_overlaps r r'); naive_solver.
Qed.

(** One turn of the outer loop. *)
Lemma validate_regions_cons limit r rs :
  limit < 2 ^ 64 -> ipa_bounded r ->
  validate_regions (limit - 1) (r :: rs) = Ok tt <->
  ipa_region_ok limit r /\ Forall (fun r' => IpaRegion_overlaps r r' = false) rs /\
  validate_regions (limit - 1) rs = Ok tt.
Proof.
  intros Hl [Hs Hz]. cbn [validate_regions]. rewrite !land_page_mask. unfold IpaRegion_end, ipa_region_ok.
  unfold u64 in *. rewrite <- check_overlaps_ok.
  destruct (Z.eqb_spec (ipa_size r) 0); [split; [done|lia]|].
  destruct (Z.eqb_spec (ipa_start r mod PAGE_SIZE) 0); [|split; [done|tauto]].
  destruct (Z.eqb_spec (ipa_size r mod PAGE_SIZE) 0); [|split; [done|tauto]].
  simpl. destruct (checked_add _ _) as [e'|] eqn:E; simpl.
  - apply checked_add_Some in E as [-> E]. rewrite sub64_ok by lia. cbn [obind].
    destruct (Z.ltb_spec (limit - 1) (ipa_start r + ipa_size r - 1)); [split; [done|lia]|].
    destruct (check_overlaps r rs) as [[]|e'|]; cbn [obind]; [|split; [done|naive_solver]..].
    split; [intros H'|intros (_ & _ & H')]; [split_and!; done || lia|done].
  - apply checked_add_None in E. split; [done|lia].
Qed.

Lemma validate_regions_spec limit rs :
  limit < 2 ^ 64 -> Forall ipa_bounded rs ->
  validate_regions (limit - 1) rs = Ok tt <->
  Forall (ipa_region_ok limit) rs /\ ForallOrdPairs ipa_disjoint rs.
Proof.
  intros Hl. induction 1 as [|r rs Hr Hrs IH]; [split; [by repeat constructor|done]|].
  rewrite validate_regions_cons, IH, Forall_cons by done. split.
  - intros (Hok & Ho & Hoks & Hp). split_and!; [done..|]. constructor; [|done].
    rewrite Forall_forall in *. intros r' Hin. by apply (IpaRegion_overlaps_spec r r' limit); auto.
  - intros ((Hok & Hoks) & Hp). inversion_clear Hp. split_and!; [done| |done..].
    rewrite Forall_forall in *. intros r' Hin. apply (IpaRegion_overlaps_spec r r' limit); auto.
Qed.

(** ** Theorems *)

(** [guest_layout_valid]: the layout check accepts a list of regions exactly
    when each is a non-empty run of pages below [2 ^ IPA_BITS] and no two share
    an address, and it accepts the guest's own layout. *)
Lemma guest_layout_valid :
  (forall rs, Forall ipa_bounded rs ->
    validate_regions (2 ^ IPA_BITS - 1) rs = Ok tt <->
    Forall (ipa_region_ok (2 ^ IPA_BITS)) rs /\ ForallOrdPairs ipa_disjoint rs) /\
  validate = Ok tt.
Proof.
  split; [|reflexivity]. intros rs Hrs. apply validate_regions_spec; [|done]. by vm_compute.
Qed.

(** [map_device_into_window_spec]: placing a host device in a guest window
    never panics. On success the guest reaches each byte of the device at the
    same page offset through whole pages inside the window, with no fewer
    pages possible. It fails exactly for a window that is not a run of pages,
    a device that does not fit, or one whose rounded size passes [2 ^ 64]. *)
Lemma map_device_into_window_spec w d :
  ipa_bounded w -> region_ok d ->
  let offset := rstart d mod PAGE_SIZE in
  match map_device_into_window w d with
  | Ok m =>
      device m = d /\ mapped_pa m mod PAGE_SIZE = 0 /\ mapping_size m mod PAGE_SIZE = 0 /\
      device_ipa m mod PAGE_SIZE = offset /\ mapping_size m <= ipa_size w /\
      (forall i, 0 <= i < rsize d ->
        0 <= device_ipa m + i - ipa_start w < mapping_size m /\
        mapped_pa m + (device_ipa m + i - ipa_start w) = rstart d + i) /\
      (forall n, n mod PAGE_SIZE = 0 -> offset + rsize d <= n -> mapping_size m <= n)
  | Err UnalignedRegion =>
      ipa_size w = 0 \/ ipa_start w mod PAGE_SIZE <> 0 \/ ipa_size w mod PAGE_SIZE <> 0
  | Err DeviceDoesNotFit => ipa_size w < offset + rsize d
  | Err PlatformOverflow => 2 ^ 64 <= offset + rsize d + (PAGE_SIZE - 1)
  | _ => False
  end.
Proof.
  intros [Hs Hz] (H1 & H2 & H3) offset. unfold rend in H3. unfold map_device_into_window, u64 in *.
  rewrite !land_page_mask. fold offset.
  pose proof (Z.mod_pos_bound (rstart d) PAGE_SIZE ltac:(done)) as Ho. fold offset in Ho.
  pose proof (Z.mod_le (rstart d) PAGE_SIZE ltac:(done) ltac:(done)) as Hle. fold offset in Hle.
  destruct (_ || _ || _) eqn:E; bool_prop.
  { destruct E as [E|E]; bool_prop; [destruct E as [E|E]; bool_prop|]; tauto. }
  rewrite sub64_ok by lia. cbn [obind].
  destruct (checked_add offset (rsize d)) as [req|] eqn:Er; cbn [ok_or obind]; [|apply checked_add_None in Er; lia].
  apply checked_add_Some in Er as [-> Er].
  destruct (checked_add (offset + rsize d) _) as [padded|] eqn:Ep; cbn [ok_or obind]; [|by apply checked_add_None in Ep].
  set (msize := Z.land padded _).
  assert (Hm : align_up (offset + rsize d) PAGE_SIZE = Some msize) by (unfold align_up; by rewrite Ep).
  apply align_up_least in Hm as (Hm & Ha & _ & Hleast); [|unfold u64; lia|done].
  destruct (Z.ltb_spec (ipa_size w) msize) as [Hf|Hf].
  { destruct (decide (offset + rsize d <= ipa_size w)) as [Hd|Hd]; [|lia].
    specialize (Hleast (ipa_size w) ltac:(done) Hd). lia. }
  assert (Ht : ipa_start w + PAGE_SIZE <= 2 ^ 64) by (apply aligned_top; [lia|done]).
  assert (Hc : checked_add (ipa_start w) offset = Some (ipa_start w + offset)) by (apply checked_add_Some; lia).
  rewrite Hc. cbn [ok_or obind].
  cbn [device mapped_pa mapping_size device_ipa]. split_and!; [done|by apply sub_mod_aligned|done| |lia| |done].
  - apply aligned_offset; done.
  - intros i Hi. lia.
Qed.

(** ** Concrete instances *)

