(* ===== verification/LinuxBoot.v ===== *)
(** * The Linux boot layout: src/tvisor_util/linux_boot.rs

    Parsing of the arm64 [Image] header and the placement of the image, the
    device tree and the initial RAM disk in guest RAM.  An image is its list
    of bytes.  The layout is specified declaratively by [layout_fits]; the
    code is shown to find the lowest such layout, or none exists. *)

From S2P Require Import Prelude Page GuestPlatform.

Definition LINUX_IMAGE_BASE_ALIGNMENT : Z := 2 * 1024 * 1024.
Definition LINUX_DTB_CAPACITY : Z := 2 * 1024 * 1024.
Definition LINUX_IMAGE_HEADER_SIZE : nat := 64.
Definition LINUX_IMAGE_MAGIC : Z := 0x644d5241.

Inductive LinuxImageError :=
| HeaderTooSmall
| BadMagic
| LegacyImageSize
| HeaderImageTooLarge
| BigEndianImage.

Record LinuxImageHeader := mkHeader { text_offset : Z; image_size : Z; flags : Z }.

(** [u32::from_le_bytes] and [u64::from_le_bytes]. *)
Fixpoint from_le_bytes (bs : list Z) : Z :=
  match bs with
  | [] => 0
  | b :: bs => b + 256 * from_le_bytes bs
  end.

(** [&image[a..b]]. *)
Definition slice {E} (l : list Z) (a b : nat) : outcome E (list Z) :=
  if ((a <=? b) && (b <=? length l))%nat then Ok (firstn (b - a) (skipn a l)) else Panic.

Definition LinuxImageHeader_parse (image : list Z) : outcome LinuxImageError LinuxImageHeader :=
  reject (length image <? LINUX_IMAGE_HEADER_SIZE)%nat with HeaderTooSmall in
  let? magic := slice image 56 60 in
  reject negb (from_le_bytes magic =? LINUX_IMAGE_MAGIC) with BadMagic in
  let? offset := slice image 8 16 in
  let? size := slice image 16 24 in
  let? fl := slice image 24 32 in
  reject negb (Z.land (from_le_bytes fl) 1 =? 0) with BigEndianImage in
  reject from_le_bytes size =? 0 with LegacyImageSize in
  reject from_le_bytes size <? Z.of_nat (length image) with HeaderImageTooLarge in
  Ok (mkHeader (from_le_bytes offset) (from_le_bytes size) (from_le_bytes fl)).

Definition page_size_encoding (self : LinuxImageHeader) : Z := Z.land (Z.shiftr (flags self) 1) 3.

Definition requires_48bit_placement (self : LinuxImageHeader) : bool :=
  negb (Z.land (flags self) (Z.shiftl 1 3) =? 0).

Inductive LinuxBootLayoutError :=
| Image (e : LinuxImageError)
| InvalidRam
| ImageTooLarge
| DtbTooLarge
| InitrdTooLarge
| LayoutOverflow.

Definition align_up (value alignment : Z) : outcome LinuxBootLayoutError Z :=
  let remainder := value mod alignment in
  if remainder =? 0 then Ok value
  else let? up := sub64 alignment remainder in ok_or (checked_add value up) LayoutOverflow.

Record LinuxBootLayout := mkLayout {
  ram_ipa : Z;
  ram_size : Z;
  image_header : LinuxImageHeader;
  image_ipa : Z;
  dtb_ipa : Z;
  initrd : option (Z * Z)
}.

Definition place_initrd (dtb_end ram_end : Z) (initrd_size : option Z) :
    outcome LinuxBootLayoutError (option (Z * Z)) :=
  match initrd_size with
  | None | Some 0 => Ok None
  | Some size =>
      let? initrd_ipa := align_up dtb_end PAGE_SIZE in
      let? padded := align_up size PAGE_SIZE in
      let? e := ok_or (checked_add initrd_ipa padded) LayoutOverflow in
      reject ram_end <? e with InitrdTooLarge in
      Ok (Some (initrd_ipa, size))
  end.

Definition LinuxBootLayout_new (image : list Z) (ram_ipa ram_size : Z) (initrd_size : option Z) :
    outcome LinuxBootLayoutError LinuxBootLayout :=
  let? header := map_err Image (LinuxImageHeader_parse image) in
  reject negb (is_aligned ram_ipa LINUX_IMAGE_BASE_ALIGNMENT) || negb (is_page_aligned ram_size)
    with InvalidRam in
  let? ram_end := ok_or (checked_add ram_ipa ram_size) LayoutOverflow in
  let? image_ipa := ok_or (checked_add ram_ipa (text_offset header)) LayoutOverflow in
  let? image_end := ok_or (checked_add image_ipa (image_size header)) LayoutOverflow in
  reject (image_ipa <? ram_ipa) || (ram_end <? image_end) with ImageTooLarge in
  reject requires_48bit_placement header && (Z.shiftl 1 48 <? image_end) with ImageTooLarge in
  let? dtb_ipa := align_up image_end 8 in
  let? dtb_end := ok_or (checked_add dtb_ipa LINUX_DTB_CAPACITY) LayoutOverflow in
  reject ram_end <? dtb_end with DtbTooLarge in
  let? initrd := place_initrd dtb_end ram_end initrd_size in
  Ok (mkLayout ram_ipa ram_size header image_ipa dtb_ipa initrd).

Definition default_for_image (image : list Z) (initrd_size : option Z) :
    outcome LinuxBootLayoutError LinuxBootLayout :=
  LinuxBootLayout_new image (ipa_start GUEST_RAM) (ipa_size GUEST_RAM) initrd_size.

Record LinuxBootRegisters := mkBootRegisters { pc : Z; x0 : Z; x1 : Z; x2 : Z; x3 : Z }.

Definition initial_registers (self : LinuxBootLayout) : LinuxBootRegisters :=
  mkBootRegisters (image_ipa self) (dtb_ipa self) 0 0 0.

(** ** Specification *)

(** [v.to_le_bytes()] on [n] bytes. *)
Fixpoint to_le_bytes (n : nat) (v : Z) : list Z :=
  match n with
  | O => []
  | S n => v mod 256 :: to_le_bytes n (v / 256)
  end.

(** The [n] bytes of [image] from [at] on spell [v] in little endian. *)
Definition spells (image : list Z) (at_ n : nat) (v : Z) : Prop :=
  firstn n (skipn at_ image) = to_le_bytes n v.

Definition header_of (image : list Z) (h : LinuxImageHeader) : Prop :=
  u64 (text_offset h) /\ u64 (image_size h) /\ u64 (flags h) /\
  (64 <= length image)%nat /\ spells image 56 4 LINUX_IMAGE_MAGIC /\
  spells image 8 8 (text_offset h) /\ spells image 16 8 (image_size h) /\ spells image 24 8 (flags h) /\
  Z.even (flags h) = true /\ 0 < image_size h /\ Z.of_nat (length image) <= image_size h.

(** A RAM disk of the requested size on whole pages in [after, limit). *)
Definition initrd_fits (after limit : Z) (initrd_size : option Z) (rd : option (Z * Z)) : Prop :=
  match initrd_size with
  | None | Some 0 => rd = None
  | Some n => exists at_, rd = Some (at_, n) /\ at_ mod PAGE_SIZE = 0 /\ after <= at_ /\ at_ + n <= limit
  end.

Definition initrd_le (r r' : option (Z * Z)) : Prop :=
  match r, r' with
  | Some (a, _), Some (a', _) => a <= a'
  | None, None => True
  | _, _ => False
  end.

(** A placement in RAM [base, base + size) for an image with header [h]: the
    image at its offset, then an 8-byte aligned device tree window, then the
    page-aligned RAM disk when there is one, all inside RAM. *)
Definition layout_fits (h : LinuxImageHeader) (base size : Z) (initrd_size : option Z)
    (image dtb : Z) (rd : option (Z * Z)) : Prop :=
  base mod LINUX_IMAGE_BASE_ALIGNMENT = 0 /\ size mod PAGE_SIZE = 0 /\ base + size < 2 ^ 64 /\
  image = base + text_offset h /\
  (Z.testbit (flags h) 3 = true -> image + image_size h <= 2 ^ 48) /\
  image + image_size h <= dtb /\ dtb mod 8 = 0 /\ dtb + LINUX_DTB_CAPACITY <= base + size /\
  initrd_fits (dtb + LINUX_DTB_CAPACITY) (base + size) initrd_size rd.

(** ** Lemmas *)

Lemma from_le_bytes_bound bs : Forall u8 bs -> 0 <= from_le_bytes bs < 2 ^ (8 * Z.of_nat (length bs)).
Proof.
  induction 1 as [|b bs Hb _ IH]; [done|]. cbn [from_le_bytes length]. unfold u8 in Hb.
  replace (8 * Z.of_nat (S (length bs))) with (8 + 8 * Z.of_nat (length bs)) by lia.
  rewrite Z.pow_add_r by lia. lia.
Qed.

Lemma to_from_le_bytes bs : Forall u8 bs -> to_le_bytes (length bs) (from_le_bytes bs) = bs.
Proof.
  induction 1 as [|b bs Hb _ IH]; [done|]. cbn [from_le_bytes length to_le_bytes]. unfold u8 in Hb.
  replace (b + 256 * from_le_bytes bs) with (b + from_le_bytes bs * 256) by lia.
  rewrite Z.mod_add, Z.div_add, Z.mod_small, Z.div_small by lia. by rewrite Z.add_0_l, IH.
Qed.

Lemma from_to_le_bytes n v : from_le_bytes (to_le_bytes n v) = v mod 2 ^ (8 * Z.of_nat n).
Proof.
  revert v. induction n as [|n IH]; intros v; [by rewrite Z.mod_1_r|]. cbn [from_le_bytes to_le_bytes].
  rewrite IH. replace (8 * Z.of_nat (S n)) with (8 + 8 * Z.of_nat n) by lia.
  rewrite Z.pow_add_r, Z.rem_mul_r by lia. done.
Qed.

Lemma slice_ok {E} image a n :
  (a + n <= length image)%nat -> slice (E:=E) image a (a + n) = Ok (firstn n (skipn a image)).
Proof.
  intros H. unfold slice. destruct (Nat.leb_spec a (a + n)); [|lia].
  rewrite (proj2 (Nat.leb_le _ _) H). simpl. by replace (a + n - a)%nat with n by lia.
Qed.

(** The bytes of a field spell exactly the value the code reads. *)
Lemma spells_iff image a n v :
  Forall u8 image -> (a + n <= length image)%nat -> 0 <= v < 2 ^ (8 * Z.of_nat n) ->
  spells image a n v <-> from_le_bytes (firstn n (skipn a image)) = v.
Proof.
  intros Hb Hl Hv. unfold spells. split.
  - intros ->. rewrite from_to_le_bytes. by apply Z.mod_small.
  - intros <-. rewrite <- (to_from_le_bytes (firstn n (skipn a image))) at 1 by auto using Forall_take, Forall_drop.
    f_equal. rewrite length_take, length_drop. lia.
Qed.

Lemma field_bound image a n :
  Forall u8 image -> (a + n <= length image)%nat ->
  0 <= from_le_bytes (firstn n (skipn a image)) < 2 ^ (8 * Z.of_nat n).
Proof.
  intros Hb Hl. pose proof (from_le_bytes_bound (firstn n (skipn a image))) as H.
  rewrite length_take, length_drop in H. rewrite Nat.min_l in H by lia.
  auto using Forall_take, Forall_drop.
Qed.

Lemma land_1_even v : (Z.land v 1 =? 0) = Z.even v.
Proof. change 1 with (Z.ones 1) at 1. rewrite Z.land_ones by done. apply eq_sym, Zeven_mod. Qed.

Lemma parse_spec image h :
  Forall u8 image ->
  no_panic (LinuxImageHeader_parse image) /\
  (LinuxImageHeader_parse image = Ok h <-> header_of image h).
Proof.
  intros Hb. unfold LinuxImageHeader_parse, header_of, LINUX_IMAGE_HEADER_SIZE.
  destruct (Nat.ltb_spec (length image) 64) as [Hl|Hl]; [split; [done|]; split; [done|lia]|].
  pose proof (field_bound image 8 8 Hb ltac:(lia)) as B1. pose proof (field_bound image 16 8 Hb ltac:(lia)) as B2.
  pose proof (field_bound image 24 8 Hb ltac:(lia)) as B3.
  rewrite (slice_ok image 56 4), (slice_ok image 8 8), (slice_ok image 16 8), (slice_ok image 24 8) by lia.
  cbn [obind]. rewrite land_1_even. change (8 * Z.of_nat 8) with 64 in *.
  set (F1 := from_le_bytes (firstn 8 (skipn 8 image))) in *.
  set (F2 := from_le_bytes (firstn 8 (skipn 16 image))) in *.
  set (F3 := from_le_bytes (firstn 8 (skipn 24 image))) in *.
  split; [repeat case_match; done|]. destruct h as [o s f]. cbn [text_offset image_size flags].
  assert (M : spells image 56 4 LINUX_IMAGE_MAGIC <-> from_le_bytes (firstn 4 (skipn 56 image)) = LINUX_IMAGE_MAGIC)
    by (apply spells_iff; [done|lia|done]).
  split.
  - destruct (Z.eqb_spec (from_le_bytes (firstn 4 (skipn 56 image))) LINUX_IMAGE_MAGIC); [|done]. simpl.
    destruct (Z.even F3) eqn:Ee; [|done]. simpl. destruct (Z.eqb_spec F2 0); [done|].
    destruct (Z.ltb_spec F2 (Z.of_nat (length image))); [done|]. intros [= <- <- <-].
    split_and!; try done; try (apply M; done); try (apply spells_iff; done || lia); lia.
  - intros (U1 & U2 & U3 & _ & HM & S1 & S2 & S3 & He & Hs & Hle).
    apply M in HM. rewrite spells_iff in S1, S2, S3 by (done || lia).
    fold F1 in S1. fold F2 in S2. fold F3 in S3. subst.
    rewrite (proj2 (Z.eqb_eq _ _) HM), He, (proj2 (Z.eqb_neq F2 0)), (proj2 (Z.ltb_ge _ _) Hle) by lia. done.
Qed.

Lemma align_up_cases v a :
  0 < a -> 0 <= v ->
  match align_up v a with
  | Ok w => v <= w /\ w mod a = 0 /\ (v < 2 ^ 64 -> w < 2 ^ 64) /\ forall x, x mod a = 0 -> v <= x -> w <= x
  | Err e => e = LayoutOverflow /\ forall x, x mod a = 0 -> v <= x -> 2 ^ 64 <= x
  | Panic => False
  end.
Proof.
  intros Ha Hv. unfold align_up. pose proof (Z.mod_pos_bound v a Ha) as Hm.
  destruct (Z.eqb_spec (v mod a) 0) as [H0|H0]; [split_and!; done|]. rewrite sub64_ok by lia. cbn [obind].
  assert (Hl : forall x, x mod a = 0 -> v <= x -> v + (a - v mod a) <= x).
  { intros x Hx Hle. rewrite Z.mod_eq in * by lia. pose proof (Z.div_le_mono v x a Ha Hle).
    assert (v / a <> x / a) by (intros e; rewrite e in *; lia). nia. }
  destruct (checked_add v (a - v mod a)) as [w|] eqn:E; cbn [ok_or].
  - apply checked_add_Some in E as [-> E]. split_and!; [lia| |done|done].
    replace (v + (a - v mod a)) with (v - v mod a + 1 * a) by lia.
    rewrite Z.mod_add by lia. by apply sub_mod_aligned.
  - apply checked_add_None in E. split; [done|]. intros x Hx Hle. specialize (Hl x Hx Hle). lia.
Qed.

Lemma place_initrd_spec after limit rd :
  0 <= after -> 0 <= limit < 2 ^ 64 -> limit mod PAGE_SIZE = 0 ->
  (forall n, rd = Some n -> u64 n) ->
  match place_initrd after limit rd with
  | Ok r => initrd_fits after limit rd r /\ forall r', initrd_fits after limit rd r' -> initrd_le r r'
  | Err e => (e = LayoutOverflow \/ e = InitrdTooLarge) /\ forall r', ~ initrd_fits after limit rd r'
  | Panic => False
  end.
Proof.
  intros Ha Hl Hal Hn. destruct rd as [n|]; [|by split; [|intros r' ->]].
  destruct (decide (n = 0)) as [->|Hn0]; [by split; [|intros r' ->]|].
  specialize (Hn n eq_refl). unfold u64 in Hn.
  assert (Hf : forall r', initrd_fits after limit (Some n) r' <->
    exists at_, r' = Some (at_, n) /\ at_ mod PAGE_SIZE = 0 /\ after <= at_ /\ at_ + n <= limit)
    by (intros r'; by destruct n).
  assert (place_initrd after limit (Some n) =
    let? initrd_ipa := align_up after PAGE_SIZE in
    let? padded := align_up n PAGE_SIZE in
    let? e := ok_or (checked_add initrd_ipa padded) LayoutOverflow in
    reject limit <? e with InitrdTooLarge in Ok (Some (initrd_ipa, n))) as -> by (by destruct n).
  assert (Hg : forall at_, at_ mod PAGE_SIZE = 0 -> (limit - at_) mod PAGE_SIZE = 0).
  { intros at_ H. by rewrite Zminus_mod, H, Hal. }
  pose proof (align_up_cases after PAGE_SIZE ltac:(done) Ha) as H1.
  pose proof (align_up_cases n PAGE_SIZE ltac:(done) ltac:(lia)) as H2.
  destruct (align_up after PAGE_SIZE) as [at_|e|]; cbn [obind]; [|destruct H1 as [-> H1]|done].
  2: { split; [auto|]. intros r' (a & _ & H3 & H4 & H5)%Hf. specialize (H1 a H3 H4). lia. }
  destruct H1 as (H1 & H1a & _ & H1l).
  destruct (align_up n PAGE_SIZE) as [pd|e|]; cbn [obind]; [|destruct H2 as [-> H2]|done].
  2: { split; [auto|]. intros r' (a & _ & H3 & H4 & H5)%Hf.
       specialize (H2 (limit - a) (Hg a H3) ltac:(lia)). lia. }
  destruct H2 as (H2 & H2a & _ & H2l).
  assert (Hfit : forall r', initrd_fits after limit (Some n) r' -> at_ + pd <= limit).
  { intros r' (a & _ & H3 & H4 & H5)%Hf. specialize (H1l a H3 H4). specialize (H2l (limit - a) (Hg a H3) ltac:(lia)). lia. }
  destruct (checked_add at_ pd) as [e|] eqn:E; cbn [ok_or obind].
  2: { apply checked_add_None in E. split; [auto|]. intros r' Hr. specialize (Hfit r' Hr). lia. }
  apply checked_add_Some in E as [-> E]. destruct (Z.ltb_spec limit (at_ + pd)) as [Hlt|Hlt].
  { split; [auto|]. intros r' Hr. specialize (Hfit r' Hr). lia. }
  split; [apply Hf; exists at_; split_and!; done || lia|].
  intros r' (a & -> & H3 & H4 & _)%Hf. by apply H1l.
Qed.

Lemma initrd_fits_mono after after' limit rd r :
  after <= after' -> initrd_fits after' limit rd r -> initrd_fits after limit rd r.
Proof.
  intros H. unfold initrd_fits. destruct rd as [[|n|n]|]; try done;
    intros (a & -> & H1 & H2 & H3); exists a; split_and!; done || lia.
Qed.

Lemma parse_bounds image h :
  Forall u8 image -> LinuxImageHeader_parse image = Ok h ->
  u64 (text_offset h) /\ u64 (image_size h) /\ 0 < image_size h.
Proof.
  intros Hb Hp. apply parse_spec in Hp; [|done]. destruct Hp as (? & ? & _ & _ & _ & _ & _ & _ & _ & ? & _). done.
Qed.

Lemma ram_end_aligned base size :
  base mod LINUX_IMAGE_BASE_ALIGNMENT = 0 -> size mod PAGE_SIZE = 0 -> (base + size) mod PAGE_SIZE = 0.
Proof.
  unfold LINUX_IMAGE_BASE_ALIGNMENT, PAGE_SIZE. intros. Z.to_euclidean_division_equations. lia.
Qed.

(** Every fitting layout has its device tree and RAM disk at or after [db],
    the lowest aligned address after the image. *)
Lemma layout_after h base size rd db i d r :
  (forall x, x mod 8 = 0 -> base + text_offset h + image_size h <= x -> db <= x) ->
  layout_fits h base size rd i d r ->
  db <= d /\ initrd_fits (db + LINUX_DTB_CAPACITY) (base + size) rd r /\ db + LINUX_DTB_CAPACITY <= base + size.
Proof.
  intros Hl (_ & _ & _ & -> & _ & Hd & Hd8 & Hde & Hr). specialize (Hl d Hd8 Hd).
  split_and!; [done| |lia]. eapply initrd_fits_mono; [|done]. lia.
Qed.

(** No layout: the arithmetic of [layout_fits] is contradictory. *)
Ltac no_layout h :=
  exists h; split; [done|]; intros ? ? ? (? & ? & ? & -> & _ & ? & _ & ? & _);
  unfold LINUX_DTB_CAPACITY in *; first [done | lia].

(** ** Theorems *)

(** [linux_header_parse_exact]: parsing never panics, and yields a header
    exactly when the image is at least 64 bytes long, carries the magic and
    the little-endian fields at their offsets, is little endian, and declares
    a size that covers it. *)
Lemma linux_header_parse_exact image h :
  Forall u8 image ->
  no_panic (LinuxImageHeader_parse image) /\
  (LinuxImageHeader_parse image = Ok h <-> header_of image h).
Proof. apply parse_spec. Qed.

(** [linux_layout_lowest]: the boot layout never panics. When it is produced,
    the image, the device tree window and the RAM disk fit in RAM in that
    order without overlap, and the device tree and RAM disk sit at the lowest
    addresses any fitting layout gives them. When the header is good and no
    layout is produced, none fits. *)
Lemma linux_layout_lowest image base size rd :
  Forall u8 image -> u64 base -> u64 size -> (forall n, rd = Some n -> u64 n) ->
  match LinuxBootLayout_new image base size rd with
  | Ok l =>
      LinuxImageHeader_parse image = Ok (image_header l) /\ ram_ipa l = base /\ ram_size l = size /\
      layout_fits (image_header l) base size rd (image_ipa l) (dtb_ipa l) (initrd l) /\
      forall i d r, layout_fits (image_header l) base size rd i d r ->
        dtb_ipa l <= d /\ initrd_le (initrd l) r
  | Err (Image e) => LinuxImageHeader_parse image = Err e
  | Err _ => exists h, LinuxImageHeader_parse image = Ok h /\ forall i d r, ~ layout_fits h base size rd i d r
  | Panic => False
  end.
Proof.
  intros Hb Hbase Hsize Hrd. unfold LinuxBootLayout_new. unfold u64 in Hbase, Hsize.
  destruct (LinuxImageHeader_parse image) as [h|e|] eqn:Hp; cbn [map_err obind]; [|done|].
  2: { exfalso. by destruct (parse_spec image (mkHeader 0 0 0) Hb) as [[] _]. }
  destruct (parse_bounds image h Hb Hp) as (Ht & Hi & Hi0). unfold u64 in Ht, Hi.
  rewrite is_aligned_mod, is_page_aligned_mod by done.
  destruct (Z.eqb_spec (base mod LINUX_IMAGE_BASE_ALIGNMENT) 0) as [Ha|Ha]; simpl; [|no_layout h].
  destruct (Z.eqb_spec (size mod PAGE_SIZE) 0) as [Hs|Hs]; simpl; [|no_layout h].
  destruct (checked_add base size) as [re|] eqn:E1; cbn [ok_or obind]; [|apply checked_add_None in E1; no_layout h].
  apply checked_add_Some in E1 as [-> E1].
  destruct (checked_add base (text_offset h)) as [im|] eqn:E2; cbn [ok_or obind];
    [|apply checked_add_None in E2; no_layout h].
  apply checked_add_Some in E2 as [-> E2].
  destruct (checked_add (base + text_offset h) _) as [ie|] eqn:E3; cbn [ok_or obind];
    [|apply checked_add_None in E3; no_layout h].
  apply checked_add_Some in E3 as [-> E3].
  destruct (Z.ltb_spec (base + text_offset h) base); [lia|]. simpl.
  destruct (Z.ltb_spec (base + size) (base + text_offset h + image_size h)); simpl; [no_layout h|].
  unfold requires_48bit_placement. rewrite land_single_bit, Z.shiftl_1_l by done.
  destruct (Z.testbit (flags h) 3 && (2 ^ 48 <? base + text_offset h + image_size h)) eqn:E4; bool_prop.
  { exists h. split; [done|]. intros i d r (_ & _ & _ & -> & H48 & _). specialize (H48 ltac:(done)). lia. }
  pose proof (align_up_cases (base + text_offset h + image_size h) 8 ltac:(lia) ltac:(lia)) as H8.
  destruct (align_up _ 8) as [db|e|]; cbn [obind]; [|destruct H8 as [-> H8]|done].
  2: { exists h. split; [done|]. intros i d r (_ & _ & _ & -> & _ & Hd & Hd8 & Hde & _).
       specialize (H8 d Hd8 Hd). unfold LINUX_DTB_CAPACITY in *. lia. }
  destruct H8 as (H8 & H8a & _ & H8l).
  pose proof (fun i d r => layout_after h base size rd db i d r H8l) as Hlow.
  destruct (checked_add db LINUX_DTB_CAPACITY) as [de|] eqn:E5; cbn [ok_or obind].
  2: { apply checked_add_None in E5. exists h. split; [done|]. intros i d r (_ & _ & ?)%Hlow. lia. }
  apply checked_add_Some in E5 as [-> E5]. destruct (Z.ltb_spec (base + size) (db + LINUX_DTB_CAPACITY)) as [Hl|Hl].
  { exists h. split; [done|]. intros i d r (_ & _ & ?)%Hlow. lia. }
  pose proof (place_initrd_spec (db + LINUX_DTB_CAPACITY) (base + size) rd) as Hpl.
  do 4 (discharge Hpl; [first [done | unfold LINUX_DTB_CAPACITY in *; lia | by apply ram_end_aligned]|]).
  destruct (place_initrd _ _ rd) as [r|e|]; cbn [obind]; [|destruct Hpl as [He Hpl]|done].
  2: { assert (exists h', Ok (E:=LinuxImageError) h = Ok h' /\ forall i d r, ~ layout_fits h' base size rd i d r) as Hno.
       { exists h. split; [done|]. intros i d r (_ & Hr & _)%Hlow. by apply (Hpl r). }
       by destruct He as [-> | ->]. }
  destruct Hpl as [Hfit Hleast]. cbn [image_header ram_ipa ram_size image_ipa dtb_ipa initrd].
  split_and!; [done..| |].
  - unfold layout_fits. split_and!; try done. intros Hb3. destruct E4 as [E4|E4]; [congruence|by bool_prop].
  - intros i d r' (H1 & H2 & _)%Hlow. auto.
Qed.

(** ** Concrete instances *)

(** A 64-byte image with the common offset of 512 KiB, a 16 MiB extent, 4 KiB
    pages and free placement. *)
Definition sample_image : list Z :=
  replicate 8 0 ++ to_le_bytes 8 0x80000 ++ to_le_bytes 8 0x1000000 ++ to_le_bytes 8 0xa ++
  replicate 24 0 ++ to_le_bytes 4 LINUX_IMAGE_MAGIC ++ replicate 4 0.

Lemma sample_image_bytes : Forall u8 sample_image.
Proof. vm_compute. by repeat constructor. Qed.

