(* ===== verification/Mmio.v ===== *)
(** * Trapped MMIO: src/tvisor_util/mmio.rs

    Decoding of a stage-2 data abort into a load or store, the virtual PL011
    with its ring of received bytes, the virtual interrupt distributor, and
    the dispatcher that emulates one access on the guest's registers.  The
    device methods take [&mut self] and are [stateful]. *)

From S2P Require Import Prelude Page GuestPlatform.

Definition ESR_ISV : Z := Z.shiftl 1 24.
Definition ESR_SAS_SHIFT : Z := 22.
Definition ESR_SSE : Z := Z.shiftl 1 21.
Definition ESR_SRT_SHIFT : Z := 16.
Definition ESR_SF : Z := Z.shiftl 1 15.
Definition ESR_WNR : Z := Z.shiftl 1 6.

Inductive MmioDecodeError :=
| InstructionSyndromeInvalid
| SignExtendingRead
| InvalidAccessSize.

Record MmioAccess := mkAccess {
  ipa : Z;
  is_write : bool;
  width : Z;
  register : nat;
  register_is_64bit : bool
}.

Definition decode_data_abort (esr_el2 ipa : Z) : outcome MmioDecodeError MmioAccess :=
  let iss := Z.land (as_u32 esr_el2) 0x01ffffff in
  reject Z.land iss ESR_ISV =? 0 with InstructionSyndromeInvalid in
  let? width := match Z.land (Z.shiftr iss ESR_SAS_SHIFT) 3 with
                | 0 => Ok 1
                | 1 => Ok 2
                | 2 => Ok 4
                | 3 => Ok 8
                | _ => Err InvalidAccessSize
                end in
  let is_write := negb (Z.land iss ESR_WNR =? 0) in
  reject negb is_write && negb (Z.land iss ESR_SSE =? 0) with SignExtendingRead in
  Ok (mkAccess ipa is_write width (Z.to_nat (as_u8 (Z.land (Z.shiftr iss ESR_SRT_SHIFT) 0x1f)))
        (negb (Z.land iss ESR_SF =? 0))).

(** ** The virtual PL011 *)

Inductive Pl011Error :=
| UnsupportedWidth (width : Z)
| UnsupportedRead (offset : Z)
| UnsupportedWrite (offset : Z).

Inductive Pl011Result :=
| Read (value : Z)
| Write (byte : option Z).

Record VirtualPl011 := mkPl011 {
  imsc : Z;
  rx : list Z;
  rx_head : nat;
  rx_len : nat
}.

Definition VirtualPl011_default : VirtualPl011 := mkPl011 0 (replicate 64 0) 0 0.

Definition DR : Z := 0x00.
Definition FR : Z := 0x18.
Definition IBRD : Z := 0x24.
Definition FBRD : Z := 0x28.
Definition LCR_H : Z := 0x2c.
Definition CR : Z := 0x30.
Definition IMSC : Z := 0x38.
Definition RIS : Z := 0x3c.
Definition MIS : Z := 0x40.
Definition ICR : Z := 0x44.
Definition PID0 : Z := 0xfe0.
Definition PID1 : Z := 0xfe4.
Definition PID2 : Z := 0xfe8.
Definition PID3 : Z := 0xfec.
Definition CID0 : Z := 0xff0.
Definition CID1 : Z := 0xff4.
Definition CID2 : Z := 0xff8.
Definition CID3 : Z := 0xffc.
Definition RXIM : Z := Z.shiftl 1 4.
Definition FR_TX_READY : Z := Z.shiftl 1 7.
Definition FR_RXFE : Z := Z.shiftl 1 4.

Definition enqueue_rx {E} (byte : Z) : stateful VirtualPl011 E bool := fun self =>
  if (rx_len self =? length (rx self))%nat then (Ok false, self)
  else
    let tail := ((rx_head self + rx_len self) mod length (rx self))%nat in
    match arr_set (rx self) tail byte with
    | Ok rx' => (Ok true, mkPl011 (imsc self) rx' (rx_head self) (rx_len self + 1))
    | Err e => (Err e, self)
    | Panic => (Panic, self)
    end.

Definition dequeue_rx {E} : stateful VirtualPl011 E Z := fun self =>
  if (rx_len self =? 0)%nat then (Ok 0, self)
  else
    match arr_get (rx self) (rx_head self) with
    | Ok byte =>
        (Ok byte, mkPl011 (imsc self) (rx self) ((rx_head self + 1) mod length (rx self)) (rx_len self - 1))
    | Err e => (Err e, self)
    | Panic => (Panic, self)
    end.

Definition rx_irq_pending (self : VirtualPl011) : bool :=
  negb (rx_len self =? 0)%nat && negb (Z.land (imsc self) RXIM =? 0).

(** [matches!(width, 1 | 2 | 4)]. *)
Definition width_supported (width : Z) : bool := (width =? 1) || (width =? 2) || (width =? 4).

(** The identification registers the AMBA bus reads. *)
Definition id_register (offset : Z) : Z :=
  if offset =? PID0 then 0x11 else
  if offset =? PID1 then 0x10 else
  if offset =? PID2 then 0x04 else
  if offset =? PID3 then 0x00 else
  if offset =? CID0 then 0x0d else
  if offset =? CID1 then 0xf0 else
  if offset =? CID2 then 0x05 else
  if offset =? CID3 then 0xb1 else 0.

Definition VirtualPl011_access (offset : Z) (is_write : bool) (width value : Z) :
    stateful VirtualPl011 Pl011Error Pl011Result :=
  if negb (width_supported width) then sfail (UnsupportedWidth width)
  else if is_write then
    if offset =? DR then sret (Write (Some (as_u8 value)))
    else if (offset =? IBRD) || (offset =? FBRD) || (offset =? LCR_H) || (offset =? CR) || (offset =? ICR)
    then sret (Write None)
    else if offset =? IMSC then
      let! _ := supdate (fun self => Ok (mkPl011 (as_u32 value) (rx self) (rx_head self) (rx_len self))) in
      sret (Write None)
    else sret (Write None)
  else
    if offset =? DR then let! byte := dequeue_rx in sret (Read byte)
    else if offset =? FR then
      sread (fun self => Read (Z.lor FR_TX_READY (if (rx_len self =? 0)%nat then FR_RXFE else 0)))
    else if offset =? IMSC then sread (fun self => Read (imsc self))
    else if offset =? RIS then sread (fun self => Read (if negb (rx_len self =? 0)%nat then RXIM else 0))
    else if offset =? MIS then sread (fun self => Read (if rx_irq_pending self then RXIM else 0))
    else sret (Read (id_register offset)).

(** ** The virtual distributor *)

Record VirtualGicDistributor := mkGicd { ctlr : Z }.

(** [a..=b] as a pattern. *)
Definition in_range (offset a b : Z) : bool := (a <=? offset) && (offset <=? b).

Definition VirtualGicDistributor_access (offset : Z) (is_write : bool) (width value : Z) :
    stateful VirtualGicDistributor unit Z :=
  if negb (width_supported width) then sfail tt
  else if negb is_write then
    if offset =? 0x000 then sread ctlr
    else if offset =? 0x004 then sret 1
    else if offset =? 0x008 then sret 0x02000043
    else if in_range offset 0x800 0x8ff then sret 0x01010101
    else if in_range offset 0x080 0x0ff || in_range offset 0x100 0x1ff || in_range offset 0x280 0x2ff
        || in_range offset 0x400 0x7ff || in_range offset 0xc00 0xcff then sret 0
    else sret 0
  else
    if offset =? 0x000 then
      let! _ := supdate (fun _ => Ok (mkGicd (Z.land (as_u32 value) 1))) in sret 0
    else if in_range offset 0x080 0x0ff || in_range offset 0x100 0x1ff || in_range offset 0x280 0x2ff
        || in_range offset 0x400 0x7ff || in_range offset 0x800 0x8ff || in_range offset 0xc00 0xcff then sret 0
    else sret 0.

(** ** The dispatcher *)

Inductive MmioEmulationError :=
| UnmappedIpa (ipa : Z)
| Pl011 (e : Pl011Error)
| GicDistributor.

Record MmioDispatcher := mkDispatcher { pl011 : VirtualPl011; gicd : VirtualGicDistributor }.

Definition MmioDispatcher_default : MmioDispatcher := mkDispatcher VirtualPl011_default (mkGicd 0).

(** The state of one emulation: the devices and the guest's [x0]..[x30]. *)
Definition emulation : Type := MmioDispatcher * list Z.

Definition on_pl011 {E F A} (f : E -> F) (m : stateful VirtualPl011 E A) : stateful emulation F A :=
  fun '(d, regs) => let '(r, u) := m (pl011 d) in (map_err f r, (mkDispatcher u (gicd d), regs)).

Definition on_gicd {E F A} (f : E -> F) (m : stateful VirtualGicDistributor E A) : stateful emulation F A :=
  fun '(d, regs) => let '(r, g) := m (gicd d) in (map_err f r, (mkDispatcher (pl011 d) g, regs)).

Definition enqueue_pl011_rx {E} (byte : Z) : stateful emulation E bool := on_pl011 id (enqueue_rx byte).

Definition pl011_rx_irq_pending (self : MmioDispatcher) : bool := rx_irq_pending (pl011 self).

(** The value a store takes from its register; register 31 is [xzr]. *)
Definition read_register {E} (r : nat) : stateful emulation E Z :=
  if (r =? 31)%nat then sret 0 else stry (fun '(_, regs) => arr_get regs r).

(** The register a load writes; register 31 is discarded. *)
Definition write_register {E} (access : MmioAccess) (value : Z) : stateful emulation E unit :=
  if (register access =? 31)%nat then sret tt
  else supdate (fun '(d, regs) =>
    let? regs' := arr_set regs (register access) (if register_is_64bit access then value else as_u32 value) in
    Ok (d, regs')).

(** [ipa.checked_sub(start).filter(|o| o < size)]. *)
Definition window_offset (w : IpaRegion) (a : Z) : option Z :=
  match checked_sub a (ipa_start w) with
  | Some o => if o <? ipa_size w then Some o else None
  | None => None
  end.

Definition emulate (access : MmioAccess) : stateful emulation MmioEmulationError (option Z) :=
  match window_offset GUEST_GICD (ipa access) with
  | Some offset =>
      let! value := read_register (register access) in
      let! result := on_gicd (fun _ => GicDistributor)
        (VirtualGicDistributor_access offset (is_write access) (width access) value) in
      let! _ := if negb (is_write access) then write_register access result else sret tt in
      sret None
  | None =>
      let! offset := slift (ok_or (window_offset GUEST_PL011 (ipa access)) (UnmappedIpa (ipa access))) in
      let! value := read_register (register access) in
      let! result := on_pl011 Pl011
        (VirtualPl011_access offset (is_write access) (width access) value) in
      match result with
      | Read value => let! _ := write_register access value in sret None
      | Write byte => sret byte
      end
  end.

(** ** Specification *)

(** The architectural reading of the syndrome's instruction fields. *)
Definition syndrome_field (esr lo n : Z) : Z := (esr / 2 ^ lo) mod 2 ^ n.

(** The ring of received bytes holds the queue [q]. *)
Record uart_rep (u : VirtualPl011) (q : list Z) : Prop := {
  rep_ring : length (rx u) = 64%nat;
  rep_head : (rx_head u < 64)%nat;
  rep_len : rx_len u = length q;
  rep_cap : (length q <= 64)%nat;
  rep_slots : forall i, (i < length q)%nat -> rx u !! ((rx_head u + i) mod 64)%nat = q !! i
}.

(** One interaction with the UART: a byte from the host console, an interrupt
    poll, or a guest access. *)
Inductive uart_op :=
| Receive (byte : Z)
| Poll
| Access (offset : Z) (is_write : bool) (width value : Z).

Inductive uart_obs :=
| Accepted (b : bool)
| Pending (b : bool)
| Accessed (r : Pl011Result).

Definition uart_step (op : uart_op) : stateful VirtualPl011 Pl011Error uart_obs :=
  match op with
  | Receive b => let! ok := enqueue_rx b in sret (Accepted ok)
  | Poll => sread (fun u => Pending (rx_irq_pending u))
  | Access offset w wd v => let! r := VirtualPl011_access offset w wd v in sret (Accessed r)
  end.

(** The same interactions with a UART that is an interrupt mask and a queue of
    at most 64 bytes. *)
Definition queue_state : Type := Z * list Z.

Definition queue_read (offset : Z) (s : queue_state) : Z * queue_state :=
  let '(mask, q) := s in
  let ready := negb (bool_decide (q = [])) in
  if offset =? DR then (hd 0 q, (mask, tl q))
  else if offset =? FR then ((if ready then 0x80 else 0x90), s)
  else if offset =? IMSC then (mask, s)
  else if offset =? RIS then ((if ready then 0x10 else 0), s)
  else if offset =? MIS then ((if ready && Z.testbit mask 4 then 0x10 else 0), s)
  else (id_register offset, s).

Definition queue_step (op : uart_op) : stateful queue_state Pl011Error uart_obs := fun '(mask, q) =>
  match op with
  | Receive b =>
      if (length q <? 64)%nat then (Ok (Accepted true), (mask, q ++ [b])) else (Ok (Accepted false), (mask, q))
  | Poll => (Ok (Pending (negb (bool_decide (q = [])) && Z.testbit mask 4)), (mask, q))
  | Access offset w wd v =>
      if negb (width_supported wd) then (Err (UnsupportedWidth wd), (mask, q))
      else if w then
        (Ok (Accessed (Write (if offset =? DR then Some (v mod 256) else None))),
         (if offset =? IMSC then v mod 2 ^ 32 else mask, q))
      else let '(v, s) := queue_read offset (mask, q) in (Ok (Accessed (Read v)), s)
  end.

(** The results of a list of interactions. *)
Fixpoint run_uart {S E R} (step : uart_op -> stateful S E R) (ops : list uart_op) (s : S) : list (outcome E R) :=
  match ops with
  | [] => []
  | op :: ops => let '(r, s') := step op s in r :: run_uart step ops s'
  end.

(** ** Lemmas on decoding *)

Lemma iss_of esr : Z.land (as_u32 esr) 0x01ffffff = Z.land esr (Z.ones 25).
Proof. unfold as_u32. by rewrite <- Z.land_assoc. Qed.

Lemma iss_bit esr i : 0 <= i < 25 -> Z.testbit (Z.land esr (Z.ones 25)) i = Z.testbit esr i.
Proof.
  intros Hi. rewrite Z.land_spec, Z.ones_spec_low by lia. apply andb_true_r.
Qed.

Lemma iss_field esr lo n :
  0 <= lo -> 0 <= n -> lo + n <= 25 ->
  Z.land (Z.shiftr (Z.land esr (Z.ones 25)) lo) (Z.ones n) = syndrome_field esr lo n.
Proof.
  intros Hlo Hn H. unfold syndrome_field. rewrite <- Z.shiftr_div_pow2, <- Z.land_ones by done.
  apply Z.bits_inj'. intros i Hi. rewrite !Z.land_spec, !Z.shiftr_spec by done.
  destruct (Z.ltb_spec i n) as [Hl|Hl].
  - by rewrite iss_bit by lia.
  - by rewrite (Z.ones_spec_high n i), !andb_false_r by lia.
Qed.

Lemma syndrome_field_bound esr lo n : 0 <= n -> 0 <= syndrome_field esr lo n < 2 ^ n.
Proof. intros. apply Z.mod_pos_bound. lia. Qed.

Lemma decode_spec esr a :
  match decode_data_abort esr a with
  | Ok x =>
      Z.testbit esr 24 = true /\ (Z.testbit esr 6 = true \/ Z.testbit esr 21 = false) /\
      x = mkAccess a (Z.testbit esr 6) (2 ^ syndrome_field esr 22 2) (Z.to_nat (syndrome_field esr 16 5))
            (Z.testbit esr 15)
  | Err InstructionSyndromeInvalid => Z.testbit esr 24 = false
  | Err SignExtendingRead => Z.testbit esr 24 = true /\ Z.testbit esr 6 = false /\ Z.testbit esr 21 = true
  | _ => False
  end.
Proof.
  unfold decode_data_abort, ESR_ISV, ESR_WNR, ESR_SSE, ESR_SF, ESR_SAS_SHIFT, ESR_SRT_SHIFT. rewrite iss_of.
  pose proof (land_single_bit (Z.land esr (Z.ones 25)) 24 ltac:(done)) as H24.
  rewrite iss_bit in H24 by lia. destruct (_ =? 0) eqn:E24; [by rewrite <- H24|]. simpl in H24. symmetry in H24.
  rewrite !land_single_bit, !iss_bit by lia.
  change 3 with (Z.ones 2). change 31 with (Z.ones 5). rewrite !iss_field by lia. unfold as_u8.
  rewrite (Z.land_ones _ 8), (Z.mod_small (syndrome_field esr 16 5)) by
    (try done; pose proof (syndrome_field_bound esr 16 5 ltac:(done)); lia).
  pose proof (syndrome_field_bound esr 22 2 ltac:(done)) as Hb.
  assert (Hw : match syndrome_field esr 22 2 with
          | 0 => Ok 1 | 1 => Ok 2 | 2 => Ok 4 | 3 => Ok 8 | _ => Err InvalidAccessSize
          end = Ok (2 ^ syndrome_field esr 22 2)).
  { generalize dependent (syndrome_field esr 22 2). intros w Hw.
    assert (w = 0 \/ w = 1 \/ w = 2 \/ w = 3) as [->|[->|[->| ->]]] by lia; done. }
  change (Z.ones 2) with 3. rewrite Hw. cbn [obind].
  destruct (Z.testbit esr 6), (Z.testbit esr 21); simpl; auto.
Qed.

(** ** Lemmas on the ring *)

Lemma ring_slot_ne h i n : (i < n)%nat -> (n < 64)%nat -> ((h + i) mod 64 <> (h + n) mod 64)%nat.
Proof.
  intros Hi Hn E. pose proof (Nat.div_mod (h + i) 64 ltac:(done)). pose proof (Nat.div_mod (h + n) 64 ltac:(done)). lia.
Qed.

Lemma uart_rep_default : uart_rep VirtualPl011_default [].
Proof. constructor; simpl; [done|lia|done|lia|lia]. Qed.

Lemma enqueue_refines {E} b u q :
  uart_rep u q ->
  let '(r, u') := enqueue_rx (E:=E) b u in
  r = Ok (length q <? 64)%nat /\ imsc u' = imsc u /\
  uart_rep u' (if (length q <? 64)%nat then q ++ [b] else q).
Proof.
  intros [Hr Hh Hl Hc Hs]. unfold enqueue_rx. rewrite Hr, Hl.
  destruct (Nat.eqb_spec (length q) 64) as [Hf|Hf].
  { rewrite (proj2 (Nat.ltb_ge _ _)) by lia. by split_and!. }
  pose proof (Nat.mod_upper_bound (rx_head u + length q) 64 ltac:(done)) as Hm.
  rewrite arr_set_ok by (rewrite Hr; done). rewrite (proj2 (Nat.ltb_lt _ _)) by lia.
  split_and!; [done|done|]. constructor; cbn [rx rx_head rx_len]; rewrite ?length_insert, ?length_app; simpl; try (done || lia).
  intros i Hi. destruct (decide (i = length q)) as [->|Hne].
  - rewrite list_lookup_insert_eq by lia. by rewrite lookup_app_r, Nat.sub_diag by lia.
  - rewrite list_lookup_insert_ne by (apply not_eq_sym, ring_slot_ne; lia).
    rewrite lookup_app_l by lia. apply Hs. lia.
Qed.

Lemma dequeue_refines {E} u q :
  uart_rep u q ->
  let '(r, u') := dequeue_rx (E:=E) u in
  r = Ok (hd 0 q) /\ imsc u' = imsc u /\ uart_rep u' (tl q).
Proof.
  intros [Hr Hh Hl Hc Hs]. unfold dequeue_rx. rewrite Hl, Hr.
  destruct q as [|b q]; cbn [length Nat.eqb hd tl]; [by split_and!|].
  pose proof (Hs 0%nat ltac:(simpl; lia)) as H0. rewrite Nat.add_0_r, Nat.mod_small in H0 by done.
  rewrite (arr_get_ok _ _ _ H0). split_and!; [done|done|].
  constructor; cbn [rx rx_head rx_len]; [done|by apply Nat.mod_upper_bound|lia|simpl in Hc; lia|].
  intros i Hi. rewrite Nat.Div0.add_mod_idemp_l. rewrite <- Nat.add_assoc. apply (Hs (S i)). simpl. lia.
Qed.

Lemma ready_of u q : uart_rep u q -> (rx_len u =? 0)%nat = bool_decide (q = []).
Proof. intros H. rewrite (rep_len u q H). by destruct q. Qed.

Lemma irq_of u q : uart_rep u q -> rx_irq_pending u = negb (bool_decide (q = [])) && Z.testbit (imsc u) 4.
Proof. intros H. unfold rx_irq_pending, RXIM. by rewrite (ready_of u q H), land_single_bit. Qed.

Lemma as_u8_mod v : as_u8 v = v mod 256.
Proof. by apply Z.land_ones. Qed.

Lemma as_u32_mod v : as_u32 v = v mod 2 ^ 32.
Proof. by apply Z.land_ones. Qed.

Lemma uart_access_refines u q offset w wd v :
  uart_rep u q ->
  let '(r, u') := VirtualPl011_access offset w wd v u in
  exists s, queue_step (Access offset w wd v) (imsc u, q) = (outcome_map Accessed r, s) /\
    fst s = imsc u' /\ uart_rep u' (snd s).
Proof.
  intros H. unfold VirtualPl011_access, queue_step. pose proof (ready_of u q H) as Hready. pose proof (irq_of u q H) as Hirq.
  destruct (negb (width_supported wd)); [by eexists|].
  destruct w.
  - rewrite as_u8_mod, as_u32_mod. destruct (Z.eqb_spec offset DR) as [->|]; [by eexists|].
    destruct (Z.eqb_spec offset IMSC) as [->|].
    + eexists. split; [done|]. split; [done|]. by destruct H.
    + destruct (_ || _); by eexists.
  - unfold queue_read. destruct (Z.eqb_spec offset DR) as [->|].
    { pose proof (dequeue_refines (E:=Pl011Error) u q H) as Hd. unfold sbind.
      destruct (dequeue_rx u) as [r u']. destruct Hd as (-> & Hi & Hr). by eexists. }
    unfold sread, sret.
    destruct (offset =? FR); [rewrite Hready; eexists; split; [by destruct (bool_decide _)|done]|].
    destruct (offset =? IMSC); [by eexists|].
    destruct (offset =? RIS); [rewrite Hready; by eexists|].
    destruct (offset =? MIS); [rewrite Hirq|]; by eexists.
Qed.

Lemma uart_step_refines u q op :
  uart_rep u q ->
  let '(r, u') := uart_step op u in
  exists s, queue_step op (imsc u, q) = (r, s) /\ fst s = imsc u' /\ uart_rep u' (snd s).
Proof.
  intros H. destruct op as [b| |offset w wd v]; cbn [uart_step].
  - pose proof (enqueue_refines (E:=Pl011Error) b u q H) as He. unfold sbind, queue_step.
    destruct (enqueue_rx b u) as [r u']. destruct He as (-> & Hi & Hr).
    destruct (length q <? 64)%nat; by eexists.
  - unfold sread, queue_step. rewrite (irq_of u q H). by eexists.
  - pose proof (uart_access_refines u q offset w wd v H) as Ha. unfold sbind.
    destruct (VirtualPl011_access offset w wd v u) as [r u']. destruct Ha as (s & Hs & Hi & Hr).
    destruct r; by eexists.
Qed.

(** ** Lemmas on the dispatcher *)

(** The value a store of the access writes. *)
Definition source (x : MmioAccess) (regs : list Z) : Z :=
  if (register x =? 31)%nat then 0 else default 0 (regs !! register x).

(** What the emulation keeps true: 31 registers of 64 bits, a ring that holds
    a queue of bytes, and 32-bit device registers. *)
Record guest_ok (s : emulation) : Prop := {
  ok_count : length (snd s) = 31%nat;
  ok_regs : Forall u64 (snd s);
  ok_queue : exists q, uart_rep (pl011 (fst s)) q /\ Forall u8 q;
  ok_mask : u32 (imsc (pl011 (fst s)));
  ok_ctlr : u32 (ctlr (gicd (fst s)))
}.

Lemma window_offset_spec w a :
  match window_offset w a with
  | Some o => in_ipa w a /\ o = a - ipa_start w
  | None => ~ in_ipa w a
  end.
Proof.
  unfold window_offset, checked_sub, in_ipa. destruct (Z.leb_spec (ipa_start w) a); [|lia].
  destruct (Z.ltb_spec (a - ipa_start w) (ipa_size w)); lia.
Qed.

Lemma read_register_ok {E} x (s : emulation) :
  length (snd s) = 31%nat -> (register x < 32)%nat ->
  read_register (E:=E) (register x) s = (Ok (source x (snd s)), s).
Proof.
  intros Hl Hr. destruct s as [d regs]. unfold read_register, source, stry. simpl in *.
  destruct (Nat.eqb_spec (register x) 31); [done|].
  destruct (arr_get_lt (E:=E) regs (register x) ltac:(lia)) as (v & -> & ->). done.
Qed.

(** The registers after a load of [v]. *)
Definition loaded (x : MmioAccess) (v : Z) (regs : list Z) : list Z :=
  if (register x =? 31)%nat then regs
  else <[register x := if register_is_64bit x then v else as_u32 v]> regs.

Lemma write_register_ok {E} x v d regs :
  length regs = 31%nat -> (register x < 32)%nat ->
  write_register (E:=E) x v (d, regs) = (Ok tt, (d, loaded x v regs)).
Proof.
  intros Hl Hr. unfold write_register, loaded, supdate.
  destruct (Nat.eqb_spec (register x) 31); [done|]. by rewrite arr_set_ok by lia.
Qed.

Lemma as_u32_u32 v : u32 (as_u32 v).
Proof. rewrite as_u32_mod. by apply Z.mod_pos_bound. Qed.

Lemma loaded_ok x v regs :
  u32 v -> length regs = 31%nat -> Forall u64 regs ->
  length (loaded x v regs) = 31%nat /\ Forall u64 (loaded x v regs).
Proof.
  intros Hv Hl Hr. unfold loaded. destruct (_ =? _)%nat; [done|]. rewrite length_insert. split; [done|].
  apply Forall_insert; [done|]. pose proof (as_u32_u32 v). unfold u64, u32 in *. destruct (register_is_64bit x); lia.
Qed.

Lemma gicd_access_spec offset w wd v g :
  u32 (ctlr g) ->
  match VirtualGicDistributor_access offset w wd v g with
  | (Ok r, g') => width_supported wd = true /\ u32 r /\ u32 (ctlr g') /\ (w = false -> g' = g)
  | (Err _, g') => width_supported wd = false /\ g' = g
  | (Panic, _) => False
  end.
Proof.
  intros Hg. unfold VirtualGicDistributor_access. destruct (width_supported wd); simpl; [|done].
  assert (Hu : u32 (Z.land (as_u32 v) 1)).
  { change 1 with (Z.ones 1). rewrite Z.land_ones by done. pose proof (Z.mod_pos_bound (as_u32 v) (2 ^ 1)). unfold u32. lia. }
  unfold sread, sret, sbind, supdate. destruct w; simpl; repeat case_match; simplify_eq/=; done.
Qed.

Lemma id_register_u32 offset : u32 (id_register offset).
Proof. unfold id_register. by repeat case_match. Qed.

Lemma queue_access_spec offset w wd v m q :
  width_supported wd = true -> u32 m -> Forall u8 q ->
  exists r m' q', queue_step (Access offset w wd v) (m, q) = (Ok (Accessed r), (m', q')) /\
    u32 m' /\ Forall u8 q' /\
    if w then r = Write (if offset =? DR then Some (v mod 256) else None)
    else exists b, r = Read b /\ u32 b.
Proof.
  intros Hw Hm Hq. unfold queue_step. rewrite Hw. cbn [negb]. destruct w.
  - eexists _, _, _. split; [done|]. split_and!; [|done|done].
    destruct (_ =? _); [by apply Z.mod_pos_bound|done].
  - assert (Hh : u32 (hd 0 q)).
    { destruct q as [|b q]; [done|]. apply Forall_cons in Hq as [Hq _]. unfold u8, u32 in *. simpl. lia. }
    assert (Ht : Forall u8 (tl q)) by (destruct q; [done|by apply Forall_cons in Hq as [_ Hq]]).
    pose proof (id_register_u32 offset) as Hid.
    unfold queue_read. repeat case_match; simplify_eq/=; (eexists _, _, _; split; [done|]; split_and!; [done..|]);
      eexists; done.
Qed.

Lemma pl011_access_spec offset w wd v u q :
  u32 (imsc u) -> uart_rep u q -> Forall u8 q ->
  match VirtualPl011_access offset w wd v u with
  | (Ok r, u') =>
      width_supported wd = true /\ u32 (imsc u') /\ (exists q', uart_rep u' q' /\ Forall u8 q') /\
      if w then r = Write (if offset =? DR then Some (v mod 256) else None)
      else exists b, r = Read b /\ u32 b
  | (Err e, u') => width_supported wd = false /\ e = UnsupportedWidth wd /\ u' = u
  | (Panic, _) => False
  end.
Proof.
  intros Hm Hq Hb. pose proof (uart_access_refines u q offset w wd v Hq) as H.
  destruct (width_supported wd) eqn:Hw.
  2: { unfold VirtualPl011_access. by rewrite Hw. }
  destruct (queue_access_spec offset w wd v (imsc u) q Hw Hm Hb) as (r0 & m' & q' & Hs & Hm' & Hq' & Hres).
  destruct (VirtualPl011_access offset w wd v u) as [r u']. destruct H as (s & Hs' & Hi & Hr).
  rewrite Hs in Hs'. destruct r as [r|e|]; simplify_eq/=. split_and!; [done..|by eexists|done].
Qed.

(** What an emulated access of [x] may do to the state [s]. *)
Definition contained (x : MmioAccess) (s : emulation) (out : option Z) (s' : emulation) : Prop :=
  guest_ok s' /\ width x <> 8 /\
  (in_ipa GUEST_GICD (ipa x) /\ pl011 (fst s') = pl011 (fst s) \/
   in_ipa GUEST_PL011 (ipa x) /\ gicd (fst s') = gicd (fst s)) /\
  out = (if is_write x && (ipa x =? ipa_start GUEST_PL011) then Some (source x (snd s) mod 256) else None) /\
  if is_write x then snd s' = snd s else exists v, u32 v /\ snd s' = loaded x v (snd s).

Definition rejected (x : MmioAccess) (e : MmioEmulationError) : Prop :=
  match e with
  | UnmappedIpa i => i = ipa x /\ ~ in_ipa GUEST_GICD (ipa x) /\ ~ in_ipa GUEST_PL011 (ipa x)
  | Pl011 (UnsupportedWidth w) => w = width x /\ width x = 8 /\ in_ipa GUEST_PL011 (ipa x)
  | GicDistributor => width x = 8 /\ in_ipa GUEST_GICD (ipa x)
  | _ => False
  end.

Definition decoded (x : MmioAccess) : Prop :=
  (register x < 32)%nat /\ (width x = 1 \/ width x = 2 \/ width x = 4 \/ width x = 8).

Lemma decode_decoded esr a x : decode_data_abort esr a = Ok x -> decoded x /\ ipa x = a.
Proof.
  intros H. pose proof (decode_spec esr a) as Hd. rewrite H in Hd. destruct Hd as (_ & _ & ->).
  pose proof (syndrome_field_bound esr 16 5 ltac:(done)). pose proof (syndrome_field_bound esr 22 2 ltac:(done)).
  split; [|done]. split; cbn [register width]; [lia|].
  assert (syndrome_field esr 22 2 = 0 \/ syndrome_field esr 22 2 = 1 \/ syndrome_field esr 22 2 = 2 \/
    syndrome_field esr 22 2 = 3) as [->|[->|[->| ->]]] by lia; auto.
Qed.

Lemma supported_width x : decoded x -> if width_supported (width x) then width x <> 8 else width x = 8.
Proof. intros [_ [->|[->|[->| ->]]]]; done. Qed.

Lemma guest_ok_set d regs u g x v q :
  guest_ok (d, regs) -> u32 v -> uart_rep u q -> Forall u8 q -> u32 (imsc u) -> u32 (ctlr g) ->
  guest_ok (mkDispatcher u g, loaded x v regs).
Proof.
  intros H Hv Hq Hb Hm Hc. destruct (loaded_ok x v regs Hv (ok_count _ H) (ok_regs _ H)).
  constructor; simpl; eauto.
Qed.

Lemma gicd_is_not_uart a : in_ipa GUEST_GICD a -> a =? ipa_start GUEST_PL011 = false.
Proof. unfold in_ipa. simpl. intros. apply Z.eqb_neq. lia. Qed.

Lemma emulate_gicd x s :
  guest_ok s -> decoded x -> in_ipa GUEST_GICD (ipa x) ->
  match emulate x s with
  | (Ok out, s') => contained x s out s'
  | (Err e, s') => s' = s /\ rejected x e
  | (Panic, _) => False
  end.
Proof.
  intros Hs Hx Hin. pose proof (supported_width x Hx) as Hw. destruct Hx as [Hr _].
  destruct s as [d regs]. pose proof (ok_count _ Hs) as Hl. destruct (ok_queue _ Hs) as (q & Hq & Hqb). simpl in Hl, Hq.
  unfold emulate. pose proof (window_offset_spec GUEST_GICD (ipa x)) as Hg.
  destruct (window_offset GUEST_GICD (ipa x)) as [o|]; [|done].
  unfold sbind. rewrite read_register_ok by done. unfold on_gicd. cbn [snd].
  pose proof (gicd_access_spec o (is_write x) (width x) (source x regs) (gicd d) (ok_ctlr _ Hs)) as Ha.
  destruct (VirtualGicDistributor_access _ _ _ _ _) as [[r|e|] g]; cbn [map_err]; [| |done].
  2: { destruct Ha as [Ha ->]. rewrite Ha in Hw. by destruct d. }
  destruct Ha as (Ha & Hu & Hc & _). rewrite Ha in Hw. unfold contained. rewrite (gicd_is_not_uart _ Hin), andb_false_r.
  destruct (is_write x) eqn:Ew; cbn [negb].
  - cbn [sret fst snd pl011]. split_and!; [|done|by left|done|done]. destruct Hs. constructor; simpl in *; eauto.
  - rewrite write_register_ok by done. cbn [sret fst snd pl011]. split_and!; [|done|by left|done|by exists r].
    eapply guest_ok_set; eauto. apply (ok_mask _ Hs).
Qed.

Lemma emulate_pl011 x s :
  guest_ok s -> decoded x -> ~ in_ipa GUEST_GICD (ipa x) ->
  match emulate x s with
  | (Ok out, s') => contained x s out s'
  | (Err e, s') => s' = s /\ rejected x e
  | (Panic, _) => False
  end.
Proof.
  intros Hs Hx Hout. pose proof (supported_width x Hx) as Hw. destruct Hx as [Hr _].
  destruct s as [d regs]. pose proof (ok_count _ Hs) as Hl. destruct (ok_queue _ Hs) as (q & Hq & Hqb). simpl in Hl, Hq.
  unfold emulate. pose proof (window_offset_spec GUEST_GICD (ipa x)) as Hg.
  destruct (window_offset GUEST_GICD (ipa x)) as [o|]; [by destruct Hg|]. clear Hg.
  pose proof (window_offset_spec GUEST_PL011 (ipa x)) as Hp.
  destruct (window_offset GUEST_PL011 (ipa x)) as [o|]; cbn [ok_or slift sbind]; [|done].
  destruct Hp as [Hp ->]. unfold sbind, slift. rewrite read_register_ok by done. unfold on_pl011. cbn [snd].
  pose proof (pl011_access_spec (ipa x - ipa_start GUEST_PL011) (is_write x) (width x) (source x regs) (pl011 d) q
    (ok_mask _ Hs) Hq Hqb) as Ha.
  destruct (VirtualPl011_access _ _ _ _ _) as [[r|e|] u]; cbn [map_err]; [| |done].
  2: { destruct Ha as (Ha & -> & ->). rewrite Ha in Hw. by destruct d. }
  destruct Ha as (Ha & Hu & (q' & Hq' & Hb') & Hres). rewrite Ha in Hw. unfold contained.
  destruct (is_write x) eqn:Ew.
  - subst r. cbn [sret fst snd gicd]. split_and!; [|done|by right| |done].
    + destruct Hs. constructor; simpl in *; eauto.
    + cbn [andb]. unfold DR. destruct (Z.eqb_spec (ipa x - ipa_start GUEST_PL011) 0), (Z.eqb_spec (ipa x) (ipa_start GUEST_PL011)); done || lia.
  - destruct Hres as (b & -> & Hb). rewrite write_register_ok by done.
    cbn [sret fst snd gicd]. split_and!; [|done|by right|done|by exists b].
    eapply guest_ok_set; eauto. apply (ok_ctlr _ Hs).
Qed.

Lemma emulate_effect esr a x s :
  guest_ok s -> decode_data_abort esr a = Ok x ->
  match emulate x s with
  | (Ok out, s') => contained x s out s'
  | (Err e, s') => s' = s /\ rejected x e
  | (Panic, _) => False
  end.
Proof.
  intros Hs Hd. destruct (decode_decoded _ _ _ Hd) as [Hx _].
  destruct (decide (ipa_start GUEST_GICD <= ipa x < ipa_start GUEST_GICD + ipa_size GUEST_GICD)).
  - by apply emulate_gicd.
  - by apply emulate_pl011.
Qed.

(** ** Theorems *)

(** [mmio_decode_exact]: a data abort decodes to an access exactly when the
    syndrome is valid and is not a sign-extending load; the access then has
    the direction, the width, the register and the register size the
    syndrome's fields encode. *)
Lemma mmio_decode_exact esr a :
  match decode_data_abort esr a with
  | Ok x =>
      Z.testbit esr 24 = true /\ (Z.testbit esr 6 = true \/ Z.testbit esr 21 = false) /\
      x = mkAccess a (Z.testbit esr 6) (2 ^ syndrome_field esr 22 2) (Z.to_nat (syndrome_field esr 16 5))
            (Z.testbit esr 15)
  | Err InstructionSyndromeInvalid => Z.testbit esr 24 = false
  | Err SignExtendingRead => Z.testbit esr 24 = true /\ Z.testbit esr 6 = false /\ Z.testbit esr 21 = true
  | _ => False
  end.
Proof. apply decode_spec. Qed.

(** C33 [uart_refines_queue]: from reset, every sequence of received bytes,
    interrupt polls and guest accesses gets from the virtual UART exactly the
    results of a device that is an interrupt mask and a queue of at most 64
    bytes: bytes are read in order, none is lost while there is room, a full
    queue refuses a byte without disturbing the others, and the status and
    interrupt registers say whether a byte waits. *)
Theorem uart_refines_queue ops :
  run_uart uart_step ops VirtualPl011_default = run_uart queue_step ops (0, []).
Proof.
  change 0 with (imsc VirtualPl011_default). generalize uart_rep_default.
  generalize VirtualPl011_default, (@nil Z). induction ops as [|op ops IH]; intros u q H; [done|].
  cbn [run_uart]. pose proof (uart_step_refines u q op H) as Hs.
  destruct (uart_step op u) as [r u']. destruct Hs as ([m q'] & -> & Hi & Hr). simpl in Hi, Hr. subst m.
  f_equal. by apply IH.
Qed.

(** C32 [emulate_contained]: emulating an access decoded from any syndrome never
    panics and keeps the guest state well formed. It succeeds only inside the
    distributor or UART window and touches that device alone; a load changes
    only its destination register, a store changes no register, and a byte
    reaches the host console only from a store to the UART's data register.
    When it fails, nothing changed: the address has no device or the access
    is 8 bytes wide. *)
Theorem emulate_contained esr a x s :
  guest_ok s -> decode_data_abort esr a = Ok x ->
  match emulate x s with
  | (Ok out, s') => contained x s out s'
  | (Err e, s') => s' = s /\ rejected x e
  | (Panic, _) => False
  end.
Proof. apply emulate_effect. Qed.

(** ** Concrete instances *)

(** A guest that stores the byte in [x3] to the UART's data register. *)
Definition sample_guest : emulation := (MmioDispatcher_default, <[3%nat := 0x1241]> (replicate 31 0)).
Definition sample_esr : Z := 0x93830040.

Lemma sample_guest_ok : guest_ok sample_guest.
Proof.
  constructor; [done| | |done|done].
  - apply Forall_insert; [by apply Forall_replicate|done].
  - exists []. split; [apply uart_rep_default|done].
Qed.

Lemma emulate_contained_witness :
  exists x s', decode_data_abort sample_esr 0x09000000 = Ok x /\
    emulate x sample_guest = (Ok (Some 0x41), s') /\ contained x sample_guest (Some 0x41) s'.
Proof.
  pose proof (emulate_contained sample_esr 0x09000000 _ sample_guest sample_guest_ok eq_refl) as H.
  eexists _, _. split; [reflexivity|]. split; [reflexivity|]. exact H.
Defined.
