(* ===== verification/Gicv2.v ===== *)
(** * The GICv2 driver: src/tvisor_util/gicv2.rs

    The driver talks to the interrupt controller through volatile 8- and
    32-bit accesses.  A method is a program of the free monad [mmio]: it
    names each access and continues with whatever the hardware answers, so a
    theorem about all runs holds for every behaviour of the controller.
    [exec] runs a program against a device given as two functions.  The
    virtual interrupt state of a vCPU is pure data and is modelled directly. *)

From S2P Require Import Prelude SystemInfo.

(** ** Memory-mapped programs *)

Inductive mmio (A : Type) : Type :=
| Done (a : A)
| Read8 (address : Z) (k : Z -> mmio A)
| Read32 (address : Z) (k : Z -> mmio A)
| Write8 (address value : Z) (k : mmio A)
| Write32 (address value : Z) (k : mmio A)
| Barrier (k : mmio A).
Arguments Done {A}.
Arguments Read8 {A}.
Arguments Read32 {A}.
Arguments Write8 {A}.
Arguments Write32 {A}.
Arguments Barrier {A}.

#[global] Instance mmio_ret : MRet mmio := @Done.
#[global] Instance mmio_bind : MBind mmio := fun A B f =>
  fix go (m : mmio A) : mmio B :=
    match m with
    | Done a => f a
    | Read8 a k => Read8 a (fun v => go (k v))
    | Read32 a k => Read32 a (fun v => go (k v))
    | Write8 a v k => Write8 a v (go k)
    | Write32 a v k => Write32 a v (go k)
    | Barrier k => Barrier (go k)
    end.

(** [m?; k]: an error of [m] is the result. *)
Definition try_bind {E A B} (m : mmio (outcome E A)) (f : A -> mmio (outcome E B)) : mmio (outcome E B) :=
  r ← m; match r with Ok a => f a | Err e => Done (Err e) | Panic => Done Panic end.

Notation "'let*' x ':=' m 'in' k" := (try_bind m (fun x => k))
  (at level 10, x pattern, m at level 100, k at level 200,
   format "'let*'  x  ':='  m  'in' '//' k") : outcome_scope.

Definition read8 (address : Z) : mmio Z := Read8 address Done.
Definition read32 (address : Z) : mmio Z := Read32 address Done.
Definition write8 (address value : Z) : mmio unit := Write8 address value (Done tt).
Definition write32 (address value : Z) : mmio unit := Write32 address value (Done tt).
Definition complete_mmio : mmio unit := Barrier (Done tt).

(** ** Constants *)

Definition REQUIRED_GICD_SIZE : Z := 0xf04.
Definition REQUIRED_GICC_SIZE : Z := 0x1004.
Definition REQUIRED_GICH_SIZE : Z := 0x108.
Definition REQUIRED_GICV_SIZE : Z := 0x1004.

Definition GICD_CTLR : Z := 0x000.
Definition GICD_TYPER : Z := 0x004.
Definition GICD_IGROUPR : Z := 0x080.
Definition GICD_ISENABLER : Z := 0x100.
Definition GICD_ICENABLER : Z := 0x180.
Definition GICD_IPRIORITYR : Z := 0x400.
Definition GICD_ITARGETSR : Z := 0x800.
Definition GICD_ICFGR : Z := 0xc00.
Definition GICC_CTLR : Z := 0x000.
Definition GICD_SGIR : Z := 0xf00.
Definition GICC_PMR : Z := 0x004.
Definition GICC_BPR : Z := 0x008.
Definition GICC_IAR : Z := 0x00c.
Definition GICC_EOIR : Z := 0x010.
Definition GICC_DIR : Z := 0x1000.
Definition GICH_HCR : Z := 0x000.
Definition GICH_VMCR : Z := 0x008.
Definition GICH_LR0 : Z := 0x100.
Definition GICH_LR1 : Z := 0x104.

Definition GICD_CTLR_ENABLE_GRP1_NS : Z := Z.shiftl 1 0.
Definition GICC_CTLR_ENABLE_GRP1_NS : Z := Z.shiftl 1 0.
Definition GICC_CTLR_EOIMODE_NS : Z := Z.shiftl 1 9.
Definition GICH_HCR_ENABLE : Z := 1.
Definition GICH_LR_HW : Z := Z.shiftl 1 31.
Definition GICH_LR_PENDING : Z := Z.shiftl 1 28.
Definition GICH_LR_STATE_MASK : Z := Z.shiftl 3 28.
Definition GICH_LR_PRIORITY_SHIFT : Z := 23.
Definition GICH_LR_PHYSICAL_ID_SHIFT : Z := 10.
Definition GICH_LR_INTID_MASK : Z := 0x3ff.

Definition MANAGEMENT_SGI : Z := 1.
Definition VIRTUAL_TIMER_PPI : Z := 27.

Inductive GicV2Error :=
| InvalidIRQ (irq : Z)
| InvalidSPI (irq : Z)
| GicUnexpected
| InvalidTarget (mask : Z)
| ManagementUnavailable
| CpuInterfaceNotReady.

(** ** Tokens and targets *)

Record InterruptAck := mkAck { ack_raw : Z }.

Definition InterruptAck_from_raw (raw : Z) : option InterruptAck :=
  if Z.land raw GICH_LR_INTID_MASK <? 1020 then Some (mkAck raw) else None.

Definition InterruptAck_intid (self : InterruptAck) : Z := Z.land (ack_raw self) GICH_LR_INTID_MASK.

Definition InterruptAck_source (self : InterruptAck) : option Z :=
  if InterruptAck_intid self <? 16 then Some (as_u8 (Z.land (Z.shiftr (ack_raw self) 10) 7)) else None.

Record CpuTarget := mkTarget { target_mask : Z }.

(** [mask.count_ones()] and [mask.trailing_zeros()] of a [u8]. *)
Definition count_ones (mask : Z) : nat :=
  length (List.filter (fun i => Z.testbit mask (Z.of_nat i)) (seq 0 8)).
Definition trailing_zeros (mask : Z) : nat :=
  default 8%nat (List.find (fun i => Z.testbit mask (Z.of_nat i)) (seq 0 8)).

Definition CpuTarget_new (mask : Z) : outcome GicV2Error CpuTarget :=
  if (count_ones mask =? 1)%nat then Ok (mkTarget mask) else Err (InvalidTarget mask).

Definition CpuTarget_interface (self : CpuTarget) : nat := trailing_zeros (target_mask self).

Definition management_sgir (target : CpuTarget) : Z := Z.lor (Z.shiftl (target_mask target) 16) MANAGEMENT_SGI.

Record CpuInterfaceState := mkInterface {
  if_target : CpuTarget;
  security_extensions : bool;
  group1 : bool;
  distributor_control : Z;
  control : Z;
  priority_mask : Z;
  binary_point : Z
}.

Record GicV2Info := mkInfo {
  distributor : PhysRegion;
  cpu_interface : PhysRegion;
  hypervisor_interface : PhysRegion;
  virtual_cpu_interface : PhysRegion
}.

Definition GicV2Info_new (gicd gicc gich gicv : PhysRegion) : option GicV2Info :=
  if (rsize gicd <? REQUIRED_GICD_SIZE) || (rsize gicc <? REQUIRED_GICC_SIZE)
      || (rsize gich <? REQUIRED_GICH_SIZE) || (rsize gicv <? REQUIRED_GICV_SIZE)
  then None
  else Some (mkInfo gicd gicc gich gicv).

(** [!x] on a [u32]. *)
Definition not32 (x : Z) : Z := Z.land (Z.lnot x) (Z.ones 32).

(** ** The driver *)

Record GicV2 := mkGic { info : GicV2Info }.

Section Driver.
Context (self : GicV2).

Definition distributor_base : Z := rstart (distributor (info self)).
Definition cpu_interface_base : Z := rstart (cpu_interface (info self)).
Definition hypervisor_interface_base : Z := rstart (hypervisor_interface (info self)).

Definition gicd_typer : Z := distributor_base + GICD_TYPER.
Definition gicd_ctlr : Z := distributor_base + GICD_CTLR.
Definition gicc_pmr : Z := cpu_interface_base + GICC_PMR.
Definition gicc_ctlr : Z := cpu_interface_base + GICC_CTLR.
Definition gicd_isenabler : Z := distributor_base + GICD_ISENABLER.
Definition gicd_icenabler : Z := distributor_base + GICD_ICENABLER.
Definition gicd_igroupr : Z := distributor_base + GICD_IGROUPR.
Definition gicd_ipriorityr : Z := distributor_base + GICD_IPRIORITYR.
Definition gicd_itargetsr : Z := distributor_base + GICD_ITARGETSR.
Definition gicd_icfgr : Z := distributor_base + GICD_ICFGR.
Definition gich_vmcr : Z := hypervisor_interface_base + GICH_VMCR.
Definition gich_lr0 : Z := hypervisor_interface_base + GICH_LR0.
Definition gich_lr1 : Z := hypervisor_interface_base + GICH_LR1.
Definition gich_hcr : Z := hypervisor_interface_base + GICH_HCR.
Definition gicc_iar : Z := cpu_interface_base + GICC_IAR.
Definition gicc_eoir : Z := cpu_interface_base + GICC_EOIR.
Definition gicc_dir : Z := cpu_interface_base + GICC_DIR.

Definition num_interrupts : mmio Z :=
  typer ← read32 gicd_typer;
  Done (Z.min (32 * (Z.land typer 0x1f + 1)) 1020).

Definition gicd_ctlr_bitflag_set (bitflag : Z) : mmio unit :=
  v ← read32 gicd_ctlr; write32 gicd_ctlr (Z.lor v bitflag).
Definition gicd_ctlr_set (value : Z) : mmio unit := write32 gicd_ctlr value.
Definition gicc_pmr_set (value : Z) : mmio unit := write32 gicc_pmr value.
Definition gicc_ctlr_bitflag_set (bitflag : Z) : mmio unit :=
  v ← read32 gicc_ctlr; write32 gicc_ctlr (Z.lor v bitflag).

(** [if irq < self.num_interrupts() { k } else { Err(InvalidIRQ(irq)) }]. *)
Definition checked_irq {A} (irq : Z) (k : mmio (outcome GicV2Error A)) : mmio (outcome GicV2Error A) :=
  n ← num_interrupts;
  if irq <? n then k else Done (Err (InvalidIRQ irq)).

Definition gicd_isenabler_n (irq : Z) : mmio (outcome GicV2Error Z) :=
  checked_irq irq (Done (Ok (gicd_isenabler + irq / 32 * 4))).

Definition gicd_isenabler_n_set (irq : Z) : mmio (outcome GicV2Error unit) :=
  checked_irq irq
    (let* isenabler := gicd_isenabler_n irq in
     _ ← write32 isenabler (Z.shiftl 1 (irq mod 32)); Done (Ok tt)).

Definition gicd_isenabler_n_get (irq : Z) : mmio (outcome GicV2Error bool) :=
  checked_irq irq
    (let* isenabler := gicd_isenabler_n irq in
     let bit := Z.shiftl 1 (irq mod 32) in
     v ← read32 isenabler; Done (Ok (Z.land v bit =? bit))).

Definition gicd_icenabler_n (irq : Z) : mmio (outcome GicV2Error Z) :=
  checked_irq irq (Done (Ok (gicd_icenabler + irq / 32 * 4))).

Definition gicd_icenabler_n_set (irq : Z) : mmio (outcome GicV2Error unit) :=
  checked_irq irq
    (let* icenabler := gicd_icenabler_n irq in
     _ ← write32 icenabler (Z.shiftl 1 (irq mod 32)); Done (Ok tt)).

Definition gicd_icenabler_n_get (irq : Z) : mmio (outcome GicV2Error bool) :=
  checked_irq irq
    (let* icenabler := gicd_icenabler_n irq in
     let bit := Z.shiftl 1 (irq mod 32) in
     v ← read32 icenabler; Done (Ok (Z.land v bit =? bit))).

Definition gicd_enable_irq (irq : Z) : mmio (outcome GicV2Error unit) := gicd_isenabler_n_set irq.
Definition gicd_disable_irq (irq : Z) : mmio (outcome GicV2Error unit) := gicd_icenabler_n_set irq.

Definition gicd_igroupr_n (irq : Z) : mmio (outcome GicV2Error Z) :=
  checked_irq irq (Done (Ok (gicd_igroupr + irq / 32 * 4))).

Definition gicd_igroupr_n_get (irq : Z) : mmio (outcome GicV2Error bool) :=
  checked_irq irq
    (let* igroupr := gicd_igroupr_n irq in
     let bit := Z.shiftl 1 (irq mod 32) in
     v ← read32 igroupr; Done (Ok (Z.land v bit =? bit))).

(** [write32(a, read32(a) | bit)] or [write32(a, read32(a) & !bit)]. *)
Definition update_bit (address bit : Z) (on : bool) : mmio unit :=
  v ← read32 address;
  write32 address (if on then Z.lor v bit else Z.land v (not32 bit)).

Definition gicd_igroupr_n_set (irq : Z) (on : bool) : mmio (outcome GicV2Error unit) :=
  checked_irq irq
    (let* igroupr := gicd_igroupr_n irq in
     _ ← update_bit igroupr (Z.shiftl 1 (irq mod 32)) on; Done (Ok tt)).

Definition gicd_ipriorityr_set (irq value : Z) : mmio unit := write8 (gicd_ipriorityr + irq) value.
Definition gicd_itargetsr_set (irq value : Z) : mmio unit := write8 (gicd_itargetsr + irq) value.

Definition gicd_icfgr_n (irq : Z) : mmio (outcome GicV2Error Z) :=
  checked_irq irq (Done (Ok (gicd_icfgr + irq / 16 * 4))).

Definition gicd_icfgr_n_get (irq : Z) : mmio (outcome GicV2Error bool) :=
  checked_irq irq
    (let* icfgr := gicd_icfgr_n irq in
     let bit := Z.shiftl 1 (irq mod 16 * 2 + 1) in
     v ← read32 icfgr; Done (Ok (Z.land v bit =? bit))).

Definition gicd_icfgr_n_set (irq : Z) (on : bool) : mmio (outcome GicV2Error unit) :=
  checked_irq irq
    (let* icfgr := gicd_icfgr_n irq in
     _ ← update_bit icfgr (Z.shiftl 1 (irq mod 16 * 2 + 1)) on; Done (Ok tt)).

Definition gich_vmcr_set (value : Z) : mmio unit := write32 gich_vmcr value.
Definition gich_vmcr_get : mmio Z := read32 gich_vmcr.
Definition gich_lr0_set (value : Z) : mmio unit := write32 gich_lr0 value.
Definition gich_lr0_get : mmio Z := read32 gich_lr0.
Definition gich_lr1_set (value : Z) : mmio unit := write32 gich_lr1 value.
Definition gich_lr1_get : mmio Z := read32 gich_lr1.
Definition gich_hcr_set (value : Z) : mmio unit := write32 gich_hcr value.
Definition gicc_iar_get : mmio Z := read32 gicc_iar.
Definition gicc_eoir_set (value : Z) : mmio unit := write32 gicc_eoir value.
Definition gicc_dir_set (value : Z) : mmio unit := write32 gicc_dir value.

Definition configure_nonsecure_priority (irq priority : Z) : mmio (outcome GicV2Error unit) :=
  _ ← gicd_ipriorityr_set irq priority;
  actual ← read8 (gicd_ipriorityr + irq);
  if negb (actual =? priority) then Done (Err ManagementUnavailable) else Done (Ok tt).

Definition initialize_distributor (uart_spi : Z) (boot : CpuTarget) : mmio (outcome GicV2Error unit) :=
  n ← num_interrupts;
  if negb ((32 <=? uart_spi) && (uart_spi <? n)) then Done (Err (InvalidSPI uart_spi))
  else
    let* _ := gicd_disable_irq uart_spi in
    let* _ := configure_nonsecure_priority uart_spi 0x80 in
    _ ← gicd_itargetsr_set uart_spi (target_mask boot);
    let* _ := gicd_icfgr_n_set uart_spi false in
    _ ← gicd_ctlr_bitflag_set GICD_CTLR_ENABLE_GRP1_NS;
    actual ← read8 (gicd_itargetsr + uart_spi);
    if negb (actual =? target_mask boot) then Done (Err CpuInterfaceNotReady) else Done (Ok tt).

(** [core::array::from_fn(|i| read32(itargetsr + i * 4))] from [i] on. *)
Fixpoint read_words (n i : nat) : mmio (list Z) :=
  match n with
  | O => Done []
  | S n =>
      w ← read32 (gicd_itargetsr + Z.of_nat i * 4);
      ws ← read_words n (S i);
      Done (w :: ws)
  end.

Definition banked_target_words : mmio (list Z) := read_words 8 0.

(** The fold of the target words and of the four fields of each. *)
Definition fold_targets (words : list Z) : Z :=
  let mask := fold_left Z.lor words 0 in
  let mask := Z.lor mask (Z.shiftr mask 16) in
  let mask := Z.lor mask (Z.shiftr mask 8) in
  as_u8 mask.

Definition local_target : mmio (outcome GicV2Error CpuTarget) :=
  words ← banked_target_words;
  Done (CpuTarget_new (fold_targets words)).

Definition GICC_CTLR_READY : Z := Z.lor GICC_CTLR_ENABLE_GRP1_NS GICC_CTLR_EOIMODE_NS.

(** The read-back checks on the registers, before the last enable check. *)
Definition interface_not_ready (state : CpuInterfaceState) : bool :=
  negb (Z.land (control state) GICC_CTLR_READY =? GICC_CTLR_READY)
  || (Z.land (distributor_control state) GICD_CTLR_ENABLE_GRP1_NS =? 0)
  || (Z.land (priority_mask state) 0xff <? 0x80)
  || (4 <? Z.land (binary_point state) 7).

Definition initialize_cpu_interface (worker : bool) : mmio (outcome GicV2Error CpuInterfaceState) :=
  let* target := local_target in
  typer ← read32 gicd_typer;
  let* available :=
    if negb (Z.land typer (Z.shiftl 1 10) =? 0) then gicd_isenabler_n_get MANAGEMENT_SGI else Done (Ok true) in
  if negb available then Done (Err ManagementUnavailable)
  else
    _ ← (if worker then _ ← write32 gicd_icenabler 0xffff0000; gich_hcr_set 0 else Done tt);
    let* _ := configure_nonsecure_priority MANAGEMENT_SGI 0x40 in
    let* _ := gicd_enable_irq MANAGEMENT_SGI in
    _ ← gicc_pmr_set 0xff;
    _ ← write32 (cpu_interface_base + GICC_BPR) 0;
    _ ← gicc_ctlr_bitflag_set GICC_CTLR_READY;
    _ ← complete_mmio;
    typer ← read32 gicd_typer;
    let* g1 := gicd_igroupr_n_get MANAGEMENT_SGI in
    dctl ← read32 gicd_ctlr;
    ctl ← read32 gicc_ctlr;
    pmr ← read32 gicc_pmr;
    bpr ← read32 (cpu_interface_base + GICC_BPR);
    let state := mkInterface target (negb (Z.land typer (Z.shiftl 1 10) =? 0)) g1 dctl ctl pmr bpr in
    if interface_not_ready state then Done (Err CpuInterfaceNotReady)
    else
      let* enabled := gicd_isenabler_n_get MANAGEMENT_SGI in
      if negb enabled then Done (Err CpuInterfaceNotReady) else Done (Ok state).

Definition enable_virtual_timer_ppi : mmio (outcome GicV2Error unit) :=
  let* _ := configure_nonsecure_priority VIRTUAL_TIMER_PPI 0x80 in
  let* _ := gicd_enable_irq VIRTUAL_TIMER_PPI in
  let* enabled := gicd_isenabler_n_get VIRTUAL_TIMER_PPI in
  if negb enabled then Done (Err ManagementUnavailable) else Done (Ok tt).

Definition send_management (target : CpuTarget) : mmio unit :=
  _ ← complete_mmio;
  _ ← write32 (distributor_base + GICD_SGIR) (management_sgir target);
  complete_mmio.

Definition acknowledge : mmio (option InterruptAck) :=
  raw ← gicc_iar_get; Done (InterruptAck_from_raw raw).

Definition end_interrupt (ack : InterruptAck) : mmio unit := gicc_eoir_set (ack_raw ack).

Definition complete_host_interrupt (ack : InterruptAck) : mmio unit :=
  _ ← complete_mmio;
  _ ← end_interrupt ack;
  _ ← gicc_dir_set (ack_raw ack);
  complete_mmio.

End Driver.

(** ** Virtual interrupts *)

Record VirtualGicV2State := mkVgic { vmcr : Z; timer_lr : Z; uart_lr : Z }.

Definition uart_in_flight (self : VirtualGicV2State) : bool := negb (Z.land (uart_lr self) GICH_LR_STATE_MASK =? 0).
Definition timer_in_flight (self : VirtualGicV2State) : bool := negb (Z.land (timer_lr self) GICH_LR_STATE_MASK =? 0).

Definition restore_virtual_cpu (self : GicV2) (state : VirtualGicV2State) : mmio unit :=
  _ ← gich_vmcr_set self (vmcr state);
  _ ← gich_lr0_set self (timer_lr state);
  _ ← gich_lr1_set self (uart_lr state);
  gich_hcr_set self GICH_HCR_ENABLE.

Definition save_virtual_cpu (self : GicV2) : mmio VirtualGicV2State :=
  v ← gich_vmcr_get self;
  t ← gich_lr0_get self;
  u ← gich_lr1_get self;
  _ ← gich_hcr_set self 0;
  Done (mkVgic v t u).

Definition lr_priority (gic_priority : Z) : Z :=
  Z.shiftl (Z.land (Z.shiftr gic_priority 3) 0x1f) GICH_LR_PRIORITY_SHIFT.

Definition queue_timer_ppi (ppi : Z) : stateful VirtualGicV2State unit unit := fun state =>
  if timer_in_flight state || negb ((16 <=? ppi) && (ppi <? 32)) then (Err tt, state)
  else
    let lr := Z.lor (Z.lor (Z.lor (Z.lor GICH_LR_HW GICH_LR_PENDING) (lr_priority 0x80))
      (Z.shiftl ppi GICH_LR_PHYSICAL_ID_SHIFT)) ppi in
    (Ok tt, mkVgic (vmcr state) lr (uart_lr state)).

Definition queue_uart_spi (spi : Z) : stateful VirtualGicV2State unit unit := fun state =>
  if uart_in_flight state || negb ((32 <=? spi) && (spi <? 1020)) then (Err tt, state)
  else
    let lr := Z.lor (Z.lor GICH_LR_PENDING (lr_priority 0x80)) spi in
    (Ok tt, mkVgic (vmcr state) (timer_lr state) lr).

Definition is_timer_ppi (id ppi : Z) : bool := id =? ppi.

(** ** Runs *)

(** One access of a run, with the value the hardware gave or received. *)
Inductive access :=
| Rd8 (address value : Z)
| Rd32 (address value : Z)
| Wr8 (address value : Z)
| Wr32 (address value : Z)
| Bar.

(** The hardware may answer a read with any value of its width. *)
Inductive runs {A} : mmio A -> list access -> A -> Prop :=
| runs_done a : runs (Done a) [] a
| runs_read8 ad v k tr a : u8 v -> runs (k v) tr a -> runs (Read8 ad k) (Rd8 ad v :: tr) a
| runs_read32 ad v k tr a : u32 v -> runs (k v) tr a -> runs (Read32 ad k) (Rd32 ad v :: tr) a
| runs_write8 ad v k tr a : runs k tr a -> runs (Write8 ad v k) (Wr8 ad v :: tr) a
| runs_write32 ad v k tr a : runs k tr a -> runs (Write32 ad v k) (Wr32 ad v :: tr) a
| runs_barrier k tr a : runs k tr a -> runs (Barrier k) (Bar :: tr) a.

(** A run against the device [dev], whose state answers the reads. *)
Fixpoint exec {S A} (dev_read : S -> Z -> Z) (dev_write : S -> Z -> Z -> S) (m : mmio A) (s : S) : A * S :=
  match m with
  | Done a => (a, s)
  | Read8 ad k => exec dev_read dev_write (k (as_u8 (dev_read s ad))) s
  | Read32 ad k => exec dev_read dev_write (k (as_u32 (dev_read s ad))) s
  | Write8 ad v k => exec dev_read dev_write k (dev_write s ad v)
  | Write32 ad v k => exec dev_read dev_write k (dev_write s ad v)
  | Barrier k => exec dev_read dev_write k s
  end.

(** Every access of every run satisfies [P], and every result [Q]. *)
Fixpoint every {A} (P : access -> Prop) (Q : A -> Prop) (m : mmio A) : Prop :=
  match m with
  | Done a => Q a
  | Read8 ad k => forall v, u8 v -> P (Rd8 ad v) /\ every P Q (k v)
  | Read32 ad k => forall v, u32 v -> P (Rd32 ad v) /\ every P Q (k v)
  | Write8 ad v k => P (Wr8 ad v) /\ every P Q k
  | Write32 ad v k => P (Wr32 ad v) /\ every P Q k
  | Barrier k => P Bar /\ every P Q k
  end.

Lemma every_runs {A} P Q (m : mmio A) tr a : runs m tr a -> every P Q m -> Forall P tr /\ Q a.
Proof. induction 1; simpl; intros H'; try destruct H'; naive_solver. Qed.

Lemma every_mono {A} P (Q Q' : A -> Prop) m : every P Q m -> (forall a, Q a -> Q' a) -> every P Q' m.
Proof. intros H HQ. induction m; simpl in *; naive_solver. Qed.

Lemma every_bind {A B} P (Q : B -> Prop) (m : mmio A) f :
  every P (fun a => every P Q (f a)) m -> every P Q (m ≫= f).
Proof. intros H. induction m; simpl in *; naive_solver. Qed.

Lemma every_try {E A B} P (Q : outcome E B -> Prop) (m : mmio (outcome E A)) f :
  every P (fun r => match r with Ok a => every P Q (f a) | Err e => Q (Err e) | Panic => Q Panic end) m ->
  every P Q (try_bind m f).
Proof. intros H. apply every_bind. eapply every_mono; [done|]. by intros [a|e|]. Qed.

Lemma runs_bind_inv {A B} (m : mmio A) (f : A -> mmio B) tr r :
  runs (m ≫= f) tr r -> exists tr1 a tr2, tr = tr1 ++ tr2 /\ runs m tr1 a /\ runs (f a) tr2 r.
Proof.
  revert tr. induction m as [a|ad k IH|ad k IH|ad v k IH|ad v k IH|k IH]; intros tr H; cbn in H.
  - exists [], a, tr. split_and!; [done|constructor|done].
  - inversion H as [|? v ? tr' ? Hv Hk| | | |]; subst. destruct (IH v _ Hk) as (tr1 & a & tr2 & -> & H1 & H2).
    exists (Rd8 ad v :: tr1), a, tr2. split_and!; [done|by constructor|done].
  - inversion H as [| |? v ? tr' ? Hv Hk| | |]; subst. destruct (IH v _ Hk) as (tr1 & a & tr2 & -> & H1 & H2).
    exists (Rd32 ad v :: tr1), a, tr2. split_and!; [done|by constructor|done].
  - inversion H as [| | |? ? ? tr' ? Hk| |]; subst. destruct (IH _ Hk) as (tr1 & a & tr2 & -> & H1 & H2).
    exists (Wr8 ad v :: tr1), a, tr2. split_and!; [done|by constructor|done].
  - inversion H as [| | | |? ? ? tr' ? Hk|]; subst. destruct (IH _ Hk) as (tr1 & a & tr2 & -> & H1 & H2).
    exists (Wr32 ad v :: tr1), a, tr2. split_and!; [done|by constructor|done].
  - inversion H as [| | | | |? tr' ? Hk]; subst. destruct (IH _ Hk) as (tr1 & a & tr2 & -> & H1 & H2).
    exists (Bar :: tr1), a, tr2. split_and!; [done|by constructor|done].
Qed.

(** An execution against a device is one of the runs. *)
Lemma exec_runs {S A} dr dw (m : mmio A) (s : S) : exists tr, runs m tr (fst (exec dr dw m s)).
Proof.
  revert s. induction m as [a|ad k IH|ad k IH|ad v k IH|ad v k IH|k IH]; intros s; simpl.
  - eexists. constructor.
  - destruct (IH (as_u8 (dr s ad)) s) as [tr H]. eexists. constructor; [|done].
    unfold as_u8. rewrite Z.land_ones by done. by apply Z.mod_pos_bound.
  - destruct (IH (as_u32 (dr s ad)) s) as [tr H]. eexists. constructor; [|done].
    unfold as_u32. rewrite Z.land_ones by done. by apply Z.mod_pos_bound.
  - destruct (IH (dw s ad v)) as [tr H]. eexists. by constructor.
  - destruct (IH (dw s ad v)) as [tr H]. eexists. by constructor.
  - destruct (IH s) as [tr H]. eexists. by constructor.
Qed.

(** ** Operations of the driver *)

(** A call of the driver, its result dropped. *)
Inductive gic_op :=
| ONumInterrupts
| OEnable (irq : Z)
| ODisable (irq : Z)
| OIsEnabled (irq : Z)
| OIsCleared (irq : Z)
| OGroup (irq : Z)
| OSetGroup (irq : Z) (on : bool)
| OConfig (irq : Z)
| OSetConfig (irq : Z) (on : bool)
| OInitDistributor (spi : Z) (boot : CpuTarget)
| OLocalTarget
| OInitCpu (worker : bool)
| OEnableTimer
| OSend (target : CpuTarget)
| ORestore (state : VirtualGicV2State)
| OSave
| OAcknowledge
| OEnd (ack : InterruptAck)
| OComplete (ack : InterruptAck).

Definition discard {A} (m : mmio A) : mmio unit := _ ← m; Done tt.

Definition run_gic_op (g : GicV2) (o : gic_op) : mmio unit :=
  match o with
  | ONumInterrupts => discard (num_interrupts g)
  | OEnable irq => discard (gicd_enable_irq g irq)
  | ODisable irq => discard (gicd_disable_irq g irq)
  | OIsEnabled irq => discard (gicd_isenabler_n_get g irq)
  | OIsCleared irq => discard (gicd_icenabler_n_get g irq)
  | OGroup irq => discard (gicd_igroupr_n_get g irq)
  | OSetGroup irq on => discard (gicd_igroupr_n_set g irq on)
  | OConfig irq => discard (gicd_icfgr_n_get g irq)
  | OSetConfig irq on => discard (gicd_icfgr_n_set g irq on)
  | OInitDistributor spi boot => discard (initialize_distributor g spi boot)
  | OLocalTarget => discard (local_target g)
  | OInitCpu worker => discard (initialize_cpu_interface g worker)
  | OEnableTimer => discard (enable_virtual_timer_ppi g)
  | OSend target => send_management g target
  | ORestore state => restore_virtual_cpu g state
  | OSave => discard (save_virtual_cpu g)
  | OAcknowledge => discard (acknowledge g)
  | OEnd ack => end_interrupt g ack
  | OComplete ack => complete_host_interrupt g ack
  end.

(** The operation that reclassifies an interrupt. *)
Definition sets_group (o : gic_op) : bool := match o with OSetGroup _ _ => true | _ => false end.

(** Interrupt numbers are unsigned. *)
Definition op_ok (o : gic_op) : Prop :=
  match o with
  | OEnable irq | ODisable irq | OIsEnabled irq | OIsCleared irq | OGroup irq | OSetGroup irq _
  | OConfig irq | OSetConfig irq _ => u32 irq
  | _ => True
  end.

(** ** Containment *)

(** [n] bytes at [a] are [n] bytes at an offset of the region [r]. *)
Definition at_offset (r : PhysRegion) (n a : Z) (ok : Z -> Prop) : Prop :=
  exists o, a = rstart r + o /\ 0 <= o /\ o + n <= rsize r /\ ok o.

Definition any_offset (_ : Z) : Prop := True.

(** Offsets outside the interrupt group registers. *)
Definition not_group (o : Z) : Prop := o < GICD_IGROUPR \/ GICD_ISENABLER <= o.

Section Containment.
Context (g : GicV2) (groups : bool).

(** Each access is inside one of the mapped interfaces; the group registers are
    written only when [groups] allows it. *)
Definition placed (acc : access) : Prop :=
  let at_ n a ok :=
    at_offset (distributor (info g)) n a ok \/ at_offset (cpu_interface (info g)) n a any_offset \/
    at_offset (hypervisor_interface (info g)) n a any_offset in
  match acc with
  | Rd8 a _ => at_ 1 a any_offset
  | Rd32 a _ => at_ 4 a any_offset
  | Wr8 a _ => at_ 1 a (if groups then any_offset else not_group)
  | Wr32 a _ => at_ 4 a (if groups then any_offset else not_group)
  | Bar => True
  end.

Definition safe {A} (m : mmio A) : Prop := every placed (fun _ => True) m.

Context (Hd : REQUIRED_GICD_SIZE <= rsize (distributor (info g))).
Context (Hc : REQUIRED_GICC_SIZE <= rsize (cpu_interface (info g))).
Context (Hh : REQUIRED_GICH_SIZE <= rsize (hypervisor_interface (info g))).

Lemma at_offset_intro r n a (ok : Z -> Prop) :
  0 <= a - rstart r -> a - rstart r + n <= rsize r -> ok (a - rstart r) -> at_offset r n a ok.
Proof. intros. exists (a - rstart r). split_and!; done || lia. Qed.

Ltac offsets :=
  unfold not_group, gicd_typer, gicd_ctlr, gicc_pmr, gicc_ctlr, gicd_isenabler, gicd_icenabler, gicd_igroupr,
    gicd_ipriorityr, gicd_itargetsr, gicd_icfgr, gich_vmcr, gich_lr0, gich_lr1, gich_hcr, gicc_iar, gicc_eoir,
    gicc_dir, distributor_base, cpu_interface_base, hypervisor_interface_base,
    REQUIRED_GICD_SIZE, REQUIRED_GICC_SIZE, REQUIRED_GICH_SIZE,
    GICD_CTLR, GICD_TYPER, GICD_IGROUPR, GICD_ISENABLER, GICD_ICENABLER, GICD_IPRIORITYR, GICD_ITARGETSR,
    GICD_ICFGR, GICC_CTLR, GICD_SGIR, GICC_PMR, GICC_BPR, GICC_IAR, GICC_EOIR, GICC_DIR, GICH_HCR, GICH_VMCR,
    GICH_LR0, GICH_LR1 in *;
  Z.to_euclidean_division_equations; lia.

(** An access at an offset the register map fixes. *)
Ltac place :=
  cbn [placed];
  first [exact I
    | solve [left; apply at_offset_intro; [offsets|offsets|first [exact I|destruct groups; [exact I|cbv beta iota; offsets]]]]
    | solve [right; left; apply at_offset_intro; [offsets|offsets|exact I]]
    | solve [right; right; apply at_offset_intro; [offsets|offsets|exact I]]].

Lemma safe_bind {A B} (m : mmio A) (f : A -> mmio B) : safe m -> (forall a, safe (f a)) -> safe (m ≫= f).
Proof. intros Hm Hf. apply every_bind. eapply every_mono; [exact Hm|]. intros a _. apply Hf. Qed.

Lemma safe_try {E A B} (m : mmio (outcome E A)) (f : A -> mmio (outcome E B)) :
  safe m -> (forall a, safe (f a)) -> safe (try_bind m f).
Proof. intros Hm Hf. apply every_try. eapply every_mono; [exact Hm|]. intros [a|e|] _; [apply Hf|exact I..]. Qed.

Lemma every_checked {A} (Q : outcome GicV2Error A -> Prop) irq k :
  Q (Err (InvalidIRQ irq)) -> (irq < 1020 -> every placed Q k) -> every placed Q (checked_irq g irq k).
Proof.
  intros He Hk v Hv. split; [place|]. cbn [mbind mmio_bind].
  destruct (_ <? _) eqn:E; [|done]. bool_prop. apply Hk. lia.
Qed.

(** A register of a bank checked twice, as the accessors do. *)
Lemma safe_banked {A} irq ad (f : Z -> mmio (outcome GicV2Error A)) :
  (irq < 1020 -> safe (f ad)) -> safe (checked_irq g irq (try_bind (checked_irq g irq (Done (Ok ad))) f)).
Proof.
  intros Hf. apply every_checked; [done|]. intros Hi. apply every_try. apply every_checked; [done|]. by intros _; apply Hf.
Qed.

Lemma safe_update_bit ad b on : placed (Rd32 ad 0) -> placed (Wr32 ad 0) -> safe (update_bit ad b on).
Proof. intros Hr Hw v Hv. by split. Qed.

Lemma safe_isenabler_set irq : 0 <= irq -> safe (gicd_isenabler_n_set g irq).
Proof. intros H0. apply safe_banked. intros Hi. split; [place|done]. Qed.

Lemma safe_isenabler_get irq : 0 <= irq -> safe (gicd_isenabler_n_get g irq).
Proof. intros H0. apply safe_banked. intros Hi v Hv. split; [place|done]. Qed.

Lemma safe_icenabler_set irq : 0 <= irq -> safe (gicd_icenabler_n_set g irq).
Proof. intros H0. apply safe_banked. intros Hi. split; [place|done]. Qed.

Lemma safe_icenabler_get irq : 0 <= irq -> safe (gicd_icenabler_n_get g irq).
Proof. intros H0. apply safe_banked. intros Hi v Hv. split; [place|done]. Qed.

Lemma safe_igroupr_get irq : 0 <= irq -> safe (gicd_igroupr_n_get g irq).
Proof. intros H0. apply safe_banked. intros Hi v Hv. split; [place|done]. Qed.

Lemma safe_igroupr_set irq on : groups = true -> 0 <= irq -> safe (gicd_igroupr_n_set g irq on).
Proof.
  intros Hg H0. apply safe_banked. intros Hi. apply safe_bind; [|done]. apply safe_update_bit; [place|].
  cbn [placed]. rewrite Hg. left. apply at_offset_intro; [offsets..|exact I].
Qed.

Lemma safe_icfgr_get irq : 0 <= irq -> safe (gicd_icfgr_n_get g irq).
Proof. intros H0. apply safe_banked. intros Hi v Hv. split; [place|done]. Qed.

Lemma safe_icfgr_set irq on : 0 <= irq -> safe (gicd_icfgr_n_set g irq on).
Proof. intros H0. apply safe_banked. intros Hi. apply safe_bind; [|done]. apply safe_update_bit; place. Qed.

Lemma safe_priority irq p : 0 <= irq < 1020 -> safe (configure_nonsecure_priority g irq p).
Proof.
  intros Hi. split; [place|]. intros v Hv. split; [place|]. cbn [mbind mmio_bind]. by destruct (v =? p).
Qed.

Lemma safe_read_words n i : (n + i <= 8)%nat -> safe (read_words g n i).
Proof.
  revert i. induction n as [|n IH]; intros i Hi; [done|]. intros v Hv. split; [place|].
  change (safe (read_words g n (S i) ≫= fun ws => Done (v :: ws))).
  apply safe_bind; [apply IH; lia|done].
Qed.

Lemma safe_read32 ad : placed (Rd32 ad 0) -> safe (read32 ad).
Proof. intros H v Hv. by split. Qed.

Lemma safe_read8 ad : placed (Rd8 ad 0) -> safe (read8 ad).
Proof. intros H v Hv. by split. Qed.

Lemma safe_write32 ad v : placed (Wr32 ad 0) -> safe (write32 ad v).
Proof. by intros H. Qed.

Lemma safe_write8 ad v : placed (Wr8 ad 0) -> safe (write8 ad v).
Proof. by intros H. Qed.

(** Peels binds and conditionals down to the accesses. *)
Ltac safe_go :=
  repeat first
    [ exact I
    | apply safe_bind; [|intros ?]
    | apply safe_try; [|intros ?]
    | progress cbv zeta
    | match goal with |- safe (if ?b then _ else _) => destruct b end
    | apply safe_read32; place
    | apply safe_read8; place
    | apply safe_write32; place
    | apply safe_write8; place ].

Lemma safe_initialize_distributor spi t : safe (initialize_distributor g spi t).
Proof.
  apply every_bind. intros v Hv. split; [place|]. cbn [mbind mmio_bind every].
  destruct (negb _) eqn:E; [exact I|]. bool_prop. assert (Hs : 0 <= spi < 1020) by lia.
  apply safe_try; [apply safe_icenabler_set; lia|intros _].
  apply safe_try; [by apply safe_priority|intros _].
  apply safe_bind; [apply safe_write8; place|intros _].
  apply safe_try; [apply safe_icfgr_set; lia|intros _].
  unfold gicd_ctlr_bitflag_set. safe_go.
Qed.

Lemma safe_initialize_cpu_interface worker : safe (initialize_cpu_interface g worker).
Proof.
  assert (Hm : 0 <= MANAGEMENT_SGI < 1020) by done.
  apply safe_try; [apply safe_bind; [apply safe_read_words; lia|done]|intros t].
  apply safe_bind; [apply safe_read32; place|intros typer].
  apply safe_try; [destruct (negb _); [apply safe_isenabler_get; lia|exact I]|intros av].
  destruct (negb av); [exact I|].
  apply safe_bind; [destruct worker; unfold gich_hcr_set; safe_go|intros _].
  apply safe_try; [by apply safe_priority|intros _].
  apply safe_try; [apply safe_isenabler_set; lia|intros _].
  do 2 (apply safe_bind; [apply safe_write32; place|intros _]).
  apply safe_bind; [unfold gicc_ctlr_bitflag_set; safe_go|intros _].
  apply safe_bind; [by split|intros _].
  apply safe_bind; [apply safe_read32; place|intros typer'].
  apply safe_try; [apply safe_igroupr_get; lia|intros g1].
  do 4 (apply safe_bind; [apply safe_read32; place|intros ?]).
  cbv zeta. destruct (interface_not_ready _); [exact I|].
  apply safe_try; [apply safe_isenabler_get; lia|intros en]. by destruct (negb en).
Qed.

Lemma safe_timer : safe (enable_virtual_timer_ppi g).
Proof.
  apply safe_try; [by apply safe_priority|intros _].
  apply safe_try; [by apply safe_isenabler_set|intros _].
  apply safe_try; [by apply safe_isenabler_get|intros en]. by destruct (negb en).
Qed.

Lemma safe_op o : op_ok o -> (sets_group o = true -> groups = true) -> safe (run_gic_op g o).
Proof.
  intros Ho Hg. unfold op_ok, u32 in Ho.
  destruct o; cbn [run_gic_op]; unfold discard; try (apply safe_bind; [|done]).
  - apply safe_bind; [apply safe_read32; place|done].
  - apply safe_isenabler_set. lia.
  - apply safe_icenabler_set. lia.
  - apply safe_isenabler_get. lia.
  - apply safe_icenabler_get. lia.
  - apply safe_igroupr_get. lia.
  - apply safe_igroupr_set; [by apply Hg|lia].
  - apply safe_icfgr_get. lia.
  - apply safe_icfgr_set. lia.
  - apply safe_initialize_distributor.
  - apply safe_bind; [apply safe_read_words; lia|done].
  - apply safe_initialize_cpu_interface.
  - apply safe_timer.
  - split; [exact I|]. split; [place|by split].
  - repeat (split; [place|]); exact I.
  - repeat (intros ? ?; split; [place|]). split; [place|exact I].
  - apply safe_bind; [apply safe_read32; place|done].
  - split; [place|exact I].
  - split; [exact I|]. split; [place|]. split; [place|]. by split.
Qed.
End Containment.

(** ** The target of a CPU interface *)

(** The 32 target fields of the banked words. *)
Definition target_fields (words : list Z) : list Z :=
  concat ((fun w => [field w 0 8; field w 8 8; field w 16 8; field w 24 8]) <$> words).

(** All fields that are implemented name the interface with mask [m]. *)
Definition names_one (words : list Z) (m : Z) : Prop :=
  (exists k, 0 <= k < 8 /\ m = 2 ^ k) /\ m ∈ target_fields words /\
  Forall (fun f => f = 0 \/ f = m) (target_fields words).

Lemma testbit_field w s n i : 0 <= s -> 0 <= i < n -> Z.testbit (field w s n) i = Z.testbit w (i + s).
Proof.
  intros Hs Hi. unfold field. rewrite Z.land_spec, Z.shiftr_spec, Z.ones_spec_low by lia. apply andb_true_r.
Qed.

Lemma fold_lor_bit ws a i : Z.testbit (fold_left Z.lor ws a) i = Z.testbit a i || existsb (fun w => Z.testbit w i) ws.
Proof.
  revert a. induction ws as [|w ws IH]; intros a; simpl; [by rewrite orb_false_r|].
  rewrite IH, Z.lor_spec. by rewrite orb_assoc.
Qed.

Lemma target_fields_cons w ws :
  target_fields (w :: ws) = field w 0 8 :: field w 8 8 :: field w 16 8 :: field w 24 8 :: target_fields ws.
Proof. reflexivity. Qed.

Lemma existsb_fields ws i :
  0 <= i < 8 ->
  existsb (fun f => Z.testbit f i) (target_fields ws) =
  existsb (fun w => Z.testbit w i) ws || existsb (fun w => Z.testbit w (i + 8)) ws ||
  existsb (fun w => Z.testbit w (i + 16)) ws || existsb (fun w => Z.testbit w (i + 24)) ws.
Proof.
  intros Hi. induction ws as [|w ws IH]; [done|]. rewrite target_fields_cons. cbn [existsb].
  rewrite IH, !testbit_field by lia. rewrite Z.add_0_r. btauto.
Qed.

Lemma fold_targets_bit ws i :
  0 <= i < 8 -> Z.testbit (fold_targets ws) i = existsb (fun f => Z.testbit f i) (target_fields ws).
Proof.
  intros Hi. rewrite existsb_fields by done. unfold fold_targets, as_u8.
  rewrite Z.land_spec, Z.ones_spec_low by lia.
  rewrite Z.lor_spec, Z.shiftr_spec, !Z.lor_spec, !Z.shiftr_spec, !fold_lor_bit, !Z.bits_0 by lia.
  replace (i + 8 + 16) with (i + 24) by lia. simpl. btauto.
Qed.

Lemma fold_targets_u8 ws : u8 (fold_targets ws).
Proof. unfold fold_targets, as_u8. rewrite Z.land_ones by done. by apply Z.mod_pos_bound. Qed.

Lemma count_ones_table :
  forallb (fun m => eqb (count_ones m =? 1)%nat (existsb (fun k => m =? 2 ^ k) (seqZ 0 8))) (seqZ 0 256) = true.
Proof. vm_compute. reflexivity. Qed.

Lemma count_ones_one m : u8 m -> (count_ones m =? 1)%nat = true <-> exists k, 0 <= k < 8 /\ m = 2 ^ k.
Proof.
  intros Hm. pose proof count_ones_table as H. rewrite forallb_forall in H.
  specialize (H m ltac:(apply list_elem_of_In, elem_of_seqZ; unfold u8 in Hm; lia)).
  apply eqb_prop in H. rewrite H, existsb_exists. split.
  - intros (k & Hk%list_elem_of_In%elem_of_seqZ & He). bool_prop. exists k. split; [lia|done].
  - intros (k & Hk & ->). exists k. split; [apply list_elem_of_In, elem_of_seqZ; lia|by apply Z.eqb_eq].
Qed.

Lemma trailing_zeros_pow2 k : 0 <= k < 8 -> 2 ^ k = 2 ^ Z.of_nat (trailing_zeros (2 ^ k)).
Proof.
  intros Hk. assert (k = 0 \/ k = 1 \/ k = 2 \/ k = 3 \/ k = 4 \/ k = 5 \/ k = 6 \/ k = 7)
    as [->|[->|[->|[->|[->|[->|[->| ->]]]]]]] by lia; reflexivity.
Qed.

Lemma u8_ext a b : u8 a -> u8 b -> (forall i, 0 <= i < 8 -> Z.testbit a i = Z.testbit b i) -> a = b.
Proof.
  intros Ha Hb H. apply Z.bits_inj'. intros i Hi. destruct (Z.ltb_spec i 8); [by apply H|].
  by rewrite !(testbit_bounded _ 8 i) by done || lia.
Qed.

Lemma target_fields_u8 ws : Forall u8 (target_fields ws).
Proof.
  unfold target_fields. apply Forall_concat, Forall_fmap, Forall_true. intros w. simpl.
  repeat constructor; unfold field; rewrite Z.land_ones by done; by apply Z.mod_pos_bound.
Qed.

(** The folded mask is a single bit exactly when the fields name it. *)
Lemma fold_targets_names ws m : names_one ws m <-> m = fold_targets ws /\ exists k, 0 <= k < 8 /\ m = 2 ^ k.
Proof.
  assert (Hex : forall i, existsb (fun f => Z.testbit f i) (target_fields ws) = true <->
    exists f, f ∈ target_fields ws /\ Z.testbit f i = true).
  { intros i. rewrite existsb_exists. by setoid_rewrite list_elem_of_In. }
  unfold names_one. split.
  - intros ((k & Hk & ->) & Hin & Hall). split; [|by exists k]. rewrite Forall_forall in Hall.
    apply u8_ext; [unfold u8; split; [lia|apply Z.pow_lt_mono_r; lia]|apply fold_targets_u8|].
    intros i Hi. rewrite fold_targets_bit by done. apply eq_true_iff_eq. rewrite Hex. split.
    + intros Hb. by exists (2 ^ k).
    + intros (f & Hf & Hb). destruct (Hall f Hf) as [->| ->]; [by rewrite Z.bits_0 in Hb|done].
  - intros (-> & k & Hk & He). split; [by exists k|].
    assert (Hone : forall f, f ∈ target_fields ws -> if Z.testbit f k then f = fold_targets ws else f = 0).
    { intros f Hf. pose proof (proj1 (Forall_forall _ _) (target_fields_u8 ws) f Hf) as Hu.
      assert (Hi : forall i, 0 <= i < 8 -> Z.testbit f i = true -> i = k).
      { intros i Hi Hb. assert (Z.testbit (fold_targets ws) i = true) as Ht
          by (rewrite fold_targets_bit by done; apply Hex; by exists f).
        rewrite He, Z.pow2_bits_eqb in Ht by lia. by apply Z.eqb_eq in Ht. }
      destruct (Z.testbit f k) eqn:Hb; apply u8_ext; try done; try apply fold_targets_u8; intros i Hr.
      - rewrite He, Z.pow2_bits_eqb by lia. destruct (Z.eqb_spec k i) as [<-|Hne]; [done|].
        destruct (Z.testbit f i) eqn:Hbi; [|done]. by destruct Hne; rewrite (Hi i Hr Hbi).
      - rewrite Z.bits_0. destruct (Z.testbit f i) eqn:Hbi; [|done]. rewrite (Hi i Hr Hbi) in Hbi. congruence. }
    assert (Ht : Z.testbit (fold_targets ws) k = true) by (rewrite He; apply Z.pow2_bits_true; lia).
    rewrite fold_targets_bit in Ht by done. apply Hex in Ht as (f & Hf & Hb). split.
    + specialize (Hone f Hf). rewrite Hb in Hone. by subst f.
    + apply Forall_forall. intros f' Hf'. specialize (Hone f' Hf'). destruct (Z.testbit f' k); auto.
Qed.

Lemma read_words_runs g n i tr r :
  runs (read_words g n i) tr r ->
  length r = n /\ Forall u32 r /\
  tr = imap (fun j w => Rd32 (gicd_itargetsr g + Z.of_nat (i + j) * 4) w) r.
Proof.
  revert i tr r. induction n as [|n IH]; intros i tr r H.
  - inversion H; subst. split_and!; done.
  - apply runs_bind_inv in H as (tr1 & w & tr2 & -> & Hw & H).
    inversion Hw as [|? ? | ? v k t a Hv Hk| | |]; subst. inversion Hk; subst.
    apply runs_bind_inv in H as (tr3 & ws & tr4 & -> & Hws & H). inversion H; subst.
    destruct (IH _ _ _ Hws) as (Hl & Hu & ->). split_and!; [simpl; lia|by constructor|].
    rewrite imap_cons, app_nil_r. simpl. f_equal; [by rewrite Nat.add_0_r|].
    apply imap_ext. intros j x _. simpl. do 3 f_equal. lia.
Qed.

(** ** List registers *)

(** The fields of a list register as the architecture reads them: hardware
    bit, group 0, state, priority, physical and virtual identifier. *)
Definition lr_fields (lr hw state priority physical virtual : Z) : Prop :=
  field lr 31 1 = hw /\ field lr 30 1 = 0 /\ field lr 28 2 = state /\ field lr 23 5 = priority /\
  field lr 10 10 = physical /\ field lr 0 10 = virtual.

Definition PENDING_STATE : Z := 1.

Lemma field_lor_low c v s n : 0 <= v < 2 ^ s -> 0 <= s -> field (Z.lor c v) s n = field c s n.
Proof.
  intros Hv Hs. unfold field. rewrite Z.shiftr_lor, (Z.shiftr_div_pow2 v), Z.div_small, Z.lor_0_r by done. done.
Qed.

Lemma field_lor_high c v n : 0 <= n -> 0 <= v < 2 ^ n -> field c 0 n = 0 -> field (Z.lor c v) 0 n = v.
Proof.
  intros Hn Hv Hc. unfold field in *. rewrite Z.shiftr_0_r in *. rewrite Z.land_lor_distr_l, Hc, Z.lor_0_l.
  rewrite Z.land_ones by done. by apply Z.mod_small.
Qed.

Lemma timer_lr_fields ppi :
  16 <= ppi < 32 ->
  let lr := Z.lor (Z.lor (Z.lor (Z.lor GICH_LR_HW GICH_LR_PENDING) (lr_priority 0x80))
    (Z.shiftl ppi GICH_LR_PHYSICAL_ID_SHIFT)) ppi in
  lr_fields lr 1 PENDING_STATE 16 ppi ppi /\ Z.land lr GICH_LR_STATE_MASK =? 0 = false.
Proof.
  intros H. assert (Hn : exists n, (n < 16)%nat /\ ppi = 16 + Z.of_nat n) by (exists (Z.to_nat (ppi - 16)); lia).
  destruct Hn as (n & Hn & ->). clear H. do 16 (destruct n as [|n]; [vm_compute; by split_and!|]). lia.
Qed.

Lemma uart_lr_fields spi :
  32 <= spi < 1020 ->
  let lr := Z.lor (Z.lor GICH_LR_PENDING (lr_priority 0x80)) spi in
  lr_fields lr 0 PENDING_STATE 16 0 spi /\ Z.land lr GICH_LR_STATE_MASK =? 0 = false.
Proof.
  intros H lr. unfold lr, lr_fields. set (c := Z.lor GICH_LR_PENDING (lr_priority 0x80)). split.
  { rewrite (field_lor_low c spi 31 1), (field_lor_low c spi 30 1), (field_lor_low c spi 28 2),
      (field_lor_low c spi 23 5), (field_lor_low c spi 10 10), (field_lor_high c spi 10) by (lia || done).
    by split_and!. }
  apply Z.eqb_neq. rewrite Z.land_lor_distr_l. intros [Hz _]%Z.lor_eq_0_iff. done.
Qed.

(** ** Theorems *)

(** [gic_access_contained]: for a controller whose regions were accepted, each
    access of each driver operation, whatever the hardware answers, stays
    inside the distributor, CPU or hypervisor interface, and no operation but
    [gicd_igroupr_n_set] writes an interrupt group register. *)
Lemma gic_access_contained gicd gicc gich gicv i o tr r :
  GicV2Info_new gicd gicc gich gicv = Some i -> op_ok o ->
  runs (run_gic_op (mkGic i) o) tr r ->
  Forall (placed (mkGic i) (sets_group o)) tr.
Proof.
  intros Hi Ho Hr. unfold GicV2Info_new in Hi. destruct (_ || _ || _ || _) eqn:E; [done|]. injection Hi as <-. bool_prop.
  set (g := mkGic _) in *.
  apply (every_runs _ (fun _ => True) _ _ _ Hr). apply safe_op; done || lia.
Qed.

(** [local_target_exact]: the driver reads the eight banked target words and
    answers a mask exactly when the implemented fields all name one and the
    same CPU interface; any other mixture of fields is refused. *)
Lemma local_target_exact g tr r :
  runs (local_target g) tr r ->
  exists words,
    length words = 8%nat /\ Forall u32 words /\
    tr = imap (fun j w => Rd32 (gicd_itargetsr g + Z.of_nat j * 4) w) words /\
    match r with
    | Ok t => names_one words (target_mask t) /\ target_mask t = 2 ^ Z.of_nat (CpuTarget_interface t)
    | Err (InvalidTarget _) => forall m, ~ names_one words m
    | _ => False
    end.
Proof.
  intros H. apply runs_bind_inv in H as (tr1 & ws & tr2 & -> & Hw & H). inversion H; subst. clear H.
  destruct (read_words_runs _ _ _ _ _ Hw) as (Hl & Hu & ->). exists ws. rewrite app_nil_r. split_and!; [done..|].
  pose proof (count_ones_one (fold_targets ws) (fold_targets_u8 ws)) as Hc. unfold CpuTarget_new.
  destruct (count_ones (fold_targets ws) =? 1)%nat.
  - destruct (proj1 Hc eq_refl) as (k & Hk & He). split.
    + apply fold_targets_names. split; [done|]. by exists k.
    + unfold CpuTarget_interface. cbn [target_mask]. rewrite He. by apply trailing_zeros_pow2.
  - intros m (-> & Hm)%fold_targets_names. apply Hc in Hm. done.
Qed.

(** [virtual_interrupts_queued]: a virtual timer or UART interrupt is queued
    exactly when its list register is idle and its number is in range. The
    register then reads as one pending Group 0 interrupt of priority 16 with
    that number, backed by the physical interrupt for the timer and by none
    for the UART; the other registers keep their values, and the queued
    interrupt is not overwritten before the guest retires it. *)
Lemma virtual_interrupts_queued s id :
  match queue_timer_ppi id s with
  | (Ok _, s') =>
      timer_in_flight s = false /\ 16 <= id < 32 /\ lr_fields (timer_lr s') 1 PENDING_STATE 16 id id /\
      timer_in_flight s' = true /\ uart_lr s' = uart_lr s /\ vmcr s' = vmcr s
  | (Err _, s') => s' = s /\ (timer_in_flight s = true \/ id < 16 \/ 32 <= id)
  | (Panic, _) => False
  end /\
  match queue_uart_spi id s with
  | (Ok _, s') =>
      uart_in_flight s = false /\ 32 <= id < 1020 /\ lr_fields (uart_lr s') 0 PENDING_STATE 16 0 id /\
      uart_in_flight s' = true /\ timer_lr s' = timer_lr s /\ vmcr s' = vmcr s
  | (Err _, s') => s' = s /\ (uart_in_flight s = true \/ id < 32 \/ 1020 <= id)
  | (Panic, _) => False
  end.
Proof.
  unfold queue_timer_ppi, queue_uart_spi. split.
  - destruct (timer_in_flight s); cbn [orb]; [by auto|]. destruct (_ && _) eqn:E; cbn [negb]; bool_prop.
    + destruct (timer_lr_fields id ltac:(lia)) as [Hf Hs].
      split_and!; try done; try lia. unfold timer_in_flight. cbn [timer_lr]. by rewrite Hs.
    + split; [done|]. destruct E; bool_prop; lia.
  - destruct (uart_in_flight s); cbn [orb]; [by auto|]. destruct (_ && _) eqn:E; cbn [negb]; bool_prop.
    + destruct (uart_lr_fields id ltac:(lia)) as [Hf Hs].
      split_and!; try done; try lia. unfold uart_in_flight. cbn [uart_lr]. by rewrite Hs.
    + split; [done|]. destruct E; bool_prop; lia.
Qed.

(** ** Concrete instances *)

Definition sample_gic : GicV2Info :=
  mkInfo (mkRegion 0xff841000 0x1000) (mkRegion 0xff842000 0x2000) (mkRegion 0xff844000 0x2000)
    (mkRegion 0xff846000 0x2000).

(** A controller of 224 interrupts whose target fields all name interface 2. *)
Definition sample_read (_ : unit) (address : Z) : Z :=
  if address =? 0xff841004 then 6 else if (0xff841800 <=? address) && (address <? 0xff841820) then 0x04040404 else 0.

