(* ===== verification/Discovery.v ===== *)
(** * Device discovery: src/tvisor_util/fdt.rs, system_info.rs

    The host console and the interrupt controller are found in the device tree,
    and their register addresses are translated to the CPU's address space
    through the ranges of every bus above them. *)

From S2P Require Import Prelude DeviceTree SystemInfo Gicv2.

Definition MAX_FDT_PATH : nat := 256.

(** ** The host console: system_info.rs *)

Inductive ConsoleKind := MiniUart.

Definition min_alignment (k : ConsoleKind) : Z := 4.
Definition min_register_size (k : ConsoleKind) : Z := 0x18.
Definition compatible_str (k : ConsoleKind) : str := b"brcm,bcm2835-aux-uart".

Record ConsoleInfo := mkConsole { console_kind : ConsoleKind; console_registers : PhysRegion; console_irq : Z }.

Inductive ConsoleDiscoveryError :=
| MissingChosen
| MissingStdoutPath
| InvalidStdoutPath
| MissingAliases
| MissingAlias
| MissingConsoleNode
| ConsoleDisabled
| UnsupportedConsole
| MissingRegister
| InvalidRegister
| MissingInterrupt
| InvalidInterrupt
| MissingParent
| MissingRanges
| AddressNotMapped
| AddressOverflow.

Module Gic.
Inductive GicV2DiscoveryError :=
| MissingController
| DisabledController
| InvalidRegister
| MissingRegister
| InvalidRegion
| MissingParent
| MissingRanges
| AddressNotMapped
| AddressOverflow
| PathTooLong.
End Gic.

(** ** Bus addresses *)

(** The source has the translation twice, for two error types. *)
Class BusErrors (E : Type) := {
  missing_parent : E;
  missing_ranges : E;
  address_not_mapped : E;
  address_overflow : E
}.

#[global] Instance console_bus_errors : BusErrors ConsoleDiscoveryError :=
  {| missing_parent := MissingParent; missing_ranges := MissingRanges;
     address_not_mapped := AddressNotMapped; address_overflow := AddressOverflow |}.

#[global] Instance gic_bus_errors : BusErrors Gic.GicV2DiscoveryError :=
  {| missing_parent := Gic.MissingParent; missing_ranges := Gic.MissingRanges;
     address_not_mapped := Gic.AddressNotMapped; address_overflow := Gic.AddressOverflow |}.

(** [path.rfind('/')] *)
Fixpoint rfind (c : Z) (s : str) : option nat :=
  match s with
  | [] => None
  | x :: rest => match rfind c rest with
                 | Some i => Some (S i)
                 | None => if x =? c then Some 0%nat else None
                 end
  end.

Definition parent_path (path : str) : option str :=
  if str_eqb path (b"/") || negb (starts_with 47 path) then None
  else match rfind 47 path with
       | None => None
       | Some separator => Some (if (separator =? 0)%nat then b"/" else take separator path)
       end.

Section Translate.
Context {E} `{BusErrors E} (fdt : Fdt).

(** The first window that contains the address. *)
Fixpoint translate_ranges (address : Z) (l : list Range) : outcome E (option Z) :=
  match l with
  | [] => Ok None
  | range :: rest =>
      let? child := or_err (to_int (child_bus_address range)) address_overflow in
      let? parent := or_err (to_int (parent_bus_address range)) address_overflow in
      let? length := or_err (to_int (range_length range)) address_overflow in
      match checked_sub address child with
      | None => translate_ranges address rest
      | Some offset =>
          if length <=? offset then translate_ranges address rest
          else let? translated := ok_or (checked_add parent offset) address_overflow in Ok (Some translated)
      end
  end.

(** Through one bus; an empty list of ranges is the identity. *)
Definition translate_bus (bus_path : str) (address : Z) : outcome E Z :=
  let? bus := ok_or (find_node fdt bus_path) missing_parent in
  let? l := or_err (ranges bus) missing_ranges in
  let? l := ok_or l missing_ranges in
  match l with
  | [] => Ok address
  | _ => let? translated := translate_ranges address l in ok_or translated address_not_mapped
  end.

(** The loop up to the root; the fuel is the length of the path, which every
    turn shortens. *)
Fixpoint translate_loop (fuel : nat) (bus_path : str) (address : Z) : outcome E Z :=
  match fuel with
  | O => Panic
  | S fuel' =>
      if str_eqb bus_path (b"/") then Ok address
      else
        let? address := translate_bus bus_path address in
        let? bus_path := ok_or (parent_path bus_path) missing_parent in
        translate_loop fuel' bus_path address
  end.

Definition translate_address (device_path : str) (address : Z) : outcome E Z :=
  let? bus_path := ok_or (parent_path device_path) missing_parent in
  translate_loop (length device_path) bus_path address.

End Translate.

Definition translate_to_cpu_address : Fdt -> str -> Z -> outcome ConsoleDiscoveryError Z := translate_address.
Definition translate_gic_to_cpu_address : Fdt -> str -> Z -> outcome Gic.GicV2DiscoveryError Z := translate_address.

(** ** The console *)

Definition decode_console_gic_spi (interrupts : list Z) : outcome ConsoleDiscoveryError Z :=
  reject (length interrupts <? 12)%nat with MissingInterrupt in
  let interrupt_cells := take 12 interrupts in
  let interrupt_type := from_be_bytes (take 4 interrupt_cells) in
  let interrupt_number := from_be_bytes (take 4 (drop 4 interrupt_cells)) in
  let interrupt_flags := from_be_bytes (drop 8 interrupt_cells) in
  reject negb (interrupt_type =? 0) || negb (interrupt_flags =? 4) with InvalidInterrupt in
  ok_or (if (interrupt_number + 32 <? 2 ^ 32) && (interrupt_number + 32 <? 1020) then Some (interrupt_number + 32) else None)
    InvalidInterrupt.

Definition resolve_stdout_path (fdt : Fdt) : outcome ConsoleDiscoveryError str :=
  let? chosen := ok_or (chosen fdt) MissingChosen in
  let? path := or_err (stdout_path chosen) InvalidStdoutPath in
  let? path := ok_or path MissingStdoutPath in
  let selector := hd [] (split_on 58 path) in
  reject str_eqb selector [] with InvalidStdoutPath in
  if starts_with 47 selector then Ok selector
  else
    let? aliases := ok_or (find_node fdt (b"/aliases")) MissingAliases in
    let? p := ok_or (property aliases selector) MissingAlias in
    or_err (as_str p) MissingAlias.

Definition discover_console (fdt : Fdt) : outcome ConsoleDiscoveryError ConsoleInfo :=
  let? path := resolve_stdout_path fdt in
  let? node := ok_or (find_node fdt path) MissingConsoleNode in
  let? st := or_err (status node) ConsoleDisabled in
  reject negb (bool_decide (st = Okay)) with ConsoleDisabled in
  reject negb (is_compatible node (compatible_str MiniUart)) with UnsupportedConsole in
  let kind := MiniUart in
  let? registers := or_err (reg node) InvalidRegister in
  let? registers := ok_or registers MissingRegister in
  let? register := ok_or (head registers) MissingRegister in
  let? bus_address := or_err (to_int (reg_address register)) InvalidRegister in
  let? register_size := or_err (to_int (reg_size register)) InvalidRegister in
  reject register_size <? min_register_size kind with InvalidRegister in
  let? physical_address := translate_to_cpu_address fdt path bus_address in
  reject (physical_address =? 0) || negb (physical_address mod min_alignment kind =? 0) with InvalidRegister in
  let? registers := or_err (PhysRegion_new physical_address register_size) InvalidRegister in
  let? interrupt_property := ok_or (property node (b"interrupts")) MissingInterrupt in
  let? irq := decode_console_gic_spi (p_value interrupt_property) in
  Ok (mkConsole kind registers irq).

(** ** The interrupt controller *)

(** One turn of the loop over the four interfaces. *)
Definition decode_region (fdt : Fdt) (path : str) (register : Reg) : outcome Gic.GicV2DiscoveryError PhysRegion :=
  let? address := or_err (to_int (reg_address register)) Gic.InvalidRegister in
  let? size := or_err (to_int (reg_size register)) Gic.InvalidRegister in
  let? address := translate_gic_to_cpu_address fdt path address in
  or_err (PhysRegion_new address size) Gic.InvalidRegion.

Fixpoint decode_regions (fdt : Fdt) (path : str) (n : nat) (registers : list Reg) :
    outcome Gic.GicV2DiscoveryError (list PhysRegion) :=
  match n with
  | O => Ok []
  | S n' =>
      let? register := ok_or (head registers) Gic.MissingRegister in
      let? region := decode_region fdt path register in
      let? rest := decode_regions fdt path n' (tail registers) in
      Ok (region :: rest)
  end.

Definition decode_gic_v2 (fdt : Fdt) (node : FdtNode) (path : str) : outcome Gic.GicV2DiscoveryError GicV2Info :=
  let? registers := or_err (reg node) Gic.InvalidRegister in
  let? registers := ok_or registers Gic.MissingRegister in
  let? regions := decode_regions fdt path 4 registers in
  match regions with
  | [gicd; gicc; gich; gicv] => ok_or (GicV2Info_new gicd gicc gich gicv) Gic.InvalidRegion
  | _ => Err Gic.MissingRegister
  end.

Definition is_gic_v2 (node : FdtNode) : bool :=
  is_compatible node (b"arm,gic-400") || is_compatible node (b"arm,cortex-a15-gic").

(** [buffer[start..start + bytes.len()].copy_from_slice(bytes)] *)
Definition copy_into {E} (buffer : list Z) (start : nat) (data : list Z) : outcome E (list Z) :=
  if (start + length data <=? length buffer)%nat
  then Ok (take start buffer ++ data ++ drop (start + length data) buffer) else Panic.

(** The loop over the children, [visit] being the recursive call; it returns
    what was found and the path buffer, which the calls share. *)
Fixpoint find_in_children (visit : dt_node -> list Z -> nat -> outcome Gic.GicV2DiscoveryError (option GicV2Info * list Z))
    (path_len : nat) (l : list dt_node) (path : list Z) : outcome Gic.GicV2DiscoveryError (option GicV2Info * list Z) :=
  match l with
  | [] => Ok (None, path)
  | child :: rest =>
      let separator := if (path_len =? 1)%nat then 0%nat else 1%nat in
      let child_name := node_name child in
      let next_len := (path_len + separator + length child_name)%nat in
      reject (length path <? next_len)%nat with Gic.PathTooLong in
      let? path := if (separator =? 0)%nat then Ok path else arr_set path path_len 47 in
      let? path := copy_into path (path_len + separator) child_name in
      let? found := visit child path next_len in
      match found with
      | (Some info, path) => Ok (Some info, path)
      | (None, path) => find_in_children visit path_len rest path
      end
  end.

Fixpoint find_gic_v2 (fdt : Fdt) (n : dt_node) (space : AddressSpaceProperties) (path : list Z) (path_len : nat) :
    outcome Gic.GicV2DiscoveryError (option GicV2Info * list Z) :=
  let node := mkFdtNode n space in
  if is_gic_v2 node then
    let? st := or_err (status node) Gic.DisabledController in
    reject negb (bool_decide (st = Okay)) with Gic.DisabledController in
    let name := take path_len path in
    reject negb (valid_utf8 name) with Gic.InvalidRegister in
    let? info := decode_gic_v2 fdt node name in
    Ok (Some info, path)
  else
    let 'mkNode _ _ l := n in
    find_in_children (fun child path next_len => find_gic_v2 fdt child (address_space node) path next_len) path_len l path.

Definition discover_gic_v2 (fdt : Fdt) : outcome Gic.GicV2DiscoveryError GicV2Info :=
  let? found := find_gic_v2 fdt (fdt_root fdt) AddressSpaceProperties_default (47 :: replicate 255 0) 1 in
  ok_or (fst found) Gic.MissingController.

(** ** Specification *)

(** A descent from a node through its children. *)
Inductive trail : FdtNode -> list FdtNode -> Prop :=
| trail_nil n : trail n []
| trail_cons n c l : c ∈ children n -> trail c l -> trail n (c :: l).

(** The path of a descent from the root, by the names on it. *)
Definition flat (names : list str) : str := concat (map (cons 47) names).
Definition path_of (names : list str) : str := match names with [] => b"/" | _ => flat names end.

(** [key], a name in a path, selects the child. *)
Definition answers (key : str) (c : dt_node) : bool :=
  str_eqb (if contains_char 64 key then node_name c else name_without_address (node_name c)) key.

(** Names are usable in paths, and no sibling before a node answers to its
    name. *)
Definition good_name (s : str) : Prop := s <> [] /\ 47 ∉ s.

Inductive named_tree : dt_node -> Prop :=
| named_mkNode name props l :
    Forall (fun c => good_name (node_name c)) l ->
    (forall i j c d, (i < j)%nat -> l !! i = Some c -> l !! j = Some d -> answers (node_name d) c = false) ->
    Forall named_tree l -> named_tree (mkNode name props l).

(** The three numbers of a window. *)
Definition window_is (r : Range) (child parent length : Z) : Prop :=
  to_int (child_bus_address r) = Ok child /\ to_int (parent_bus_address r) = Ok parent /\ to_int (range_length r) = Ok length.

(** A bus forwards the address unchanged when it lists no windows, and
    otherwise through the first window around it. *)
Definition crosses (bus : FdtNode) (a a1 : Z) : Prop :=
  exists l, ranges bus = Ok (Some l) /\
    ((l = [] /\ a1 = a) \/
     exists pre r post child parent length, l = pre ++ r :: post /\ window_is r child parent length /\
       child <= a < child + length /\ a1 = parent + (a - child) /\ a1 < 2 ^ 64 /\
       Forall (fun r' => exists c p n, window_is r' c p n /\ ~ (c <= a < c + n)) pre).

(** An address on the first of the buses as the CPU sees it. *)
Inductive translates : list FdtNode -> Z -> Z -> Prop :=
| tr_cpu a : translates [] a a
| tr_bus bus l a a1 a2 : crosses bus a a1 -> translates l a1 a2 -> translates (bus :: l) a a2.

(** ** Paths *)

Lemma split_on_app sep w t :
  sep ∉ w -> split_on sep (w ++ t) = match split_on sep t with x :: xs => (w ++ x) :: xs | [] => [w] end.
Proof.
  induction w as [|c w IH]; intros Hn; cbn [split_on app].
  { destruct t as [|c t]; [done|]. cbn [split_on]. destruct (c =? sep); [done|]. by destruct (split_on sep t). }
  rewrite not_elem_of_cons in Hn. destruct Hn as [Hne Hn]. rewrite (proj2 (Z.eqb_neq _ _)) by congruence. rewrite IH by done.
  by destruct (split_on sep t).
Qed.

Lemma split_on_flat names : Forall good_name names -> split_on 47 (flat names) = [] :: names.
Proof.
  induction 1 as [|c l [_ Hc] _ IH]; [done|]. unfold flat. cbn [map concat app split_on]. fold (flat l).
  rewrite split_on_app, IH, app_nil_r by done. done.
Qed.

Lemma flat_snoc names c : flat (names ++ [c]) = flat names ++ 47 :: c.
Proof. unfold flat. rewrite map_app, concat_app. cbn. by rewrite app_nil_r. Qed.

Lemma flat_cons_ne c l : flat (c :: l) <> [].
Proof. done. Qed.

Lemma filter_names names : Forall good_name names -> List.filter (fun s => negb (str_eqb s [])) names = names.
Proof.
  induction 1 as [|d l [Hd _] _ IH]; [done|]. cbn [List.filter]. unfold str_eqb at 1.
  rewrite bool_decide_eq_false_2 by done. cbn [negb]. by rewrite IH.
Qed.

Lemma find_node_path fdt names :
  Forall good_name names -> find_node fdt (path_of names) = follow_path (root_node fdt) names.
Proof.
  intros Hg. destruct names as [|c l]; [done|]. cbn [path_of]. unfold find_node. cbn [starts_with flat map concat app].
  change (47 =? 47) with true. cbn [negb]. fold (flat l).
  unfold str_eqb at 1. rewrite bool_decide_eq_false_2.
  2:{ apply Forall_cons_1 in Hg as [[Hc _] _]. destruct c; [done|]. by intros [=]. }
  change (47 :: c ++ flat l) with (flat (c :: l)). rewrite split_on_flat by done.
  change (List.filter ?f ([] :: c :: l)) with (List.filter f (c :: l)). by rewrite filter_names.
Qed.

Lemma rfind_snoc c s t : c ∉ t -> rfind c (s ++ c :: t) = Some (length s).
Proof.
  intros Ht. assert (Hn : rfind c t = None).
  { induction t as [|x t IH]; [done|]. rewrite not_elem_of_cons in Ht. destruct Ht as [? ?]. cbn [rfind]. rewrite IH by done.
    by rewrite (proj2 (Z.eqb_neq _ _)) by congruence. }
  induction s as [|x s IH]; cbn [app rfind length]; [by rewrite Hn, Z.eqb_refl|by rewrite IH].
Qed.

Lemma parent_path_snoc names c :
  Forall good_name names -> good_name c -> parent_path (path_of (names ++ [c])) = Some (path_of names).
Proof.
  intros Hg [Hc Hs]. assert (Hp : path_of (names ++ [c]) = flat names ++ 47 :: c).
  { rewrite <- flat_snoc. by destruct names. }
  rewrite Hp. unfold parent_path, str_eqb. rewrite bool_decide_eq_false_2.
  2:{ destruct names as [|d l]; [destruct c; [done|by intros [=]]|]. apply Forall_cons_1 in Hg as [[Hd _] _].
      destruct d; [done|by intros [=]]. }
  assert (Hst : starts_with 47 (flat names ++ 47 :: c) = true) by (by destruct names). rewrite Hst. cbn [orb negb].
  rewrite rfind_snoc by done. destruct names as [|d l]; [done|]. cbn [path_of].
  destruct (Nat.eqb_spec (length (flat (d :: l))) 0) as [E|_]; [by apply length_zero_iff_nil in E|].
  by rewrite take_app_length.
Qed.

Lemma rfind_lt c s i : rfind c s = Some i -> (i < length s)%nat.
Proof.
  revert i. induction s as [|x s IH]; intros i; cbn [rfind length]; [done|]. destruct (rfind c s) as [k|].
  - intros [= <-]. specialize (IH k eq_refl). lia.
  - destruct (x =? c); [|done]. intros [= <-]. lia.
Qed.

Lemma parent_path_shorter path p : parent_path path = Some p -> (length p < length path)%nat.
Proof.
  unfold parent_path. destruct (_ || _) eqn:E; [done|]. apply orb_false_iff in E as [E1 E2].
  destruct (rfind 47 path) as [i|] eqn:Er; [|done]. pose proof (rfind_lt _ _ _ Er). intros [= <-].
  destruct (Nat.eqb_spec i 0); [|rewrite length_take; lia]. cbn [length bytes].
  destruct path as [|x [|y path]]; [done| |cbn; lia]. exfalso. cbn in E2. apply negb_false_iff, Z.eqb_eq in E2 as ->. done.
Qed.

(** ** Nodes on a trail *)

Lemma named_children n c : named_tree (fn_node n) -> c ∈ children n -> named_tree (fn_node c) /\ good_name (name c).
Proof.
  unfold children, name. intros Hn (d & -> & Hin)%list_elem_of_fmap. cbn [fn_node]. destruct (fn_node n) as [nm ps l].
  cbn [node_children] in Hin. inversion Hn as [? ? ? Hg _ Hl]; subst. rewrite Forall_forall in Hg, Hl. auto.
Qed.

Lemma trail_names n l : named_tree (fn_node n) -> trail n l -> Forall good_name (name <$> l).
Proof.
  intros Hn Ht. induction Ht as [|n c l Hc Ht IH]; [constructor|]. destruct (named_children n c Hn Hc) as [Hc' Hg].
  constructor; [done|]. by apply IH.
Qed.

Lemma answers_itself c : answers (node_name c) c = true.
Proof.
  unfold answers, str_eqb. apply bool_decide_eq_true. destruct (contains_char 64 (node_name c)) eqn:E; [done|].
  unfold name_without_address. rewrite <- (app_nil_r (node_name c)) at 1. rewrite split_on_app; [cbn; apply app_nil_r|].
  intros Hin. unfold contains_char in E. rewrite <- not_true_iff_false, existsb_exists in E. apply E.
  exists 64. split; [by apply list_elem_of_In|done].
Qed.

Lemma child_by_name n c : named_tree (fn_node n) -> c ∈ children n -> child n (name c) = Some c.
Proof.
  unfold child, children, name. intros Hn (d & -> & Hin)%list_elem_of_fmap. cbn [fn_node]. set (sp := address_space n). clearbody sp.
  destruct (fn_node n) as [nm ps l]. cbn [node_children] in *. inversion Hn as [? ? ? _ Hd _]; subst. clear Hn.
  change (List.find _ _) with (List.find (fun c => answers (node_name d) (fn_node c)) (map (fun c => mkFdtNode c sp) l)).
  induction l as [|x l IH]; [by apply elem_of_nil in Hin|]. cbn [map List.find fn_node].
  apply elem_of_cons in Hin as [->|Hin]; [by rewrite answers_itself|].
  apply list_elem_of_lookup in Hin as [j Hj]. rewrite (Hd 0%nat (S j) x d) by (done || lia). apply IH.
  - by eapply list_elem_of_lookup_2.
  - intros i k c e Hlt Hi Hk. apply (Hd (S i) (S k)); [lia|done|done].
Qed.

Lemma follow_trail n l : named_tree (fn_node n) -> trail n l -> follow_path n (name <$> l) = Some (List.last l n).
Proof.
  intros Hn Ht. induction Ht as [|n c l Hc Ht IH]; [done|]. cbn [fmap list_fmap follow_path].
  rewrite child_by_name by done. rewrite IH by (by eapply named_children). f_equal. clear. revert c n.
  induction l as [|d l IH]; intros c n; [done|]. cbn [List.last]. destruct l; [done|apply IH].
Qed.

Lemma trail_app n l k : trail n (l ++ k) -> trail n l.
Proof. revert n. induction l as [|c l IH]; intros n H; [constructor|]. inversion H; subst. constructor; auto. Qed.

(** ** Translation *)

Lemma translate_ranges_exact {E} `{BusErrors E} a l :
  match translate_ranges (E:=E) a l with
  | Ok (Some a1) => exists pre r post child parent length, l = pre ++ r :: post /\ window_is r child parent length /\
      child <= a < child + length /\ a1 = parent + (a - child) /\ a1 < 2 ^ 64 /\
      Forall (fun r' => exists c p n, window_is r' c p n /\ ~ (c <= a < c + n)) pre
  | Ok None => Forall (fun r' => exists c p n, window_is r' c p n /\ ~ (c <= a < c + n)) l
  | Err e => True
  | Panic => False
  end.
Proof.
  induction l as [|r l IH]; cbn [translate_ranges]; [constructor|].
  destruct (to_int (child_bus_address r)) as [child| |] eqn:Hc; sequence; [|done|by destruct (to_int_total _ Hc)].
  destruct (to_int (parent_bus_address r)) as [parent| |] eqn:Hp; sequence; [|done|by destruct (to_int_total _ Hp)].
  destruct (to_int (range_length r)) as [len| |] eqn:Hl; sequence; [|done|by destruct (to_int_total _ Hl)].
  assert (Hskip : ~ (child <= a < child + len) -> match translate_ranges (E:=E) a l with
    | Ok (Some a1) => exists pre r0 post child parent length, r :: l = pre ++ r0 :: post /\ window_is r0 child parent length /\
        child <= a < child + length /\ a1 = parent + (a - child) /\ a1 < 2 ^ 64 /\
        Forall (fun r' => exists c p n, window_is r' c p n /\ ~ (c <= a < c + n)) pre
    | Ok None => Forall (fun r' => exists c p n, window_is r' c p n /\ ~ (c <= a < c + n)) (r :: l)
    | Err e => True
    | Panic => False
    end).
  { intros Hout. destruct (translate_ranges a l) as [[a1|]| |]; [| |done|done].
    - destruct IH as (pre & r0 & post & c & p & n & -> & Hw & [? ?] & ? & ? & Hpre).
      exists (r :: pre), r0, post, c, p, n. split_and!; [done..|]. constructor; [|done]. by exists child, parent, len.
    - constructor; [|done]. by exists child, parent, len. }
  destruct (checked_sub a child) as [off|] eqn:Es.
  - apply checked_sub_Some in Es as [-> Hle]. destruct (Z.leb_spec len (a - child)); [apply Hskip; lia|].
    destruct (checked_add parent (a - child)) as [t|] eqn:Ea; sequence; [|done]. apply checked_add_Some in Ea as [-> Hlt].
    exists [], r, l, child, parent, len. split_and!; [done|done|lia|lia|done|done|constructor].
  - apply Hskip. unfold checked_sub in Es. destruct (_ <=? _) eqn:E1; [done|]. apply Z.leb_gt in E1. lia.
Qed.

Lemma translate_ranges_window {E} `{BusErrors E} a pre r post child parent length :
  Forall (fun r' => exists c p n, window_is r' c p n /\ ~ (c <= a < c + n)) pre ->
  window_is r child parent length -> child <= a < child + length -> parent + (a - child) < 2 ^ 64 ->
  translate_ranges (E:=E) a (pre ++ r :: post) = Ok (Some (parent + (a - child))).
Proof.
  intros Hpre (Hc & Hp & Hl) Hin Hlt. induction Hpre as [|x pre (c & p & n & (H1 & H2 & H3) & Hout) _ IH];
    cbn [app translate_ranges].
  - rewrite Hc, Hp, Hl. sequence. rewrite (proj2 (checked_sub_Some a child _) (conj eq_refl (proj1 Hin))).
    rewrite (proj2 (Z.leb_gt _ _)) by lia. by rewrite checked_add_ok.
  - rewrite H1, H2, H3. sequence. destruct (checked_sub a c) as [off|] eqn:Es; [|done].
    apply checked_sub_Some in Es as [-> ?]. by rewrite (proj2 (Z.leb_le _ _)) by lia.
Qed.

Lemma translate_bus_exact {E} `{BusErrors E} fdt path bus a a1 :
  find_node fdt path = Some bus -> translate_bus (E:=E) fdt path a = Ok a1 <-> crosses bus a a1.
Proof.
  intros Hf. unfold translate_bus, crosses. rewrite Hf. sequence.
  destruct (ranges bus) as [[l|]| |]; sequence; [|by split; [|intros (? & ? & _)]..].
  pose proof (translate_ranges_exact (E:=E) a l) as Hr. split.
  - destruct l as [|x l]; [intros [= <-]; eexists; split; [done|by left]|].
    destruct (translate_ranges a (x :: l)) as [[a2|]| |]; sequence; [|done..]. intros [= ->]. eexists. split; [done|by right].
  - intros (l' & [= <-] & [[-> ->]|(pre & r & post & c & p & n & -> & Hw & Hin & -> & Hlt & Hpre)]); [done|].
    rewrite (translate_ranges_window a pre r post c p n) by done. by destruct (pre ++ r :: post) eqn:Ep; [destruct pre|].
Qed.

Lemma translate_bus_total {E} `{BusErrors E} fdt path a : translate_bus (E:=E) fdt path a <> Panic.
Proof.
  unfold translate_bus. destruct (find_node fdt path) as [bus|]; sequence; [|done].
  destruct (ranges bus) as [[l|]| |] eqn:Er; sequence; [|done..|by destruct (ranges_total bus)].
  pose proof (translate_ranges_exact (E:=E) a l) as Hr. destruct l as [|x l]; [done|].
  by destruct (translate_ranges a (x :: l)) as [[a2|]| |].
Qed.

(** The loop ends at the root whatever the path: every turn shortens it. *)
Lemma translate_loop_total {E} `{BusErrors E} fdt fuel path a :
  (length path < fuel)%nat -> translate_loop (E:=E) fdt fuel path a <> Panic.
Proof.
  revert path a. induction fuel as [|fuel IH]; intros path a Hl; [lia|]. cbn [translate_loop].
  destruct (str_eqb path _); [done|]. pose proof (translate_bus_total (E:=E) fdt path a).
  destruct (translate_bus fdt path a) as [a1| |]; sequence; [|done..].
  destruct (parent_path path) as [p|] eqn:Ep; sequence; [|done]. apply parent_path_shorter in Ep. apply IH. lia.
Qed.

Lemma translate_address_total {E} `{BusErrors E} fdt path a : translate_address (E:=E) fdt path a <> Panic.
Proof.
  unfold translate_address. destruct (parent_path path) as [p|] eqn:Ep; sequence; [|done].
  by apply translate_loop_total, parent_path_shorter.
Qed.

(** The errors a translation can report. *)
Lemma translate_address_errors {E} `{BusErrors E} fdt path a e :
  translate_address (E:=E) fdt path a = Err e -> e ∈ [missing_parent; missing_ranges; address_not_mapped; address_overflow].
Proof.
  unfold translate_address. destruct (parent_path path) as [p|]; sequence; [|intros [= <-]; by left].
  generalize (length path) as fuel. intros fuel. revert p a. induction fuel as [|fuel IH]; intros p a; [done|]. cbn [translate_loop].
  destruct (str_eqb p _); [done|]. assert (Hb : forall e, translate_bus (E:=E) fdt p a = Err e ->
    e ∈ [missing_parent; missing_ranges; address_not_mapped; address_overflow]).
  { clear. intros e. unfold translate_bus. destruct (find_node fdt p) as [bus|]; sequence; [|intros [= <-]; by left].
    destruct (ranges bus) as [[l|]| |]; sequence; [|intros [= <-]; right; by left..|done].
    assert (Hr : forall e, translate_ranges (E:=E) a l = Err e -> e = address_overflow).
    { clear. intros e. induction l as [|r l IH]; cbn [translate_ranges]; [done|].
      repeat (destruct (to_int _); sequence; [|by intros [= <-]|done]). destruct (checked_sub _ _); [|done].
      destruct (_ <=? _); [done|]. destruct (checked_add _ _); sequence; [done|by intros [= <-]]. }
    destruct l as [|x l]; [done|]. destruct (translate_ranges a (x :: l)) as [[a2|]| |]; sequence; [done|..|done].
    - intros [= <-]. do 2 right. by left.
    - intros [= <-]. rewrite (Hr _ eq_refl). do 3 right. by left. }
  destruct (translate_bus fdt p a) as [a1|e'|]; sequence; [|intros [= <-]; by apply Hb|done].
  destruct (parent_path p); sequence; [apply IH|intros [= <-]; by left].
Qed.

Section Trail.
Context (fdt : Fdt) (Hnamed : named_tree (fdt_root fdt)).

Lemma translate_loop_trail {E} `{BusErrors E} buses fuel a a1 :
  trail (root_node fdt) buses -> (length buses < fuel)%nat ->
  translate_loop (E:=E) fdt fuel (path_of (name <$> buses)) a = Ok a1 <-> translates (rev buses) a a1.
Proof using Hnamed.
  revert fuel a. induction buses as [|bus buses IH] using rev_ind; intros fuel a Ht Hf.
  { destruct fuel; [cbn in Hf; lia|]. cbn. split; [intros [= <-]; constructor|by inversion 1]. }
  rewrite length_app in Hf. cbn in Hf. destruct fuel as [|fuel]; [lia|]. cbn [translate_loop].
  pose proof (trail_names (root_node fdt) _ Hnamed Ht) as Hg. pose proof Hg as Hg'. rewrite fmap_app in Hg'.
  apply Forall_app in Hg' as [Hg1 Hg2]. apply Forall_cons_1 in Hg2 as [Hg2 _].
  assert (Hne : str_eqb (path_of (name <$> buses ++ [bus])) (b"/") = false).
  { unfold str_eqb. apply bool_decide_eq_false. intros E1. pose proof (parent_path_snoc _ _ Hg1 Hg2) as Hp.
    rewrite fmap_app in E1. change (name <$> [bus]) with [name bus] in E1. rewrite E1 in Hp. done. }
  rewrite Hne, rev_unit.
  assert (Hfind : find_node fdt (path_of (name <$> buses ++ [bus])) = Some bus).
  { rewrite find_node_path, (follow_trail (root_node fdt)) by done. f_equal. by rewrite List.last_last. }
  pose proof (fun a1 => translate_bus_exact (E:=E) fdt _ bus a a1 Hfind) as Hb.
  rewrite fmap_app. change (name <$> [bus]) with [name bus]. rewrite parent_path_snoc by done.
  rewrite fmap_app in Hb. change (name <$> [bus]) with [name bus] in Hb. sequence. split.
  - destruct (translate_bus fdt _ a) as [a2| |] eqn:E1; sequence; [|done..]. intros Hl. econstructor; [by apply Hb|].
    apply IH in Hl; [done|by eapply trail_app|lia].
  - inversion 1 as [|? ? ? a2 ? Hc Htr]; subst. apply Hb in Hc as ->. sequence. apply IH; [by eapply trail_app|lia|done].
Qed.

Lemma flat_length names : Forall good_name names -> (2 * length names <= length (flat names))%nat.
Proof.
  induction 1 as [|c l [Hc _] _ IH]; [done|]. unfold flat in *. cbn [map concat]. rewrite length_app. cbn [length].
  destruct c; [done|]. cbn [length]. lia.
Qed.

(** The translation of a register address is the one through the buses above
    the device. *)
Lemma translate_trail {E} `{BusErrors E} buses n a a1 :
  trail (root_node fdt) (buses ++ [n]) ->
  translate_address (E:=E) fdt (path_of (name <$> buses ++ [n])) a = Ok a1 <-> translates (rev buses) a a1.
Proof using Hnamed.
  intros Ht. pose proof (trail_names (root_node fdt) _ Hnamed Ht) as Hg. pose proof (flat_length _ Hg) as Hlen.
  rewrite length_fmap, length_app in Hlen. cbn in Hlen. unfold translate_address.
  assert (Hp : path_of (name <$> buses ++ [n]) = flat (name <$> buses ++ [n])) by (by destruct buses).
  rewrite fmap_app in *. change (name <$> [n]) with [name n] in *. apply Forall_app in Hg as [Hg1 Hg2].
  apply Forall_cons_1 in Hg2 as [Hg2 _]. rewrite parent_path_snoc by done. sequence.
  apply translate_loop_trail; [by eapply trail_app|]. rewrite Hp. lia.
Qed.

End Trail.

(** ** The search for the controller *)

(** The buffer after the separator and the child's name have been written. *)
Lemma extend_path names path child :
  length path = MAX_FDT_PATH -> take (length (path_of names)) path = path_of names -> Forall good_name names ->
  let path_len := length (path_of names) in
  let separator := if (path_len =? 1)%nat then 0%nat else 1%nat in
  let next_len := (path_len + separator + length child)%nat in
  (next_len <= MAX_FDT_PATH)%nat ->
  exists path1 path2, (if (separator =? 0)%nat then Ok path else arr_set path path_len 47) = Ok (E:=Gic.GicV2DiscoveryError) path1 /\
    copy_into (E:=Gic.GicV2DiscoveryError) path1 (path_len + separator) child = Ok path2 /\ length path2 = MAX_FDT_PATH /\
    next_len = length (path_of (names ++ [child])) /\ take next_len path2 = path_of (names ++ [child]) /\
    take path_len path2 = path_of names.
Proof.
  intros Hlen Htake Hg. cbv zeta. set (k := length (path_of names)) in *.
  assert (Hp : path_of (names ++ [child]) = flat names ++ 47 :: child) by (rewrite <- flat_snoc; by destruct names).
  assert (Hk : match names with [] => k = 1%nat /\ flat names = [] | _ => (k =? 1)%nat = false /\ path_of names = flat names end).
  { destruct names as [|d l]; [done|]. split; [|done]. apply Nat.eqb_neq. unfold k. cbn [path_of].
    pose proof (flat_length _ Hg). cbn [length] in *. lia. }
  destruct names as [|d l].
  - destruct Hk as [Hk Hf]. rewrite Hk in *. cbn [Nat.eqb]. intros Hn. rewrite Hf in Hp.
    exists path. eexists. split; [done|]. unfold copy_into. rewrite Hlen, (proj2 (Nat.leb_le _ _)) by lia. split; [done|].
    rewrite Nat.add_0_r in *. rewrite !length_app, length_take, length_drop, Hlen, Htake, Hp.
    split_and!; [lia|cbn; lia| |done]. cbn [path_of bytes app]. change (1 + length child)%nat with (S (length child)). cbn [app take].
    by rewrite take_app_length.
  - destruct Hk as [Hk Hf]. rewrite Hk. cbn [Nat.eqb]. intros Hn. set (names := d :: l) in *.
    assert (Hk' : k = length (flat names)) by (unfold k; by rewrite Hf). clearbody k names.
    rewrite (arr_set_ok path k 47) by lia. eexists _, _. split; [done|].
    unfold copy_into. rewrite length_insert, Hlen, (proj2 (Nat.leb_le _ _)) by lia. split; [done|].
    assert (Ht : take (k + 1) (<[k := 47]> path) = flat names ++ [47]).
    { rewrite Nat.add_1_r, (take_S_r _ _ 47) by (by apply list_lookup_insert_eq; lia). by rewrite take_insert_ge, Htake, Hf. }
    rewrite Ht, Hp, !length_app, length_drop, length_insert, Hlen. cbn [length].
    replace (k + 1 + length child)%nat with (length ((flat names ++ [47]) ++ child)) by (rewrite !length_app; cbn; lia).
    rewrite (app_assoc (flat names ++ [47])), take_app_length, <- app_assoc. split_and!.
    + rewrite !length_app. cbn [length]. lia.
    + rewrite !length_app. cbn [length]. lia.
    + done.
    + rewrite <- !app_assoc, Hk', take_app_length. done.
Qed.

Lemma path_of_prefix names c :
  (length (path_of names) <= length (path_of (names ++ [c])))%nat /\
  take (length (path_of names)) (path_of (names ++ [c])) = path_of names.
Proof.
  assert (Hp : path_of (names ++ [c]) = flat names ++ 47 :: c) by (rewrite <- flat_snoc; by destruct names).
  rewrite Hp. destruct names as [|d l]; [split; [cbn; lia|done]|]. cbn [path_of]. rewrite take_app_length, length_app. split; [lia|done].
Qed.

Lemma firstn_firstn_le {A} (l : list A) i j : (i <= j)%nat -> take i (take j l) = take i l.
Proof. intros H. rewrite take_take. by rewrite Nat.min_l. Qed.

Lemma child_in n c : c ∈ node_children (fn_node n) -> mkFdtNode c (address_space n) ∈ children n.
Proof. apply (list_elem_of_fmap_2 (fun c => mkFdtNode c (address_space n))). Qed.

Section Search.
Context (fdt : Fdt).

(** The outcome of a search below [n], whose names lead to it. *)
Definition search_result (n : FdtNode) (names : list str)
    (r : outcome Gic.GicV2DiscoveryError (option GicV2Info * list Z)) : Prop :=
  match r with
  | Ok (Some info, _) => exists l, trail n l /\ let g := List.last l n in
      is_gic_v2 g = true /\ status g = Ok Okay /\ decode_gic_v2 fdt g (path_of (names ++ (name <$> l))) = Ok info
  | Ok (None, path) => (length path = MAX_FDT_PATH /\ take (length (path_of names)) path = path_of names) /\
      forall l, trail n l -> is_gic_v2 (List.last l n) = false
  | Err e => e <> Gic.MissingController
  | Panic => False
  end.

Lemma last_cons {A} (c : A) l d : List.last (c :: l) d = List.last l c.
Proof. revert c d. induction l as [|x l IH]; intros c d; [done|]. change (List.last (c :: x :: l) d) with (List.last (x :: l) d). by rewrite !IH. Qed.

Lemma find_in_children_spec n names l visit path :
  (forall c, c ∈ l -> mkFdtNode c (address_space n) ∈ children n /\ good_name (node_name c)) ->
  (forall c path, c ∈ l -> length path = MAX_FDT_PATH -> take (length (path_of (names ++ [node_name c]))) path = path_of (names ++ [node_name c]) ->
     search_result (mkFdtNode c (address_space n)) (names ++ [node_name c])
       (visit c path (length (path_of (names ++ [node_name c]))))) ->
  Forall good_name names -> length path = MAX_FDT_PATH -> take (length (path_of names)) path = path_of names ->
  match find_in_children visit (length (path_of names)) l path with
  | Ok (None, path') => (length path' = MAX_FDT_PATH /\ take (length (path_of names)) path' = path_of names) /\
      forall c k, c ∈ l -> trail (mkFdtNode c (address_space n)) k -> is_gic_v2 (List.last k (mkFdtNode c (address_space n))) = false
  | r => search_result n names r
  end.
Proof.
  intros Hin Hv Hg. revert path. induction l as [|c l IH]; intros path Hlen Htake; cbn [find_in_children].
  { split; [done|]. by intros c k ?%elem_of_nil. }
  destruct (Nat.ltb_spec (length path) (length (path_of names) + (if (length (path_of names) =? 1)%nat then 0 else 1) + length (node_name c)));
    [done|]. rewrite Hlen in *.
  destruct (extend_path names path (node_name c) Hlen Htake Hg) as (path1 & path2 & -> & E2 & Hl2 & Hnext & Ht2 & Hback); [done|].
  sequence. rewrite E2. sequence. rewrite Hnext in *.
  pose proof (Hv c path2 ltac:(by left) Hl2 Ht2) as Hr. destruct (Hin c ltac:(by left)) as [Hc _].
  destruct (visit c path2 _) as [[[info|] path3]| |]; sequence; [| |done|done].
  - destruct Hr as (k & Hk & Hr). exists (mkFdtNode c (address_space n) :: k). split; [by constructor|]. rewrite last_cons.
    cbn [fmap list_fmap]. rewrite cons_middle, app_assoc. exact Hr.
  - destruct Hr as [[Hl3 Ht3] Hno].
    destruct (path_of_prefix names (node_name c)) as [Hle Hpre].
    specialize (IH ltac:(intros; apply Hin; by right) ltac:(intros; apply Hv; [by right|done|done]) path3 Hl3).
    rewrite <- (firstn_firstn_le path3 _ _ Hle), Ht3 in IH. specialize (IH Hpre).
    destruct (find_in_children visit (length (path_of names)) l path3) as [[[info|] path4]| |]; [done| |done|done].
    destruct IH as [Hbuf IH]. split; [done|]. intros d k [->|Hd]%elem_of_cons Hk; [by apply Hno|by apply IH].
Qed.

(** A decoding that did not succeed still names a controller. *)
Definition refuses {A} (r : outcome Gic.GicV2DiscoveryError A) : Prop :=
  match r with Ok _ => True | Err e => e <> Gic.MissingController | Panic => False end.

Lemma decode_region_refuses path r : refuses (decode_region fdt path r).
Proof.
  unfold decode_region. pose proof (to_int_total (reg_address r)). destruct (to_int (reg_address r)) as [a| |]; sequence; [|done..].
  pose proof (to_int_total (reg_size r)). destruct (to_int (reg_size r)) as [s| |]; sequence; [|done..].
  pose proof (translate_address_total (E:=Gic.GicV2DiscoveryError) fdt path a) as Ht.
  pose proof (translate_address_errors (E:=Gic.GicV2DiscoveryError) fdt path a) as He.
  unfold translate_gic_to_cpu_address. destruct (translate_address fdt path a) as [a'|e|]; sequence; [|..|done].
  - unfold PhysRegion_new. destruct (s =? 0); sequence; [done|]. by destruct (PhysAddr_checked_add a' s).
  - specialize (He e eq_refl). rewrite !elem_of_cons, elem_of_nil in He. cbn in *. intros ->. naive_solver.
Qed.

Lemma decode_regions_refuses path n regs : refuses (decode_regions fdt path n regs).
Proof.
  revert regs. induction n as [|n IH]; intros regs; cbn [decode_regions]; [done|].
  destruct (head regs) as [r|]; sequence; [|done]. pose proof (decode_region_refuses path r).
  destruct (decode_region fdt path r); sequence; [|done..]. specialize (IH (tail regs)). by destruct (decode_regions fdt path n (tail regs)).
Qed.

Lemma decode_gic_v2_refuses node path : refuses (decode_gic_v2 fdt node path).
Proof.
  unfold decode_gic_v2. pose proof (reg_total node). destruct (reg node) as [[regs|]| |]; sequence; [|done..].
  pose proof (decode_regions_refuses path 4 regs). destruct (decode_regions fdt path 4 regs) as [l| |]; sequence; [|done..].
  repeat case_match; try done. by destruct (GicV2Info_new _ _ _ _).
Qed.

Lemma find_gic_v2_spec n :
  named_tree n -> forall space path names, Forall good_name names -> length path = MAX_FDT_PATH ->
  take (length (path_of names)) path = path_of names ->
  search_result (mkFdtNode n space) names (find_gic_v2 fdt n space path (length (path_of names))).
Proof.
  induction n as [nm ps l IH] using dt_node_nested_ind. intros Hn space path names Hg Hlen Htake.
  set (node := mkFdtNode (mkNode nm ps l) space). cbn [find_gic_v2]. fold node. destruct (is_gic_v2 node) eqn:Egic.
  - pose proof (status_total node). destruct (status node) as [st| |] eqn:Est; sequence; [|done..].
    case_bool_decide as Hst; sequence; [subst st|done]. rewrite Htake. destruct (valid_utf8 _); sequence; [|done].
    pose proof (decode_gic_v2_refuses node (path_of names)). destruct (decode_gic_v2 fdt node _) as [info| |] eqn:Ed; sequence; [|done..].
    exists []. split; [constructor|]. cbn [List.last fmap list_fmap]. by rewrite app_nil_r.
  - inversion Hn as [? ? ? Hgc _ Hl]; subst.
    pose proof (find_in_children_spec node names l (fun c path next => find_gic_v2 fdt c (address_space node) path next) path) as Hf.
    rewrite Forall_forall in IH, Hl, Hgc.
    specialize (Hf ltac:(intros c Hc; split; [by apply child_in|by apply Hgc])).
    specialize (Hf ltac:(intros c p Hc Hp Ht; apply IH; [done|by apply Hl|apply Forall_app; split; [done|];
      constructor; [by apply Hgc|constructor]|done|done]) Hg Hlen Htake).
    destruct (find_in_children _ _ l path) as [[[info|] path']| |]; [done| |done|done].
    destruct Hf as [Hbuf Hno]. split; [done|]. intros k Hk. inversion Hk as [|? c k' Hc Hk']; subst; [done|].
    rewrite last_cons. apply list_elem_of_fmap in Hc as (d & -> & Hd). by apply Hno.
Qed.
End Search.

(** ** Theorems *)

(** A register block as the CPU sees it. *)
Definition register_at (buses : list FdtNode) (r : Reg) (region : PhysRegion) : Prop :=
  exists a, to_int (reg_address r) = Ok a /\ to_int (reg_size r) = Ok (rsize region) /\
    translates (rev buses) a (rstart region) /\ region_ok region.

Lemma crosses_u64 bus a a1 : from_bytes bus -> u64 a -> crosses bus a a1 -> u64 a1.
Proof.
  intros Hb Ha (l & Hl & [[-> ->]|(pre & r & post & c & p & n & -> & (_ & Hp & _) & Hin & -> & Hlt & _)]); [done|].
  destruct (ranges_u64 _ _ r Hb Hl) as (_ & Hu & _); [by apply elem_of_app; right; left|]. specialize (Hu _ Hp). unfold u64 in *. lia.
Qed.

Lemma trail_bytes n l : from_bytes n -> trail n l -> Forall from_bytes l.
Proof.
  intros Hn Ht. induction Ht as [|n c l Hc Ht IH]; [constructor|]. pose proof (children_bytes n Hn) as Hall.
  rewrite Forall_forall in Hall. constructor; auto.
Qed.

Lemma translates_u64 buses a a1 : Forall from_bytes buses -> u64 a -> translates buses a a1 -> u64 a1.
Proof.
  intros Hb Ha Ht. induction Ht as [|bus l a a1 a2 Hc Ht IH]; [done|]. apply Forall_cons_1 in Hb as [Hb Hl].
  apply IH; [done|]. by eapply crosses_u64.
Qed.

Lemma decode_gic_v2_inv fdt node path info :
  decode_gic_v2 fdt node path = Ok info ->
  exists d c h v rest, reg node = Ok (Some (d :: c :: h :: v :: rest)) /\
    decode_region fdt path d = Ok (distributor info) /\ decode_region fdt path c = Ok (cpu_interface info) /\
    decode_region fdt path h = Ok (hypervisor_interface info) /\ decode_region fdt path v = Ok (virtual_cpu_interface info) /\
    REQUIRED_GICD_SIZE <= rsize (distributor info) /\ REQUIRED_GICC_SIZE <= rsize (cpu_interface info) /\
    REQUIRED_GICH_SIZE <= rsize (hypervisor_interface info) /\ REQUIRED_GICV_SIZE <= rsize (virtual_cpu_interface info).
Proof.
  unfold decode_gic_v2. destruct (reg node) as [[regs|]| |]; sequence; [|done..]. cbn [decode_regions].
  destruct regs as [|d regs]; [done|]. cbn [head tail ok_or obind]. destruct (decode_region fdt path d) as [r1| |] eqn:E1; sequence; [|done..].
  destruct regs as [|c regs]; [done|]. cbn [head tail ok_or obind]. destruct (decode_region fdt path c) as [r2| |] eqn:E2; sequence; [|done..].
  destruct regs as [|h regs]; [done|]. cbn [head tail ok_or obind]. destruct (decode_region fdt path h) as [r3| |] eqn:E3; sequence; [|done..].
  destruct regs as [|v regs]; [done|]. cbn [head tail ok_or obind]. destruct (decode_region fdt path v) as [r4| |] eqn:E4; sequence; [|done..].
  unfold GicV2Info_new. destruct (_ || _) eqn:Es; cbn [ok_or]; [done|]. intros [= <-].
  rewrite !orb_false_iff, !Z.ltb_ge in Es. destruct Es as [[[? ?] ?] ?]. exists d, c, h, v, regs. split_and!; done.
Qed.

(** The first interrupt specifier of the list. *)
Definition level_high_spi (value : list Z) (irq : Z) : Prop :=
  exists more, value = to_be_bytes 4 0 ++ to_be_bytes 4 (irq - 32) ++ to_be_bytes 4 4 ++ more /\ 32 <= irq < 1020.

Lemma take_be k value : Forall u8 value -> (k <= length value)%nat ->
  value = to_be_bytes k (from_be_bytes (take k value)) ++ drop k value.
Proof.
  intros Hv Hk. rewrite <- (take_drop k value) at 1. f_equal.
  rewrite <- (to_be_from_be (take k value)) at 1 by (by apply Forall_take). by rewrite length_take, Nat.min_l.
Qed.

Lemma take_be_app k n rest : take k (to_be_bytes k n ++ rest) = to_be_bytes k n.
Proof. rewrite <- (length_to_be_bytes k n) at 1. apply take_app_length. Qed.

Lemma drop_be_app k n rest : drop k (to_be_bytes k n ++ rest) = rest.
Proof. rewrite <- (length_to_be_bytes k n) at 1. apply drop_app_length. Qed.

Lemma decode_console_gic_spi_exact value irq :
  Forall u8 value ->
  decode_console_gic_spi value <> Panic /\ (decode_console_gic_spi value = Ok irq <-> level_high_spi value irq).
Proof.
  intros Hv. unfold decode_console_gic_spi, level_high_spi. destruct (Nat.ltb_spec (length value) 12) as [Hl|Hl].
  { split; [done|]. split; [done|]. intros (more & -> & _). rewrite !length_app, !length_to_be_bytes in Hl. lia. }
  assert (E : value = to_be_bytes 4 (from_be_bytes (take 4 value)) ++
    to_be_bytes 4 (from_be_bytes (take 4 (drop 4 value))) ++ to_be_bytes 4 (from_be_bytes (take 4 (drop 8 value))) ++ drop 12 value).
  { rewrite (take_be 4 value) at 1 by (done || lia). f_equal. rewrite (take_be 4 (drop 4 value)) at 1 by (rewrite ?length_drop; auto using Forall_drop; lia).
    f_equal. rewrite drop_drop. change (4 + 4)%nat with 8%nat. rewrite (take_be 4 (drop 8 value)) at 1 by (rewrite ?length_drop; auto using Forall_drop; lia).
    by rewrite drop_drop. }
  rewrite firstn_firstn_le, skipn_firstn_comm, skipn_firstn_comm, firstn_firstn_le by lia. change (12 - 8)%nat with 4%nat.
  set (t := from_be_bytes (take 4 value)) in *. set (n := from_be_bytes (take 4 (drop 4 value))) in *.
  set (f := from_be_bytes (take 4 (drop 8 value))) in *.
  assert (Hn : 0 <= n) by (apply from_be_bytes_bound, Forall_take, Forall_drop, Hv). split.
  { destruct (_ || _); [done|]. by destruct (_ && _). }
  split.
  - destruct (Z.eqb_spec t 0) as [Et|]; cbn [negb orb]; [|done]. destruct (Z.eqb_spec f 4) as [Ef|]; cbn [negb]; [|done].
    destruct (_ && _) eqn:Eb; cbn [ok_or]; [|done]. intros [= <-]. bool_prop. rewrite Et, Ef in E.
    exists (drop 12 value). replace (n + 32 - 32) with n by lia. split; [exact E|lia].
  - intros (more & Ev & Hirq).
    assert (Et : t = 0) by (unfold t; rewrite Ev, take_be_app; reflexivity).
    assert (En : n = irq - 32).
    { unfold n. rewrite Ev, drop_be_app, take_be_app, from_be_to_be. apply Z.mod_small. change (256 ^ Z.of_nat 4) with (2 ^ 32). lia. }
    assert (Ef : f = 4).
    { unfold f. change 8%nat with (4 + 4)%nat. rewrite <- drop_drop, Ev, drop_be_app, drop_be_app, take_be_app. reflexivity. }
    rewrite Et, Ef, En. cbn [Z.eqb negb orb Pos.eqb]. rewrite !(proj2 (Z.ltb_lt _ _)) by lia. cbn [andb ok_or]. f_equal. lia.
Qed.

Lemma resolve_stdout_path_total fdt : resolve_stdout_path fdt <> Panic.
Proof.
  unfold resolve_stdout_path. destruct (chosen fdt) as [c|]; sequence; [|done]. unfold stdout_path, transpose.
  destruct (property c _) as [p|]; sequence; [|done]. pose proof (as_str_total p). destruct (as_str p); sequence; [|done..].
  destruct (str_eqb _ _); [done|]. destruct (starts_with _ _); [done|]. destruct (find_node fdt _) as [al|]; sequence; [|done].
  destruct (property al _) as [q|]; sequence; [|done]. pose proof (as_str_total q). by destruct (as_str q).
Qed.

(** Discovery of the console ends without a panic on every tree. *)
Lemma discover_console_total fdt : discover_console fdt <> Panic.
Proof.
  unfold discover_console. pose proof (resolve_stdout_path_total fdt). destruct (resolve_stdout_path fdt) as [path| |]; sequence; [|done..].
  destruct (find_node fdt path) as [uart|]; sequence; [|done].
  pose proof (status_total uart). destruct (status uart) as [st| |]; sequence; [|done..]. case_bool_decide; sequence; [|done].
  destruct (is_compatible uart _); sequence; [|done]. pose proof (reg_total uart).
  destruct (reg uart) as [[[|r regs]|]| |]; sequence; [done| |done..]. cbn [head ok_or obind].
  pose proof (to_int_total (reg_address r)). destruct (to_int (reg_address r)) as [a| |]; sequence; [|done..].
  pose proof (to_int_total (reg_size r)). destruct (to_int (reg_size r)) as [sz| |]; sequence; [|done..].
  destruct (_ <? _); [done|]. pose proof (translate_address_total (E:=ConsoleDiscoveryError) fdt path a).
  unfold translate_to_cpu_address. destruct (translate_address fdt path a) as [a1| |]; sequence; [|done..]. destruct (_ || _); [done|].
  unfold PhysRegion_new. destruct (sz =? 0); sequence; [done|]. destruct (PhysAddr_checked_add a1 sz); sequence; [|done].
  destruct (property uart _) as [p|]; sequence; [|done]. unfold decode_console_gic_spi.
  destruct (_ <? _)%nat; [done|]. destruct (_ || _); [done|]. by destruct (_ && _).
Qed.

Section Found.
Context (fdt : Fdt) (Hnamed : named_tree (fdt_root fdt)) (Hbytes : fdt_bytes fdt).

Lemma decode_region_at buses n regs r region :
  trail (root_node fdt) (buses ++ [n]) -> reg n = Ok (Some regs) -> r ∈ regs ->
  decode_region fdt (path_of (name <$> buses ++ [n])) r = Ok region -> register_at buses r region.
Proof using Hnamed Hbytes.
  intros Ht Hreg Hr. unfold decode_region. pose proof (trail_bytes (root_node fdt) _ (fb_root _ Hbytes) Ht) as Hb.
  apply Forall_app in Hb as [Hb Hn]. apply Forall_cons_1 in Hn as [Hn _].
  destruct (reg_named_u64 _ _ _ _ Hn Hreg Hr) as [Hua Hus].
  destruct (to_int (reg_address r)) as [a| |] eqn:Ea; sequence; [|done..].
  destruct (to_int (reg_size r)) as [s| |] eqn:Es; sequence; [|done..]. unfold translate_gic_to_cpu_address.
  pose proof (fun a1 => translate_trail (E:=Gic.GicV2DiscoveryError) fdt Hnamed buses n a a1 Ht) as Htr.
  destruct (translate_address fdt _ a) as [a1| |] eqn:Et; sequence; [|done..]. pose proof (proj1 (Htr a1) eq_refl) as Ht1.
  destruct (PhysRegion_new a1 s) as [r1| |] eqn:Er; sequence; [|done..]. intros [= <-].
  assert (Hu1 : u64 a1) by (eapply translates_u64; [by apply Forall_rev|by apply Hua|done]).
  destruct (PhysRegion_new_ok a1 s r1) as [-> Hok]; [apply Hu1|by apply Hus|done|]. by exists a.
Qed.

(** A console register block, likewise. *)
Lemma register_exact buses n regs r a s :
  trail (root_node fdt) (buses ++ [n]) -> reg n = Ok (Some regs) -> r ∈ regs ->
  to_int (reg_address r) = Ok a -> to_int (reg_size r) = Ok s -> forall a1 region,
  translate_to_cpu_address fdt (path_of (name <$> buses ++ [n])) a = Ok a1 -> PhysRegion_new a1 s = Ok region ->
  register_at buses r region /\ region = mkRegion a1 s.
Proof using Hnamed Hbytes.
  intros Ht Hreg Hr Ea Es a1 region Htr Hnew. pose proof (trail_bytes (root_node fdt) _ (fb_root _ Hbytes) Ht) as Hb.
  apply Forall_app in Hb as [Hb Hn]. apply Forall_cons_1 in Hn as [Hn _]. destruct (reg_named_u64 _ _ _ _ Hn Hreg Hr) as [Hua Hus].
  apply (translate_trail (E:=ConsoleDiscoveryError) fdt Hnamed buses n a a1 Ht) in Htr.
  assert (Hu1 : u64 a1) by (eapply translates_u64; [by apply Forall_rev|by apply Hua|done]).
  destruct (PhysRegion_new_ok a1 s region) as [-> Hok]; [apply Hu1|by apply Hus|done|]. split; [|done]. by exists a.
Qed.

(** [gic_discovered]: in a tree of bytes whose names identify its nodes, the
    search for the interrupt controller never panics and never writes outside
    its path buffer.  What it returns is an enabled GICv2 node at some depth,
    and its four interfaces are the first four reg entries in order, each
    translated through the ranges of every bus between the node and the root,
    non-empty, within the address space and as large as the driver needs.  It
    reports a missing controller only when no node of the tree is one. *)
Lemma gic_discovered :
  match discover_gic_v2 fdt with
  | Ok info => exists buses gic gicd gicc gich gicv rest,
      trail (root_node fdt) (buses ++ [gic]) /\ is_gic_v2 gic = true /\ status gic = Ok Okay /\
      reg gic = Ok (Some (gicd :: gicc :: gich :: gicv :: rest)) /\
      register_at buses gicd (distributor info) /\ register_at buses gicc (cpu_interface info) /\
      register_at buses gich (hypervisor_interface info) /\ register_at buses gicv (virtual_cpu_interface info) /\
      REQUIRED_GICD_SIZE <= rsize (distributor info) /\ REQUIRED_GICC_SIZE <= rsize (cpu_interface info) /\
      REQUIRED_GICH_SIZE <= rsize (hypervisor_interface info) /\ REQUIRED_GICV_SIZE <= rsize (virtual_cpu_interface info)
  | Err Gic.MissingController => forall l, trail (root_node fdt) l -> is_gic_v2 (List.last l (root_node fdt)) = false
  | Err _ => True
  | Panic => False
  end.
Proof using Hnamed Hbytes.
  unfold discover_gic_v2.
  pose proof (find_gic_v2_spec fdt (fdt_root fdt) Hnamed AddressSpaceProperties_default (47 :: replicate 255 0) []
    (Forall_nil_2 _) eq_refl eq_refl) as Hs. fold (root_node fdt) in Hs. change (length (path_of [])) with 1%nat in Hs.
  destruct (find_gic_v2 _ _ _ _ 1) as [[[info|] path]|e|]; sequence; cbn [fst ok_or]; [| |by destruct e|done].
  2:{ destruct Hs as [_ Hs]. exact Hs. }
  destruct Hs as (l & Ht & Hg & Hst & Hd). cbn [app] in Hd. cbv zeta in Hg, Hst, Hd.
  destruct (decode_gic_v2_inv _ _ _ _ Hd) as (d & c & h & v & rest & Hreg & Hr1 & Hr2 & Hr3 & Hr4 & Hsz).
  destruct l as [|gic buses _] using rev_ind.
  { exfalso. cbn [List.last fmap list_fmap path_of] in Hr1. unfold decode_region in Hr1.
    destruct (to_int (reg_address d)); sequence; [|done..]. by destruct (to_int (reg_size d)). }
  rewrite List.last_last in *. exists buses, gic, d, c, h, v, rest.
  split_and!; try done; try (eapply decode_region_at; [done|done| |done]; set_solver); apply Hsz.
Qed.

(** [console_discovered]: when stdout-path names a node by its path, console
    discovery never panics and accepts it exactly when it is an enabled
    mini-UART whose first reg entry, translated through every bus above it, is
    a non-zero word-aligned block of at least its register size, and whose
    interrupt is a level-high shared interrupt below 1020; the result is that
    block and that interrupt. *)
Lemma console_discovered buses uart :
  trail (root_node fdt) (buses ++ [uart]) ->
  resolve_stdout_path fdt = Ok (path_of (name <$> buses ++ [uart])) ->
  discover_console fdt <> Panic /\
  forall info, discover_console fdt = Ok info <->
    status uart = Ok Okay /\ is_compatible uart (b"brcm,bcm2835-aux-uart") = true /\
    exists r rest p, reg uart = Ok (Some (r :: rest)) /\ register_at buses r (console_registers info) /\
      0x18 <= rsize (console_registers info) /\ rstart (console_registers info) <> 0 /\
      rstart (console_registers info) mod 4 = 0 /\
      property uart (b"interrupts") = Some p /\ level_high_spi (p_value p) (console_irq info).
Proof using Hnamed Hbytes.
  intros Ht Hpath. split; [apply discover_console_total|]. pose proof (trail_names (root_node fdt) _ Hnamed Ht) as Hg.
  assert (Hfind : find_node fdt (path_of (name <$> buses ++ [uart])) = Some uart).
  { rewrite find_node_path, (follow_trail (root_node fdt)) by done. f_equal. by rewrite List.last_last. }
  pose proof (trail_bytes (root_node fdt) _ (fb_root _ Hbytes) Ht) as Hb. apply Forall_app in Hb as [Hb Hn].
  apply Forall_cons_1 in Hn as [Hn _]. unfold discover_console. rewrite Hpath. sequence. rewrite Hfind. sequence.
  unfold compatible_str. intros info. split.
  - destruct (status uart) as [st| |]; sequence; [|done..]. case_bool_decide as Hst; sequence; [subst st|done].
    destruct (is_compatible uart _); sequence; [|done]. destruct (reg uart) as [[[|r regs]|]| |] eqn:Er; sequence; [done| |done..].
    cbn [head ok_or obind]. destruct (to_int (reg_address r)) as [a| |] eqn:Ea; sequence; [|done..].
    destruct (to_int (reg_size r)) as [sz| |] eqn:Es; sequence; [|done..].
    destruct (Z.ltb_spec sz (min_register_size MiniUart)); [done|].
    destruct (translate_to_cpu_address fdt _ a) as [a1| |] eqn:Et; sequence; [|done..]. destruct (_ || _) eqn:Ez; [done|]. bool_prop.
    destruct (PhysRegion_new a1 sz) as [region| |] eqn:Ereg; sequence; [|done..].
    destruct (property uart _) as [p|] eqn:Ep; sequence; [|done].
    destruct (decode_console_gic_spi (p_value p)) as [irq| |] eqn:Ed; sequence; [|done..]. intros [= <-]. cbn [console_registers console_irq].
    destruct (register_exact buses uart (r :: regs) r a sz Ht Er ltac:(by left) Ea Es a1 region) as [Hra Hshape]; [done|done|].
    split_and!; [done|done|]. exists r, regs, p. rewrite Hshape in *. cbn [rsize rstart] in *. split_and!; try done.
    by apply decode_console_gic_spi_exact; [eapply property_bytes|].
  - intros (Hst & Hc & r & regs & p & Er & (x & Ea & Es & Htr & Hok) & Hsz & Hnz & Hal & Ep & Hspi).
    rewrite Hst. sequence. rewrite bool_decide_eq_true_2 by done. sequence. rewrite Hc. sequence. rewrite Er. sequence.
    cbn [head ok_or obind]. rewrite Ea. sequence. rewrite Es. sequence.
    rewrite (proj2 (Z.ltb_ge _ (min_register_size MiniUart)) Hsz). unfold translate_to_cpu_address.
    apply (translate_trail (E:=ConsoleDiscoveryError) fdt Hnamed buses uart _ _ Ht) in Htr. rewrite Htr. sequence.
    rewrite (proj2 (Z.eqb_neq _ _) Hnz). unfold min_alignment. rewrite Hal. cbn [Z.eqb negb orb].
    unfold PhysRegion_new, PhysAddr_checked_add. destruct Hok as (? & ? & Hend). unfold rend in Hend.
    rewrite (proj2 (Z.eqb_neq (rsize _) 0)), (checked_add_ok _ _ Hend) by lia. sequence. rewrite Ep. sequence.
    apply decode_console_gic_spi_exact in Hspi; [|by eapply property_bytes]. rewrite Hspi. sequence. by destruct info as [[] [] ?].
Qed.

End Found.

(** ** Concrete instances *)

Definition sample_gic_node : dt_node :=
  mkNode (b"interrupt-controller@40041000")
    [mkProp (b"compatible") (b"arm,gic-400" ++ [0]);
     mkProp (b"reg") (to_be_bytes 4 0x40041000 ++ to_be_bytes 4 0x1000 ++ to_be_bytes 4 0x40042000 ++ to_be_bytes 4 0x2000 ++
                      to_be_bytes 4 0x40044000 ++ to_be_bytes 4 0x2000 ++ to_be_bytes 4 0x40046000 ++ to_be_bytes 4 0x2000)] [].

Definition sample_uart_node : dt_node :=
  mkNode (b"serial@7e215040")
    [mkProp (b"compatible") (b"brcm,bcm2835-aux-uart" ++ [0]);
     mkProp (b"reg") (to_be_bytes 4 0x7e215040 ++ to_be_bytes 4 0x40);
     mkProp (b"interrupts") (to_be_bytes 4 0 ++ to_be_bytes 4 93 ++ to_be_bytes 4 4)] [].

(** A bus with two windows, the console chosen by an alias. *)
Definition device_tree : Fdt :=
  mkFdt (mkNode [] []
    [mkNode (b"aliases") [mkProp (b"serial0") (b"/soc/serial@7e215040" ++ [0])] [];
     mkNode (b"chosen") [mkProp (b"stdout-path") (b"serial0:115200n8" ++ [0])] [];
     mkNode (b"soc")
       [mkProp (b"#address-cells") (to_be_bytes 4 1); mkProp (b"#size-cells") (to_be_bytes 4 1);
        mkProp (b"ranges") (to_be_bytes 4 0x7e000000 ++ to_be_bytes 8 0xfe000000 ++ to_be_bytes 4 0x01800000 ++
                            to_be_bytes 4 0x40000000 ++ to_be_bytes 8 0xff800000 ++ to_be_bytes 4 0x00800000)]
       [sample_uart_node; sample_gic_node]]) [] 0.

Ltac siblings :=
  let i := fresh in let j := fresh in intros i j ? ? ? ? ?;
  do 4 (destruct i as [|i]; [do 4 (destruct j as [|j]; [try lia; simplify_eq/=; vm_compute; reflexivity|]); simplify_eq/=|]); simplify_eq/=.

Lemma device_tree_named : named_tree (fdt_root device_tree).
Proof.
  assert (Hleaf : forall nm ps, named_tree (mkNode nm ps [])).
  { intros. constructor; [constructor|by intros ? ? ? ? ? ?|constructor]. }
  assert (Hname : forall s, forallb (fun c => negb (c =? 47)) s && negb (str_eqb s []) = true -> good_name s).
  { intros s [H1 H2]%andb_true_iff. split.
    - intros ->. done.
    - intros Hin. rewrite forallb_forall in H1. specialize (H1 47 (proj1 (list_elem_of_In _ _) Hin)). done. }
  constructor.
  - repeat (constructor; [apply Hname; vm_compute; reflexivity|]). constructor.
  - siblings.
  - constructor; [apply Hleaf|]. constructor; [apply Hleaf|]. constructor; [|constructor]. constructor.
    + repeat (constructor; [apply Hname; vm_compute; reflexivity|]). constructor.
    + siblings.
    + repeat (constructor; [apply Hleaf|]). constructor.
Qed.

Lemma device_tree_bytes : fdt_bytes device_tree.
Proof. split; [bytes_tree|constructor|cbn; unfold u64; lia]. Qed.

Definition soc_node : FdtNode := match find_node device_tree (b"/soc") with Some n => n | None => root_node device_tree end.
Definition uart_node : FdtNode :=
  match find_node device_tree (b"/soc/serial@7e215040") with Some n => n | None => root_node device_tree end.

