(* ===== verification/Mm.v ===== *)
(** * The global page allocator: src/src/mm.rs

    tvisor keeps one [PageAllocator] for the whole machine.  Its bitmaps live
    in a static, [GlobalPageAllocator], and every operation takes the lock,
    rebuilds the allocator over the bitmaps with [from_existing], runs and
    drops it again ([with_allocator]).  The lock serialises the operations, so
    each of them is one step on the static.  [PageSource] states what the
    clients of this file rely on; the instance at the end discharges it. *)

From S2P Require Import Prelude Page SystemInfo PageAllocator.

Record GlobalPageAllocator := mkGlobal {
  g_managed : PageBitmap;
  g_in_use : PageBitmap;
  g_ram_pages : Z;
  g_initialized : bool
}.

Section Global.
Context (B : nat).

Definition GlobalPageAllocator_new : GlobalPageAllocator :=
  mkGlobal (PageBitmap_zeroed B) (PageBitmap_zeroed B) 0 false.

Definition with_allocator {T} (operation : stateful PageAllocator AllocatorError T) :
    stateful GlobalPageAllocator AllocatorError T := fun g =>
  if negb (g_initialized g) then (Err NotInitialized, g)
  else
    match from_existing B (g_managed g) (g_in_use g) (g_ram_pages g) with
    | Ok allocator =>
        let '(r, allocator') := operation allocator in
        (r, mkGlobal (managed allocator') (in_use allocator') (g_ram_pages g) (g_initialized g))
    | Err e => (Err e, g)
    | Panic => (Panic, g)
    end.

(** A method of the allocator that returns a value with the new state and
    changes nothing when it fails. *)
Definition updating {T} (f : PageAllocator -> outcome AllocatorError (T * PageAllocator)) :
    stateful PageAllocator AllocatorError T := fun al =>
  match f al with
  | Ok (r, al') => (Ok r, al')
  | Err e => (Err e, al)
  | Panic => (Panic, al)
  end.

Definition allocate_page : stateful GlobalPageAllocator AllocatorError Z :=
  with_allocator (updating (allocate B)).

Definition allocate_contiguous_pages (pages : nat) : stateful GlobalPageAllocator AllocatorError Z :=
  with_allocator (updating (fun al => allocate_contiguous B al pages)).

Definition free_page (page : Z) : stateful GlobalPageAllocator AllocatorError unit :=
  with_allocator (supdate (fun al => free B al page)).

Definition allocator_stats : stateful GlobalPageAllocator AllocatorError AllocatorStats :=
  with_allocator (stry stats).

(** ** Invariant *)

(** The allocator [from_existing] builds over the bitmaps. *)
Definition view (g : GlobalPageAllocator) : PageAllocator :=
  mkAllocator (g_managed g) (g_in_use g) (g_ram_pages g).

Definition gstate (g : GlobalPageAllocator) (i : nat) : PageState := pstate (view g) i.

Record global_ok (g : GlobalPageAllocator) : Prop := {
  go_init : g_initialized g = true;
  go_alloc : alloc_ok B (view g);
  go_managed : set_pages (g_managed g) <= g_ram_pages g;
  go_ram : g_ram_pages g <= Z.of_nat (page_count B)
}.

Context (HB0 : (0 < B)%nat) (HB : aperture_end B < 2 ^ 64).

Lemma in_use_le_managed al : alloc_ok B al -> set_pages (in_use al) <= set_pages (managed al).
Proof.
  intros [Hm Hu Hs]. rewrite (bm_count _ _ Hm), (bm_count _ _ Hu). by apply countb_mono.
Qed.

Lemma with_allocator_ok {T} (operation : stateful PageAllocator AllocatorError T) g :
  global_ok g ->
  with_allocator operation g =
    let '(r, al) := operation (view g) in
    (r, mkGlobal (managed al) (in_use al) (g_ram_pages g) (g_initialized g)).
Proof using HB0.
  intros [Hi Ha Hm Hr]. unfold with_allocator. rewrite Hi. cbn [negb].
  pose proof (in_use_le_managed _ Ha) as Hle. cbn [view in_use managed] in Hle.
  unfold from_existing, validate_bitmaps. rewrite (proj2 (Nat.eqb_neq B 0)) by lia. cbn [obind].
  rewrite !(proj2 (Z.ltb_ge _ _)) by done. done.
Qed.

(** An allocator with the same managed pages keeps the invariant. *)
Lemma global_ok_update g al :
  global_ok g -> alloc_ok B al -> managed al = g_managed g -> ram_pages al = g_ram_pages g ->
  global_ok (mkGlobal (managed al) (in_use al) (g_ram_pages g) (g_initialized g)) /\
  view (mkGlobal (managed al) (in_use al) (g_ram_pages g) (g_initialized g)) = al.
Proof.
  intros [] Hal Hm Hr. assert (Hv : mkAllocator (managed al) (in_use al) (g_ram_pages g) = al).
  { destruct al. simpl in *. by subst. }
  split; [|done]. split; cbn; [done| |by rewrite Hm|done]. unfold view. cbn. by rewrite Hv.
Qed.

Lemma allocate_contiguous_pages_spec pages g :
  global_ok g -> (0 < pages)%nat ->
  match allocate_contiguous_pages pages g with
  | (Ok pa, g') =>
      exists p, pa = Z.of_nat p * PAGE_SIZE /\ (p + pages <= page_count B)%nat /\
        all_unused (view g) p pages /\ global_ok g' /\ g_ram_pages g' = g_ram_pages g /\
        forall i, gstate g' i = if ((p <=? i) && (i <? p + pages))%nat then InUse else gstate g i
  | (Err e, g') => e = Exhausted /\ g' = g
  | (Panic, _) => False
  end.
Proof using HB0 HB.
  intros Hg Hp. unfold allocate_contiguous_pages. rewrite with_allocator_ok by done. unfold updating.
  pose proof (allocate_contiguous_post B HB (view g) pages (go_alloc _ Hg) Hp) as Hpost.
  destruct (allocate_contiguous B (view g) pages) as [[pa al]| |] eqn:E; [| |done].
  2:{ destruct Hpost as [-> _]. split; [done|]. by destruct g. }
  destruct Hpost as (p & -> & Hpp & Hun & _ & Hok & Hr & Hst).
  destruct (global_ok_update g al Hg Hok) as [Hg' Hv];
    [by eapply (allocate_managed B (view g))|done|].
  exists p. split_and!; [done..|]. unfold gstate. by rewrite Hv.
Qed.

Lemma allocate_page_contiguous g : allocate_page g = allocate_contiguous_pages 1 g.
Proof. done. Qed.

Lemma free_page_spec p g :
  global_ok g -> (p < page_count B)%nat -> gstate g p = InUse ->
  exists g', free_page (Z.of_nat p * PAGE_SIZE) g = (Ok tt, g') /\ global_ok g' /\
    g_ram_pages g' = g_ram_pages g /\
    forall i, gstate g' i = if (i =? p)%nat then Unused else gstate g i.
Proof using HB0 HB.
  intros Hg Hp Hst. unfold free_page. rewrite with_allocator_ok by done. unfold supdate.
  destruct (free_in_use B HB (view g) p (go_alloc _ Hg) Hp Hst) as (al & -> & Hok & Hm & Hr & Ht).
  destruct (global_ok_update g al Hg Hok Hm Hr) as [Hg' Hv].
  eexists. split; [done|]. split_and!; [done..|]. unfold gstate. by rewrite Hv.
Qed.

(** Statics with the same page states are the same static. *)
Lemma global_ext g1 g2 :
  global_ok g1 -> global_ok g2 -> g_ram_pages g1 = g_ram_pages g2 ->
  (forall i, gstate g1 i = gstate g2 i) -> g1 = g2.
Proof.
  intros [I1 A1 _ _] [I2 A2 _ _] Hr Hs.
  assert (Hm : g_managed g1 = g_managed g2).
  { apply (bm_ext B HB); [apply (al_managed _ _ A1)|apply (al_managed _ _ A2)|]. intros i.
    specialize (Hs i). apply (f_equal (fun s => bool_decide (s <> Reserved))) in Hs.
    unfold gstate, pstate in Hs. cbn [view managed] in Hs.
    destruct (test (g_managed g1) i), (test (g_managed g2) i); [done| | |done];
      repeat case_match; done. }
  pose proof (alloc_ext B HB (view g1) (view g2) A1 A2 Hm Hr Hs) as Hv.
  destruct g1, g2. unfold view in Hv. simpl in *. by simplify_eq.
Qed.

End Global.

(** ** What clients rely on *)

(** A source of physical pages: the state of every page, allocations of
    contiguous runs of unused pages, and the return of a page in use. *)
Class PageSource (G : Type) := {
  ps_allocate_contiguous_pages : nat -> stateful G AllocatorError Z;
  ps_allocate_page : stateful G AllocatorError Z;
  ps_free_page : Z -> stateful G AllocatorError unit;
  ps_ok : G -> Prop;
  ps_limit : nat;
  ps_state : G -> nat -> PageState;
  ps_total : G -> Z;
  ps_limit_48 : Z.of_nat ps_limit * PAGE_SIZE <= 2 ^ 48;
  ps_allocate_none g : ps_ok g -> ps_allocate_contiguous_pages 0 g = (Err Exhausted, g);
  ps_allocate_spec n g :
    ps_ok g -> (0 < n)%nat ->
    match ps_allocate_contiguous_pages n g with
    | (Ok pa, g') =>
        exists p, pa = Z.of_nat p * PAGE_SIZE /\ (p + n <= ps_limit)%nat /\
          (forall i, (p <= i < p + n)%nat -> ps_state g i = Unused) /\
          ps_ok g' /\ ps_total g' = ps_total g /\
          forall i, ps_state g' i = if ((p <=? i) && (i <? p + n))%nat then InUse else ps_state g i
    | (Err e, g') => e = Exhausted /\ g' = g
    | (Panic, _) => False
    end;
  ps_allocate_one g : ps_allocate_page g = ps_allocate_contiguous_pages 1 g;
  ps_free_spec p g :
    ps_ok g -> (p < ps_limit)%nat -> ps_state g p = InUse ->
    exists g', ps_free_page (Z.of_nat p * PAGE_SIZE) g = (Ok tt, g') /\ ps_ok g' /\
      ps_total g' = ps_total g /\
      forall i, ps_state g' i = if (i =? p)%nat then Unused else ps_state g i;
  ps_ext g1 g2 :
    ps_ok g1 -> ps_ok g2 -> ps_total g1 = ps_total g2 ->
    (forall i, ps_state g1 i = ps_state g2 i) -> g1 = g2
}.

(** The global allocator is such a source. *)
Definition mm_source (B : nat) (HB0 : (0 < B)%nat) (HB : aperture_end B <= 2 ^ 48) :
  PageSource GlobalPageAllocator.
Proof.
  assert (H64 : aperture_end B < 2 ^ 64) by (clear -HB; lia).
  refine {|
    ps_allocate_contiguous_pages := allocate_contiguous_pages B;
    ps_allocate_page := allocate_page B;
    ps_free_page := free_page B;
    ps_ok := global_ok B;
    ps_limit := page_count B;
    ps_state := gstate;
    ps_total := g_ram_pages;
    ps_limit_48 := HB;
    ps_allocate_spec n g Hg Hn := allocate_contiguous_pages_spec B HB0 H64 n g Hg Hn;
    ps_allocate_one := allocate_page_contiguous B;
    ps_free_spec p g Hg Hp Hs := free_page_spec B HB0 H64 p g Hg Hp Hs;
    ps_ext := global_ext B H64
  |}.
  intros g Hg. unfold allocate_contiguous_pages. rewrite with_allocator_ok by done.
  unfold updating, allocate_contiguous. simpl. f_equal. by destruct g.
Defined.
