(* ===== verification/Vcpu.v ===== *)
(** * Virtual CPUs: src/src/vcpu.rs

    The saved state of a virtual CPU, the record of its last exit, the reading
    of the syndrome, and the emulation of a trapped device access, which
    composes the decoder and the devices of [Mmio].  The assembly that loads
    and saves this state is the subject of [WorldSwitch]. *)

From S2P Require Import Prelude Page GuestPlatform Mmio Gicv2.

Inductive VcpuMmioError :=
| Decode (e : MmioDecodeError)
| Emulation (e : MmioEmulationError)
| ProgramCounterOverflow.

(** The words of [VcpuContext] after [x], in the order of the struct. *)
Record VcpuSysRegs := mkSysRegs {
  sctlr_el1 : Z;
  cpacr_el1 : Z;
  ttbr0_el1 : Z;
  ttbr1_el1 : Z;
  tcr_el1 : Z;
  mair_el1 : Z;
  vbar_el1 : Z;
  contextidr_el1 : Z;
  tpidr_el1 : Z;
  tpidrro_el0 : Z
}.

Record VcpuContext := mkContext {
  x : list Z;
  sp_el0 : Z;
  sp_el1 : Z;
  elr_el2 : Z;
  spsr_el2 : Z;
  sysregs : VcpuSysRegs;
  q : list Z;
  fpcr : Z;
  fpsr : Z
}.

Definition with_x (self : VcpuContext) (v : list Z) : VcpuContext :=
  mkContext v (sp_el0 self) (sp_el1 self) (elr_el2 self) (spsr_el2 self) (sysregs self) (q self)
    (fpcr self) (fpsr self).

Definition with_elr (self : VcpuContext) (v : Z) : VcpuContext :=
  mkContext (x self) (sp_el0 self) (sp_el1 self) v (spsr_el2 self) (sysregs self) (q self)
    (fpcr self) (fpsr self).

Definition VcpuContext_new (entry_pc sp_el1 : Z) : VcpuContext :=
  let ctx := mkContext (replicate 31 0) 0 sp_el1 entry_pc 0x3c5
    (mkSysRegs 0x00c50838 0 0 0 0 0 0 0 0 0) (replicate 32 0) 0 0 in
  with_x ctx (<[0%nat := 0]> (x ctx)).

Record VcpuExit := mkExit { vector : Z; esr_el2 : Z; far_el2 : Z; hpfar_el2 : Z }.

Inductive VcpuExitReason :=
| Hvc (imm arg0 : Z)
| Stage2DataAbort (ipa : Z) (is_write : bool) (dfsc : Z)
| Stage2InstructionAbort (ipa ifsc : Z)
| SmcTrap
| SysRegTrap
| FpSimdTrap
| Unknown (ec iss : Z).

Definition fault_ipa (self : VcpuExit) : Z :=
  let fipa_page := Z.shiftl (Z.land (Z.shiftr (hpfar_el2 self) 4) 0x00000fffffffffff) 12 in
  let page_offset := Z.land (far_el2 self) 0xfff in
  Z.lor fipa_page page_offset.

Definition decode_reason {E} (self : VcpuExit) (context : VcpuContext) : outcome E VcpuExitReason :=
  let ec := as_u8 (Z.land (Z.shiftr (esr_el2 self) 26) 0x3f) in
  let iss := as_u32 (Z.land (esr_el2 self) 0x01ffffff) in
  match ec with
  | 0x16 =>
      let imm := as_u16 (Z.land iss 0xffff) in
      let? arg0 := arr_get (x context) 0 in
      Ok (Hvc imm arg0)
  | 0x17 => Ok SmcTrap
  | 0x18 => Ok SysRegTrap
  | 0x07 => Ok FpSimdTrap
  | 0x20 =>
      let ifsc := as_u8 (Z.land iss 0x3f) in
      Ok (Stage2InstructionAbort (fault_ipa self) ifsc)
  | 0x24 =>
      let dfsc := as_u8 (Z.land iss 0x3f) in
      let is_write := negb (Z.land iss (Z.shiftl 1 6) =? 0) in
      Ok (Stage2DataAbort (fault_ipa self) is_write dfsc)
  | _ => Ok (Unknown ec iss)
  end.

(** [emulate_stage2_mmio] works on the context and on the devices; the devices
    see the registers of the context. *)
Definition on_registers {E A} (m : stateful emulation E A) :
    stateful (VcpuContext * MmioDispatcher) E A := fun '(ctx, d) =>
  let '(r, (d', regs)) := m (d, x ctx) in (r, (with_x ctx regs, d')).

Definition smap_err {S E F A} (f : E -> F) (m : stateful S E A) : stateful S F A := fun s =>
  let '(r, s') := m s in (map_err f r, s').

Definition emulate_stage2_mmio (exit : VcpuExit) :
    stateful (VcpuContext * MmioDispatcher) VcpuMmioError (option Z) :=
  let! access := slift (map_err Decode (decode_data_abort (esr_el2 exit) (fault_ipa exit))) in
  let! transmit := smap_err Emulation (on_registers (emulate access)) in
  let! pc := stry (fun '(ctx, _) => ok_or (checked_add (elr_el2 ctx) 4) ProgramCounterOverflow) in
  let! _ := supdate (fun '(ctx, d) => Ok (with_elr ctx pc, d)) in
  sret transmit.

(** src/tvisor_util/virtual_timer.rs *)
Record VirtualTimerState := mkTimer { cntvoff_el2 : Z; cntv_cval_el0 : Z; cntv_ctl_el0 : Z }.

Record Vcpu := mkVcpu {
  context : VcpuContext;
  exit : VcpuExit;
  timer : VirtualTimerState;
  gic : VirtualGicV2State
}.

Definition Vcpu_new (entry_pc sp_el1 : Z) : Vcpu :=
  mkVcpu (VcpuContext_new entry_pc sp_el1) (mkExit 0 0 0 0) (mkTimer 0 0 0) (mkVgic 0 0 0).

Definition with_context (self : Vcpu) (c : VcpuContext) : Vcpu :=
  mkVcpu c (exit self) (timer self) (gic self).

Definition with_gic (self : Vcpu) (g : VirtualGicV2State) : Vcpu :=
  mkVcpu (context self) (exit self) (timer self) g.

Definition Vcpu_new_linux (entry_pc dtb_ipa : Z) : Vcpu :=
  let vcpu := Vcpu_new entry_pc 0 in
  let regs := <[3%nat := 0]> (<[2%nat := 0]> (<[1%nat := 0]> (<[0%nat := dtb_ipa]> (x (context vcpu))))) in
  with_context vcpu (with_x (context vcpu) regs).

(** ** Specification *)

(** The intermediate physical address the architecture reports: the page
    number from HPFAR_EL2[47:4] and the offset in the page from FAR_EL2. *)
Definition reported_ipa (e : VcpuExit) : Z :=
  field (hpfar_el2 e) 4 44 * PAGE_SIZE + far_el2 e mod PAGE_SIZE.

(** The reason an exit has, by its exception class. *)
Definition reason_of (e : VcpuExit) (x0 : Z) : VcpuExitReason :=
  let ec := field (esr_el2 e) 26 6 in
  if ec =? 0x16 then Hvc (field (esr_el2 e) 0 16) x0
  else if ec =? 0x17 then SmcTrap
  else if ec =? 0x18 then SysRegTrap
  else if ec =? 0x07 then FpSimdTrap
  else if ec =? 0x20 then Stage2InstructionAbort (reported_ipa e) (field (esr_el2 e) 0 6)
  else if ec =? 0x24 then Stage2DataAbort (reported_ipa e) (Z.testbit (esr_el2 e) 6) (field (esr_el2 e) 0 6)
  else Unknown ec (field (esr_el2 e) 0 25).

(** ** Lemmas *)

Lemma field_ones v w : 0 <= w -> field v 0 w = Z.land v (Z.ones w).
Proof. intros. unfold field. by rewrite Z.shiftr_0_r. Qed.

Lemma land_ones_ones v a b : 0 <= a <= b -> Z.land (Z.land v (Z.ones b)) (Z.ones a) = Z.land v (Z.ones a).
Proof.
  intros H. apply Z.bits_inj'. intros i Hi. rewrite !Z.land_spec, !Z.testbit_ones_nonneg by lia.
  destruct (Z.ltb_spec i a), (Z.ltb_spec i b); rewrite ?andb_false_r, ?andb_true_r; done || lia.
Qed.

Lemma land_ones_wider v a b : 0 <= a <= b -> Z.land (Z.land v (Z.ones a)) (Z.ones b) = Z.land v (Z.ones a).
Proof.
  intros H. apply Z.bits_inj'. intros i Hi. rewrite !Z.land_spec, !Z.testbit_ones_nonneg by lia.
  destruct (Z.ltb_spec i a), (Z.ltb_spec i b); rewrite ?andb_false_r, ?andb_true_r; done || lia.
Qed.

Lemma fault_ipa_reported e : fault_ipa e = reported_ipa e.
Proof.
  unfold fault_ipa, reported_ipa, field. change 0x00000fffffffffff with (Z.ones 44).
  change 0xfff with (Z.ones 12). rewrite (Z.land_ones (far_el2 e)), PAGE_SIZE_pow2 by lia.
  rewrite Z.shiftl_mul_pow2 by lia. apply (lor_disjoint_add _ _ 12); [lia| |].
  - apply Z.mod_mul. lia.
  - apply Z.mod_pos_bound. lia.
Qed.

Lemma esr_ec e : as_u8 (Z.land (Z.shiftr (esr_el2 e) 26) 0x3f) = field (esr_el2 e) 26 6.
Proof. unfold as_u8, field. change 0x3f with (Z.ones 6). apply land_ones_wider. lia. Qed.

Lemma esr_iss e : as_u32 (Z.land (esr_el2 e) 0x01ffffff) = Z.land (esr_el2 e) (Z.ones 25).
Proof. unfold as_u32. change 0x01ffffff with (Z.ones 25). apply land_ones_wider. lia. Qed.

Lemma iss_low e w v :
  0 <= w <= 25 -> w <= v -> Z.land (Z.land (Z.land (esr_el2 e) (Z.ones 25)) (Z.ones w)) (Z.ones v) =
  field (esr_el2 e) 0 w.
Proof. intros. by rewrite land_ones_wider, land_ones_ones, field_ones by lia. Qed.

(** ** Theorems *)

(** [decode_reason_exact]: every exit is read as the reason of its exception
    class: hypercalls with their immediate and [x0], aborts with the address
    the fault registers report and with their status code, anything else as
    unknown; the reading never fails. *)
Lemma decode_reason_exact (E : Type) e ctx x0 :
  x ctx !! 0%nat = Some x0 -> decode_reason (E:=E) e ctx = Ok (reason_of e x0).
Proof.
  intros Hx. unfold decode_reason, reason_of. rewrite esr_ec, esr_iss, !fault_ipa_reported.
  change 0xffff with (Z.ones 16). change 0x3f with (Z.ones 6). unfold as_u16, as_u8.
  rewrite !iss_low by lia. rewrite (arr_get_ok _ _ _ Hx). cbn [obind].
  rewrite land_single_bit, Z.land_spec, Z.ones_spec_low, andb_true_r, field_ones by lia.
  destruct (field (esr_el2 e) 26 6) as [|p|p]; [done| |done].
  do 6 (destruct p as [p|p|]; try done).
Qed.

Lemma emulate_stage2_mmio_effect e ctx d :
  guest_ok (d, x ctx) ->
  match emulate_stage2_mmio e (ctx, d) with
  | (Ok out, (ctx', d')) =>
      exists access, decode_data_abort (esr_el2 e) (reported_ipa e) = Ok access /\
        contained access (d, x ctx) out (d', x ctx') /\
        ctx' = with_elr (with_x ctx (x ctx')) (elr_el2 ctx + 4)
  | (Err ProgramCounterOverflow, _) => 2 ^ 64 <= elr_el2 ctx + 4
  | (Err (Decode err), s') => s' = (ctx, d) /\ decode_data_abort (esr_el2 e) (reported_ipa e) = Err err
  | (Err (Emulation err), s') =>
      s' = (ctx, d) /\
      exists access, decode_data_abort (esr_el2 e) (reported_ipa e) = Ok access /\ rejected access err
  | (Panic, _) => False
  end.
Proof.
  intros Hg. unfold emulate_stage2_mmio. rewrite fault_ipa_reported.
  unfold sbind at 1, slift at 1. pose proof (decode_spec (esr_el2 e) (reported_ipa e)) as Hd.
  destruct (decode_data_abort (esr_el2 e) (reported_ipa e)) as [access|err|] eqn:E; cbn [map_err];
    [clear Hd|done|destruct Hd].
  pose proof (emulate_effect _ _ _ _ Hg E) as He.
  unfold sbind at 1, smap_err, on_registers. destruct (emulate access (d, x ctx)) as [[out|err|] [d' regs]];
    cbn [map_err]; [| |done].
  - unfold sbind, stry, supdate, sret, ok_or. cbn [elr_el2 with_x].
    destruct (checked_add (elr_el2 ctx) 4) as [pc|] eqn:Epc; cbn.
    + apply checked_add_Some in Epc as [-> _]. eauto.
    + by apply checked_add_None in Epc.
  - destruct He as [[= -> ->] Hr]. split; [by destruct ctx|]. eauto.
Qed.

(** [emulate_stage2_mmio_exact]: a trapped access either completes, and then
    exactly the device and the register the access names change and the
    program counter moves to the next instruction, or fails and changes
    nothing; only a program counter at the end of the address space fails
    after the access. It never panics. *)
Lemma emulate_stage2_mmio_exact e ctx d :
  guest_ok (d, x ctx) ->
  match emulate_stage2_mmio e (ctx, d) with
  | (Ok out, (ctx', d')) =>
      exists access, decode_data_abort (esr_el2 e) (reported_ipa e) = Ok access /\
        contained access (d, x ctx) out (d', x ctx') /\
        ctx' = with_elr (with_x ctx (x ctx')) (elr_el2 ctx + 4)
  | (Err ProgramCounterOverflow, _) => 2 ^ 64 <= elr_el2 ctx + 4
  | (Err (Decode err), s') => s' = (ctx, d) /\ decode_data_abort (esr_el2 e) (reported_ipa e) = Err err
  | (Err (Emulation err), s') =>
      s' = (ctx, d) /\
      exists access, decode_data_abort (esr_el2 e) (reported_ipa e) = Ok access /\ rejected access err
  | (Panic, _) => False
  end.
Proof. apply emulate_stage2_mmio_effect. Qed.

(** ** Concrete instances *)

(** A guest whose store to the UART's data register trapped. *)
Definition sample_context : VcpuContext :=
  with_x (VcpuContext_new 0x40080000 0) (snd sample_guest).
Definition sample_exit : VcpuExit := mkExit 8 sample_esr 0xffff000009000000 0x90000.

