(* ===== verification/Machine.v ===== *)
(** * The processor the hand-written assembly runs on

    The assembly blocks of src/src/boot.rs, src/src/vcpu.rs,
    src/src/exception.rs and src/src/main.rs are lists of instructions here,
    run by an executable semantics over a register file and a memory of
    64-bit words.  A [q] register is two words, as in the records of
    src/src/vcpu.rs and src/src/exception.rs.  A load or store that is not
    aligned to a word, or through a stack pointer that is not aligned to 16
    bytes, faults.  All blocks run at EL2 with their own stack selected, so
    [SP] is SP_EL2.

    Straight-line code is proved by reflection: [sym_run] executes a block on
    symbolic registers and memory around a few base addresses, and
    [sym_run_sound] carries its result over to the semantics. *)

From S2P Require Import Prelude.

(** ** Registers *)

Inductive sysreg :=
| FPCR | FPSR | TPIDR_EL2 | SP_EL0 | SP_EL1 | ELR_EL2 | SPSR_EL2 | ESR_EL2 | FAR_EL2 | HPFAR_EL2
| SCTLR_EL1 | CPACR_EL1 | TTBR0_EL1 | TTBR1_EL1 | TCR_EL1 | MAIR_EL1 | VBAR_EL1 | CONTEXTIDR_EL1 | TPIDR_EL1 | TPIDRRO_EL0
| CNTVOFF_EL2 | CNTV_CVAL_EL0 | CNTV_CTL_EL0 | CNTP_CTL_EL0 | CNTHP_CTL_EL2 | CNTHCTL_EL2
| SCTLR_EL2 | MAIR_EL2 | TCR_EL2 | TTBR0_EL2 | VBAR_EL2 | HCR_EL2 | CPTR_EL2 | HSTR_EL2 | VTTBR_EL2
| DAIF | SPSel.

Inductive reg :=
| X (n : nat)
| SP
| V (n : nat) (high : bool)
| Sys (r : sysreg).

#[global] Instance sysreg_eq_dec : EqDecision sysreg.
Proof. solve_decision. Defined.
#[global] Instance reg_eq_dec : EqDecision reg.
Proof. solve_decision. Defined.

(** What the code does besides moving data; the log has it in order. *)
Inductive mevent :=
| Wrote (r : sysreg) (v : Z)
| Synchronised
| Ordered
| TlbFlushed.

Record machine := mkMachine { regs : reg -> Z; mem : Z -> Z; log : list mevent }.

Definition set_reg (r : reg) (v : Z) (m : machine) : machine :=
  mkMachine (fun r' => if decide (r' = r) then v else regs m r') (mem m) (log m).

Definition set_word (a v : Z) (m : machine) : machine :=
  mkMachine (regs m) (fun a' => if a' =? a then v else mem m a') (log m).

Definition emit (e : mevent) (m : machine) : machine := mkMachine (regs m) (mem m) (log m ++ [e]).

(** ** Instructions *)

(** An operand [X 31] of a store is the zero register. *)
Definition XZR : nat := 31.

(** [Adr] is [adrp] with the [add] of the low bits behind it. *)
Inductive instr :=
| Stp (a b : nat) (base : reg) (off : Z)
| Ldp (a b : nat) (base : reg) (off : Z)
| StpPre (a b : nat) (base : reg) (off : Z)
| LdpPost (a b : nat) (base : reg) (off : Z)
| StpQ (a b : nat) (base : reg) (off : Z)
| LdpQ (a b : nat) (base : reg) (off : Z)
| Str (a : nat) (base : reg) (off : Z)
| Ldr (a : nat) (base : reg) (off : Z)
| StrPost (a : nat) (base : reg) (off : Z)
| Add (d s : reg) (imm : Z)
| Sub (d s : reg) (imm : Z)
| Bic (d s : reg) (imm : Z)
| MovI (d : nat) (imm : Z)
| MovK (d : nat) (imm shift : Z)
| Adr (d : nat) (symbol : Z)
| Mov (d s : reg)
| Mrs (d : nat) (s : sysreg)
| Msr (d : sysreg) (s : nat)
| MsrI (d : sysreg) (imm : Z)
| DaifSet (imm : Z)
| Isb
| Dsb
| TlbiAlle2
| Wfe.

Definition xval (m : machine) (n : nat) : Z := if (n =? XZR)%nat then 0 else regs m (X n).

(** The address of an access; [None] is a fault. *)
Definition access (m : machine) (base : reg) (off : Z) : option Z :=
  if bool_decide (base = SP) && negb (regs m SP mod 16 =? 0) then None
  else let a := wrapping_add (regs m base) off in if a mod 8 =? 0 then Some a else None.

Definition store_word (m : machine) (base : reg) (off v : Z) : option machine :=
  match access m base off with Some a => Some (set_word a v m) | None => None end.

Definition load_word (m : machine) (base : reg) (off : Z) : option Z :=
  match access m base off with Some a => Some (mem m a) | None => None end.

(** Several words, in order. *)
Fixpoint stores (base : reg) (l : list (Z * Z)) (m : machine) : option machine :=
  match l with
  | [] => Some m
  | (off, v) :: rest => match store_word m base off v with Some m' => stores base rest m' | None => None end
  end.

Fixpoint loads (base : reg) (m0 : machine) (l : list (Z * reg)) (m : machine) : option machine :=
  match l with
  | [] => Some m
  | (off, r) :: rest => match load_word m0 base off with Some v => loads base m0 rest (set_reg r v m) | None => None end
  end.

Definition q_words (a b : nat) (off : Z) : list (Z * reg) :=
  [(off, V a false); (off + 8, V a true); (off + 16, V b false); (off + 24, V b true)].

(** The architecture masks a register write to the bits of [PSTATE.DAIF]. *)
Definition DAIF_SHIFT : Z := 6.

Definition execute1 (i : instr) (m : machine) : option machine :=
  match i with
  | Stp a b base off => stores base [(off, xval m a); (off + 8, xval m b)] m
  | Ldp a b base off => loads base m [(off, X a); (off + 8, X b)] m
  | StpPre a b base off =>
      let m' := set_reg base (wrapping_add (regs m base) off) m in stores base [(0, xval m a); (8, xval m b)] m'
  | LdpPost a b base off =>
      match loads base m [(0, X a); (8, X b)] m with
      | Some m' => Some (set_reg base (wrapping_add (regs m base) off) m')
      | None => None
      end
  | StpQ a b base off => stores base ((fun w => (w.1, regs m w.2)) <$> q_words a b off) m
  | LdpQ a b base off => loads base m (q_words a b off) m
  | Str a base off => store_word m base off (xval m a)
  | Ldr a base off => loads base m [(off, X a)] m
  | StrPost a base off =>
      match store_word m base 0 (xval m a) with
      | Some m' => Some (set_reg base (wrapping_add (regs m base) off) m')
      | None => None
      end
  | Add d s imm => Some (set_reg d (wrapping_add (regs m s) imm) m)
  | Sub d s imm => Some (set_reg d (wrapping_sub (regs m s) imm) m)
  | Bic d s imm => Some (set_reg d (Z.land (regs m s) (not64 imm)) m)
  | MovI d imm => Some (set_reg (X d) imm m)
  | MovK d imm shift =>
      Some (set_reg (X d) (Z.lor (Z.land (regs m (X d)) (not64 (Z.shiftl 0xffff shift))) (Z.shiftl imm shift)) m)
  | Adr d symbol => Some (set_reg (X d) symbol m)
  | Mov d s => Some (set_reg d (regs m s) m)
  | Mrs d s => Some (set_reg (X d) (regs m (Sys s)) m)
  | Msr d s => Some (emit (Wrote d (xval m s)) (set_reg (Sys d) (xval m s) m))
  | MsrI d imm => Some (emit (Wrote d imm) (set_reg (Sys d) imm m))
  | DaifSet imm =>
      let v := Z.lor (regs m (Sys DAIF)) (Z.shiftl imm DAIF_SHIFT) in Some (emit (Wrote DAIF v) (set_reg (Sys DAIF) v m))
  | Isb => Some (emit Synchronised m)
  | Dsb => Some (emit Ordered m)
  | TlbiAlle2 => Some (emit TlbFlushed m)
  | Wfe => Some m
  end.

Fixpoint execute (l : list instr) (m : machine) : option machine :=
  match l with
  | [] => Some m
  | i :: rest => match execute1 i m with Some m' => execute rest m' | None => None end
  end.

(** ** Control flow *)

(** Code with labels [L] that calls functions [F]. *)
Inductive code (L F : Type) :=
| Block (body : list instr) (k : code L F)
| Cbz (r : nat) (taken : L) (k : code L F)
| Bhs (a b : nat) (taken : L) (k : code L F)
| Goto (l : L)
| Jump (f : F)
| Call (f : F) (k : code L F)
| Eret
| Return.
Arguments Block {L F}.
Arguments Cbz {L F}.
Arguments Bhs {L F}.
Arguments Goto {L F}.
Arguments Jump {L F}.
Arguments Call {L F}.
Arguments Eret {L F}.
Arguments Return {L F}.

(** Where execution leaves the code. *)
Inductive ending (L F : Type) :=
| ExceptionReturn (m : machine)
| Returned (m : machine)
| Calling (f : F) (m : machine) (k : code L F)
| Jumped (f : F) (m : machine)
| OutOfFuel
| Fault.
Arguments ExceptionReturn {L F}.
Arguments Returned {L F}.
Arguments Calling {L F}.
Arguments Jumped {L F}.
Arguments OutOfFuel {L F}.
Arguments Fault {L F}.

Section Run.
Context {L F : Type} (at_label : L -> code L F).

(** One unit of fuel per jump. *)
Fixpoint run (fuel : nat) (c : code L F) (m : machine) : ending L F :=
  (fix go (c : code L F) (m : machine) : ending L F :=
     match c with
     | Block body k => match execute body m with Some m' => go k m' | None => Fault end
     | Cbz r taken k =>
         if xval m r =? 0 then match fuel with S n => run n (at_label taken) m | O => OutOfFuel end else go k m
     | Bhs a b taken k =>
         if xval m b <=? xval m a then match fuel with S n => run n (at_label taken) m | O => OutOfFuel end else go k m
     | Goto l => match fuel with S n => run n (at_label l) m | O => OutOfFuel end
     | Jump f => Jumped f m
     | Call f k => Calling f m k
     | Eret => ExceptionReturn m
     | Return => Returned m
     end) c m.

Lemma run_block fuel body k m m' : execute body m = Some m' -> run fuel (Block body k) m = run fuel k m'.
Proof. intros E. destruct fuel; cbn [run]; by rewrite E. Qed.

Lemma run_goto fuel l m : run (S fuel) (Goto l) m = run fuel (at_label l) m.
Proof. done. Qed.
End Run.

Lemma execute_cons i l m m1 m' : execute1 i m = Some m1 -> execute l m1 = Some m' -> execute (i :: l) m = Some m'.
Proof. intros E. cbn. by rewrite E. Qed.

Lemma execute_app l1 l2 m m' : execute (l1 ++ l2) m = Some m' -> exists m1, execute l1 m = Some m1 /\ execute l2 m1 = Some m'.
Proof. revert m. induction l1 as [|i l1 IH]; intros m; cbn; [eauto|]. destruct (execute1 i m); [apply IH|done]. Qed.

(** ** Symbolic execution *)

(** A value in terms of the state a block starts in: a register, a word [off]
    bytes from a base address, such an address itself, or a constant. *)
Inductive sval :=
| Reg0 (r : reg)
| Word0 (base : nat) (off : Z)
| At (base : nat) (off : Z)
| Const (z : Z).

#[global] Instance sval_eq_dec : EqDecision sval.
Proof. solve_decision. Defined.

Record sstate := mkSym { s_regs : list (reg * sval); s_mem : list ((nat * Z) * sval); s_log : list (sysreg * sval + mevent) }.

Fixpoint assoc {A B} `{EqDecision A} (l : list (A * B)) (a : A) : option B :=
  match l with [] => None | (a', b) :: rest => if decide (a = a') then Some b else assoc rest a end.

Definition s_reg (s : sstate) (r : reg) : sval := default (Reg0 r) (assoc (s_regs s) r).
Definition s_word (s : sstate) (p : nat * Z) : sval := default (Word0 p.1 p.2) (assoc (s_mem s) p).
Definition s_set (r : reg) (v : sval) (s : sstate) : sstate := mkSym ((r, v) :: s_regs s) (s_mem s) (s_log s).
Definition s_put (p : nat * Z) (v : sval) (s : sstate) : sstate := mkSym (s_regs s) ((p, v) :: s_mem s) (s_log s).
Definition s_xval (s : sstate) (n : nat) : sval := if (n =? XZR)%nat then Const 0 else s_reg s (X n).

(** What a block may touch: for each base address the offsets it reaches. *)
Definition extents := list (Z * Z).

Definition in_extent (e : extents) (p : nat * Z) : bool :=
  match e !! p.1 with Some (lo, hi) => (lo <=? p.2) && (p.2 + 8 <=? hi) && (p.2 mod 8 =? 0) | None => false end.

Section Symbolic.
Context (e : extents).

Definition s_address (s : sstate) (base : reg) (off : Z) : option (nat * Z) :=
  match s_reg s base with
  | At b o =>
      if bool_decide (base = SP) && negb (o mod 16 =? 0) then None
      else if in_extent e (b, o + off) then Some (b, o + off) else None
  | _ => None
  end.

Fixpoint s_stores (base : reg) (l : list (Z * sval)) (s : sstate) : option sstate :=
  match l with
  | [] => Some s
  | (off, v) :: rest => match s_address s base off with Some p => s_stores base rest (s_put p v s) | None => None end
  end.

Fixpoint s_loads (base : reg) (s0 : sstate) (l : list (Z * reg)) (s : sstate) : option sstate :=
  match l with
  | [] => Some s
  | (off, r) :: rest =>
      match s_address s0 base off with Some p => s_loads base s0 rest (s_set r (s_word s0 p) s) | None => None end
  end.

Definition s_shift (v : sval) (d : Z) : option sval :=
  match v with At b o => Some (At b (o + d)) | Const z => Some (Const (wrapping_add z d)) | _ => None end.

Definition s_wrote (d : sysreg) (v : sval) (s : sstate) : sstate :=
  mkSym ((Sys d, v) :: s_regs s) (s_mem s) (s_log s ++ [inl (d, v)]).

Definition s_emit (ev : mevent) (s : sstate) : sstate := mkSym (s_regs s) (s_mem s) (s_log s ++ [inr ev]).

Definition sym1 (i : instr) (s : sstate) : option sstate :=
  match i with
  | Stp a b base off => s_stores base [(off, s_xval s a); (off + 8, s_xval s b)] s
  | Ldp a b base off => s_loads base s [(off, X a); (off + 8, X b)] s
  | StpPre a b base off =>
      match s_shift (s_reg s base) off with
      | Some v => s_stores base [(0, s_xval s a); (8, s_xval s b)] (s_set base v s)
      | None => None
      end
  | LdpPost a b base off =>
      match s_loads base s [(0, X a); (8, X b)] s, s_shift (s_reg s base) off with
      | Some s', Some v => Some (s_set base v s')
      | _, _ => None
      end
  | StpQ a b base off => s_stores base ((fun w => (w.1, s_reg s w.2)) <$> q_words a b off) s
  | LdpQ a b base off => s_loads base s (q_words a b off) s
  | Str a base off => s_stores base [(off, s_xval s a)] s
  | Ldr a base off => s_loads base s [(off, X a)] s
  | Add d src imm => match s_shift (s_reg s src) imm with Some v => Some (s_set d v s) | None => None end
  | Sub d src imm => match s_shift (s_reg s src) (- imm) with Some v => Some (s_set d v s) | None => None end
  | MovI d imm => Some (s_set (X d) (Const imm) s)
  | MovK d imm shift =>
      match s_reg s (X d) with
      | Const z => Some (s_set (X d) (Const (Z.lor (Z.land z (not64 (Z.shiftl 0xffff shift))) (Z.shiftl imm shift))) s)
      | _ => None
      end
  | Adr d symbol => Some (s_set (X d) (Const symbol) s)
  | Mov d src => Some (s_set d (s_reg s src) s)
  | Mrs d src => Some (s_set (X d) (s_reg s (Sys src)) s)
  | Msr d src => Some (s_wrote d (s_xval s src) s)
  | MsrI d imm => Some (s_wrote d (Const imm) s)
  | Isb => Some (s_emit Synchronised s)
  | Dsb => Some (s_emit Ordered s)
  | TlbiAlle2 => Some (s_emit TlbFlushed s)
  | Wfe => Some s
  | StrPost _ _ _ | Bic _ _ _ | DaifSet _ => None
  end.

Fixpoint sym_run (l : list instr) (s : sstate) : option sstate :=
  match l with
  | [] => Some s
  | i :: rest => match sym1 i s with Some s' => sym_run rest s' | None => None end
  end.
End Symbolic.

(** ** Soundness *)

Section Soundness.
Context (e : extents) (base : nat -> Z) (m0 : machine).

(** The bases are aligned as stacks are, and what is in_reach from them does
    not wrap and does not overlap. *)
Record laid_out : Prop := {
  lo_bounds b lo hi : e !! b = Some (lo, hi) -> 0 <= base b + lo /\ base b + hi <= 2 ^ 64;
  lo_aligned b : is_Some (e !! b) -> base b mod 16 = 0;
  lo_apart b c lo hi lo' hi' : e !! b = Some (lo, hi) -> e !! c = Some (lo', hi') -> b <> c ->
    base b + hi <= base c + lo' \/ base c + hi' <= base b + lo
}.

Definition denote (v : sval) : Z :=
  match v with
  | Reg0 r => regs m0 r
  | Word0 b o => mem m0 (base b + o)
  | At b o => (base b + o) mod 2 ^ 64
  | Const z => z
  end.

Definition denote_event (ev : sysreg * sval + mevent) : mevent :=
  match ev with inl (d, v) => Wrote d (denote v) | inr ev => ev end.

Definition in_reach (a : Z) : Prop := exists p, in_extent e p = true /\ a = base p.1 + p.2.

Record rep (s : sstate) (m : machine) : Prop := {
  rep_reg r : regs m r = denote (s_reg s r);
  rep_word p : in_extent e p = true -> mem m (base p.1 + p.2) = denote (s_word s p);
  rep_frame a : ~ in_reach a -> mem m a = mem m0 a;
  rep_log : log m = log m0 ++ (denote_event <$> s_log s)
}.

Context (Hl : laid_out).

Lemma in_extent_spec p : in_extent e p = true ->
  0 <= base p.1 + p.2 /\ base p.1 + p.2 + 8 <= 2 ^ 64 /\ (base p.1 + p.2) mod 8 = 0 /\
  exists lo hi, e !! p.1 = Some (lo, hi) /\ lo <= p.2 /\ p.2 + 8 <= hi.
Proof.
  destruct p as [b o]. unfold in_extent. cbn. destruct (e !! b) as [[lo hi]|] eqn:E; [|done]. intros H. bool_prop.
  destruct (lo_bounds Hl b lo hi E). pose proof (lo_aligned Hl b (mk_is_Some _ _ E)).
  split_and!; [lia|lia|Z.to_euclidean_division_equations; lia|eauto].
Qed.

Lemma in_extent_inj p q : in_extent e p = true -> in_extent e q = true -> base p.1 + p.2 = base q.1 + q.2 -> p = q.
Proof.
  intros (_ & _ & _ & lo & hi & Hp & Hlo & Hhi)%in_extent_spec (_ & _ & _ & lo' & hi' & Hq & Hlo' & Hhi')%in_extent_spec Heq.
  destruct p as [b o], q as [c o']. cbn in *. destruct (decide (b = c)) as [->|Hne]; [f_equal; lia|].
  destruct (lo_apart Hl b c lo hi lo' hi' Hp Hq Hne); lia.
Qed.

Lemma s_address_sound s m r off p : rep s m -> s_address e s r off = Some p ->
  access m r off = Some (base p.1 + p.2) /\ in_extent e p = true.
Proof.
  intros Hr. unfold s_address, access. destruct (s_reg s r) as [| |b o|] eqn:Er; try done.
  pose proof (rep_reg _ _ Hr r) as Hv. rewrite Er in Hv. cbn in Hv.
  destruct (bool_decide _ && _) eqn:Esp; [done|]. destruct (in_extent e (b, o + off)) eqn:Ein; [|done]. intros [= <-].
  destruct (in_extent_spec _ Ein) as (H0 & H1 & H8 & lo & hi & Hb & _). cbn [fst snd] in *. split; [|done].
  assert (Hsp : (bool_decide (r = SP) && negb (regs m SP mod 16 =? 0)) = false).
  { case_bool_decide as E; [|done]. subst r. cbn [andb] in *. apply negb_false_iff, Z.eqb_eq in Esp. rewrite Hv. pose proof (lo_aligned Hl b (mk_is_Some _ _ Hb)) as Ha.
    rewrite <- (Znumtheory.Zmod_div_mod 16 (2 ^ 64)) by (try lia; by exists (2 ^ 60)).
    by rewrite Z.add_mod, Ha, Esp. }
  rewrite Hsp, Hv. unfold wrapping_add. rewrite Zplus_mod_idemp_l. rewrite (Z.mod_small _ (2 ^ 64)) by lia.
  replace (base b + o + off) with (base b + (o + off)) by lia. by rewrite H8.
Qed.

Lemma rep_set s m r v w : rep s m -> w = denote v -> rep (s_set r v s) (set_reg r w m).
Proof.
  intros [H1 H2 H3 H4] ->. split; cbn; try done. intros r'. unfold s_reg, s_set. cbn. destruct (decide (r' = r)); [done|apply H1].
Qed.

Lemma rep_put s m p v w : rep s m -> in_extent e p = true -> w = denote v -> rep (s_put p v s) (set_word (base p.1 + p.2) w m).
Proof.
  intros [H1 H2 H3 H4] Hp ->. split; cbn; try done.
  - intros q Hq. unfold s_word, s_put. cbn. destruct (Z.eqb_spec (base q.1 + q.2) (base p.1 + p.2)) as [E|Hne].
    + rewrite (in_extent_inj q p Hq Hp E), decide_True by done. done.
    + rewrite decide_False by (intros ->; done). by apply H2.
  - intros a Ha. destruct (Z.eqb_spec a (base p.1 + p.2)) as [->|]; [|auto]. destruct Ha. by exists p.
Qed.

Lemma rep_xval s m n : rep s m -> xval m n = denote (s_xval s n).
Proof. intros H. unfold xval, s_xval. destruct (n =? XZR)%nat; [done|apply H]. Qed.

Lemma s_stores_sound r l sl s m s' :
  rep s m -> Forall2 (fun w v => w.1 = v.1 /\ w.2 = denote v.2) l sl -> s_stores e r sl s = Some s' ->
  exists m', stores r l m = Some m' /\ rep s' m'.
Proof.
  intros Hr Hf. revert s m Hr. induction Hf as [|[o w] [o' v] l sl [Ho Hw] _ IH]; intros s m Hr; cbn in *; [intros [= <-]; eauto|].
  subst o' w. destruct (s_address e s r o) as [p|] eqn:Ea; [|done]. destruct (s_address_sound _ _ _ _ _ Hr Ea) as [Ha Hp].
  unfold store_word. rewrite Ha. intros H. apply (IH (s_put p v s)); [by apply rep_put|done].
Qed.

Lemma s_loads_sound r l s0 n0 s m s' :
  rep s0 n0 -> rep s m -> s_loads e r s0 l s = Some s' -> exists m', loads r n0 l m = Some m' /\ rep s' m'.
Proof.
  intros H0. revert s m. induction l as [|[o d] l IH]; intros s m Hr; cbn; [intros [= <-]; eauto|].
  destruct (s_address e s0 r o) as [p|] eqn:Ea; [|done]. destruct (s_address_sound _ _ _ _ _ H0 Ea) as [Ha Hp].
  unfold load_word. rewrite Ha. intros H. apply (IH (s_set d (s_word s0 p) s)); [|done]. apply rep_set; [done|]. by apply (rep_word _ _ H0).
Qed.

Lemma s_shift_sound s m r d v : rep s m -> s_shift (s_reg s r) d = Some v -> wrapping_add (regs m r) d = denote v.
Proof.
  intros Hr. rewrite (rep_reg _ _ Hr r). unfold s_shift, wrapping_add. destruct (s_reg s r); intros [= <-]; cbn; [|done].
  rewrite Zplus_mod_idemp_l. f_equal. lia.
Qed.

Lemma rep_wrote s m d v w : rep s m -> w = denote v -> rep (s_wrote d v s) (emit (Wrote d w) (set_reg (Sys d) w m)).
Proof.
  intros [H1 H2 H3 H4] ->. split; cbn; try done.
  - intros r'. unfold s_reg, s_wrote. cbn. destruct (decide (r' = Sys d)); [done|apply H1].
  - rewrite H4, fmap_app, <- app_assoc. done.
Qed.

Lemma rep_emit s m ev : rep s m -> rep (s_emit ev s) (emit ev m).
Proof. intros [H1 H2 H3 H4]. split; cbn; try done. rewrite H4, fmap_app, <- app_assoc. done. Qed.

#[local] Hint Resolve rep_set rep_wrote rep_emit rep_xval rep_reg : core.

Lemma sym1_sound i s m s' : rep s m -> sym1 e i s = Some s' -> exists m', execute1 i m = Some m' /\ rep s' m'.
Proof.
  intros Hr. assert (Hst2 : forall a b (o o' : Z), Forall2 (fun w v => w.1 = v.1 /\ w.2 = denote v.2)
    [(o, xval m a); (o', xval m b)] [(o, s_xval s a); (o', s_xval s b)]) by (intros; repeat constructor; cbn; auto).
  destruct i as [a b r o|a b r o|a b r o|a b r o|a b r o|a b r o|a r o|a r o|a r o|d r v|d r v|d r v|d v|d v k|d v|d r|d r|d r|d v|v| | | |];
    cbn [sym1 execute1]; try done; try (intros [= <-]; by eauto).
  - by apply s_stores_sound.
  - by apply s_loads_sound.
  - destruct (s_shift _ _) as [v|] eqn:Ev; [|done]. apply s_stores_sound; [|apply Hst2].
    apply rep_set; [done|]. by eapply s_shift_sound.
  - destruct (s_loads _ _ _ _ _) as [s1|] eqn:E1; [|done]. destruct (s_shift _ _) as [v|] eqn:Ev; [|done]. intros [= <-].
    destruct (s_loads_sound _ _ _ _ _ _ _ Hr Hr E1) as (m1 & -> & H1). eexists. split; [done|]. apply rep_set; [done|].
    by eapply s_shift_sound.
  - apply s_stores_sound; [done|]. repeat constructor; cbn; auto.
  - by apply s_loads_sound.
  - intros H. destruct (s_stores_sound r [(o, xval m a)] [(o, s_xval s a)] s m s' Hr) as (m' & E & H'); [repeat constructor; cbn; auto|done|].
    cbn in E. destruct (store_word m r o (xval m a)); [|done]. injection E as ->. by exists m'.
  - by apply s_loads_sound.
  - destruct (s_shift _ _) as [w|] eqn:Ev; [|done]. intros [= <-]. eexists. split; [done|]. apply rep_set; [done|]. by eapply s_shift_sound.
  - destruct (s_shift _ _) as [w|] eqn:Ev; [|done]. intros [= <-]. eexists. split; [done|]. apply rep_set; [done|].
    rewrite <- (s_shift_sound _ _ _ _ _ Hr Ev). done.
  - destruct (s_reg s (X d)) as [| | |z] eqn:Ez; try done. intros [= <-]. eexists. split; [done|]. apply rep_set; [done|].
    rewrite (rep_reg _ _ Hr), Ez. done.
Qed.

Lemma sym_run_sound l s m s' : rep s m -> sym_run e l s = Some s' -> exists m', execute l m = Some m' /\ rep s' m'.
Proof.
  revert s m. induction l as [|i l IH]; intros s m Hr; cbn; [intros [= <-]; eauto|].
  destruct (sym1 e i s) as [s1|] eqn:E1; [|done]. destruct (sym1_sound _ _ _ _ Hr E1) as (m1 & -> & H1). by apply IH.
Qed.

(** The state a block starts in, with what is known of it. *)
Definition known (s : sstate) : Prop :=
  Forall (fun p => regs m0 p.1 = denote p.2) (s_regs s) /\ Forall (fun p => in_extent e p.1 = true -> mem m0 (base p.1.1 + p.1.2) = denote p.2) (s_mem s) /\
  s_log s = [].

Lemma assoc_elem {A B} `{EqDecision A} (l : list (A * B)) a v : assoc l a = Some v -> (a, v) ∈ l.
Proof. induction l as [|[a' v'] l IH]; cbn; [done|]. destruct (decide (a = a')) as [->|]; [intros [= ->]; left|right; auto]. Qed.

Lemma known_rep s : known s -> rep s m0.
Proof.
  intros (Hr & Hm & Hg). rewrite Forall_forall in Hr. rewrite Forall_forall in Hm. split; [| |done|by rewrite Hg, app_nil_r].
  - intros r. unfold s_reg. destruct (assoc (s_regs s) r) as [v|] eqn:E; [|done]. apply assoc_elem in E. by apply (Hr (r, v)).
  - intros p Hp. unfold s_word. destruct (assoc (s_mem s) p) as [v|] eqn:E; [|done]. apply assoc_elem in E. by apply (Hm (p, v)).
Qed.
(** Words stay words. *)
Definition fits (v : sval) : bool := match v with Const z => (0 <=? z) && (z <? 2 ^ 64) | _ => true end.

Lemma rep_u64 s m :
  rep s m -> (forall r, u64 (regs m0 r)) -> (forall a, u64 (mem m0 a)) -> forallb (fun p => fits p.2) (s_regs s) = true ->
  forall r, u64 (regs m r).
Proof.
  intros Hr Hu Hw Hf r. rewrite (rep_reg _ _ Hr). rewrite forallb_forall in Hf. unfold s_reg.
  assert (Hd : forall v, fits v = true -> u64 (denote v)).
  { intros [| | |z] Hv; cbn; [apply Hu|apply Hw|apply Z.mod_pos_bound; lia|]. cbn in Hv. bool_prop. unfold u64. lia. }
  apply Hd. destruct (assoc (s_regs s) r) as [v|] eqn:E; [|done]. apply assoc_elem, list_elem_of_In in E. apply (Hf _ E).
Qed.
End Soundness.
