(* ===== verification/WorldSwitch.v ===== *)
(** * The world switch: src/src/vcpu.rs

    [__vcpu_run] saves the host's registers on its stack, loads the registers
    of a virtual CPU from its record and returns to the guest;
    [__vcpu_exit_handler] and [__vcpu_irq_handler] are where the guest comes
    back.  [world_switch_transparent] shows that the guest runs with exactly
    the registers of its record, that they are saved there again, and that to
    the host the whole excursion is a function call. *)

From S2P Require Import Prelude Gicv2 Vcpu Machine.

(** ** The code *)

Inductive exit_label := ExitCommon | NoContext.

Definition vcpu_run_body : list instr :=
  [StpPre 19 20 SP (-16); StpPre 21 22 SP (-16); StpPre 23 24 SP (-16);
   StpPre 25 26 SP (-16); StpPre 27 28 SP (-16); StpPre 29 30 SP (-16);
   Sub SP SP 528;
   StpQ 0 1 SP 0; StpQ 2 3 SP 32; StpQ 4 5 SP 64; StpQ 6 7 SP 96;
   StpQ 8 9 SP 128; StpQ 10 11 SP 160; StpQ 12 13 SP 192; StpQ 14 15 SP 224;
   StpQ 16 17 SP 256; StpQ 18 19 SP 288; StpQ 20 21 SP 320; StpQ 22 23 SP 352;
   StpQ 24 25 SP 384; StpQ 26 27 SP 416; StpQ 28 29 SP 448; StpQ 30 31 SP 480;
   Mrs 9 FPCR; Str 9 SP 512; Mrs 9 FPSR; Str 9 SP 520;
   Mrs 9 TPIDR_EL2; Mov (X 10) SP; Str 10 (X 9) 0;
   Mrs 9 TPIDR_EL2; Str 0 (X 9) 8;
   Ldr 9 (X 0) 280; Msr SCTLR_EL1 9; Ldr 9 (X 0) 288; Msr CPACR_EL1 9; Ldr 9 (X 0) 296; Msr TTBR0_EL1 9;
   Ldr 9 (X 0) 304; Msr TTBR1_EL1 9; Ldr 9 (X 0) 312; Msr TCR_EL1 9; Ldr 9 (X 0) 320; Msr MAIR_EL1 9;
   Ldr 9 (X 0) 328; Msr VBAR_EL1 9; Ldr 9 (X 0) 336; Msr CONTEXTIDR_EL1 9; Ldr 9 (X 0) 344; Msr TPIDR_EL1 9;
   Ldr 9 (X 0) 352; Msr TPIDRRO_EL0 9;
   LdpQ 0 1 (X 0) 368; LdpQ 2 3 (X 0) 400; LdpQ 4 5 (X 0) 432; LdpQ 6 7 (X 0) 464;
   LdpQ 8 9 (X 0) 496; LdpQ 10 11 (X 0) 528; LdpQ 12 13 (X 0) 560; LdpQ 14 15 (X 0) 592;
   LdpQ 16 17 (X 0) 624; LdpQ 18 19 (X 0) 656; LdpQ 20 21 (X 0) 688; LdpQ 22 23 (X 0) 720;
   LdpQ 24 25 (X 0) 752; LdpQ 26 27 (X 0) 784; LdpQ 28 29 (X 0) 816; LdpQ 30 31 (X 0) 848;
   Ldr 9 (X 0) 880; Msr FPCR 9; Ldr 9 (X 0) 888; Msr FPSR 9;
   Ldr 9 (X 0) 928; Msr CNTVOFF_EL2 9; Ldr 9 (X 0) 936; Msr CNTV_CVAL_EL0 9; Ldr 9 (X 0) 944; Msr CNTV_CTL_EL0 9;
   Ldr 9 (X 0) 248; Msr SP_EL0 9; Ldr 9 (X 0) 256; Msr SP_EL1 9;
   Ldr 9 (X 0) 264; Msr ELR_EL2 9; Ldr 9 (X 0) 272; Msr SPSR_EL2 9;
   Ldp 2 3 (X 0) 16; Ldp 4 5 (X 0) 32; Ldp 6 7 (X 0) 48; Ldp 8 9 (X 0) 64; Ldp 10 11 (X 0) 80;
   Ldp 12 13 (X 0) 96; Ldp 14 15 (X 0) 112; Ldp 16 17 (X 0) 128; Ldp 18 19 (X 0) 144; Ldp 20 21 (X 0) 160;
   Ldp 22 23 (X 0) 176; Ldp 24 25 (X 0) 192; Ldp 26 27 (X 0) 208; Ldp 28 29 (X 0) 224;
   Ldr 30 (X 0) 240; Ldp 0 1 (X 0) 0;
   Isb].

Definition vcpu_run : code exit_label Empty_set := Block vcpu_run_body Eret.

(** The prologue of both handlers; [vector] is the number it notes. *)
Definition exit_prologue (vector : Z) : list instr :=
  [Sub SP SP 32; Stp 0 1 SP 0; MovI 0 vector; Str 0 SP 16].

Definition vcpu_exit_handler : code exit_label Empty_set := Block (exit_prologue 8) (Goto ExitCommon).
Definition vcpu_irq_handler : code exit_label Empty_set := Block (exit_prologue 9) (Goto ExitCommon).

Definition find_context : list instr := [Mrs 0 TPIDR_EL2; Ldr 0 (X 0) 8].

Definition leave_guest : list instr :=
  [StpQ 0 1 (X 0) 368; StpQ 2 3 (X 0) 400; StpQ 4 5 (X 0) 432; StpQ 6 7 (X 0) 464;
   StpQ 8 9 (X 0) 496; StpQ 10 11 (X 0) 528; StpQ 12 13 (X 0) 560; StpQ 14 15 (X 0) 592;
   StpQ 16 17 (X 0) 624; StpQ 18 19 (X 0) 656; StpQ 20 21 (X 0) 688; StpQ 22 23 (X 0) 720;
   StpQ 24 25 (X 0) 752; StpQ 26 27 (X 0) 784; StpQ 28 29 (X 0) 816; StpQ 30 31 (X 0) 848;
   Mrs 1 FPCR; Str 1 (X 0) 880; Mrs 1 FPSR; Str 1 (X 0) 888;
   Stp 2 3 (X 0) 16; Stp 4 5 (X 0) 32; Stp 6 7 (X 0) 48; Stp 8 9 (X 0) 64;
   Ldp 1 2 SP 0; Stp 1 2 (X 0) 0; Ldr 3 SP 16; Add SP SP 32;
   Stp 10 11 (X 0) 80; Stp 12 13 (X 0) 96; Stp 14 15 (X 0) 112; Stp 16 17 (X 0) 128; Stp 18 19 (X 0) 144;
   Stp 20 21 (X 0) 160; Stp 22 23 (X 0) 176; Stp 24 25 (X 0) 192; Stp 26 27 (X 0) 208; Stp 28 29 (X 0) 224;
   Str 30 (X 0) 240;
   Mrs 1 SP_EL0; Str 1 (X 0) 248; Mrs 1 SP_EL1; Str 1 (X 0) 256;
   Mrs 1 ELR_EL2; Str 1 (X 0) 264; Mrs 1 SPSR_EL2; Str 1 (X 0) 272;
   Mrs 1 SCTLR_EL1; Str 1 (X 0) 280; Mrs 1 CPACR_EL1; Str 1 (X 0) 288; Mrs 1 TTBR0_EL1; Str 1 (X 0) 296;
   Mrs 1 TTBR1_EL1; Str 1 (X 0) 304; Mrs 1 TCR_EL1; Str 1 (X 0) 312; Mrs 1 MAIR_EL1; Str 1 (X 0) 320;
   Mrs 1 VBAR_EL1; Str 1 (X 0) 328; Mrs 1 CONTEXTIDR_EL1; Str 1 (X 0) 336; Mrs 1 TPIDR_EL1; Str 1 (X 0) 344;
   Mrs 1 TPIDRRO_EL0; Str 1 (X 0) 352;
   Mrs 1 CNTVOFF_EL2; Str 1 (X 0) 928; Mrs 1 CNTV_CVAL_EL0; Str 1 (X 0) 936; Mrs 1 CNTV_CTL_EL0; Str 1 (X 0) 944;
   Add (X 1) (X 0) 896;
   Str 3 (X 1) 0; Mrs 2 ESR_EL2; Str 2 (X 1) 8; Mrs 2 FAR_EL2; Str 2 (X 1) 16; Mrs 2 HPFAR_EL2; Str 2 (X 1) 24;
   Mrs 9 TPIDR_EL2; Ldr 10 (X 9) 0; Str XZR (X 9) 8; Mov SP (X 10);
   LdpQ 0 1 SP 0; LdpQ 2 3 SP 32; LdpQ 4 5 SP 64; LdpQ 6 7 SP 96;
   LdpQ 8 9 SP 128; LdpQ 10 11 SP 160; LdpQ 12 13 SP 192; LdpQ 14 15 SP 224;
   LdpQ 16 17 SP 256; LdpQ 18 19 SP 288; LdpQ 20 21 SP 320; LdpQ 22 23 SP 352;
   LdpQ 24 25 SP 384; LdpQ 26 27 SP 416; LdpQ 28 29 SP 448; LdpQ 30 31 SP 480;
   Ldr 9 SP 512; Msr FPCR 9; Ldr 9 SP 520; Msr FPSR 9; Add SP SP 528;
   LdpPost 29 30 SP 16; LdpPost 27 28 SP 16; LdpPost 25 26 SP 16;
   LdpPost 23 24 SP 16; LdpPost 21 22 SP 16; LdpPost 19 20 SP 16;
   Mov (X 0) (X 3)].

Definition exit_code (l : exit_label) : code exit_label Empty_set :=
  match l with
  | ExitCommon => Block find_context (Cbz 0 NoContext (Block leave_guest Return))
  | NoContext => Block [Wfe] (Goto NoContext)
  end.

(** ** Specification *)

(** Where [Vcpu] keeps each register of the guest. *)
Definition system_fields : list (Z * reg) :=
  [(248, Sys SP_EL0); (256, Sys SP_EL1); (264, Sys ELR_EL2); (272, Sys SPSR_EL2);
   (280, Sys SCTLR_EL1); (288, Sys CPACR_EL1); (296, Sys TTBR0_EL1); (304, Sys TTBR1_EL1); (312, Sys TCR_EL1);
   (320, Sys MAIR_EL1); (328, Sys VBAR_EL1); (336, Sys CONTEXTIDR_EL1); (344, Sys TPIDR_EL1); (352, Sys TPIDRRO_EL0);
   (880, Sys FPCR); (888, Sys FPSR); (928, Sys CNTVOFF_EL2); (936, Sys CNTV_CVAL_EL0); (944, Sys CNTV_CTL_EL0)].

Definition guest_fields : list (Z * reg) :=
  ((fun n => (8 * Z.of_nat n, X n)) <$> seq 0 31) ++
  ((fun n => (368 + 16 * Z.of_nat n, V n false)) <$> seq 0 32) ++
  ((fun n => (376 + 16 * Z.of_nat n, V n true)) <$> seq 0 32) ++ system_fields.

(** The word of a vCPU a register is loaded from. *)
Definition vcpu_word (v : Vcpu) (r : reg) : option Z :=
  let c := context v in
  match r with
  | X n => Vcpu.x c !! n
  | V n high => (fun w => if high : bool then Z.shiftr w 64 else Z.land w (Z.ones 64)) <$> Vcpu.q c !! n
  | Sys SP_EL0 => Some (sp_el0 c)
  | Sys SP_EL1 => Some (sp_el1 c)
  | Sys ELR_EL2 => Some (elr_el2 c)
  | Sys SPSR_EL2 => Some (spsr_el2 c)
  | Sys SCTLR_EL1 => Some (sctlr_el1 (sysregs c))
  | Sys CPACR_EL1 => Some (cpacr_el1 (sysregs c))
  | Sys TTBR0_EL1 => Some (ttbr0_el1 (sysregs c))
  | Sys TTBR1_EL1 => Some (ttbr1_el1 (sysregs c))
  | Sys TCR_EL1 => Some (tcr_el1 (sysregs c))
  | Sys MAIR_EL1 => Some (mair_el1 (sysregs c))
  | Sys VBAR_EL1 => Some (vbar_el1 (sysregs c))
  | Sys CONTEXTIDR_EL1 => Some (contextidr_el1 (sysregs c))
  | Sys TPIDR_EL1 => Some (tpidr_el1 (sysregs c))
  | Sys TPIDRRO_EL0 => Some (tpidrro_el0 (sysregs c))
  | Sys FPCR => Some (fpcr c)
  | Sys FPSR => Some (fpsr c)
  | Sys CNTVOFF_EL2 => Some (cntvoff_el2 (timer v))
  | Sys CNTV_CVAL_EL0 => Some (cntv_cval_el0 (timer v))
  | Sys CNTV_CTL_EL0 => Some (cntv_ctl_el0 (timer v))
  | _ => None
  end.

(** [v] is what memory holds at [p]; the words of the virtual interrupt
    controller lie behind the ones the assembly knows. *)
Record vcpu_at (m : machine) (p : Z) (v : Vcpu) : Prop := {
  va_fields o r : (o, r) ∈ guest_fields -> vcpu_word v r = Some (mem m (p + o));
  va_exit : exit v = mkExit (mem m (p + 896)) (mem m (p + 904)) (mem m (p + 912)) (mem m (p + 920));
  va_gic : gic v = mkVgic (mem m (p + 952)) (mem m (p + 960)) (mem m (p + 968))
}.

(** The registers hold [v]. *)
Definition loaded (m : machine) (v : Vcpu) : Prop := forall o r, (o, r) ∈ guest_fields -> vcpu_word v r = Some (regs m r).

(** The vCPU whose registers the processor holds when the guest leaves. *)
Definition captured (m : machine) (vec : Z) (g : VirtualGicV2State) : Vcpu :=
  let r s := regs m (Sys s) in
  mkVcpu
    (mkContext ((fun n => regs m (X n)) <$> seq 0 31) (r SP_EL0) (r SP_EL1) (r ELR_EL2) (r SPSR_EL2)
       (mkSysRegs (r SCTLR_EL1) (r CPACR_EL1) (r TTBR0_EL1) (r TTBR1_EL1) (r TCR_EL1) (r MAIR_EL1) (r VBAR_EL1)
          (r CONTEXTIDR_EL1) (r TPIDR_EL1) (r TPIDRRO_EL0))
       ((fun n => Z.lor (regs m (V n false)) (Z.shiftl (regs m (V n true)) 64)) <$> seq 0 32) (r FPCR) (r FPSR))
    (mkExit vec (r ESR_EL2) (r FAR_EL2) (r HPFAR_EL2))
    (mkTimer (r CNTVOFF_EL2) (r CNTV_CVAL_EL0) (r CNTV_CTL_EL0)) g.

(** What the host relies on across the call. *)
Definition host_registers : list reg :=
  (X <$> seq 19 12) ++ [SP; Sys FPCR; Sys FPSR; Sys TPIDR_EL2] ++
  ((fun n => V n false) <$> seq 0 32) ++ ((fun n => V n true) <$> seq 0 32).

(** The stack, the vCPU and the CPU's own context; the exit handlers go 32
    bytes deeper into the stack than the entry. *)
Definition switch_extents : extents := [(-656, 0); (0, 976); (0, 16)].

Definition bases (stack vcpu pcpu : Z) (n : nat) : Z := match n with 0%nat => stack | 1%nat => vcpu | _ => pcpu end.

Record switch_ready (m : machine) (stack vcpu pcpu : Z) : Prop := {
  sr_regs r : u64 (regs m r);
  sr_sp : regs m SP = stack;
  sr_vcpu : regs m (X 0) = vcpu /\ vcpu <> 0;
  sr_pcpu : regs m (Sys TPIDR_EL2) = pcpu;
  sr_laid : laid_out switch_extents (bases stack vcpu pcpu)
}.

(** What may happen while the guest runs: it changes its own registers and
    memory, but neither SP_EL2 nor TPIDR_EL2, nor the memory of the host. *)
Record guest_ran (m m' : machine) (stack vcpu pcpu : Z) : Prop := {
  gr_regs r : u64 (regs m' r);
  gr_sp : regs m' SP = regs m SP;
  gr_pcpu : regs m' (Sys TPIDR_EL2) = regs m (Sys TPIDR_EL2);
  gr_mem a : in_reach switch_extents (bases stack vcpu pcpu) a -> mem m' a = mem m a
}.

(** Nothing but synchronisation after the last write of a system register. *)
Definition synchronised (l : list mevent) : Prop := exists before, l = before ++ [Synchronised].

(** ** Symbolic runs *)

Notation sym := (sym_run switch_extents).

Definition at_entry : sstate := mkSym [(SP, At 0 0); (X 0, At 1 0); (Sys TPIDR_EL2, At 2 0)] [] [].
Definition at_exit : sstate :=
  mkSym [(SP, At 0 (-624)); (Sys TPIDR_EL2, At 2 0)] [((2%nat, 0), At 0 (-624)); ((2%nat, 8), At 1 0)] [].

Definition sym_entered : sstate := default at_entry (sym vcpu_run_body at_entry).
Definition sym_found (vec : Z) : sstate := default at_exit (sym (exit_prologue vec ++ find_context) at_exit).
Definition sym_left (vec : Z) : sstate := default at_exit (sym leave_guest (sym_found vec)).

(** A register the exit restores to what it was at entry: from the word the
    entry saved it in, or because it is an address that did not move. *)
Definition restored (vec : Z) (r : reg) : bool :=
  match s_reg (sym_left vec) r with
  | Word0 b o => in_extent switch_extents (b, o) && bool_decide (s_word sym_entered (b, o) = Reg0 r)
  | At b o => bool_decide (s_reg at_entry r = At b o)
  | _ => false
  end.

Definition exit_word (vec : Z) : list (Z * sval) :=
  [(896, Const vec); (904, Reg0 (Sys ESR_EL2)); (912, Reg0 (Sys FAR_EL2)); (920, Reg0 (Sys HPFAR_EL2));
   (952, Word0 1 952); (960, Word0 1 960); (968, Word0 1 968)].

(** What the run of [vcpu_run_body] comes to. *)
Record entry_checked : Prop := {
  ec_run : sym vcpu_run_body at_entry = Some sym_entered;
  ec_fields : forallb (fun f => bool_decide (s_reg sym_entered f.2 = Word0 1 f.1) && in_extent switch_extents (1%nat, f.1)) guest_fields = true;
  ec_sp : s_reg sym_entered SP = At 0 (-624);
  ec_tpidr : s_reg sym_entered (Sys TPIDR_EL2) = At 2 0;
  ec_host_sp : s_word sym_entered (2%nat, 0) = At 0 (-624);
  ec_active : s_word sym_entered (2%nat, 8) = At 1 0;
  ec_gic : s_word sym_entered (1%nat, 952) = Word0 1 952 /\ s_word sym_entered (1%nat, 960) = Word0 1 960 /\
           s_word sym_entered (1%nat, 968) = Word0 1 968;
  ec_fits : forallb (fun p => fits p.2) (s_regs sym_entered) = true;
  ec_log : last (s_log sym_entered) = Some (inr Synchronised)
}.

Lemma sym_entry_ok : entry_checked.
Proof. split; try (split_and!); vm_compute; reflexivity. Qed.

Record exit_checked (vec : Z) : Prop := {
  xc_found : sym (exit_prologue vec ++ find_context) at_exit = Some (sym_found vec);
  xc_run : sym leave_guest (sym_found vec) = Some (sym_left vec);
  xc_vcpu : s_reg (sym_found vec) (X 0) = At 1 0;
  xc_host : forallb (restored vec) host_registers = true;
  xc_fields : forallb (fun f => bool_decide (s_word (sym_left vec) (1%nat, f.1) = Reg0 f.2)) guest_fields = true;
  xc_words : forallb (fun f => bool_decide (s_word (sym_left vec) (1%nat, f.1) = f.2) && in_extent switch_extents (1%nat, f.1)) (exit_word vec) = true;
  xc_vector : s_reg (sym_left vec) (X 0) = Const vec;
  xc_idle : s_word (sym_left vec) (2%nat, 8) = Const 0
}.

Lemma sym_exit_ok vec : vec = 8 \/ vec = 9 -> exit_checked vec.
Proof. intros [-> | ->]; split; vm_compute; reflexivity. Qed.

#[local] Opaque sym_entered sym_found sym_left.

(** ** Lemmas *)

Lemma guest_fields_elem o r :
  (o, r) ∈ guest_fields ->
  (exists n, (n < 31)%nat /\ r = X n) \/ (exists n high, (n < 32)%nat /\ r = V n high) \/ (o, r) ∈ system_fields.
Proof.
  unfold guest_fields. rewrite !elem_of_app, !list_elem_of_fmap.
  intros [(n & [= -> ->] & Hn%elem_of_seq)|[(n & [= -> ->] & Hn%elem_of_seq)|[(n & [= -> ->] & Hn%elem_of_seq)|Hs]]];
    [left; exists n; split; [lia|done]|right; left; eexists n, _; split; [lia|done]..|by right; right].
Qed.

(** The registers of a captured vCPU are the processor's. *)
Lemma captured_loaded m vec g : (forall r, u64 (regs m r)) -> loaded m (captured m vec g).
Proof.
  intros Hu o r [(n & Hn & ->)|[(n & high & Hn & ->)|Hs]]%guest_fields_elem.
  - unfold vcpu_word, captured. cbn [context Vcpu.x]. by rewrite list_lookup_fmap, lookup_seq_lt by done.
  - unfold vcpu_word, captured. cbn [context Vcpu.q]. rewrite list_lookup_fmap, lookup_seq_lt by done.
    rewrite Nat.add_0_l. cbn [fmap option_fmap option_map]. f_equal. pose proof (Hu (V n false)). destruct high.
    + rewrite Z.shiftr_lor, Z.shiftr_shiftl_l by lia. rewrite Z.shiftr_div_pow2, Z.div_small by (unfold u64 in *; lia).
      by rewrite Z.shiftl_0_r.
    + rewrite Z.land_lor_distr_l, u64_land_ones by done. rewrite Z.land_ones by lia. rewrite Z.shiftl_mul_pow2, Z.mod_mul by lia.
      by rewrite Z.lor_0_r.
  - unfold system_fields in Hs. repeat (apply elem_of_cons in Hs as [[= -> ->]|Hs]; [done|]). by apply elem_of_nil in Hs.
Qed.

Section Switch.
Context (m0 : machine) (stack vcpu pcpu : Z) (Hready : switch_ready m0 stack vcpu pcpu).
Notation base := (bases stack vcpu pcpu).

Lemma entry_known : known switch_extents base m0 at_entry.
Proof using Hready.
  destruct Hready as [Hu Hsp [Hv _] Hp _]. split_and!; [|constructor|done].
  repeat constructor; cbn; rewrite ?Z.add_0_r, Z.mod_small; subst; auto; apply Hu.
Qed.

Lemma base_word o : base 1%nat + o = vcpu + o.
Proof. done. Qed.

(** The guest is entered with its record loaded. *)
Lemma entered v :
  vcpu_at m0 vcpu v ->
  exists m1, execute vcpu_run_body m0 = Some m1 /\ rep switch_extents base m0 sym_entered m1 /\ loaded m1 v /\ synchronised (log m1).
Proof using Hready.
  intros [Hf _ _]. destruct sym_entry_ok as [E Hc _ _ _ _ _ _ Hlog].
  destruct (sym_run_sound _ _ _ (sr_laid _ _ _ _ Hready) _ _ _ _ (known_rep _ _ _ _ entry_known) E) as (m1 & E1 & H1).
  exists m1. split_and!; [done|done| |].
  - intros o r Hin. rewrite (Hf o r Hin), (rep_reg _ _ _ _ _ H1). rewrite forallb_forall in Hc.
    specialize (Hc (o, r) (proj1 (list_elem_of_In _ _) Hin)). cbn [fst snd] in Hc.
    apply andb_true_iff in Hc as [Hc%bool_decide_eq_true _]. by rewrite Hc.
  - apply last_Some in Hlog as [l Hl]. exists (log m0 ++ (denote_event base m0 <$> l)).
    by rewrite (rep_log _ _ _ _ _ H1), Hl, fmap_app, app_assoc.
Qed.

Lemma entered_u64 v m1 :
  vcpu_at m0 vcpu v -> run exit_code 0 vcpu_run m0 = ExceptionReturn m1 -> (forall a, u64 (mem m0 a)) -> forall r, u64 (regs m1 r).
Proof using Hready.
  intros Hv E Hw. destruct (entered v Hv) as (m1' & E1 & H1 & _). cbn [run vcpu_run] in E. rewrite E1 in E. injection E as <-.
  exact (rep_u64 _ _ _ _ _ H1 (sr_regs _ _ _ _ Hready) Hw (ec_fits sym_entry_ok)).
Qed.

Context (m1 m2 : machine) (H1 : rep switch_extents base m0 sym_entered m1) (Hg : guest_ran m1 m2 stack vcpu pcpu).

Lemma host_word p v : s_word sym_entered p = v -> in_extent switch_extents p = true -> mem m2 (base p.1 + p.2) = denote base m0 v.
Proof using H1 Hg. intros <- Hp. rewrite (gr_mem _ _ _ _ _ Hg) by by exists p. by apply (rep_word _ _ _ _ _ H1). Qed.

Lemma exit_known : known switch_extents base m2 at_exit.
Proof using H1 Hg.
  destruct sym_entry_ok as [_ _ Hsp Htp Ha Hb _ _ _]. split_and!; [| |done];
    repeat apply Forall_cons_2; try apply Forall_nil_2; cbn [fst snd]; try intros Hin.
  - by rewrite (gr_sp _ _ _ _ _ Hg), (rep_reg _ _ _ _ _ H1), Hsp.
  - by rewrite (gr_pcpu _ _ _ _ _ Hg), (rep_reg _ _ _ _ _ H1), Htp.
  - exact (host_word (2%nat, 0) _ Ha Hin).
  - exact (host_word (2%nat, 8) _ Hb Hin).
Qed.

Lemma vcpu_nonzero : (base 1%nat + 0) mod 2 ^ 64 =? 0 = false.
Proof using Hready.
  destruct (sr_vcpu _ _ _ _ Hready) as [Hv Hne]. apply Z.eqb_neq. cbn [bases].
  rewrite Z.add_0_r, Z.mod_small by (rewrite <- Hv; apply (sr_regs _ _ _ _ Hready)). done.
Qed.

(** Either handler runs to its end. *)
Lemma left_run vec k :
  exit_checked vec ->
  exists m3, run exit_code (S k) (Block (exit_prologue vec) (Goto ExitCommon)) m2 = Returned m3 /\
    rep switch_extents base m2 (sym_left vec) m3.
Proof using H1 Hg Hready.
  intros [E2 E3 Hx0 _ _ _ _ _]. pose proof (sr_laid _ _ _ _ Hready) as Hl.
  destruct (sym_run_sound _ _ _ Hl _ _ _ _ (known_rep _ _ _ _ exit_known) E2) as (ma & (mb & Ea & Eb)%execute_app & Ha).
  destruct (sym_run_sound _ _ _ Hl _ _ _ _ Ha E3) as (m3 & E4 & H3). exists m3. split; [|done].
  cbn [run]. rewrite Ea. cbn [exit_code]. destruct k; cbn [run]; rewrite Eb; unfold xval; cbn [Nat.eqb XZR];
    rewrite (rep_reg _ _ _ _ _ Ha), Hx0; cbn [denote]; rewrite vcpu_nonzero; by rewrite E4.
Qed.

(** What the host relies on is as before the call. *)
Lemma host_restored vec m3 r :
  exit_checked vec -> rep switch_extents base m2 (sym_left vec) m3 -> r ∈ host_registers -> regs m3 r = regs m0 r.
Proof using H1 Hg Hready.
  intros Hx H3 Hr. pose proof (xc_host _ Hx) as Hc. rewrite forallb_forall in Hc.
  specialize (Hc r (proj1 (list_elem_of_In _ _) Hr)). unfold restored in Hc. rewrite (rep_reg _ _ _ _ _ H3).
  destruct (s_reg (sym_left vec) r) as [|b o|b o|]; [done| | |done].
  - apply andb_true_iff in Hc as [Hin Hw%bool_decide_eq_true]. exact (host_word (b, o) _ Hw Hin).
  - apply bool_decide_eq_true in Hc. pose proof (rep_reg _ _ _ _ _ (known_rep _ _ _ _ entry_known) r) as Hr0.
    rewrite Hc in Hr0. by rewrite Hr0.
Qed.

(** The record holds the guest as it left. *)
Lemma guest_saved vec m3 v :
  exit_checked vec -> rep switch_extents base m2 (sym_left vec) m3 -> vcpu_at m0 vcpu v ->
  vcpu_at m3 vcpu (captured m2 vec (gic v)).
Proof using H1 Hg Hready.
  intros Hx H3 Hv. assert (Hwords : Forall (fun f => mem m3 (vcpu + f.1) = denote base m2 f.2) (exit_word vec)).
  { apply Forall_forall. intros f Hf. pose proof (xc_words _ Hx) as Hc. rewrite forallb_forall in Hc.
    specialize (Hc f (proj1 (list_elem_of_In _ _) Hf)). apply andb_true_iff in Hc as [Hw%bool_decide_eq_true Hin].
    rewrite <- Hw. exact (rep_word _ _ _ _ _ H3 (1%nat, f.1) Hin). }
  unfold exit_word in Hwords. rewrite !Forall_cons in Hwords. cbn [fst snd denote bases] in Hwords.
  destruct Hwords as (E0 & E1 & E2 & E3 & E4 & E5 & E6 & _). split.
  - intros o r Hin. rewrite (captured_loaded m2 vec (gic v) (gr_regs _ _ _ _ _ Hg) o r Hin). f_equal. symmetry.
    pose proof (xc_fields _ Hx) as Hc. pose proof (ec_fields sym_entry_ok) as Hi. rewrite forallb_forall in Hc, Hi.
    specialize (Hc (o, r) (proj1 (list_elem_of_In _ _) Hin)). specialize (Hi (o, r) (proj1 (list_elem_of_In _ _) Hin)).
    cbn [fst snd] in *. apply bool_decide_eq_true in Hc. apply andb_true_iff in Hi as [_ Hi].
    transitivity (denote base m2 (s_word (sym_left vec) (1%nat, o))); [exact (rep_word _ _ _ _ _ H3 (1%nat, o) Hi)|by rewrite Hc].
  - cbn [captured exit]. by rewrite E0, E1, E2, E3.
  - cbn [captured gic]. rewrite (va_gic _ _ _ Hv), E4, E5, E6. destruct (ec_gic sym_entry_ok) as (G0 & G1 & G2).
    f_equal; symmetry; [exact (host_word (1%nat, 952) _ G0 eq_refl)|exact (host_word (1%nat, 960) _ G1 eq_refl)|exact (host_word (1%nat, 968) _ G2 eq_refl)].
Qed.
End Switch.

(** ** Theorem *)

(** C4 [world_switch_transparent]: called with a vCPU in memory, [__vcpu_run]
    returns to the guest with every register of the vCPU loaded from its field
    and the register writes synchronised.  However the guest changes its
    registers, when it comes back through either handler the vCPU in memory
    has the guest's registers, the syndrome and the vector of the exit, and its
    virtual interrupt controller as before; the call returns the vector, to
    the host's stack and return address with the host's callee-saved, floating
    point and thread registers as they were; no vCPU is active and no word
    outside the stack, the vCPU and the CPU's context has changed. *)
Theorem world_switch_transparent m0 stack vcpu pcpu v :
  switch_ready m0 stack vcpu pcpu -> vcpu_at m0 vcpu v ->
  exists m1, run exit_code 0 vcpu_run m0 = ExceptionReturn m1 /\ loaded m1 v /\ synchronised (log m1) /\
    forall m2 handler vec, guest_ran m1 m2 stack vcpu pcpu ->
      (handler, vec) ∈ [(vcpu_exit_handler, 8); (vcpu_irq_handler, 9)] ->
      exists m3, run exit_code 1 handler m2 = Returned m3 /\ regs m3 (X 0) = vec /\
        vcpu_at m3 vcpu (captured m2 vec (gic v)) /\ mem m3 (pcpu + 8) = 0 /\
        (forall r, r ∈ host_registers -> regs m3 r = regs m0 r) /\
        forall a, ~ in_reach switch_extents (bases stack vcpu pcpu) a -> mem m3 a = mem m2 a.
Proof.
  intros Hr Hv. destruct (entered _ _ _ _ Hr v Hv) as (m1 & E1 & H1 & Hload & Hsync). exists m1.
  split_and!; [cbn [run vcpu_run]; by rewrite E1|done|done|]. intros m2 handler vec Hg Hin.
  assert (Hh : (vec = 8 \/ vec = 9) /\ handler = Block (exit_prologue vec) (Goto ExitCommon)).
  { apply elem_of_cons in Hin as [[= -> ->]|[[= -> ->]|Hin%elem_of_nil]%elem_of_cons]; [by split; [left|]|by split; [right|]|done]. }
  destruct Hh as [Hvec ->]. pose proof (sym_exit_ok vec Hvec) as Hx.
  destruct (left_run _ _ _ _ Hr m1 m2 H1 Hg vec 0 Hx) as (m3 & E3 & H3). exists m3. split_and!; [done|..].
  - by rewrite (rep_reg _ _ _ _ _ H3), (xc_vector _ Hx).
  - by eapply guest_saved.
  - transitivity (denote (bases stack vcpu pcpu) m2 (s_word (sym_left vec) (2%nat, 8))); [exact (rep_word _ _ _ _ _ H3 (2%nat, 8) eq_refl)|].
    by rewrite (xc_idle _ Hx).
  - intros r Hin'. by eapply host_restored.
  - apply (rep_frame _ _ _ _ _ H3).
Qed.

(** ** Concrete instance *)

(** A host about to run a vCPU that has not run yet. *)
Definition host_machine : machine :=
  mkMachine (fun r => if decide (r = SP) then 0x80000 else if decide (r = X 0) then 0x90000
                      else if decide (r = Sys TPIDR_EL2) then 0xa0000 else if decide (r = X 19) then 19 else 0)
    (fun _ => 0) [].

Definition fresh_vcpu : Vcpu :=
  mkVcpu (mkContext (replicate 31 0) 0 0 0 0 (mkSysRegs 0 0 0 0 0 0 0 0 0 0) (replicate 32 0) 0 0) (mkExit 0 0 0 0) (mkTimer 0 0 0)
    (mkVgic 0 0 0).

Lemma host_machine_ready : switch_ready host_machine 0x80000 0x90000 0xa0000.
Proof.
  split; [|done..|].
  - intros r. cbn. unfold u64. repeat case_decide; lia.
  - split.
    + intros [|[|[|b]]] lo hi [= <- <-]; cbn; lia.
    + intros [|[|[|b]]] [? [=]]; done.
    + intros [|[|[|b]]] [|[|[|c]]] lo hi lo' hi' [= <- <-] [= <- <-] Hne; cbn; (done || lia).
Qed.

Lemma fresh_vcpu_at : vcpu_at host_machine 0x90000 fresh_vcpu.
Proof.
  split; [|done..]. intros o r [(n & Hn & ->)|[(n & high & Hn & ->)|Hs]]%guest_fields_elem.
  - unfold vcpu_word, fresh_vcpu. cbn [context Vcpu.x]. by rewrite lookup_replicate_2.
  - unfold vcpu_word, fresh_vcpu. cbn [context Vcpu.q]. rewrite lookup_replicate_2 by done. by destruct high.
  - unfold system_fields in Hs. repeat (apply elem_of_cons in Hs as [[= -> ->]|Hs]; [done|]). by apply elem_of_nil in Hs.
Qed.

(** A guest that only changes x5: the vCPU has it, and the host gets x19 back. *)
Lemma world_switch_transparent_witness :
  exists m1 m3, run exit_code 0 vcpu_run host_machine = ExceptionReturn m1 /\
    run exit_code 1 vcpu_irq_handler (set_reg (X 5) 7 m1) = Returned m3 /\ mem m3 (0x90000 + 40) = 7 /\ regs m3 (X 19) = 19.
Proof.
  destruct (world_switch_transparent host_machine 0x80000 0x90000 0xa0000 fresh_vcpu host_machine_ready fresh_vcpu_at)
    as (m1 & E1 & Hl & _ & Hback).
  assert (Hu : forall r, u64 (regs (set_reg (X 5) 7 m1) r)).
  { intros r. cbn [set_reg regs]. case_decide; [unfold u64; lia|].
    apply (entered_u64 _ _ _ _ host_machine_ready _ _ fresh_vcpu_at E1). intros a. cbn. unfold u64. lia. }
  destruct (Hback (set_reg (X 5) 7 m1) vcpu_irq_handler 9) as (m3 & E3 & _ & Hv & _ & Hh & _); [by split|by right; left|].
  exists m1, m3. split_and!; [done|done| |].
  - pose proof (va_fields _ _ _ Hv 40 (X 5)) as H. assert (Some 7 = Some (mem m3 (0x90000 + 40))) as [= <-]; [|done].
    rewrite <- H; [done|]. apply elem_of_app. left. apply list_elem_of_fmap. exists 5%nat. split; [done|]. by apply elem_of_seq; lia.
  - rewrite Hh; [done|]. apply elem_of_app. left. apply list_elem_of_fmap. exists 19%nat. split; [done|]. apply elem_of_seq; lia.
Defined.
