(* ===== verification/BootEntry.v ===== *)
(** * The takeover: assembly of src/src/main.rs and src/src/boot.rs

    [main] clears the zero-initialised statics before any Rust code runs.
    [__enter_private_el2] gives the boot CPU its own stack, context, vectors
    and the host's controls (src/src/host_el2_controls.S), and
    [__switch_el2_stage1_page_tables] replaces the firmware's translation
    regime with the host's.  [bss_cleared] and [takeover_switch_safe] are what
    the Rust code after them relies on. *)

From S2P Require Import Prelude Page El2Policy Machine.

(** ** Clearing the statics *)

Inductive main_label := ClearBss | BssDone.
Inductive main_exit := RustMain.

Definition main_start (bss_start bss_end : Z) : code main_label main_exit :=
  Block [DaifSet 0xf; Isb; Adr 9 bss_start; Adr 10 bss_end] (Goto ClearBss).

Definition main_code (l : main_label) : code main_label main_exit :=
  match l with
  | ClearBss => Bhs 9 10 BssDone (Block [StrPost XZR (X 9) 8] (Goto ClearBss))
  | BssDone => Jump RustMain
  end.

(** ** Entering private EL2 *)

(** [include_str!("host_el2_controls.S")] *)
Definition host_el2_controls : list instr :=
  [MovI 9 (Z.land HOST_HCR 0xffff); MovK 9 (Z.shiftr HOST_HCR 16) 16; Msr HCR_EL2 9;
   MovI 9 HOST_CPTR; Msr CPTR_EL2 9;
   MovI 9 HOST_HSTR; Msr HSTR_EL2 9;
   MovI 9 HOST_VTTBR; Msr VTTBR_EL2 9;
   MovI 9 HOST_CNTVOFF; Msr CNTVOFF_EL2 9;
   MovI 9 HOST_CNTHCTL; Msr CNTHCTL_EL2 9;
   MovI 9 DISABLED_TIMER_CTL; Msr CNTHP_CTL_EL2 9; Msr CNTP_CTL_EL0 9; Msr CNTV_CTL_EL0 9;
   Isb].

Inductive boot_exit := PrivateEl2Main | PostSwitchPageTables.
Inductive boot_label := Parked.

Definition install_private (vectors : Z) : list instr :=
  [Isb; MsrI SPSel 1; Isb; Mov SP (X 5); Msr TPIDR_EL2 4; Isb; Adr 9 vectors; Msr VBAR_EL2 9; Isb] ++ host_el2_controls.

Definition enter_private_el2_code (vectors : Z) : code boot_label boot_exit :=
  Block (DaifSet 0xf :: install_private vectors) (Call PrivateEl2Main (Goto Parked)).

(** ** Switching the translation regime *)

Definition disable_translation : list instr :=
  [Dsb; Mrs 9 SCTLR_EL2; Bic (X 9) (X 9) 1; Msr SCTLR_EL2 9; Isb].

Definition install_regime : list instr :=
  [Msr MAIR_EL2 0; Msr TCR_EL2 1; Msr TTBR0_EL2 2; Isb;
   TlbiAlle2; Dsb; Isb;
   Msr SCTLR_EL2 3; Isb].

Definition switch_el2_stage1_page_tables : code boot_label boot_exit :=
  Block (disable_translation ++ install_regime) (Jump PostSwitchPageTables).

Definition boot_code (l : boot_label) : code boot_label boot_exit :=
  match l with Parked => Block [Wfe] (Goto Parked) end.

(** ** The Rust code around it *)

(** The arguments of [__enter_private_el2], in x0 to x5; [None] is a CPU that
    stops.  [boot] is what [boot_entry] returns. *)
Definition enter_private_el2 (root_pa pa_range : Z) (boot : Z * Z) : option (list Z) :=
  if negb (is_page_aligned root_pa) then None
  else
    match HostTranslation_new root_pa pa_range with
    | Ok policy => Some [HOST_MAIR; ht_tcr policy; ht_root policy; HOST_SCTLR; fst boot; snd boot]
    | _ => None
    end.

(** The register assertions of [check_switched_environment]; the others compare
    constants and the image's own words. *)
Definition check_switched_environment (m : machine) (mair tcr ttbr0 sctlr : Z) : bool :=
  (regs m (Sys MAIR_EL2) =? mair) && (regs m (Sys TCR_EL2) =? tcr) && (regs m (Sys TTBR0_EL2) =? ttbr0) &&
  (regs m (Sys SCTLR_EL2) =? sctlr).

(** ** Specification *)

(** The host's baseline on one CPU, apart from its translation regime. *)
Record host_baseline (m : machine) (stack_top pcpu vectors : Z) : Prop := {
  hb_stack : regs m SP = stack_top /\ regs m (Sys SPSel) = 1;
  hb_pcpu : regs m (Sys TPIDR_EL2) = pcpu;
  hb_vectors : regs m (Sys VBAR_EL2) = vectors;
  hb_masked k : 6 <= k < 10 -> Z.testbit (regs m (Sys DAIF)) k = true;
  hb_controls : regs m (Sys HCR_EL2) = HOST_HCR /\ regs m (Sys CPTR_EL2) = HOST_CPTR /\ regs m (Sys HSTR_EL2) = HOST_HSTR /\
    regs m (Sys VTTBR_EL2) = HOST_VTTBR /\ regs m (Sys CNTVOFF_EL2) = HOST_CNTVOFF /\ regs m (Sys CNTHCTL_EL2) = HOST_CNTHCTL;
  hb_timers : regs m (Sys CNTHP_CTL_EL2) = DISABLED_TIMER_CTL /\ regs m (Sys CNTP_CTL_EL0) = DISABLED_TIMER_CTL /\
    regs m (Sys CNTV_CTL_EL0) = DISABLED_TIMER_CTL
}.

(** Translation is on, possibly still on, or off. *)
Inductive translating := TranslationOn | TurningOff | TranslationOff.

Record regime := mkRegime { rg_mair : Z; rg_tcr : Z; rg_root : Z }.

Definition regime_of (m : machine) : regime := mkRegime (regs m (Sys MAIR_EL2)) (regs m (Sys TCR_EL2)) (regs m (Sys TTBR0_EL2)).

(** How far the invalidation since the last change of the regime is: issued,
    completed, and seen by this CPU. *)
Definition flush_step (ev : mevent) (n : nat) : nat :=
  match ev, n with
  | TlbFlushed, _ => 1
  | Ordered, 1%nat => 2
  | Synchronised, 2%nat => 3
  | Wrote (MAIR_EL2 | TCR_EL2 | TTBR0_EL2) _, _ => 0
  | _, _ => n
  end%nat.

Definition translate_step (ev : mevent) (t : translating) : translating :=
  match ev, t with
  | Wrote SCTLR_EL2 v, _ => if Z.testbit v 0 then TranslationOn else TurningOff
  | Synchronised, TurningOff => TranslationOff
  | _, _ => t
  end.

Definition regime_step (ev : mevent) (r : regime) : regime :=
  match ev with
  | Wrote MAIR_EL2 v => mkRegime v (rg_tcr r) (rg_root r)
  | Wrote TCR_EL2 v => mkRegime (rg_mair r) v (rg_root r)
  | Wrote TTBR0_EL2 v => mkRegime (rg_mair r) (rg_tcr r) v
  | _ => r
  end.

(** Whenever an address may be translated, it is by the whole old regime, or by
    the whole new one with nothing of the old one left in the TLB. *)
Fixpoint regime_safe (old new : regime) (t : translating) (r : regime) (flushed : nat) (l : list mevent) : Prop :=
  (t <> TranslationOff -> r = old \/ r = new /\ flushed = 3%nat) /\
  match l with
  | [] => True
  | ev :: rest => regime_safe old new (translate_step ev t) (regime_step ev r) (flush_step ev flushed) rest
  end.

(** ** Lemmas *)

Lemma daif_all_masked v k : 6 <= k < 10 -> Z.testbit (Z.lor v (Z.shiftl 0xf DAIF_SHIFT)) k = true.
Proof.
  intros Hk. rewrite Z.lor_spec. apply orb_true_iff. right. unfold DAIF_SHIFT. rewrite Z.shiftl_spec by lia.
  assert (k - 6 = 0 \/ k - 6 = 1 \/ k - 6 = 2 \/ k - 6 = 3) as [->|[->|[->| ->]]] by lia; done.
Qed.

(** Neither block touches memory. *)
Definition nowhere : extents := [].
Definition unknown : sstate := mkSym [] [] [].

Definition sym_installed (vectors : Z) : sstate := default unknown (sym_run nowhere (install_private vectors) unknown).

Definition installed_values (vectors : Z) : list (reg * sval) :=
  [(SP, Reg0 (X 5)); (Sys SPSel, Const 1); (Sys TPIDR_EL2, Reg0 (X 4));
   (Sys VBAR_EL2, Const vectors);
   (Sys HCR_EL2, Const HOST_HCR); (Sys CPTR_EL2, Const HOST_CPTR); (Sys HSTR_EL2, Const HOST_HSTR); (Sys VTTBR_EL2, Const HOST_VTTBR);
   (Sys CNTVOFF_EL2, Const HOST_CNTVOFF); (Sys CNTHCTL_EL2, Const HOST_CNTHCTL); (Sys CNTHP_CTL_EL2, Const DISABLED_TIMER_CTL);
   (Sys CNTP_CTL_EL0, Const DISABLED_TIMER_CTL); (Sys CNTV_CTL_EL0, Const DISABLED_TIMER_CTL);
   (Sys DAIF, Reg0 (Sys DAIF)); (Sys MAIR_EL2, Reg0 (Sys MAIR_EL2)); (Sys TCR_EL2, Reg0 (Sys TCR_EL2)); (Sys TTBR0_EL2, Reg0 (Sys TTBR0_EL2));
   (Sys SCTLR_EL2, Reg0 (Sys SCTLR_EL2))].

Lemma sym_installed_ok vectors :
  sym_run nowhere (install_private vectors) unknown = Some (sym_installed vectors) /\
  s_reg (sym_installed vectors) <$> (installed_values vectors).*1 = (installed_values vectors).*2.
Proof. split; vm_compute; reflexivity. Qed.

Lemma sym_installed_x vectors n : n <> 9%nat -> s_reg (sym_installed vectors) (X n) = Reg0 (X n).
Proof. intros Hn. vm_compute. destruct n as [|[|[|[|[|[|[|[|[|[|n]]]]]]]]]]; try reflexivity. done. Qed.

Lemma nowhere_laid : laid_out nowhere (fun _ => 0).
Proof. split; [done| |done]. by intros b [? ?]. Qed.

Lemma unknown_rep m : rep nowhere (fun _ => 0) m unknown m.
Proof. apply known_rep. repeat constructor. Qed.

Lemma sym_values (s : sstate) l m m' :
  rep nowhere (fun _ => 0) m s m' -> s_reg s <$> l.*1 = l.*2 -> Forall (fun p => regs m' p.1 = denote (fun _ => 0) m p.2) l.
Proof.
  intros Hr Hl. apply Forall_forall. intros [r v] Hin. cbn [fst snd]. rewrite (rep_reg _ _ _ _ _ Hr). f_equal. apply list_elem_of_lookup in Hin as [i Hi].
  assert (H1 : (s_reg s <$> l.*1) !! i = Some (s_reg s r)) by (by rewrite !list_lookup_fmap, Hi).
  rewrite Hl, list_lookup_fmap, Hi in H1. by injection H1.
Qed.

Lemma no_reach a : ~ in_reach nowhere (fun _ => 0) a.
Proof. by intros (p & Hp & _). Qed.

#[local] Opaque sym_installed.

Lemma install_effect vectors m :
  exists m1, execute (install_private vectors) m = Some m1 /\
    (regs m1 SP = regs m (X 5) /\ regs m1 (Sys SPSel) = 1) /\ regs m1 (Sys TPIDR_EL2) = regs m (X 4) /\ regs m1 (Sys VBAR_EL2) = vectors /\
    regs m1 (Sys DAIF) = regs m (Sys DAIF) /\
    (regs m1 (Sys HCR_EL2) = HOST_HCR /\ regs m1 (Sys CPTR_EL2) = HOST_CPTR /\ regs m1 (Sys HSTR_EL2) = HOST_HSTR /\
     regs m1 (Sys VTTBR_EL2) = HOST_VTTBR /\ regs m1 (Sys CNTVOFF_EL2) = HOST_CNTVOFF /\ regs m1 (Sys CNTHCTL_EL2) = HOST_CNTHCTL) /\
    (regs m1 (Sys CNTHP_CTL_EL2) = DISABLED_TIMER_CTL /\ regs m1 (Sys CNTP_CTL_EL0) = DISABLED_TIMER_CTL /\
     regs m1 (Sys CNTV_CTL_EL0) = DISABLED_TIMER_CTL) /\
    regime_of m1 = regime_of m /\ regs m1 (Sys SCTLR_EL2) = regs m (Sys SCTLR_EL2) /\
    (forall n, n <> 9%nat -> regs m1 (X n) = regs m (X n)) /\ (forall a, mem m1 a = mem m a).
Proof.
  destruct (sym_installed_ok vectors) as [E Hv].
  destruct (sym_run_sound _ _ _ nowhere_laid _ _ _ _ (unknown_rep m) E) as (m1 & E1 & H1).
  pose proof (sym_values _ _ _ _ H1 Hv) as Hr. unfold installed_values in Hr. rewrite !Forall_cons in Hr. cbn [fst snd denote] in Hr.
  destruct Hr as (Rsp & Rsel & Rtp & Rvb & Rhcr & Rcptr & Rhstr & Rvt & Rcv & Rcn & Rt1 & Rt2 & Rt3 & Rd & Rmair & Rtcr & Rtt & Rsc & _).
  exists m1. split_and!; try assumption.
  - unfold regime_of. by rewrite Rmair, Rtcr, Rtt.
  - intros n Hn. by rewrite (rep_reg _ _ _ _ _ H1), sym_installed_x.
  - intros a. apply (rep_frame _ _ _ _ _ H1 a (no_reach a)).
Qed.

Lemma enter_effect vectors m0 :
  exists m1, run boot_code 0 (enter_private_el2_code vectors) m0 = Calling PrivateEl2Main m1 (Goto Parked) /\
    host_baseline m1 (regs m0 (X 5)) (regs m0 (X 4)) vectors /\ (forall a, mem m1 a = mem m0 a) /\
    (forall n, n <> 9%nat -> regs m1 (X n) = regs m0 (X n)) /\
    regime_of m1 = regime_of m0 /\ regs m1 (Sys SCTLR_EL2) = regs m0 (Sys SCTLR_EL2).
Proof.
  set (v := Z.lor (regs m0 (Sys DAIF)) (Z.shiftl 15 DAIF_SHIFT)).
  destruct (install_effect vectors (emit (Wrote DAIF v) (set_reg (Sys DAIF) v m0)))
    as (m1 & E1 & Hs & Ht & Hvb & Hd & Hc & Htm & Hrg & Hsc & Hx & Hm).
  exists m1. split_and!; [exact (run_block _ 0 _ _ _ _ (execute_cons (DaifSet 0xf) _ m0 _ _ eq_refl E1))| |exact Hm|exact Hx|exact Hrg|exact Hsc].
  split; try assumption. intros k Hk. rewrite Hd. exact (daif_all_masked _ k Hk).
Qed.

(** What the switch changes. *)
Definition switched (r : reg) : bool :=
  match r with X 9 | Sys (SCTLR_EL2 | MAIR_EL2 | TCR_EL2 | TTBR0_EL2) => true | _ => false end.

(** With translation on throughout the part before, off while the registers
    change, and on again behind the invalidation. *)
Lemma switch_effect m :
  Z.testbit (regs m (X 3)) 0 = true ->
  exists m1 l, run boot_code 0 switch_el2_stage1_page_tables m = Jumped PostSwitchPageTables m1 /\
    regime_of m1 = mkRegime (regs m (X 0)) (regs m (X 1)) (regs m (X 2)) /\ regs m1 (Sys SCTLR_EL2) = regs m (X 3) /\
    (forall r, switched r = false -> regs m1 r = regs m r) /\
    (forall a, mem m1 a = mem m a) /\ log m1 = log m ++ l /\
    regime_safe (regime_of m) (mkRegime (regs m (X 0)) (regs m (X 1)) (regs m (X 2))) TranslationOn (regime_of m) 0 l.
Proof.
  intros Hon. set (off := Z.land (regs m (Sys SCTLR_EL2)) (not64 1)).
  eexists _, [Ordered; Wrote SCTLR_EL2 off; Synchronised; Wrote MAIR_EL2 (regs m (X 0)); Wrote TCR_EL2 (regs m (X 1));
    Wrote TTBR0_EL2 (regs m (X 2)); Synchronised; TlbFlushed; Ordered; Synchronised; Wrote SCTLR_EL2 (regs m (X 3)); Synchronised].
  split; [reflexivity|]. split_and!; [reflexivity|reflexivity| |reflexivity| |].
  - intros r Hr. cbn. by rewrite !decide_False by (intros ->; done).
  - cbn [log emit set_reg]. rewrite <- !app_assoc. reflexivity.
  - assert (Hoff : Z.testbit off 0 = false) by (unfold off; rewrite Z.land_spec; apply andb_false_r).
    cbn -[Z.testbit]. rewrite Hon, Hoff. split_and!; auto; try done.
Qed.

(** One word per turn. *)
Lemma clear_loop n m start :
  regs m (X 9) = start -> regs m (X 10) = start + 8 * Z.of_nat n -> 0 <= start -> start mod 8 = 0 -> start + 8 * Z.of_nat n < 2 ^ 64 ->
  exists m', run main_code (S n) (main_code ClearBss) m = Jumped RustMain m' /\ (forall s, regs m' (Sys s) = regs m (Sys s)) /\
    forall a, a mod 8 = 0 -> mem m' a = if (start <=? a) && (a <? start + 8 * Z.of_nat n) then 0 else mem m a.
Proof.
  revert m start. induction n as [|n IH]; intros m start H9 H10 H0 Ha Hlt.
  - exists m. split_and!; [|done|].
    + cbn [run main_code xval]. unfold xval. cbn [Nat.eqb XZR]. rewrite H9, H10. by rewrite (proj2 (Z.leb_le _ _)) by lia.
    + intros a _. destruct (Z.leb_spec start a), (Z.ltb_spec a (start + 8 * Z.of_nat 0)); try done. lia.
  - set (m1 := set_reg (X 9) (wrapping_add start 8) (set_word start 0 m)).
    assert (E1 : execute [StrPost XZR (X 9) 8] m = Some m1).
    { cbn. unfold store_word, access. rewrite bool_decide_false by done. cbn [andb]. rewrite H9. unfold wrapping_add at 1 2.
      rewrite Z.add_0_r, (Z.mod_small start (2 ^ 64)), Ha by lia. done. }
    assert (Hw : wrapping_add start 8 = start + 8) by (unfold wrapping_add; rewrite Z.mod_small; lia).
    destruct (IH m1 (start + 8)) as (m' & E & Hs & Hm); [by rewrite <- Hw|change (regs m1 (X 10)) with (regs m (X 10)); rewrite H10; lia|lia|Z.to_euclidean_division_equations; lia|lia|].
    exists m'. split_and!; [|exact Hs|].
    + transitivity (run main_code (S n) (main_code ClearBss) m1); [|done].
      change (run main_code (S (S n)) (main_code ClearBss) m) with
        (if xval m 10 <=? xval m 9 then run main_code (S n) (main_code BssDone) m
         else run main_code (S (S n)) (Block [StrPost XZR (X 9) 8] (Goto ClearBss)) m).
      unfold xval. cbn [Nat.eqb XZR]. rewrite H9, H10, (proj2 (Z.leb_gt _ _)) by lia. by rewrite (run_block _ _ _ _ _ _ E1).
    + intros a Hal. rewrite (Hm a Hal). unfold m1. cbn [mem set_reg set_word].
      assert (Hgap : a = start \/ a < start \/ start + 8 <= a) by (clear -Ha Hal; Z.to_euclidean_division_equations; lia).
      destruct (Z.leb_spec (start + 8) a), (Z.ltb_spec a (start + 8 + 8 * Z.of_nat n)), (Z.leb_spec start a),
        (Z.ltb_spec a (start + 8 * Z.of_nat (S n))), (Z.eqb_spec a start); cbn [andb]; try done; lia.
Qed.

(** ** Theorems *)

(** [bss_cleared]: with bounds the linker aligns, [main] reaches [rust_main],
    in as many turns as there are words, with every word of the
    zero-initialised statics zero, every other word as it was, and interrupts
    masked. *)
Lemma bss_cleared m bss_start words :
  0 <= bss_start -> bss_start mod 8 = 0 -> bss_start + 8 * Z.of_nat words < 2 ^ 64 ->
  exists m', run main_code (S (S words)) (main_start bss_start (bss_start + 8 * Z.of_nat words)) m = Jumped RustMain m' /\
    (forall a, a mod 8 = 0 ->
       mem m' a = if (bss_start <=? a) && (a <? bss_start + 8 * Z.of_nat words) then 0 else mem m a) /\
    forall k, 6 <= k < 10 -> Z.testbit (regs m' (Sys DAIF)) k = true.
Proof.
  intros H0 Ha Hlt. unfold main_start. set (v := Z.lor (regs m (Sys DAIF)) (Z.shiftl 15 DAIF_SHIFT)).
  set (m1 := set_reg (X 10) (bss_start + 8 * Z.of_nat words) (set_reg (X 9) bss_start
    (emit Synchronised (emit (Wrote DAIF v) (set_reg (Sys DAIF) v m))))).
  destruct (clear_loop words m1 bss_start) as (m' & E & Hs & Hm); [done..|]. exists m'. split_and!; [|exact Hm|].
  - rewrite (run_block _ _ _ _ _ m1) by done. by rewrite run_goto.
  - intros k Hk. rewrite Hs. exact (daif_all_masked _ k Hk).
Qed.

(** C6 [takeover_switch_safe]: entered with the arguments of [enter_private_el2],
    the boot CPU calls [private_el2_main] with its own stack, context and
    vectors and the host's controls installed and its interrupts masked, and
    no memory has changed.  However [private_el2_main] uses its stack, the
    switch ends in [post_switch_page_tables] with the policy's translation
    regime, which passes the readback there; at no moment in between can an
    address be translated by a mixture of the two regimes or by a stale TLB
    entry. *)
Theorem takeover_switch_safe root_pa pa_range boot args vectors m0 :
  enter_private_el2 root_pa pa_range boot = Some args -> (forall i a, args !! i = Some a -> regs m0 (X i) = a) ->
  exists policy m1, HostTranslation_new root_pa pa_range = Ok policy /\
    run boot_code 0 (enter_private_el2_code vectors) m0 = Calling PrivateEl2Main m1 (Goto Parked) /\
    host_baseline m1 (snd boot) (fst boot) vectors /\ (forall a, mem m1 a = mem m0 a) /\
    forall m2, (forall i a, (i < 4)%nat -> args !! i = Some a -> regs m2 (X i) = a) -> (forall s, regs m2 (Sys s) = regs m1 (Sys s)) ->
      exists m3 l, run boot_code 0 switch_el2_stage1_page_tables m2 = Jumped PostSwitchPageTables m3 /\
        host_baseline m3 (regs m2 SP) (fst boot) vectors /\ (forall a, mem m3 a = mem m2 a) /\
        check_switched_environment m3 HOST_MAIR (ht_tcr policy) (ht_root policy) HOST_SCTLR = true /\
        log m3 = log m2 ++ l /\
        regime_safe (regime_of m0) (mkRegime HOST_MAIR (ht_tcr policy) (ht_root policy)) TranslationOn (regime_of m0) 0 l.
Proof.
  unfold enter_private_el2. destruct (negb _); [done|]. destruct (HostTranslation_new _ _) as [policy| |]; [|done..].
  intros [= <-] Hargs. destruct (enter_effect vectors m0) as (m1 & E1 & Hb & Hm & Hx & Hrg & _).
  rewrite (Hargs 5%nat (snd boot) eq_refl), (Hargs 4%nat (fst boot) eq_refl) in Hb.
  exists policy, m1. split_and!; [done|done|done|done|]. intros m2 Hx2 Hs2.
  pose proof (Hx2 0%nat _ ltac:(lia) eq_refl) as A0. pose proof (Hx2 1%nat _ ltac:(lia) eq_refl) as A1.
  pose proof (Hx2 2%nat _ ltac:(lia) eq_refl) as A2. pose proof (Hx2 3%nat _ ltac:(lia) eq_refl) as A3.
  destruct (switch_effect m2) as (m3 & l & E3 & Hr3 & Hsc & Hother & Hm3 & Hlog & Hsafe).
  { by rewrite A3. }
  rewrite A0, A1, A2 in Hr3, Hsafe. rewrite A3 in Hsc.
  assert (Hreg : regime_of m2 = regime_of m0) by (rewrite <- Hrg; unfold regime_of; by rewrite !Hs2). rewrite Hreg in Hsafe.
  exists m3, l. split_and!; [done| |done| |done|done].
  - destruct Hb as [[_ H2] H3 H4 H5 (C1 & C2 & C3 & C4 & C5 & C6) (T1 & T2 & T3)].
    assert (Hs3 : forall s, switched (Sys s) = false -> regs m3 (Sys s) = regs m1 (Sys s)) by (intros s Hs; by rewrite Hother, Hs2).
    split; [split; [by apply Hother|by rewrite Hs3]|by rewrite Hs3|by rewrite Hs3|intros k Hk; rewrite Hs3 by done; auto| |];
      rewrite !Hs3 by done; split_and!; assumption.
  - unfold regime_of in Hr3. injection Hr3 as R1 R2 R3. unfold check_switched_environment. rewrite R1, R2, R3, Hsc, !Z.eqb_refl. done.
Qed.

(** ** Concrete instances *)

(** A machine the firmware has left with every word 7. *)
Definition firmware_machine : machine :=
  mkMachine (fun r => match r with X 0 => HOST_MAIR | X 1 => policy_tcr 2 | X 2 => 0x40000000 | X 3 => HOST_SCTLR | X 4 => 0x40103000
                      | X 5 => 0x40131000 | _ => 0 end) (fun _ => 7) [].

(** The same machine as [m] when [private_el2_main] calls the switch. *)
Definition inside_main (m : machine) : machine :=
  mkMachine (fun r => match r with X 0 => HOST_MAIR | X 1 => policy_tcr 2 | X 2 => 0x40000000 | X 3 => HOST_SCTLR | SP => 0x40130f00
                      | r => regs m r end) (mem m) (log m).

Lemma takeover_switch_safe_witness :
  exists m1 m3, run boot_code 0 (enter_private_el2_code 0x40101000) firmware_machine = Calling PrivateEl2Main m1 (Goto Parked) /\
    host_baseline m1 0x40131000 0x40103000 0x40101000 /\
    run boot_code 0 switch_el2_stage1_page_tables (inside_main m1) = Jumped PostSwitchPageTables m3 /\
    host_baseline m3 0x40130f00 0x40103000 0x40101000 /\
    check_switched_environment m3 HOST_MAIR (policy_tcr 2) 0x40000000 HOST_SCTLR = true.
Proof.
  destruct (takeover_switch_safe 0x40000000 2 (0x40103000, 0x40131000)
    [HOST_MAIR; policy_tcr 2; 0x40000000; HOST_SCTLR; 0x40103000; 0x40131000] 0x40101000 firmware_machine)
    as (policy & m1 & Ep & E & Hb & _ & Hswitch).
  - vm_compute. reflexivity.
  - intros [|[|[|[|[|[|i]]]]]] a [= <-]; done.
  - destruct (Hswitch (inside_main m1)) as (m3 & l & E3 & Hb3 & _ & Hc & _).
    + intros [|[|[|[|i]]]] a Hi; [intros [= <-]; reflexivity..|lia].
    + reflexivity.
    + vm_compute in Ep. injection Ep as <-. exists m1, m3. exact (conj E (conj Hb (conj E3 (conj Hb3 Hc)))).
Defined.
