(* ===== verification/Vmctl.v ===== *)
(** * VM control: src/src/vmctl.rs

    A [VmCtl] owns the memory of one guest: regions of guest RAM with their
    physical backing, guard regions, and the pages of the guest's stage-2
    translation tables.  The tables live in physical memory, which is part of
    the state here ([mem], by 64-bit words), next to the page source the VM
    allocates from; the methods of [VmCtl] are [stateful] over the three.  The
    theorems are proved against the interface [PageSource] of [Mm]. *)

From S2P Require Import Prelude Page SystemInfo PageAllocator El2Stage1 GuestStage2 GuestPlatform Vcpu Mm.

Definition MAX_GUEST_MEM_BYTES : Z := DEFAULT_GUEST_RAM_SIZE + 2 * 1024 * 1024.
Definition MAX_GUEST_MEM_PAGES : Z := MAX_GUEST_MEM_BYTES / PAGE_SIZE.

(** ** Regions *)

(** [IpaAddr] and [PhysAddr] are newtypes of [u64]. *)
Record IpaRegion := mkIpaRegion { ir_start : Z; ir_size : Z }.

Definition IpaRegion_new (start size : Z) : option IpaRegion :=
  if (size =? 0) || negb (bool_decide (is_Some (checked_add start size))) then None
  else Some (mkIpaRegion start size).

Inductive VmMemUsage := GuestRam | Image | Scratch | Stack | Dtb | Guard | GuestStage2PageTable.

#[global] Instance VmMemUsage_eq_dec : EqDecision VmMemUsage.
Proof. solve_decision. Defined.

Definition need_physical_memory (self : VmMemUsage) : bool :=
  match self with
  | GuestRam | Image | Dtb | Stack | Scratch | GuestStage2PageTable => true
  | Guard => false
  end.

Record IpaOnlyRegion := mkIpaOnly { io_usage : VmMemUsage; io_base : Z; io_size : Z }.
Record IpaPaRegion := mkIpaPa { ip_usage : VmMemUsage; ip_ipa : Z; ip_pa : Z; ip_size : Z }.
Record PaRegion := mkPa { po_usage : VmMemUsage; po_pa : list Z }.

Definition pa_end (self : IpaPaRegion) : option Z := checked_add (ip_pa self) (ip_size self).
Definition ipa_end (self : IpaPaRegion) : option Z := checked_add (ip_ipa self) (ip_size self).
Definition IpaOnlyRegion_end (self : IpaOnlyRegion) : option Z := checked_add (io_base self) (io_size self).

Inductive VmMem :=
| IpaOnly (region : IpaOnlyRegion)
| IpaPa (region : IpaPaRegion)
| PaOnly (region : PaRegion).

Definition usage (self : VmMem) : VmMemUsage :=
  match self with
  | IpaPa v => ip_usage v
  | PaOnly v => po_usage v
  | IpaOnly v => io_usage v
  end.

Definition physical_pages (self : VmMem) : Z :=
  match self with
  | IpaOnly _ => 0
  | IpaPa region => ip_size region / PAGE_SIZE
  | PaOnly region => Z.of_nat (length (po_pa region))
  end.

Definition ipa_range (self : VmMem) : option (Z * Z) :=
  match self with
  | IpaPa region => e ← ipa_end region; Some (ip_ipa region, e)
  | IpaOnly region => e ← IpaOnlyRegion_end region; Some (io_base region, e)
  | PaOnly _ => None
  end.

(** ** Iterators *)

Record EntryPaIter := mkEntryPaIter { ep_entry : option VmMem; ep_next_page : nat }.

(** The loop of [EntryPaIter::next] over the tracked pages: pages that make no
    region are skipped. *)
Fixpoint next_tracked (fuel : nat) (region : PaRegion) (next_page : nat) : option PhysRegion * nat :=
  match fuel with
  | O => (None, next_page)
  | S fuel' =>
      match po_pa region !! next_page with
      | None => (None, next_page)
      | Some pa =>
          match PhysRegion_new pa PAGE_SIZE with
          | Ok r => (Some r, S next_page)
          | _ => next_tracked fuel' region (S next_page)
          end
      end
  end.

Definition EntryPaIter_next (self : EntryPaIter) : option PhysRegion * EntryPaIter :=
  match ep_entry self with
  | None => (None, self)
  | Some (IpaPa region) =>
      if negb (ep_next_page self =? 0)%nat then (None, self)
      else
        (match PhysRegion_new (ip_pa region) (ip_size region) with Ok r => Some r | _ => None end,
         mkEntryPaIter (ep_entry self) 1)
  | Some (PaOnly region) =>
      let '(r, n) := next_tracked (S (length (po_pa region))) region (ep_next_page self) in
      (r, mkEntryPaIter (ep_entry self) n)
  | Some (IpaOnly _) => (None, self)
  end.

Record IpaRegionsIter := mkIpaRegionsIter { it_entries : list VmMem; it_previous_start : option Z }.

Definition region_of (entry : VmMem) : option IpaRegion :=
  match entry with
  | IpaPa region => IpaRegion_new (ip_ipa region) (ip_size region)
  | IpaOnly region => IpaRegion_new (io_base region) (io_size region)
  | PaOnly _ => None
  end.

(** The body of the scan: the lowest region above the previous one so far. *)
Definition scan_entry (previous : option Z) (next : option IpaRegion) (entry : VmMem) : option IpaRegion :=
  match region_of entry with
  | None => next
  | Some region =>
      let start := ir_start region in
      if match previous with None => true | Some p => p <? start end
          && match next with None => true | Some candidate => start <? ir_start candidate end
      then Some region else next
  end.

Definition IpaRegionsIter_next (self : IpaRegionsIter) : option (IpaRegion * IpaRegionsIter) :=
  match fold_left (scan_entry (it_previous_start self)) (it_entries self) None with
  | Some region => Some (region, mkIpaRegionsIter (it_entries self) (Some (ir_start region)))
  | None => None
  end.

(** ** The VM *)

Record VmCtl := mkVmCtl { vm_id : Z; vm_mem : list VmMem; vcpus : list Vcpu }.

Definition VmCtl_new (vm_id : Z) : VmCtl := mkVmCtl vm_id [] [].

Definition find_usage (u : VmMemUsage) (mems : list VmMem) : option VmMem :=
  List.find (fun m => bool_decide (usage m = u)) mems.

Definition guest_stage2_page_table_root {E} (self : VmCtl) : outcome E (option Z) :=
  match find_usage GuestStage2PageTable (vm_mem self) with
  | Some (PaOnly region) => let? root := arr_get (po_pa region) 0 in Ok (Some root)
  | _ => Ok None
  end.

Definition sum_pages {E} (mems : list VmMem) : outcome E Z :=
  fold_left (fun acc m => let? n := acc in add64 n (physical_pages m)) mems (Ok 0).

Definition allocated_physical_pages {E} (self : VmCtl) : outcome E Z := sum_pages (vm_mem self).

Definition validate_ipa_range (self : VmCtl) (ipa size : Z) : outcome AllocatorError unit :=
  reject (size =? 0) || negb (is_page_aligned ipa) with InvalidIpa in
  let? e := ok_or (checked_add ipa size) AAddressOverflow in
  let? last := sub64 e 1 in
  reject Z.shiftl 1 IPA_BITS - 1 <? last with InvalidIpa in
  reject existsb (fun r => (ipa <? snd r) && (fst r <? e)) (omap ipa_range (vm_mem self))
    with OverlappingIpa in
  Ok tt.

Definition entry_pa (self : VmCtl) (u : VmMemUsage) : EntryPaIter :=
  mkEntryPaIter (find_usage u (vm_mem self)) 0.

Definition entry_ipa (self : VmCtl) (u : VmMemUsage) : option IpaRegion :=
  m ← find_usage u (vm_mem self); region_of m.

Definition ipa_regions (self : VmCtl) : IpaRegionsIter := mkIpaRegionsIter (vm_mem self) None.

(** [IdAa64Mmfr0El1::pa_range] and [pa_bits]. *)
Definition mmfr0_pa_range (value : Z) : Z := as_u8 (Z.land value 0xf).
Definition mmfr0_pa_bits (value : Z) : option Z :=
  match mmfr0_pa_range value with
  | 0 => Some 32
  | 1 => Some 36
  | 2 => Some 40
  | 3 => Some 42
  | 4 => Some 44
  | 5 => Some 48
  | _ => None
  end.

Section Methods.
Context {G : Type} `{PageSource G}.

(** The VM, the page source and physical memory, by 64-bit words. *)
Record machine := mkMachine { vm : VmCtl; mm : G; mem : Z -> Z }.

Definition store_word (m : Z -> Z) (a v : Z) : Z -> Z := fun b => if b =? a then v else m b.

(** [write_bytes(start, 0, size)] on whole words. *)
Definition write_zeroes (m : Z -> Z) (start size : Z) : Z -> Z :=
  fun b => if (start <=? b) && (b <? start + size) then 0 else m b.

Definition on_mm {A} (op : stateful G AllocatorError A) : stateful machine AllocatorError A := fun s =>
  let '(r, g) := op (mm s) in (r, mkMachine (vm s) g (mem s)).

Definition set_mems {E} (f : list VmMem -> list VmMem) : stateful machine E unit := fun s =>
  (Ok tt, mkMachine (mkVmCtl (vm_id (vm s)) (f (vm_mem (vm s))) (vcpus (vm s))) (mm s) (mem s)).

Definition set_memory {E} (f : (Z -> Z) -> Z -> Z) : stateful machine E unit := fun s =>
  (Ok tt, mkMachine (vm s) (mm s) (f (mem s))).

Definition add_vcpu {E} (vcpu : Vcpu) : stateful machine E nat := fun s =>
  (Ok (length (vcpus (vm s))),
   mkMachine (mkVmCtl (vm_id (vm s)) (vm_mem (vm s)) (vcpus (vm s) ++ [vcpu])) (mm s) (mem s)).

Definition vcpu_mut (self : VmCtl) (id : nat) : option Vcpu := vcpus self !! id.

(** *** Allocation *)

(** [for p in 0..n { pa.push(phy + p * PAGE_SIZE) }] from [p] on. *)
Fixpoint table_pages {E} (phy : Z) (p n : nat) : outcome E (list Z) :=
  match n with
  | O => Ok []
  | S n' =>
      let? offset := mul64 (Z.of_nat p) PAGE_SIZE in
      let? pa := add64 phy offset in
      let? rest := table_pages phy (S p) n' in
      Ok (pa :: rest)
  end.

Definition needs_ipa (u : VmMemUsage) : bool :=
  match u with
  | Image | GuestRam | Scratch | Dtb | Stack | Guard => true
  | GuestStage2PageTable => false
  end.

(** The checks of [vm_mem_alloc] before any allocation. *)
Definition alloc_checks (self : VmCtl) (u : VmMemUsage) (ipa : option Z) (size_aligned : Z) :
    outcome AllocatorError unit :=
  reject existsb (fun v => bool_decide (usage v = u)) (vm_mem self) with AlreadyAllocated in
  reject needs_ipa u && bool_decide (ipa = None) with PageAllocator.InvalidateParameter in
  reject negb (needs_ipa u) && negb (bool_decide (ipa = None)) with PageAllocator.InvalidateParameter in
  match ipa with
  | Some ipa => validate_ipa_range self ipa size_aligned
  | None => Ok tt
  end.

(** The physical backing: budget, allocation and zeroing. *)
Definition alloc_backing (size_aligned : Z) : stateful machine AllocatorError Z :=
  let pages := size_aligned / PAGE_SIZE in
  let! used := stry (fun s => allocated_physical_pages (vm s)) in
  let! total := slift (ok_or (checked_add used pages) AAddressOverflow) in
  if MAX_GUEST_MEM_PAGES <? total then sfail Exhausted
  else
    let! phy := on_mm (ps_allocate_contiguous_pages (Z.to_nat (size_aligned / PAGE_SIZE))) in
    let! _ := set_memory (fun m => write_zeroes m phy size_aligned) in
    sret phy.

(** The entry of the VM that records the allocation. *)
Definition alloc_entry (u : VmMemUsage) (ipa : option Z) (phy size_aligned : Z) :
    outcome AllocatorError VmMem :=
  match u with
  | GuestStage2PageTable =>
      let? pa := table_pages phy 0 (Z.to_nat (size_aligned / PAGE_SIZE)) in
      Ok (PaOnly (mkPa u pa))
  | GuestRam | Image | Scratch | Dtb | Stack =>
      let? ipa := expect ipa in Ok (IpaPa (mkIpaPa u ipa phy size_aligned))
  | Guard => let? ipa := expect ipa in Ok (IpaOnly (mkIpaOnly u ipa size_aligned))
  end.

(** The address [vm_mem_alloc] returns for an entry. *)
Definition entry_address (entry : VmMem) : outcome AllocatorError (option Z) :=
  match entry with
  | IpaPa v => Ok (Some (ip_pa v))
  | IpaOnly _ => Ok None
  | PaOnly v => let? pa := arr_get (po_pa v) 0 in Ok (Some pa)
  end.

Definition vm_mem_alloc (u : VmMemUsage) (ipa : option Z) (size : Z) :
    stateful machine AllocatorError (option Z) :=
  let! size_aligned := slift (ok_or (align_up size PAGE_SIZE) AAddressOverflow) in
  let! _ := stry (fun s => alloc_checks (vm s) u ipa size_aligned) in
  let! phy := if need_physical_memory u then alloc_backing size_aligned else sret 0 in
  let! entry := slift (alloc_entry u ipa phy size_aligned) in
  let! ret := slift (entry_address entry) in
  let! _ := set_mems (fun mems => mems ++ [entry]) in
  sret ret.

(** [pt.pa.push(phy)] on the first entry of the page-table usage. *)
Fixpoint push_table (phy : Z) (mems : list VmMem) : list VmMem :=
  match mems with
  | [] => []
  | m :: rest =>
      if decide (usage m = GuestStage2PageTable) then
        match m with
        | PaOnly region => PaOnly (mkPa (po_usage region) (po_pa region ++ [phy]))
        | _ => m
        end :: rest
      else m :: push_table phy rest
  end.

Definition vm_mem_alloc_sub_guest_stage2_page_table : stateful machine AllocatorError Z :=
  let! used := stry (fun s => allocated_physical_pages (vm s)) in
  if MAX_GUEST_MEM_PAGES <=? used then sfail Exhausted
  else
    let! entry := sread (fun s => find_usage GuestStage2PageTable (vm_mem (vm s))) in
    match entry with
    | Some (PaOnly _) =>
        let! phy := on_mm ps_allocate_page in
        let! _ := set_memory (fun m => write_zeroes m phy PAGE_SIZE) in
        let! _ := set_mems (push_table phy) in
        sret phy
    | _ => sfail PageAllocator.Unexpected
    end.

(** *** Mapping *)

(** The address of [table.entries()[index]]. *)
Definition slot (table : Z) (index : nat) : Z := table + 8 * Z.of_nat index.

Definition smap_any {S E F A} (e : F) (m : stateful S E A) : stateful S F A := smap_err (fun _ => e) m.

(** One of the two table lookups of [map_l3_page]. *)
Definition next_table (table : Z) (index : nat) : stateful machine TranslationError Z :=
  let! entry := sread (fun s => mem s (slot table index)) in
  if negb (Z.land entry S2_VALID =? 0) then
    if Z.land entry S2_TABLE_OR_PAGE =? 0 then sfail ConflictingEntry
    else sret (Z.land entry S2_ADDRESS_MASK)
  else
    let! next_pa := smap_any TableExhausted vm_mem_alloc_sub_guest_stage2_page_table in
    let! _ := set_memory (fun m => store_word m (slot table index)
                (Z.lor (Z.lor S2_VALID S2_TABLE_OR_PAGE) (Z.land next_pa S2_ADDRESS_MASK))) in
    sret next_pa.

(** [((ipa >> shift) & 0x1ff) as usize]. *)
Definition table_slot (ipa shift : Z) : nat := Z.to_nat (Z.land (Z.shiftr ipa shift) 0x1ff).

Definition map_l3_page (ipa pa : Z) (mem_type : GuestStage2MemoryType) (access : GuestStage2Access)
    (exec : GuestStage2Exec) : stateful machine TranslationError unit :=
  let l1_idx := table_slot ipa L1_SHIFT in
  let l2_idx := table_slot ipa L2_SHIFT in
  let l3_idx := table_slot ipa L3_SHIFT in
  let! root := stry (fun s => guest_stage2_page_table_root (vm s)) in
  match root with
  | None => sfail Unexpected
  | Some root =>
      let! l2_pa := next_table root l1_idx in
      let! l3_pa := next_table l2_pa l2_idx in
      let! current_desc := sread (fun s => mem s (slot l3_pa l3_idx)) in
      let new_desc := encode_l3_page_descriptor pa mem_type access exec in
      if negb (Z.land current_desc S2_VALID =? 0) then
        if negb (current_desc =? new_desc) then sfail ConflictingEntry else sret tt
      else set_memory (fun m => store_word m (slot l3_pa l3_idx) new_desc)
  end.

(** [while current_ipa < ipa_end { .. }]; an iteration advances by a page. *)
Fixpoint map_region_loop (fuel : nat) (current_ipa current_pa end_ipa : Z)
    (mem_type : GuestStage2MemoryType) (access : GuestStage2Access) (exec : GuestStage2Exec) :
    stateful machine TranslationError unit :=
  match fuel with
  | O => slift Panic
  | S fuel' =>
      if current_ipa <? end_ipa then
        let! _ := map_l3_page current_ipa current_pa mem_type access exec in
        let! ipa' := slift (add64 current_ipa PAGE_SIZE) in
        let! pa' := slift (add64 current_pa PAGE_SIZE) in
        map_region_loop fuel' ipa' pa' end_ipa mem_type access exec
      else sret tt
  end.

(** The range checks of [map_with_pa_bits]. *)
Definition map_limits (mapping : IpaPaRegion) (pa_bits : Z) : outcome TranslationError Z :=
  let max_ipa := Z.shiftl 1 IPA_BITS - 1 in
  let max_pa := Z.shiftl 1 pa_bits - 1 in
  let? ipa_end := ok_or (ipa_end mapping) AddressOverflow in
  let? pa_end := ok_or (pa_end mapping) AddressOverflow in
  let? last_ipa := sub64 ipa_end 1 in
  reject max_ipa <? last_ipa with VirtualAddressOutOfRange in
  let? last_pa := sub64 pa_end 1 in
  reject max_pa <? last_pa with El2Stage1.PhysicalAddressOutOfRange in
  Ok ipa_end.

Definition map_with_pa_bits (u : VmMemUsage) (mem_type : GuestStage2MemoryType)
    (access : GuestStage2Access) (exec : GuestStage2Exec) (pa_bits : Z) :
    stateful machine TranslationError unit :=
  let! found := sread (fun s => find_usage u (vm_mem (vm s))) in
  match found with
  | Some (IpaPa mapping) =>
      let! ipa_end := slift (map_limits mapping pa_bits) in
      map_region_loop (S (Z.to_nat (ip_size mapping / PAGE_SIZE))) (ip_ipa mapping) (ip_pa mapping)
        ipa_end mem_type access exec
  | _ => sfail InvalidateParameter
  end.

(** [mmfr0] is ID_AA64MMFR0_EL1 as [dump] returns it. *)
Definition VmCtl_map (mmfr0 : option Z) (u : VmMemUsage) (mem_type : GuestStage2MemoryType)
    (access : GuestStage2Access) (exec : GuestStage2Exec) : stateful machine TranslationError unit :=
  let! value := slift (ok_or mmfr0 Unexpected) in
  let! pa_bits := slift (ok_or (mmfr0_pa_bits value) Unexpected) in
  map_with_pa_bits u mem_type access exec pa_bits.

(** [for offset in (0..size).step_by(PAGE_SIZE)], [n] offsets from [k] on. *)
Fixpoint map_device_loop (ipa pa : Z) (k n : nat) : stateful machine TranslationError unit :=
  match n with
  | O => sret tt
  | S n' =>
      let offset := Z.of_nat k * PAGE_SIZE in
      let! ipa' := slift (add64 ipa offset) in
      let! pa' := slift (add64 pa offset) in
      let! _ := map_l3_page ipa' pa' DeviceNgNre ReadWrite ExecuteNever in
      map_device_loop ipa pa (S k) n'
  end.

Definition map_external_device_with_pa_bits (ipa pa size pa_bits : Z) :
    stateful machine TranslationError unit :=
  let! _ := slift (
    reject (size =? 0) || negb (is_page_aligned ipa) || negb (is_page_aligned pa)
        || negb (is_page_aligned size) with UnalignedMapping in
    let? ipa_end := ok_or (checked_add ipa size) AddressOverflow in
    let? pa_end := ok_or (checked_add pa size) AddressOverflow in
    reject Z.shiftl 1 IPA_BITS - 1 <? ipa_end - 1 with VirtualAddressOutOfRange in
    reject Z.shiftl 1 pa_bits - 1 <? pa_end - 1 with El2Stage1.PhysicalAddressOutOfRange in
    Ok tt) in
  map_device_loop ipa pa 0 (Z.to_nat ((size + (PAGE_SIZE - 1)) / PAGE_SIZE)).

Definition map_external_device (mmfr0 : option Z) (ipa pa size : Z) :
    stateful machine TranslationError unit :=
  let! _ := slift (
    reject negb (is_page_aligned ipa) || negb (is_page_aligned pa) || negb (is_aligned size PAGE_SIZE)
      with UnalignedMapping in Ok tt) in
  let! value := slift (ok_or mmfr0 Unexpected) in
  let! pa_bits := slift (ok_or (mmfr0_pa_bits value) Unexpected) in
  map_external_device_with_pa_bits ipa pa size pa_bits.

(** *** Release *)

(** [if let Err(e) = mm::free_page(pa) { println!(..) }]. *)
Definition free_logged (pa : Z) : stateful machine AllocatorError unit := fun s =>
  match on_mm (ps_free_page pa) s with
  | (Err _, s') => (Ok tt, s')
  | r => r
  end.

Fixpoint free_all (pages : list Z) : stateful machine AllocatorError unit :=
  match pages with
  | [] => sret tt
  | pa :: rest => let! _ := free_logged pa in free_all rest
  end.

(** The pages [release_all] frees for one entry, in order. *)
Definition release_pages (m : VmMem) : outcome AllocatorError (list Z) :=
  match m with
  | IpaOnly _ => Ok []
  | IpaPa region => table_pages (ip_pa region) 0 (Z.to_nat (ip_size region / PAGE_SIZE))
  | PaOnly region => Ok (po_pa region)
  end.

Fixpoint release_mems (mems : list VmMem) : stateful machine AllocatorError unit :=
  match mems with
  | [] => sret tt
  | m :: rest =>
      let! pages := slift (release_pages m) in
      let! _ := free_all pages in
      release_mems rest
  end.

Definition release_all : stateful machine AllocatorError unit :=
  let! mems := sread (fun s => vm_mem (vm s)) in
  let! _ := release_mems mems in
  set_mems (fun _ => []).

End Methods.
Arguments machine : clear implicits.
