(* ===== verification/Stage2Tree.v ===== *)
(** * Stage-2 tables in memory

    The tree of stage-2 tables a root designates in physical memory, as the
    hardware walks it: [s2_hop] reaches a table, [s2_leaf] reads the level 3
    descriptor of an address.  [tables_wf] says that the tables form a tree
    inside a given set of pages.  The file shows how the two writes of
    [VmCtl::map_l3_page] (linking an empty table, filling a leaf) change the
    leaves; the arithmetic of levels and indices is that of [El2Stage1]. *)

From S2P Require Import Prelude Page El2Stage1 GuestStage2 Vmctl.

(** The table a level 1 or level 2 descriptor designates. *)
Definition s2_child (d : Z) : option Z :=
  if Z.testbit d 0 && Z.testbit d 1 then Some (Z.land d S2_ADDRESS_MASK) else None.

(** The table a walk of [va] indexes at level [n + 1]. *)
Fixpoint s2_hop (m : Z -> Z) (root : Z) (n : nat) (va : Z) : option Z :=
  match n with
  | O => Some root
  | S n' => t ← s2_hop m root n' va; s2_child (m (slot t (idx (S n') va)))
  end.

(** The level 3 descriptor of [va]; zero where the walk stops before. *)
Definition s2_leaf (m : Z -> Z) (root va : Z) : Z :=
  match s2_hop m root 2 va with
  | Some t => m (slot t (idx 3 va))
  | None => 0
  end.

(** The result of a hardware walk: a fault, a block at level 1 or 2, a page, or
    a level 3 descriptor with reserved fields. *)
Inductive walk_result :=
| Fault
| Block (d : Z)
| Page (pa : Z) (mt : GuestStage2MemoryType) (ac : GuestStage2Access) (ex : GuestStage2Exec)
| Malformed (d : Z).

Definition s2_walk (m : Z -> Z) (root va : Z) : walk_result :=
  let e1 := m (slot root (idx 1 va)) in
  if negb (Z.testbit e1 0) then Fault
  else if negb (Z.testbit e1 1) then Block e1
  else
    let e2 := m (slot (Z.land e1 S2_ADDRESS_MASK) (idx 2 va)) in
    if negb (Z.testbit e2 0) then Fault
    else if negb (Z.testbit e2 1) then Block e2
    else
      let d := m (slot (Z.land e2 S2_ADDRESS_MASK) (idx 3 va)) in
      if negb (Z.testbit d 0) then Fault
      else match decode_l3_page_descriptor d with
           | Some (pa, mt, ac, ex) => Page pa mt ac ex
           | None => Malformed d
           end.

(** The reading of a level 3 descriptor. *)
Definition leaf_result (d : Z) : walk_result :=
  if negb (Z.testbit d 0) then Fault
  else match decode_l3_page_descriptor d with
       | Some (pa, mt, ac, ex) => Page pa mt ac ex
       | None => Malformed d
       end.

(** The page of the table in which [a] lies is one of [ts]. *)
Definition in_tables (ts : list Z) (a : Z) : Prop := exists t, t ∈ ts /\ t <= a < t + PAGE_SIZE.

Record tables_wf (m : Z -> Z) (root : Z) (ts : list Z) : Prop := {
  tw_root : root ∈ ts;
  tw_page : forall t, t ∈ ts -> 0 <= t < 2 ^ 48 /\ t mod PAGE_SIZE = 0;
  tw_in : forall n va t, (n <= 2)%nat -> va_ok va -> s2_hop m root n va = Some t -> t ∈ ts;
  (* no table is shared: two walks that meet have followed the same indices *)
  tw_tree : forall n n' va va' t, (n <= 2)%nat -> (n' <= 2)%nat -> va_ok va -> va_ok va' ->
    s2_hop m root n va = Some t -> s2_hop m root n' va' = Some t -> n = n' /\ pre n va = pre n va';
  (* there are no block descriptors *)
  tw_shape : forall n va t, (n <= 1)%nat -> va_ok va -> s2_hop m root n va = Some t ->
    m (slot t (idx (S n) va)) = 0 \/ is_Some (s2_child (m (slot t (idx (S n) va))))
}.

Lemma s2_hop_pre m root n va va' :
  (n <= 3)%nat -> va_ok va -> va_ok va' -> pre n va = pre n va' ->
  s2_hop m root n va = s2_hop m root n va'.
Proof.
  intros Hn Hv Hv'. induction n as [|n IH]; intros Hp; [done|].
  apply pre_S_iff in Hp as [Hp Hi]; [|lia|done|done]. simpl. rewrite IH, Hi by (done || lia). done.
Qed.

Lemma s2_leaf_page m root va va' :
  va_ok va -> va_ok va' -> pre 3 va = pre 3 va' -> s2_leaf m root va = s2_leaf m root va'.
Proof.
  intros Hv Hv' Hp. apply pre_S_iff in Hp as [Hp Hi]; [|lia|done|done].
  unfold s2_leaf. by rewrite (s2_hop_pre m root 2 va va'), Hi by (done || lia).
Qed.

(** ** Slots of distinct tables are distinct words *)

Lemma slot_in_page t i : (i < 512)%nat -> t <= slot t i < t + PAGE_SIZE.
Proof. unfold slot, PAGE_SIZE. lia. Qed.

Lemma page_unique t t' a :
  t mod PAGE_SIZE = 0 -> t' mod PAGE_SIZE = 0 ->
  t <= a < t + PAGE_SIZE -> t' <= a < t' + PAGE_SIZE -> t = t'.
Proof. unfold PAGE_SIZE. intros. Z.to_euclidean_division_equations. lia. Qed.

Lemma slot_inj t t' i i' :
  t mod PAGE_SIZE = 0 -> t' mod PAGE_SIZE = 0 -> (i < 512)%nat -> (i' < 512)%nat ->
  slot t i = slot t' i' -> t = t' /\ i = i'.
Proof.
  intros Ht Ht' Hi Hi' Hs. assert (t = t') as <-.
  { apply (page_unique t t' (slot t i)); [done..|by apply slot_in_page|rewrite Hs; by apply slot_in_page]. }
  split; [done|]. unfold slot in Hs. lia.
Qed.

Section Tree.
Context (m : Z -> Z) (root : Z) (ts : list Z) (Hwf : tables_wf m root ts).

Lemma s2_hop_page n va t :
  (n <= 2)%nat -> va_ok va -> s2_hop m root n va = Some t -> t mod PAGE_SIZE = 0.
Proof using Hwf.
  intros Hn Hv Ht. eapply (tw_page _ _ _ Hwf), (tw_in _ _ _ Hwf); eauto.
Qed.

(** Two walks that read the same word agree on every index so far. *)
Lemma s2_slot_unique n n' va va' t t' :
  (n <= 2)%nat -> (n' <= 2)%nat -> va_ok va -> va_ok va' ->
  s2_hop m root n va = Some t -> s2_hop m root n' va' = Some t' ->
  slot t (idx (S n) va) = slot t' (idx (S n') va') ->
  n = n' /\ t = t' /\ pre (S n) va = pre (S n) va'.
Proof using Hwf.
  intros Hn Hn' Hv Hv' H1 H2 Hs.
  apply slot_inj in Hs as [<- Hi]; eauto using idx_lt, s2_hop_page.
  destruct (tw_tree _ _ _ Hwf n n' va va' t) as [<- Hp]; [done..|].
  split; [done|]. split; [done|]. apply pre_S_iff; done.
Qed.

(** In a tree of tables the walk is the reading of the leaf. *)
Lemma s2_walk_leaf va : va_ok va -> s2_walk m root va = leaf_result (s2_leaf m root va).
Proof using Hwf.
  intros Hva. unfold s2_walk, s2_leaf. cbn [s2_hop mbind option_bind].
  destruct (tw_shape _ _ _ Hwf 0 va root ltac:(lia) Hva eq_refl) as [H1|[t1 H1]].
  { by rewrite H1. }
  pose proof H1 as H1'. unfold s2_child in H1'.
  destruct (Z.testbit (m (slot root (idx 1 va))) 0), (Z.testbit (m (slot root (idx 1 va))) 1); try done.
  injection H1' as ->. rewrite H1. cbn [negb mbind option_bind].
  destruct (tw_shape _ _ _ Hwf 1 va t1 ltac:(lia) Hva) as [H2|[t2 H2]]; [by cbn; rewrite H1|by rewrite H2|].
  pose proof H2 as H2'. unfold s2_child in H2'.
  destruct (Z.testbit (m (slot t1 (idx 2 va))) 0), (Z.testbit (m (slot t1 (idx 2 va))) 1); try done.
  injection H2' as ->. by rewrite H2.
Qed.

(** *** Linking an empty table *)

Section Link.
Context (m' : Z -> Z) (n : nat) (va t c D : Z).
Context (Hn : (n <= 1)%nat) (Hva : va_ok va) (Ht : s2_hop m root n va = Some t).
Context (Hempty : s2_child (m (slot t (idx (S n) va))) = None).
Context (Hfresh : c ∉ ts) (Hc : 0 <= c < 2 ^ 48 /\ c mod PAGE_SIZE = 0).
Context (HD : s2_child D = Some c).
Context (Hm' : forall a, m' a =
  if a =? slot t (idx (S n) va) then D
  else if (c <=? a) && (a <? c + PAGE_SIZE) then 0 else m a).

Lemma link_new i : (i < 512)%nat -> m' (slot c i) = 0.
Proof using All.
  intros Hi. rewrite Hm'. pose proof (slot_in_page c i Hi).
  pose proof (tw_in _ _ _ Hwf n va t ltac:(lia) Hva Ht) as Hin.
  destruct (Z.eqb_spec (slot c i) (slot t (idx (S n) va))) as [E|_].
  { apply slot_inj in E as [<- _]; [done|apply Hc|by apply (tw_page _ _ _ Hwf)|done|apply idx_lt]. }
  by rewrite (proj2 (Z.leb_le _ _)), (proj2 (Z.ltb_lt _ _)) by lia.
Qed.

Lemma link_old t' i :
  t' ∈ ts -> (i < 512)%nat -> slot t' i <> slot t (idx (S n) va) -> m' (slot t' i) = m (slot t' i).
Proof using All.
  intros Hin Hi Hne. rewrite Hm', (proj2 (Z.eqb_neq _ _) Hne).
  destruct (_ && _) eqn:E; [|done]. bool_prop. exfalso. apply Hfresh.
  replace c with t'; [done|]. pose proof (slot_in_page t' i Hi).
  apply (page_unique t' c (slot t' i)); [by apply (tw_page _ _ _ Hwf)|apply Hc|lia|lia].
Qed.

Lemma link_hop n' va' :
  (n' <= 2)%nat -> va_ok va' ->
  s2_hop m' root n' va' =
    if (n <? n')%nat && (pre (S n) va' =? pre (S n) va) then
      if (n' =? S n)%nat then Some c else None
    else s2_hop m root n' va'.
Proof using All.
  intros Hn' Hva'. induction n' as [|n' IH]; [done|].
  cbn [s2_hop]. rewrite IH by lia. clear IH.
  assert (Hother : forall t', s2_hop m root n' va' = Some t' ->
    (n' <> n \/ pre (S n) va' <> pre (S n) va) ->
    m' (slot t' (idx (S n') va')) = m (slot t' (idx (S n') va'))).
  { intros t' E Hd. apply link_old; [by eapply (tw_in _ _ _ Hwf); [| |exact E]; [lia|]|apply idx_lt|].
    intros Es. destruct (s2_slot_unique n' n va' va t' t) as (-> & _ & ?); try done; [lia..|]. by destruct Hd. }
  destruct (Z.eqb_spec (pre (S n) va') (pre (S n) va)) as [Hs|Hd]; rewrite ?andb_true_r, ?andb_false_r.
  2:{ destruct (s2_hop m root n' va') as [t'|] eqn:E; simpl; [|done]. by rewrite Hother by auto. }
  destruct (Nat.ltb_spec n n') as [Hlt|Hge].
  { rewrite (proj2 (Nat.ltb_lt n (S n'))), (proj2 (Nat.eqb_neq (S n') (S n))) by lia.
    destruct (Nat.eqb_spec n' (S n)); [|done]. simpl. rewrite link_new by apply idx_lt. done. }
  destruct (Nat.ltb_spec n (S n')) as [Hlt|?].
  - assert (n' = n) as -> by lia. rewrite Nat.eqb_refl.
    pose proof Hs as [Hp Hi]%pre_S_iff; [|lia|done|done].
    rewrite (s2_hop_pre m root n va' va), Ht by (done || lia). simpl. by rewrite Hm', Hi, Z.eqb_refl.
  - destruct (s2_hop m root n' va') as [t'|] eqn:E; simpl; [|done]. by rewrite Hother by (auto; lia).
Qed.

Lemma link_hop_inv k v x :
  (k <= 2)%nat -> va_ok v -> s2_hop m' root k v = Some x ->
  (x = c /\ k = S n /\ pre (S n) v = pre (S n) va) \/ (s2_hop m root k v = Some x /\ x ∈ ts).
Proof using All.
  intros Hk Hv. rewrite link_hop by done. destruct (_ && _) eqn:E; bool_prop.
  - destruct (Nat.eqb_spec k (S n)); [|done]. intros [= <-]. auto.
  - intros Hx. right. split; [done|]. by eapply (tw_in _ _ _ Hwf).
Qed.

Lemma link_wf : tables_wf m' root (ts ++ [c]).
Proof using All.
  split.
  - apply elem_of_app. left. apply Hwf.
  - intros x [Hx|Hx%list_elem_of_singleton]%elem_of_app; [by apply Hwf|by subst].
  - intros k v x Hk Hv Hx. apply elem_of_app.
    apply link_hop_inv in Hx as [(-> & _)|[_ ?]]; [right; by apply list_elem_of_singleton|by left|done..].
  - intros k k' v v' x Hk Hk' Hv Hv' H1 H2. apply link_hop_inv in H1, H2; [|done..].
    destruct H1 as [(-> & -> & H1)|[H1 ?]], H2 as [(? & ? & H2)|[H2 ?]]; subst; try done.
    + split; [done|]. congruence.
    + by apply (tw_tree _ _ _ Hwf) with x.
  - intros k v x Hk Hv Hx. pose proof Hx as Hx'. apply link_hop_inv in Hx as [(-> & _)|[Hx Hin]]; [| |lia|done].
    { left. apply link_new, idx_lt. }
    destruct (decide (slot x (idx (S k) v) = slot t (idx (S n) va))) as [E|E].
    { rewrite E, Hm', Z.eqb_refl, HD. eauto. }
    rewrite link_old by (done || apply idx_lt). by apply (tw_shape _ _ _ Hwf).
Qed.

Lemma link_leaf va' : va_ok va' -> s2_leaf m' root va' = s2_leaf m root va'.
Proof using All.
  intros Hva'. unfold s2_leaf. rewrite link_hop by (done || lia). destruct (_ && _) eqn:E.
  - bool_prop. replace (s2_hop m root 2 va') with (@None Z).
    2:{ assert (Hh : s2_hop m root (S n) va' = None).
        { pose proof H0 as [Hp Hi]%pre_S_iff; [|lia|done|done]. cbn [s2_hop].
          rewrite (s2_hop_pre m root n va' va), Ht by (done || lia). simpl. by rewrite Hi. }
        destruct n as [|[|]]; [|done|lia]. cbn [s2_hop] in *. by rewrite Hh. }
    destruct (_ =? _)%nat; [|done]. apply link_new, idx_lt.
  - destruct (s2_hop m root 2 va') as [t'|] eqn:E2; [|done].
    apply link_old; [by eapply (tw_in _ _ _ Hwf 2)|apply idx_lt|]. intros Es.
    destruct (s2_slot_unique 2 n va' va t' t) as (? & _); try done; lia.
Qed.

End Link.

(** *** Filling a leaf *)

Section Fill.
Context (m' : Z -> Z) (va t d : Z) (Hva : va_ok va) (Ht : s2_hop m root 2 va = Some t).
Context (Hm' : forall a, m' a = if a =? slot t (idx 3 va) then d else m a).

Lemma fill_hop n va' : (n <= 2)%nat -> va_ok va' -> s2_hop m' root n va' = s2_hop m root n va'.
Proof using All.
  intros Hn Hva'. induction n as [|n IH]; [done|]. cbn [s2_hop]. rewrite IH by lia.
  destruct (s2_hop m root n va') as [t'|] eqn:E; simpl; [|done]. rewrite Hm'.
  destruct (Z.eqb_spec (slot t' (idx (S n) va')) (slot t (idx 3 va))) as [Es|]; [|done].
  destruct (s2_slot_unique n 2 va' va t' t) as (? & _); try done; lia.
Qed.

Lemma fill_wf : tables_wf m' root ts.
Proof using All.
  split; [apply Hwf..| | |].
  - intros k v x Hk Hv. rewrite fill_hop by done. by apply Hwf.
  - intros k k' v v' x Hk Hk' Hv Hv'. rewrite !fill_hop by done. by apply Hwf.
  - intros k v x Hk Hv. rewrite fill_hop by (done || lia). intros Hx. rewrite Hm'.
    destruct (Z.eqb_spec (slot x (idx (S k) v)) (slot t (idx 3 va))) as [Es|]; [|by apply Hwf].
    destruct (s2_slot_unique k 2 v va x t) as (? & _); try done; lia.
Qed.

Lemma fill_leaf va' :
  va_ok va' -> s2_leaf m' root va' = if pre 3 va' =? pre 3 va then d else s2_leaf m root va'.
Proof using All.
  intros Hva'. unfold s2_leaf. rewrite fill_hop by (done || lia).
  destruct (Z.eqb_spec (pre 3 va') (pre 3 va)) as [Hp|Hd].
  - pose proof Hp as [Hp2 Hi]%pre_S_iff; [|lia|done|done].
    rewrite (s2_hop_pre m root 2 va' va), Ht by (done || lia). by rewrite Hm', Hi, Z.eqb_refl.
  - destruct (s2_hop m root 2 va') as [t'|] eqn:E; [|done]. rewrite Hm'.
    destruct (Z.eqb_spec (slot t' (idx 3 va')) (slot t (idx 3 va))) as [Es|]; [|done].
    destruct (s2_slot_unique 2 2 va' va t' t) as (_ & _ & ?); try done.
Qed.

End Fill.

(** *** Memory outside the tables *)

Lemma frame_hop m' :
  (forall a, in_tables ts a -> m' a = m a) ->
  forall n va, (n <= 2)%nat -> va_ok va -> s2_hop m' root n va = s2_hop m root n va.
Proof using Hwf.
  intros Hf n va Hn Hva. induction n as [|n IH]; [done|]. cbn [s2_hop]. rewrite IH by lia.
  destruct (s2_hop m root n va) as [t|] eqn:E; simpl; [|done]. rewrite Hf; [done|].
  exists t. split; [by eapply (tw_in _ _ _ Hwf n); [lia| |]|apply slot_in_page, idx_lt].
Qed.

Lemma frame_slot m' n va t :
  (forall a, in_tables ts a -> m' a = m a) -> (n <= 2)%nat -> va_ok va -> s2_hop m root n va = Some t ->
  m' (slot t (idx (S n) va)) = m (slot t (idx (S n) va)).
Proof using Hwf.
  intros Hf Hn Hva E. apply Hf. exists t. split; [by eapply (tw_in _ _ _ Hwf n)|apply slot_in_page, idx_lt].
Qed.

Lemma frame_wf m' : (forall a, in_tables ts a -> m' a = m a) -> tables_wf m' root ts.
Proof using Hwf.
  intros Hf. split; [apply Hwf..| | |].
  - intros n va t Hn Hva. rewrite (frame_hop m') by done. by apply Hwf.
  - intros n n' va va' t Hn Hn' Hva Hva'. rewrite !(frame_hop m') by done. by apply Hwf.
  - intros n va t Hn Hva. rewrite (frame_hop m') by (done || lia). intros Ht.
    rewrite (frame_slot m' n va t) by (done || lia). by apply Hwf.
Qed.

Lemma frame_leaf m' va :
  (forall a, in_tables ts a -> m' a = m a) -> va_ok va -> s2_leaf m' root va = s2_leaf m root va.
Proof using Hwf.
  intros Hf Hva. unfold s2_leaf. rewrite (frame_hop m') by (done || lia).
  destruct (s2_hop m root 2 va) as [t|] eqn:E; [|done]. by apply (frame_slot m' 2 va t).
Qed.

End Tree.

(** A root page of zeroes is an empty tree. *)
Lemma empty_tables m root ts :
  root ∈ ts -> (forall t, t ∈ ts -> 0 <= t < 2 ^ 48 /\ t mod PAGE_SIZE = 0) ->
  (forall i, (i < 512)%nat -> m (slot root i) = 0) ->
  tables_wf m root ts /\ forall va, va_ok va -> s2_leaf m root va = 0.
Proof.
  intros Hr Hp Hz.
  assert (Hh : forall n va t, s2_hop m root n va = Some t -> n = 0%nat /\ t = root).
  { intros n va. induction n as [|n IH]; intros t; [by intros [= <-]|]. cbn [s2_hop].
    destruct (s2_hop m root n va) as [t'|]; [|done]. destruct (IH t' eq_refl) as [-> ->]. simpl.
    by rewrite Hz by apply idx_lt. }
  split; [split; [done..| | |]|].
  - by intros n va t _ _ [-> ->]%Hh.
  - by intros n n' va va' t _ _ _ _ [-> ->]%Hh [-> _]%Hh.
  - intros n va t _ _ [-> ->]%Hh. left. apply Hz, idx_lt.
  - intros va Hva. unfold s2_leaf. destruct (s2_hop m root 2 va) as [t|] eqn:E; [|done].
    by apply Hh in E as [? _].
Qed.
