(* ===== verification/VmIsolation.v ===== *)
(** * What a VM owns and what its guest reaches

    The invariant of a VM (src/src/vmctl.rs) and the theorems about its
    methods.  [accounts] ties the pages a VM owns to the page source: against
    the source as it was when the VM was created, exactly these pages changed
    hands.  [regions_wf] is the shape of the VM's list of regions.  [maps] says
    that the stage-2 tables form a tree in the VM's own table pages and that
    every leaf leads to the VM's memory or to a device mapped on purpose.  All
    methods keep the invariant, on success and on error. *)

From S2P Require Import Prelude Page SystemInfo PageAllocator El2Stage1 GuestStage2 GuestPlatform Vcpu Mm Vmctl Stage2Tree.

(** ** Pages *)

(** The [n] pages from [pa] on. *)
Definition run_pages (pa : Z) (n : nat) : list Z := (fun k => pa + Z.of_nat k * PAGE_SIZE) <$> seq 0 n.

Definition mem_pages (m : VmMem) : list Z :=
  match m with
  | IpaOnly _ => []
  | IpaPa r => run_pages (ip_pa r) (Z.to_nat (ip_size r / PAGE_SIZE))
  | PaOnly r => po_pa r
  end.

(** The physical pages of a VM, and those that hold its stage-2 tables. *)
Definition owned (mems : list VmMem) : list Z := mems ≫= mem_pages.

Definition tables (mems : list VmMem) : list Z :=
  match find_usage GuestStage2PageTable mems with Some (PaOnly r) => po_pa r | _ => [] end.

Lemma elem_of_run_pages pa n a :
  a ∈ run_pages pa n <-> exists k, (k < n)%nat /\ a = pa + Z.of_nat k * PAGE_SIZE.
Proof.
  unfold run_pages. rewrite list_elem_of_fmap. split.
  - intros (k & -> & Hk%elem_of_seq). exists k. split; [lia|done].
  - intros (k & Hk & ->). exists k. split; [done|]. apply elem_of_seq. lia.
Qed.

Lemma run_pages_index p n i :
  Z.of_nat i * PAGE_SIZE ∈ run_pages (Z.of_nat p * PAGE_SIZE) n <-> (p <= i < p + n)%nat.
Proof.
  rewrite elem_of_run_pages. unfold PAGE_SIZE. split.
  - intros (k & Hk & He). lia.
  - intros Hi. exists (i - p)%nat. lia.
Qed.

Lemma run_pages_NoDup pa n : NoDup (run_pages pa n).
Proof.
  apply NoDup_fmap_2; [|apply NoDup_seq]. intros i j. unfold PAGE_SIZE. lia.
Qed.

Lemma run_pages_S pa n : run_pages pa (S n) = pa :: run_pages (pa + PAGE_SIZE) n.
Proof.
  unfold run_pages. cbn [seq]. rewrite fmap_cons, <- fmap_S_seq, <- list_fmap_compose. f_equal; [lia|].
  apply list_fmap_ext. intros k x _. simpl. unfold PAGE_SIZE. lia.
Qed.

Lemma table_pages_run {E} phy p n :
  0 <= phy -> phy + Z.of_nat (p + n) * PAGE_SIZE <= 2 ^ 48 ->
  table_pages (E:=E) phy p n = Ok (run_pages (phy + Z.of_nat p * PAGE_SIZE) n).
Proof.
  revert p. induction n as [|n IH]; intros p H0 Hb; [done|]. unfold PAGE_SIZE in *. cbn [table_pages].
  unfold PAGE_SIZE. rewrite mul64_ok by lia. cbn [obind]. rewrite add64_ok by lia. cbn [obind].
  rewrite IH by lia. cbn [obind]. rewrite run_pages_S. unfold PAGE_SIZE. do 3 f_equal. lia.
Qed.

(** ** Accounting *)

Section Accounts.
Context {G : Type} `{HS : PageSource G} (base : G).

(** Starting from [base], exactly [pages] were taken from the source. *)
Record accounts (pages : list Z) (g : G) : Prop := {
  ac_base : ps_ok base;
  ac_ok : ps_ok g;
  ac_total : ps_total g = ps_total base;
  ac_nodup : NoDup pages;
  ac_pages : forall pa, pa ∈ pages -> exists i, pa = Z.of_nat i * PAGE_SIZE /\ (i < ps_limit)%nat /\
    ps_state base i = Unused;
  ac_state : forall i, ps_state g i =
    if decide (Z.of_nat i * PAGE_SIZE ∈ pages) then InUse else ps_state base i
}.

#[export] Instance accounts_perm : Proper ((≡ₚ) ==> (=) ==> (iff)) accounts.
Proof.
  assert (Hi : forall l l' g, l ≡ₚ l' -> accounts l g -> accounts l' g).
  { intros l l' g Hp []. split; [done..|by rewrite <- Hp| |].
    - intros pa. rewrite <- Hp. auto.
    - intros i. rewrite ac_state0. apply decide_ext. by rewrite Hp. }
  intros l l' Hp g g' <-. split; apply Hi; [done|by symmetry].
Qed.

Lemma accounts_init : ps_ok base -> accounts [] base.
Proof. intros Hb. split; [done..|constructor|by intros pa ?%elem_of_nil|done]. Qed.

(** A VM that owns nothing has returned everything. *)
Lemma accounts_nil g : accounts [] g -> g = base.
Proof. intros []. apply ps_ext; [done..|]. intros i. by rewrite ac_state0. Qed.

Lemma accounts_alloc pages g n pa g' :
  accounts pages g -> (0 < n)%nat -> ps_allocate_contiguous_pages n g = (Ok pa, g') ->
  accounts (pages ++ run_pages pa n) g' /\
  exists p, pa = Z.of_nat p * PAGE_SIZE /\ (p + n <= ps_limit)%nat.
Proof.
  intros [] Hn Ha. pose proof (ps_allocate_spec n g ac_ok0 Hn) as Hp. rewrite Ha in Hp.
  destruct Hp as (p & -> & Hlim & Hun & Hok & Htot & Hst). split; [|eauto].
  assert (Hnew : forall i, (p <= i < p + n)%nat -> Z.of_nat i * PAGE_SIZE ∉ pages /\ ps_state base i = Unused).
  { intros i Hi. pose proof (Hun i Hi) as Hu. rewrite ac_state0 in Hu. by destruct (decide _). }
  split; [done..|congruence| | |].
  - apply NoDup_app. split; [done|]. split; [|apply run_pages_NoDup].
    intros a Hin (k & Hk & ->)%elem_of_run_pages. apply (proj1 (Hnew (p + k)%nat ltac:(lia))).
    by replace (Z.of_nat (p + k) * PAGE_SIZE) with (Z.of_nat p * PAGE_SIZE + Z.of_nat k * PAGE_SIZE) by lia.
  - intros a [Hin|(k & Hk & ->)%elem_of_run_pages]%elem_of_app; [auto|].
    exists (p + k)%nat. split_and!; [lia|lia|]. apply Hnew. lia.
  - intros i. rewrite Hst, ac_state0. destruct (_ && _) eqn:E.
    + bool_prop. rewrite decide_True; [done|]. apply elem_of_app. right. apply run_pages_index. lia.
    + apply decide_ext. rewrite elem_of_app, run_pages_index.
      split; [by left|]. intros [?|Hi]; [done|]. exfalso. bool_prop. destruct E; bool_prop; lia.
Qed.

Lemma accounts_free pages g pa :
  accounts (pa :: pages) g -> exists g', ps_free_page pa g = (Ok tt, g') /\ accounts pages g'.
Proof.
  intros []. destruct (ac_pages0 pa (list_elem_of_here _ _)) as (i & -> & Hi & Hb).
  apply NoDup_cons in ac_nodup0 as [Hni Hnd].
  destruct (ps_free_spec i g ac_ok0 Hi) as (g' & Hf & Hok & Htot & Hst).
  { rewrite ac_state0, decide_True; [done|]. by left. }
  exists g'. split; [done|]. split; [done..|congruence|done|intros; apply ac_pages0; by right|].
  intros j. rewrite Hst. destruct (Nat.eqb_spec j i) as [->|Hne].
  - by rewrite decide_False.
  - rewrite ac_state0. apply decide_ext. rewrite elem_of_cons. split; [|by right].
    intros [He|?]; [|done]. unfold PAGE_SIZE in He. lia.
Qed.

Lemma accounts_page pages g pa :
  accounts pages g -> pa ∈ pages -> 0 <= pa < 2 ^ 48 /\ pa mod PAGE_SIZE = 0.
Proof.
  intros H Hin. destruct (ac_pages _ _ H pa Hin) as (i & -> & Hi & _).
  pose proof ps_limit_48 as Hl. split; [unfold PAGE_SIZE in *; lia|by apply Z.mod_mul].
Qed.
End Accounts.

(** ** Regions *)

(** A non-empty page-aligned window of the 39-bit guest space. *)
Definition window (start size : Z) : Prop :=
  0 <= start /\ 0 < size /\ start mod PAGE_SIZE = 0 /\ size mod PAGE_SIZE = 0 /\ start + size <= 2 ^ 39.

Definition region_wf (m : VmMem) : Prop :=
  match m with
  | IpaOnly r => io_usage r = Guard /\ window (io_base r) (io_size r)
  | IpaPa r =>
      needs_ipa (ip_usage r) = true /\ need_physical_memory (ip_usage r) = true /\
      window (ip_ipa r) (ip_size r)
  | PaOnly r => po_usage r = GuestStage2PageTable /\ po_pa r <> []
  end.

(** The guest addresses a region reserves. *)
Definition in_region (m : VmMem) (a : Z) : Prop :=
  match m with
  | IpaOnly r => io_base r <= a < io_base r + io_size r
  | IpaPa r => ip_ipa r <= a < ip_ipa r + ip_size r
  | PaOnly _ => False
  end.

Record regions_wf (mems : list VmMem) : Prop := {
  rw_each : Forall region_wf mems;
  rw_usages : NoDup (usage <$> mems);
  rw_disjoint : forall i j x y a, mems !! i = Some x -> mems !! j = Some y ->
    in_region x a -> in_region y a -> i = j;
  rw_budget : Z.of_nat (length (owned mems)) <= MAX_GUEST_MEM_PAGES
}.

Lemma regions_wf_nil : regions_wf [].
Proof. split; [constructor|constructor|done|done]. Qed.

Lemma physical_pages_length m : region_wf m -> physical_pages m = Z.of_nat (length (mem_pages m)).
Proof.
  destruct m as [r|r|r]; [done| |done]. intros (_ & _ & _ & Hs & _). cbn.
  unfold run_pages. rewrite length_fmap, length_seq, Z2Nat.id; [done|]. apply Z.div_pos; [lia|done].
Qed.

Lemma owned_app l l' : owned (l ++ l') = owned l ++ owned l'.
Proof. unfold owned. by rewrite bind_app. Qed.

Lemma owned_cons m l : owned (m :: l) = mem_pages m ++ owned l.
Proof. done. Qed.

Lemma sum_pages_owned {E} mems :
  regions_wf mems -> sum_pages (E:=E) mems = Ok (Z.of_nat (length (owned mems))).
Proof.
  intros [Hw _ _ Hb]. assert (Hlt : 0 + Z.of_nat (length (owned mems)) < 2 ^ 64) by (change MAX_GUEST_MEM_PAGES with 131584 in Hb; lia).
  clear Hb. unfold sum_pages.
  assert (H : forall acc, acc + Z.of_nat (length (owned mems)) < 2 ^ 64 ->
    fold_left (fun acc m => let? n := acc in add64 n (physical_pages m)) mems (Ok (E:=E) acc) =
    Ok (acc + Z.of_nat (length (owned mems)))).
  { clear Hlt. induction mems as [|m mems IH]; intros acc Hlt; cbn [fold_left].
    - simpl. f_equal. lia.
    - apply Forall_cons in Hw as [Hm Hw]. rewrite owned_cons, length_app in *.
      rewrite physical_pages_length by done. cbn [obind]. rewrite add64_ok by lia.
      rewrite (IH Hw) by lia. f_equal. lia. }
  rewrite H by done. f_equal.
Qed.

Lemma find_usage_Some u mems m : find_usage u mems = Some m -> m ∈ mems /\ usage m = u.
Proof.
  intros [Hi Hu]%find_some. apply bool_decide_eq_true in Hu. split; [by apply list_elem_of_In|done].
Qed.

Lemma find_usage_app u mems m :
  usage m <> u -> find_usage u (mems ++ [m]) = find_usage u mems.
Proof.
  intros Hu. unfold find_usage. induction mems as [|x mems IH]; cbn.
  - by rewrite bool_decide_false.
  - by destruct (bool_decide _).
Qed.

Lemma find_usage_new u mems m :
  u ∉ usage <$> mems -> usage m = u -> find_usage u (mems ++ [m]) = Some m.
Proof.
  intros Hn Hu. unfold find_usage. induction mems as [|x mems IH]; cbn.
  - by rewrite bool_decide_true.
  - apply not_elem_of_cons in Hn as [Hx Hn]. rewrite bool_decide_false by congruence. auto.
Qed.

Lemma usage_taken mems u :
  existsb (fun v => bool_decide (usage v = u)) mems = bool_decide (u ∈ usage <$> mems).
Proof.
  induction mems as [|m mems IH]; cbn [existsb fmap list_fmap]; [by rewrite bool_decide_false by apply not_elem_of_nil|].
  rewrite IH. destruct (decide (usage m = u)) as [Hu|Hu].
  - rewrite (bool_decide_true (usage m = u)) by done. symmetry. apply bool_decide_true.
    apply elem_of_cons. by left.
  - rewrite (bool_decide_false (usage m = u)) by done. apply bool_decide_ext.
    rewrite elem_of_cons. split; [by right|]. by intros [->|?].
Qed.

Lemma tables_owned mems t : t ∈ tables mems -> t ∈ owned mems.
Proof.
  unfold tables. destruct (find_usage _ mems) as [[r|r|r]|] eqn:E; [by intros ?%elem_of_nil..| |by intros ?%elem_of_nil].
  intros Ht. apply find_usage_Some in E as [Hi _]. unfold owned. apply list_elem_of_bind. by exists (PaOnly r).
Qed.

(** *** Adding a region *)

Lemma owned_snoc mems m : owned (mems ++ [m]) = owned mems ++ mem_pages m.
Proof. rewrite owned_app, owned_cons. by rewrite app_nil_r. Qed.

Lemma regions_wf_snoc mems m :
  regions_wf mems -> region_wf m -> usage m ∉ usage <$> mems ->
  (forall x a, x ∈ mems -> in_region m a -> ~ in_region x a) ->
  Z.of_nat (length (owned mems ++ mem_pages m)) <= MAX_GUEST_MEM_PAGES ->
  regions_wf (mems ++ [m]).
Proof.
  intros [Hw Hu Hd Hb] Hm Hn Hdm Hbm. split.
  - apply Forall_app. split; [done|by apply Forall_singleton].
  - rewrite fmap_app. apply NoDup_app. split; [done|]. split; [|apply NoDup_singleton].
    by intros x Hx ->%list_elem_of_singleton.
  - intros i j x y a Hi Hj Hx Hy.
    apply lookup_app_Some in Hi as [Hi|[Hi1 [Hi2 <-]%list_lookup_singleton_Some]];
      apply lookup_app_Some in Hj as [Hj|[Hj1 [Hj2 <-]%list_lookup_singleton_Some]].
    + by eapply Hd.
    + exfalso. eapply Hdm; eauto using list_elem_of_lookup_2.
    + exfalso. eapply Hdm; eauto using list_elem_of_lookup_2.
    + lia.
  - by rewrite owned_snoc.
Qed.

(** *** Adding a table page *)

Lemma push_table_split mems r c :
  find_usage GuestStage2PageTable mems = Some (PaOnly r) ->
  exists l1 l2, mems = l1 ++ PaOnly r :: l2 /\ GuestStage2PageTable ∉ usage <$> l1 /\
    push_table c mems = l1 ++ PaOnly (mkPa (po_usage r) (po_pa r ++ [c])) :: l2.
Proof.
  induction mems as [|m mems IH]; cbn; [done|]. case_bool_decide as Hu.
  - intros [= ->]. exists [], mems. rewrite decide_True by done.
    split_and!; [done|by apply not_elem_of_nil|done].
  - intros Hf. rewrite decide_False by done. destruct (IH Hf) as (l1 & l2 & -> & Hn & ->).
    exists (m :: l1), l2. split_and!; [done| |done]. apply not_elem_of_cons. split; [congruence|done].
Qed.

Lemma push_table_regions mems r c :
  regions_wf mems -> find_usage GuestStage2PageTable mems = Some (PaOnly r) ->
  Z.of_nat (length (owned mems)) < MAX_GUEST_MEM_PAGES ->
  regions_wf (push_table c mems) /\ owned (push_table c mems) ≡ₚ owned mems ++ [c] /\
  tables (push_table c mems) = tables mems ++ [c] /\
  (forall x, IpaPa x ∈ push_table c mems <-> IpaPa x ∈ mems) /\
  (forall u, u <> GuestStage2PageTable -> find_usage u (push_table c mems) = find_usage u mems).
Proof.
  intros [Hw Hu Hd Hb] Hf Hlt. pose proof (find_usage_Some _ _ _ Hf) as [_ Hru]. cbn in Hru.
  destruct (push_table_split mems r c Hf) as (l1 & l2 & -> & Hn & ->).
  set (r' := mkPa (po_usage r) (po_pa r ++ [c])).
  assert (Hp : owned (l1 ++ PaOnly r' :: l2) ≡ₚ owned (l1 ++ PaOnly r :: l2) ++ [c]).
  { rewrite !owned_app, !owned_cons. cbn [mem_pages r' po_pa]. rewrite <- !(assoc_L (++)). apply Permutation_app_head.
    apply Permutation_app_head, Permutation_app_comm. }
  split_and!.
  - split.
    + rewrite !Forall_app, !Forall_cons in *. destruct Hw as (? & [? ?] & ?). split_and!; try done.
      cbn. by destruct (po_pa r).
    + rewrite fmap_app, fmap_cons in *. done.
    + intros i j x y a Hi Hj Hx Hy.
      assert (Hsame : forall k z b, (l1 ++ PaOnly r' :: l2) !! k = Some z -> in_region z b ->
                (l1 ++ PaOnly r :: l2) !! k = Some z).
      { intros k z b Hk Hz. apply lookup_app_Some in Hk as [Hk|[Hk1 Hk]]; [by apply lookup_app_l_Some|].
        rewrite lookup_app_r by done. destruct (k - length l1)%nat; [|done]. cbn in Hk. by simplify_eq. }
      eapply Hd; eauto.
    + rewrite Hp, length_app. cbn. lia.
  - done.
  - unfold tables. rewrite Hf. unfold find_usage. clear -Hn Hru.
    induction l1 as [|x l1 IH]; cbn in *; [by rewrite bool_decide_true|].
    apply not_elem_of_cons in Hn as [? ?]. rewrite bool_decide_false by congruence. auto.
  - intros x. rewrite !elem_of_app, !elem_of_cons. naive_solver.
  - intros u Hne. clear -Hne Hru. unfold find_usage. induction l1 as [|x l1 IH]; cbn.
    + by rewrite !bool_decide_false by congruence.
    + by rewrite IH.
Qed.

(** ** What the guest reaches *)

(** A window of a host device that was mapped into the guest. *)
Record device_window := mkWindow { dv_ipa : Z; dv_pa : Z; dv_size : Z }.

Definition page_base (va : Z) : Z := va - va mod PAGE_SIZE.

(** The guest page at [v] may be backed by [pa]: it is the page of a region of
    the VM, or of a device window, at the same offset. *)
Definition backed (devs : list device_window) (mems : list VmMem) (v pa : Z) : Prop :=
  (exists r, IpaPa r ∈ mems /\ ip_ipa r <= v < ip_ipa r + ip_size r /\ pa = ip_pa r + (v - ip_ipa r)) \/
  (exists d, d ∈ devs /\ dv_ipa d <= v < dv_ipa d + dv_size d /\ pa = dv_pa d + (v - dv_ipa d)).

Definition leaf_ok (devs : list device_window) (mems : list VmMem) (va d : Z) : Prop :=
  d = 0 \/ exists pa mt ac ex, d = encode_l3_page_descriptor pa mt ac ex /\
    0 <= pa < 2 ^ 48 /\ pa mod PAGE_SIZE = 0 /\ backed devs mems (page_base va) pa.

Definition maps (devs : list device_window) (mems : list VmMem) (m : Z -> Z) : Prop :=
  match tables mems with
  | [] => True
  | root :: _ =>
      tables_wf m root (tables mems) /\ forall va, va_ok va -> leaf_ok devs mems va (s2_leaf m root va)
  end.

Section Machine.
Context {G : Type} `{HS : PageSource G} (base : G).
Implicit Types (s : machine G) (devs : list device_window).

Notation mems s := (vm_mem (vm s)).

Record vm_ok devs s : Prop := {
  vo_accounts : accounts base (owned (mems s)) (mm s);
  vo_regions : regions_wf (mems s);
  vo_maps : maps devs (mems s) (mem s)
}.

(** The stage-2 leaf of a guest address; zero before there are tables. *)
Definition leaf_of s (va : Z) : Z :=
  match tables (mems s) with [] => 0 | root :: _ => s2_leaf (mem s) root va end.

(** [s'] has the regions of [s], possibly more table pages, and the same
    memory outside the tables. *)
Record grows s s' : Prop := {
  gr_tables : exists new, tables (mems s') = tables (mems s) ++ new;
  gr_backing : forall r, IpaPa r ∈ mems s' <-> IpaPa r ∈ mems s;
  gr_find : forall u, u <> GuestStage2PageTable -> find_usage u (mems s') = find_usage u (mems s);
  gr_vm : vm_id (vm s') = vm_id (vm s) /\ vcpus (vm s') = vcpus (vm s);
  gr_frame : forall a, ~ in_tables (tables (mems s')) a -> mem s' a = mem s a
}.

Lemma grows_refl s : grows s s.
Proof. split; try done. exists []. by rewrite app_nil_r. Qed.

Lemma grows_trans s s' s'' : grows s s' -> grows s' s'' -> grows s s''.
Proof.
  intros [(n1 & T1) B1 F1 [V1 W1] M1] [(n2 & T2) B2 F2 [V2 W2] M2]. split.
  - exists (n1 ++ n2). by rewrite T2, T1, <- (assoc_L (++)).
  - intros r. by rewrite B2.
  - intros u Hu. by rewrite F2, F1.
  - split; congruence.
  - intros a Ha. rewrite M2, M1; [done| |done]. intros (t & Ht & Hr). apply Ha.
    exists t. split; [|done]. rewrite T2. apply elem_of_app. by left.
Qed.

(** No further page is available for a table. *)
Definition cannot_grow s : Prop :=
  Z.of_nat (length (owned (mems s))) = MAX_GUEST_MEM_PAGES \/ fst (ps_allocate_page (mm s)) = Err Exhausted.

Lemma tables_find s root rest :
  tables (mems s) = root :: rest ->
  exists r, find_usage GuestStage2PageTable (mems s) = Some (PaOnly r) /\ po_pa r = root :: rest.
Proof.
  unfold tables. destruct (find_usage GuestStage2PageTable (mems s)) as [[r|r|r]|]; try done. eauto.
Qed.

Lemma root_spec {E} devs s root rest :
  vm_ok devs s -> tables (mems s) = root :: rest ->
  guest_stage2_page_table_root (E:=E) (vm s) = Ok (Some root).
Proof.
  intros _ Ht. destruct (tables_find s root rest Ht) as (r & Hf & Hr).
  unfold guest_stage2_page_table_root. rewrite Hf, Hr. done.
Qed.

Lemma run_pages_1 pa : run_pages pa 1 = [pa].
Proof. cbn. f_equal. lia. Qed.

Lemma sub_alloc_spec devs s root rest :
  vm_ok devs s -> tables (mems s) = root :: rest ->
  match vm_mem_alloc_sub_guest_stage2_page_table s with
  | (Ok c, s') =>
      c ∉ owned (mems s) /\ accounts base (owned (mems s) ++ [c]) (mm s') /\
      Z.of_nat (length (owned (mems s))) < MAX_GUEST_MEM_PAGES /\
      vm s' = mkVmCtl (vm_id (vm s)) (push_table c (mems s)) (vcpus (vm s)) /\
      mem s' = write_zeroes (mem s) c PAGE_SIZE
  | (Err _, s') => s' = s /\ cannot_grow s
  | (Panic, _) => False
  end.
Proof.
  intros [Ha Hr _] Ht. destruct (tables_find s root rest Ht) as (r & Hf & Hpr).
  unfold vm_mem_alloc_sub_guest_stage2_page_table, sbind at 1, stry, allocated_physical_pages.
  rewrite sum_pages_owned by done. pose proof (rw_budget _ Hr) as Hb.
  destruct (Z.leb_spec MAX_GUEST_MEM_PAGES (Z.of_nat (length (owned (mems s))))).
  { split; [done|]. left. lia. }
  unfold sbind at 1, sread. rewrite Hf. unfold sbind, on_mm, sret, set_memory, set_mems.
  pose proof (ps_allocate_spec 1 (mm s) (ac_ok _ _ _ Ha) ltac:(lia)) as Hp.
  rewrite <- ps_allocate_one in Hp.
  destruct (ps_allocate_page (mm s)) as [[c|e|] g'] eqn:E; [| |done].
  2:{ destruct Hp as [-> ->]. split; [by destruct s|]. right. by rewrite E. }
  cbn [vm mm mem]. rewrite ps_allocate_one in E.
  destruct (accounts_alloc base _ _ 1 _ _ Ha ltac:(lia) E) as [Ha' _]. rewrite run_pages_1 in Ha'.
  split_and!; try done. pose proof (ac_nodup _ _ _ Ha') as (_ & Hn & _)%NoDup_app.
  intros Hin. apply (Hn c Hin). by apply list_elem_of_singleton.
Qed.

Lemma table_descriptor c :
  0 <= c < 2 ^ 48 -> c mod PAGE_SIZE = 0 ->
  s2_child (Z.lor (Z.lor S2_VALID S2_TABLE_OR_PAGE) (Z.land c S2_ADDRESS_MASK)) = Some c.
Proof.
  intros Hr Hm. unfold s2_child. rewrite !bit_lor_page by done. cbn [andb].
  change (Z.testbit (Z.lor S2_VALID S2_TABLE_OR_PAGE) 0 && Z.testbit (Z.lor S2_VALID S2_TABLE_OR_PAGE) 1) with true.
  by rewrite page_lor_fields, page_in_mask by done.
Qed.

Lemma backed_mono devs mems1 mems2 v pa :
  (forall r, IpaPa r ∈ mems1 -> IpaPa r ∈ mems2) -> backed devs mems1 v pa -> backed devs mems2 v pa.
Proof. intros H [(r & ? & ?)|?]; [left|by right]. exists r. auto. Qed.

Lemma leaf_ok_mono devs mems1 mems2 va d :
  (forall r, IpaPa r ∈ mems1 -> IpaPa r ∈ mems2) -> leaf_ok devs mems1 va d -> leaf_ok devs mems2 va d.
Proof.
  intros H [->|(pa & mt & ac & ex & ? & ? & ? & ?)]; [by left|right].
  exists pa, mt, ac, ex. eauto using backed_mono.
Qed.

(** Linking a fresh table page: the VM grows and no leaf changes. *)
Lemma link_table devs s root rest n va t c g :
  vm_ok devs s -> tables (mems s) = root :: rest -> (n <= 1)%nat -> va_ok va ->
  s2_hop (mem s) root n va = Some t -> s2_child (mem s (slot t (idx (S n) va))) = None ->
  c ∉ owned (mems s) -> accounts base (owned (mems s) ++ [c]) g ->
  Z.of_nat (length (owned (mems s))) < MAX_GUEST_MEM_PAGES ->
  let s' := mkMachine (mkVmCtl (vm_id (vm s)) (push_table c (mems s)) (vcpus (vm s))) g
    (store_word (write_zeroes (mem s) c PAGE_SIZE) (slot t (idx (S n) va))
      (Z.lor (Z.lor S2_VALID S2_TABLE_OR_PAGE) (Z.land c S2_ADDRESS_MASK))) in
  vm_ok devs s' /\ grows s s' /\ (forall v, va_ok v -> leaf_of s' v = leaf_of s v) /\
  s2_hop (mem s') root (S n) va = Some c.
Proof.
  intros [Ha Hr Hm] Ht Hn Hva Hh Hc Hfresh Ha' Hlt s'.
  destruct (tables_find s root rest Ht) as (r & Hf & Hpr).
  destruct (push_table_regions (mems s) r c Hr Hf Hlt) as (Hr' & Hp & Htab & Hback & Hfind).
  unfold maps in Hm. rewrite Ht in Hm. rewrite <- Ht in Hm. destruct Hm as [Hwf Hleaf].
  assert (Hcp : 0 <= c < 2 ^ 48 /\ c mod PAGE_SIZE = 0).
  { eapply accounts_page; [exact Ha'|]. apply elem_of_app. right. by apply list_elem_of_singleton. }
  assert (Hct : c ∉ tables (mems s)) by (intros ?%tables_owned; done).
  pose proof (table_descriptor c (proj1 Hcp) (proj2 Hcp)) as HD.
  set (D := Z.lor (Z.lor S2_VALID S2_TABLE_OR_PAGE) (Z.land c S2_ADDRESS_MASK)) in *.
  assert (Hmem : forall a, mem s' a = if a =? slot t (idx (S n) va) then D
    else if (c <=? a) && (a <? c + PAGE_SIZE) then 0 else mem s a) by done.
  assert (Hwf' : tables_wf (mem s') root (tables (mems s) ++ [c]))
    by (eapply (link_wf (mem s) root _ Hwf (mem s') n va t c D); eauto).
  assert (Hlv : forall v, va_ok v -> s2_leaf (mem s') root v = s2_leaf (mem s) root v)
    by (intros; eapply (link_leaf (mem s) root _ Hwf (mem s') n va t c D); eauto).
  assert (Ht' : tables (mems s') = root :: (rest ++ [c])) by (cbn [s' vm vm_mem]; by rewrite Htab, Ht).
  split_and!.
  - split; [cbn [s' vm vm_mem mm]; by rewrite Hp|done|].
    unfold maps. rewrite Ht'. rewrite Ht in Hwf'. split; [done|].
    intros v Hv. rewrite Hlv by done. eapply leaf_ok_mono; [|by apply Hleaf]. intros x. apply Hback.
  - split; cbn [s' vm vm_mem vm_id vcpus]; [by exists [c]|done|done|done|].
    intros a Hna. rewrite Hmem, Htab in *. destruct (Z.eqb_spec a (slot t (idx (S n) va))) as [->|].
    { exfalso. apply Hna. exists t. split; [|apply slot_in_page, idx_lt].
      apply elem_of_app. left. by eapply (tw_in _ _ _ Hwf n); [lia| |]. }
    destruct (_ && _) eqn:E; [|done]. bool_prop. exfalso. apply Hna. exists c.
    split; [|lia]. apply elem_of_app. right. by apply list_elem_of_singleton.
  - intros v Hv. unfold leaf_of. rewrite Ht', Ht. by apply Hlv.
  - rewrite (link_hop (mem s) root _ Hwf (mem s') n va t c D) by (done || lia).
    by rewrite Z.eqb_refl, Nat.eqb_refl, (proj2 (Nat.ltb_lt n (S n))) by lia.
Qed.

Lemma next_table_spec devs s root rest n va t :
  vm_ok devs s -> tables (mems s) = root :: rest -> (n <= 1)%nat -> va_ok va ->
  s2_hop (mem s) root n va = Some t ->
  match next_table t (idx (S n) va) s with
  | (Ok c, s') =>
      vm_ok devs s' /\ grows s s' /\ (forall v, va_ok v -> leaf_of s' v = leaf_of s v) /\
      s2_hop (mem s') root (S n) va = Some c
  | (Err e, s') => s' = s /\ e = TableExhausted /\ cannot_grow s
  | (Panic, _) => False
  end.
Proof.
  intros Hok Ht Hn Hva Hh. pose proof (vo_maps _ _ Hok) as Hm. unfold maps in Hm. rewrite Ht in Hm.
  destruct Hm as [Hwf _]. unfold next_table, sbind at 1, sread.
  set (e := mem s (slot t (idx (S n) va))). unfold S2_VALID at 1. rewrite land_single_bit by lia.
  destruct (Z.testbit e 0) eqn:E0.
  - destruct (tw_shape _ _ _ Hwf n va t Hn Hva Hh) as [He|[c Hc]].
    { fold e in He. by rewrite He in E0. }
    fold e in Hc.
    pose proof Hc as Hc'. unfold s2_child in Hc. rewrite E0 in Hc. cbn [andb] in Hc.
    destruct (Z.testbit e 1) eqn:E1; [|done]. injection Hc as Hc.
    rewrite <- (negb_involutive (_ =? 0)). unfold S2_TABLE_OR_PAGE. rewrite land_single_bit, E1 by lia.
    cbn [negb]. unfold sret. split_and!; [done|apply grows_refl|done|].
    cbn [s2_hop]. rewrite Hh. cbn. fold e. by rewrite Hc', Hc.
  - pose proof (sub_alloc_spec devs s root rest Hok Ht) as Hs. unfold sbind, smap_any, smap_err.
    destruct (vm_mem_alloc_sub_guest_stage2_page_table s) as [[c|err|] s1]; cbn [map_err]; [| |done].
    2:{ destruct Hs as [-> Hg]. done. }
    destruct Hs as (Hfr & Hac & Hlt & Hvm & Hme). unfold set_memory, sret. rewrite Hvm, Hme.
    apply (link_table devs s root rest n va t c (mm s1)); try done.
    fold e. unfold s2_child. by rewrite E0.
Qed.

(** *** One page *)

Lemma encode_valid pa mt ac ex : Z.testbit (encode_l3_page_descriptor pa mt ac ex) 0 = true.
Proof. unfold encode_l3_page_descriptor. rewrite bit_lor_page by done. by destruct mt, ac, ex. Qed.

Lemma encode_nonzero pa mt ac ex : encode_l3_page_descriptor pa mt ac ex <> 0.
Proof. intros E. pose proof (encode_valid pa mt ac ex) as H. by rewrite E in H. Qed.

Lemma page_base_pre v va :
  va_ok v -> va_ok va -> va mod PAGE_SIZE = 0 -> pre 3 v = pre 3 va -> page_base v = va.
Proof.
  intros _ _ Hm. unfold pre. cbn [lshift]. rewrite !Z.shiftr_div_pow2, <- PAGE_SIZE_pow2 by lia.
  unfold page_base, PAGE_SIZE in *. Z.to_euclidean_division_equations. lia.
Qed.

(** Writing the leaf of [va] in the level 3 table a walk reaches. *)
Lemma fill_page devs s root rest va t pa mt ac ex :
  vm_ok devs s -> tables (mems s) = root :: rest -> va_ok va -> va mod PAGE_SIZE = 0 ->
  0 <= pa < 2 ^ 48 -> pa mod PAGE_SIZE = 0 -> backed devs (mems s) va pa ->
  s2_hop (mem s) root 2 va = Some t ->
  let d := encode_l3_page_descriptor pa mt ac ex in
  let s' := mkMachine (vm s) (mm s) (store_word (mem s) (slot t (idx 3 va)) d) in
  vm_ok devs s' /\ grows s s' /\
  forall v, va_ok v -> leaf_of s' v = if pre 3 v =? pre 3 va then d else leaf_of s v.
Proof.
  intros [Ha Hr Hm] Ht Hva Hal Hpa Hpal Hb Hh d s'.
  unfold maps in Hm. rewrite Ht in Hm. destruct Hm as [Hwf Hleaf].
  assert (Hmem : forall a, mem s' a = if a =? slot t (idx 3 va) then d else mem s a) by done.
  assert (Hlv : forall v, va_ok v -> s2_leaf (mem s') root v = if pre 3 v =? pre 3 va then d else s2_leaf (mem s) root v)
    by (intros; eapply (fill_leaf (mem s) root _ Hwf (mem s') va t d); eauto).
  split_and!.
  - split; [done..|]. unfold maps. cbn [s' vm]. rewrite Ht. split.
    + by apply (fill_wf (mem s) root _ Hwf (mem s') va t d).
    + intros v Hv. change (store_word (mem s) (slot t (idx 3 va)) d) with (mem s'). rewrite Hlv by done.
      destruct (Z.eqb_spec (pre 3 v) (pre 3 va)) as [Hp|]; [|by apply Hleaf].
      right. exists pa, mt, ac, ex. by rewrite (page_base_pre v va).
  - split; cbn [s' vm]; [by exists []; rewrite app_nil_r|done..|].
    intros a Hna. rewrite Hmem. destruct (Z.eqb_spec a (slot t (idx 3 va))) as [->|]; [|done].
    exfalso. apply Hna. exists t. rewrite Ht.
    split; [by eapply (tw_in _ _ _ Hwf 2)|apply slot_in_page, idx_lt].
  - intros v Hv. unfold leaf_of. cbn [s' vm]. rewrite Ht. by apply Hlv.
Qed.

Lemma leaf_of_page s v va :
  va_ok v -> va_ok va -> pre 3 v = pre 3 va -> leaf_of s v = leaf_of s va.
Proof. intros. unfold leaf_of. destruct (tables (mems s)); [done|]. by apply s2_leaf_page. Qed.

Lemma leaf_of_ok devs s va : vm_ok devs s -> va_ok va -> leaf_ok devs (mems s) va (leaf_of s va).
Proof.
  intros [_ _ Hm] Hva. unfold maps, leaf_of in *. destruct (tables (mems s)); [by left|]. by apply Hm.
Qed.

(** Why a page could not be mapped. *)
Definition map_failed s s' (va d : Z) (e : TranslationError) : Prop :=
  (e = Unexpected /\ tables (mems s) = []) \/
  (e = TableExhausted /\ cannot_grow s') \/
  (e = ConflictingEntry /\ leaf_of s va <> 0 /\ leaf_of s va <> d).

Lemma map_l3_page_spec devs s va pa mt ac ex :
  vm_ok devs s -> va_ok va -> va mod PAGE_SIZE = 0 ->
  0 <= pa < 2 ^ 48 -> pa mod PAGE_SIZE = 0 -> backed devs (mems s) va pa ->
  let d := encode_l3_page_descriptor pa mt ac ex in
  match map_l3_page va pa mt ac ex s with
  | (Ok _, s') =>
      vm_ok devs s' /\ grows s s' /\
      forall v, va_ok v -> leaf_of s' v = if pre 3 v =? pre 3 va then d else leaf_of s v
  | (Err e, s') =>
      vm_ok devs s' /\ grows s s' /\ (forall v, va_ok v -> leaf_of s' v = leaf_of s v) /\
      map_failed s s' va d e
  | (Panic, _) => False
  end.
Proof.
  intros Hok Hva Hal Hpa Hpal Hb d. unfold map_l3_page, sbind at 1, stry.
  destruct (tables (mems s)) as [|root rest] eqn:Ht.
  { unfold guest_stage2_page_table_root. pose proof Ht as Ht'. unfold tables in Ht.
    pose proof (rw_each _ (vo_regions _ _ Hok)) as Hw. rewrite Forall_forall in Hw.
    destruct (find_usage _ (mems s)) as [[r|r|r]|] eqn:Ef; cbn;
      try (split_and!; [done|apply grows_refl|done|by left]).
    apply find_usage_Some in Ef as [Hi _]. by destruct (Hw _ Hi). }
  rewrite (root_spec devs s root rest) by done.
  change (table_slot va L1_SHIFT) with (idx 1 va). change (table_slot va L2_SHIFT) with (idx 2 va).
  change (table_slot va L3_SHIFT) with (idx 3 va). unfold sbind at 1.
  pose proof (next_table_spec devs s root rest 0 va root Hok Ht ltac:(lia) Hva eq_refl) as H1.
  destruct (next_table root (idx 1 va) s) as [[l2|e|] s1]; [| |done].
  2:{ destruct H1 as (-> & -> & Hc). split_and!; [done|apply grows_refl|done|right; by left]. }
  destruct H1 as (Hok1 & Hg1 & Hl1 & Hh1).
  destruct (gr_tables _ _ Hg1) as (new1 & Ht1). rewrite Ht, <- app_comm_cons in Ht1. unfold sbind at 1.
  pose proof (next_table_spec devs s1 root _ 1 va l2 Hok1 Ht1 ltac:(lia) Hva Hh1) as H2.
  destruct (next_table l2 (idx 2 va) s1) as [[l3|e|] s2]; [| |done].
  2:{ destruct H2 as (-> & -> & Hc). split_and!; [done..|right; by left]. }
  destruct H2 as (Hok2 & Hg2 & Hl2 & Hh2).
  destruct (gr_tables _ _ Hg2) as (new2 & Ht2). rewrite Ht1, <- app_comm_cons in Ht2.
  pose proof (grows_trans _ _ _ Hg1 Hg2) as Hg.
  assert (Hl : forall v, va_ok v -> leaf_of s2 v = leaf_of s v) by (intros; by rewrite Hl2, Hl1).
  unfold sbind, sread. assert (Hcur : mem s2 (slot l3 (idx 3 va)) = leaf_of s va).
  { rewrite <- Hl by done. unfold leaf_of, s2_leaf. by rewrite Ht2, Hh2. }
  rewrite Hcur. unfold S2_VALID at 1. rewrite land_single_bit by lia. fold d.
  pose proof (leaf_of_ok devs s va Hok Hva) as Hlo.
  destruct (Z.testbit (leaf_of s va) 0) eqn:E0.
  - destruct (Z.eqb_spec (leaf_of s va) d) as [Hd|Hd]; cbn [negb]; unfold sret, sfail.
    + split_and!; [done..|]. intros v Hv. rewrite Hl by done.
      destruct (Z.eqb_spec (pre 3 v) (pre 3 va)) as [Hp|]; [|done]. by rewrite (leaf_of_page s v va).
    + split_and!; [done..|]. right. right. split_and!; [done| |done]. intros Hz. by rewrite Hz in E0.
  - destruct Hlo as [Hz|(pa' & mt' & ac' & ex' & He & _)].
    2:{ by rewrite He, encode_valid in E0. }
    unfold set_memory.
    destruct (fill_page devs s2 root _ va l3 pa mt ac ex Hok2 Ht2 Hva Hal Hpa Hpal) as (Hok3 & Hg3 & Hl3);
      [eapply backed_mono; [|done]; intros r; by apply (gr_backing _ _ Hg)|done|].
    split_and!; [done|by eapply grows_trans|].
    intros v Hv. rewrite Hl3 by done. by rewrite Hl.
Qed.

(** *** A span of pages *)

Lemma pre_page v va :
  va mod PAGE_SIZE = 0 -> (pre 3 v =? pre 3 va) = (va <=? v) && (v <? va + PAGE_SIZE).
Proof.
  intros Hm. unfold pre. cbn [lshift]. rewrite !Z.shiftr_div_pow2, <- PAGE_SIZE_pow2 by lia.
  unfold PAGE_SIZE in *. apply eq_bool_prop_intro. rewrite !Is_true_true, andb_true_iff, Z.eqb_eq, Z.leb_le, Z.ltb_lt.
  Z.to_euclidean_division_equations. lia.
Qed.

(** The conditions on a span of [n] pages at [ipa], backed from [pa] on. *)
Record span (devs : list device_window) (mems : list VmMem) (ipa pa : Z) (n : nat) : Prop := {
  sp_ipa : 0 <= ipa /\ ipa mod PAGE_SIZE = 0 /\ ipa + Z.of_nat n * PAGE_SIZE <= 2 ^ 39;
  sp_pa : 0 <= pa /\ pa mod PAGE_SIZE = 0 /\ pa + Z.of_nat n * PAGE_SIZE <= 2 ^ 48;
  sp_backed : forall k, (k < n)%nat ->
    backed devs mems (ipa + Z.of_nat k * PAGE_SIZE) (pa + Z.of_nat k * PAGE_SIZE)
}.

Section Span.
Context (devs : list device_window) (s : machine G) (ipa pa : Z) (n : nat).
Context (mt : GuestStage2MemoryType) (ac : GuestStage2Access) (ex : GuestStage2Exec).
Context (Hspan : span devs (mems s) ipa pa n).

(** The descriptor of the page at [v]. *)
Definition span_desc (v : Z) : Z := encode_l3_page_descriptor (pa + (page_base v - ipa)) mt ac ex.

(** The first [k] pages of the span are mapped and nothing else changed. *)
Definition mapped_upto (k : nat) s' : Prop :=
  vm_ok devs s' /\ grows s s' /\
  forall v, va_ok v -> leaf_of s' v =
    if (ipa <=? v) && (v <? ipa + Z.of_nat k * PAGE_SIZE) then span_desc v else leaf_of s v.

Definition span_result (r : outcome TranslationError unit) s' : Prop :=
  match r with
  | Ok _ => mapped_upto n s'
  | Err e => exists k, (k < n)%nat /\ mapped_upto k s' /\
      map_failed s s' (ipa + Z.of_nat k * PAGE_SIZE)
        (encode_l3_page_descriptor (pa + Z.of_nat k * PAGE_SIZE) mt ac ex) e
  | Panic => False
  end.

Lemma mapped_upto_0 : vm_ok devs s -> mapped_upto 0 s.
Proof using. 
  intros Hok. split_and!; [done|apply grows_refl|]. intros v Hv.
  destruct (_ && _) eqn:E; [|done]. bool_prop. lia.
Qed.

Lemma span_page k :
  (k < n)%nat -> let va := ipa + Z.of_nat k * PAGE_SIZE in
  va_ok va /\ va mod PAGE_SIZE = 0 /\ 0 <= pa + Z.of_nat k * PAGE_SIZE < 2 ^ 48 /\
  (pa + Z.of_nat k * PAGE_SIZE) mod PAGE_SIZE = 0.
Proof using Hspan.
  intros Hk va. destruct Hspan as [(H1 & H2 & H3) (H4 & H5 & H6) _].
  split; [unfold va_ok, va, PAGE_SIZE in *; lia|]. split; [unfold va; by rewrite Z.mod_add|].
  split; [unfold PAGE_SIZE in *; lia|by rewrite Z.mod_add].
Qed.

(** One iteration of either mapping loop. *)
Lemma span_step k s1 :
  mapped_upto k s1 -> (k < n)%nat ->
  match map_l3_page (ipa + Z.of_nat k * PAGE_SIZE) (pa + Z.of_nat k * PAGE_SIZE) mt ac ex s1 with
  | (Ok _, s') => mapped_upto (S k) s'
  | (r, s') => span_result r s'
  end.
Proof using Hspan.
  intros (Hok & Hg & Hl) Hk. destruct (span_page k Hk) as (Hva & Hal & Hpa & Hpal).
  set (va := ipa + Z.of_nat k * PAGE_SIZE) in *. set (p := pa + Z.of_nat k * PAGE_SIZE) in *.
  assert (Hb : backed devs (mems s1) va p).
  { eapply backed_mono; [|apply (sp_backed _ _ _ _ _ Hspan k Hk)]. intros r. apply (gr_backing _ _ Hg). }
  pose proof (map_l3_page_spec devs s1 va p mt ac ex Hok Hva Hal Hpa Hpal Hb) as Hs.
  assert (Hout : leaf_of s1 va = leaf_of s va).
  { rewrite Hl by done. rewrite (proj2 (Z.ltb_ge va _)), andb_false_r by lia. done. }
  destruct (map_l3_page va p mt ac ex s1) as [[[]|e|] s']; [| |done].
  - destruct Hs as (Hok' & Hg' & Hl'). split_and!; [done|by eapply grows_trans|].
    intros v Hv. rewrite Hl', Hl, pre_page by done. clear Hl Hl' Hout.
    assert ((ipa <=? v) && (v <? ipa + Z.of_nat (S k) * PAGE_SIZE) =
            ((va <=? v) && (v <? va + PAGE_SIZE)) || ((ipa <=? v) && (v <? ipa + Z.of_nat k * PAGE_SIZE))) as ->.
    { apply eq_bool_prop_intro. rewrite !Is_true_true, orb_true_iff, !andb_true_iff, !Z.leb_le, !Z.ltb_lt.
      unfold va, PAGE_SIZE. lia. }
    destruct ((va <=? v) && (v <? va + PAGE_SIZE)) eqn:E; cbn [orb]; [|done].
    unfold span_desc. rewrite <- pre_page in E by done. apply Z.eqb_eq in E.
    rewrite (page_base_pre v va) by done. f_equal. unfold p, va. lia.
  - destruct Hs as (Hok' & Hg' & Hl' & Hf). exists k. split_and!; [done| |].
    + split_and!; [done|by eapply grows_trans|]. intros v Hv. by rewrite Hl', Hl.
    + destruct Hf as [[-> Ht]|[[-> Hc]|(-> & Hz & Hd)]].
      * left. split; [done|]. destruct (gr_tables _ _ Hg) as (new & Hn). rewrite Hn in Ht.
        by apply app_eq_nil in Ht as [? _].
      * right. by left.
      * right. right. by rewrite Hout in Hz, Hd.
Qed.

Lemma map_region_loop_spec fuel k s1 r s' :
  mapped_upto k s1 -> (k <= n)%nat -> (n - k < fuel)%nat ->
  map_region_loop fuel (ipa + Z.of_nat k * PAGE_SIZE) (pa + Z.of_nat k * PAGE_SIZE)
    (ipa + Z.of_nat n * PAGE_SIZE) mt ac ex s1 = (r, s') -> span_result r s'.
Proof using Hspan.
  revert k s1. induction fuel as [|fuel IH]; intros k s1 Hm Hk Hf; [lia|]. cbn [map_region_loop].
  destruct (Z.ltb_spec (ipa + Z.of_nat k * PAGE_SIZE) (ipa + Z.of_nat n * PAGE_SIZE)) as [Hlt|Hge].
  2:{ intros [= <- <-]. cbn. assert (k = n) as <- by (unfold PAGE_SIZE in Hge; lia). done. }
  assert (Hkn : (k < n)%nat) by (unfold PAGE_SIZE in Hlt; lia).
  pose proof (span_step k s1 Hm Hkn) as Hs. unfold sbind at 1.
  destruct (map_l3_page _ _ mt ac ex s1) as [[[]|e|] s2]; [|by intros [= <- <-]..].
  destruct (span_page k Hkn) as ([? ?] & _ & ? & _).
  unfold sbind, slift. rewrite !add64_ok by (unfold PAGE_SIZE in *; lia). intros Hr.
  apply (IH (S k) s2 Hs ltac:(lia) ltac:(lia)). rewrite <- Hr. f_equal; unfold PAGE_SIZE; lia.
Qed.

End Span.

Lemma map_device_loop_spec devs s ipa pa n k j s1 r s' :
  span devs (mems s) ipa pa n -> mapped_upto devs s ipa pa DeviceNgNre ReadWrite ExecuteNever k s1 ->
  (k + j = n)%nat -> map_device_loop ipa pa k j s1 = (r, s') ->
  span_result devs s ipa pa n DeviceNgNre ReadWrite ExecuteNever r s'.
Proof.
  intros Hspan. revert k s1. induction j as [|j IH]; intros k s1 Hm Hk; cbn [map_device_loop].
  { intros [= <- <-]. cbn. by replace n with k by lia. }
  assert (Hkn : (k < n)%nat) by lia. destruct (span_page devs s ipa pa n Hspan k Hkn) as ([? ?] & _ & ? & _).
  pose proof (span_step devs s ipa pa n DeviceNgNre ReadWrite ExecuteNever Hspan k s1 Hm Hkn) as Hs.
  unfold sbind, slift. rewrite !add64_ok by (unfold PAGE_SIZE in *; lia).
  destruct (map_l3_page _ _ _ _ _ s1) as [[[]|e|] s2]; [|by intros [= <- <-]..].
  apply IH; [done|lia].
Qed.

(** *** Mapping a region and a device *)

Lemma page_multiple size : size mod PAGE_SIZE = 0 -> 0 <= size -> size = Z.of_nat (Z.to_nat (size / PAGE_SIZE)) * PAGE_SIZE.
Proof. unfold PAGE_SIZE. intros. Z.to_euclidean_division_equations. lia. Qed.

Lemma span_of_region devs s r :
  vm_ok devs s -> IpaPa r ∈ mems s ->
  span devs (mems s) (ip_ipa r) (ip_pa r) (Z.to_nat (ip_size r / PAGE_SIZE)) /\
  ip_size r = Z.of_nat (Z.to_nat (ip_size r / PAGE_SIZE)) * PAGE_SIZE /\ 0 < ip_size r.
Proof.
  intros [Ha Hr _] Hin. pose proof (rw_each _ Hr) as Hw. rewrite Forall_forall in Hw.
  destruct (Hw _ Hin) as (_ & _ & Hw0 & Hws & Hwa & Hwm & Hwe).
  pose proof (page_multiple (ip_size r) Hwm ltac:(lia)) as Hn.
  set (n := Z.to_nat (ip_size r / PAGE_SIZE)) in *. split; [|split; [done|lia]].
  assert (Hown : forall k, (k < n)%nat -> ip_pa r + Z.of_nat k * PAGE_SIZE ∈ owned (mems s)).
  { intros k Hk. unfold owned. apply list_elem_of_bind. exists (IpaPa r). split; [|done].
    cbn. apply elem_of_run_pages. eauto. }
  assert (Hn0 : (0 < n)%nat) by (unfold PAGE_SIZE in Hn; lia).
  pose proof (accounts_page base _ _ _ Ha (Hown 0%nat Hn0)) as [Hp0 Hpm].
  pose proof (accounts_page base _ _ _ Ha (Hown (n - 1)%nat ltac:(lia))) as [Hpl Hplm].
  rewrite Z.add_0_r in Hp0, Hpm. split.
  - rewrite <- Hn. done.
  - split; [lia|]. split; [done|]. unfold PAGE_SIZE in *. Z.to_euclidean_division_equations. lia.
  - intros k Hk. left. exists r. split; [done|]. split; [unfold PAGE_SIZE in *; lia|lia].
Qed.

Lemma map_with_pa_bits_effect devs s u mt ac ex pa_bits r s' :
  vm_ok devs s -> 32 <= pa_bits <= 48 -> map_with_pa_bits u mt ac ex pa_bits s = (r, s') ->
  match find_usage u (mems s) with
  | Some (IpaPa m) =>
      if 2 ^ pa_bits <? ip_pa m + ip_size m then r = Err El2Stage1.PhysicalAddressOutOfRange /\ s' = s
      else span_result devs s (ip_ipa m) (ip_pa m) (Z.to_nat (ip_size m / PAGE_SIZE)) mt ac ex r s'
  | _ => r = Err InvalidateParameter /\ s' = s
  end.
Proof.
  intros Hok Hbits. unfold map_with_pa_bits, sbind at 1, sread.
  destruct (find_usage u (mems s)) as [[m|m|m]|] eqn:Ef; try (by intros [= <- <-]).
  apply find_usage_Some in Ef as [Hin _].
  destruct (span_of_region devs s m Hok Hin) as (Hsp & Hsz & Hpos).
  pose proof (sp_ipa _ _ _ _ _ Hsp) as (Hi0 & _ & Hi). pose proof (sp_pa _ _ _ _ _ Hsp) as (Hp0 & _ & Hp).
  rewrite <- Hsz in Hi, Hp. unfold sbind, slift, map_limits, ipa_end, pa_end.
  rewrite !checked_add_ok by lia. cbn [ok_or obind].
  rewrite sub64_ok by lia. cbn [obind]. change (Z.shiftl 1 IPA_BITS) with (2 ^ 39).
  rewrite (proj2 (Z.ltb_ge (2 ^ 39 - 1) _)) by lia. rewrite sub64_ok by lia. cbn [obind].
  rewrite Z.shiftl_1_l. destruct (Z.ltb_spec (2 ^ pa_bits) (ip_pa m + ip_size m)) as [Hlt|Hge].
  - rewrite (proj2 (Z.ltb_lt (2 ^ pa_bits - 1) _)) by lia. by intros [= <- <-].
  - rewrite (proj2 (Z.ltb_ge (2 ^ pa_bits - 1) _)) by lia. rewrite Hsz at 2.
    pose proof (map_region_loop_spec devs s (ip_ipa m) (ip_pa m) _ mt ac ex Hsp
      (S (Z.to_nat (ip_size m / PAGE_SIZE))) 0 s r s') as Hl.
    rewrite !Z.add_0_r in Hl. apply Hl; [by apply mapped_upto_0|lia|lia].
Qed.

Lemma vm_ok_device devs d s : vm_ok devs s -> vm_ok (d :: devs) s.
Proof.
  intros [Ha Hr Hm]. split; [done..|]. unfold maps in *. destruct (tables (mems s)); [done|].
  destruct Hm as [Hwf Hl]. split; [done|]. intros va Hva.
  destruct (Hl va Hva) as [?|(pa & mt & ac & ex & ? & ? & ? & Hb)]; [by left|right].
  exists pa, mt, ac, ex. split_and!; try done; try lia. destruct Hb as [?|(x & ? & ?)]; [by left|right].
  exists x. split; [by right|done].
Qed.

Lemma map_external_device_effect devs s ipa pa size pa_bits r s' :
  vm_ok devs s -> u64 ipa -> u64 pa -> u64 size -> 32 <= pa_bits <= 48 ->
  map_external_device_with_pa_bits ipa pa size pa_bits s = (r, s') ->
  (exists e, r = Err e /\ s' = s /\ ~ (window ipa size /\ pa mod PAGE_SIZE = 0 /\ pa + size <= 2 ^ pa_bits)) \/
  (window ipa size /\ pa mod PAGE_SIZE = 0 /\ pa + size <= 2 ^ pa_bits /\
   span_result (mkWindow ipa pa size :: devs) s ipa pa (Z.to_nat (size / PAGE_SIZE))
     DeviceNgNre ReadWrite ExecuteNever r s').
Proof.
  intros Hok [Hi0 Hi] [Hp0 Hp] [Hs0 Hs] Hbits. unfold map_external_device_with_pa_bits, sbind, slift.
  assert (Hpow : 2 ^ pa_bits <= 2 ^ 48) by (apply Z.pow_le_mono_r; lia).
  assert (Hno : forall e, ~ (window ipa size /\ pa mod PAGE_SIZE = 0 /\ pa + size <= 2 ^ pa_bits) ->
    (Err e, s) = (r, s') -> exists e, r = Err e /\ s' = s /\ ~ (window ipa size /\ pa mod PAGE_SIZE = 0 /\ pa + size <= 2 ^ pa_bits))
    by (intros e Hn [= <- <-]; eauto).
  rewrite !is_page_aligned_mod. destruct (_ || _) eqn:E.
  { intros Hr. left. eapply Hno; [|exact Hr]. unfold window. intros ((? & ? & Hw1 & Hw2 & _) & Hw3 & _). revert E.
    rewrite Hw1, Hw2, Hw3, (proj2 (Z.eqb_neq size 0)) by lia. done. }
  bool_prop. destruct (checked_add ipa size) as [e1|] eqn:E1; cbn [ok_or obind].
  2:{ apply checked_add_None in E1. intros Hr. left. eapply Hno; [|exact Hr]. unfold window. lia. }
  destruct (checked_add pa size) as [e2|] eqn:E2; cbn [ok_or obind].
  2:{ apply checked_add_None in E2. intros Hr. left. eapply Hno; [|exact Hr]. lia. }
  apply checked_add_Some in E1 as [-> _]. apply checked_add_Some in E2 as [-> _].
  change (Z.shiftl 1 IPA_BITS) with (2 ^ 39). rewrite Z.shiftl_1_l.
  destruct (Z.ltb_spec (2 ^ 39 - 1) (ipa + size - 1)) as [|Hi39].
  { intros Hr. left. eapply Hno; [|exact Hr]. unfold window. lia. }
  destruct (Z.ltb_spec (2 ^ pa_bits - 1) (pa + size - 1)) as [|Hpb].
  { intros Hr. left. eapply Hno; [|exact Hr]. lia. }
  intros Hl. right.
  pose proof (page_multiple size ltac:(done) Hs0) as Hn.
  assert (Hc : (size + (PAGE_SIZE - 1)) / PAGE_SIZE = size / PAGE_SIZE).
  { unfold PAGE_SIZE in *. Z.to_euclidean_division_equations. lia. }
  rewrite Hc in Hl.
  split; [unfold window; lia|]. split; [done|]. split; [lia|].
  eapply (map_device_loop_spec _ s ipa pa _ 0); [|by apply mapped_upto_0, vm_ok_device|done|done].
  split; [rewrite <- Hn; lia|rewrite <- Hn; lia|].
  intros k Hk. right. exists (mkWindow ipa pa size). cbn. split; [by left|].
  split; [unfold PAGE_SIZE in *; lia|lia].
Qed.

(** *** Allocating a region *)

Lemma ipa_range_spec m : region_wf m ->
  match ipa_range m with
  | Some (a, b) => forall x, in_region m x <-> a <= x < b
  | None => forall x, ~ in_region m x
  end.
Proof.
  destruct m as [r|r|r]; cbn; [intros (_ & H)|intros (_ & _ & H)|tauto];
    destruct H as (? & ? & _ & _ & ?); unfold IpaOnlyRegion_end, ipa_end;
    rewrite checked_add_ok by lia; done.
Qed.

(** Why an address range was refused. *)
Definition range_refused (mems : list VmMem) (ipa size : Z) (e : AllocatorError) : Prop :=
  (e = InvalidIpa /\ (size = 0 \/ ipa mod PAGE_SIZE <> 0 \/ 2 ^ 39 < ipa + size)) \/
  (e = AAddressOverflow /\ 2 ^ 64 <= ipa + size) \/
  (e = OverlappingIpa /\ exists m a, m ∈ mems /\ ipa <= a < ipa + size /\ in_region m a).

Lemma validate_ipa_range_spec self ipa size :
  regions_wf (vm_mem self) -> u64 ipa -> u64 size -> size mod PAGE_SIZE = 0 ->
  match validate_ipa_range self ipa size with
  | Ok _ => window ipa size /\ forall m a, m ∈ vm_mem self -> ipa <= a < ipa + size -> ~ in_region m a
  | Err e => range_refused (vm_mem self) ipa size e
  | Panic => False
  end.
Proof.
  intros [Hw _ _ _] [Hi0 Hi] [Hs0 Hs] Hm. unfold validate_ipa_range. rewrite is_page_aligned_mod.
  destruct (Z.eqb_spec size 0) as [->|Hnz]; cbn [orb]; [left; auto|].
  destruct (Z.eqb_spec (ipa mod PAGE_SIZE) 0) as [Ha|Ha]; cbn [negb]; [|left; auto].
  destruct (checked_add ipa size) as [e|] eqn:Ee; cbn [ok_or obind].
  2:{ right. left. by apply checked_add_None in Ee. }
  apply checked_add_Some in Ee as [-> _]. rewrite sub64_ok by lia. cbn [obind].
  change (Z.shiftl 1 IPA_BITS) with (2 ^ 39).
  destruct (Z.ltb_spec (2 ^ 39 - 1) (ipa + size - 1)); [left; split; [done|]; lia|].
  rewrite Forall_forall in Hw. destruct (existsb _ _) eqn:Ex.
  - apply existsb_exists in Ex as ([a b] & Hin & Hab). cbn in Hab. bool_prop.
    apply list_elem_of_In, list_elem_of_omap in Hin as (m & Hin & Hr).
    pose proof (ipa_range_spec m (Hw m Hin)) as Hsp. rewrite Hr in Hsp.
    right. right. split; [done|]. exists m, (Z.max ipa a). split; [done|]. rewrite Hsp.
    assert (a < b); [|lia].
    destruct m as [r|r|r]; cbn in Hr; [| |done]; pose proof (Hw _ Hin) as Hwf; cbn in Hwf;
      [destruct Hwf as (_ & ? & ? & _ & _ & ?)|destruct Hwf as (_ & _ & ? & ? & _ & _ & ?)];
      unfold IpaOnlyRegion_end, ipa_end in Hr; rewrite checked_add_ok in Hr by lia; cbn in Hr; simplify_eq; lia.
  - split; [unfold window; lia|]. intros m a Hin Ha' Hreg.
    pose proof (ipa_range_spec m (Hw m Hin)) as Hsp. destruct (ipa_range m) as [[lo hi]|] eqn:Er; [|by eapply Hsp].
    apply Hsp in Hreg. apply not_true_iff_false in Ex. apply Ex, existsb_exists. exists (lo, hi).
    split; [apply list_elem_of_In, list_elem_of_omap; eauto|]. cbn. apply andb_true_iff. rewrite !Z.ltb_lt. lia.
Qed.

(** Why [vm_mem_alloc] refused a request of [size] bytes. *)
Definition alloc_refused s (u : VmMemUsage) (ipa : option Z) (size : Z) (e : AllocatorError) : Prop :=
  (e = AAddressOverflow /\ 2 ^ 64 <= size + (PAGE_SIZE - 1)) \/
  exists sa, align_up size PAGE_SIZE = Some sa /\
    ((e = AlreadyAllocated /\ u ∈ usage <$> mems s) \/
     (e = PageAllocator.InvalidateParameter /\ needs_ipa u <> bool_decide (is_Some ipa)) \/
     (exists a, ipa = Some a /\ range_refused (mems s) a sa e) \/
     (e = Exhausted /\ need_physical_memory u = true /\
      (MAX_GUEST_MEM_PAGES < Z.of_nat (length (owned (mems s))) + sa / PAGE_SIZE \/
       fst (ps_allocate_contiguous_pages (Z.to_nat (sa / PAGE_SIZE)) (mm s)) = Err Exhausted))).

(** The entry for an allocation of [sa] bytes at guest address [ipa]. *)
Definition entry_for (u : VmMemUsage) (ipa : option Z) (sa : Z) (e : VmMem) : Prop :=
  usage e = u /\ region_wf e /\
  match ipa with
  | Some a => forall x, in_region e x <-> a <= x < a + sa
  | None => forall x, ~ in_region e x
  end /\
  Z.of_nat (length (mem_pages e)) = if need_physical_memory u then sa / PAGE_SIZE else 0.

Lemma alloc_checks_spec s u ipa sa :
  regions_wf (mems s) -> (forall a, ipa = Some a -> u64 a) -> u64 sa -> sa mod PAGE_SIZE = 0 ->
  match alloc_checks (vm s) u ipa sa with
  | Ok _ => u ∉ usage <$> mems s /\ needs_ipa u = bool_decide (is_Some ipa) /\
      forall a, ipa = Some a -> window a sa /\ forall m x, m ∈ mems s -> a <= x < a + sa -> ~ in_region m x
  | Err e => (e = AlreadyAllocated /\ u ∈ usage <$> mems s) \/
      (e = PageAllocator.InvalidateParameter /\ needs_ipa u <> bool_decide (is_Some ipa)) \/
      (exists a, ipa = Some a /\ range_refused (mems s) a sa e)
  | Panic => False
  end.
Proof.
  intros Hr Hi Hs Hm. unfold alloc_checks. rewrite usage_taken. case_bool_decide as Hu; [by left|].
  destruct ipa as [a|].
  - rewrite (bool_decide_false (Some a = None)) by done. rewrite andb_false_r, andb_true_r.
    rewrite (bool_decide_true (is_Some (Some a))) by eauto.
    destruct (needs_ipa u) eqn:En; cbn [negb]; [|right; by left].
    pose proof (validate_ipa_range_spec (vm s) a sa Hr (Hi a eq_refl) Hs Hm) as Hv.
    destruct (validate_ipa_range (vm s) a sa) as [[]|e|]; [| |done].
    + split_and!; [done..|]. by intros ? [= <-].
    + right. right. eauto.
  - rewrite (bool_decide_true (@None Z = None)) by done. rewrite andb_true_r, andb_false_r.
    rewrite (bool_decide_false (is_Some (@None Z))) by (by intros [? [=]]).
    destruct (needs_ipa u) eqn:En; [right; by left|]. done.
Qed.

Lemma alloc_entry_spec u ipa p sa n :
  needs_ipa u = bool_decide (is_Some ipa) -> (forall a, ipa = Some a -> window a sa) ->
  sa = Z.of_nat n * PAGE_SIZE -> (need_physical_memory u = true -> (0 < n)%nat) ->
  Z.of_nat (p + n) * PAGE_SIZE <= 2 ^ 48 ->
  exists e, alloc_entry u ipa (Z.of_nat p * PAGE_SIZE) sa = Ok e /\ entry_for u ipa sa e /\
    mem_pages e = if need_physical_memory u then run_pages (Z.of_nat p * PAGE_SIZE) n else [].
Proof.
  intros Hn Hw Hsa Hpos Hb. assert (Hdiv : sa / PAGE_SIZE = Z.of_nat n) by (rewrite Hsa; by apply Z.div_mul).
  unfold alloc_entry, entry_for. rewrite Hdiv.
  assert (Hlen : forall x, length (run_pages x n) = n) by (intros; unfold run_pages; by rewrite length_fmap, length_seq).
  destruct ipa as [a|]; [rewrite (bool_decide_true (is_Some (Some a))) in Hn by eauto; specialize (Hw a eq_refl)
                        |rewrite (bool_decide_false (is_Some None)) in Hn by (by intros [? [=]])];
    destruct u; try discriminate Hn; cbn [expect obind need_physical_memory] in *;
    try (eexists; split; [done|]; cbn [mem_pages usage ip_usage ip_ipa ip_size ip_pa io_usage io_base io_size
      in_region region_wf needs_ipa need_physical_memory]; rewrite ?Hdiv, ?Nat2Z.id, ?Hlen; done).
  rewrite Nat2Z.id, table_pages_run by (unfold PAGE_SIZE in *; lia). cbn [obind]. rewrite Z.add_0_r.
  eexists. split; [done|]. cbn [mem_pages po_pa usage po_usage in_region region_wf]. rewrite Hlen.
  split; [|done]. split; [done|]. split; [|by split; [intros ? []|]]. split; [done|].
  specialize (Hpos eq_refl). destruct n; [lia|]. by rewrite run_pages_S.
Qed.

Lemma tables_fresh mems : GuestStage2PageTable ∉ usage <$> mems -> tables mems = [].
Proof.
  intros Hn. unfold tables. destruct (find_usage GuestStage2PageTable mems) as [m|] eqn:E; [|done].
  apply find_usage_Some in E as [Hi Hu]. exfalso. apply Hn, list_elem_of_fmap. by exists m.
Qed.

(** The pages of a VM never overlap. *)
Lemma in_tables_disjoint pages1 pages2 g a :
  accounts base (pages1 ++ pages2) g -> in_tables pages1 a -> ~ in_tables pages2 a.
Proof.
  intros Ha (t & Ht & Hta) (t' & Ht' & Hta').
  pose proof (ac_nodup _ _ _ Ha) as (_ & Hd & _)%NoDup_app. apply (Hd t Ht).
  assert (t = t') as ->; [|done].
  eapply (page_unique t t' a); [| |done|done];
    eapply (accounts_page base _ _ _ Ha); apply elem_of_app; eauto.
Qed.

(** Recording an entry whose pages are fresh and zero. *)
Lemma alloc_commit devs s u ipa sa e g m' :
  vm_ok devs s -> u ∉ usage <$> mems s -> entry_for u ipa sa e ->
  (forall a m x, ipa = Some a -> m ∈ mems s -> a <= x < a + sa -> ~ in_region m x) ->
  accounts base (owned (mems s) ++ mem_pages e) g ->
  Z.of_nat (length (owned (mems s) ++ mem_pages e)) <= MAX_GUEST_MEM_PAGES ->
  (forall a, in_tables (mem_pages e) a -> m' a = 0) ->
  (forall a, ~ in_tables (mem_pages e) a -> m' a = mem s a) ->
  let s' := mkMachine (mkVmCtl (vm_id (vm s)) (mems s ++ [e]) (vcpus (vm s))) g m' in
  vm_ok devs s' /\ forall v, va_ok v -> leaf_of s' v = leaf_of s v.
Proof.
  intros [Ha Hr Hm] Hu (Hue & Hwe & Hre & _) Hdis Ha' Hbud Hz Hf s'.
  assert (Hregs : regions_wf (mems s ++ [e])).
  { apply regions_wf_snoc; [done|done|by rewrite Hue| |done]. intros x a Hx Hin Hin'.
    destruct ipa as [b|]; [|by apply (Hre a)]. eapply (Hdis b); [done|done|by apply Hre|done]. }
  assert (Hacc : accounts base (owned (mems s')) (mm s')) by (cbn [s' vm vm_mem mm]; by rewrite owned_snoc).
  destruct (decide (u = GuestStage2PageTable)) as [Hpt|Hpt].
  - assert (Ht0 : tables (mems s) = []) by (apply tables_fresh; by rewrite <- Hpt).
    assert (Ht' : tables (mems s') = mem_pages e).
    { cbn [s' vm vm_mem]. unfold tables. rewrite (find_usage_new _ _ e) by congruence.
      destruct e as [r|r|r]; cbn in Hwe, Hue; [|destruct Hwe as (Hn & _); by rewrite Hue, Hpt in Hn|done].
      destruct Hwe. congruence. }
    destruct (mem_pages e) as [|root rest] eqn:Ep.
    { exfalso. destruct e as [r|r|r]; cbn in Hwe, Hue, Ep; [destruct Hwe; congruence| |by destruct Hwe].
      destruct Hwe as (Hn & _). by rewrite Hue, Hpt in Hn. }
    destruct (empty_tables m' root (root :: rest)) as [Hwf Hl0]; [by left| | |].
    { intros t Ht. eapply (accounts_page base _ _ _ Ha'), elem_of_app. by right. }
    { intros i Hi. apply Hz. exists root. split; [by left|by apply slot_in_page]. }
    split; [split; [done..|]|].
    + unfold maps. rewrite Ht'. split; [done|]. intros va Hva. left. by apply Hl0.
    + intros v Hv. unfold leaf_of. rewrite Ht', Ht0. by apply Hl0.
  - assert (Ht' : tables (mems s') = tables (mems s))
      by (cbn [s' vm vm_mem]; unfold tables; rewrite find_usage_app by congruence; done).
    assert (Hframe : forall a, in_tables (tables (mems s)) a -> m' a = mem s a).
    { intros a (t & Ht & Hta). apply Hf. eapply in_tables_disjoint; [done|].
      exists t. split; [by apply tables_owned|done]. }
    unfold maps, leaf_of in *. destruct (tables (mems s)) as [|root rest] eqn:Ht.
    { split; [split; [done..|]|]; [unfold maps|intros v Hv]; by rewrite Ht'. }
    destruct Hm as [Hwf Hl].
    split; [split; [done..|]|].
    + unfold maps. rewrite Ht'. split; [by apply (frame_wf (mem s))|].
      intros va Hva. cbn [s' mem]. rewrite (frame_leaf (mem s) root _ Hwf) by done.
      eapply leaf_ok_mono; [|by apply Hl]. intros x Hx. apply elem_of_app. by left.
    + intros v Hv. rewrite Ht'. by apply (frame_leaf (mem s) root _ Hwf).
Qed.

Lemma zeroed_run m p n :
  let m' := write_zeroes m (Z.of_nat p * PAGE_SIZE) (Z.of_nat n * PAGE_SIZE) in
  (forall a, in_tables (run_pages (Z.of_nat p * PAGE_SIZE) n) a -> m' a = 0) /\
  (forall a, ~ in_tables (run_pages (Z.of_nat p * PAGE_SIZE) n) a -> m' a = m a).
Proof.
  cbn. unfold write_zeroes. split.
  - intros a (t & (k & Hk & ->)%elem_of_run_pages & Ht).
    rewrite (proj2 (Z.leb_le _ _)), (proj2 (Z.ltb_lt _ _)) by (unfold PAGE_SIZE in *; lia). done.
  - intros a Hn. destruct (_ && _) eqn:E; [|done]. bool_prop. exfalso. apply Hn.
    set (k := Z.to_nat ((a - Z.of_nat p * PAGE_SIZE) / PAGE_SIZE)).
    exists (Z.of_nat p * PAGE_SIZE + Z.of_nat k * PAGE_SIZE). rewrite elem_of_run_pages.
    unfold k, PAGE_SIZE in *. split; [eexists; split; [|done]|]; Z.to_euclidean_division_equations; lia.
Qed.

(** What a successful allocation promises. *)
Definition alloc_done devs s (u : VmMemUsage) (ipa : option Z) (size : Z) (ret : option Z) s' : Prop :=
  exists sa e, align_up size PAGE_SIZE = Some sa /\ entry_for u ipa sa e /\ ret = head (mem_pages e) /\
    vm s' = mkVmCtl (vm_id (vm s)) (mems s ++ [e]) (vcpus (vm s)) /\ vm_ok devs s' /\
    (forall a, in_tables (mem_pages e) a -> mem s' a = 0) /\
    (forall a, ~ in_tables (mem_pages e) a -> mem s' a = mem s a) /\
    forall v, va_ok v -> leaf_of s' v = leaf_of s v.

(** The physical backing of an allocation. *)
Lemma alloc_backing_spec devs s n :
  vm_ok devs s ->
  match alloc_backing (Z.of_nat n * PAGE_SIZE) s with
  | (Ok phy, s') =>
      (0 < n)%nat /\ exists p, phy = Z.of_nat p * PAGE_SIZE /\ Z.of_nat (p + n) * PAGE_SIZE <= 2 ^ 48 /\
        Z.of_nat (length (owned (mems s)) + n) <= MAX_GUEST_MEM_PAGES /\
        accounts base (owned (mems s) ++ run_pages phy n) (mm s') /\
        s' = mkMachine (vm s) (mm s') (write_zeroes (mem s) phy (Z.of_nat n * PAGE_SIZE))
  | (Err e, s') =>
      s' = s /\ ((e = Exhausted /\ (MAX_GUEST_MEM_PAGES < Z.of_nat (length (owned (mems s))) + Z.of_nat n \/
        fst (ps_allocate_contiguous_pages n (mm s)) = Err Exhausted)) \/
        2 ^ 64 <= Z.of_nat (length (owned (mems s))) + Z.of_nat n)
  | (Panic, _) => False
  end.
Proof.
  intros [Ha Hr _]. unfold alloc_backing. rewrite Z.div_mul, Nat2Z.id by done.
  unfold sbind at 1, stry, allocated_physical_pages. rewrite sum_pages_owned by done. unfold sbind at 1, slift.
  destruct (checked_add _ _) as [total|] eqn:Et; cbn [ok_or].
  2:{ apply checked_add_None in Et. auto. }
  apply checked_add_Some in Et as [-> _].
  destruct (Z.ltb_spec MAX_GUEST_MEM_PAGES (Z.of_nat (length (owned (mems s))) + Z.of_nat n)).
  { split; [done|]. left. auto. }
  unfold sbind, on_mm, set_memory, sret. destruct n as [|n].
  { rewrite (ps_allocate_none _ (ac_ok _ _ _ Ha)). cbn. split; [by destruct s|]. left. auto. }
  pose proof (ps_allocate_spec (S n) (mm s) (ac_ok _ _ _ Ha) ltac:(lia)) as Hs.
  destruct (ps_allocate_contiguous_pages (S n) (mm s)) as [[phy|e|] g] eqn:E; [| |done].
  2:{ destruct Hs as [-> ->]. split; [by destruct s|]. left. auto. }
  destruct (accounts_alloc base _ _ (S n) _ _ Ha ltac:(lia) E) as (Ha' & p & -> & Hp).
  split; [lia|]. exists p. pose proof ps_limit_48 as Hl. cbn [mm vm mem].
  split_and!; [done|unfold PAGE_SIZE in *; lia|lia|done|done].
Qed.

Lemma entry_address_head e : region_wf e -> entry_address e = Ok (head (mem_pages e)).
Proof.
  destruct e as [r|r|r]; cbn; [done| |].
  - intros (_ & _ & _ & Hs & _ & Hm & _). pose proof (page_multiple (ip_size r) Hm ltac:(lia)).
    destruct (Z.to_nat (ip_size r / PAGE_SIZE)); [lia|]. rewrite run_pages_S. done.
  - intros [_ Hne]. by destruct (po_pa r).
Qed.

Lemma vm_mem_alloc_effect devs s u ipa size :
  vm_ok devs s -> u64 size -> (forall a, ipa = Some a -> u64 a) ->
  match vm_mem_alloc u ipa size s with
  | (Ok ret, s') => alloc_done devs s u ipa size ret s'
  | (Err e, s') => s' = s /\ alloc_refused s u ipa size e
  | (Panic, _) => False
  end.
Proof.
  intros Hok Hs Hi. unfold vm_mem_alloc, sbind at 1, slift.
  destruct (align_up size PAGE_SIZE) as [sa|] eqn:Esa; cbn [ok_or].
  2:{ split; [done|]. left. split; [done|]. rewrite align_up_eq in Esa by (done || apply PAGE_SIZE_is_pow2).
      destruct (Z.ltb_spec (size + (PAGE_SIZE - 1)) (2 ^ 64)); done || lia. }
  destruct (align_up_least size PAGE_SIZE sa Hs PAGE_SIZE_is_pow2 Esa) as (_ & Hsm & Hsu & _).
  pose proof (page_multiple sa Hsm (proj1 Hsu)) as Hn. set (n := Z.to_nat (sa / PAGE_SIZE)) in *.
  unfold sbind at 1, stry. pose proof (alloc_checks_spec s u ipa sa (vo_regions _ _ Hok) Hi Hsu Hsm) as Hc.
  destruct (alloc_checks (vm s) u ipa sa) as [[]|e|]; [| |done].
  2:{ split; [done|]. right. exists sa. split; [done|]. naive_solver. }
  destruct Hc as (Hu & Hneed & Hwin). unfold sbind at 1.
  assert (Hwin' : forall a, ipa = Some a -> window a sa) by (intros a Ea; by apply Hwin).
  assert (Hdis : forall a m x, ipa = Some a -> m ∈ mems s -> a <= x < a + sa -> ~ in_region m x)
    by (intros a m x Ea; by apply Hwin).
  destruct (need_physical_memory u) eqn:Ep.
  - pose proof (alloc_backing_spec devs s n Hok) as Hb. rewrite <- Hn in Hb.
    destruct (alloc_backing sa s) as [[phy|e|] s1]; [| |done].
    2:{ destruct Hb as [-> Hb]. split; [done|]. right. exists sa. split; [done|]. right. right. right.
        assert (Hd : sa / PAGE_SIZE = Z.of_nat n) by (rewrite Hn; by apply Z.div_mul). rewrite Hd, Nat2Z.id.
        pose proof (rw_budget _ (vo_regions _ _ Hok)). change MAX_GUEST_MEM_PAGES with 131584 in *.
        unfold u64, PAGE_SIZE in *. destruct Hb as [[-> Hb]|Hb]; [done|lia]. }
    destruct Hb as (Hpos & p & -> & Hlim & Hbud & Hacc & ->).
    destruct (alloc_entry_spec u ipa p sa n Hneed Hwin' Hn ltac:(auto) Hlim) as (e & He & Hef & Hpg).
    rewrite Ep in Hpg. unfold sbind, set_mems, sret. rewrite He. rewrite <- Hpg in Hacc.
    pose proof (zeroed_run (mem s) p n) as Hzr. rewrite <- Hn, <- Hpg in Hzr. destruct Hzr as [Hz Hf].
    destruct (alloc_commit devs s u ipa sa e (mm s1)
      (write_zeroes (mem s) (Z.of_nat p * PAGE_SIZE) sa) Hok Hu Hef Hdis Hacc) as [Hok' Hl'];
      [by rewrite length_app, Hpg; unfold run_pages; rewrite length_fmap, length_seq|exact Hz|exact Hf|].
    rewrite (entry_address_head e) by apply Hef.
    cbn [vm mm mem]. exists sa, e. split_and!; try done.
  - destruct (alloc_entry_spec u ipa 0 sa n Hneed Hwin' Hn) as (e & He & Hef & Hpg).
    { by rewrite Ep. }
    { destruct u; try discriminate Ep. destruct ipa as [a|]; [|done].
      destruct (Hwin' a eq_refl) as (? & _ & _ & _ & ?). unfold PAGE_SIZE in *. lia. }
    rewrite Ep in Hpg. unfold sbind, set_mems, sret. change (Z.of_nat 0 * PAGE_SIZE) with 0 in He. rewrite He.
    rewrite (entry_address_head e) by apply Hef.
    destruct (alloc_commit devs s u ipa sa e (mm s) (mem s) Hok Hu Hef Hdis) as [Hok' Hl'];
      [rewrite Hpg, app_nil_r; apply Hok|rewrite Hpg, app_nil_r; apply Hok|
       rewrite Hpg; intros a (t & ?%elem_of_nil & _); done|done|].
    exists sa, e. split_and!; try done. rewrite Hpg. intros a (t & ?%elem_of_nil & _). done.
Qed.

(** *** Release *)

Lemma release_pages_spec devs s m :
  vm_ok devs s -> m ∈ mems s -> release_pages m = Ok (mem_pages m).
Proof.
  intros Hok Hin. destruct m as [r|r|r]; cbn; [done| |done].
  destruct (span_of_region devs s r Hok Hin) as (Hsp & _). destruct (sp_pa _ _ _ _ _ Hsp) as (H0 & _ & H48).
  rewrite table_pages_run by (simpl; lia). by rewrite Z.add_0_r.
Qed.

Lemma free_all_spec pages rest s :
  accounts base (pages ++ rest) (mm s) ->
  exists g, free_all pages s = (Ok tt, mkMachine (vm s) g (mem s)) /\ accounts base rest g.
Proof.
  revert s. induction pages as [|pa pages IH]; intros s Ha; cbn [free_all].
  { exists (mm s). by destruct s. }
  destruct (accounts_free base _ _ _ Ha) as (g & Hf & Ha').
  unfold sbind, free_logged, on_mm. rewrite Hf. apply (IH (mkMachine (vm s) g (mem s)) Ha').
Qed.

Lemma release_mems_spec ms rest s :
  Forall (fun m => release_pages m = Ok (mem_pages m)) ms -> accounts base (owned ms ++ rest) (mm s) ->
  exists g, release_mems ms s = (Ok tt, mkMachine (vm s) g (mem s)) /\ accounts base rest g.
Proof.
  revert s. induction ms as [|m ms IH]; intros s Hr Ha; cbn [release_mems].
  { exists (mm s). by destruct s. }
  apply Forall_cons in Hr as [Hm Hr]. rewrite owned_cons, <- (assoc_L (++)) in Ha.
  destruct (free_all_spec _ _ _ Ha) as (g & Hf & Ha').
  unfold sbind, slift. rewrite Hm, Hf. apply (IH (mkMachine (vm s) g (mem s)) Hr Ha').
Qed.

Lemma release_all_effect devs s :
  vm_ok devs s ->
  release_all s = (Ok tt, mkMachine (mkVmCtl (vm_id (vm s)) [] (vcpus (vm s))) base (mem s)).
Proof.
  intros Hok. unfold release_all, sbind, sread, set_mems.
  destruct (release_mems_spec (mems s) [] s) as (g & Hr & Ha).
  { apply Forall_forall. intros m Hin. by eapply release_pages_spec. }
  { rewrite app_nil_r. apply Hok. }
  rewrite Hr. by rewrite (accounts_nil base g Ha).
Qed.

(** ** Sequences of operations *)

(** A use of the VM's interface. *)
Inductive vm_op :=
| OpAlloc (u : VmMemUsage) (ipa : option Z) (size : Z)
| OpMap (u : VmMemUsage) (mt : GuestStage2MemoryType) (ac : GuestStage2Access) (ex : GuestStage2Exec)
| OpDevice (ipa pa size : Z)
| OpVcpu (v : Vcpu).

(** The arguments are machine words. *)
Definition op_ok (op : vm_op) : Prop :=
  match op with
  | OpAlloc _ ipa size => u64 size /\ forall a, ipa = Some a -> u64 a
  | OpDevice ipa pa size => u64 ipa /\ u64 pa /\ u64 size
  | _ => True
  end.

(** The caller goes on after an error. *)
Definition ignoring {E A} (m : stateful (machine G) E A) : stateful (machine G) unit unit := fun s =>
  let '(r, s') := m s in (match r with Panic => Panic | _ => Ok tt end, s').

Definition run_op (mmfr0 : option Z) (op : vm_op) : stateful (machine G) unit unit :=
  match op with
  | OpAlloc u ipa size => ignoring (vm_mem_alloc u ipa size)
  | OpMap u mt ac ex => ignoring (VmCtl_map mmfr0 u mt ac ex)
  | OpDevice ipa pa size => ignoring (map_external_device mmfr0 ipa pa size)
  | OpVcpu v => ignoring (E:=unit) (add_vcpu v)
  end.

Fixpoint run_ops (mmfr0 : option Z) (ops : list vm_op) : stateful (machine G) unit unit :=
  match ops with
  | [] => sret tt
  | op :: ops => let! _ := run_op mmfr0 op in run_ops mmfr0 ops
  end.

Definition device_of (op : vm_op) : option device_window :=
  match op with OpDevice ipa pa size => Some (mkWindow ipa pa size) | _ => None end.

(** The device windows the operations ask for. *)
Definition devices_of (ops : list vm_op) : list device_window := omap device_of ops.

Lemma span_result_ok devs s ipa pa n mt ac ex r s' :
  span_result devs s ipa pa n mt ac ex r s' -> r <> Panic /\ vm_ok devs s'.
Proof. destruct r; cbn; [intros [? _]|intros (k & _ & [? _] & _)|]; done. Qed.

Lemma mmfr0_bits_range v b : mmfr0_pa_bits v = Some b -> 32 <= b <= 48.
Proof. unfold mmfr0_pa_bits. repeat case_match; intros; simplify_eq; lia. Qed.

Lemma vm_ok_incl devs devs' s : devs ⊆ devs' -> vm_ok devs s -> vm_ok devs' s.
Proof.
  intros Hd [Ha Hr Hm]. split; [done..|]. unfold maps in *. destruct (tables (mems s)); [done|].
  destruct Hm as [Hwf Hl]. split; [done|]. intros va Hva.
  destruct (Hl va Hva) as [?|(pa & mt & ac & ex & ? & ? & ? & Hb)]; [by left|right].
  exists pa, mt, ac, ex. split_and!; try done; try lia. destruct Hb as [?|(x & ? & ?)]; [by left|right]. eauto.
Qed.

Lemma run_op_ok devs mmfr0 op s :
  vm_ok devs s -> op_ok op ->
  exists s', run_op mmfr0 op s = (Ok tt, s') /\ vm_ok (devices_of [op] ++ devs) s'.
Proof.
  intros Hok Hop. destruct op as [u ipa size|u mt ac ex|ipa pa size|v]; cbn [run_op devices_of omap list_omap device_of];
    unfold ignoring.
  - destruct Hop as [Hs Hi]. pose proof (vm_mem_alloc_effect devs s u ipa size Hok Hs Hi) as He.
    destruct (vm_mem_alloc u ipa size s) as [[ret|e|] s']; [| |done]; eexists; (split; [done|]).
    + by destruct He as (sa & en & _ & _ & _ & _ & Hok' & _).
    + by destruct He as [-> _].
  - unfold VmCtl_map, sbind at 1, slift. destruct mmfr0 as [v|]; cbn [ok_or]; [|eauto].
    unfold sbind. destruct (mmfr0_pa_bits v) as [b|] eqn:Eb; cbn [ok_or]; [|eauto].
    destruct (map_with_pa_bits u mt ac ex b s) as [r s'] eqn:E.
    pose proof (map_with_pa_bits_effect devs s u mt ac ex b r s' Hok (mmfr0_bits_range _ _ Eb) E) as He.
    assert (Hr : r <> Panic /\ vm_ok devs s').
    { repeat case_match; try (by destruct He as [-> ->]). by eapply span_result_ok. }
    destruct Hr as [Hr Hok']. exists s'. split; [by destruct r|done].
  - destruct Hop as (Hi & Hp & Hs). unfold map_external_device, sbind at 1, slift.
    destruct (_ || _); [eexists; split; [done|by apply vm_ok_device]|].
    unfold sbind at 1. destruct mmfr0 as [v|]; cbn [ok_or]; [|eexists; split; [done|by apply vm_ok_device]].
    unfold sbind. destruct (mmfr0_pa_bits v) as [b|] eqn:Eb; cbn [ok_or]; [|eexists; split; [done|by apply vm_ok_device]].
    destruct (map_external_device_with_pa_bits ipa pa size b s) as [r s'] eqn:E.
    destruct (map_external_device_effect devs s ipa pa size b r s' Hok Hi Hp Hs (mmfr0_bits_range _ _ Eb) E)
      as [(e & -> & -> & _)|(_ & _ & _ & Hsp)]; [eexists; split; [done|by apply vm_ok_device]|].
    apply span_result_ok in Hsp as [Hr Hok']. exists s'. split; [by destruct r|done].
  - eexists. split; [done|]. by destruct Hok.
Qed.

Lemma run_ops_ok devs mmfr0 ops s :
  vm_ok devs s -> Forall op_ok ops ->
  exists s', run_ops mmfr0 ops s = (Ok tt, s') /\ vm_ok (devices_of ops ++ devs) s'.
Proof.
  revert devs s. induction ops as [|op ops IH]; intros devs s Hok Hops; cbn [run_ops].
  { exists s. done. }
  apply Forall_cons in Hops as [Hop Hops]. destruct (run_op_ok devs mmfr0 op s Hok Hop) as (s1 & Hr1 & Hok1).
  destruct (IH _ s1 Hok1 Hops) as (s2 & Hr2 & Hok2). exists s2. unfold sbind. rewrite Hr1. split; [done|].
  eapply vm_ok_incl; [|done]. unfold devices_of. cbn. destruct (device_of op); cbn; set_solver.
Qed.

Lemma vm_ok_new id m : ps_ok base -> vm_ok [] (mkMachine (VmCtl_new id) base m).
Proof. intros Hb. split; [by apply accounts_init|apply regions_wf_nil|done]. Qed.

(** ** Theorems *)

(** The hardware walk of a guest address from the root of the VM's tables. *)
Definition walk_of s (ipa : Z) : walk_result :=
  match guest_stage2_page_table_root (E:=unit) (vm s) with
  | Ok (Some root) => s2_walk (mem s) root ipa
  | _ => Fault
  end.

Lemma walk_of_leaf devs s ipa : vm_ok devs s -> va_ok ipa -> walk_of s ipa = leaf_result (leaf_of s ipa).
Proof.
  intros Hok Hva. unfold walk_of, leaf_of. destruct (tables (mems s)) as [|root rest] eqn:Ht.
  - unfold guest_stage2_page_table_root. pose proof (rw_each _ (vo_regions _ _ Hok)) as Hw.
    rewrite Forall_forall in Hw. unfold tables in Ht.
    destruct (find_usage _ (mems s)) as [[r|r|r]|] eqn:Ef; try done.
    apply find_usage_Some in Ef as [Hi _]. by destruct (Hw _ Hi).
  - rewrite (root_spec devs s root rest) by done. pose proof (vo_maps _ _ Hok) as Hm.
    unfold maps in Hm. rewrite Ht in Hm. destruct Hm as [Hwf _]. by eapply s2_walk_leaf.
Qed.

Lemma leaf_result_encode pa mt ac ex :
  0 <= pa < 2 ^ 48 -> pa mod PAGE_SIZE = 0 ->
  leaf_result (encode_l3_page_descriptor pa mt ac ex) = Page pa mt ac ex.
Proof.
  intros Hr Hm. unfold leaf_result. rewrite encode_valid. cbn [negb]. by rewrite decode_encode.
Qed.

(** A page the guest reaches: handed to this VM by the page source since [base],
    not one of its tables, and at the guest address of its region. *)
Definition own_page s (ipa pa : Z) : Prop :=
  (exists i, pa = Z.of_nat i * PAGE_SIZE /\ ps_state base i = Unused /\ ps_state (mm s) i = InUse) /\
  pa ∉ tables (mems s) /\
  exists r, IpaPa r ∈ mems s /\ in_region (IpaPa r) ipa /\ pa = ip_pa r + (page_base ipa - ip_ipa r).

Definition device_page (devs : list device_window) (ipa pa : Z) : Prop :=
  exists d, d ∈ devs /\ dv_ipa d <= page_base ipa < dv_ipa d + dv_size d /\ pa = dv_pa d + (page_base ipa - dv_ipa d).

Lemma region_pages_no_tables mems0 g r pa :
  accounts base (owned mems0) g -> regions_wf mems0 -> IpaPa r ∈ mems0 -> pa ∈ mem_pages (IpaPa r) ->
  pa ∉ tables mems0.
Proof.
  intros Ha Hr Hin Hp Ht. unfold tables in Ht.
  destruct (find_usage GuestStage2PageTable mems0) as [[x|x|x]|] eqn:E; try (by apply elem_of_nil in Ht).
  apply find_usage_Some in E as [Hx _].
  apply elem_of_Permutation in Hin as (l & Hl). rewrite Hl in Hx.
  apply elem_of_cons in Hx as [Hx|Hx]; [done|].
  assert (Hown : owned mems0 ≡ₚ mem_pages (IpaPa r) ++ owned l) by (unfold owned; by rewrite Hl).
  pose proof (ac_nodup _ _ _ Ha) as Hnd. rewrite Hown in Hnd. apply NoDup_app in Hnd as (_ & Hd & _).
  apply (Hd pa Hp). unfold owned. apply list_elem_of_bind. exists (PaOnly x). split; [done|done].
Qed.

Lemma page_in_window v start size :
  start mod PAGE_SIZE = 0 -> size mod PAGE_SIZE = 0 -> start <= page_base v < start + size -> start <= v < start + size.
Proof. unfold page_base, PAGE_SIZE. intros. Z.to_euclidean_division_equations. lia. Qed.

Lemma region_reach devs s ipa r :
  vm_ok devs s -> IpaPa r ∈ mems s -> ip_ipa r <= page_base ipa < ip_ipa r + ip_size r ->
  own_page s ipa (ip_pa r + (page_base ipa - ip_ipa r)).
Proof.
  intros Hok Hin Hr. destruct (span_of_region devs s r Hok Hin) as (Hsp & Hsz & _). destruct Hok as [Ha Hregs _].
  pose proof (rw_each _ Hregs) as Hw. rewrite Forall_forall in Hw.
  destruct (Hw _ Hin) as (_ & _ & Hw0 & _ & Hwa & Hwm & _).
  assert (Hp : ip_pa r + (page_base ipa - ip_ipa r) ∈ mem_pages (IpaPa r)).
  { cbn. apply elem_of_run_pages. exists (Z.to_nat ((page_base ipa - ip_ipa r) / PAGE_SIZE)).
    unfold page_base, PAGE_SIZE in *. Z.to_euclidean_division_equations. lia. }
  assert (Ho : ip_pa r + (page_base ipa - ip_ipa r) ∈ owned (mems s)).
  { unfold owned. apply list_elem_of_bind. eauto. }
  split_and!.
  - destruct (ac_pages _ _ _ Ha _ Ho) as (i & Hi & _ & Hb). exists i. split; [done|]. split; [done|].
    rewrite (ac_state _ _ _ Ha), decide_True; [done|]. by rewrite <- Hi.
  - by eapply region_pages_no_tables.
  - exists r. split; [done|]. split; [|done]. by apply page_in_window.
Qed.

Lemma backed_reach devs s ipa pa :
  vm_ok devs s -> backed devs (mems s) (page_base ipa) pa -> own_page s ipa pa \/ device_page devs ipa pa.
Proof. intros Hok [(r & Hin & Hr & ->)|Hd]; [left; by eapply region_reach|by right]. Qed.

(** C1 [guest_isolated]: whatever sequence of allocations, mappings and device
    mappings a VM goes through, in whatever order and with whatever failures,
    nothing panics, and a guest address either faults or leads to a page that
    the page source handed to this VM for the region of that address, never to
    a page that holds its translation tables, or to the matching page of a
    device window that was asked for. *)
Theorem guest_isolated mmfr0 ops id m :
  ps_ok base -> Forall op_ok ops ->
  exists s, run_ops mmfr0 ops (mkMachine (VmCtl_new id) base m) = (Ok tt, s) /\
    forall ipa, va_ok ipa ->
    match walk_of s ipa with
    | Fault => True
    | Page pa _ _ _ => own_page s ipa pa \/ device_page (devices_of ops) ipa pa
    | _ => False
    end.
Proof.
  intros Hb Hops. destruct (run_ops_ok [] mmfr0 ops _ (vm_ok_new id m Hb) Hops) as (s & Hr & Hok).
  rewrite app_nil_r in Hok. exists s. split; [done|]. intros ipa Hva.
  rewrite (walk_of_leaf _ s ipa Hok Hva).
  destruct (leaf_of_ok _ s ipa Hok Hva) as [->|(pa & mt & ac & ex & -> & Hp & Hpm & Hbk)]; [done|].
  rewrite leaf_result_encode by done. by apply backed_reach.
Qed.

(** C13 [vm_release_restores]: after any sequence of operations on a new VM,
    releasing it succeeds, empties it and gives the page source back exactly
    as it was, so no page leaks and none is freed twice. *)
Theorem vm_release_restores mmfr0 ops id m :
  ps_ok base -> Forall op_ok ops ->
  exists s s', run_ops mmfr0 ops (mkMachine (VmCtl_new id) base m) = (Ok tt, s) /\
    release_all s = (Ok tt, s') /\ mm s' = base /\ vm_mem (vm s') = [] /\ mem s' = mem s.
Proof.
  intros Hb Hops. destruct (run_ops_ok [] mmfr0 ops _ (vm_ok_new id m Hb) Hops) as (s & Hr & Hok).
  eexists s, _. split; [done|]. split; [by eapply release_all_effect|]. done.
Qed.

(** [vm_mem_alloc_exact]: an allocation either fails for a stated reason and
    changes nothing, or records one new region of the requested usage at the
    requested guest addresses, disjoint from the others; its backing pages are
    fresh and zero, the rest of memory and every translation are unchanged,
    and the VM's invariant is kept. *)
Lemma vm_mem_alloc_exact devs s u ipa size :
  vm_ok devs s -> u64 size -> (forall a, ipa = Some a -> u64 a) ->
  match vm_mem_alloc u ipa size s with
  | (Ok ret, s') => alloc_done devs s u ipa size ret s'
  | (Err e, s') => s' = s /\ alloc_refused s u ipa size e
  | (Panic, _) => False
  end.
Proof. apply vm_mem_alloc_effect. Qed.

(** [vm_map_exact]: mapping a region either gives every address of the region
    the backing page at its offset with the requested attributes, or fails for
    a stated reason after mapping some first pages of it that way; every other
    address translates as before and memory outside the tables is unchanged. *)
Lemma vm_map_exact devs s u mt ac ex pa_bits r s' :
  vm_ok devs s -> 32 <= pa_bits <= 48 -> map_with_pa_bits u mt ac ex pa_bits s = (r, s') ->
  match find_usage u (mems s) with
  | Some (IpaPa m) =>
      if 2 ^ pa_bits <? ip_pa m + ip_size m then r = Err El2Stage1.PhysicalAddressOutOfRange /\ s' = s
      else
        exists k, vm_ok devs s' /\ grows s s' /\
          (forall ipa, va_ok ipa -> walk_of s' ipa =
            if (ip_ipa m <=? ipa) && (ipa <? ip_ipa m + Z.of_nat k * PAGE_SIZE)
            then Page (ip_pa m + (page_base ipa - ip_ipa m)) mt ac ex else walk_of s ipa) /\
          match r with
          | Ok _ => Z.of_nat k * PAGE_SIZE = ip_size m
          | Err e => Z.of_nat k * PAGE_SIZE < ip_size m /\
              map_failed s s' (ip_ipa m + Z.of_nat k * PAGE_SIZE)
                (encode_l3_page_descriptor (ip_pa m + Z.of_nat k * PAGE_SIZE) mt ac ex) e
          | Panic => False
          end
  | _ => r = Err InvalidateParameter /\ s' = s
  end.
Proof.
  intros Hok Hb Hr. pose proof (map_with_pa_bits_effect devs s u mt ac ex pa_bits r s' Hok Hb Hr) as He.
  destruct (find_usage u (mems s)) as [[m|m|m]|] eqn:Ef; try done.
  apply find_usage_Some in Ef as [Hin _]. destruct (span_of_region devs s m Hok Hin) as (Hsp & Hsz & _).
  destruct (_ <? _); [done|]. set (n := Z.to_nat (ip_size m / PAGE_SIZE)) in *.
  assert (Hwalk : forall k, (k <= n)%nat -> mapped_upto devs s (ip_ipa m) (ip_pa m) mt ac ex k s' ->
    vm_ok devs s' /\ grows s s' /\ forall ipa, va_ok ipa -> walk_of s' ipa =
      if (ip_ipa m <=? ipa) && (ipa <? ip_ipa m + Z.of_nat k * PAGE_SIZE)
      then Page (ip_pa m + (page_base ipa - ip_ipa m)) mt ac ex else walk_of s ipa).
  { intros k Hk (Hok' & Hg & Hl). split; [done|]. split; [done|]. intros ipa Hva.
    rewrite (walk_of_leaf _ s' ipa Hok' Hva), (walk_of_leaf _ s ipa Hok Hva), Hl by done.
    destruct (_ && _) eqn:E; [|done]. bool_prop. unfold span_desc.
    destruct (sp_pa _ _ _ _ _ Hsp) as (? & ? & ?), (sp_ipa _ _ _ _ _ Hsp) as (? & ? & ?).
    apply leaf_result_encode; unfold page_base, PAGE_SIZE in *; Z.to_euclidean_division_equations; lia. }
  destruct r as [[]|e|]; [| |done].
  - exists n. destruct (Hwalk n ltac:(lia) He) as (? & ? & ?). split_and!; done.
  - destruct He as (k & Hk & Hm & Hf). exists k. destruct (Hwalk k ltac:(lia) Hm) as (? & ? & ?).
    split_and!; [done..| |done]. unfold PAGE_SIZE in *. lia.
Qed.
End Machine.

(** ** Concrete instances *)

(** Eight pages, of which the first two are in use. *)
Definition small_global : GlobalPageAllocator := mkGlobal (mkBitmap [255] 8) (mkBitmap [3] 2) 8 true.

Lemma small_global_ok : global_ok 1 small_global.
Proof. split; [done|apply small_ok|done|done]. Qed.

#[local] Instance small_source : PageSource GlobalPageAllocator.
Proof. apply (mm_source 1); [lia|done]. Defined.

Lemma small_base_ok : ps_ok small_global.
Proof. exact small_global_ok. Qed.

(** A VM with one page of memory and a page of a device. *)
Definition sample_ops : list vm_op :=
  [OpAlloc GuestStage2PageTable None 0x1000; OpAlloc Image (Some 0x40000000) 0x800;
   OpMap Image NormalWbWa ReadOnly Executable; OpDevice 0x08010000 0xff846000 0x1000].

Lemma sample_ops_ok : Forall op_ok sample_ops.
Proof.
  apply Forall_forall. intros op Hin. repeat (apply elem_of_cons in Hin as [->|Hin]); [..|by apply elem_of_nil in Hin];
    cbn; unfold u64; repeat split; try lia; intros; simplify_eq; lia.
Qed.

Definition sample_new : machine GlobalPageAllocator := mkMachine (VmCtl_new 1) small_global (fun _ => 0).

Definition sample_vm : machine GlobalPageAllocator := snd (run_ops (Some 4) sample_ops sample_new).

Lemma guest_isolated_witness :
  walk_of sample_vm 0x40000123 = Page 0x3000 NormalWbWa ReadOnly Executable /\
  walk_of sample_vm 0x08010004 = Page 0xff846000 DeviceNgNre ReadWrite ExecuteNever /\
  walk_of sample_vm 0x40001000 = Fault /\
  (own_page small_global sample_vm 0x40000123 0x3000 \/ device_page (devices_of sample_ops) 0x40000123 0x3000).
Proof.
  destruct (guest_isolated small_global (Some 4) sample_ops 1 (fun _ => 0) small_base_ok sample_ops_ok)
    as (s & Hr & Hw).
  assert (Hs : s = sample_vm) by exact (eq_sym (f_equal snd Hr)). rewrite Hs in Hw. clear Hr Hs s.
  assert (H1 : walk_of sample_vm 0x40000123 = Page 0x3000 NormalWbWa ReadOnly Executable) by (vm_compute; reflexivity).
  split; [exact H1|]. split; [vm_compute; reflexivity|]. split; [vm_compute; reflexivity|].
  specialize (Hw 0x40000123). rewrite H1 in Hw. apply Hw. split; lia.
Defined.

Lemma vm_release_restores_witness :
  exists s', release_all sample_vm = (Ok tt, s') /\ mm s' = small_global.
Proof.
  destruct (vm_release_restores small_global (Some 4) sample_ops 1 (fun _ => 0) small_base_ok sample_ops_ok)
    as (s & s' & Hr & Hrel & Hmm & _).
  assert (Hs : s = sample_vm) by exact (eq_sym (f_equal snd Hr)). rewrite Hs in Hrel. exists s'. split; assumption.
Defined.

(** The VM before its region is mapped. *)
Definition sample_unmapped : machine GlobalPageAllocator :=
  snd (run_ops (Some 4) (take 2 sample_ops) sample_new).

Lemma sample_unmapped_ok : vm_ok small_global [] sample_unmapped.
Proof.
  destruct (run_ops_ok small_global [] (Some 4) (take 2 sample_ops) sample_new) as (s & Hr & Hok).
  - exact (vm_ok_new small_global 1 (fun _ => 0) small_base_ok).
  - apply Forall_take. exact sample_ops_ok.
  - assert (Hs : s = sample_unmapped) by exact (eq_sym (f_equal snd Hr)). rewrite Hs in Hok. exact Hok.
Qed.

