(* ===== verification/HostMap.v ===== *)
(** * The host's own address space: src/src/mm.rs, src/tvisor_util/startup_resources.rs

    tvisor maps its image, its stacks, the devices it drives and the usable
    RAM at their own addresses.  RAM is mapped around exclusions, the live
    device tree and the guard pages of the stacks, which must stay unmapped.
    The tables live behind a gate, [BootTables]: they can be edited until the
    startup resources have been validated, and never afterwards. *)

From S2P Require Import Prelude Page SystemInfo PageAllocator El2Stage1 Pcpu.

(** ** The gate *)

Inductive ResourceError := Frozen | Layout | Ownership | MappingError | Root.

Record BootTables (T : Type) := mkBootTables { bt_tables : T; bt_frozen : bool }.
Arguments mkBootTables {T}.
Arguments bt_tables {T}.
Arguments bt_frozen {T}.

Definition BootTables_new {T} (tables : T) : BootTables T := mkBootTables tables false.

Definition is_frozen {T} (self : BootTables T) : bool := bt_frozen self.

(** [edit] hands out the tables: an operation on them, unless frozen. *)
Definition edit {T E A} (on_frozen : ResourceError -> E) (operation : stateful T E A) :
    stateful (BootTables T) E A := fun self =>
  if bt_frozen self then (Err (on_frozen Frozen), self)
  else let '(r, t) := operation (bt_tables self) in (r, mkBootTables t (bt_frozen self)).

Definition validate_and_freeze {T} (validate : T -> outcome ResourceError unit) :
    stateful (BootTables T) ResourceError unit := fun self =>
  if bt_frozen self then (Err Frozen, self)
  else
    match validate (bt_tables self) with
    | Ok _ => (Ok tt, mkBootTables (bt_tables self) true)
    | Err e => (Err e, self)
    | Panic => (Panic, self)
    end.

(** ** Identity mappings *)

Inductive PrepareError :=
| PrepareOverflow
| PrepareTranslation (e : TranslationError)
| PrepareAllocator (e : AllocatorError)
| Validation.

Definition in_prepare {A} (m : stateful TableSet TranslationError A) : stateful TableSet PrepareError A :=
  fun ts => let '(r, ts') := m ts in (Prelude.map_err PrepareTranslation r, ts').

Definition identity_mapping (start size : Z) (t : MemoryType) (writable executable : bool) : Mapping :=
  mkMapping start start size t writable executable.

Definition map_identity (start e : Z) (writable executable : bool) : stateful TableSet PrepareError unit :=
  if negb (is_page_aligned start) || negb (is_page_aligned e) || (e <=? start) then sfail Validation
  else
    let! size := slift (sub64 e start) in
    in_prepare (TableSet_map (identity_mapping start size Normal writable executable)).

Definition map_identity_device (region : PhysRegion) : stateful TableSet PrepareError unit :=
  let! aligned := slift (Prelude.map_err (fun _ => PrepareOverflow)
                    (PhysRegion_new_aligned (rstart region) (rsize region) PAGE_SIZE)) in
  in_prepare (TableSet_map (identity_mapping (rstart aligned) (rsize aligned) Device true false)).

(** The page bounds of an exclusion that still matters at [cursor]. *)
Definition live_exclusion (cursor e : Z) (excluded : PhysRegion) : option (Z * Z) :=
  let excluded_start := page_address (rstart excluded) in
  match align_up (rend excluded) PAGE_SIZE with
  | None => None
  | Some excluded_end =>
      if (cursor <? excluded_end) && (excluded_start <? e) then Some (excluded_start, excluded_end) else None
  end.

(** [iter.min_by_key(|(start, _)| *start)]: the first with the least start. *)
Definition earlier (best : option (Z * Z)) (x : Z * Z) : option (Z * Z) :=
  match best with
  | None => Some x
  | Some b => if fst x <? fst b then Some x else best
  end.

Definition min_by_start (l : list (Z * Z)) : option (Z * Z) := fold_left earlier l None.

(** The inner [while cursor < end] loop; the cursor advances by pages. *)
Fixpoint map_around (fuel : nat) (exclusions : list PhysRegion) (cursor e : Z) (writable executable : bool) :
    stateful TableSet PrepareError unit :=
  match fuel with
  | O => slift Panic
  | S fuel' =>
      if cursor <? e then
        match min_by_start (omap (live_exclusion cursor e) exclusions) with
        | None => map_identity cursor e writable executable
        | Some (excluded_start, excluded_end) =>
            let! _ :=
              if cursor <? excluded_start
              then map_identity cursor (Z.min excluded_start e) writable executable
              else sret tt in
            map_around fuel' exclusions (Z.min (Z.max cursor excluded_end) e) e writable executable
        end
      else sret tt
  end.

Definition map_region_around (exclusions : list PhysRegion) (region : PhysRegion) (writable executable : bool) :
    stateful TableSet PrepareError unit :=
  let! start := slift (ok_or (align_up (rstart region) PAGE_SIZE) PrepareOverflow) in
  let e := page_address (rend region) in
  map_around (S (Z.to_nat ((e - start) / PAGE_SIZE))) exclusions start e writable executable.

Fixpoint map_regions_around (exclusions regions : list PhysRegion) (writable executable : bool) :
    stateful TableSet PrepareError unit :=
  match regions with
  | [] => sret tt
  | region :: rest =>
      let! _ := map_region_around exclusions region writable executable in
      map_regions_around exclusions rest writable executable
  end.

Definition map_identity_regions_excluding (regions exclusions : FixedList PhysRegion)
    (writable executable : bool) : stateful TableSet PrepareError unit :=
  let! rs := slift (FixedList_iter regions) in
  let! es := slift (FixedList_iter exclusions) in
  map_regions_around es rs writable executable.

(** ** Specification *)

(** The pages an exclusion covers, and the whole pages inside a region. *)
Definition excluded_at (es : list PhysRegion) (va : Z) : Prop :=
  exists x e, x ∈ es /\ align_up (rend x) PAGE_SIZE = Some e /\ page_address (rstart x) <= va < e.

Definition inside_at (rs : list PhysRegion) (va : Z) : Prop :=
  exists r s, r ∈ rs /\ align_up (rstart r) PAGE_SIZE = Some s /\ s <= va < page_address (rend r).

(** [va] is mapped to itself with these permissions. *)
Definition identity_at (ts : TableSet) (writable executable : bool) (va : Z) : Prop :=
  exists level, valid_level level /\
    walk ts va = Ok (Some (mkTranslation va Normal writable executable level)).

(** Going from [ts] to [ts'] mapped the addresses in [P], and only them; when
    [all] is false it may have mapped only some of them. *)
Definition maps_exactly (all : bool) (P : Z -> Prop) (writable executable : bool) (ts ts' : TableSet) : Prop :=
  wf ts' /\ forall va, va_ok va ->
    (P va /\ identity_at ts' writable executable va) \/
    (walk ts' va = walk ts va /\ (all = true -> ~ P va)).

Definition maps_result (P : Z -> Prop) (writable executable : bool) (ts : TableSet)
    (r : outcome PrepareError unit) (ts' : TableSet) : Prop :=
  match r with
  | Ok _ => maps_exactly true P writable executable ts ts'
  | Err _ => maps_exactly false P writable executable ts ts'
  | Panic => False
  end.

(** ** Lemmas *)

Lemma maps_result_ext P Q w x ts r ts' :
  (forall va, va_ok va -> P va <-> Q va) -> maps_result P w x ts r ts' -> maps_result Q w x ts r ts'.
Proof.
  intros He. assert (H : forall all, maps_exactly all P w x ts ts' -> maps_exactly all Q w x ts ts').
  { intros all [Hwf H]. split; [done|]. intros va Hva. specialize (He va Hva).
    destruct (H va Hva) as [[? ?]|[? ?]]; [left|right]; tauto. }
  destruct r; cbn; auto.
Qed.

Lemma maps_nothing P w x ts : wf ts -> (forall va, va_ok va -> ~ P va) -> maps_exactly true P w x ts ts.
Proof. intros H HP. split; [done|]. intros va Hva. right. auto. Qed.

(** A mapping after a complete one. *)
Lemma maps_then P Q w x ts ts1 r ts2 :
  maps_exactly true P w x ts ts1 -> maps_result Q w x ts1 r ts2 ->
  maps_result (fun va => P va \/ Q va) w x ts r ts2.
Proof.
  intros [_ H1] H2.
  assert (H : forall all, maps_exactly all Q w x ts1 ts2 -> maps_exactly all (fun va => P va \/ Q va) w x ts ts2).
  { intros all [Hwf H]. split; [done|]. intros va Hva.
    destruct (H va Hva) as [[? ?]|[Hs Hn]]; [left; auto|].
    destruct (H1 va Hva) as [[? (l & Hl & Hw)]|[Hs1 Hn1]].
    - left. split; [by left|]. exists l. by rewrite Hs.
    - right. split; [congruence|]. intros Ha [HP|HQ]; [by apply Hn1|by apply Hn]. }
  destruct r; cbn in *; auto.
Qed.

(** A mapping that stopped early also stopped the larger one. *)
Lemma maps_result_err P Q w x ts e ts' :
  (forall va, va_ok va -> P va -> Q va) ->
  maps_result P w x ts (Err e) ts' -> maps_result Q w x ts (Err e) ts'.
Proof.
  intros HPQ [Hwf H]. split; [done|]. intros va Hva.
  destruct (H va Hva) as [[? ?]|[? _]]; [left; auto|right]. done.
Qed.

Lemma map_identity_spec ts start e w x r ts' :
  wf ts -> u64 start -> u64 e -> map_identity start e w x ts = (r, ts') ->
  maps_result (fun va => start <= va < e) w x ts r ts'.
Proof.
  intros H [Hs0 Hs] [He0 He]. unfold map_identity. destruct (_ || _) eqn:E.
  { intros [= <- <-]. split; [done|]. intros va Hva. by right. }
  bool_prop. unfold sbind, slift. rewrite sub64_ok by lia. unfold in_prepare.
  destruct (TableSet_map _ ts) as [r0 ts0] eqn:Em. intros [= <- <-].
  apply TableSet_map_effect in Em as [Hwf Hr]; cbn [m_va m_pa m_size identity_mapping]; [|done|split; lia..].
  assert (Hm : forall va, maps_to ts0 (identity_mapping start (e - start) Normal w x) va -> identity_at ts0 w x va).
  { intros va (l & Hl & Hw). exists l. split; [done|]. rewrite Hw. cbn. do 3 f_equal. lia. }
  cbn [m_va m_size identity_mapping] in Hr. replace (start + (e - start)) with e in Hr by lia.
  destruct r0; cbn; [| |done]; (split; [done|]); intros va Hva; specialize (Hr va Hva).
  - destruct (_ && _) eqn:Ei; bool_prop; [left; split; [lia|auto]|right]. split; [done|].
    intros _ ?. destruct Ei; bool_prop; lia.
  - destruct Hr as [?|[? ?]]; [right; done|left; auto].
Qed.

Lemma min_by_start_spec l :
  match min_by_start l with
  | None => l = []
  | Some m => m ∈ l /\ forall y, y ∈ l -> fst m <= fst y
  end.
Proof.
  unfold min_by_start.
  assert (H : forall l best, match fold_left earlier l best with
    | None => l = [] /\ best = None
    | Some m => (m ∈ l \/ best = Some m) /\ (forall y, y ∈ l -> fst m <= fst y) /\
        forall b, best = Some b -> fst m <= fst b
    end).
  { clear l. induction l as [|a l IH]; intros best; cbn [fold_left].
    - destruct best as [b|]; [|done]. split_and!; [by right|by intros y ?%elem_of_nil|by intros ? [= ->]].
    - specialize (IH (earlier best a)). destruct (fold_left earlier l (earlier best a)) as [m|] eqn:Ef; unfold earlier in IH.
      + destruct IH as (Hin & Hmin & Hb). destruct best as [b|].
        * destruct (Z.ltb_spec (fst a) (fst b)); (split; [|split]).
          -- destruct Hin as [?|[= ->]]; left; [by right|by left].
          -- intros y [->|?]%elem_of_cons; [by apply Hb|auto].
          -- intros ? [= ->]. specialize (Hb _ eq_refl). lia.
          -- destruct Hin as [?|?]; [left; by right|by right].
          -- intros y [->|?]%elem_of_cons; [|auto]. specialize (Hb _ eq_refl). lia.
          -- intros ? [= ->]. by apply Hb.
        * split; [|split; [|done]].
          -- destruct Hin as [?|[= ->]]; left; [by right|by left].
          -- intros y [->|?]%elem_of_cons; [by apply Hb|auto].
      + destruct IH as [_ IH]. destruct best as [b|]; [|done]. by destruct (_ <? _). }
  specialize (H l None). destruct (fold_left _ l None); naive_solver.
Qed.

Lemma page_address_ok v : u64 v -> 0 <= page_address v <= v /\ page_address v mod PAGE_SIZE = 0.
Proof.
  intros Hv. rewrite page_address_sub by done. split; [apply sub_mod_le; [done|apply Hv]|by apply sub_mod_aligned].
Qed.

Lemma live_exclusion_spec es cursor e p q :
  Forall region_ok es -> (p, q) ∈ omap (live_exclusion cursor e) es ->
  cursor < q /\ p < e /\ u64 p /\ u64 q /\ p mod PAGE_SIZE = 0 /\ q mod PAGE_SIZE = 0 /\
  forall va, p <= va < q -> excluded_at es va.
Proof.
  intros Hok (x & Hin & Hl)%list_elem_of_omap. rewrite Forall_forall in Hok.
  destruct (Hok x Hin) as (Hx0 & Hx1 & Hx2). unfold live_exclusion in Hl.
  destruct (align_up (rend x) PAGE_SIZE) as [q'|] eqn:Ea; [|done]. destruct (_ && _) eqn:E; [|done].
  injection Hl as <- <-. bool_prop.
  assert (Hu : u64 (rstart x)) by (unfold rend, u64 in *; lia).
  assert (Hue : u64 (rend x)) by (unfold rend, u64 in *; lia).
  destruct (page_address_ok _ Hu) as [Hp Hpm].
  destruct (align_up_least _ _ _ Hue PAGE_SIZE_is_pow2 Ea) as (_ & Hqm & Hq & _).
  split_and!; try done; try (unfold u64 in *; lia). intros va Hva. exists x, q'. done.
Qed.

Lemma excluded_live es cursor e va :
  excluded_at es va -> cursor <= va < e ->
  exists p q, (p, q) ∈ omap (live_exclusion cursor e) es /\ p <= va < q.
Proof.
  intros (x & q & Hin & Ha & Hva) Hc. exists (page_address (rstart x)), q. split; [|done].
  apply list_elem_of_omap. exists x. split; [done|]. unfold live_exclusion. rewrite Ha.
  by rewrite (proj2 (Z.ltb_lt _ _)), (proj2 (Z.ltb_lt _ _)) by lia.
Qed.

(** The pages [map_around] maps from [cursor] on. *)
Definition around (es : list PhysRegion) (cursor e va : Z) : Prop := cursor <= va < e /\ ~ excluded_at es va.

(** One exclusion splits the pages ahead of the cursor. *)
Lemma around_split es cursor e p q :
  Forall region_ok es -> (p, q) ∈ omap (live_exclusion cursor e) es ->
  (forall y, y ∈ omap (live_exclusion cursor e) es -> p <= fst y) ->
  forall va, around es cursor e va <->
    (cursor <= va < Z.min p e \/ around es (Z.min (Z.max cursor q) e) e va).
Proof.
  intros Hok Hin Hmin va. destruct (live_exclusion_spec _ _ _ _ _ Hok Hin) as (Hq & Hp & _ & _ & _ & _ & Hex).
  unfold around. split.
  - intros [Hva Hn]. destruct (Z.lt_ge_cases va p); [left; lia|right]. split; [|done].
    assert (~ va < q) by (intros ?; apply Hn, Hex; lia). lia.
  - intros [Hva|[Hva Hn]]; [|split; [lia|done]]. split; [lia|]. intros Hx.
    destruct (excluded_live es cursor e va Hx ltac:(lia)) as (p' & q' & Hin' & Hv'). specialize (Hmin _ Hin').
    cbn in Hmin. lia.
Qed.

Lemma map_around_spec fuel es ts cursor e w x r ts' :
  wf ts -> Forall region_ok es -> u64 cursor -> u64 e -> cursor mod PAGE_SIZE = 0 -> e mod PAGE_SIZE = 0 ->
  Z.max 0 ((e - cursor) / PAGE_SIZE) < Z.of_nat fuel ->
  map_around fuel es cursor e w x ts = (r, ts') -> maps_result (around es cursor e) w x ts r ts'.
Proof.
  intros H Hok. revert ts H cursor. induction fuel as [|fuel IH]; intros ts H cursor Hc He Hcm Hem Hf; [lia|].
  cbn [map_around]. destruct (Z.ltb_spec cursor e) as [Hlt|Hge].
  2:{ intros [= <- <-]. apply maps_nothing; [done|]. unfold around. lia. }
  pose proof (min_by_start_spec (omap (live_exclusion cursor e) es)) as Hmin.
  destruct (min_by_start _) as [[p q]|].
  - destruct Hmin as [Hin Hmin]. cbn [fst] in Hmin.
    pose proof (around_split es cursor e p q Hok Hin Hmin) as Hsplit.
    destruct (live_exclusion_spec _ _ _ _ _ Hok Hin) as (Hq & Hp & Hpu & Hqu & Hpm & Hqm & _).
    set (c' := Z.min (Z.max cursor q) e) in *.
    assert (Hc' : u64 c' /\ c' mod PAGE_SIZE = 0 /\ cursor + PAGE_SIZE <= c').
    { unfold c', u64, PAGE_SIZE in *. Z.to_euclidean_division_equations. lia. }
    destruct Hc' as (Hcu & Hcm' & Hstep).
    assert (Hf' : Z.max 0 ((e - c') / PAGE_SIZE) < Z.of_nat fuel)
      by (unfold PAGE_SIZE in *; Z.to_euclidean_division_equations; lia).
    unfold sbind. destruct (Z.ltb_spec cursor p) as [Hcp|Hcp].
    + destruct (map_identity cursor (Z.min p e) w x ts) as [r1 ts1] eqn:Em.
      apply map_identity_spec in Em; [|done|done|unfold u64 in *; lia].
      destruct r1 as [[]|err|]; [|intros [= <- <-]|done].
      * intros Hr. eapply maps_result_ext; [intros va _; symmetry; apply Hsplit|].
        eapply maps_then; [exact Em|]. apply (IH ts1 (proj1 Em) c'); done.
      * eapply maps_result_err; [|done]. intros va _ Hva. apply Hsplit. by left.
    + unfold sret. intros Hr. eapply maps_result_ext; [|by apply (IH ts H c')].
      intros va _. rewrite Hsplit. split; [by right|]. intros [?|?]; [lia|done].
  - intros Hr. eapply maps_result_ext; [|exact (map_identity_spec ts cursor e w x r ts' H Hc He Hr)]. intros va _. unfold around.
    split; [|tauto]. intros Hva. split; [done|]. intros Hx.
    destruct (excluded_live es cursor e va Hx Hva) as (p & q & Hin & _). rewrite Hmin in Hin.
    by apply elem_of_nil in Hin.
Qed.

Lemma map_region_around_spec es ts region w x r ts' :
  wf ts -> Forall region_ok es -> region_ok region -> map_region_around es region w x ts = (r, ts') ->
  maps_result (fun va => inside_at [region] va /\ ~ excluded_at es va) w x ts r ts'.
Proof.
  intros H Hok (Hr0 & Hr1 & Hr2). unfold map_region_around, sbind, slift.
  assert (Hu : u64 (rstart region)) by (unfold rend, u64 in *; lia).
  assert (Hue : u64 (rend region)) by (unfold rend, u64 in *; lia).
  destruct (align_up (rstart region) PAGE_SIZE) as [start|] eqn:Ea; cbn [ok_or].
  2:{ intros [= <- <-]. split; [done|]. intros va Hva. by right. }
  destruct (align_up_least _ _ _ Hu PAGE_SIZE_is_pow2 Ea) as (_ & Hsm & Hsu & _).
  destruct (page_address_ok _ Hue) as [Hp Hpm]. intros Hm.
  apply map_around_spec in Hm; [|done..|unfold u64 in *; lia|done|done|].
  2:{ destruct (Z.lt_ge_cases ((page_address (rend region) - start) / PAGE_SIZE) 0); lia. }
  eapply maps_result_ext; [|exact Hm]. intros va _. unfold around, inside_at. split.
  - intros [Hva Hn]. split; [|done]. exists region, start. split_and!; [by apply list_elem_of_singleton|done|lia|lia].
  - intros [(r' & s & ->%list_elem_of_singleton & Hs & Hva) Hn]. rewrite Ea in Hs. injection Hs as <-. done.
Qed.

Lemma map_regions_around_spec es rs ts w x r ts' :
  wf ts -> Forall region_ok es -> Forall region_ok rs -> map_regions_around es rs w x ts = (r, ts') ->
  maps_result (fun va => inside_at rs va /\ ~ excluded_at es va) w x ts r ts'.
Proof.
  intros H Hes. revert ts H. induction rs as [|region rs IH]; intros ts H Hrs; cbn [map_regions_around].
  { intros [= <- <-]. apply maps_nothing; [done|]. by intros va _ [(? & ? & ?%elem_of_nil & _) _]. }
  apply Forall_cons in Hrs as [Hr Hrs]. unfold sbind.
  destruct (map_region_around es region w x ts) as [r1 ts1] eqn:Em.
  apply map_region_around_spec in Em; [|done..].
  assert (Hsplit : forall va, inside_at (region :: rs) va <-> inside_at [region] va \/ inside_at rs va).
  { intros va. unfold inside_at. setoid_rewrite elem_of_cons. setoid_rewrite elem_of_nil. naive_solver. }
  destruct r1 as [[]|err|]; [|intros [= <- <-]|done].
  - intros Hm. apply (IH ts1 (proj1 Em) Hrs) in Hm. eapply maps_result_ext; [|by eapply maps_then].
    intros va _. cbn. rewrite Hsplit. tauto.
  - eapply maps_result_err; [|done]. intros va _ [? ?]. rewrite Hsplit. tauto.
Qed.

(** ** Theorems *)

(** [identity_excluding_exact]: mapping RAM around exclusions never panics and
    terminates. On success an address is mapped to itself, with exactly the
    requested permissions, if it lies in a whole page of some region and in no
    page an exclusion touches; every other address translates as before. On
    failure only such addresses may have changed, so a guard page is left
    unmapped in every case. *)
Lemma identity_excluding_exact R E ts regions rs exclusions es w x r ts' :
  wf ts -> fl_rep R regions rs -> fl_rep E exclusions es -> Forall region_ok rs -> Forall region_ok es ->
  map_identity_regions_excluding regions exclusions w x ts = (r, ts') ->
  maps_result (fun va => inside_at rs va /\ ~ excluded_at es va) w x ts r ts'.
Proof.
  intros H Hr He Hrs Hes. unfold map_identity_regions_excluding, sbind at 1, slift.
  rewrite (iter_refines _ _ _ Hr). unfold sbind at 1. rewrite (iter_refines _ _ _ He).
  by apply map_regions_around_spec.
Qed.

(** ** Concrete instances *)

(** Sixteen pages of RAM with a device tree in the third and the fourth. *)
Definition sample_identity : outcome PrepareError unit * TableSet :=
  map_identity_regions_excluding (one_region 0x200000 0x10000) (one_region 0x202800 0x1000) true false tables0.

Lemma sample_identity_ok : fst sample_identity = Ok tt.
Proof. vm_compute. reflexivity. Qed.

Lemma one_region_ok s n : 0 <= s -> 0 < n -> s + n < 2 ^ 64 -> Forall region_ok [mkRegion s n].
Proof. intros. repeat constructor; cbn; unfold rend; cbn; lia. Qed.

