(* ===== verification/StartupResources.v ===== *)
(** * Startup resources: src/tvisor_util/startup_resources.rs

    Before a secondary CPU is released, the boot CPU checks everything that
    CPU will use: the sections of the image, the tables, its slot, the shared
    configuration, its stack and the firmware page with its release cell.  The
    checks sample one address per page; [validate_range_every] shows that this
    decides every address. *)

From S2P Require Import Prelude Page SystemInfo MemoryMap El2Stage1 Pcpu HostMap.

(** The sizes the sources assert for [PcpuSlot], [PcpuContext] and
    [HostEl2ConfigStorage]. *)
Definition SLOT_SIZE : Z := 384.
Definition CONTEXT_SIZE : Z := 64.
Definition CONFIG_SIZE : Z := 128.

Record StartupResources := mkResources {
  code : PhysRegion;
  vectors : PhysRegion;
  rodata : PhysRegion;
  writable : PhysRegion;
  tables_region : PhysRegion;
  slots : PhysRegion;
  config : PhysRegion;
  context : PhysRegion;
  release_region : PhysRegion;
  stack : StackLayout;
  entry_point : Z;
  root : Z
}.

Definition release_page (map : MemoryMap) (cell : Z) : outcome ResourceError PhysRegion :=
  reject negb (Z.land cell 7 =? 0) with Layout in
  let? page := Prelude.map_err (fun _ => Layout) (PhysRegion_new (Z.land cell (not64 4095)) PAGE_SIZE) in
  let? rams := FixedList_iter (ram map) in
  let? reserved := FixedList_iter (permanent_reserved map) in
  let? usable := FixedList_iter (usable_ram map) in
  let? devices := FixedList_iter (mmio map) in
  reject negb (existsb (fun r => contains_region r page) rams)
      || negb (existsb (fun r => contains_region r page) reserved)
      || existsb (fun r => overlaps r page) usable
      || existsb (fun r => overlaps r page) devices with Ownership in
  Ok page.

(** The body of the loop of [validate_range]. *)
Definition check_identity (tables : TableSet) (w x : bool) (address : Z) : outcome ResourceError unit :=
  let? found := Prelude.map_err (fun _ => MappingError) (walk tables address) in
  let? m := ok_or found MappingError in
  reject negb (t_pa m =? address) || negb (bool_decide (t_type m = Normal))
      || negb (eqb (t_writable m) w) || negb (eqb (t_executable m) x) with MappingError in
  Ok tt.

Fixpoint check_all {A} (check : A -> outcome ResourceError unit) (l : list A) : outcome ResourceError unit :=
  match l with
  | [] => Ok tt
  | a :: l => let? _ := check a in check_all check l
  end.

Definition validate_range (tables : TableSet) (region : PhysRegion) (w x : bool) : outcome ResourceError unit :=
  let? last := sub64 (rend region) 1 in
  check_all (check_identity tables w x) (page_steps (rstart region) (rend region) ++ [last]).

(** The layout loop of [validate_stacks]: [seen] are the stacks before [i]. *)
Fixpoint check_layouts (seen stacks : list StackLayout) : outcome ResourceError unit :=
  match stacks with
  | [] => Ok tt
  | s :: rest =>
      reject negb (bool_decide (stack_layout (guard_start s) = Ok s))
          || existsb (fun other => (guard_start s <? top other) && (guard_start other <? top s)) seen
        with Layout in
      check_layouts (seen ++ [s]) rest
  end.

Definition validate_stacks (tables : TableSet) (list_ : FixedList StackLayout) : outcome ResourceError unit :=
  let? stacks := FixedList_iter list_ in
  let? _ := check_layouts [] stacks in
  check_all (fun s => Prelude.map_err (fun _ => MappingError) (validate_stack tables s)) stacks.

Definition sections (r : StartupResources) : list PhysRegion :=
  [code r; vectors r; rodata r; writable r; tables_region r; release_region r].

(** The first loop of [validate_resources]: alignment and overlap. *)
Fixpoint check_sections (l : list PhysRegion) : outcome ResourceError unit :=
  match l with
  | [] => Ok tt
  | a :: rest =>
      reject negb (Z.land (rstart a) 4095 =? 0) || negb (Z.land (rsize a) 4095 =? 0) with Layout in
      reject existsb (overlaps a) rest with Layout in
      check_sections rest
  end.

Definition check_objects (r : StartupResources) : outcome ResourceError unit :=
  reject negb (Z.land (entry_point r) 3 =? 0)
      || negb (contains_address (code r) (entry_point r))
      || (rsize (vectors r) <? 2048)
      || negb (contains_region (writable r) (slots r))
      || negb (contains_region (writable r) (context r))
      || negb (Z.land (rstart (slots r)) 63 =? 0)
      || negb (Z.land (rstart (context r)) 63 =? 0)
      || negb (rsize (slots r) =? Z.of_nat MAX_CPUS * SLOT_SIZE)
      || negb (rsize (context r) =? CONTEXT_SIZE)
      || negb (contains_region (slots r) (context r))
      || negb (contains_region (writable r) (config r))
      || negb (Z.land (rstart (config r)) 63 =? 0)
      || negb (rsize (config r) =? CONFIG_SIZE)
      || overlaps (config r) (slots r) with Layout in
  let? layout := Prelude.map_err (fun _ => Layout) (stack_layout (guard_start (stack r))) in
  reject negb (bool_decide (layout = stack r)) with Layout in
  let? allocation := Prelude.map_err (fun _ => Layout)
                       (PhysRegion_from_bounds (guard_start (stack r)) (top (stack r))) in
  reject existsb (fun section => overlaps section allocation) (sections r) with Layout in
  Ok tt.

(** The permissions every range must have. *)
Definition expected (r : StartupResources) : list (PhysRegion * bool * bool) :=
  [(code r, false, true); (vectors r, false, true); (rodata r, false, false); (writable r, true, false);
   (tables_region r, true, false); (slots r, true, false); (config r, true, false); (context r, true, false);
   (release_region r, true, false)].

Definition validate_resources (tables : TableSet) (r : StartupResources) : outcome ResourceError unit :=
  let? _ := check_sections (sections r) in
  let? _ := check_objects r in
  reject negb (root r =? base_pa tables)
      || negb (contains_address (tables_region r) (root r))
      || negb (rstart (tables_region r) =? root r)
      || (rsize (tables_region r) <? Z.of_nat (length (pages tables)) * PAGE_SIZE) with Root in
  let? _ := check_all (fun '(region, w, x) => validate_range tables region w x) (expected r) in
  Prelude.map_err (fun _ => MappingError) (validate_stack tables (stack r)).

(** ** A walk is the same on a whole page *)

(** The translation [d] bytes further. *)
Definition shift_pa (d : Z) (t : El2Stage1.Translation) : El2Stage1.Translation :=
  mkTranslation (t_pa t + d) (t_type t) (t_writable t) (t_executable t) (t_level t).

Lemma same_page_idx level va va' :
  valid_level level -> pre 3 va = pre 3 va' -> idx level va = idx level va'.
Proof.
  intros Hl Hp. unfold idx, pre in *. cbn [lshift] in Hp.
  assert (Hs : lshift level = 12 + (lshift level - 12) /\ 0 <= lshift level - 12) by (levels Hl; simpl; lia).
  destruct Hs as [Hs H0]. rewrite Hs, <- !Z.shiftr_shiftr by done. by rewrite Hp.
Qed.

Lemma masked_output_aligned level d :
  valid_level level -> Z.land d (omask level) mod 2 ^ lshift level = 0.
Proof.
  intros Hl. assert (Hs : 0 <= lshift level < 64) by (levels Hl; simpl; lia).
  rewrite <- Z.land_ones by lia. unfold omask, lsize, not64. rewrite ones_pred by lia.
  apply Z.bits_inj'. intros i Hi. autorewrite with tv_bits.
  destruct (Z.ltb_spec i (lshift level)); simpl; by rewrite ?andb_false_r.
Qed.

Lemma same_page_mod va va' level :
  valid_level level -> pre 3 va = pre 3 va' -> va' mod lsize level = va mod lsize level + (va' - va).
Proof.
  intros Hl Hp. unfold pre in Hp. cbn [lshift] in Hp. rewrite !Z.shiftr_div_pow2 in Hp by lia.
  assert (Hd : va / lsize level = va' / lsize level).
  { assert (Hs : lsize level = 2 ^ 12 * 2 ^ (lshift level - 12)).
    { unfold lsize. rewrite <- Z.pow_add_r by (levels Hl; simpl; lia). f_equal. lia. }
    rewrite Hs, <- !Z.div_div by (try apply Z.pow_pos_nonneg; levels Hl; simpl; lia). by rewrite Hp. }
  pose proof (lsize_pos level). rewrite !Z.mod_eq by lia. rewrite Hd. lia.
Qed.

Lemma leaf_translation_shift level va va' d :
  valid_level level -> pre 3 va = pre 3 va' ->
  leaf_translation level va' d = outcome_map (option_map (shift_pa (va' - va))) (leaf_translation level va d).
Proof.
  intros Hl Hp. unfold leaf_translation. rewrite level_size_eq, output_mask_eq by done. cbn [obind].
  destruct (memory_type_of d); cbn [obind outcome_map]; [|done..]. unfold option_map, shift_pa. cbn.
  do 3 f_equal. assert (Hs : 0 <= lshift level) by (levels Hl; simpl; lia).
  pose proof (lsize_pos level) as Hz. pose proof (masked_output_aligned level d Hl).
  pose proof (same_page_mod va va' level Hl Hp) as Hm. unfold lsize in *. rewrite !land_pow2_pred by done.
  rewrite !(lor_disjoint_add _ _ (lshift level)) by (done || apply Z.mod_pos_bound; lia). lia.
Qed.

Lemma walk_loop_shift ts va va' t levels :
  Forall valid_level levels -> pre 3 va = pre 3 va' ->
  walk_loop ts va' t levels = outcome_map (option_map (shift_pa (va' - va))) (walk_loop ts va t levels).
Proof.
  intros Hl Hp. revert t. induction levels as [|level levels IH]; intros t; cbn [walk_loop]; [done|].
  apply Forall_cons in Hl as [Hv Hl]. rewrite !index_for_eq by done. cbn [obind].
  rewrite (same_page_idx level va' va) by done. destruct (get_entry ts t (idx level va)); cbn [obind]; [|done..].
  destruct (_ =? 0); [done|]. destruct (_ && _).
  - destruct (table_index _ _); cbn [obind]; [by apply IH|done..].
  - destruct (_ && _); [done|]. by apply leaf_translation_shift.
Qed.

Lemma walk_shift ts va va' :
  va_ok va -> va_ok va' -> pre 3 va = pre 3 va' ->
  walk ts va' = outcome_map (option_map (shift_pa (va' - va))) (walk ts va).
Proof.
  intros Hv Hv' Hp. unfold walk. change (Z.shiftl 1 VA_BITS) with (2 ^ 39). unfold va_ok in *.
  rewrite !(proj2 (Z.leb_gt (2 ^ 39) _)) by lia. apply walk_loop_shift; [|done].
  repeat constructor; unfold valid_level; lia.
Qed.

(** ** Ranges *)

(** [va] is Normal memory mapped to itself with these permissions. *)
Definition id_at (ts : TableSet) (w x : bool) (va : Z) : Prop :=
  exists level, walk ts va = Ok (Some (mkTranslation va Normal w x level)).

Lemma check_identity_spec ts w x a : check_identity ts w x a = Ok tt <-> id_at ts w x a.
Proof.
  unfold check_identity, id_at. destruct (walk ts a) as [[t|]|e|]; cbn.
  - destruct t as [pa ty tw tx l]. cbn. split.
    + destruct (_ || _) eqn:E; [done|]. intros _.
      rewrite !orb_false_iff, !negb_false_iff, Z.eqb_eq, bool_decide_eq_true, !eqb_true_iff in E.
      destruct E as [[[-> ->] ->] ->]. eauto.
    + intros (level & [= -> -> -> -> ->]). rewrite Z.eqb_refl, bool_decide_true by done.
      by destruct w, x.
  - split; [done|]. by intros (? & ?).
  - split; [done|]. by intros (? & ?).
  - split; [done|]. by intros (? & ?).
Qed.

Lemma check_all_spec {A} (check : A -> outcome ResourceError unit) l :
  check_all check l = Ok tt <-> Forall (fun a => check a = Ok tt) l.
Proof.
  induction l as [|a l IH]; cbn [check_all]; [by split|]. rewrite Forall_cons, <- IH.
  destruct (check a) as [[]|e|]; cbn [obind]; naive_solver.
Qed.

Lemma walk_va ts va t : walk ts va = Ok t -> va < 2 ^ 39.
Proof.
  unfold walk. change (Z.shiftl 1 VA_BITS) with (2 ^ 39). destruct (Z.leb_spec (2 ^ 39) va); done || lia.
Qed.

Lemma id_at_page ts w x va va' :
  0 <= va -> 0 <= va' -> pre 3 va = pre 3 va' -> id_at ts w x va -> id_at ts w x va'.
Proof.
  intros H0 H0' Hp (level & Hw). pose proof (walk_va _ _ _ Hw) as Hlt.
  assert (Hv' : va_ok va').
  { unfold va_ok, pre in *. cbn [lshift] in Hp. rewrite !Z.shiftr_div_pow2 in Hp by lia.
    change (2 ^ 12) with 4096 in Hp. change (2 ^ 39) with (134217728 * 4096) in *.
    Z.to_euclidean_division_equations. lia. }
  exists level. rewrite (walk_shift ts va va') by (done || split; lia). rewrite Hw. unfold outcome_map, option_map, shift_pa. cbn.
  by replace (va + (va' - va)) with va' by lia.
Qed.

Lemma page_steps_intro a b k : a + Z.of_nat k * PAGE_SIZE < b -> a + Z.of_nat k * PAGE_SIZE ∈ page_steps a b.
Proof.
  intros H. unfold page_steps. apply list_elem_of_fmap. exists k. split; [done|]. apply elem_of_seq.
  assert (Z.of_nat k + 1 <= (b - a + PAGE_SIZE - 1) / PAGE_SIZE); [|lia].
  unfold PAGE_SIZE in *. apply Z.div_le_lower_bound; lia.
Qed.

(** Every page of a range has a sample: a step from the start or the last byte. *)
Lemma sampled region va :
  0 <= rstart region -> rstart region <= va < rend region ->
  exists a, a ∈ page_steps (rstart region) (rend region) ++ [rend region - 1] /\
    rstart region <= a < rend region /\ pre 3 a = pre 3 va.
Proof.
  intros H0 Hva. set (s := rstart region) in *. set (e := rend region) in *.
  set (k := Z.to_nat (va / PAGE_SIZE - s / PAGE_SIZE)).
  assert (Hk : Z.of_nat k = va / PAGE_SIZE - s / PAGE_SIZE)
    by (unfold k, PAGE_SIZE; Z.to_euclidean_division_equations; lia).
  assert (Hpre : forall a, a / PAGE_SIZE = va / PAGE_SIZE -> pre 3 a = pre 3 va).
  { intros a Ha. unfold pre. cbn [lshift]. by rewrite !Z.shiftr_div_pow2, <- PAGE_SIZE_pow2 by lia. }
  destruct (Z.lt_ge_cases (s + Z.of_nat k * PAGE_SIZE) e) as [Hlt|Hge].
  - exists (s + Z.of_nat k * PAGE_SIZE). split; [apply elem_of_app; left; by apply page_steps_intro|].
    split; [unfold PAGE_SIZE in *; lia|]. apply Hpre. rewrite Z.div_add by done. lia.
  - exists (e - 1). split; [apply elem_of_app; right; by apply list_elem_of_singleton|].
    split; [lia|]. apply Hpre. clear Hpre. unfold PAGE_SIZE in *. Z.to_euclidean_division_equations. lia.
Qed.

Lemma validate_range_every ts region w x :
  region_ok region ->
  validate_range ts region w x = Ok tt <->
  forall va, rstart region <= va < rend region -> id_at ts w x va.
Proof.
  intros (H0 & H1 & H2). unfold validate_range. rewrite sub64_ok by (unfold rend; lia). cbn [obind].
  rewrite check_all_spec, Forall_forall. split.
  - intros H va Hva. destruct (sampled region va H0 Hva) as (a & Hin & Ha & Hp).
    apply (id_at_page ts w x a va); [lia|lia|done|]. apply check_identity_spec. auto.
  - intros H a Hin. apply check_identity_spec, H. apply elem_of_app in Hin as [Hin|Hin].
    + apply page_steps_elem in Hin as [? _]. lia.
    + apply list_elem_of_singleton in Hin. unfold rend in *. lia.
Qed.

(** ** Stacks *)

Lemma validate_guard_sound ts l : validate_guard ts l = Ok tt -> forall a, a ∈ l -> walk ts a = Ok None.
Proof.
  induction l as [|a l IH]; cbn [validate_guard]; [by intros _ a ?%elem_of_nil|].
  destruct (walk ts a) as [[t|]|e|] eqn:E; cbn [obind]; try done. intros H b [->|Hb]%elem_of_cons; auto.
Qed.

Lemma validate_pages_sound ts l :
  validate_pages ts l = Ok tt -> forall a, a ∈ l -> id_at ts true false a.
Proof.
  induction l as [|a l IH]; cbn [validate_pages]; [by intros _ a ?%elem_of_nil|].
  destruct (walk ts a) as [[t|]|e|] eqn:E; cbn [obind ok_or]; try done.
  destruct (_ || _) eqn:Ec; [done|]. intros Hr b [->|Hb]%elem_of_cons; [|auto].
  rewrite !orb_false_iff, !negb_false_iff, Z.eqb_eq, bool_decide_eq_true in Ec.
  destruct t as [pa ty tw tx lv]. cbn in *. destruct Ec as [[[-> ->] ->] ->]. by exists lv.
Qed.

Lemma validate_stack_sound ts s base :
  0 <= base -> stack_layout base = Ok s -> validate_stack ts s = Ok tt ->
  (forall va, guard_start s <= va < bottom s -> walk ts va = Ok None) /\
  (forall va, bottom s <= va < top s -> id_at ts true false va).
Proof.
  intros H0 Hl. destruct (stack_layout_Ok _ _ Hl) as (Hal & Hg & Hb & Ht & Hmax).
  unfold validate_stack. destruct (validate_guard _ _) as [[]|e|] eqn:Eg; cbn [obind]; [|done..].
  unfold STACK_SIZE, PAGE_SIZE in *. rewrite sub64_ok by lia. cbn [obind]. intros Hp.
  assert (Hpages : forall va, bottom s <= va < top s -> id_at ts true false va).
  { intros va Hva. destruct (sampled (mkRegion (bottom s) (top s - bottom s)) va) as (a & Hin & Ha & Hpre);
      unfold rend in *; cbn [rstart rsize] in *; [lia|lia|].
    apply (id_at_page ts true false a va); [lia|lia|done|]. apply (validate_pages_sound _ _ Hp).
    by replace (bottom s + (top s - bottom s)) with (top s) in Hin by lia. }
  split; [|done]. intros va Hva.
  assert (Hgw : walk ts (guard_start s) = Ok None).
  { apply (validate_guard_sound _ _ Eg). pose proof (page_steps_intro (guard_start s) (bottom s) 0) as Hi.
    rewrite Z.add_0_r in Hi. apply Hi. unfold PAGE_SIZE. lia. }
  destruct (Hpages (bottom s) ltac:(lia)) as (l & Hbw). apply walk_va in Hbw.
  rewrite (walk_shift ts (guard_start s) va), Hgw; [done|split; lia..|].
  unfold pre. cbn [lshift]. rewrite !Z.shiftr_div_pow2 by lia. change (2 ^ 12) with 4096.
  Z.to_euclidean_division_equations. lia.
Qed.

(** ** Sections *)

Definition apart (a b : PhysRegion) : Prop := forall va, rstart a <= va < rend a -> ~ rstart b <= va < rend b.

Lemma overlaps_apart a b : overlaps a b = false -> apart a b.
Proof. unfold overlaps, apart. intros H va ? ?. bool_prop. destruct H; bool_prop; lia. Qed.

Lemma existsb_false {A} (f : A -> bool) l : existsb f l = false <-> Forall (fun a => f a = false) l.
Proof.
  induction l as [|a l IH]; cbn; [by split|]. rewrite orb_false_iff, IH, Forall_cons. done.
Qed.

Lemma check_sections_sound l :
  check_sections l = Ok tt ->
  Forall (fun a => rstart a mod PAGE_SIZE = 0 /\ rsize a mod PAGE_SIZE = 0) l /\
  forall i j a b, (i < j)%nat -> l !! i = Some a -> l !! j = Some b -> apart a b.
Proof.
  induction l as [|a l IH]; cbn [check_sections]; [by split; [constructor|]|].
  destruct (_ || _) eqn:E; [done|]. destruct (existsb _ _) eqn:Eo; [done|]. bool_prop.
  change 4095 with (PAGE_SIZE - 1) in *. rewrite PAGE_SIZE_pow2, !land_pow2_pred in * by lia.
  intros Hr. destruct (IH Hr) as [Hf Hd]. split; [by constructor|].
  apply existsb_false in Eo. rewrite Forall_lookup in Eo.
  intros [|i] [|j] x y Hij Hx Hy; try lia; cbn in Hx, Hy.
  - injection Hx as <-. apply overlaps_apart. by eapply Eo.
  - eapply (Hd i j); [lia|done..].
Qed.

(** ** Theorems *)

Lemma validate_resources_effect ts r :
  Forall region_ok ((fun p => p.1.1) <$> expected r) -> 0 <= guard_start (stack r) ->
  validate_resources ts r = Ok tt ->
  (forall region w x va, (region, w, x) ∈ expected r -> rstart region <= va < rend region ->
     id_at ts w x va /\ w && x = false) /\
  (forall i j a b, (i < j)%nat -> sections r !! i = Some a -> sections r !! j = Some b -> apart a b) /\
  (forall a va, a ∈ sections r -> rstart a <= va < rend a -> ~ guard_start (stack r) <= va < top (stack r)) /\
  (forall va, guard_start (stack r) <= va < bottom (stack r) -> walk ts va = Ok None) /\
  (forall va, bottom (stack r) <= va < top (stack r) -> id_at ts true false va) /\
  (rstart (code r) <= entry_point r < rend (code r) /\ entry_point r mod 4 = 0) /\ root r = base_pa ts.
Proof.
  intros Hok Hg0 Hv. unfold validate_resources in Hv.
  destruct (check_sections (sections r)) as [[]|e|] eqn:Es; cbn [obind] in Hv; [|done..].
  destruct (check_objects r) as [[]|e|] eqn:Eo; cbn [obind] in Hv; [|done..].
  destruct (_ || _) eqn:Er in Hv; [done|]. destruct (check_all _ _) as [[]|e|] eqn:Ec; cbn [obind] in Hv; [|done..].
  destruct (validate_stack ts (stack r)) as [[]|e|] eqn:Est; cbn in Hv; [|done..].
  unfold check_objects in Eo. destruct (_ || _) eqn:Eob in Eo; [done|].
  destruct (stack_layout _) as [layout|e|] eqn:El; cbn [obind Prelude.map_err] in Eo; [|done..].
  case_bool_decide as Hlay; cbn [negb] in Eo; [|done]. subst layout.
  destruct (PhysRegion_from_bounds _ _) as [alloc|e|] eqn:Ea; cbn [obind Prelude.map_err] in Eo; [|done..].
  destruct (existsb _ _) eqn:Eex; [done|]. clear Eo Hv.
  destruct (validate_stack_sound ts (stack r) _ Hg0 El Est) as [Hguard Hstack].
  apply check_all_spec in Ec. rewrite Forall_forall in Ec. rewrite Forall_forall in Hok.
  split; [|split; [by apply check_sections_sound|split; [|split; [done|split; [done|split; [split|]]]]]].
  - intros region w x va Hin Hva. split.
    + apply (validate_range_every ts region w x); [|by apply (Ec (region, w, x))|done].
      apply Hok. apply list_elem_of_fmap. by exists (region, w, x).
    + unfold expected in Hin. repeat (apply elem_of_cons in Hin as [[= _ -> ->]|Hin]; [done|]).
      by apply elem_of_nil in Hin.
  - intros a va Hin Hva Hs. apply existsb_false in Eex. rewrite Forall_forall in Eex.
    specialize (Eex a Hin). apply overlaps_apart in Eex. apply (Eex va Hva).
    destruct (stack_layout_Ok _ _ El) as (_ & _ & Hb & Ht & Hmax). unfold PAGE_SIZE, STACK_SIZE in *.
    rewrite PhysRegion_from_bounds_ok in Ea by lia. injection Ea as <-. unfold rend. cbn. lia.
  - bool_prop. by apply contains_address_iff.
  - assert (H3 : Z.land (entry_point r) 3 = 0) by (bool_prop; done).
    change 4 with (2 ^ 2). by rewrite <- land_pow2_pred.
  - bool_prop. done.
Qed.

(** [validate_resources_sound]: when the startup resources are accepted, every
    address of every section, of the slots, the configuration and the release
    page is mapped to itself as Normal memory with exactly the permissions of
    its section, and none is both writable and executable; the sections are
    page aligned and disjoint from each other and from the stack; the stack's
    guard page is unmapped at every address and its pages are writable and not
    executable; the entry point is an instruction of the code section and the
    root is that of the tables. *)
Lemma validate_resources_sound ts r :
  Forall region_ok ((fun p => p.1.1) <$> expected r) -> 0 <= guard_start (stack r) ->
  validate_resources ts r = Ok tt ->
  (forall region w x va, (region, w, x) ∈ expected r -> rstart region <= va < rend region ->
     id_at ts w x va /\ w && x = false) /\
  (forall i j a b, (i < j)%nat -> sections r !! i = Some a -> sections r !! j = Some b -> apart a b) /\
  (forall a va, a ∈ sections r -> rstart a <= va < rend a -> ~ guard_start (stack r) <= va < top (stack r)) /\
  (forall va, guard_start (stack r) <= va < bottom (stack r) -> walk ts va = Ok None) /\
  (forall va, bottom (stack r) <= va < top (stack r) -> id_at ts true false va) /\
  (rstart (code r) <= entry_point r < rend (code r) /\ entry_point r mod 4 = 0) /\ root r = base_pa ts.
Proof. apply validate_resources_effect. Qed.

(** ** Concrete instances *)

(** An image of one page per section, its tables and stack, in one gigabyte. *)
Definition sample_resources : StartupResources :=
  mkResources (mkRegion 0x40100000 0x1000) (mkRegion 0x40101000 0x1000) (mkRegion 0x40102000 0x1000)
    (mkRegion 0x40103000 0x1000) (mkRegion 0x40000000 0x3000) (mkRegion 0x40103000 1536)
    (mkRegion 0x40103800 128) (mkRegion 0x40103180 64) (mkRegion 0x40110000 0x1000)
    (mkStack 0x40120000 0x40121000 0x40131000) 0x40100010 0x40000000.

Definition sample_host : TableSet :=
  snd ((let! _ := map_identity 0x40100000 0x40102000 false true in
        let! _ := map_identity 0x40102000 0x40103000 false false in
        let! _ := map_identity 0x40103000 0x40104000 true false in
        let! _ := map_identity 0x40000000 0x40003000 true false in
        let! _ := map_identity 0x40110000 0x40111000 true false in
        map_identity 0x40121000 0x40131000 true false) tables0).

Lemma sample_resources_ok : validate_resources sample_host sample_resources = Ok tt.
Proof. vm_compute. reflexivity. Qed.

