(* ===== verification/Takeover.v ===== *)
(** * Taking over the machine's memory: src/src/mm.rs

    Once tvisor runs on its own stack and tables it turns the finalised memory
    map into the global page allocator.  [Takeover] joins three components:
    the memory map says which addresses are usable, the allocator is built
    over them, and the global static publishes it.  The theorem follows a page
    from the map to the hands of a client: whatever sequence of allocations
    and frees runs, a page handed out is RAM outside every reservation. *)

From S2P Require Import Prelude Page SystemInfo MemoryMap PageAllocator Mm.

Inductive AllocatorInitError :=
| InitAllocator (e : AllocatorError)
| InvalidDtb
| DtbAllocatable.

Record AllocatorInitResult := mkInitResult {
  ir_stats : AllocatorStats;
  ir_live_dtb : PhysRegion
}.

(** [read_be32]: four volatile byte reads, combined by [u32::from_be_bytes]. *)
Definition read_be32 (mem : Z -> Z) (addr : Z) : Z :=
  Z.lor (Z.lor (Z.lor (Z.shiftl (mem addr) 24) (Z.shiftl (mem (addr + 1)) 16)) (Z.shiftl (mem (addr + 2)) 8))
    (mem (addr + 3)).

Definition validate_live_dtb (mem : Z -> Z) (region : PhysRegion) : outcome AllocatorInitError unit :=
  reject rsize region <? 8 with InvalidDtb in
  reject negb (read_be32 mem (rstart region) =? 0xd00dfeed)
      || negb (read_be32 mem (rstart region + 4) =? rsize region) with InvalidDtb in
  Ok tt.

Section Takeover.
Context (B : nat).

(** The bitmaps are written while the allocator is built; [leftover] is what
    a construction that fails has left in them. *)
Definition build_allocator (leftover : PageBitmap * PageBitmap) (memory_map : MemoryMap) :
    stateful GlobalPageAllocator AllocatorInitError PageAllocator := fun g =>
  match PageAllocator_new B (ram memory_map) (usable_ram memory_map) (usable_ram memory_map)
          (g_managed g) (g_in_use g) with
  | Ok al => (Ok al, mkGlobal (managed al) (in_use al) (g_ram_pages g) (g_initialized g))
  | Err e => (Err (InitAllocator e), mkGlobal leftover.1 leftover.2 (g_ram_pages g) (g_initialized g))
  | Panic => (Panic, mkGlobal leftover.1 leftover.2 (g_ram_pages g) (g_initialized g))
  end.

(** The loop over the pages of the device tree. *)
Fixpoint check_dtb_reserved (fuel : nat) (allocator : PageAllocator) (page e : Z) :
    outcome AllocatorInitError unit :=
  match fuel with
  | O => Panic
  | S fuel' =>
      if page <? e then
        let? st := Prelude.map_err InitAllocator (state B allocator page) in
        reject negb (bool_decide (st = Reserved)) with DtbAllocatable in
        let? page' := ok_or (checked_add page PAGE_SIZE) (InitAllocator AAddressOverflow) in
        check_dtb_reserved fuel' allocator page' e
      else Ok tt
  end.

Definition initialize_allocator_after_takeover (leftover : PageBitmap * PageBitmap) (mem : Z -> Z)
    (memory_map : MemoryMap) (live_dtb : PhysRegion) :
    stateful GlobalPageAllocator AllocatorInitError AllocatorInitResult :=
  let! initialized := sread g_initialized in
  if initialized then sfail (InitAllocator DoubleFree)
  else
    let! _ := slift (validate_live_dtb mem live_dtb) in
    let! live_dtb_pages := slift (Prelude.map_err (fun _ => InvalidDtb)
                             (PhysRegion_new_aligned (rstart live_dtb) (rsize live_dtb) PAGE_SIZE)) in
    let! allocator := build_allocator leftover memory_map in
    let! _ := slift (check_dtb_reserved (S (Z.to_nat (rsize live_dtb_pages / PAGE_SIZE))) allocator
                       (rstart live_dtb_pages) (rend live_dtb_pages)) in
    let! st := slift (stats allocator) in
    let! _ := supdate (fun g => Ok (mkGlobal (g_managed g) (g_in_use g) (st_ram_pages st) true)) in
    sret (mkInitResult st live_dtb).

(** ** The clients of the allocator, as a step relation *)

Inductive mm_op :=
| OpAllocate (pages : nat)
| OpAllocatePage
| OpFree (page : Z).

(** The run of pages an operation handed out, if it did. *)
Definition mm_step (op : mm_op) (g : GlobalPageAllocator) : option (Z * nat) * GlobalPageAllocator :=
  match op with
  | OpAllocate pages =>
      let '(r, g') := allocate_contiguous_pages B pages g in
      (match r with Ok pa => Some (pa, pages) | _ => None end, g')
  | OpAllocatePage =>
      let '(r, g') := allocate_page B g in
      (match r with Ok pa => Some (pa, 1%nat) | _ => None end, g')
  | OpFree page => (None, snd (free_page B page g))
  end.

Fixpoint mm_run (ops : list mm_op) (g : GlobalPageAllocator) : list (Z * nat) * GlobalPageAllocator :=
  match ops with
  | [] => ([], g)
  | op :: rest =>
      let '(r, g1) := mm_step op g in
      let '(rs, g2) := mm_run rest g1 in
      (match r with Some run => run :: rs | None => rs end, g2)
  end.

(** Page arguments are machine addresses. *)
Definition op_ok (op : mm_op) : Prop := match op with OpFree page => u64 page | _ => True end.

(** ** Pages of a canonical list *)

Lemma canonical_interval lo rs a n :
  canonical_from lo rs -> 0 < n -> (forall x, a <= x < a + n -> covers rs x) ->
  exists r, r ∈ rs /\ rstart r <= a /\ a + n <= rend r.
Proof.
  clear B. intros Hc Hn. revert lo Hc. induction rs as [|r rs IH]; intros lo Hc Hcov.
  { destruct (Hcov a ltac:(lia)) as (? & ?%elem_of_nil & _). done. }
  destruct Hc as (Hlo & Hr & Hc). pose proof (canonical_from_above _ _ Hc) as Hab. rewrite Forall_forall in Hab.
  destruct (Z.lt_ge_cases a (rend r)) as [Hin|Hout].
  - exists r. assert (Hend : a + n <= rend r).
    { destruct (Z.le_gt_cases (a + n) (rend r)); [done|]. destruct (Hcov (rend r) ltac:(lia)) as (r' & Hr' & Hx).
      apply elem_of_cons in Hr' as [->|Hr']; [lia|]. specialize (Hab _ Hr'). cbn in Hab. lia. }
    split; [by left|]. split; [|done]. destruct (Hcov a ltac:(lia)) as (r' & Hr' & Hx).
    apply elem_of_cons in Hr' as [->|Hr']; [lia|]. specialize (Hab _ Hr'). cbn in Hab. lia.
  - destruct (IH _ Hc) as (r' & ? & ?); [|exists r'; split; [by right|done]]. intros x Hx.
    destruct (Hcov x Hx) as (r' & Hr' & ?). apply elem_of_cons in Hr' as [->|Hr']; [lia|]. by exists r'.
Qed.

Lemma inside_any_covers rs j :
  inside_any rs j = true ->
  forall x, Z.of_nat j * PAGE_SIZE <= x < (Z.of_nat j + 1) * PAGE_SIZE -> covers rs x.
Proof.
  clear B. unfold inside_any. intros (r & Hin & Hp)%existsb_exists x Hx. apply list_elem_of_In in Hin.
  unfold page_inside in Hp. bool_prop. exists r. split; [done|]. lia.
Qed.

Lemma covers_inside_any lo rs j :
  canonical_from lo rs ->
  (forall x, Z.of_nat j * PAGE_SIZE <= x < (Z.of_nat j + 1) * PAGE_SIZE -> covers rs x) ->
  inside_any rs j = true.
Proof.
  clear B. intros Hc Hcov. destruct (canonical_interval lo rs (Z.of_nat j * PAGE_SIZE) PAGE_SIZE Hc) as (r & Hin & H1 & H2);
    [done|intros x Hx; apply Hcov; lia|].
  unfold inside_any. apply existsb_exists. exists r. split; [by apply list_elem_of_In|].
  unfold page_inside. rewrite !(proj2 (Z.leb_le _ _)) by lia. done.
Qed.

Lemma countb_or f g n :
  (forall i, f i && g i = false) -> countb (fun i => f i || g i) n = countb f n + countb g n.
Proof.
  clear B. intros H. induction n as [|n IH]; cbn [countb]; [done|]. rewrite IH. specialize (H n).
  destruct (f n), (g n); cbn in *; lia || done.
Qed.

Lemma countb_interval i k n :
  countb (fun j => (i <=? j) && (j <? k))%nat n = Z.of_nat (Nat.min k n - i).
Proof.
  clear B. induction n as [|n IH]; cbn [countb]; [by rewrite Nat.min_0_r|]. rewrite IH.
  destruct (Nat.leb_spec i n), (Nat.ltb_spec n k); cbn [andb Z.b2z]; lia.
Qed.

(** [count_pages] is the number of whole pages inside a canonical list. *)
Lemma count_pages_loop_exact lo rs n m P :
  canonical_from lo rs -> (forall j, inside_any rs j = true -> (j < P)%nat) ->
  count_pages_loop rs n = Ok m -> m = n + countb (inside_any rs) P.
Proof.
  clear B. revert lo n. induction rs as [|r rs IH]; intros lo n Hc HP; cbn [count_pages_loop].
  { intros [= ->]. unfold inside_any. cbn. rewrite countb_false. lia. }
  destruct Hc as (Hlo & Hr & Hc). pose proof (inner_bounds_spec r Hr) as Hib.
  destruct (inner_bounds r) as [[s e]| |]; cbn [obind]; [|done..].
  destruct Hib as (i & k & -> & -> & Hi & Hk). cbn [fst snd]. destruct (_ <? _); [done|].
  destruct (Z.le_gt_cases (Z.of_nat i * PAGE_SIZE) (Z.of_nat k * PAGE_SIZE)); [|by rewrite sub64_panic by lia].
  rewrite sub64_ok by done. cbn [obind]. destruct (checked_add _ _) as [n'|] eqn:Ea; cbn [ok_or obind]; [|done].
  apply checked_add_Some in Ea as [-> _]. intros Hm. apply IH with (lo := rend r) in Hm; [|done|].
  2:{ intros j Hj. apply HP. change (inside_any (r :: rs) j) with (page_inside r j || inside_any rs j).
      by rewrite Hj, orb_true_r. }
  rewrite <- Z.mul_sub_distr_r, Z.div_mul in Hm by done.
  assert (Hpi : forall j, page_inside r j = ((i <=? j) && (j <? k))%nat) by (intros; by apply page_inside_bounds).
  assert (HkP : (i < k -> k <= P)%nat).
  { intros Hik. assert (k - 1 < P)%nat; [|lia]. apply HP.
    change (inside_any (r :: rs) (k - 1)) with (page_inside r (k - 1) || inside_any rs (k - 1)). rewrite Hpi.
    by destruct (Nat.leb_spec i (k - 1)), (Nat.ltb_spec (k - 1) k); try lia. }
  rewrite (countb_ext (inside_any (r :: rs)) (fun j => page_inside r j || inside_any rs j)) by done.
  rewrite countb_or.
  2:{ intros j. destruct (page_inside r j) eqn:E1, (inside_any rs j) eqn:E2; try done. exfalso.
      destruct (inside_any_covers rs j E2 (Z.of_nat j * PAGE_SIZE)) as (r' & Hin & Hx);
        [unfold PAGE_SIZE; lia|].
      pose proof (canonical_from_above _ _ Hc) as Hab. rewrite Forall_forall in Hab. specialize (Hab _ Hin).
      unfold page_inside, PAGE_SIZE in *. bool_prop. cbn in Hab. lia. }
  rewrite (countb_ext (page_inside r) _ P (fun j _ => Hpi j)).
  rewrite countb_interval. unfold PAGE_SIZE in *. lia.
Qed.

(** ** Building the allocator *)

Context (HB0 : (0 < B)%nat) (HB : aperture_end B < 2 ^ 64).

(** The allocator covers all RAM the page count accepts. *)
Definition ram_in_aperture (rams : list PhysRegion) : Prop :=
  MAX_PHYSICAL_ADDRESS <= aperture_end B \/ Forall (fun r => rend r <= aperture_end B) rams.

Lemma count_pages_in_aperture rs n m j :
  Forall region_ok rs -> ram_in_aperture rs -> count_pages_loop rs n = Ok m ->
  inside_any rs j = true -> (j < page_count B)%nat.
Proof using Type.
  clear HB0 HB. intros Hok Ha. assert (Hlt : forall e, e <= aperture_end B -> (Z.of_nat j + 1) * PAGE_SIZE <= e -> (j < page_count B)%nat).
  { unfold aperture_end, PAGE_SIZE. lia. }
  unfold ram_in_aperture in Ha. revert n Ha. induction Hok as [|r rs Hr Hok IH]; intros n Ha; cbn [count_pages_loop]; [done|].
  pose proof (inner_bounds_spec r Hr) as Hib. destruct (inner_bounds r) as [[s e]| |]; cbn [obind]; [|done..].
  destruct Hib as (i & k & -> & -> & Hi & Hk). cbn [fst snd]. destruct (Z.ltb_spec MAX_PHYSICAL_ADDRESS (Z.of_nat k * PAGE_SIZE)); [done|].
  destruct (sub64 _ _) as [d| |]; cbn [obind]; [|done..]. destruct (checked_add _ _); cbn [ok_or obind]; [|done].
  intros Hm. change (inside_any (r :: rs) j) with (page_inside r j || inside_any rs j). intros Hj.
  destruct (page_inside r j) eqn:E; [|apply (IH _ ltac:(destruct Ha as [?|?%Forall_cons]; [by left|right; tauto]) Hm Hj)].
  destruct Ha as [Ha|[Ha _]%Forall_cons].
  - rewrite (page_inside_bounds r i k j Hi Hk) in E. bool_prop.
    apply (Hlt (Z.of_nat k * PAGE_SIZE)); [lia|]. unfold PAGE_SIZE. lia.
  - unfold page_inside in E. bool_prop. by apply (Hlt (rend r)).
Qed.

(** The state a page has when only the usable regions are managed. *)
Definition usable_state (us : list PhysRegion) (j : nat) : PageState :=
  if inside_any us j then Unused else Reserved.

Record fresh_allocator (us : list PhysRegion) (al : PageAllocator) : Prop := {
  fa_ok : alloc_ok B al;
  fa_managed : set_pages (managed al) <= ram_pages al;
  fa_ram : ram_pages al <= Z.of_nat (page_count B);
  fa_state : forall j, (j < page_count B)%nat -> pstate al j = usable_state us j
}.

Lemma new_from_map m rams rsv devs us g al :
  map_wf m rams rsv devs us -> canonical us -> (forall a, covers us a -> covers rams a) -> ram_in_aperture rams ->
  length (bits (g_managed g)) = B -> length (bits (g_in_use g)) = B ->
  PageAllocator_new B (ram m) (usable_ram m) (usable_ram m) (g_managed g) (g_in_use g) = Ok al ->
  fresh_allocator us al.
Proof using HB0 HB.
  intros Hm Hus Hcov Hap Hl1 Hl2 Hnew. pose proof (canonical_from_ok _ _ (wf_ram_canonical _ _ _ _ _ Hm)) as Hokr.
  pose proof (canonical_from_ok _ _ Hus) as Hoku.
  pose proof (PageAllocator_new_effect B HB _ _ _ _ _ _ _ _ _ (g_managed g) (g_in_use g) HB0 Hl1 Hl2
    (wf_ram _ _ _ _ _ Hm) (wf_usable _ _ _ _ _ Hm) (wf_usable _ _ _ _ _ Hm) Hokr Hoku Hoku) as H.
  rewrite Hnew in H. destruct H as (Hok & Hcount & Hst).
  assert (Hst' : forall j, (j < page_count B)%nat -> pstate al j = usable_state us j).
  { intros j Hj. rewrite Hst by done. unfold initial_state, usable_state. by destruct (inside_any us j). }
  pose proof (count_pages_loop_exact (-1) rams 0 _ (page_count B) (wf_ram_canonical _ _ _ _ _ Hm)
    (fun j => count_pages_in_aperture rams 0 _ j Hokr Hap Hcount) Hcount) as Hram. rewrite Z.add_0_l in Hram.
  split; [done| |rewrite Hram; apply countb_range|done].
  rewrite (bm_count _ _ (al_managed _ _ Hok)), Hram.
  rewrite (countb_ext _ (inside_any us)).
  - apply countb_mono. intros j Hj. apply (covers_inside_any (-1)); [apply Hm|]. intros x Hx. apply Hcov.
    by apply (inside_any_covers us j).
  - intros j Hj. pose proof (pstate_managed al j) as Hpm. rewrite Hst' in Hpm by done. unfold usable_state in Hpm.
    destruct (inside_any us j), (test (managed al) j); naive_solver.
Qed.

(** The loop never runs out of fuel, and accepts exactly reserved pages. *)
Lemma check_dtb_reserved_spec fuel al i k :
  alloc_ok B al -> (k - i < fuel)%nat -> Z.of_nat k * PAGE_SIZE < 2 ^ 64 ->
  match check_dtb_reserved fuel al (Z.of_nat i * PAGE_SIZE) (Z.of_nat k * PAGE_SIZE) with
  | Ok _ => forall j, (i <= j < k)%nat -> pstate al j = Reserved
  | Err _ => True
  | Panic => False
  end.
Proof using HB.
  clear HB0. intros Hok. revert i. induction fuel as [|fuel IH]; intros i Hf Hk; [lia|]. cbn [check_dtb_reserved].
  destruct (Z.ltb_spec (Z.of_nat i * PAGE_SIZE) (Z.of_nat k * PAGE_SIZE)) as [Hlt|Hge]; [|intros j Hj; unfold PAGE_SIZE in *; lia].
  assert (Hi : u64 (Z.of_nat i * PAGE_SIZE)) by (unfold u64, PAGE_SIZE in *; lia).
  rewrite state_cases by done. rewrite (proj2 (is_page_aligned_iff _)) by (by rewrite Z.mod_mul). cbn [negb].
  destruct (_ <=? _); cbn [obind Prelude.map_err]; [done|]. rewrite Z.div_mul, Nat2Z.id by done.
  case_bool_decide as Hr; cbn [negb]; [|done].
  destruct (checked_add _ _) as [p|] eqn:Ea; cbn [ok_or obind]; [|done]. apply checked_add_Some in Ea as [-> _].
  replace (Z.of_nat i * PAGE_SIZE + PAGE_SIZE) with (Z.of_nat (S i) * PAGE_SIZE) by lia.
  specialize (IH (S i) ltac:(unfold PAGE_SIZE in *; lia) Hk). destruct (check_dtb_reserved _ _ _ _); [|done..].
  intros j Hj. destruct (decide (j = i)) as [->|]; [done|]. apply IH. lia.
Qed.

(** ** Clients *)

Lemma test_beyond bm j : bm_ok B bm -> (page_count B <= j)%nat -> test bm j = false.
Proof using Type.
  clear HB0 HB. intros Hb Hj. unfold test, testl. rewrite lookup_ge_None_2; [done|].
  rewrite (bm_len _ _ Hb). unfold page_count in Hj. apply Nat.div_le_lower_bound; lia.
Qed.

(** The static is usable, and only pages in [P] are ever managed. *)
Definition manages_only (P : nat -> Prop) (g : GlobalPageAllocator) : Prop :=
  global_ok B g /\ forall j, gstate g j <> Reserved -> P j.

Lemma free_page_any page g :
  global_ok B g -> u64 page ->
  let g' := snd (free_page B page g) in
  global_ok B g' /\ (forall j, gstate g' j = Reserved <-> gstate g j = Reserved) /\
  forall j, Z.of_nat j * PAGE_SIZE <> page -> gstate g' j = gstate g j.
Proof using HB0 HB.
  intros Hg Hu. cbn zeta.
  destruct (is_page_aligned page && (page <? aperture_end B)) eqn:E.
  - bool_prop. apply is_page_aligned_iff in H. set (p := Z.to_nat (page / PAGE_SIZE)).
    assert (Hp : page = Z.of_nat p * PAGE_SIZE).
    { unfold p, u64, PAGE_SIZE in *. rewrite Z2Nat.id by (apply Z.div_pos; lia). Z.to_euclidean_division_equations. lia. }
    assert (Hlt : (p < page_count B)%nat) by (unfold aperture_end, PAGE_SIZE in *; lia).
    rewrite Hp. destruct (gstate g p) eqn:Es.
    2:{ destruct (free_page_spec B HB0 HB p g Hg Hlt Es) as (g' & -> & Hg' & _ & Hs).
        cbn [snd]. split_and!; [done| |]; intros j; rewrite Hs; destruct (Nat.eqb_spec j p) as [->|]; try done.
        by rewrite Es. }
    all: unfold free_page; rewrite with_allocator_ok by done; unfold supdate, free;
      rewrite state_page by (done || apply Hg); unfold gstate in Es; rewrite Es; cbn; by destruct g.
  - unfold free_page. rewrite with_allocator_ok by done. unfold supdate, free.
    rewrite state_cases by (done || apply Hg). destruct (is_page_aligned page); cbn [negb andb] in *.
    + apply Z.ltb_ge in E. rewrite (proj2 (Z.leb_le _ _)) by done. cbn. by destruct g.
    + cbn. by destruct g.
Qed.

(** A run of [n] pages from [pa], all of them in [P]. *)
Definition run_in (P : nat -> Prop) (run : Z * nat) : Prop :=
  exists p, run.1 = Z.of_nat p * PAGE_SIZE /\ forall i, (p <= i < p + run.2)%nat -> P i.

Lemma allocate_contiguous_pages_safe P n g :
  manages_only P g ->
  let '(r, g') := allocate_contiguous_pages B n g in
  manages_only P g' /\ match r with Ok pa => run_in P (pa, n) | _ => True end.
Proof using HB0 HB.
  intros [Hg HP]. destruct n as [|n].
  { unfold allocate_contiguous_pages. rewrite with_allocator_ok by done. cbn. by destruct g. }
  pose proof (allocate_contiguous_pages_spec B HB0 HB (S n) g Hg ltac:(lia)) as H.
  destruct (allocate_contiguous_pages B (S n) g) as [[pa|e|] g']; [|by destruct H as [_ ->]|done].
  destruct H as (p & -> & _ & Hun & Hg' & _ & Hst).
  assert (Hrun : forall i, (p <= i < p + S n)%nat -> P i) by (intros i Hi; apply HP; unfold gstate; by rewrite Hun).
  split; [|by exists p]. split; [done|]. intros j. rewrite Hst.
  destruct (Nat.leb_spec p j), (Nat.ltb_spec j (p + S n)); cbn [andb]; auto.
Qed.

Lemma mm_step_safe P op g :
  manages_only P g -> op_ok op ->
  let '(run, g') := mm_step op g in
  manages_only P g' /\ match run with Some run => run_in P run | None => True end.
Proof using HB0 HB.
  intros H. destruct op as [n| |page]; cbn [mm_step op_ok]; intros Hop.
  - pose proof (allocate_contiguous_pages_safe P n g H) as Ha.
    destruct (allocate_contiguous_pages B n g) as [[] g']; exact Ha.
  - rewrite allocate_page_contiguous. pose proof (allocate_contiguous_pages_safe P 1 g H) as Ha.
    destruct (allocate_contiguous_pages B 1 g) as [[] g']; exact Ha.
  - destruct H as [Hg HP]. destruct (free_page_any page g Hg Hop) as (Hg' & Hs & _). split; [|done].
    split; [done|]. intros j Hj. apply HP. by rewrite <- Hs.
Qed.

Lemma mm_run_safe P ops g :
  manages_only P g -> Forall op_ok ops ->
  let '(runs, g') := mm_run ops g in manages_only P g' /\ Forall (run_in P) runs.
Proof using HB0 HB.
  intros Hg Hops. revert g Hg. induction Hops as [|op ops Hop Hops IH]; intros g Hg; cbn [mm_run]; [done|].
  pose proof (mm_step_safe P op g Hg Hop) as Hs. destruct (mm_step op g) as [r g1]. destruct Hs as [Hg1 Hr].
  specialize (IH g1 Hg1). destruct (mm_run ops g1) as [rs g2]. destruct IH as [? ?]. split; [done|].
  destruct r; [by constructor|done].
Qed.

(** ** Initialisation *)

(** The pages of the device tree, as page numbers. *)
Lemma dtb_page_bounds live_dtb pages :
  region_ok live_dtb -> PhysRegion_new_aligned (rstart live_dtb) (rsize live_dtb) PAGE_SIZE = Ok pages ->
  exists i k, rstart pages = Z.of_nat i * PAGE_SIZE /\ rend pages = Z.of_nat k * PAGE_SIZE /\
    (k - i < S (Z.to_nat (rsize pages / PAGE_SIZE)))%nat /\ Z.of_nat k * PAGE_SIZE < 2 ^ 64 /\
    rstart pages <= rstart live_dtb /\ rend live_dtb <= rend pages.
Proof using Type.
  clear HB0 HB. intros (H0 & H1 & H2) E. unfold rend in H2.
  pose proof (PhysRegion_new_aligned_least (rstart live_dtb) (rsize live_dtb) PAGE_SIZE
    ltac:(unfold u64; lia) ltac:(unfold u64; lia) ltac:(done)) as H. rewrite E in H.
  destruct H as ((Hp0 & Hp1 & Hp2) & Hs & He & Hc & _). unfold contains_region, rend in *. cbn in Hc. bool_prop.
  exists (Z.to_nat (rstart pages / PAGE_SIZE)), (Z.to_nat ((rstart pages + rsize pages) / PAGE_SIZE)).
  unfold PAGE_SIZE in *. rewrite !Z2Nat.id by (apply Z.div_pos; lia).
  split; [Z.to_euclidean_division_equations; lia|]. split; [Z.to_euclidean_division_equations; lia|].
  split; [Z.to_euclidean_division_equations; lia|]. split; [Z.to_euclidean_division_equations; lia|]. lia.
Qed.

Definition in_region (r : PhysRegion) (x : Z) : Prop := rstart r <= x < rend r.

Lemma init_effect leftover mem m rams rsv devs us live_dtb g :
  map_wf m rams rsv devs us -> canonical us -> (forall a, covers us a -> covers rams a) -> ram_in_aperture rams ->
  region_ok live_dtb -> length (bits (g_managed g)) = B -> length (bits (g_in_use g)) = B ->
  match initialize_allocator_after_takeover leftover mem m live_dtb g with
  | (Ok res, g1) =>
      g_initialized g = false /\ validate_live_dtb mem live_dtb = Ok tt /\
      global_ok B g1 /\ st_ram_pages (ir_stats res) = g_ram_pages g1 /\
      (forall j, (j < page_count B)%nat -> gstate g1 j = usable_state us j) /\
      forall j, gstate g1 j <> Reserved ->
        forall x, Z.of_nat j * PAGE_SIZE <= x < (Z.of_nat j + 1) * PAGE_SIZE -> ~ in_region live_dtb x
  | (Err _, g1) => g_initialized g1 = g_initialized g
  | (Panic, _) => exists r, r ∈ rams /\ within_page r
  end.
Proof using HB0 HB.
  intros Hm Hus Hcov Hap Hdtb Hl1 Hl2. unfold initialize_allocator_after_takeover, sbind, sread, slift.
  destruct (g_initialized g) eqn:Ei; [done|].
  destruct (validate_live_dtb mem live_dtb) as [[]|e|] eqn:Ev; [|done|].
  2:{ unfold validate_live_dtb in Ev. repeat case_match; done. }
  destruct (PhysRegion_new_aligned _ _ _) as [pages|e|] eqn:Ep; cbn [Prelude.map_err]; [|done|].
  2:{ destruct Hdtb as (? & ? & ?). unfold rend in *.
      pose proof (PhysRegion_new_aligned_least (rstart live_dtb) (rsize live_dtb) PAGE_SIZE
        ltac:(unfold u64; lia) ltac:(unfold u64; lia) ltac:(done)) as H'. by rewrite Ep in H'. }
  destruct (dtb_page_bounds _ _ Hdtb Ep) as (i & k & Hi & Hk & Hf & Hk64 & Hs & He).
  unfold build_allocator. pose proof (canonical_from_ok _ _ Hus) as Hoku.
  pose proof (PageAllocator_new_effect B HB _ _ _ _ _ _ _ _ _ (g_managed g) (g_in_use g) HB0 Hl1 Hl2
    (wf_ram _ _ _ _ _ Hm) (wf_usable _ _ _ _ _ Hm) (wf_usable _ _ _ _ _ Hm)
    (canonical_from_ok _ _ (wf_ram_canonical _ _ _ _ _ Hm)) Hoku Hoku) as Hnew.
  destruct (PageAllocator_new B _ _ _ _ _) as [al|e|] eqn:En; [|by cbn|done]. clear Hnew.
  destruct (new_from_map m rams rsv devs us g al Hm Hus Hcov Hap Hl1 Hl2 En) as [Hok Hman Hram Hst].
  pose proof (check_dtb_reserved_spec (S (Z.to_nat (rsize pages / PAGE_SIZE))) al i k Hok Hf Hk64) as Hc.
  rewrite <- Hi, <- Hk in Hc. destruct (check_dtb_reserved _ _ _ _) as [[]|e|]; [|by cbn|done].
  pose proof (in_use_le_managed B al Hok) as Hle.
  unfold stats. rewrite sub64_ok by done. cbn [obind]. rewrite sub64_ok by done. cbn.
  assert (Hview : forall n, view (mkGlobal (managed al) (in_use al) (ram_pages al) n) = al) by (intros; by destruct al).
  split; [done|]. split; [done|]. split; [split; cbn; rewrite ?Hview; done|]. split; [done|].
  split; [intros j Hj; unfold gstate; rewrite Hview; auto|].
  intros j Hj x Hx [Hx1 Hx2]. unfold gstate in Hj. rewrite Hview in Hj. apply Hj, Hc.
  rewrite Hi in Hs. rewrite Hk in He. unfold PAGE_SIZE in *. lia.
Qed.

(** [takeover_pages_safe]: after finalisation of the memory map, initialisation
    of the global allocator over it either fails and leaves the static
    uninitialised, or establishes the static's invariant with the pages that
    lie wholly in usable RAM unused and all others reserved. From then on,
    whatever sequence of allocations and frees the clients run, the invariant
    holds and every byte of every page handed out is RAM, lies in no
    reservation and is not part of the live device tree. The only panic is a
    RAM region without a page boundary. *)
Lemma takeover_pages_safe leftover mem m0 m rams rsv devs us0 live_dtb g :
  map_wf m0 rams rsv devs us0 -> finalize m0 = Ok m -> ram_in_aperture rams -> region_ok live_dtb ->
  length (bits (g_managed g)) = B -> length (bits (g_in_use g)) = B ->
  match initialize_allocator_after_takeover leftover mem m live_dtb g with
  | (Ok res, g1) =>
      (exists us, fl_rep MAX_USABLE_RAM_REGIONS (usable_ram m) us /\ global_ok B g1 /\
         forall j, (j < page_count B)%nat -> gstate g1 j = usable_state us j) /\
      forall ops runs g2, Forall op_ok ops -> mm_run ops g1 = (runs, g2) ->
        global_ok B g2 /\
        forall pa n x, (pa, n) ∈ runs -> pa <= x < pa + Z.of_nat n * PAGE_SIZE ->
          covers rams x /\ ~ covers rsv x /\ ~ in_region live_dtb x
  | (Err _, g1) => g_initialized g1 = g_initialized g
  | (Panic, _) => exists r, r ∈ rams /\ within_page r
  end.
Proof using HB0 HB.
  intros Hm0 Hfin Hap Hdtb Hl1 Hl2. pose proof (finalize_effect m0 _ _ _ _ Hm0) as Hf. rewrite Hfin in Hf.
  destruct Hf as (_ & us & Hm & Hus & Hcov).
  pose proof (init_effect leftover mem m rams rsv devs us live_dtb g Hm Hus (fun a H => proj1 (proj1 (Hcov a) H))
    Hap Hdtb Hl1 Hl2) as H.
  destruct (initialize_allocator_after_takeover leftover mem m live_dtb g) as [[res|e|] g1]; [|done..].
  destruct H as (_ & _ & Hg1 & _ & Hst & Hd). split; [exists us; split; [apply Hm|done]|].
  intros ops runs g2 Hops Hrun.
  pose (P j := forall x, Z.of_nat j * PAGE_SIZE <= x < (Z.of_nat j + 1) * PAGE_SIZE ->
    covers rams x /\ ~ covers rsv x /\ ~ in_region live_dtb x).
  assert (HP : manages_only P g1).
  { split; [done|]. intros j Hj x Hx. pose proof (Hd j Hj x Hx). assert (Hx' : covers us x); [|apply Hcov in Hx'; tauto].
    apply (inside_any_covers us j); [|done]. unfold gstate, pstate in Hj.
    destruct (decide (j < page_count B)%nat) as [Hlt|Hge].
    - specialize (Hst j Hlt). unfold gstate, pstate, usable_state in Hst. destruct (inside_any us j); [done|].
      by rewrite Hst in Hj.
    - exfalso. apply Hj. rewrite test_beyond; [done|apply Hg1|lia]. }
  pose proof (mm_run_safe P ops g1 HP Hops) as Hs. rewrite Hrun in Hs. destruct Hs as [[Hg2 _] Hr].
  split; [done|]. intros pa n x Hin Hx. rewrite Forall_forall in Hr.
  destruct (Hr _ Hin) as (p & Hp & Hall). cbn [fst snd] in *.
  assert (Hxp : 0 <= x) by (unfold PAGE_SIZE in *; lia).
  apply (Hall (Z.to_nat (x / PAGE_SIZE))); rewrite ?Z2Nat.id by (apply Z.div_pos; done);
    unfold PAGE_SIZE in *; Z.to_euclidean_division_equations; lia.
Qed.

End Takeover.

(** ** Concrete instances *)

(** Eight pages of RAM with a device tree of 256 bytes in the third. *)
Definition boot_map : MemoryMap :=
  match insert_ram MemoryMap_empty (mkRegion 0 0x8000) with
  | Ok m => match insert_reserved m (mkRegion 0x2000 0x1000) with Ok m => m | _ => MemoryMap_empty end
  | _ => MemoryMap_empty
  end.

Definition final_map : MemoryMap := match finalize boot_map with Ok m => m | _ => MemoryMap_empty end.

Definition dtb_memory (a : Z) : Z :=
  default 0 ([0xd0; 0x0d; 0xfe; 0xed; 0; 0; 1; 0] !! Z.to_nat (a - 0x2000)).

Definition taken_over : outcome AllocatorInitError AllocatorInitResult * GlobalPageAllocator :=
  initialize_allocator_after_takeover 1 (PageBitmap_zeroed 1, PageBitmap_zeroed 1) dtb_memory final_map
    (mkRegion 0x2000 0x100) (GlobalPageAllocator_new 1).

