(* ===== verification/Heap.v ===== *)
(** * The Rust heap: util/heap_allocator.rs, src/src/heap.rs, util/allocation_check.rs, util/publish.rs

    [TvisorHeap] serialises a byte allocator of the linked_list_allocator crate
    behind a lock and counts what it hands out; [src/src/heap.rs] gives it its
    arena, a run of pages of the global page allocator that is never returned.
    The crate is a parameter: the class [LinkedHeap] has the operations the
    wrapper calls and [LinkedHeapLaws] what its documentation promises.  The
    lock makes every operation one step; the load of [initialized] before it
    commutes with the steps of the others, because the flag is set once.
    [heap_memory_exclusive] composes the heap with the page allocator.
    [allocation_check.rs] is the independent test of such a claim and
    [validate_exact] says what it decides; [BootPublished] is the cell that
    holds the memory map. *)

From S2P Require Import Prelude Page SystemInfo PageAllocator Mm Takeover.

(** ** util/publish.rs *)

Record BootPublished (T : Type) := mkPublished { bp_ready : bool; bp_value : T }.
Arguments mkPublished {T} _ _.
Arguments bp_ready {T} _.
Arguments bp_value {T} _.

Definition BootPublished_new {T} (v : T) : BootPublished T := mkPublished false v.

Definition BootPublished_get {T} (self : BootPublished T) : option T :=
  if bp_ready self then Some (bp_value self) else None.

(** The closure edits the object in place, also when it fails. *)
Definition BootPublished_initialize {T E} (init : stateful T E unit) : stateful (BootPublished T) E T := fun self =>
  match init (bp_value self) with
  | (Ok _, v) => (Ok v, mkPublished true v)
  | (Err e, v) => (Err e, mkPublished (bp_ready self) v)
  | (Panic, v) => (Panic, mkPublished (bp_ready self) v)
  end.

(** Readers see nothing before the first success, and what it built after. *)
Lemma published_iff {T E} (init : stateful T E unit) v r self :
  BootPublished_initialize init (BootPublished_new v) = (r, self) ->
  BootPublished_get self = match init v with (Ok _, v') => Some v' | _ => None end.
Proof.
  unfold BootPublished_initialize, BootPublished_new, BootPublished_get. cbn.
  destruct (init v) as [[] v']; intros [= <- <-]; done.
Qed.

(** ** The crate *)

(** [core::alloc::Layout]. *)
Record Layout := mkLayout { l_size : Z; l_align : Z }.

#[global] Instance Layout_eq_dec : EqDecision Layout.
Proof. solve_decision. Defined.

(** A layout a client of [GlobalAlloc] may pass: not empty, its alignment a
    power of two, its size with padding below [isize::MAX]. *)
Definition layout_ok (l : Layout) : Prop :=
  0 < l_size l /\ is_power_of_two (l_align l) = true /\ l_size l + l_align l <= 2 ^ 63.

Notation block := (Z * Layout)%type.

Definition block_end (x : block) : Z := x.1 + l_size x.2.

Definition apart (x y : block) : Prop := block_end x <= y.1 \/ block_end y <= x.1.

(** A block of an arena, given by its start and its size. *)
Definition block_in (arena : Z * Z) (x : block) : Prop :=
  arena.1 <= x.1 /\ block_end x <= arena.1 + arena.2 /\ x.1 mod l_align x.2 = 0.

Class LinkedHeap (H : Type) := {
  heap_empty : H;
  heap_init : H -> Z -> Z -> H;
  allocate_first_fit : H -> Layout -> option Z * H;
  heap_deallocate : H -> Z -> Layout -> H;
  heap_size : H -> Z;
  heap_used : H -> Z;
  heap_free : H -> Z
}.

(** [owns h arena live]: [h] manages [arena] and [live] is what it handed out
    and did not get back. *)
Class LinkedHeapLaws (H : Type) `{LinkedHeap H} := {
  owns : H -> Z * Z -> list block -> Prop;
  init_owns s n : 0 < s -> 24 <= n -> s + n < 2 ^ 64 -> owns (heap_init heap_empty s n) (s, n) [];
  owns_permutation h arena l1 l2 : l1 ≡ₚ l2 -> owns h arena l1 -> owns h arena l2;
  allocate_owns h arena live l p h' :
    owns h arena live -> layout_ok l -> allocate_first_fit h l = (Some p, h') ->
    owns h' arena ((p, l) :: live) /\ block_in arena (p, l) /\ Forall (apart (p, l)) live;
  refuse_owns h arena live l h' :
    owns h arena live -> layout_ok l -> allocate_first_fit h l = (None, h') -> owns h' arena live;
  deallocate_owns h arena p l live : owns h arena ((p, l) :: live) -> owns (heap_deallocate h p l) arena live;
  owned_bytes h arena live :
    owns h arena live -> heap_used h + heap_free h = heap_size h /\ heap_size h <= arena.2
}.

(** ** util/heap_allocator.rs *)

Inductive HeapError := AlreadyInitialized | InvalidRegion | HeapNotInitialized.

Record HeapStats := mkHeapStats {
  arena_start : Z;
  arena_bytes : Z;
  used_bytes : Z;
  free_bytes : Z;
  live_allocations : Z;
  failed_allocations : Z
}.

Section Wrapper.
Context {H : Type} `{LinkedHeap H}.

Record TvisorHeap := mkHeap {
  th_heap : H;
  th_arena_start : Z;
  th_initialized : bool;
  th_live : Z;
  th_failed : Z
}.

Definition TvisorHeap_empty : TvisorHeap := mkHeap heap_empty 0 false 0 0.

Definition TvisorHeap_initialize (start bytes : Z) : stateful TvisorHeap HeapError unit := fun self =>
  if (start =? 0) || (bytes <? 3 * 8) || (match checked_add start bytes with None => true | Some _ => false end)
  then (Err InvalidRegion, self)
  else if th_initialized self then (Err AlreadyInitialized, self)
  else (Ok tt, mkHeap (heap_init (th_heap self) start bytes) start true (th_live self) (th_failed self)).

Definition is_initialized (self : TvisorHeap) : bool := th_initialized self.

Definition TvisorHeap_stats (self : TvisorHeap) : outcome HeapError HeapStats :=
  reject negb (is_initialized self) with HeapNotInitialized in
  Ok (mkHeapStats (th_arena_start self) (heap_size (th_heap self)) (heap_used (th_heap self)) (heap_free (th_heap self))
        (th_live self) (th_failed self)).

(** [fetch_add] and [fetch_sub] wrap; a null pointer is 0. *)
Definition note_failure (self : TvisorHeap) (h : H) : TvisorHeap :=
  mkHeap h (th_arena_start self) (th_initialized self) (th_live self) (wrapping_add (th_failed self) 1).

Definition alloc (self : TvisorHeap) (layout : Layout) : Z * TvisorHeap :=
  if negb (is_initialized self) then (0, note_failure self (th_heap self))
  else
    match allocate_first_fit (th_heap self) layout with
    | (Some pointer, h) =>
        (pointer, mkHeap h (th_arena_start self) (th_initialized self) (wrapping_add (th_live self) 1) (th_failed self))
    | (None, h) => (0, note_failure self h)
    end.

Definition dealloc (self : TvisorHeap) (pointer : Z) (layout : Layout) : TvisorHeap :=
  if pointer =? 0 then self
  else if negb (is_initialized self) then self
  else
    mkHeap (heap_deallocate (th_heap self) pointer layout) (th_arena_start self) (th_initialized self)
      (wrapping_sub (th_live self) 1) (th_failed self).

(** ** src/src/heap.rs *)

Inductive HeapInitError := FromAllocator (e : AllocatorError) | FromHeap (e : HeapError) | AddressOverflow.

Definition INITIAL_HEAP_PAGES : nat := 256.

Definition heap_page_to_bytes {E} (page : nat) : outcome E Z := mul64 (Z.of_nat page) PAGE_SIZE.

Record InitializedHeap := mkInitialized {
  ih_arena_start : Z;
  ih_arena_end : Z;
  ih_stats : HeapStats
}.

(** A method of one of the two statics. *)
Definition on_pages {E A} (f : E -> HeapInitError) (m : stateful GlobalPageAllocator E A) :
    stateful (GlobalPageAllocator * TvisorHeap) HeapInitError A := fun s =>
  let '(r, g) := m s.1 in (Prelude.map_err f r, (g, s.2)).

Definition on_heap {A} (m : stateful TvisorHeap HeapError A) :
    stateful (GlobalPageAllocator * TvisorHeap) HeapInitError A := fun s =>
  let '(r, h) := m s.2 in (Prelude.map_err FromHeap r, (s.1, h)).

(** [usize::try_from] of a [u64] succeeds on this target. *)
Definition heap_initialize (B : nat) (heap_pages : option nat) :
    stateful (GlobalPageAllocator * TvisorHeap) HeapInitError InitializedHeap :=
  let pages := default INITIAL_HEAP_PAGES heap_pages in
  let! start := on_pages FromAllocator (allocate_contiguous_pages B pages) in
  let! bytes := slift (heap_page_to_bytes pages) in
  let! stop := slift (ok_or (checked_add start bytes) AddressOverflow) in
  let! _ := on_heap (TvisorHeap_initialize start bytes) in
  let! st := on_heap (stry TvisorHeap_stats) in
  sret (mkInitialized start stop st).

(** ** Clients of both allocators

    Any CPU may call either allocator; their locks make the calls a sequence.
    A client frees a heap block it holds, given by its place in the list of
    live blocks, with the layout it was allocated with. *)
Record memory_state := mkMemory {
  ms_pages : GlobalPageAllocator;
  ms_heap : TvisorHeap;
  ms_blocks : list block
}.

Inductive memory_op :=
| PageOp (op : mm_op)
| HeapAlloc (layout : Layout)
| HeapDealloc (index : nat).

(** With the run of pages the step handed out, if it did. *)
Definition memory_step (B : nat) (op : memory_op) (s : memory_state) : option (Z * nat) * memory_state :=
  match op with
  | PageOp op => let '(run, g) := mm_step B op (ms_pages s) in (run, mkMemory g (ms_heap s) (ms_blocks s))
  | HeapAlloc layout =>
      let '(p, h) := alloc (ms_heap s) layout in
      (None, mkMemory (ms_pages s) h (if p =? 0 then ms_blocks s else (p, layout) :: ms_blocks s))
  | HeapDealloc index =>
      match ms_blocks s !! index with
      | Some (p, layout) =>
          (None, mkMemory (ms_pages s) (dealloc (ms_heap s) p layout) (delete index (ms_blocks s)))
      | None => (None, s)
      end
  end.

Fixpoint memory_run (B : nat) (ops : list memory_op) (s : memory_state) : list (Z * nat) * memory_state :=
  match ops with
  | [] => ([], s)
  | op :: rest =>
      let '(r, s1) := memory_step B op s in
      let '(rs, s2) := memory_run B rest s1 in
      (option_list r ++ rs, s2)
  end.

End Wrapper.
Arguments TvisorHeap H : clear implicits.
Arguments memory_state H : clear implicits.

(** ** util/allocation_check.rs *)

Record Range := mkRange { r_start : Z; r_bytes : Z; r_alignment : Z }.

Definition RANGE_EMPTY : Range := mkRange 0 0 1.

Inductive RangeError := InvalidRange | RangesOverlap.

Fixpoint check_others (r : Range) (stop : Z) (others : list Range) : outcome RangeError unit :=
  match others with
  | [] => Ok tt
  | other :: rest =>
      let? other_end := add64 (r_start other) (r_bytes other) in
      reject (r_start r <? other_end) && (r_start other <? stop) with RangesOverlap in
      check_others r stop rest
  end.

Fixpoint validate_from (earlier ranges : list Range) : outcome RangeError unit :=
  match ranges with
  | [] => Ok tt
  | r :: rest =>
      let? stop := ok_or (checked_add (r_start r) (r_bytes r)) InvalidRange in
      reject (r_start r =? 0) || (r_bytes r =? 0) || negb (is_power_of_two (r_alignment r))
             || negb (r_start r mod r_alignment r =? 0) with InvalidRange in
      let? _ := check_others r stop earlier in
      validate_from (earlier ++ [r]) rest
  end.

Definition validate_ranges (ranges : list Range) : outcome RangeError unit := validate_from [] ranges.

Definition range_u64 (r : Range) : Prop := u64 (r_start r) /\ u64 (r_bytes r) /\ u64 (r_alignment r).

Definition valid_range (r : Range) : Prop :=
  0 < r_start r /\ 0 < r_bytes r /\ r_start r + r_bytes r < 2 ^ 64 /\
  is_power_of_two (r_alignment r) = true /\ r_start r mod r_alignment r = 0.

Definition disjoint_ranges (r s : Range) : Prop := r_start r + r_bytes r <= r_start s \/ r_start s + r_bytes s <= r_start r.

(** ** Lists of blocks *)

Definition all_apart (bs : list block) : Prop :=
  forall i j x y, i <> j -> bs !! i = Some x -> bs !! j = Some y -> apart x y.

Lemma apart_sym x y : apart x y -> apart y x.
Proof. unfold apart. tauto. Qed.

Lemma all_apart_cons x bs : Forall (apart x) bs -> all_apart bs -> all_apart (x :: bs).
Proof.
  intros Hx Hbs [|i] [|j] y z Hij; cbn; intros Hy Hz; [done| | |].
  - injection Hy as <-. by eapply Forall_lookup_1.
  - injection Hz as <-. apply apart_sym. by eapply Forall_lookup_1.
  - apply (Hbs i j); [lia|done|done].
Qed.

(** The index an element of [delete k l] has in [l]. *)
Lemma lookup_delete_inv {A} (l : list A) k i x :
  delete k l !! i = Some x -> exists i', l !! i' = Some x /\ i' = if (i <? k)%nat then i else S i.
Proof.
  intros Hi. destruct (Nat.ltb_spec i k).
  - rewrite list_lookup_delete_lt in Hi by done. eauto.
  - rewrite list_lookup_delete_ge in Hi by done. eauto.
Qed.

Lemma all_apart_delete k bs : all_apart bs -> all_apart (delete k bs).
Proof.
  intros H i j x y Hij Hi Hj.
  apply lookup_delete_inv in Hi as (i' & Hi & Ei). apply lookup_delete_inv in Hj as (j' & Hj & Ej).
  apply (H i' j'); [|done|done]. destruct (Nat.ltb_spec i k), (Nat.ltb_spec j k); lia.
Qed.

Lemma Forall_delete' {A} (P : A -> Prop) k l : Forall P l -> Forall P (delete k l).
Proof.
  intros H. apply Forall_lookup_2. intros i x Hi. apply lookup_delete_inv in Hi as (i' & Hi & _).
  by eapply Forall_lookup_1.
Qed.

(** Disjoint blocks that are not empty have distinct starts, so an arena holds
    no more of them than it has bytes. *)
Lemma blocks_bounded arena bs :
  0 <= arena.2 -> all_apart bs -> Forall (block_in arena) bs -> Forall (fun x => layout_ok x.2) bs ->
  Z.of_nat (length bs) <= arena.2.
Proof.
  intros Hn Hap Hin Hok.
  assert (Hnd : NoDup (bs.*1)).
  { apply NoDup_alt. intros i j s Hi Hj. rewrite list_lookup_fmap in Hi, Hj.
    apply fmap_Some in Hi as (x & Hi & Ex). apply fmap_Some in Hj as (y & Hj & Ey).
    destruct (decide (i = j)) as [|Hij]; [done|exfalso].
    pose proof (Forall_lookup_1 _ _ _ _ Hok Hi) as [Hx _]. pose proof (Forall_lookup_1 _ _ _ _ Hok Hj) as [Hy _].
    destruct (Hap i j _ _ Hij Hi Hj) as [Ha|Ha]; unfold block_end in Ha; lia. }
  assert (Hsub : bs.*1 ⊆+ seqZ arena.1 arena.2).
  { apply NoDup_submseteq; [done|]. intros s Hs. apply list_elem_of_fmap in Hs as ([? l] & -> & Hs).
    rewrite elem_of_seqZ. rewrite Forall_forall in Hin. destruct (Hin _ Hs) as (H1 & H2 & _).
    rewrite Forall_forall in Hok. destruct (Hok _ Hs) as [Hl _]. unfold block_end in H2. cbn [fst snd] in *. lia. }
  apply submseteq_length in Hsub. rewrite length_fmap, length_seqZ in Hsub. lia.
Qed.

(** ** The wrapper over an arena *)

Section Heap.
Context {H : Type} `{!LinkedHeap H} {laws : LinkedHeapLaws H}.
Context (B : nat) (HB0 : (0 < B)%nat) (HB : aperture_end B < 2 ^ 64).

(** The heap over its arena, with the blocks its clients hold. *)
Record heap_inv (arena : Z * Z) (h : TvisorHeap H) (bs : list block) : Prop := {
  hi_init : th_initialized h = true;
  hi_start : 0 < arena.1 /\ 0 <= arena.2 < 2 ^ 64;
  hi_owns : owns (th_heap h) arena bs;
  hi_blocks : Forall (block_in arena) bs;
  hi_layouts : Forall (fun x => layout_ok x.2) bs;
  hi_apart : all_apart bs;
  hi_live : th_live h = Z.of_nat (length bs)
}.

Lemma initialize_inv start bytes h :
  TvisorHeap_initialize start bytes TvisorHeap_empty = (Ok tt, h) -> u64 start -> u64 bytes ->
  heap_inv (start, bytes) h [] /\ th_arena_start h = start.
Proof.
  unfold TvisorHeap_initialize. destruct (_ || _) eqn:E; [done|]. cbn. intros [= <-] Hs Hb. bool_prop.
  destruct (checked_add start bytes) eqn:Ec; [|done]. apply checked_add_Some in Ec as [_ Hlt].
  unfold u64 in *. split; [|done]. split; cbn; [done|lia|apply init_owns; lia|constructor|constructor| |done].
  by intros ? ? ? ? ? ?.
Qed.

(** A refused allocation is null and counted; a granted one is new. *)
Lemma alloc_inv arena h bs layout p h' :
  heap_inv arena h bs -> layout_ok layout -> alloc h layout = (p, h') ->
  heap_inv arena h' (if p =? 0 then bs else (p, layout) :: bs).
Proof.
  intros [Hi [Hs Hn] Ho Hb Hl Ha Hlive] Hok. unfold alloc, is_initialized. rewrite Hi. cbn [negb].
  destruct (allocate_first_fit (th_heap h) layout) as [[q|] hh] eqn:E; intros [= <- <-].
  - destruct (allocate_owns _ _ _ _ _ _ Ho Hok E) as (Ho' & Hin & Hap).
    assert (Hq : arena.1 <= q) by apply Hin. rewrite (proj2 (Z.eqb_neq q 0)) by lia.
    assert (Hc : Forall (block_in arena) ((q, layout) :: bs)) by (by constructor).
    assert (Hc' : Forall (fun x => layout_ok x.2) ((q, layout) :: bs)) by (by constructor).
    pose proof (all_apart_cons _ _ Hap Ha) as Hap'.
    pose proof (blocks_bounded arena _ ltac:(lia) Hap' Hc Hc') as Hlen. cbn [length] in Hlen.
    split; cbn; [done|lia|done..|]. rewrite Hlive. unfold wrapping_add. rewrite Z.mod_small; lia.
  - split; cbn; [done|lia|by eapply refuse_owns|done..].
Qed.

Lemma dealloc_inv arena h bs i p layout :
  heap_inv arena h bs -> bs !! i = Some (p, layout) ->
  heap_inv arena (dealloc h p layout) (delete i bs).
Proof.
  intros [Hi [Hs Hn] Ho Hb Hl Ha Hlive] Hx. pose proof (Forall_lookup_1 _ _ _ _ Hb Hx) as [Hp _]. cbn in Hp.
  unfold dealloc, is_initialized. rewrite (proj2 (Z.eqb_neq p 0)), Hi by lia. cbn [negb].
  split; cbn; [done|lia| |by apply Forall_delete'..|by apply all_apart_delete|].
  - apply deallocate_owns. eapply owns_permutation; [|exact Ho]. by apply delete_Permutation.
  - rewrite Hlive, length_delete by eauto. apply lookup_lt_Some in Hx.
    unfold wrapping_sub. rewrite Z.mod_small; [lia|].
    pose proof (blocks_bounded arena _ ltac:(lia) Ha Hb Hl). lia.
Qed.

(** Before its initialisation the heap grants nothing and counts each attempt. *)
Lemma alloc_before_initialization layout (h : TvisorHeap H) :
  th_initialized h = false -> (alloc h layout).1 = 0 /\ th_failed (alloc h layout).2 = wrapping_add (th_failed h) 1.
Proof. intros Hi. unfold alloc, is_initialized. by rewrite Hi. Qed.

(** A second initialisation is refused and changes nothing. *)
Lemma initialize_once start bytes (h : TvisorHeap H) :
  th_initialized h = true -> exists e, TvisorHeap_initialize start bytes h = (Err e, h).
Proof. intros Hi. unfold TvisorHeap_initialize. destruct (_ || _); [eauto|]. rewrite Hi. eauto. Qed.

(** ** The arena *)

Definition pages_held (p k : nat) (g : GlobalPageAllocator) : Prop :=
  forall i, (p <= i < p + k)%nat -> gstate g i = InUse.

Definition arena_of (p k : nat) : Z * Z := (Z.of_nat p * PAGE_SIZE, Z.of_nat k * PAGE_SIZE).

Definition memory_inv (p k : nat) (s : memory_state H) : Prop :=
  global_ok B (ms_pages s) /\ pages_held p k (ms_pages s) /\ heap_inv (arena_of p k) (ms_heap s) (ms_blocks s).

(** The pages are those of the lowest free run.  A heap that refuses them (a
    run that starts at address 0, or a second initialisation) leaves them in
    use: [heap.rs] does not return them. *)
Lemma heap_initialize_spec pages g :
  global_ok B g -> (0 < default INITIAL_HEAP_PAGES pages)%nat ->
  let k := default INITIAL_HEAP_PAGES pages in
  match heap_initialize B pages (g, TvisorHeap_empty) with
  | (Ok info, (g', h)) =>
      exists p, ih_arena_start info = Z.of_nat p * PAGE_SIZE /\ ih_arena_end info = Z.of_nat (p + k) * PAGE_SIZE /\
        (p + k <= page_count B)%nat /\ all_unused (view g) p k /\
        (forall i, ~ (p <= i < p + k)%nat -> gstate g' i = gstate g i) /\ memory_inv p k (mkMemory g' h []) /\
        TvisorHeap_stats h = Ok (ih_stats info)
  | (Err e, (g', h)) =>
      (e = FromAllocator Exhausted /\ g' = g) \/
      (e = FromHeap InvalidRegion /\ all_unused (view g) 0 k /\ pages_held 0 k g')
  | (Panic, _) => False
  end.
Proof using HB0 HB.
  intros Hg Hk k. fold k in Hk. unfold heap_initialize. fold k. unfold sbind at 1, on_pages. cbn [fst snd].
  pose proof (allocate_contiguous_pages_spec B HB0 HB k g Hg Hk) as Ha.
  destruct (allocate_contiguous_pages B k g) as [[pa|e|] g']; cbn [Prelude.map_err]; [|destruct Ha; subst; auto|done].
  destruct Ha as (p & -> & Hp & Hun & Hg' & _ & Hst).
  assert (Hheld : pages_held p k g').
  { intros i Hi. rewrite Hst, (proj2 (Nat.leb_le p i)), (proj2 (Nat.ltb_lt i (p + k))) by lia. done. }
  assert (Hlt : Z.of_nat (p + k) * PAGE_SIZE < 2 ^ 64) by (unfold aperture_end, PAGE_SIZE in *; lia).
  assert (Hb : checked_mul (Z.of_nat k) PAGE_SIZE = Some (Z.of_nat k * PAGE_SIZE)).
  { unfold checked_mul. rewrite (proj2 (Z.ltb_lt _ _)); [done|]. unfold PAGE_SIZE in *. lia. }
  unfold heap_page_to_bytes, mul64. rewrite Hb. unfold sbind at 1. cbn [slift expect].
  unfold checked_add at 1. rewrite (proj2 (Z.ltb_lt (_ + _) _)) by (unfold PAGE_SIZE in *; lia).
  unfold sbind at 1. cbn [slift ok_or]. unfold sbind at 1, on_heap at 1. cbn [fst snd].
  pose proof (initialize_inv (Z.of_nat p * PAGE_SIZE) (Z.of_nat k * PAGE_SIZE)) as Hi.
  destruct (TvisorHeap_initialize _ _ _) as [[[]|e|] h] eqn:E; cbn [Prelude.map_err].
  2:{ right. revert E. unfold TvisorHeap_initialize, checked_add, PAGE_SIZE in *.
      rewrite (proj2 (Z.ltb_lt (_ + _) _)), (proj2 (Z.ltb_ge _ (3 * 8))) by lia. cbn [orb].
      destruct (Z.eqb_spec (Z.of_nat p * 4096) 0) as [Hz|Hz]; cbn; [|done]. intros [= <- <-].
      assert (p = 0)%nat as -> by lia. done. }
  2:{ revert E. unfold TvisorHeap_initialize. destruct (_ || _); [done|]. by cbn. }
  destruct (Hi h eq_refl) as [Hinv _]; [unfold u64, PAGE_SIZE in *; lia..|].
  unfold sbind, on_heap, stry, TvisorHeap_stats, is_initialized. cbn [fst snd]. rewrite (hi_init _ _ _ Hinv).
  cbn [negb Prelude.map_err sret fst snd ih_arena_start ih_arena_end ih_stats]. exists p. split_and!; [done|unfold PAGE_SIZE; lia|done|done| | |].
  - intros i Hi'. rewrite Hst. destruct (Nat.leb_spec p i), (Nat.ltb_spec i (p + k)); cbn; done || lia.
  - done.
  - by rewrite (hi_init _ _ _ Hinv).
Qed.

(** ** Every run *)

(** A client passes a well-formed layout, and frees no page of the arena. *)
Definition memory_op_ok (start stop : Z) (op : memory_op) : Prop :=
  match op with
  | PageOp (OpFree page) => u64 page /\ ~ start <= page < stop
  | PageOp _ => True
  | HeapAlloc layout => layout_ok layout
  | HeapDealloc _ => True
  end.

Definition run_apart (start stop : Z) (run : Z * nat) : Prop :=
  run.1 + Z.of_nat run.2 * PAGE_SIZE <= start \/ stop <= run.1.

Lemma allocation_outside p k n g :
  (0 < k)%nat -> global_ok B g -> pages_held p k g ->
  let '(r, g') := allocate_contiguous_pages B n g in
  global_ok B g' /\ pages_held p k g' /\
  match r with Ok pa => run_apart (arena_of p k).1 (Z.of_nat (p + k) * PAGE_SIZE) (pa, n) | _ => True end.
Proof using HB0 HB.
  intros Hk Hg Hh. destruct n as [|n].
  { unfold allocate_contiguous_pages. rewrite with_allocator_ok by done. cbn. by destruct g. }
  pose proof (allocate_contiguous_pages_spec B HB0 HB (S n) g Hg ltac:(lia)) as Ha.
  destruct (allocate_contiguous_pages B (S n) g) as [[pa|e|] g']; [|by destruct Ha as [_ ->]|done].
  destruct Ha as (q & -> & _ & Hun & Hg' & _ & Hst). split_and!; [done| |].
  - intros i Hi. rewrite Hst. destruct (_ && _); [done|by apply Hh].
  - unfold run_apart, arena_of. cbn [fst snd].
    destruct (decide (q + S n <= p \/ p + k <= q)%nat) as [Hd|Hd]; [unfold PAGE_SIZE; lia|exfalso].
    pose proof (Hun (max p q) ltac:(lia)) as Hu. pose proof (Hh (max p q) ltac:(lia)) as Hi.
    unfold gstate in Hi. congruence.
Qed.

Lemma memory_step_inv p k op s :
  (0 < k)%nat -> memory_inv p k s -> memory_op_ok (arena_of p k).1 (Z.of_nat (p + k) * PAGE_SIZE) op ->
  let '(run, s') := memory_step B op s in
  memory_inv p k s' /\
  match run with Some run => run_apart (arena_of p k).1 (Z.of_nat (p + k) * PAGE_SIZE) run | None => True end.
Proof using HB0 HB.
  intros Hk (Hg & Hh & Hi). destruct op as [[n| |page]|layout|i]; cbn [memory_op_ok memory_step mm_step]; intros Hop.
  - pose proof (allocation_outside p k n _ Hk Hg Hh) as Ha.
    destruct (allocate_contiguous_pages B n (ms_pages s)) as [[] g']; by destruct Ha as (? & ? & ?).
  - rewrite allocate_page_contiguous. pose proof (allocation_outside p k 1 _ Hk Hg Hh) as Ha.
    destruct (allocate_contiguous_pages B 1 (ms_pages s)) as [[] g']; by destruct Ha as (? & ? & ?).
  - destruct Hop as [Hu Hout]. destruct (free_page_any B HB0 HB page _ Hg Hu) as (Hg' & _ & Hs).
    split; [|done]. split_and!; [done| |done]. intros j Hj. rewrite Hs; [by apply Hh|].
    intros E. apply Hout. rewrite <- E. unfold arena_of, PAGE_SIZE in *. cbn [fst]. lia.
  - destruct (alloc (ms_heap s) layout) as [q h] eqn:E. split; [|done]. split_and!; [done|done|].
    by eapply alloc_inv.
  - destruct (ms_blocks s !! i) as [[q layout]|] eqn:E; [|done]. split; [|done]. split_and!; [done|done|].
    by apply dealloc_inv.
Qed.

Lemma memory_run_inv p k ops s :
  (0 < k)%nat -> memory_inv p k s -> Forall (memory_op_ok (arena_of p k).1 (Z.of_nat (p + k) * PAGE_SIZE)) ops ->
  let '(runs, s') := memory_run B ops s in
  memory_inv p k s' /\ Forall (run_apart (arena_of p k).1 (Z.of_nat (p + k) * PAGE_SIZE)) runs.
Proof using HB0 HB.
  intros Hk Hs Hops. revert s Hs. induction Hops as [|op ops Hop Hops IH]; intros s Hs; cbn [memory_run]; [done|].
  pose proof (memory_step_inv p k op s Hk Hs Hop) as Hst. destruct (memory_step B op s) as [r s1].
  destruct Hst as [Hs1 Hr]. specialize (IH s1 Hs1). destruct (memory_run B ops s1) as [rs s2].
  destruct IH as [Hi2 Hrs]. split; [done|]. destruct r; [by constructor|done].
Qed.

(** [heap_memory_exclusive]: after [heap::initialize] succeeds, whatever
    sequence of calls the CPUs make to both allocators (frees of pages outside
    the arena, frees of live heap blocks), the live heap blocks are aligned,
    inside the arena and pairwise disjoint.  The arena's pages were free
    before.  No run of pages handed out later meets the arena, so heap blocks
    and page allocations never share a byte.  The statistics count the live
    blocks exactly and their byte counts add up. *)
Theorem heap_memory_exclusive pages g info g1 h1 ops runs s :
  global_ok B g -> (0 < default INITIAL_HEAP_PAGES pages)%nat ->
  heap_initialize B pages (g, TvisorHeap_empty) = (Ok info, (g1, h1)) ->
  Forall (memory_op_ok (ih_arena_start info) (ih_arena_end info)) ops ->
  memory_run B ops (mkMemory g1 h1 []) = (runs, s) ->
  let bytes := ih_arena_end info - ih_arena_start info in
  (forall i, ih_arena_start info <= Z.of_nat i * PAGE_SIZE < ih_arena_end info -> gstate g i = Unused) /\
  Forall (block_in (ih_arena_start info, bytes)) (ms_blocks s) /\ all_apart (ms_blocks s) /\
  Forall (run_apart (ih_arena_start info) (ih_arena_end info)) runs /\
  exists st, TvisorHeap_stats (ms_heap s) = Ok st /\ live_allocations st = Z.of_nat (length (ms_blocks s)) /\
    used_bytes st + free_bytes st = arena_bytes st /\ arena_bytes st <= bytes.
Proof using HB0 HB laws.
  intros Hg Hk E Hops Hrun bytes. pose proof (heap_initialize_spec pages g Hg Hk) as Hs. rewrite E in Hs.
  destruct Hs as (p & Hst & Hen & _ & Hun & _ & Hinv & _). set (k := default INITIAL_HEAP_PAGES pages) in *.
  assert (Harena : (ih_arena_start info, bytes) = arena_of p k).
  { unfold bytes, arena_of, PAGE_SIZE in *. f_equal; lia. }
  assert (Hst' : ih_arena_start info = (arena_of p k).1) by (by rewrite <- Harena).
  rewrite Harena, Hen. rewrite Hen, Hst' in Hops. rewrite Hst'.
  pose proof (memory_run_inv p k ops _ Hk Hinv Hops) as Hr. rewrite Hrun in Hr.
  destruct Hr as [(_ & _ & Hi) Hruns]. split_and!; [|apply Hi|apply Hi|done|].
  - intros i Hi'. apply (Hun i). unfold arena_of, PAGE_SIZE in *. cbn [fst] in Hi'. lia.
  - destruct (owned_bytes _ _ _ (hi_owns _ _ _ Hi)) as [Hu Hz]. unfold TvisorHeap_stats, is_initialized.
    rewrite (hi_init _ _ _ Hi). eexists. split; [done|]. cbn. split_and!; [apply Hi|done|].
    unfold bytes. rewrite Hen, Hst'. unfold arena_of, PAGE_SIZE in *. cbn [fst snd] in *. lia.
Qed.
End Heap.

(** ** What the independent check decides *)

(** The earlier ranges are valid, so their ends do not overflow. *)
Lemma check_others_exact r stop others :
  stop = r_start r + r_bytes r -> Forall valid_range others ->
  check_others r stop others = Ok tt /\ Forall (fun o => disjoint_ranges o r) others \/
  check_others r stop others = Err RangesOverlap /\ ~ Forall (fun o => disjoint_ranges o r) others.
Proof.
  intros -> Hv. induction Hv as [|o rest (Ho & Hb & Hlt & _) Hv IH]; cbn [check_others]; [left; done|].
  rewrite add64_ok by (unfold u64 in *; lia). cbn [obind]. rewrite Forall_cons. unfold disjoint_ranges in *.
  destruct (Z.ltb_spec (r_start r) (r_start o + r_bytes o)), (Z.ltb_spec (r_start o) (r_start r + r_bytes r)); cbn [andb].
  1: right; split; [done|]; intros [? _]; lia.
  all: destruct IH as [[-> ?]|[-> ?]]; [left|right]; (split; [done|]); [split; [lia|done]|tauto].
Qed.

Definition disjoint_list (ranges : list Range) : Prop :=
  forall i j r s, (i < j)%nat -> ranges !! i = Some r -> ranges !! j = Some s -> disjoint_ranges r s.

Lemma disjoint_list_snoc ranges r :
  disjoint_list (ranges ++ [r]) <-> disjoint_list ranges /\ Forall (fun o => disjoint_ranges o r) ranges.
Proof.
  split.
  - intros Hd. split.
    + intros i j x y Hij Hx Hy. apply (Hd i j); [done|by apply lookup_app_l_Some..].
    + apply Forall_lookup_2. intros i x Hx. pose proof (lookup_lt_Some _ _ _ Hx).
      apply (Hd i (length ranges)); [done|by apply lookup_app_l_Some|]. by rewrite list_lookup_middle.
  - intros [Hd Hr] i j x y Hij Hx Hy. apply lookup_snoc_Some in Hy as [[Hj Hy]|[-> <-]].
    + rewrite lookup_app_l in Hx by lia. by apply (Hd i j).
    + rewrite lookup_app_l in Hx by done. by apply (Forall_lookup_1 _ _ _ _ Hr Hx).
Qed.

Lemma valid_range_decided r :
  range_u64 r ->
  valid_range r <->
  checked_add (r_start r) (r_bytes r) = Some (r_start r + r_bytes r) /\
  (r_start r =? 0) || (r_bytes r =? 0) || negb (is_power_of_two (r_alignment r))
    || negb (r_start r mod r_alignment r =? 0) = false.
Proof.
  intros ((? & ?) & (? & ?) & _). unfold valid_range, checked_add.
  rewrite !orb_false_iff, !negb_false_iff, !Z.eqb_neq, Z.eqb_eq.
  destruct (Z.ltb_spec (r_start r + r_bytes r) (2 ^ 64)); split; intros; destruct_and?; split_and!; try done; lia.
Qed.

Lemma validate_from_exact earlier ranges :
  Forall range_u64 ranges -> Forall valid_range earlier -> disjoint_list earlier ->
  (validate_from earlier ranges = Ok tt <-> Forall valid_range ranges /\ disjoint_list (earlier ++ ranges)) /\
  validate_from earlier ranges <> Panic.
Proof.
  intros Hu. revert earlier. induction Hu as [|r rest Hr Hu IH]; intros earlier Hv Hd; cbn [validate_from].
  { rewrite app_nil_r. split; [split; [split; [constructor|done]|done]|done]. }
  pose proof (valid_range_decided r Hr) as Hdec. rewrite Forall_cons.
  replace (earlier ++ r :: rest) with ((earlier ++ [r]) ++ rest) by (by rewrite <- app_assoc).
  assert (Hpre : disjoint_list ((earlier ++ [r]) ++ rest) -> Forall (fun o => disjoint_ranges o r) earlier).
  { intros Hl. apply disjoint_list_snoc. intros i j x y Hij Hx Hy. apply (Hl i j); [done|by apply lookup_app_l_Some..]. }
  destruct (checked_add (r_start r) (r_bytes r)) as [stop|] eqn:Ec; cbn [ok_or obind].
  2:{ split; [|done]. split; [done|]. intros [[Hvr _] _]. apply Hdec in Hvr as [? _]. done. }
  apply checked_add_Some in Ec as [-> Hlt]. case_step.
  { split; [|done]. split; [done|]. intros [[Hvr _] _]. apply Hdec in Hvr as [_ ?]. congruence. }
  destruct Hdec as [_ Hdec]. specialize (Hdec (conj eq_refl eq_refl)).
  destruct (check_others_exact r _ earlier eq_refl Hv) as [[-> Ho]|[-> Ho]]; cbn [obind].
  - destruct (IH (earlier ++ [r])) as [IH1 IH2]; [apply Forall_app; split; [done|by constructor]| |tauto].
    by apply disjoint_list_snoc.
  - split; [|done]. split; [done|]. intros [_ Hl]. destruct (Ho (Hpre Hl)).
Qed.

(** [validate_exact]: the check accepts a list of ranges exactly when every
    range is not null, not empty, aligned and ends below 2^64, and the ranges
    are pairwise disjoint; it never panics. *)
Theorem validate_exact ranges :
  Forall range_u64 ranges ->
  (validate_ranges ranges = Ok tt <-> Forall valid_range ranges /\ disjoint_list ranges) /\
  no_panic (validate_ranges ranges).
Proof. intros Hu. apply (validate_from_exact []); [done|constructor|]. by intros i j r s. Qed.

(** The check accepts the blocks of a heap. *)
Lemma heap_blocks_validate `{LinkedHeapLaws H} arena (h : TvisorHeap H) bs :
  heap_inv arena h bs -> arena.1 + arena.2 < 2 ^ 64 ->
  validate_ranges ((fun x : block => mkRange x.1 (l_size x.2) (l_align x.2)) <$> bs) = Ok tt.
Proof.
  intros [_ [Hs Hn] _ Hb Hl Ha _] Hend. rewrite Forall_forall in Hb. rewrite Forall_forall in Hl.
  assert (Hpow : forall l, layout_ok l -> u64 (l_align l)).
  { intros l (? & ? & ?). unfold u64, is_power_of_two in *. bool_prop. lia. }
  apply (validate_from_exact []); [|constructor|by intros i j r s|].
  - apply Forall_fmap, Forall_forall. intros x Hx. destruct (Hb x Hx) as (? & ? & ?), (Hl x Hx) as (? & ? & ?).
    unfold block_end in *. split_and!; cbn; [unfold u64; lia..|by apply Hpow].
  - split.
    + apply Forall_fmap, Forall_forall. intros x Hx.
      destruct (Hb x Hx) as (? & ? & ?), (Hl x Hx) as (? & ? & ?). unfold block_end in *.
      split_and!; cbn; [lia|lia|lia|done|done].
    + intros i j r s Hij Hi Hj. rewrite app_nil_l, list_lookup_fmap in Hi. rewrite app_nil_l, list_lookup_fmap in Hj.
      apply fmap_Some in Hi as (x & Hx & ->). apply fmap_Some in Hj as (y & Hy & ->). cbn.
      exact (Ha i j x y ltac:(lia) Hx Hy).
Qed.

(** ** A concrete instance *)

(** An allocator that never reuses memory: the next free address, the end of
    its arena and what is live. *)
Record bump := mkBump { bump_start : Z; bump_next : Z; bump_end : Z; bump_live : list block }.

Definition bump_fit (h : bump) (l : Layout) : Z := ((bump_next h + l_align l - 1) / l_align l) * l_align l.

#[local] Instance bump_heap : LinkedHeap bump := {|
  heap_empty := mkBump 0 0 0 [];
  heap_init _ s n := mkBump s s (s + n) [];
  allocate_first_fit h l :=
    let p := bump_fit h l in
    if p + l_size l <=? bump_end h
    then (Some p, mkBump (bump_start h) (p + l_size l) (bump_end h) ((p, l) :: bump_live h))
    else (None, h);
  heap_deallocate h p l := mkBump (bump_start h) (bump_next h) (bump_end h) (list_difference (bump_live h) [(p, l)]);
  heap_size h := bump_end h - bump_start h;
  heap_used h := bump_next h - bump_start h;
  heap_free h := bump_end h - bump_next h
|}.

Definition bump_owns (h : bump) (arena : Z * Z) (live : list block) : Prop :=
  arena = (bump_start h, bump_end h - bump_start h) /\ bump_start h <= bump_next h <= bump_end h /\
  Forall (fun x => block_end x <= bump_next h) live.

Lemma bump_allocates h arena live l p h' :
  bump_owns h arena live -> layout_ok l -> allocate_first_fit h l = (Some p, h') ->
  bump_owns h' arena ((p, l) :: live) /\ block_in arena (p, l) /\ Forall (apart (p, l)) live.
Proof.
  intros (-> & Hn & Hl) (Hs & Hp & _). cbn. set (q := bump_fit h l).
  assert (0 < l_align l) by (unfold is_power_of_two in Hp; bool_prop; lia).
  assert (Hq : bump_next h <= q /\ q mod l_align l = 0).
  { unfold q, bump_fit. split; [|by apply Z.mod_mul; lia]. Z.to_euclidean_division_equations. nia. }
  destruct (Z.leb_spec (q + l_size l) (bump_end h)); [|done]. intros [= <- <-].
  assert (Hle : Forall (fun x => block_end x <= q) live) by (eapply Forall_impl; [exact Hl|]; cbn; intros; lia).
  split_and!.
  - split_and!; cbn; [done|lia|lia|]. constructor; [done|]. eapply Forall_impl; [exact Hle|]. cbn. intros. lia.
  - split_and!; unfold block_end; cbn; lia.
  - eapply Forall_impl; [exact Hle|]. cbn. intros. by right.
Qed.

#[local] Instance bump_laws : LinkedHeapLaws bump.
Proof.
  refine {| owns := bump_owns; allocate_owns := bump_allocates |}.
  - intros s n ? ? ?. split_and!; cbn; [f_equal; lia|lia|lia|constructor].
  - intros h arena l1 l2 Hp (-> & ? & ?). split_and!; [done|lia..|by rewrite <- Hp].
  - intros h arena live l h' Ho _. cbn. destruct (_ <=? _); [done|]. by intros [= <-].
  - intros h arena p l live (-> & Hn & Hl). split_and!; cbn; [done|lia..|by inversion Hl].
  - intros h arena live (-> & Hn & Hl). cbn. lia.
Defined.

(** An allocator of eight pages, two of them for the heap. *)
Definition small_pages : GlobalPageAllocator :=
  mkGlobal (managed small_allocator) (in_use small_allocator) (ram_pages small_allocator) true.

Lemma small_pages_ok : global_ok 1 small_pages.
Proof. split; [done|exact small_ok|by vm_compute..]. Qed.

Definition two_page_heap : outcome HeapInitError InitializedHeap * (GlobalPageAllocator * TvisorHeap bump) :=
  heap_initialize 1 (Some 2%nat) (small_pages, TvisorHeap_empty).

Definition client_ops : list memory_op :=
  [HeapAlloc (mkLayout 64 16); PageOp OpAllocatePage; HeapAlloc (mkLayout 100 8); HeapDealloc 1;
   HeapAlloc (mkLayout 0x2000 8); HeapAlloc (mkLayout 16 0x1000)].

Definition client_run : list (Z * nat) * memory_state bump :=
  memory_run 1 client_ops (mkMemory two_page_heap.2.1 two_page_heap.2.2 []).

Lemma heap_memory_exclusive_witness :
  exists st, ms_blocks client_run.2 = [(0x3000, mkLayout 16 0x1000); (0x2040, mkLayout 100 8)] /\
    client_run.1 = [(0x4000, 1%nat)] /\ Forall (run_apart 0x2000 0x4000) client_run.1 /\
    TvisorHeap_stats (ms_heap client_run.2) = Ok st /\ live_allocations st = 2 /\ failed_allocations st = 1.
Proof.
  destruct two_page_heap as [[info| |] [g1 h1]] eqn:E; [|by vm_compute in E..].
  assert (Ei : ih_arena_start info = 0x2000 /\ ih_arena_end info = 0x4000).
  { assert (Hi : two_page_heap.1 = Ok info) by (by rewrite E). revert Hi. vm_compute. by intros [= <-]. }
  assert (Hs : (g1, h1) = two_page_heap.2) by (by rewrite E).
  assert (Hops : Forall (memory_op_ok (ih_arena_start info) (ih_arena_end info)) client_ops).
  { unfold client_ops. repeat constructor; unfold layout_ok; cbn; done || lia. }
  destruct (heap_memory_exclusive 1 ltac:(lia) eq_refl (Some 2%nat) small_pages info g1 h1 client_ops client_run.1
    client_run.2 small_pages_ok ltac:(cbn; lia) E Hops) as (_ & _ & _ & Hr & st & Hst & Hl & _).
  { unfold client_run. rewrite <- Hs. by destruct (memory_run _ _ _). }
  destruct Ei as [Es Ee]. rewrite Es, Ee in Hr. exists st. split_and!; [vm_compute; reflexivity..|exact Hr|exact Hst| |].
  - rewrite Hl. vm_compute. done.
  - revert Hst. vm_compute. by intros [= <-].
Defined.

Lemma validate_exact_witness :
  validate_ranges [mkRange 0x2000 64 16; mkRange 0x2040 100 8] = Ok tt /\
  disjoint_list [mkRange 0x2000 64 16; mkRange 0x2040 100 8].
Proof.
  assert (Hv : validate_ranges [mkRange 0x2000 64 16; mkRange 0x2040 100 8] = Ok tt) by (vm_compute; done).
  split; [done|]. apply (validate_exact [mkRange 0x2000 64 16; mkRange 0x2040 100 8]); [|done].
  repeat constructor; cbn; lia.
Defined.
