(* ===== verification/Platform.v ===== *)
(** * Memory discovery: src/tvisor_util/platform.rs

    The memory map is read from the device tree: RAM nodes, the firmware's
    carve-out, reservations of both kinds, the live device tree, the
    hypervisor's image and the devices behind /soc.  An error abandons the boot,
    so what the map held at that point is not kept. *)

From S2P Require Import Prelude DeviceTree Page SystemInfo MemoryMap PageAllocator Mm Takeover.

Definition BCM2711_COMPATIBLE : str := b"brcm,bcm2711".
Definition BCM2711_LOW_MEMORY_LIMIT : Z := 0x40000000.

Inductive CapacityKind := KRam | KReserved | KMmio.

Inductive PlatformError :=
| MissingMemory
| InvalidMemory
| InvalidReservation
| ConflictingReservationAttributes
| InvalidDynamicReservation
| UnboundedDynamicReservation
| MissingSocRanges
| InvalidSocRanges
| InvalidDtbRegion
| MemoryMapErr (e : MemoryMapError)
| PlatformCapacity (kind : CapacityKind) (capacity : nat).

Definition memory_error (kind : CapacityKind) (error : MemoryMapError) : PlatformError :=
  match error with
  | Capacity capacity => PlatformCapacity kind capacity
  | InvalidRegion _ | RamMmioConflict _ _ => InvalidMemory
  end.

(** ** Regions from registers *)

(** [PhysRegion::new(address, size)] of a register, any failure being [e]. *)
Definition register_region {E} (e : E) (register : Reg) : outcome E PhysRegion :=
  let? start := or_err (to_int (reg_address register)) e in
  let? size := or_err (to_int (reg_size register)) e in
  or_err (PhysRegion_new start size) e.

(** [for register in registers { map.insert(region)?; }] *)
Fixpoint insert_registers (e : PlatformError) (insert : MemoryMap -> PhysRegion -> outcome PlatformError MemoryMap)
    (registers : list Reg) (m : MemoryMap) : outcome PlatformError MemoryMap :=
  match registers with
  | [] => Ok m
  | register :: rest =>
      let? region := register_region e register in
      let? m := insert m region in
      insert_registers e insert rest m
  end.

Definition add_ram (m : MemoryMap) (region : PhysRegion) : outcome PlatformError MemoryMap :=
  Prelude.map_err (memory_error KRam) (insert_ram m region).
Definition add_reserved (m : MemoryMap) (region : PhysRegion) : outcome PlatformError MemoryMap :=
  Prelude.map_err (memory_error KReserved) (insert_reserved m region).
Definition add_mmio (m : MemoryMap) (region : PhysRegion) : outcome PlatformError MemoryMap :=
  Prelude.map_err (memory_error KMmio) (insert_mmio m region).

(** ** RAM *)

(** Whether a node is memory in use. *)
Definition is_memory (node : FdtNode) : outcome PlatformError bool :=
  match property node (b"device_type") with
  | None => Ok false
  | Some device_type =>
      let? s := or_err (as_str device_type) InvalidMemory in
      if negb (str_eqb s (b"memory")) then Ok false
      else let? st := or_err (status node) InvalidMemory in Ok (bool_decide (st = Okay))
  end.

Fixpoint ram_loop (nodes : list FdtNode) (m : MemoryMap) (found : bool) : outcome PlatformError (MemoryMap * bool) :=
  match nodes with
  | [] => Ok (m, found)
  | node :: rest =>
      let? wanted := is_memory node in
      if negb wanted then ram_loop rest m found
      else
        let? registers := or_err (reg node) InvalidMemory in
        let? registers := ok_or registers InvalidMemory in
        let? m := insert_registers InvalidMemory add_ram registers m in
        ram_loop rest m (match registers with [] => found | _ => true end)
  end.

Definition discover_ram (fdt : Fdt) (m : MemoryMap) : outcome PlatformError MemoryMap :=
  let? r := ram_loop (children (root_node fdt)) m false in
  let '(m, found) := r in
  if (found : bool) then Ok m else Err MissingMemory.

Definition discover_bcm2711_firmware_carveout (fdt : Fdt) (m : MemoryMap) : outcome PlatformError MemoryMap :=
  if negb (is_compatible (root_node fdt) BCM2711_COMPATIBLE) then Ok m
  else
    let? rams := FixedList_iter (ram m) in
    let? low_ram_end :=
      ok_or (match map rend (List.filter (fun r => rstart r =? 0) rams) with
             | [] => None
             | e :: rest => Some (fold_left Z.max rest e)
             end) MissingMemory in
    if BCM2711_LOW_MEMORY_LIMIT <=? low_ram_end then Ok m
    else
      let? carveout := or_err (PhysRegion_from_bounds low_ram_end BCM2711_LOW_MEMORY_LIMIT) InvalidMemory in
      let? m := add_ram m carveout in
      add_reserved m carveout.

(** ** Reservations *)

Definition page_rounded_region (start size : Z) : outcome RegionError PhysRegion :=
  let? e := ok_or (PhysAddr_checked_add start size) AddressOverflow in
  let rounded_start := page_address start in
  let? padded := ok_or (checked_add e (PAGE_SIZE - 1)) AddressOverflow in
  let rounded_end := page_address padded in
  PhysRegion_from_bounds rounded_start rounded_end.

Fixpoint reservation_block (l : list (Z * Z)) (m : MemoryMap) : outcome PlatformError MemoryMap :=
  match l with
  | [] => Ok m
  | (address, size) :: rest =>
      let? region := or_err (PhysRegion_new address size) InvalidReservation in
      let? m := add_reserved m region in
      reservation_block rest m
  end.

(** A reservation without [reg]: every range it may be placed in is taken. *)
Definition dynamic_reservation (node : FdtNode) (m : MemoryMap) : outcome PlatformError MemoryMap :=
  let? size := or_err (ReservedMemory_size node) InvalidReservation in
  let? size := ok_or size InvalidReservation in
  let? size := or_err (to_int size) InvalidReservation in
  reject size =? 0 with InvalidDynamicReservation in
  let? cells := or_err (alignment node) InvalidReservation in
  let? align := or_err (transpose cells to_int) InvalidReservation in
  reject match align with Some a => negb (is_power_of_two a) | None => false end with InvalidDynamicReservation in
  let? l := or_err (alloc_ranges node) InvalidReservation in
  let? l := ok_or l UnboundedDynamicReservation in
  let? m := insert_registers InvalidReservation add_reserved l m in
  reject match l with [] => true | _ => false end with UnboundedDynamicReservation in
  Ok m.

(** One child of /reserved-memory. *)
Definition reserve_node (node : FdtNode) (m : MemoryMap) : outcome PlatformError MemoryMap :=
  let? st := or_err (status node) InvalidReservation in
  if negb (bool_decide (st = Okay)) then Ok m
  else
    let no_map := has node (b"no-map") in
    let reusable := has node (b"reusable") in
    reject no_map && reusable with ConflictingReservationAttributes in
    reject has node (b"no-map-fixup") with InvalidReservation in
    let? registers := or_err (reg node) InvalidReservation in
    match registers with
    | Some registers => insert_registers InvalidReservation add_reserved registers m
    | None => dynamic_reservation node m
    end.

Fixpoint reserve_nodes (l : list FdtNode) (m : MemoryMap) : outcome PlatformError MemoryMap :=
  match l with
  | [] => Ok m
  | node :: rest => let? m := reserve_node node m in reserve_nodes rest m
  end.

Definition discover_reservations (fdt : Fdt) (dtb_address : Z) (tvisor_image : PhysRegion) (m : MemoryMap) :
    outcome PlatformError MemoryMap :=
  let? m := reservation_block (memory_reservations fdt) m in
  let? m := match reserved_memory fdt with Some l => reserve_nodes l m | None => Ok m end in
  let? dtb_region := or_err (page_rounded_region dtb_address (data_len fdt)) InvalidDtbRegion in
  let? m := add_reserved m dtb_region in
  add_reserved m tvisor_image.

(** ** Devices *)

Fixpoint soc_windows (l : list Range) (m : MemoryMap) : outcome PlatformError MemoryMap :=
  match l with
  | [] => Ok m
  | range :: rest =>
      let? _child_start := or_err (to_int (child_bus_address range)) InvalidSocRanges in
      let? start := or_err (to_int (parent_bus_address range)) InvalidSocRanges in
      let? size := or_err (to_int (range_length range)) InvalidSocRanges in
      let? region := or_err (PhysRegion_new start size) InvalidSocRanges in
      let? m := add_mmio m region in
      soc_windows rest m
  end.

Definition discover_mmio (fdt : Fdt) (m : MemoryMap) : outcome PlatformError MemoryMap :=
  match find_node fdt (b"/soc") with
  | None => Ok m
  | Some soc =>
      let? st := or_err (status soc) InvalidSocRanges in
      if negb (bool_decide (st = Okay)) then Ok m
      else
        let? l := or_err (ranges soc) InvalidSocRanges in
        let? l := ok_or l MissingSocRanges in
        soc_windows l m
  end.

Definition discover_memory_map (fdt : Fdt) (dtb_address : Z) (tvisor_image : PhysRegion) (destination : MemoryMap) :
    outcome PlatformError MemoryMap :=
  let m := MemoryMap_clear destination in
  let? m := discover_ram fdt m in
  let? m := discover_bcm2711_firmware_carveout fdt m in
  let? m := discover_reservations fdt dtb_address tvisor_image m in
  let? m := discover_mmio fdt m in
  Prelude.map_err MemoryMapErr (finalize m).

(** ** Specification *)

(** The addresses of a list of registers. *)
Definition in_registers (l : list Reg) (a : Z) : Prop :=
  exists r region, r ∈ l /\ register_region () r = Ok region /\ rstart region <= a < rend region.

Definition described_ram (fdt : Fdt) (a : Z) : Prop :=
  exists node l, node ∈ children (root_node fdt) /\ is_memory node = Ok true /\ reg node = Ok (Some l) /\ in_registers l a.

(** Below the limit and not before the end [e] of the RAM from address 0. *)
Definition carved (fdt : Fdt) (a : Z) : Prop :=
  is_compatible (root_node fdt) BCM2711_COMPATIBLE = true /\
  exists e, 0 < e <= a /\ a < BCM2711_LOW_MEMORY_LIMIT /\ (forall x, 0 <= x < e -> described_ram fdt x) /\ ~ described_ram fdt e.

Definition in_block (l : list (Z * Z)) (a : Z) : Prop := exists start size, (start, size) ∈ l /\ start <= a < start + size.

(** The addresses an enabled child of /reserved-memory occupies or may
    occupy. *)
Definition in_reserved_node (node : FdtNode) (a : Z) : Prop :=
  status node = Ok Okay /\
  ((exists l, reg node = Ok (Some l) /\ in_registers l a) \/
   (reg node = Ok None /\ exists l, alloc_ranges node = Ok (Some l) /\ in_registers l a)).

Definition in_reserved_memory (fdt : Fdt) (a : Z) : Prop :=
  exists l node, reserved_memory fdt = Some l /\ node ∈ l /\ in_reserved_node node a.

(** The pages of [size] bytes from [start] on. *)
Definition in_pages_of (start size a : Z) : Prop :=
  PAGE_SIZE * (start / PAGE_SIZE) <= a < PAGE_SIZE * ((start + size + PAGE_SIZE - 1) / PAGE_SIZE).

Definition in_windows (l : list Range) (a : Z) : Prop :=
  exists r start size, r ∈ l /\ to_int (parent_bus_address r) = Ok start /\ to_int (range_length r) = Ok size /\
    start <= a < start + size.

Definition described_mmio (fdt : Fdt) (a : Z) : Prop :=
  exists soc l, find_node fdt (b"/soc") = Some soc /\ status soc = Ok Okay /\ ranges soc = Ok (Some l) /\ in_windows l a.

(** ** A map that holds given sets of addresses *)

Definition holds (m : MemoryMap) (R V D : Z -> Prop) : Prop :=
  exists rams rsv devs us, map_wf m rams rsv devs us /\
    (forall a, covers rams a <-> R a) /\ (forall a, covers rsv a <-> V a) /\ (forall a, covers devs a <-> D a).

(** No panic, and the result of a success. *)
Definition ensures {E A} (x : outcome E A) (Q : A -> Prop) : Prop :=
  match x with Ok a => Q a | Err _ => True | Panic => False end.

Lemma ensures_bind {E A B} (x : outcome E A) (f : A -> outcome E B) (P : A -> Prop) (Q : B -> Prop) :
  ensures x P -> (forall a, P a -> ensures (f a) Q) -> ensures (obind x f) Q.
Proof. destruct x; cbn; auto. Qed.

Lemma ensures_map_err {E F A} (f : E -> F) (x : outcome E A) Q : ensures x Q -> ensures (Prelude.map_err f x) Q.
Proof. by destruct x. Qed.

Lemma ensures_or_err {E F A} (x : outcome E A) (e : F) Q : ensures x Q -> ensures (or_err x e) Q.
Proof. by destruct x. Qed.

Lemma ensures_weaken {E A} (x : outcome E A) (P Q : A -> Prop) : ensures x P -> (forall a, P a -> Q a) -> ensures x Q.
Proof. destruct x; cbn; auto. Qed.

Lemma ensures_total {E A} (x : outcome E A) : x <> Panic -> ensures x (fun a => x = Ok a).
Proof. by destruct x. Qed.

Lemma ensures_ok_or {E A} (o : option A) (e : E) : ensures (ok_or o e) (fun a => o = Some a).
Proof. by destruct o. Qed.

Lemma holds_ext m R V D R' V' D' :
  holds m R V D -> (forall a, R a <-> R' a) -> (forall a, V a <-> V' a) -> (forall a, D a <-> D' a) -> holds m R' V' D'.
Proof.
  intros (rams & rsv & devs & us & Hm & HR & HV & HD) H1 H2 H3. exists rams, rsv, devs, us.
  split_and!; [done|..]; intros a; [rewrite HR|rewrite HV|rewrite HD]; done.
Qed.

Lemma insert_cases N fl xs r :
  fl_rep N fl xs -> canonical xs -> region_ok r ->
  ensures (insert_sorted_merged N fl r) (fun fl' => exists ys, fl_rep N fl' ys /\ canonical ys /\
    forall a, covers ys a <-> covers xs a \/ in_region r a).
Proof.
  intros H Hc Hr. destruct (insert_sorted_merged_cases N fl xs r H Hc Hr) as [(fl' & ys & -> & Hrep & Hi)|(-> & _)]; [|done].
  exists ys. split; [done|]. by eapply inserted_canonical.
Qed.

Section Insert.
Context (m : MemoryMap) (R V D : Z -> Prop) (r : PhysRegion) (Hm : holds m R V D) (Hr : region_ok r).

Lemma add_ram_holds : ensures (add_ram m r) (fun m' => holds m' (fun a => R a \/ in_region r a) V D).
Proof using Type*.
  destruct Hm as (rams & rsv & devs & us & [W1 W2 W3 W4 C1 C2 C3] & HR & HV & HD). unfold add_ram, insert_ram. apply ensures_map_err.
  pose proof (insert_cases _ _ _ _ W1 C1 Hr) as Hi. destruct (insert_sorted_merged _ _ r) as [fl| |]; cbn; [|done..].
  destruct Hi as (ys & Hy & Hc & Hcov). exists ys, rsv, devs, us. split_and!; [by split|..|done|done].
  intros a. by rewrite Hcov, HR.
Qed.

Lemma add_reserved_holds : ensures (add_reserved m r) (fun m' => holds m' R (fun a => V a \/ in_region r a) D).
Proof using Type*.
  destruct Hm as (rams & rsv & devs & us & [W1 W2 W3 W4 C1 C2 C3] & HR & HV & HD). unfold add_reserved, insert_reserved. apply ensures_map_err.
  pose proof (insert_cases _ _ _ _ W2 C2 Hr) as Hi. destruct (insert_sorted_merged _ _ r) as [fl| |]; cbn; [|done..].
  destruct Hi as (ys & Hy & Hc & Hcov). exists rams, ys, devs, us. split_and!; [by split|done|..|done].
  intros a. by rewrite Hcov, HV.
Qed.

Lemma add_mmio_holds : ensures (add_mmio m r) (fun m' => holds m' R V (fun a => D a \/ in_region r a)).
Proof using Type*.
  destruct Hm as (rams & rsv & devs & us & [W1 W2 W3 W4 C1 C2 C3] & HR & HV & HD). unfold add_mmio, insert_mmio. apply ensures_map_err.
  pose proof (insert_cases _ _ _ _ W3 C3 Hr) as Hi. destruct (insert_sorted_merged _ _ r) as [fl| |]; cbn; [|done..].
  destruct Hi as (ys & Hy & Hc & Hcov). exists rams, rsv, ys, us. split_and!; [by split|done|done|..].
  intros a. by rewrite Hcov, HD.
Qed.
End Insert.

(** Registers whose numbers are machine words. *)
Definition typed (r : Reg) : Prop :=
  (forall a, to_int (reg_address r) = Ok a -> u64 a) /\ (forall s, to_int (reg_size r) = Ok s -> u64 s).

Lemma register_region_ensures {E} (e : E) r :
  typed r -> ensures (register_region e r) (fun region => register_region () r = Ok region /\ region_ok region).
Proof.
  intros [Ha Hs]. unfold register_region. destruct (to_int (reg_address r)) as [a| |] eqn:Ea; sequence; [|done|by destruct (to_int_total _ Ea)].
  destruct (to_int (reg_size r)) as [s| |] eqn:Es; sequence; [|done|by destruct (to_int_total _ Es)].
  destruct (PhysRegion_new a s) as [region| |] eqn:Er; cbn; [|done|].
  - split; [done|]. eapply PhysRegion_new_ok; [apply Ha; done|apply Hs; done|done].
  - unfold PhysRegion_new in Er. destruct (s =? 0); [done|]. by destruct (PhysAddr_checked_add a s).
Qed.

Lemma in_registers_nil a : in_registers [] a <-> False.
Proof. unfold in_registers. split; [|done]. by intros (? & ? & ?%elem_of_nil & _). Qed.

Lemma in_registers_cons r l region a :
  register_region () r = Ok region -> in_registers (r :: l) a <-> in_region region a \/ in_registers l a.
Proof.
  intros Hr. unfold in_registers, in_region. split.
  - intros (x & rg & [->|Hin]%elem_of_cons & Hx & Ha); [left; congruence|right; eauto].
  - intros [Ha|(x & rg & Hin & Hx & Ha)]; [exists r, region; split; [by left|done]|exists x, rg; split; [by right|done]].
Qed.

(** A loop over registers adds their addresses to the set that an insertion
    extends. *)
Section Registers.
Context (e : PlatformError) (insert : MemoryMap -> PhysRegion -> outcome PlatformError MemoryMap).
Context (P : (Z -> Prop) -> MemoryMap -> Prop).
Hypothesis P_ext : forall S S' m, (forall a, S a <-> S' a) -> P S m -> P S' m.
Hypothesis P_insert : forall S m r, P S m -> region_ok r -> ensures (insert m r) (P (fun a => S a \/ in_region r a)).

Lemma insert_registers_ensures l S m :
  Forall typed l -> P S m -> ensures (insert_registers e insert l m) (P (fun a => S a \/ in_registers l a)).
Proof using P_ext P_insert.
  intros Hl. revert S m. induction Hl as [|r l Hr _ IH]; intros S m HP; cbn [insert_registers].
  - cbn. eapply P_ext; [|exact HP]. intros a. rewrite in_registers_nil. tauto.
  - eapply ensures_bind; [by apply register_region_ensures|]. intros region [Hreg Hok]. cbn beta.
    eapply ensures_bind; [by apply P_insert|]. intros m' HP'. eapply ensures_weaken; [by apply IH|].
    intros m'' HP''. eapply P_ext; [|exact HP'']. intros a. rewrite (in_registers_cons r l region a Hreg). tauto.
Qed.
End Registers.

Lemma reg_named_typed n key l : from_bytes n -> reg_named n key = Ok (Some l) -> Forall typed l.
Proof. intros Hn Hl. apply Forall_forall. intros r Hr. by eapply reg_named_u64. Qed.

Definition add_ram_registers e V D :=
  insert_registers_ensures e add_ram (fun S m => holds m S V D)
    (fun S S' m HS Hm => holds_ext m S V D S' V D Hm HS (fun _ => iff_refl _) (fun _ => iff_refl _))
    (fun S m r Hm Hr => add_ram_holds m S V D r Hm Hr).

Definition add_reserved_registers e R D :=
  insert_registers_ensures e add_reserved (fun S m => holds m R S D)
    (fun S S' m HS Hm => holds_ext m R S D R S' D Hm (fun _ => iff_refl _) HS (fun _ => iff_refl _))
    (fun S m r Hm Hr => add_reserved_holds m R S D r Hm Hr).

(** ** RAM *)

Lemma is_memory_no_panic n : is_memory n <> Panic.
Proof.
  unfold is_memory. destruct (property n _) as [p|]; [|done]. pose proof (as_str_total p). destruct (as_str p); sequence; [|done..].
  destruct (negb _); [done|]. pose proof (status_total n). by destruct (status n).
Qed.

(** RAM described by some of the nodes. *)
Definition ram_of (nodes : list FdtNode) (a : Z) : Prop :=
  exists node l, node ∈ nodes /\ is_memory node = Ok true /\ reg node = Ok (Some l) /\ in_registers l a.

Lemma ram_loop_ensures nodes m found R V D :
  Forall from_bytes nodes -> holds m R V D ->
  ensures (ram_loop nodes m found) (fun r => holds (fst r) (fun a => R a \/ ram_of nodes a) V D).
Proof.
  intros Hn. revert m found R. induction Hn as [|n nodes Hb _ IH]; intros m found R Hm; cbn [ram_loop].
  { cbn. eapply holds_ext; [done|..]; intros a; [|done..]. unfold ram_of. split; [by left|]. by intros [?|(? & ? & ?%elem_of_nil & _)]. }
  eapply ensures_bind; [apply ensures_total, is_memory_no_panic|]. intros wanted Hmem. cbn beta.
  assert (Hcons : forall a, ram_of (n :: nodes) a <->
    (wanted = true /\ exists l, reg n = Ok (Some l) /\ in_registers l a) \/ ram_of nodes a).
  { intros a. unfold ram_of. split.
    - intros (x & l & [->|Hin]%elem_of_cons & Hx & Hl & Ha); [left; split; [congruence|eauto]|right; eauto 6].
    - intros [(-> & l & Hl & Ha)|(x & l & Hin & H)]; [exists n, l; split; [by left|done]|exists x, l; split; [by right|done]]. }
  destruct wanted; cbn [negb].
  - eapply ensures_bind; [apply ensures_or_err, ensures_total, reg_named_total|]. intros o Ho. cbn beta.
    eapply ensures_bind; [apply ensures_ok_or|]. intros l ->. cbn beta.
    eapply ensures_bind; [apply (add_ram_registers InvalidMemory V D); [by eapply reg_named_typed|exact Hm]|].
    intros m' Hm'. eapply ensures_weaken; [exact (IH _ _ _ Hm')|]. intros r Hr. eapply holds_ext; [exact Hr|..]; intros a; [|done..].
    rewrite Hcons, Ho. split; [intros [[?|?]|?]; eauto 6|]. intros [?|[(_ & l' & [= <-] & ?)|?]]; auto.
  - eapply ensures_weaken; [exact (IH _ _ _ Hm)|]. intros r Hr. eapply holds_ext; [exact Hr|..]; intros a; [|done..]. rewrite Hcons.
    split; [intros [?|?]; auto|]. intros [?|[[? _]|?]]; auto; done.
Qed.

Lemma discover_ram_ensures fdt m R V D :
  fdt_bytes fdt -> holds m R V D -> ensures (discover_ram fdt m) (fun m' => holds m' (fun a => R a \/ described_ram fdt a) V D).
Proof.
  intros Hf Hm. unfold discover_ram. eapply ensures_bind.
  - apply ram_loop_ensures; [|exact Hm]. apply children_bytes, Hf.
  - intros [m' found] Hm'. cbn in *. by destruct found.
Qed.

(** ** The carve-out *)

(** Between the end of the RAM from address 0 and the limit. *)
Definition above_low_ram (R : Z -> Prop) (a : Z) : Prop :=
  exists e, 0 < e <= a /\ a < BCM2711_LOW_MEMORY_LIMIT /\ (forall x, 0 <= x < e -> R x) /\ ~ R e.

(** In a canonical list at most the first region starts at 0, and the address
    after it is not covered. *)
Lemma canonical_low rams :
  canonical rams ->
  match List.filter (fun r => rstart r =? 0) rams with
  | [] => ~ covers rams 0
  | r :: rest => rest = [] /\ 0 < rend r /\ rend r < 2 ^ 64 /\ (forall x, 0 <= x < rend r -> covers rams x) /\ ~ covers rams (rend r)
  end.
Proof.
  destruct rams as [|r rams]; intros Hc; [by intros [? [?%elem_of_nil _]]|]. destruct Hc as (Hlo & Hok & Hc).
  assert (Hrest : List.filter (fun r => rstart r =? 0) rams = []).
  { pose proof (canonical_from_above _ _ Hc) as Ha. destruct Hok as (?&?&?). induction Ha as [|x xs Hx _ IH]; [done|]. cbn [List.filter].
    rewrite (proj2 (Z.eqb_neq _ _)) by (unfold rend in *; lia). apply IH. eapply canonical_from_weaken; [|by apply Hc].
    destruct Hc as (?&(?&?&?)&?). unfold rend in *. lia. }
  cbn [List.filter]. rewrite Hrest. destruct (Z.eqb_spec (rstart r) 0) as [E|E].
  - split; [done|]. split; [region|]. split; [region|]. split.
    + intros x Hx. apply covers_cons. left. lia.
    + rewrite covers_cons. intros [?|?%(covers_above _ _ _ Hc)]; lia.
  - rewrite covers_cons. intros [?|?%(covers_above _ _ _ Hc)]; region.
Qed.

Lemma carveout_ensures fdt m R V D :
  holds m R V D ->
  let C a := is_compatible (root_node fdt) BCM2711_COMPATIBLE = true /\ above_low_ram R a in
  ensures (discover_bcm2711_firmware_carveout fdt m) (fun m' => holds m' (fun a => R a \/ C a) (fun a => V a \/ C a) D).
Proof.
  intros Hm C. unfold discover_bcm2711_firmware_carveout, C. clear C. destruct (is_compatible _ _); cbn [negb].
  2:{ cbn. eapply holds_ext; [exact Hm|..]; intros a; naive_solver. }
  pose proof Hm as (rams & rsv & devs & us & Hwf & HR & HV & HD). rewrite (iter_refines _ _ _ (wf_ram _ _ _ _ _ Hwf)). sequence.
  pose proof (canonical_low rams (wf_ram_canonical _ _ _ _ _ Hwf)) as Hlow.
  destruct (List.filter _ rams) as [|r [|r' l]]; cbn [map ok_or obind fold_left]; [done| |by destruct Hlow].
  destruct Hlow as (_ & Hpos & Hlt & Hin & Hout). set (e := rend r) in *. clearbody e.
  assert (HC : forall a, above_low_ram R a <-> e <= a < BCM2711_LOW_MEMORY_LIMIT).
  { intros a. split; [|intros Ha; exists e; split_and!; [lia|lia|lia| |by rewrite <- HR]; intros x Hx; apply HR, Hin; lia].
    intros (e' & He' & Ha & Hall & Hnot). rewrite <- HR in Hnot.
    assert (e' = e); [|lia]. destruct (Z.lt_total e' e) as [?|[?|?]]; [|done|].
    - destruct Hnot. apply Hin. lia.
    - destruct Hout. apply HR, Hall. lia. }
  destruct (Z.leb_spec BCM2711_LOW_MEMORY_LIMIT e).
  { cbn. eapply holds_ext; [exact Hm|..]; intros a; [rewrite HC..|done]; (split; [by left|]); intros [?|[_ ?]]; [done|lia|done|lia]. }
  rewrite PhysRegion_from_bounds_ok by (unfold BCM2711_LOW_MEMORY_LIMIT in *; lia). sequence.
  set (c := mkRegion e (BCM2711_LOW_MEMORY_LIMIT - e)).
  assert (Hc : region_ok c) by (unfold c, region_ok, rend, BCM2711_LOW_MEMORY_LIMIT in *; cbn; lia).
  assert (Hr : forall a, in_region c a <-> e <= a < BCM2711_LOW_MEMORY_LIMIT) by (intros a; unfold in_region, c, rend; cbn; lia).
  eapply ensures_bind; [exact (add_ram_holds m R V D c Hm Hc)|]. intros m1 Hm1. cbn beta in Hm1.
  eapply ensures_weaken; [exact (add_reserved_holds _ _ _ _ c Hm1 Hc)|]. intros m2 Hm2.
  eapply holds_ext; [exact Hm2|..]; intros a; [rewrite HC, Hr..|done]; naive_solver.
Qed.

(** ** Reservations *)

Lemma reservation_block_ensures l m R V D :
  Forall (fun '(a, s) => u64 a /\ u64 s) l -> holds m R V D ->
  ensures (reservation_block l m) (fun m' => holds m' R (fun a => V a \/ in_block l a) D).
Proof.
  intros Hl. revert m V. induction Hl as [|[s n] l [Hs Hn] _ IH]; intros m V Hm; cbn [reservation_block].
  { cbn. eapply holds_ext; [exact Hm|..]; intros a; [done| |done]. unfold in_block. split; [by left|].
    by intros [?|(? & ? & ?%elem_of_nil & _)]. }
  destruct (PhysRegion_new s n) as [r| |] eqn:Er; sequence; [|done|].
  - destruct (PhysRegion_new_ok s n r) as [-> Hok]; [apply Hs|apply Hn|done|].
    eapply ensures_bind; [exact (add_reserved_holds m R V D _ Hm Hok)|]. intros m' Hm'.
    eapply ensures_weaken; [exact (IH _ _ Hm')|]. intros m2 Hm2. eapply holds_ext; [exact Hm2|..]; intros a; [done| |done].
    unfold in_block, in_region, rend. cbn. split.
    + intros [[?|?]|(s' & n' & ? & ?)]; [by left|right; exists s, n; split; [by left|done]|right; exists s', n'; split; [by right|done]].
    + intros [?|(s' & n' & [[= -> ->]|?]%elem_of_cons & ?)]; [by left; left|by left; right|right; eauto].
  - unfold PhysRegion_new in Er. destruct (n =? 0); [done|]. by destruct (PhysAddr_checked_add s n).
Qed.

Lemma as_cells_total p : as_cells p <> Panic.
Proof. unfold as_cells. by destruct (negb _). Qed.

Lemma transpose_total {E A C} (o : option A) (f : A -> outcome E C) : (forall a, f a <> Panic) -> transpose o f <> Panic.
Proof. intros H. destruct o as [a|]; cbn; [|done]. specialize (H a). by destruct (f a). Qed.

Lemma dynamic_reservation_ensures n m R V D :
  from_bytes n -> holds m R V D ->
  ensures (dynamic_reservation n m)
    (fun m' => exists l, alloc_ranges n = Ok (Some l) /\ holds m' R (fun a => V a \/ in_registers l a) D).
Proof.
  intros Hb Hm. unfold dynamic_reservation.
  eapply ensures_bind; [apply ensures_or_err, ensures_total, transpose_total, as_cells_total|]. intros o _. cbn beta.
  eapply ensures_bind; [apply ensures_ok_or|]. intros cells _. cbn beta.
  eapply ensures_bind; [apply ensures_or_err, ensures_total, to_int_total|]. intros size _. cbn beta.
  destruct (size =? 0); [done|].
  eapply ensures_bind; [apply ensures_or_err, ensures_total, transpose_total, as_cells_total|]. intros o' _. cbn beta.
  eapply ensures_bind; [apply ensures_or_err, ensures_total, transpose_total, to_int_total|]. intros align _. cbn beta.
  destruct (match align with Some a => negb (is_power_of_two a) | None => false end); [done|].
  eapply ensures_bind; [apply ensures_or_err, ensures_total, reg_named_total|]. intros ol Hl. cbn beta.
  eapply ensures_bind; [apply ensures_ok_or|]. intros l ->. cbn beta.
  eapply ensures_bind; [apply (add_reserved_registers InvalidReservation R D); [by eapply reg_named_typed|exact Hm]|].
  intros m' Hm'. destruct l as [|r l]; [done|]. exists (r :: l). done.
Qed.

Lemma reserve_node_ensures n m R V D :
  from_bytes n -> holds m R V D ->
  ensures (reserve_node n m) (fun m' => holds m' R (fun a => V a \/ in_reserved_node n a) D).
Proof.
  intros Hb Hm. unfold reserve_node. eapply ensures_bind; [apply ensures_or_err, ensures_total, status_total|].
  intros st Hst. cbn beta. unfold in_reserved_node. case_bool_decide as E; cbn [negb].
  2:{ cbn. eapply holds_ext; [exact Hm|..]; intros a; [done| |done]. rewrite Hst. split; [by left|]. by intros [?|[[= ?] _]]. }
  subst st. destruct (_ && _); [done|]. destruct (has n _); [done|].
  eapply ensures_bind; [apply ensures_or_err, ensures_total, reg_total|]. intros [l|] Hl; cbn beta iota.
  - eapply ensures_weaken; [apply (add_reserved_registers InvalidReservation R D); [by eapply reg_named_typed|exact Hm]|].
    intros m' Hm'. eapply holds_ext; [exact Hm'|..]; intros a; [done| |done]. rewrite Hl. split; [intros [?|?]; eauto 6|].
    intros [?|[_ [(l' & [= <-] & ?)|[? _]]]]; auto; done.
  - eapply ensures_weaken; [exact (dynamic_reservation_ensures n m R V D Hb Hm)|]. intros m' (l & Ha & Hm').
    eapply holds_ext; [exact Hm'|..]; intros a; [done| |done]. rewrite Hl, Ha. split; [intros [?|?]; eauto 8|].
    intros [?|[_ [(l' & ? & _)|[_ (l' & [= <-] & ?)]]]]; auto; done.
Qed.

Lemma reserve_nodes_ensures l m R V D :
  Forall from_bytes l -> holds m R V D ->
  ensures (reserve_nodes l m) (fun m' => holds m' R (fun a => V a \/ exists n, n ∈ l /\ in_reserved_node n a) D).
Proof.
  intros Hl. revert m V. induction Hl as [|n l Hn _ IH]; intros m V Hm; cbn [reserve_nodes].
  { cbn. eapply holds_ext; [exact Hm|..]; intros a; [done| |done]. split; [by left|]. by intros [?|(? & ?%elem_of_nil & _)]. }
  eapply ensures_bind; [exact (reserve_node_ensures n m R V D Hn Hm)|]. intros m' Hm'.
  eapply ensures_weaken; [exact (IH _ _ Hm')|]. intros m2 Hm2. eapply holds_ext; [exact Hm2|..]; intros a; [done| |done]. split.
  - intros [[?|?]|(x & ? & ?)]; [by left|right; exists n; split; [by left|done]|right; exists x; split; [by right|done]].
  - intros [?|(x & [->|?]%elem_of_cons & ?)]; [by left; left|by left; right|right; eauto].
Qed.

Lemma page_rounded_region_ensures start size :
  u64 start -> u64 size ->
  ensures (page_rounded_region start size) (fun r => region_ok r /\ forall a, in_region r a <-> in_pages_of start size a).
Proof.
  intros Hs Hn. unfold page_rounded_region, PhysAddr_checked_add.
  destruct (checked_add start size) as [e|] eqn:E1; sequence; [|done]. apply checked_add_Some in E1 as [-> H1].
  destruct (checked_add _ _) as [p|] eqn:E2; sequence; [|done]. apply checked_add_Some in E2 as [-> H2].
  rewrite !page_address_sub by (unfold u64, PAGE_SIZE in *; lia). unfold u64, PAGE_SIZE in *.
  set (lo := start - start mod 4096). set (hi := start + size + (4096 - 1) - (start + size + (4096 - 1)) mod 4096).
  assert (Hlo : lo = 4096 * (start / 4096)) by (unfold lo; pose proof (Z.div_mod start 4096 ltac:(lia)); lia).
  assert (Hhi : hi = 4096 * ((start + size + (4096 - 1)) / 4096))
    by (unfold hi; pose proof (Z.div_mod (start + size + (4096 - 1)) 4096 ltac:(lia)); lia).
  assert (Hle : lo <= hi) by (unfold lo, hi; Z.div_mod_to_equations; lia).
  assert (H0 : 0 <= lo) by (unfold lo; Z.div_mod_to_equations; lia).
  assert (Htop : hi < 2 ^ 64) by (unfold hi; Z.div_mod_to_equations; lia). clearbody lo hi.
  destruct (Z.eq_dec lo hi) as [He|He].
  { unfold PhysRegion_from_bounds. rewrite (proj2 (Z.ltb_ge hi lo)), (proj2 (Z.eqb_eq hi lo)) by lia. done. }
  rewrite PhysRegion_from_bounds_ok by lia. cbn. split; [unfold region_ok, rend; cbn; lia|]. intros a.
  unfold in_region, in_pages_of, rend, PAGE_SIZE. cbn. rewrite Hlo, Hhi. replace (start + size + 4096 - 1) with (start + size + (4096 - 1)) by lia. lia.
Qed.

(** Everything that is reserved besides the carve-out. *)
Definition described_reserved (fdt : Fdt) (dtb_address : Z) (tvisor_image : PhysRegion) (a : Z) : Prop :=
  in_block (memory_reservations fdt) a \/ in_reserved_memory fdt a \/ in_pages_of dtb_address (data_len fdt) a \/
  in_region tvisor_image a.

Lemma discover_reservations_ensures fdt dtb image m R V D :
  fdt_bytes fdt -> u64 dtb -> region_ok image -> holds m R V D ->
  ensures (discover_reservations fdt dtb image m) (fun m' => holds m' R (fun a => V a \/ described_reserved fdt dtb image a) D).
Proof.
  intros Hf Hd Hi Hm. unfold discover_reservations.
  eapply ensures_bind; [exact (reservation_block_ensures _ m R V D (fb_reservations _ Hf) Hm)|]. intros m1 Hm1. cbn beta in Hm1 |- *.
  eapply ensures_bind with (P := fun m' => holds m' R (fun a => (V a \/ in_block (memory_reservations fdt) a) \/ in_reserved_memory fdt a) D).
  { unfold in_reserved_memory, reserved_memory. destruct (find_node fdt _) as [rm|] eqn:Er.
    - eapply ensures_weaken; [apply (reserve_nodes_ensures _ m1 _ _ _ (children_bytes rm (find_node_bytes _ _ _ Hf Er)) Hm1)|].
      intros m2 Hm2. eapply holds_ext; [exact Hm2|..]; intros a; [done| |done]. split; [intros [?|(n & ? & ?)]; eauto 7|].
      intros [?|(l & n & [= <-] & ? & ?)]; eauto.
    - cbn. eapply holds_ext; [exact Hm1|..]; intros a; [done| |done]. split; [by left|]. by intros [?|(? & ? & ? & _)]. }
  intros m2 Hm2. cbn beta in Hm2 |- *.
  eapply ensures_bind; [apply ensures_or_err, page_rounded_region_ensures; [done|apply Hf]|]. intros r [Hr Hin]. cbn beta.
  eapply ensures_bind; [exact (add_reserved_holds m2 _ _ _ r Hm2 Hr)|]. intros m3 Hm3. cbn beta in Hm3.
  eapply ensures_weaken; [exact (add_reserved_holds m3 _ _ _ image Hm3 Hi)|]. intros m4 Hm4.
  eapply holds_ext; [exact Hm4|..]; intros a; [done| |done]. unfold described_reserved. rewrite Hin. tauto.
Qed.

(** ** Devices *)

Lemma soc_windows_ensures l m R V D :
  Forall (fun r => (forall a, to_int (parent_bus_address r) = Ok a -> u64 a) /\ (forall s, to_int (range_length r) = Ok s -> u64 s)) l ->
  holds m R V D -> ensures (soc_windows l m) (fun m' => holds m' R V (fun a => D a \/ in_windows l a)).
Proof.
  intros Hl. revert m D. induction Hl as [|r l [Hp Hs] _ IH]; intros m D Hm; cbn [soc_windows].
  { cbn. eapply holds_ext; [exact Hm|..]; intros a; [done..|]. unfold in_windows. split; [by left|].
    by intros [?|(? & ? & ? & ?%elem_of_nil & _)]. }
  eapply ensures_bind; [apply ensures_or_err, ensures_total, to_int_total|]. intros c _. cbn beta.
  eapply ensures_bind; [apply ensures_or_err, ensures_total, to_int_total|]. intros p Ep. cbn beta.
  eapply ensures_bind; [apply ensures_or_err, ensures_total, to_int_total|]. intros s Es. cbn beta.
  destruct (PhysRegion_new p s) as [rg| |] eqn:Er; sequence; [|done|].
  - destruct (PhysRegion_new_ok p s rg) as [-> Hok]; [by apply Hp|by apply Hs|done|].
    eapply ensures_bind; [exact (add_mmio_holds m R V D _ Hm Hok)|]. intros m' Hm'.
    eapply ensures_weaken; [exact (IH _ _ Hm')|]. intros m2 Hm2. eapply holds_ext; [exact Hm2|..]; intros a; [done..|].
    unfold in_windows, in_region, rend. cbn. split.
    + intros [[?|?]|(x & p' & s' & ? & ?)]; [by left|right; exists r, p, s; split; [by left|done]|right; exists x, p', s'; split; [by right|done]].
    + intros [?|(x & p' & s' & [->|?]%elem_of_cons & E1 & E2 & ?)]; [by left; left|left; right; congruence|right; eauto 8].
  - unfold PhysRegion_new in Er. destruct (s =? 0); [done|]. by destruct (PhysAddr_checked_add p s).
Qed.

Lemma discover_mmio_ensures fdt m R V D :
  fdt_bytes fdt -> holds m R V D -> ensures (discover_mmio fdt m) (fun m' => holds m' R V (fun a => D a \/ described_mmio fdt a)).
Proof.
  intros Hf Hm. unfold discover_mmio, described_mmio. destruct (find_node fdt _) as [soc|] eqn:Es.
  2:{ cbn. eapply holds_ext; [exact Hm|..]; intros a; [done..|]. split; [by left|]. by intros [?|(? & ? & ? & _)]. }
  eapply ensures_bind; [apply ensures_or_err, ensures_total, status_total|]. intros st Hst. cbn beta. case_bool_decide as E; cbn [negb].
  2:{ cbn. eapply holds_ext; [exact Hm|..]; intros a; [done..|]. split; [by left|].
      intros [?|(? & ? & [= <-] & H & _)]; [done|]. rewrite Hst in H. by injection H. }
  subst st. eapply ensures_bind; [apply ensures_or_err, ensures_total, ranges_total|]. intros o Hr. cbn beta.
  eapply ensures_bind; [apply ensures_ok_or|]. intros l ->. cbn beta. eapply ensures_weaken.
  - apply (soc_windows_ensures l m R V D); [|exact Hm]. apply Forall_forall. intros r Hin.
    by destruct (ranges_u64 soc l r (find_node_bytes _ _ _ Hf Es) Hr Hin) as (_ & ? & ?).
  - intros m' Hm'. eapply holds_ext; [exact Hm'|..]; intros a; [done..|]. split; [intros [?|?]; eauto 8|].
    intros [?|(? & l' & [= <-] & _ & Hl & ?)]; [by left|]. right. congruence.
Qed.

(** ** The whole map *)

(** The four arrays of a map, whatever they hold. *)
Definition map_shape (m : MemoryMap) : Prop :=
  exists rams rsv devs us, fl_rep MAX_RAM_REGIONS (ram m) rams /\
    fl_rep MAX_NORMALIZED_RESERVED_REGIONS (permanent_reserved m) rsv /\ fl_rep MAX_MMIO_REGIONS (mmio m) devs /\
    fl_rep MAX_USABLE_RAM_REGIONS (usable_ram m) us.

Lemma clear_holds m : map_shape m -> holds (MemoryMap_clear m) (fun _ => False) (fun _ => False) (fun _ => False).
Proof.
  intros (rams & rsv & devs & us & H1 & H2 & H3 & H4). exists [], [], [], [].
  split; [split; cbn; try done; by eapply fl_rep_clear|]. split_and!; intros a; apply covers_nil.
Qed.

(** The sets of addresses the device tree describes. *)
Definition map_of (fdt : Fdt) (dtb_address : Z) (tvisor_image : PhysRegion) (rams rsv devs : list PhysRegion) : Prop :=
  (forall a, covers rams a <-> described_ram fdt a \/ carved fdt a) /\
  (forall a, covers rsv a <-> carved fdt a \/ described_reserved fdt dtb_address tvisor_image a) /\
  (forall a, covers devs a <-> described_mmio fdt a).

Section Discovered.
Context (fdt : Fdt) (dtb_address : Z) (tvisor_image : PhysRegion) (destination : MemoryMap).
Hypotheses (Hfdt : fdt_bytes fdt) (Hdtb : u64 dtb_address) (Himage : region_ok tvisor_image) (Hshape : map_shape destination).

Lemma discover_memory_map_ensures :
  ensures (discover_memory_map fdt dtb_address tvisor_image destination)
    (fun m => exists m0 rams rsv devs us, map_wf m0 rams rsv devs us /\ finalize m0 = Ok m /\
       map_of fdt dtb_address tvisor_image rams rsv devs).
Proof using Type*.
  unfold discover_memory_map. cbv zeta.
  eapply ensures_bind; [exact (discover_ram_ensures fdt _ _ _ _ Hfdt (clear_holds _ Hshape))|]. intros m1 Hm1. cbn beta in Hm1 |- *.
  eapply ensures_bind; [exact (carveout_ensures fdt _ _ _ _ Hm1)|]. intros m2 Hm2. cbn beta zeta in Hm2 |- *.
  eapply ensures_bind; [exact (discover_reservations_ensures fdt dtb_address tvisor_image _ _ _ _ Hfdt Hdtb Himage Hm2)|].
  intros m3 Hm3. cbn beta in Hm3 |- *.
  eapply ensures_bind; [exact (discover_mmio_ensures fdt _ _ _ _ Hfdt Hm3)|].
  intros m4 (rams & rsv & devs & us & Hwf & HR & HV & HD). cbn beta. apply ensures_map_err.
  pose proof (finalize_effect m4 _ _ _ _ Hwf) as Hfin. destruct (finalize m4) as [m| |] eqn:Ef; cbn; [|done..].
  exists m4, rams, rsv, devs, us. split_and!; [done|done|]. unfold map_of, carved, above_low_ram in *.
  assert (Hlow : forall a, (exists e, 0 < e <= a /\ a < BCM2711_LOW_MEMORY_LIMIT /\ (forall x, 0 <= x < e -> False \/ described_ram fdt x) /\
      ~ (False \/ described_ram fdt e)) <->
    (exists e, 0 < e <= a /\ a < BCM2711_LOW_MEMORY_LIMIT /\ (forall x, 0 <= x < e -> described_ram fdt x) /\ ~ described_ram fdt e)).
  { intros a. split; intros (e & ? & ? & Hall & Hnot); exists e; (split_and!; [lia|lia|lia|..]); try tauto; intros x Hx;
      specialize (Hall x Hx); tauto. }
  split_and!; intros a; [rewrite HR, Hlow|rewrite HV, Hlow|rewrite HD]; tauto.
Qed.

(** [memory_map_discovered]: discovery of the memory map from a device tree of
    bytes never panics.  When it succeeds, RAM is exactly what enabled memory
    nodes describe together with the firmware's carve-out below 1 GiB, and
    reserved is exactly the reservation block, the fixed and the possible
    dynamic ranges of every enabled reserved-memory node, the carve-out, the
    pages of the live device tree and the hypervisor's image.  The usable
    regions cover exactly the RAM outside all of these, and no device window
    behind the bus overlaps RAM. *)
Lemma memory_map_discovered :
  match discover_memory_map fdt dtb_address tvisor_image destination with
  | Ok m => exists rams rsv devs us, map_wf m rams rsv devs us /\ canonical us /\
      map_of fdt dtb_address tvisor_image rams rsv devs /\
      (forall a, covers us a <-> (described_ram fdt a \/ carved fdt a) /\ ~ carved fdt a /\
                                  ~ described_reserved fdt dtb_address tvisor_image a) /\
      (forall a, described_mmio fdt a -> ~ described_ram fdt a /\ ~ covers us a)
  | Err _ => True
  | Panic => False
  end.
Proof using Type*.
  pose proof discover_memory_map_ensures as H. destruct (discover_memory_map _ _ _ _) as [m| |]; [|done..].
  destruct H as (m0 & rams & rsv & devs & us0 & Hwf & Hfin & Hof). pose proof (finalize_effect m0 _ _ _ _ Hwf) as Hf. rewrite Hfin in Hf.
  destruct Hf as (Hdis & us & Hwf' & Hcan & Hcov). exists rams, rsv, devs, us. split_and!; [done|done|done|..].
  - intros a. destruct Hof as (HR & HV & _). rewrite Hcov, HR, HV. tauto.
  - intros a Ha. destruct Hof as (HR & _ & HD). rewrite Hcov. specialize (Hdis a). rewrite HD, HR in Hdis. rewrite HR. tauto.
Qed.

(** C16 [discovered_pages_safe]: from the device tree to the page allocator.  After
    discovery of the memory map and initialisation of the allocator over it,
    whatever sequence of allocations and frees runs, every byte of every page
    handed out is described by an enabled memory node, and lies outside the
    firmware's carve-out, every reservation the device tree makes or may make,
    the live device tree, the hypervisor's image and every device window. *)
Theorem discovered_pages_safe B leftover mem m live_dtb g rams ops :
  (0 < B)%nat -> aperture_end B < 2 ^ 64 ->
  discover_memory_map fdt dtb_address tvisor_image destination = Ok m ->
  fl_rep MAX_RAM_REGIONS (ram m) rams -> ram_in_aperture B rams -> region_ok live_dtb ->
  length (bits (g_managed g)) = B -> length (bits (g_in_use g)) = B -> Forall op_ok ops ->
  match initialize_allocator_after_takeover B leftover mem m live_dtb g with
  | (Ok _, g1) => forall runs g2, mm_run B ops g1 = (runs, g2) ->
      forall pa n x, (pa, n) ∈ runs -> pa <= x < pa + Z.of_nat n * PAGE_SIZE ->
        described_ram fdt x /\ ~ carved fdt x /\ ~ described_reserved fdt dtb_address tvisor_image x /\
        ~ described_mmio fdt x /\ ~ in_region live_dtb x
  | (Err _, g1) => g_initialized g1 = g_initialized g
  | (Panic, _) => exists r, r ∈ rams /\ within_page r
  end.
Proof using Type*.
  intros HB0 HB Hd Hrep Hap Hlive Hl1 Hl2 Hops. pose proof discover_memory_map_ensures as H. rewrite Hd in H.
  destruct H as (m0 & rams' & rsv & devs & us0 & Hwf & Hfin & HR & HV & HD).
  pose proof (finalize_effect m0 _ _ _ _ Hwf) as Hf. rewrite Hfin in Hf. destruct Hf as (Hdis & us & Hwf' & _ & _).
  assert (rams' = rams) as ->.
  { pose proof (iter_refines (E:=unit) _ _ _ (wf_ram _ _ _ _ _ Hwf')) as E1. rewrite (iter_refines _ _ _ Hrep) in E1. by injection E1. }
  pose proof (takeover_pages_safe B HB0 HB leftover mem m0 m rams rsv devs us0 live_dtb g Hwf Hfin Hap Hlive Hl1 Hl2) as Hs.
  destruct (initialize_allocator_after_takeover B leftover mem m live_dtb g) as [[res|e|] g1]; [|done..].
  destruct Hs as [_ Hs]. intros runs g2 Hrun pa n x Hin Hx. destruct (Hs ops runs g2 Hops Hrun) as [_ Hall].
  destruct (Hall pa n x Hin Hx) as (Hram & Hrsv & Hdt). specialize (Hdis x). rewrite HD in Hdis. rewrite HV in Hrsv.
  apply HR in Hram as Hram'. tauto.
Qed.

End Discovered.

(** ** Concrete instances *)

(** 256 KiB of RAM, firmware in its first page, one fixed and one dynamic
    reservation, and a bus. *)
Definition small_board : Fdt :=
  mkFdt (mkNode [] []
    [mkNode (b"memory@0") [mkProp (b"device_type") (b"memory" ++ [0]); mkProp (b"reg") (to_be_bytes 8 0 ++ to_be_bytes 4 0x40000)] [];
     mkNode (b"reserved-memory") []
       [mkNode (b"vc@8000") [mkProp (b"reg") (to_be_bytes 8 0x8000 ++ to_be_bytes 4 0x1000); mkProp (b"no-map") []] [];
        mkNode (b"cma") [mkProp (b"size") (to_be_bytes 4 0x1000); mkProp (b"reusable") [];
                         mkProp (b"alloc-ranges") (to_be_bytes 8 0xa000 ++ to_be_bytes 4 0x2000)] []];
     mkNode (b"soc") [mkProp (b"#address-cells") (to_be_bytes 4 1); mkProp (b"#size-cells") (to_be_bytes 4 1);
                      mkProp (b"ranges") (to_be_bytes 4 0x7e000000 ++ to_be_bytes 8 0xfe000000 ++ to_be_bytes 4 0x01800000)] []])
    [(0, 0x1000)] 0x100.

Definition small_image : PhysRegion := mkRegion 0x4000 0x2000.

Lemma small_board_bytes : fdt_bytes small_board.
Proof. split; [bytes_tree|constructor; [|constructor]|]; unfold u64; cbn; lia. Qed.

Lemma empty_shape : map_shape MemoryMap_empty.
Proof. exists [], [], [], []. split_and!; apply fl_rep_new. Qed.

Definition small_map : MemoryMap :=
  match discover_memory_map small_board 0x2000 small_image MemoryMap_empty with Ok m => m | _ => MemoryMap_empty end.

Definition small_taken_over : outcome AllocatorInitError AllocatorInitResult * GlobalPageAllocator :=
  initialize_allocator_after_takeover 8 (PageBitmap_zeroed 8, PageBitmap_zeroed 8) dtb_memory small_map
    (mkRegion 0x2000 0x100) (GlobalPageAllocator_new 8).

Lemma discovered_pages_safe_witness :
  (exists res, fst small_taken_over = Ok res) /\
  fst (mm_run 8 [OpAllocatePage; OpAllocate 2] (snd small_taken_over)) = [(0x1000, 1%nat); (0x6000, 2%nat)] /\
  described_ram small_board 0x1abc.
Proof.
  assert (Hd : discover_memory_map small_board 0x2000 small_image MemoryMap_empty = Ok small_map) by (vm_compute; reflexivity).
  assert (Hrep : fl_rep MAX_RAM_REGIONS (ram small_map) [mkRegion 0 0x40000]) by (split_and!; vm_compute; (reflexivity || lia)).
  assert (Hap : ram_in_aperture 8 [mkRegion 0 0x40000]) by (right; constructor; [vm_compute; discriminate|constructor]).
  assert (Hb : aperture_end 8 < 2 ^ 64) by (vm_compute; reflexivity).
  pose proof (discovered_pages_safe small_board 0x2000 small_image MemoryMap_empty small_board_bytes
    ltac:(unfold u64; lia) ltac:(unfold region_ok, rend; cbn; lia) empty_shape 8 (PageBitmap_zeroed 8, PageBitmap_zeroed 8)
    dtb_memory small_map (mkRegion 0x2000 0x100) (GlobalPageAllocator_new 8) [mkRegion 0 0x40000] [OpAllocatePage; OpAllocate 2]
    ltac:(lia) Hb Hd Hrep Hap ltac:(unfold region_ok, rend; cbn; lia) eq_refl eq_refl
    ltac:(constructor; [exact I|constructor; [exact I|constructor]])) as H.
  fold small_taken_over in H. assert (Ho : exists res, fst small_taken_over = Ok res) by (eexists; vm_compute; reflexivity).
  assert (Hr : fst (mm_run 8 [OpAllocatePage; OpAllocate 2] (snd small_taken_over)) = [(0x1000, 1%nat); (0x6000, 2%nat)])
    by (vm_compute; reflexivity).
  split; [exact Ho|]. split; [exact Hr|]. destruct small_taken_over as [r g1]. cbn [fst snd] in *. destruct Ho as [res ->].
  destruct (mm_run 8 [OpAllocatePage; OpAllocate 2] g1) as [runs g2] eqn:Er. cbn [fst] in Hr. subst runs.
  apply (H _ _ eq_refl 0x1000 1%nat 0x1abc); [by left|unfold PAGE_SIZE; lia].
Defined.
