(* ===== verification/GuestFdt.v ===== *)
(** * The guest's device tree: src/tvisor_util/guest_fdt.rs

    The tree that describes the virtual platform to the guest, built with the
    mutable model of src/third_party/dtoolkit/src/model and written by [Dtb].
    The model keeps properties and children in [IndexMap]s of the indexmap
    crate, which is a parameter here: a class with the operations the model
    uses and their documented effect on the order of the entries.  The theorem
    reads the written blob back with the hypervisor's own readers and finds
    exactly the configured memory, interrupt controller and console. *)

From S2P Require Import Prelude DeviceTree Dtb BootArgs SystemInfo Discovery Platform.

(** ** Insertion-ordered maps *)

(** [IndexMap::insert]: the value of a key that is present is replaced in
    place, a new key is last in order. *)
Fixpoint insert_entry {V} (k : str) (v : V) (l : list (str * V)) : list (str * V) :=
  match l with
  | [] => [(k, v)]
  | (k', v') :: rest => if str_eqb k' k then (k', v) :: rest else (k', v') :: insert_entry k v rest
  end.

Class IndexMap (M : Type -> Type) := {
  with_hasher {V} : M V;
  im_insert {V} : str -> V -> M V -> M V;
  im_entries {V} : M V -> list (str * V);
  im_entries_new {V} : im_entries (with_hasher (V := V)) = [];
  im_entries_insert {V} k (v : V) m : im_entries (im_insert k v m) = insert_entry k v (im_entries m)
}.

(** ** The mutable model: model/node.rs, model/property.rs *)

Section Model.
Context {M : Type -> Type} `{IndexMap M}.

Definition values {V} (m : M V) : list V := map snd (im_entries m).

(** A child is moved into its parent, which keeps what iteration shows of it. *)
Record DeviceTreeNode := mkModelNode { dn_name : str; dn_properties : M FdtProperty; dn_children : M dt_node }.

Definition new_unchecked (name : str) : DeviceTreeNode := mkModelNode name with_hasher with_hasher.

(** What [name], [properties] and [children] show. *)
Definition view (n : DeviceTreeNode) : dt_node := mkNode (dn_name n) (values (dn_properties n)) (values (dn_children n)).

Definition add_property (n : DeviceTreeNode) (p : FdtProperty) : DeviceTreeNode :=
  mkModelNode (dn_name n) (im_insert (p_name p) p (dn_properties n)) (dn_children n).

Definition add_child (n c : DeviceTreeNode) : DeviceTreeNode :=
  mkModelNode (dn_name n) (dn_properties n) (im_insert (dn_name c) (view c) (dn_children n)).

(** ** Configuration *)

Inductive GuestFdtError := BufferTooSmall | InvalidConfiguration | NameTooLong | PropertyTooLarge.

Record GuestMemoryRegion := mkGuestRegion { gm_base : Z; gm_size : Z }.
Record GuestPl011 := mkGuestPl011 { pl_base : Z; pl_size : Z; clock_hz : Z; interrupt : Z }.
Record GuestGicV2 := mkGuestGicV2
  { distributor_base : Z; distributor_size : Z; cpu_interface_base : Z; cpu_interface_size : Z }.

Record GuestFdtConfig := mkGuestFdt
  { memory_regions : list GuestMemoryRegion; bootargs : option str; gf_pl011 : option GuestPl011; gicv2 : option GuestGicV2 }.

Definition GIC_PHANDLE : Z := 2.
Definition GIC_SPI_BASE : Z := 32.
Definition MAX_GUEST_MEMORY_REGIONS : nat := 4.
Definition PL011_CLOCK_PHANDLE : Z := 1.

Definition fdt_property (name : str) (value : list Z) : FdtProperty := mkProp name value.

Definition string_value (value : str) : list Z := value ++ [0].
Definition string_list_value (l : list str) : list Z := concat (map (fun value => value ++ [0]) l).

(** [x & 0xfff != 0] *)
Definition unaligned (x : Z) : bool := negb (Z.land x 0xfff =? 0).

(** [base.checked_add(size).is_none()] *)
Definition overflows (base size : Z) : bool := 2 ^ 64 <=? base + size.

Definition bad_region (r : GuestMemoryRegion) : bool :=
  (gm_size r =? 0) || unaligned (gm_size r) || unaligned (gm_base r) || overflows (gm_base r) (gm_size r).

Definition is_some {A} (o : option A) : bool := match o with Some _ => true | None => false end.

Definition bad_pl011 (config : GuestFdtConfig) (u : GuestPl011) : bool :=
  (pl_size u =? 0) || unaligned (pl_base u) || unaligned (pl_size u) || overflows (pl_base u) (pl_size u)
  || (clock_hz u =? 0) || (is_some (gicv2 config) && (interrupt u <? GIC_SPI_BASE)).

Definition bad_gic (gic : GuestGicV2) : bool :=
  (distributor_size gic =? 0) || (cpu_interface_size gic =? 0) || unaligned (distributor_base gic)
  || unaligned (cpu_interface_base gic) || overflows (distributor_base gic) (distributor_size gic)
  || overflows (cpu_interface_base gic) (cpu_interface_size gic).

Definition validate_config (config : GuestFdtConfig) : outcome GuestFdtError unit :=
  reject (length (memory_regions config) =? 0)%nat || (MAX_GUEST_MEMORY_REGIONS <? length (memory_regions config))%nat
    with InvalidConfiguration in
  let? _ := try_each (fun r => reject bad_region r with InvalidConfiguration in Ok ()) (memory_regions config) in
  reject match gf_pl011 config with Some u => bad_pl011 config u | None => false end with InvalidConfiguration in
  reject match gicv2 config with Some gic => bad_gic gic | None => false end with InvalidConfiguration in
  reject match bootargs config with Some s => (128 <=? length s)%nat | None => false end with PropertyTooLarge in
  Ok ().

(** ** The tree *)

(** [format!("{:x}", n)] *)
Definition lower_hex (n : Z) : str := to_hex (Z.to_nat (if n =? 0 then 1 else Z.log2 n / 4 + 1)) n.

Definition add_properties (n : DeviceTreeNode) (l : list FdtProperty) : DeviceTreeNode := fold_left add_property l n.

Definition reg_value (l : list (Z * Z)) : list Z := concat (map (fun '(base, size) => to_be_bytes 8 base ++ to_be_bytes 8 size) l).

(** The loops that fill [interrupts]: type, number and flags of each. *)
Definition interrupts_value (kind : Z) (l : list Z) : list Z :=
  concat (map (fun n => to_be_bytes 4 kind ++ to_be_bytes 4 n ++ to_be_bytes 4 4) l).

Definition root_tree : DeviceTreeNode :=
  add_properties (new_unchecked [])
    [fdt_property (b"#address-cells") (to_be_bytes 4 2); fdt_property (b"#size-cells") (to_be_bytes 4 2);
     fdt_property (b"model") (string_value (b"tvisor-virt-v1"));
     fdt_property (b"compatible") (string_list_value [b"tvisor,virt"; b"linux,dummy-virt"])].

Definition chosen_tree (config : GuestFdtConfig) : DeviceTreeNode :=
  let chosen := new_unchecked (b"chosen") in
  let chosen := match gf_pl011 config with
                | Some u => add_property chosen (fdt_property (b"stdout-path") (string_value (b"serial@" ++ lower_hex (pl_base u))))
                | None => chosen
                end in
  match bootargs config with
  | Some s => add_property chosen (fdt_property (b"bootargs") (string_value s))
  | None => chosen
  end.

Definition cpus_tree : DeviceTreeNode :=
  let cpu := add_properties (new_unchecked (b"cpu@0"))
    [fdt_property (b"device_type") (string_value (b"cpu")); fdt_property (b"compatible") (string_value (b"arm,cortex-a72"));
     fdt_property (b"reg") (to_be_bytes 4 0)] in
  let cpus := add_properties (new_unchecked (b"cpus"))
    [fdt_property (b"#address-cells") (to_be_bytes 4 1); fdt_property (b"#size-cells") (to_be_bytes 4 0)] in
  add_child cpus cpu.

(** [config.memory_regions[0]] panics on an empty slice. *)
Definition memory_tree (config : GuestFdtConfig) : outcome unit DeviceTreeNode :=
  match memory_regions config with
  | [] => Panic
  | primary :: _ =>
      Ok (add_properties (new_unchecked (b"memory@" ++ lower_hex (gm_base primary)))
            [fdt_property (b"device_type") (string_value (b"memory"));
             fdt_property (b"reg") (reg_value (map (fun r => (gm_base r, gm_size r)) (memory_regions config)))])
  end.

Definition gic_tree (gic : GuestGicV2) : DeviceTreeNode :=
  add_properties (new_unchecked (b"intc@" ++ lower_hex (distributor_base gic)))
    [fdt_property (b"compatible") (string_value (b"arm,cortex-a15-gic"));
     fdt_property (b"#interrupt-cells") (to_be_bytes 4 3); fdt_property (b"interrupt-controller") [];
     fdt_property (b"phandle") (to_be_bytes 4 GIC_PHANDLE);
     fdt_property (b"reg") (reg_value [(distributor_base gic, distributor_size gic); (cpu_interface_base gic, cpu_interface_size gic)])].

Definition timer_tree : DeviceTreeNode :=
  add_properties (new_unchecked (b"timer"))
    [fdt_property (b"compatible") (string_value (b"arm,armv8-timer"));
     fdt_property (b"interrupt-parent") (to_be_bytes 4 GIC_PHANDLE);
     fdt_property (b"interrupts") (interrupts_value 1 [13; 14; 11; 10])].

Definition clock_tree (u : GuestPl011) : DeviceTreeNode :=
  add_properties (new_unchecked (b"clk24mhz"))
    [fdt_property (b"compatible") (string_value (b"fixed-clock")); fdt_property (b"#clock-cells") (to_be_bytes 4 0);
     fdt_property (b"clock-frequency") (to_be_bytes 4 (clock_hz u)); fdt_property (b"phandle") (to_be_bytes 4 PL011_CLOCK_PHANDLE)].

(** The subtraction [pl011.interrupt - GIC_SPI_BASE] panics below zero. *)
Definition uart_tree (config : GuestFdtConfig) (u : GuestPl011) : outcome unit DeviceTreeNode :=
  let uart := add_properties (new_unchecked (b"serial@" ++ lower_hex (pl_base u)))
    [fdt_property (b"compatible") (string_list_value [b"arm,pl011"; b"arm,primecell"]);
     fdt_property (b"reg") (reg_value [(pl_base u, pl_size u)]);
     fdt_property (b"clocks") (to_be_bytes 4 PL011_CLOCK_PHANDLE ++ to_be_bytes 4 PL011_CLOCK_PHANDLE);
     fdt_property (b"clock-names") (string_list_value [b"uartclk"; b"apb_pclk"])] in
  let? uart :=
    if is_some (gicv2 config) then
      if interrupt u <? GIC_SPI_BASE then Panic
      else Ok (add_properties uart
                 [fdt_property (b"interrupt-parent") (to_be_bytes 4 GIC_PHANDLE);
                  fdt_property (b"interrupts") (interrupts_value 0 [interrupt u - GIC_SPI_BASE])])
    else Ok uart in
  Ok (add_property uart (fdt_property (b"status") (string_value (b"okay")))).

Definition build_tree (config : GuestFdtConfig) : outcome unit DeviceTree :=
  let root := add_child root_tree (chosen_tree config) in
  let root := add_child root cpus_tree in
  let? memory := memory_tree config in
  let root := add_child root memory in
  let root := match gicv2 config with
              | Some gic => add_child (add_child root (gic_tree gic)) timer_tree
              | None => root
              end in
  let? root := match gf_pl011 config with
               | Some u => let? uart := uart_tree config u in Ok (add_child (add_child root (clock_tree u)) uart)
               | None => Ok root
               end in
  Ok (mkDeviceTree (view root) []).

(** The number of bytes written, and the buffer afterwards. *)
Definition build_guest_dtb (buffer : list Z) (config : GuestFdtConfig) : outcome GuestFdtError nat * list Z :=
  match validate_config config with
  | Ok _ =>
      match (let? tree := build_tree config in to_dtb tree) with
      | Ok dtb =>
          if (length buffer <? length dtb)%nat then (Err BufferTooSmall, buffer)
          else (Ok (length dtb), dtb ++ drop (length dtb) buffer)
      | _ => (Panic, buffer)
      end
  | Err e => (Err e, buffer)
  | Panic => (Panic, buffer)
  end.

(** ** The tree, written out *)

Lemma insert_entry_last {V} k (v : V) l : k ∉ l.*1 -> insert_entry k v l = l ++ [(k, v)].
Proof.
  induction l as [|[k' v'] l IH]; cbn [insert_entry fmap list_fmap fst]; [done|]. rewrite not_elem_of_cons. intros [Hne Hk].
  unfold str_eqb. rewrite bool_decide_eq_false_2 by congruence. cbn [app]. by rewrite IH.
Qed.

Lemma entries_insert_all {V} (l : list (str * V)) m :
  NoDup (im_entries m ++ l).*1 ->
  im_entries (fold_left (fun m e => im_insert (fst e) (snd e) m) l m) = im_entries m ++ l.
Proof.
  revert m. induction l as [|[k v] l IH]; intros m Hd; cbn [fold_left fst snd]; [by rewrite app_nil_r|].
  assert (Hk : im_entries (im_insert k v m) = im_entries m ++ [(k, v)]).
  { rewrite im_entries_insert. apply insert_entry_last. rewrite fmap_app in Hd. apply NoDup_app in Hd as (_ & Hd & _).
    intros Hin. apply (Hd k Hin). by left. }
  rewrite IH; rewrite Hk, <- app_assoc; [done|exact Hd].
Qed.

Definition named (l : list FdtProperty) : list (str * FdtProperty) := map (fun p => (p_name p, p)) l.

Lemma add_properties_parts l n :
  dn_name (add_properties n l) = dn_name n /\ dn_children (add_properties n l) = dn_children n /\
  dn_properties (add_properties n l) = fold_left (fun m e => im_insert (fst e) (snd e) m) (named l) (dn_properties n).
Proof. revert n. induction l as [|p l IH]; intros n; [done|]. exact (IH (add_property n p)). Qed.

Lemma add_children_parts l n :
  dn_name (fold_left add_child l n) = dn_name n /\ dn_properties (fold_left add_child l n) = dn_properties n /\
  dn_children (fold_left add_child l n) =
    fold_left (fun m e => im_insert (fst e) (snd e) m) (map (fun c => (dn_name c, view c)) l) (dn_children n).
Proof. revert n. induction l as [|c l IH]; intros n; [done|]. exact (IH (add_child n c)). Qed.

(** The node with a list of properties, in order. *)
Lemma view_node name props l :
  NoDup (map p_name props) -> NoDup (map dn_name l) ->
  view (fold_left add_child l (add_properties (new_unchecked name) props)) = mkNode name props (map view l).
Proof.
  intros Hp Hl. unfold view. destruct (add_children_parts l (add_properties (new_unchecked name) props)) as (-> & -> & ->).
  destruct (add_properties_parts props (new_unchecked name)) as (-> & -> & ->). unfold values. cbn [new_unchecked dn_name dn_properties dn_children].
  rewrite !entries_insert_all; rewrite !im_entries_new; cbn [app].
  - f_equal; [unfold named|]; rewrite map_map; [apply map_id|done].
  - change (NoDup (map fst (map (fun c => (dn_name c, view c)) l))). by rewrite map_map.
  - change (NoDup (map fst (named props))). unfold named. by rewrite map_map.
Qed.

Ltac distinct_names := repeat (apply NoDup_cons; split; [rewrite ?not_elem_of_cons; repeat split; try discriminate; apply not_elem_of_nil|]); apply NoDup_nil; done.

(** A node without children. *)
Lemma view_leaf name props : NoDup (map p_name props) -> view (add_properties (new_unchecked name) props) = mkNode name props [].
Proof. intros Hp. apply (view_node name props []); [done|apply NoDup_nil; done]. Qed.

Ltac leaf_view := etransitivity; [apply view_leaf; cbn [map p_name fdt_property app]; distinct_names|reflexivity].

Definition root_props : list FdtProperty :=
  [mkProp (b"#address-cells") (to_be_bytes 4 2); mkProp (b"#size-cells") (to_be_bytes 4 2);
   mkProp (b"model") (string_value (b"tvisor-virt-v1"));
   mkProp (b"compatible") (string_list_value [b"tvisor,virt"; b"linux,dummy-virt"])].

Definition chosen_props (config : GuestFdtConfig) : list FdtProperty :=
  match gf_pl011 config with
  | Some u => [mkProp (b"stdout-path") (string_value (b"serial@" ++ lower_hex (pl_base u)))]
  | None => []
  end ++
  match bootargs config with Some s => [mkProp (b"bootargs") (string_value s)] | None => [] end.

Lemma chosen_view config : view (chosen_tree config) = mkNode (b"chosen") (chosen_props config) [].
Proof.
  etransitivity; [|apply (view_node (b"chosen") (chosen_props config) []); [unfold chosen_props|apply NoDup_nil; done]].
  - unfold chosen_tree, chosen_props. by destruct (gf_pl011 config), (bootargs config).
  - destruct (gf_pl011 config), (bootargs config); cbn [app map p_name]; distinct_names.
Qed.

Definition cpus_node : dt_node :=
  mkNode (b"cpus") [mkProp (b"#address-cells") (to_be_bytes 4 1); mkProp (b"#size-cells") (to_be_bytes 4 0)]
    [mkNode (b"cpu@0") [mkProp (b"device_type") (string_value (b"cpu")); mkProp (b"compatible") (string_value (b"arm,cortex-a72"));
       mkProp (b"reg") (to_be_bytes 4 0)] []].

Lemma cpus_view : view cpus_tree = cpus_node.
Proof.
  unfold cpus_tree, cpus_node. set (cpu := add_properties (new_unchecked (b"cpu@0")) _).
  etransitivity; [apply (view_node (b"cpus") _ [cpu]); cbn [map p_name fdt_property]; distinct_names|]. cbn [map]. do 2 f_equal.
  unfold cpu. leaf_view.
Qed.

Definition memory_node (config : GuestFdtConfig) (primary : GuestMemoryRegion) : dt_node :=
  mkNode (b"memory@" ++ lower_hex (gm_base primary))
    [mkProp (b"device_type") (string_value (b"memory"));
     mkProp (b"reg") (reg_value (map (fun r => (gm_base r, gm_size r)) (memory_regions config)))] [].

Definition gic_node (gic : GuestGicV2) : dt_node :=
  mkNode (b"intc@" ++ lower_hex (distributor_base gic))
    [mkProp (b"compatible") (string_value (b"arm,cortex-a15-gic")); mkProp (b"#interrupt-cells") (to_be_bytes 4 3);
     mkProp (b"interrupt-controller") []; mkProp (b"phandle") (to_be_bytes 4 GIC_PHANDLE);
     mkProp (b"reg") (reg_value [(distributor_base gic, distributor_size gic); (cpu_interface_base gic, cpu_interface_size gic)])] [].

Definition timer_node : dt_node :=
  mkNode (b"timer")
    [mkProp (b"compatible") (string_value (b"arm,armv8-timer")); mkProp (b"interrupt-parent") (to_be_bytes 4 GIC_PHANDLE);
     mkProp (b"interrupts") (interrupts_value 1 [13; 14; 11; 10])] [].

Definition clock_node (u : GuestPl011) : dt_node :=
  mkNode (b"clk24mhz")
    [mkProp (b"compatible") (string_value (b"fixed-clock")); mkProp (b"#clock-cells") (to_be_bytes 4 0);
     mkProp (b"clock-frequency") (to_be_bytes 4 (clock_hz u)); mkProp (b"phandle") (to_be_bytes 4 PL011_CLOCK_PHANDLE)] [].

Definition uart_node (config : GuestFdtConfig) (u : GuestPl011) : dt_node :=
  mkNode (b"serial@" ++ lower_hex (pl_base u))
    ([mkProp (b"compatible") (string_list_value [b"arm,pl011"; b"arm,primecell"]);
      mkProp (b"reg") (reg_value [(pl_base u, pl_size u)]);
      mkProp (b"clocks") (to_be_bytes 4 PL011_CLOCK_PHANDLE ++ to_be_bytes 4 PL011_CLOCK_PHANDLE);
      mkProp (b"clock-names") (string_list_value [b"uartclk"; b"apb_pclk"])] ++
     (if is_some (gicv2 config) then
        [mkProp (b"interrupt-parent") (to_be_bytes 4 GIC_PHANDLE);
         mkProp (b"interrupts") (interrupts_value 0 [interrupt u - GIC_SPI_BASE])]
      else []) ++
     [mkProp (b"status") (string_value (b"okay"))]) [].

Definition guest_root (config : GuestFdtConfig) (primary : GuestMemoryRegion) : dt_node :=
  mkNode [] root_props
    ([mkNode (b"chosen") (chosen_props config) []; cpus_node; memory_node config primary] ++
     match gicv2 config with Some gic => [gic_node gic; timer_node] | None => [] end ++
     match gf_pl011 config with Some u => [clock_node u; uart_node config u] | None => [] end).

Lemma add_properties_app n l k : add_properties (add_properties n l) k = add_properties n (l ++ k).
Proof. unfold add_properties. by rewrite fold_left_app. Qed.

Lemma uart_tree_view config u :
  (is_some (gicv2 config) = true -> 32 <= interrupt u) ->
  exists t, uart_tree config u = Ok t /\ dn_name t = b"serial@" ++ lower_hex (pl_base u) /\ view t = uart_node config u.
Proof.
  intros Hi. unfold uart_tree, uart_node, GIC_SPI_BASE. destruct (is_some (gicv2 config)); cbn [app].
  - rewrite (proj2 (Z.ltb_ge _ _)) by (by apply Hi). cbn [obind]. eexists. split_and!; [done|done|].
    change (add_property ?n ?p) with (add_properties n [p]). rewrite !add_properties_app. leaf_view.
  - cbn [obind]. eexists. split_and!; [done|done|].
    change (add_property ?n ?p) with (add_properties n [p]). rewrite !add_properties_app. leaf_view.
Qed.

Lemma build_tree_view config primary rest :
  memory_regions config = primary :: rest ->
  (forall u, gf_pl011 config = Some u -> is_some (gicv2 config) = true -> 32 <= interrupt u) ->
  build_tree config = Ok (mkDeviceTree (guest_root config primary) []).
Proof.
  intros Hm Hi. unfold build_tree, memory_tree. rewrite Hm. cbn [obind].
  set (memory := add_properties (new_unchecked (b"memory@" ++ _)) _).
  assert (Hmem : view memory = memory_node config primary).
  { unfold memory, memory_node. rewrite Hm. leaf_view. }
  assert (Hname : dn_name (chosen_tree config) = b"chosen").
  { unfold chosen_tree. by destruct (gf_pl011 config), (bootargs config). }
  assert (Hgic : forall gic, view (gic_tree gic) = gic_node gic) by (intros gic; unfold gic_tree; leaf_view).
  assert (Htimer : view timer_tree = timer_node) by (unfold timer_tree; leaf_view).
  assert (Hclock : forall u, view (clock_tree u) = clock_node u) by (intros u; unfold clock_tree; leaf_view).
  unfold guest_root. destruct (gf_pl011 config) as [u|] eqn:Eu.
  - destruct (uart_tree_view config u (Hi u eq_refl)) as (uart & -> & Hun & Huv). cbn [obind]. do 2 f_equal.
    destruct (gicv2 config) as [gic|] eqn:Eg; cbn [app].
    + etransitivity; [apply (view_node [] _ [chosen_tree config; cpus_tree; memory; gic_tree gic; timer_tree; clock_tree u; uart])|].
      * cbn [map p_name fdt_property]. distinct_names.
      * cbn [map]. rewrite Hname, Hun. distinct_names.
      * cbn [map]. by rewrite chosen_view, cpus_view, Hmem, Hgic, Htimer, Hclock, Huv.
    + etransitivity; [apply (view_node [] _ [chosen_tree config; cpus_tree; memory; clock_tree u; uart])|].
      * cbn [map p_name fdt_property]. distinct_names.
      * cbn [map]. rewrite Hname, Hun. distinct_names.
      * cbn [map]. by rewrite chosen_view, cpus_view, Hmem, Hclock, Huv.
  - cbn [obind]. do 2 f_equal. destruct (gicv2 config) as [gic|]; cbn [app].
    + etransitivity; [apply (view_node [] _ [chosen_tree config; cpus_tree; memory; gic_tree gic; timer_tree])|].
      * cbn [map p_name fdt_property]. distinct_names.
      * cbn [map]. rewrite Hname. distinct_names.
      * cbn [map]. by rewrite chosen_view, cpus_view, Hmem, Hgic, Htimer.
    + etransitivity; [apply (view_node [] _ [chosen_tree config; cpus_tree; memory])|].
      * cbn [map p_name fdt_property]. distinct_names.
      * cbn [map]. rewrite Hname. distinct_names.
      * cbn [map]. by rewrite chosen_view, cpus_view, Hmem.
Qed.

End Model.

(** ** Names with an address *)

Lemma split_on_none sep s : sep ∉ s -> split_on sep s = [s].
Proof.
  induction s as [|c s IH]; [done|]. rewrite not_elem_of_cons. intros [Hne Hs]. cbn [split_on].
  destruct (Z.eqb_spec c sep); [by subst|]. by rewrite IH.
Qed.

Lemma split_on_sep sep w s : sep ∉ w -> split_on sep (w ++ sep :: s) = w :: split_on sep s.
Proof.
  induction w as [|c w IH]; cbn [app split_on]; [intros _; by rewrite Z.eqb_refl|]. rewrite not_elem_of_cons. intros [Hne Hw].
  destruct (Z.eqb_spec c sep); [by subst|]. by rewrite IH.
Qed.

Lemma hex_digit_valid c : is_Some (hex_digit c) -> is_valid_node_char c = true /\ c <> 64 /\ c <> 47 /\ c <> 58.
Proof.
  intros [d Hd]. unfold hex_digit in Hd. unfold is_valid_node_char, is_ascii_alphanumeric, cont.
  rewrite !orb_true_iff, !andb_true_iff, !Z.leb_le.
  assert (48 <= c <= 57 \/ 65 <= c <= 90 \/ 97 <= c <= 122) by (repeat case_match; simplify_eq; lia). split; [tauto|lia].
Qed.

Lemma lower_hex_chars n : 0 <= n -> Forall (fun c => is_valid_node_char c = true /\ c <> 64 /\ c <> 47 /\ c <> 58) (lower_hex n).
Proof. intros Hn. eapply Forall_impl; [by apply to_hex_digits|]. apply hex_digit_valid. Qed.

Lemma length_to_hex k n : length (to_hex k n) = k.
Proof. revert n. induction k as [|k IH]; intros n; cbn [to_hex]; [done|]. rewrite length_app, IH. cbn [length]. lia. Qed.

Lemma lower_hex_length n : u64 n -> (0 < length (lower_hex n) <= 16)%nat.
Proof.
  intros [Hn0 Hn]. unfold lower_hex. rewrite length_to_hex. destruct (Z.eqb_spec n 0); [cbn; lia|].
  assert (Z.log2 n < 64) by (apply Z.log2_lt_pow2; lia). pose proof (Z.log2_nonneg n).
  assert (0 <= Z.log2 n / 4 <= 15) by (split; [apply Z.div_pos; lia|]; enough (Z.log2 n / 4 < 16) by lia; apply Z.div_lt_upper_bound; lia). lia.
Qed.

Lemma lower_hex_free c n : 0 <= n -> c = 64 \/ c = 47 \/ c = 58 -> c ∉ lower_hex n.
Proof. intros Hn Hc Hin. pose proof (lower_hex_chars n Hn) as H. rewrite Forall_forall in H. apply H in Hin. intuition. Qed.

Lemma addressed_name_valid w n :
  u64 n -> w <> [] -> (length w <= 31)%nat -> forallb is_valid_node_char w = true ->
  is_valid_node_name (w ++ 64 :: lower_hex n) = true.
Proof.
  intros Hn Hne Hl Hc. assert (Hw : 64 ∉ w).
  { intros Hin%list_elem_of_In. rewrite forallb_forall in Hc. discriminate (Hc _ Hin). }
  pose proof (lower_hex_length n Hn). destruct Hn as [Hn0 _]. unfold is_valid_node_name.
  rewrite split_on_sep, split_on_none by (done || (apply lower_hex_free; [done|lia])).
  destruct w as [|c w]; [done|]. cbn [app]. unfold str_eqb. rewrite bool_decide_eq_false_2 by done.
  rewrite (proj2 (Nat.leb_le _ _) Hl), Hc. rewrite bool_decide_eq_false_2 by (intros E; rewrite E in *; cbn in *; lia). cbn [negb andb].
  apply forallb_forall. intros x Hx%list_elem_of_In. pose proof (lower_hex_chars n Hn0) as H'. rewrite Forall_forall in H'. by apply H'.
Qed.

(** ** Register values *)

(** The two cells of a 64-bit value. *)
Definition cells_of (n : Z) : list Z := [n / 2 ^ 32; n mod 2 ^ 32].

Lemma cells_of_bytes a s :
  u64 a -> u64 s -> map from_be_bytes (chunks_exact 4 (to_be_bytes 8 a ++ to_be_bytes 8 s)) = cells_of a ++ cells_of s.
Proof.
  intros Ha Hs. unfold u64 in *. change 8%nat with (4 + 4)%nat. rewrite (to_be_bytes_split 4 4 a), (to_be_bytes_split 4 4 s). change (256 ^ Z.of_nat 4) with (2 ^ 32).
  replace ((to_be_bytes 4 (a / 2 ^ 32) ++ to_be_bytes 4 a) ++ to_be_bytes 4 (s / 2 ^ 32) ++ to_be_bytes 4 s)
    with (concat (map (to_be_bytes 4) [a / 2 ^ 32; a; s / 2 ^ 32; s])) by (cbn [map concat]; by rewrite app_nil_r, <- app_assoc).
  unfold chunks_exact. rewrite chunks_concat; [|lia| |done].
  - cbn [map]. rewrite !from_be_to_be. change (256 ^ Z.of_nat 4) with (2 ^ 32). unfold cells_of. cbn [app].
    assert (0 <= a / 2 ^ 32 < 2 ^ 32) by (split; [apply Z.div_pos; lia|apply Z.div_lt_upper_bound; lia]).
    assert (0 <= s / 2 ^ 32 < 2 ^ 32) by (split; [apply Z.div_pos; lia|apply Z.div_lt_upper_bound; lia]).
    by rewrite (Z.mod_small (a / 2 ^ 32)), (Z.mod_small (s / 2 ^ 32)).
  - apply Forall_map, Forall_forall. intros x _. apply length_to_be_bytes.
Qed.

Lemma to_int_cells n : u64 n -> to_int (cells_of n) = Ok n.
Proof.
  intros Hn. unfold u64, to_int, cells_of in *. cbn [length Nat.mul Nat.add Nat.ltb Nat.leb fold_left]. f_equal.
  rewrite Z.shiftl_0_l, Z.lor_0_l, Z.shiftl_mul_pow2 by lia. pose proof (Z.mod_pos_bound n (2 ^ 32) ltac:(lia)).
  rewrite (lor_disjoint_add _ _ 32); [pose proof (Z.div_mod n (2 ^ 32)); lia|lia|apply Z.mod_mul; lia|done].
Qed.

(** The registers of a node, as addresses and sizes. *)
Definition read_reg (r : Reg) : option (Z * Z) :=
  match to_int (reg_address r), to_int (reg_size r) with Ok a, Ok s => Some (a, s) | _, _ => None end.

Definition registers (n : FdtNode) : option (list (Z * Z)) :=
  match reg n with Ok (Some l) => mapM read_reg l | _ => None end.

Lemma length_reg_value l : length (reg_value l) = (16 * length l)%nat.
Proof.
  unfold reg_value. induction l as [|[a s] l IH]; [done|]. cbn [map concat length]. rewrite !length_app, !length_to_be_bytes, IH. lia.
Qed.

Lemma registers_read n nm l :
  parent_address_space n = mkSpace 2 2 -> property n (b"reg") = Some (mkProp nm (reg_value l)) ->
  Forall (fun r => u64 (fst r) /\ u64 (snd r)) l -> registers n = Some l.
Proof.
  intros Hsp Hp Hl. unfold registers, reg, reg_named. rewrite Hp, Hsp. cbn [address_cells_of size_cells_of].
  unfold as_prop_encoded_array. cbn [fold_left p_value]. change (0 + 2 + 2) with 4. change (4 * 4) with 16. rewrite length_reg_value.
  replace (Z.of_nat (16 * length l) mod 16) with 0 by (rewrite Nat2Z.inj_mul, Z.mul_comm, Z.mod_mul; lia).
  cbn [Z.eqb negb orb obind]. change (Z.to_nat 16) with 16%nat. unfold chunks_exact at 2, reg_value at 2.
  rewrite chunks_concat; [|lia| |unfold reg_value; lia].
  2:{ apply Forall_map, Forall_forall. intros [a s] _. by rewrite length_app, !length_to_be_bytes. }
  clear Hp. induction Hl as [|[a s] l [Ha Hs] _ IH]; [done|]. cbn [map fst snd] in *. cbn [mapM mbind option_bind].
  rewrite cells_of_bytes by done. change (split_fields [2; 2] (cells_of a ++ cells_of s)) with [cells_of a; cells_of s].
  replace (read_reg (Reg_from_cells [cells_of a; cells_of s])) with (Some (a, s)).
  - cbn [mbind option_bind]. by rewrite IH.
  - unfold read_reg. cbn [Reg_from_cells nth reg_address reg_size]. by rewrite !to_int_cells by done.
Qed.

(** ** The blob *)

(** The fields at their types. *)
Record config_typed (config : GuestFdtConfig) : Prop := {
  ct_regions : Forall (fun r => u64 (gm_base r) /\ u64 (gm_size r)) (memory_regions config);
  ct_bootargs : forall s, bootargs config = Some s -> Forall u8 s;
  ct_pl011 : forall u, gf_pl011 config = Some u -> u64 (pl_base u) /\ u64 (pl_size u) /\ u32 (clock_hz u) /\ u32 (interrupt u);
  ct_gic : forall gic, gicv2 config = Some gic ->
    u64 (distributor_base gic) /\ u64 (distributor_size gic) /\ u64 (cpu_interface_base gic) /\ u64 (cpu_interface_size gic)
}.

Section Blob.
Context {M : Type -> Type} `{IndexMap M}.
Context (config : GuestFdtConfig).
Hypothesis config_is_typed : config_typed config.

(** What validation leaves to the tree. *)
Lemma validate_config_inv :
  validate_config config = Ok () ->
  (exists primary rest, memory_regions config = primary :: rest /\ (length rest <= 3)%nat) /\
  (forall u, gf_pl011 config = Some u -> is_some (gicv2 config) = true -> 32 <= interrupt u) /\
  (forall s, bootargs config = Some s -> (length s < 128)%nat).
Proof.
  unfold validate_config, MAX_GUEST_MEMORY_REGIONS.
  destruct (memory_regions config) as [|primary rest]; [done|]. cbn [length Nat.eqb orb].
  destruct (Nat.ltb_spec 4 (S (length rest))); [done|]. destruct (try_each _ _) as [[]| |]; cbn [obind]; [|done..].
  intros Hv. split; [exists primary, rest; split; [done|lia]|]. revert Hv.
  destruct (gf_pl011 config) as [u|]; [destruct (bad_pl011 config u) eqn:Eu; [done|]|];
    (destruct (match gicv2 config with Some gic => bad_gic gic | None => false end); [done|]);
    (destruct (bootargs config) as [s|]; [destruct (Nat.leb_spec 128 (length s)); [done|]|]); intros _.
  all: split; [|intros ? [= <-]; done || done].
  all: intros ? [= <-] Hg; unfold bad_pl011 in Eu; rewrite !orb_false_iff in Eu; destruct Eu as [_ Eu];
    rewrite Hg in Eu; cbn [andb] in Eu; by apply Z.ltb_ge in Eu.
Qed.

Lemma bytes_u8 s : Forall u8 (bytes s).
Proof.
  induction s as [|a s IH]; constructor; [|done]. unfold u8. pose proof (Ascii.N_ascii_bounded a). lia.
Qed.

Lemma string_value_u8 s : Forall u8 s -> Forall u8 (string_value s).
Proof. intros Hs. apply Forall_app_2; [done|]. by constructor. Qed.

Lemma concat_u8 {A} (f : A -> list Z) l : (forall x, Forall u8 (f x)) -> Forall u8 (concat (map f l)).
Proof. intros Hf. induction l as [|x l IH]; cbn [map concat]; [constructor|]. by apply Forall_app_2. Qed.

Lemma lower_hex_u8 n : 0 <= n -> Forall u8 (lower_hex n).
Proof.
  intros Hn. eapply Forall_impl; [by apply lower_hex_chars|]. intros c [Hc%node_char_plain _]. unfold plain, u8 in *. lia.
Qed.

Lemma reg_value_u8 l : Forall u8 (reg_value l).
Proof. apply concat_u8. intros [a s]. apply Forall_app_2; apply to_be_bytes_u8. Qed.

Lemma interrupts_value_u8 k l : Forall u8 (interrupts_value k l).
Proof. apply concat_u8. intros n. repeat apply Forall_app_2; apply to_be_bytes_u8. Qed.

(** Values of the tree's properties. *)
Ltac solve_u8 :=
  cbn [p_value]; first
    [ apply reg_value_u8 | apply interrupts_value_u8 | apply to_be_bytes_u8 | apply bytes_checked; reflexivity
    | apply Forall_app_2; apply to_be_bytes_u8 ].
Ltac solve_props := repeat (constructor; [split; [reflexivity|solve_u8]|]); constructor.

Lemma chosen_props_valid :
  Forall (fun p => is_valid_property_name (p_name p) = true /\ Forall u8 (p_value p)) (chosen_props config).
Proof using config_is_typed.
  unfold chosen_props. apply Forall_app_2.
  - destruct (gf_pl011 config) as [u|] eqn:Eu; [|constructor]. destruct (ct_pl011 _ config_is_typed u Eu) as [[Hb _] _].
    constructor; [|constructor]. split; [reflexivity|]. apply string_value_u8, Forall_app_2; [apply bytes_u8|by apply lower_hex_u8].
  - destruct (bootargs config) as [s|] eqn:Es; [|constructor]. constructor; [|constructor]. split; [reflexivity|].
    apply string_value_u8. by apply (ct_bootargs _ config_is_typed).
Qed.

(** A node of the tree: its name and its subtree. *)
Definition child_ok (c : dt_node) : Prop :=
  (node_name c <> [] /\ is_valid_node_name (node_name c) = true) /\ valid_node c.

Lemma leaf_ok name props :
  name <> [] -> is_valid_node_name name = true ->
  Forall (fun p => is_valid_property_name (p_name p) = true /\ Forall u8 (p_value p)) props -> child_ok (mkNode name props []).
Proof. intros Hn Hv Hp. split; [done|]. by constructor. Qed.

Lemma addressed_leaf_ok (w : str) n props :
  u64 n -> forallb is_valid_node_char (w) = true -> (0 < length (w) <= 31)%nat ->
  Forall (fun p => is_valid_property_name (p_name p) = true /\ Forall u8 (p_value p)) props ->
  child_ok (mkNode (w ++ 64 :: lower_hex n) props []).
Proof.
  intros Hn Hc Hl Hp. apply leaf_ok; [|apply addressed_name_valid; try done|done].
  - by destruct (w).
  - by destruct (w); [cbn in Hl; lia|].
  - lia.
Qed.

Ltac addressed w :=
  apply (addressed_leaf_ok w); [done|reflexivity|cbn; lia|].

Lemma memory_ok primary rest : memory_regions config = primary :: rest -> child_ok (memory_node config primary).
Proof using config_is_typed.
  intros Hm. pose proof (ct_regions _ config_is_typed) as Hr. rewrite Hm in Hr. apply Forall_cons_1 in Hr as [[Hb _] _].
  unfold memory_node. addressed (b"memory"). solve_props.
Qed.

Lemma gic_ok gic : gicv2 config = Some gic -> Forall child_ok [gic_node gic; timer_node].
Proof using config_is_typed.
  intros Hg. destruct (ct_gic _ config_is_typed gic Hg) as [Hb _]. constructor; [|constructor; [|constructor]].
  - unfold gic_node. addressed (b"intc"). solve_props.
  - apply leaf_ok; [discriminate|reflexivity|]. solve_props.
Qed.

Lemma uart_ok u : gf_pl011 config = Some u -> Forall child_ok [clock_node u; uart_node config u].
Proof using config_is_typed.
  intros Hu. destruct (ct_pl011 _ config_is_typed u Hu) as [Hb _]. constructor; [|constructor; [|constructor]].
  - apply leaf_ok; [discriminate|reflexivity|]. solve_props.
  - unfold uart_node. addressed (b"serial"). apply Forall_app_2; [solve_props|]. apply Forall_app_2; [|solve_props].
    destruct (is_some (gicv2 config)); [solve_props|constructor].
Qed.

Lemma cpus_ok : child_ok cpus_node.
Proof.
  split; [split; [discriminate|reflexivity]|]. constructor; [solve_props| |].
  - constructor; [split; [discriminate|reflexivity]|constructor].
  - constructor; [|constructor]. constructor; [solve_props|constructor|constructor].
Qed.

Lemma guest_root_writable primary rest :
  memory_regions config = primary :: rest -> writable (mkDeviceTree (guest_root config primary) []).
Proof using config_is_typed.
  intros Hm. split; [done| |constructor]. cbn [dt_root]. unfold guest_root.
  assert (Hall : Forall child_ok
    ([mkNode (b"chosen") (chosen_props config) []; cpus_node; memory_node config primary] ++
     match gicv2 config with Some gic => [gic_node gic; timer_node] | None => [] end ++
     match gf_pl011 config with Some u => [clock_node u; uart_node config u] | None => [] end)).
  { apply Forall_app_2; [|apply Forall_app_2].
    - repeat apply Forall_cons_2; [|apply cpus_ok|by eapply memory_ok|constructor].
      apply leaf_ok; [discriminate|reflexivity|apply chosen_props_valid].
    - destruct (gicv2 config) as [gic|] eqn:Eg; [by apply gic_ok|constructor].
    - destruct (gf_pl011 config) as [u|] eqn:Eu; [by apply uart_ok|constructor]. }
  constructor; [unfold root_props; solve_props|eapply Forall_impl; [exact Hall|by intros c [? _]]|eapply Forall_impl; [exact Hall|by intros c [_ ?]]].
Qed.

(** The bytes a node needs, its names included. *)
Definition weight (n : dt_node) : nat := (node_len n + strings_len n)%nat.
Definition prop_weight (p : FdtProperty) : nat := (prop_len p + (length (p_name p) + 1))%nat.

Lemma sum_of_add {A} (f g : A -> nat) l : sum_of (fun x => (f x + g x)%nat) l = (sum_of f l + sum_of g l)%nat.
Proof. induction l as [|x l IH]; [done|]. unfold sum_of in *. cbn [fold_right]. lia. Qed.

Lemma weight_node name props l :
  weight (mkNode name props l) = (8 + align_tag_offset (length name + 1) + sum_of prop_weight props + sum_of weight l)%nat.
Proof.
  unfold weight at 1. cbn [node_len strings_len]. unfold names_len, prop_weight, weight.
  rewrite (sum_of_add prop_len), (sum_of_add node_len). lia.
Qed.

(** Lengths of literals, and paddings by their bound. *)
Ltac measure :=
  rewrite weight_node; unfold sum_of, prop_weight, prop_len, string_value, string_list_value;
  cbn [fold_right app p_name p_value map concat];
  rewrite ?length_app, ?length_to_be_bytes, ?length_reg_value, ?length_map;
  repeat match goal with
         | |- context [length (bytes ?s)] => let n := eval vm_compute in (length (bytes s)) in change (length (bytes s)) with n
         | |- context [length (interrupts_value ?k ?l)] => change (length (interrupts_value k l)) with (12 * length l)%nat
         | |- context [align_tag_offset ?x] =>
             let H := fresh in pose proof (align_tag_offset_lt x) as H; revert H; generalize (align_tag_offset x); intros
         end;
  cbn [length] in *; rewrite ?length_app, ?length_map in *; cbn [length] in *.

Lemma chosen_weight :
  (forall s, bootargs config = Some s -> (length s < 128)%nat) ->
  (weight (mkNode (b"chosen") (chosen_props config) []) <= 300)%nat.
Proof using config_is_typed.
  intros Hs. unfold chosen_props.
  destruct (gf_pl011 config) as [u|] eqn:Eu; [pose proof (lower_hex_length _ (proj1 (ct_pl011 _ config_is_typed u Eu)))|];
    (destruct (bootargs config) as [s|]; [pose proof (Hs s eq_refl)|]); cbn [app]; measure; lia.
Qed.

Lemma memory_weight primary rest :
  memory_regions config = primary :: rest -> (length rest <= 3)%nat -> (weight (memory_node config primary) <= 180)%nat.
Proof using config_is_typed.
  intros Hm Hr. pose proof (ct_regions _ config_is_typed) as Hreg. rewrite Hm in Hreg. apply Forall_cons_1 in Hreg as [[Hb _] _].
  pose proof (lower_hex_length _ Hb). unfold memory_node. rewrite Hm. measure. lia.
Qed.

Lemma gic_weight gic : gicv2 config = Some gic -> (sum_of weight [gic_node gic; timer_node] <= 430)%nat.
Proof using config_is_typed.
  intros Hg. pose proof (lower_hex_length _ (proj1 (ct_gic _ config_is_typed gic Hg))). unfold sum_of. cbn [fold_right].
  enough (weight (gic_node gic) <= 260 /\ weight timer_node <= 170)%nat by lia. split; [unfold gic_node; measure; lia|vm_compute; lia].
Qed.

Lemma uart_weight u : gf_pl011 config = Some u -> (sum_of weight [clock_node u; uart_node config u] <= 600)%nat.
Proof using config_is_typed.
  intros Hu. pose proof (lower_hex_length _ (proj1 (ct_pl011 _ config_is_typed u Hu))). unfold sum_of. cbn [fold_right].
  enough (weight (clock_node u) <= 200 /\ weight (uart_node config u) <= 400)%nat by lia.
  split; [unfold clock_node; measure; lia|]. unfold uart_node. destruct (is_some (gicv2 config)); cbn [app]; measure; lia.
Qed.

Lemma guest_root_size primary rest :
  memory_regions config = primary :: rest -> (length rest <= 3)%nat ->
  (forall s, bootargs config = Some s -> (length s < 128)%nat) ->
  (blob_bound (mkDeviceTree (guest_root config primary) []) <= 2048)%nat.
Proof using config_is_typed.
  intros Hm Hr Hs. enough (weight (guest_root config primary) <= 1980)%nat
    by (unfold blob_bound, weight in *; cbn [dt_root dt_reservations length] in *; lia).
  pose proof (chosen_weight Hs). pose proof (memory_weight _ _ Hm Hr).
  assert (weight cpus_node <= 200)%nat by (vm_compute; lia).
  assert (sum_of weight (match gicv2 config with Some gic => [gic_node gic; timer_node] | None => [] end) <= 430)%nat
    by (destruct (gicv2 config) eqn:E; [by apply gic_weight|cbn; lia]).
  assert (sum_of weight (match gf_pl011 config with Some u => [clock_node u; uart_node config u] | None => [] end) <= 600)%nat
    by (destruct (gf_pl011 config) eqn:E; [by apply uart_weight|cbn; lia]).
  unfold guest_root. rewrite weight_node. assert (Happ : forall l k, sum_of weight (l ++ k) = (sum_of weight l + sum_of weight k)%nat).
  { intros l k. induction l as [|x l IH]; [done|]. unfold sum_of in *. cbn [app fold_right]. lia. }
  rewrite !Happ. assert (Hroot : sum_of prop_weight root_props = 148%nat) by (vm_compute; reflexivity).
  rewrite Hroot. change (align_tag_offset (length (A := Z) [] + 1)) with 4%nat. unfold sum_of at 1. cbn [fold_right]. lia.
Qed.

End Blob.

(** ** What the tree tells *)

Lemma find_addressed_child fdt w n pre c post :
  0 <= n -> 47 ∉ w -> node_children (fdt_root fdt) = pre ++ c :: post -> node_name c = w ++ 64 :: lower_hex n ->
  Forall (fun x => node_name x <> w ++ 64 :: lower_hex n) pre ->
  find_node fdt (47 :: w ++ 64 :: lower_hex n) = Some (mkFdtNode c (address_space (root_node fdt))).
Proof.
  intros Hn Hw Hc Hname Hpre. set (key := w ++ 64 :: lower_hex n) in *.
  assert (Hkey : 47 ∉ key). { unfold key. rewrite elem_of_app, elem_of_cons. intros [?|[?|?]]; [done|done|]. by eapply (lower_hex_free 47 n); [|lia|]. }
  assert (Hne : key <> []) by (unfold key; by destruct w).
  unfold find_node. cbn [starts_with]. rewrite Z.eqb_refl. cbn [negb]. unfold str_eqb at 1. change (b"/") with [47].
  rewrite bool_decide_eq_false_2 by congruence. cbn [split_on]. rewrite Z.eqb_refl, split_on_none by done.
  cbn [List.filter]. unfold str_eqb. rewrite bool_decide_eq_true_2, bool_decide_eq_false_2 by done. cbn [negb follow_path].
  unfold child, children. replace (contains_char 64 key) with true.
  2:{ symmetry. unfold contains_char, key. rewrite existsb_app. cbn [existsb]. rewrite Z.eqb_refl. apply orb_true_r. }
  cbn [fn_node root_node]. rewrite Hc, map_app. cbn [map]. clear -Hpre Hname.
  induction Hpre as [|x pre Hx _ IH]; cbn [map app List.find].
  - unfold name, str_eqb. cbn [fn_node]. by rewrite Hname, bool_decide_eq_true_2.
  - unfold name at 1, str_eqb at 1. cbn [fn_node]. by rewrite bool_decide_eq_false_2.
Qed.

(** With an interrupt controller, a level-triggered interrupt of its phandle,
    which is a number that the hypervisor's reader takes below 1020 only;
    without one, none. *)
Definition console_interrupt (config : GuestFdtConfig) (u : GuestPl011) (node : FdtNode) : Prop :=
  if is_some (gicv2 config) then
    (exists p, property node (b"interrupts") = Some p /\ length (p_value p) = 12%nat /\
       from_be_bytes (take 4 (drop 4 (p_value p))) + GIC_SPI_BASE = interrupt u /\
       decode_console_gic_spi (p_value p) = if interrupt u <? 1020 then Ok (interrupt u) else Err InvalidInterrupt) /\
    exists p, property node (b"interrupt-parent") = Some p /\ p_value p = to_be_bytes 4 GIC_PHANDLE
  else property node (b"interrupts") = None /\ property node (b"interrupt-parent") = None.

(** What a blob says about the platform, seen with the hypervisor's readers. *)
Record describes (config : GuestFdtConfig) (fdt : Fdt) : Prop := {
  ds_reservations : memory_reservations fdt = [];
  ds_memory : exists node,
    registers node = Some (map (fun r => (gm_base r, gm_size r)) (memory_regions config)) /\
    forall n, n ∈ children (root_node fdt) /\ is_memory n = Ok true <-> n = node;
  ds_gic : match gicv2 config with
           | Some gic => exists node,
               find_node fdt (b"/intc@" ++ lower_hex (distributor_base gic)) = Some node /\
               registers node = Some [(distributor_base gic, distributor_size gic); (cpu_interface_base gic, cpu_interface_size gic)] /\
               forall n, n ∈ children (root_node fdt) /\ is_gic_v2 n = true <-> n = node
           | None => forall n, n ∈ children (root_node fdt) -> is_gic_v2 n = false
           end;
  ds_console : match gf_pl011 config with
               | Some u => exists node,
                   find_node fdt (b"/serial@" ++ lower_hex (pl_base u)) = Some node /\
                   registers node = Some [(pl_base u, pl_size u)] /\ status node = Ok Okay /\
                   (forall n, n ∈ children (root_node fdt) /\ is_compatible n (b"arm,pl011") = true <-> n = node) /\
                   console_interrupt config u node
               | None => forall n, n ∈ children (root_node fdt) -> is_compatible n (b"arm,pl011") = false
               end;
  ds_bootargs : exists c, chosen fdt = Some c /\ p_value <$> property c (b"bootargs") = string_value <$> bootargs config
}.

(** Among nodes only one of which satisfies a test. *)
Lemma only_one {A} (f : A -> bool) pre c post :
  f c = true -> Forall (fun x => f x = false) pre -> Forall (fun x => f x = false) post ->
  forall n, n ∈ pre ++ c :: post /\ f n = true <-> n = c.
Proof.
  intros Hc Hpre Hpost n. rewrite !Forall_forall in *. split.
  - intros [[Hin|[->|Hin]%elem_of_cons]%elem_of_app Hf]; [|done|]; [rewrite (Hpre n Hin) in Hf|rewrite (Hpost n Hin) in Hf]; done.
  - intros ->. split; [|done]. apply elem_of_app. right. by left.
Qed.

Section Describes.
Context (config : GuestFdtConfig) (primary : GuestMemoryRegion) (rest : list GuestMemoryRegion) (len : Z).
Hypothesis config_is_typed : config_typed config.
Hypothesis regions : memory_regions config = primary :: rest.

Notation fdt := (mkFdt (guest_root config primary) [] len).
Notation at_root c := (mkFdtNode c (mkSpace 2 2)).
Notation gic_nodes := (match gicv2 config with Some gic => [gic_node gic; timer_node] | None => [] end).
Notation uart_nodes := (match gf_pl011 config with Some u => [clock_node u; uart_node config u] | None => [] end).

Lemma guest_children :
  children (root_node fdt) =
    map (fun c => at_root c) ([mkNode (b"chosen") (chosen_props config) []; cpus_node; memory_node config primary] ++ gic_nodes ++ uart_nodes).
Proof. reflexivity. Qed.

Definition memory_test (n : FdtNode) : bool := match is_memory n with Ok b' => b' | _ => false end.

Lemma memory_test_spec n : is_memory n = Ok true <-> memory_test n = true.
Proof. unfold memory_test. destruct (is_memory n) as [[]| |]; split; done. Qed.

Lemma gic_nodes_tests f :
  (forall gic, f (at_root (gic_node gic)) = false) -> f (at_root timer_node) = false ->
  Forall (fun x => f x = false) (map (fun c => at_root c) gic_nodes).
Proof. intros H1 H2. destruct (gicv2 config); repeat constructor; auto. Qed.

Lemma uart_nodes_tests f :
  (forall u, f (at_root (clock_node u)) = false) -> (forall u, f (at_root (uart_node config u)) = false) ->
  Forall (fun x => f x = false) (map (fun c => at_root c) uart_nodes).
Proof. intros H1 H2. destruct (gf_pl011 config); repeat constructor; auto. Qed.
(** Tests that look at a property the node has not. *)
Lemma chosen_property key :
  str_eqb (b"stdout-path") key = false -> str_eqb (b"bootargs") key = false ->
  property (at_root (mkNode (b"chosen") (chosen_props config) [])) key = None.
Proof.
  intros H1 H2. unfold property, properties, chosen_props. cbn [fn_node node_props].
  destruct (gf_pl011 config), (bootargs config); cbn [app List.find p_name]; by rewrite ?H1, ?H2.
Qed.

Lemma uart_is_no_memory u : memory_test (at_root (uart_node config u)) = false.
Proof. unfold uart_node, memory_test. by destruct (is_some (gicv2 config)). Qed.

Lemma describes_memory : exists node,
  registers node = Some (map (fun r => (gm_base r, gm_size r)) (memory_regions config)) /\
  forall n, n ∈ children (root_node fdt) /\ is_memory n = Ok true <-> n = node.
Proof using config_is_typed regions.
  exists (at_root (memory_node config primary)). split.
  - eapply registers_read; [reflexivity|reflexivity|]. pose proof (ct_regions _ config_is_typed) as Hr.
    by apply Forall_map.
  - intros n. rewrite memory_test_spec, guest_children, map_app, map_app. cbn [map].
    apply (only_one memory_test [_; _] (at_root (memory_node config primary))); [reflexivity|..].
    + constructor; [|by constructor]. unfold memory_test, is_memory. by rewrite chosen_property.
    + apply Forall_app_2; [by apply gic_nodes_tests|]. apply uart_nodes_tests; [done|]. apply uart_is_no_memory.
Qed.

Lemma uart_is_no_gic u : is_gic_v2 (at_root (uart_node config u)) = false.
Proof. unfold uart_node, is_gic_v2, is_compatible. by destruct (is_some (gicv2 config)). Qed.

Lemma chosen_is_no_gic : is_gic_v2 (at_root (mkNode (b"chosen") (chosen_props config) [])) = false.
Proof. unfold is_gic_v2, is_compatible. by rewrite chosen_property. Qed.

Lemma describes_gic :
  match gicv2 config with
  | Some gic => exists node,
      find_node fdt (b"/intc@" ++ lower_hex (distributor_base gic)) = Some node /\
      registers node = Some [(distributor_base gic, distributor_size gic); (cpu_interface_base gic, cpu_interface_size gic)] /\
      forall n, n ∈ children (root_node fdt) /\ is_gic_v2 n = true <-> n = node
  | None => forall n, n ∈ children (root_node fdt) -> is_gic_v2 n = false
  end.
Proof using config_is_typed regions.
  pose proof guest_children as Hc. pose proof chosen_is_no_gic as Hch. pose proof (uart_nodes_tests is_gic_v2) as Hu.
  destruct (gicv2 config) as [gic|] eqn:Eg.
  - destruct (ct_gic _ config_is_typed gic Eg) as (Hb & Hs & Hb' & Hs'). exists (at_root (gic_node gic)). split_and!.
    + apply (find_addressed_child fdt (b"intc") (distributor_base gic)
        [mkNode (b"chosen") (chosen_props config) []; cpus_node; memory_node config primary] _ (timer_node :: uart_nodes)).
      * apply Hb.
      * intros Hin%list_elem_of_In. cbn in Hin. lia.
      * cbn [fdt_root guest_root node_children]. by rewrite Eg.
      * done.
      * repeat constructor; discriminate.
    + eapply registers_read; [reflexivity|reflexivity|]. apply Forall_cons_2; [done|]. apply Forall_cons_2; [done|constructor].
    + intros n. rewrite Hc, !map_app. cbn [map app]. apply (only_one is_gic_v2 [_; _; _] (at_root (gic_node gic))); [reflexivity|..].
      * by repeat constructor.
      * constructor; [done|]. apply Hu; [done|]. intros u. unfold uart_node. apply uart_is_no_gic.
  - intros n. rewrite Hc, !map_app. cbn [map app]. rewrite <- (app_nil_l (map _ uart_nodes)).
    intros [->|[->|[->|Hin]%elem_of_cons]%elem_of_cons]%elem_of_cons; [done|done|done|].
    cbn [app] in Hin. specialize (Hu ltac:(done) uart_is_no_gic). rewrite Forall_forall in Hu. by apply Hu.
Qed.

Notation is_pl011 := (fun n => is_compatible n (b"arm,pl011")).

Lemma chosen_is_no_pl011 : is_pl011 (at_root (mkNode (b"chosen") (chosen_props config) [])) = false.
Proof. unfold is_compatible. by rewrite chosen_property. Qed.

(** A level-high SPI, as its three cells. *)
Lemma decode_spi n :
  32 <= n < 2 ^ 32 ->
  decode_console_gic_spi (interrupts_value 0 [n - 32]) = if n <? 1020 then Ok n else Err InvalidInterrupt.
Proof.
  intros Hn. unfold interrupts_value. cbn [map concat]. rewrite app_nil_r. unfold decode_console_gic_spi.
  rewrite !length_app, !length_to_be_bytes. change (4 + (4 + 4) <? 12)%nat with false.
  rewrite (take_ge _ 12) by (by rewrite !length_app, !length_to_be_bytes).
  rewrite (take_app_length' (to_be_bytes 4 0)) by (by rewrite length_to_be_bytes).
  rewrite (drop_app_length' (to_be_bytes 4 0) _ 4) by (by rewrite length_to_be_bytes).
  rewrite (take_app_length' (to_be_bytes 4 (n - 32))) by (by rewrite length_to_be_bytes).
  rewrite app_assoc, (drop_app_length' (_ ++ _)) by (by rewrite length_app, !length_to_be_bytes).
  rewrite !from_be_to_be. change (256 ^ Z.of_nat 4) with (2 ^ 32). rewrite (Z.mod_small (n - 32)) by lia.
  change (negb (0 mod 2 ^ 32 =? 0) || negb (4 mod 2 ^ 32 =? 4)) with false.
  rewrite (proj2 (Z.ltb_lt _ (2 ^ 32))) by lia. replace (n - 32 + 32) with n by lia. cbn [andb]. by destruct (n <? 1020).
Qed.

Lemma describes_console :
  (forall u, gf_pl011 config = Some u -> is_some (gicv2 config) = true -> 32 <= interrupt u) ->
  match gf_pl011 config with
  | Some u => exists node,
      find_node fdt (b"/serial@" ++ lower_hex (pl_base u)) = Some node /\
      registers node = Some [(pl_base u, pl_size u)] /\ status node = Ok Okay /\
      (forall n, n ∈ children (root_node fdt) /\ is_compatible n (b"arm,pl011") = true <-> n = node) /\
      console_interrupt config u node
  | None => forall n, n ∈ children (root_node fdt) -> is_compatible n (b"arm,pl011") = false
  end.
Proof using config_is_typed regions.
  intros Hirq. pose proof guest_children as Hc. pose proof chosen_is_no_pl011 as Hch.
  pose proof (gic_nodes_tests is_pl011 (fun _ => eq_refl) eq_refl) as Hg. set (gics := gic_nodes) in *.
  destruct (gf_pl011 config) as [u|] eqn:Eu.
  - destruct (ct_pl011 _ config_is_typed u Eu) as (Hb & Hs & _ & Hi). exists (at_root (uart_node config u)). split_and!.
    + apply (find_addressed_child fdt (b"serial") (pl_base u)
        ([mkNode (b"chosen") (chosen_props config) []; cpus_node; memory_node config primary] ++ gics ++ [clock_node u]) _ []).
      * apply Hb.
      * intros Hin%list_elem_of_In. cbn in Hin. lia.
      * cbn [fdt_root guest_root node_children]. rewrite Eu. fold gics. by rewrite <- !app_assoc.
      * done.
      * repeat apply Forall_cons_2; [discriminate..|]. apply Forall_app_2; [|by repeat constructor].
        unfold gics. destruct (gicv2 config); repeat constructor; discriminate.
    + eapply registers_read; [reflexivity|unfold uart_node; by destruct (is_some (gicv2 config))|]. by apply Forall_cons_2.
    + unfold uart_node, status. by destruct (is_some (gicv2 config)).
    + intros n. rewrite Hc, !map_app. cbn [map]. rewrite (cons_middle (at_root (clock_node u))), !app_assoc.
      apply (only_one is_pl011 _ (at_root (uart_node config u))); [|repeat apply Forall_app_2; [|done|]|constructor].
      * unfold uart_node, is_compatible. by destruct (is_some (gicv2 config)).
      * by repeat constructor.
      * by repeat constructor.
    + unfold console_interrupt, uart_node. destruct (is_some (gicv2 config)) eqn:Hsome; [|done].
      specialize (Hirq u eq_refl eq_refl). split; [|by eexists]. eexists. split; [reflexivity|]. cbn [p_value]. split_and!.
      * unfold interrupts_value. cbn [map concat]. by rewrite !length_app, !length_to_be_bytes.
      * unfold interrupts_value, GIC_SPI_BASE in *. cbn [map concat].
        rewrite app_nil_r, (drop_app_length' (to_be_bytes 4 0) _ 4), (take_app_length' (to_be_bytes 4 _)) by (by rewrite length_to_be_bytes).
        rewrite from_be_to_be. change (256 ^ Z.of_nat 4) with (2 ^ 32). unfold u32 in Hi. rewrite Z.mod_small by lia. lia.
      * apply decode_spi. unfold u32 in Hi. lia.
  - intros n. rewrite Hc, app_nil_r, map_app. cbn [map app].
    intros [->|[->|[->|Hin]%elem_of_cons]%elem_of_cons]%elem_of_cons; [done|done|done|].
    rewrite Forall_forall in Hg. by apply Hg.
Qed.

Lemma describes_bootargs :
  exists c, chosen fdt = Some c /\ p_value <$> property c (b"bootargs") = string_value <$> bootargs config.
Proof.
  exists (at_root (mkNode (b"chosen") (chosen_props config) [])). split; [reflexivity|].
  unfold property, properties, chosen_props. cbn [fn_node node_props]. by destruct (gf_pl011 config), (bootargs config).
Qed.

Lemma guest_tree_describes :
  (forall u, gf_pl011 config = Some u -> is_some (gicv2 config) = true -> 32 <= interrupt u) -> describes config fdt.
Proof using config_is_typed regions.
  intros Hirq. split; [done|apply describes_memory|apply describes_gic|by apply describes_console|apply describes_bootargs].
Qed.

Lemma without_address w n : 0 <= n -> 64 ∉ w -> name_without_address (w ++ 64 :: lower_hex n) = w.
Proof. intros Hn Hw. unfold name_without_address. by rewrite split_on_sep. Qed.

Lemma no_aliases : find_node fdt (b"/aliases") = None.
Proof using config_is_typed regions.
  unfold find_node. change (negb (starts_with 47 (b"/aliases"))) with false. change (str_eqb (b"/aliases") (b"/")) with false.
  change (List.filter _ (split_on 47 (b"/aliases"))) with [b"aliases"]. cbn [follow_path]. unfold child.
  change (contains_char 64 (b"aliases")) with false. rewrite guest_children.
  assert (Hno : Forall (fun c => str_eqb (name_without_address (name c)) (b"aliases") = false)
    (map (fun c => at_root c) ([mkNode (b"chosen") (chosen_props config) []; cpus_node; memory_node config primary] ++ gic_nodes ++ uart_nodes))).
  { assert (Hn : forall w n props l, 0 <= n -> 64 ∉ w -> str_eqb w (b"aliases") = false ->
      str_eqb (name_without_address (name (at_root (mkNode (w ++ 64 :: lower_hex n) props l)))) (b"aliases") = false).
    { intros w n props l Hn Hw He. unfold name. cbn [fn_node node_name]. by rewrite without_address. }
    assert (Hw : forall w, forallb is_valid_node_char w = true -> 64 ∉ w).
    { intros w Hc Hin%list_elem_of_In. rewrite forallb_forall in Hc. discriminate (Hc _ Hin). }
    apply Forall_map, Forall_app_2; [|apply Forall_app_2].
    - repeat apply Forall_cons_2; [reflexivity|reflexivity| |constructor]. apply (Hn (b"memory")); [|by apply Hw|done].
      pose proof (ct_regions _ config_is_typed) as Hr. rewrite regions in Hr. apply Forall_cons_1 in Hr as [[[? _] _] _]. done.
    - destruct (gicv2 config) as [gic|] eqn:E; [|constructor]. repeat apply Forall_cons_2; [|reflexivity|constructor].
      apply (Hn (b"intc")); [|by apply Hw|done]. by destruct (ct_gic _ config_is_typed gic E) as [[? _] _].
    - destruct (gf_pl011 config) as [u|] eqn:E; [|constructor]. repeat apply Forall_cons_2; [reflexivity| |constructor].
      apply (Hn (b"serial")); [|by apply Hw|done]. by destruct (ct_pl011 _ config_is_typed u E) as [[? _] _]. }
  induction Hno as [|c l Hc _ IH]; [done|]. cbn [List.find]. by rewrite Hc.
Qed.

(** The [stdout-path] of the guest names the console without the leading
    slash of a path, so it is taken for an alias, and the tree has none: it
    does not resolve. *)
Lemma guest_stdout_path_unresolved u :
  gf_pl011 config = Some u -> resolve_stdout_path fdt = Err MissingAliases.
Proof using config_is_typed regions.
  intros Hu. destruct (ct_pl011 _ config_is_typed u Hu) as [[Hb _] _]. unfold resolve_stdout_path.
  change (chosen fdt) with (Some (at_root (mkNode (b"chosen") (chosen_props config) []))). cbn [ok_or obind].
  set (path := b"serial@" ++ lower_hex (pl_base u)).
  assert (Hplain : Forall plain path).
  { apply Forall_app_2; [repeat constructor|]. eapply Forall_impl; [by apply lower_hex_chars|]. intros c [Hc _]. by apply node_char_plain. }
  assert (Hpath : stdout_path (at_root (mkNode (b"chosen") (chosen_props config) [])) = Ok (Some path)).
  { unfold stdout_path, property, properties, chosen_props. rewrite Hu. cbn [fn_node node_props app List.find p_name].
    change (str_eqb (b"stdout-path") (b"stdout-path")) with true. cbn [transpose]. unfold as_str, string_value. cbn [p_value].
    rewrite plain_until_nul by done. by rewrite plain_utf8. }
  rewrite Hpath. sequence. rewrite split_on_none.
  2:{ unfold path. rewrite elem_of_app. intros [Hin|Hin]; [apply list_elem_of_In in Hin; cbn in Hin; lia|].
      by apply (lower_hex_free 58 (pl_base u)); [|lia|]. }
  cbn [hd]. change (str_eqb path []) with false. change (starts_with 47 path) with false. by rewrite no_aliases.
Qed.
End Describes.

Lemma validate_config_total config : validate_config config <> Panic.
Proof.
  unfold validate_config. destruct (_ || _); [done|].
  assert (Ht : forall l, try_each (fun r => reject bad_region r with InvalidConfiguration in Ok ()) l <> Panic).
  { induction l as [|r l IH]; cbn [try_each]; [done|]. destruct (bad_region r); cbn [obind]; done. }
  specialize (Ht (memory_regions config)). destruct (try_each _ _); cbn [obind]; [|done..].
  destruct (match gf_pl011 config with Some u => _ | None => _ end); [done|]. destruct (match gicv2 config with Some g => _ | None => _ end); [done|].
  by destruct (match bootargs config with Some l => _ | None => _ end).
Qed.

(** What is written, and that it is bytes. *)
Lemma guest_dtb_written {M : Type -> Type} `{IndexMap M} config buffer :
  config_typed config -> validate_config config = Ok () -> (2048 <= length buffer)%nat ->
  exists len buffer' fdt,
    build_guest_dtb buffer config = (Ok len, buffer') /\ (Forall u8 buffer -> Forall u8 buffer') /\ (len <= 2048)%nat /\ length buffer' = length buffer /\
    drop len buffer' = drop len buffer /\ Fdt_new (take len buffer') = Ok fdt /\ describes config fdt.
Proof.
  intros Ht Hv Hb. destruct (validate_config_inv config Hv) as ((primary & rest & Hm & Hr) & Hi & Hs).
  pose proof (guest_root_size config Ht _ _ Hm Hr Hs) as Hsize.
  destruct (dtb_written _ (guest_root_writable config Ht _ _ Hm)) as (blob & Hw & Hu8 & Hl & Hread); [lia|].
  exists (length blob), (blob ++ drop (length blob) buffer), (mkFdt (guest_root config primary) [] (Z.of_nat (length blob))).
  unfold build_guest_dtb. rewrite Hv, (build_tree_view config primary rest Hm Hi). cbn [obind]. rewrite Hw.
  rewrite (proj2 (Nat.ltb_ge _ _)) by lia. split_and!; [done|intros Hbuf; apply Forall_app_2; [done|by apply Forall_drop]|lia| |by rewrite drop_app_length|by rewrite take_app_length|].
  - rewrite length_app, length_drop. lia.
  - by apply (guest_tree_describes config primary rest).
Qed.

(** C25 [guest_dtb_describes]: for every accepted configuration and a buffer of 2
    KiB or more, the guest's device tree is written without a panic and without
    touching the rest of the buffer.  The bytes written are a valid blob, and
    the hypervisor's own readers find in it exactly one memory node, with
    exactly the configured regions; exactly one interrupt controller and one
    console, each if and only if it is configured and at the configured
    addresses; and the boot arguments.  The console has an interrupt if and
    only if an interrupt controller is configured; its number is then the
    configured one, which the reader for the host's console accepts if it is
    below 1020 and refuses otherwise. *)
Theorem guest_dtb_describes {M : Type -> Type} `{IndexMap M} config buffer :
  config_typed config -> validate_config config = Ok () -> (2048 <= length buffer)%nat ->
  exists len buffer' fdt,
    build_guest_dtb buffer config = (Ok len, buffer') /\ (len <= 2048)%nat /\ length buffer' = length buffer /\
    drop len buffer' = drop len buffer /\ Fdt_new (take len buffer') = Ok fdt /\ describes config fdt.
Proof.
  intros Ht Hv Hb. destruct (guest_dtb_written config buffer Ht Hv Hb) as (len & buffer' & fdt & H1 & _ & H2). exists len, buffer', fdt. done.
Qed.

(** Association lists are insertion-ordered maps. *)
#[global] Instance assoc_IndexMap : IndexMap (fun V => list (str * V)) :=
  {| with_hasher V := []; im_insert V := insert_entry; im_entries V m := m; im_entries_new V := eq_refl;
     im_entries_insert V k v m := eq_refl |}.

(** The platform of the default guest. *)
Definition sample_config : GuestFdtConfig :=
  mkGuestFdt [mkGuestRegion 0x40000000 0x20000000]
    (Some (b"console=ttyAMA0,115200 earlycon=pl011,mmio32,0x09000000 loglevel=8"))
    (Some (mkGuestPl011 0x9000000 0x1000 24000000 33)) (Some (mkGuestGicV2 0x8000000 0x10000 0x8010000 0x2000)).

Lemma sample_config_typed : config_typed sample_config.
Proof.
  split.
  - apply Forall_cons_2; [cbn; unfold u64; lia|by apply Forall_nil].
  - intros s [= <-]. apply bytes_checked. vm_compute. reflexivity.
  - intros u [= <-]. cbn. unfold u64, u32. lia.
  - intros g [= <-]. cbn. unfold u64. lia.
Qed.

Lemma guest_dtb_describes_witness :
  config_typed sample_config /\ validate_config sample_config = Ok () /\
  exists len buffer' fdt,
    build_guest_dtb (replicate 4096 0) sample_config = (Ok len, buffer') /\ (len <= 2048)%nat /\
    length buffer' = length (replicate 4096 0) /\ drop len buffer' = drop len (replicate 4096 0) /\
    Fdt_new (take len buffer') = Ok fdt /\ describes sample_config fdt.
Proof.
  split; [exact sample_config_typed|]. split; [reflexivity|].
  apply (guest_dtb_describes sample_config (replicate 4096 0)); [exact sample_config_typed|reflexivity|].
  rewrite length_replicate. lia.
Defined.
