(* ===== verification/LinuxVm.v ===== *)
(** * Preparation of the Linux guest: src/src/vmctl.rs, [run_linux_vm]

    The handler that turns a new VM into one that can run Linux: it lays the
    image out in guest memory, allocates that memory, copies the image, writes
    the device tree of [GuestFdt] behind it, builds the stage-2 tables with the
    operations of [Vmctl] and adds the first virtual CPU.  [GuestRun] models
    what happens once the CPU runs.  The results of the calls on the interrupt
    controller and the host's console, which touch neither the VM nor its
    memory, are arguments; cache maintenance is not modelled. *)

From S2P Require Import Prelude Page SystemInfo PageAllocator El2Stage1 GuestStage2 GuestPlatform LinuxBoot Gicv2 Mm Vcpu Vmctl.
From S2P Require Import Stage2Tree VmIsolation DeviceTree Dtb GuestFdt.

(** ** Bytes in a memory of words *)

(** The byte at [a]: memory is kept by 64-bit words, little endian. *)
Definition byte_in (m : Z -> Z) (a : Z) : Z := (m (a - a mod 8) / 2 ^ (8 * (a mod 8))) mod 256.

Definition le_word (f : Z -> Z) (a : Z) : Z := from_le_bytes (map (fun j => f (a + Z.of_nat j)) (seq 0 8)).

(** [copy_nonoverlapping] of [l] to [start]: the words it touches. *)
Definition copy_bytes (m : Z -> Z) (start : Z) (l : list Z) : Z -> Z := fun a =>
  if (a mod 8 =? 0) && (start <? a + 8) && (a <? start + Z.of_nat (length l)) then
    le_word (fun x => if (start <=? x) && (x <? start + Z.of_nat (length l)) then nth (Z.to_nat (x - start)) l 0 else byte_in m x) a
  else m a.

Definition read_bytes (m : Z -> Z) (start : Z) (n : nat) : list Z := map (fun i => byte_in m (start + Z.of_nat i)) (seq 0 n).

(** ** The handler *)

Inductive GuestRunError :=
| Translation (e : TranslationError)
| GicV2 (e : GicV2Error)
| Exited (vector esr_el2 : Z) (reason : VcpuExitReason).

Definition linux_bootargs : str := b"console=ttyAMA0,115200 earlycon=pl011,mmio32,0x09000000 loglevel=8".

(** The configuration of the guest's device tree. *)
Definition linux_config (gicv : GuestDeviceMapping) : GuestFdtConfig :=
  mkGuestFdt [mkGuestRegion (ipa_start GUEST_RAM) (ipa_size GUEST_RAM)] (Some linux_bootargs)
    (Some (mkGuestPl011 (ipa_start GUEST_PL011) (ipa_size GUEST_PL011) GUEST_PL011_CLOCK_HZ VIRTUAL_PL011_IRQ))
    (Some (mkGuestGicV2 (ipa_start GUEST_GICD) (ipa_size GUEST_GICD) (device_ipa gicv) (rsize (device gicv)))).

Definition guest_pa_for (guest_ram_pa ipa : Z) : outcome TranslationError Z :=
  let? offset := ok_or (checked_sub ipa (ipa_start GUEST_RAM)) Unexpected in
  ok_or (checked_add guest_ram_pa offset) AddressOverflow.

Section LinuxVm.
Context {G : Type} `{PageSource G} {M : Type -> Type} `{IndexMap M}.

Notation unexpected := (Translation Unexpected).

(** [r.map_err(|_| TranslationError::Unexpected)?] *)
Definition or_unexpected {E A} (r : outcome E A) : stateful (machine G) GuestRunError A :=
  slift (Prelude.map_err (fun _ => unexpected) r).

(** The image and its zero tail, then the device tree, in guest memory; their
    physical addresses and the size of the tree. *)
Definition load_linux (layout : LinuxBootLayout) (gicv : GuestDeviceMapping) (guest_ram_pa : Z) (image : list Z) :
    stateful (machine G) GuestRunError (Z * Z * nat) :=
  let! image_pa := slift (Prelude.map_err Translation (guest_pa_for guest_ram_pa (image_ipa layout))) in
  let! dtb_pa := slift (Prelude.map_err Translation (guest_pa_for guest_ram_pa (dtb_ipa layout))) in
  let! _ := set_memory (fun m => copy_bytes m image_pa image) in
  let! tail := slift (sub64 (image_size (image_header layout)) (Z.of_nat (length image))) in
  let! _ := set_memory (fun m => copy_bytes m (image_pa + Z.of_nat (length image)) (replicate (Z.to_nat tail) 0)) in
  let! buffer := sread (fun s => read_bytes (mem s) dtb_pa (Z.to_nat LINUX_DTB_CAPACITY)) in
  let '(written, buffer') := build_guest_dtb buffer (linux_config gicv) in
  let! _ := set_memory (fun m => copy_bytes m dtb_pa buffer') in
  let! dtb_real_size := or_unexpected written in
  sret (image_pa, dtb_pa, dtb_real_size).

(** The stage-2 tables, and the values of the registers that select them. *)
Definition map_linux (mmfr0 : option Z) (gicv : GuestDeviceMapping) : stateful (machine G) GuestRunError GuestStage2RegisterValues :=
  let! _ := smap_any unexpected (vm_mem_alloc GuestStage2PageTable None PAGE_SIZE) in
  let! _ := smap_err Translation (VmCtl_map mmfr0 GuestRam NormalWbWa ReadWrite Executable) in
  let! _ := smap_err Translation (map_external_device mmfr0 (ipa_start GUEST_GICV) (mapped_pa gicv) (mapping_size gicv)) in
  let! value := slift (expect mmfr0) in
  let! root := stry (fun s => guest_stage2_page_table_root (vm s)) in
  let! root := slift (expect root) in
  stry (fun s => Prelude.map_err Translation (guest_stage2_register_values (vm_id (vm s)) root (mmfr0_pa_range value))).

(** Everything before the CPU runs.  [gic] is the virtual CPU interface of the
    host's controller, if it was discovered, [enabled] the result of enabling
    the two interrupts on it, [console] whether the host's console was
    initialized. *)
Definition prepare_linux_vm (mmfr0 : option Z) (gic : option PhysRegion) (enabled : outcome GicV2Error unit) (console : bool)
    (image : list Z) : stateful (machine G) GuestRunError (GuestStage2RegisterValues * nat) :=
  let! layout := or_unexpected (default_for_image image None) in
  let! gic := slift (expect gic) in
  let! _ := slift (Prelude.map_err GicV2 enabled) in
  let! _ := slift (if console then Ok tt else Panic) in
  let! _ := or_unexpected GuestPlatform.validate in
  let! gicv := or_unexpected (map_device_into_window GUEST_GICV gic) in
  let! ram := smap_any unexpected (vm_mem_alloc GuestRam (Some (ipa_start GUEST_RAM)) (ipa_size GUEST_RAM)) in
  let! guest_ram_pa := slift (ok_or ram unexpected) in
  let! _ := load_linux layout gicv guest_ram_pa image in
  let! registers := map_linux mmfr0 gicv in
  let regs := initial_registers layout in
  let! vcpu_id := add_vcpu (Vcpu_new_linux (pc regs) (x0 regs)) in
  let! _ := stry (fun s => expect (vcpu_mut (vm s) vcpu_id)) in
  sret (registers, vcpu_id).

End LinuxVm.

(** ** Bytes *)

Lemma from_le_nth l : forall j, Forall u8 l -> (j < length l)%nat ->
  (from_le_bytes l / 2 ^ (8 * Z.of_nat j)) mod 256 = nth j l 0.
Proof.
  induction l as [|x l IH]; intros j Hl Hj; [cbn in Hj; lia|]. apply Forall_cons_1 in Hl as [Hx Hl]. unfold u8 in Hx.
  cbn [from_le_bytes]. destruct j as [|j].
  - rewrite Z.mul_0_r, Z.pow_0_r, Z.div_1_r. cbn [nth]. rewrite (Z.mul_comm 256), Z.mod_add by lia. apply Z.mod_small. lia.
  - cbn [nth length] in *. rewrite <- (IH j Hl) by lia. f_equal. replace (8 * Z.of_nat (S j)) with (8 + 8 * Z.of_nat j) by lia.
    rewrite Z.pow_add_r, <- Z.div_div by lia. f_equal. change (2 ^ 8) with 256. rewrite (Z.mul_comm 256), Z.div_add by lia.
    rewrite Z.div_small by lia. lia.
Qed.

Lemma byte_in_u8 m a : u8 (byte_in m a).
Proof. unfold byte_in, u8. apply Z.mod_pos_bound. lia. Qed.

Lemma nth_u8 l i : Forall u8 l -> u8 (nth i l 0).
Proof.
  intros Hl. destruct (Nat.lt_ge_cases i (length l)) as [Hi|Hi]; [|rewrite nth_overflow by done; by unfold u8].
  rewrite Forall_forall in Hl. apply Hl, list_elem_of_In. by apply nth_In.
Qed.

(** A copy changes exactly the bytes it covers. *)
Lemma byte_in_copy m start l a :
  Forall u8 l ->
  byte_in (copy_bytes m start l) a =
    if (start <=? a) && (a <? start + Z.of_nat (length l)) then nth (Z.to_nat (a - start)) l 0 else byte_in m a.
Proof.
  intros Hl. unfold byte_in at 1, copy_bytes. set (w := a - a mod 8). pose proof (Z.mod_pos_bound a 8 ltac:(lia)) as Ha.
  assert (Hw : w mod 8 = 0) by (unfold w; Z.to_euclidean_division_equations; lia). rewrite Hw. cbn [Z.eqb andb].
  destruct ((start <? w + 8) && (w <? start + Z.of_nat (length l))) eqn:E.
  - unfold le_word. set (f := fun x => _). rewrite <- (Z2Nat.id (a mod 8)) at 1 by lia. rewrite from_le_nth.
    + rewrite (nth_indep _ 0 (f 0%nat)) by (rewrite length_map, length_seq; lia). rewrite map_nth, seq_nth by lia.
      unfold f. rewrite Nat.add_0_l, Z2Nat.id by lia. by replace (w + a mod 8) with a by (unfold w; lia).
    + apply Forall_map, Forall_forall. intros j _. unfold f. case_match; [by apply nth_u8|apply byte_in_u8].
    + rewrite length_map, length_seq. lia.
  - destruct ((start <=? a) && (a <? start + Z.of_nat (length l))) eqn:E2; [|done]. apply andb_false_iff in E. unfold w in E.
    destruct E as [E|E]; bool_prop; lia.
Qed.

(** A copy leaves the words alone that it does not reach. *)
Lemma copy_bytes_frame m start l a : a < start - 7 \/ start + Z.of_nat (length l) <= a -> copy_bytes m start l a = m a.
Proof.
  intros Ha. unfold copy_bytes. destruct (_ && _ && _) eqn:E; [|done]. bool_prop. lia.
Qed.

Lemma copy_bytes_page m start l a lo hi :
  lo mod 8 = 0 -> lo <= start -> start + Z.of_nat (length l) <= hi -> hi mod 8 = 0 -> ~ lo <= a < hi -> copy_bytes m start l a = m a.
Proof.
  intros Hlo H1 H2 Hhi Ha. unfold copy_bytes. destruct (_ && _ && _) eqn:E; [|done]. bool_prop. exfalso.
  Z.to_euclidean_division_equations. lia.
Qed.

(** ** What the guest sees *)

Section Prepared.
Context {G : Type} `{HS : PageSource G} {M : Type -> Type} `{HM : IndexMap M} (base : G).
Implicit Types (s : machine G).

Notation mems s := (vm_mem (vm s)).

(** The byte a guest reads at an address it can translate. *)
Definition guest_byte s (ipa : Z) : option Z :=
  match walk_of s ipa with
  | Page pa _ _ _ => Some (byte_in (mem s) (pa + ipa mod PAGE_SIZE))
  | _ => None
  end.

(** The state the handler leaves: RAM at [ram_pa], the device window, nothing
    else; the image and its zero tail at the address the CPU starts at; at the
    address in its first register a blob that describes this very platform. *)
Record linux_prepared (layout : LinuxBootLayout) (gicv : GuestDeviceMapping) (image : list Z) (pa_range ram_pa : Z)
    (registers : GuestStage2RegisterValues) (id : nat) s : Prop := {
  lp_translation : forall ipa, va_ok ipa ->
    walk_of s ipa =
      if (ipa_start GUEST_RAM <=? ipa) && (ipa <? ipa_start GUEST_RAM + ipa_size GUEST_RAM)
      then Page (ram_pa + (page_base ipa - ipa_start GUEST_RAM)) NormalWbWa ReadWrite Executable
      else if (ipa_start GUEST_GICV <=? ipa) && (ipa <? ipa_start GUEST_GICV + mapping_size gicv)
      then Page (mapped_pa gicv + (page_base ipa - ipa_start GUEST_GICV)) DeviceNgNre ReadWrite ExecuteNever
      else Fault;
  lp_own : forall ipa, in_ipa GUEST_RAM ipa -> own_page base s ipa (ram_pa + (page_base ipa - ipa_start GUEST_RAM));
  lp_image : forall i, 0 <= i < image_size (image_header layout) ->
    guest_byte s (image_ipa layout + i) = Some (nth (Z.to_nat i) image 0);
  lp_dtb : exists blob fdt, Fdt_new blob = Ok fdt /\ describes (linux_config gicv) fdt /\
    forall i x, blob !! i = Some x -> guest_byte s (dtb_ipa layout + Z.of_nat i) = Some x;
  lp_vcpu : vcpus (vm s) !! id = Some (Vcpu_new_linux (image_ipa layout) (dtb_ipa layout));
  lp_root : exists root, guest_stage2_page_table_root (E:=unit) (vm s) = Ok (Some root) /\
    guest_stage2_register_values (vm_id (vm s)) root pa_range = Ok registers
}.

(** A VM that can be released. *)
Definition releasable s : Prop := exists devs, vm_ok base devs s.

(** A step that never panics, and that keeps the VM releasable and has a reason
    [R] when it fails. *)
Definition safely (R : machine G -> Prop) {E A} (m : stateful (machine G) E A) s (Q : A -> machine G -> Prop) : Prop :=
  match m s with
  | (Ok a, s') => Q a s'
  | (Err _, s') => releasable s' /\ R s'
  | (Panic, _) => False
  end.

Lemma safely_bind R {E A B} (m : stateful (machine G) E A) (k : A -> stateful (machine G) E B) s Q :
  safely R m s (fun a s' => safely R (k a) s' Q) -> safely R (sbind m k) s Q.
Proof. unfold safely, sbind. by destruct (m s) as [[a|e|] s']. Qed.

Lemma safely_lift (R : machine G -> Prop) {E A} (r : outcome E A) s (Q : A -> machine G -> Prop) :
  r <> Panic -> releasable s -> (forall e, r = Err e -> R s) -> (forall a, r = Ok a -> Q a s) -> safely R (slift r) s Q.
Proof. intros Hr Hs HR HQ. unfold safely, slift. destruct r as [a|e|]; [by apply HQ|split; [done|by eapply HR]|done]. Qed.

Lemma safely_smap_err R {E F A} (f : E -> F) (m : stateful (machine G) E A) s Q : safely R m s Q -> safely R (smap_err f m) s Q.
Proof. unfold safely, smap_err. by destruct (m s) as [[a|e|] s']. Qed.

Lemma safely_mono (R R' : machine G -> Prop) {E A} (m : stateful (machine G) E A) s (P Q : A -> machine G -> Prop) :
  safely R m s P -> (forall s', R s' -> R' s') -> (forall a s', P a s' -> Q a s') -> safely R' m s Q.
Proof.
  intros Hm HR H. unfold safely in *. destruct (m s) as [[a|e|] s']; [by apply H|destruct Hm; split; [done|by apply HR]|done].
Qed.

Lemma map_err_no_panic {E F A} (f : E -> F) (r : outcome E A) : r <> Panic -> Prelude.map_err f r <> Panic.
Proof. by destruct r. Qed.

Lemma map_err_Err {E F A} (f : E -> F) (r : outcome E A) e : Prelude.map_err f r = Err e -> forall a, r <> Ok a.
Proof. destruct r; cbn; congruence. Qed.

Lemma map_err_Ok {E F A} (f : E -> F) (r : outcome E A) a : Prelude.map_err f r = Ok a -> r = Ok a.
Proof. destruct r; cbn; congruence. Qed.

(** *** Guest RAM *)

Lemma Z2Nat_pos z : (0 <? z) = true -> (0 < Z.to_nat z)%nat.
Proof. intros Hz%Z.ltb_lt. lia. Qed.

(** A VM whose only region is its RAM, backed from [pa] on. *)
Definition ram_region (pa : Z) : IpaPaRegion := mkIpaPa GuestRam (ipa_start GUEST_RAM) pa (ipa_size GUEST_RAM).

Lemma ram_refused id m e :
  alloc_refused (mkMachine (VmCtl_new id) base m) GuestRam (Some (ipa_start GUEST_RAM)) (ipa_size GUEST_RAM) e ->
  fst (ps_allocate_contiguous_pages (Z.to_nat (ipa_size GUEST_RAM / PAGE_SIZE)) base) = Err Exhausted.
Proof.
  intros [[_ Hbig]|(sa & Hsa & Hr)]; [vm_compute in Hbig; by destruct Hbig|].
  assert (sa = ipa_size GUEST_RAM) as -> by (vm_compute in Hsa; injection Hsa as <-; reflexivity).
  destruct Hr as [[_ Hu]|[[_ Hn]|[(a & [= <-] & Hr)|(_ & _ & [Hm|Hx])]]].
  - by apply elem_of_nil in Hu.
  - by rewrite bool_decide_eq_true_2 in Hn by eauto.
  - destruct Hr as [[_ [Hz|[Hz|Hz]]]|[[_ Hz]|[_ (x & a & Hx & _)]]]; [..|by apply elem_of_nil in Hx];
      vm_compute in Hz; first [discriminate Hz|by destruct Hz].
  - vm_compute in Hm. discriminate Hm.
  - exact Hx.
Qed.

Lemma ram_allocated id m :
  ps_ok base ->
  safely (fun _ => fst (ps_allocate_contiguous_pages (Z.to_nat (ipa_size GUEST_RAM / PAGE_SIZE)) base) = Err Exhausted)
    (vm_mem_alloc GuestRam (Some (ipa_start GUEST_RAM)) (ipa_size GUEST_RAM)) (mkMachine (VmCtl_new id) base m)
    (fun ret s => exists pa, ret = Some pa /\ vm_ok base [] s /\ vm s = mkVmCtl id [IpaPa (ram_region pa)] []).
Proof.
  intros Hb. set (s0 := mkMachine _ _ _). pose proof (vm_ok_new base id m Hb) as Hok.
  pose proof (vm_mem_alloc_effect base [] s0 GuestRam (Some (ipa_start GUEST_RAM)) (ipa_size GUEST_RAM) Hok) as He.
  specialize (He ltac:(by unfold u64) ltac:(intros ? [= <-]; by unfold u64)). unfold safely.
  destruct (vm_mem_alloc _ _ _ s0) as [[ret|e|] s1]; [|destruct He as [-> He]; split; [by exists []|by eapply ram_refused]|done].
  destruct He as (sa & e & Hsa & (Hu & Hw & Hreg & Hlen) & -> & Hvm & Hok1 & _).
  assert (sa = ipa_size GUEST_RAM) as -> by (vm_compute in Hsa; injection Hsa as <-; reflexivity).
  cbn [need_physical_memory] in Hlen. destruct e as [r|r|r]; cbn [mem_pages length] in Hlen; [done| |].
  2:{ cbn in Hreg. destruct (proj2 (Hreg (ipa_start GUEST_RAM))). vm_compute. split; [discriminate|reflexivity]. }
  cbn [usage region_wf in_region] in Hu, Hw, Hreg. destruct Hw as (_ & _ & Hw0 & Hws & Hwa & Hwm & Hwe).
  assert (Hi : ip_ipa r = ipa_start GUEST_RAM).
  { pose proof (Hreg (ip_ipa r)) as H1. pose proof (Hreg (ipa_start GUEST_RAM)) as H2.
    unfold GUEST_RAM, DEFAULT_GUEST_RAM_SIZE, MIB in *. cbn [ipa_start ipa_size] in *. lia. }
  assert (Hz : ip_size r = ipa_size GUEST_RAM).
  { pose proof (Hreg (ip_ipa r + ip_size r - 1)) as H1. pose proof (Hreg (ipa_start GUEST_RAM + ipa_size GUEST_RAM - 1)) as H2.
    unfold GUEST_RAM, DEFAULT_GUEST_RAM_SIZE, MIB in *. cbn [ipa_start ipa_size] in *. lia. }
  exists (ip_pa r). split_and!; [|done|].
  - cbn [mem_pages]. rewrite Hz.
    assert (Hn : (0 < Z.to_nat (ipa_size GUEST_RAM / PAGE_SIZE))%nat) by (apply Z2Nat_pos; reflexivity).
    destruct (Z.to_nat (ipa_size GUEST_RAM / PAGE_SIZE)) as [|n]; [lia|]. by rewrite run_pages_S.
  - rewrite Hvm. unfold ram_region. destruct r as [u i p z]. cbn [ip_usage ip_ipa ip_pa ip_size] in *. by subst.
Qed.

(** The window of the virtual CPU interface. *)
Record gicv_ok (gicv : GuestDeviceMapping) : Prop := {
  gv_pa : u64 (mapped_pa gicv) /\ mapped_pa gicv mod PAGE_SIZE = 0;
  gv_size : 0 < mapping_size gicv <= ipa_size GUEST_GICV /\ mapping_size gicv mod PAGE_SIZE = 0;
  gv_ipa : u64 (device_ipa gicv);
  gv_len : 0 < rsize (device gicv) /\ device_ipa gicv + rsize (device gicv) <= ipa_start GUEST_GICV + ipa_size GUEST_GICV
}.

Lemma gicv_is_ok d gicv : region_ok d -> map_device_into_window GUEST_GICV d = Ok gicv -> gicv_ok gicv.
Proof.
  intros Hd E. pose proof (map_device_into_window_spec GUEST_GICV d) as Hs. rewrite E in Hs.
  destruct Hs as (Hdev & Hpm & Hsm & _ & Hfit & Hi & _); [by split; unfold u64|done|]. destruct Hd as (H1 & H2 & H3).
  unfold rend in H3. destruct (Hi 0 ltac:(lia)) as [Hi1 Hi2]. destruct (Hi (rsize d - 1) ltac:(lia)) as [Hi3 _].
  assert (Hpos : 0 <= mapped_pa gicv).
  { unfold map_device_into_window in E. destruct (_ || _ || _); [done|]. unfold sub64, expect in E.
    destruct (checked_sub _ _) as [x|] eqn:Ex; [|done]. cbn [obind] in E. apply checked_sub_Some in Ex as [-> Hx].
    repeat (destruct (checked_add _ _); cbn [ok_or obind] in E; [|done]). destruct (_ <? _); [done|].
    repeat (destruct (checked_add _ _); cbn [ok_or obind] in E; [|done]). injection E as <-. cbn [mapped_pa]. lia. }
  unfold u64, GUEST_GICV, PAGE_SIZE in *. cbn [ipa_start ipa_size] in *. subst d. split; [split; [unfold u64; lia|exact Hpm]|split; [unfold GUEST_GICV, PAGE_SIZE; cbn [ipa_size]; lia|exact Hsm]|unfold u64; lia|].
  unfold GUEST_GICV, PAGE_SIZE. cbn [ipa_start ipa_size]. lia.
Qed.

Lemma linux_config_typed gicv : gicv_ok gicv -> config_typed (linux_config gicv).
Proof.
  intros [_ _ Hi Hl]. split.
  - apply Forall_cons_2; [split; by unfold u64|by apply Forall_nil].
  - intros s [= <-]. apply bytes_checked. vm_compute. reflexivity.
  - intros u [= <-]. cbn. unfold u64, u32, GUEST_PL011_CLOCK_HZ, VIRTUAL_PL011_IRQ, PAGE_SIZE. lia.
  - intros g [= <-]. cbn [distributor_base distributor_size cpu_interface_base cpu_interface_size].
    unfold GUEST_GICV, GUEST_GICD, PAGE_SIZE, u64 in *. cbn [ipa_start ipa_size] in *. lia.
Qed.

(** The configuration is accepted when the interface starts on a page. *)
Lemma linux_config_accepted gicv :
  gicv_ok gicv -> device_ipa gicv mod PAGE_SIZE = 0 -> validate_config (linux_config gicv) = Ok ().
Proof.
  intros [_ _ [Hi _] [Hl He]] Ha. unfold validate_config, linux_config.
  cbn [memory_regions bootargs gf_pl011 gicv2 length Nat.eqb orb try_each]. change (MAX_GUEST_MEMORY_REGIONS <? 1)%nat with false.
  change (bad_region _) with false. cbn [obind]. change (bad_pl011 _ _) with false. change (128 <=? length linux_bootargs)%nat with false.
  assert (Hbad : bad_gic (mkGuestGicV2 (ipa_start GUEST_GICD) (ipa_size GUEST_GICD) (device_ipa gicv) (rsize (device gicv))) = false); [|by rewrite Hbad].
  unfold bad_gic, unaligned, overflows. cbn [distributor_base distributor_size cpu_interface_base cpu_interface_size].
  change 0xfff with (PAGE_SIZE - 1). rewrite (land_page_mask (device_ipa gicv)).
  rewrite Ha. change (ipa_size GUEST_GICD =? 0) with false. change (Z.land (ipa_start GUEST_GICD) (PAGE_SIZE - 1) =? 0) with true.
  change (2 ^ 64 <=? ipa_start GUEST_GICD + ipa_size GUEST_GICD) with false.
  unfold GUEST_GICV, PAGE_SIZE in He. cbn [ipa_start ipa_size] in He.
  rewrite (proj2 (Z.eqb_neq (rsize (device gicv)) 0)), (proj2 (Z.leb_gt (2 ^ 64) _)) by lia. done.
Qed.

(** The machine with other memory contents: the VM has no tables yet. *)
Lemma vm_ok_memory s m' : tables (mems s) = [] -> vm_ok base [] s -> vm_ok base [] (mkMachine (vm s) (mm s) m').
Proof. intros Ht [Ha Hr _]. split; [done|done|]. unfold maps. cbn [vm]. by rewrite Ht. Qed.

Record ram_backed (pa : Z) s : Prop := {
  rb_range : 0 <= pa /\ pa mod PAGE_SIZE = 0 /\ pa + ipa_size GUEST_RAM <= 2 ^ 48
}.

Lemma ram_is_backed devs s pa : vm_ok base devs s -> IpaPa (ram_region pa) ∈ mems s -> ram_backed pa s.
Proof.
  intros Hok Hin. destruct (span_of_region base devs s _ Hok Hin) as (Hsp & Hsz & _).
  pose proof (sp_pa _ _ _ _ _ Hsp) as (H0 & Hm & He). rewrite <- Hsz in He. clear Hsz Hsp.
  split. split_and!; assumption.
Qed.

(** The placement of image and device tree in RAM. *)
Record placed (layout : LinuxBootLayout) (image : list Z) : Prop := {
  pl_image : ipa_start GUEST_RAM <= image_ipa layout;
  pl_tail : Z.of_nat (length image) <= image_size (image_header layout);
  pl_dtb : image_ipa layout + image_size (image_header layout) <= dtb_ipa layout;
  pl_end : dtb_ipa layout + LINUX_DTB_CAPACITY <= ipa_start GUEST_RAM + ipa_size GUEST_RAM
}.

Lemma layout_placed image layout : Forall u8 image -> default_for_image image None = Ok layout -> placed layout image.
Proof.
  intros Hb Hl. unfold default_for_image in Hl.
  pose proof (linux_layout_lowest image (ipa_start GUEST_RAM) (ipa_size GUEST_RAM) None Hb) as Hs. rewrite Hl in Hs.
  destruct Hs as (Hp & _ & _ & (_ & _ & _ & Hi & _ & Hd & _ & He & _) & _); [by unfold u64|by unfold u64|done|].
  pose proof (proj1 (proj2 (parse_spec image (image_header layout) Hb)) Hp) as (Ht & _ & _ & _ & _ & _ & _ & _ & _ & _ & Hlen).
  unfold u64 in Ht. split; lia.
Qed.

Lemma layout_no_panic image : Forall u8 image -> default_for_image image None <> Panic.
Proof.
  intros Hb. unfold default_for_image. pose proof (linux_layout_lowest image (ipa_start GUEST_RAM) (ipa_size GUEST_RAM) None Hb) as Hs.
  intros E. rewrite E in Hs. apply Hs; [by unfold u64|by unfold u64|done].
Qed.

Lemma guest_pa_for_ok pa ipa :
  0 <= pa -> pa + ipa_size GUEST_RAM <= 2 ^ 48 -> in_ipa GUEST_RAM ipa -> guest_pa_for pa ipa = Ok (pa + (ipa - ipa_start GUEST_RAM)).
Proof.
  intros H0 He [H1 H2]. unfold guest_pa_for. rewrite (proj2 (checked_sub_Some _ _ _) (conj eq_refl H1)). cbn [ok_or obind].
  unfold GUEST_RAM, DEFAULT_GUEST_RAM_SIZE, MIB in *. cbn [ipa_start ipa_size] in *. by rewrite checked_add_ok by lia.
Qed.

(** What the loader leaves in RAM at [pa]. *)
Record loaded (layout : LinuxBootLayout) (gicv : GuestDeviceMapping) (image : list Z) (pa : Z) (m : Z -> Z) : Prop := {
  ld_image : forall i, 0 <= i < image_size (image_header layout) ->
    byte_in m (pa + (image_ipa layout - ipa_start GUEST_RAM) + i) = nth (Z.to_nat i) image 0;
  ld_dtb : exists blob fdt, Fdt_new blob = Ok fdt /\ describes (linux_config gicv) fdt /\ (length blob <= 2048)%nat /\
    forall i x, blob !! i = Some x -> byte_in m (pa + (dtb_ipa layout - ipa_start GUEST_RAM) + Z.of_nat i) = x
}.

Lemma nth_replicate_zero n i : nth i (replicate n 0) 0 = 0.
Proof. revert i. induction n as [|n IH]; intros [|i]; cbn; auto. Qed.

(** The image with its tail is read back as if it were extended with zeros. *)
Lemma image_bytes m start image tail i :
  Forall u8 image -> 0 <= i < Z.of_nat (length image) + Z.of_nat tail ->
  byte_in (copy_bytes (copy_bytes m start image) (start + Z.of_nat (length image)) (replicate tail 0)) (start + i) =
    nth (Z.to_nat i) image 0.
Proof.
  intros Hb Hi. rewrite byte_in_copy by (apply Forall_replicate; by unfold u8). rewrite length_replicate.
  destruct (_ && _) eqn:E.
  - bool_prop. rewrite nth_replicate_zero. symmetry. apply nth_overflow. lia.
  - assert (Hlt : i < Z.of_nat (length image)) by (apply andb_false_iff in E as [E|E]; bool_prop; lia).
    rewrite byte_in_copy by done. rewrite (proj2 (Z.leb_le _ _)), (proj2 (Z.ltb_lt _ _)) by lia. cbn [andb]. f_equal. lia.
Qed.

Lemma read_bytes_u8 m start n : Forall u8 (read_bytes m start n).
Proof. apply Forall_map, Forall_forall. intros i _. apply byte_in_u8. Qed.

Lemma length_read_bytes m start n : length (read_bytes m start n) = n.
Proof. unfold read_bytes. by rewrite length_map, length_seq. Qed.

Lemma load_linux_safely s layout gicv pa image :
  vm_ok base [] s -> mems s = [IpaPa (ram_region pa)] -> placed layout image -> Forall u8 image ->
  gicv_ok gicv ->
  safely (fun _ => device_ipa gicv mod PAGE_SIZE <> 0) (load_linux layout gicv pa image) s
    (fun r s' => exists m' len, s' = mkMachine (vm s) (mm s) m' /\ loaded layout gicv image pa m' /\
       r = (pa + (image_ipa layout - ipa_start GUEST_RAM), pa + (dtb_ipa layout - ipa_start GUEST_RAM), len) /\
       Z.of_nat len <= LINUX_DTB_CAPACITY).
Proof.
  intros Hok Hmems [P1 P2 P3 P4] Hb Hgv. pose proof (linux_config_typed gicv Hgv) as Hc. assert (Ht : tables (mems s) = []) by (by rewrite Hmems).
  destruct (ram_is_backed [] s pa Hok) as [(R1 & R2 & R3)]; [rewrite Hmems; by left|].
  pose proof (fun m' => vm_ok_memory s m' Ht Hok) as Hany.
  assert (0 < LINUX_DTB_CAPACITY) by reflexivity.
  unfold safely, load_linux, or_unexpected, sbind, slift, sread, set_memory, sret.
  rewrite (guest_pa_for_ok pa (image_ipa layout)) by (done || (unfold in_ipa; lia)).
  rewrite (guest_pa_for_ok pa (dtb_ipa layout)) by (done || (unfold in_ipa; lia)). cbn [Prelude.map_err vm mm mem].
  set (ip := pa + (image_ipa layout - ipa_start GUEST_RAM)). set (dp := pa + (dtb_ipa layout - ipa_start GUEST_RAM)).
  unfold sub64, expect. rewrite (proj2 (checked_sub_Some _ _ _) (conj eq_refl P2)).
  set (tail := Z.to_nat (image_size (image_header layout) - Z.of_nat (length image))).
  set (m1 := copy_bytes (copy_bytes (mem s) ip image) (ip + Z.of_nat (length image)) (replicate tail 0)).
  set (buffer := read_bytes m1 dp (Z.to_nat LINUX_DTB_CAPACITY)).
  destruct (validate_config (linux_config gicv)) as [[]|e|] eqn:Ev.
  - destruct (guest_dtb_written (linux_config gicv) buffer Hc Ev) as (len & buffer' & fdt & -> & Hu & Hlen & Hl & _ & Hfdt & Hd).
    { unfold buffer. rewrite length_read_bytes. change LINUX_DTB_CAPACITY with 2097152. lia. }
    cbn [Prelude.map_err]. specialize (Hu (read_bytes_u8 _ _ _)). exists (copy_bytes m1 dp buffer'), len. split; [done|].
    assert (Hlb : Z.of_nat (length buffer') = LINUX_DTB_CAPACITY) by (rewrite Hl; unfold buffer; rewrite length_read_bytes; lia).
    split; [|split; [done|change LINUX_DTB_CAPACITY with 2097152; lia]]. split.
    + intros i Hi. fold ip. rewrite byte_in_copy by done. rewrite (proj2 (Z.leb_gt dp (ip + i))) by (unfold dp, ip; lia). cbn [andb].
      unfold m1. apply image_bytes; [done|]. unfold tail. lia.
    + exists (take len buffer'), fdt. split; [done|]. split; [done|]. split; [rewrite length_take; lia|]. intros i x Hx.
      apply lookup_take_Some in Hx as [Hx Hi]. pose proof (lookup_lt_Some _ _ _ Hx). rewrite byte_in_copy by done.
      rewrite (proj2 (Z.leb_le _ _)), (proj2 (Z.ltb_lt _ _)) by (fold dp; lia). cbn [andb].
      replace (Z.to_nat (pa + (dtb_ipa layout - ipa_start GUEST_RAM) + Z.of_nat i - dp)) with i by (unfold dp; lia).
      by apply nth_lookup_Some.
  - unfold build_guest_dtb. rewrite Ev. cbn [Prelude.map_err]. split; [exists []; apply Hany|].
    intros Ha. by rewrite (linux_config_accepted gicv Hgv Ha) in Ev.
  - by apply validate_config_total in Ev.
Qed.

(** *** Translation *)

Lemma ram_not_tables devs s pa a :
  vm_ok base devs s -> IpaPa (ram_region pa) ∈ mems s -> pa <= a < pa + ipa_size GUEST_RAM -> ~ in_tables (tables (mems s)) a.
Proof.
  intros Hok Hin Ha (t & Ht & Hta). destruct (ram_is_backed devs s pa Hok Hin) as [(R1 & R2 & R3)].
  pose proof (accounts_page base _ _ _ (vo_accounts _ _ _ Hok) (tables_owned _ _ Ht)) as [_ Htm].
  eapply (region_pages_no_tables base (mems s)); [apply Hok|apply Hok|exact Hin| |exact Ht].
  cbn [mem_pages ram_region ip_pa ip_size]. apply elem_of_run_pages. exists (Z.to_nat ((t - pa) / PAGE_SIZE)).
  unfold GUEST_RAM, DEFAULT_GUEST_RAM_SIZE, MIB, PAGE_SIZE in *. cbn [ipa_size] in *.
  split; Z.to_euclidean_division_equations; lia.
Qed.

Lemma length_owned_region r : length (owned [IpaPa r]) = Z.to_nat (ip_size r / PAGE_SIZE).
Proof. unfold owned. cbn [mbind list_bind mem_pages]. rewrite app_nil_r. unfold run_pages. by rewrite length_fmap, length_seq. Qed.

Lemma tables_refused s id pa e :
  vm s = mkVmCtl id [IpaPa (ram_region pa)] [] -> alloc_refused s GuestStage2PageTable None PAGE_SIZE e -> cannot_grow s.
Proof.
  intros Hvm [[_ Hbig]|(sa & Hsa & Hr)]; [vm_compute in Hbig; by destruct Hbig|].
  assert (sa = PAGE_SIZE) as -> by (vm_compute in Hsa; injection Hsa as <-; reflexivity).
  destruct Hr as [[_ Hu]|[[_ Hn]|[(a & [=] & _)|(_ & _ & [Hm|Hx])]]].
  - rewrite Hvm in Hu. by apply list_elem_of_singleton in Hu.
  - by destruct Hn.
  - exfalso. rewrite Hvm in Hm. cbn [vm_mem] in Hm. rewrite length_owned_region in Hm. cbn [ram_region ip_size] in Hm.
    assert (Hc : 0 <= ipa_size GUEST_RAM / PAGE_SIZE /\ ipa_size GUEST_RAM / PAGE_SIZE + PAGE_SIZE / PAGE_SIZE <= MAX_GUEST_MEM_PAGES)
      by (split; discriminate).
    clear -Hm Hc. lia.
  - right. rewrite ps_allocate_one. exact Hx.
Qed.

(** The tables of a VM that has only its RAM: one page, empty. *)
Lemma tables_allocated s id pa :
  vm_ok base [] s -> vm s = mkVmCtl id [IpaPa (ram_region pa)] [] ->
  safely cannot_grow (vm_mem_alloc GuestStage2PageTable None PAGE_SIZE) s (fun _ s' =>
    vm_ok base [] s' /\ IpaPa (ram_region pa) ∈ mems s' /\ find_usage GuestRam (mems s') = Some (IpaPa (ram_region pa)) /\
    tables (mems s') <> [] /\ vm_id (vm s') = id /\ vcpus (vm s') = [] /\
    (forall a, pa <= a < pa + ipa_size GUEST_RAM -> mem s' a = mem s a) /\ forall v, va_ok v -> leaf_of s' v = 0).
Proof.
  intros Hok Hvm. pose proof (vm_mem_alloc_effect base [] s GuestStage2PageTable None PAGE_SIZE Hok) as He.
  specialize (He ltac:(by unfold u64) ltac:(done)). unfold safely.
  destruct (vm_mem_alloc _ _ _ s) as [[ret|e|] s1]; [|destruct He as [-> He]; split; [by exists []|by eapply tables_refused]|done].
  destruct He as (sa & e & Hsa & (Hu & Hw & _ & Hlen) & _ & Hvm1 & Hok1 & _ & Hf & Hl). rewrite Hvm in Hvm1.
  cbn [vm_mem vm_id vcpus app] in Hvm1. assert (Hin : IpaPa (ram_region pa) ∈ mems s1) by (rewrite Hvm1; by left).
  assert (Htab : tables (mems s1) = mem_pages e /\ mem_pages e <> []).
  { rewrite Hvm1. unfold tables, find_usage. cbn [vm_mem List.find usage ram_region ip_usage]. rewrite bool_decide_eq_false_2 by done.
    rewrite bool_decide_eq_true_2 by done. destruct e as [r|r|r]; cbn [usage region_wf] in Hu, Hw.
    - destruct Hw as [Hw _]. by rewrite Hu in Hw.
    - destruct Hw as [Hw _]. by rewrite Hu in Hw.
    - split; [done|apply Hw]. }
  destruct Htab as [Htab Hne]. split_and!.
  - done.
  - done.
  - by rewrite Hvm1.
  - by rewrite Htab.
  - by rewrite Hvm1.
  - by rewrite Hvm1.
  - intros a Ha. apply Hf. rewrite <- Htab. by eapply ram_not_tables.
  - intros v Hv. rewrite Hl by done. unfold leaf_of, tables. by rewrite Hvm.
Qed.

(** A growth of the tables leaves RAM and the rest of the VM alone. *)
Lemma grows_ram devs s s' pa :
  vm_ok base devs s' -> grows s s' -> IpaPa (ram_region pa) ∈ mems s ->
  IpaPa (ram_region pa) ∈ mems s' /\ (tables (mems s) <> [] -> tables (mems s') <> []) /\
  forall a, pa <= a < pa + ipa_size GUEST_RAM -> mem s' a = mem s a.
Proof.
  intros Hok Hg Hin. assert (Hin' : IpaPa (ram_region pa) ∈ mems s') by (by apply (gr_backing _ _ Hg)).
  split_and!; [done| |].
  - destruct (gr_tables _ _ Hg) as (new & ->). intros Hne He. by apply app_eq_nil in He as [? _].
  - intros a Ha. apply (gr_frame _ _ Hg). by eapply ram_not_tables.
Qed.

Lemma leaf_result_0 : leaf_result 0 = Fault.
Proof. reflexivity. Qed.

(** The end of the mapping: what an address translates to. *)
Definition linux_leaf (pa : Z) (gicv : GuestDeviceMapping) (v : Z) : Z :=
  if (ipa_start GUEST_RAM <=? v) && (v <? ipa_start GUEST_RAM + ipa_size GUEST_RAM)
  then encode_l3_page_descriptor (pa + (page_base v - ipa_start GUEST_RAM)) NormalWbWa ReadWrite Executable
  else if (ipa_start GUEST_GICV <=? v) && (v <? ipa_start GUEST_GICV + mapping_size gicv)
  then encode_l3_page_descriptor (mapped_pa gicv + (page_base v - ipa_start GUEST_GICV)) DeviceNgNre ReadWrite ExecuteNever
  else 0.

Definition gicv_window (gicv : GuestDeviceMapping) : device_window :=
  mkWindow (ipa_start GUEST_GICV) (mapped_pa gicv) (mapping_size gicv).

Lemma ram_mapped s pa mmfr0 :
  vm_ok base [] s -> find_usage GuestRam (mems s) = Some (IpaPa (ram_region pa)) ->
  tables (mems s) <> [] -> (forall v, va_ok v -> leaf_of s v = 0) ->
  safely (fun s' => cannot_grow s' \/ (forall bits, mmfr0 ≫= mmfr0_pa_bits <> Some bits) \/
      exists bits, mmfr0 ≫= mmfr0_pa_bits = Some bits /\ 2 ^ bits < pa + ipa_size GUEST_RAM /\ IpaPa (ram_region pa) ∈ mems s')
    (VmCtl_map mmfr0 GuestRam NormalWbWa ReadWrite Executable) s (fun _ s' =>
    is_Some (mmfr0 ≫= mmfr0_pa_bits) /\ vm_ok base [] s' /\ grows s s' /\
    forall v, va_ok v -> leaf_of s' v =
      if (ipa_start GUEST_RAM <=? v) && (v <? ipa_start GUEST_RAM + ipa_size GUEST_RAM)
      then encode_l3_page_descriptor (pa + (page_base v - ipa_start GUEST_RAM)) NormalWbWa ReadWrite Executable else leaf_of s v).
Proof.
  intros Hok Hfind Hne Hzero. unfold VmCtl_map. apply safely_bind, safely_lift; [by destruct mmfr0|by exists []|..].
  { intros e He. right. left. by destruct mmfr0. }
  intros value Hm. destruct mmfr0 as [value'|]; [|done]. injection Hm as ->.
  apply safely_bind, safely_lift; [by destruct (mmfr0_pa_bits value)|by exists []|..].
  { intros e He. right. left. cbn [mbind option_bind]. by destruct (mmfr0_pa_bits value). }
  intros bits Hbits. destruct (mmfr0_pa_bits value) as [b'|] eqn:Eb; [|done]. injection Hbits as ->.
  unfold safely. destruct (map_with_pa_bits GuestRam NormalWbWa ReadWrite Executable bits s) as [r s'] eqn:Er.
  pose proof (map_with_pa_bits_effect base [] s GuestRam NormalWbWa ReadWrite Executable bits r s' Hok (mmfr0_bits_range _ _ Eb) Er) as He.
  rewrite Hfind in He. destruct (Z.ltb_spec (2 ^ bits) (ip_pa (ram_region pa) + ip_size (ram_region pa))) as [Hlt|_].
  { destruct He as [-> ->]. split; [by exists []|]. right. right. exists bits. split; [done|]. split; [done|].
    by apply find_usage_Some in Hfind as [? _]. }
  destruct r as [[]|e|]; cbn [span_result] in He; [| |done].
  - destruct He as (Hok' & Hg & Hl). split; [by eexists|]. split; [done|]. split; [done|]. intros v Hv. rewrite Hl by done.
    rewrite <- page_multiple by done. done.
  - destruct He as (k & Hk & (Hok' & _) & [[_ Ht]|[[_ Hc]|(_ & Hx & _)]]); [done|split; [by exists []|by left]|].
    exfalso. apply Hx, Hzero. clear -Hk. cbn [ram_region ip_ipa ip_size] in *.
    change (ipa_size GUEST_RAM / PAGE_SIZE) with 131072 in Hk. unfold va_ok, GUEST_RAM, DEFAULT_GUEST_RAM_SIZE, MIB, PAGE_SIZE in *.
    cbn [ipa_start ipa_size] in *. lia.
Qed.

Lemma gicv_mapped s mmfr0 gicv :
  vm_ok base [] s -> gicv_ok gicv -> is_Some (mmfr0 ≫= mmfr0_pa_bits) -> tables (mems s) <> [] ->
  (forall v, va_ok v -> v < ipa_start GUEST_RAM -> leaf_of s v = 0) ->
  safely (fun s' => cannot_grow s' \/
      exists bits, mmfr0 ≫= mmfr0_pa_bits = Some bits /\ 2 ^ bits < mapped_pa gicv + mapping_size gicv)
    (map_external_device mmfr0 (ipa_start GUEST_GICV) (mapped_pa gicv) (mapping_size gicv)) s (fun _ s' =>
    vm_ok base [gicv_window gicv] s' /\ grows s s' /\ mapped_pa gicv + mapping_size gicv <= 2 ^ 48 /\
    forall v, va_ok v -> leaf_of s' v =
      if (ipa_start GUEST_GICV <=? v) && (v <? ipa_start GUEST_GICV + mapping_size gicv)
      then encode_l3_page_descriptor (mapped_pa gicv + (page_base v - ipa_start GUEST_GICV)) DeviceNgNre ReadWrite ExecuteNever
      else leaf_of s v).
Proof.
  intros Hok [[Hpa Hpm] [Hsz Hsm] _ _] [bits Hbits] Hne Hzero. destruct mmfr0 as [value|]; [|done]. cbn [mbind option_bind] in *.
  assert (Hsz' : 0 < mapping_size gicv <= 8192) by (unfold GUEST_GICV, PAGE_SIZE in Hsz; cbn [ipa_size] in Hsz; lia).
  unfold map_external_device. apply safely_bind, safely_lift; [by destruct (_ || _ || _)|by exists []|..].
  { intros e. rewrite !is_page_aligned_mod, is_aligned_mod by done. rewrite Hpm, Hsm. done. }
  intros _ _. apply safely_bind, safely_lift; [done|by exists []|done|]. intros ? [= <-].
  apply safely_bind, safely_lift; [by rewrite Hbits|by exists []|by rewrite Hbits|]. intros b' Hb'. rewrite Hbits in Hb'. injection Hb' as <-.
  pose proof (mmfr0_bits_range _ _ Hbits) as Hrange. unfold safely.
  destruct (map_external_device_with_pa_bits _ _ _ bits s) as [r s'] eqn:Er.
  destruct (map_external_device_effect base [] s (ipa_start GUEST_GICV) (mapped_pa gicv) (mapping_size gicv) bits r s' Hok ltac:(by unfold u64) Hpa
    ltac:(unfold u64; lia) Hrange Er) as [(e & -> & -> & Hno)|(_ & _ & Hlim & He)].
  { split; [by exists []|]. right. exists bits. split; [done|]. apply Z.lt_nge. intros Hle. apply Hno.
    split; [|done]. unfold window. change (ipa_start GUEST_GICV mod PAGE_SIZE) with 0. unfold GUEST_GICV. cbn [ipa_start]. lia. }
  destruct r as [[]|e|]; cbn [span_result] in He; [| |done].
  - destruct He as (Hok' & Hg & Hl). split; [done|]. split; [done|].
    split; [pose proof (Z.pow_le_mono_r 2 bits 48 ltac:(lia) ltac:(lia)); lia|]. intros v Hv. rewrite Hl by done.
    rewrite <- page_multiple by (done || lia). done.
  - destruct He as (k & Hk & (Hok' & _) & [[_ Ht]|[[_ Hc]|(_ & Hx & _)]]); [done|split; [by exists [gicv_window gicv]|by left]|].
    exfalso. apply Hx, Hzero; clear -Hk Hsz' Hsm; unfold va_ok, GUEST_RAM, GUEST_GICV, PAGE_SIZE in *; cbn [ipa_start ipa_size] in *;
      Z.to_euclidean_division_equations; lia.
Qed.

(** What the mapping leaves. *)
Record linux_mapped (id : Z) (pa : Z) (gicv : GuestDeviceMapping) (pa_range : Z) (m : Z -> Z)
    (registers : GuestStage2RegisterValues) s : Prop := {
  lm_ok : vm_ok base [gicv_window gicv] s;
  lm_ram : IpaPa (ram_region pa) ∈ mems s;
  lm_leaf : forall v, va_ok v -> leaf_of s v = linux_leaf pa gicv v;
  lm_limit : mapped_pa gicv + mapping_size gicv <= 2 ^ 48;
  lm_memory : forall a, pa <= a < pa + ipa_size GUEST_RAM -> mem s a = m a;
  lm_vm : vm_id (vm s) = id /\ vcpus (vm s) = [];
  lm_root : exists root, guest_stage2_page_table_root (E:=unit) (vm s) = Ok (Some root) /\
    guest_stage2_register_values id root pa_range = Ok registers
}.

Lemma guest_stage2_register_values_total id root r : u8 r -> guest_stage2_register_values id root r <> Panic.
Proof.
  intros Hr. unfold guest_stage2_register_values. destruct (pa_range_cases r Hr) as [(bits & -> & _ & Hb)|[-> _]]; [|done].
  cbn [obind]. rewrite Z.shiftl_1_l. pose proof (Z.pow_le_mono_r 2 bits 48 ltac:(lia) ltac:(lia)).
  pose proof (Z.pow_pos_nonneg 2 bits ltac:(lia) ltac:(lia)). rewrite sub64_ok by lia. cbn [obind]. by destruct (_ || _).
Qed.

Lemma root_of_tables devs s :
  vm_ok base devs s -> tables (mems s) <> [] -> exists root, root ∈ tables (mems s) /\ forall E, guest_stage2_page_table_root (E:=E) (vm s) = Ok (Some root).
Proof.
  intros Hok Ht. destruct (tables (mems s)) as [|root rest] eqn:Er; [done|]. exists root. split; [by left|]. intros E. by eapply root_spec.
Qed.

Lemma linux_leaf_end pa gicv v :
  gicv_ok gicv ->
  (if (ipa_start GUEST_GICV <=? v) && (v <? ipa_start GUEST_GICV + mapping_size gicv)
   then encode_l3_page_descriptor (mapped_pa gicv + (page_base v - ipa_start GUEST_GICV)) DeviceNgNre ReadWrite ExecuteNever
   else if (ipa_start GUEST_RAM <=? v) && (v <? ipa_start GUEST_RAM + ipa_size GUEST_RAM)
   then encode_l3_page_descriptor (pa + (page_base v - ipa_start GUEST_RAM)) NormalWbWa ReadWrite Executable else 0) =
  linux_leaf pa gicv v.
Proof.
  intros [_ [Hsz _] _ _]. unfold linux_leaf.
  destruct ((ipa_start GUEST_RAM <=? v) && (v <? ipa_start GUEST_RAM + ipa_size GUEST_RAM)) eqn:E2; [|done].
  rewrite (proj2 (Z.ltb_ge _ _)), andb_false_r; [done|].
  apply andb_true_iff in E2 as [E2%Z.leb_le _]. unfold GUEST_GICV, GUEST_RAM, PAGE_SIZE in *. cbn [ipa_start ipa_size] in *. lia.
Qed.

(** Why the tables could not be built: no page for a table, or addresses beyond
    those the processor has. *)
Inductive map_refused (mmfr0 : option Z) (pa : Z) (gicv : GuestDeviceMapping) s : Prop :=
| RefusedTables : cannot_grow s -> map_refused mmfr0 pa gicv s
| RefusedWidth : (forall bits, mmfr0 ≫= mmfr0_pa_bits <> Some bits) -> map_refused mmfr0 pa gicv s
| RefusedRam bits :
    mmfr0 ≫= mmfr0_pa_bits = Some bits -> 2 ^ bits < pa + ipa_size GUEST_RAM -> IpaPa (ram_region pa) ∈ mems s ->
    map_refused mmfr0 pa gicv s
| RefusedDevice bits :
    mmfr0 ≫= mmfr0_pa_bits = Some bits -> 2 ^ bits < mapped_pa gicv + mapping_size gicv -> map_refused mmfr0 pa gicv s
| RefusedRoot bits root :
    mmfr0 ≫= mmfr0_pa_bits = Some bits -> 2 ^ bits <= root -> root ∈ tables (mems s) -> map_refused mmfr0 pa gicv s.

Lemma register_values_refused value id root e :
  root mod PAGE_SIZE = 0 -> guest_stage2_register_values id root (mmfr0_pa_range value) = Err e ->
  (forall bits, mmfr0_pa_bits value <> Some bits) \/ exists bits, mmfr0_pa_bits value = Some bits /\ 2 ^ bits <= root.
Proof.
  intros Hr. unfold guest_stage2_register_values, mmfr0_pa_bits, pa_bits_from_pa_range.
  assert (Hb : forall bits, 0 < bits <= 48 ->
    (let? max_root_pa := sub64 (Z.shiftl 1 bits) 1 in
     reject negb (is_page_aligned root) || (max_root_pa <? root) with InvalidTableBase in Ok ()) <> Ok () -> 2 ^ bits <= root).
  { intros bits Hbits. rewrite Z.shiftl_1_l. pose proof (Z.pow_le_mono_r 2 bits 48 ltac:(lia) ltac:(lia)).
    pose proof (Z.pow_pos_nonneg 2 bits ltac:(lia) ltac:(lia)). rewrite sub64_ok by lia. cbn [obind]. rewrite is_page_aligned_mod, Hr.
    cbn [Z.eqb negb orb]. destruct (Z.ltb_spec (2 ^ bits - 1) root); [lia|done]. }
  destruct (mmfr0_pa_range value) as [|p|p]; [|do 3 (try destruct p as [p|p|])|]; try (intros _; left; done);
    intros He; right; eexists; (split; [done|]); apply Hb; try lia; intros Hok; cbn [obind] in He, Hok;
    destruct (sub64 _ _); cbn [obind] in He, Hok; try done; by destruct (_ || _).
Qed.

Lemma map_linux_safely s id pa mmfr0 gicv :
  vm_ok base [] s -> vm s = mkVmCtl id [IpaPa (ram_region pa)] [] -> gicv_ok gicv ->
  safely (map_refused mmfr0 pa gicv) (map_linux mmfr0 gicv) s (fun registers s' => exists value, mmfr0 = Some value /\
    linux_mapped id pa gicv (mmfr0_pa_range value) (mem s) registers s').
Proof.
  intros Hok Hvm Hgv. unfold map_linux.
  eapply safely_bind, safely_smap_err, safely_mono; [by apply tables_allocated|by apply RefusedTables|].
  intros _ s1 (Hok1 & Hin1 & Hf1 & Ht1 & Hid1 & Hv1 & Hm1 & Hl1). cbn beta.
  eapply safely_bind, safely_smap_err, safely_mono; [by apply (ram_mapped _ pa)|..].
  { intros s' [Hc|[Hw|(bits & Hb1 & Hb2 & Hb3)]]; [by apply RefusedTables|by apply RefusedWidth|by eapply RefusedRam]. }
  intros _ s2 ([bits Hbits] & Hok2 & Hg2 & Hl2). cbn beta. destruct (grows_ram _ _ _ pa Hok2 Hg2 Hin1) as (Hin2 & Ht2 & Hm2).
  eapply safely_bind, safely_smap_err, safely_mono; [apply gicv_mapped; [done|done|by eexists|by apply Ht2|]|..].
  { intros v Hv Hlt. rewrite Hl2, (proj2 (Z.leb_gt _ _) Hlt) by done. by apply Hl1. }
  { intros s' [Hc|(bits' & Hb1 & Hb2)]; [by apply RefusedTables|by eapply RefusedDevice]. }
  destruct mmfr0 as [value|]; [|done]. cbn [mbind option_bind] in Hbits.
  intros _ s3 (Hok3 & Hg3 & Hlim & Hl3). cbn beta. destruct (grows_ram _ _ _ pa Hok3 Hg3 Hin2) as (Hin3 & Ht3 & Hm3).
  destruct (root_of_tables _ s3 Hok3 (Ht3 (Ht2 Ht1))) as (root & Hrt & Hroot).
  apply safely_bind, safely_lift; [done|by eexists|done|]. intros ? [= <-].
  unfold sbind at 1, stry at 1, safely. rewrite Hroot. unfold sbind, slift, expect, stry.
  assert (Hid : vm_id (vm s3) = id) by (by rewrite (proj1 (gr_vm _ _ Hg3)), (proj1 (gr_vm _ _ Hg2))).
  assert (Hpr : u8 (mmfr0_pa_range value)) by (unfold mmfr0_pa_range, as_u8, u8; rewrite Z.land_ones by lia; apply Z.mod_pos_bound; lia).
  pose proof (guest_stage2_register_values_total (vm_id (vm s3)) root _ Hpr).
  destruct (guest_stage2_register_values (vm_id (vm s3)) root (mmfr0_pa_range value)) as [registers|e|] eqn:Er;
    cbn [Prelude.map_err]; [|split; [by eexists|]|done].
  2:{ pose proof (accounts_page base _ _ _ (vo_accounts _ _ _ Hok3) (tables_owned _ _ Hrt)) as [_ Hrm].
      destruct (register_values_refused _ _ _ _ Hrm Er) as [Hw|(bits' & Hb1 & Hb2)]; [by apply RefusedWidth|by eapply RefusedRoot]. }
  exists value. split; [done|]. rewrite Hid in Er. split; [done|done| |done| | |].
  - intros v Hv. rewrite Hl3, Hl2, Hl1 by done. by apply linux_leaf_end.
  - intros a Ha. by rewrite Hm3, Hm2, Hm1.
  - split; [done|]. by rewrite (proj2 (gr_vm _ _ Hg3)), (proj2 (gr_vm _ _ Hg2)).
  - by exists root.
Qed.

(** *** The whole handler *)

(** The bytes of RAM, as the guest reads them. *)
Lemma guest_reads_ram s pa gicv ipa :
  vm_ok base [gicv_window gicv] s -> IpaPa (ram_region pa) ∈ mems s -> (forall v, va_ok v -> leaf_of s v = linux_leaf pa gicv v) ->
  in_ipa GUEST_RAM ipa -> guest_byte s ipa = Some (byte_in (mem s) (pa + (ipa - ipa_start GUEST_RAM))).
Proof.
  intros Hok Hin Hl [H1 H2]. destruct (ram_is_backed _ s pa Hok Hin) as [(R1 & R2 & R3)].
  assert (Hva : va_ok ipa) by (unfold va_ok, GUEST_RAM, DEFAULT_GUEST_RAM_SIZE, MIB in *; cbn [ipa_start ipa_size] in *; lia).
  unfold guest_byte. rewrite (walk_of_leaf base _ s ipa Hok Hva), Hl by done. unfold linux_leaf.
  rewrite (proj2 (Z.leb_le _ _) H1), (proj2 (Z.ltb_lt _ _) H2). cbn [andb]. rewrite leaf_result_encode.
  - do 2 f_equal. unfold page_base. lia.
  - unfold page_base, PAGE_SIZE, GUEST_RAM, DEFAULT_GUEST_RAM_SIZE, MIB in *. cbn [ipa_start ipa_size] in *.
    Z.to_euclidean_division_equations. lia.
  - unfold page_base, PAGE_SIZE, GUEST_RAM, DEFAULT_GUEST_RAM_SIZE, MIB in *. cbn [ipa_start ipa_size] in *.
    Z.to_euclidean_division_equations. lia.
Qed.

(** Reading a byte looks at its word only, and RAM is whole words. *)
Lemma byte_in_ram m m' pa a :
  pa mod PAGE_SIZE = 0 -> (forall x, pa <= x < pa + ipa_size GUEST_RAM -> m x = m' x) ->
  pa <= a < pa + ipa_size GUEST_RAM -> byte_in m a = byte_in m' a.
Proof.
  intros Hp Hm Ha. unfold byte_in. rewrite Hm; [done|]. unfold PAGE_SIZE in Hp. Z.to_euclidean_division_equations. lia.
Qed.

Lemma linux_walk s pa gicv ipa :
  vm_ok base [gicv_window gicv] s -> gicv_ok gicv -> IpaPa (ram_region pa) ∈ mems s -> mapped_pa gicv + mapping_size gicv <= 2 ^ 48 ->
  (forall v, va_ok v -> leaf_of s v = linux_leaf pa gicv v) -> va_ok ipa ->
  walk_of s ipa =
    if (ipa_start GUEST_RAM <=? ipa) && (ipa <? ipa_start GUEST_RAM + ipa_size GUEST_RAM)
    then Page (pa + (page_base ipa - ipa_start GUEST_RAM)) NormalWbWa ReadWrite Executable
    else if (ipa_start GUEST_GICV <=? ipa) && (ipa <? ipa_start GUEST_GICV + mapping_size gicv)
    then Page (mapped_pa gicv + (page_base ipa - ipa_start GUEST_GICV)) DeviceNgNre ReadWrite ExecuteNever
    else Fault.
Proof.
  intros Hok [[Hpa Hpm] [Hsz Hsm] _ _] Hin Hlim Hl Hva. destruct (ram_is_backed _ s pa Hok Hin) as [(R1 & R2 & R3)].
  rewrite (walk_of_leaf base _ s ipa Hok Hva), Hl by done. unfold linux_leaf, u64 in *. destruct (_ && _) eqn:E1.
  - apply andb_true_iff in E1 as [?%Z.leb_le ?%Z.ltb_lt].
    apply leaf_result_encode; unfold page_base, PAGE_SIZE, GUEST_RAM, DEFAULT_GUEST_RAM_SIZE, MIB in *; cbn [ipa_start ipa_size] in *;
      clear -R1 R2 R3 H H0; Z.to_euclidean_division_equations; lia.
  - clear E1. destruct (_ && _) eqn:E2; [|done]. apply andb_true_iff in E2 as [?%Z.leb_le ?%Z.ltb_lt].
    apply leaf_result_encode; unfold page_base, PAGE_SIZE, GUEST_GICV in *; cbn [ipa_start ipa_size] in *;
      clear -Hpa Hpm Hsm Hlim H H0; Z.to_euclidean_division_equations; lia.
Qed.

Lemma linux_prepared_of layout gicv image pa_range pa registers m s :
  placed layout image -> gicv_ok gicv -> loaded layout gicv image pa m ->
  vm_ok base [gicv_window gicv] s -> IpaPa (ram_region pa) ∈ mems s -> (forall v, va_ok v -> leaf_of s v = linux_leaf pa gicv v) ->
  mapped_pa gicv + mapping_size gicv <= 2 ^ 48 -> (forall a, pa <= a < pa + ipa_size GUEST_RAM -> mem s a = m a) ->
  vcpus (vm s) = [Vcpu_new_linux (image_ipa layout) (dtb_ipa layout)] ->
  (exists root, guest_stage2_page_table_root (E:=unit) (vm s) = Ok (Some root) /\
    guest_stage2_register_values (vm_id (vm s)) root pa_range = Ok registers) ->
  linux_prepared layout gicv image pa_range pa registers 0 s.
Proof.
  intros [P1 P2 P3 P4] Hgv [Limg (blob & fdt & Hfdt & Hd & Hlen & Lblob)] Hok Hin Hleaf Hlim Hmem Hv Hroot.
  destruct (ram_is_backed _ s pa Hok Hin) as [(R1 & R2 & R3)].
  assert (Hread : forall ipa, in_ipa GUEST_RAM ipa -> guest_byte s ipa = Some (byte_in m (pa + (ipa - ipa_start GUEST_RAM)))).
  { intros ipa Hi. rewrite (guest_reads_ram s pa gicv ipa) by done. f_equal. apply (byte_in_ram _ _ pa); [done|done|]. unfold in_ipa in Hi. lia. }
  assert (Hcap : 2048 <= LINUX_DTB_CAPACITY) by discriminate. split.
  - intros ipa Hva. by apply linux_walk.
  - intros ipa Hi. apply (region_reach base _ s ipa (ram_region pa) Hok Hin). cbn [ram_region ip_ipa ip_size].
    unfold in_ipa, page_base, PAGE_SIZE, GUEST_RAM, DEFAULT_GUEST_RAM_SIZE, MIB in *. cbn [ipa_start ipa_size] in *.
    clear -Hi. Z.to_euclidean_division_equations. lia.
  - intros i Hi. rewrite Hread by (unfold in_ipa; lia). f_equal. rewrite <- Limg by done. f_equal. lia.
  - exists blob, fdt. split; [done|]. split; [done|]. intros i x Hx. pose proof (lookup_lt_Some _ _ _ Hx).
    rewrite Hread by (unfold in_ipa; lia). f_equal. rewrite <- (Lblob i x Hx). f_equal. lia.
  - by rewrite Hv.
  - done.
Qed.

(** Why the handler may refuse to run Linux, in the order it finds out. *)
Inductive linux_refused (mmfr0 : option Z) (gic : PhysRegion) (enabled : outcome GicV2Error unit) (image : list Z) s : Prop :=
| RefusedImage : (forall layout, default_for_image image None <> Ok layout) -> linux_refused mmfr0 gic enabled image s
| RefusedInterrupts : enabled <> Ok tt -> linux_refused mmfr0 gic enabled image s
| RefusedInterface :
    (forall gicv, map_device_into_window GUEST_GICV gic <> Ok gicv) \/ rstart gic mod PAGE_SIZE <> 0 ->
    linux_refused mmfr0 gic enabled image s
| RefusedMemory :
    fst (ps_allocate_contiguous_pages (Z.to_nat (ipa_size GUEST_RAM / PAGE_SIZE)) base) = Err Exhausted ->
    linux_refused mmfr0 gic enabled image s
| RefusedMapping gicv pa :
    map_device_into_window GUEST_GICV gic = Ok gicv -> map_refused mmfr0 pa gicv s -> linux_refused mmfr0 gic enabled image s.

Lemma prepare_linux_safely id m mmfr0 gic enabled image :
  ps_ok base -> region_ok gic -> Forall u8 image -> enabled <> Panic ->
  safely (linux_refused mmfr0 gic enabled image) (prepare_linux_vm mmfr0 (Some gic) enabled true image)
    (mkMachine (VmCtl_new id) base m) (fun r s =>
    releasable s /\ exists layout gicv value ram_pa, default_for_image image None = Ok layout /\
      map_device_into_window GUEST_GICV gic = Ok gicv /\ mmfr0 = Some value /\
      linux_prepared layout gicv image (mmfr0_pa_range value) ram_pa (fst r) (snd r) s).
Proof.
  intros Hb Hgic Himg Hen. set (s0 := mkMachine (VmCtl_new id) base m).
  assert (Hs0 : releasable s0) by (exists []; by apply vm_ok_new). pose proof (map_device_into_window_spec GUEST_GICV gic ltac:(by split; unfold u64) Hgic) as Hwin.
  unfold prepare_linux_vm. apply safely_bind, safely_lift;
    [by apply map_err_no_panic, layout_no_panic|done|intros e He; apply RefusedImage; by eapply map_err_Err|].
  intros layout Hlay%map_err_Ok. apply safely_bind, safely_lift; [done|done|done|]. intros ? [= <-].
  apply safely_bind, safely_lift; [by apply map_err_no_panic|done|intros e He; apply RefusedInterrupts; by eapply map_err_Err|].
  intros _ _. apply safely_bind, safely_lift; [done|done|done|]. intros _ _. apply safely_bind, safely_lift; [done|done|done|].
  intros _ _. apply safely_bind, safely_lift;
    [apply map_err_no_panic; by destruct (map_device_into_window GUEST_GICV gic)|done
    |intros e He; apply RefusedInterface; left; by eapply map_err_Err|].
  intros gicv Hgv%map_err_Ok. pose proof (gicv_is_ok _ _ Hgic Hgv) as Hgok. rewrite Hgv in Hwin.
  destruct Hwin as (_ & _ & _ & Hoff & _).
  eapply safely_bind, safely_smap_err, safely_mono; [by apply ram_allocated|intros s'; by apply RefusedMemory|].
  intros ret s1 (pa & -> & Hok1 & Hvm1). apply safely_bind, safely_lift; [done|by exists []|done|]. intros ? [= <-].
  eapply safely_bind, safely_mono;
    [apply (load_linux_safely s1 layout gicv pa image Hok1); [by rewrite Hvm1|by apply layout_placed|done|done]
    |intros s' Hs'; apply RefusedInterface; right; by rewrite Hoff in Hs'|].
  intros _ s2 (m2 & len & -> & Hld & _ & _). assert (Hok2 : vm_ok base [] (mkMachine (vm s1) (mm s1) m2)) by (apply vm_ok_memory; [by rewrite Hvm1|done]).
  eapply safely_bind, safely_mono; [by apply (map_linux_safely _ id pa)|intros s'; by eapply RefusedMapping|].
  intros registers s3 (value & Hval & [Hok3 Hin Hleaf Hlim Hmem [Hid Hv] Hroot]).
  unfold safely, sbind, add_vcpu, stry, sret, vcpu_mut. cbn [vm vcpus]. rewrite Hv. cbn [length app lookup list_lookup expect fst snd].
  set (s4 := mkMachine _ _ _). assert (Hok4 : vm_ok base [gicv_window gicv] s4) by (by destruct Hok3).
  split; [by eexists|]. exists layout, gicv, value, pa. split; [done|]. split; [done|]. split; [done|].
  apply (linux_prepared_of layout gicv image _ pa registers m2); [by apply layout_placed|done|done|done|done|done|done|done|done|].
  cbn [vm s4 vm_id]. by rewrite Hid.
Qed.

(** C2 [linux_guest_prepared]: preparing Linux in a new VM never panics, provided
    that the controller's interface and the host's console are known when it
    is called, which the code expects, and that the check of the controller
    does not panic.  When it succeeds, the guest's memory is exactly the RAM its device tree describes,
    backed by pages handed to this VM and by none of its tables, plus the
    window of the virtual interrupt interface; every other address faults.
    The guest reads the image and its zero tail at the address its CPU starts
    at, and at the address in its first register a blob that decodes to this
    platform.  It fails only for an unusable image, interrupt controller or
    processor, or for want of pages.  Either way, releasing the VM gives every
    page back. *)
Theorem linux_guest_prepared id m mmfr0 gic enabled image :
  ps_ok base -> region_ok gic -> Forall u8 image -> enabled <> Panic ->
  match prepare_linux_vm mmfr0 (Some gic) enabled true image (mkMachine (VmCtl_new id) base m) with
  | (Ok (registers, vcpu), s) =>
      (exists layout gicv value ram_pa, default_for_image image None = Ok layout /\
        map_device_into_window GUEST_GICV gic = Ok gicv /\ mmfr0 = Some value /\
        linux_prepared layout gicv image (mmfr0_pa_range value) ram_pa registers vcpu s) /\
      exists s', release_all s = (Ok tt, s') /\ mm s' = base
  | (Err _, s) => linux_refused mmfr0 gic enabled image s /\ exists s', release_all s = (Ok tt, s') /\ mm s' = base
  | (Panic, _) => False
  end.
Proof.
  intros Hb Hgic Himg Hen. pose proof (prepare_linux_safely id m mmfr0 gic enabled image Hb Hgic Himg Hen) as Hsafe. unfold safely in Hsafe.
  assert (Hrel : forall s, releasable s -> exists s', release_all s = (Ok tt, s') /\ mm s' = base).
  { intros s [devs Hok]. eexists. split; [by eapply release_all_effect|done]. }
  destruct (prepare_linux_vm _ _ _ _ _ _) as [[[registers vcpu]|e|] s]; [| |done].
  - destruct Hsafe as [Hok Hp]. split; [exact Hp|by apply Hrel].
  - destruct Hsafe as [Hok Hr]. split; [done|by apply Hrel].
Qed.
End Prepared.

(** ** Concrete instances *)

#[local] Existing Instance small_source.

(** The interface of the Raspberry Pi 4's controller. *)
Definition sample_gicv : PhysRegion := mkRegion 0xff846000 0x2000.

(** A board with eight pages is too small for the guest: it is told so, and
    gets its pages back. *)
Lemma linux_guest_prepared_witness :
  let start := mkMachine (VmCtl_new 1) small_global (fun _ => 0) in
  let run := prepare_linux_vm (Some 4) (Some sample_gicv) (Ok tt) true sample_image start in
  fst run = Err (Translation Unexpected) /\ linux_refused small_global (Some 4) sample_gicv (Ok tt) sample_image (snd run) /\
  exists s', release_all (snd run) = (Ok tt, s') /\ mm s' = small_global.
Proof.
  cbn zeta. set (run := prepare_linux_vm _ _ _ _ _ _).
  pose proof (linux_guest_prepared small_global 1 (fun _ => 0) (Some 4) sample_gicv (Ok tt) sample_image small_base_ok
    ltac:(unfold region_ok, rend; cbn; lia) sample_image_bytes ltac:(discriminate)) as H. fold run in H.
  assert (Hf : fst run = Err (Translation Unexpected)) by (vm_compute; reflexivity).
  destruct run as [r s]. cbn [fst snd] in *. rewrite Hf in H. split; [exact Hf|exact H].
Defined.
