(* ===== verification/HostSpace.v ===== *)
(** * The life of the host's tables: src/src/mm.rs

    [TVISOR_TABLES] holds the tables behind their gate once
    [setup_el2_stage1_page_table] has built them.  While only the boot CPU
    runs, [map_usable_ram], [map_firmware_release_cell] and
    [prepare_tlb_scratch] add to them; [validate_and_freeze_startups] closes the
    gate; afterwards [replace_tlb_scratch] may exchange one page.  The
    operations are functions on the static; their interleaving is the step
    relation [host_step], and the theorems hold in every reachable state. *)

From stdpp Require Import relations.
From S2P Require Import Prelude Page SystemInfo MemoryMap PageAllocator El2Stage1 Pcpu Gicv2 Mm Vmctl HostMap StartupResources.

Definition MAX_TABLE_PAGES : nat := 16.
Definition TABLE_ARENA_SIZE : Z := Z.of_nat MAX_TABLE_PAGES * PAGE_SIZE.

(** The addresses the linker script gives to the image. *)
Record Image := mkImage {
  text_start : Z; text_end : Z;
  vectors_start : Z; vectors_end : Z;
  rodata_start : Z; rodata_end : Z;
  writable_start : Z; writable_end : Z;
  el2_stage1_tables_start : Z; el2_stage1_tables_end : Z;
  boot_stack_guard_start : Z
}.

Record El2Stage1PageTable := mkPageTable { root_pa : Z; pa_range : Z }.

(** [EL2_STAGE1_TABLES_CLAIMED] and [TVISOR_TABLES]. *)
Record HostSpace := mkHost { h_claimed : bool; h_tables : option (BootTables TableSet) }.

Definition HostSpace_new : HostSpace := mkHost false None.

(** ** Construction *)

Definition tgran4 (mmfr0 : Z) : Z := as_u8 (Z.land (Z.shiftr mmfr0 28) 0xf).
Definition bit_check (value bit : Z) : bool := Z.land value (Z.shiftl 1 bit) =? Z.shiftl 1 bit.

Definition boot_stack {E} (image : Image) : outcome E StackLayout :=
  match stack_layout (boot_stack_guard_start image) with Ok s => Ok s | _ => Panic end.

(** [for region in regions { map_identity_device(tables, region)?; }] *)
Fixpoint map_devices (regions : list PhysRegion) : stateful TableSet PrepareError unit :=
  match regions with
  | [] => sret tt
  | region :: rest => let! _ := map_identity_device region in map_devices rest
  end.

(** One expected translation of [validate_el2_stage1_page_table]. *)
Definition check_translation (tables : TableSet) (check : Z * bool * bool * MemoryType) : outcome PrepareError unit :=
  let '(va, w, x, memory_type) := check in
  let? found := Prelude.map_err PrepareTranslation (walk tables va) in
  let? t := ok_or found Validation in
  reject negb (t_pa t =? va) || negb (eqb (t_writable t) w) || negb (eqb (t_executable t) x)
      || negb (bool_decide (t_type t = memory_type)) with Validation in
  Ok tt.

Fixpoint check_translations (tables : TableSet) (checks : list (Z * bool * bool * MemoryType)) :
    outcome PrepareError unit :=
  match checks with
  | [] => Ok tt
  | c :: rest => let? _ := check_translation tables c in check_translations tables rest
  end.

Definition validate_el2_stage1_page_table (image : Image) (tables : TableSet) (uart : Z) (live_dtb_pages : PhysRegion) :
    outcome PrepareError unit :=
  let arena_start := el2_stage1_tables_start image in
  let? arena_last := sub64 (el2_stage1_tables_end image) 1 in
  let? dtb_last := sub64 (rend live_dtb_pages) 1 in
  let? _ := check_translations tables
    [(text_start image, false, true, Normal);
     (vectors_start image, false, true, Normal);
     (rodata_start image, false, false, Normal);
     (writable_start image, true, false, Normal);
     (arena_start, true, false, Normal);
     (arena_last, true, false, Normal);
     (rstart live_dtb_pages, false, false, Normal);
     (dtb_last, false, false, Normal);
     (uart, true, false, Device)] in
  let? stack := boot_stack image in
  Prelude.map_err PrepareTranslation (validate_stack tables stack).

(** The mappings of [setup_el2_stage1_page_table], in order. *)
Definition setup_mappings (image : Image) (live_dtb_pages linux_image_pages uart_region : PhysRegion) (gic : GicV2Info) :
    stateful TableSet PrepareError unit :=
  let! _ := map_identity (text_start image) (text_end image) false true in
  let! _ := map_identity (vectors_start image) (vectors_end image) false true in
  let! _ := map_identity (rodata_start image) (rodata_end image) false false in
  let! _ := map_identity (writable_start image) (writable_end image) true false in
  let! stack := slift (boot_stack image) in
  let! _ := in_prepare (map_stack stack) in
  let! _ := map_identity (el2_stage1_tables_start image) (el2_stage1_tables_end image) true false in
  let! _ := map_identity (rstart live_dtb_pages) (rend live_dtb_pages) false false in
  let! _ := map_identity (rstart linux_image_pages) (rend linux_image_pages) false false in
  let! _ := map_identity_device uart_region in
  let! _ := map_devices [distributor gic; cpu_interface gic; hypervisor_interface gic; virtual_cpu_interface gic] in
  stry (fun tables => validate_el2_stage1_page_table image tables (rstart uart_region) live_dtb_pages).

(** The checks before the tables are built; the result is PARange. *)
Definition setup_checks (image : Image) (mmfr0 hcr : option Z) : outcome PrepareError Z :=
  let? mmfr0 := ok_or mmfr0 Validation in
  reject negb (tgran4 mmfr0 =? 0) with Validation in
  let? hcr := ok_or hcr Validation in
  reject bit_check hcr 0 || bit_check hcr 34 with Validation in
  reject negb (is_page_aligned (el2_stage1_tables_start image))
      || negb (is_page_aligned (el2_stage1_tables_end image)) with Validation in
  reject negb (bool_decide (checked_sub (el2_stage1_tables_end image) (el2_stage1_tables_start image)
                            = Some TABLE_ARENA_SIZE)) with Validation in
  Ok (mmfr0_pa_range mmfr0).

(** The arena is cleared, then the tables are built in it. *)
Definition setup_tables (image : Image) (mmfr0 hcr : option Z)
    (live_dtb_pages linux_image_pages uart_region : PhysRegion) (gic : GicV2Info) :
    outcome PrepareError (TableSet * Z) :=
  let? range := setup_checks image mmfr0 hcr in
  let? bits := Prelude.map_err PrepareTranslation (pa_bits_from_pa_range range) in
  let? tables := Prelude.map_err PrepareTranslation
    (TableSet_new (replicate MAX_TABLE_PAGES (replicate ENTRIES_PER_TABLE 0)) (el2_stage1_tables_start image) bits) in
  match setup_mappings image live_dtb_pages linux_image_pages uart_region gic tables with
  | (Ok _, tables') => Ok (tables', range)
  | (Err e, _) => Err e
  | (Panic, _) => Panic
  end.

(** The claim is taken first and kept on failure. *)
Definition setup_el2_stage1_page_table (image : Image) (mmfr0 hcr : option Z)
    (live_dtb_pages linux_image_pages uart_region : PhysRegion) (gic : GicV2Info) :
    stateful HostSpace PrepareError El2Stage1PageTable := fun h =>
  if h_claimed h then (Err Validation, h)
  else
    match setup_tables image mmfr0 hcr live_dtb_pages linux_image_pages uart_region gic with
    | Ok (tables, range) => (Ok (mkPageTable (base_pa tables) range), mkHost true (Some (BootTables_new tables)))
    | Err e => (Err e, mkHost true (h_tables h))
    | Panic => (Panic, mkHost true (h_tables h))
    end.

(** ** Edits while the gate is open *)

Definition with_tables {T} (operation : stateful TableSet PrepareError T) : stateful HostSpace PrepareError T := fun h =>
  match h_tables h with
  | None => (Err Validation, h)
  | Some b => let '(r, b') := edit (fun _ => Validation) operation b in (r, mkHost (h_claimed h) (Some b'))
  end.

(** ** Device mappings, on any CPU *)

(** The table and the hardware translate an address of a device window to
    itself, writable; [par] is PAR_EL1 after [at s1e2w]. *)
Definition check_device_identity (tables : TableSet) (par : Z -> Z) (address : Z) : outcome PrepareError unit :=
  let? found := Prelude.map_err PrepareTranslation (walk tables address) in
  let? t := ok_or found Validation in
  reject negb (t_pa t =? address) || negb (t_writable t) || t_executable t || negb (bool_decide (t_type t = Device)) with Validation in
  reject negb (Z.land (par address) 1 =? 0) || negb (Z.land (par address) 0x000ffffffffff000 =? Z.land address (not64 4095))
    with Validation in
  Ok tt.

Fixpoint device_identity_loop (n : nat) (tables : TableSet) (par : Z -> Z) (address e : Z) : outcome PrepareError unit :=
  match n with
  | O => Panic
  | S n' =>
      if address <? e then
        let? _ := check_device_identity tables par address in
        let? next := ok_or (checked_add (Z.land address (not64 4095)) 4096) Validation in
        device_identity_loop n' tables par next e
      else Ok tt
  end.

(** Every iteration but the first begins a page, so one more than there are
    pages in the region is enough, and one for its end. *)
Definition validate_device_identity (h : HostSpace) (par : Z -> Z) (region : PhysRegion) : outcome PrepareError unit :=
  let? tables := ok_or (h_tables h) Validation in
  device_identity_loop (Z.to_nat (rsize region / 4096) + 3) (bt_tables tables) par (rstart region) (rend region).

(** The exclusions of [map_usable_ram]: the guards, then the device tree. *)
Fixpoint push_guards (stacks : list SecondaryStack) (exclusions : FixedList PhysRegion) :
    outcome PrepareError (FixedList PhysRegion) :=
  match stacks with
  | [] => Ok exclusions
  | s :: rest =>
      let? guard := Prelude.map_err (fun _ => Validation) (PhysRegion_new (guard_start (ss_layout s)) GUARD_SIZE) in
      let? exclusions := Prelude.map_err (fun _ => Validation) (FixedList_push MAX_CPUS exclusions guard) in
      push_guards rest exclusions
  end.

Definition usable_exclusions (stacks : list SecondaryStack) (live_dtb : PhysRegion) :
    outcome PrepareError (FixedList PhysRegion) :=
  let? guards := push_guards stacks (FixedList_new MAX_CPUS) in
  let? live_dtb_aligned := Prelude.map_err (fun _ => PrepareOverflow)
                             (PhysRegion_new_aligned (rstart live_dtb) (rsize live_dtb) PAGE_SIZE) in
  Prelude.map_err (fun _ => Validation) (FixedList_push MAX_CPUS guards live_dtb_aligned).

Fixpoint validate_each (tables : TableSet) (stacks : list SecondaryStack) : outcome TranslationError unit :=
  match stacks with
  | [] => Ok tt
  | s :: rest => let? _ := validate_stack tables (ss_layout s) in validate_each tables rest
  end.

Definition map_usable_ram (image : Image) (memory_map : MemoryMap) (live_dtb linux_image_pages : PhysRegion)
    (secondary_stacks : FixedList SecondaryStack) : stateful HostSpace PrepareError unit :=
  let! stacks := slift (FixedList_iter secondary_stacks) in
  let! exclusions := slift (usable_exclusions stacks live_dtb) in
  let! _ := with_tables
    (let! _ := map_identity_regions_excluding (usable_ram memory_map) exclusions true false in
     let! _ := map_identity (rstart linux_image_pages) (rend linux_image_pages) false false in
     let! boot := slift (boot_stack image) in
     let! _ := in_prepare (stry (fun tables => validate_stack tables boot)) in
     let! _ := in_prepare (stry (fun tables => validate_each tables stacks)) in
     sread used) in
  sret tt.

(** The translation a release page must have. *)
Definition release_mapping_ok (address : Z) (t : El2Stage1.Translation) : bool :=
  (t_pa t =? address) && bool_decide (t_type t = Normal) && t_writable t && negb (t_executable t).

(** [release_cells] is [None] before discovery, [memory_map] before the boot map exists. *)
Definition map_firmware_release_cell (release_cells : option (FixedList PhysRegion)) (memory_map : option MemoryMap)
    (address : Z) : stateful HostSpace PrepareError unit :=
  let! contract := slift (ok_or release_cells Validation) in
  let! cells := slift (FixedList_iter contract) in
  if negb (existsb (fun cell => rstart cell =? address) cells) then sfail Validation
  else
    let! map := slift (ok_or memory_map Validation) in
    let! page := slift (Prelude.map_err (fun _ => Validation) (release_page map address)) in
    let start := rstart page in
    let e := rend page in
    with_tables
      (let! found := in_prepare (stry (fun tables => walk tables start)) in
       let! _ :=
         match found with
         | None => map_identity start e true false
         | Some mapping => if release_mapping_ok start mapping then sret tt else sfail Validation
         end in
       let! found := in_prepare (stry (fun tables => walk tables address)) in
       let! mapping := slift (ok_or found Validation) in
       if release_mapping_ok address mapping then sret tt else sfail Validation).

(** ** The gate *)

Definition validate_and_freeze_startups (validate : TableSet -> outcome ResourceError unit) :
    stateful HostSpace PrepareError unit := fun h =>
  match h_tables h with
  | None => (Err Validation, h)
  | Some b =>
      let '(r, b') := validate_and_freeze validate b in
      (Prelude.map_err (fun _ => Validation) r, mkHost (h_claimed h) (Some b'))
  end.

Definition startup_tables_frozen (h : HostSpace) : bool :=
  match h_tables h with Some b => is_frozen b | None => false end.

(** ** The scratch page *)

Definition SCRATCH_VA : Z := 0x100000000.

(** Only behind the closed gate, and only this page. *)
Definition replace_scratch_page (sync : nat -> outcome TranslationError unit) (old new : Z) :
    stateful (BootTables TableSet) ResourceError unit := fun self =>
  if negb (bt_frozen self) then (Err Frozen, self)
  else
    let '(r, (tables, _)) := replace_data_page sync SCRATCH_VA old new (bt_tables self, []) in
    (Prelude.map_err (fun _ => MappingError) r, mkBootTables tables (bt_frozen self)).

Inductive ScratchError :=
| InvalidAuthority
| TablesUnavailable
| ReplacementFailed
| ScratchAllocation
| ScratchPreparation.

(** [ready] is the answer of [ready_to_write(epoch)], [owned] that of [owns];
    the synchronisation routine always returns [Ok]. *)
Definition replace_tlb_scratch (ready : bool) (owned : Z -> bool) (old new : Z) : stateful HostSpace ScratchError unit :=
  fun h =>
  if negb ready || negb (owned old) || negb (owned new) then (Err InvalidAuthority, h)
  else
    match h_tables h with
    | None => (Err TablesUnavailable, h)
    | Some b =>
        let '(r, b') := replace_scratch_page (fun _ => Ok tt) old new b in
        (Prelude.map_err (fun _ => ReplacementFailed) r, mkHost (h_claimed h) (Some b'))
    end.

Section Scratch.
Context {G : Type} `{PageSource G}.

(** The page source, the memory and the tables. *)
Definition scratch_state : Type := G * (Z -> Z) * HostSpace.

Definition scratch_page : stateful scratch_state ScratchError Z := fun '(g, mem, h) =>
  let '(r, g') := ps_allocate_page g in (Prelude.map_err (fun _ => ScratchAllocation) r, (g', mem, h)).

Definition scratch_mapping (pa : Z) : stateful TableSet PrepareError unit :=
  let! found := in_prepare (stry (fun tables => walk tables SCRATCH_VA)) in
  match found with
  | Some _ => sfail Validation
  | None => in_prepare (TableSet_map (mkMapping SCRATCH_VA pa PAGE_SIZE Normal true false))
  end.

Definition prepare_tlb_scratch (value : Z) : stateful scratch_state ScratchError (Z * Z) :=
  let! a := scratch_page in
  let! b := scratch_page in
  let! _ := supdate (fun '(g, mem, h) =>
    Ok (g, store_word (write_zeroes (write_zeroes mem a PAGE_SIZE) b PAGE_SIZE) a value, h)) in
  let! _ := (fun '(g, mem, h) =>
    let '(r, h') := with_tables (scratch_mapping a) h in
    (Prelude.map_err (fun _ => ScratchPreparation) r, (g, mem, h'))) in
  sret (a, b).

End Scratch.

(** ** Reachable states *)

Definition image_ok (image : Image) : Prop :=
  Forall u64 [text_start image; text_end image; vectors_start image; vectors_end image; rodata_start image;
    rodata_end image; writable_start image; writable_end image; el2_stage1_tables_start image;
    el2_stage1_tables_end image; boot_stack_guard_start image].

Definition gic_ok (gic : GicV2Info) : Prop :=
  Forall region_ok [distributor gic; cpu_interface gic; hypervisor_interface gic; virtual_cpu_interface gic].

(** One call of an operation on the static, with any machine-width arguments. *)
Inductive host_step (h : HostSpace) : HostSpace -> Prop :=
| step_setup image mmfr0 hcr dtb linux uart gic :
    image_ok image -> region_ok dtb -> region_ok linux -> region_ok uart -> gic_ok gic ->
    host_step h (snd (setup_el2_stage1_page_table image mmfr0 hcr dtb linux uart gic h))
| step_usable image map us dtb linux stacks :
    image_ok image -> fl_rep MAX_USABLE_RAM_REGIONS (usable_ram map) us -> Forall region_ok us ->
    region_ok dtb -> region_ok linux -> 
    (forall l, FixedList_iter (E:=PrepareError) stacks = Ok l -> Forall (fun s => u64 (guard_start (ss_layout s))) l) ->
    host_step h (snd (map_usable_ram image map dtb linux stacks h))
| step_release cells map address :
    u64 address -> host_step h (snd (map_firmware_release_cell cells map address h))
| step_freeze validate : host_step h (snd (validate_and_freeze_startups validate h))
| step_prepare {G} `{PageSource G} (g : G) mem value :
    ps_ok g -> host_step h (snd (prepare_tlb_scratch value (g, mem, h))).2
| step_replace ready owned old new :
    u64 old -> u64 new -> host_step h (snd (replace_tlb_scratch ready owned old new h)).

(** Well formed, and no address both writable and executable. *)
Definition wx (ts : TableSet) : Prop :=
  wf ts /\ forall va t, va_ok va -> walk ts va = Ok (Some t) -> t_writable t && t_executable t = false.

Definition host_ok (h : HostSpace) : Prop :=
  match h_tables h with
  | None => True
  | Some b => h_claimed h = true /\ wx (bt_tables b)
  end.

(** ** What every edit keeps *)

Create HintDb host.

Definition keeps {E A} (m : stateful TableSet E A) : Prop := forall ts, wx ts -> wx (snd (m ts)).

Section Keeps.
Context {E : Type}.

Lemma keeps_ret {A} (a : A) : keeps (E:=E) (sret a).
Proof. by intros ts. Qed.

Lemma keeps_fail {A} (e : E) : keeps (A:=A) (sfail e).
Proof. by intros ts. Qed.

Lemma keeps_try {A} (f : TableSet -> outcome E A) : keeps (stry f).
Proof. by intros ts. Qed.

Lemma keeps_read {A} (f : TableSet -> A) : keeps (E:=E) (sread f).
Proof. by intros ts. Qed.

Lemma keeps_bind {A B} (m : stateful TableSet E A) (k : A -> stateful TableSet E B) :
  keeps m -> (forall a, keeps (k a)) -> keeps (sbind m k).
Proof.
  intros Hm Hk ts Hts. specialize (Hm ts Hts). unfold sbind. destruct (m ts) as [[a|e|] ts']; [|done..]. by apply Hk.
Qed.

Lemma keeps_lift {A B} (m : outcome E A) (k : A -> stateful TableSet E B) :
  (forall a, m = Ok a -> keeps (k a)) -> keeps (sbind (slift m) k).
Proof. intros Hk ts Hts. unfold sbind, slift. destruct m as [a|e|]; [|done..]. by apply Hk. Qed.

End Keeps.

Lemma keeps_prepare {A} (m : stateful TableSet TranslationError A) : keeps m -> keeps (in_prepare m).
Proof. intros Hm ts Hts. specialize (Hm ts Hts). unfold in_prepare. by destruct (m ts). Qed.

#[export] Hint Resolve keeps_ret keeps_fail keeps_try keeps_read keeps_bind keeps_prepare : host.

Lemma keeps_map m :
  u64 (m_va m) -> u64 (m_pa m) -> u64 (m_size m) -> m_writable m && m_executable m = false -> keeps (TableSet_map m).
Proof.
  intros Hv Hp Hs Hm ts [Hwf Hwx]. destruct (TableSet_map m ts) as [r ts'] eqn:E. cbn [snd].
  destruct (TableSet_map_effect ts m r ts' Hwf Hv Hp Hs E) as [Hwf' Hr]. split; [done|].
  assert (Hto : forall va t, maps_to ts' m va -> walk ts' va = Ok (Some t) -> t_writable t && t_executable t = false).
  { intros va t (l & _ & Hw) Hw'. rewrite Hw in Hw'. by injection Hw' as <-. }
  intros va t Hva Hw. destruct r; [| |done]; specialize (Hr va Hva).
  - destruct (_ && _) in Hr; [by eapply Hto|]. rewrite Hr in Hw. by eapply Hwx.
  - destruct Hr as [Hr|[_ Hr]]; [rewrite Hr in Hw; by eapply Hwx|by eapply Hto].
Qed.

Lemma maps_result_wx P w x ts r ts' : w && x = false -> wx ts -> maps_result P w x ts r ts' -> wx ts'.
Proof.
  intros Hn [_ Hwx] Hr. assert (Hall : exists all, maps_exactly all P w x ts ts') by (destruct r; cbn in Hr; [by eexists|by eexists|done]).
  destruct Hall as (all & Hwf & H). split; [done|]. intros va t Hva Hw.
  destruct (H va Hva) as [[_ (l & _ & Hi)]|[Hs _]].
  - rewrite Hi in Hw. by injection Hw as <-.
  - rewrite Hs in Hw. by eapply Hwx.
Qed.

Lemma keeps_identity start e w x : u64 start -> u64 e -> w && x = false -> keeps (map_identity start e w x).
Proof.
  intros Hs He Hn ts Hts. destruct (map_identity start e w x ts) as [r ts'] eqn:E. cbn [snd].
  eapply maps_result_wx; [done|exact Hts|]. apply map_identity_spec in E; [exact E|apply Hts|done|done].
Qed.

Lemma keeps_device region : region_ok region -> keeps (map_identity_device region).
Proof.
  intros (H0 & H1 & H2). unfold map_identity_device. apply keeps_lift. intros a Ha. apply keeps_prepare.
  unfold rend in H2. pose proof (PhysRegion_new_aligned_least (rstart region) (rsize region) PAGE_SIZE
    ltac:(unfold u64; lia) ltac:(unfold u64; lia) ltac:(done)) as H.
  destruct (PhysRegion_new_aligned _ _ _); cbn in Ha; [|done..]. injection Ha as ->.
  destruct H as ((? & ? & ?) & _). unfold rend in *. apply keeps_map; cbn; (done || unfold u64; lia).
Qed.

Lemma keeps_devices regions : Forall region_ok regions -> keeps (map_devices regions).
Proof. induction 1; cbn [map_devices]; eauto using keeps_device with host. Qed.

Lemma keeps_stack base s : 0 <= base -> stack_layout base = Ok s -> keeps (map_stack s).
Proof.
  intros H0 Hs. destruct (stack_layout_Ok _ _ Hs) as (_ & _ & Hb & _ & Hmax). unfold map_stack.
  apply keeps_bind; [|auto with host]. unfold STACK_SIZE, PAGE_SIZE in *.
  apply keeps_map; cbn; (done || unfold u64, STACK_SIZE; lia).
Qed.

Lemma keeps_regions regions exclusions rs es w x :
  fl_rep MAX_USABLE_RAM_REGIONS regions rs -> fl_rep MAX_CPUS exclusions es ->
  Forall region_ok rs -> Forall region_ok es -> w && x = false ->
  keeps (map_identity_regions_excluding regions exclusions w x).
Proof.
  intros Hr He Hrs Hes Hn ts Hts. unfold map_identity_regions_excluding, sbind at 1, slift.
  rewrite (iter_refines _ _ _ Hr). unfold sbind at 1. rewrite (iter_refines _ _ _ He).
  destruct (map_regions_around es rs w x ts) as [r ts'] eqn:E. cbn [snd].
  eapply maps_result_wx; [done|exact Hts|]. exact (map_regions_around_spec es rs ts w x r ts' (proj1 Hts) Hes Hrs E).
Qed.

Lemma boot_stack_keeps {E} image s :
  image_ok image -> boot_stack (E:=E) image = Ok s -> keeps (map_stack s).
Proof.
  intros Hi. unfold boot_stack. destruct (stack_layout _) as [s'| |] eqn:El; [|done..]. intros [= <-].
  apply (keeps_stack _ _ ltac:(apply Forall_lookup_1 with (i := 10%nat) (x := boot_stack_guard_start image) in Hi;
    [apply Hi|done]) El).
Qed.

Lemma region_ok_u64 r : region_ok r -> u64 (rstart r) /\ u64 (rend r).
Proof. intros (? & ? & ?). unfold u64, rend in *. lia. Qed.

Lemma keeps_setup_mappings image dtb linux uart gic :
  image_ok image -> region_ok dtb -> region_ok linux -> region_ok uart -> gic_ok gic ->
  keeps (setup_mappings image dtb linux uart gic).
Proof.
  intros Hi [Hd1 Hd2]%region_ok_u64 [Hl1 Hl2]%region_ok_u64 Hu Hg. unfold image_ok in Hi. pose proof Hi as Hi'.
  rewrite !Forall_cons in Hi. destruct_and! Hi. unfold setup_mappings.
  repeat (apply keeps_bind; [by apply keeps_identity|intros _]).
  apply keeps_lift. intros s Hs. apply keeps_bind; [apply keeps_prepare; by eapply boot_stack_keeps|intros _].
  repeat (apply keeps_bind; [by apply keeps_identity|intros _]).
  apply keeps_bind; [by apply keeps_device|intros _]. apply keeps_bind; [by apply keeps_devices|auto with host].
Qed.

Lemma setup_tables_wx image mmfr0 hcr dtb linux uart gic tables range :
  image_ok image -> region_ok dtb -> region_ok linux -> region_ok uart -> gic_ok gic ->
  setup_tables image mmfr0 hcr dtb linux uart gic = Ok (tables, range) -> wx tables.
Proof.
  intros Hi Hd Hl Hu Hg. unfold setup_tables. destruct (setup_checks _ _ _) as [rg| |]; cbn [obind]; [|done..].
  destruct (pa_bits_from_pa_range rg) as [bits| |] eqn:Eb; cbn [obind Prelude.map_err]; [|done..].
  assert (Hst : Forall (fun p => length p = 512%nat) (replicate MAX_TABLE_PAGES (replicate ENTRIES_PER_TABLE 0)))
    by (apply Forall_replicate, length_replicate).
  assert (Hb : 0 <= bits < 256) by (unfold pa_bits_from_pa_range in Eb; repeat case_match; simplify_eq; lia).
  pose proof (Forall_lookup_1 _ _ 8%nat (el2_stage1_tables_start image) Hi eq_refl) as Hbase.
  pose proof (TableSet_new_effect _ (el2_stage1_tables_start image) bits Hst Hbase Hb) as Hnew.
  destruct (TableSet_new _ _ _) as [ts| |]; cbn [obind Prelude.map_err]; [|done..]. destruct Hnew as (Hwf & _ & _ & Hw).
  assert (Hts : wx ts) by (split; [done|]; intros va t Hva E; by rewrite Hw in E).
  pose proof (keeps_setup_mappings image dtb linux uart gic Hi Hd Hl Hu Hg ts Hts) as Hk.
  destruct (setup_mappings _ _ _ _ _ ts) as [[[]|e|] ts']; [|done..]. by intros [= <- _].
Qed.

Lemma push_guards_rep stacks fl xs exclusions :
  fl_rep MAX_CPUS fl xs -> Forall region_ok xs -> Forall (fun s => u64 (guard_start (ss_layout s))) stacks ->
  push_guards stacks fl = Ok exclusions -> exists es, fl_rep MAX_CPUS exclusions es /\ Forall region_ok es.
Proof.
  intros Hr Hx Hs. revert fl xs Hr Hx. induction Hs as [|s rest [Hg _] Hs IH]; intros fl xs Hr Hx; cbn [push_guards].
  { intros [= <-]. eauto. }
  destruct (PhysRegion_new _ _) as [guard| |] eqn:Eg; cbn [obind Prelude.map_err]; [|done..].
  apply PhysRegion_new_ok in Eg as [_ Hok]; [|done|done].
  pose proof (push_refines MAX_CPUS fl xs guard Hr) as Hp.
  destruct (_ =? _)%nat; [rewrite Hp; done|]. destruct Hp as (fl' & -> & Hr'). cbn [obind Prelude.map_err].
  apply (IH fl' (xs ++ [guard])); [done|]. apply Forall_app. auto.
Qed.

Lemma usable_exclusions_rep stacks live_dtb exclusions :
  Forall (fun s => u64 (guard_start (ss_layout s))) stacks -> region_ok live_dtb ->
  usable_exclusions stacks live_dtb = Ok exclusions -> exists es, fl_rep MAX_CPUS exclusions es /\ Forall region_ok es.
Proof.
  intros Hs (H0 & H1 & H2). unfold usable_exclusions, rend in *.
  destruct (push_guards _ _) as [fl| |] eqn:Ep; cbn [obind]; [|done..].
  destruct (push_guards_rep stacks (FixedList_new MAX_CPUS) [] fl (fl_rep_new _) ltac:(done) Hs Ep) as (es & Hr & Hes).
  pose proof (PhysRegion_new_aligned_least (rstart live_dtb) (rsize live_dtb) PAGE_SIZE
    ltac:(unfold u64; lia) ltac:(unfold u64; lia) ltac:(done)) as Ha.
  destruct (PhysRegion_new_aligned _ _ _) as [a| |]; cbn [obind Prelude.map_err]; [|done..]. destruct Ha as [Ha _].
  pose proof (push_refines MAX_CPUS fl es a Hr) as Hp.
  destruct (_ =? _)%nat; [rewrite Hp; done|]. destruct Hp as (fl' & -> & Hr'). cbn. intros [= <-].
  exists (es ++ [a]). split; [done|]. apply Forall_app. auto.
Qed.

(** ** Device windows *)

Lemma next_page a next : u64 a -> ok_or (checked_add (Z.land a (not64 4095)) 4096) Validation = Ok next ->
  next = a - a mod 4096 + 4096 /\ u64 next.
Proof.
  intros Ha. change (Z.land a (not64 4095)) with (page_address a). rewrite page_address_sub by done. unfold checked_add.
  change PAGE_SIZE with 4096. destruct (Z.ltb_spec (a - a mod 4096 + 4096) (2 ^ 64)); cbn; [|done]. intros [= <-]. split; [done|].
  pose proof (Z.mod_pos_bound a 4096 eq_refl). pose proof (Z.mod_le a 4096). unfold u64 in *. lia.
Qed.

(** An accepted window is checked in each of its pages. *)
Lemma device_identity_pages n tables par a e : u64 a -> device_identity_loop n tables par a e = Ok tt ->
  forall x, a <= x < e -> check_device_identity tables par (Z.max a (x - x mod 4096)) = Ok tt.
Proof.
  revert a. induction n as [|n IH]; cbn [device_identity_loop]; [done|]. intros a Ha Hl x Hx.
  rewrite (proj2 (Z.ltb_lt a e)) in Hl by lia. destruct (check_device_identity tables par a) as [[]| |] eqn:Ec; cbn [obind] in Hl; [|done..].
  destruct (ok_or _ _) as [next| |] eqn:En; cbn [obind] in Hl; [|done..]. apply next_page in En as [-> Hn]; [|done].
  pose proof (Z.mod_pos_bound a 4096 eq_refl). pose proof (Z.mod_pos_bound x 4096 eq_refl).
  pose proof (Z.div_mod a 4096 ltac:(done)). pose proof (Z.div_mod x 4096 ltac:(done)).
  destruct (Z.le_gt_cases (x - x mod 4096) a) as [Hle|Hgt]; [by rewrite Z.max_l|].
  specialize (IH _ Hn Hl x ltac:(lia)). rewrite Z.max_r in IH |- * by lia. exact IH.
Qed.

(** The iterations are enough. *)
Lemma device_identity_total tables par a e n : u64 a -> (forall x, check_device_identity tables par x <> Panic) ->
  e - (a - a mod 4096) <= 4096 * (Z.of_nat n - 1) -> (0 < n)%nat -> device_identity_loop n tables par a e <> Panic.
Proof.
  intros Ha Hc. revert a Ha. induction n as [|n IH]; [lia|]. intros a Ha He Hn. cbn [device_identity_loop].
  pose proof (Z.mod_pos_bound a 4096 eq_refl).
  destruct (Z.ltb_spec a e); [|done]. destruct (check_device_identity tables par a) as [[]| |] eqn:Ec; [|done|by destruct (Hc a)].
  cbn [obind]. destruct (ok_or _ _) as [next| |] eqn:En; [|done|by destruct (checked_add _ _)]. cbn [obind].
  apply next_page in En as [-> Hu]; [|done]. assert (Hm : (a - a mod 4096 + 4096) mod 4096 = 0).
  { replace (a - a mod 4096 + 4096) with ((a / 4096 + 1) * 4096) by (pose proof (Z.div_mod a 4096); lia). apply Z.mod_mul. lia. }
  apply IH; [done|rewrite Hm; lia|lia].
Qed.

Definition device_window (h : HostSpace) (par : Z -> Z) (region : PhysRegion) : Prop :=
  exists b, h_tables h = Some b /\ forall x, rstart region <= x < rend region ->
    check_device_identity (bt_tables b) par (Z.max (rstart region) (x - x mod 4096)) = Ok tt.

Lemma device_identity_checked h par region : u64 (rstart region) -> validate_device_identity h par region = Ok tt ->
  device_window h par region.
Proof.
  intros Hu. unfold validate_device_identity, device_window. destruct (h_tables h) as [b|]; cbn [ok_or obind]; [|done].
  intros Hl. exists b. split; [done|]. by eapply device_identity_pages.
Qed.

Lemma validate_device_identity_total h par region b : u64 (rstart region) -> 0 <= rsize region -> h_tables h = Some b ->
  (forall x, check_device_identity (bt_tables b) par x <> Panic) -> validate_device_identity h par region <> Panic.
Proof.
  intros Hu Hs Hb Hc. unfold validate_device_identity. rewrite Hb. cbn [ok_or obind]. apply device_identity_total; [done|done| |lia].
  unfold rend. pose proof (Z.mod_pos_bound (rstart region) 4096 eq_refl). pose proof (Z.div_mod (rsize region) 4096 ltac:(done)).
  pose proof (Z.mod_pos_bound (rsize region) 4096 eq_refl). pose proof (Z.div_pos (rsize region) 4096 Hs ltac:(done)). lia.
Qed.

(** ** What every operation keeps *)

Lemma with_tables_ok {T} (op : stateful TableSet PrepareError T) h :
  keeps op -> host_ok h -> host_ok (snd (with_tables op h)).
Proof.
  intros Hop. destruct h as [c [[ts f]|]]; unfold with_tables, edit, host_ok; cbn; [|done].
  destruct f; cbn; [done|]. intros [Hc Hts]. specialize (Hop ts Hts). by destruct (op ts).
Qed.

Lemma slift_bind_ok {E A B} (m : outcome E A) (k : A -> stateful HostSpace E B) h :
  host_ok h -> (forall a, m = Ok a -> host_ok (snd (k a h))) -> host_ok (snd (sbind (slift m) k h)).
Proof. intros Hh Hk. unfold sbind, slift. destruct m as [a| |]; [by apply Hk|done..]. Qed.

Lemma bind_ret_ok {E A B} (m : stateful HostSpace E A) (b : B) h :
  snd ((let! _ := m in sret b) h) = snd (m h).
Proof. unfold sbind, sret. by destruct (m h) as [[a| |] h']. Qed.

Lemma map_usable_ram_ok image map us dtb linux stacks h :
  image_ok image -> fl_rep MAX_USABLE_RAM_REGIONS (usable_ram map) us -> Forall region_ok us ->
  region_ok dtb -> region_ok linux ->
  (forall l, FixedList_iter (E:=PrepareError) stacks = Ok l -> Forall (fun s => u64 (guard_start (ss_layout s))) l) ->
  host_ok h -> host_ok (snd (map_usable_ram image map dtb linux stacks h)).
Proof.
  intros Hi Hus Huok Hd [Hl1 Hl2]%region_ok_u64 Hst Hh. unfold map_usable_ram.
  apply slift_bind_ok; [done|]. intros l Hl. apply slift_bind_ok; [done|]. intros exclusions He.
  destruct (usable_exclusions_rep _ _ _ (Hst l Hl) Hd He) as (es & Hes & Heok).
  rewrite bind_ret_ok. apply with_tables_ok; [|done].
  apply keeps_bind; [by eapply keeps_regions|intros _]. apply keeps_bind; [by apply keeps_identity|intros _].
  apply keeps_lift. intros s _. auto 10 with host.
Qed.

Lemma release_page_ok map cell page : u64 cell -> release_page map cell = Ok page -> region_ok page.
Proof.
  intros Hc. unfold release_page. destruct (negb _); [done|].
  destruct (PhysRegion_new _ _) as [p| |] eqn:E; cbn [obind Prelude.map_err]; [|done..].
  apply PhysRegion_new_ok in E as [_ Hok]; [|apply Z.land_nonneg; left; apply Hc|done].
  repeat (destruct (FixedList_iter _); cbn [obind]; [|done..]). destruct (_ || _); [done|]. by intros [= <-].
Qed.

Lemma map_firmware_release_cell_ok cells map address h :
  u64 address -> host_ok h -> host_ok (snd (map_firmware_release_cell cells map address h)).
Proof.
  intros Ha Hh. unfold map_firmware_release_cell.
  apply slift_bind_ok; [done|]. intros contract _. apply slift_bind_ok; [done|]. intros l _.
  destruct (negb _); [done|]. apply slift_bind_ok; [done|]. intros m _. apply slift_bind_ok; [done|]. intros page Hp.
  destruct (release_page m address) as [p| |] eqn:E; cbn in Hp; [|done..]. injection Hp as ->.
  destruct (region_ok_u64 _ (release_page_ok _ _ _ Ha E)) as [H1 H2].
  apply with_tables_ok; [|done]. apply keeps_bind; [auto with host|]. intros found.
  apply keeps_bind.
  { destruct found as [t|]; [destruct (release_mapping_ok _ _); auto with host|by apply keeps_identity]. }
  intros _. apply keeps_bind; [auto with host|]. intros f. apply keeps_lift. intros t _.
  destruct (release_mapping_ok _ _); auto with host.
Qed.

(** The page a source hands out is a machine address. *)
Lemma source_page_u64 {G} `{PageSource G} (g : G) pa g' :
  ps_ok g -> ps_allocate_page g = (Ok pa, g') -> u64 pa /\ ps_ok g'.
Proof.
  intros Hg. rewrite ps_allocate_one. pose proof (ps_allocate_spec 1 g Hg ltac:(lia)) as Hs.
  intros E. rewrite E in Hs. destruct Hs as (p & -> & Hp & _ & Hg' & _). split; [|done].
  pose proof ps_limit_48. unfold u64, PAGE_SIZE in *. lia.
Qed.

(** Only the mapping step of the preparation touches the tables. *)
Lemma prepare_tlb_scratch_host {G} `{PageSource G} (g : G) mem value h :
  ps_ok g ->
  (snd (prepare_tlb_scratch value (g, mem, h))).2 = h \/
  exists a, u64 a /\ (snd (prepare_tlb_scratch value (g, mem, h))).2 = snd (with_tables (scratch_mapping a) h).
Proof.
  intros Hg. unfold prepare_tlb_scratch, scratch_page, sbind, supdate, sret.
  destruct (ps_allocate_page g) as [[a|e|] g1] eqn:E1; cbn [Prelude.map_err fst snd]; [|by left..].
  destruct (source_page_u64 g a g1 Hg E1) as [Ha Hg1].
  destruct (ps_allocate_page g1) as [[b|e|] g2]; cbn [Prelude.map_err fst snd]; [|by left..].
  right. exists a. split; [done|]. by destruct (with_tables (scratch_mapping a) h) as [[[]|e|] h'].
Qed.

Lemma keeps_scratch_mapping a : u64 a -> keeps (scratch_mapping a).
Proof.
  intros Ha. unfold scratch_mapping. apply keeps_bind; [auto with host|]. intros [t|]; [auto with host|].
  apply keeps_prepare, keeps_map; cbn; done.
Qed.

(** A replacement changes at most the scratch page, and never to executable. *)
Lemma replace_scratch_effect sync old new ts :
  wx ts -> u64 old -> u64 new ->
  let ts' := (snd (replace_data_page sync SCRATCH_VA old new (ts, []))).1 in
  wx ts' /\ forall va, va_ok va -> ~ in_page SCRATCH_VA va -> walk ts' va = walk ts va.
Proof.
  intros [Hwf Hwx] Ho Hn. cbn zeta. pose proof (replace_data_page_effect sync ts SCRATCH_VA old new Hwf ltac:(done) Ho Hn) as H.
  destruct (replace_data_page _ _ _ _ _) as [r [ts' tr]]. cbn [fst snd].
  assert (Hcase : forall f, (forall v t, f v = Ok (Some t) -> t_executable t = false) -> only_page ts ts' SCRATCH_VA f ->
    wx ts' /\ forall va, va_ok va -> ~ in_page SCRATCH_VA va -> walk ts' va = walk ts va).
  { intros f Hf [Hwf' Hop]. split; [split; [done|]|intros va Hva; by apply Hop]. intros va t Hva Hw.
    destruct (Hop va Hva) as [Hin Hout]. destruct (decide (SCRATCH_VA <= va < SCRATCH_VA + PAGE_SIZE)) as [Hi|Hi].
    - rewrite (Hin Hi) in Hw. rewrite (Hf _ _ Hw). apply andb_false_r.
    - rewrite (Hout Hi) in Hw. by eapply Hwx. }
  destruct H as [(_ & -> & _)|(t & i & d & _ & [(_ & _ & _ & Ho1)|(_ & _ & _ & Ho1)])]; [done| |].
  - by apply (Hcase (fun _ => Ok None)).
  - by apply (Hcase (fun v => page_translation new (v - SCRATCH_VA))); [intros v t' [= <-]|].
Qed.

Lemma host_step_ok h h' : host_ok h -> host_step h h' -> host_ok h'.
Proof.
  intros Hh Hs. destruct Hs as [image mmfr0 hcr dtb linux uart gic Hi Hd Hl Hu Hg| | |validate|G ? g mem value Hg|ready owned old new Ho Hn].
  - unfold setup_el2_stage1_page_table. destruct (h_claimed h) eqn:Ec; [done|].
    destruct (setup_tables _ _ _ _ _ _ _) as [[ts rg]| |] eqn:E; cbn; unfold host_ok in *; cbn;
      [|destruct (h_tables h) as [b|]; [by destruct Hh|done]..].
    split; [reflexivity|]. exact (setup_tables_wx _ _ _ _ _ _ _ _ _ Hi Hd Hl Hu Hg E).
  - by eapply map_usable_ram_ok.
  - by apply map_firmware_release_cell_ok.
  - destruct h as [c [[ts f]|]]; unfold validate_and_freeze_startups, validate_and_freeze; cbn; [|done].
    destruct f; cbn; [done|]. by destruct (validate ts).
  - destruct (prepare_tlb_scratch_host g mem value h Hg) as [->|(a & Ha & ->)]; [done|].
    by apply with_tables_ok; [apply keeps_scratch_mapping|].
  - unfold replace_tlb_scratch. destruct (_ || _); [done|].
    destruct h as [c [[ts f]|]]; unfold replace_scratch_page; cbn [h_tables bt_frozen bt_tables]; [|done].
    destruct f; cbn [negb]; [|done]. destruct Hh as [Hc Hts]. cbn [h_claimed bt_tables] in Hc, Hts.
    pose proof (replace_scratch_effect (fun _ => Ok tt) old new ts Hts Ho Hn) as [H _].
    by destruct (replace_data_page _ _ _ _ _) as [r [ts' tr]].
Qed.

Lemma host_reachable_ok h h' : host_ok h -> rtc host_step h h' -> host_ok h'.
Proof. intros Hh Hr. induction Hr; eauto using host_step_ok. Qed.

(** The gate is closed over tables [ts]. *)
Definition frozen_at (h : HostSpace) (ts : TableSet) : Prop := h_tables h = Some (mkBootTables ts true).

Lemma with_tables_frozen {T} (op : stateful TableSet PrepareError T) h ts :
  frozen_at h ts -> snd (with_tables op h) = h.
Proof. unfold frozen_at, with_tables. destruct h as [c t]. cbn. by intros ->. Qed.

Lemma slift_bind_same {E A B} (m : outcome E A) (k : A -> stateful HostSpace E B) h :
  (forall a, snd (k a h) = h) -> snd (sbind (slift m) k h) = h.
Proof. intros Hk. unfold sbind, slift. by destruct m as [a| |]. Qed.

Definition same_off_scratch (ts ts' : TableSet) : Prop :=
  forall va, va_ok va -> ~ in_page SCRATCH_VA va -> walk ts' va = walk ts va.

Lemma host_step_frozen h h' ts :
  host_ok h -> frozen_at h ts -> host_step h h' -> exists ts', frozen_at h' ts' /\ same_off_scratch ts ts'.
Proof.
  intros Hh Hf Hs. assert (Hsame : h' = h -> exists ts', frozen_at h' ts' /\ same_off_scratch ts ts').
  { intros ->. by exists ts. }
  assert (Hc : h_claimed h = true /\ wx ts) by (unfold host_ok in Hh; by rewrite Hf in Hh).
  destruct Hc as [Hc Hts]. destruct Hs as [| | |validate|G ? g mem value Hg|ready owned old new Ho Hn].
  - apply Hsame. unfold setup_el2_stage1_page_table. by rewrite Hc.
  - apply Hsame. unfold map_usable_ram. repeat (apply slift_bind_same; intros ?). rewrite bind_ret_ok.
    by eapply with_tables_frozen.
  - apply Hsame. unfold map_firmware_release_cell. repeat (apply slift_bind_same; intros ?). destruct (negb _); [done|].
    repeat (apply slift_bind_same; intros ?). by eapply with_tables_frozen.
  - apply Hsame. destruct h. unfold frozen_at in Hf. cbn in Hf. subst. done.
  - apply Hsame. destruct (prepare_tlb_scratch_host g mem value h Hg) as [->|(a & _ & ->)]; [done|].
    by eapply with_tables_frozen.
  - unfold replace_tlb_scratch. destruct (_ || _); [by exists ts|]. rewrite Hf. unfold replace_scratch_page. cbn [bt_frozen bt_tables negb].
    pose proof (replace_scratch_effect (fun _ => Ok tt) old new ts Hts Ho Hn) as [_ H].
    destruct (replace_data_page _ _ _ _ _) as [r [ts' tr]]. by exists ts'.
Qed.

Lemma host_reachable_frozen h h' ts :
  host_ok h -> frozen_at h ts -> rtc host_step h h' -> exists ts', frozen_at h' ts' /\ same_off_scratch ts ts'.
Proof.
  intros Hh Hf Hr. revert ts Hh Hf. induction Hr as [h|h h1 h2 Hs Hr IH]; intros ts Hh Hf; [by exists ts|].
  destruct (host_step_frozen h h1 ts Hh Hf Hs) as (t1 & Hf1 & H1).
  destruct (IH t1 (host_step_ok _ _ Hh Hs) Hf1) as (t2 & Hf2 & H2). exists t2. split; [done|].
  intros va Hva Hn. by rewrite H2, H1.
Qed.

(** ** Theorems *)

(** C3 [host_never_writable_executable]: in every state the operations can reach
    from power-on, whatever their arguments and results, the host's tables are
    well formed and translate no address as both writable and executable. *)
Theorem host_never_writable_executable h b :
  rtc host_step HostSpace_new h -> h_tables h = Some b ->
  wf (bt_tables b) /\
  forall va t, va_ok va -> walk (bt_tables b) va = Ok (Some t) -> t_writable t && t_executable t = false.
Proof.
  intros Hr Hb. pose proof (host_reachable_ok HostSpace_new h I Hr) as H. unfold host_ok in H. rewrite Hb in H. apply H.
Qed.

(** C26 [frozen_resources_permanent]: once the startup resources have been
    validated and the gate closed, no sequence of operations opens it again:
    in every later state each address of each resource outside the scratch
    page is still mapped to itself with its permissions, the guard page is
    still unmapped, and so a secondary CPU released at any later time finds
    what was validated. *)
Theorem frozen_resources_permanent r h0 h1 h2 :
  rtc host_step HostSpace_new h0 ->
  Forall region_ok ((fun p => p.1.1) <$> expected r) -> 0 <= guard_start (stack r) ->
  validate_and_freeze_startups (fun tables => validate_resources tables r) h0 = (Ok tt, h1) ->
  rtc host_step h1 h2 ->
  exists ts, frozen_at h2 ts /\
    (forall region w x va, (region, w, x) ∈ expected r -> rstart region <= va < rend region ->
       ~ in_page SCRATCH_VA va -> id_at ts w x va) /\
    (forall va, guard_start (stack r) <= va < bottom (stack r) -> va_ok va -> ~ in_page SCRATCH_VA va ->
       walk ts va = Ok None) /\
    (forall va, bottom (stack r) <= va < top (stack r) -> va_ok va -> ~ in_page SCRATCH_VA va ->
       id_at ts true false va).
Proof.
  intros Hr0 Hok Hg Hfz Hr. pose proof (host_reachable_ok HostSpace_new h0 I Hr0) as Hh0.
  unfold validate_and_freeze_startups in Hfz.
  destruct h0 as [c [[ts0 f]|]]; cbn in Hfz; [|done]. destruct f; cbn in Hfz; [done|].
  destruct (validate_resources ts0 r) as [[]| |] eqn:Ev; cbn in Hfz; [|done..]. injection Hfz as <-.
  assert (Hf1 : frozen_at (mkHost c (Some (mkBootTables ts0 true))) ts0) by done.
  destruct (host_reachable_frozen (mkHost c (Some (mkBootTables ts0 true))) h2 ts0 Hh0 Hf1 Hr) as (ts & Hf & Hsame).
  destruct (validate_resources_effect ts0 r Hok Hg Ev) as (Hid & _ & _ & Hguard & Hstack & _).
  assert (Hkeep : forall w x va, 0 <= va -> id_at ts0 w x va -> ~ in_page SCRATCH_VA va -> id_at ts w x va).
  { intros w x va H0 (l & Hw) Hn. exists l. rewrite Hsame; [done| |done]. split; [done|]. by eapply walk_va. }
  exists ts. split; [done|]. split; [|split].
  - intros region w x va Hin Hva Hn. apply Hkeep; [|by apply (Hid region)|done].
    rewrite Forall_forall in Hok. specialize (Hok region). destruct Hok as (? & _); [|lia].
    apply list_elem_of_fmap. by exists (region, w, x).
  - intros va Hva Hv Hn. rewrite Hsame; auto.
  - intros va Hva Hv Hn. apply Hkeep; [apply Hv|auto|done].
Qed.

(** ** Concrete instances *)

(** The image of [sample_resources] with sixteen table pages, one page each
    for the device tree and the kernel, and the usual device windows. *)
Definition sample_image : Image :=
  mkImage 0x40100000 0x40101000 0x40101000 0x40102000 0x40102000 0x40103000 0x40103000 0x40104000
    0x40000000 0x40010000 0x40120000.

Definition sample_gic : GicV2Info :=
  mkInfo (mkRegion 0x8000000 0x1000) (mkRegion 0x8010000 0x2000) (mkRegion 0x8030000 0x1000) (mkRegion 0x8040000 0x2000).

Definition host_resources : StartupResources :=
  mkResources (mkRegion 0x40100000 0x1000) (mkRegion 0x40101000 0x1000) (mkRegion 0x40102000 0x1000)
    (mkRegion 0x40103000 0x1000) (mkRegion 0x40000000 0x10000) (mkRegion 0x40103000 1536)
    (mkRegion 0x40103800 128) (mkRegion 0x40103180 64) (mkRegion 0x40110000 0x1000)
    (mkStack 0x40120000 0x40121000 0x40131000) 0x40100010 0x40000000.

Definition host_map : MemoryMap :=
  match insert_ram MemoryMap_empty (mkRegion 0x40000000 0x10000000) with
  | Ok m =>
      match insert_reserved m (mkRegion 0x40000000 0x200000) with
      | Ok m => match finalize m with Ok m => m | _ => MemoryMap_empty end
      | _ => MemoryMap_empty
      end
  | _ => MemoryMap_empty
  end.

Definition host_setup : HostSpace :=
  snd (setup_el2_stage1_page_table sample_image (Some 2) (Some 0) (mkRegion 0x40140000 0x1000)
    (mkRegion 0x40150000 0x1000) (mkRegion 0x9000000 0x1000) sample_gic HostSpace_new).

Definition host_mapped : HostSpace :=
  snd (map_firmware_release_cell (Some (one_region 0x40110000 8)) (Some host_map) 0x40110000 host_setup).

Definition host_frozen : outcome PrepareError unit * HostSpace :=
  validate_and_freeze_startups (fun tables => validate_resources tables host_resources) host_mapped.

Lemma host_mapped_reachable : rtc host_step HostSpace_new host_mapped.
Proof.
  eapply rtc_l; [|eapply rtc_l; [|apply rtc_refl]].
  - apply (step_setup _ sample_image (Some 2) (Some 0) (mkRegion 0x40140000 0x1000) (mkRegion 0x40150000 0x1000)
      (mkRegion 0x9000000 0x1000) sample_gic); [repeat constructor; cbn; lia..|]; repeat constructor; cbn; lia.
  - apply (step_release _ (Some (one_region 0x40110000 8)) (Some host_map) 0x40110000). split; lia.
Qed.

Lemma host_frozen_ok : fst host_frozen = Ok tt.
Proof. vm_compute. reflexivity. Qed.

Lemma host_never_writable_executable_witness :
  exists b, h_tables host_mapped = Some b /\ wf (bt_tables b).
Proof.
  pose proof host_mapped_reachable as Hr. assert (Hb : exists b, h_tables host_mapped = Some b) by (eexists; vm_compute; reflexivity).
  destruct Hb as [b Hb]. exists b. split; [exact Hb|].
  exact (proj1 (host_never_writable_executable host_mapped b Hr Hb)).
Defined.

(** The scratch page cannot be exchanged before it is prepared, and the code
    stays executable whatever is attempted. *)
Lemma frozen_resources_permanent_witness :
  exists ts, frozen_at (snd (replace_tlb_scratch true (fun _ => true) 0x80000000 0x80001000 (snd host_frozen))) ts /\
    id_at ts false true 0x40100010.
Proof.
  assert (Hok : Forall region_ok ((fun p => p.1.1) <$> expected host_resources))
    by (repeat constructor; cbn; unfold rend; cbn; lia).
  pose proof host_frozen_ok as Hf. destruct host_frozen as [r h1] eqn:E. cbn [fst snd] in *. subst r.
  destruct (frozen_resources_permanent host_resources host_mapped h1
    (snd (replace_tlb_scratch true (fun _ => true) 0x80000000 0x80001000 h1)) host_mapped_reachable Hok ltac:(cbn; lia) E
    ltac:(apply rtc_once, step_replace; split; lia)) as (ts & Hfz & Hid & _).
  exists ts. split; [exact Hfz|].
  apply (Hid (code host_resources) false true); [by left|unfold rend; cbn; lia|unfold in_page, SCRATCH_VA; lia].
Defined.
