(* ===== verification/SecondaryEntry.v ===== *)
(** * Secondary start targets: src/tvisor_util/secondary_entry.rs

    The preflight of a release: which CPUs must start, and which firmware cell
    releases a given one.  The source compares descriptors by address; here a
    descriptor is its index, and "every other descriptor" is the list without
    that index. *)

From S2P Require Import Prelude Pcpu.

Record EntryContract := mkContract { el2_mmu_off : bool; coherent : bool }.

Inductive EntryError :=
| MissingTarget
| InvalidTarget
| UnsupportedMethod
| SharedReleaseCell
| EntryContractUnverified
| CoherencyUnverified.

#[global] Instance StartupMethod_eq_dec : EqDecision StartupMethod.
Proof. solve_decision. Defined.

(** The descriptors other than the [i]-th. *)
Definition others {A} (i : nat) (l : list A) : list A := take i l ++ drop (S i) l.

Definition not_affinity (affinity : Z) : bool := negb (Z.land affinity (not64 MPIDR_AFFINITY_MASK) =? 0).

(** The loop of [secondary_mask] from index [i] on. *)
Fixpoint mask_loop (all cpus : list CpuDescriptor) (i : nat) (seen : Z) : outcome EntryError Z :=
  match cpus with
  | [] => Ok seen
  | cpu :: rest =>
      if negb (cpu_enabled cpu) then mask_loop all rest (S i) seen
      else
        let? id := ok_or (cpu_logical_id cpu) InvalidTarget in
        reject (MAX_CPUS <=? id)%nat || negb (Z.land seen (Z.shiftl 1 (Z.of_nat id)) =? 0) with InvalidTarget in
        reject not_affinity (cpu_affinity cpu)
            || existsb (fun other => cpu_enabled other && (cpu_affinity other =? cpu_affinity cpu)) (others i all)
          with InvalidTarget in
        mask_loop all rest (S i) (Z.lor seen (Z.shiftl 1 (Z.of_nat id)))
  end.

Definition secondary_mask (cpus : list CpuDescriptor) : outcome EntryError Z :=
  let? seen := mask_loop cpus cpus 0 0 in
  reject Z.land seen 1 =? 0 with InvalidTarget in
  reject Z.land seen (not64 1) =? 0 with MissingTarget in
  Ok (Z.land seen (not64 1)).

(** [iter.min()] on the logical ids of the enabled CPUs other than the first. *)
Definition select_secondary (cpus : list CpuDescriptor) : outcome EntryError nat :=
  let ids := List.filter (fun id => negb (id =? 0)%nat)
               (omap cpu_logical_id (List.filter cpu_enabled cpus)) in
  ok_or (match ids with [] => None | id :: rest => Some (fold_left Nat.min rest id) end) MissingTarget.

(** [iter.find(|cpu| cpu.logical_id == Some(target))], with its index. *)
Fixpoint find_target (cpus : list CpuDescriptor) (target i : nat) : option (nat * CpuDescriptor) :=
  match cpus with
  | [] => None
  | cpu :: rest =>
      if bool_decide (cpu_logical_id cpu = Some target) then Some (i, cpu) else find_target rest target (S i)
  end.

Definition validate_spin_table_target (cpus : list CpuDescriptor) (target : nat) : outcome EntryError Z :=
  let? found := ok_or (find_target cpus target 0) MissingTarget in
  let '(i, cpu) := found in
  reject (target =? 0)%nat || (MAX_CPUS <=? target)%nat || negb (cpu_enabled cpu) || not_affinity (cpu_affinity cpu)
      || existsb (fun other => cpu_enabled other &&
           (bool_decide (cpu_logical_id other = Some target) || (cpu_affinity other =? cpu_affinity cpu)))
           (others i cpus) with InvalidTarget in
  match cpu_startup cpu with
  | SpinTable release_address =>
      reject negb (Z.land release_address 7 =? 0) with InvalidTarget in
      reject existsb (fun other => bool_decide (cpu_startup other = SpinTable release_address)) (others i cpus)
        with SharedReleaseCell in
      Ok release_address
  | _ => Err UnsupportedMethod
  end.

Definition validate_spin_table_release (cpus : list CpuDescriptor) (target : nat) (contract : EntryContract) :
    outcome EntryError Z :=
  let? release_address := validate_spin_table_target cpus target in
  reject negb (el2_mmu_off contract) with EntryContractUnverified in
  reject negb (coherent contract) with CoherencyUnverified in
  Ok release_address.

(** ** Lemmas *)

Lemma others_elem {A} (l : list A) i x : x ∈ others i l <-> exists j, j <> i /\ l !! j = Some x.
Proof.
  unfold others. rewrite elem_of_app. split.
  - intros [H|H]; apply list_elem_of_lookup in H as [j Hj].
    + apply lookup_take_Some in Hj as [Hj Hlt]. exists j. split; [lia|done].
    + rewrite lookup_drop in Hj. exists (S i + j)%nat. split; [lia|done].
  - intros (j & Hne & Hj). destruct (decide (j < i)%nat).
    + left. apply list_elem_of_lookup. exists j. by rewrite lookup_take_lt.
    + right. apply list_elem_of_lookup. exists (j - S i)%nat. rewrite lookup_drop.
      by replace (S i + (j - S i))%nat with j by lia.
Qed.

Lemma existsb_others_false {A} (f : A -> bool) l i :
  existsb f (others i l) = false <-> forall j x, j <> i -> l !! j = Some x -> f x = false.
Proof.
  rewrite <- not_true_iff_false, existsb_exists. split.
  - intros H j x Hne Hx. destruct (f x) eqn:E; [|done]. exfalso. apply H. exists x. split; [|done].
    apply list_elem_of_In, others_elem. by exists j.
  - intros H (x & Hin & Hf). apply list_elem_of_In, others_elem in Hin as (j & Hne & Hj). by rewrite (H j x) in Hf.
Qed.

Lemma find_target_spec cpus target i :
  match find_target cpus target i with
  | Some (k, cpu) => exists j, k = (i + j)%nat /\ cpus !! j = Some cpu /\ cpu_logical_id cpu = Some target
  | None => forall cpu, cpu ∈ cpus -> cpu_logical_id cpu <> Some target
  end.
Proof.
  revert i. induction cpus as [|c cpus IH]; intros i; cbn [find_target]; [by intros cpu ?%elem_of_nil|].
  case_bool_decide as E; [exists 0%nat; split; [lia|done]|]. specialize (IH (S i)).
  destruct (find_target cpus target (S i)) as [[k cpu]|].
  - destruct IH as (j & -> & Hj & Hl). exists (S j). split; [lia|done].
  - intros cpu [->|Hin]%elem_of_cons; auto.
Qed.

(** ** Specification *)

(** An enabled CPU has logical id [id]. *)
Definition starts (cpus : list CpuDescriptor) (id : nat) : Prop :=
  exists cpu, cpu ∈ cpus /\ cpu_enabled cpu = true /\ cpu_logical_id cpu = Some id.

(** What the [j]-th descriptor must satisfy when it is enabled; ids are
    compared with the descriptors before it only. *)
Definition good_cpu (all : list CpuDescriptor) (j : nat) (cpu : CpuDescriptor) : Prop :=
  exists id, cpu_logical_id cpu = Some id /\ (id < MAX_CPUS)%nat /\ not_affinity (cpu_affinity cpu) = false /\
    (forall k other, (k < j)%nat -> all !! k = Some other -> cpu_enabled other = true -> cpu_logical_id other <> Some id) /\
    (forall k other, k <> j -> all !! k = Some other -> cpu_enabled other = true ->
       cpu_affinity other <> cpu_affinity cpu).

(** The enabled CPUs have bounded distinct ids and clean distinct affinities. *)
Definition topology_ok (cpus : list CpuDescriptor) : Prop :=
  forall j cpu, cpus !! j = Some cpu -> cpu_enabled cpu = true -> good_cpu cpus j cpu.

(** [seen] has exactly the ids of the enabled CPUs of a list. *)
Definition seen_of (seen : Z) (cpus : list CpuDescriptor) : Prop :=
  0 <= seen /\ forall k, 0 <= k -> Z.testbit seen k = true <-> starts cpus (Z.to_nat k).

Lemma starts_snoc_enabled cpus cpu id k :
  cpu_enabled cpu = true -> cpu_logical_id cpu = Some id -> starts (cpus ++ [cpu]) k <-> starts cpus k \/ k = id.
Proof.
  intros He Hl. unfold starts. setoid_rewrite elem_of_app. setoid_rewrite list_elem_of_singleton. split.
  - intros (c & [Hc| ->] & Hce & Hcl); [left; eauto|right; congruence].
  - intros [(c & Hc & ? & ?)| ->]; [exists c; auto|exists cpu; auto].
Qed.

Lemma starts_snoc_disabled cpus cpu k : cpu_enabled cpu = false -> starts (cpus ++ [cpu]) k <-> starts cpus k.
Proof.
  intros He. unfold starts. setoid_rewrite elem_of_app. setoid_rewrite list_elem_of_singleton. split.
  - intros (c & [Hc| ->] & Hce & Hcl); [eauto|congruence].
  - intros (c & Hc & ? & ?). exists c. auto.
Qed.

Lemma seen_of_insert seen cpus cpu id :
  seen_of seen cpus -> cpu_enabled cpu = true -> cpu_logical_id cpu = Some id ->
  seen_of (Z.lor seen (Z.shiftl 1 (Z.of_nat id))) (cpus ++ [cpu]).
Proof.
  intros [H0 Hs] He Hl. rewrite Z.shiftl_1_l. split.
  { apply Z.lor_nonneg. split; [done|]. apply Z.pow_nonneg. lia. }
  intros k Hk. rewrite (starts_snoc_enabled cpus cpu id) by done. rewrite Z.lor_spec, Z.pow2_bits_eqb by lia.
  rewrite orb_true_iff, Hs by done. destruct (Z.eqb_spec (Z.of_nat id) k); split; intros [?|?]; auto; try done; lia.
Qed.

Lemma snoc_lookup {A} (done_ rest : list A) x : (done_ ++ x :: rest) !! length done_ = Some x.
Proof. by rewrite lookup_app_r, Nat.sub_diag by lia. Qed.

(** The loop's checks at one descriptor are [good_cpu]. *)
Lemma good_cpu_checks done_ cpu rest seen id :
  seen_of seen done_ -> cpu_logical_id cpu = Some id ->
  good_cpu (done_ ++ cpu :: rest) (length done_) cpu <->
  (MAX_CPUS <=? id)%nat || negb (Z.land seen (Z.shiftl 1 (Z.of_nat id)) =? 0) = false /\
  not_affinity (cpu_affinity cpu)
    || existsb (fun other => cpu_enabled other && (cpu_affinity other =? cpu_affinity cpu))
         (others (length done_) (done_ ++ cpu :: rest)) = false.
Proof.
  intros [_ Hs] Hl. rewrite !orb_false_iff, existsb_others_false, land_single_bit, Nat.leb_gt by lia.
  rewrite <- not_true_iff_false, (Hs (Z.of_nat id)), Nat2Z.id by lia. unfold good_cpu, starts. split.
  - intros (id' & Hl' & Hlt & Ha & Hk & Hj). rewrite Hl in Hl'. injection Hl' as <-. split_and!; [done| |done|].
    + intros (c & Hin & He & Hc). apply list_elem_of_lookup in Hin as [k Hk']. pose proof (lookup_lt_Some _ _ _ Hk').
      apply (Hk k c); [done| |done|done]. by rewrite lookup_app_l.
    + intros k c Hne Hc. destruct (cpu_enabled c) eqn:E; [|done]. cbn. apply Z.eqb_neq. by eapply Hj.
  - intros [[Hlt Hn] [Ha Hj]]. exists id. split_and!; [done|done|done| |].
    + intros k c Hk Hc He Hid. apply Hn. exists c. rewrite lookup_app_l in Hc by done.
      split; [by eapply list_elem_of_lookup_2|done].
    + intros k c Hne Hc He. specialize (Hj k c Hne Hc). rewrite He in Hj. cbn in Hj. by apply Z.eqb_neq.
Qed.

(** The mask the loop accumulates. *)
Definition ids_mask (cpus : list CpuDescriptor) (seen : Z) : Z :=
  fold_left (fun s cpu => match (if cpu_enabled cpu then cpu_logical_id cpu else None) with
                          | Some id => Z.lor s (Z.shiftl 1 (Z.of_nat id)) | None => s end) cpus seen.

Lemma ids_mask_seen done_ cpus seen : seen_of seen done_ -> seen_of (ids_mask cpus seen) (done_ ++ cpus).
Proof.
  revert done_ seen. induction cpus as [|cpu cpus IH]; intros done_ seen Hs; cbn [ids_mask fold_left].
  { by rewrite app_nil_r. }
  replace (done_ ++ cpu :: cpus) with ((done_ ++ [cpu]) ++ cpus) by (by rewrite <- app_assoc). apply IH.
  destruct (cpu_enabled cpu) eqn:He; [|split; [apply Hs|]; intros k Hk; rewrite starts_snoc_disabled by done; by apply Hs].
  destruct (cpu_logical_id cpu) as [id|] eqn:Hl; [by apply seen_of_insert|]. split; [apply Hs|].
  intros k Hk. destruct Hs as [_ Hs]. rewrite Hs by done. unfold starts. setoid_rewrite elem_of_app.
  setoid_rewrite list_elem_of_singleton. split; [intros (c & ? & ?); eauto|]. intros (c & [?| ->] & ? & ?); [eauto|congruence].
Qed.

Lemma mask_loop_spec all done_ cpus seen m :
  all = done_ ++ cpus -> seen_of seen done_ ->
  mask_loop all cpus (length done_) seen = Ok m <->
  (forall j cpu, (length done_ <= j)%nat -> all !! j = Some cpu -> cpu_enabled cpu = true -> good_cpu all j cpu) /\
  m = ids_mask cpus seen.
Proof.
  revert done_ seen. induction cpus as [|cpu cpus IH]; intros done_ seen Hall Hs; cbn [mask_loop].
  { rewrite app_nil_r in Hall. subst all. split.
    - intros [= ->]. split; [|done]. intros j cpu Hj Hc. apply lookup_lt_Some in Hc. lia.
    - by intros [_ ->]. }
  assert (Hall' : all = (done_ ++ [cpu]) ++ cpus) by (by rewrite <- app_assoc).
  assert (Hhere : all !! length done_ = Some cpu) by (rewrite Hall; apply snoc_lookup).
  assert (Hlen : S (length done_) = length (done_ ++ [cpu])) by (rewrite length_app; cbn; lia).
  assert (Hids : ids_mask (cpu :: cpus) seen = ids_mask cpus (match (if cpu_enabled cpu then cpu_logical_id cpu else None) with
    | Some id => Z.lor seen (Z.shiftl 1 (Z.of_nat id)) | None => seen end)) by done. rewrite Hids. clear Hids.
  destruct (cpu_enabled cpu) eqn:He; cbn [negb].
  2:{ rewrite Hlen, (IH (done_ ++ [cpu]) seen Hall').
      2:{ split; [apply Hs|]. intros k Hk. rewrite starts_snoc_disabled by done. by apply Hs. }
      rewrite <- Hlen. split; intros [Hg ?]; (split; [|done]); intros j c Hj Hc Hce; apply Hg; try done; try lia.
      destruct (decide (j = length done_)) as [->|]; [congruence|lia]. }
  destruct (cpu_logical_id cpu) as [id|] eqn:Hl; cbn [ok_or obind].
  2:{ split; [done|]. intros [Hg _]. destruct (Hg (length done_) cpu ltac:(lia) Hhere He) as (id & ? & _). congruence. }
  pose proof (good_cpu_checks done_ cpu cpus seen id Hs Hl) as Hgc. rewrite <- Hall in Hgc.
  assert (Hbad : forall P : Prop, ~ good_cpu all (length done_) cpu ->
    (Err InvalidTarget = Ok m <-> ((forall j c, (length done_ <= j)%nat -> all !! j = Some c ->
       cpu_enabled c = true -> good_cpu all j c) /\ P))).
  { intros P Hn. split; [done|]. intros [Hg _]. destruct Hn. apply Hg; [lia|done|done]. }
  destruct (_ || _) eqn:E1; [apply Hbad; intros [Hg _]%Hgc; congruence|].
  destruct (_ || _) eqn:E2 in |- *; [apply Hbad; intros [_ Hg]%Hgc; congruence|].
  rewrite Hlen, (IH (done_ ++ [cpu]) _ Hall' (seen_of_insert _ _ _ _ Hs He Hl)). rewrite <- Hlen.
  split; intros [Hg ?]; (split; [|done]); intros j c Hj Hc Hce; [|apply Hg; [lia|done..]].
  destruct (decide (j = length done_)) as [->|]; [|apply Hg; [lia|done..]].
  rewrite Hhere in Hc. injection Hc as <-. by apply Hgc.
Qed.

Lemma mask_without_boot m k :
  0 <= k -> Z.testbit (Z.land m (not64 1)) k = Z.testbit m k && (k <? 64) && negb (k =? 0).
Proof.
  intros Hk. unfold not64. rewrite !Z.land_spec, Z.lnot_spec, Z.testbit_ones_nonneg by lia.
  change 1 with (2 ^ 0) at 1. rewrite Z.pow2_bits_eqb, (Z.eqb_sym 0 k) by lia. btauto.
Qed.

Lemma seen_of_nil : seen_of 0 [].
Proof.
  split; [done|]. intros k Hk. rewrite Z.bits_0. split; [done|]. by intros (c & ?%elem_of_nil & _).
Qed.

Lemma topology_ids cpus id : topology_ok cpus -> starts cpus id -> (id < MAX_CPUS)%nat.
Proof.
  intros Ht (c & Hin & He & Hl). apply list_elem_of_lookup in Hin as [j Hj].
  destruct (Ht j c Hj He) as (id' & Hl' & Hlt & _). congruence.
Qed.

(** [cell] is the release cell of exactly one CPU, the enabled one with id [target]. *)
Definition owns_cell (cpus : list CpuDescriptor) (target : nat) (cell : Z) (cpu : CpuDescriptor) : Prop :=
  exists i, cpus !! i = Some cpu /\ cpu_logical_id cpu = Some target /\ cpu_enabled cpu = true /\
    cpu_startup cpu = SpinTable cell /\ (0 < target < MAX_CPUS)%nat /\ Z.land cell 7 = 0 /\
    forall j other, j <> i -> cpus !! j = Some other ->
      cpu_startup other <> SpinTable cell /\
      (cpu_enabled other = true -> cpu_logical_id other <> Some target /\ cpu_affinity other <> cpu_affinity cpu).

Lemma validate_spin_table_release_sound cpus target contract cell :
  validate_spin_table_release cpus target contract = Ok cell ->
  el2_mmu_off contract = true /\ coherent contract = true /\
  exists i cpu, find_target cpus target 0 = Some (i, cpu) /\ owns_cell cpus target cell cpu.
Proof.
  unfold validate_spin_table_release, validate_spin_table_target. pose proof (find_target_spec cpus target 0) as Hf.
  destruct (find_target cpus target 0) as [[i cpu]|]; cbn [ok_or obind]; [|done]. destruct Hf as (j & -> & Hc & Hl).
  destruct (_ || _) eqn:E; [done|]. rewrite !orb_false_iff, existsb_others_false in E. destruct E as [[[[E0 E1] E2] E3] E4].
  destruct (cpu_startup cpu) as [| |cell'|] eqn:Es; try done.
  destruct (Z.land cell' 7 =? 0) eqn:Ea; cbn [negb obind]; [|done]. destruct (existsb _ _) eqn:Ex; cbn [obind]; [done|].
  destruct (el2_mmu_off contract); [|done]. destruct (coherent contract); [|done]. cbn [negb]. intros [= ->].
  apply negb_false_iff in E2. apply Z.eqb_eq in Ea. apply Nat.eqb_neq in E0. apply Nat.leb_gt in E1.
  rewrite existsb_others_false in Ex. split; [done|]. split; [done|]. exists j, cpu. split; [done|].
  exists j. do 4 (split; [done|]). split; [lia|]. split; [done|]. intros k other Hne Ho. split.
  - specialize (Ex k other Hne Ho). by apply bool_decide_eq_false in Ex.
  - intros He. specialize (E4 k other Hne Ho). rewrite He in E4. cbn [andb] in E4.
    apply orb_false_iff in E4 as [E4 E5]. split; [by apply bool_decide_eq_false in E4|by apply Z.eqb_neq].
Qed.

(** ** Theorems *)

(** [secondary_mask_exact]: the required mask is accepted exactly when the
    enabled CPUs have bounded, distinct logical ids and clean, distinct
    affinities, the boot CPU is among them and so is another one; its bits are
    then the ids of the enabled CPUs other than the boot CPU. *)
Lemma secondary_mask_exact cpus mask :
  secondary_mask cpus = Ok mask <->
  topology_ok cpus /\ starts cpus 0 /\ (exists id, id <> 0%nat /\ starts cpus id) /\
  0 <= mask /\ forall k, 0 <= k -> Z.testbit mask k = true <-> 0 < k /\ starts cpus (Z.to_nat k).
Proof.
  pose proof (fun m => mask_loop_spec cpus [] cpus 0 m eq_refl seen_of_nil) as Hloop. cbn [length] in Hloop.
  pose proof (ids_mask_seen [] cpus 0 seen_of_nil) as [Hm0 Hseen]. cbn [app] in Hseen.
  set (m := ids_mask cpus 0) in *.
  assert (H0 : (Z.land m 1 =? 0) = negb (Z.testbit m 0)) by (rewrite <- land_single_bit, Bool.negb_involutive; done).
  assert (Hbits : topology_ok cpus -> forall k, 0 <= k ->
    Z.testbit (Z.land m (not64 1)) k = true <-> 0 < k /\ starts cpus (Z.to_nat k)).
  { intros Ht k Hk. rewrite mask_without_boot, !andb_true_iff, Hseen, Z.ltb_lt, negb_true_iff, Z.eqb_neq by done.
    split; [intros [[? ?] ?]; split; [lia|done]|]. intros [? Hst]. pose proof (topology_ids cpus _ Ht Hst) as Hid.
    unfold MAX_CPUS in Hid. split_and!; [done|lia|lia]. }
  unfold secondary_mask. split.
  - destruct (mask_loop cpus cpus 0 0) as [m'| |] eqn:E; cbn [obind]; [|done..].
    destruct (proj1 (Hloop m') eq_refl) as [Ht ->].
    assert (Htop : topology_ok cpus) by (intros j c; apply Ht; lia).
    rewrite H0. destruct (Z.testbit m 0) eqn:E0; cbn [negb]; [|done].
    destruct (Z.eqb_spec (Z.land m (not64 1)) 0) as [|Hne]; [done|]. intros [= <-].
    assert (Hnn : 0 <= Z.land m (not64 1)) by (apply Z.land_nonneg; by left).
    split_and!; [done|by apply (Hseen 0)| |done|by apply Hbits].
    assert (Hex : exists k, 0 <= k /\ Z.testbit (Z.land m (not64 1)) k = true).
    { exists (Z.log2 (Z.land m (not64 1))). split; [apply Z.log2_nonneg|]. apply Z.bit_log2. lia. }
    destruct Hex as (k & Hk & Hb). apply Hbits in Hb as [? Hst]; [|done|done].
    exists (Z.to_nat k). split; [lia|done].
  - intros (Ht & Hb & (id & Hid & Hst) & Hmask & Hmb).
    rewrite (proj2 (Hloop m) (conj (fun j c _ => Ht j c) eq_refl)). cbn [obind].
    rewrite H0, (proj2 (Hseen 0 ltac:(lia)) Hb). cbn [negb].
    assert (Hne : Z.land m (not64 1) <> 0).
    { intros Hz. assert (Hbit : Z.testbit (Z.land m (not64 1)) (Z.of_nat id) = true)
        by (apply Hbits; [done|lia|]; rewrite Nat2Z.id; split; [lia|done]). by rewrite Hz, Z.bits_0 in Hbit. }
    rewrite (proj2 (Z.eqb_neq _ _)) by done. f_equal. apply Z.bits_inj'. intros k Hk. apply eq_iff_eq_true.
    by rewrite Hbits, Hmb.
Qed.

(** ** Concrete instances *)

(** The boot CPU, two secondary CPUs and a disabled one. *)
Definition four_cpus : list CpuDescriptor :=
  [mkCpu 0 true (Some 0%nat) Missing; mkCpu 1 true (Some 1%nat) (SpinTable 0xe0);
   mkCpu 2 true (Some 2%nat) (SpinTable 0xe8); mkCpu 3 false None (SpinTable 0xf0)].

Lemma four_cpus_mask : secondary_mask four_cpus = Ok 6.
Proof. vm_compute. reflexivity. Qed.

Lemma four_cpus_release : validate_spin_table_release four_cpus 2 (mkContract true true) = Ok 0xe8.
Proof. vm_compute. reflexivity. Qed.
