(* ===== verification/Topology.v ===== *)
(** * CPU topology: src/tvisor_util/cpu_topology.rs

    The discovery of the physical CPUs from the device tree: every described
    CPU with its affinity and start method, the boot CPU first, the others by
    affinity, and consecutive logical ids for the enabled ones.  The source
    keeps the descriptors in an array with a count and only ever exposes and
    rearranges the counted prefix, which is the list here. *)

From Stdlib Require Import Sorted.
From S2P Require Import Prelude Pcpu SecondaryEntry DeviceTree.

Inductive PsciBinding := Legacy | V0_2 | V1_0.
Inductive PsciConduit := Smc | Hvc.

Record PsciDescription := mkPsci {
  psci_binding : PsciBinding;
  psci_conduit : PsciConduit;
  legacy_cpu_on : option Z
}.

Record CpuTopology := mkTopology { cpus : list CpuDescriptor; psci : option PsciDescription }.

Inductive CpuDiscoveryError :=
| MissingCpus
| InvalidCells
| InvalidCpu
| InvalidAffinity
| InvalidReleaseAddress
| DuplicateAffinity
| Capacity
| BootCpuMissing
| InvalidPsci.

(** ** PSCI *)

Definition psci_binding_of (node : FdtNode) : option PsciBinding :=
  if is_compatible node (b"arm,psci-1.0") then Some V1_0
  else if is_compatible node (b"arm,psci-0.2") then Some V0_2
  else if is_compatible node (b"arm,psci") then Some Legacy
  else None.

Definition psci_conduit_of (node : FdtNode) : outcome CpuDiscoveryError PsciConduit :=
  let? p := ok_or (property node (b"method")) InvalidPsci in
  let? s := or_err (as_str p) InvalidPsci in
  if str_eqb s (b"smc") then Ok Smc else if str_eqb s (b"hvc") then Ok Hvc else Err InvalidPsci.

Fixpoint psci_loop (nodes : list FdtNode) (found : option PsciDescription) :
    outcome CpuDiscoveryError (option PsciDescription) :=
  match nodes with
  | [] => Ok found
  | node :: rest =>
      match psci_binding_of node with
      | None =>
          reject str_eqb (name_without_address (name node)) (b"psci") with InvalidPsci in
          psci_loop rest found
      | Some binding =>
          let? st := or_err (status node) InvalidPsci in
          if negb (bool_decide (st = Okay)) then psci_loop rest found
          else
            reject match found with Some _ => true | None => false end with InvalidPsci in
            let? conduit := psci_conduit_of node in
            let? cpu_on := or_err (transpose (property node (b"cpu_on")) Property_as_u32) InvalidPsci in
            psci_loop rest (Some (mkPsci binding conduit cpu_on))
      end
  end.

Definition discover_psci (fdt : Fdt) : outcome CpuDiscoveryError (option PsciDescription) :=
  psci_loop (children (root_node fdt)) None.

(** ** CPU nodes *)

(** The cells of an address under /cpus. *)
Definition cpu_cells (parent : FdtNode) : outcome CpuDiscoveryError Z :=
  let? p := ok_or (property parent (b"#address-cells")) InvalidCells in
  let? cells := or_err (Property_as_u32 p) InvalidCells in
  if negb ((cells =? 1) || (cells =? 2)) then Err InvalidCells
  else
    let? p := ok_or (property parent (b"#size-cells")) InvalidCells in
    let? sizes := or_err (Property_as_u32 p) InvalidCells in
    reject negb (sizes =? 0) with InvalidCells in Ok cells.

Definition startup_method (node : FdtNode) (psci : option PsciDescription) : outcome CpuDiscoveryError StartupMethod :=
  match property node (b"enable-method") with
  | None => Ok Missing
  | Some p =>
      let? s := or_err (as_str p) InvalidCpu in
      if str_eqb s (b"psci") then
        reject match psci with None => true | Some _ => false end with InvalidPsci in Ok Psci
      else if str_eqb s (b"spin-table") then
        let? p := ok_or (property node (b"cpu-release-addr")) InvalidReleaseAddress in
        let? address := or_err (Property_as_u64 p) InvalidReleaseAddress in
        reject negb (Z.land address 7 =? 0) || match checked_add address 8 with None => true | Some _ => false end
          with InvalidReleaseAddress in
        Ok (SpinTable address)
      else Ok Unsupported
  end.

(** Whether the loop skips a child of /cpus. *)
Definition is_cpu (node : FdtNode) : outcome CpuDiscoveryError bool :=
  match property node (b"device_type") with
  | None => reject str_eqb (name_without_address (name node)) (b"cpu") with InvalidCpu in Ok false
  | Some kind => let? s := or_err (as_str kind) InvalidCpu in Ok (str_eqb s (b"cpu"))
  end.

(** The affinity in the [reg] of a CPU node. *)
Definition cpu_affinity_of (cells : Z) (node : FdtNode) : outcome CpuDiscoveryError Z :=
  let? reg := ok_or (property node (b"reg")) InvalidCpu in
  or_err (if cells =? 1 then Property_as_u32 reg else Property_as_u64 reg) InvalidCpu.

Fixpoint cpus_loop (cells : Z) (psci : option PsciDescription) (nodes : list FdtNode) (found : list CpuDescriptor) :
    outcome CpuDiscoveryError (list CpuDescriptor) :=
  match nodes with
  | [] => Ok found
  | node :: rest =>
      let? wanted := is_cpu node in
      if negb wanted then cpus_loop cells psci rest found
      else
        let? st := or_err (status node) InvalidCpu in
        let enabled := bool_decide (st = Okay) in
        let? affinity := cpu_affinity_of cells node in
        reject negb (Z.land affinity (not64 MPIDR_AFFINITY_MASK) =? 0) with InvalidAffinity in
        reject existsb (fun cpu => cpu_affinity cpu =? affinity) found with DuplicateAffinity in
        reject (length found =? MAX_CPUS)%nat with Capacity in
        let? startup := startup_method node psci in
        cpus_loop cells psci rest (found ++ [mkCpu affinity enabled None startup])
  end.

(** ** Order and numbering *)

(** [iter.position(..)] *)
Fixpoint position_of (f : CpuDescriptor -> bool) (l : list CpuDescriptor) : option nat :=
  match l with
  | [] => None
  | c :: rest => if f c then Some 0%nat else match position_of f rest with Some i => Some (S i) | None => None end
  end.

(** [slice.swap(0, i)] *)
Definition swap_first (i : nat) (l : list CpuDescriptor) : list CpuDescriptor :=
  match l !! 0%nat, l !! i with
  | Some a, Some c => <[0%nat := c]> (<[i := a]> l)
  | _, _ => l
  end.

(** [sort_unstable_by_key(|cpu| cpu.affinity)]: the keys are distinct. *)
Fixpoint insert_by_affinity (c : CpuDescriptor) (l : list CpuDescriptor) : list CpuDescriptor :=
  match l with
  | [] => [c]
  | d :: rest => if cpu_affinity c <=? cpu_affinity d then c :: l else d :: insert_by_affinity c rest
  end.

Fixpoint sort_by_affinity (l : list CpuDescriptor) : list CpuDescriptor :=
  match l with
  | [] => []
  | c :: rest => insert_by_affinity c (sort_by_affinity rest)
  end.

Definition sort_tail (l : list CpuDescriptor) : list CpuDescriptor := take 1 l ++ sort_by_affinity (drop 1 l).

Fixpoint assign_ids (l : list CpuDescriptor) (next : nat) : list CpuDescriptor :=
  match l with
  | [] => []
  | c :: rest =>
      if cpu_enabled c then mkCpu (cpu_affinity c) true (Some next) (cpu_startup c) :: assign_ids rest (S next)
      else c :: assign_ids rest next
  end.

Definition discover_cpu_topology (fdt : Fdt) (boot_mpidr : Z) : outcome CpuDiscoveryError CpuTopology :=
  let? parent := ok_or (find_node fdt (b"/cpus")) MissingCpus in
  let? st := or_err (status parent) InvalidCpu in
  reject negb (bool_decide (st = Okay)) with MissingCpus in
  let? cells := cpu_cells parent in
  let? psci := discover_psci fdt in
  let? found := cpus_loop cells psci (children parent) [] in
  let boot_affinity := Z.land boot_mpidr MPIDR_AFFINITY_MASK in
  let? boot := ok_or (position_of (fun cpu => cpu_enabled cpu && (cpu_affinity cpu =? boot_affinity)) found)
                 BootCpuMissing in
  Ok (mkTopology (assign_ids (sort_tail (swap_first boot found)) 0) psci).

(** ** PSCI version *)

Inductive CpuOnCheck := MandatoryV0_2 | QueryFeatures (function_id : Z).

Definition cpu_on_check (version : Z) : option CpuOnCheck :=
  let major := Z.shiftr version 16 in
  let minor := Z.land version 0xffff in
  if (1 <=? major) && (major <? 0x8000) then Some (QueryFeatures 0xc4000003)
  else if (major =? 0) && (minor =? 2) then Some MandatoryV0_2
  else None.

(** ** Specification *)

(** The nodes the loop takes for CPUs. *)
Definition cpu_node (node : FdtNode) : bool := match is_cpu node with Ok true => true | _ => false end.

(** What one of them says. *)
Definition describes (cells : Z) (psci : option PsciDescription) (node : FdtNode) (c : CpuDescriptor) : Prop :=
  cpu_affinity_of cells node = Ok (cpu_affinity c) /\ startup_method node psci = Ok (cpu_startup c) /\
  (cpu_enabled c = true <-> status node = Ok Okay).

(** Descriptors before they are numbered. *)
Record found_ok (l : list CpuDescriptor) : Prop := {
  fo_distinct : NoDup (cpu_affinity <$> l);
  fo_clean : Forall (fun c => not_affinity (cpu_affinity c) = false) l;
  fo_few : (length l <= MAX_CPUS)%nat;
  fo_fresh : Forall (fun c => cpu_logical_id c = None) l
}.

Definition unnumbered (c : CpuDescriptor) : CpuDescriptor := mkCpu (cpu_affinity c) (cpu_enabled c) None (cpu_startup c).

Definition enabled_before (l : list CpuDescriptor) (j : nat) : nat := length (List.filter cpu_enabled (take j l)).

(** The boot CPU is first, the others follow by affinity, and the enabled ones
    are numbered in this order. *)
Record ordered (boot : Z) (l : list CpuDescriptor) : Prop := {
  or_boot : exists c rest, l = c :: rest /\ cpu_affinity c = boot /\ cpu_enabled c = true /\ cpu_logical_id c = Some 0%nat;
  or_sorted : StronglySorted (fun c d => cpu_affinity c < cpu_affinity d) (drop 1 l);
  or_ids : forall j c, l !! j = Some c ->
    cpu_logical_id c = if cpu_enabled c then Some (enabled_before l j) else None
}.

(** ** Lemmas *)

Lemma cpus_loop_spec cells psci nodes found0 found :
  found_ok found0 -> cpus_loop cells psci nodes found0 = Ok found ->
  found_ok found /\ exists new, found = found0 ++ new /\
    Forall2 (describes cells psci) (List.filter cpu_node nodes) new.
Proof.
  revert found0. induction nodes as [|node nodes IH]; intros found0 Hok; cbn [cpus_loop List.filter].
  { intros [= <-]. split; [done|]. exists []. by rewrite app_nil_r. }
  unfold cpu_node at 1. destruct (is_cpu node) as [[]| |]; cbn [obind negb]; [|by apply IH|done..].
  destruct (status node) as [st| |] eqn:Est; cbn [or_err Prelude.map_err obind]; [|done..].
  destruct (cpu_affinity_of cells node) as [aff| |] eqn:Ea; cbn [obind]; [|done..].
  destruct (negb (Z.land aff _ =? 0)) eqn:Ec; [done|]. destruct (existsb _ found0) eqn:Ed; [done|].
  destruct (Nat.eqb_spec (length found0) MAX_CPUS) as [|Hlen]; [done|].
  destruct (startup_method node psci) as [m| |] eqn:Em; cbn [obind]; [|done..].
  intros Hl. destruct Hok as [Hd Hc Hf Hn].
  destruct (IH (found0 ++ [mkCpu aff (bool_decide (st = Okay)) None m])) as (Hok' & new & -> & Hnew); [|done|].
  { split.
    - rewrite fmap_app. apply NoDup_app. split_and!; [done| |apply NoDup_singleton].
      intros a Ha Ha'. apply list_elem_of_singleton in Ha'. cbn in Ha'. apply list_elem_of_fmap in Ha as (c & Hac & Hin).
      rewrite <- not_true_iff_false in Ed. apply Ed, existsb_exists. exists c. split; [by apply list_elem_of_In|apply Z.eqb_eq; congruence].
    - apply Forall_app. split; [done|]. constructor; [done|constructor].
    - rewrite length_app. cbn. lia.
    - apply Forall_app. split; [done|]. constructor; [done|constructor]. }
  split; [done|]. exists (mkCpu aff (bool_decide (st = Okay)) None m :: new). split; [by rewrite <- app_assoc|].
  constructor; [|done]. split_and!; [done|done|]. cbn. rewrite bool_decide_eq_true, Est. naive_solver.
Qed.

Lemma position_of_Some f l i : position_of f l = Some i -> exists c, l !! i = Some c /\ f c = true.
Proof.
  revert i. induction l as [|c l IH]; intros i; cbn [position_of]; [done|]. destruct (f c) eqn:E; [intros [= <-]; eauto|].
  destruct (position_of f l) as [k|]; [|done]. intros [= <-]. destruct (IH k eq_refl) as (d & ? & ?). eauto.
Qed.

Lemma swap_first_spec i l c : l !! i = Some c -> exists rest, swap_first i l = c :: rest /\ l ≡ₚ c :: rest.
Proof.
  intros Hc. unfold swap_first. destruct l as [|a l]; [done|]. destruct i as [|i].
  - cbn in *. simplify_eq. eauto.
  - rewrite Hc. change ((a :: l) !! 0%nat) with (Some a). cbn match. exists (<[i := a]> l). split; [done|].
    change ((a :: l) !! S i) with (l !! i) in Hc. rewrite (insert_take_drop l i a) by (by eapply lookup_lt_Some).
    rewrite <- (take_drop_middle l i c Hc) at 1. rewrite <- !Permutation_middle. apply Permutation_swap.
Qed.

Notation by_affinity := (fun c d : CpuDescriptor => cpu_affinity c <= cpu_affinity d).

Lemma insert_permutation c l : insert_by_affinity c l ≡ₚ c :: l.
Proof.
  induction l as [|d l IH]; cbn [insert_by_affinity]; [done|]. destruct (_ <=? _); [done|].
  by rewrite IH, Permutation_swap.
Qed.

Lemma sort_permutation l : sort_by_affinity l ≡ₚ l.
Proof. induction l as [|c l IH]; cbn [sort_by_affinity]; [done|]. by rewrite insert_permutation, IH. Qed.

Lemma insert_sorted c l : StronglySorted by_affinity l -> StronglySorted by_affinity (insert_by_affinity c l).
Proof.
  induction 1 as [|d l Hs IH Hd]; cbn [insert_by_affinity]; [by repeat constructor|].
  destruct (Z.leb_spec (cpu_affinity c) (cpu_affinity d)).
  - constructor; [by constructor|]. constructor; [done|]. eapply List.Forall_impl; [|exact Hd]. cbn. lia.
  - constructor; [done|]. rewrite insert_permutation. constructor; [lia|done].
Qed.

Lemma sort_sorted l : StronglySorted by_affinity (sort_by_affinity l).
Proof. induction l; cbn [sort_by_affinity]; [constructor|by apply insert_sorted]. Qed.

(** Sorted without duplicates is strictly sorted. *)
Lemma sorted_strict l :
  NoDup (cpu_affinity <$> l) -> StronglySorted by_affinity l ->
  StronglySorted (fun c d => cpu_affinity c < cpu_affinity d) l.
Proof.
  intros Hd Hs. induction Hs as [|c l Hs IH Hc]; [constructor|]. rewrite fmap_cons, NoDup_cons in Hd. destruct Hd as [Hni Hd].
  constructor; [by apply IH|]. rewrite Forall_forall in Hc |- *. intros d Hin. specialize (Hc d Hin). cbn in Hc.
  assert (cpu_affinity c <> cpu_affinity d); [|lia]. intros E. apply Hni. rewrite E. apply list_elem_of_fmap. eauto.
Qed.

Lemma assign_ids_lookup l n j :
  assign_ids l n !! j =
  (fun c => mkCpu (cpu_affinity c) (cpu_enabled c)
              (if cpu_enabled c then Some (n + enabled_before l j)%nat else cpu_logical_id c) (cpu_startup c)) <$> l !! j.
Proof.
  revert n j. induction l as [|[a e i s] l IH]; intros n j; cbn [assign_ids]; [done|].
  destruct j as [|j]; unfold enabled_before; cbn [take List.filter cpu_enabled].
  - destruct e; cbn; rewrite ?Nat.add_0_r; reflexivity.
  - destruct e; cbn [lookup list_lookup]; rewrite IH; unfold enabled_before; cbn [length]; f_equal.
    destruct (l !! j); cbn; rewrite ?Nat.add_succ_r; reflexivity.
Qed.

Lemma assign_ids_fmap {A} (f : CpuDescriptor -> A) l n :
  (forall a e i i' s, f (mkCpu a e i s) = f (mkCpu a e i' s)) -> f <$> assign_ids l n = f <$> l.
Proof.
  intros Hf. apply list_eq. intros j. rewrite !list_lookup_fmap, assign_ids_lookup.
  destruct (l !! j) as [[a e i s]|]; cbn; [|done]. f_equal. apply Hf.
Qed.

Lemma Forall_affinity (P : Z -> Prop) l : Forall (fun c => P (cpu_affinity c)) l <-> Forall P (cpu_affinity <$> l).
Proof. by rewrite Forall_fmap. Qed.

Lemma enabled_before_fmap l l' j : cpu_enabled <$> l = cpu_enabled <$> l' -> enabled_before l j = enabled_before l' j.
Proof.
  unfold enabled_before. revert l' j. induction l as [|c l IH]; intros [|c' l'] j H; try done.
  destruct j as [|j]; [done|]. rewrite !fmap_cons in H. injection H as Hc Hl. cbn [take List.filter]. rewrite Hc.
  destruct (cpu_enabled c'); cbn [length]; by rewrite (IH l' j Hl).
Qed.

Lemma enabled_before_le l j : (enabled_before l j <= j)%nat.
Proof.
  unfold enabled_before. transitivity (length (take j l)); [|rewrite length_take; lia].
  generalize (take j l). intros l0. induction l0 as [|c l0 IH]; cbn [List.filter length]; [done|].
  destruct (cpu_enabled c); cbn [length]; lia.
Qed.

Lemma enabled_before_lt l i j c : (i < j)%nat -> l !! i = Some c -> cpu_enabled c = true -> (enabled_before l i < enabled_before l j)%nat.
Proof.
  intros Hij Hc He. unfold enabled_before.
  assert (Ht : take j l = take i l ++ c :: drop (S i) (take j l)).
  { rewrite <- (take_drop_middle (take j l) i c) at 1 by (by rewrite lookup_take_lt). by rewrite take_take, Nat.min_l by lia. }
  rewrite Ht, List.filter_app, length_app. cbn [List.filter]. rewrite He. cbn [length]. lia.
Qed.

Lemma ordered_topology_ok boot l :
  ordered boot l -> NoDup (cpu_affinity <$> l) -> Forall (fun c => not_affinity (cpu_affinity c) = false) l ->
  (length l <= MAX_CPUS)%nat -> topology_ok l.
Proof.
  intros [_ _ Hid] Hd Hc Hlen j c Hj He. exists (enabled_before l j). split_and!.
  - by rewrite (Hid j c Hj), He.
  - pose proof (lookup_lt_Some _ _ _ Hj). pose proof (enabled_before_le l j). lia.
  - by apply (Forall_lookup_1 _ _ _ _ Hc Hj).
  - intros k o Hk Ho Heo. rewrite (Hid k o Ho), Heo. intros [= E]. pose proof (enabled_before_lt l k j o Hk Ho Heo). lia.
  - intros k o Hk Ho Heo E. apply Hk. apply (NoDup_lookup (cpu_affinity <$> l) k j (cpu_affinity c)); [done| |];
      rewrite list_lookup_fmap; [by rewrite Ho; cbn; rewrite E|by rewrite Hj].
Qed.

(** What the rearrangement makes of the found descriptors. *)
Lemma arranged found boot i :
  found_ok found -> position_of (fun cpu => cpu_enabled cpu && (cpu_affinity cpu =? boot)) found = Some i ->
  let l := assign_ids (sort_tail (swap_first i found)) 0 in
  (unnumbered <$> l) ≡ₚ found /\ ordered boot l /\ topology_ok l.
Proof.
  intros Hok Hp. destruct (position_of_Some _ _ _ Hp) as (c & Hc & Hb). apply andb_true_iff in Hb as [He Ha]. apply Z.eqb_eq in Ha.
  destruct (swap_first_spec i found c Hc) as (rest & -> & Hperm). unfold sort_tail. cbn [take drop app].
  cbv zeta. set (l0 := c :: sort_by_affinity rest). assert (Hl0 : l0 ≡ₚ found) by (unfold l0; by rewrite sort_permutation).
  destruct Hok as [Hd Hcl Hf Hn].
  assert (Haff : cpu_affinity <$> assign_ids l0 0 = cpu_affinity <$> l0) by by apply assign_ids_fmap.
  assert (Hnone : Forall (fun c => cpu_logical_id c = None) l0) by by rewrite Hl0.
  assert (Hlen : length (assign_ids l0 0) = length l0) by (rewrite <- !(length_fmap cpu_affinity), Haff; done).
  assert (Hord : ordered boot (assign_ids l0 0)).
  { split.
    - exists (mkCpu boot true (Some 0%nat) (cpu_startup c)), (assign_ids (sort_by_affinity rest) 1).
      split; [|done]. unfold l0. cbn [assign_ids]. by rewrite He, Ha.
    - assert (Hs : StronglySorted (fun c d => cpu_affinity c < cpu_affinity d) (sort_by_affinity rest)).
      { apply sorted_strict; [|apply sort_sorted]. assert (Hd' : NoDup (cpu_affinity <$> l0)) by (by rewrite Hl0).
        unfold l0 in Hd'. rewrite fmap_cons, NoDup_cons in Hd'. tauto. }
      unfold l0. cbn [assign_ids]. rewrite He. cbn [drop]. clear -Hs. generalize 1%nat as n.
      induction Hs as [|d l Hs IH Hd]; intros n; cbn [assign_ids]; [constructor|].
      assert (Hall : forall n, Forall (fun d' => cpu_affinity d < cpu_affinity d') (assign_ids l n)).
      { intros m. apply (Forall_affinity (fun a => cpu_affinity d < a)). rewrite assign_ids_fmap by done. by apply Forall_affinity. }
      destruct (cpu_enabled d); constructor; try apply IH; apply Hall.
    - intros j d Hj. rewrite assign_ids_lookup in Hj. destruct (l0 !! j) as [d0|] eqn:Hd0; [|done]. cbn in Hj. injection Hj as <-.
      cbn. rewrite (enabled_before_fmap (assign_ids l0 0) l0) by by apply assign_ids_fmap.
      rewrite (Forall_lookup_1 _ _ _ _ Hnone Hd0). done. }
  split_and!; [|done|].
  - rewrite assign_ids_fmap by done. rewrite <- Hl0. rewrite (list_fmap_ext _ id); [by rewrite list_fmap_id|].
    intros j d Hj. pose proof (Forall_lookup_1 _ _ _ _ Hnone Hj) as E. destruct d as [a e i' s]. cbn in E. by subst.
  - refine (ordered_topology_ok boot _ Hord _ _ _); [rewrite Haff; by rewrite Hl0| |rewrite Hlen; by rewrite Hl0].
    apply (Forall_affinity (fun a => not_affinity a = false)). rewrite Haff, Hl0. by apply Forall_affinity.
Qed.

Lemma found_ok_nil : found_ok [].
Proof. split; [constructor|constructor|cbn; lia|constructor]. Qed.

(** Every step of a successful discovery. *)
Lemma discover_cpu_topology_inv fdt boot_mpidr t :
  discover_cpu_topology fdt boot_mpidr = Ok t ->
  exists parent cells found, find_node fdt (b"/cpus") = Some parent /\ status parent = Ok Okay /\
    cpu_cells parent = Ok cells /\ discover_psci fdt = Ok (psci t) /\ found_ok found /\
    Forall2 (describes cells (psci t)) (List.filter cpu_node (children parent)) found /\
    (unnumbered <$> cpus t) ≡ₚ found /\ ordered (Z.land boot_mpidr MPIDR_AFFINITY_MASK) (cpus t) /\ topology_ok (cpus t).
Proof.
  unfold discover_cpu_topology. destruct (find_node _ _) as [parent|] eqn:Ep; cbn [ok_or obind]; [|done].
  destruct (status parent) as [st| |] eqn:Est; cbn [or_err Prelude.map_err obind]; [|done..].
  case_bool_decide; cbn [negb]; [subst st|done]. destruct (cpu_cells parent) as [cells| |] eqn:Ec; cbn [obind]; [|done..].
  destruct (discover_psci fdt) as [ps| |] eqn:Eps; cbn [obind]; [|done..].
  destruct (cpus_loop cells ps (children parent) []) as [found| |] eqn:El; cbn [obind]; [|done..].
  destruct (cpus_loop_spec _ _ _ _ _ found_ok_nil El) as (Hok & new & -> & Hnew). cbn [app] in *.
  destruct (position_of _ new) as [i|] eqn:Epos; cbn [ok_or obind]; [|done]. intros [= <-]. cbn [psci cpus].
  destruct (arranged new _ i Hok Epos) as (Hperm & Hord & Ht). exists parent, cells, new. done.
Qed.

(** C30 [topology_discovered]: a topology that discovery accepts describes exactly
    the CPU nodes of the device tree, each with its affinity, its start method
    and whether it is enabled; at most four, with distinct affinities inside
    the affinity mask.  The boot CPU, found by its affinity, is first and has
    logical id 0, the others follow in ascending affinity however the tree
    lists them, and the enabled ones are numbered without gaps.  Hence the mask
    of CPUs to start is accepted as soon as a second CPU is enabled. *)
Theorem topology_discovered fdt boot_mpidr t :
  discover_cpu_topology fdt boot_mpidr = Ok t ->
  (exists parent cells found, find_node fdt (b"/cpus") = Some parent /\ cpu_cells parent = Ok cells /\
     Forall2 (describes cells (psci t)) (List.filter cpu_node (children parent)) found /\
     (unnumbered <$> cpus t) ≡ₚ found /\ found_ok found) /\
  ordered (Z.land boot_mpidr MPIDR_AFFINITY_MASK) (cpus t) /\
  ((exists id, id <> 0%nat /\ starts (cpus t) id) -> exists mask, secondary_mask (cpus t) = Ok mask).
Proof.
  intros Hd. destruct (discover_cpu_topology_inv _ _ _ Hd) as
    (parent & cells & found & Hp & _ & Hc & _ & Hok & Hf & Hperm & Hord & Ht).
  split_and!; [exists parent, cells, found; done|done|]. intros Hsec. eexists.
  apply secondary_mask_exact. destruct (ids_mask_seen [] (cpus t) 0 seen_of_nil) as [Hm Hbits]. cbn [app] in Hbits.
  split_and!; [done| |done| |].
  - destruct Hord as [(c & rest & Hl & _ & He & Hi) _ _]. exists c. rewrite Hl. split; [by left|done].
  - instantiate (1 := Z.land (ids_mask (cpus t) 0) (not64 1)). apply Z.land_nonneg. by left.
  - intros k Hk. rewrite mask_without_boot, !andb_true_iff, Hbits, Z.ltb_lt, negb_true_iff, Z.eqb_neq by done.
    split; [intros [[? ?] ?]; split; [lia|done]|]. intros [? Hst]. pose proof (topology_ids _ _ Ht Hst) as Hid.
    unfold MAX_CPUS in Hid. split_and!; [done|lia|lia].
Qed.

(** ** Concrete instances *)

Definition sample_cpu (suffix affinity release : Z) (state : str) : dt_node :=
  mkNode (b"cpu@" ++ [48 + suffix])
    [mkProp (b"device_type") (b"cpu" ++ [0]); mkProp (b"reg") (to_be_bytes 4 affinity);
     mkProp (b"enable-method") (b"spin-table" ++ [0]); mkProp (b"cpu-release-addr") (to_be_bytes 8 release);
     mkProp (b"status") (state ++ [0])] [].

(** A tree that lists the CPUs out of order, the boot CPU last. *)
Definition sample_tree : Fdt :=
  mkFdt (mkNode [] []
    [mkNode (b"cpus") [mkProp (b"#address-cells") (to_be_bytes 4 1); mkProp (b"#size-cells") (to_be_bytes 4 0)]
       [sample_cpu 3 3 0xf0 (b"disabled"); sample_cpu 2 2 0xe8 (b"okay"); sample_cpu 1 1 0xe0 (b"okay");
        sample_cpu 0 0 0xd8 (b"okay")]]) [] 0.

Lemma topology_discovered_witness :
  exists t, discover_cpu_topology sample_tree 0x80000000 = Ok t /\ ordered 0 (cpus t) /\
    cpu_logical_id <$> cpus t = [Some 0; Some 1; Some 2; None]%nat /\ secondary_mask (cpus t) = Ok 6.
Proof.
  destruct (discover_cpu_topology sample_tree 0x80000000) as [t| |] eqn:E; [|by vm_compute in E..].
  exists t. split; [done|]. destruct (topology_discovered sample_tree 0x80000000 t E) as (_ & Ho & Hm).
  split; [exact Ho|]. vm_compute in E. injection E as <-. split; [reflexivity|].
  vm_compute. reflexivity.
Defined.
