(* ===== verification/CpuStartup.v ===== *)
(** * CPU startup memory: src/tvisor_util/cpu_startup.rs, secondary_backend.rs

    The firmware memory the CPUs wait in: the release cells the device tree
    names, which must lie in reserved RAM and stay out of the allocator's
    reach, and the choice of the platform whose start protocol is trusted. *)

From S2P Require Import Prelude SystemInfo MemoryMap Pcpu SecondaryEntry DeviceTree Topology.

Inductive StartupContractError :=
| InvalidReservation
| MissingHoldingReservation
| ReleaseCellNotRam
| InvalidRam
| UnsupportedStartupMethod
| ReleaseCellNotIdentityMapped
| NonzeroReleaseCell
| HoldingMemoryAllocatable.

Record StartupMemoryContract  := mkStartupContract { release_cells : FixedList PhysRegion }.

(** ** Reading and checking the cells *)

Fixpoint verify_cells (read : Z -> outcome StartupContractError Z) (cells : list PhysRegion) :
    outcome StartupContractError unit :=
  match cells with
  | [] => Ok ()
  | cell :: rest =>
      let? value := read (rstart cell) in
      reject negb (value =? 0) with NonzeroReleaseCell in
      verify_cells read rest
  end.

Definition verify_release_cells (self : StartupMemoryContract) (read : Z -> outcome StartupContractError Z) :
    outcome StartupContractError unit :=
  let? cells := FixedList_iter (release_cells self) in verify_cells read cells.

Definition verify_reserved_range (region : PhysRegion) (m : MemoryMap) : outcome StartupContractError unit :=
  let? reserved := FixedList_iter (permanent_reserved m) in
  reject negb (existsb (fun r => contains_region r region) reserved) with MissingHoldingReservation in
  let? usable := FixedList_iter (usable_ram m) in
  reject existsb (fun u => overlaps u region) usable with HoldingMemoryAllocatable in
  Ok ().

Definition reservation_region (address size : Z) : outcome StartupContractError PhysRegion :=
  or_err (PhysRegion_new address size) InvalidReservation.

Definition verify_memory_map (self : StartupMemoryContract) (fdt : Fdt) (m : MemoryMap) :
    outcome StartupContractError unit :=
  let? _ := try_each (fun '(address, size) =>
              let? region := reservation_region address size in verify_reserved_range region m)
              (memory_reservations fdt) in
  let? cells := FixedList_iter (release_cells self) in
  try_each (fun cell => verify_reserved_range cell m) cells.

(** ** Discovery *)

(** The registers of one memory node. *)
Fixpoint registers_contain (cell : PhysRegion) (registers : list Reg) : outcome StartupContractError bool :=
  match registers with
  | [] => Ok false
  | register :: rest =>
      let? address := or_err (to_int (reg_address register)) InvalidRam in
      let? size := or_err (to_int (reg_size register)) InvalidRam in
      let? ram := or_err (PhysRegion_new address size) InvalidRam in
      if contains_region ram cell then Ok true else registers_contain cell rest
  end.

Fixpoint nodes_contain (cell : PhysRegion) (nodes : list FdtNode) : outcome StartupContractError bool :=
  match nodes with
  | [] => Ok false
  | node :: rest =>
      match property node (b"device_type") with
      | None => nodes_contain cell rest
      | Some kind =>
          let? s := or_err (as_str kind) InvalidRam in
          let? skip :=
            if negb (str_eqb s (b"memory")) then Ok true
            else let? st := or_err (status node) InvalidRam in Ok (negb (bool_decide (st = Okay))) in
          if skip then nodes_contain cell rest
          else
            let? registers := or_err (reg node) InvalidRam in
            let? registers := ok_or registers InvalidRam in
            let? found := registers_contain cell registers in
            if found then Ok true else nodes_contain cell rest
      end
  end.

Definition cell_in_ram (fdt : Fdt) (cell : PhysRegion) : outcome StartupContractError bool :=
  nodes_contain cell (children (root_node fdt)).

Definition reserved_by (cell : PhysRegion) '((address, size) : Z * Z) : bool :=
  match reservation_region address size with Ok region => contains_region region cell | _ => false end.

(** The body of the loop over the enabled CPUs. *)
Definition add_release_cell (fdt : Fdt) (cpu : CpuDescriptor) (self : StartupMemoryContract) :
    outcome StartupContractError StartupMemoryContract :=
  match cpu_startup cpu with
  | SpinTable release_address =>
      let? cell := reservation_region release_address 8 in
      reject negb (existsb (reserved_by cell) (memory_reservations fdt)) with MissingHoldingReservation in
      let? in_ram := cell_in_ram fdt cell in
      reject negb in_ram with ReleaseCellNotRam in
      let? cells := FixedList_iter (release_cells self) in
      if existsb (fun entry => bool_decide (entry = cell)) cells then Ok self
      else let? cells := or_err (FixedList_push MAX_CPUS (release_cells self) cell) UnsupportedStartupMethod in
           Ok (mkStartupContract cells)
  | Psci => Ok self
  | Missing | Unsupported => Err UnsupportedStartupMethod
  end.

Fixpoint release_cells_loop (fdt : Fdt) (l : list CpuDescriptor) (self : StartupMemoryContract) :
    outcome StartupContractError StartupMemoryContract :=
  match l with
  | [] => Ok self
  | cpu :: rest => let? self := add_release_cell fdt cpu self in release_cells_loop fdt rest self
  end.

Definition discover_startup_memory (fdt : Fdt) (topology : CpuTopology) :
    outcome StartupContractError StartupMemoryContract :=
  let? _ := try_each (fun '(address, size) => let? _ := reservation_region address size in Ok ()) (memory_reservations fdt) in
  release_cells_loop fdt (List.filter cpu_enabled (cpus topology)) (mkStartupContract (FixedList_new MAX_CPUS)).

(** ** The trusted platform: secondary_backend.rs *)

Module Backend.

Inductive BackendError := Platform | Cpu | Cluster | FirmwareInterface.

Definition cortex_a72 (midr : Z) : bool :=
  (Z.land (Z.shiftr midr 24) 255 =? 0x41) && (Z.land (Z.shiftr midr 4) 4095 =? 0xd08).

(** The enabled CPUs under /cpus, all of which must be of the expected core. *)
Fixpoint count_cores (nodes : list FdtNode) (count : nat) : outcome BackendError nat :=
  match nodes with
  | [] => Ok count
  | node :: rest =>
      let cpu := match property node (b"device_type") with
                 | Some p => match as_str p with Ok s => str_eqb s (b"cpu") | _ => false end
                 | None => false
                 end in
      if negb cpu then count_cores rest count
      else
        let? st := or_err (status node) Cpu in
        if negb (bool_decide (st = Okay)) then count_cores rest count
        else
          reject negb (is_compatible node (b"arm,cortex-a72")) with Cpu in
          count_cores rest (S count)
  end.

Definition select (fdt : Fdt) (topology : CpuTopology) (midr mpidr : Z) : outcome BackendError unit :=
  reject negb (is_compatible (root_node fdt) (b"raspberrypi,4-model-b"))
      || negb (is_compatible (root_node fdt) (b"brcm,bcm2711")) with Platform in
  reject negb (cortex_a72 midr) with Cpu in
  reject match psci topology with Some _ => true | None => false end with FirmwareInterface in
  let boot := Z.land mpidr MPIDR_AFFINITY_MASK in
  reject negb (existsb (fun cpu => cpu_enabled cpu && bool_decide (cpu_logical_id cpu = Some 0%nat)
                                   && (cpu_affinity cpu =? boot)) (cpus topology))
      || existsb (fun cpu => negb (Z.land (cpu_affinity cpu) (not64 255) =? Z.land boot (not64 255))
                             || (4 <=? Z.land (cpu_affinity cpu) 255)) (List.filter cpu_enabled (cpus topology))
    with Cluster in
  let? parent := ok_or (find_node fdt (b"/cpus")) Cpu in
  let? count := count_cores (children parent) 0 in
  reject negb (count =? length (List.filter cpu_enabled (cpus topology)))%nat with Cpu in
  Ok ().

(** What the selected platform's firmware guarantees at entry. *)
Definition contract : EntryContract := mkContract true true.

End Backend.

(** ** Specification *)

Definition cell_of (address : Z) : PhysRegion := mkRegion address 8.

(** The cell of an enabled CPU that spins. *)
Definition named_cell (l : list CpuDescriptor) (cell : PhysRegion) : Prop :=
  exists cpu address, cpu ∈ l /\ cpu_enabled cpu = true /\ cpu_startup cpu = SpinTable address /\ cell = cell_of address.

Definition in_reservation (fdt : Fdt) (cell : PhysRegion) : Prop :=
  exists address size, (address, size) ∈ memory_reservations fdt /\ PhysRegion_new address size = Ok (mkRegion address size) /\
    contains_region (mkRegion address size) cell = true.

(** A memory node in use describes a region around the cell. *)
Definition in_memory_node (nodes : list FdtNode) (cell : PhysRegion) : Prop :=
  exists node kind registers register address size,
    node ∈ nodes /\ property node (b"device_type") = Some kind /\ as_str kind = Ok (b"memory") /\
    status node = Ok Okay /\ reg node = Ok (Some registers) /\ register ∈ registers /\
    to_int (reg_address register) = Ok address /\ to_int (reg_size register) = Ok size /\
    contains_region (mkRegion address size) cell = true.

(** Every byte of the region is reserved and none is usable. *)
Definition protected (rsv us : list PhysRegion) (region : PhysRegion) : Prop :=
  forall x, rstart region <= x < rend region -> covers rsv x /\ ~ covers us x.

(** ** Lemmas *)

Lemma canonical_contains lo xs region :
  canonical_from lo xs -> rstart region < rend region ->
  existsb (fun r => contains_region r region) xs = true <->
  (forall x, rstart region <= x < rend region -> covers xs x).
Proof.
  intros Hc Hr. unfold contains_region. split.
  - rewrite existsb_exists. intros (r & Hin & Hb) x Hx. bool_prop. exists r. rewrite list_elem_of_In. split; [done|lia].
  - intros H. revert lo Hc H. induction xs as [|r xs IH]; intros lo Hc H.
    { by destruct (H (rstart region) ltac:(lia)) as (? & ?%elem_of_nil & _). }
    destruct Hc as (_ & Hok & Hc). cbn [existsb]. apply orb_true_iff.
    destruct (decide (rstart region < rend r)).
    + left. apply andb_true_iff. rewrite !Z.leb_le.
      pose proof (H (rstart region) ltac:(lia)) as [Hs|Hs%(covers_above _ _ _ Hc)]%covers_cons; [|lia].
      split; [lia|]. destruct (decide (rend region <= rend r)); [done|].
      pose proof (H (rend r) ltac:(lia)) as [?|?%(covers_above _ _ _ Hc)]%covers_cons; lia.
    + right. apply (IH _ Hc). intros x Hx. destruct (H x Hx) as (r' & [->|Hin]%elem_of_cons & ?); [lia|by exists r'].
Qed.

Lemma overlaps_covers xs region :
  rstart region < rend region -> Forall region_ok xs ->
  existsb (fun u => overlaps u region) xs = false <-> (forall x, rstart region <= x < rend region -> ~ covers xs x).
Proof.
  intros Hr Hok. rewrite <- not_true_iff_false, existsb_exists. unfold overlaps. rewrite Forall_forall in Hok. split.
  - intros H x Hx (u & Hin & Hu). apply H. exists u. rewrite <- list_elem_of_In. split; [done|].
    apply andb_true_iff. rewrite !Z.ltb_lt. lia.
  - intros H (u & Hin & Hb). apply list_elem_of_In in Hin. pose proof (Hok u Hin) as (?&?&?). bool_prop.
    apply (H (Z.max (rstart u) (rstart region))); [unfold rend in *; lia|]. exists u. split; [done|]. unfold rend in *; lia.
Qed.

Section Contract.
Context (fdt : Fdt).

Lemma registers_contain_true cell l :
  registers_contain cell l = Ok true ->
  exists register address size, register ∈ l /\ to_int (reg_address register) = Ok address /\
    to_int (reg_size register) = Ok size /\ contains_region (mkRegion address size) cell = true.
Proof.
  induction l as [|r l IH]; cbn [registers_contain]; [done|].
  destruct (to_int (reg_address r)) as [a| |] eqn:Ea; sequence; [|done..].
  destruct (to_int (reg_size r)) as [s| |] eqn:Es; sequence; [|done..].
  unfold PhysRegion_new. destruct (s =? 0); sequence; [done|].
  destruct (PhysAddr_checked_add a s); sequence; [|done].
  destruct (contains_region _ cell) eqn:Ec; [intros _; exists r, a, s; split; [by left|done]|].
  intros (r' & ? & ? & ? & ?)%IH. eexists r', _, _. split; [by right|done].
Qed.

Lemma nodes_contain_true cell nodes : nodes_contain cell nodes = Ok true -> in_memory_node nodes cell.
Proof.
  induction nodes as [|n l IH]; cbn [nodes_contain]; [done|].
  assert (Hrest : nodes_contain cell l = Ok true -> in_memory_node (n :: l) cell).
  { intros (nd & k & rs & r & a & s & Hin & H)%IH. exists nd, k, rs, r, a, s. split; [by right|done]. }
  clear IH. destruct (property n (b"device_type")) as [kind|] eqn:Ek; [|done].
  destruct (as_str kind) as [s| |] eqn:Es; sequence; [|done..].
  unfold str_eqb. case_bool_decide as Hs; sequence; [|done]. subst s.
  destruct (status n) as [st| |] eqn:Est; sequence; [|done..].
  case_bool_decide as Hst; sequence; [|done]. subst st.
  destruct (reg n) as [[regs|]| |] eqn:Er; sequence; [|done..].
  destruct (registers_contain cell regs) as [[]| |] eqn:Ec; sequence; [|done..].
  intros _. destruct (registers_contain_true _ _ Ec) as (r & a & z & Hin & H).
  exists n, kind, regs, r, a, z. split; [by left|done].
Qed.

Lemma reserved_by_true cell :
  existsb (reserved_by cell) (memory_reservations fdt) = true -> in_reservation fdt cell.
Proof.
  rewrite existsb_exists. intros ([a s] & Hin%list_elem_of_In & Hb). exists a, s. split; [done|].
  unfold reserved_by, reservation_region, or_err, PhysRegion_new in *. destruct (s =? 0); [done|].
  by destruct (PhysAddr_checked_add a s); cbn in Hb.
Qed.

(** What the loop has gathered from the CPUs in [l]. *)
Record gathered (l : list CpuDescriptor) (k : StartupMemoryContract) (cells : list PhysRegion) : Prop := {
  ga_rep : fl_rep MAX_CPUS (release_cells k) cells;
  ga_distinct : NoDup cells;
  ga_named : forall cell, cell ∈ cells <-> named_cell l cell;
  ga_reserved : Forall (in_reservation fdt) cells;
  ga_ram : Forall (in_memory_node (children (root_node fdt))) cells;
  ga_methods : Forall (fun cpu => cpu_enabled cpu = true ->
                 (exists address, cpu_startup cpu = SpinTable address) \/ cpu_startup cpu = Psci) l
}.

Lemma add_release_cell_gathers l cpu k k' cells :
  gathered l k cells -> cpu_enabled cpu = true -> add_release_cell fdt cpu k = Ok k' ->
  exists cells', gathered (l ++ [cpu]) k' cells'.
Proof.
  intros [Hrep Hd Hn Hr Hm Hmet] Hen. unfold add_release_cell.
  assert (Hnamed : forall cell, named_cell (l ++ [cpu]) cell <->
    named_cell l cell \/ exists address, cpu_startup cpu = SpinTable address /\ cell = cell_of address).
  { intros cell. split.
    - intros (c & a & [Hin| ->%list_elem_of_singleton]%elem_of_app & ?); [left; by exists c, a|right; naive_solver].
    - intros [(c & a & Hin & ?)|(a & ? & ->)]; [exists c, a|exists cpu, a]; rewrite elem_of_app, list_elem_of_singleton; auto. }
  destruct (cpu_startup cpu) as [| |address|] eqn:Est; [done|done| |intros [= <-]].
  2:{ exists cells. split; [done..| |done|done|]; [|apply Forall_app; split; [done|]; constructor; [by right|constructor]].
      intros cell. rewrite Hnamed, Hn. naive_solver. }
  unfold reservation_region, or_err, PhysRegion_new. cbn [Z.eqb]. destruct (PhysAddr_checked_add address 8); [|done].
  sequence. destruct (existsb _ (memory_reservations fdt)) eqn:Er; [|done]. sequence.
  destruct (cell_in_ram fdt _) as [[]| |] eqn:Ei; sequence; [|done..].
  rewrite (iter_refines _ _ _ Hrep). sequence.
  assert (Hmet' : Forall (fun cpu => cpu_enabled cpu = true ->
    (exists address, cpu_startup cpu = SpinTable address) \/ cpu_startup cpu = Psci) (l ++ [cpu])).
  { apply Forall_app. split; [done|]. constructor; [|constructor]. left. eauto. }
  destruct (existsb _ cells) eqn:Ex.
  - intros [= <-]. exists cells. split; [done..| |done|done|done]. intros cell. rewrite Hnamed, Hn.
    split; [naive_solver|]. intros [H|(a & [= <-] & ->)]; [done|]. apply Hn.
    apply existsb_exists in Ex as (e & Hin%list_elem_of_In & He). apply bool_decide_eq_true in He as ->. done.
  - pose proof (push_refines MAX_CPUS (release_cells k) cells (cell_of address) Hrep) as Hp. fold (cell_of address).
    destruct (_ =? _)%nat; [by rewrite Hp|]. destruct Hp as (fl & -> & Hfl). sequence.
    intros [= <-]. exists (cells ++ [cell_of address]).
    assert (Hfresh : cell_of address ∉ cells).
    { intros Hin. rewrite <- not_true_iff_false, existsb_exists in Ex. apply Ex. exists (cell_of address).
      rewrite <- list_elem_of_In. split; [done|]. by apply bool_decide_eq_true. }
    split; [done| | | | |done].
    + apply NoDup_app. split_and!; [done| |apply NoDup_singleton]. intros c Hc ->%list_elem_of_singleton. done.
    + intros cell. rewrite Hnamed, elem_of_app, list_elem_of_singleton, Hn. naive_solver.
    + apply Forall_app. split; [done|]. constructor; [by apply reserved_by_true|constructor].
    + apply Forall_app. split; [done|]. constructor; [by apply nodes_contain_true|constructor].
Qed.

Lemma release_cells_loop_gathers rest l k k' cells :
  gathered l k cells -> Forall (fun cpu => cpu_enabled cpu = true) rest ->
  release_cells_loop fdt rest k = Ok k' -> exists cells', gathered (l ++ rest) k' cells'.
Proof.
  intros Hg Hen. revert l k cells Hg. induction Hen as [|cpu rest Hcpu _ IH]; intros l k cells Hg; cbn [release_cells_loop].
  - intros [= <-]. rewrite app_nil_r. eauto.
  - destruct (add_release_cell fdt cpu k) as [k1| |] eqn:E; sequence; [|done..].
    destruct (add_release_cell_gathers _ _ _ _ _ Hg Hcpu E) as (c1 & Hg1). intros H.
    rewrite cons_middle, app_assoc. eauto.
Qed.

End Contract.

Lemma gathered_all fdt l k cells : gathered fdt (List.filter cpu_enabled l) k cells -> gathered fdt l k cells.
Proof.
  intros [Hrep Hd Hn Hr Hm Hmet]. split; [done|done| |done|done|].
  - intros cell. rewrite Hn. unfold named_cell. setoid_rewrite list_elem_of_In. setoid_rewrite filter_In. naive_solver.
  - rewrite Forall_forall in *. intros cpu Hin He. apply Hmet; [|done]. rewrite list_elem_of_In, filter_In, <- list_elem_of_In. done.
Qed.

Lemma discover_startup_memory_inv fdt t k :
  discover_startup_memory fdt t = Ok k ->
  Forall (fun '(a, s) => PhysRegion_new a s = Ok (mkRegion a s)) (memory_reservations fdt) /\
  exists cells, gathered fdt (cpus t) k cells.
Proof.
  unfold discover_startup_memory. destruct (try_each _ _) as [[]| |] eqn:Er; sequence; [|done..]. intros Hl. split.
  - apply try_each_Ok in Er. eapply Forall_impl; [exact Er|]. intros [a s]. unfold reservation_region, PhysRegion_new.
    destruct (s =? 0); [done|]. by destruct (PhysAddr_checked_add a s).
  - destruct (release_cells_loop_gathers fdt (List.filter cpu_enabled (cpus t)) [] (mkStartupContract (FixedList_new MAX_CPUS)) k []) as (cells & Hg).
    + split; [apply fl_rep_new|apply NoDup_nil_2| |constructor..]. intros cell. split; [by intros ?%elem_of_nil|].
      by intros (? & ? & ?%elem_of_nil & _).
    + apply Forall_forall. intros c Hin. by apply list_elem_of_In, filter_In in Hin as [_ ?].
    + done.
    + exists cells. by apply gathered_all.
Qed.

Lemma verify_reserved_range_exact m rams rsv devs us region :
  map_wf m rams rsv devs us -> canonical us -> rstart region < rend region ->
  verify_reserved_range region m <> Panic /\ (verify_reserved_range region m = Ok () <-> protected rsv us region).
Proof.
  intros Hm Hus Hr. unfold verify_reserved_range. rewrite (iter_refines _ _ _ (wf_rsv _ _ _ _ _ Hm)),
    (iter_refines _ _ _ (wf_usable _ _ _ _ _ Hm)). sequence.
  pose proof (canonical_contains _ _ _ (wf_rsv_canonical _ _ _ _ _ Hm) Hr) as H1.
  pose proof (overlaps_covers us region Hr (canonical_from_ok _ _ Hus)) as H2. unfold protected.
  destruct (existsb _ rsv); sequence; [destruct (existsb _ us)|].
  - split; [done|]. split; [done|]. intros H. discriminate (proj2 H2). intros x Hx. by apply H.
  - split; [done|]. split; [|done]. intros _ x Hx. split; [by apply H1|by apply H2].
  - split; [done|]. split; [done|]. intros H. discriminate (proj2 H1). intros x Hx. by apply H.
Qed.

(** C31 [startup_memory_protected]: what discovery accepts as startup memory is,
    without duplicates, the eight-byte release cell of every enabled CPU that
    spins; each lies in a reservation of the device tree and in a memory node
    in use, and every enabled CPU has a supported start method.  The later check
    against a finalised memory map never panics and accepts exactly when every
    byte of every reservation and of every cell is reserved and none is
    usable RAM. *)
Theorem startup_memory_protected fdt t k :
  Forall (fun '(a, s) => u64 a /\ u64 s) (memory_reservations fdt) ->
  discover_startup_memory fdt t = Ok k ->
  exists cells, gathered fdt (cpus t) k cells /\
    forall m rams rsv devs us, map_wf m rams rsv devs us -> canonical us ->
      verify_memory_map k fdt m <> Panic /\
      (verify_memory_map k fdt m = Ok () <->
         (forall a s, (a, s) ∈ memory_reservations fdt -> protected rsv us (mkRegion a s)) /\
         (forall cell, cell ∈ cells -> protected rsv us cell)).
Proof.
  intros Hu Hd. destruct (discover_startup_memory_inv _ _ _ Hd) as (Hres & cells & Hg). exists cells. split; [done|].
  intros m rams rsv devs us Hm Hus. unfold verify_memory_map. rewrite (iter_refines _ _ _ (ga_rep _ _ _ _ Hg)). sequence.
  assert (Hcell : forall c, c ∈ cells -> rstart c < rend c).
  { intros c (? & a & _ & _ & _ & ->)%(ga_named _ _ _ _ Hg). unfold rend, cell_of. cbn. lia. }
  assert (Hreg : forall a s, (a, s) ∈ memory_reservations fdt ->
    reservation_region a s = Ok (mkRegion a s) /\ rstart (mkRegion a s) < rend (mkRegion a s)).
  { intros a s Hin. rewrite Forall_forall in Hres, Hu. specialize (Hres _ Hin). specialize (Hu _ Hin). cbn in Hres, Hu.
    unfold reservation_region, or_err. rewrite Hres. split; [done|]. unfold rend. cbn.
    destruct (PhysRegion_new_ok a s _ ltac:(apply Hu) ltac:(apply Hu) Hres) as [_ (_ & Hpos & _)]. cbn in Hpos. lia. }
  destruct (try_each_exact (fun '(address, size) => let? region := reservation_region address size in verify_reserved_range region m)
    (fun '(a, s) => protected rsv us (mkRegion a s)) (memory_reservations fdt)) as [Hn1 H1].
  { intros [a s] Hin. destruct (Hreg a s Hin) as [-> Hlt]. sequence. exact (verify_reserved_range_exact _ _ _ _ _ _ Hm Hus Hlt). }
  destruct (try_each_exact (fun cell => verify_reserved_range cell m) (protected rsv us) cells) as [Hn2 H2].
  { intros c Hin. exact (verify_reserved_range_exact _ _ _ _ _ _ Hm Hus (Hcell c Hin)). }
  destruct (try_each _ (memory_reservations fdt)) as [[]| |]; sequence; [| |done].
  - split; [done|]. rewrite H2. split; [|by intros [_ ?]]. intros H. split; [|done]. intros a s. by apply (proj1 H1 eq_refl (a, s)).
  - split; [done|]. split; [done|]. intros [H _]. discriminate (proj2 H1). by intros [a s] Hin; apply H.
Qed.

Lemma startup_without_psci node m :
  startup_method node None = Ok m -> m <> Psci /\ forall a, m = SpinTable a -> Z.land a 7 = 0.
Proof.
  unfold startup_method. destruct (property node _) as [p|]; [|intros [= <-]; split; [done|done]].
  destruct (as_str p) as [s| |]; sequence; [|done..]. destruct (str_eqb s _); [done|].
  destruct (str_eqb s _); [|intros [= <-]; split; done]. destruct (property node _) as [q|]; sequence; [|done].
  destruct (Property_as_u64 q) as [a| |]; sequence; [|done..]. destruct (Z.eqb_spec (Z.land a 7) 0); cbn [negb orb]; [|done].
  destruct (checked_add a 8); [|done]. intros [= <-]. split; [done|]. by intros a' [= <-].
Qed.

(** In a topology whose enabled CPUs are well described, the target check
    fails only on a shared cell. *)
Lemma validate_target_cases l id j cpu address :
  topology_ok l -> id <> 0%nat -> l !! j = Some cpu -> cpu_logical_id cpu = Some id -> cpu_enabled cpu = true ->
  (forall c, c ∈ l -> cpu_enabled c = false -> cpu_logical_id c = None) ->
  cpu_startup cpu = SpinTable address -> Z.land address 7 = 0 ->
  validate_spin_table_target l id =
    reject existsb (fun other => bool_decide (cpu_startup other = SpinTable address)) (others j l) with SharedReleaseCell in
    Ok address.
Proof.
  intros Ht Hid Hj Hl He Hoff Hs Ha. unfold validate_spin_table_target. pose proof (find_target_spec l id 0) as Hf.
  assert (Huniq : forall k c, l !! k = Some c -> cpu_logical_id c = Some id -> k = j).
  { intros k c Hk Hc. assert (Hce : cpu_enabled c = true).
    { destruct (cpu_enabled c) eqn:E; [done|]. rewrite (Hoff c) in Hc; [done|by eapply list_elem_of_lookup_2|done]. }
    destruct (Ht j cpu Hj He) as (i1 & Hi1 & _ & _ & Hb1 & _). destruct (Ht k c Hk Hce) as (i2 & Hi2 & _ & _ & Hb2 & _).
    simplify_eq. destruct (Nat.lt_total k j) as [Hlt|[?|Hlt]]; [|done|].
    - by destruct (Hb1 k c Hlt Hk Hce).
    - by destruct (Hb2 j cpu Hlt Hj He). }
  destruct (find_target l id 0) as [[i c]|]; [|by destruct (Hf cpu (list_elem_of_lookup_2 _ _ _ Hj))].
  destruct Hf as (k & -> & Hk & Hkl). pose proof (Huniq k c Hk Hkl) as ->. simplify_eq. cbn [ok_or obind Nat.add].
  destruct (Ht j cpu Hj He) as (id' & Hid' & Hlt & Haff & _ & Hb). simplify_eq.
  rewrite (proj2 (Nat.eqb_neq _ _) Hid), (proj2 (Nat.leb_gt _ _) Hlt), He, Haff. cbn [orb negb].
  rewrite (proj2 (existsb_others_false _ _ _)), Hs, Ha; [done|].
  intros k o Hne Hk'. destruct (cpu_enabled o) eqn:Eo; [|done]. cbn [andb]. apply orb_false_iff. split.
  - apply bool_decide_eq_false. intros E. apply Hne. by apply (Huniq k o).
  - apply Z.eqb_neq. by apply (Hb k o).
Qed.

Lemma select_inv fdt t midr mpidr :
  Backend.select fdt t midr mpidr = Ok () ->
  let boot := Z.land mpidr MPIDR_AFFINITY_MASK in
  psci t = None /\ Backend.cortex_a72 midr = true /\
  forall c, c ∈ cpus t -> cpu_enabled c = true ->
    Z.land (cpu_affinity c) (not64 255) = Z.land boot (not64 255) /\ Z.land (cpu_affinity c) 255 < 4.
Proof.
  unfold Backend.select. destruct (_ || _); [done|]. destruct (Backend.cortex_a72 midr); [|done]. cbn [negb].
  destruct (psci t); [done|]. destruct (_ || _) eqn:E; [done|]. apply orb_false_iff in E as [_ E]. intros _.
  split_and!; [done|done|]. intros c Hin Hc. rewrite <- not_true_iff_false, existsb_exists in E.
  destruct (Z.eqb_spec (Z.land (cpu_affinity c) (not64 255)) (Z.land (Z.land mpidr MPIDR_AFFINITY_MASK) (not64 255)));
    [destruct (Z.leb_spec 4 (Z.land (cpu_affinity c) 255)); [|by split]|]; exfalso; apply E; exists c;
    (split; [apply filter_In; rewrite <- list_elem_of_In; done|]).
  - apply orb_true_iff. right. by apply Z.leb_le.
  - apply orb_true_iff. left. by apply negb_true_iff, Z.eqb_neq.
Qed.

(** [selected_cpus_releasable]: on the selected platform, with the topology and
    the startup memory discovered from the same device tree, every CPU to be
    started is in the boot CPU's cluster and has an aligned release cell inside
    the protected startup memory, and the release check under the platform's
    entry contract returns that cell, or refuses it only because another
    described CPU shares it. *)
Lemma selected_cpus_releasable fdt midr mpidr t k id :
  discover_cpu_topology fdt mpidr = Ok t -> discover_startup_memory fdt t = Ok k ->
  Backend.select fdt t midr mpidr = Ok () -> id <> 0%nat -> starts (cpus t) id ->
  exists cells j cpu address, fl_rep MAX_CPUS (release_cells k) cells /\
    cpus t !! j = Some cpu /\ cpu_logical_id cpu = Some id /\ cpu_startup cpu = SpinTable address /\
    cell_of address ∈ cells /\ Z.land address 7 = 0 /\
    Z.land (cpu_affinity cpu) (not64 255) = Z.land (Z.land mpidr MPIDR_AFFINITY_MASK) (not64 255) /\
    (validate_spin_table_release (cpus t) id Backend.contract = Ok address \/
     validate_spin_table_release (cpus t) id Backend.contract = Err SharedReleaseCell /\
     exists j' other, j' <> j /\ cpus t !! j' = Some other /\ cpu_startup other = SpinTable address).
Proof.
  intros Hd Hk Hs Hid (cpu & Hin & He & Hl). destruct (select_inv _ _ _ _ Hs) as (Hps & _ & Hcl).
  destruct (discover_startup_memory_inv _ _ _ Hk) as (_ & cells & Hg).
  destruct (discover_cpu_topology_inv _ _ _ Hd) as (parent & n & found & _ & _ & _ & _ & _ & Hf & Hperm & Hord & Ht).
  assert (Hm : forall c, c ∈ cpus t -> exists node, startup_method node None = Ok (cpu_startup c)).
  { intros c Hc. assert (unnumbered c ∈ found) as (i & Hi)%list_elem_of_lookup.
    { rewrite <- Hperm. by apply list_elem_of_fmap_2. }
    destruct (Forall2_lookup_r _ _ _ _ _ Hf Hi) as (node & _ & _ & Hst & _). exists node. by rewrite <- Hps. }
  destruct (Hm cpu Hin) as (node & Hst). destruct (startup_without_psci _ _ Hst) as [Hnp Hal].
  pose proof (ga_methods _ _ _ _ Hg) as Hmet. rewrite Forall_forall in Hmet.
  destruct (Hmet cpu Hin He) as [(address & Ha)|?]; [|done].
  apply list_elem_of_lookup in Hin as [j Hj]. exists cells, j, cpu, address. split_and!; [apply Hg|done|done|done| | | |].
  - apply (ga_named _ _ _ _ Hg). exists cpu, address. split; [by eapply list_elem_of_lookup_2|done].
  - by apply Hal.
  - apply (Hcl cpu); [by eapply list_elem_of_lookup_2|done].
  - unfold validate_spin_table_release. rewrite (validate_target_cases _ _ j cpu address); auto.
    2:{ intros c [i Hi]%list_elem_of_lookup Hoff. by rewrite (or_ids _ _ Hord i c Hi), Hoff. }
    destruct (existsb _ _) eqn:E; [|by left]. right. split; [done|].
    apply existsb_exists in E as (o & (i & ? & ?)%list_elem_of_In%others_elem & ?%bool_decide_eq_true). eauto.
Qed.

(** ** Concrete instances *)

Definition board_cpu (suffix affinity release : Z) : dt_node :=
  let 'mkNode n props l := sample_cpu suffix affinity release (b"okay") in
  mkNode n (mkProp (b"compatible") (b"arm,cortex-a72" ++ [0]) :: props) l.

(** A board with RAM at 0, firmware in its first page and three CPUs. *)
Definition board_tree : Fdt :=
  mkFdt (mkNode [] [mkProp (b"compatible") (b"raspberrypi,4-model-b" ++ [0] ++ b"brcm,bcm2711" ++ [0])]
    [mkNode (b"memory@0") [mkProp (b"device_type") (b"memory" ++ [0]);
                           mkProp (b"reg") (to_be_bytes 8 0 ++ to_be_bytes 4 0x3b400000)] [];
     mkNode (b"cpus") [mkProp (b"#address-cells") (to_be_bytes 4 1); mkProp (b"#size-cells") (to_be_bytes 4 0)]
       [board_cpu 0 0 0xd8; board_cpu 1 1 0xe0; board_cpu 2 2 0xe8]]) [(0, 0x1000)] 0.

Definition board_topology : CpuTopology := match discover_cpu_topology board_tree 0x80000000 with Ok t => t | _ => mkTopology [] None end.

Definition board_map : MemoryMap :=
  match (let? m := insert_ram MemoryMap_empty (mkRegion 0 0x3b400000) in
         let? m := insert_reserved m (mkRegion 0 0x1000) in finalize m) with
  | Ok m => m | _ => MemoryMap_empty end.

Lemma startup_memory_protected_witness :
  exists k cells, discover_startup_memory board_tree board_topology = Ok k /\
    gathered board_tree (cpus board_topology) k cells /\ verify_memory_map k board_tree board_map = Ok ().
Proof.
  destruct (discover_startup_memory board_tree board_topology) as [k| |] eqn:E; [|by vm_compute in E..].
  destruct (startup_memory_protected board_tree board_topology k) as (cells & Hg & _); [|done|].
  { constructor; [|constructor]. split; split; vm_compute; done. }
  exists k, cells. split_and!; [done|done|]. vm_compute in E. injection E as <-. vm_compute. reflexivity.
Defined.

