(* ===== verification/Publication.v ===== *)
(** * Publishing and releasing a secondary CPU: src/tvisor_util/startup_publication.rs

    A secondary CPU starts with its caches off, so everything it reads first
    has to be cleaned to memory; then its firmware cell receives the entry
    address and an event wakes it.  The steps become programs over shared
    locations: the mailbox, the attempted mask, the firmware cells, and one
    location for each kind of maintenance of src/tvisor_util/secondary_hardware.rs
    (a cache line clean, the barrier, the doorbell), of which only the place in
    the trace matters.  On the target these operations cannot fail. *)

From S2P Require Import Prelude Page SystemInfo El2Stage1 Atomics SecondaryMailbox SecondaryBoot El2Policy Pcpu HostMap StartupResources SecondaryEntry.

Inductive release_loc :=
| RMail (l : mailbox_loc)
| Attempted
| Cell (address : Z)
| CleanLine (address : Z)
| Barrier
| Doorbell.

#[global] Instance release_loc_eq_dec : EqDecision release_loc.
Proof. solve_decision. Defined.

Notation rprog A := (prog release_loc (outcome PublicationError A)).

(** ** The hardware *)

Definition clean_cache_line (address : Z) : rprog unit := _ <- store (CleanLine address) 0 ;; Ret (Ok tt).
Definition publication_barrier : rprog unit := _ <- store Barrier 0 ;; Ret (Ok tt).
Definition read_release_cell (address : Z) : rprog Z := v <- load (Cell address) ;; Ret (Ok v).

(** The routine reads the counter before it stores. *)
Definition write_release_cell_le64 (address value : Z) : rprog Z :=
  timestamp <- input ;; _ <- store (Cell address) value ;; Ret (Ok timestamp).

Definition send_event : rprog unit := _ <- store Doorbell 0 ;; Ret (Ok tt).

(** ** Cleaning *)

Definition cache_range (start e line : Z) : outcome PublicationError (Z * Z) :=
  reject negb (is_power_of_two line) || (line <? 8) || (PAGE_SIZE <? line) with InvalidLineSize in
  reject e <=? start with Preconditions in
  let? rounded := ok_or (checked_add e (line - 1)) PubOverflow in
  Ok (Z.land start (not64 (line - 1)), Z.land rounded (not64 (line - 1))).

(** [while address < end]; the fuel counts lines. *)
Fixpoint clean_loop (fuel : nat) (address e line : Z) : rprog unit :=
  match fuel with
  | O => Ret Panic
  | S fuel' =>
      if address <? e then
        _ <-? clean_cache_line address ;;
        match add64 (E:=PublicationError) address line with
        | Ok address' => clean_loop fuel' address' e line
        | _ => Ret Panic
        end
      else Ret (Ok tt)
  end.

Definition clean_range (start e line : Z) : rprog unit :=
  r <-? Ret (cache_range start e line) ;;
  let '(address, e') := r in
  clean_loop (S (Z.to_nat ((e' - address) / line))) address e' line.

Definition shared_regions (r : StartupResources) : list PhysRegion :=
  [code r; vectors r; rodata r; writable r; tables_region r].

(** [for region in regions { cache_range(..)?; }] *)
Fixpoint check_ranges (regions : list PhysRegion) (line : Z) : outcome PublicationError unit :=
  match regions with
  | [] => Ok tt
  | region :: rest => let? _ := cache_range (rstart region) (rend region) line in check_ranges rest line
  end.

Fixpoint clean_regions (regions : list PhysRegion) (line : Z) : rprog unit :=
  match regions with
  | [] => Ret (Ok tt)
  | region :: rest => _ <-? clean_range (rstart region) (rend region) line ;; clean_regions rest line
  end.

Definition publish_shared_startup (r : StartupResources) (line : Z) : rprog unit :=
  if negb (contains_region (writable r) (slots r)) || negb (contains_region (writable r) (config r))
  then Ret (Err Preconditions)
  else
    _ <-? Ret (check_ranges (shared_regions r) line) ;;
    clean_regions (shared_regions r) line.

Definition publish_cpu_startup (stack : StackLayout) (line : Z) : rprog unit :=
  if negb (bool_decide (stack_layout (guard_start stack) = Ok stack)) then Ret (Err Preconditions)
  else clean_range (bottom stack) (top stack) line.

(** ** Preflight *)

(** The part of the condition before [observe_ready], given the state read. *)
Definition publication_mismatch (config_address : Z) (record : StartupView) (r : StartupResources) (id : nat)
    (cpu : CpuDescriptor) : outcome PublicationError bool :=
  if negb (valid_config (view_config record)) || negb (view_slot_address record =? rstart (context r)) then Ok true
  else
    let? slot := add64 (rstart (slots r)) (Z.of_nat id * SLOT_SIZE) in
    Ok (negb (view_slot_address record =? slot) || negb (config_address =? rstart (config r))
        || negb (id_logical_id (view_identity record) =? Z.of_nat id)
        || negb (id_affinity (view_identity record) =? cpu_affinity cpu)).

(** The part after it. *)
Definition publication_misfit (record : StartupView) (r : StartupResources) (cell : Z) : outcome PublicationError bool :=
  if negb (id_context (view_identity record) =? view_slot_address record)
     || negb (El2Policy.root (view_config record) =? StartupResources.root r)
     || negb (id_stack_bottom (view_identity record) =? bottom (stack r))
     || negb (id_stack_top (view_identity record) =? top (stack r))
     || negb (Z.land (entry_point r) 3 =? 0)
     || negb (contains_address (code r) (entry_point r))
  then Ok true
  else
    let? region := Prelude.map_err (fun _ => PubOverflow) (PhysRegion_new cell 8) in
    Ok (negb (contains_region (release_region r) region)).

Definition validate_publication (cpus : list CpuDescriptor) (id : nat) (contract : EntryContract)
    (config_address : Z) (record : StartupView) (r : StartupResources) (line : Z) : rprog unit :=
  cell <-? Ret (Prelude.map_err (fun _ => Preconditions) (validate_spin_table_release cpus id contract)) ;;
  found <-? Ret (ok_or (find_target cpus id 0) Preconditions) ;;
  let '(_, cpu) := found in
  st <- relocate RMail (state (view_generation record)) ;;
  if match st with Ok Prepared => false | _ => true end then Ret (match st with Panic => Panic | _ => Err Preconditions end)
  else
    bad <-? Ret (publication_mismatch config_address record r id cpu) ;;
    if (bad : bool) then Ret (Err Preconditions)
    else
      ready <- relocate RMail (observe_ready (view_generation record)) ;;
      if negb (ready : bool) then Ret (Err Preconditions)
      else
        bad <-? Ret (publication_misfit record r cell) ;;
        if (bad : bool) then Ret (Err Preconditions)
        else
          stack_region <-? Ret (Prelude.map_err (fun _ => Preconditions)
                                  (PhysRegion_from_bounds (bottom (stack r)) (top (stack r)))) ;;
          Ret (check_ranges (shared_regions r ++ [stack_region; release_region r]) line).

(** ** Release *)

(** [attempted.fetch_update(..)], setting [bit] if it is clear; [n] bounds the
    retries after a concurrent change. *)
Fixpoint claim_attempt (n : nat) (bit prev : Z) : rprog Z :=
  if negb (Z.land prev bit =? 0) then Ret (Err Preconditions)
  else
    match n with
    | O => Ret Panic
    | S n' =>
        r <- compare_exchange Attempted prev (Z.lor prev bit) ;;
        match r with
        | inl old => Ret (Ok old)
        | inr found => claim_attempt n' bit found
        end
    end.

(** From the first read of the cell on. *)
Definition release_cell (n : nat) (record : StartupView) (id : nat) (cell entry line : Z) : rprog Z :=
  v <-? read_release_cell cell ;;
  if negb (v =? 0) then Ret (Err NonzeroCell)
  else
    started <- relocate RMail (begin_start (view_generation record)) ;;
    _ <-? Ret (Prelude.map_err (fun _ => Preconditions) started) ;;
    _ <-? publication_barrier ;;
    v <-? read_release_cell cell ;;
    if negb (v =? 0) then Ret (Err NonzeroCell)
    else
      prev <- load Attempted ;;
      _ <-? claim_attempt n (Z.shiftl 1 (Z.of_nat id)) prev ;;
      timestamp <-? write_release_cell_le64 cell entry ;;
      _ <-? clean_cache_line (Z.land cell (not64 (line - 1))) ;;
      _ <-? publication_barrier ;;
      _ <-? send_event ;;
      Ret (Ok timestamp).

Definition release_secondary (n : nat) (cpus : list CpuDescriptor) (contract : EntryContract) (record : StartupView)
    (entry line : Z) : rprog Z :=
  let id := Z.to_nat (id_logical_id (view_identity record)) in
  cell <-? Ret (Prelude.map_err (fun _ => Preconditions) (validate_spin_table_release cpus id contract)) ;;
  found <-? Ret (ok_or (find_target cpus id 0) Preconditions) ;;
  let '(_, cpu) := found in
  cell_end <-? Ret (ok_or (checked_add cell 8) PubOverflow) ;;
  _ <-? Ret (cache_range cell cell_end line) ;;
  if (entry =? 0) || negb (Z.land entry 3 =? 0)
     || negb (id_affinity (view_identity record) =? cpu_affinity cpu)
     || negb (id_context (view_identity record) =? view_slot_address record)
  then Ret (Err Preconditions)
  else
    st <- relocate RMail (state (view_generation record)) ;;
    if match st with Ok Prepared => false | _ => true end then Ret (match st with Panic => Panic | _ => Err Preconditions end)
    else
      mask <- load Attempted ;;
      if negb (Z.land mask (Z.shiftl 1 (Z.of_nat id)) =? 0) then Ret (Err Preconditions)
      else release_cell n record id cell entry line.

(** ** Readback *)

Definition verify_release_value (cpus : list CpuDescriptor) (attempted cell entry value : Z) :
    outcome PublicationError unit :=
  let? required := Prelude.map_err (fun _ => Preconditions) (secondary_mask cpus) in
  reject negb (Z.land attempted (not64 required) =? 0) with Preconditions in
  let released := existsb (fun cpu =>
    match cpu_logical_id cpu with
    | Some id => negb (Z.land attempted (Z.shiftl 1 (Z.of_nat id)) =? 0)
    | None => false
    end && bool_decide (cpu_startup cpu = SpinTable cell)) cpus in
  if value =? (if released then entry else 0) then Ok tt else Err Preconditions.

(** ** Order of the release *)

Notation revent := (event release_loc).

(** An access that neither writes a firmware cell nor rings. *)
Definition silent (e : revent) : Prop :=
  match e with
  | EStore (Cell _) _ | EStore Doorbell _ | ESwap (Cell _) _ _ | ECasOk (Cell _) _ _ => False
  | _ => True
  end.

Definition failed_attempt (e : revent) : Prop := match e with ECasFail Attempted _ _ => True | _ => False end.

(** The accesses of a successful release, in order. *)
Definition release_sequence (g : Z) (id : nat) (cell entry line t : Z) (tr : list revent) : Prop :=
  exists m0 m1 m fails, Forall failed_attempt fails /\ Z.testbit m (Z.of_nat id) = false /\
    tr = [ELoad (RMail Ready) g; ELoad (RMail StateCell) (cpu_state_u64 Prepared); ELoad Attempted m0;
          ELoad (Cell cell) 0;
          ELoad (RMail Ready) g; ECasOk (RMail StateCell) (cpu_state_u64 Prepared) (cpu_state_u64 Starting);
          EStore Barrier 0;
          ELoad (Cell cell) 0; ELoad Attempted m1] ++ fails ++
         [ECasOk Attempted m (Z.lor m (Z.shiftl 1 (Z.of_nat id)));
          EInput t; EStore (Cell cell) entry;
          EStore (CleanLine (Z.land cell (not64 (line - 1)))) 0;
          EStore Barrier 0;
          EStore Doorbell 0].

(** What a finished release has done. *)
Definition release_post (cpus : list CpuDescriptor) (contract : EntryContract) (record : StartupView) (entry line : Z)
    (tr : list revent) (r : outcome PublicationError Z) : Prop :=
  match r with
  | Ok t =>
      exists cell cpu, owns_cell cpus (Z.to_nat (id_logical_id (view_identity record))) cell cpu /\
        id_affinity (view_identity record) = cpu_affinity cpu /\ entry <> 0 /\ entry mod 4 = 0 /\
        el2_mmu_off contract = true /\ coherent contract = true /\
        release_sequence (view_generation record) (Z.to_nat (id_logical_id (view_identity record))) cell entry line t tr
  | _ => Forall silent tr
  end.

Lemma claim_attempt_traces n id prev acc (Q : list revent -> outcome PublicationError Z -> Prop) :
  (forall fails m, Forall failed_attempt fails -> Z.testbit m (Z.of_nat id) = false ->
     Q (acc ++ fails ++ [ECasOk Attempted m (Z.lor m (Z.shiftl 1 (Z.of_nat id)))]) (Ok m)) ->
  (forall fails r, Forall failed_attempt fails -> r = Panic \/ r = Err Preconditions -> Q (acc ++ fails) r) ->
  traces (claim_attempt n (Z.shiftl 1 (Z.of_nat id)) prev) Q acc.
Proof.
  revert prev acc. induction n as [|n IH]; intros prev acc Hok Hbad; cbn [claim_attempt];
    rewrite land_single_bit by lia; destruct (Z.testbit prev (Z.of_nat id)) eqn:Eb; cbn.
  1,2,3: specialize (Hbad [] _ ltac:(constructor) (or_intror eq_refl)) as Hb1;
    specialize (Hbad [] _ ltac:(constructor) (or_introl eq_refl)) as Hb2; rewrite app_nil_r in *; done.
  split; [by apply (Hok [])|]. intros v Hv. apply IH.
  - intros fails m Hf Hm. rewrite <- app_assoc. apply (Hok (ECasFail Attempted prev v :: fails)); [by constructor|done].
  - intros fails r Hf Hr. rewrite <- app_assoc. apply (Hbad (ECasFail Attempted prev v :: fails)); [by constructor|done].
Qed.

Lemma failed_silent fails : Forall failed_attempt fails -> Forall silent fails.
Proof. intros H. eapply Forall_impl; [exact H|]. intros e. by destruct e as [| | | |l o v|]. Qed.

(** [traces] goals: the program's accesses are introduced one by one, and a
    silent result is closed from what has been accumulated. *)
Ltac silent := repeat apply Forall_app_2; eauto using failed_silent; repeat constructor.

Lemma release_cell_traces n record id cell entry line acc :
  Forall silent acc ->
  traces (release_cell n record id cell entry line)
    (fun tr r => match r with
     | Ok t => exists m1 m fails, Forall failed_attempt fails /\ Z.testbit m (Z.of_nat id) = false /\
         tr = acc ++ [ELoad (Cell cell) 0; ELoad (RMail Ready) (view_generation record);
                ECasOk (RMail StateCell) (cpu_state_u64 Prepared) (cpu_state_u64 Starting); EStore Barrier 0;
                ELoad (Cell cell) 0; ELoad Attempted m1] ++ fails ++
              [ECasOk Attempted m (Z.lor m (Z.shiftl 1 (Z.of_nat id))); EInput t; EStore (Cell cell) entry;
               EStore (CleanLine (Z.land cell (not64 (line - 1)))) 0; EStore Barrier 0; EStore Doorbell 0]
     | _ => Forall silent tr
     end) acc.
Proof.
  intros Hacc. unfold release_cell, read_release_cell, begin_start, transition, check, observe_ready. cbn.
  intros v. destruct (Z.eqb_spec v 0) as [->|]; cbn [negb]; [|cbn; silent].
  destruct (view_generation record =? 0); [cbn; silent|]. cbn. intros rdy.
  destruct (Z.eqb_spec rdy (view_generation record)) as [->|]; cbn; [|silent].
  split; [|intros x Hx; silent]. intros w. destruct (Z.eqb_spec w 0) as [->|]; cbn [negb]; [|cbn; silent].
  cbn. intros m1. apply traces_bind. apply claim_attempt_traces.
  - intros fails m Hf Hm. cbn. intros t. exists m1, m, fails. split; [done|]. split; [done|].
    by rewrite <- !app_assoc.
  - intros fails r Hf [->| ->]; cbn; silent.
Qed.

Lemma release_secondary_traces n cpus contract record entry line :
  traces (release_secondary n cpus contract record entry line) (release_post cpus contract record entry line) [].
Proof.
  unfold release_secondary, pbind_res at 1. cbn [pbind].
  set (id := Z.to_nat (id_logical_id (view_identity record))).
  destruct (validate_spin_table_release cpus id contract) as [cell| |] eqn:Ev; cbn [Prelude.map_err]; [|constructor..].
  destruct (validate_spin_table_release_sound _ _ _ _ Ev) as (He & Hcoh & i & cpu & Hfind & Hown).
  rewrite Hfind. unfold pbind_res at 1. cbn [pbind ok_or].
  unfold pbind_res at 1. cbn [pbind]. destruct (checked_add cell 8) as [cell_end|]; cbn [ok_or]; [|constructor].
  unfold pbind_res at 1. cbn [pbind]. destruct (cache_range cell cell_end line); [|constructor..].
  destruct (_ || _) eqn:Ec; [constructor|]. rewrite !orb_false_iff, !negb_false_iff, !Z.eqb_eq, Z.eqb_neq in Ec.
  destruct Ec as [[[He0 He4] Ha] _]. change 3 with (2 ^ 2 - 1) in He4. rewrite land_pow2_pred in He4 by done.
  apply traces_bind. unfold state, check, observe_ready, lifecycle.
  destruct (view_generation record =? 0); [cbn; constructor|]. cbn. intros rdy.
  destruct (Z.eqb_spec rdy (view_generation record)) as [->|]; cbn; [|silent]. intros sv.
  destruct (decide (sv = cpu_state_u64 Prepared)) as [->|Hsv].
  2:{ destruct (cpu_state_of sv) as [[]| |] eqn:Es; cbn; try silent.
      exfalso. apply Hsv. unfold cpu_state_of in Es. repeat case_match; by simplify_eq. }
  cbn. intros m0. rewrite land_single_bit by lia. destruct (Z.testbit m0 (Z.of_nat id)); [cbn; silent|].
  eapply traces_mono; [|apply release_cell_traces; silent].
  intros tr [t| |]; cbn; [|done..]. intros (m1 & m & fails & Hf & Hm & ->).
  exists cell, cpu. split_and!; try done. exists m0, m1, m, fails. done.
Qed.

(** C20 [release_secondary_ordered]: whatever the hardware answers and however
    others interfere, a finished release either has neither written a firmware
    cell nor rung the doorbell, or it succeeded and did exactly this: having
    found the CPU prepared and the cell empty it moved the mailbox from
    prepared to starting, issued the barrier, read the cell empty again, set
    the CPU's bit in the attempted mask where it was clear, and only then
    stored the entry into the cell that belongs to this CPU alone, cleaned
    the cell's line, issued the barrier and rang. *)
Theorem release_secondary_ordered n cpus contract record entry line tr r :
  steps (release_secondary n cpus contract record entry line) tr (Ret r) ->
  release_post cpus contract record entry line tr r.
Proof. intros Hs. exact (traces_steps _ _ [] tr r (release_secondary_traces n cpus contract record entry line) Hs). Qed.

(** ** At most one store per cell *)

(** Every CPU has a mailbox of its own; the mask, the cells and the maintenance
    are common to all releases. *)
Inductive fleet_loc := SlotMail (slot : nat) (l : mailbox_loc) | Common (l : release_loc).

#[global] Instance fleet_loc_eq_dec : EqDecision fleet_loc.
Proof. solve_decision. Defined.

Definition at_slot (slot : nat) (l : release_loc) : fleet_loc :=
  match l with RMail m => SlotMail slot m | l => Common l end.

(** A CPU that makes releases and mailbox calls, for any slots, or overwrites a
    word of a mailbox with anything. *)
Inductive rop :=
| RRelease (slot n : nat) (contract : EntryContract) (record : StartupView) (entry line : Z)
| RMailbox (slot : nat) (o : mop)
| ROverwrite (slot : nat) (l : mailbox_loc) (v : Z).

Definition run_rop (cpus : list CpuDescriptor) (o : rop) : prog fleet_loc unit :=
  match o with
  | RRelease slot n contract record entry line =>
      _ <- relocate (at_slot slot) (release_secondary n cpus contract record entry line) ;; Ret tt
  | RMailbox slot o => _ <- relocate (SlotMail slot) (run_mop o) ;; Ret tt
  | ROverwrite slot l v => store (SlotMail slot l) v
  end.

Definition run_rops (cpus : list CpuDescriptor) : list rop -> prog fleet_loc (list unit) := run_all (run_rop cpus).

Definition writes_cell (cell : Z) (e : event fleet_loc) : bool :=
  match e with EStore (Common (Cell c)) _ => c =? cell | _ => false end.

Definition takes_bit (id : nat) (e : event fleet_loc) : bool :=
  match e with
  | ECasOk (Common Attempted) o n => Z.testbit n (Z.of_nat id) && negb (Z.testbit o (Z.of_nat id))
  | _ => false
  end.

(** The same for the accesses of one release. *)
Definition stores_cell (cell : Z) (e : revent) : bool :=
  match e with EStore (Cell c) _ => c =? cell | _ => false end.

(** The access that sets the bit of [id] in the attempted mask. *)
Definition claims_bit (id : nat) (e : revent) : bool :=
  match e with
  | ECasOk Attempted o n => Z.testbit n (Z.of_nat id) && negb (Z.testbit o (Z.of_nat id))
  | _ => false
  end.

Lemma owner_unique cpus t1 t2 cell c1 c2 : owns_cell cpus t1 cell c1 -> owns_cell cpus t2 cell c2 -> t1 = t2.
Proof.
  intros (i & Hi & Hl1 & _ & Hs1 & _ & _ & Ho1) (j & Hj & Hl2 & _ & Hs2 & _ & _ & _).
  destruct (decide (j = i)) as [->|Hne]; [congruence|]. by destruct (Ho1 j c2 Hne Hj).
Qed.

Lemma claim_attempt_covered {A} cell id n prev (f : outcome PublicationError Z -> prog release_loc A) :
  (forall m, covered (stores_cell cell) (claims_bit id) (f (Ok m)) 1) ->
  (forall r, r = Panic \/ r = Err Preconditions -> covered (stores_cell cell) (claims_bit id) (f r) 0) ->
  covered (stores_cell cell) (claims_bit id) (pbind (claim_attempt n (Z.shiftl 1 (Z.of_nat id)) prev) f) 0.
Proof.
  intros Hok Hbad. revert prev. induction n as [|n IH]; intros prev; cbn [claim_attempt];
    rewrite land_single_bit by lia; destruct (Z.testbit prev (Z.of_nat id)) eqn:Eb; cbn; auto.
  split; [|intros v; apply IH]. unfold earns. cbn. rewrite Eb.
  rewrite Z.lor_spec, Eb, Z.shiftl_1_l, Z.pow2_bits_true by lia. cbn. apply Hok.
Qed.

Lemma release_cell_covered n record id c entry line cell :
  covered (stores_cell cell) (claims_bit id) (release_cell n record id c entry line) 0.
Proof.
  unfold release_cell, read_release_cell, begin_start, transition, check, observe_ready. cbn. unfold earns. cbn.
  intros v. destruct (v =? 0); cbn; [|done]. destruct (view_generation record =? 0); [done|]. cbn. unfold earns. cbn.
  intros rdy. destruct (rdy =? _); cbn; [|done]. split; [|done]. unfold earns. cbn.
  intros w. destruct (w =? 0); cbn; [|done]. unfold earns. cbn. intros m1. apply claim_attempt_covered.
  - intros m. cbn. unfold earns. cbn. intros t. destruct (_ =? _); cbn; done.
  - by intros r [->| ->].
Qed.

(** A release whose cell is another one never stores here. *)
Lemma release_cell_elsewhere n record id c entry line cell :
  c <> cell -> emits (fun e => stores_cell cell e = false) (release_cell n record id c entry line).
Proof.
  intros Hc. assert (Ha : forall n bit prev, emits (fun e => stores_cell cell e = false) (claim_attempt n bit prev)).
  { clear. induction n as [|n IH]; intros bit prev; cbn [claim_attempt]; destruct (negb _); cbn; auto. }
  unfold release_cell, read_release_cell, write_release_cell_le64, clean_cache_line, publication_barrier, send_event,
    begin_start, transition, check, observe_ready.
  emits_go; try done; try apply Ha. cbn. by apply Z.eqb_neq.
Qed.

Lemma release_secondary_covered n cpus contract record entry line cell owner :
  (forall t cpu, owns_cell cpus t cell cpu -> t = owner) ->
  covered (stores_cell cell) (claims_bit owner) (release_secondary n cpus contract record entry line) 0.
Proof.
  intros Hown. unfold release_secondary, pbind_res at 1. cbn [pbind].
  set (id := Z.to_nat (id_logical_id (view_identity record))).
  destruct (validate_spin_table_release cpus id contract) as [c| |] eqn:Ev; cbn [Prelude.map_err]; [|done..].
  destruct (validate_spin_table_release_sound _ _ _ _ Ev) as (_ & _ & i & cpu & Hfind & Ho).
  rewrite Hfind. unfold pbind_res at 1. cbn [pbind ok_or]. unfold pbind_res at 1. cbn [pbind].
  destruct (checked_add c 8); cbn [ok_or]; [|done].
  unfold pbind_res at 1. cbn [pbind]. destruct (cache_range c _ line); [|done..]. destruct (_ || _); [done|].
  assert (Hcell : covered (stores_cell cell) (claims_bit owner) (release_cell n record id c entry line) 0).
  { destruct (decide (c = cell)) as [->|Hne].
    - rewrite <- (Hown id cpu Ho). apply release_cell_covered.
    - by apply covered_emits, release_cell_elsewhere. }
  unfold state, check, observe_ready, lifecycle. destruct (view_generation record =? 0); [done|].
  cbn. unfold earns. cbn. intros rdy. destruct (rdy =? _); cbn; [|done]. unfold earns. cbn. intros sv.
  destruct (cpu_state_of sv) as [[]| |]; cbn; try done. unfold earns. cbn. intros m0. by destruct (_ =? 0).
Qed.

Lemma emits_always {L A} `{EqDecision L} (P : event L -> Prop) (p : prog L A) : (forall e, P e) -> emits P p.
Proof. intros H. induction p; cbn; auto. Qed.

Lemma rop_covered cpus cell owner o :
  (forall t cpu, owns_cell cpus t cell cpu -> t = owner) ->
  covered (writes_cell cell) (takes_bit owner) (run_rop cpus o) 0.
Proof.
  intros Hown. destruct o as [slot n contract record entry line|slot o|slot l v]; cbn [run_rop]; [apply covered_bind; [|done]..|done].
  - eapply (covered_relocate _ _ _ (stores_cell cell) (claims_bit owner)); [..|by apply release_secondary_covered];
      by intros [[]|[]|[]|[]|[]|].
  - apply covered_emits, emits_relocate, emits_always. by intros [].
Qed.

(** The attempted mask only ever gains bits. *)
Definition mask_grows (e : event fleet_loc) : Prop :=
  match e with
  | EStore (Common Attempted) _ | ESwap (Common Attempted) _ _ => False
  | ECasOk (Common Attempted) o n => forall k, 0 <= k -> Z.testbit o k = true -> Z.testbit n k = true
  | _ => True
  end.

Lemma claim_attempt_grows slot n bit prev : emits (fun e => mask_grows (relocated (at_slot slot) e)) (claim_attempt n bit prev).
Proof.
  revert prev. induction n as [|n IH]; intros prev; cbn [claim_attempt]; destruct (negb _); cbn; auto.
  split; [|auto]. split; [|done]. intros k _ Hk. by rewrite Z.lor_spec, Hk.
Qed.
#[local] Hint Resolve claim_attempt_grows : emits.

Lemma rop_grows cpus o : emits mask_grows (run_rop cpus o).
Proof.
  destruct o as [slot n contract record entry line|slot o|slot l v]; cbn [run_rop]; [apply emits_bind; [|done]..|done]; apply emits_relocate.
  - unfold release_secondary, release_cell, read_release_cell, write_release_cell_le64, clean_cache_line,
      publication_barrier, send_event, begin_start, transition, state, check, observe_ready, lifecycle.
    emits_go; done.
  - apply emits_always. by intros [].
Qed.

Definition attempts_left (id : nat) (s : memory fleet_loc) : nat :=
  if Z.testbit (s (Common Attempted)) (Z.of_nat id) then 0 else 1.

Lemma attempts_left_step id s e s' :
  mask_grows e -> apply_event s e = Some s' ->
  ((if takes_bit id e then 1 else 0) + attempts_left id s' <= attempts_left id s)%nat.
Proof.
  unfold attempts_left. intros He E.
  assert (Hother : forall l v, l <> Common Attempted -> upd s l v (Common Attempted) = s (Common Attempted)) by (intros; by apply upd_ne).
  destruct e as [l v|l v|l o n|l o n|l o v|v]; cbn in E, He.
  - destruct (_ =? _) in E; [|done]. by injection E as <-.
  - injection E as <-. destruct l as [|[]]; cbn in He; try done; by rewrite Hother.
  - destruct (_ =? _) in E; [|done]. injection E as <-. destruct l as [|[]]; cbn in He; try done; by rewrite Hother.
  - destruct (Z.eqb_spec (s l) o) as [Ho|]; [|done]. injection E as <-.
    destruct l as [|[]]; cbn in He; try (by rewrite Hother). rewrite upd_eq. cbn.
    specialize (He (Z.of_nat id) ltac:(lia)). subst o.
    destruct (Z.testbit n (Z.of_nat id)), (Z.testbit (s (Common Attempted)) (Z.of_nat id)); cbn; lia || (exfalso; by auto).
  - destruct (_ && _) in E; [|done]. by injection E as <-.
  - by injection E as <-.
Qed.

(** The only CPU a cell can belong to. *)
Definition cell_owner (cpus : list CpuDescriptor) (cell : Z) : nat :=
  default 0%nat (find (fun cpu => bool_decide (cpu_startup cpu = SpinTable cell)) cpus ≫= cpu_logical_id).

Lemma cell_owner_spec cpus cell t cpu : owns_cell cpus t cell cpu -> t = cell_owner cpus cell.
Proof.
  intros (i & Hi & Hl & _ & Hs & _ & _ & Ho). unfold cell_owner.
  destruct (find _ cpus) as [c|] eqn:Ef.
  - apply find_some in Ef as [Hin Hc']. apply bool_decide_eq_true in Hc'. apply list_elem_of_In, list_elem_of_lookup in Hin as [j Hj].
    destruct (decide (j = i)) as [->|Hne]; [|by destruct (Ho j c Hne Hj)].
    rewrite Hi in Hj. injection Hj as ->. cbn. by rewrite Hl.
  - apply list_elem_of_lookup_2, list_elem_of_In in Hi.
    pose proof (find_none _ _ Ef _ Hi) as Hn. cbn in Hn. by rewrite bool_decide_eq_false, Hs in Hn.
Qed.

(** C21 [cell_written_once]: however many CPUs release, for whichever targets and
    however often, interleaved in any way with all traffic on the targets'
    mailboxes, and even if words of these mailboxes are overwritten at will,
    each firmware cell is stored to at most once; and if it was, the bit of
    the CPU it belongs to was clear in the attempted mask before and is set
    afterwards, so that nobody stores there again. *)
Theorem cell_written_once cpus (threads : list (list rop)) s g qs s' cell :
  concurrent (run_rops cpus <$> threads) s g qs s' ->
  let stores := count_events (writes_cell cell) (snd <$> g) in
  (stores <= 1)%nat /\
  forall t cpu, owns_cell cpus t cell cpu -> (0 < stores)%nat ->
    Z.testbit (s (Common Attempted)) (Z.of_nat t) = false /\ Z.testbit (s' (Common Attempted)) (Z.of_nat t) = true.
Proof.
  intros Hc stores. set (owner := cell_owner cpus cell).
  assert (Hgrow : Forall mask_grows (snd <$> g)).
  { eapply concurrent_emits; [|exact Hc]. apply Forall_fmap, Forall_true. intros os. apply emits_run_all, rop_grows. }
  destruct Hc as [Hrep Hth Hst Hlen]. rewrite length_fmap in Hlen, Hth.
  pose proof (replay_budget mask_grows (takes_bit owner) (attempts_left owner) _ _ _ (attempts_left_step owner) Hgrow Hrep) as Hb.
  assert (Hle : (stores <= count_events (takes_bit owner) (snd <$> g))%nat).
  { unfold stores. rewrite !(count_threads _ _ _ Hth). apply sum_threads_le. intros i Hi.
    destruct (lookup_lt_is_Some_2 threads i Hi) as [os Ho]. destruct (lookup_lt_is_Some_2 qs i ltac:(lia)) as [q Hq].
    apply (covered_steps _ _ (run_rops cpus os) 0 _ q); [|apply Hst; [by rewrite list_lookup_fmap, Ho|done]].
    apply covered_run_all. intros o. apply rop_covered, cell_owner_spec. }
  unfold attempts_left in Hb.
  split; [|intros t cpu ->%cell_owner_spec Hpos; fold owner]; 
    destruct (Z.testbit (s _) _), (Z.testbit (s' _) _); first [lia|split; done || lia].
Qed.

(** ** Cleaning covers every byte *)

(** The line that holds address [x]. *)
Definition line_of (line x : Z) : Z := x - x mod line.

Definition line_ok (line : Z) : Prop := exists k, 3 <= k <= 12 /\ line = 2 ^ k.

Lemma cache_range_Ok start e line a b :
  u64 start -> u64 e -> cache_range start e line = Ok (a, b) ->
  line_ok line /\ start < e /\ a = line_of line start /\ exists n, b = a + Z.of_nat n * line /\
    e <= b < e + line /\ b < 2 ^ 64.
Proof.
  intros Hs He. unfold cache_range. destruct (_ || _) eqn:El; [done|]. destruct (Z.leb_spec e start); [done|].
  destruct (checked_add _ _) as [x|] eqn:Ea; cbn [ok_or obind]; [|done]. apply checked_add_Some in Ea as [-> Hx].
  rewrite !orb_false_iff, negb_false_iff, !Z.ltb_ge in El. destruct El as [[Hp H8] H4096].
  apply is_power_of_two_spec in Hp as (k & Hk & Hline).
  assert (Hk2 : 3 <= k <= 12).
  { change PAGE_SIZE with (2 ^ 12) in H4096. change 8 with (2 ^ 3) in H8. rewrite Hline in H8, H4096.
    split; [apply (Z.pow_le_mono_r_iff 2); lia|apply (Z.pow_le_mono_r_iff 2); lia]. }
  assert (Hpos : 0 < line) by (rewrite Hline; apply Z.pow_pos_nonneg; lia).
  assert (Hland : forall v, u64 v -> Z.land v (not64 (line - 1)) = v - v mod line)
    by (intros v Hv; rewrite Hline; by apply land_not64_pow2).
  rewrite !Hland by (unfold u64 in *; lia). intros [= <- <-].
  split; [by exists k|]. split; [done|]. split; [done|]. unfold line_of. unfold u64 in *.
  exists (Z.to_nat ((e + (line - 1)) / line - start / line)).
  pose proof (Z.div_mod (e + (line - 1)) line ltac:(lia)). pose proof (Z.div_mod start line ltac:(lia)).
  pose proof (Z.mod_pos_bound (e + (line - 1)) line Hpos). pose proof (Z.mod_pos_bound start line Hpos).
  assert (start / line <= (e + (line - 1)) / line) by (apply Z.div_le_mono; lia).
  rewrite Z2Nat.id by lia. replace (e + (line - 1) - (e + (line - 1)) mod line) with (line * ((e + (line - 1)) / line)) by lia.
  replace (start - start mod line) with (line * (start / line)) by lia. split; [ring|]. lia.
Qed.

(** The cleans of [n] lines from [a]. *)
Definition cleans (a line : Z) (n : nat) : list revent :=
  (fun k => EStore (CleanLine (a + Z.of_nat k * line)) 0) <$> seq 0 n.

Lemma cleans_S a line n : cleans a line (S n) = EStore (CleanLine a) 0 :: cleans (a + line) line n.
Proof.
  unfold cleans. cbn [seq fmap list_fmap]. f_equal; [do 2 f_equal; lia|]. rewrite <- fmap_S_seq, <- list_fmap_compose.
  apply list_fmap_ext. intros i x _. cbn. do 2 f_equal. lia.
Qed.

Lemma clean_loop_traces fuel a line n acc (Q : list revent -> outcome PublicationError unit -> Prop) :
  0 <= a -> 0 < line -> (n < fuel)%nat -> a + Z.of_nat n * line < 2 ^ 64 -> Q (acc ++ cleans a line n) (Ok tt) ->
  traces (clean_loop fuel a (a + Z.of_nat n * line) line) Q acc.
Proof.
  intros Ha Hl. revert a n acc Ha. induction fuel as [|fuel IH]; intros a n acc Ha Hf H64 HQ; [lia|]. cbn [clean_loop].
  destruct n as [|n].
  { rewrite Z.mul_0_l, Z.add_0_r, Z.ltb_irrefl. cbn. unfold cleans in HQ. cbn in HQ. by rewrite app_nil_r in HQ. }
  rewrite (proj2 (Z.ltb_lt _ _)) by nia. unfold add64. rewrite checked_add_ok by nia. cbn.
  replace (a + Z.of_nat (S n) * line) with ((a + line) + Z.of_nat n * line) by lia.
  apply IH; [lia|lia|nia|]. rewrite cleans_S in HQ. by rewrite <- app_assoc.
Qed.

(** The events clean exactly the lines that meet [start, e). *)
Definition cleans_range (start e line : Z) (tr : list revent) : Prop :=
  (forall x, start <= x < e -> EStore (CleanLine (line_of line x)) 0 ∈ tr) /\
  (forall ev, ev ∈ tr -> exists x, start <= x < e /\ ev = EStore (CleanLine (line_of line x)) 0).

Lemma cleans_cover start e line n :
  0 < line -> start < e -> e <= line_of line start + Z.of_nat n * line < e + line ->
  cleans_range start e line (cleans (line_of line start) line n).
Proof.
  intros Hl Hse Hb. unfold line_of in *.
  assert (Hline : forall x k, x - x mod line = start - start mod line + k * line <-> x / line = start / line + k).
  { intros x k. pose proof (Z.div_mod x line ltac:(lia)). pose proof (Z.div_mod start line ltac:(lia)). nia. }
  pose proof (Z.mod_pos_bound start line Hl). pose proof (Z.div_mod start line ltac:(lia)). split.
  - intros x Hx. unfold cleans. apply list_elem_of_fmap. exists (Z.to_nat (x / line - start / line)).
    assert (start / line <= x / line) by (apply Z.div_le_mono; lia).
    pose proof (Z.mod_pos_bound x line Hl). pose proof (Z.div_mod x line ltac:(lia)).
    split; [do 2 f_equal; rewrite Z2Nat.id by lia; apply Hline; lia|]. apply elem_of_seq. nia.
  - intros ev (k & -> & Hk)%list_elem_of_fmap. apply elem_of_seq in Hk.
    exists (Z.max start (start - start mod line + Z.of_nat k * line)). split; [nia|].
    do 2 f_equal. symmetry. apply Hline. destruct k as [|k].
    + rewrite Z.max_l by lia. lia.
    + rewrite Z.max_r by nia. replace (start - start mod line) with (start / line * line) by lia.
      rewrite <- Z.mul_add_distr_r, Z.div_mul by lia. done.
Qed.

Lemma clean_range_traces start e line acc (Q : list revent -> outcome PublicationError unit -> Prop) :
  u64 start -> u64 e -> (exists ab, cache_range start e line = Ok ab) ->
  (forall tr, cleans_range start e line tr -> Q (acc ++ tr) (Ok tt)) ->
  traces (clean_range start e line) Q acc.
Proof.
  intros Hs He [[a b] Hr] HQ. unfold clean_range. rewrite Hr. unfold pbind_res. cbn [pbind].
  destruct (cache_range_Ok _ _ _ _ _ Hs He Hr) as ((k & Hk & Hline) & Hlt & -> & n & -> & Hb & H64).
  assert (Hl : 0 < line) by (rewrite Hline; apply Z.pow_pos_nonneg; lia).
  pose proof (Z.mod_le start line ltac:(apply Hs) Hl). pose proof (Z.mod_pos_bound start line Hl).
  apply clean_loop_traces; [unfold line_of; lia|done| |done|by apply HQ, cleans_cover].
  rewrite Z.add_simpl_l, Z.div_mul, Nat2Z.id by lia. lia.
Qed.

Lemma check_ranges_spec regions line :
  check_ranges regions line = Ok tt <->
  Forall (fun region => exists ab, cache_range (rstart region) (rend region) line = Ok ab) regions.
Proof.
  induction regions as [|r rs IH]; cbn [check_ranges]; [done|]. rewrite Forall_cons, <- IH.
  destruct (cache_range _ _ _) as [ab| |]; cbn [obind]; naive_solver.
Qed.

(** Every byte of some region, and nothing else, is cleaned. *)
Definition cleans_regions (regions : list PhysRegion) (line : Z) (tr : list revent) : Prop :=
  (forall region x, region ∈ regions -> rstart region <= x < rend region ->
     EStore (CleanLine (line_of line x)) 0 ∈ tr) /\
  (forall ev, ev ∈ tr -> exists region x, region ∈ regions /\ rstart region <= x < rend region /\
     ev = EStore (CleanLine (line_of line x)) 0).

Lemma clean_regions_traces regions line acc (Q : list revent -> outcome PublicationError unit -> Prop) :
  Forall region_ok regions ->
  Forall (fun region => exists ab, cache_range (rstart region) (rend region) line = Ok ab) regions ->
  (forall tr, cleans_regions regions line tr -> Q (acc ++ tr) (Ok tt)) -> traces (clean_regions regions line) Q acc.
Proof.
  intros Hok. revert acc. induction Hok as [|r rs (H0 & H1 & H2) Hok IH]; intros acc Hr HQ; cbn [clean_regions].
  { specialize (HQ []). rewrite app_nil_r in HQ. apply HQ. split; [by intros ?? ?%elem_of_nil|by intros ? ?%elem_of_nil]. }
  apply Forall_cons in Hr as [Hr Hrs]. unfold rend in *. unfold pbind_res. apply traces_bind.
  apply clean_range_traces; [unfold u64; lia|unfold u64; lia|done|]. intros t1 [Ha Hb]. apply IH; [done|].
  intros t2 [Hc Hd]. rewrite <- app_assoc. apply HQ. split.
  - intros region x [->|Hin]%elem_of_cons Hx; apply elem_of_app; [left; by apply Ha|right; by apply (Hc region)].
  - intros ev [Hev|Hev]%elem_of_app.
    + destruct (Hb ev Hev) as (x & Hx & ->). exists r, x. split; [by left|done].
    + destruct (Hd ev Hev) as (region & x & Hin & Hx & ->). exists region, x. split; [by right|done].
Qed.

Lemma check_ranges_no_panic regions line : check_ranges regions line <> Panic.
Proof.
  induction regions as [|r rs IH]; cbn [check_ranges]; [done|].
  assert (Hc : cache_range (rstart r) (rend r) line <> Panic).
  { unfold cache_range. destruct (_ || _); [done|]. destruct (_ <=? _); [done|]. by destruct (checked_add _ _). }
  by destruct (cache_range _ _ _).
Qed.

(** The outcome of publishing the shared state. *)
Definition publication_post (r : StartupResources) (line : Z) (tr : list revent) (res : outcome PublicationError unit) : Prop :=
  match res with
  | Ok _ =>
      cleans_regions (shared_regions r) line tr /\
      forall x, rstart (slots r) <= x < rend (slots r) \/ rstart (config r) <= x < rend (config r) ->
        EStore (CleanLine (line_of line x)) 0 ∈ tr
  | Err _ => tr = []
  | Panic => False
  end.

Lemma publish_shared_traces r line :
  Forall region_ok (shared_regions r) -> traces (publish_shared_startup r line) (publication_post r line) [].
Proof.
  intros Hok. unfold publish_shared_startup. destruct (_ || _) eqn:Ec; [done|].
  rewrite orb_false_iff, !negb_false_iff in Ec. destruct Ec as [Hslots Hconfig].
  unfold pbind_res. cbn [pbind]. pose proof (check_ranges_no_panic (shared_regions r) line) as Hnp.
  destruct (check_ranges (shared_regions r) line) as [[]|e|] eqn:Er; [|done|by destruct Hnp].
  apply clean_regions_traces; [done|by apply check_ranges_spec|]. intros t Ht. cbn [app]. split; [done|].
  unfold contains_region in Hslots, Hconfig. bool_prop.
  intros x Hx. apply (proj1 Ht (writable r)); [by do 3 right; left|]. destruct Hx; lia.
Qed.

Lemma publish_cpu_traces stack line :
  u64 (bottom stack) -> u64 (top stack) ->
  traces (publish_cpu_startup stack line) (fun tr res =>
    match res with Ok _ => cleans_range (bottom stack) (top stack) line tr | _ => tr = [] end) [].
Proof.
  intros Hb Ht. unfold publish_cpu_startup. destruct (negb _); [done|].
  destruct (cache_range (bottom stack) (top stack) line) as [ab| |] eqn:Ec; [|unfold clean_range; by rewrite Ec..].
  apply clean_range_traces; [done|done|by exists ab|done].
Qed.

(** [publication_covers]: publication of the shared startup state either cleans
    nothing and reports an error, or cleans every cache line that holds a byte
    of the image, the tables, the slots or the shared configuration, and no
    line outside the image and the tables. *)
Lemma publication_covers r line tr res :
  Forall region_ok (shared_regions r) ->
  steps (publish_shared_startup r line) tr (Ret res) -> publication_post r line tr res.
Proof.
  intros Hok Hs. exact (traces_steps (publish_shared_startup r line) (publication_post r line) [] tr res
    (publish_shared_traces r line Hok) Hs).
Qed.

(** ** Readback *)

(** [verify_release_value_exact]: a release cell passes the readback exactly
    when only required CPUs have been attempted and it holds the entry if one
    of them owns it, and zero otherwise. *)
Lemma verify_release_value_exact cpus attempted cell entry value required :
  secondary_mask cpus = Ok required -> u64 attempted -> u64 required ->
  verify_release_value cpus attempted cell entry value = Ok tt <->
  (forall k, 0 <= k -> Z.testbit attempted k = true -> Z.testbit required k = true) /\
  ((exists cpu id, cpu ∈ cpus /\ cpu_logical_id cpu = Some id /\ Z.testbit attempted (Z.of_nat id) = true /\
      cpu_startup cpu = SpinTable cell) /\ value = entry \/
   ~ (exists cpu id, cpu ∈ cpus /\ cpu_logical_id cpu = Some id /\ Z.testbit attempted (Z.of_nat id) = true /\
      cpu_startup cpu = SpinTable cell) /\ value = 0).
Proof.
  intros Hreq Ha Hr. unfold verify_release_value. rewrite Hreq. cbn [Prelude.map_err obind].
  assert (Hsub : (Z.land attempted (not64 required) =? 0) = true <->
    (forall k, 0 <= k -> Z.testbit attempted k = true -> Z.testbit required k = true)).
  { rewrite Z.eqb_eq. unfold not64. split.
    - intros Hz k Hk Hb. apply (f_equal (fun v => Z.testbit v k)) in Hz. revert Hz.
      rewrite !Z.land_spec, Z.lnot_spec, Z.testbit_ones_nonneg, Z.bits_0, Hb by lia.
      destruct (Z.ltb_spec k 64) as [|Hge]; [by destruct (Z.testbit required k)|].
      rewrite (testbit_bounded attempted 64) in Hb by (done || lia). done.
    - intros Hs. apply Z.bits_inj'. intros k Hk. rewrite !Z.land_spec, Z.lnot_spec, Z.bits_0 by done.
      destruct (Z.testbit attempted k) eqn:Hb; [|done]. by rewrite (Hs k Hk Hb). }
  set (owned := existsb _ cpus).
  assert (Hown : owned = true <-> exists cpu id, cpu ∈ cpus /\ cpu_logical_id cpu = Some id /\
    Z.testbit attempted (Z.of_nat id) = true /\ cpu_startup cpu = SpinTable cell).
  { unfold owned. rewrite existsb_exists. setoid_rewrite <- list_elem_of_In. split.
    - intros (cpu & Hin & Hb). apply andb_true_iff in Hb as [Hb Hs]. apply bool_decide_eq_true in Hs.
      destruct (cpu_logical_id cpu) as [id|] eqn:Hl; [|done]. rewrite land_single_bit in Hb by lia. by exists cpu, id.
    - intros (cpu & id & Hin & Hl & Hb & Hs). exists cpu. split; [done|].
      by rewrite Hl, land_single_bit, Hb, bool_decide_eq_true_2 by (done || lia). }
  destruct (_ =? 0) eqn:E in |- *; cbn [negb].
  - pose proof (proj1 Hsub E) as Hs. clear E Hsub. destruct owned eqn:Eo.
    + assert (Hex := proj1 Hown eq_refl). destruct (Z.eqb_spec value entry); naive_solver.
    + assert (Hno := fun H => Bool.diff_false_true (proj2 Hown H)). destruct (Z.eqb_spec value 0); naive_solver.
  - split; [done|]. intros [Hs _]. pose proof (proj2 Hsub Hs). congruence.
Qed.

(** ** Concrete executions *)

(** CPU 2 of [four_cpus], published under generation 7. *)
Definition record_2 : StartupView :=
  mkView (mkIdentity 2 2 0x501000 0x511000 0x600300) (config_of sample_policy) 7 0x600300.

Definition prepared_store : memory release_loc := fun l =>
  match l with RMail Ready => 7 | RMail StateCell => 1 | Attempted => 2 | _ => 0 end.

Definition release_2 : rprog Z := release_secondary 1 four_cpus (mkContract true true) record_2 0x80000 64.

Lemma release_secondary_ordered_witness :
  let tr := [ELoad (RMail Ready) 7; ELoad (RMail StateCell) 1; ELoad Attempted 2; ELoad (Cell 0xe8) 0;
    ELoad (RMail Ready) 7; ECasOk (RMail StateCell) 1 2; EStore Barrier 0; ELoad (Cell 0xe8) 0; ELoad Attempted 2;
    ECasOk Attempted 2 6; EInput 1000; EStore (Cell 0xe8) 0x80000; EStore (CleanLine 0xc0) 0; EStore Barrier 0;
    EStore Doorbell 0] in
  steps release_2 tr (Ret (Ok 1000)) /\ replay prepared_store tr <> None /\
  exists cell, Cell cell = Cell 0xe8 /\ release_sequence 7 2 cell 0x80000 64 1000 tr.
Proof.
  intros tr. assert (Hs : steps release_2 tr (Ret (Ok 1000))).
  { unfold release_2, tr. cbn. repeat (constructor; cbn). }
  split; [exact Hs|]. split; [by vm_compute|].
  destruct (release_secondary_ordered 1 four_cpus (mkContract true true) record_2 0x80000 64 tr (Ok 1000) Hs)
    as (cell & cpu & _ & _ & _ & _ & _ & _ & H).
  exists cell. split; [|exact H]. destruct H as (m0 & m1 & m & fails & _ & _ & Htr).
  apply (f_equal (fun t => t !! 3%nat)) in Htr. cbn in Htr. by injection Htr as <-.
Defined.

Definition record_1 : StartupView :=
  mkView (mkIdentity 1 1 0x500000 0x510000 0x600180) (config_of sample_policy) 7 0x600180.

Definition fleet_store : memory fleet_loc := fun l =>
  match l with SlotMail _ Ready => 7 | SlotMail _ StateCell => 1 | _ => 0 end.

(** Two CPUs race to release CPU 2 and one of them goes on to release CPU 1.
    The mailbox of CPU 2 is put back to the prepared state in between, so that
    both get past it; the mask stops the second. *)
Lemma cell_written_once_witness :
  let release slot record := RRelease slot 1 (mkContract true true) record 0x80000 64 in
  let threads := [[release 2%nat record_2; release 1%nat record_1]; [ROverwrite 2 StateCell 1; release 2%nat record_2]] in
  exists g qs s', concurrent (run_rops four_cpus <$> threads) fleet_store g qs s' /\
    s' (Common (Cell 0xe8)) = 0x80000 /\ s' (Common (Cell 0xe0)) = 0x80000 /\
    (count_events (writes_cell 0xe8) (snd <$> g) <= 1)%nat.
Proof.
  intros release threads.
  destruct (run_schedule (run_rops four_cpus <$> threads) fleet_store
    (replicate 7 (0%nat, 0) ++ replicate 10 (1%nat, 0) ++ replicate 23 (0%nat, 9) ++ [(1%nat, 0)]))
    as [[[g qs] s']|] eqn:E; [|by vm_compute in E].
  pose proof (run_schedule_sound _ _ _ _ _ _ E) as Hc. exists g, qs, s'. split; [exact Hc|]. split_and!.
  - vm_compute in E. injection E as <- <- <-. reflexivity.
  - vm_compute in E. injection E as <- <- <-. reflexivity.
  - exact (proj1 (cell_written_once four_cpus threads fleet_store g qs s' 0xe8 Hc)).
Defined.

(** Cleaning [sample_resources] by lines of 1 KiB. *)
