(* ===== verification/StartAll.v ===== *)
(** * The collective start: src/src/secondary.rs, src/src/smp.rs

    One procedure on the boot CPU takes the machine from prepared slots to
    parked secondary CPUs: it checks the platform, publishes the translation
    policy, maps every release cell and describes what each CPU will use,
    validates and freezes the host's tables, cleans all of it to memory,
    releases the CPUs one after another, waits for each to park, reads every
    firmware cell back, verifies all checkpoints and records the outcome.  This
    file composes the programs of [Publication], [SecondaryBoot], [Pcpu],
    [El2Policy], [HostSpace] and [CpuStartup] the way [start_all] does and
    shows in which order their accesses happen. *)

From S2P Require Import Prelude Page SystemInfo MemoryMap El2Stage1 Atomics SecondaryMailbox El2Policy Pcpu SecondaryBoot.
From S2P Require Import HostMap StartupResources HostSpace SecondaryEntry Publication DeviceTree Topology CpuStartup.

(** The boot status with the slots, the shared configuration, and what a
    release touches besides the target's mailbox. *)
Inductive start_loc := BLoc (l : boot_loc) | CLoc (l : config_loc) | RLoc (l : release_loc).

#[global] Instance start_loc_eq_dec : EqDecision start_loc.
Proof. solve_decision. Defined.

(** A release works on the mailbox of the slot it was given. *)
Definition of_release (id : nat) (l : release_loc) : start_loc :=
  match l with RMail m => BLoc (Slot id (Mail m)) | l => RLoc l end.

Notation sprog A := (prog start_loc (outcome BootError A)).

(** The host's tables are the boot CPU's own and passed along. *)
Definition bprog (A : Type) : Type := carrying start_loc HostSpace BootError A.

Definition editing {E A} (op : stateful HostSpace E A) : bprog A := fun h =>
  let '(r, h') := op h in Ret (Prelude.map_err (fun _ => Preparation) r, h').

Definition GENERATION : Z := 1.

(** [p.map_err(..)?] for a program of another component. *)
Definition failing {E A} (f : E -> BootError) (p : prog start_loc (outcome E A)) : sprog A :=
  r <- p ;; Ret (Prelude.map_err f r).

Definition or_prepare {E A} (r : outcome E A) : sprog A := Ret (Prelude.map_err (fun _ => Preparation) r).

Definition on_boot {A} (p : prog boot_loc (outcome BootError A)) : sprog A := relocate BLoc p.

Definition on_slot {E A} (id : nat) (p : prog slot_loc (outcome E A)) : prog start_loc (outcome E A) :=
  relocate (fun l => BLoc (Slot id l)) p.

(** The value of PAR_EL1 after [at s1e2r] on [address]: an identity mapping. *)
Definition PA_PAGE_MASK : Z := 0x000ffffffffff000.

Definition par_identity (par address : Z) : bool :=
  (Z.land par 1 =? 0) && (Z.land par PA_PAGE_MASK =? Z.land address PA_PAGE_MASK).

(** The system registers the procedure reads. *)
Record BootRegisters := mkBootRegisters {
  br_midr : Z; br_mpidr : Z; br_tpidr : Z; br_sp : Z;
  br_mair : Z; br_tcr : Z; br_root : Z; br_sctlr : Z; br_cntfrq : Z; br_ctr : Z
}.

Section Start.
(** The image, the addresses of the slots and of the shared configuration, and
    the entry point. *)
Context (image : Image) (slot_address : nat -> Z) (config_address entry : Z).
(** [smp::topology()], [smp::startup_contract()] and [boot::memory_map()]. *)
Context (topology : option CpuTopology) (startup_contract : option StartupMemoryContract) (memory_map : option MemoryMap).
(** The registers; the bounds of the retries of a release, of the polls of a
    wait and of the reads of the counter. *)
Context (regs : BootRegisters) (retries polls reads : nat).

Definition startup (id : nat) : sprog (option StartupView) :=
  if (MAX_CPUS <=? id)%nat then Ret (Ok None)
  else
    config <- relocate CLoc config_get ;;
    match config with
    | None => Ret (Ok None)
    | Some c =>
        view <- on_slot id (startup_view (slot_address id) GENERATION c) ;;
        Ret (match view with Ok v => Ok v | _ => Panic end)
    end.

Definition required_mask : outcome BootError Z :=
  match topology with
  | None => Ok 0
  | Some t => match secondary_mask (cpus t) with Ok m => Ok m | Err _ => Ok 0 | Panic => Panic end
  end.

Definition boot_cpu_idle : sprog unit :=
  failing (fun _ => Preparation)
    (on_slot 0 (assert_boot_cpu_idle (slot_address 0) (br_tpidr regs) (br_mpidr regs) (br_sp regs))).

(** ** The platform *)

(** [for _ in 0..n { if counter_progresses(start, physical_counter()) .. }] *)
Fixpoint progresses (n : nat) (start : Z) : sprog bool :=
  match n with
  | O => Ret (Ok false)
  | S n' => now <- input ;; if counter_progresses start now then Ret (Ok true) else progresses n' start
  end.

Definition validate_platform (fdt : Fdt) (policy : HostTranslation) : sprog (EntryContract * StartupDeadline) :=
  t <-? Ret (ok_or topology Preparation) ;;
  _ <-? or_prepare (Backend.select fdt t (br_midr regs) (br_mpidr regs)) ;;
  let entry_contract := Backend.contract in
  _ <-? boot_cpu_idle ;;
  if negb (el2_mmu_off entry_contract) || negb (coherent entry_contract) then Ret (Err Preparation)
  else if negb ((br_mair regs =? mair (config_of policy)) && (br_tcr regs =? tcr (config_of policy)) &&
                (br_root regs =? El2Policy.root (config_of policy)) && (br_sctlr regs =? sctlr (config_of policy)))
  then Ret (Err Preparation)
  else
    deadline <-? Ret (ok_or (StartupDeadline_new (br_cntfrq regs) 2) Preparation) ;;
    counter_start <- input ;;
    progressed <-? progresses reads counter_start ;;
    if negb progressed then Ret (Err Preparation) else Ret (Ok (entry_contract, deadline)).

(** ** The resources of one CPU *)

(** The pages of [validate_identity_range], each translated by the hardware. *)
Fixpoint identity_pages (addresses : list Z) : sprog unit :=
  match addresses with
  | [] => Ret (Ok tt)
  | address :: rest =>
      par <- input ;;
      if negb (Z.land par 1 =? 0) || negb (Z.land par PA_PAGE_MASK =? address) then Ret (Err Preparation)
      else identity_pages rest
  end.

Definition validate_identity_range (start e : Z) : sprog unit :=
  if (e <=? start) || negb (Z.land start 4095 =? 0) || negb (Z.land e 4095 =? 0) then Ret (Err Preparation)
  else identity_pages (page_steps start e).

Fixpoint validate_identity_ranges (ranges : list (Z * Z)) : sprog unit :=
  match ranges with
  | [] => Ret (Ok tt)
  | (start, e) :: rest => _ <-? validate_identity_range start e ;; validate_identity_ranges rest
  end.

(** The identities of the slots, as [find_slot_by_affinity] reads them. *)
Fixpoint identities (ids : list nat) : sprog (list (option CpuIdentity)) :=
  match ids with
  | [] => Ret (Ok [])
  | id :: rest =>
      i <-? failing (fun _ => Preparation) (on_slot id (identity (slot_address id))) ;;
      others <-? identities rest ;;
      Ret (Ok (i :: others))
  end.

(** [smp::read_release_cell]: the translation of the address is an input. *)
Definition read_identity_cell (address : Z) : prog start_loc (outcome StartupContractError Z) :=
  par <- input ;;
  if negb (par_identity par address) then Ret (Err ReleaseCellNotIdentityMapped)
  else
    v <- relocate RLoc (read_release_cell address) ;;
    Ret (Prelude.map_err (fun _ => ReleaseCellNotIdentityMapped) v).

Definition verify_unreleased_cell (address : Z) : prog start_loc (outcome StartupContractError unit) :=
  listed <-? Ret (match startup_contract with
                  | None => Ok false
                  | Some c => let? cells := FixedList_iter (release_cells c) in
                              Ok (existsb (fun cell => rstart cell =? address) cells)
                  end) ;;
  if negb (listed : bool) then Ret (Err MissingHoldingReservation)
  else
    value <-? read_identity_cell address ;;
    if negb (value =? 0) then Ret (Err NonzeroReleaseCell) else Ret (Ok tt).

(** The regions the linker and the published identity give. *)
Definition describe_resources (policy : HostTranslation) (identity : CpuIdentity) (page : PhysRegion) :
    outcome RegionError StartupResources :=
  let? code := PhysRegion_from_bounds (text_start image) (text_end image) in
  let? vectors := PhysRegion_from_bounds (vectors_start image) (vectors_end image) in
  let? rodata := PhysRegion_from_bounds (rodata_start image) (rodata_end image) in
  let? writable := PhysRegion_from_bounds (writable_start image) (writable_end image) in
  let? tables := PhysRegion_from_bounds (el2_stage1_tables_start image) (el2_stage1_tables_end image) in
  let? slots := PhysRegion_new (slot_address 0) (Z.of_nat MAX_CPUS * SLOT_SIZE) in
  let? config := PhysRegion_new config_address CONFIG_SIZE in
  let? context := PhysRegion_new (id_context identity) CONTEXT_SIZE in
  let? guard := ok_or (checked_sub (id_stack_bottom identity) GUARD_SIZE) SystemInfo.AddressOverflow in
  let? stack := Prelude.map_err (fun _ => SystemInfo.AddressOverflow) (stack_layout guard) in
  Ok (mkResources code vectors rodata writable tables slots config context page stack entry (ht_root policy)).

Definition startup_resources (id : nat) (policy : HostTranslation) : sprog StartupResources :=
  t <-? Ret (ok_or topology Preparation) ;;
  address <-? or_prepare (validate_spin_table_target (cpus t) id) ;;
  if (MAX_CPUS <=? id)%nat then Ret (Err Preparation)
  else
    found <-? failing (fun _ => Preparation) (on_slot id (identity (slot_address id))) ;;
    identity <-? Ret (ok_or found Preparation) ;;
    ids <-? identities (seq 0 MAX_CPUS) ;;
    if negb (bool_decide (find_slot_by_affinity ids (id_affinity identity) = Some id)) then Ret (Err Preparation)
    else if negb (existsb (fun cpu => cpu_enabled cpu && bool_decide (cpu_logical_id cpu = Some id)
                                      && (cpu_affinity cpu =? id_affinity identity)) (cpus t))
    then Ret (Err Preparation)
    else
      _ <-? validate_identity_ranges [(text_start image, writable_end image);
              (el2_stage1_tables_start image, el2_stage1_tables_end image);
              (id_stack_bottom identity, id_stack_top identity)] ;;
      map <-? Ret (ok_or memory_map Preparation) ;;
      page <-? or_prepare (release_page map address) ;;
      resources <-? or_prepare (describe_resources policy identity page) ;;
      _ <-? failing (fun _ => Preparation) (verify_unreleased_cell address) ;;
      Ret (Ok resources).

(** ** Preparing all CPUs *)

(** The body of the loop of [prepare_all_cpus] for a required CPU. *)
Definition prepare_cpu (policy : HostTranslation) (config : HostEl2Config) (cpus : list CpuDescriptor) (id : nat) :
    bprog StartupResources :=
  address <~ running (or_prepare (validate_spin_table_target cpus id)) ;;
  _ <~ editing (map_firmware_release_cell (release_cells <$> startup_contract) memory_map address) ;;
  resources <~ running (startup_resources id policy) ;;
  _ <~ running (if (MAX_CPUS <=? id)%nat then Ret (Err Preparation)
                 else failing (fun _ => Preparation) (on_slot id (publish_startup (slot_address id) GENERATION config))) ;;
  cret resources.

(** [required & (1 << id) != 0] *)
Definition is_required (required : Z) (id : nat) : bool := negb (Z.land required (Z.shiftl 1 (Z.of_nat id)) =? 0).

(** The entries of the array, in the order of the slots. *)
Fixpoint prepare_each (policy : HostTranslation) (config : HostEl2Config) (cpus : list CpuDescriptor) (required : Z)
    (ids : list nat) : bprog (list (option StartupResources)) :=
  match ids with
  | [] => cret []
  | id :: rest =>
      resource <~ (if is_required required id
                    then r <~ prepare_cpu policy config cpus id ;; cret (Some r) else cret None) ;;
      resources <~ prepare_each policy config cpus required rest ;;
      cret (resource :: resources)
  end.

Definition prepare_all_cpus (required : Z) (policy : HostTranslation) : bprog (list (option StartupResources)) :=
  _ <~ running (failing (fun _ => Preparation) (relocate CLoc (config_publish policy))) ;;
  found <~ running (c <- relocate CLoc config_get ;; Ret (Ok c)) ;;
  config <~ running (Ret (ok_or found Preparation)) ;;
  t <~ running (Ret (ok_or topology Preparation)) ;;
  resources <~ prepare_each policy config (cpus t) required (seq 1 (MAX_CPUS - 1)) ;;
  cret (None :: resources).

(** ** The tables *)

(** The loop of [pcpu::prepared_stacks]. *)
Fixpoint stacks_of (ids : list nat) (result : FixedList StackLayout) : sprog (FixedList StackLayout) :=
  match ids with
  | [] => Ret (Ok result)
  | id :: rest =>
      prepared <-? failing (fun _ => Preparation) (on_slot id is_prepared) ;;
      if negb prepared then stacks_of rest result
      else
        found <-? failing (fun _ => Preparation) (on_slot id (identity (slot_address id))) ;;
        c <-? Ret (ok_or found Preparation) ;;
        guard <-? Ret (ok_or (checked_sub (id_stack_bottom c) GUARD_SIZE) Preparation) ;;
        layout <-? or_prepare (stack_layout guard) ;;
        if negb (top layout =? id_stack_top c) then Ret (Err Preparation)
        else
          result <-? or_prepare (FixedList_push MAX_CPUS result layout) ;;
          stacks_of rest result
  end.

Definition prepared_stacks : sprog (FixedList StackLayout) :=
  _ <-? boot_cpu_idle ;; stacks_of (seq 0 MAX_CPUS) (FixedList_new MAX_CPUS).

(** The closure of [validate_and_freeze]. *)
Definition validate_startups (resources : list (option StartupResources)) (stacks : FixedList StackLayout)
    (tables : TableSet) : outcome ResourceError unit :=
  let? _ := check_all (validate_resources tables) (omap id resources) in
  validate_stacks tables stacks.

Definition validate_and_freeze (resources : list (option StartupResources)) : bprog unit :=
  stacks <~ running prepared_stacks ;;
  editing (validate_and_freeze_startups (validate_startups resources stacks)).

Definition cache_line_size : Z := Z.shiftl 4 (Z.land (Z.shiftr (br_ctr regs) 16) 15).

(** ** Publication *)

(** The first pass of [publish_all_startups], from slot [id] on. *)
Fixpoint validate_all (cpus : list CpuDescriptor) (contract : EntryContract) (shared : StartupResources) (line : Z)
    (resources : list (option StartupResources)) (id : nat) : sprog unit :=
  match resources with
  | [] => Ret (Ok tt)
  | None :: rest => validate_all cpus contract shared line rest (S id)
  | Some r :: rest =>
      if negb (bool_decide (shared_regions r = shared_regions shared)) then Ret (Err Preparation)
      else
        view <-? startup id ;;
        record <-? Ret (ok_or view Preparation) ;;
        _ <-? failing (fun _ => Preparation)
                (relocate (of_release id) (validate_publication cpus id contract config_address record r line)) ;;
        validate_all cpus contract shared line rest (S id)
  end.

(** The stacks, one after another. *)
Fixpoint publish_stacks (resources : list StartupResources) (line : Z) : sprog unit :=
  match resources with
  | [] => Ret (Ok tt)
  | r :: rest =>
      _ <-? failing (fun _ => Preparation) (relocate RLoc (publish_cpu_startup (stack r) line)) ;;
      publish_stacks rest line
  end.

Definition publish_all_startups (resources : list (option StartupResources)) (contract : EntryContract) (line : Z)
    (frozen : bool) : sprog unit :=
  st <-? on_boot boot_status ;;
  if negb (bool_decide (st = Preparing)) || negb frozen then Ret (Err Preparation)
  else
    t <-? Ret (ok_or topology Preparation) ;;
    shared <-? Ret (ok_or (head (omap id resources)) Preparation) ;;
    _ <-? validate_all (cpus t) contract shared line resources 0 ;;
    _ <-? failing (fun _ => Preparation) (relocate RLoc (publish_shared_startup shared line)) ;;
    _ <-? publish_stacks (omap id resources) line ;;
    failing (fun _ => Preparation) (relocate RLoc publication_barrier).

(** ** Release *)

(** The closures' [has_fatal] and elapsed ticks are inputs of the wait.  The
    state read for the report that follows decides nothing. *)
Definition wait_for_secondary (id : nat) (deadline : StartupDeadline) : sprog unit :=
  view <-? startup id ;;
  record <-? Ret (ok_or view InvalidCheckpoint) ;;
  result <- on_boot (wait_for_parked 0 (mkRecord id record) id GENERATION (deadline_ticks deadline) polls) ;;
  _ <- relocate (fun l => BLoc (Slot id (Mail l))) (state GENERATION) ;;
  Ret result.

Fixpoint readback_cells (cpus : list CpuDescriptor) (released : Z) (cells : list PhysRegion) : sprog unit :=
  match cells with
  | [] => Ret (Ok tt)
  | cell :: rest =>
      value <-? failing (fun _ => Readback) (read_identity_cell (rstart cell)) ;;
      _ <-? Ret (Prelude.map_err (fun _ => Readback) (verify_release_value cpus released (rstart cell) entry value)) ;;
      readback_cells cpus released rest
  end.

Definition verify_release_set (released : Z) : sprog unit :=
  contract <-? Ret (ok_or startup_contract Readback) ;;
  t <-? Ret (ok_or topology Readback) ;;
  cells <-? Ret (FixedList_iter (release_cells contract)) ;;
  readback_cells (cpus t) released cells.

(** The body of the loop of [release_and_wait] for a required CPU. *)
Definition release_one (cpus : list CpuDescriptor) (contract : EntryContract) (deadline : StartupDeadline) (line : Z)
    (id : nat) : sprog unit :=
  fatal <- input ;;
  if negb (fatal =? 0) then Ret (Err Fatal)
  else
    view <-? startup id ;;
    record <-? Ret (ok_or view InvalidCheckpoint) ;;
    _ <-? failing Release (relocate (of_release id) (release_secondary retries cpus contract record entry line)) ;;
    _ <-? wait_for_secondary id deadline ;;
    released <- load (RLoc Attempted) ;;
    verify_release_set released.

Fixpoint release_each (cpus : list CpuDescriptor) (contract : EntryContract) (deadline : StartupDeadline) (line : Z)
    (ids : list nat) : sprog unit :=
  match ids with
  | [] => Ret (Ok tt)
  | id :: rest => _ <-? release_one cpus contract deadline line id ;; release_each cpus contract deadline line rest
  end.

(** [for id in 1..MAX_CPUS], skipping the ids outside the mask. *)
Definition required_ids (required : Z) : list nat := List.filter (is_required required) (seq 1 (MAX_CPUS - 1)).

Definition release_and_wait (required : Z) (contract : EntryContract) (deadline : StartupDeadline) (line : Z)
    (frozen : bool) : sprog unit :=
  st <-? on_boot boot_status ;;
  if negb (bool_decide (st = Releasing)) || negb frozen then Ret (Err BInvalidTransition)
  else
    t <-? Ret (ok_or topology InvalidCheckpoint) ;;
    release_each (cpus t) contract deadline line (required_ids required).

(** ** The final check *)

(** The records are read one by one, as [secondary_boot::verify_all_parked]
    consumes the iterator. *)
Fixpoint verify_each (required : Z) (ids : list nat) (seen : Z) : sprog Z :=
  match ids with
  | [] => Ret (Ok seen)
  | id :: rest =>
      view <-? startup id ;;
      match view with
      | None => verify_each required rest seen
      | Some v =>
          seen' <-? on_boot (verify_records required GENERATION [(id, mkRecord id v)] seen) ;;
          verify_each required rest seen'
      end
  end.

Definition verify_all_started (required : Z) : sprog unit :=
  attempted <- load (RLoc Attempted) ;;
  if negb (attempted =? required) then Ret (Err InvalidCheckpoint)
  else
    fatal <- input ;;
    st <-? on_boot boot_status ;;
    if negb (bool_decide (st = Releasing)) then Ret (Err BInvalidTransition)
    else if negb (fatal =? 0) then Ret (Err Fatal)
    else if (required =? 0) || negb (Z.land required 1 =? 0) || negb (Z.shiftr required (Z.of_nat MAX_CPUS) =? 0)
    then Ret (Err InvalidCheckpoint)
    else
      seen <-? verify_each required (required_ids required) 0 ;;
      if negb (seen =? required) then Ret (Err InvalidCheckpoint) else Ret (Ok tt).

(** ** The procedure *)

(** The closure of [start_all]. *)
Definition start_body (fdt : Fdt) (policy : HostTranslation) : bprog unit :=
  platform <~ running (validate_platform fdt policy) ;;
  let '(contract, deadline) := platform in
  required <~ running (Ret required_mask) ;;
  if required =? 0 then cfail Preparation
  else
    resources <~ prepare_all_cpus required policy ;;
    _ <~ validate_and_freeze resources ;;
    let line := cache_line_size in
    frozen <~ (fun h => Ret (Ok (startup_tables_frozen h), h)) ;;
    _ <~ running (publish_all_startups resources contract line frozen) ;;
    _ <~ running (on_boot begin_release) ;;
    _ <~ running (release_and_wait required contract deadline line frozen) ;;
    running (verify_all_started required).

Definition start_all (fdt : Fdt) (policy : HostTranslation) : bprog unit := fun h =>
  begun <- on_boot begin_boot_once ;;
  match begun with
  | Ok _ =>
      p <- start_body fdt policy h ;;
      let '(result, h') := p in
      match result with
      | Panic => Ret (Panic, h')
      | result => r <- on_boot (finalize_boot result) ;; Ret (r, h')
      end
  | Err e => Ret (Err e, h)
  | Panic => Ret (Panic, h)
  end.

End Start.

(** ** Accesses of the preparation *)

Notation sevent := (event start_loc).

(** An access that neither writes a firmware cell nor the boot status, nor rings. *)
Definition quiet (e : sevent) : Prop :=
  match e with
  | EStore (RLoc (Cell _) | RLoc Doorbell | BLoc BootState) _ => False
  | ESwap (RLoc (Cell _) | BLoc BootState) _ _ => False
  | ECasOk (RLoc (Cell _) | BLoc BootState) _ _ => False
  | _ => True
  end.

(** Only such accesses, and a result in [Q]. *)
Definition quietly {A} (p : prog start_loc A) (Q : A -> Prop) : Prop := within quiet p Q.

Lemma quietly_ret {A} (a : A) (Q : A -> Prop) : Q a -> quietly (Ret a) Q.
Proof. done. Qed.

Lemma quietly_mono {A} (p : prog start_loc A) (Q Q' : A -> Prop) : (forall a, Q a -> Q' a) -> quietly p Q -> quietly p Q'.
Proof. apply within_mono. Qed.

Lemma quietly_bind {A B} (p : prog start_loc A) (f : A -> prog start_loc B) (P : A -> Prop) Q :
  quietly p P -> (forall a, P a -> quietly (f a) Q) -> quietly (pbind p f) Q.
Proof. intros Hp Hf. apply within_bind. by eapply within_mono; [|exact Hp]. Qed.

(** A result that is good for [P] if it is [Ok], whatever it is otherwise. *)
Definition on_ok {E A} (P : A -> Prop) (r : outcome E A) : Prop := match r with Ok a => P a | _ => True end.

Lemma quietly_try {E A B} (p : prog start_loc (outcome E A)) (f : A -> prog start_loc (outcome E B)) (P : A -> Prop)
    (Q : B -> Prop) :
  quietly p (on_ok P) -> (forall a, P a -> quietly (f a) (on_ok Q)) -> quietly (pbind_res p f) (on_ok Q).
Proof. intros Hp Hf. eapply quietly_bind; [exact Hp|]. intros [a| |] Ha; [by apply Hf|done..]. Qed.

Lemma quietly_any {A} (p : prog start_loc A) (Q : A -> Prop) : (forall a, Q a) -> emits quiet p -> quietly p Q.
Proof. intros HQ Hp. eapply quietly_mono; [|by apply emits_within]. auto. Qed.

Lemma quietly_failing {E A} (f : E -> BootError) (p : prog start_loc (outcome E A)) (P : A -> Prop) :
  quietly p (on_ok P) -> quietly (failing f p) (on_ok P).
Proof. intros Hp. eapply quietly_bind; [exact Hp|]. by intros [a| |] Ha. Qed.

Lemma quietly_result {E A} (r : outcome E A) (P : A -> Prop) : (forall a, r = Ok a -> P a) -> quietly (Ret r) (on_ok P).
Proof. intros H. apply quietly_ret. destruct r; cbn; auto. Qed.

(** Slots and the shared configuration are neither cells nor the status. *)
Lemma quietly_slot {E A} id (p : prog slot_loc (outcome E A)) (P : A -> Prop) :
  within (fun _ => True) p (on_ok P) -> quietly (on_slot id p) (on_ok P).
Proof.
  intros Hp. apply within_relocate. revert Hp. generalize (@on_ok E A P). intros Q.
  induction p; cbn; naive_solver.
Qed.

Lemma emits_slot {A} id (p : prog slot_loc A) : emits quiet (relocate (fun l => BLoc (Slot id l)) p).
Proof. apply emits_relocate, emits_always. by intros []. Qed.

Lemma emits_mailbox {A} id (p : prog mailbox_loc A) : emits quiet (relocate (fun l => BLoc (Slot id (Mail l))) p).
Proof. apply emits_relocate, emits_always. by intros []. Qed.

Lemma emits_config {A} (p : prog config_loc A) : emits quiet (relocate CLoc p).
Proof. apply emits_relocate, emits_always. by intros []. Qed.

Lemma emits_status {A} (p : prog boot_loc A) : emits status_reads p -> emits quiet (relocate BLoc p).
Proof. intros Hp. apply emits_relocate. eapply emits_mono; [|exact Hp]. by intros [[]|[]|[]|[]|[]|]. Qed.
#[local] Hint Resolve emits_slot emits_mailbox emits_config emits_status : emits.

Lemma identity_context address :
  within (fun _ => True) (identity address) (on_ok (fun i => forall c, i = Some c -> id_context c = address)).
Proof.
  unfold identity, is_prepared, lifecycle. cbn. intros v. split; [done|].
  destruct (cpu_state_of v) as [[]| |]; cbn; try done; repeat (intros ?; split; [done|]); by intros c [= <-].
Qed.

(** The same for programs that pass the tables along. *)
Definition bquietly {A} (m : bprog A) (Q : A -> HostSpace -> Prop) : Prop :=
  forall h, quietly (m h) (fun '(r, h') => on_ok (fun a => Q a h') r).

Lemma bquietly_bind {A B} (m : bprog A) (f : A -> bprog B) (P : A -> HostSpace -> Prop) Q h :
  quietly (m h) (fun '(r, h') => on_ok (fun a => P a h') r) ->
  (forall a h', P a h' -> quietly (f a h') (fun '(r, h') => on_ok (fun x => Q x h') r)) ->
  quietly (cbind m f h) (fun '(r, h') => on_ok (fun x => Q x h') r).
Proof. intros Hm Hf. eapply quietly_bind; [exact Hm|]. intros [[a| |] h'] Ha; [by apply Hf|done..]. Qed.

Lemma quietly_running {A} (p : sprog A) (P : A -> Prop) (h : HostSpace) :
  quietly p (on_ok P) -> quietly (running p h) (fun '(r, h') => on_ok (fun a => P a /\ h' = h) r).
Proof. intros Hp. eapply quietly_bind; [exact Hp|]. by intros [a| |] Ha. Qed.

Lemma quietly_editing {E A} (op : stateful HostSpace E A) h :
  quietly (editing op h) (fun '(r, h') => on_ok (fun a => op h = (Ok a, h')) r).
Proof. unfold editing. destruct (op h) as [[a| |] h'] eqn:Eo; cbn; by rewrite ?Eo. Qed.

Section Facts.
Context (image : Image) (slot_address : nat -> Z) (config_address entry : Z).
Context (topology : option CpuTopology) (startup_contract : option StartupMemoryContract) (memory_map : option MemoryMap).
Context (regs : BootRegisters) (retries polls reads : nat).

Notation startup := (startup slot_address).
Notation describe := (describe_resources image slot_address config_address entry).

Lemma emits_startup id : emits quiet (startup id).
Proof. unfold startup, on_slot. emits_go; auto with emits. Qed.

Lemma emits_idle : emits quiet (boot_cpu_idle slot_address regs).
Proof. unfold boot_cpu_idle, failing, on_slot. emits_go; auto with emits. Qed.

Lemma validate_platform_ok fdt policy :
  quietly (validate_platform slot_address topology regs reads fdt policy) (on_ok (fun '(contract, _) =>
    contract = Backend.contract)).
Proof.
  unfold validate_platform. apply (quietly_try _ _ (fun _ => True)); [by apply quietly_result|]. intros t _.
  apply (quietly_try _ _ (fun _ => True)); [by apply quietly_result|]. intros _ _.
  apply (quietly_try _ _ (fun _ => True)); [apply quietly_any; [by intros []|apply emits_idle]|]. intros _ _.
  destruct (_ || _); [done|]. destruct (negb _); [done|].
  apply (quietly_try _ _ (fun _ => True)); [by apply quietly_result|]. intros deadline _.
  cbn. intros start. split; [done|]. apply (quietly_try _ _ (fun _ => True)).
  - induction reads as [|n IH]; cbn; [done|]. intros now. split; [done|]. by destruct (counter_progresses start now).
  - by intros [].
Qed.

(** What the loop returns for one CPU. *)
Definition resources_for (policy : HostTranslation) (id : nat) (r : StartupResources) : Prop :=
  exists identity page, describe policy identity page = Ok r /\ id_context identity = slot_address id.

Lemma emits_identity_ranges ranges : emits quiet (validate_identity_ranges ranges).
Proof.
  assert (Hp : forall l, emits quiet (identity_pages l)) by (induction l; cbn; emits_go; done).
  induction ranges as [|[a c] ranges IH]; cbn; [done|]. unfold validate_identity_range. emits_go; try done; apply Hp.
Qed.

Lemma emits_read_cell address : emits quiet (read_identity_cell address).
Proof. unfold read_identity_cell. emits_go; done. Qed.

Lemma emits_unreleased address : emits quiet (verify_unreleased_cell startup_contract address).
Proof. unfold verify_unreleased_cell. emits_go; try done. apply emits_read_cell. Qed.

Lemma emits_identities ids : emits quiet (identities slot_address ids).
Proof. induction ids; cbn; unfold failing, on_slot; emits_go; auto with emits. Qed.

Lemma startup_resources_ok id policy :
  quietly (startup_resources image slot_address config_address entry topology startup_contract memory_map id policy)
    (on_ok (resources_for policy id)).
Proof.
  unfold startup_resources. apply (quietly_try _ _ (fun _ => True)); [by apply quietly_result|]. intros t _.
  apply (quietly_try _ _ (fun _ => True)); [by apply quietly_result|]. intros address _.
  destruct (MAX_CPUS <=? id)%nat; [done|].
  eapply quietly_try; [apply quietly_failing, quietly_slot, identity_context|]. intros found Hf.
  apply (quietly_try _ _ (fun c => id_context c = slot_address id)).
  { apply quietly_result. destruct found as [c|]; [|done]. intros c' [= <-]. by apply Hf. }
  intros c Hc. apply (quietly_try _ _ (fun _ => True)); [apply quietly_any; [by intros []|apply emits_identities]|].
  intros ids _. destruct (negb _); [done|]. destruct (negb _); [done|].
  apply (quietly_try _ _ (fun _ => True)); [apply quietly_any; [by intros []|apply emits_identity_ranges]|]. intros _ _.
  apply (quietly_try _ _ (fun _ => True)); [by apply quietly_result|]. intros map _.
  apply (quietly_try _ _ (fun _ => True)); [by apply quietly_result|]. intros page _.
  apply (quietly_try _ _ (resources_for policy id)).
  { apply quietly_result. intros r Hr. exists c, page. split; [|done]. by destruct (describe policy c page); simplify_eq/=. }
  intros r Hr. apply (quietly_try _ _ (fun _ => True)); [|by intros; apply quietly_ret].
  apply quietly_failing, quietly_any; [by intros []|]. apply emits_unreleased.
Qed.

(** The array [prepare_all_cpus] fills. *)
Definition described (policy : HostTranslation) (required : Z) (id : nat) (o : option StartupResources) : Prop :=
  match o with
  | Some r => id <> 0%nat /\ is_required required id = true /\ resources_for policy id r
  | None => id = 0%nat \/ is_required required id = false
  end.

Lemma prepare_each_ok policy config cpus required ids h :
  Forall (fun id => id <> 0%nat) ids ->
  quietly (prepare_each image slot_address config_address entry topology startup_contract memory_map policy config cpus
             required ids h)
    (fun '(r, _) => on_ok (Forall2 (described policy required) ids) r).
Proof.
  intros Hids. revert h. induction Hids as [|id ids Hid Hids IH]; intros h; cbn [prepare_each]; [by constructor|].
  eapply (bquietly_bind _ _ (fun o _ => described policy required id o) (fun rs _ => Forall2 _ (id :: ids) rs)).
  - destruct (is_required required id) eqn:Er; [|by right].
    apply (bquietly_bind _ _ (fun r _ => resources_for policy id r)); [|intros r h' Hr; apply quietly_ret; by split_and!].
    unfold prepare_cpu.
    apply (bquietly_bind _ _ (fun _ _ => True)); [eapply quietly_mono; [|apply (quietly_running _ (fun _ => True)); by apply quietly_result]; by intros [[]]|].
    intros address h1 _. apply (bquietly_bind _ _ (fun _ _ => True)); [eapply quietly_mono; [|apply quietly_editing]; by intros [[]]|].
    intros _ h2 _. eapply bquietly_bind; [apply quietly_running, startup_resources_ok|]. intros r h3 [Hr ->].
    apply (bquietly_bind _ _ (fun _ _ => True)); [|by intros; apply quietly_ret].
    eapply quietly_mono; [|apply (quietly_running _ (fun _ => True))]; [by intros [[]]|].
    destruct (MAX_CPUS <=? id)%nat; [done|]. apply quietly_any; [by intros []|].
    unfold failing, on_slot. emits_go; auto with emits.
  - intros o h1 Ho. apply (bquietly_bind _ _ (fun rs _ => Forall2 (described policy required) ids rs)); [apply IH|].
    intros rs h2 Hrs. apply quietly_ret. by constructor.
Qed.

Notation prepare_all := (prepare_all_cpus image slot_address config_address entry topology startup_contract memory_map).

Lemma prepare_all_ok required policy h :
  quietly (prepare_all required policy h)
    (fun '(r, _) => on_ok (Forall2 (described policy required) (seq 0 MAX_CPUS)) r).
Proof.
  unfold prepare_all_cpus.
  assert (Hrun : forall A (p : sprog A) (h' : HostSpace), emits quiet p -> quietly (running p h') (fun '(r, _) => on_ok (fun _ => True) r)).
  { intros A p h' Hp. eapply quietly_mono; [|apply (quietly_running p (fun _ => True)), quietly_any]; [by intros [[]]|by intros []|done]. }
  apply (bquietly_bind _ _ (fun _ _ => True)); [apply Hrun; unfold failing; emits_go; auto with emits|]. intros _ h1 _.
  apply (bquietly_bind _ _ (fun _ _ => True)); [apply Hrun; emits_go; auto with emits|]. intros found h2 _.
  apply (bquietly_bind _ _ (fun _ _ => True)); [by apply Hrun|]. intros config h3 _.
  apply (bquietly_bind _ _ (fun _ _ => True)); [by apply Hrun|]. intros t h4 _.
  apply (bquietly_bind _ _ (fun rs _ => Forall2 (described policy required) (seq 1 (MAX_CPUS - 1)) rs)).
  - apply prepare_each_ok. repeat constructor; done.
  - intros rs h5 Hrs. apply quietly_ret. by constructor; [left|].
Qed.

(** The tables are frozen with every resource validated. *)
Definition frozen_with (resources : list (option StartupResources)) (h : HostSpace) : Prop :=
  exists tables, h_tables h = Some (mkBootTables tables true) /\
    Forall (fun r => validate_resources tables r = Ok tt) (omap id resources).

Lemma check_all_Forall {A} (check : A -> outcome ResourceError unit) l :
  check_all check l = Ok tt -> Forall (fun a => check a = Ok tt) l.
Proof.
  induction l as [|a l IH]; cbn [check_all]; [constructor|]. destruct (check a) as [[]| |] eqn:E; cbn [obind]; [|done..].
  constructor; [done|by apply IH].
Qed.

Lemma emits_stacks_of ids result : emits quiet (stacks_of slot_address ids result).
Proof.
  revert result. induction ids as [|id ids IH]; intros result; cbn [stacks_of]; [done|].
  unfold failing, on_slot, or_prepare. emits_go; auto with emits.
Qed.

Lemma validate_and_freeze_ok resources h :
  quietly (validate_and_freeze slot_address regs resources h) (fun '(r, h') => on_ok (fun _ => frozen_with resources h') r).
Proof.
  unfold validate_and_freeze. apply (bquietly_bind _ _ (fun _ _ => True)).
  - eapply quietly_mono; [|apply (quietly_running _ (fun _ => True)), quietly_any]; [by intros [[]]|by intros []|].
    unfold prepared_stacks. apply emits_bind_res; [apply emits_idle|]. intros _. apply emits_stacks_of.
  - intros stacks h1 _. eapply quietly_mono; [|apply quietly_editing]. intros [[[]| |] h']; [|done..]. cbn.
    unfold validate_and_freeze_startups. destruct (h_tables h1) as [[tables frozen]|]; [|done].
    unfold HostMap.validate_and_freeze. cbn [bt_frozen bt_tables]. destruct frozen; [done|].
    destruct (validate_startups resources stacks tables) as [[]| |] eqn:Ev; cbn; [|done..]. intros [= <-].
    exists tables. split; [done|]. unfold validate_startups in Ev.
    destruct (check_all _ _) as [[]| |] eqn:Ec; cbn [obind] in Ev; [|done..]. by apply check_all_Forall.
Qed.

(** ** Publication *)

Lemma emits_validate_publication cpus id contract record r line :
  emits (fun e => match e with ELoad _ _ => True | _ => False end)
    (validate_publication cpus id contract config_address record r line).
Proof.
  unfold validate_publication, state, check, observe_ready, lifecycle. emits_go; try done.
Qed.

Lemma emits_of_release {A} id (p : prog release_loc A) : emits silent p -> emits quiet (relocate (of_release id) p).
Proof. intros Hp. apply emits_relocate. eapply emits_mono; [|exact Hp]. by intros [[]|[]|[]|[]|[]|]. Qed.

Lemma validate_all_ok cpus contract shared line resources i :
  quietly (validate_all slot_address config_address cpus contract shared line resources i)
    (on_ok (fun _ => Forall (fun r => shared_regions r = shared_regions shared) (omap id resources))).
Proof.
  revert i. induction resources as [|[r|] resources IH]; intros i; cbn [validate_all omap list_omap id]; [by constructor| |apply IH].
  destruct (bool_decide _) eqn:Es; cbn [negb]; [|done]. apply bool_decide_eq_true in Es.
  apply (quietly_try _ _ (fun _ => True)); [apply quietly_any; [by intros []|apply emits_startup]|]. intros view _.
  apply (quietly_try _ _ (fun _ => True)); [by apply quietly_result|]. intros record _.
  apply (quietly_try _ _ (fun _ => True)).
  - apply quietly_failing, quietly_any; [by intros []|]. apply emits_of_release.
    eapply emits_mono; [|apply emits_validate_publication]. by intros [].
  - intros _ _. eapply quietly_mono; [|apply IH]. intros [[]| |]; [|done..]. by constructor.
Qed.

(** Every line with a byte of a shared region or of a stack of [rs] is cleaned,
    and then a barrier issued. *)
Definition published (rs : list StartupResources) (line : Z) (tr : list sevent) : Prop :=
  exists t, tr = t ++ [EStore (RLoc Barrier) 0] /\
    forall r x, r ∈ rs ->
      (exists region, region ∈ shared_regions r /\ rstart region <= x < rend region) \/
        bottom (stack r) <= x < top (stack r) ->
      EStore (RLoc (CleanLine (line_of line x))) 0 ∈ t.

(** What a description guarantees of the regions to clean. *)
Definition cleanable (r : StartupResources) : Prop :=
  Forall region_ok (shared_regions r) /\ u64 (bottom (stack r)) /\ u64 (top (stack r)).

Lemma cleans_quiet tr :
  (forall ev, ev ∈ tr -> exists a, ev = EStore (CleanLine a) 0) -> Forall quiet (relocated RLoc <$> tr).
Proof. intros H. apply Forall_fmap, Forall_forall. intros ev (a & ->)%H. done. Qed.

Lemma elem_relocated a (tr : list (event release_loc)) :
  EStore (CleanLine a) 0 ∈ tr -> EStore (RLoc (CleanLine a)) 0 ∈ relocated RLoc <$> tr.
Proof. intros H. apply list_elem_of_fmap. by exists (EStore (CleanLine a) 0). Qed.

(** A program that follows another one. *)
Lemma traces_then {L A B} `{EqDecision L} (p : prog L A) (f : A -> prog L B) (P : list (event L) -> A -> Prop) Q :
  traces p P [] -> (forall t a, P t a -> traces (f a) (fun t' x => Q (t ++ t') x) []) -> traces (pbind p f) Q [].
Proof.
  intros Hp Hf. apply traces_bind. eapply traces_mono; [|exact Hp]. intros t a Ha.
  rewrite <- (app_nil_r t). eapply traces_shift; [|by apply (Hf t a)]. done.
Qed.

Lemma traces_reloc {L M A} `{EqDecision L, EqDecision M} (f : L -> M) (p : prog L A) (P : list (event L) -> A -> Prop) :
  traces p P [] -> traces (relocate f p) (fun t' a => exists t, t' = relocated f <$> t /\ P t a) [].
Proof. intros Hp. apply (traces_relocate f p _ [] []). eapply traces_mono; [|exact Hp]. intros t a Ha. by exists t. Qed.

(** The cleans of one program of [Publication], seen from here. *)
Lemma traces_publishing (p : rprog unit) (C : list (event release_loc) -> Prop) :
  traces p (fun t res => match res with Ok _ => C t | _ => Forall silent t end) [] ->
  (forall t, C t -> Forall silent t) ->
  traces (failing (fun _ => Preparation) (relocate RLoc p)) (fun t res =>
    Forall quiet t /\ (res = Ok tt -> exists t', t = relocated RLoc <$> t' /\ C t')) [].
Proof.
  intros Hp Hs. unfold failing. eapply traces_then; [apply traces_reloc, Hp|].
  intros t res (t' & -> & Ht). cbn. rewrite app_nil_r.
  assert (Hq : Forall silent t') by (destruct res; auto). split.
  - apply Forall_fmap. eapply Forall_impl; [exact Hq|]. by intros [[]|[]|[]|[]|[]|].
  - destruct res as [[]| |]; [|done..]. intros _. by exists t'.
Qed.

(** [x <-? p ;; f]: an error ends it, keeping what [p] did. *)
Lemma traces_try {E A B} (p : prog start_loc (outcome E A)) (f : A -> prog start_loc (outcome E B))
    (P : list sevent -> outcome E A -> Prop) (Q : list sevent -> outcome E B -> Prop) :
  traces p P [] ->
  (forall t a, P t (Ok a) -> traces (f a) (fun t' x => Q (t ++ t') x) []) ->
  (forall t e, P t (Err e) -> Q t (Err e)) -> (forall t, P t Panic -> Q t Panic) ->
  traces (pbind_res p f) Q [].
Proof.
  intros Hp Hok Herr Hpanic. eapply traces_then; [exact Hp|].
  intros t [a|e|] Ha; [by apply Hok|cbn; rewrite app_nil_r; auto..].
Qed.

Lemma traces_quietly {A} (p : prog start_loc A) (P : A -> Prop) :
  quietly p P -> traces p (fun t a => Forall quiet t /\ P a) [].
Proof. intros Hp. eapply traces_within; [exact Hp|]. done. Qed.

Lemma publish_stacks_traces rs line :
  Forall cleanable rs ->
  traces (publish_stacks rs line) (fun t res => Forall quiet t /\ (res = Ok tt -> forall r x, r ∈ rs ->
    bottom (stack r) <= x < top (stack r) -> EStore (RLoc (CleanLine (line_of line x))) 0 ∈ t)) [].
Proof.
  induction rs as [|r rs IH]; intros Hc; cbn [publish_stacks]; [by split; [constructor|intros _ r x ?%elem_of_nil]|].
  apply Forall_cons in Hc as [(_ & Hb & Ht) Hc]. eapply traces_try.
  - apply (traces_publishing _ (cleans_range (bottom (stack r)) (top (stack r)) line)).
    + eapply traces_mono; [|by apply publish_cpu_traces]. intros t [[]| |]; [done|by intros ->..].
    + intros t [_ Hall]. apply Forall_forall. by intros ev (x & _ & ->)%Hall.
  - intros t1 [] [Hq1 H1]. destruct (H1 eq_refl) as (t' & -> & Hclean & _). eapply traces_mono; [|by apply IH].
    intros t2 res [Hq2 H2]. split; [by apply Forall_app|]. intros Hres r' x [->|Hin]%elem_of_cons Hx; apply elem_of_app.
    + left. by apply elem_relocated, Hclean.
    + right. by apply (H2 Hres r').
  - intros t e [Hq _]. by split.
  - intros t [Hq _]. by split.
Qed.

Lemma publish_all_traces resources contract line frozen :
  Forall cleanable (omap id resources) ->
  traces (publish_all_startups slot_address config_address topology resources contract line frozen)
    (fun t res => Forall quiet t /\ (res = Ok tt -> published (omap id resources) line t)) [].
Proof.
  intros Hc. unfold publish_all_startups.
  assert (Hskip : forall A (p : sprog A) (P : A -> Prop) (f : A -> sprog unit) (R : list sevent -> Prop),
    (forall t t', R t' -> R (t ++ t')) -> quietly p (on_ok P) ->
    (forall a, P a -> traces (f a) (fun t res => Forall quiet t /\ (res = Ok tt -> R t)) []) ->
    traces (pbind_res p f) (fun t res => Forall quiet t /\ (res = Ok tt -> R t)) []).
  { intros A p P f R HR Hp Hf. eapply traces_try; [apply traces_quietly, Hp| |by intros t e []|by intros t []].
    intros t a [Hq Ha]. eapply traces_mono; [|by apply Hf]. intros t' res [Hq' HR']. split; [by apply Forall_app|]. auto. }
  assert (Happ : forall t t', published (omap id resources) line t' -> published (omap id resources) line (t ++ t')).
  { intros t t' (u & -> & Hu). exists (t ++ u). split; [by rewrite app_assoc|]. intros r x Hr Hx. apply elem_of_app. right. by apply (Hu r). }
  apply (Hskip _ _ (fun _ => True)); [done|apply quietly_any; [by intros []|]|].
  { apply emits_status. unfold boot_status. emits_go; done. }
  intros st _. destruct (_ || _); [by split; [constructor|]|].
  apply (Hskip _ _ (fun _ => True)); [done|by apply quietly_result|]. intros t _.
  apply (Hskip _ _ (fun shared => exists rest, omap id resources = shared :: rest)); [done| |].
  { apply quietly_result. destruct (omap id resources) as [|r rest]; [done|]. intros r' [= <-]. by exists rest. }
  intros shared [rest Hrest]. eapply (Hskip _ _ _ _ _ Happ); [apply validate_all_ok|]. intros [] Hsame. cbn beta in Hsame.
  assert (Hsh : cleanable shared) by (rewrite Hrest in Hc; by apply Forall_cons in Hc as [? _]).
  eapply traces_try.
  - apply (traces_publishing _ (cleans_regions (shared_regions shared) line)).
    + eapply traces_mono; [|apply publish_shared_traces, Hsh]. intros u [[]| |]; cbn; [by intros []|by intros ->|done].
    + intros u [_ Hall]. apply Forall_forall. by intros ev (? & x & _ & _ & ->)%Hall.
  - intros t1 [] [Hq1 H1]. destruct (H1 eq_refl) as (t' & -> & Hclean & _). eapply traces_try; [by apply publish_stacks_traces|..].
    + intros t2 [] [Hq2 H2]. cbn. rewrite app_assoc. split; [repeat apply Forall_app_2; [done|done|by repeat constructor]|].
      intros _. exists ((relocated RLoc <$> t') ++ t2). split; [done|]. intros r x Hr [(region & Hin & Hx)|Hx]; apply elem_of_app.
      * left. rewrite Forall_forall in Hsame. rewrite (Hsame r Hr) in Hin. by apply elem_relocated, (Hclean region).
      * right. by apply (H2 eq_refl r).
    + intros t2 e [Hq2 _]. split; [by apply Forall_app|done].
    + intros t2 [Hq2 _]. split; [by apply Forall_app|done].
  - intros u e [Hq _]. by split.
  - intros u [Hq _]. by split.
Qed.

(** ** Release *)

(** Every slot is read with its own number, as [prepare] wrote it. *)
Definition numbered (tr : list sevent) : Prop :=
  forall id v, ELoad (BLoc (Slot id (Ctx LogicalId))) v ∈ tr -> v = Z.of_nat id.

Lemma numbered_app t1 t2 : numbered (t1 ++ t2) -> numbered t1 /\ numbered t2.
Proof. intros H. split; intros id v Hin; apply (H id v), elem_of_app; auto. Qed.

Lemma startup_traces id :
  traces (startup id) (fun t r => Forall quiet t /\ forall v, r = Ok (Some v) -> view_generation v = GENERATION /\
    (numbered t -> id_logical_id (view_identity v) = Z.of_nat id)) [].
Proof.
  unfold startup. destruct (MAX_CPUS <=? id)%nat; [by split; [constructor|]|].
  eapply traces_then; [apply (traces_quietly _ (fun _ => True)), quietly_any; [done|apply emits_config]|].
  intros t1 [c|] [Hq1 _]; [|cbn; rewrite app_nil_r; by split].
  eapply traces_then.
  - apply (traces_reloc _ _ (fun t r => forall v, r = Ok (Some v) -> view_generation v = GENERATION /\
      ELoad (Ctx LogicalId) (id_logical_id (view_identity v)) ∈ t)).
    unfold startup_view, identity, is_prepared, observe_ready, lifecycle. cbn. intros rdy.
    destruct (rdy =? GENERATION); cbn; [|done]. intros st. destruct (cpu_state_of st) as [[]| |]; cbn; try done;
      intros l a bt tp v [= <-]; (split; [done|]); set_solver.
  - intros t2 r (t' & -> & Hv). cbn. rewrite app_nil_r. split.
    { apply Forall_app. split; [done|]. apply Forall_fmap, Forall_forall. by intros [] _. }
    intros v Hr. destruct r as [r| |]; [|done..]. injection Hr as ->. destruct (Hv v eq_refl) as [Hg Hin]. split; [done|].
    intros Hn. apply (Hn id), elem_of_app. right. apply list_elem_of_fmap. eexists. by split; [|exact Hin].
Qed.

(** The CPU was found parked, without failures. *)
Definition seen_parked (id : nat) (tr : list sevent) : Prop :=
  ELoad (BLoc (Slot id (Mail StateCell))) (cpu_state_u64 Parked) ∈ tr /\ ELoad (BLoc (Failures id)) 0 ∈ tr.

Lemma seen_parked_app id t1 t2 : seen_parked id t1 \/ seen_parked id t2 -> seen_parked id (t1 ++ t2).
Proof. unfold seen_parked. set_solver. Qed.

Lemma cpu_state_parked {E} v : cpu_state_of (E:=E) v = Ok Parked -> v = cpu_state_u64 Parked.
Proof. unfold cpu_state_of. by repeat case_match. Qed.

(** The same in the memory of [SecondaryBoot]. *)
Definition boot_parked (id : nat) (tr : list (event boot_loc)) : Prop :=
  ELoad (Slot id (Mail StateCell)) (cpu_state_u64 Parked) ∈ tr /\ ELoad (Failures id) 0 ∈ tr.

Lemma boot_parked_after id t1 t2 : boot_parked id t2 -> boot_parked id (t1 ++ t2).
Proof. unfold boot_parked. set_solver. Qed.

Lemma traces_on_boot {A} (p : prog boot_loc (outcome BootError A)) (P : A -> list (event boot_loc) -> Prop) (Q : A -> list sevent -> Prop) :
  emits status_reads p -> traces p (fun t r => forall a, r = Ok a -> P a t) [] ->
  (forall a t, P a t -> Q a (relocated BLoc <$> t)) ->
  traces (on_boot p) (fun t r => Forall quiet t /\ forall a, r = Ok a -> Q a t) [].
Proof.
  intros He Hp HQ. pose proof (traces_and_emits status_reads p _ [] (Forall_nil_2 _) He Hp) as Hb.
  eapply traces_mono; [|apply traces_reloc, Hb].
  intros t r (t' & -> & Hq & Ht). split; [|by intros a Ha; apply HQ, Ht].
  apply Forall_fmap. eapply Forall_impl; [exact Hq|]. by intros [[]|[]|[]|[]|[]|].
Qed.

Lemma boot_parked_relocated id t : boot_parked id t -> seen_parked id (relocated BLoc <$> t).
Proof.
  intros [H1 H2]. split; apply list_elem_of_fmap;
    [by exists (ELoad (Slot id (Mail StateCell)) (cpu_state_u64 Parked))|by exists (ELoad (Failures id) 0)].
Qed.

Lemma verify_checkpoint_traces r id :
  traces (verify_checkpoint r id GENERATION) (fun t res => res = Ok tt -> boot_parked (rec_slot r) t) [].
Proof.
  unfold verify_checkpoint. destruct (negb _); [done|].
  unfold slot_has_parked, has_parked, state, check, observe_ready, lifecycle. cbn. intros rdy.
  destruct (rdy =? GENERATION); cbn; [|done]. intros st. destruct (cpu_state_of st) as [[]| |] eqn:Es; cbn; try done.
  intros f. destruct (Z.eqb_spec f 0) as [->|]; cbn; [|done]. intros _.
  apply cpu_state_parked in Es as ->. split; set_solver.
Qed.

(** Whatever comes first, the last part decides. *)
Lemma traces_last {L A B} `{EqDecision L} (p : prog L A) (f : A -> prog L B) (Q : list (event L) -> B -> Prop) :
  (forall t t' x, Q t' x -> Q (t ++ t') x) -> (forall a, traces (f a) Q []) -> traces (pbind p f) Q [].
Proof.
  intros HQ Hf. apply (traces_then _ _ (fun _ _ => True)).
  - clear. generalize (@nil (event L)). induction p; cbn; auto.
  - intros t a _. eapply traces_mono; [|apply Hf]. auto.
Qed.

Lemma wait_for_parked_traces r id ticks n :
  traces (wait_for_parked 0 r id GENERATION ticks n) (fun t res => res = Ok tt -> boot_parked (rec_slot r) t) [].
Proof.
  assert (HQ : forall t t' (res : outcome BootError unit),
    (res = Ok tt -> boot_parked (rec_slot r) t') -> res = Ok tt -> boot_parked (rec_slot r) (t ++ t'))
    by (intros t t' res H Hr; by apply boot_parked_after, H).
  unfold wait_for_parked, pbind_res at 1. apply traces_last; [apply HQ|]. intros [st| |]; [|done..].
  destruct (decide _); [done|]. destruct (_ || _); [done|].
  do 4 (apply traces_last; [apply HQ|]; intros ?).
  match goal with |- traces (if ?x then _ else _) _ _ => destruct x end; [done|].
  match goal with |- traces (match ?x with _ => _ end) _ _ => destruct x end; [|done..].
  unfold pbind_res. apply traces_last; [apply HQ|]. intros [st'| |]; [|done..]. destruct (decide _); [done|].
  apply verify_checkpoint_traces.
Qed.

Lemma wait_for_secondary_traces id deadline :
  traces (wait_for_secondary slot_address polls id deadline)
    (fun t r => Forall quiet t /\ (r = Ok tt -> seen_parked id t)) [].
Proof.
  unfold wait_for_secondary. eapply traces_try; [apply startup_traces| |by intros t e []|by intros t []].
  intros t1 view [Hq1 _]. destruct view as [view|]; [|cbn; rewrite app_nil_r; by split]. cbn [ok_or].
  change (traces _ _ []) with
    (traces (result <- on_boot (wait_for_parked 0 (mkRecord id view) id GENERATION (deadline_ticks deadline) polls) ;;
             _ <- relocate (fun l => BLoc (Slot id (Mail l))) (state GENERATION) ;; Ret result)
       (fun t' r => Forall quiet (t1 ++ t') /\ (r = Ok tt -> seen_parked id (t1 ++ t'))) []).
  eapply traces_then.
  - apply (traces_on_boot _ (fun _ => boot_parked id) (fun _ => seen_parked id)); [apply emits_wait| |intros _ t; apply boot_parked_relocated].
    eapply traces_mono; [|apply wait_for_parked_traces]. intros t res H [] Ha. by apply H.
  - intros t2 result [Hq2 H2]. eapply traces_then; [apply (traces_quietly _ (fun _ => True)), quietly_any; [done|apply emits_mailbox]|].
    intros t3 _ [Hq3 _]. cbn. rewrite app_nil_r. split; [by repeat apply Forall_app_2|].
    intros ->. apply seen_parked_app. right. apply seen_parked_app. left. by apply (H2 tt).
Qed.

(** The cells of the contract hold what they must after [released] was attempted. *)
Definition cells_hold (cpus : list CpuDescriptor) (released : Z) (tr : list sevent) : Prop :=
  forall contract cells, startup_contract = Some contract -> FixedList_iter (E:=BootError) (release_cells contract) = Ok cells ->
    Forall (fun cell => exists v, ELoad (RLoc (Cell (rstart cell))) v ∈ tr /\
                          verify_release_value cpus released (rstart cell) entry v = Ok tt) cells.

Lemma readback_cells_traces cpus released cells :
  traces (readback_cells entry cpus released cells) (fun t r => Forall quiet t /\ (r = Ok tt ->
    Forall (fun cell => exists v, ELoad (RLoc (Cell (rstart cell))) v ∈ t /\
              verify_release_value cpus released (rstart cell) entry v = Ok tt) cells)) [].
Proof.
  induction cells as [|cell cells IH]; cbn [readback_cells]; [by split; constructor|].
  eapply (traces_try _ _ (fun t r => Forall quiet t /\ forall v, r = Ok v -> ELoad (RLoc (Cell (rstart cell))) v ∈ t)).
  - unfold read_identity_cell, read_release_cell. cbn. intros par. destruct (negb _); cbn; [by split; [repeat constructor|]|].
    intros v. split; [by repeat constructor|]. intros v' [= <-]. set_solver.
  - intros t1 v [Hq1 Hv]. destruct (verify_release_value cpus released (rstart cell) entry v) as [[]| |] eqn:Ev;
      cbn; rewrite ?app_nil_r; [|by split..]. eapply traces_mono; [|exact IH]. intros t2 r [Hq2 H2].
    split; [by apply Forall_app|]. intros Hr. constructor.
    + exists v. split; [|done]. apply elem_of_app. left. by apply Hv.
    + eapply Forall_impl; [exact (H2 Hr)|]. intros c (w & Hw & Hok). exists w. split; [|done]. apply elem_of_app. by right.
  - intros t e [Hq _]. by split.
  - intros t [Hq _]. by split.
Qed.

Lemma verify_release_set_traces t released :
  topology = Some t ->
  traces (verify_release_set entry topology startup_contract released)
    (fun tr r => Forall quiet tr /\ (r = Ok tt -> cells_hold (cpus t) released tr)) [].
Proof.
  intros Ht. unfold verify_release_set. rewrite Ht. destruct startup_contract as [contract|] eqn:Ec; cbn; [|by split; [constructor|]].
  destruct (FixedList_iter _) as [cells| |] eqn:Ei; cbn; [|by split; [constructor|]..].
  eapply traces_mono; [|apply readback_cells_traces]. intros tr r [Hq H]. split; [done|].
  intros Hr contract' cells' Hcon Hc. rewrite Ec in Hcon. injection Hcon as <-. rewrite Ei in Hc. injection Hc as <-. by apply H.
Qed.

(** The accesses around one release.  [K] is what the wait after it saw. *)
Definition release_of (cpus : list CpuDescriptor) (line : Z) (id : nat) (K : list sevent -> Prop) (tr : list sevent) : Prop :=
  exists pre during post cell cpu time, tr = pre ++ (relocated (of_release id) <$> during) ++ post /\
    Forall quiet pre /\ Forall quiet post /\ K post /\
    owns_cell cpus id cell cpu /\ release_sequence GENERATION id cell entry line time during.

(** A release after which the CPU parked and the cells were right. *)
Definition completed (cpus : list CpuDescriptor) (line : Z) (id : nat) (tr : list sevent) : Prop :=
  release_of cpus line id (fun post => seen_parked id post /\
    exists released, ELoad (RLoc Attempted) released ∈ post /\ cells_hold cpus released post) tr.

Lemma release_traces cpus contract record line id :
  traces (failing Release (relocate (of_release id) (release_secondary retries cpus contract record entry line)))
    (fun t r => match r with
     | Ok _ => exists during time, t = relocated (of_release id) <$> during /\
                 release_post cpus contract record entry line during (Ok time)
     | _ => Forall quiet t
     end) [].
Proof.
  unfold failing. eapply traces_then; [apply traces_reloc, release_secondary_traces|].
  intros t r (during & -> & Hp). cbn. rewrite app_nil_r. destruct r as [time|e|]; cbn; [by exists during, time|..].
  all: apply Forall_fmap; eapply Forall_impl; [exact Hp|]; by intros [[]|[]|[]|[]|[]|].
Qed.

(** What is left after a failure: no release of this CPU, or a whole one. *)
Definition interrupted (cpus : list CpuDescriptor) (line : Z) (id : nat) (tr : list sevent) : Prop :=
  Forall quiet tr \/ release_of cpus line id (fun _ => True) tr.

Lemma release_one_traces t0 contract deadline line id :
  topology = Some t0 ->
  traces (release_one slot_address entry topology startup_contract retries polls (cpus t0) contract deadline line id)
    (fun t r => numbered t ->
      match r with Ok _ => completed (cpus t0) line id t | _ => interrupted (cpus t0) line id t end) [].
Proof.
  intros Ht0. unfold release_one.
  eapply (traces_then _ _ (fun t (_ : Z) => Forall quiet t)); [cbn; intros v; by repeat constructor|].
  intros t1 fatal Hq1. destruct (negb _); [cbn; intros _; left; by rewrite app_nil_r|].
  eapply traces_try; [apply startup_traces| |by intros t e [Hq _] _; left; apply Forall_app|by intros t [Hq _] _; left; apply Forall_app].
  intros t2 [view|] [Hq2 H2]; [|cbn; intros _; left; rewrite app_nil_r; by apply Forall_app]. destruct (H2 view eq_refl) as [Hg Hn].
  cbn [ok_or]. change (pbind_res (Ret (Ok view)) ?f) with (f view). cbv beta.
  eapply traces_try; [apply release_traces| |intros t e Hq _; left; by repeat apply Forall_app_2|intros t Hq _; left; by repeat apply Forall_app_2].
  intros t3 time0 (during & time & -> & cell & cpu & Hown & _ & _ & _ & _ & _ & Hseq).
  assert (Hrel : forall post (K : list sevent -> Prop), Forall quiet post -> K post ->
    numbered (t1 ++ t2 ++ (relocated (of_release id) <$> during) ++ post) ->
    release_of (cpus t0) line id K (t1 ++ t2 ++ (relocated (of_release id) <$> during) ++ post)).
  { intros post K Hpost HK Hnum. apply numbered_app in Hnum as [_ [Hnum _]%numbered_app]. rewrite (Hn Hnum), Nat2Z.id in Hown, Hseq.
    rewrite Hg in Hseq. exists (t1 ++ t2), during, post, cell, cpu, time. split; [by rewrite app_assoc|].
    split; [by apply Forall_app|done]. }
  eapply traces_try; [apply wait_for_secondary_traces| |..].
  - intros t4 [] [Hq4 H4]. change (pbind (load ?l) ?f) with (Load l f). cbn [traces]. intros released.
    rewrite <- (app_nil_r ([] ++ _)). eapply traces_shift; [|by apply verify_release_set_traces].
    intros t5 r [Hq5 H5] Hnum. cbn [app] in *.
    assert (Hq : Forall quiet (t4 ++ ELoad (RLoc Attempted) released :: t5)) by (apply Forall_app; split; [done|by constructor]).
    destruct r as [[]|e|]; [|right; by apply Hrel..].
    apply Hrel; [done| |done]. split; [apply seen_parked_app; left; by apply H4|]. exists released. split; [set_solver|].
    intros c cells Hc Hcells. eapply Forall_impl; [by apply (H5 eq_refl c)|]. intros x (v & Hv & Hok). exists v. split; [|done]. set_solver.
  - intros t e [Hq _] Hnum. right. by apply Hrel.
  - intros t [Hq _] Hnum. right. by apply Hrel.
Qed.

(** The CPUs of [finished] completed in this order; [rest] is what an error left. *)
Definition releases (cpus : list CpuDescriptor) (line : Z) (finished rest : list nat) (tr : list sevent) : Prop :=
  exists pre parts tail, tr = pre ++ concat parts ++ tail /\ Forall quiet pre /\
    Forall2 (completed cpus line) finished parts /\
    match rest with [] => Forall quiet tail | id :: _ => interrupted cpus line id tail end.

Lemma releases_quiet cpus line finished rest pre tr :
  Forall quiet pre -> releases cpus line finished rest tr -> releases cpus line finished rest (pre ++ tr).
Proof.
  intros Hq (pre' & parts & tail & -> & Hq' & Hp & Ht). exists (pre ++ pre'), parts, tail. split; [by rewrite <- app_assoc|].
  split; [by apply Forall_app|done].
Qed.

Lemma release_each_traces t0 contract deadline line ids :
  topology = Some t0 ->
  traces (release_each slot_address entry topology startup_contract retries polls (cpus t0) contract deadline line ids)
    (fun t r => numbered t -> exists finished rest, ids = finished ++ rest /\ releases (cpus t0) line finished rest t /\
      (r = Ok tt -> rest = [])) [].
Proof.
  intros Ht0. induction ids as [|id ids IH]; cbn [release_each].
  { intros _. exists [], []. split_and!; [done| |done]. exists [], [], []. split_and!; [done|constructor..]. }
  assert (Hbad : forall t (r : outcome BootError unit), r <> Ok tt -> interrupted (cpus t0) line id t ->
    exists finished rest, id :: ids = finished ++ rest /\ releases (cpus t0) line finished rest t /\ (r = Ok tt -> rest = [])).
  { intros t r Hr Hi. exists [], (id :: ids). split_and!; [done| |done]. exists [], [], t. split_and!; [done|constructor|constructor|done]. }
  eapply traces_try; [by apply release_one_traces| |..].
  - intros t1 [] H1. eapply traces_mono; [|exact IH]. intros t2 r H2 Hnum. apply numbered_app in Hnum as [Hn1 Hn2].
    destruct (H2 Hn2) as (finished & rest & -> & (pre & parts & tail & -> & Hq & Hp & Ht) & Hr).
    exists (id :: finished), rest. split_and!; [done| |done].
    assert (Hext : completed (cpus t0) line id (t1 ++ pre)).
    { destruct (H1 Hn1) as (p & during & post & cell & cpu & time & -> & Hqp & Hqpost & (Hpark & released & Hin & Hcells) & Hown & Hseq).
      exists p, during, (post ++ pre), cell, cpu, time. split; [by rewrite <- !app_assoc|]. split; [done|].
      split; [by apply Forall_app|]. split; [|done]. split; [apply seen_parked_app; by left|]. exists released.
      split; [apply elem_of_app; by left|]. intros c cells Hc Hi. eapply Forall_impl; [by apply (Hcells c)|].
      intros x (v & Hv & Hok). exists v. split; [apply elem_of_app; by left|done]. }
    exists [], ((t1 ++ pre) :: parts), tail. split; [cbn; by rewrite <- !app_assoc|]. split; [constructor|]. split; [by constructor|done].
  - intros t e H1 Hnum. apply Hbad; [done|by apply H1].
  - intros t H1 Hnum. apply Hbad; [done|by apply H1].
Qed.

Lemma emits_boot_status : emits quiet (on_boot boot_status).
Proof. apply emits_status. unfold boot_status. emits_go; done. Qed.

Lemma release_and_wait_traces t0 required contract deadline line frozen :
  topology = Some t0 ->
  traces (release_and_wait slot_address entry topology startup_contract retries polls required contract deadline line frozen)
    (fun t r => numbered t -> exists finished rest, required_ids required = finished ++ rest /\
      releases (cpus t0) line finished rest t /\ (r = Ok tt -> rest = [])) [].
Proof.
  intros Ht0. unfold release_and_wait.
  assert (Hnone : forall t (r : outcome BootError unit), r <> Ok tt -> Forall quiet t ->
    exists finished rest, required_ids required = finished ++ rest /\ releases (cpus t0) line finished rest t /\ (r = Ok tt -> rest = [])).
  { intros t r Hr Hq. exists [], (required_ids required). split_and!; [done| |done]. exists [], [], t. split_and!; [done|constructor|constructor|].
    destruct (required_ids required); [done|by left]. }
  eapply traces_try; [apply (traces_quietly _ (fun _ => True)), quietly_any; [done|apply emits_boot_status]| |..].
  - intros t1 st [Hq1 _]. destruct (_ || _); [cbn; rewrite app_nil_r; intros _; by apply Hnone|]. replace (ok_or topology InvalidCheckpoint) with (Ok (E:=BootError) t0) by (by rewrite Ht0).
    change (pbind_res (Ret (Ok t0)) ?f) with (f t0). cbv beta. eapply traces_mono; [|by apply release_each_traces].
    intros t2 r H2 Hnum. apply numbered_app in Hnum as [_ Hn2]. destruct (H2 Hn2) as (finished & rest & Hids & Hrel & Hr).
    exists finished, rest. split_and!; [done|by apply releases_quiet|done].
  - intros t e [Hq _] _. by apply Hnone.
  - intros t [Hq _] _. by apply Hnone.
Qed.

(** ** The final check *)

Lemma required_ids_elem required id : id ∈ required_ids required -> (1 <= id < MAX_CPUS)%nat /\ Z.testbit required (Z.of_nat id) = true.
Proof.
  unfold required_ids. pose proof (elem_of_seq 1 (MAX_CPUS - 1) id) as Hl. revert Hl.
  generalize (seq 1 (MAX_CPUS - 1)). intros l Hl Hid.
  rewrite list_elem_of_In, filter_In, <- list_elem_of_In in Hid. destruct Hid as [Hin Hr]. unfold is_required in Hr.
  rewrite land_single_bit in Hr by lia. split; [|done]. apply Hl in Hin. unfold MAX_CPUS in *. lia.
Qed.

Lemma verify_record_traces required view id seen :
  traces (on_boot (verify_records required GENERATION [(id, mkRecord id view)] seen))
    (fun t r => Forall quiet t /\ forall s, r = Ok s -> s = Z.lor seen (Z.shiftl 1 (Z.of_nat id)) /\ seen_parked id t) [].
Proof.
  apply (traces_on_boot _ (fun s t => s = Z.lor seen (Z.shiftl 1 (Z.of_nat id)) /\ boot_parked id t)
           (fun s t => s = Z.lor seen (Z.shiftl 1 (Z.of_nat id)) /\ seen_parked id t)).
  - apply emits_verify_records.
  - cbn [verify_records]. unfold pbind_res. eapply traces_then; [apply verify_checkpoint_traces|].
    intros t [[]| |] Ht; [|done..]. destruct (_ || _); cbn; [done|]. rewrite app_nil_r. intros s [= <-]. split; [done|by apply Ht].
  - intros s t [Hs Hp]. split; [done|by apply boot_parked_relocated].
Qed.

Lemma verify_each_traces required ids seen :
  traces (verify_each slot_address required ids seen)
    (fun t r => Forall quiet t /\ forall s, r = Ok s -> forall id : nat, Z.testbit s (Z.of_nat id) = true ->
      Z.testbit seen (Z.of_nat id) = true \/ seen_parked id t) [].
Proof.
  revert seen. induction ids as [|i ids IH]; intros seen; cbn [verify_each].
  { split; [constructor|]. intros s [= <-]. by left. }
  eapply traces_try; [apply startup_traces| |by intros t e []; split|by intros t []; split].
  intros t1 [view|] [Hq1 _].
  - eapply traces_try; [apply verify_record_traces| |..].
    + intros t2 seen' [Hq2 H2]. eapply traces_mono; [|apply IH]. intros t3 r [Hq3 H3].
      split; [by repeat apply Forall_app_2|]. intros s Hs id Hid. destruct (H2 _ eq_refl) as [-> Hp].
      destruct (H3 s Hs id Hid) as [Hb|Hb].
      * rewrite Z.lor_spec, Z.shiftl_1_l, Z.pow2_bits_eqb in Hb by lia. apply orb_true_iff in Hb as [Hb|Hb%Z.eqb_eq]; [by left|].
        right. apply Nat2Z.inj in Hb as <-. apply seen_parked_app. right. apply seen_parked_app. by left.
      * right. apply seen_parked_app. right. apply seen_parked_app. by right.
    + intros t e [Hq _]. by split; [apply Forall_app|].
    + intros t [Hq _]. by split; [apply Forall_app|].
  - eapply traces_mono; [|apply IH]. intros t2 r [Hq2 H2]. split; [by apply Forall_app|].
    intros s Hs id Hid. destruct (H2 s Hs id Hid) as [Hb|Hb]; [by left|]. right. apply seen_parked_app. by right.
Qed.

Lemma verify_all_started_traces required :
  traces (verify_all_started slot_address required)
    (fun t r => Forall quiet t /\ (r = Ok tt -> ELoad (RLoc Attempted) required ∈ t /\
      forall id, id ∈ required_ids required -> seen_parked id t)) [].
Proof.
  unfold verify_all_started. change (pbind (load ?l) ?f) with (Load l f). cbn [traces app]. intros attempted.
  destruct (Z.eqb_spec attempted required) as [->|]; cbn [negb]; [|by split; [repeat constructor|]].
  change (pbind input ?f) with (Input f). cbn [traces app]. intros fatal.
  rewrite <- (app_nil_r [_; _]).
  apply (traces_shift _ (fun t r => Forall quiet t /\ (r = Ok tt -> forall id, id ∈ required_ids required -> seen_parked id t))).
  { intros t r [Hq H]. split; [repeat constructor; done|]. intros Hr. split; [set_solver|]. intros id Hid.
    apply seen_parked_app. right. by apply H. }
  eapply traces_try; [apply (traces_quietly _ (fun _ => True)), quietly_any; [done|apply emits_boot_status]| |by intros t e []|by intros t []].
  intros t1 st [Hq1 _]. destruct (negb _); [cbn; rewrite app_nil_r; by split|].
  destruct (negb _); [cbn; rewrite app_nil_r; by split|]. destruct (_ || _); [cbn; rewrite app_nil_r; by split|].
  eapply traces_try; [apply verify_each_traces| |intros t e []; split; [by apply Forall_app|done]|intros t []; split; [by apply Forall_app|done]].
  intros t2 seen [Hq2 H2]. destruct (Z.eqb_spec seen required) as [->|]; cbn; rewrite app_nil_r; (split; [by apply Forall_app|]); [|done].
  intros _ id [_ Hid]%required_ids_elem. apply seen_parked_app. right.
  destruct (H2 _ eq_refl id Hid) as [Hb|Hb]; [by rewrite Z.bits_0 in Hb|done].
Qed.

(** ** The whole procedure *)

Lemma from_bounds_region start e r : u64 start -> u64 e -> PhysRegion_from_bounds start e = Ok r -> region_ok r.
Proof.
  intros Hs He. unfold PhysRegion_from_bounds. destruct (Z.ltb_spec e start); [done|].
  destruct (e =? start); [done|]. rewrite sub64_ok by lia. cbn [obind]. intros Hn.
  destruct (PhysRegion_new_ok start (e - start) r) as [_ Hok]; [apply Hs|lia|done|done].
Qed.

Lemma describe_cleanable policy identity page r :
  image_ok image -> describe policy identity page = Ok r -> cleanable r /\ entry_point r = entry.
Proof.
  unfold image_ok, describe_resources. intros Himg. rewrite !Forall_cons in Himg.
  destruct Himg as (H1 & H2 & H3 & H4 & H5 & H6 & H7 & H8 & H9 & H10 & _).
  destruct (PhysRegion_from_bounds (text_start image) (text_end image)) as [r1| |] eqn:E1; cbn [obind]; [|done..].
  destruct (PhysRegion_from_bounds (vectors_start image) (vectors_end image)) as [r2| |] eqn:E2; cbn [obind]; [|done..].
  destruct (PhysRegion_from_bounds (rodata_start image) (rodata_end image)) as [r3| |] eqn:E3; cbn [obind]; [|done..].
  destruct (PhysRegion_from_bounds (writable_start image) (writable_end image)) as [r4| |] eqn:E4; cbn [obind]; [|done..].
  destruct (PhysRegion_from_bounds (el2_stage1_tables_start image) _) as [r5| |] eqn:E5; cbn [obind]; [|done..].
  destruct (PhysRegion_new (slot_address 0) _) as [r6| |]; cbn [obind]; [|done..].
  destruct (PhysRegion_new config_address _) as [r7| |]; cbn [obind]; [|done..].
  destruct (PhysRegion_new (id_context identity) _) as [r8| |]; cbn [obind]; [|done..].
  destruct (checked_sub _ _) as [guard|] eqn:Eg; cbn [ok_or obind]; [|done].
  destruct (stack_layout guard) as [st| |] eqn:Est; cbn [Prelude.map_err obind]; [|done..]. intros [= <-].
  apply checked_sub_Some in Eg as [-> Hge]. apply stack_layout_Ok in Est as (_ & _ & Hb & Ht & Hlt). unfold cleanable. cbn.
  split; [|done]. split; [repeat apply Forall_cons_2; try apply Forall_nil_2; (eapply from_bounds_region; [| |eassumption]); assumption|].
  unfold u64. rewrite Hb, Ht. unfold PAGE_SIZE, STACK_SIZE, GUARD_SIZE in *; lia.
Qed.

Lemma described_cleanable policy required ids resources :
  image_ok image -> Forall2 (described policy required) ids resources -> Forall cleanable (omap id resources).
Proof.
  intros Himg. induction 1 as [|id o ids resources Ho _ IH]; [constructor|]. destruct o as [r|]; [|exact IH].
  destruct Ho as (_ & _ & identity & page & Hr & _). constructor; [by eapply describe_cleanable|exact IH].
Qed.

Notation line := (cache_line_size regs).
Notation begin_event := (ECasOk (BLoc BootState) (boot_status_u64 Preparing) (boot_status_u64 Releasing)).

(** All required CPUs were attempted and found parked once more. *)
Definition confirmed (required : Z) (tr : list sevent) : Prop :=
  ELoad (RLoc Attempted) required ∈ tr /\ forall id, id ∈ required_ids required -> seen_parked id tr.

(** How far the body of [start_all] came. *)
Inductive progress (policy : HostTranslation) (tr : list sevent) (r : outcome BootError unit) (h : HostSpace) : Prop :=
| Unreleased : Forall quiet tr -> r <> Ok tt -> progress policy tr r h
| Released t0 required resources prep during final finished rest :
    topology = Some t0 -> required_mask topology = Ok required -> required <> 0 ->
    Forall2 (described policy required) (seq 0 MAX_CPUS) resources -> frozen_with resources h ->
    tr = prep ++ begin_event :: during ++ final ->
    Forall quiet prep -> published (omap id resources) line prep ->
    required_ids required = finished ++ rest -> releases (cpus t0) line finished rest during ->
    Forall quiet final -> (r = Ok tt -> rest = [] /\ confirmed required final) ->
    progress policy tr r h.

Lemma progress_quiet policy pre tr r h : Forall quiet pre -> progress policy tr r h -> progress policy (pre ++ tr) r h.
Proof.
  intros Hq [Hq' Hr|t0 required resources prep during final finished rest Ht Hm Hz Hd Hf -> Hp Hpub Hids Hrel Hfin Hok].
  - apply Unreleased; [by apply Forall_app|done].
  - eapply (Released _ _ _ _ t0 required resources (pre ++ prep) during final finished rest); try done.
    + by rewrite <- app_assoc.
    + by apply Forall_app.
    + destruct Hpub as (u & -> & Hu). exists (pre ++ u). split; [by rewrite app_assoc|]. intros r' x Hr Hx.
      apply elem_of_app. right. by apply (Hu r').
Qed.

Definition progresses_to (policy : HostTranslation) (m : prog start_loc (outcome BootError unit * HostSpace)) : Prop :=
  traces m (fun t '(r, h') => numbered t -> progress policy t r h') [].

Lemma progresses_quietly {A} policy (m : bprog A) (f : A -> bprog unit) (P : A -> HostSpace -> Prop) h :
  quietly (m h) (fun '(r, h') => on_ok (fun a => P a h') r) ->
  (forall a h', P a h' -> progresses_to policy (f a h')) -> progresses_to policy (cbind m f h).
Proof.
  intros Hm Hf. eapply traces_then; [apply traces_quietly, Hm|]. intros t [[a|e|] h'] [Hq Ha].
  - eapply traces_mono; [|by apply Hf]. intros t' [r h''] Hp Hn. apply progress_quiet; [done|]. by apply Hp, (numbered_app t t').
  - cbn. rewrite app_nil_r. intros _. by apply Unreleased.
  - cbn. rewrite app_nil_r. intros _. by apply Unreleased.
Qed.

Lemma traces_running {A B} (p : sprog A) (f : A -> bprog B) (P : list sevent -> outcome BootError A -> Prop) Q h :
  traces p P [] ->
  (forall t a, P t (Ok a) -> traces (f a h) (fun t' x => Q (t ++ t') x) []) ->
  (forall t e, P t (Err e) -> Q t (Err e, h)) -> (forall t, P t Panic -> Q t (Panic, h)) ->
  traces (cbind (running p) f h) Q [].
Proof.
  intros Hp Hok Herr Hpanic. unfold cbind, running. apply traces_bind, traces_bind. eapply traces_mono; [|exact Hp].
  intros t [a|e|] Ha; cbn; [|auto..]. rewrite <- (app_nil_r t). eapply traces_shift; [|by apply (Hok t a)]. done.
Qed.

Lemma begin_release_traces :
  traces (on_boot begin_release) (fun t r => match r with Ok _ => t = [begin_event] | _ => Forall quiet t end) [].
Proof. cbn. split; [done|]. intros v Hv. by repeat constructor. Qed.

(** From the publication on. *)
Lemma release_progress policy t0 required resources contract deadline h :
  topology = Some t0 -> required_mask topology = Ok required -> required <> 0 ->
  Forall2 (described policy required) (seq 0 MAX_CPUS) resources -> Forall cleanable (omap id resources) ->
  frozen_with resources h ->
  progresses_to policy
    ((_ <~ running (publish_all_startups slot_address config_address topology resources contract line (startup_tables_frozen h)) ;;
      _ <~ running (on_boot begin_release) ;;
      _ <~ running (release_and_wait slot_address entry topology startup_contract retries polls required contract deadline line
                      (startup_tables_frozen h)) ;;
      running (verify_all_started slot_address required)) h).
Proof.
  intros Ht Hm Hz Hd Hc Hf. unfold progresses_to.
  eapply traces_running; [by apply publish_all_traces| |intros t e [Hq _] _; by apply Unreleased|intros t [Hq _] _; by apply Unreleased].
  intros t1 [] [Hq1 Hp1].
  eapply traces_running; [apply begin_release_traces| |intros t e Hq _; apply Unreleased; [by apply Forall_app|done]|
    intros t Hq _; apply Unreleased; [by apply Forall_app|done]].
  intros t2 [] ->.
  assert (Hrel : forall r during final, r = Ok tt /\ confirmed required final \/ r <> Ok tt -> Forall quiet final ->
    (exists finished rest, required_ids required = finished ++ rest /\ releases (cpus t0) line finished rest during /\
       (r = Ok tt -> rest = [])) -> progress policy (t1 ++ [begin_event] ++ during ++ final) r h).
  { intros r during final Hr Hfin (finished & rest & Hids & Hrel & Hrest).
    apply (Released _ _ _ _ t0 required resources t1 during final finished rest); auto. intros ->.
    split; [by apply Hrest|]. by destruct Hr as [[_ ?]|]. }
  eapply traces_running; [by apply release_and_wait_traces| |..].
  - intros t3 [] H3. unfold running. apply traces_bind. eapply traces_mono; [|apply verify_all_started_traces].
    intros t4 r [Hq4 H4]. cbn [traces]. intros Hn. apply numbered_app in Hn as [_ [_ [Hn _]%numbered_app]%numbered_app].
    apply Hrel; [|done|destruct (H3 Hn) as (finished & rest & ? & ? & Hr); exists finished, rest; auto].
    destruct r as [[]| |]; [left; split; [done|by apply H4]|by right..].
  - intros t3 e H3 Hn. apply numbered_app in Hn as [_ [_ Hn]%numbered_app]. rewrite <- (app_nil_r t3).
    apply Hrel; [by right|constructor|by apply H3].
  - intros t3 H3 Hn. apply numbered_app in Hn as [_ [_ Hn]%numbered_app]. rewrite <- (app_nil_r t3).
    apply Hrel; [by right|constructor|by apply H3].
Qed.

Notation body := (start_body image slot_address config_address entry topology startup_contract memory_map regs retries polls reads).

Lemma start_body_progress fdt policy h : image_ok image -> progresses_to policy (body fdt policy h).
Proof.
  intros Himg. unfold start_body.
  eapply progresses_quietly; [apply quietly_running, validate_platform_ok|]. intros [contract deadline] h1 [_ ->].
  eapply progresses_quietly; [apply (quietly_running _ (fun m => required_mask topology = Ok m)); by apply quietly_result|].
  intros required h2 [Hm ->]. destruct (Z.eqb_spec required 0) as [|Hz]; [intros _; by apply Unreleased; [constructor|]|].
  eapply (progresses_quietly _ _ _ (fun rs _ => Forall2 (described policy required) (seq 0 MAX_CPUS) rs)); [apply prepare_all_ok|].
  intros resources h3 Hd. eapply (progresses_quietly _ _ _ (fun _ h' => frozen_with resources h')); [apply validate_and_freeze_ok|].
  intros [] h4 Hf. change (progresses_to policy (cbind (fun h => Ret (Ok ?a, h)) ?f h4)) with (progresses_to policy (f (startup_tables_frozen h4) h4)).
  cbv beta. unfold required_mask in Hm. destruct topology as [t0|] eqn:Et; [|congruence]. rewrite <- Et.
  apply (release_progress policy t0); [done|by rewrite Et|done|done|by eapply described_cleanable|done].
Qed.

Notation start := (start_all image slot_address config_address entry topology startup_contract memory_map regs retries polls reads).

(** Only the status is touched, and never set to [BootReady]. *)
Definition gives_up (e : sevent) : Prop :=
  match e with
  | ELoad (BLoc BootState) _ | ECasFail (BLoc BootState) _ _ => True
  | ECasOk (BLoc BootState) _ n => n <> boot_status_u64 BootReady
  | _ => False
  end.

(** What [finalize_boot] records. *)
Definition recorded (r0 r : outcome BootError unit) (tr : list sevent) : Prop :=
  match r with
  | Ok _ => r0 = Ok tt /\
      tr = [ELoad (BLoc BootState) (boot_status_u64 Releasing);
            ECasOk (BLoc BootState) (boot_status_u64 Releasing) (boot_status_u64 BootReady)]
  | _ => Forall gives_up tr
  end.

Lemma finalize_boot_traces r0 :
  r0 <> Panic -> traces (on_boot (finalize_boot r0)) (fun t r => recorded r0 r t) [].
Proof.
  intros Hr0. unfold finalize_boot, boot_status. cbn. intros v.
  destruct (boot_status_of v) as [old| |] eqn:Ev; cbn; [|by repeat constructor..].
  assert (Hv : v = boot_status_u64 old) by (unfold boot_status_of in Ev; repeat case_match; by simplify_eq).
  subst v. destruct (final_status old r0) as [next|] eqn:Ef; cbn; [|by repeat constructor].
  split; [|intros w Hw; by repeat constructor].
  destruct (decide (next = BootReady)) as [->|Hn].
  - unfold final_status in Ef. destruct old; simplify_eq. by destruct r0 as [[]|[]|]; simplify_eq.
  - assert (Hg : Forall gives_up [ELoad (BLoc BootState) (boot_status_u64 old); ECasOk (BLoc BootState) (boot_status_u64 old) (boot_status_u64 next)]).
    { repeat constructor. cbn. by destruct next. }
    destruct r0 as [[]| |]; cbn; [done|done|by destruct Hr0].
Qed.

(** The accesses of a call of [start_all] and its result. *)
Definition start_outcome (policy : HostTranslation) (h : HostSpace) (tr : list sevent) (r : outcome BootError unit)
    (h' : HostSpace) : Prop :=
  (exists v, tr = [ECasFail (BLoc BootState) (boot_status_u64 Idle) v] /\ r = Err AlreadyAttempted /\ h' = h) \/
  exists body final r0,
    tr = ECasOk (BLoc BootState) (boot_status_u64 Idle) (boot_status_u64 Preparing) :: body ++ final /\
    progress policy body r0 h' /\ recorded r0 r final.

(** C5 [collective_start_ordered]: whatever the other CPUs do, short of
    renumbering the slots that [prepare] numbered, a call of [start_all] that
    is not the first one only finds that out.  The first one writes no firmware
    cell and rings no doorbell unless, in this order, every CPU to be started
    has been described, the host's tables have been frozen with all of these
    resources validated, every cache line of the image, of the tables and of
    every stack has been cleaned, a barrier issued and the status moved to
    releasing.  It then releases the CPUs one after another: each by the exact
    sequence of accesses of a release, through the cell that belongs to this
    CPU alone, and the next one only after this one was found parked without
    failures and every cell read back with its expected value.  The status
    becomes ready, and the call succeeds, only after all of them were found
    parked once more. *)
Theorem collective_start_ordered fdt policy h tr r h' :
  image_ok image -> numbered tr -> steps (start fdt policy h) tr (Ret (r, h')) -> start_outcome policy h tr r h'.
Proof.
  intros Himg Hn Hs. revert Hn.
  refine (traces_steps (start fdt policy h) (fun tr '(r, h') => numbered tr -> start_outcome policy h tr r h') [] tr (r, h') _ Hs).
  unfold start_all. cbn [on_boot begin_boot_once cas_or compare_exchange relocate pbind traces app].
  split; [|intros v Hv _; left; by exists v].
  change (traces (pbind ?p ?f) ?Q ?acc) with (traces (pbind p f) Q (acc ++ [])).
  eapply (traces_shift _ (fun t '(r, h') => numbered t -> exists body final r0, t = body ++ final /\ progress policy body r0 h' /\ recorded r0 r final)).
  { intros t [r1 h1] Ht Hn. apply (numbered_app [_]) in Hn as [_ Hn]. right.
    destruct (Ht Hn) as (body & final & r0 & -> & Hp & Hrec). by exists body, final, r0. }
  eapply traces_then; [by apply start_body_progress|]. intros t1 [r0 h1] H1.
  assert (Hfin : r0 <> Panic -> traces (x <- on_boot (finalize_boot r0) ;; Ret (x, h1)) (fun t' '(r, h') => numbered (t1 ++ t') ->
    exists body final r0, t1 ++ t' = body ++ final /\ progress policy body r0 h' /\ recorded r0 r final) []).
  { intros Hr0. apply traces_bind. eapply traces_mono; [|by apply finalize_boot_traces]. intros t2 r2 H2. cbn. intros Hn.
    exists t1, t2, r0. split_and!; [done| |done]. by apply H1, (numbered_app t1 t2). }
  destruct r0 as [[]|e|]; [by apply Hfin..|]. cbn. intros Hn. exists t1, [], Panic. split_and!; [done| |constructor].
  rewrite app_nil_r in Hn. by apply H1.
Qed.

End Facts.

(** ** A concrete start *)

(** The board of [CpuStartup] with the tables of [HostSpace]: three prepared
    slots and the stacks of the two secondary CPUs mapped. *)
Definition start_slot (id : nat) : Z := 0x40103000 + Z.of_nat id * SLOT_SIZE.
Definition start_stack (id : nat) : Z := 0x40121000 + Z.of_nat id * 0x40000.

Definition start_host : HostSpace :=
  snd (with_tables (let! _ := map_identity (start_stack 1) (start_stack 1 + STACK_SIZE) true false in
                    map_identity (start_stack 2) (start_stack 2 + STACK_SIZE) true false) host_setup).

Definition start_memory : memory start_loc := fun l =>
  match l with
  | BLoc (Slot id l) =>
      if (id <? 3)%nat then
        match l with
        | SlotClaimed | Mail StateCell | Ctx Present => 1
        | Ctx LogicalId | Ctx Affinity => Z.of_nat id
        | Ctx StackBottom => start_stack id
        | Ctx StackTop => start_stack id + STACK_SIZE
        | _ => 0
        end
      else 0
  | _ => 0
  end.

Definition start_policy : HostTranslation := mkTranslation 0x40000000 (policy_tcr 2).

Definition start_registers : BootRegisters :=
  mkBootRegisters 0x410fd083 0x80000000 (start_slot 0) (start_stack 0 + 0x8000) (mair (config_of start_policy))
    (tcr (config_of start_policy)) 0x40000000 (sctlr (config_of start_policy)) 54000000 0xa0000.

Definition start_contract : option StartupMemoryContract :=
  match discover_startup_memory board_tree board_topology with Ok k => Some k | _ => None end.

Definition start_board : bprog unit :=
  start_all sample_image start_slot 0x40103800 0x40100010 (Some board_topology) start_contract (Some board_map)
    start_registers 2 2 2 board_tree start_policy.

(** A released CPU parks at once. *)
Definition parks (e : sevent) : list (start_loc * Z) :=
  match e with
  | EStore (RLoc (Cell 0xe0)) _ => [(BLoc (Slot 1 (Mail StateCell)), cpu_state_u64 Parked)]
  | EStore (RLoc (Cell 0xe8)) _ => [(BLoc (Slot 2 (Mail StateCell)), cpu_state_u64 Parked)]
  | _ => []
  end.

Definition parking (e : sevent) (s : memory start_loc) : memory start_loc := fold_left (fun s '(l, v) => upd s l v) (parks e) s.

(** The counter twice; for each CPU the translations of its image, its tables,
    its stack and its release cell; then no fatal error and no time passing. *)
Definition start_inputs : list Z :=
  let cpu id := page_steps 0x40100000 0x40104000 ++ page_steps 0x40000000 0x40010000 ++
                page_steps (start_stack id) (start_stack id + STACK_SIZE) ++ [0] in
  [100; 101] ++ cpu 1%nat ++ cpu 2%nat ++ replicate 40 0.

Definition numbered_b (tr : list sevent) : bool :=
  forallb (fun e => match e with ELoad (BLoc (Slot id (Ctx LogicalId))) v => v =? Z.of_nat id | _ => true end) tr.

Lemma numbered_b_spec tr : numbered_b tr = true -> numbered tr.
Proof. intros H id v Hin. apply list_elem_of_In in Hin. by apply Z.eqb_eq, (proj1 (forallb_forall _ _) H _ Hin). Qed.

Definition stored_b (c v : Z) (tr : list sevent) : bool :=
  existsb (fun e => match e with EStore (RLoc (Cell a)) w => (a =? c) && (w =? v) | _ => false end) tr.

Lemma stored_b_spec c v tr : stored_b c v tr = true -> EStore (RLoc (Cell c)) v ∈ tr.
Proof.
  intros (e & Hin & He)%existsb_exists. destruct e as [|[| |[]] w| | | |]; try done.
  apply andb_true_iff in He as [->%Z.eqb_eq ->%Z.eqb_eq]. by apply list_elem_of_In.
Qed.

Lemma start_board_runs :
  match play parking (start_board start_host) start_memory start_inputs with
  | Some (tr, (Ok _, _)) => numbered_b tr && stored_b 0xe0 0x40100010 tr && stored_b 0xe8 0x40100010 tr
  | _ => false
  end = true.
Proof. vm_compute. reflexivity. Qed.

(** Both secondary CPUs are started. *)
Lemma collective_start_ordered_witness :
  exists tr h', steps (start_board start_host) tr (Ret (Ok tt, h')) /\
    start_outcome sample_image start_slot 0x40103800 0x40100010 (Some board_topology) start_contract start_registers
      start_policy start_host tr (Ok tt) h' /\
    EStore (RLoc (Cell 0xe0)) 0x40100010 ∈ tr /\ EStore (RLoc (Cell 0xe8)) 0x40100010 ∈ tr.
Proof.
  pose proof start_board_runs as Hrun. destruct (play _ _ _ _) as [[tr [[[]| |] h']]|] eqn:E; [|discriminate Hrun..].
  apply andb_true_iff in Hrun as [[Hn%numbered_b_spec H1%stored_b_spec]%andb_true_iff H2%stored_b_spec].
  assert (Hi : image_ok sample_image) by (repeat constructor; vm_compute; done).
  pose proof (play_steps _ _ _ _ _ _ E) as Hs. exists tr, h'. split; [exact Hs|].
  split; [exact (collective_start_ordered sample_image start_slot 0x40103800 0x40100010 (Some board_topology) start_contract
            (Some board_map) start_registers 2 2 2 board_tree start_policy start_host tr (Ok tt) h' Hi Hn Hs)|].
  split; assumption.
Defined.
