(* ===== verification/CpuPreparation.v ===== *)
(** * Preparation of the CPUs: src/src/smp.rs, src/src/pcpu.rs

    Before any other CPU runs, the boot CPU discovers the topology, checks the
    release cells, prepares its own slot, allocates and maps the stacks of the
    secondary CPUs, clears them and prepares their slots.  Nothing runs beside
    it, so the handlers are state transformers over everything they touch: the
    page allocator, the host's tables, memory, the slots, the one-time claims
    and what has been published.  [cpus_prepared] shows that what they leave
    is what [StartAll] starts from. *)

From S2P Require Import Prelude Page SystemInfo MemoryMap PageAllocator El2Stage1 Atomics SecondaryMailbox El2Policy Pcpu.
From S2P Require Import Mm Vmctl HostMap StartupResources HostSpace SecondaryEntry DeviceTree Topology CpuStartup StartAll.

Record boot_state := mkBootState {
  bs_mm : GlobalPageAllocator;
  bs_host : HostSpace;
  bs_mem : Z -> Z;
  bs_slots : nat -> memory slot_loc;
  bs_boot_claimed : bool;
  bs_secondary_claimed : bool;
  bs_topology : option CpuTopology;
  bs_contract : option StartupMemoryContract
}.

(** The texts are only displayed. *)
Inductive SecondaryPrepareError :=
| AllocatorFailed (e : AllocatorError)
| MappingFailed (e : PrepareError)
| StateFailed.

Inductive DiscoveryError :=
| MissingMpidr
| PcpuFailed
| TopologyFailed (e : CpuDiscoveryError)
| ContractFailed (e : StartupContractError).

Section Prepare.
(** The size of the bitmaps, the image with the end of its boot stack, and the
    addresses of the slots. *)
Context (B : nat) (image : Image) (boot_stack_top : Z) (slot_address : nat -> Z).
(** The boot CPU's registers, and the hardware's translation of an address. *)
Context (tpidr mpidr sp : Z) (par : Z -> Z).

(** ** Slots *)

(** A call on one slot; nothing interferes. *)
Definition call_slot {A} (id : nat) (p : prog slot_loc (outcome SlotError A)) : stateful boot_state SlotError A := fun s =>
  match exec p (bs_slots s id) [] with
  | Some (r, m) =>
      (r, mkBootState (bs_mm s) (bs_host s) (bs_mem s) (fun i => if (i =? id)%nat then m else bs_slots s i)
            (bs_boot_claimed s) (bs_secondary_claimed s) (bs_topology s) (bs_contract s))
  | None => (Panic, s)
  end.

(** [map_err] on the result, whatever the state. *)
Definition replacing {E F A} (e : F) (op : stateful boot_state E A) : stateful boot_state F A := fun s =>
  let '(r, s') := op s in (Prelude.map_err (fun _ => e) r, s').

Definition prepare_slot (id : nat) (affinity : Z) (stack : StackLayout) : stateful boot_state SlotError unit :=
  if (MAX_CPUS <=? id)%nat then sfail InvalidPreparation else call_slot id (prepare id affinity stack).

Definition assert_idle {E} : stateful boot_state E unit := fun s =>
  match call_slot 0 (assert_boot_cpu_idle (slot_address 0) tpidr mpidr sp) s with
  | (Ok _, s') => (Ok tt, s')
  | (_, s') => (Panic, s')
  end.

Definition prepare_boot_cpu (topology : CpuTopology) : stateful boot_state SlotError unit := fun s =>
  if bs_boot_claimed s then (Err AlreadyPrepared, s)
  else
    (let! stack := slift (boot_stack image) in
     if negb (bool_decide (checked_sub boot_stack_top (guard_start stack) = Some STACK_ALLOCATION_SIZE))
     then sfail InvalidPreparation
     else
       let! boot := slift (ok_or (List.find (fun cpu => cpu_enabled cpu && bool_decide (cpu_logical_id cpu = Some 0%nat))
                                    (cpus topology)) InvalidPreparation) in
       prepare_slot 0 (cpu_affinity boot) stack)
    (mkBootState (bs_mm s) (bs_host s) (bs_mem s) (bs_slots s) true (bs_secondary_claimed s) (bs_topology s) (bs_contract s)).

(** ** Discovery *)

(** [read_release_cell]; the cell is one word. *)
Definition read_release_cell (mem : Z -> Z) (address : Z) : outcome StartupContractError Z :=
  if negb (par_identity (par address) address) then Err ReleaseCellNotIdentityMapped else Ok (mem address).

(** [TOPOLOGY.call_once(..)], [STARTUP_CONTRACT.call_once(..)] *)
Definition publish_discovery (topology : CpuTopology) (contract : StartupMemoryContract) (s : boot_state) : boot_state :=
  mkBootState (bs_mm s) (bs_host s) (bs_mem s) (bs_slots s) (bs_boot_claimed s) (bs_secondary_claimed s)
    (Some (match bs_topology s with Some t => t | None => topology end))
    (Some (match bs_contract s with Some c => c | None => contract end)).

(** [register] is MPIDR, if it can be read. *)
Definition discover (fdt : Fdt) (register : option Z) : stateful boot_state DiscoveryError unit :=
  let! mpidr := slift (ok_or register MissingMpidr) in
  let! topology := slift (Prelude.map_err TopologyFailed (discover_cpu_topology fdt mpidr)) in
  let! contract := slift (Prelude.map_err ContractFailed (discover_startup_memory fdt topology)) in
  let! _ := stry (fun s => Prelude.map_err ContractFailed (verify_release_cells contract (read_release_cell (bs_mem s)))) in
  let! _ := replacing PcpuFailed (prepare_boot_cpu topology) in
  supdate (fun s => Ok (publish_discovery topology contract s)).

(** ** The secondary CPUs *)

(** src/src/mm.rs *)
Definition mm_allocate_secondary_stacks (topology : CpuTopology) :
    stateful boot_state SecondaryPrepareError (FixedList SecondaryStack) := fun s =>
  let '(r, g) := with_allocator B (allocate_secondary_stacks B (cpus topology)) (bs_mm s) in
  (Prelude.map_err AllocatorFailed r,
   mkBootState g (bs_host s) (bs_mem s) (bs_slots s) (bs_boot_claimed s) (bs_secondary_claimed s) (bs_topology s) (bs_contract s)).

Definition mm_map_usable_ram (memory_map : MemoryMap) (live_dtb linux_image : PhysRegion)
    (stacks : FixedList SecondaryStack) : stateful boot_state SecondaryPrepareError unit := fun s =>
  let '(r, h) := map_usable_ram image memory_map live_dtb linux_image stacks (bs_host s) in
  (Prelude.map_err MappingFailed r,
   mkBootState (bs_mm s) h (bs_mem s) (bs_slots s) (bs_boot_claimed s) (bs_secondary_claimed s) (bs_topology s) (bs_contract s)).

Fixpoint clear_stacks (stacks : list SecondaryStack) : stateful boot_state SecondaryPrepareError unit :=
  match stacks with
  | [] => sret tt
  | st :: rest =>
      let! n := slift (sub64 (top (ss_layout st)) (bottom (ss_layout st))) in
      let! _ := supdate (fun s =>
        Ok (mkBootState (bs_mm s) (bs_host s) (write_zeroes (bs_mem s) (bottom (ss_layout st)) n) (bs_slots s)
              (bs_boot_claimed s) (bs_secondary_claimed s) (bs_topology s) (bs_contract s))) in
      clear_stacks rest
  end.

Fixpoint prepare_slots (stacks : list SecondaryStack) : stateful boot_state SecondaryPrepareError unit :=
  match stacks with
  | [] => sret tt
  | st :: rest =>
      let! _ := replacing StateFailed (prepare_slot (ss_logical_id st) (ss_affinity st) (ss_layout st)) in
      prepare_slots rest
  end.

(** The assertions of [report_prepared]; [is_prepared] decides what is printed. *)
Fixpoint report_slots (ids : list nat) : stateful boot_state SecondaryPrepareError unit :=
  match ids with
  | [] => sret tt
  | id :: rest =>
      let! active := sread (fun s => bs_slots s id (Ctx ActiveVcpu)) in
      if negb (active =? 0) then slift Panic
      else let! _ := replacing StateFailed (call_slot id is_prepared) in report_slots rest
  end.

Definition report_prepared : stateful boot_state SecondaryPrepareError unit :=
  let! _ := assert_idle in report_slots (seq 0 MAX_CPUS).

Definition prepare_secondary_cpus (memory_map : MemoryMap) (live_dtb linux_image : PhysRegion) :
    stateful boot_state SecondaryPrepareError unit :=
  let! _ := assert_idle in
  let! claimed := sread bs_secondary_claimed in
  let! _ := supdate (fun s => Ok (mkBootState (bs_mm s) (bs_host s) (bs_mem s) (bs_slots s) (bs_boot_claimed s) true
                                    (bs_topology s) (bs_contract s))) in
  if (claimed : bool) then sfail StateFailed
  else
    let! found := sread bs_topology in
    let! topology := slift (ok_or found StateFailed) in
    let! fl := mm_allocate_secondary_stacks topology in
    let! _ := mm_map_usable_ram memory_map live_dtb linux_image fl in
    let! stacks := slift (FixedList_iter fl) in
    let! _ := clear_stacks stacks in
    let! _ := prepare_slots stacks in
    report_prepared.

End Prepare.

(** ** Specification *)

(** A slot prepared for CPU [id] and not yet published. *)
Record slot_ready (m : memory slot_loc) (id : nat) (affinity : Z) (st : StackLayout) : Prop := {
  sr_state : m (Mail StateCell) = cpu_state_u64 Prepared;
  sr_unpublished : m (Mail Ready) = 0;
  sr_id : m (Ctx LogicalId) = Z.of_nat id;
  sr_affinity : m (Ctx Affinity) = affinity;
  sr_bottom : m (Ctx StackBottom) = bottom st;
  sr_top : m (Ctx StackTop) = top st;
  sr_present : m (Ctx Present) = 1;
  sr_idle : m (Ctx HostSp) = 0 /\ m (Ctx ActiveVcpu) = 0;
  sr_layout : stack_layout (guard_start st) = Ok st
}.

(** The fields the preparation of CPUs keeps apart from the claims. *)
Record same_cpus (s s' : boot_state) : Prop := {
  sc_slots id : bs_slots s' id = bs_slots s id;
  sc_topology : bs_topology s' = bs_topology s;
  sc_contract : bs_contract s' = bs_contract s
}.

(** The identity the slot's [identity] returns. *)
Definition identity_of (slot_address : nat -> Z) (s : boot_state) (id : nat) : option CpuIdentity :=
  match exec (identity (slot_address id)) (bs_slots s id) [] with Some (Ok i, _) => i | _ => None end.

Lemma sbind_Ok {S E A C} (m : stateful S E A) (k : A -> stateful S E C) s c s' :
  sbind m k s = (Ok c, s') -> exists a s1, m s = (Ok a, s1) /\ k a s1 = (Ok c, s').
Proof. unfold sbind. destruct (m s) as [[a| |] s1]; [|done..]. intros H. by exists a, s1. Qed.

Lemma prepare_ready id affinity st m m' :
  m (Mail Ready) = 0 -> exec (prepare id affinity st) m [] = Some (Ok tt, m') ->
  (id < MAX_CPUS)%nat /\ slot_ready m' id affinity st.
Proof.
  intros Hr. unfold prepare. destruct (invalid_preparation id affinity st) eqn:Ei; [done|].
  unfold invalid_preparation in Ei. rewrite !orb_false_iff in Ei. destruct Ei as [[[Hid%Nat.leb_gt _] _] Hl].
  destruct (stack_layout (guard_start st)) as [l| |] eqn:El; [|done..]. apply negb_false_iff, bool_decide_eq_true in Hl as ->.
  cbn. destruct (negb _); [done|]. cbn. unfold upd at 1. cbn. destruct (_ =? 0) in |- *; [|done]. intros [= <-].
  split; [done|]. split; [..|done]; cbn; rewrite ?upd_eq; try done.
Qed.

Section Prepared.
Context (B : nat) (image : Image) (boot_stack_top : Z) (slot_address : nat -> Z) (tpidr mpidr sp : Z) (par : Z -> Z).

Notation idle := (assert_idle slot_address tpidr mpidr sp).

(** A call that only reads leaves the slots alone. *)
Lemma exec_reads {A} (p : prog slot_loc A) m a m' :
  emits (fun e => match e with ELoad _ _ => True | _ => False end) p -> exec p m [] = Some (a, m') -> m' = m.
Proof.
  revert m. induction p as [x|l k IH|l v k IH|l v k IH|l o n k IH|k IH]; cbn; intros m He E; [congruence| |tauto| | |done].
  - by eapply IH; [apply He|].
  - by destruct (He 0).
  - destruct He as [_ He]. by destruct (He 0).
Qed.

Lemma call_slot_reads {A} id (p : prog slot_loc (outcome SlotError A)) s r s' :
  emits (fun e => match e with ELoad _ _ => True | _ => False end) p -> call_slot id p s = (r, s') ->
  same_cpus s s' /\ bs_mm s' = bs_mm s /\ bs_host s' = bs_host s /\ bs_mem s' = bs_mem s.
Proof.
  intros He. unfold call_slot. destruct (exec p _ _) as [[r1 m]|] eqn:E; intros [= <- <-]; [|by split_and!; [split|..]].
  apply exec_reads in E as ->; [|done]. split_and!; [|done..]. split; [|done..]. cbn. intros i. by destruct (Nat.eqb_spec i id) as [->|].
Qed.

Lemma idle_same {E} s r s' : idle s = (r, s') ->
  same_cpus s s' /\ bs_mm s' = bs_mm s /\ bs_host s' = bs_host s /\ bs_mem s' = bs_mem s /\ (r = Ok tt \/ r = Panic (E:=E)).
Proof.
  unfold assert_idle. destruct (call_slot _ _ s) as [r1 s1] eqn:Ec. apply call_slot_reads in Ec as (Hs & Hm & Hh & Hmem).
  - destruct r1; intros [= <- <-]; split_and!; auto.
  - unfold assert_boot_cpu_idle. emits_go; done.
Qed.

Lemma prepare_slot_ready id affinity st s s' :
  bs_slots s id (Mail Ready) = 0 -> prepare_slot id affinity st s = (Ok tt, s') ->
  (id < MAX_CPUS)%nat /\ slot_ready (bs_slots s' id) id affinity st /\
  (forall i, i <> id -> bs_slots s' i = bs_slots s i) /\
  bs_mm s' = bs_mm s /\ bs_host s' = bs_host s /\ bs_mem s' = bs_mem s /\ bs_topology s' = bs_topology s /\ bs_contract s' = bs_contract s.
Proof.
  intros Hr. unfold prepare_slot. destruct (MAX_CPUS <=? id)%nat; [done|]. unfold call_slot.
  destruct (exec _ _ _) as [[r m]|] eqn:E; [|done]. intros [= -> <-]. apply prepare_ready in E as [Hid Hm]; [|done].
  cbn. rewrite Nat.eqb_refl. split_and!; try done. intros i Hi. by rewrite (proj2 (Nat.eqb_neq _ _) Hi).
Qed.

(** ** Discovery *)

Lemma discover_prepared fdt register s s' :
  bs_topology s = None -> bs_contract s = None -> bs_slots s 0%nat (Mail Ready) = 0 ->
  discover image boot_stack_top par fdt register s = (Ok tt, s') ->
  exists value t k boot st, register = Some value /\ discover_cpu_topology fdt value = Ok t /\ discover_startup_memory fdt t = Ok k /\
    verify_release_cells k (read_release_cell par (bs_mem s)) = Ok () /\
    bs_topology s' = Some t /\ bs_contract s' = Some k /\ boot ∈ cpus t /\ cpu_enabled boot = true /\ cpu_logical_id boot = Some 0%nat /\
    boot_stack (E:=SlotError) image = Ok st /\ slot_ready (bs_slots s' 0%nat) 0 (cpu_affinity boot) st /\
    forall id, id <> 0%nat -> bs_slots s' id = bs_slots s id.
Proof.
  intros Ht Hc Hr. unfold discover. intros (value & s1 & E1 & H)%sbind_Ok. destruct register as [v|]; [|done]. injection E1 as <- <-.
  apply sbind_Ok in H as (t & s1 & E1 & H). injection E1 as E1 <-.
  destruct (discover_cpu_topology fdt v) as [t'| |] eqn:Et; cbn in E1; [|done..]. injection E1 as <-.
  apply sbind_Ok in H as (k & s1 & E1 & H). injection E1 as E1 <-.
  destruct (discover_startup_memory fdt t') as [k'| |] eqn:Ek; cbn in E1; [|done..]. injection E1 as <-.
  apply sbind_Ok in H as ([] & s1 & E1 & H). injection E1 as E1 <-.
  destruct (verify_release_cells k' _) as [[]| |] eqn:Ev; cbn in E1; [|done..].
  apply sbind_Ok in H as ([] & s2 & E2 & H). unfold replacing in E2.
  destruct (prepare_boot_cpu image boot_stack_top t' s) as [r2 s2'] eqn:Eb. injection E2 as E2 <-.
  destruct r2 as [[]| |]; cbn in E2; [|done..]. unfold supdate in H. injection H as <-.
  unfold prepare_boot_cpu in Eb. destruct (bs_boot_claimed s); [done|].
  apply sbind_Ok in Eb as (st & s3 & E3 & H). injection E3 as E3 <-. destruct (negb _); [done|].
  apply sbind_Ok in H as (boot & s3 & E4 & H). injection E4 as E4 <-.
  destruct (List.find _ _) as [c|] eqn:Ef; cbn in E4; [|done]. injection E4 as ->.
  apply find_some in Ef as [Hin Hb]. apply andb_true_iff in Hb as [He Hi%bool_decide_eq_true].
  apply prepare_slot_ready in H as (_ & Hready & Hother & Hmm & Hh & Hmem & Htop & Hcon); [|done]. cbn in *.
  exists v, t', k', boot, st. rewrite Htop, Hcon, Ht, Hc. split_and!; try done. by apply list_elem_of_In.
Qed.

(** ** The secondary CPUs *)

(** A successful [map_usable_ram] has validated every stack. *)
Lemma validate_each_Ok tables stacks :
  validate_each tables stacks = Ok tt -> Forall (fun st => validate_stack tables (ss_layout st) = Ok tt) stacks.
Proof.
  induction stacks as [|st stacks IH]; cbn [validate_each]; [constructor|].
  destruct (validate_stack _ _) as [[]| |] eqn:E; cbn [obind]; [|done..]. constructor; [done|by apply IH].
Qed.

Lemma map_usable_ram_validates map dtb linux fl stacks h h' :
  FixedList_iter (E:=PrepareError) fl = Ok stacks -> map_usable_ram image map dtb linux fl h = (Ok tt, h') ->
  exists tables, h_tables h' = Some tables /\
    Forall (fun st => validate_stack (bt_tables tables) (ss_layout st) = Ok tt) stacks.
Proof.
  intros Hi. unfold map_usable_ram. intros (l & h1 & E1 & H)%sbind_Ok. injection E1 as E1 <-. rewrite Hi in E1. injection E1 as <-.
  apply sbind_Ok in H as (ex & h1 & E1 & H). injection E1 as _ <-. apply sbind_Ok in H as (n & h1 & E1 & H). injection H as <-.
  unfold with_tables in E1. destruct (h_tables h) as [tb|]; [|done]. unfold edit in E1. destruct (bt_frozen tb); [congruence|].
  destruct (sbind _ _ (bt_tables tb)) as [r ts] eqn:E2. injection E1 as -> <-. eexists. split; [reflexivity|].
  apply sbind_Ok in E2 as (? & t1 & _ & H). apply sbind_Ok in H as (? & t2 & _ & H). apply sbind_Ok in H as (boot & t3 & _ & H).
  apply sbind_Ok in H as (? & t4 & _ & H). apply sbind_Ok in H as ([] & t5 & E5 & H). injection H as _ <-. cbn [bt_tables].
  unfold in_prepare, stry in E5. injection E5 as E5 <-. apply validate_each_Ok.
  destruct (validate_each t4 stacks) as [[]| |]; done.
Qed.

Lemma clear_stacks_effect stacks s s' :
  clear_stacks stacks s = (Ok tt, s') ->
  same_cpus s s' /\ bs_mm s' = bs_mm s /\ bs_host s' = bs_host s /\
  (forall a, bs_mem s a = 0 -> bs_mem s' a = 0) /\
  Forall (fun st => forall a, bottom (ss_layout st) <= a < top (ss_layout st) -> bs_mem s' a = 0) stacks.
Proof.
  revert s. induction stacks as [|st stacks IH]; intros s; cbn [clear_stacks]; [intros [= <-]; split_and!; try done; by constructor|].
  intros (n & s1 & E1 & H)%sbind_Ok. injection E1 as E1 <-. unfold sub64 in E1.
  destruct (checked_sub _ _) as [n'|] eqn:Ec; cbn in E1; [|done]. injection E1 as ->. apply checked_sub_Some in Ec as [-> Hle].
  apply sbind_Ok in H as ([] & s1 & E1 & H). injection E1 as <-. apply IH in H as ([Hs Ht Hc] & Hm & Hh & Hz & Hf). cbn in *.
  assert (Hzero : forall a, bottom (ss_layout st) <= a < top (ss_layout st) \/ bs_mem s a = 0 -> bs_mem s' a = 0).
  { intros a Ha. apply Hz. unfold write_zeroes. case_match eqn:E; [done|]. destruct Ha as [Ha|]; [|done].
    rewrite (proj2 (Z.leb_le _ _)), (proj2 (Z.ltb_lt _ _)) in E by lia. done. }
  split_and!; [by split|done|done|auto|constructor; auto].
Qed.

Lemma prepare_slots_effect stacks s s' :
  NoDup (ss_logical_id <$> stacks) -> (forall id, id ∈ ss_logical_id <$> stacks -> bs_slots s id (Mail Ready) = 0) ->
  prepare_slots stacks s = (Ok tt, s') ->
  bs_mm s' = bs_mm s /\ bs_host s' = bs_host s /\ bs_mem s' = bs_mem s /\ bs_topology s' = bs_topology s /\ bs_contract s' = bs_contract s /\
  (forall id, id ∉ ss_logical_id <$> stacks -> bs_slots s' id = bs_slots s id) /\
  Forall (fun st => slot_ready (bs_slots s' (ss_logical_id st)) (ss_logical_id st) (ss_affinity st) (ss_layout st)) stacks.
Proof.
  revert s. induction stacks as [|st stacks IH]; intros s Hnd Hr; cbn [prepare_slots].
  { intros [= <-]. split_and!; try done; by constructor. }
  cbn in Hnd. apply NoDup_cons in Hnd as [Hni Hnd]. intros ([] & s1 & E1 & H)%sbind_Ok. unfold replacing in E1.
  destruct (prepare_slot _ _ _ s) as [r1 s1'] eqn:E2. injection E1 as E1 <-. destruct r1 as [[]| |]; cbn in E1; [|done..].
  apply prepare_slot_ready in E2 as (Hid & Hready & Hother & Hm & Hh & Hmem & Ht & Hc); [|apply Hr; by left].
  apply IH in H as (Hm' & Hh' & Hmem' & Ht' & Hc' & Hother' & Hf); [|done|].
  - split_and!; try congruence.
    + cbn. intros id Hn. rewrite Hother', Hother by set_solver. done.
    + constructor; [|done]. by rewrite Hother'.
  - intros id Hin. rewrite Hother by (intros ->; done). apply Hr. cbn. by right.
Qed.

Lemma report_prepared_same s r s' :
  report_prepared slot_address tpidr mpidr sp s = (r, s') ->
  same_cpus s s' /\ bs_mm s' = bs_mm s /\ bs_host s' = bs_host s /\ bs_mem s' = bs_mem s.
Proof.
  assert (Hslots : forall ids s r s', report_slots ids s = (r, s') ->
    same_cpus s s' /\ bs_mm s' = bs_mm s /\ bs_host s' = bs_host s /\ bs_mem s' = bs_mem s).
  { induction ids as [|id ids IH]; intros s0 r0 s0'; cbn [report_slots]; [intros [= <- <-]; by split_and!; [split|..]|].
    unfold sbind at 1, sread. destruct (negb _); [intros [= <- <-]; by split_and!; [split|..]|].
    unfold sbind, replacing. destruct (call_slot id is_prepared s0) as [r1 s1] eqn:E1.
    apply call_slot_reads in E1 as ([Hs Ht Hc] & Hm & Hh & Hmem); [|unfold is_prepared, lifecycle; emits_go; done].
    destruct r1; cbn; [intros ([Hs' Ht' Hc'] & ? & ? & ?)%IH|intros [= <- <-]..]; split_and!; try congruence; split; congruence. }
  unfold report_prepared, sbind. destruct (idle s) as [r1 s1] eqn:E1.
  apply idle_same in E1 as ([Hs Ht Hc] & Hm & Hh & Hmem & [->| ->]); [intros ([Hs' Ht' Hc'] & ? & ? & ?)%Hslots|intros [= <- <-]];
    split_and!; try congruence; split; congruence.
Qed.

(** What a successful preparation of the secondary CPUs did. *)
Record secondaries_prepared (t : CpuTopology) (s s' : boot_state) (sts : list SecondaryStack) (tables : TableSet) : Prop := {
  sp_stacks : Forall2 stack_for (List.filter needs_stack (cpus t)) sts;
  sp_pages : taken B (view (bs_mm s)) (view (bs_mm s')) (all_pages sts);
  sp_tables : exists tb, h_tables (bs_host s') = Some tb /\ bt_tables tb = tables;
  sp_valid : Forall (fun st => validate_stack tables (ss_layout st) = Ok tt) sts;
  sp_zero : Forall (fun st => forall a, bottom (ss_layout st) <= a < top (ss_layout st) -> bs_mem s' a = 0) sts;
  sp_ready : Forall (fun st => slot_ready (bs_slots s' (ss_logical_id st)) (ss_logical_id st) (ss_affinity st) (ss_layout st)) sts;
  sp_other id : id ∉ ss_logical_id <$> sts -> bs_slots s' id = bs_slots s id;
  sp_topology : bs_topology s' = bs_topology s /\ bs_contract s' = bs_contract s
}.

(** The ids of the stacks are distinct and not 0. *)
Lemma stack_ids cpus sts :
  topology_ok cpus -> Forall2 stack_for (List.filter needs_stack cpus) sts ->
  NoDup (ss_logical_id <$> sts) /\
  forall id, id ∈ ss_logical_id <$> sts <-> id <> 0%nat /\ starts cpus id.
Proof.
  intros Ht Hf. assert (Hmap : Some <$> (ss_logical_id <$> sts) = cpu_logical_id <$> List.filter needs_stack cpus).
  { clear Ht. induction Hf as [|c st cs sts' (Hl & _) _ IH]; [done|]. cbn. rewrite Hl. by f_equal. }
  assert (Hin : forall id, id ∈ ss_logical_id <$> sts <-> id <> 0%nat /\ starts cpus id).
  { intros id. rewrite <- (list_elem_of_fmap_inj Some), Hmap, list_elem_of_fmap. unfold starts. split.
    - intros (c & Hid & Hc%list_elem_of_In%filter_In). destruct Hc as [Hc Hn]. unfold needs_stack in Hn.
      apply andb_true_iff in Hn as [He Hz%negb_true_iff%bool_decide_eq_false]. apply list_elem_of_In in Hc.
      split; [congruence|eauto].
    - intros (Hne & c & Hc & He & Hl). exists c. split; [done|]. apply list_elem_of_In, filter_In.
      split; [by apply list_elem_of_In|]. unfold needs_stack. rewrite He, Hl. cbn.
      apply negb_true_iff, bool_decide_eq_false. congruence. }
  split; [|done]. apply (NoDup_fmap_1 Some). rewrite Hmap. clear Hf Hmap Hin sts.
  rename Ht into Ht0. assert (Hd : forall j k c d, cpus !! j = Some c -> cpus !! k = Some d -> cpu_enabled c = true ->
    cpu_enabled d = true -> cpu_logical_id c = cpu_logical_id d -> (j < k)%nat -> False).
  { intros j k c d Hj Hk Hc Hd Hlc Hlt. destruct (Ht0 k d Hk Hd) as (i & Hi & _ & _ & Hbefore & _).
    apply (Hbefore j c Hlt Hj Hc). congruence. }
  clear Ht0. induction cpus as [|c cpus IH]; cbn; [constructor|].
  assert (Hrest : NoDup (cpu_logical_id <$> List.filter needs_stack cpus)).
  { apply IH. intros j k x y Hj Hk. intros. by apply (Hd (S j) (S k) x y); auto; lia. }
  destruct (needs_stack c) eqn:En; [|done]. apply NoDup_cons. split; [|done].
  intros (d & Hcd & Hind%list_elem_of_In%filter_In)%list_elem_of_fmap. destruct Hind as [Hind Hn].
  apply list_elem_of_In, list_elem_of_lookup in Hind as [k Hk]. unfold needs_stack in En, Hn.
  apply andb_true_iff in En as [He _], Hn as [He' _]. apply (Hd 0%nat (S k) c d); auto; lia.
Qed.

Lemma secondaries_prepared_ok map dtb linux t s s' :
  (0 < B)%nat -> aperture_end B < 2 ^ 64 -> global_ok B (bs_mm s) -> bs_topology s = Some t ->
  topology_ok (cpus t) -> (length (cpus t) <= MAX_CPUS)%nat -> (forall id, id <> 0%nat -> bs_slots s id (Mail Ready) = 0) ->
  prepare_secondary_cpus B image slot_address tpidr mpidr sp map dtb linux s = (Ok tt, s') ->
  exists sts tables, secondaries_prepared t s s' sts tables.
Proof.
  intros HB0 HB Hg Ht Htop Hlen Hr. unfold prepare_secondary_cpus. intros ([] & s1 & E1 & H)%sbind_Ok.
  apply idle_same in E1 as ([Hs1 Ht1 Hc1] & Hm1 & Hh1 & Hmem1 & _). apply sbind_Ok in H as (claimed & s1' & E & H).
  injection E as <- <-. apply sbind_Ok in H as ([] & s2 & E & H). injection E as <-. destruct (bs_secondary_claimed s1); [done|].
  apply sbind_Ok in H as (found & ? & E & H). injection E as <- <-. cbn [bs_topology] in H. rewrite Ht1, Ht in H.
  apply sbind_Ok in H as (? & ? & E & H). injection E as <- <-.
  apply sbind_Ok in H as (fl & s3 & E3 & H). unfold mm_allocate_secondary_stacks in E3. cbn in E3.
  rewrite (with_allocator_ok B HB0) in E3 by by rewrite Hm1.
  pose proof (allocate_secondary_stacks_effect B HB (view (bs_mm s1)) (cpus t)) as Ha. rewrite Hm1 in Ha, E3.
  destruct (allocate_secondary_stacks B (cpus t) (view (bs_mm s))) as [[fl'| |] al]; cbn in E3; [|done..].
  destruct Ha as (sts & Hrep & Hst & Htk); [apply Hg|done|]. injection E3 as -> <-.
  apply sbind_Ok in H as ([] & s4 & E4 & H). unfold mm_map_usable_ram in E4. cbn [bs_host] in E4.
  destruct (map_usable_ram image map dtb linux fl (bs_host s1)) as [r4 h4] eqn:Em. injection E4 as E4 <-.
  destruct r4 as [[]| |]; cbn in E4; [|done..].
  destruct (map_usable_ram_validates _ _ _ _ sts _ _ (iter_refines _ _ _ Hrep) Em) as (tb & Htb & Hval).
  apply sbind_Ok in H as (l & ? & E & H). injection E as E <-. rewrite (iter_refines _ _ _ Hrep) in E. injection E as <-.
  apply sbind_Ok in H as ([] & s5 & E5 & H). apply clear_stacks_effect in E5 as ([Hs5 Ht5 Hc5] & Hm5 & Hh5 & _ & Hz5).
  cbn in Hs5, Ht5, Hc5, Hm5, Hh5. apply sbind_Ok in H as ([] & s6 & E6 & H).
  destruct (stack_ids _ _ Htop Hst) as [Hnd Hids].
  apply prepare_slots_effect in E6 as (Hm6 & Hh6 & Hmem6 & Ht6 & Hc6 & Hother & Hready); [|done|].
  2: { intros id Hin. rewrite Hs5, Hs1. apply Hr. by apply Hids. }
  apply report_prepared_same in H as ([Hs7 Ht7 Hc7] & Hm7 & Hh7 & Hmem7).
  exists sts, (bt_tables tb). split; [done|..].
  - rewrite Hm7, Hm6, Hm5. destruct (global_ok_update B (bs_mm s) al Hg) as [_ Hv];
      [apply Htk|apply (tk_managed _ _ _ _ Htk)|apply (tk_ram _ _ _ _ Htk)|]. by rewrite Hv.
  - exists tb. rewrite Hh7, Hh6, Hh5. done.
  - done.
  - by rewrite Hmem7, Hmem6.
  - eapply Forall_impl; [exact Hready|]. intros st. by rewrite Hs7.
  - intros id Hid. by rewrite Hs7, Hother, Hs5, Hs1.
  - split; congruence.
Qed.

Lemma ready_identity s id affinity st :
  slot_ready (bs_slots s id) id affinity st ->
  identity_of slot_address s id = Some (mkIdentity (Z.of_nat id) affinity (bottom st) (top st) (slot_address id)).
Proof. intros []. unfold identity_of, identity, is_prepared, lifecycle. cbn. rewrite sr_state0. cbn. rewrite bool_decide_false by done. cbn.
  by rewrite sr_id0, sr_affinity0, sr_bottom0, sr_top0.
Qed.

Lemma unprepared_identity s id : bs_slots s id (Mail StateCell) = 0 -> identity_of slot_address s id = None.
Proof. intros H. unfold identity_of, identity, is_prepared, lifecycle. cbn. by rewrite H. Qed.

(** The slot of every enabled CPU, the boot CPU's first. *)
Lemma every_slot t s s' sts tables boot st0 c id :
  secondaries_prepared t s s' sts tables -> topology_ok (cpus t) ->
  boot ∈ cpus t -> cpu_enabled boot = true -> cpu_logical_id boot = Some 0%nat -> slot_ready (bs_slots s 0%nat) 0 (cpu_affinity boot) st0 ->
  c ∈ cpus t -> cpu_enabled c = true -> cpu_logical_id c = Some id ->
  exists st, slot_ready (bs_slots s' id) id (cpu_affinity c) st /\
    if (id =? 0)%nat then st = st0 else mkSecondaryStack id (cpu_affinity c) st ∈ sts.
Proof.
  intros Hp Htop Hb Hbe Hbl Hb0 Hc He Hl. destruct (stack_ids _ _ Htop (sp_stacks _ _ _ _ _ Hp)) as [_ Hids].
  destruct (Nat.eqb_spec id 0) as [->|Hne].
  - exists st0. split; [|done]. assert (c = boot) as ->.
    { apply list_elem_of_lookup in Hc as [j Hj], Hb as [k Hk]. destruct (Nat.lt_trichotomy j k) as [Hlt|[->|Hlt]]; [|congruence|].
      - destruct (Htop k boot Hk Hbe) as (i & Hi & _ & _ & Hbefore & _). exfalso. apply (Hbefore j c Hlt Hj He). congruence.
      - destruct (Htop j c Hj He) as (i & Hi & _ & _ & Hbefore & _). exfalso. apply (Hbefore k boot Hlt Hk Hbe). congruence. }
    rewrite (sp_other _ _ _ _ _ Hp); [done|]. by intros [? _]%Hids.
  - pose proof (sp_stacks _ _ _ _ _ Hp) as Hf. assert (Hcin : c ∈ List.filter needs_stack (cpus t)).
    { apply list_elem_of_In, filter_In. split; [by apply list_elem_of_In|]. unfold needs_stack. rewrite He, Hl. cbn.
      apply negb_true_iff, bool_decide_eq_false. congruence. }
    apply list_elem_of_lookup in Hcin as [j Hj]. destruct (Forall2_lookup_l _ _ _ _ _ Hf Hj) as ([i a l] & Hst & Hli & Ha & _).
    cbn in Hli, Ha. assert (i = id) as -> by congruence. subst a. exists l. split; [|by eapply list_elem_of_lookup_2].
    apply (Forall_lookup_1 _ _ _ _ (sp_ready _ _ _ _ _ Hp) Hst).
Qed.

(** A CPU is routed to its own slot. *)
Lemma routed t s c id value :
  topology_ok (cpus t) ->
  (forall d i, d ∈ cpus t -> cpu_enabled d = true -> cpu_logical_id d = Some i -> exists st, slot_ready (bs_slots s i) i (cpu_affinity d) st) ->
  (forall i, ~ starts (cpus t) i -> bs_slots s i (Mail StateCell) = 0) ->
  c ∈ cpus t -> cpu_enabled c = true -> cpu_logical_id c = Some id -> Z.land value MPIDR_AFFINITY_MASK = cpu_affinity c ->
  find_slot_by_affinity (identity_of slot_address s <$> seq 0 MAX_CPUS) value = Some id.
Proof.
  intros Htop Hready Hoff Hc He Hl Hv. apply find_slot_by_affinity_unique. rewrite Hv. split; [by rewrite length_fmap, length_seq|].
  assert (Hat : forall i d, (identity_of slot_address s <$> seq 0 MAX_CPUS) !! i = Some (Some d) ->
    exists o, o ∈ cpus t /\ cpu_enabled o = true /\ cpu_logical_id o = Some i /\ id_affinity d = cpu_affinity o).
  { intros i d Hi. apply list_lookup_fmap_Some in Hi as (i' & Hd & [-> _]%lookup_seq). cbn in Hd.
    destruct (identity_of slot_address s i) as [d'|] eqn:Ed; [|done]. injection Hd as ->.
    assert (Hs : starts (cpus t) i).
    { destruct (decide (Exists (fun o => cpu_enabled o = true /\ cpu_logical_id o = Some i) (cpus t))) as [Hex|Hn].
      - apply Exists_exists in Hex as (o & ? & ? & ?). by exists o.
      - rewrite unprepared_identity in Ed; [done|]. apply Hoff. intros (o & ? & ? & ?). apply Hn, Exists_exists. eauto. }
    destruct Hs as (o & Ho & Hoe & Hol). exists o. split_and!; try done.
    destruct (Hready o i Ho Hoe Hol) as [st Hst]. apply ready_identity in Hst. rewrite Hst in Ed. by injection Ed as <-. }
  split.
  - destruct (Hready c id Hc He Hl) as [st Hst]. apply ready_identity in Hst. eexists. split; [|shelve].
    rewrite list_lookup_fmap, lookup_seq_lt by (apply (topology_ids (cpus t)); [done|by exists c]). cbn. by rewrite Hst.
    Unshelve. done.
  - intros j (d & Hd & Ha). destruct (Hat j d Hd) as (o & Ho & Hoe & Hol & Hoa).
    apply list_elem_of_lookup in Hc as [k Hk], Ho as [k' Hk']. destruct (decide (k' = k)) as [->|Hne]; [congruence|].
    destruct (Htop k c Hk He) as (i & _ & _ & _ & _ & Haff). exfalso. apply (Haff k' o Hne Hk' Hoe). congruence.
Qed.

(** C12 [cpus_prepared]: after a discovery and a preparation that succeed, whatever
    ran in between left the slots alone, every enabled CPU of the discovered
    topology has its slot prepared, not yet published, under its logical id and
    affinity, and the affinity fields of its MPIDR route it to that slot and no
    other.  The stack of each secondary CPU is on pages that were free, in no
    two stacks and in use afterwards; it is mapped to itself as data, its guard
    is unmapped, and it is zero.  Slots of no enabled CPU stay offline. *)
Theorem cpus_prepared fdt register map dtb linux s s1 s1' s2 :
  (0 < B)%nat -> aperture_end B < 2 ^ 64 -> (forall id l, bs_slots s id l = 0) -> bs_topology s = None -> bs_contract s = None ->
  discover image boot_stack_top par fdt register s = (Ok tt, s1) -> same_cpus s1 s1' -> global_ok B (bs_mm s1') ->
  prepare_secondary_cpus B image slot_address tpidr mpidr sp map dtb linux s1' = (Ok tt, s2) ->
  exists value t sts tb, register = Some value /\ discover_cpu_topology fdt value = Ok t /\ bs_topology s2 = Some t /\
    (forall c id, c ∈ cpus t -> cpu_enabled c = true -> cpu_logical_id c = Some id ->
       exists st, slot_ready (bs_slots s2 id) id (cpu_affinity c) st /\
         (if (id =? 0)%nat then boot_stack (E:=SlotError) image = Ok st else mkSecondaryStack id (cpu_affinity c) st ∈ sts) /\
         forall m, Z.land m MPIDR_AFFINITY_MASK = cpu_affinity c ->
           find_slot_by_affinity (identity_of slot_address s2 <$> seq 0 MAX_CPUS) m = Some id) /\
    (forall id, ~ starts (cpus t) id -> bs_slots s2 id (Mail StateCell) = cpu_state_u64 Offline) /\
    taken B (view (bs_mm s1')) (view (bs_mm s2)) (all_pages sts) /\ h_tables (bs_host s2) = Some tb /\
    Forall (fun st => (forall va, guard_start (ss_layout st) <= va < bottom (ss_layout st) -> walk (bt_tables tb) va = Ok None) /\
                      forall va, bottom (ss_layout st) <= va < top (ss_layout st) ->
                        id_at (bt_tables tb) true false va /\ bs_mem s2 va = 0) sts.
Proof.
  intros HB0 HB Hz Ht Hc Hd [Hs1 Ht1 Hc1] Hg Hp.
  destruct (discover_prepared _ _ _ _ Ht Hc (Hz _ _) Hd) as (value & t & k & boot & st0 & -> & Et & _ & _ & Hst & _ & Hb & Hbe & Hbl & Hbs & Hb0 & Hother).
  destruct (discover_cpu_topology_inv _ _ _ Et) as (_ & _ & found & _ & _ & _ & _ & Hfo & _ & Hperm & _ & Htop).
  assert (Hlen : (length (cpus t) <= MAX_CPUS)%nat) by (rewrite <- (length_fmap unnumbered), Hperm; apply Hfo).
  rewrite <- Ht1 in Hst. destruct (secondaries_prepared_ok map dtb linux t s1' s2 HB0 HB Hg Hst Htop Hlen) as (sts & ts & Hsp); [|done|].
  { intros id Hid. by rewrite Hs1, Hother. }
  destruct (stack_ids _ _ Htop (sp_stacks _ _ _ _ _ Hsp)) as [_ Hids]. destruct (sp_tables _ _ _ _ _ Hsp) as (tb & Htb & <-).
  rewrite <- Hs1 in Hb0.
  assert (Hoff : forall id, ~ starts (cpus t) id -> bs_slots s2 id (Mail StateCell) = 0).
  { intros id Hn. rewrite (sp_other _ _ _ _ _ Hsp) by by intros [_ ?]%Hids. rewrite Hs1, Hother, Hz; [done|].
    intros ->. apply Hn. by exists boot. }
  assert (Hslot : forall c id, c ∈ cpus t -> cpu_enabled c = true -> cpu_logical_id c = Some id -> exists st,
    slot_ready (bs_slots s2 id) id (cpu_affinity c) st /\
    if (id =? 0)%nat then st = st0 else mkSecondaryStack id (cpu_affinity c) st ∈ sts)
    by (intros c id; by apply (every_slot t s1' s2 sts (bt_tables tb) boot st0)).
  exists value, t, sts, tb. split_and!; try done; [by rewrite (proj1 (sp_topology _ _ _ _ _ Hsp))| |apply Hsp|].
  - intros c id Hcin He Hl. destruct (Hslot c id Hcin He Hl) as (st & Hst' & Hin). exists st. split_and!; [done| |].
    + destruct (id =? 0)%nat; [by subst|done].
    + intros m Hm. apply (routed t s2 c id); try done. intros d i Hd' Hde Hdl. destruct (Hslot d i Hd' Hde Hdl) as (? & ? & _). eauto.
  - apply Forall_forall. intros st Hin. pose proof (proj1 (Forall_forall _ _) (sp_valid _ _ _ _ _ Hsp) st Hin) as Hval.
    pose proof (proj1 (Forall_forall _ _) (sp_zero _ _ _ _ _ Hsp) st Hin) as Hzero.
    pose proof (proj1 (Forall_forall _ _) (sp_ready _ _ _ _ _ Hsp) st Hin) as [_ _ _ _ _ _ _ _ Hlay].
    assert (0 <= guard_start (ss_layout st)).
    { apply list_elem_of_lookup in Hin as [j Hj]. destruct (Forall2_lookup_r _ _ _ _ _ (sp_stacks _ _ _ _ _ Hsp) Hj) as (? & _ & _ & _ & p & Hw).
      destruct (stack_layout_Ok _ _ Hw) as (_ & -> & _). unfold page_addr, PAGE_SIZE. lia. }
    destruct (validate_stack_sound (bt_tables tb) (ss_layout st) _ ltac:(done) Hlay Hval) as [Hgd Hpg].
    split; [done|]. intros va Hva. split; auto.
Qed.
End Prepared.

(** ** Concrete instance *)

(** Sixty-four pages of RAM, all free. *)
Definition low_map : MemoryMap :=
  match (let? m := insert_ram MemoryMap_empty (mkRegion 0 0x40000) in finalize m) with Ok m => m | _ => MemoryMap_empty end.

Definition low_pages : GlobalPageAllocator :=
  mkGlobal (managed free_allocator) (in_use free_allocator) (ram_pages free_allocator) true.

Lemma low_pages_ok : global_ok 8 low_pages.
Proof. split; [done|apply free_allocator_ok|vm_compute; done..]. Qed.

Definition low_slot (id : nat) : Z := 0x40103000 + 512 * Z.of_nat id.

Definition powered_on : boot_state :=
  mkBootState low_pages host_setup (fun _ => 0) (fun _ _ => 0) false false None None.

#[local] Notation discovered := (discover sample_image 0x40131000 (fun a => a) board_tree (Some 0x80000000) powered_on).

#[local] Notation prepared :=
  (prepare_secondary_cpus 8 sample_image low_slot (low_slot 0) 0x80000000 0x40130000 low_map
    (mkRegion 0x40140000 0x1000) (mkRegion 0x40160000 0x1000) (snd discovered)).

Lemma discovered_ok : fst discovered = Ok tt.
Proof. vm_compute. reflexivity. Qed.

Lemma prepared_ok : fst prepared = Ok tt.
Proof. vm_compute. reflexivity. Qed.

(** CPU 2 of the board is routed to its slot. *)
Lemma cpus_prepared_witness :
  exists st, slot_ready (bs_slots (snd prepared) 2%nat) 2 2 st /\
    find_slot_by_affinity (identity_of low_slot (snd prepared) <$> seq 0 MAX_CPUS) 0x80000002 = Some 2%nat.
Proof.
  assert (E1 : discovered = (Ok tt, snd discovered)) by (rewrite (surjective_pairing discovered) at 1; by rewrite discovered_ok).
  assert (E2 : prepared = (Ok tt, snd prepared)) by (rewrite (surjective_pairing prepared) at 1; by rewrite prepared_ok).
  assert (Hg : global_ok 8 (bs_mm (snd discovered))).
  { replace (bs_mm (snd discovered)) with low_pages by (vm_compute; reflexivity). apply low_pages_ok. }
  destruct (cpus_prepared 8 sample_image 0x40131000 low_slot (low_slot 0) 0x80000000 0x40130000 (fun a => a) board_tree
    (Some 0x80000000) low_map (mkRegion 0x40140000 0x1000) (mkRegion 0x40160000 0x1000) powered_on (snd discovered)
    (snd discovered) (snd prepared) ltac:(lia) ltac:(done) ltac:(done) ltac:(done) ltac:(done) E1 ltac:(by split) Hg E2)
    as (value & t & sts & tb & [= <-] & Et & _ & Hslots & _).
  assert (Ec : cpus t !! 2%nat = Some (mkCpu 2 true (Some 2%nat) (cpu_startup (default (mkCpu 0 true None Missing) (cpus t !! 2%nat))))).
  { replace t with board_topology by (unfold board_topology; by rewrite Et). vm_compute. reflexivity. }
  destruct (Hslots _ 2%nat (list_elem_of_lookup_2 _ _ _ Ec) ltac:(done) ltac:(done)) as (st & Hst & _ & Hroute).
  exists st. split; [exact Hst|]. by apply Hroute.
Defined.
