(* ===== verification/SecondaryMain.v ===== *)
(** * A secondary CPU's way in: src/src/secondary.rs, src/tvisor_util/secondary_validation.rs

    A released CPU arrives in [__secondary_entry] without a stack.  The
    assembly checks the state the firmware left, scans the slot array for its
    own affinity, checks everything it is about to install, installs its
    stack, context, vectors, host controls and translation regime, and calls
    [secondary_main].  That claims the entry, reads its registers back,
    validates them against the published record, publishes what it saw and
    parks or fails.  Both are programs over the slots, the shared
    configuration and the checkpoint words; a rejected CPU waits for ever. *)

From S2P Require Import Prelude Page Atomics SecondaryMailbox El2Policy Pcpu StartupResources.

(** ** Checkpoints: src/tvisor_util/secondary_startup.rs *)

Inductive check_field :=
| CurrentEl | CAffinity | CSp | CTpidr | CVbar | CkMair | CkTcr | CkRoot | CkSctlr | CDaif | CHcr | CCptr | CHstr
| CVttbr | CCntvoff | CCnthctl | CCnthpCtl | CCntpCtl | CCntvCtl | CSpsel
| EntrySctlr | EntryMidr | EntryCpuectlr | EntryMpidr | FailureBits.

#[global] Instance check_field_eq_dec : EqDecision check_field.
Proof. solve_decision. Defined.

Inductive sec_loc :=
| SSlot (i : nat) (l : slot_loc)
| SConfig (l : config_loc)
| SCheck (i : nat) (f : check_field).

#[global] Instance sec_loc_eq_dec : EqDecision sec_loc.
Proof. solve_decision. Defined.

(** ** Validation *)

Record LocalState := mkLocal {
  current_el : Z; l_affinity : Z; sp : Z; tpidr : Z; vbar : Z; l_mair : Z; l_tcr : Z; l_root : Z; l_sctlr : Z; daif : Z;
  hcr : Z; cptr : Z; hstr : Z; vttbr : Z; cntvoff : Z; cnthctl : Z; cnthp_ctl : Z; cntp_ctl : Z; cntv_ctl : Z; spsel : Z
}.

Record EntryState := mkEntry { e_sctlr : Z; e_midr : Z; e_cpuectlr : Z; e_mpidr : Z }.

(** The array of [validate], in order; [ready] is the first check's read. *)
Definition checks (r : StartupView) (s : LocalState) (e : EntryState) (vectors : Z) (context_valid map_published ready : bool) :
    list bool :=
  let i := view_identity r in
  let c := view_config r in
  [ negb (view_generation r =? 0) && ready;
    current_el s =? 8;
    Z.land (l_affinity s) MPIDR_AFFINITY_MASK =? id_affinity i;
    (id_stack_bottom i <=? sp s) && (sp s <? id_stack_top i) && (Z.land (sp s) 15 =? 0);
    tpidr s =? id_context i;
    context_valid;
    (vbar s =? vectors) && negb (vectors =? 0) && (Z.land vectors 2047 =? 0);
    (l_mair s =? mair c) && (l_mair s =? HOST_MAIR);
    (l_tcr s =? tcr c) && match HostTranslation_new (El2Policy.root c) (as_u8 (Z.land (Z.shiftr (tcr c) 16) 7)) with
                          | Ok p => ht_tcr p =? tcr c | _ => false end;
    l_root s =? El2Policy.root c;
    (l_sctlr s =? sctlr c) && (l_sctlr s =? HOST_SCTLR);
    Z.land (daif s) MASKED_DAIF =? MASKED_DAIF;
    hcr s =? HOST_HCR;
    cptr s =? HOST_CPTR;
    hstr s =? HOST_HSTR;
    vttbr s =? HOST_VTTBR;
    cntvoff s =? HOST_CNTVOFF;
    cnthctl s =? HOST_CNTHCTL;
    Z.land (cnthp_ctl s) 3 =? DISABLED_TIMER_CTL;
    Z.land (cntp_ctl s) 3 =? DISABLED_TIMER_CTL;
    Z.land (cntv_ctl s) 3 =? DISABLED_TIMER_CTL;
    spsel s =? 1;
    map_published;
    Z.land (e_sctlr e) (Z.lor (Z.lor (Z.shiftl 1 25) (Z.shiftl 1 2)) 1) =? 0;
    (Z.land (Z.shiftr (e_midr e) 24) 255 =? 0x41) && (Z.land (Z.shiftr (e_midr e) 4) 4095 =? 0xd08);
    negb (Z.land (e_cpuectlr e) (Z.shiftl 1 6) =? 0);
    Z.land (e_mpidr e) MPIDR_AFFINITY_MASK =? id_affinity i;
    (0 <? id_logical_id i) && (id_logical_id i <? Z.of_nat MAX_CPUS) ].

(** [checks.iter().enumerate().fold(0, ..)]. *)
Fixpoint failure_bits (l : list bool) (i bits : Z) : Z :=
  match l with
  | [] => bits
  | ok :: rest => failure_bits rest (i + 1) (Z.lor bits (if (ok : bool) then 0 else Z.shiftl 1 i))
  end.

Definition validate (index : nat) (r : StartupView) (s : LocalState) (e : EntryState) (vectors : Z)
    (context_valid map_published : bool) : prog sec_loc Z :=
  ready <- (if view_generation r =? 0 then Ret false
            else relocate (fun l => SSlot index (Mail l)) (observe_ready (view_generation r))) ;;
  Ret (failure_bits (checks r s e vectors context_valid map_published ready) 0 0).

(** The words [publish_checkpoint] stores, in order. *)
Definition checkpoint_words (s : LocalState) (e : EntryState) (failures : Z) : list (check_field * Z) :=
  [(CurrentEl, current_el s); (CAffinity, l_affinity s); (CSp, sp s); (CTpidr, tpidr s); (CVbar, vbar s);
   (CkMair, l_mair s); (CkTcr, l_tcr s); (CkRoot, l_root s); (CkSctlr, l_sctlr s); (CDaif, daif s); (CHcr, hcr s);
   (CCptr, cptr s); (CHstr, hstr s); (CVttbr, vttbr s); (CCntvoff, cntvoff s); (CCnthctl, cnthctl s);
   (CCnthpCtl, cnthp_ctl s); (CCntpCtl, cntp_ctl s); (CCntvCtl, cntv_ctl s); (CSpsel, spsel s);
   (EntrySctlr, e_sctlr e); (EntryMidr, e_midr e); (EntryCpuectlr, e_cpuectlr e); (EntryMpidr, e_mpidr e);
   (FailureBits, failures)].

Fixpoint store_words (index : nat) (words : list (check_field * Z)) : prog sec_loc unit :=
  match words with
  | [] => Ret tt
  | (f, v) :: rest => _ <- store (SCheck index f) v ;; store_words index rest
  end.

Definition publish_checkpoint (index : nat) (s : LocalState) (e : EntryState) (failures : Z) : prog sec_loc unit :=
  store_words index (checkpoint_words s e failures).

(** ** The assembly *)

Section Entry.
(** Where the slot array and the vectors lie. *)
Context (slots_base vectors : Z).

Definition slot_address (i : nat) : Z := slots_base + Z.of_nat i * SLOT_SIZE.

(** The registers at the call of [secondary_main]. *)
Record Arrival := mkArrival {
  ar_slot : nat;
  ar_generation : Z;
  ar_entry : EntryState;
  ar_state : LocalState
}.

(** What the firmware left: the checks before any memory is read. *)
Definition firmware_ok (el : Z) (e : EntryState) : bool :=
  (el =? 8) && (Z.land (e_sctlr e) 1 =? 0) && negb (Z.testbit (e_sctlr e) 2) && negb (Z.testbit (e_sctlr e) 25)
  && (field (e_midr e) 24 8 =? 0x41) && (field (e_midr e) 4 12 =? 0xd08) && Z.testbit (e_cpuectlr e) 6.

(** [__secondary_lookup], [n] slots from [i] on; [x19] is the matched slot's
    address or zero, [x18] its index; [None] when a second slot matches. *)
Fixpoint secondary_lookup (n i : nat) (affinity x19 : Z) (x18 : nat) : prog sec_loc (option (Z * nat)) :=
  match n with
  | O => Ret (Some (x19, x18))
  | S n' =>
      present <- load (SSlot i (Ctx Present)) ;;
      if negb (present =? 1) then secondary_lookup n' (S i) affinity x19 x18
      else
        a <- load (SSlot i (Ctx Affinity)) ;;
        if negb (a =? affinity) then secondary_lookup n' (S i) affinity x19 x18
        else if negb (x19 =? 0) then Ret None
        else secondary_lookup n' (S i) affinity (slot_address i) i
  end.

(** The slot's own checks, ending with the stack to install. *)
Definition secondary_slot (x19 : Z) (x18 : nat) : prog sec_loc (option (Z * Z)) :=
  id <- load (SSlot x18 (Ctx LogicalId)) ;;
  if (id =? 0) || negb (id =? Z.of_nat x18) then Ret None
  else
    generation <- load (SSlot x18 (Mail Ready)) ;;
    if generation =? 0 then Ret None
    else
      id <- load (SSlot x18 (Ctx LogicalId)) ;;
      if (id =? 0) || (Z.of_nat MAX_CPUS <=? id) then Ret None
      else
        top <- load (SSlot x18 (Ctx StackTop)) ;;
        if (top =? 0) || negb (Z.land top 15 =? 0) then Ret None
        else
          bottom <- load (SSlot x18 (Ctx StackBottom)) ;;
          if (bottom =? 0) || negb (Z.land bottom 4095 =? 0) || (top <=? bottom)
             || negb (top - bottom =? STACK_SIZE) || (x19 =? 0) || negb (Z.land x19 63 =? 0)
          then Ret None
          else Ret (Some (generation, top)).

(** The registers installed, and the final acquire of the generation. *)
Definition secondary_install (e : EntryState) (x19 : Z) (x18 : nat) (generation top : Z) : prog sec_loc (option Arrival) :=
  m <- load (SConfig CMair) ;;
  t <- load (SConfig CTcr) ;;
  o <- load (SConfig CRoot) ;;
  c <- load (SConfig CSctlr) ;;
  g <- load (SSlot x18 (Mail Ready)) ;;
  if negb (g =? generation) then Ret None
  else Ret (Some (mkArrival x18 generation e
    (mkLocal 8 (e_mpidr e) top x19 vectors m t o c 0x3c0
       (Z.lor (Z.land HOST_HCR 0xffff) (Z.shiftl (Z.shiftr HOST_HCR 16) 16)) HOST_CPTR HOST_HSTR HOST_VTTBR
       HOST_CNTVOFF HOST_CNTHCTL DISABLED_TIMER_CTL DISABLED_TIMER_CTL DISABLED_TIMER_CTL 1))).

Definition secondary_entry (el : Z) (e : EntryState) : prog sec_loc (option Arrival) :=
  if negb (firmware_ok el e) then Ret None
  else
    found <- secondary_lookup MAX_CPUS 0 (Z.land (e_mpidr e) MPIDR_AFFINITY_MASK) 0 0 ;;
    match found with
    | None => Ret None
    | Some (x19, x18) =>
        if x19 =? 0 then Ret None
        else
          r <- secondary_slot x19 x18 ;;
          match r with
          | None => Ret None
          | Some (generation, top) =>
              o <- load (SConfig CRoot) ;;
              if (o =? 0) || negb (Z.land o 4095 =? 0) then Ret None
              else secondary_install e x19 x18 generation top
          end
    end.

(** ** The Rust side *)

(** [PCPU_SLOTS.iter().find(|slot| ptr::eq(slot, pointer))], by index. *)
Fixpoint find_slot (n i : nat) (pointer : Z) : option nat :=
  match n with
  | O => None
  | S n' => if slot_address i =? pointer then Some i else find_slot n' (S i) pointer
  end.

(** src/src/pcpu.rs: [id] is the index of the slot it names. *)
Definition validate_secondary_context (id affinity bottom top pointer : Z) : prog sec_loc (outcome SlotError bool) :=
  let index := Z.to_nat id in
  if (MAX_CPUS <=? index)%nat then Ret (Ok false)
  else if (index =? 0)%nat || negb (slot_address index =? pointer) then Ret (Ok false)
  else
    prepared <-? relocate (SSlot index) is_prepared ;;
    if negb (prepared : bool) then Ret (Ok false)
    else
      identity <-? relocate (SSlot index) (identity (slot_address index)) ;;
      match identity with
      | None => Ret (Ok false)
      | Some i =>
          if negb ((id_logical_id i =? id) && (id_affinity i =? affinity) && (id_stack_bottom i =? bottom)
                   && (id_stack_top i =? top)) then Ret (Ok false)
          else
            host_sp <- load (SSlot index (Ctx HostSp)) ;;
            if negb (host_sp =? 0) then Ret (Ok false)
            else
              active <- load (SSlot index (Ctx ActiveVcpu)) ;;
              Ret (Ok (active =? 0))
      end.

Inductive main_end := Halted | Worker (id : nat) (generation : Z).

(** [state] holds the registers as [secondary_main] reads them back. *)
Definition secondary_main (state : LocalState) (map_published : bool) (slot_pointer : Z) (entry : EntryState)
    (generation : Z) : prog sec_loc (outcome SlotError main_end) :=
  match find_slot MAX_CPUS 0 slot_pointer with
  | None => Ret (Ok Halted)
  | Some index =>
      config <- relocate SConfig config_get ;;
      match config with
      | None => Ret (Ok Halted)
      | Some config =>
          view <-? relocate (SSlot index) (startup_view (slot_address index) generation config) ;;
          match view with
          | None => Ret (Ok Halted)
          | Some record =>
              claim <- relocate (fun l => SSlot index (Mail l)) (claim_entry (view_generation record)) ;;
              match claim with
              | Panic => Ret Panic
              | Err _ => Ret (Ok Halted)
              | Ok claim =>
                  let i := view_identity record in
                  context_valid <-? validate_secondary_context (id_logical_id i) (id_affinity i) (id_stack_bottom i)
                                      (id_stack_top i) (tpidr state) ;;
                  failures <- validate index record state entry vectors context_valid map_published ;;
                  _ <- publish_checkpoint index state entry failures ;;
                  if failures =? 0 then
                    _ <- relocate (fun l => SSlot index (Mail l)) (EntryClaim_park claim) ;;
                    Ret (Ok (Worker (Z.to_nat (id_logical_id i)) generation))
                  else
                    _ <- relocate (fun l => SSlot index (Mail l)) (EntryClaim_fail claim) ;;
                    Ret (Ok Halted)
              end
          end
      end
  end.

(** ** What the checks mean *)

(** The state a CPU must be in: its registers are those of the published
    record and of the host profile, and the firmware entered it with MMU and
    data cache off. *)
Record host_profile (r : StartupView) (s : LocalState) (e : EntryState) : Prop := {
  hp_generation : view_generation r <> 0;
  hp_id : 0 < id_logical_id (view_identity r) < Z.of_nat MAX_CPUS;
  hp_el : current_el s = 8 /\ spsel s = 1;
  hp_affinity : Z.land (l_affinity s) MPIDR_AFFINITY_MASK = id_affinity (view_identity r) /\
                Z.land (e_mpidr e) MPIDR_AFFINITY_MASK = id_affinity (view_identity r);
  hp_stack : id_stack_bottom (view_identity r) <= sp s < id_stack_top (view_identity r) /\ sp s mod 16 = 0;
  hp_context : tpidr s = id_context (view_identity r);
  hp_vectors : vbar s = vectors /\ vectors <> 0 /\ vectors mod 2048 = 0;
  hp_config : valid_config (view_config r) = true;
  hp_translation : l_mair s = mair (view_config r) /\ l_tcr s = tcr (view_config r) /\
                   l_root s = El2Policy.root (view_config r) /\ l_sctlr s = sctlr (view_config r);
  hp_masked : forall k, 6 <= k < 10 -> Z.testbit (daif s) k = true;
  hp_controls : hcr s = HOST_HCR /\ cptr s = HOST_CPTR /\ hstr s = HOST_HSTR /\ vttbr s = HOST_VTTBR /\
                cntvoff s = HOST_CNTVOFF /\ cnthctl s = HOST_CNTHCTL;
  hp_timers : cnthp_ctl s mod 4 = 0 /\ cntp_ctl s mod 4 = 0 /\ cntv_ctl s mod 4 = 0;
  hp_entry : Z.testbit (e_sctlr e) 0 = false /\ Z.testbit (e_sctlr e) 2 = false /\ Z.testbit (e_sctlr e) 25 = false;
  hp_cpu : field (e_midr e) 24 8 = 0x41 /\ field (e_midr e) 4 12 = 0xd08 /\ Z.testbit (e_cpuectlr e) 6 = true
}.

Lemma failure_bits_testbit l i bits k :
  0 <= i -> 0 <= k ->
  Z.testbit (failure_bits l i bits) k =
    Z.testbit bits k || ((i <=? k) && match l !! Z.to_nat (k - i) with Some ok => negb ok | None => false end).
Proof.
  intros Hi Hk. revert i bits Hi. induction l as [|ok l IH]; intros i bits Hi; cbn [failure_bits].
  { cbn. by rewrite andb_false_r, orb_false_r. }
  rewrite IH, Z.lor_spec by lia. rewrite <- orb_assoc. f_equal.
  assert (Hbit : Z.testbit (if ok then 0 else Z.shiftl 1 i) k = negb ok && (k =? i)).
  { destruct ok; [by rewrite Z.bits_0|]. by rewrite Z.shiftl_1_l, Z.pow2_bits_eqb, Z.eqb_sym by lia. }
  rewrite Hbit. destruct (Z.leb_spec i k) as [Hle|Hgt]; cbn [andb].
  - destruct (Z.eqb_spec k i) as [->|Hne].
    + rewrite Z.sub_diag, (proj2 (Z.leb_gt (i + 1) i)) by lia. change (Z.to_nat 0) with 0%nat.
      cbn [lookup list_lookup]. btauto.
    + rewrite (proj2 (Z.leb_le (i + 1) k)) by lia. replace (Z.to_nat (k - i)) with (S (Z.to_nat (k - (i + 1)))) by lia.
      change ((ok :: l) !! S (Z.to_nat (k - (i + 1)))) with (l !! Z.to_nat (k - (i + 1))). btauto.
  - rewrite (proj2 (Z.leb_gt (i + 1) k)), (proj2 (Z.eqb_neq k i)) by lia. btauto.
Qed.

Lemma failure_bits_nonneg l i bits : 0 <= i -> 0 <= bits -> 0 <= failure_bits l i bits.
Proof.
  revert i bits. induction l as [|ok l IH]; intros i bits Hi Hb; cbn [failure_bits]; [done|]. apply IH; [lia|].
  apply Z.lor_nonneg. split; [done|]. destruct ok; [done|]. rewrite Z.shiftl_1_l. apply Z.pow_nonneg. lia.
Qed.

Lemma failure_bits_zero l : failure_bits l 0 0 = 0 <-> Forall (fun ok => ok = true) l.
Proof.
  pose proof (fun k Hk => failure_bits_testbit l 0 0 k (Z.le_refl 0) Hk) as Hb. rewrite Forall_lookup. split.
  - intros Hz i ok Hi. specialize (Hb (Z.of_nat i) ltac:(lia)). rewrite Hz, !Z.bits_0, Z.sub_0_r, Nat2Z.id, Hi in Hb.
    rewrite (proj2 (Z.leb_le _ _)) in Hb by lia. by destruct ok.
  - intros Hall. apply Z.bits_inj'. intros k Hk. rewrite Hb, !Z.bits_0 by done. cbn [orb].
    destruct (l !! _) as [ok|] eqn:E; [|by rewrite andb_false_r]. rewrite (Hall _ _ E). by rewrite andb_false_r.
Qed.

Lemma land_subset a m : 0 <= m -> Z.land a m = m <-> forall k, 0 <= k -> Z.testbit m k = true -> Z.testbit a k = true.
Proof.
  intros Hm. split.
  - intros He k Hk Hb. rewrite <- He, Z.land_spec in Hb. by apply andb_true_iff in Hb as [? _].
  - intros H. apply Z.bits_inj'. intros k Hk. rewrite Z.land_spec. destruct (Z.testbit m k) eqn:E; [|by rewrite andb_false_r].
    by rewrite (H k Hk E).
Qed.

Lemma daif_masked d : Z.land d MASKED_DAIF = MASKED_DAIF <-> forall k, 6 <= k < 10 -> Z.testbit d k = true.
Proof.
  unfold MASKED_DAIF. rewrite land_subset by done.
  assert (Hb : forall k, 0 <= k -> Z.testbit 0x3c0 k = (6 <=? k) && (k <? 10)).
  { intros k Hk. change 0x3c0 with (Z.shiftl (Z.ones 4) 6). rewrite Z.shiftl_spec by done.
    destruct (Z.leb_spec 6 k); [|by rewrite Z.testbit_neg_r by lia].
    rewrite Z.testbit_ones_nonneg by lia. destruct (Z.ltb_spec (k - 6) 4), (Z.ltb_spec k 10); done || lia. }
  split; intros H k Hk; [apply H; [lia|]; rewrite Hb by lia|intros Hm; apply H; rewrite Hb in Hm by done; bool_prop; lia].
  by rewrite (proj2 (Z.leb_le _ _)), (proj2 (Z.ltb_lt _ _)) by lia.
Qed.

Lemma entry_bits v :
  (Z.land v (Z.lor (Z.lor (Z.shiftl 1 25) (Z.shiftl 1 2)) 1) =? 0) =
  negb (Z.testbit v 0) && negb (Z.testbit v 2) && negb (Z.testbit v 25).
Proof.
  rewrite !Z.land_lor_distr_r. change 1 with (Z.shiftl 1 0) at 3.
  rewrite <- !land_single_bit by done. rewrite !Bool.negb_involutive. apply eq_true_iff_eq.
  rewrite !andb_true_iff, !Z.eqb_eq. rewrite !Z.lor_eq_0_iff. tauto.
Qed.

Lemma checks_profile r s e context_valid map_published ready :
  Forall (fun ok => ok = true) (checks r s e vectors context_valid map_published ready) <->
  host_profile r s e /\ context_valid = true /\ map_published = true /\ ready = true.
Proof.
  unfold checks. rewrite !Forall_cons, entry_bits, land_single_bit by done.
  change 15 with (2 ^ 4 - 1). change 2047 with (2 ^ 11 - 1). change 3 with (2 ^ 2 - 1). rewrite !land_pow2_pred by done.
  change (Z.land (Z.shiftr (e_midr e) 24) 255) with (field (e_midr e) 24 8).
  change (Z.land (Z.shiftr (e_midr e) 4) 4095) with (field (e_midr e) 4 12).
  unfold DISABLED_TIMER_CTL. change (2 ^ 4) with 16. change (2 ^ 11) with 2048. change (2 ^ 2) with 4.
  rewrite !andb_true_iff, !negb_true_iff, !Z.eqb_eq, !Z.eqb_neq, !Z.leb_le, !Z.ltb_lt, daif_masked.
  split.
  - intros H. destruct_and! H. split_and!; try done. split; try tauto; try lia.
    unfold valid_config. rewrite !andb_true_iff, !Z.eqb_eq. split_and!; congruence.
  - intros ([] & -> & -> & ->). unfold valid_config in *. rewrite !andb_true_iff, !Z.eqb_eq in *.
    split_and!; try tauto; try constructor; try lia; destruct_and?; congruence.
Qed.

(** ** What a secondary does before it parks *)

(** No access but those on a lifecycle state or the entry claim matters. *)
Definition quiet (e : event sec_loc) : Prop :=
  match e with
  | EStore (SSlot _ (Mail StateCell)) _ | ESwap (SSlot _ (Mail StateCell)) _ _ | ECasOk (SSlot _ (Mail StateCell)) _ _ => False
  | _ => True
  end.

Definition checkpoint_stores (index : nat) (s : LocalState) (e : EntryState) (failures : Z) : list (event sec_loc) :=
  (fun w => EStore (SCheck index w.1) w.2) <$> checkpoint_words s e failures.

(** The attempt on the lifecycle: the generation is read once more and, when
    it still stands, the state is exchanged. *)
Inductive attempt (index : nat) (generation : Z) (target : CpuState) : list (event sec_loc) -> Prop :=
| attempt_stale v : v <> generation -> attempt index generation target [ELoad (SSlot index (Mail Ready)) v]
| attempt_done : attempt index generation target
    [ELoad (SSlot index (Mail Ready)) generation; ECasOk (SSlot index (Mail StateCell)) 2 (cpu_state_u64 target)]
| attempt_lost v : v <> 2 -> attempt index generation target
    [ELoad (SSlot index (Mail Ready)) generation; ECasFail (SSlot index (Mail StateCell)) 2 v].

(** A run that reaches a verdict: the entry is claimed, the whole checkpoint is
    stored, and only then is the lifecycle touched. *)
Inductive verdict (index : nat) (s : LocalState) (e : EntryState) (generation failures : Z) (target : CpuState) :
    list (event sec_loc) -> Prop :=
| verdict_intro before checking final :
    Forall quiet before -> Forall quiet checking -> attempt index generation target final ->
    verdict index s e generation failures target
      (before ++ [ECasOk (SSlot index (Mail EntryClaimed)) 0 1] ++ checking ++
       checkpoint_stores index s e failures ++ final).

Lemma traces_store_words index words Q acc :
  Q (acc ++ ((fun w => EStore (SCheck index w.1) w.2) <$> words)) tt -> traces (store_words index words) Q acc.
Proof.
  revert acc. induction words as [|[f v] words IH]; intros acc H; cbn [store_words].
  - by rewrite app_nil_r in H.
  - cbn. apply IH. by rewrite <- app_assoc.
Qed.

(** The words of the record are those the run loaded. *)
Definition read_config (c : HostEl2Config) (tr : list (event sec_loc)) : Prop :=
  ELoad (SConfig ConfigReady) 1 ∈ tr /\ ELoad (SConfig CMair) (mair c) ∈ tr /\ ELoad (SConfig CTcr) (tcr c) ∈ tr /\
  ELoad (SConfig CRoot) (El2Policy.root c) ∈ tr /\ ELoad (SConfig CSctlr) (sctlr c) ∈ tr.

Definition read_identity (index : nat) (i : CpuIdentity) (tr : list (event sec_loc)) : Prop :=
  id_context i = slot_address index /\
  ELoad (SSlot index (Ctx LogicalId)) (id_logical_id i) ∈ tr /\ ELoad (SSlot index (Ctx Affinity)) (id_affinity i) ∈ tr /\
  ELoad (SSlot index (Ctx StackBottom)) (id_stack_bottom i) ∈ tr /\ ELoad (SSlot index (Ctx StackTop)) (id_stack_top i) ∈ tr.

Lemma read_config_app c t t' : read_config c t -> read_config c (t ++ t').
Proof. unfold read_config. set_solver. Qed.

Lemma read_identity_app index i t t' : read_identity index i t -> read_identity index i (t ++ t').
Proof. unfold read_identity. set_solver. Qed.

Ltac quiet_trace := rewrite <- ?app_assoc; cbn [app]; repeat constructor.

Lemma traces_config Q acc :
  (forall t, Forall quiet t -> Q (acc ++ t) None) ->
  (forall t c, Forall quiet t -> read_config c t -> Q (acc ++ t) (Some c)) ->
  traces (relocate SConfig config_get) Q acc.
Proof.
  intros Hn Hs. unfold config_get. cbn. intros v. destruct (Z.eqb_spec v 1) as [->|]; cbn; [|apply Hn; quiet_trace].
  intros m t o c. rewrite <- !app_assoc. apply Hs; [quiet_trace|]. unfold read_config. cbn. set_solver.
Qed.

Lemma traces_view index generation config Q acc :
  (forall t r, Forall quiet t -> (forall w, r <> Ok (Some w)) -> Q (acc ++ t) r) ->
  (forall t i, Forall quiet t -> read_identity index i t ->
     Q (acc ++ t) (Ok (Some (mkView i config generation (slot_address index))))) ->
  traces (relocate (SSlot index) (startup_view (slot_address index) generation config)) Q acc.
Proof.
  intros Hn Hs. unfold startup_view, observe_ready. destruct (generation =? 0); cbn.
  { rewrite <- (app_nil_r acc). apply Hn; [constructor|done]. }
  intros v. destruct (v =? generation); cbn; [|apply Hn; [quiet_trace|done]].
  intros w. destruct (cpu_state_of w) as [st|err|]; cbn; [|rewrite <- !app_assoc; (apply Hn; [quiet_trace|done])..].
  destruct (negb (negb _)); cbn; [rewrite <- !app_assoc; apply Hn; [quiet_trace|done]|].
  intros a b c d. rewrite <- !app_assoc.
  apply (Hs [_; _; _; _; _; _] (mkIdentity a b c d (slot_address index))); [quiet_trace|]. unfold read_identity. cbn. set_solver.
Qed.

Lemma quiet_context id affinity bottom top pointer :
  emits quiet (validate_secondary_context id affinity bottom top pointer).
Proof.
  unfold validate_secondary_context. repeat case_match; try done.
  apply emits_bind_res; [apply emits_relocate; unfold is_prepared, lifecycle; emits_go; done|]. intros p.
  destruct p; cbn [negb]; [|done].
  apply emits_bind_res; [apply emits_relocate; unfold Pcpu.identity, is_prepared, lifecycle; emits_go; done|].
  intros [i|]; [|done]. emits_go; done.
Qed.

Lemma traces_claim index generation Q acc :
  (forall t, generation <> 0 -> Forall quiet t -> Q (acc ++ t ++ [ECasOk (SSlot index (Mail EntryClaimed)) 0 1]) (Ok (mkClaim generation))) ->
  (forall t r, Forall quiet t -> (forall c, r <> Ok c) -> Q (acc ++ t) r) ->
  traces (relocate (fun l => SSlot index (Mail l)) (claim_entry generation)) Q acc.
Proof.
  intros Hok Hno. unfold claim_entry, state, check, observe_ready, lifecycle.
  destruct (Z.eqb_spec generation 0) as [Hz|Hz]; cbn.
  { rewrite <- (app_nil_r acc). apply Hno; [constructor|done]. }
  intros v. destruct (v =? generation); cbn.
  2: { apply Hno; [repeat constructor|done]. }
  intros w. destruct (cpu_state_of w) as [st|err|] eqn:Hc; cbn.
  2,3: rewrite <- app_assoc; (apply Hno; [repeat constructor|done]).
  destruct (decide _); cbn.
  { rewrite <- app_assoc. apply Hno; [repeat constructor|done]. }
  split; [|intros x Hx]; rewrite <- !app_assoc; cbn [app].
  - apply (Hok [_; _]); [done|repeat constructor].
  - apply Hno; [repeat constructor|done].
Qed.

Lemma traces_transition index generation target Q acc :
  generation <> 0 ->
  (forall final r, attempt index generation target final -> Q (acc ++ final) r) ->
  traces (relocate (fun l => SSlot index (Mail l)) (transition generation Starting target)) Q acc.
Proof.
  intros Hg HQ. unfold transition, check, observe_ready. rewrite (proj2 (Z.eqb_neq _ _) Hg). cbn.
  intros v. destruct (Z.eqb_spec v generation) as [->|Hv]; cbn; [|apply HQ; by constructor].
  split; [|intros w Hw]; rewrite <- app_assoc; apply HQ; by constructor.
Qed.

(** The bits are those of the checks that failed, with what the CPU found out
    about its context and its mailbox. *)
Definition failing (r : StartupView) (s : LocalState) (e : EntryState) (map_published : bool) (failures : Z) : Prop :=
  failures <> 0 /\ exists context_valid ready, forall k, 0 <= k ->
    Z.testbit failures k =
      match checks r s e vectors context_valid map_published ready !! Z.to_nat k with Some ok => negb ok | None => false end.

(** What a finished [secondary_main] has done. *)
Definition main_outcome (state : LocalState) (map_published : bool) (entry : EntryState) (generation : Z)
    (tr : list (event sec_loc)) (r : outcome SlotError main_end) : Prop :=
  match r with
  | Ok (Worker id g) =>
      exists index record,
        read_identity index (view_identity record) tr /\ read_config (view_config record) tr /\
        view_generation record = generation /\ g = generation /\ Z.of_nat id = id_logical_id (view_identity record) /\
        host_profile record state entry /\ map_published = true /\
        verdict index state entry generation 0 Parked tr
  | Ok Halted =>
      Forall quiet tr \/
      exists index record failures,
        read_identity index (view_identity record) tr /\ read_config (view_config record) tr /\
        view_generation record = generation /\
        failing record state entry map_published failures /\ verdict index state entry generation failures CpuFailedState tr
  | _ => Forall quiet tr
  end.

Lemma traces_validate index r s e context_valid map_published Q acc :
  (forall t ready, Forall quiet t ->
     Q (acc ++ t) (failure_bits (checks r s e vectors context_valid map_published ready) 0 0)) ->
  traces (validate index r s e vectors context_valid map_published) Q acc.
Proof.
  intros H. unfold validate, observe_ready. destruct (_ =? 0); cbn [pbind traces relocate load].
  - rewrite <- (app_nil_r acc). apply H. constructor.
  - intros v. apply H. quiet_trace.
Qed.

Lemma traces_verdict index record s e mp cv (Q : list (event sec_loc) -> outcome SlotError main_end -> Prop) acc :
  view_generation record <> 0 ->
  (forall t, Forall quiet t ->
     (host_profile record s e -> mp = true -> forall final, attempt index (view_generation record) Parked final ->
        Q (acc ++ t ++ checkpoint_stores index s e 0 ++ final)
          (Ok (Worker (Z.to_nat (id_logical_id (view_identity record))) (view_generation record)))) /\
     (forall failures final, failing record s e mp failures -> attempt index (view_generation record) CpuFailedState final ->
        Q (acc ++ t ++ checkpoint_stores index s e failures ++ final) (Ok Halted))) ->
  traces (failures <- validate index record s e vectors cv mp ;;
          _ <- publish_checkpoint index s e failures ;;
          if failures =? 0 then
            _ <- relocate (fun l => SSlot index (Mail l)) (EntryClaim_park (mkClaim (view_generation record))) ;;
            Ret (Ok (Worker (Z.to_nat (id_logical_id (view_identity record))) (view_generation record)))
          else
            _ <- relocate (fun l => SSlot index (Mail l)) (EntryClaim_fail (mkClaim (view_generation record))) ;;
            Ret (Ok Halted)) Q acc.
Proof.
  intros Hg HQ. apply traces_bind, traces_validate. intros t ready Ht. destruct (HQ t Ht) as [Hp Hf].
  apply traces_bind, traces_store_words. set (f := failure_bits _ 0 0) in *.
  destruct (Z.eqb_spec f 0) as [Hz|Hz]; apply traces_bind; (apply traces_transition; [done|]); intros final r Ha;
    cbn [traces]; rewrite <- !app_assoc.
  - rewrite Hz. subst f. apply failure_bits_zero, checks_profile in Hz as (Hh & _ & Hm & _). by apply Hp.
  - apply Hf; [|done]. split; [done|]. exists cv, ready. intros k Hk. unfold f.
    rewrite failure_bits_testbit by lia. rewrite Z.bits_0, Z.sub_0_r. by destruct (0 <=? k) eqn:E; [|lia].
Qed.

Lemma verdict_of index s e generation failures target t0 t1 t2 t3 t4 final :
  Forall quiet (t0 ++ t1) -> Forall quiet t2 -> Forall quiet t3 -> Forall quiet t4 -> attempt index generation target final ->
  verdict index s e generation failures target
    ((((t0 ++ t1) ++ t2 ++ [ECasOk (SSlot index (Mail EntryClaimed)) 0 1]) ++ t3) ++ t4 ++
     checkpoint_stores index s e failures ++ final).
Proof.
  intros H01 H2 H3 H4 Ha.
  replace ((((t0 ++ t1) ++ t2 ++ [ECasOk (SSlot index (Mail EntryClaimed)) 0 1]) ++ t3) ++ t4 ++
           checkpoint_stores index s e failures ++ final)
    with (((t0 ++ t1) ++ t2) ++ [ECasOk (SSlot index (Mail EntryClaimed)) 0 1] ++ (t3 ++ t4) ++
          checkpoint_stores index s e failures ++ final) by (by rewrite <- !app_assoc).
  constructor; rewrite ?Forall_app in *; tauto || done.
Qed.

(** C18 [secondary_parks_only_validated]: whatever a secondary reads, it becomes a
    parked worker only if its registers are those of the host profile and of
    the record it read from its own slot and the shared configuration: its
    stack pointer inside its guarded stack, its vectors installed, interrupts
    masked, the firmware's caches and MMU off at entry.  It touches its
    lifecycle only after it has claimed the entry and stored the whole
    checkpoint; a CPU that fails a check first stores a bit for each check that failed, and
    one that was not granted the entry writes no lifecycle at all. *)
Theorem secondary_parks_only_validated state map_published pointer entry generation tr r :
  steps (secondary_main state map_published pointer entry generation) tr (Ret r) ->
  main_outcome state map_published entry generation tr r.
Proof.
  apply (traces_steps _ (main_outcome state map_published entry generation) []).
  unfold secondary_main. destruct (find_slot _ _ _) as [index|]; [|left; constructor].
  apply traces_bind, traces_config; [intros t Ht; by left|]. intros t0 config Q0 Hc. cbn [app].
  apply traces_bind, traces_view.
  { intros t [[w|]| |] Q1 Hr; [by destruct (Hr w)|left|cbn..]; by apply Forall_app. }
  intros t1 i Q1 Hi. cbn [view_generation view_identity]. apply traces_bind, traces_claim.
  2: { intros t [c|er|] Q2 Hr; [by destruct (Hr c)|left|cbn]; rewrite !Forall_app; tauto. }
  intros t2 Hg Q2. apply traces_bind, (traces_emits quiet); [apply quiet_context|]. intros t3 [cv|er|] Q3.
  2,3: cbn; rewrite !Forall_app; repeat split; try done; by repeat constructor.
  set (record := mkView i config generation (slot_address index)).
  assert (Hread : forall rest a b, read_identity index i ((((t0 ++ t1) ++ a) ++ b) ++ rest) /\
                               read_config config ((((t0 ++ t1) ++ a) ++ b) ++ rest)).
  { intros rest a b. split; [|by do 4 apply read_config_app]. do 3 apply read_identity_app.
    unfold read_identity in *. set_solver. }
  apply (traces_verdict index record); [done|]. intros t4 Q4. split; [intros Hh Hm final Ha|intros failures final Hf Ha].
  all: match goal with |- context [(((_ ++ ?a) ++ ?b) ++ ?rest)] => destruct (Hread rest a b) end.
  - exists index, record. pose proof (hp_id _ _ _ Hh). split_and!; try done; [cbn in *; lia|].
    apply verdict_of; by rewrite ?Forall_app.
  - right. exists index, record, failures. split_and!; try done. apply verdict_of; by rewrite ?Forall_app.
Qed.

(** ** The lookup of the assembly is the lookup of the library *)

Definition slot_identity (s : memory sec_loc) (i : nat) : option CpuIdentity :=
  if s (SSlot i (Ctx Present)) =? 1 then
    Some (mkIdentity (s (SSlot i (Ctx LogicalId))) (s (SSlot i (Ctx Affinity))) (s (SSlot i (Ctx StackBottom)))
            (s (SSlot i (Ctx StackTop))) (slot_address i))
  else None.

Definition slot_identities (s : memory sec_loc) : list (option CpuIdentity) := slot_identity s <$> seq 0 MAX_CPUS.

Hypothesis slots_base_pos : 0 < slots_base.

Lemma slot_address_pos i : slot_address i <> 0.
Proof using Type*. unfold slot_address, SLOT_SIZE. lia. Qed.

(** The registers [x19] and [x18] hold what the library calls [found]. *)
Definition holds (found : option nat) (x19 : Z) (x18 : nat) : Prop :=
  match found with Some f => x19 = slot_address f /\ x18 = f | None => x19 = 0 end.

Lemma secondary_lookup_find s n i affinity found x19 x18 :
  holds found x19 x18 ->
  exists r, exec (secondary_lookup n i affinity x19 x18) s [] = Some (r, s) /\
    match find_affinity (slot_identity s <$> seq i n) affinity i found with
    | Some f => r = Some (slot_address f, f)
    | None => forall a k, r = Some (a, k) -> a = 0
    end.
Proof using Type*.
  revert i found x19 x18. induction n as [|n IH]; intros i found x19 x18 Hf; cbn [secondary_lookup seq fmap list_fmap].
  { eexists. split; [done|]. destruct found as [f|]; cbn in *; [destruct Hf; congruence|naive_solver]. }
  change (list_fmap _ _ ?f ?l) with (f <$> l). cbn [find_affinity exec pbind load].
  change (slot_identity s i) with (if s (SSlot i (Ctx Present)) =? 1 then Some (mkIdentity (s (SSlot i (Ctx LogicalId)))
    (s (SSlot i (Ctx Affinity))) (s (SSlot i (Ctx StackBottom))) (s (SSlot i (Ctx StackTop))) (slot_address i)) else None).
  destruct (s (SSlot i (Ctx Present)) =? 1); cbn [negb id_affinity exec pbind load]; [|by apply IH].
  destruct (_ =? affinity); cbn [negb]; [|by apply IH].
  destruct found as [f|]; cbn in Hf.
  - destruct Hf as [-> _]. rewrite (proj2 (Z.eqb_neq _ _) (slot_address_pos f)). cbn. eexists. by split.
  - subst x19. cbn [Z.eqb negb]. by apply IH.
Qed.

(** [secondary_lookup_exact]: the assembly's scan of the slot array, which
    keeps its match in registers, finds a slot exactly when the library's
    [find_slot_by_affinity] finds one among the present slots, and then the
    same one; it leaves memory unchanged. *)
Lemma secondary_lookup_exact s mpidr i :
  (exists address, exec (secondary_lookup MAX_CPUS 0 (Z.land mpidr MPIDR_AFFINITY_MASK) 0 0) s [] =
     Some (Some (address, i), s) /\ address <> 0) <->
  find_slot_by_affinity (slot_identities s) mpidr = Some i.
Proof using Type*.
  destruct (secondary_lookup_find s MAX_CPUS 0 (Z.land mpidr MPIDR_AFFINITY_MASK) None 0 0) as (r & Hr & Hm); [done|].
  unfold find_slot_by_affinity, slot_identities. rewrite length_fmap, length_seq. cbn [Nat.ltb Nat.leb MAX_CPUS].
  rewrite Hr. change 4%nat with MAX_CPUS. destruct (find_affinity _ _ _ _) as [f|].
  - subst r. split; [by intros (a & [= _ ->] & _)|]. intros [= ->]. exists (slot_address i). split; [done|apply slot_address_pos].
  - split; [|done]. intros (a & [= ->] & Ha). by destruct (Ha (Hm _ _ eq_refl)).
Qed.

(** ** A released CPU parks *)

Definition config_in (s : memory sec_loc) : HostEl2Config :=
  mkConfig (s (SConfig CMair)) (s (SConfig CTcr)) (s (SConfig CRoot)) (s (SConfig CSctlr)).

(** What the boot CPU has published when it releases the CPU of slot [k]. *)
Record released (s : memory sec_loc) (k : nat) (generation mpidr : Z) : Prop := {
  rl_found : find_slot_by_affinity (slot_identities s) mpidr = Some k;
  rl_index : (0 < k < MAX_CPUS)%nat;
  rl_id : s (SSlot k (Ctx LogicalId)) = Z.of_nat k;
  rl_generation : generation <> 0;
  rl_ready : s (SSlot k (Mail Ready)) = generation;
  rl_starting : s (SSlot k (Mail StateCell)) = cpu_state_u64 Starting;
  rl_unclaimed : s (SSlot k (Mail EntryClaimed)) = 0;
  rl_host_sp : s (SSlot k (Ctx HostSp)) = 0;
  rl_active : s (SSlot k (Ctx ActiveVcpu)) = 0;
  rl_bottom : 0 < s (SSlot k (Ctx StackBottom)) /\ s (SSlot k (Ctx StackBottom)) mod 4096 = 0;
  rl_top : s (SSlot k (Ctx StackTop)) = s (SSlot k (Ctx StackBottom)) + STACK_SIZE;
  rl_config : s (SConfig ConfigReady) = 1 /\ valid_config (config_in s) = true
}.

Context (Hvectors : 0 < vectors) (Hvectors_aligned : vectors mod 2048 = 0).
Context (Hslots : slots_base mod 64 = 0).

Lemma slot_address_aligned k : Z.land (slot_address k) 63 = 0.
Proof using Hslots.
  change 63 with (2 ^ 6 - 1). rewrite land_pow2_pred by done. unfold slot_address, SLOT_SIZE.
  change (2 ^ 6) with 64. rewrite Z.add_mod, Hslots by done. replace (Z.of_nat k * 384) with (Z.of_nat k * 6 * 64) by lia.
  by rewrite Z.mod_mul.
Qed.

(** The registers at the boundary. *)
Definition boundary (s : memory sec_loc) (k : nat) (e : EntryState) : LocalState :=
  mkLocal 8 (e_mpidr e) (s (SSlot k (Ctx StackTop))) (slot_address k) vectors (s (SConfig CMair)) (s (SConfig CTcr))
    (s (SConfig CRoot)) (s (SConfig CSctlr)) 0x3c0 HOST_HCR HOST_CPTR HOST_HSTR HOST_VTTBR HOST_CNTVOFF HOST_CNTHCTL
    DISABLED_TIMER_CTL DISABLED_TIMER_CTL DISABLED_TIMER_CTL 1.

Lemma released_affinity s k g mpidr :
  released s k g mpidr ->
  s (SSlot k (Ctx Present)) = 1 /\ s (SSlot k (Ctx Affinity)) = Z.land mpidr MPIDR_AFFINITY_MASK.
Proof.
  intros [Hf ? _ _ _ _ _ _ _ _ _ _]. apply find_slot_by_affinity_unique in Hf as (_ & (i & Hi & Ha) & _).
  unfold slot_identities in Hi. rewrite list_lookup_fmap, lookup_seq_lt in Hi by lia. cbn in Hi.
  unfold slot_identity in Hi. destruct (Z.eqb_spec (s (SSlot k (Ctx Present))) 1); [|done]. by simplify_eq.
Qed.

Lemma released_root s k g mpidr :
  released s k g mpidr -> s (SConfig CRoot) <> 0 /\ Z.land (s (SConfig CRoot)) 4095 = 0.
Proof.
  intros [_ _ _ _ _ _ _ _ _ _ _ [_ Hc]]. unfold valid_config in Hc. rewrite !andb_true_iff in Hc. destruct Hc as [_ Hc].
  destruct (HostTranslation_new _ _) as [p| |] eqn:E; try done.
  apply HostTranslation_new_Ok in E as (_ & ? & ? & _); [done|]. unfold as_u8. apply Z.land_nonneg. by right.
Qed.

Lemma secondary_slot_released s k g mpidr :
  released s k g mpidr -> exec (secondary_slot (slot_address k) k) s [] = Some (Some (g, s (SSlot k (Ctx StackTop))), s).
Proof using slots_base_pos Hslots vectors.
  intros [_ Hk Hid Hg Hr _ _ _ _ [Hb0 Hb] Ht _]. unfold secondary_slot. cbn [exec pbind load]. rewrite Hid, Z.eqb_refl.
  rewrite (proj2 (Z.eqb_neq (Z.of_nat k) 0)) by lia. cbn [orb negb exec pbind load]. rewrite Hr, (proj2 (Z.eqb_neq g 0)) by done.
  cbn [exec pbind load]. rewrite Hid, (proj2 (Z.eqb_neq (Z.of_nat k) 0)), (proj2 (Z.leb_gt _ _)) by lia.
  cbn [orb exec pbind load]. rewrite slot_address_aligned, (proj2 (Z.eqb_neq _ _) (slot_address_pos k)).
  set (b := s (SSlot k (Ctx StackBottom))) in *. rewrite Ht. unfold STACK_SIZE in *.
  change 15 with (2 ^ 4 - 1). change 4095 with (2 ^ 12 - 1). rewrite !land_pow2_pred by done.
  assert (Hm : (b + 64 * 1024) mod 2 ^ 4 = 0)
    by (change (2 ^ 4) with 16; Z.div_mod_to_equations; lia).
  rewrite Hm, (proj2 (Z.eqb_neq (b + _) 0)) by lia. cbn [orb negb Z.eqb exec pbind load]. fold b.
  rewrite (land_pow2_pred b 12) by done. change (2 ^ 12) with 4096. rewrite Hb, (proj2 (Z.eqb_neq b 0)), (proj2 (Z.leb_gt _ _)) by lia.
  replace (b + 64 * 1024 - b) with (64 * 1024) by lia. done.
Qed.

Lemma secondary_entry_released s k g e :
  released s k g (e_mpidr e) -> firmware_ok 8 e = true ->
  exec (secondary_entry 8 e) s [] = Some (Some (mkArrival k g e (boundary s k e)), s).
Proof using slots_base_pos Hslots vectors.
  intros Hr Hf. unfold secondary_entry. rewrite Hf. cbn [negb]. rewrite exec_bind.
  destruct (secondary_lookup_find s MAX_CPUS 0 (Z.land (e_mpidr e) MPIDR_AFFINITY_MASK) None 0 0) as (r & -> & Hm); [done|].
  pose proof (rl_found _ _ _ _ Hr) as Hfind. unfold find_slot_by_affinity, slot_identities in Hfind.
  rewrite length_fmap, length_seq in Hfind. cbn [Nat.ltb Nat.leb MAX_CPUS] in Hfind. change 4%nat with MAX_CPUS in Hfind.
  rewrite Hfind in Hm. subst r. rewrite (proj2 (Z.eqb_neq _ _) (slot_address_pos k)).
  rewrite exec_bind, (secondary_slot_released _ _ _ _ Hr). cbn [exec pbind load].
  destruct (released_root _ _ _ _ Hr) as [H0 Ha]. rewrite Ha, (proj2 (Z.eqb_neq _ 0) H0). cbn [orb negb Z.eqb].
  unfold secondary_install. cbn [exec pbind load]. by rewrite (rl_ready _ _ _ _ Hr), Z.eqb_refl.
Qed.

(** The compiler's prologue has moved the stack pointer. *)
Definition set_sp (v : Z) (s : LocalState) : LocalState :=
  mkLocal (current_el s) (l_affinity s) v (tpidr s) (vbar s) (l_mair s) (l_tcr s) (l_root s) (l_sctlr s) (daif s) (hcr s)
    (cptr s) (hstr s) (vttbr s) (cntvoff s) (cnthctl s) (cnthp_ctl s) (cntp_ctl s) (cntv_ctl s) (spsel s).

Lemma find_slot_address n i k : (i <= k < i + n)%nat -> find_slot n i (slot_address k) = Some k.
Proof.
  clear. revert i. induction n as [|n IH]; intros i Hk; [lia|]. cbn [find_slot].
  destruct (Z.eqb_spec (slot_address i) (slot_address k)) as [E|E].
  - unfold slot_address, SLOT_SIZE in E. f_equal. lia.
  - apply IH. destruct (decide (i = k)) as [->|]; [done|lia].
Qed.

Definition stored (index : nat) (words : list (check_field * Z)) (s : memory sec_loc) : memory sec_loc :=
  fold_left (fun s w => upd s (SCheck index w.1) w.2) words s.

Lemma exec_store_words index words s : exec (store_words index words) s [] = Some (tt, stored index words s).
Proof. revert s. induction words as [|[f v] words IH]; intros s; cbn; [done|]. apply IH. Qed.

Lemma stored_frame index words s l : (forall f, l <> SCheck index f) -> stored index words s l = s l.
Proof.
  intros Hl. unfold stored. revert s. induction words as [|[f v] words IH]; intros s; cbn; [done|].
  rewrite IH. by rewrite upd_ne by apply Hl.
Qed.

Definition claimed (k : nat) (s : memory sec_loc) : memory sec_loc := upd s (SSlot k (Mail EntryClaimed)) 1.

Definition record_of (s : memory sec_loc) (k : nat) (g : Z) : StartupView :=
  mkView (mkIdentity (Z.of_nat k) (s (SSlot k (Ctx Affinity))) (s (SSlot k (Ctx StackBottom))) (s (SSlot k (Ctx StackTop)))
            (slot_address k)) (config_in s) g (slot_address k).

Lemma released_profile s k g e v :
  released s k g (e_mpidr e) -> firmware_ok 8 e = true ->
  s (SSlot k (Ctx StackBottom)) <= v < s (SSlot k (Ctx StackTop)) -> v mod 16 = 0 ->
  host_profile (record_of s k g) (set_sp v (boundary s k e)) e.
Proof using Hvectors Hvectors_aligned.
  intros Hr Hf Hv H16. destruct (released_affinity _ _ _ _ Hr) as [_ Ha]. destruct Hr as [_ Hk Hid Hg _ _ _ _ _ _ _ [_ Hc]].
  unfold firmware_ok in Hf. rewrite !andb_true_iff, !negb_true_iff, !Z.eqb_eq in Hf.
  destruct Hf as ((((((_ & E0) & E2) & E25) & M1) & M2) & U). split; cbn; try done; try lia.
  - intros i Hi. apply (proj1 (daif_masked 0x3c0)); [done|lia].
  - split_and!; try done. pose proof (land_single_bit (e_sctlr e) 0 ltac:(lia)) as Hb. change (Z.shiftl 1 0) with 1 in Hb.
    by rewrite E0 in Hb.
Qed.

Lemma exec_config s :
  s (SConfig ConfigReady) = 1 -> exec (relocate SConfig config_get) s [] = Some (Some (config_in s), s).
Proof. intros H. unfold config_get. cbn. by rewrite H. Qed.

Lemma exec_view s k g mpidr c :
  released s k g mpidr ->
  exec (relocate (SSlot k) (startup_view (slot_address k) g c)) s [] =
  Some (Ok (Some (mkView (view_identity (record_of s k g)) c g (slot_address k))), s).
Proof.
  intros [_ _ Hid Hg Hr Hs _ _ _ _ _ _]. unfold startup_view, observe_ready. rewrite (proj2 (Z.eqb_neq g 0) Hg).
  cbn. rewrite Hr, Z.eqb_refl. cbn. rewrite Hs. cbn. rewrite bool_decide_eq_false_2 by done. cbn. by rewrite Hid.
Qed.

Lemma exec_claim s k g mpidr :
  released s k g mpidr ->
  exec (relocate (fun l => SSlot k (Mail l)) (claim_entry g)) s [] = Some (Ok (mkClaim g), claimed k s).
Proof.
  intros [_ _ _ Hg Hr Hs Hc _ _ _ _ _]. unfold claim_entry, state, check, observe_ready. rewrite (proj2 (Z.eqb_neq g 0) Hg).
  cbn. rewrite Hr, Z.eqb_refl. cbn. rewrite Hs. cbn. rewrite decide_False by (intros H; by apply H). cbn. by rewrite Hc.
Qed.

Lemma exec_context s k g mpidr :
  released s k g mpidr ->
  exec (validate_secondary_context (Z.of_nat k) (s (SSlot k (Ctx Affinity))) (s (SSlot k (Ctx StackBottom)))
          (s (SSlot k (Ctx StackTop))) (slot_address k)) (claimed k s) [] = Some (Ok true, claimed k s).
Proof.
  intros [_ Hk Hid Hg Hr Hs Hc Hsp Hv _ _ _]. unfold validate_secondary_context. rewrite Nat2Z.id.
  rewrite (proj2 (Nat.leb_gt _ _)), (proj2 (Nat.eqb_neq k 0)), Z.eqb_refl by lia. unfold claimed.
  cbn. rewrite upd_ne, Hs by done. cbn. rewrite bool_decide_eq_false_2 by done. cbn. rewrite upd_ne, Hs by done. cbn.
  rewrite bool_decide_eq_false_2 by done. cbn. rewrite !upd_ne, Hid, !Z.eqb_refl by done. cbn.
  rewrite upd_ne, Hsp by done. cbn. by rewrite upd_ne, Hv by done.
Qed.

Lemma exec_validate s k g mpidr st e :
  released s k g mpidr -> host_profile (record_of s k g) st e ->
  exec (validate k (record_of s k g) st e vectors true true) (claimed k s) [] = Some (0, claimed k s).
Proof.
  intros Hr Hh. unfold validate, observe_ready. cbn [view_generation record_of].
  rewrite (proj2 (Z.eqb_neq g 0) (rl_generation _ _ _ _ Hr)). cbn [relocate pbind load exec]. unfold claimed at 1.
  rewrite upd_ne, (rl_ready _ _ _ _ Hr), Z.eqb_refl by done.
  rewrite (proj2 (failure_bits_zero _)); [done|]. by apply checks_profile.
Qed.

Lemma exec_park s k g :
  g <> 0 -> s (SSlot k (Mail Ready)) = g -> s (SSlot k (Mail StateCell)) = 2 ->
  exec (relocate (fun l => SSlot k (Mail l)) (EntryClaim_park (mkClaim g))) s [] =
  Some (Ok tt, upd s (SSlot k (Mail StateCell)) 3).
Proof.
  intros Hg Hr Hs. unfold EntryClaim_park, transition, check, observe_ready. cbn [claim_generation].
  rewrite (proj2 (Z.eqb_neq g 0) Hg). cbn. rewrite Hr, Z.eqb_refl. cbn. by rewrite Hs.
Qed.

(** The memory once the CPU has parked. *)
Definition parked (k : nat) (st : LocalState) (e : EntryState) (s : memory sec_loc) : memory sec_loc :=
  upd (stored k (checkpoint_words st e 0) (claimed k s)) (SSlot k (Mail StateCell)) 3.

Lemma secondary_main_released s k g e v :
  released s k g (e_mpidr e) -> firmware_ok 8 e = true ->
  s (SSlot k (Ctx StackBottom)) <= v < s (SSlot k (Ctx StackTop)) -> v mod 16 = 0 ->
  let st := set_sp v (boundary s k e) in
  exec (secondary_main st true (slot_address k) e g) s [] = Some (Ok (Worker k g), parked k st e s).
Proof using Hvectors Hvectors_aligned.
  intros Hr Hf Hv H16 st. pose proof (released_profile _ _ _ _ _ Hr Hf Hv H16) as Hh. fold st in Hh.
  pose proof (rl_index _ _ _ _ Hr) as Hk.
  unfold secondary_main. rewrite find_slot_address by (unfold MAX_CPUS in *; lia). rewrite exec_bind, exec_config by apply Hr.
  unfold pbind_res at 1. rewrite exec_bind, (exec_view _ _ _ _ _ Hr). cbn [view_generation view_identity].
  rewrite exec_bind, (exec_claim _ _ _ _ Hr). cbn [record_of view_identity id_logical_id id_affinity id_stack_bottom id_stack_top].
  unfold pbind_res at 1. rewrite exec_bind. change (tpidr st) with (slot_address k). rewrite (exec_context _ _ _ _ Hr).
  rewrite exec_bind. change (mkView _ _ _ _) with (record_of s k g). rewrite (exec_validate _ _ _ _ _ _ Hr Hh).
  rewrite exec_bind. unfold publish_checkpoint. rewrite exec_store_words. cbn [Z.eqb].
  rewrite exec_bind, exec_park; [by rewrite Nat2Z.id|apply Hr|..]; rewrite stored_frame by done; unfold claimed;
    rewrite upd_ne by done; apply Hr.
Qed.

Lemma parked_frame k st e s l :
  l <> SSlot k (Mail StateCell) -> (forall f, l <> SCheck k f) -> parked k st e s l = claimed k s l.
Proof. intros H1 H2. unfold parked. by rewrite upd_ne, stored_frame. Qed.

Lemma parked_checkpoint k st e s :
  parked k st e s (SCheck k FailureBits) = 0 /\ parked k st e s (SCheck k CSp) = sp st.
Proof.
  unfold parked, stored, checkpoint_words. cbn [fold_left fst snd]. split; [by rewrite upd_ne, upd_eq by done|].
  by rewrite !(upd_ne _ _ (SCheck k CSp)), !upd_eq by done.
Qed.

(** C19 [released_secondary_parks]: a CPU that the firmware releases in the state
    the boot protocol asks for reaches [secondary_main] with its own slot, and
    parks: the assembly finds its slot, installs the published registers, and
    the Rust side, on any stack depth within the CPU's stack, finds no
    failure, records that, and ends as a worker with its slot parked and its
    entry claimed; every location outside its mailbox and its checkpoint keeps
    its value. *)
Theorem released_secondary_parks s k generation e v :
  released s k generation (e_mpidr e) -> firmware_ok 8 e = true ->
  s (SSlot k (Ctx StackBottom)) <= v < s (SSlot k (Ctx StackTop)) -> v mod 16 = 0 ->
  exists arrival s',
    exec (secondary_entry 8 e) s [] = Some (Some arrival, s) /\
    ar_slot arrival = k /\ ar_generation arrival = generation /\ sp (ar_state arrival) = s (SSlot k (Ctx StackTop)) /\
    exec (secondary_main (set_sp v (ar_state arrival)) true (slot_address (ar_slot arrival)) (ar_entry arrival)
            (ar_generation arrival)) s [] = Some (Ok (Worker k generation), s') /\
    s' (SSlot k (Mail StateCell)) = cpu_state_u64 Parked /\ s' (SSlot k (Mail EntryClaimed)) = 1 /\
    s' (SCheck k FailureBits) = 0 /\ s' (SCheck k CSp) = v /\
    forall l, (forall m, l <> SSlot k (Mail m)) -> (forall f, l <> SCheck k f) -> s' l = s l.
Proof using Type*.
  intros Hr Hf Hv H16. exists (mkArrival k generation e (boundary s k e)).
  eexists. split; [by apply secondary_entry_released|]. cbn [ar_slot ar_generation ar_entry ar_state].
  do 3 (split; [done|]). split; [by apply secondary_main_released|].
  destruct (parked_checkpoint k (set_sp v (boundary s k e)) e s) as [Hb Hs]. split; [apply upd_eq|].
  rewrite parked_frame by done. split_and!; [apply upd_eq|done|done|].
  intros l Hm Hc. rewrite parked_frame by done. unfold claimed. by rewrite upd_ne.
Qed.

End Entry.

(** ** Witnesses *)

(** The store after the boot CPU has published the configuration, prepared the
    slot of CPU 1 and started it. *)
Definition sample_base : Z := 0x40000.
Definition sample_vectors : Z := 0x80800.

Definition sample_publication : prog sec_loc unit :=
  _ <- relocate SConfig (config_publish (mkTranslation 0x90000 (policy_tcr 4))) ;;
  _ <- relocate (SSlot 0) (prepare 0 0 (mkStack 0x100000 0x101000 0x111000)) ;;
  _ <- relocate (SSlot 1) (prepare 1 1 (mkStack 0x200000 0x201000 0x211000)) ;;
  _ <- relocate (SSlot 1) (publish_startup (slot_address sample_base 1) 7 (config_of (mkTranslation 0x90000 (policy_tcr 4)))) ;;
  _ <- relocate (fun l => SSlot 1 (Mail l)) (begin_start 7) ;;
  Ret tt.

Definition sample_store : memory sec_loc :=
  match exec sample_publication (fun _ => 0) [] with Some (_, s) => s | None => fun _ => 0 end.

Definition sample_entry : EntryState := mkEntry 0x30c50830 0x410fd083 0x40 0x80000001.

Lemma sample_released : released sample_base sample_store 1 7 (e_mpidr sample_entry).
Proof. split; vm_compute; try done; repeat split; lia || done. Qed.

Lemma released_secondary_parks_witness :
  exists arrival s',
    exec (secondary_entry sample_base sample_vectors 8 sample_entry) sample_store [] = Some (Some arrival, sample_store) /\
    exec (secondary_main sample_base sample_vectors (set_sp 0x210f00 (ar_state arrival)) true
            (slot_address sample_base (ar_slot arrival)) (ar_entry arrival) (ar_generation arrival)) sample_store [] =
      Some (Ok (Worker 1 7), s') /\ s' (SSlot 1 (Mail StateCell)) = 3.
Proof.
  destruct (released_secondary_parks sample_base sample_vectors ltac:(done) ltac:(done) ltac:(done) ltac:(done)
    sample_store 1 7 sample_entry 0x210f00 sample_released) as (a & s' & H1 & _ & _ & _ & H2 & H3 & _);
    [vm_compute; done|vm_compute; done|done|].
  exists a, s'. exact (conj H1 (conj H2 H3)).
Defined.

Lemma secondary_parks_only_validated_witness :
  exists tr, main_outcome sample_base sample_vectors
    (set_sp 0x210f00 (boundary sample_base sample_vectors sample_store 1 sample_entry)) true sample_entry 7 tr (Ok (Worker 1 7)).
Proof.
  pose proof (secondary_main_released sample_base sample_vectors ltac:(done) ltac:(done) sample_store 1 7 sample_entry 0x210f00
    sample_released) as H.
  assert (H1 : firmware_ok 8 sample_entry = true) by reflexivity.
  assert (H2 : sample_store (SSlot 1 (Ctx StackBottom)) <= 0x210f00 < sample_store (SSlot 1 (Ctx StackTop)))
    by (split; [apply Z.leb_le|apply Z.ltb_lt]; vm_compute; reflexivity).
  specialize (H H1 H2 eq_refl). cbv zeta in H. destruct (exec_steps _ _ _ _ _ H) as (tr & Hs & _). exists tr.
  exact (secondary_parks_only_validated _ _ _ _ _ _ _ _ _ Hs).
Defined.
