(* ===== verification/ManagementIrq.v ===== *)
(** * Management interrupts: src/src/management.rs

    A CPU that receives the management interrupt takes the request another CPU
    left in its channel, serves it, completes the interrupt and replies.  The
    handler joins the interrupt controller ([Gicv2]), the channels
    ([Management]), the mapping-update gate ([TlbUpdate]), the mailboxes and
    the failure flag, so it is a program over the locations of all of them; a
    register of the controller is a location too, read with any value.  The
    counters are incremented by their own CPU only, with interrupts masked. *)

From S2P Require Import Prelude Atomics TlbUpdate SecondaryMailbox Management Failure El2Policy Pcpu Gicv2.

(** The atomics of [CpuRuntime]. *)
Inductive cpu_field :=
| CTarget | CReady | CStopped | CGeneration | CHalted | CControl | CPmr | CBpr | CSecurity | CCurrentIrqs | CGuestIrqs
| CGuestMasked | CRequests | CStray | CLastToken | CNoninjection.

#[global] Instance cpu_field_eq_dec : EqDecision cpu_field.
Proof. solve_decision. Defined.

(** Everything the host's handlers touch. *)
Inductive host_loc :=
| GReg (address : Z)
| GBarrier
| HcrReg
| HChan (source target : nat) (l : chan_loc)
| HCpu (id : nat) (f : cpu_field)
| HSlot (id : nat) (l : slot_loc)
| HTlb (l : TlbUpdate.loc)
| HFail (l : fail_loc)
| Uart (offset : Z)
| DuplicateTimers
| WorldSwitch
| Activate (id : nat)
| DaifReg
| EventSignal.

#[global] Instance host_loc_eq_dec : EqDecision host_loc.
Proof. solve_decision. Defined.

Notation hprog := (prog host_loc).

(** A driver call as a program over the host's locations. *)
Fixpoint drive {A} (m : mmio A) : hprog A :=
  match m with
  | Done a => Ret a
  | Read8 address k => Load (GReg address) (fun v => drive (k (as_u8 v)))
  | Read32 address k => Load (GReg address) (fun v => drive (k (as_u32 v)))
  | Write8 address v k => Store (GReg address) v (drive k)
  | Write32 address v k => Store (GReg address) v (drive k)
  | Barrier k => Store GBarrier 0 (drive k)
  end.

(** A call that returns no error of its own. *)
Definition or_panic {L E F A} (p : prog L (outcome E A)) : prog L (outcome F A) :=
  r <- p ;; Ret (match r with Ok a => Ok a | _ => Panic end).

Definition fetch_add (l : host_loc) : hprog unit :=
  v <- load l ;; store l ((v + 1) mod 2 ^ 64).

(** [CpuRuntime::ready] and [target] of another CPU. *)
Definition target (id : nat) : hprog (option CpuTarget) :=
  if (MAX_CPUS <=? id)%nat then Ret None
  else
    ready <- load (HCpu id CReady) ;;
    if negb (ready =? 1) then Ret None
    else
      t <- load (HCpu id CTarget) ;;
      Ret (match CpuTarget_new (as_u8 t) with Ok c => Some c | _ => None end).

(** The HCR_EL2 value of either profile. *)
Definition check_routing : hprog (option Z) :=
  h <- load HcrReg ;; Ret (if negb (h =? HOST_HCR) && negb (h =? GUEST_HCR) then None else Some h).

(** One iteration of [worker_test] on 64-bit words. *)
Definition rotate_left (v k : Z) : Z := Z.lor (Z.land (Z.shiftl v k) (Z.ones 64)) (Z.shiftr v (64 - k)).

Fixpoint worker_loop (n : nat) (i value : Z) : Z :=
  match n with
  | O => value
  | S n' => worker_loop n' (i + 1) (Z.lxor (rotate_left value 7) ((i * 0x9e3779b97f4a7c15) mod 2 ^ 64))
  end.

Definition worker_test (count : Z) : Z := worker_loop (Z.to_nat count) 0 0x114.

Section Irq.
Context (gic : GicV2) (slot_address : nat -> Z) (tpidr : Z).

(** [PCPU_SLOTS.iter().position(..)] from slot [i] on. *)
Fixpoint position (n i : nat) : hprog (outcome SlotError (option nat)) :=
  match n with
  | O => Ret (Ok None)
  | S n' =>
      if slot_address i =? tpidr then
        p <-? relocate (HSlot i) is_prepared ;;
        if (p : bool) then Ret (Ok (Some i)) else position n' (S i)
      else position n' (S i)
  end.

Definition current_id : hprog (outcome SlotError (option nat)) := position MAX_CPUS 0.

(** The CPU whose interface rang the doorbell. *)
Fixpoint find_source (n i : nat) (interface : Z) : hprog (option nat) :=
  match n with
  | O => Ret None
  | S n' =>
      ready <- load (HCpu i CReady) ;;
      if negb (ready =? 1) then find_source n' (S i) interface
      else
        t <- load (HCpu i CTarget) ;;
        if t =? Z.shiftl 1 interface then Ret (Some i) else find_source n' (S i) interface
  end.

Definition refused : Reply := mkReply 0 true.

(** The reply to a request; the features that add operations are off. *)
Definition serve (id : nat) (r : Request) : hprog (outcome SlotError Reply) :=
  match request_operation r with
  | Ping => Ret (Ok (mkReply (request_argument r) false))
  | WorkerTest =>
      Ret (Ok (if negb (id =? 0)%nat && (request_argument r <=? 4096)
               then mkReply (worker_test (request_argument r)) false else refused))
  | Park =>
      if (id =? 0)%nat then Ret (Ok refused)
      else
        open <- relocate HTlb try_membership_change ;;
        if negb open then Ret (Ok refused)
        else
          st <-? relocate (fun l => HSlot id (Mail l)) lifecycle ;;
          result <- (if decide (st = Parked) then Ret (Ok tt)
                     else
                       generation <- load (HCpu id CGeneration) ;;
                       relocate (fun l => HSlot id (Mail l)) (management_park generation)) ;;
          _ <-? or_panic (relocate HTlb finish_membership_change) ;;
          Ret (match result with Ok _ => Ok (mkReply 0 false) | Err _ => Ok refused | Panic => Panic end)
  | FatalStop =>
      open <- relocate HTlb try_membership_change ;;
      if negb open then Ret (Ok refused)
      else
        _ <- store (HCpu id CStopped) 1 ;;
        _ <-? or_panic (relocate HTlb finish_membership_change) ;;
        Ret (Ok (mkReply 0 false))
  | RunTest | TlbQuiesce => Ret (Ok refused)
  end.

Definition virtual_words : mmio (Z * Z * Z) :=
  v ← gich_vmcr_get gic;
  t ← gich_lr0_get gic;
  u ← gich_lr1_get gic;
  Done (v, t, u).

Definition complete (ack : InterruptAck) : hprog unit := drive (complete_host_interrupt gic ack).

(** The request of the CPU that rang, unless the CPU rang itself. *)
Definition take_from (id : nat) (source : option nat) : hprog (outcome SlotError (option Request)) :=
  match source with
  | Some s => if (s =? id)%nat then Ret (Ok None) else or_panic (relocate (HChan s id) take)
  | None => Ret (Ok None)
  end.

(** After the interrupt is complete: the reply goes out only if the guest's
    virtual interrupt state and the routing are as they were. *)
Definition reply_checked (id s : nat) (r : Request) (reply : Reply) (words : Z * Z * Z) (routing : option Z) :
    hprog bool :=
  words' <- drive virtual_words ;;
  same <- (if negb (bool_decide (words = words')) then Ret false
           else match routing with
                | None => Ret false
                | Some h => routing' <- check_routing ;; Ret (bool_decide (Some h = routing'))
                end) ;;
  if negb same then
    _ <- store (HCpu id CStopped) 1 ;;
    _ <- relocate (HChan s id) (Management.acknowledge r refused) ;;
    Ret false
  else
    _ <- fetch_add (HCpu id CNoninjection) ;;
    _ <- fetch_add (HCpu id CRequests) ;;
    _ <- relocate (HChan s id) (Management.acknowledge r reply) ;;
    Ret true.

(** The bookkeeping before a request is looked for. *)
Definition note_irq (id : nat) (ack : InterruptAck) (guest guest_masked : bool) : hprog unit :=
  _ <- store (HCpu id CLastToken) (ack_raw ack) ;;
  _ <- fetch_add (HCpu id (if guest then CGuestIrqs else CCurrentIrqs)) ;;
  if guest_masked then fetch_add (HCpu id CGuestMasked) else Ret tt.

Definition dispatch (ack : InterruptAck) (guest guest_masked : bool) : hprog (outcome SlotError bool) :=
  me <-? current_id ;;
  match me with
  | None => _ <- complete ack ;; Ret (Ok false)
  | Some id =>
      words <- drive virtual_words ;;
      routing <- check_routing ;;
      _ <- note_irq id ack guest guest_masked ;;
      source <- match InterruptAck_source ack with
                | Some interface => find_source MAX_CPUS 0 interface
                | None => Ret None
                end ;;
      request <-? take_from id source ;;
      match request, source with
      | Some r, Some s =>
          reply <-? serve id r ;;
          _ <- complete ack ;;
          b <- reply_checked id s r reply words routing ;;
          Ret (Ok b)
      | _, _ =>
          _ <- fetch_add (HCpu id CStray) ;;
          _ <- complete ack ;;
          Ret (Ok (match source with Some _ => true | None => false end))
      end
  end.

Definition has_fatal : hprog bool := v <- load (HFail FatalFlag) ;; Ret (v =? 1).

(** Whether the CPU halts for good; it masks its interrupts first. *)
Definition stop_if_requested : hprog (outcome SlotError bool) :=
  me <-? current_id ;;
  stop <- match me with
          | Some id => v <- load (HCpu id CStopped) ;; if v =? 1 then Ret true else has_fatal
          | None => has_fatal
          end ;;
  if negb stop then Ret (Ok false)
  else
    me <-? current_id ;;
    match me with
    | None => Ret (Ok true)
    | Some id =>
        _ <-? (if (id =? 0)%nat then Ret (Ok tt)
               else
                 st <-? relocate (fun l => HSlot id (Mail l)) lifecycle ;;
                 if decide (st = Online) then
                   generation <- load (HCpu id CGeneration) ;;
                   _ <- relocate (fun l => HSlot id (Mail l)) (management_park generation) ;;
                   Ret (Ok tt)
                 else Ret (Ok tt)) ;;
        _ <- store (HCpu id CHalted) 1 ;;
        Ret (Ok true)
    end.

Inductive irq_end := Handled (b : bool) | IrqHalted.

(** An interrupt taken at EL2; [installed] says that the controller is known. *)
Definition current_irq (installed : bool) : hprog (outcome SlotError irq_end) :=
  if negb installed then Ret (Ok (Handled false))
  else
  ack <- drive (Gicv2.acknowledge gic) ;;
  match ack with
  | None => Ret (Ok (Handled true))
  | Some ack =>
      if negb (InterruptAck_intid ack =? MANAGEMENT_SGI) then
        _ <- complete ack ;; Ret (Ok (Handled false))
      else
        handled <-? dispatch ack false false ;;
        stop <-? stop_if_requested ;;
        Ret (Ok (if (stop : bool) then IrqHalted else Handled handled))
  end.

(** ** The shape of a dispatch *)

(** No write to the controller and no word of a reply. *)
Definition mute (e : event host_loc) : Prop :=
  match e with
  | EStore (GReg _) _ | EStore GBarrier _ => False
  | EStore (HChan _ _ ResultCell) _ | EStore (HChan _ _ FailedCell) _ | EStore (HChan _ _ Acknowledged) _ => False
  | ESwap (GReg _ | GBarrier | HChan _ _ _) _ _ => False
  | ECasOk (GReg _ | GBarrier | HChan _ _ ResultCell | HChan _ _ FailedCell | HChan _ _ Acknowledged) _ _ => False
  | _ => True
  end.

(** Nor a request taken. *)
Definition aside (e : event host_loc) : Prop :=
  mute e /\ match e with ECasOk (HChan _ _ Taken) _ _ => False | _ => True end.

(** The interrupt's priority is dropped and it is deactivated, with the token
    the controller gave. *)
Definition completion (ack : InterruptAck) : list (event host_loc) :=
  [EStore GBarrier 0; EStore (GReg (gicc_eoir gic)) (ack_raw ack); EStore (GReg (gicc_dir gic)) (ack_raw ack);
   EStore GBarrier 0].

Definition replied (s id : nat) (r : Request) (reply : Reply) : list (event host_loc) :=
  [EStore (HChan s id ResultCell) (reply_value reply); EStore (HChan s id FailedCell) (Z.b2z (reply_failed reply));
   EStore (HChan s id Acknowledged) (request_sequence r)].

(** The guest's virtual interrupt state and the routing, as read. *)
Definition observed (v t u h : Z) : list (event host_loc) :=
  [ELoad (GReg (gich_vmcr gic)) v; ELoad (GReg (gich_lr0 gic)) t; ELoad (GReg (gich_lr1 gic)) u; ELoad HcrReg h].

Definition took (s id : nat) (r : Request) (tr : list (event host_loc)) : Prop :=
  exists pre o code, tr = pre ++ [ECasOk (HChan s id Taken) o (request_sequence r);
    ELoad (HChan s id OperationCell) code; ELoad (HChan s id ArgumentCell) (request_argument r)] /\
    Forall aside pre /\ operation_of code = Some (request_operation r).

(** A served request: taken, served without a word to the controller or to
    its sender, the interrupt completed, and answered once.  The answer is a
    success only if the guest's interrupt state and the routing are the same
    after the interrupt as before it. *)
Inductive served (ack : InterruptAck) (b : bool) : list (event host_loc) -> Prop :=
| served_intro first v t u h taking serving v' t' u' rest s id r reply :
    Forall aside first -> took s id r taking -> Forall aside serving -> Forall aside rest ->
    (b = false -> reply = refused) ->
    (b = true -> (as_u32 v, as_u32 t, as_u32 u) = (as_u32 v', as_u32 t', as_u32 u') /\
                 (h = HOST_HCR \/ h = GUEST_HCR) /\ exists more, rest = ELoad HcrReg h :: more) ->
    served ack b (first ++ observed v t u h ++ taking ++ serving ++ completion ack ++
      [ELoad (GReg (gich_vmcr gic)) v'; ELoad (GReg (gich_lr0 gic)) t'; ELoad (GReg (gich_lr1 gic)) u'] ++
      rest ++ replied s id r reply).

Definition dispatch_outcome (ack : InterruptAck) (tr : list (event host_loc)) (r : outcome SlotError bool) : Prop :=
  match r with
  | Ok b => (exists before, tr = before ++ completion ack /\ Forall aside before) \/ served ack b tr
  | _ => Forall mute tr
  end.

Lemma aside_mute e : aside e -> mute e.
Proof. by intros []. Qed.

Lemma asides_mute t : Forall aside t -> Forall mute t.
Proof. intros H. eapply Forall_impl; [exact H|apply aside_mute]. Qed.

Ltac asides := rewrite <- ?app_assoc; cbn [app]; repeat first [apply Forall_cons_2; [done|] | apply Forall_nil_2].

Lemma aside_current_id : emits aside current_id.
Proof.
  unfold current_id. generalize 0%nat. induction MAX_CPUS as [|n IH]; intros i; cbn [position]; [done|].
  destruct (slot_address i =? tpidr); [|done]. apply emits_bind_res; [|intros []; done].
  apply emits_relocate. unfold is_prepared, lifecycle. emits_go; done.
Qed.

Lemma aside_note id ack guest guest_masked : emits aside (note_irq id ack guest guest_masked).
Proof. unfold note_irq, fetch_add. emits_go; done. Qed.

Lemma aside_source n i interface : emits aside (find_source n i interface).
Proof. revert i. induction n as [|n IH]; intros i; cbn [find_source]; [done|]. emits_go; try done; apply IH. Qed.

Lemma aside_tlb : emits aside (relocate HTlb try_membership_change) /\
  emits aside (relocate HTlb finish_membership_change).
Proof.
  unfold try_membership_change, finish_membership_change, and_then, phase. split; emits_go; done.
Qed.

Lemma aside_mail {A} id (p : prog mailbox_loc A) : emits (fun _ => True) p -> emits aside (relocate (fun l => HSlot id (Mail l)) p).
Proof. intros H. apply emits_relocate. eapply emits_mono; [|exact H]. by intros [] _. Qed.

Lemma emits_true {L A} `{EqDecision L} (p : prog L A) : emits (fun _ => True) p.
Proof. induction p; cbn; naive_solver. Qed.

Lemma aside_serve id r : emits aside (serve id r).
Proof.
  destruct aside_tlb as [Ht Hf]. unfold serve, or_panic. destruct (request_operation r); try done.
  - destruct (id =? 0)%nat; [done|]. apply emits_bind; [done|]. intros []; cbn [negb]; [|done].
    apply emits_bind_res; [apply aside_mail, emits_true|]. intros st. apply emits_bind.
    { destruct (decide _); [done|]. apply emits_bind; [by emits_go|]. intros g. apply aside_mail, emits_true. }
    intros result. apply emits_bind_res; [by apply emits_bind|]. by intros [].
  - apply emits_bind; [done|]. intros []; cbn [negb]; [|done]. apply emits_bind; [emits_go; done|]. intros [].
    apply emits_bind_res; [by apply emits_bind|]. by intros [].
Qed.

Lemma traces_complete ack Q acc : Q (acc ++ completion ack) tt -> traces (complete ack) Q acc.
Proof. intros H. unfold complete, complete_host_interrupt. cbn. by rewrite <- !app_assoc. Qed.

Lemma traces_words Q acc :
  (forall v t u, Q (acc ++ [ELoad (GReg (gich_vmcr gic)) v; ELoad (GReg (gich_lr0 gic)) t; ELoad (GReg (gich_lr1 gic)) u])
                   (as_u32 v, as_u32 t, as_u32 u)) -> traces (drive virtual_words) Q acc.
Proof. intros H. cbn. intros v t u. rewrite <- !app_assoc. apply H. Qed.

Lemma traces_routing Q acc :
  (forall h, Q (acc ++ [ELoad HcrReg h]) (if negb (h =? HOST_HCR) && negb (h =? GUEST_HCR) then None else Some h)) ->
  traces check_routing Q acc.
Proof. intros H. unfold check_routing. cbn. intros h. apply H. Qed.

Lemma traces_take s id (Q : list (event host_loc) -> outcome SlotError (option Request) -> Prop) acc :
  (forall t, Forall aside t -> Q (acc ++ t) (Ok None)) ->
  (forall t r, took s id r t -> Q (acc ++ t) (Ok (Some r))) ->
  (forall t, Forall mute t -> Q (acc ++ t) Panic) ->
  traces (or_panic (relocate (HChan s id) take)) Q acc.
Proof.
  intros Hn Hs Hp. unfold or_panic. apply traces_bind. unfold take. cbn. intros q k.
  destruct (q =? k); cbn; [rewrite <- !app_assoc; apply Hn; asides|].
  split; [|intros w _; cbn; rewrite <- !app_assoc; apply Hn; asides].
  intros c. destruct (operation_of c) as [o|] eqn:E; cbn; [|rewrite <- !app_assoc; apply Hp; asides].
  intros a. rewrite <- !app_assoc. apply (Hs _ (mkRequest q o a)).
  exists [ELoad (HChan s id Sequence) q; ELoad (HChan s id Taken) k], k, c. cbn. split_and!; [done| |done]. asides.
Qed.

Lemma traces_take_from id source (Q : list (event host_loc) -> outcome SlotError (option Request) -> Prop) acc :
  (forall t, Forall aside t -> Q (acc ++ t) (Ok None)) ->
  (forall s t r, source = Some s -> took s id r t -> Q (acc ++ t) (Ok (Some r))) ->
  (forall t, Forall mute t -> Q (acc ++ t) Panic) ->
  traces (take_from id source) Q acc.
Proof.
  intros Hn Hs Hp. unfold take_from. destruct source as [s|]; [|rewrite <- (app_nil_r acc); apply Hn; constructor].
  destruct (s =? id)%nat; [rewrite <- (app_nil_r acc); apply Hn; constructor|].
  apply traces_take; [done| |done]. intros t r. by apply Hs.
Qed.

Lemma traces_fetch_add l Q acc :
  (forall v, Q (acc ++ [ELoad l v; EStore l ((v + 1) mod 2 ^ 64)]) tt) -> traces (fetch_add l) Q acc.
Proof. intros H. unfold fetch_add. cbn [pbind load store traces]. intros v. rewrite <- app_assoc. apply H. Qed.

Lemma traces_reply id s r reply words routing Q acc :
  (forall v t u rest, Forall aside rest ->
     Q (acc ++ [ELoad (GReg (gich_vmcr gic)) v; ELoad (GReg (gich_lr0 gic)) t; ELoad (GReg (gich_lr1 gic)) u] ++
        rest ++ replied s id r refused) false) ->
  (forall v t u h rest, Forall aside rest -> words = (as_u32 v, as_u32 t, as_u32 u) -> routing = Some h ->
     Q (acc ++ [ELoad (GReg (gich_vmcr gic)) v; ELoad (GReg (gich_lr0 gic)) t; ELoad (GReg (gich_lr1 gic)) u] ++
        (ELoad HcrReg h :: rest) ++ replied s id r reply) true) ->
  traces (reply_checked id s r reply words routing) Q acc.
Proof.
  intros Hno Hyes. unfold reply_checked. apply traces_bind, traces_words. intros v t u.
  assert (Hfail : forall rest, Forall aside rest ->
    traces (_ <- store (HCpu id CStopped) 1 ;; _ <- relocate (HChan s id) (Management.acknowledge r refused) ;; Ret false) Q
      ((acc ++ [ELoad (GReg (gich_vmcr gic)) v; ELoad (GReg (gich_lr0 gic)) t; ELoad (GReg (gich_lr1 gic)) u]) ++ rest)).
  { intros rest Hr. cbn. rewrite <- !app_assoc. cbn [app].
    specialize (Hno v t u (rest ++ [EStore (HCpu id CStopped) 1])). rewrite <- app_assoc in Hno. apply Hno, Forall_app.
    split; [done|asides]. }
  apply traces_bind. destruct (bool_decide _) eqn:Ew; cbn [negb].
  2: { cbn [traces negb]. specialize (Hfail []). rewrite app_nil_r in Hfail. by apply Hfail. }
  apply bool_decide_eq_true in Ew. destruct routing as [h|].
  2: { cbn [traces negb]. specialize (Hfail []). rewrite app_nil_r in Hfail. by apply Hfail. }
  apply traces_bind, traces_routing. intros h'. cbn [traces]. destruct (bool_decide _) eqn:Er; cbn [negb].
  2: { apply Hfail. asides. }
  apply bool_decide_eq_true in Er. destruct (negb _ && _); [done|]. injection Er as ->.
  apply traces_bind, traces_fetch_add. intros a. apply traces_bind, traces_fetch_add. intros b. cbn.
  rewrite <- !app_assoc. cbn [app]. eapply (Hyes v t u h' [_; _; _; _]); [|done|done]. asides.
Qed.

Lemma took_app s id r l t : Forall aside l -> took s id r t -> took s id r (l ++ t).
Proof.
  intros Hl (pre & o & code & -> & Hp & Ho). exists (l ++ pre), o, code. rewrite <- app_assoc.
  split_and!; [done|by apply Forall_app|done].
Qed.

Lemma took_mute s id r t : took s id r t -> Forall mute t.
Proof.
  intros (pre & o & code & -> & Hp & _). apply Forall_app. split; [by apply asides_mute|]. by repeat constructor.
Qed.

Lemma traces_dispatch ack guest guest_masked : traces (dispatch ack guest guest_masked) (dispatch_outcome ack) [].
Proof.
  unfold dispatch.
  apply traces_bind, (traces_emits aside); [apply aside_current_id|]. intros t0 me A0. cbn [app].
  destruct me as [me|e|]; [|by apply asides_mute..]. destruct me as [id|].
  2: { apply traces_bind, traces_complete. left. by exists t0. }
  apply traces_bind, traces_words. intros v t u. apply traces_bind, traces_routing. intros h.
  apply traces_bind, (traces_emits aside); [apply aside_note|]. intros t1 [] A1.
  apply traces_bind, (traces_emits aside).
  { destruct (InterruptAck_source ack); [apply aside_source|done]. }
  intros t2 source A2. set (first := observed v t u h).
  assert (Hobs : Forall aside first) by (unfold first, observed; asides).
  assert (Hacc : forall rest, (((((t0 ++ [ELoad (GReg (gich_vmcr gic)) v; ELoad (GReg (gich_lr0 gic)) t;
      ELoad (GReg (gich_lr1 gic)) u]) ++ [ELoad HcrReg h]) ++ t1) ++ t2) ++ rest) = t0 ++ first ++ (t1 ++ t2) ++ rest)
    by (intros; unfold first, observed; by rewrite <- !app_assoc).
  apply traces_bind, traces_take_from.
  - intros t3 A3. rewrite Hacc. apply traces_bind, traces_fetch_add. intros a. apply traces_bind, traces_complete.
    left. eexists. split; [done|]. rewrite !Forall_app. split_and!; try done; asides.
  - intros s t3 q -> Hr. rewrite Hacc. apply traces_bind, (traces_emits aside); [apply aside_serve|].
    intros t4 [reply|e|] A4.
    2,3: cbn [traces dispatch_outcome]; rewrite !Forall_app; apply took_mute in Hr;
      split_and!; (done || by apply asides_mute).
    assert (Htaken : took s id q ((t1 ++ t2) ++ t3)) by (apply took_app; [by apply Forall_app|done]).
    assert (Hshape : forall rest, ((t0 ++ first ++ (t1 ++ t2) ++ t3) ++ t4) ++ completion ack ++ rest =
      t0 ++ observed v t u h ++ ((t1 ++ t2) ++ t3) ++ t4 ++ completion ack ++ rest)
      by (intros; unfold first; by rewrite <- !app_assoc).
    apply traces_bind, traces_complete. apply traces_bind, traces_reply.
    + intros v' t' u' rest Hrest. right. rewrite <- app_assoc, Hshape. by econstructor.
    + intros v' t' u' h' rest Hrest Hw Hh. right. rewrite <- app_assoc, Hshape.
      destruct (negb (h =? HOST_HCR) && negb (h =? GUEST_HCR)) eqn:Eh; [done|]. injection Hh as <-.
      econstructor; try done; [asides; exact Hrest|]. intros _. split; [done|]. split; [|by eexists].
      apply andb_false_iff in Eh as [Eh|Eh]; apply negb_false_iff, Z.eqb_eq in Eh; auto.
  - intros t3 M3. rewrite Hacc. cbn [traces dispatch_outcome]. rewrite !Forall_app.
    split_and!; (done || by apply asides_mute).
Qed.

(** C23 [management_irq_completed]: whatever the handler reads, when it returns it
    has completed the interrupt exactly once, with the raw token it was given,
    and written nothing else of the controller, so a management interrupt
    never injects anything into a guest.  Either it took no request and sent
    no reply, or it took one request and answered it exactly once, after the
    interrupt was complete; the answer is a refusal unless the guest's virtual
    interrupt state and the interrupt routing are as before.  A handler that
    panics has neither completed nor answered. *)
Theorem management_irq_completed ack guest guest_masked tr r :
  steps (dispatch ack guest guest_masked) tr (Ret r) -> dispatch_outcome ack tr r.
Proof. apply (traces_steps _ (dispatch_outcome ack) []), traces_dispatch. Qed.

Lemma mute_stop : emits mute stop_if_requested.
Proof.
  unfold stop_if_requested, has_fatal. apply emits_bind_res; [|intros me].
  { eapply emits_mono; [apply aside_mute|apply aside_current_id]. }
  apply emits_bind; [destruct me; emits_go; done|]. intros []; cbn [negb]; [|done].
  apply emits_bind_res; [eapply emits_mono; [apply aside_mute|apply aside_current_id]|]. intros [id|]; [|done].
  apply emits_bind_res; [|intros []; emits_go; done]. destruct (id =? 0)%nat; [done|].
  apply emits_bind_res; [eapply emits_mono; [apply aside_mute|apply aside_mail, emits_true]|]. intros st.
  destruct (decide _); [|done]. apply emits_bind; [emits_go; done|]. intros g.
  apply emits_bind; [|done]. eapply emits_mono; [apply aside_mute|apply aside_mail, emits_true].
Qed.

End Irq.

Lemma traces_any {A} (p : hprog A) (Q : list (event host_loc) -> A -> Prop) acc :
  (forall t a, Q (acc ++ t) a) -> traces p Q acc.
Proof. intros H. eapply (traces_emits (fun _ => True)); [apply emits_true|]. auto. Qed.

(** ** No error leaves the handlers: what goes wrong there is a panic *)

Definition unerring {E A} (p : hprog (outcome E A)) : Prop := within (fun _ => True) p (fun r => forall e, r <> Err e).

Lemma unerring_any {E A B} (p : hprog A) (k : A -> hprog (outcome E B)) : (forall a, unerring (k a)) -> unerring (pbind p k).
Proof.
  intros H. apply within_bind. eapply within_mono; [|apply emits_within, emits_true]. intros a _. apply H.
Qed.

Lemma unerring_res {E A B} (p : hprog (outcome E A)) (k : A -> hprog (outcome E B)) :
  unerring p -> (forall a, unerring (k a)) -> unerring (pbind_res p k).
Proof.
  intros Hp Hk. apply within_bind. eapply within_mono; [|exact Hp]. intros [a|e|] Ha; [apply Hk|by destruct (Ha e)|done].
Qed.

Lemma unerring_or_panic {E F A} (p : hprog (outcome E A)) : unerring (or_panic (F := F) p).
Proof. apply unerring_any. by intros []. Qed.

Lemma unerring_lifecycle {E} id : unerring (E := E) (relocate (fun l => HSlot id (Mail l)) lifecycle).
Proof. cbn. intros v. split; [done|]. intros e. unfold cpu_state_of. by repeat case_match. Qed.

Lemma unerring_steps {E A} (p : hprog (outcome E A)) t e : unerring p -> ~ steps p t (Ret (Err e)).
Proof.
  intros Hp Hs. assert (Ht : traces p (fun _ r => forall e, r <> Err e) []) by (eapply traces_within; [exact Hp|auto]).
  by destruct (traces_steps _ _ [] _ _ Ht Hs e).
Qed.

Section Unerring.
Context (gic : GicV2) (slot_address : nat -> Z) (tpidr : Z).

Lemma unerring_current_id : unerring (current_id slot_address tpidr).
Proof using Type.
  unfold current_id. generalize 0%nat. induction MAX_CPUS as [|n IH]; intros i; cbn [position]; [done|].
  destruct (slot_address i =? tpidr); [|done]. apply unerring_res; [|intros []; [done|apply IH]].
  cbn. intros v. split; [done|]. unfold cpu_state_of. by repeat case_match.
Qed.

Lemma unerring_serve id r : unerring (serve id r).
Proof using Type.
  unfold serve. destruct (request_operation r); try done.
  - destruct (id =? 0)%nat; [done|]. apply unerring_any. intros []; cbn [negb]; [|done].
    apply unerring_res; [apply unerring_lifecycle|]. intros st. apply unerring_any. intros result.
    apply unerring_res; [apply unerring_or_panic|]. by intros []; destruct result.
  - apply unerring_any. intros []; cbn [negb]; [|done]. apply unerring_any. intros [].
    apply unerring_res; [apply unerring_or_panic|done].
Qed.

Lemma unerring_dispatch ack guest guest_masked : unerring (dispatch gic slot_address tpidr ack guest guest_masked).
Proof using Type.
  unfold dispatch. apply unerring_res; [apply unerring_current_id|]. intros [id|]; [|by apply unerring_any].
  do 4 (apply unerring_any; intros ?). apply unerring_res.
  { unfold take_from. destruct a2 as [s|]; [|done]. destruct (s =? id)%nat; [done|apply unerring_or_panic]. }
  intros [r|]; [destruct a2 as [s|]|]; [|by do 2 (apply unerring_any; intros ?)..].
  apply unerring_res; [apply unerring_serve|]. intros reply. by do 2 (apply unerring_any; intros ?).
Qed.

Lemma unerring_stop : unerring (stop_if_requested slot_address tpidr).
Proof using Type.
  unfold stop_if_requested. apply unerring_res; [apply unerring_current_id|]. intros me. apply unerring_any.
  intros []; cbn [negb]; [|done]. apply unerring_res; [apply unerring_current_id|]. intros [id|]; [|done].
  apply unerring_res; [|intros ?; by apply unerring_any]. destruct (id =? 0)%nat; [done|].
  apply unerring_res; [apply unerring_lifecycle|]. intros st. destruct (decide _); [|done]. by do 2 (apply unerring_any; intros ?).
Qed.
End Unerring.

(** ** Concrete instances *)

(** CPU 1 has asked CPU 0, which runs the guest, to answer a ping. *)
Definition sample_driver : GicV2 := mkGic sample_gic.
Definition sample_slots (i : nat) : Z := 0x40000 + Z.of_nat i * 384.
Definition sample_doorbell : InterruptAck := mkAck 0x401.

Definition sample_host (l : host_loc) : Z :=
  match l with
  | HcrReg => GUEST_HCR
  | HSlot 0 (Mail StateCell) => 1
  | HCpu 1 CReady => 1
  | HCpu 1 CTarget => 2
  | HChan 1 0 Sequence => 1
  | HChan 1 0 OperationCell => 1
  | HChan 1 0 ArgumentCell => 0x55
  | _ => 0
  end.

Lemma management_irq_completed_witness :
  exists tr s', dispatch_outcome sample_driver sample_doorbell tr (Ok true) /\ replay sample_host tr = Some s' /\
    s' (HChan 1 0 ResultCell) = 0x55 /\ s' (HChan 1 0 Acknowledged) = 1.
Proof.
  destruct (Atomics.exec (dispatch sample_driver sample_slots 0x40000 sample_doorbell true false) sample_host [])
    as [[r s']|] eqn:E; [|discriminate E].
  assert (Hr : option_map (fun p => (fst p, snd p (HChan 1 0 ResultCell), snd p (HChan 1 0 Acknowledged)))
    (Atomics.exec (dispatch sample_driver sample_slots 0x40000 sample_doorbell true false) sample_host []) =
    Some (Ok true, 0x55, 1)) by (vm_compute; reflexivity).
  rewrite E in Hr. injection Hr as -> H1 H2. destruct (exec_steps _ _ _ _ _ E) as (tr & Hs & Hp).
  exists tr, s'. split; [exact (management_irq_completed _ _ _ _ _ _ _ _ Hs)|].
  split; [exact Hp|]. split; [exact H1|exact H2].
Defined.
