(* ===== verification/ManagementDriver.v ===== *)
(** * Driving the other CPUs: src/src/management.rs, src/src/tlb.rs

    The boot CPU's side of the management channels and a secondary's life
    after it has parked: a CPU brings up its interrupt interface and makes
    itself known, the boot CPU activates every secondary and tests it in both
    directions, a worker then serves interrupts for ever, and before the guest
    runs every worker is parked.  A fatal failure is recorded and rung to the
    others.  The programs run over the locations of [ManagementIrq]; the
    counter is an input, and the bound of the polls an argument. *)

From S2P Require Import Prelude SystemInfo HostSpace Atomics Sync TlbUpdate SecondaryMailbox Management Failure El2Policy.
From S2P Require Import Pcpu Gicv2 Topology CpuStartup StartAll ManagementIrq.

(** The messages of the source. *)
Inductive ManagementError :=
| UnknownCpu | GicMissing | InvalidGicMapping | InvalidRouting | GicContractFailed | DuplicateTarget
| NotBootCpu | InvalidBootTarget | DistributorFailed
| SelfRequest | TargetNotReady | TargetStopped | ChannelUnavailable
| InvalidDeadline | InvalidCounter | AckTimeout | ReceiptConsumed | AckPollLimit
| AlreadyActivated | InitializationFailed | InitializationTimeout | InitializationPollLimit
| PingMismatch | ComputationMismatch | UnboundedJob | BackPingPollLimit | BackPingTimeout | DuplicateTargets
| ParkRejected | NotParked | Unresponsive | SnapshotBusy | IncompleteMembership.

Notation mprog A := (hprog (outcome ManagementError A)).

(** [p.map_err(|_| e)?], and an option in its place. *)
Definition or_fail {E A} (e : ManagementError) (p : hprog (outcome E A)) : mprog A :=
  r <- p ;; Ret (Prelude.map_err (fun _ => e) r).

Definition some_or {A} (e : ManagementError) (p : hprog (option A)) : mprog A :=
  r <- p ;; Ret (ok_or r e).

(** [LocalIrq] on this CPU, and [RestoreIrq] around a body that runs with
    interrupts unmasked; a panic does not return. *)
Definition with_irqs_open {A} (body : mprog A) : mprog A :=
  saved <- save_and_mask DaifReg ;;
  _ <- restore DaifReg 0 ;;
  r <- body ;;
  match r with
  | Panic => Ret Panic
  | _ => _ <- restore DaifReg saved ;; Ret r
  end.

Section Driver.
(** [gicv2::global()], the slots, and TPIDR of this CPU. *)
Context (gic : GicV2) (installed : bool) (slot_address : nat -> Z) (tpidr : Z).
(** [smp::topology()], the host's tables and this CPU's translation of an
    address, the frequency of the counter, the console's interrupt and the
    bound of a poll loop. *)
Context (topology : option CpuTopology) (host : HostSpace) (par : Z -> Z) (cntfrq console_irq : Z) (polls : nat).

Definition required : mprog Z := or_fail IncompleteMembership (Ret (required_mask topology)).

Definition me : mprog nat :=
  id <-? or_panic (current_id slot_address tpidr) ;; Ret (ok_or id UnknownCpu).

Definition lifecycle_of (id : nat) : mprog CpuState := relocate (fun l => HSlot id (Mail l)) lifecycle.

(** ** Bringing up an interface *)

Fixpoint check_windows (regions : list PhysRegion) : outcome ManagementError unit :=
  match regions with
  | [] => Ok tt
  | r :: rest =>
      let? _ := Prelude.map_err (fun _ => InvalidGicMapping) (validate_device_identity host par r) in check_windows rest
  end.

Definition gic_windows : list PhysRegion :=
  [distributor (info gic); cpu_interface (info gic); hypervisor_interface (info gic)].

(** No other ready CPU has the same interface. *)
Fixpoint check_duplicates (n other id : nat) (mask : Z) : mprog unit :=
  match n with
  | O => Ret (Ok tt)
  | S n' =>
      if (other =? id)%nat then check_duplicates n' (S other) id mask
      else
        ready <- load (HCpu other CReady) ;;
        if negb (ready =? 1) then check_duplicates n' (S other) id mask
        else
          t <- load (HCpu other CTarget) ;;
          if t =? mask then Ret (Err DuplicateTarget) else check_duplicates n' (S other) id mask
  end.

(** The interface is published, then made known. *)
Definition publish_interface (id : nat) (state : CpuInterfaceState) : hprog unit :=
  _ <- store (HCpu id CTarget) (target_mask (if_target state)) ;;
  _ <- store (HCpu id CControl) (control state) ;;
  _ <- store (HCpu id CPmr) (priority_mask state) ;;
  _ <- store (HCpu id CBpr) (binary_point state) ;;
  _ <- store (HCpu id CSecurity) (Z.lor (Z.b2z (security_extensions state)) (Z.shiftl (Z.b2z (group1 state)) 1)) ;;
  store (HCpu id CReady) 1.

(** What a refused interface makes it print is left out. *)
Definition initialize_local (worker : bool) : mprog unit :=
  id <-? me ;;
  if negb installed then Ret (Err GicMissing)
  else
    _ <-? Ret (check_windows gic_windows) ;;
    _ <-? some_or InvalidRouting check_routing ;;
    state <-? or_fail GicContractFailed (drive (initialize_cpu_interface gic worker)) ;;
    _ <-? check_duplicates MAX_CPUS 0 id (target_mask (if_target state)) ;;
    _ <- publish_interface id state ;;
    Ret (Ok tt).

Definition initialize_boot : mprog unit :=
  id <-? or_panic (current_id slot_address tpidr) ;;
  if negb (bool_decide (id = Some 0%nat)) then Ret (Err NotBootCpu)
  else if negb installed then Ret (Err GicMissing)
  else
    _ <-? Ret (check_windows gic_windows) ;;
    boot <-? or_fail InvalidBootTarget (drive (local_target gic)) ;;
    _ <-? or_fail DistributorFailed (drive (initialize_distributor gic console_irq boot)) ;;
    initialize_local false.

(** ** Requests *)

(** The sender's side of a channel; the receipt names it. *)
Definition request (target_id : nat) (operation : Operation) (argument : Z) : mprog (nat * Pending) :=
  source <-? me ;;
  if (target_id =? source)%nat then Ret (Err SelfRequest)
  else
    t <-? some_or TargetNotReady (target target_id) ;;
    stopped <- load (HCpu target_id CStopped) ;;
    if stopped =? 1 then Ret (Err TargetStopped)
    else
      pending <-? or_fail ChannelUnavailable (relocate (HChan source target_id) (submit operation argument)) ;;
      if negb installed then Ret (Err GicMissing)
      else
        _ <- drive (send_management gic t) ;;
        Ret (Ok (source, pending)).

Fixpoint await (n : nat) (start ticks : Z) (source target_id : nat) (pending : Pending) : mprog Reply :=
  match n with
  | O => Ret (Err AckPollLimit)
  | S n' =>
      now <- input ;;
      if ticks <=? wrapping_sub now start then Ret (Err AckTimeout)
      else
        r <- relocate (HChan source target_id) (try_result pending) ;;
        match snd r with
        | Ok (Some reply) => Ret (Ok reply)
        | Ok None => await n' start ticks source target_id (fst r)
        | Err _ => Ret (Err ReceiptConsumed)
        | Panic => Ret Panic
        end
  end.

Definition wait (target_id : nat) (receipt : nat * Pending) : mprog Reply :=
  match checked_mul cntfrq 2 with
  | Some ticks =>
      if (0 <? ticks) && (ticks <? Z.shiftl 1 63) then
        start <- input ;; await polls start ticks (fst receipt) target_id (snd receipt)
      else Ret (Err InvalidDeadline)
  | None => Ret (Err InvalidDeadline)
  end.

(** [request(..)?] and [wait(..)?] *)
Definition ask (target_id : nat) (operation : Operation) (argument : Z) : mprog Reply :=
  receipt <-? request target_id operation argument ;; wait target_id receipt.

(** [reply != (Reply { value, failed: false })] *)
Definition expect (e : ManagementError) (value : Z) (reply : Reply) : outcome ManagementError unit :=
  if (reply_value reply =? value) && negb (reply_failed reply) then Ok tt else Err e.

(** ** Activation *)

Fixpoint await_online (n : nat) (start ticks : Z) (id : nat) : mprog unit :=
  match n with
  | O => Ret (Err InitializationPollLimit)
  | S n' =>
      fatal <- has_fatal ;;
      if (fatal : bool) then Ret (Err InitializationFailed)
      else
        t <- target id ;;
        ready <-? match t with
                  | Some _ => st <-? lifecycle_of id ;; Ret (Ok (bool_decide (st = Online)))
                  | None => Ret (Ok false)
                  end ;;
        if (ready : bool) then Ret (Ok tt)
        else
          now <- input ;;
          if ticks <=? wrapping_sub now start then Ret (Err InitializationTimeout) else await_online n' start ticks id
  end.

(** The worker's own ping to the boot CPU; the last poll is the limit. *)
Fixpoint await_back (n : nat) (start ticks : Z) (id : nat) : mprog unit :=
  match n with
  | O => Ret (Ok tt)
  | S n' =>
      count <- relocate (HChan id 0) completed_count ;;
      if negb (count =? 0) then Ret (Ok tt)
      else if (n' =? 0)%nat then Ret (Err BackPingPollLimit)
      else
        now <- input ;;
        if ticks <=? wrapping_sub now start then Ret (Err BackPingTimeout) else await_back n' start ticks id
  end.

Definition activate_one (id : nat) : mprog unit :=
  _ <-? cas_or (Activate id) 0 1 AlreadyActivated ;;
  _ <- store EventSignal 1 ;;
  ticks <-? Ret (ok_or (checked_mul cntfrq 2) InvalidCounter) ;;
  start <- input ;;
  _ <-? await_online polls start ticks id ;;
  let value := 0x1150 + Z.of_nat id in
  ping <-? ask id Ping value ;;
  _ <-? Ret (expect PingMismatch value ping) ;;
  job <-? ask id WorkerTest 1024 ;;
  _ <-? Ret (expect ComputationMismatch (worker_test 1024) job) ;;
  rejected <-? ask id WorkerTest 4097 ;;
  if negb (reply_failed rejected) then Ret (Err UnboundedJob)
  else start <- input ;; await_back polls start ticks id.

Fixpoint activate_each (ids : list nat) : mprog unit :=
  match ids with
  | [] => Ret (Ok tt)
  | id :: rest => _ <-? activate_one id ;; activate_each rest
  end.

(** The targets of two CPUs differ. *)
Fixpoint distinct_from (id : nat) (others : list nat) : mprog unit :=
  match others with
  | [] => Ret (Ok tt)
  | other :: rest =>
      t <- target id ;;
      u <- target other ;;
      if bool_decide (target_mask <$> t = target_mask <$> u) then Ret (Err DuplicateTargets) else distinct_from id rest
  end.

Fixpoint distinct_targets (mask : Z) (ids : list nat) : mprog unit :=
  match ids with
  | [] => Ret (Ok tt)
  | id :: rest =>
      _ <-? distinct_from id (List.filter (fun other => (other =? 0)%nat || is_required mask other) (seq 0 id)) ;;
      distinct_targets mask rest
  end.

Definition activate_secondary : mprog unit :=
  mask <-? required ;;
  with_irqs_open
    (_ <-? activate_each (required_ids mask) ;;
     _ <-? distinct_targets mask (required_ids mask) ;;
     _ <-? some_or InvalidRouting check_routing ;;
     Ret (Ok tt)).

(** ** Parking *)

(** One CPU of [physical_smp_masks]: whether it is online, and parked. *)
Definition smp_state (id : nat) : mprog (bool * bool) :=
  t <- target id ;;
  match t with
  | None => Ret (Ok (false, false))
  | Some _ =>
      stopped <- load (HCpu id CStopped) ;;
      if stopped =? 1 then Ret (Ok (false, false))
      else
        st <-? lifecycle_of id ;;
        if (id =? 0)%nat || bool_decide (st = Online \/ st = Parked)
        then Ret (Ok (true, negb (id =? 0)%nat && bool_decide (st = Parked)))
        else Ret (Ok (false, false))
  end.

Fixpoint smp_masks (n id : nat) (online parked : Z) : mprog (Z * Z) :=
  match n with
  | O => Ret (Ok (online, parked))
  | S n' =>
      s <-? smp_state id ;;
      let bit := Z.shiftl 1 (Z.of_nat id) in
      smp_masks n' (S id) (if fst s then Z.lor online bit else online) (if snd s then Z.lor parked bit else parked)
  end.

Definition physical_smp_masks : mprog (Z * Z) := smp_masks MAX_CPUS 0 0 0.

Definition park_one (id : nat) : mprog unit :=
  reply <-? ask id Park 0 ;;
  if reply_failed reply then Ret (Err ParkRejected)
  else
    st <-? lifecycle_of id ;;
    if negb (bool_decide (st = Parked)) then Ret (Err NotParked)
    else
      ping <-? ask id Ping (0x1160 + Z.of_nat id) ;;
      Ret (expect Unresponsive (0x1160 + Z.of_nat id) ping).

Fixpoint park_each (ids : list nat) : mprog unit :=
  match ids with
  | [] => Ret (Ok tt)
  | id :: rest => _ <-? park_one id ;; park_each rest
  end.

(** The state of all CPUs under the gate that lifecycle changes take. *)
Definition smp_gate (mask : Z) : mprog unit :=
  open <- relocate HTlb try_membership_change ;;
  if negb open then Ret (Err SnapshotBusy)
  else
    masks <-? physical_smp_masks ;;
    _ <-? or_panic (relocate HTlb finish_membership_change) ;;
    if negb (fst masks =? Z.lor mask 1) || negb (snd masks =? mask) then Ret (Err IncompleteMembership)
    else
      fatal <- has_fatal ;;
      Ret (if (fatal : bool) then Err IncompleteMembership else Ok tt).

Definition park_workers : mprog unit :=
  mask <-? required ;;
  with_irqs_open (_ <-? park_each (required_ids mask) ;; smp_gate mask).

(** ** Failures *)

(** The slot whose context lies at [tpidr], prepared or not. *)
Fixpoint own_record (n i : nat) : nat :=
  match n with O => MAX_CPUS | S n' => if slot_address i =? tpidr then i else own_record n' (S i) end.

Definition record_fatal (f : Failure) : hprog unit :=
  relocate HFail (FatalState_record (S MAX_CPUS) (own_record MAX_CPUS 0) f).

Fixpoint ring_others (n id : nat) : hprog (outcome SlotError unit) :=
  match n with
  | O => Ret (Ok tt)
  | S n' =>
      me <-? current_id slot_address tpidr ;;
      _ <- (if bool_decide (me = Some id) then Ret tt
            else t <- target id ;; match t with Some t => drive (send_management gic t) | None => Ret tt end) ;;
      ring_others n' (S id)
  end.

Definition notify_fatal : hprog (outcome SlotError unit) :=
  if installed then ring_others MAX_CPUS 0 else Ret (Ok tt).

(** ** A worker *)

(** [msr daifset, #2] and [msr daifclr, #2] *)
Definition mask_irqs : hprog unit := d <- load DaifReg ;; store DaifReg (Z.lor d IRQ_BIT).
Definition unmask_irqs : hprog unit := d <- load DaifReg ;; store DaifReg (Z.ldiff d IRQ_BIT).

(** How far a worker has come: it waits to be activated, it has halted, or it
    serves interrupts. *)
Inductive worker_end := WorkerWaits | WorkerHalts | WorkerServes.

Fixpoint await_activation (n : nat) (id : nat) : hprog bool :=
  match n with
  | O => Ret false
  | S n' => a <- load (Activate id) ;; if a =? 1 then Ret true else await_activation n' id
  end.

(** The turns of the endless loop; the interrupts it lets in are those of
    [current_irq], which is a program of its own. *)
Fixpoint serve_interrupts (n : nat) : mprog worker_end :=
  match n with
  | O => Ret (Ok WorkerServes)
  | S n' =>
      _ <- mask_irqs ;;
      stop <-? or_panic (stop_if_requested slot_address tpidr) ;;
      if (stop : bool) then Ret (Ok WorkerHalts)
      else
        _ <- store GBarrier 0 ;;
        _ <- unmask_irqs ;;
        serve_interrupts n'
  end.

Definition worker_failed (id : nat) (generation : Z) : mprog worker_end :=
  r <- relocate (fun l => HSlot id (Mail l)) (management_failed generation) ;;
  match r with
  | Panic => Ret Panic
  | _ =>
      _ <- record_fatal (mkFailure 3 0 0 (Z.of_nat id)) ;;
      _ <-? or_panic notify_fatal ;;
      Ret (Ok WorkerHalts)
  end.

(** Whether the worker may come up. *)
Definition worker_initialize (id : nat) : mprog bool :=
  if (id =? 0)%nat then Ret (Ok false)
  else
    mask <-? required ;;
    if negb (is_required mask id) then Ret (Ok false)
    else r <- initialize_local true ;; Ret (match r with Ok _ => Ok true | Err _ => Ok false | Panic => Panic end).

(** The ping to the boot CPU; a worker without an answer stops. *)
Definition worker_ping (id : nat) : mprog unit :=
  r <- ask 0 Ping 0x1141 ;;
  match r with
  | Panic => Ret Panic
  | Err _ => _ <- store (HCpu id CStopped) 1 ;; Ret (Ok tt)
  | Ok reply =>
      match expect Unresponsive 0x1141 reply with
      | Ok _ => Ret (Ok tt)
      | _ => _ <- store (HCpu id CStopped) 1 ;; Ret (Ok tt)
      end
  end.

(** [turns] bounds the waits for activation and the turns of the loop. *)
Definition worker (turns : nat) (id : nat) (generation : Z) : mprog worker_end :=
  active <- await_activation turns id ;;
  if negb active then Ret (Ok WorkerWaits)
  else
    _ <- store (HCpu id CGeneration) generation ;;
    up <-? worker_initialize id ;;
    if negb up then worker_failed id generation
    else
      r <- relocate (fun l => HSlot id (Mail l)) (management_online generation) ;;
      match r with
      | Ok _ =>
          _ <- unmask_irqs ;;
          _ <-? worker_ping id ;;
          serve_interrupts turns
      | Err _ => Ret (Ok WorkerHalts)
      | Panic => Ret Panic
      end.
End Driver.

(** ** Specification *)

Notation hevent := (event host_loc).

(** One segment of a trace per CPU, in order. *)
Inductive in_turn (P : nat -> list hevent -> Prop) : list nat -> list hevent -> Prop :=
| in_turn_nil : in_turn P [] []
| in_turn_cons id ids t1 t2 : P id t1 -> in_turn P ids t2 -> in_turn P (id :: ids) (t1 ++ t2).

Section Spec.
Context (gic : GicV2) (slot_address : nat -> Z) (tpidr : Z).

(** The interface of CPU [id], as it made it known. *)
Definition known_target (id : nat) (t : CpuTarget) (tr : list hevent) : Prop :=
  exists w, ELoad (HCpu id CReady) 1 ∈ tr /\ ELoad (HCpu id CTarget) w ∈ tr /\ CpuTarget_new (as_u8 w) = Ok t.

Definition not_stopped (id : nat) (tr : list hevent) : Prop := exists v, ELoad (HCpu id CStopped) v ∈ tr /\ v <> 1.

(** A request is written to the channel from this CPU to [id], which is ready
    and not stopped, published by its number, and then its doorbell is rung. *)
Definition asked (source id : nat) (operation : Operation) (argument sequence : Z) (tr : list hevent) : Prop :=
  slot_address source = tpidr /\ source <> id /\
  exists before t, known_target id t before /\ not_stopped id before /\
    tr = before ++
      [EStore (HChan source id OperationCell) (operation_u64 operation); EStore (HChan source id ArgumentCell) argument;
       EStore (HChan source id Sequence) sequence; EStore (HChan source id Writer) 0;
       EStore GBarrier 0; EStore (GReg (distributor_base gic + GICD_SGIR)) (management_sgir t); EStore GBarrier 0].

(** Its acknowledgement is seen, the reply read, and the channel free again. *)
Definition answered (source id : nat) (sequence : Z) (reply : Reply) (tr : list hevent) : Prop :=
  exists before v f, reply = mkReply v (f =? 1) /\
    tr = before ++
      [ELoad (HChan source id Acknowledged) sequence; ELoad (HChan source id ResultCell) v;
       ELoad (HChan source id FailedCell) f; EStore (HChan source id Retired) sequence].

Definition exchanged (id : nat) (operation : Operation) (argument : Z) (reply : Reply) (tr : list hevent) : Prop :=
  exists source sequence t1 t2, tr = t1 ++ t2 /\ asked source id operation argument sequence t1 /\
    answered source id sequence reply t2.
End Spec.

(** ** Requests *)

(** Splits a complete execution at its first operation. *)
Ltac split_at H t1 t2 a H1 H2 :=
  lazymatch type of H with
  | steps (pbind_res _ _) _ (Ret (Ok _)) => apply steps_ok_inv in H as (t1 & t2 & a & -> & H1 & H2)
  | steps (pbind _ _) _ _ => apply steps_bind_inv in H as (t1 & t2 & a & -> & H1 & H2)
  end.

Ltac finish H := apply steps_ret_inv in H as [? ?]; simplify_eq.

Section Requests.
Context (gic : GicV2) (installed : bool) (slot_address : nat -> Z) (tpidr : Z) (cntfrq : Z) (polls : nat).

Lemma position_at n i tr id :
  steps (position slot_address tpidr n i) tr (Ret (Ok (Some id))) -> slot_address id = tpidr /\ (id < i + n)%nat.
Proof.
  revert i tr. induction n as [|n IH]; intros i tr H; cbn [position] in H; [by finish H|].
  destruct (Z.eqb_spec (slot_address i) tpidr).
  - split_at H t1 t2 b H1 H2. destruct b; [finish H2; split; [done|lia]|]. apply IH in H2 as [? ?]. split; [done|lia].
  - apply IH in H as [? ?]. split; [done|lia].
Qed.

Lemma me_at tr id : steps (me slot_address tpidr) tr (Ret (Ok id)) -> slot_address id = tpidr.
Proof.
  intros H. unfold me in H. split_at H t1 t2 o H1 H2. unfold or_panic in H1. split_at H1 t3 t4 r H3 H4. finish H4. finish H2.
  destruct r as [[]| |]; simplify_eq/=. by apply position_at in H3 as [].
Qed.

Lemma some_or_ok {A} e (p : hprog (option A)) tr a : steps (some_or e p) tr (Ret (Ok a)) -> steps p tr (Ret (Some a)).
Proof using.
  intros H. unfold some_or in H. split_at H t1 t2 r H1 H2. finish H2. rewrite app_nil_r. by destruct r; simplify_eq/=.
Qed.

Lemma or_fail_ok {E A} e (p : hprog (outcome E A)) tr a : steps (or_fail e p) tr (Ret (Ok a)) -> steps p tr (Ret (Ok a)).
Proof using.
  intros H. unfold or_fail in H. split_at H t1 t2 r H1 H2. finish H2. rewrite app_nil_r. by destruct r; simplify_eq/=.
Qed.

Lemma target_known tr id t : steps (target id) tr (Ret (Some t)) -> known_target id t tr.
Proof using.
  unfold target. destruct (_ <=? _)%nat; [intros H; finish H|]. intros H. inversion H as [|? ? v tr1 ? H1| | | | |]; subst.
  destruct (Z.eqb_spec v 1) as [->|]; cbn [negb] in H1; [|finish H1]. inversion H1 as [|? ? w tr2 ? H2| | | | |]; subst. finish H2.
  exists w. destruct (CpuTarget_new _) eqn:E; simplify_eq. split_and!; [constructor|constructor; constructor|done].
Qed.

Lemma submitted source id operation argument tr p :
  steps (relocate (HChan source id) (submit operation argument)) tr (Ret (Ok p)) ->
  pending_completed p = false /\ exists before,
    tr = before ++ [EStore (HChan source id OperationCell) (operation_u64 operation); EStore (HChan source id ArgumentCell) argument;
       EStore (HChan source id Sequence) (pending_sequence p); EStore (HChan source id Writer) 0].
Proof using.
  set (Q (tr : list hevent) (r : outcome ChannelError Pending) := forall p, r = Ok p -> pending_completed p = false /\ exists before,
    tr = before ++ [EStore (HChan source id OperationCell) (operation_u64 operation); EStore (HChan source id ArgumentCell) argument;
       EStore (HChan source id Sequence) (pending_sequence p); EStore (HChan source id Writer) 0]).
  intros H. refine (traces_steps _ Q [] tr (Ok p) _ H p eq_refl). unfold submit. cbn. split; [|by intros v _ ? ?].
  intros old retired. destruct (_ =? _); cbn; [|by intros ? ?]. destruct (checked_add old 1) as [n|]; cbn; [|by intros ? ?].
  intros q [= <-]. split; [done|]. by eexists [_; _; _].
Qed.

Lemma request_asked id operation argument tr source p :
  steps (request gic installed slot_address tpidr id operation argument) tr (Ret (Ok (source, p))) ->
  pending_completed p = false /\ asked gic slot_address tpidr source id operation argument (pending_sequence p) tr.
Proof.
  intros H. unfold request in H. split_at H t1 t2 s H1 H2. apply me_at in H1. destruct (Nat.eqb_spec id s); [finish H2|].
  split_at H2 t3 t4 t H3 H4. apply some_or_ok, target_known in H3 as (w & K1 & K2 & K3). split_at H4 t5 t6 v H5 H6.
  inversion H5 as [|? ? v' tr1 ? H7| | | | |]; subst. finish H7. destruct (Z.eqb_spec v 1); [finish H6|].
  split_at H6 t7 t8 q H7 H8. apply or_fail_ok, submitted in H7 as (Hc & before & ->). destruct installed; cbn [negb] in H8; [|finish H8].
  split_at H8 t9 t10 u H9 H10. finish H10. split; [done|]. split_and!; [done|done|].
  assert (E9 : t9 = [EStore GBarrier 0; EStore (GReg (distributor_base gic + GICD_SGIR)) (management_sgir t); EStore GBarrier 0]).
  { cbn in H9. repeat match goal with H : steps _ _ _ |- _ => inversion H; clear H; subst end. done. }
  subst t9. exists (t1 ++ t3 ++ [ELoad (HCpu id CStopped) v] ++ before), t. split_and!; [exists w; split_and!; [set_solver..|done]| |].
  - exists v. split; [set_solver|done].
  - by rewrite <- !app_assoc.
Qed.

Lemma await_answered n start ticks source id p tr reply : pending_completed p = false ->
  steps (await n start ticks source id p) tr (Ret (Ok reply)) -> answered source id (pending_sequence p) reply tr.
Proof using.
  intros Hp. revert tr. induction n as [|n IH]; intros tr H; cbn [await] in H; [finish H|].
  inversion H as [| | | | | |? now tr1 ? H1]; subst. destruct (ticks <=? _); [finish H1|]. unfold try_result in H1. rewrite Hp in H1.
  inversion H1 as [|? ? a tr2 ? H2| | | | |]; subst. cbn in H2. destruct (Z.eqb_spec a (pending_sequence p)) as [->|]; cbn in H2.
  - inversion H2 as [|? ? v tr3 ? H3| | | | |]; subst. inversion H3 as [|? ? f tr4 ? H4| | | | |]; subst.
    inversion H4 as [| |? ? ? tr5 ? H5| | | |]; subst. finish H5. by exists [EInput now], v, f.
  - apply IH in H2 as (before & v & f & -> & ->). by eexists (EInput now :: ELoad _ a :: before), v, f.
Qed.

Lemma ask_exchanged id operation argument tr reply :
  steps (ask gic installed slot_address tpidr cntfrq polls id operation argument) tr (Ret (Ok reply)) ->
  exchanged gic slot_address tpidr id operation argument reply tr.
Proof.
  intros H. unfold ask in H. split_at H t1 t2 receipt H1 H2. destruct receipt as [source p]. apply request_asked in H1 as [Hp Ha].
  unfold wait in H2. destruct (checked_mul _ _) as [ticks|]; [|finish H2]. destruct (_ && _); [|finish H2].
  inversion H2 as [| | | | | |? now tr1 ? H3]; subst. apply await_answered in H3 as (before & v & f & -> & ->); [|done].
  exists source, (pending_sequence p), t1. eexists. split_and!; [done|done|]. by exists (EInput now :: before), v, f.
Qed.
End Requests.

(** ** Interrupts around a body *)

(** The body ran with interrupts unmasked; afterwards the mask is as saved, and
    no other bit of DAIF changed with it. *)
Definition irqs_open (body tr : list hevent) : Prop :=
  exists d d1 d2 d3, Z.testbit d3 7 = Z.testbit d 7 /\ (forall k, 0 <= k -> k <> 7 -> Z.testbit d3 k = Z.testbit d2 k) /\
    tr = [ELoad DaifReg d; EStore DaifReg (Z.lor d IRQ_BIT); ELoad DaifReg d1; EStore DaifReg (Z.ldiff d1 IRQ_BIT)] ++
         body ++ [ELoad DaifReg d2; EStore DaifReg d3].

Lemma irq_bit_at k : 0 <= k -> Z.testbit IRQ_BIT k = (k =? 7).
Proof. intros. change IRQ_BIT with (2 ^ 7). rewrite Z.pow2_bits_eqb by done. apply Z.eqb_sym. Qed.

Lemma with_irqs_open_body {A} (body : mprog A) tr r : steps (with_irqs_open body) tr (Ret r) -> r <> Panic ->
  exists tb, steps body tb (Ret r) /\ irqs_open tb tr.
Proof.
  intros H Hr. unfold with_irqs_open in H. split_at H t1 t2 d H1 H2. unfold save_and_mask in H1.
  inversion H1 as [|? ? v tr1 ? H3| | | | |]; subst. inversion H3 as [| |? ? ? tr2 ? H4| | | |]; subst. finish H4.
  split_at H2 t3 t4 u H3' H4'. unfold restore in H3'. inversion H3' as [|? ? d1 tr3 ? H5| | | | |]; subst.
  inversion H5 as [| |? ? ? tr4 ? H6| | | |]; subst. finish H6. split_at H4' tb t6 r' H7 H8.
  assert (Hb : steps (_ <- restore DaifReg d ;; Ret r') t6 (Ret r)) by (destruct r'; [done..|by finish H8]). clear H8.
  split_at Hb t7 t8 u' H8 H9. finish H9. unfold restore in H8. inversion H8 as [|? ? d2 tr5 ? H10| | | | |]; subst.
  inversion H10 as [| |? ? ? tr6 ? H11| | | |]; subst. finish H11. exists tb. split; [done|].
  eexists d, d1, d2, _. split_and!; [| |by rewrite app_nil_r].
  - rewrite irq_bit. destruct (Z.testbit d 7); cbn [negb]; [by rewrite Z.lor_spec, orb_true_r|by rewrite Z.ldiff_spec, andb_false_r].
  - intros k Hk Hne. apply Z.eqb_neq in Hne. destruct (Z.land d IRQ_BIT =? 0); rewrite ?Z.lor_spec, ?Z.ldiff_spec, irq_bit_at, Hne by done.
    + apply andb_true_r.
    + apply orb_false_r.
Qed.

(** ** Parking *)

(** What is read of a CPU that is up: known, not stopped, and in state [st]. *)
Definition seen_in (st : CpuState) (id : nat) (tr : list hevent) : Prop :=
  (exists t, known_target id t tr) /\ not_stopped id tr /\ ELoad (HSlot id (Mail StateCell)) (cpu_state_u64 st) ∈ tr.

(** Nor is any other CPU up. *)
Definition seen_absent (id : nat) (tr : list hevent) : Prop :=
  (exists v, ELoad (HCpu id CReady) v ∈ tr /\ v <> 1) \/
  (exists w, ELoad (HCpu id CTarget) w ∈ tr /\ forall t, CpuTarget_new (as_u8 w) <> Ok t) \/
  ELoad (HCpu id CStopped) 1 ∈ tr \/
  exists v, ELoad (HSlot id (Mail StateCell)) v ∈ tr /\ v <> cpu_state_u64 Online /\ v <> cpu_state_u64 Parked.

(** Exactly the required CPUs are parked; CPU 0 is up, the others are not. *)
Definition settled (mask : Z) (tr : list hevent) : Prop :=
  forall id, (id < MAX_CPUS)%nat ->
    if is_required mask id then id <> 0%nat /\ seen_in Parked id tr
    else if (id =? 0)%nat then (exists t, known_target id t tr) /\ not_stopped id tr else seen_absent id tr.

(** The snapshot is taken between taking the lifecycle gate and leaving it,
    and no failure is recorded afterwards. *)
Definition gated (mask : Z) (tr : list hevent) : Prop :=
  exists before snapshot v, ECasOk (HTlb Gate) 0 2 ∈ before /\ settled mask snapshot /\ v <> 1 /\
    tr = before ++ snapshot ++ [ESwap (HTlb Gate) 2 0; ELoad (HFail FatalFlag) v].

Lemma lifecycle_read id tr st : steps (lifecycle_of id) tr (Ret (Ok st)) -> tr = [ELoad (HSlot id (Mail StateCell)) (cpu_state_u64 st)].
Proof.
  intros H. unfold lifecycle_of, lifecycle in H. cbn in H. inversion H as [|? ? v tr1 ? H1| | | | |]; subst. finish H1.
  unfold cpu_state_of in *. repeat case_match; simplify_eq; done.
Qed.

Lemma target_absent id tr : (id < MAX_CPUS)%nat -> steps (target id) tr (Ret None) ->
  (exists v, ELoad (HCpu id CReady) v ∈ tr /\ v <> 1) \/
  exists w, ELoad (HCpu id CTarget) w ∈ tr /\ forall t, CpuTarget_new (as_u8 w) <> Ok t.
Proof.
  intros Hid. unfold target. rewrite (proj2 (Nat.leb_gt MAX_CPUS id)) by done. intros H.
  inversion H as [|? ? v tr1 ? H1| | | | |]; subst. destruct (Z.eqb_spec v 1); cbn [negb] in H1.
  - inversion H1 as [|? ? w tr2 ? H2| | | | |]; subst. finish H2. right. exists w. split; [set_solver|]. intros t Ht. by rewrite Ht in *.
  - left. exists v. split; [set_solver|done].
Qed.

Lemma smp_state_seen id tr up parked : (id < MAX_CPUS)%nat -> steps (smp_state id) tr (Ret (Ok (up, parked))) ->
  (if up then (exists t, known_target id t tr) /\ not_stopped id tr else seen_absent id tr) /\
  (parked = true -> id <> 0%nat /\ seen_in Parked id tr).
Proof.
  intros Hid H. unfold smp_state in H. split_at H t1 t2 t H1 H2. destruct t as [t|].
  2: { finish H2. rewrite app_nil_r. split; [|done]. destruct (target_absent _ _ Hid H1); [by left|by right; left]. }
  apply target_known in H1 as (w & K1 & K2 & K3). inversion H2 as [|? ? v tr1 ? H3| | | | |]; subst. destruct (Z.eqb_spec v 1) as [->|Hv].
  { finish H3. split; [|done]. right. right. left. set_solver. }
  split_at H3 t3 t4 st H4 H5. apply lifecycle_read in H4 as ->.
  assert (Hk : forall tr', exists t, known_target id t (t1 ++ ELoad (HCpu id CStopped) v :: tr')) by (intros; exists t, w; set_solver).
  assert (Hn : forall tr', not_stopped id (t1 ++ ELoad (HCpu id CStopped) v :: tr')) by (intros; exists v; set_solver).
  destruct ((id =? 0)%nat || bool_decide (st = Online \/ st = Parked)) eqn:E; finish H5.
  - split; [by split|]. intros [H0 Hp%bool_decide_eq_true]%andb_true_iff. subst st. apply negb_true_iff, Nat.eqb_neq in H0.
    split; [done|]. split_and!; [done|done|set_solver].
  - split; [|done]. right. right. right. apply orb_false_iff in E as [_ E%bool_decide_eq_false]. exists (cpu_state_u64 st).
    split; [set_solver|]. destruct st; naive_solver.
Qed.

Lemma set_bit_at (on : bool) m i k :
  Z.testbit (if on then Z.lor m (Z.shiftl 1 (Z.of_nat i)) else m) (Z.of_nat k) = Z.testbit m (Z.of_nat k) || on && (k =? i)%nat.
Proof.
  destruct on; cbn [andb]; [|by rewrite orb_false_r]. rewrite Z.lor_spec, Z.shiftl_1_l, Z.pow2_bits_eqb by lia. f_equal.
  destruct (Z.eqb_spec (Z.of_nat i) (Z.of_nat k)), (Nat.eqb_spec k i); lia.
Qed.

Lemma smp_masks_seen n : forall i o p tr o' p', (forall k, (i <= k)%nat -> Z.testbit o (Z.of_nat k) = false /\ Z.testbit p (Z.of_nat k) = false) ->
  steps (smp_masks n i o p) tr (Ret (Ok (o', p'))) ->
  (forall k, (k < i)%nat -> Z.testbit o' (Z.of_nat k) = Z.testbit o (Z.of_nat k) /\ Z.testbit p' (Z.of_nat k) = Z.testbit p (Z.of_nat k)) /\
  forall id, (i <= id < i + n)%nat -> exists t, t ⊆ tr /\
    steps (smp_state id) t (Ret (Ok (Z.testbit o' (Z.of_nat id), Z.testbit p' (Z.of_nat id)))).
Proof.
  induction n as [|n IH]; intros i o p tr o' p' Hz H; cbn [smp_masks] in H.
  { finish H. split; [done|]. intros; lia. }
  split_at H t1 t2 ab H1 H2. destruct ab as [a b]. cbn [fst snd] in H2. apply IH in H2 as [Hlo Hseen].
  2: { intros k Hk. rewrite !set_bit_at. destruct (Hz k ltac:(lia)) as [-> ->]. rewrite (proj2 (Nat.eqb_neq k i)) by lia. by rewrite !andb_false_r. }
  split.
  - intros k Hk. destruct (Hlo k ltac:(lia)) as [-> ->]. rewrite !set_bit_at, (proj2 (Nat.eqb_neq k i)) by lia.
    by rewrite !andb_false_r, !orb_false_r.
  - intros id Hid. destruct (decide (id = i)) as [->|].
    + exists t1. split; [set_solver|]. destruct (Hlo i ltac:(lia)) as [-> ->]. destruct (Hz i ltac:(lia)) as [Ho Hp].
      rewrite !set_bit_at, Nat.eqb_refl, Ho, Hp, !andb_true_r. done.
    + destruct (Hseen id ltac:(lia)) as (t & Ht & Hs). exists t. split; [set_solver|done].
Qed.

(** What was read in a part of a trace. *)
Lemma seen_part st id t tr : t ⊆ tr ->
  ((exists c, known_target id c t) -> exists c, known_target id c tr) /\ (not_stopped id t -> not_stopped id tr) /\
  (seen_absent id t -> seen_absent id tr) /\ (seen_in st id t -> seen_in st id tr).
Proof.
  intros Ht. assert (Hk : (exists c, known_target id c t) -> exists c, known_target id c tr).
  { intros (c & w & ? & ? & ?). exists c, w. split_and!; [by apply Ht..|done]. }
  assert (Hn : not_stopped id t -> not_stopped id tr) by (intros (v & ? & ?); exists v; split; [by apply Ht|done]).
  split_and!; [done|done| |].
  - intros [(v & ? & ?)|[(w & ? & ?)|[?|(v & ? & ?)]]]; [left; exists v|right; left; exists w|right; right; left|right; right; right; exists v];
      try split; try done; by apply Ht.
  - intros (? & ? & ?). split_and!; [auto..|by apply Ht].
Qed.

Lemma is_required_bit mask id : is_required mask id = Z.testbit mask (Z.of_nat id).
Proof. apply land_single_bit. lia. Qed.

Lemma masks_settled mask tr : steps physical_smp_masks tr (Ret (Ok (Z.lor mask 1, mask))) -> settled mask tr.
Proof.
  intros H id Hid. apply smp_masks_seen in H as [_ H]; [|intros; by rewrite !Z.bits_0].
  destruct (H id ltac:(lia)) as (t & Ht & Hs). apply smp_state_seen in Hs as [Hup Hp]; [|done].
  destruct (seen_part Parked id t tr Ht) as (P1 & P2 & P3 & P4). rewrite is_required_bit.
  destruct (Z.testbit mask (Z.of_nat id)) eqn:E; [destruct (Hp eq_refl); auto|].
  rewrite Z.lor_spec, E in Hup. destruct (Nat.eqb_spec id 0) as [->|Hne]; [destruct Hup; auto|].
  rewrite orb_false_l in Hup. replace (Z.testbit 1 (Z.of_nat id)) with false in Hup; [auto|].
  symmetry. change 1 with (2 ^ 0). rewrite Z.pow2_bits_eqb by lia. apply Z.eqb_neq. lia.
Qed.

Lemma gate_taken tr : steps (relocate HTlb try_membership_change) tr (Ret true) -> ECasOk (HTlb Gate) 0 2 ∈ tr.
Proof.
  intros H. cbn in H. inversion H as [|? ? p0 tr1 ? H1| | | | |]; subst. destruct (bool_decide _); cbn in H1; [|finish H1].
  inversion H1 as [| | | |? ? ? ? tr2 ? H2|? ? ? ? v tr2 ? Hv H2|]; subst; [set_solver|finish H2].
Qed.

Lemma smp_gate_gated mask tr : steps (smp_gate mask) tr (Ret (Ok tt)) -> gated mask tr.
Proof.
  intros H. unfold smp_gate in H. split_at H t1 t2 b H1 H2. destruct b; cbn [negb] in H2; [|finish H2]. apply gate_taken in H1.
  split_at H2 t3 t4 m H3 H4. destruct m as [o p]. split_at H4 t5 t6 u H5 H6. cbn [fst snd] in H6.
  destruct (Z.eqb_spec o (Z.lor mask 1)) as [->|]; cbn [negb orb] in H6; [|finish H6].
  destruct (Z.eqb_spec p mask) as [->|]; cbn [negb orb] in H6; [|finish H6]. apply masks_settled in H3.
  unfold or_panic, finish_membership_change in H5. cbn in H5. inversion H5 as [| | |? ? ? old tr1 ? H7| | |]; subst. finish H7.
  destruct (Z.eqb_spec old 2) as [->|]; [|done]. unfold has_fatal in H6. cbn in H6. inversion H6 as [|? ? v tr2 ? H8| | | | |]; subst.
  finish H8. destruct (Z.eqb_spec v 1); [done|]. exists t1, t3, v. by rewrite <- ?app_assoc.
Qed.

Section Theorems.
Context (gic : GicV2) (installed : bool) (slot_address : nat -> Z) (tpidr : Z).
Context (topology : option CpuTopology) (cntfrq : Z) (polls : nat).

(** A worker parked on request, seen parked, and still answering. *)
Definition parked_responsive (id : nat) (tr : list hevent) : Prop :=
  exists t1 t2 reply, reply_failed reply = false /\ exchanged gic slot_address tpidr id Park 0 reply t1 /\
    exchanged gic slot_address tpidr id Ping (0x1160 + Z.of_nat id) (mkReply (0x1160 + Z.of_nat id) false) t2 /\
    tr = t1 ++ ELoad (HSlot id (Mail StateCell)) (cpu_state_u64 Parked) :: t2.

Lemma expect_ok e v r : expect e v r = Ok tt -> r = mkReply v false.
Proof.
  unfold expect. destruct r as [w f]. cbn. destruct (Z.eqb_spec w v) as [->|]; [|done]. by destruct f.
Qed.

Lemma park_each_ok ids tr :
  steps (park_each gic installed slot_address tpidr cntfrq polls ids) tr (Ret (Ok tt)) -> in_turn parked_responsive ids tr.
Proof.
  revert tr. induction ids as [|id ids IH]; intros tr H; cbn [park_each] in H; [finish H; constructor|].
  split_at H t1 t2 u H1 H2. constructor; [|by apply IH]. unfold park_one in H1. split_at H1 t3 t4 rp H3 H4.
  apply ask_exchanged in H3. destruct (reply_failed rp) eqn:Ef; [finish H4|]. split_at H4 t5 t6 st H5 H6. apply lifecycle_read in H5 as ->.
  case_bool_decide as Est; cbn [negb] in H6; [|finish H6]. subst st. split_at H6 t7 t8 ping H7 H8. apply ask_exchanged in H7.
  apply steps_ret_inv in H8 as [-> He]. destruct u. apply expect_ok in He as ->. exists t3, t7, rp. by rewrite app_nil_r.
Qed.

(** What runs with interrupts unmasked, for the CPUs that must be up. *)
Lemma open_for_required {A} (body : Z -> mprog A) tr r :
  steps (mask <-? required topology ;; with_irqs_open (body mask)) tr (Ret r) -> r <> Panic ->
  exists mask tb, required_mask topology = Ok mask /\ steps (body mask) tb (Ret r) /\ irqs_open tb tr.
Proof.
  intros H Hr. apply steps_bind_inv in H as (t0 & t & m & -> & H0 & H). unfold required, or_fail in H0. cbn [pbind] in H0. finish H0.
  assert (Hm : forall e, required_mask topology <> Err e).
  { intros e. unfold required_mask. destruct topology as [c|]; [|done]. by destruct (SecondaryEntry.secondary_mask (cpus c)). }
  destruct (required_mask topology) as [mask|e|]; [|by destruct (Hm e)|finish H; done]. exists mask. cbn in H.
  apply with_irqs_open_body in H as (tb & Hs & Ho); [|done]. by exists tb.
Qed.

(** C8 [workers_parked]: when the boot CPU has parked the workers, each required
    CPU in turn was asked to park, answered without a refusal, was then read
    as Parked, and still answered a ping with its own value.  Under the gate
    that serialises lifecycle changes exactly the required CPUs were seen
    parked, known and not stopped, no other CPU was up, and no failure was
    recorded.  However it ends, unless it panics, the CPU's interrupt mask is
    again what it was. *)
Theorem workers_parked tr r :
  steps (park_workers gic installed slot_address tpidr topology cntfrq polls) tr (Ret r) -> r <> Panic ->
  exists body, irqs_open body tr /\
    (r = Ok tt -> exists mask t1 t2, required_mask topology = Ok mask /\ body = t1 ++ t2 /\
       in_turn parked_responsive (required_ids mask) t1 /\ gated mask t2).
Proof.
  intros H Hr. apply open_for_required in H as (mask & tb & Hm & Hs & Ho); [|done]. exists tb. split; [done|]. intros ->.
  split_at Hs t1 t2 u H1 H2. exists mask, t1, t2. destruct u. split_and!; [done|done|by apply park_each_ok|by apply smp_gate_gated].
Qed.

(** A worker that came up when it was told to: it is activated once, seen known
    and online, answers a ping, does a computation, refuses one without a
    bound, and its own ping to the boot CPU has been answered. *)
Definition activated (id : nat) (tr : list hevent) : Prop :=
  exists t1 t2 t3 t4 t5 rejected count, reply_failed rejected = true /\ count <> 0 /\
    (exists t, known_target id t t1) /\ ELoad (HSlot id (Mail StateCell)) (cpu_state_u64 Online) ∈ t1 /\
    exchanged gic slot_address tpidr id Ping (0x1150 + Z.of_nat id) (mkReply (0x1150 + Z.of_nat id) false) t2 /\
    exchanged gic slot_address tpidr id WorkerTest 1024 (mkReply (worker_test 1024) false) t3 /\
    exchanged gic slot_address tpidr id WorkerTest 4097 rejected t4 /\
    tr = [ECasOk (Activate id) 0 1; EStore EventSignal 1] ++ t1 ++ t2 ++ t3 ++ t4 ++ t5 ++ [ELoad (HChan id 0 Acknowledged) count].

Lemma await_online_seen n start ticks id tr : steps (await_online n start ticks id) tr (Ret (Ok tt)) ->
  (exists t, known_target id t tr) /\ ELoad (HSlot id (Mail StateCell)) (cpu_state_u64 Online) ∈ tr.
Proof.
  revert tr. induction n as [|n IH]; intros tr H; cbn [await_online] in H; [finish H|].
  split_at H t1 t2 b H1 H2. destruct b; [finish H2|]. split_at H2 t3 t4 t H3 H4. split_at H4 t5 t6 rd H5 H6.
  assert (Hmore : rd = false -> (exists t, known_target id t (t1 ++ t3 ++ t5 ++ t6)) /\
    ELoad (HSlot id (Mail StateCell)) (cpu_state_u64 Online) ∈ t1 ++ t3 ++ t5 ++ t6).
  { intros ->. inversion H6 as [| | | | | |? now tr1 ? H7]; subst. destruct (ticks <=? _); [finish H7|].
    apply IH in H7 as ((c & w & ? & ? & ?) & ?). split; [exists c, w; split_and!; [set_solver..|done]|set_solver]. }
  destruct rd; [|auto]. finish H6. clear Hmore. destruct t as [t|]; [|finish H5]. apply target_known in H3 as (w & ? & ? & ?).
  split_at H5 t7 t8 st H7 H8. apply lifecycle_read in H7 as ->. finish H8. case_bool_decide; simplify_eq.
  split; [exists t, w; split_and!; [set_solver..|done]|set_solver].
Qed.

Lemma await_back_seen n start ticks id tr : n <> 0%nat -> steps (await_back n start ticks id) tr (Ret (Ok tt)) ->
  exists before count, count <> 0 /\ tr = before ++ [ELoad (HChan id 0 Acknowledged) count].
Proof.
  intros Hn. revert tr. induction n as [|n IH]; intros tr H; cbn [await_back] in H; [done|]. clear Hn.
  inversion H as [|? ? c tr1 ? H1| | | | |]; subst. destruct (Z.eqb_spec c 0); cbn [negb] in H1; [|by finish H1; exists [], c].
  destruct (Nat.eqb_spec n 0); [finish H1|]. inversion H1 as [| | | | | |? now tr2 ? H2]; subst. destruct (ticks <=? _); [finish H2|].
  apply IH in H2 as (before & count & Hc & ->); [|done]. by eexists (_ :: _ :: before), count.
Qed.

Lemma activate_one_ok id tr : polls <> 0%nat ->
  steps (activate_one gic installed slot_address tpidr cntfrq polls id) tr (Ret (Ok tt)) -> activated id tr.
Proof.
  intros Hp H. unfold activate_one in H. split_at H tx9 t2 u Ha H2. unfold cas_or in Ha. cbn in Ha.
  inversion Ha as [| | | |? ? ? ? tr2 ? H3|? ? ? ? v tr2 ? Hv H3|]; subst; finish H3.
  inversion H2 as [| |? ? ? tr3 ? H4| | | |]; subst. cbn [pbind] in H4. split_at H4 tx1 tx2 tk Hb Hc. apply steps_ret_inv in Hb as [-> _].
  inversion Hc as [| | | | | |? start tr4 ? H5]; subst. cbn [pbind] in H5. split_at H5 t1 t6 u1 H6 H7. destruct u1. apply await_online_seen in H6 as [K1 K2].
  split_at H7 tx8 t8 pg H8 H9. apply ask_exchanged in H8. split_at H9 tx3 tx4 u2 He Hf. apply steps_ret_inv in He as [-> He].
  destruct u2. apply expect_ok in He as ->. split_at Hf tx7 t10 jb Hj H10. apply ask_exchanged in Hj.
  split_at H10 tx5 tx6 u3 Hg Hh. apply steps_ret_inv in Hg as [-> Hg]. destruct u3. apply expect_ok in Hg as ->.
  split_at Hh tr5 t11 rj Hr H11. apply ask_exchanged in Hr. destruct (reply_failed rj) eqn:Er; cbn [negb] in H11; [|finish H11].
  inversion H11 as [| | | | | |? start' tr6 ? H12]; subst. apply await_back_seen in H12 as (before & count & Hcount & ->); [|done].
  exists (EInput start :: t1), tx8, tx7, tr5, (EInput start' :: before), rj, count.
  split_and!; [exact Er|exact Hcount| |by right|exact H8|exact Hj|exact Hr|cbn [app]; rewrite <- ?app_assoc; reflexivity].
  destruct K1 as (c & w & ? & ? & ?). exists c, w. split_and!; [by right..|done].
Qed.

Lemma activate_each_ok ids tr : polls <> 0%nat ->
  steps (activate_each gic installed slot_address tpidr cntfrq polls ids) tr (Ret (Ok tt)) -> in_turn activated ids tr.
Proof.
  intros Hp. revert tr. induction ids as [|id ids IH]; intros tr H; cbn [activate_each] in H; [finish H; constructor|].
  split_at H t1 t2 u H1 H2. destruct u. constructor; [by apply activate_one_ok|by apply IH].
Qed.

(** The interfaces of two CPUs were read and differ. *)
Definition targets_differ (id other : nat) (tr : list hevent) : Prop :=
  exists t1 t2 a b, t1 ++ t2 ⊆ tr /\ steps (target id) t1 (Ret a) /\ steps (target other) t2 (Ret b) /\
    target_mask <$> a <> target_mask <$> b.

Lemma targets_differ_part id other t tr : t ⊆ tr -> targets_differ id other t -> targets_differ id other tr.
Proof. intros Ht (t1 & t2 & a & c & Hs & H). exists t1, t2, a, c. split; [by etrans|done]. Qed.

Lemma distinct_from_ok id others tr : steps (distinct_from id others) tr (Ret (Ok tt)) ->
  Forall (fun other => targets_differ id other tr) others.
Proof.
  revert tr. induction others as [|other others IH]; intros tr H; cbn [distinct_from] in H; [constructor|].
  split_at H t1 t2 a H1 H2. split_at H2 t3 t4 c H3 H4. case_bool_decide as E; [finish H4|]. apply IH in H4. constructor.
  - exists t1, t3, a, c. split_and!; [|done..]. rewrite app_assoc. apply list_subseteq_app_l. done.
  - eapply Forall_impl; [exact H4|]. intros x. apply targets_differ_part. rewrite app_assoc. by apply list_subseteq_app_r.
Qed.

Lemma distinct_targets_ok mask ids tr : steps (distinct_targets mask ids) tr (Ret (Ok tt)) ->
  forall id other, id ∈ ids -> (other < id)%nat -> other = 0%nat \/ is_required mask other = true -> targets_differ id other tr.
Proof.
  revert tr. induction ids as [|i ids IH]; intros tr H id other Hin Hlt Hor; cbn [distinct_targets] in H; [by apply elem_of_nil in Hin|].
  split_at H t1 t2 u H1 H2. destruct u. apply elem_of_cons in Hin as [->|Hin].
  - apply distinct_from_ok in H1. rewrite List.Forall_forall in H1. eapply targets_differ_part; [by apply list_subseteq_app_l|].
    apply H1, filter_In. split; [apply in_seq; lia|]. destruct Hor as [->| ->]; [done|by rewrite orb_true_r].
  - eapply targets_differ_part; [by apply list_subseteq_app_r|]. eauto.
Qed.

(** C10 [secondaries_activated]: when activation succeeds, each required CPU in
    turn was activated exactly by this call, made its interface known and came
    Online, answered a ping with its value, computed the reference job,
    refused the job without a bound and had its own ping answered; then the
    interfaces of CPU 0 and of the required CPUs were read pairwise different,
    and HCR_EL2 is one of the two profiles.  However it ends, unless it
    panics, the CPU's interrupt mask is again what it was. *)
Theorem secondaries_activated tr r :
  polls <> 0%nat ->
  steps (activate_secondary gic installed slot_address tpidr topology cntfrq polls) tr (Ret r) -> r <> Panic ->
  exists body, irqs_open body tr /\
    (r = Ok tt -> exists mask t1 t2 h, required_mask topology = Ok mask /\ body = t1 ++ t2 ++ [ELoad HcrReg h] /\
       in_turn activated (required_ids mask) t1 /\ (h = HOST_HCR \/ h = GUEST_HCR) /\
       forall id other, id ∈ required_ids mask -> (other < id)%nat -> other = 0%nat \/ is_required mask other = true ->
         targets_differ id other t2).
Proof.
  intros Hp H Hr. apply open_for_required in H as (mask & tb & Hm & Hs & Ho); [|done]. exists tb. split; [done|]. intros ->.
  split_at Hs t1 t2 u H1 H2. destruct u. split_at H2 t3 t4 u H3 H4. destruct u. split_at H4 t5 t6 h H5 H6. finish H6.
  apply some_or_ok in H5. unfold check_routing in H5. cbn in H5. inversion H5 as [|? ? h' tr1 ? H7| | | | |]; subst. finish H7.
  exists mask, t1, t3, h'. split_and!; [done|by rewrite ?app_nil_r|by apply activate_each_ok| |by apply distinct_targets_ok].
  destruct (Z.eqb_spec h' HOST_HCR); [by left|]. destruct (Z.eqb_spec h' GUEST_HCR); [by right|done].
Qed.
End Theorems.

(** ** A worker comes up *)

(** The accesses by which a worker comes up, in order: it is activated, makes
    its interface known, is ready, and goes online. *)
Definition stage_event (id stage : nat) (e : hevent) : bool :=
  match stage, e with
  | 0%nat, ELoad (Activate i) 1 => (i =? id)%nat
  | 1%nat, EStore (HCpu i CTarget) _ => (i =? id)%nat
  | 2%nat, EStore (HCpu i CReady) 1 => (i =? id)%nat
  | 3%nat, ECasOk (HSlot i (Mail StateCell)) 3 4 => (i =? id)%nat
  | _, _ => false
  end.

Definition stage_step (id stage : nat) (e : hevent) : nat := if stage_event id stage e then S stage else stage.

Definition stage_of (id : nat) (tr : list hevent) : nat := fold_left (stage_step id) tr 0%nat.

(** A store that unmasks interrupts, and one to what another CPU owns. *)
Definition unmasks (e : hevent) : bool := match e with EStore DaifReg v => negb (Z.testbit v 7) | _ => false end.

Definition foreign (id : nat) (e : hevent) : bool :=
  match e with
  | EStore (HCpu i _) _ | ESwap (HCpu i _) _ _ | ECasOk (HCpu i _) _ _ => negb (i =? id)%nat
  | EStore (HSlot i _) _ | ESwap (HSlot i _) _ _ | ECasOk (HSlot i _) _ _ => negb (i =? id)%nat
  | EStore (HChan s _ _) _ | ESwap (HChan s _ _) _ _ | ECasOk (HChan s _ _) _ _ => negb (s =? id)%nat
  | EStore (Activate _) _ | ESwap (Activate _) _ _ | ECasOk (Activate _) _ _ => true
  | _ => false
  end.

Definition notes_failure (e : hevent) : bool := match e with EStore (HFail FatalFlag) 1 => true | _ => false end.

(** Interrupts are unmasked only by a worker that has come up, with its device
    windows validated ([ok]). *)
Definition worker_next (id : nat) (ok : bool) (st : nat * bool) (e : hevent) : option (nat * bool) :=
  if foreign id e || unmasks e && negb ((st.1 =? 4)%nat && ok) then None
  else Some (stage_step id st.1 e, st.2 || notes_failure e).

(** An access without effect on the stage. *)
Definition steady (id : nat) (e : hevent) : Prop :=
  foreign id e = false /\ unmasks e = false /\ notes_failure e = false /\ forall n, stage_event id n e = false.

Section Worker.
Context (gic : GicV2) (installed : bool) (slot_address : nat -> Z) (tpidr : Z).
Context (topology : option CpuTopology) (host : HostSpace) (par : Z -> Z) (cntfrq : Z) (polls : nat).
(** The CPU that runs the program, as its slot says. *)
Context (id : nat) (Hid : forall i, (i < MAX_CPUS)%nat -> slot_address i = tpidr -> i = id).

Context (windows_ok : bool) (Hwin : check_windows host par (gic_windows gic) = Ok tt -> windows_ok = true).
Notation worker_obeys := (obeys (worker_next id windows_ok) (fun _ _ => True)).

(** Accesses that are allowed and lead from [st] to a state with the same property. *)
Lemma obeys_within {A} (P : hevent -> Prop) (I : nat * bool -> Prop) (p : prog host_loc A) R Q st :
  (forall e st, P e -> I st -> exists st', worker_next id windows_ok st e = Some st' /\ I st') ->
  within P p R -> (forall a st', R a -> I st' -> Q a st') -> I st -> worker_obeys p Q st.
Proof using.
  intros Hone Hw HQ. assert (Hstep : forall e st K, P e -> I st -> (forall st', I st' -> K st') ->
    advance (worker_next id windows_ok) (fun _ _ => True) st e K).
  { intros e st0 K HP Hi Hk _. destruct (Hone e st0 HP Hi) as (st' & E & Hi'). eauto. }
  revert st. induction p as [a|l k IH|l v k IH|l v k IH|l o n k IH|k IH]; cbn [obeys within] in *; intros st Hi; [by apply HQ|..].
  - intros v. apply Hstep; [apply Hw|done|intros; by apply IH; [apply Hw|]].
  - apply Hstep; [apply Hw|done|intros; by apply IH; [apply Hw|]].
  - intros v0. apply Hstep; [apply Hw|done|intros; by apply IH; [apply Hw|]].
  - destruct Hw as [[? ?] Hw]. split; [apply Hstep; [done|done|intros; by apply IH]|]. intros v Hv.
    apply Hstep; [by apply Hw|done|intros; by apply IH; [apply Hw|]].
  - intros v. apply Hstep; [apply Hw|done|intros; by apply IH; [apply Hw|]].
Qed.

Lemma obeys_steady {A} (p : prog host_loc A) R Q st : within (steady id) p R -> (forall a, R a -> Q a st) -> worker_obeys p Q st.
Proof using.
  intros Hw HQ. apply (obeys_within (steady id) (eq st) p R); [|done| |done].
  - intros e st0 (Hf & Hu & Hn & Hs) <-. exists st. split; [|done]. unfold worker_next, stage_step. rewrite Hf, Hu, Hn, Hs. cbn.
    rewrite orb_false_r. by destruct st.
  - intros a st' Ha <-. by apply HQ.
Qed.

(** Once up, a worker only has to leave the others' words alone. *)
Lemma obeys_up {A} (p : prog host_loc A) R Q n : within (fun e => foreign id e = false) p R -> windows_ok = true ->
  (forall a n', R a -> Q a (4%nat, n')) -> worker_obeys p Q (4%nat, n).
Proof using.
  intros Hw Hok HQ. apply (obeys_within (fun e => foreign id e = false) (fun st => st.1 = 4%nat) p R); [|done| |done].
  - intros e [st0 n0] Hf Hi. cbn in Hi. subst st0. exists (4%nat, n0 || notes_failure e). split; [|done].
    unfold worker_next, stage_step. rewrite Hf, Hok. cbn. by rewrite andb_false_r.
  - intros a [st' n'] Ha Hi. cbn in Hi. subst st'. by apply HQ.
Qed.

(** ** The parts of a worker *)

Ltac steady_event := split_and!; try done; let k := fresh in intros k; do 4 (destruct k as [|k]; [done|]); done.
Ltac steady_go := emits_go; steady_event.

Lemma steady_drive {A} (m : mmio A) : emits (steady id) (drive m).
Proof using. induction m; cbn; try done; try (intros v; split; [steady_event|done]); (split; [steady_event|done]). Qed.

Lemma steady_mail {A} (p : prog mailbox_loc A) :
  emits (fun e => match e with ELoad _ _ | ECasFail _ _ _ | EInput _ => True | ECasOk l o n => l = StateCell /\ n <> 4 | _ => False end) p ->
  emits (steady id) (relocate (fun l => HSlot id (Mail l)) p).
Proof using.
  intros H. apply emits_relocate. eapply emits_mono; [|exact H]. intros [] He; cbn in *; try done; try steady_event.
  destruct He as [-> Hn]. split_and!; cbn; [by rewrite Nat.eqb_refl|done|done|]. intros [|[|[|[|k]]]]; cbn; try done.
  repeat case_match; try done; congruence.
Qed.

Lemma current_is : within (steady id) (current_id slot_address tpidr) (fun r => match r with Ok (Some j) => j = id | _ => True end).
Proof using Hid.
  assert (Hp : forall n i, (i + n = MAX_CPUS)%nat -> within (steady id) (position slot_address tpidr n i)
    (fun r => match r with Ok (Some j) => j = id | _ => True end)).
  { induction n as [|n IH]; intros i Hi; cbn [position]; [done|]. destruct (Z.eqb_spec (slot_address i) tpidr) as [Ht|]; [|apply IH; lia].
    apply within_bind. unfold is_prepared, lifecycle. cbn. intros v. split; [steady_event|].
    destruct (cpu_state_of v) as [st| |]; cbn; [|done..]. case_bool_decide; cbn; [apply IH; lia|]. apply Hid; [lia|done]. }
  by apply Hp.
Qed.

Lemma me_is : within (steady id) (me slot_address tpidr) (fun r => forall i, r = Ok i -> i = id).
Proof using Hid.
  unfold me, or_panic. apply within_bind, within_bind. eapply within_mono; [|apply current_is].
  intros [[j|]| |] Hj; cbn; intros i Hi; by simplify_eq.
Qed.

Lemma moved st e : foreign id e = false -> unmasks e = false ->
  worker_next id windows_ok st e = Some (stage_step id st.1 e, st.2 || notes_failure e).
Proof using. intros Hf Hu. unfold worker_next. by rewrite Hf, Hu. Qed.

Lemma obeys_activation n (Q : bool -> nat * bool -> Prop) :
  Q true (1%nat, false) -> Q false (0%nat, false) -> worker_obeys (await_activation n id) Q (0%nat, false).
Proof using.
  intros Ht Hf. induction n as [|n IH]; cbn [await_activation]; [done|]. intros v _. rewrite moved by done.
  eexists. split; [done|]. cbn. destruct (Z.eqb_spec v 1) as [->|Hv]; [unfold stage_step; cbn; by rewrite Nat.eqb_refl|].
  replace (stage_step id 0 (ELoad (Activate id) v)) with 0%nat; [exact IH|].
  unfold stage_step. cbn. repeat case_match; congruence.
Qed.

Lemma obeys_publish state (Q : unit -> nat * bool -> Prop) : Q tt (3%nat, false) -> worker_obeys (publish_interface id state) Q (1%nat, false).
Proof using.
  intros HQ. unfold publish_interface. cbn.
  do 6 (intros _; rewrite moved by (cbn; by rewrite ?Nat.eqb_refl); eexists; split; [done|]; unfold stage_step; cbn; rewrite ?Nat.eqb_refl; cbn).
  done.
Qed.

Lemma obeys_initialize (Q : outcome ManagementError unit -> nat * bool -> Prop) :
  (windows_ok = true -> Q (Ok tt) (3%nat, false)) -> (forall e, Q (Err e) (1%nat, false)) -> Q Panic (1%nat, false) ->
  worker_obeys (initialize_local gic installed slot_address tpidr host par true) Q (1%nat, false).
Proof using Hid Hwin.
  intros Hok Herr Hp.
  assert (Hlift : forall {A} (p : mprog A) (f : A -> mprog unit), emits (steady id) p ->
    (forall a, worker_obeys (f a) Q (1%nat, false)) -> worker_obeys (pbind_res p f) Q (1%nat, false)).
  { intros A p f He Hf. apply obeys_bind. eapply obeys_steady; [apply emits_within, He|]. intros [a|e|] _; cbn; auto. }
  unfold initialize_local. apply obeys_bind. eapply obeys_steady; [apply me_is|]. intros [i|e|] Hi; cbn [obeys]; auto.
  specialize (Hi i eq_refl). subst i. destruct installed; cbn [negb obeys]; [|auto].
  apply obeys_bind. cbn [obeys]. destruct (check_windows host par (gic_windows gic)) as [[]|e|]; cbn [obeys]; auto.
  apply Hlift; [unfold some_or, check_routing; steady_go|]. intros _.
  apply Hlift; [apply emits_bind; [apply steady_drive|done]|]. intros state. apply Hlift.
  { generalize MAX_CPUS 0%nat. intros n. induction n as [|n IH]; intros j; cbn [check_duplicates]; [done|].
    destruct (_ =? _)%nat; [apply IH|]. emits_go; try steady_event; apply IH. }
  intros _. apply obeys_bind, obeys_publish. cbn. auto.
Qed.

Lemma steady_ring : emits (steady id) (notify_fatal gic installed slot_address tpidr).
Proof.
  clear Hid Hwin. unfold notify_fatal. destruct installed; [|done]. generalize 0%nat. induction MAX_CPUS as [|n IH]; intros i; cbn [ring_others]; [done|].
  apply emits_bind_res.
  { unfold current_id. generalize 0%nat. induction MAX_CPUS as [|k IH']; intros j; cbn [position]; [done|].
    destruct (_ =? _); [|apply IH']. apply emits_bind_res; [apply emits_relocate; unfold is_prepared, lifecycle; steady_go|].
    intros []; [done|apply IH']. }
  intros m. apply emits_bind; [|intros; apply IH]. case_bool_decide; [done|]. apply emits_bind; [unfold target; steady_go|].
  intros [t|]; [apply steady_drive|done].
Qed.

Lemma within_or_panic {E F A} (P : hevent -> Prop) (p : hprog (outcome E A)) :
  emits P p -> within P (or_panic p) (fun r : outcome F A => forall e, r <> Err e).
Proof using. intros H. apply within_bind. eapply within_mono; [|apply emits_within, H]. by intros []. Qed.

Lemma obeys_failed generation st (Q : outcome ManagementError worker_end -> nat * bool -> Prop) :
  Q (Ok WorkerHalts) (st, true) -> (forall b, Q Panic (st, b)) ->
  worker_obeys (worker_failed gic installed slot_address tpidr id generation) Q (st, false).
Proof using Hid.
  intros Hh Hp.
  assert (Hnote : worker_obeys (_ <- record_fatal slot_address tpidr (mkFailure 3 0 0 (Z.of_nat id)) ;;
    _ <-? or_panic (notify_fatal gic installed slot_address tpidr) ;; Ret (Ok WorkerHalts)) Q (st, false)).
  { apply obeys_bind. unfold record_fatal, FatalState_record. intros _. rewrite moved by done. eexists. split; [done|].
    replace (stage_step id (st, false).1 (EStore (HFail FatalFlag) 1)) with st by (unfold stage_step; by destruct st as [|[|[|[|]]]]).
    eapply obeys_steady; [apply emits_within|].
    { destruct (_ <? _)%nat; [|done]. apply emits_relocate. unfold Failure.record. steady_go. }
    intros [] _. apply obeys_bind. eapply obeys_steady; [apply within_or_panic, steady_ring|].
    intros [[]|e|] Hr; cbn [obeys negb orb notes_failure fst snd]; [auto|by destruct (Hr e)|auto]. }
  unfold worker_failed. apply obeys_bind. eapply obeys_steady; [apply emits_within, steady_mail|intros [[]|e|] _; [done|done|cbn; auto]].
  unfold management_failed, transition, SecondaryMailbox.state, SecondaryMailbox.check, observe_ready, lifecycle.
  emits_go; cbn; done.
Qed.

(** ** Once up *)

Notation ours := (fun e => foreign id e = false).

Lemma steady_ours e : steady id e -> foreign id e = false.
Proof using. by intros []. Qed.

Lemma within_ours {A} (p : hprog A) R : within (steady id) p R -> within ours p R.
Proof using. induction p; cbn; unfold steady; naive_solver. Qed.

Lemma ours_mail {A} (p : prog mailbox_loc A) : within ours (relocate (fun l => HSlot id (Mail l)) p) (fun _ => True).
Proof using.
  apply emits_within, emits_relocate. eapply emits_mono; [|apply emits_true]. intros [] _; cbn; by rewrite ?Nat.eqb_refl.
Qed.

Lemma ours_chan {A} t (p : prog chan_loc A) R : within (fun _ => True) p R -> within ours (relocate (HChan id t) p) R.
Proof using.
  intros H. apply within_relocate. induction p; cbn in *; rewrite ?Nat.eqb_refl; naive_solver.
Qed.

Lemma ours_await n start ticks t p : within ours (await n start ticks id t p) (fun _ => True).
Proof using.
  revert p. induction n as [|n IH]; intros p; cbn [await pbind input within]; [done|]. intros v. split; [done|].
  destruct (ticks <=? wrapping_sub v start); [done|].
  apply within_bind. eapply within_mono; [|apply ours_chan, emits_within, emits_true].
  intros [p' [[rp|]| |]] _; cbn [snd fst]; [done|apply IH|done..].
Qed.

Lemma ours_ask t operation argument : within ours (ask gic installed slot_address tpidr cntfrq polls t operation argument) (fun _ => True).
Proof using Hid.
  unfold ask, request. apply within_bind, within_bind. eapply within_mono; [|apply within_ours, me_is].
  intros [i|e|] Hi; [|done..]. specialize (Hi i eq_refl). subst i. destruct (_ =? _)%nat; [done|].
  apply within_bind. eapply within_mono; [|apply emits_within; unfold some_or, target; emits_go; done]. intros [c|e|] _; [|done..].
  cbn [pbind load within]. intros v. split; [done|]. destruct (v =? 1); [done|]. apply within_bind.
  unfold or_fail. apply within_bind. eapply within_mono; [|apply ours_chan, emits_within, emits_true].
  intros [q|e|] _; [|done..]. cbn [Prelude.map_err within]. destruct installed; cbn [negb]; [|done]. apply within_bind.
  eapply within_mono; [|apply emits_within; eapply emits_mono; [apply steady_ours|apply steady_drive]]. intros [] _. cbn [within].
  unfold wait. cbn [fst snd]. repeat case_match; try done. cbn [pbind input within]. intros now. split; [done|]. apply ours_await.
Qed.

Lemma ours_ping : within ours (worker_ping gic installed slot_address tpidr cntfrq polls id) (fun _ => True).
Proof using Hid.
  unfold worker_ping. apply within_bind. eapply within_mono; [|apply ours_ask]. intros [rp|e|] _; [|cbn; by rewrite Nat.eqb_refl|done].
  destruct (expect _ _ _); cbn; by rewrite ?Nat.eqb_refl.
Qed.

Lemma ours_stop : within ours (stop_if_requested slot_address tpidr) (fun _ => True).
Proof using Hid.
  unfold stop_if_requested. apply within_bind. eapply within_mono; [|apply within_ours, current_is]. intros [o|e|] _; [|done..].
  apply within_bind. eapply within_mono; [|apply emits_within; unfold has_fatal; destruct o; emits_go; done]. intros [] _; [|done].
  cbn [negb]. apply within_bind. eapply within_mono; [|apply within_ours, current_is]. intros [[i|]|e|] Hi; [|done..]. subst i.
  apply within_bind. eapply within_mono; [|instantiate (1 := fun _ => True)].
  { intros [[]|e|] _; [|done..]. cbn. by rewrite Nat.eqb_refl. }
  destruct (id =? 0)%nat; [done|]. apply within_bind. eapply within_mono; [|apply ours_mail]. intros [st|e|] _; [|done..].
  destruct (decide _); [|done]. cbn [pbind load within]. intros g. split; [done|]. apply within_bind.
  eapply within_mono; [|apply ours_mail]. done.
Qed.

Lemma ours_serve n : within ours (serve_interrupts slot_address tpidr n) (fun _ => True).
Proof using Hid.
  induction n as [|n IH]; cbn [serve_interrupts]; [done|]. unfold mask_irqs. cbn [pbind load store within]. intros d. split; [done|]. split; [done|].
  apply within_bind, within_bind. eapply within_mono; [|apply ours_stop]. intros [[]|e|] _; cbn [within]; [done| |done..].
  unfold unmask_irqs. cbn [pbind load store within]. split; [done|]. intros d'. split; [done|]. split; [done|]. exact IH.
Qed.

(** ** The worker *)

Lemma obeys_online generation (Q : outcome ProtocolError unit -> nat * bool -> Prop) :
  Q (Ok tt) (4%nat, false) -> (forall r, r <> Ok tt -> Q r (3%nat, false)) ->
  worker_obeys (relocate (fun l => HSlot id (Mail l)) (management_online generation)) Q (3%nat, false).
Proof using.
  intros Hok Hno. unfold management_online, transition, SecondaryMailbox.check, observe_ready.
  destruct (generation =? 0); cbn; [by apply Hno|]. intros v _. rewrite moved by done. eexists. split; [done|]. unfold stage_step. cbn.
  destruct (v =? generation); cbn; [|by apply Hno]. split.
  - intros _. rewrite moved by (cbn; by rewrite ?Nat.eqb_refl). eexists. split; [done|]. unfold stage_step. cbn. by rewrite Nat.eqb_refl.
  - intros w _ _. rewrite moved by done. eexists. split; [done|]. unfold stage_step. cbn. by apply Hno.
Qed.

Lemma obeys_worker_initialize (Q : outcome ManagementError bool -> nat * bool -> Prop) :
  (windows_ok = true -> Q (Ok true) (3%nat, false)) -> Q (Ok false) (1%nat, false) -> (forall e, Q (Err e) (1%nat, false)) ->
  Q Panic (1%nat, false) -> worker_obeys (worker_initialize gic installed slot_address tpidr topology host par id) Q (1%nat, false).
Proof using Hid Hwin.
  intros Ht Hf He Hp. unfold worker_initialize. destruct (id =? 0)%nat; [done|]. unfold required, or_fail, pbind_res. cbn [pbind].
  destruct (required_mask topology) as [mask|e|]; cbn [Prelude.map_err]; [|apply He|done]. destruct (is_required mask id); cbn [negb]; [|done].
  apply obeys_bind, obeys_initialize; [exact Ht|intros e; exact Hf|exact Hp].
Qed.

Lemma obeys_worker turns generation :
  worker_obeys (worker gic installed slot_address tpidr topology host par cntfrq polls turns id generation)
    (fun r st => r = Ok WorkerHalts -> (st.1 < 3)%nat -> st.2 = true) (0%nat, false).
Proof using Hid Hwin.
  unfold worker. apply obeys_bind, obeys_activation; cbn [negb obeys]; [|done]. apply obeys_bind.
  eapply (obeys_steady _ (fun _ => True)); [cbn; split; [|done]; split_and!; cbn; [by rewrite Nat.eqb_refl|done|done|by intros [|[|[|[|]]]]]|].
  intros [] _.
  assert (Hfail : worker_obeys (worker_failed gic installed slot_address tpidr id generation)
    (fun r st => r = Ok WorkerHalts -> (st.1 < 3)%nat -> st.2 = true) (1%nat, false)) by (by apply obeys_failed).
  apply obeys_bind, obeys_worker_initialize; [|exact Hfail|done|done].
  intros Hok. cbn [obeys negb]. apply obeys_bind, obeys_online.
  - apply obeys_bind. eapply obeys_up; [apply emits_within; unfold unmask_irqs; emits_go; done|done|]. intros [] n' _.
    apply obeys_bind. eapply obeys_up; [apply ours_ping|done|]. intros [[]|e|] n _; [|done..].
    eapply obeys_up; [apply ours_serve|done|]. intros r n1 _ _ H. cbn in H. lia.
  - intros [[]|e|] Hr; [done|cbn; lia|done].
Qed.


Lemma worker_follow {A} (p p' : hprog A) Q tr : forall st, worker_obeys p Q st -> steps p tr p' ->
  Forall ours tr /\
  (forall pre e post, tr = pre ++ e :: post -> unmasks e = true -> fold_left (stage_step id) pre st.1 = 4%nat /\ windows_ok = true) /\
  worker_obeys p' Q (fold_left (stage_step id) tr st.1, st.2 || existsb notes_failure tr).
Proof using.
  revert p. induction tr as [|e tr IH]; intros p st Ho Hs.
  { inversion Hs; subst. split_and!; [constructor|by intros []|]. cbn. rewrite orb_false_r. by destruct st. }
  destruct (obeys_step _ _ _ _ _ _ _ _ Ho Hs I) as (st' & p1 & Hn & Ho1 & Hs1). unfold worker_next in Hn.
  destruct (foreign id e || _) eqn:E; [done|]. injection Hn as <-. apply orb_false_iff in E as [Hf Hu].
  destruct (IH _ _ Ho1 Hs1) as (H1 & H2 & H3). split_and!.
  - by constructor.
  - intros [|x pre] f post Hsplit Hun; cbn in Hsplit; simplify_eq; [|by eapply H2]. rewrite Hun in Hu. cbn in Hu.
    apply negb_false_iff, andb_true_iff in Hu as [Hst Hok]. apply Nat.eqb_eq in Hst. done.
  - cbn [fold_left existsb]. cbn [fst snd] in H3. by rewrite orb_assoc.
Qed.
End Worker.

(** The accesses of a worker that has come up. *)
Definition came_up (id : nat) (tr : list hevent) : Prop :=
  exists a b c d f mask, tr = a ++ ELoad (Activate id) 1 :: b ++ EStore (HCpu id CTarget) mask ::
    c ++ EStore (HCpu id CReady) 1 :: d ++ ECasOk (HSlot id (Mail StateCell)) (cpu_state_u64 Parked) (cpu_state_u64 Online) :: f.

Lemma stage_reached id n tr : (n < stage_of id tr)%nat ->
  exists a e b, tr = a ++ e :: b /\ stage_event id n e = true /\ stage_of id a = n.
Proof.
  induction tr as [|e tr IH] using rev_ind; [cbn; lia|]. unfold stage_of in *. rewrite fold_left_app. cbn. unfold stage_step at 1.
  destruct (stage_event id _ e) eqn:E.
  - intros Hn. destruct (decide (n = fold_left (stage_step id) tr 0%nat)) as [->|]; [by exists tr, e, []|].
    destruct IH as (a & x & b & -> & ? & ?); [lia|]. exists a, x, (b ++ [e]). by rewrite <- app_assoc.
  - intros Hn. destruct (IH Hn) as (a & x & b & -> & ? & ?). exists a, x, (b ++ [e]). by rewrite <- app_assoc.
Qed.

Lemma stage_events id n e : stage_event id n e = true ->
  match n with
  | 0%nat => e = ELoad (Activate id) 1
  | 1%nat => exists mask, e = EStore (HCpu id CTarget) mask
  | 2%nat => e = EStore (HCpu id CReady) 1
  | _ => e = ECasOk (HSlot id (Mail StateCell)) (cpu_state_u64 Parked) (cpu_state_u64 Online)
  end.
Proof.
  destruct n as [|[|[|[|]]]]; [| | | |done].
  - destruct e as [[] v| | | | |]; try done. destruct v as [|[]|]; try done. by intros ->%Nat.eqb_eq.
  - destruct e as [|[] v| | | |]; try done. destruct f; try done. intros ->%Nat.eqb_eq. by eexists.
  - destruct e as [|[] v| | | |]; try done. destruct f; try done. destruct v as [|[]|]; try done. by intros ->%Nat.eqb_eq.
  - destruct e as [| | |[] o k| |]; try done. destruct l as [|[]|]; try done. destruct o as [|[[]| |]|]; try done.
    destruct k as [|[?|[?|[| |]|]|]|]; try done. by intros ->%Nat.eqb_eq.
Qed.

Lemma ready_stored id tr : (2 < stage_of id tr)%nat -> EStore (HCpu id CReady) 1 ∈ tr.
Proof.
  intros (a & e & b & -> & He & _)%stage_reached. apply stage_events in He as ->. set_solver.
Qed.

Lemma stage_came_up id tr : stage_of id tr = 4%nat -> came_up id tr.
Proof.
  intros H4. destruct (stage_reached id 3 tr) as (t3 & e4 & f & -> & E4 & H3); [lia|].
  destruct (stage_reached id 2 t3) as (t2 & e3 & d & -> & E3 & H2); [lia|].
  destruct (stage_reached id 1 t2) as (t1 & e2 & c & -> & E2 & H1); [lia|].
  destruct (stage_reached id 0 t1) as (a & e1 & b & -> & E1 & _); [lia|].
  apply stage_events in E1, E2, E3, E4. destruct E2 as [mask ->]. subst. exists a, b, c, d, f, mask. by rewrite <- !app_assoc.
Qed.

Lemma check_windows_all host par regions : Forall (fun r => u64 (rstart r)) regions -> check_windows host par regions = Ok tt ->
  Forall (device_window host par) regions.
Proof.
  induction 1 as [|r regions Hr Hrs IH]; cbn [check_windows]; [constructor|].
  destruct (validate_device_identity host par r) as [[]| |] eqn:E; cbn [Prelude.map_err obind]; [|done..]. intros H.
  constructor; [by apply device_identity_checked|by apply IH].
Qed.

(** C9 [worker_comes_up]: a secondary that runs the worker writes to no runtime
    record, slot or channel but its own, at any point of its run.  It unmasks
    interrupts only after it has been activated, published its interface, then
    declared itself ready and then moved its lifecycle from Parked to Online,
    in this order, and only if the three windows of the interrupt controller
    are mapped, page by page, as writable devices onto themselves, in the
    tables and for the hardware.  If it halts without having declared itself
    ready it has raised the fatal flag. *)
Theorem worker_comes_up gic installed slot_address tpidr topology host par cntfrq polls id turns generation tr p' :
  (forall i, (i < MAX_CPUS)%nat -> slot_address i = tpidr -> i = id) ->
  Forall (fun r => u64 (rstart r)) (gic_windows gic) ->
  steps (worker gic installed slot_address tpidr topology host par cntfrq polls turns id generation) tr p' ->
  Forall (fun e => foreign id e = false) tr /\
  (forall pre e post, tr = pre ++ e :: post -> unmasks e = true ->
     came_up id pre /\ Forall (device_window host par) (gic_windows gic)) /\
  (p' = Ret (Ok WorkerHalts) -> EStore (HCpu id CReady) 1 ∉ tr -> EStore (HFail FatalFlag) 1 ∈ tr).
Proof.
  intros Hid Hu Hs. set (ok := match check_windows host par (gic_windows gic) with Ok _ => true | _ => false end).
  assert (Hw : check_windows host par (gic_windows gic) = Ok tt -> ok = true) by (unfold ok; by intros ->).
  destruct (worker_follow id ok _ _ _ _ (0%nat, false)
    (obeys_worker gic installed slot_address tpidr topology host par cntfrq polls id Hid ok Hw turns generation) Hs) as (H1 & H2 & H3).
  split_and!; [done| |].
  - intros pre e post Hsplit Hun. destruct (H2 pre e post Hsplit Hun) as [Hst Hok]. split; [by apply stage_came_up|].
    apply check_windows_all; [done|]. unfold ok in Hok. by destruct (check_windows _ _ _) as [[]| |].
  - intros -> Hr. cbn [obeys fst snd] in H3. specialize (H3 eq_refl). destruct (Nat.lt_ge_cases (stage_of id tr) 3) as [Hlt|Hge].
    + specialize (H3 Hlt). cbn in H3. apply existsb_exists in H3 as (e & Hin & He). destruct e as [|[] v| | | |]; cbn in He; try done.
      destruct l; try done. destruct v as [|[]|]; try done. by apply list_elem_of_In.
    + by destruct Hr; apply ready_stored.
Qed.

(** ** Concrete instances *)

(** The board of [CpuStartup], whose CPUs 1 and 2 are secondaries, with the
    host's tables.  A doorbell makes the CPU it names run its handler. *)
Definition board_gic : GicV2 := mkGic HostSpace.sample_gic.
Definition board_doorbell : Z := distributor_base board_gic + GICD_SGIR.

Definition rung (sender : Z) (e : hevent) (s : memory host_loc) : memory host_loc :=
  match e with
  | EStore (GReg a) v =>
      if a =? board_doorbell then
        let id := Z.to_nat (Z.log2 (Z.shiftr v 16)) in
        match Atomics.exec (dispatch board_gic sample_slots (sample_slots id) (mkAck (Z.lor (Z.shiftl sender 10) 1)) false false) s [] with
        | Some (_, s') => s'
        | None => s
        end
      else s
  | EStore EventSignal _ =>
      let up id s := upd (upd (upd (upd s (HCpu id CTarget) (Z.shiftl 1 (Z.of_nat id))) (HCpu id CReady) 1)
                       (HSlot id (Mail StateCell)) 4) (HChan id 0 Acknowledged) 1 in
      up 2%nat (up 1%nat s)
  | _ => s
  end.

(** All known and online. *)
Definition board_online (l : host_loc) : Z :=
  match l with
  | HcrReg => HOST_HCR
  | HSlot 0 (Mail StateCell) => 1
  | HSlot (S _) (Mail StateCell) => 4
  | HSlot _ (Mail Ready) | HCpu _ CGeneration | HCpu (0 | 1 | 2) CReady => 1
  | HCpu 0 CTarget => 1
  | HCpu 1 CTarget => 2
  | HCpu 2 CTarget => 4
  | _ => 0
  end.

(** Parked, and not yet known. *)
Definition board_parked (l : host_loc) : Z :=
  match l with
  | HSlot (S _) (Mail StateCell) => 3
  | HCpu (S _) (CReady | CTarget) => 0
  | l => board_online l
  end.

(** A run that ends well. *)
Lemma played_ok {E A} react (p : hprog (outcome E A)) s inputs :
  match play react p s inputs with Some (_, Ok _) => true | _ => false end = true -> exists tr a, steps p tr (Ret (Ok a)).
Proof.
  destruct (play react p s inputs) as [[tr [a|e|]]|] eqn:E0; try discriminate. intros _. apply play_steps in E0. by exists tr, a.
Qed.

Lemma workers_parked_witness :
  exists tr, steps (park_workers board_gic true sample_slots (sample_slots 0) (Some board_topology) 1000 4) tr (Ret (Ok tt)) /\
    exists body mask t1 t2, irqs_open body tr /\ required_mask (Some board_topology) = Ok mask /\ body = t1 ++ t2 /\
      in_turn (parked_responsive board_gic sample_slots (sample_slots 0)) (required_ids mask) t1 /\ gated mask t2.
Proof.
  destruct (played_ok (rung 0) (park_workers board_gic true sample_slots (sample_slots 0) (Some board_topology) 1000 4) board_online
    (replicate 40 0)) as (tr & [] & Hs); [vm_compute; reflexivity|]. exists tr. split; [exact Hs|].
  destruct (workers_parked board_gic true sample_slots (sample_slots 0) (Some board_topology) 1000 4 tr (Ok tt) Hs ltac:(discriminate))
    as (body & Ho & H). destruct (H eq_refl) as (mask & t1 & t2 & H1 & H2 & H3 & H4).
  exists body, mask, t1, t2. exact (conj Ho (conj H1 (conj H2 (conj H3 H4)))).
Defined.

Lemma secondaries_activated_witness :
  exists tr, steps (activate_secondary board_gic true sample_slots (sample_slots 0) (Some board_topology) 1000 4) tr (Ret (Ok tt)) /\
    exists body mask t1, irqs_open body tr /\ required_mask (Some board_topology) = Ok mask /\
      in_turn (activated board_gic sample_slots (sample_slots 0)) (required_ids mask) t1.
Proof.
  destruct (played_ok (rung 0) (activate_secondary board_gic true sample_slots (sample_slots 0) (Some board_topology) 1000 4) board_parked
    (replicate 60 0)) as (tr & [] & Hs); [vm_compute; reflexivity|]. exists tr. split; [exact Hs|].
  destruct (secondaries_activated board_gic true sample_slots (sample_slots 0) (Some board_topology) 1000 4 tr (Ok tt) ltac:(discriminate)
    Hs ltac:(discriminate)) as (body & Ho & H).
  destruct (H eq_refl) as (mask & t1 & t2 & h & H1 & _ & H3 & _). exists body, mask, t1. exact (conj Ho (conj H1 H3)).
Defined.

(** CPU 1 comes up: the banked words name interface 1. *)
Definition board_waking (l : host_loc) : Z :=
  match l with
  | GReg a => if (distributor_base board_gic + GICD_ITARGETSR <=? a) && (a <? distributor_base board_gic + GICD_ITARGETSR + 32) then 0x02020202
              else if a =? gicd_typer board_gic then 3 else if a =? gicd_ctlr board_gic then 3 else 0
  | Activate 1 => 1
  | DaifReg => IRQ_BIT
  | l => board_parked l
  end.

Definition waking_worker : mprog worker_end :=
  worker board_gic true sample_slots (sample_slots 1) (Some board_topology) host_setup (fun a => Z.land a 0x000ffffffffff000) 1000 4 2 1 1.

Lemma waking_worker_serves : match play (rung 1) waking_worker board_waking (replicate 40 0) with
  | Some (tr, Ok WorkerServes) => existsb unmasks tr
  | _ => false
  end = true.
Proof. vm_compute. reflexivity. Qed.

Lemma sample_slots_inj i : (i < MAX_CPUS)%nat -> sample_slots i = sample_slots 1 -> i = 1%nat.
Proof. unfold sample_slots. lia. Qed.

Lemma worker_comes_up_witness :
  exists tr, steps waking_worker tr (Ret (Ok WorkerServes)) /\ Forall (fun e => foreign 1 e = false) tr /\
    exists pre e post, tr = pre ++ e :: post /\ unmasks e = true /\ came_up 1 pre /\
      Forall (device_window host_setup (fun a => Z.land a 0x000ffffffffff000)) (gic_windows board_gic).
Proof.
  pose proof waking_worker_serves as Hw. destruct (play _ _ _ _) as [[tr [[]| |]]|] eqn:E; try discriminate Hw.
  apply play_steps in E. exists tr. split; [exact E|].
  destruct (worker_comes_up board_gic true sample_slots (sample_slots 1) (Some board_topology) host_setup
    (fun a => Z.land a 0x000ffffffffff000) 1000 4 1 2 1 tr (Ret (Ok WorkerServes)) sample_slots_inj
    ltac:(repeat constructor; cbn; lia) E) as (H1 & H2 & _).
  split; [exact H1|]. apply existsb_exists in Hw as (e & Hin & He). apply in_split in Hin as (pre & post & Hsplit).
  destruct (H2 pre e post Hsplit He) as [Hup Hwin]. exists pre, e, post. exact (conj Hsplit (conj He (conj Hup Hwin))).
Defined.

(** A worker whose windows are not mapped still writes the distributor, to
    ring the others about its failure. *)
Lemma refused_mapping_still_rings :
  check_windows HostSpace_new (fun a => a) (gic_windows board_gic) = Err InvalidGicMapping /\
  exists tr, EStore (GReg board_doorbell) 0x10001 ∈ tr /\
    steps (worker board_gic true sample_slots (sample_slots 1) (Some board_topology) HostSpace_new (fun a => a) 1000 4 2 1 1) tr
      (Ret (Ok WorkerHalts)).
Proof.
  split; [reflexivity|].
  assert (Hw : match play (rung 1) (worker board_gic true sample_slots (sample_slots 1) (Some board_topology) HostSpace_new (fun a => a)
    1000 4 2 1 1) board_waking [] with
    | Some (tr, Ok WorkerHalts) => existsb (fun e => match e with EStore (GReg a) v => (a =? board_doorbell) && (v =? 0x10001) | _ => false end) tr
    | _ => false end = true) by (vm_compute; reflexivity).
  destruct (play _ _ _ _) as [[tr [[]| |]]|] eqn:E; try discriminate Hw. apply play_steps in E. exists tr. split; [|exact E].
  apply existsb_exists in Hw as (e & Hin & He). destruct e as [|[] v| | | |]; try discriminate He.
  apply andb_true_iff in He as [->%Z.eqb_eq ->%Z.eqb_eq]. by apply list_elem_of_In.
Qed.
