(* ===== verification/ExceptionEntry.v ===== *)
(** * Exception entry: src/src/exception.rs

    A vector slot makes room for an [ExceptionFrame] and notes its number, the
    common entry saves every register there and calls the handler, and when
    the handler returns 1 the frame is loaded again.  The handler takes
    management interrupts and the test breakpoint and treats everything else
    as fatal: it records the failure, rings the other CPUs and halts, and so
    does the panic handler of src/src/main.rs when the handler itself panics.
    [exception_return_transparent] shows that interrupted code does not notice
    an exception the handler returns from. *)

From S2P Require Import Prelude Atomics SecondaryMailbox Failure El2Policy Pcpu Gicv2 ManagementIrq ManagementDriver Machine.

(** ** The frame *)

Record ExceptionFrame := mkFrame {
  f_x : list Z;
  f_vector : Z;
  f_elr : Z;
  f_spsr : Z;
  f_esr : Z;
  f_far : Z;
  f_q : list (Z * Z);
  f_fpcr : Z;
  f_fpsr : Z
}.

(** ** The code *)

Inductive exception_label := ExceptionCommon | Dead.
Inductive exception_call := El2ExceptionHandler.

Definition vector_body (id : Z) : list instr := [Sub SP SP 816; Stp 16 17 SP 128; MovI 16 id; Str 16 SP 248].

Definition VECTOR_SLOT (id : Z) : code exception_label exception_call := Block (vector_body id) (Goto ExceptionCommon).

(** The table; the two entries of a guest's exceptions are those of
    [WorldSwitch]. *)
Definition el2_vectors : list (option (code exception_label exception_call)) :=
  [Some (VECTOR_SLOT 0); Some (VECTOR_SLOT 1); Some (VECTOR_SLOT 2); Some (VECTOR_SLOT 3);
   Some (VECTOR_SLOT 4); Some (VECTOR_SLOT 5); Some (VECTOR_SLOT 6); Some (VECTOR_SLOT 7);
   None; None; Some (VECTOR_SLOT 10); Some (VECTOR_SLOT 11);
   Some (VECTOR_SLOT 12); Some (VECTOR_SLOT 13); Some (VECTOR_SLOT 14); Some (VECTOR_SLOT 15)].

Definition save_frame : list instr :=
  [Stp 0 1 SP 0; Stp 2 3 SP 16; Stp 4 5 SP 32; Stp 6 7 SP 48; Stp 8 9 SP 64;
   Stp 10 11 SP 80; Stp 12 13 SP 96; Stp 14 15 SP 112; Stp 18 19 SP 144; Stp 20 21 SP 160;
   Stp 22 23 SP 176; Stp 24 25 SP 192; Stp 26 27 SP 208; Stp 28 29 SP 224;
   Str 30 SP 240;
   Mrs 9 ELR_EL2; Str 9 SP 256; Mrs 9 SPSR_EL2; Str 9 SP 264; Mrs 9 ESR_EL2; Str 9 SP 272; Mrs 9 FAR_EL2; Str 9 SP 280;
   StpQ 0 1 SP 288; StpQ 2 3 SP 320; StpQ 4 5 SP 352; StpQ 6 7 SP 384;
   StpQ 8 9 SP 416; StpQ 10 11 SP 448; StpQ 12 13 SP 480; StpQ 14 15 SP 512;
   StpQ 16 17 SP 544; StpQ 18 19 SP 576; StpQ 20 21 SP 608; StpQ 22 23 SP 640;
   StpQ 24 25 SP 672; StpQ 26 27 SP 704; StpQ 28 29 SP 736; StpQ 30 31 SP 768;
   Mrs 9 FPCR; Str 9 SP 800; Mrs 9 FPSR; Str 9 SP 808;
   Mov (X 0) SP].

Definition load_frame : list instr :=
  [Ldr 16 SP 256; Msr ELR_EL2 16; Ldr 16 SP 264; Msr SPSR_EL2 16;
   LdpQ 0 1 SP 288; LdpQ 2 3 SP 320; LdpQ 4 5 SP 352; LdpQ 6 7 SP 384;
   LdpQ 8 9 SP 416; LdpQ 10 11 SP 448; LdpQ 12 13 SP 480; LdpQ 14 15 SP 512;
   LdpQ 16 17 SP 544; LdpQ 18 19 SP 576; LdpQ 20 21 SP 608; LdpQ 22 23 SP 640;
   LdpQ 24 25 SP 672; LdpQ 26 27 SP 704; LdpQ 28 29 SP 736; LdpQ 30 31 SP 768;
   Ldr 9 SP 800; Msr FPCR 9; Ldr 9 SP 808; Msr FPSR 9;
   Ldp 0 1 SP 0; Ldp 2 3 SP 16; Ldp 4 5 SP 32; Ldp 6 7 SP 48; Ldp 8 9 SP 64;
   Ldp 10 11 SP 80; Ldp 12 13 SP 96; Ldp 14 15 SP 112; Ldp 18 19 SP 144; Ldp 20 21 SP 160;
   Ldp 22 23 SP 176; Ldp 24 25 SP 192; Ldp 26 27 SP 208; Ldp 28 29 SP 224;
   Ldr 30 SP 240; Ldp 16 17 SP 128; Add SP SP 816].

Definition exception_code (l : exception_label) : code exception_label exception_call :=
  match l with
  | ExceptionCommon => Block save_frame (Call El2ExceptionHandler (Cbz 0 Dead (Block load_frame Eret)))
  | Dead => Block [Wfe] (Goto Dead)
  end.

(** ** The handler *)

Definition CURRENT_EL_SPX_SYNC_VECTOR : Z := 4.
Definition ESR_EC_SHIFT : Z := 26.
Definition ESR_EC_MASK : Z := 0x3f.
Definition ESR_EC_BRK_AARCH64 : Z := 0x3c.
Definition ESR_BRK_COMMENT_MASK : Z := 0xffff.
Definition TEST_BREAKPOINT_IMMEDIATE : Z := 0x600.

Definition with_elr (f : ExceptionFrame) (v : Z) : ExceptionFrame :=
  mkFrame (f_x f) (f_vector f) v (f_spsr f) (f_esr f) (f_far f) (f_q f) (f_fpcr f) (f_fpsr f).

Section Handler.
Context (gic : GicV2) (slot_address : nat -> Z) (tpidr : Z).

(** How the handler ends: it returns 1 with the frame, or the CPU waits for ever. *)
Inductive handler_end := Resumes (f : ExceptionFrame) | HandlerHalts.

Definition is_test_breakpoint (f : ExceptionFrame) : bool :=
  (f_vector f =? CURRENT_EL_SPX_SYNC_VECTOR) &&
  (Z.land (Z.shiftr (f_esr f) ESR_EC_SHIFT) ESR_EC_MASK =? ESR_EC_BRK_AARCH64) &&
  (Z.land (f_esr f) ESR_BRK_COMMENT_MASK =? TEST_BREAKPOINT_IMMEDIATE).

(** Past the interrupt; what it prints is left out. *)
Definition not_an_irq (installed : bool) (f : ExceptionFrame) : hprog (outcome SlotError handler_end) :=
  if is_test_breakpoint f then Ret (Ok (Resumes (with_elr f (wrapping_add (f_elr f) 4))))
  else
    _ <- record_fatal slot_address tpidr (mkFailure 2 (f_esr f) (f_elr f) (f_far f)) ;;
    _ <-? notify_fatal gic installed slot_address tpidr ;;
    Ret (Ok HandlerHalts).

Definition el2_exception_handler (installed : bool) (f : ExceptionFrame) : hprog (outcome SlotError handler_end) :=
  if (f_vector f =? 1) || (f_vector f =? 5) then
    r <-? current_irq gic slot_address tpidr installed ;;
    match r with
    | Handled true => Ret (Ok (Resumes f))
    | Handled false => not_an_irq installed f
    | IrqHalted => Ret (Ok HandlerHalts)
    end
  else not_an_irq installed f.

(** The panic handler; what it prints is left out. *)
Definition panic (installed : bool) : hprog (outcome SlotError handler_end) :=
  _ <- record_fatal slot_address tpidr (mkFailure 1 0 0 0) ;;
  _ <-? notify_fatal gic installed slot_address tpidr ;;
  Ret (Ok HandlerHalts).

(** The handler, with what becomes of a panic in it. *)
Definition take_exception (installed : bool) (f : ExceptionFrame) : hprog (outcome SlotError handler_end) :=
  r <- el2_exception_handler installed f ;;
  match r with Panic => panic installed | r => Ret r end.
End Handler.

(** ** Specification *)

(** The frame of code that was interrupted with the registers of [m]. *)
Definition interrupted (m : machine) (vec : Z) : ExceptionFrame :=
  let r s := regs m (Sys s) in
  mkFrame ((fun n => regs m (X n)) <$> seq 0 31) vec (r ELR_EL2) (r SPSR_EL2) (r ESR_EL2) (r FAR_EL2)
    ((fun n => (regs m (V n false), regs m (V n true))) <$> seq 0 32) (r FPCR) (r FPSR).

(** Where the frame keeps each register. *)
Definition frame_system : list (Z * reg) :=
  [(256, Sys ELR_EL2); (264, Sys SPSR_EL2); (272, Sys ESR_EL2); (280, Sys FAR_EL2); (800, Sys FPCR); (808, Sys FPSR)].

Definition frame_fields : list (Z * reg) :=
  ((fun n => (8 * Z.of_nat n, X n)) <$> seq 0 31) ++
  ((fun n => (288 + 16 * Z.of_nat n, V n false)) <$> seq 0 32) ++
  ((fun n => (296 + 16 * Z.of_nat n, V n true)) <$> seq 0 32) ++ frame_system.

Definition frame_word (f : ExceptionFrame) (r : reg) : option Z :=
  match r with
  | X n => f_x f !! n
  | V n high => (if high : bool then snd else fst) <$> f_q f !! n
  | Sys ELR_EL2 => Some (f_elr f)
  | Sys SPSR_EL2 => Some (f_spsr f)
  | Sys ESR_EL2 => Some (f_esr f)
  | Sys FAR_EL2 => Some (f_far f)
  | Sys FPCR => Some (f_fpcr f)
  | Sys FPSR => Some (f_fpsr f)
  | _ => None
  end.

Record frame_at (m : machine) (p : Z) (f : ExceptionFrame) : Prop := {
  fa_fields o r : (o, r) ∈ frame_fields -> frame_word f r = Some (mem m (p + o));
  fa_vector : f_vector f = mem m (p + 248)
}.

(** What interrupted code can see apart from its program counter. *)
Definition interrupted_registers : list reg :=
  (X <$> seq 0 31) ++ ((fun n => V n false) <$> seq 0 32) ++ ((fun n => V n true) <$> seq 0 32) ++
  [SP; Sys SPSR_EL2; Sys FPCR; Sys FPSR].

(** Room for a frame below the stack pointer. *)
Definition frame_extents : extents := [(-816, 0)].

Record stack_ready (m : machine) : Prop := {
  st_sp : u64 (regs m SP);
  st_laid : laid_out frame_extents (fun _ => regs m SP)
}.

(** The handler came back with 1 and left [f] in the frame; it may use
    everything else. *)
Record handler_returned (m m' : machine) (f : ExceptionFrame) : Prop := {
  hr_sp : regs m' SP = regs m SP;
  hr_result : regs m' (X 0) = 1;
  hr_frame : frame_at m' (regs m SP) f
}.

(** ** Symbolic runs *)

Notation sym := (sym_run frame_extents).

Definition at_vector : sstate := mkSym [(SP, At 0 0)] [] [].
Definition at_return : sstate := mkSym [(SP, At 0 (-816))] [] [].

Definition sym_saved (id : Z) : sstate := default at_vector (sym (vector_body id ++ save_frame) at_vector).
Definition sym_resumed : sstate := default at_return (sym load_frame at_return).

Record saved_checked (id : Z) : Prop := {
  sc_run : sym (vector_body id ++ save_frame) at_vector = Some (sym_saved id);
  sc_fields : forallb (fun f => bool_decide (s_word (sym_saved id) (0%nat, f.1 - 816) = Reg0 f.2) && in_extent frame_extents (0%nat, f.1 - 816)) frame_fields = true;
  sc_vector : s_word (sym_saved id) (0%nat, -568) = Const id;
  sc_sp : s_reg (sym_saved id) SP = At 0 (-816);
  sc_arg : s_reg (sym_saved id) (X 0) = At 0 (-816)
}.

Lemma sym_saved_ok id : saved_checked id.
Proof. split; vm_compute; reflexivity. Qed.

Definition resumed_fields : list (Z * reg) := List.filter (fun f => negb (bool_decide (f.2 = Sys ESR_EL2 \/ f.2 = Sys FAR_EL2))) frame_fields.

Record resumed_checked : Prop := {
  rc_run : sym load_frame at_return = Some sym_resumed;
  rc_fields : forallb (fun f => bool_decide (s_reg sym_resumed f.2 = Word0 0 (f.1 - 816))) resumed_fields = true;
  rc_sp : s_reg sym_resumed SP = At 0 0
}.

Lemma sym_resumed_ok : resumed_checked.
Proof. split; vm_compute; reflexivity. Qed.

#[local] Opaque sym_saved sym_resumed.

(** ** Lemmas *)

Definition is_irq (f : ExceptionFrame) : Prop := f_vector f = 1 \/ f_vector f = 5.

(** The interrupt that was taken has been dealt with: the controller had none
    left, or it was the doorbell of another CPU and [dispatch] completed it and
    answered. *)
Definition doorbell_answered (gic : GicV2) (tr : list (event host_loc)) : Prop :=
  exists raw rest, tr = ELoad (GReg (gicc_iar gic)) raw :: rest /\
    match InterruptAck_from_raw (as_u32 raw) with
    | None => rest = []
    | Some ack =>
        InterruptAck_intid ack = MANAGEMENT_SGI /\
        exists during after, rest = during ++ after /\ dispatch_outcome gic ack during (Ok true) /\ Forall mute after
    end.

(** The CPU has read that it is to stop. *)
Definition stop_seen (tr : list (event host_loc)) : Prop :=
  ELoad (HFail FatalFlag) 1 ∈ tr \/ exists id, ELoad (HCpu id CStopped) 1 ∈ tr.

(** When the handler resumes and with what; otherwise it has noted a failure or
    the interrupt asked the CPU to stop. *)
Definition handler_outcome (gic : GicV2) (f : ExceptionFrame) (tr : list (event host_loc)) (r : outcome SlotError handler_end) : Prop :=
  match r with
  | Ok (Resumes f') =>
      if is_test_breakpoint f then f' = with_elr f (wrapping_add (f_elr f) 4) /\ tr = []
      else f' = f /\ is_irq f /\ doorbell_answered gic tr
  | _ => EStore (HFail FatalFlag) 1 ∈ tr \/ is_irq f /\ stop_seen tr
  end.

Lemma stop_seen_mono tr tr' : stop_seen tr -> stop_seen (tr' ++ tr).
Proof. unfold stop_seen. intros [H|[id H]]; [left|right; exists id]; apply elem_of_app; by right. Qed.

Section Outcome.
Context (gic : GicV2) (slot_address : nat -> Z) (tpidr : Z) (installed : bool).

(** A stop is granted only when it was read. *)
Lemma traces_stop :
  traces (stop_if_requested slot_address tpidr) (fun tr r => r = Ok true -> stop_seen tr) [].
Proof using Type.
  assert (Hrest : forall t0 t, stop_seen t0 -> stop_seen (t0 ++ t)).
  { intros t0 t [H|[id H]]; [left|right; exists id]; apply elem_of_app; by left. }
  unfold stop_if_requested. apply traces_bind, traces_any. intros t me. destruct me as [me| |]; [|done..]. cbn [app].
  assert (Hgo : forall t0 (k : hprog (outcome SlotError bool)), stop_seen t0 -> traces k (fun tr r => r = Ok true -> stop_seen tr) t0)
    by (intros t0 k H0; apply traces_any; eauto).
  assert (Hfatal : forall t0, traces has_fatal (fun tr b => b = true -> stop_seen tr) t0).
  { intros t0. cbn. intros v E%Z.eqb_eq. left. rewrite E. set_solver. }
  apply traces_bind, (traces_mono _ (fun tr b => b = true -> stop_seen tr)).
  { intros t0 b H0. destruct b; cbn [negb]; [apply Hgo; auto|done]. }
  destruct me as [id|]; [|apply Hfatal]. cbn [pbind load traces]. intros v. destruct (Z.eqb_spec v 1) as [->|]; [|apply Hfatal].
  intros _. right. exists id. set_solver.
Qed.

Lemma traces_current_irq :
  traces (current_irq gic slot_address tpidr installed)
    (fun tr r => match r with Ok (Handled true) => doorbell_answered gic tr | Ok IrqHalted => stop_seen tr | _ => True end) [].
Proof using Type.
  unfold current_irq. destruct installed; cbn [negb]; [|done]. cbn [drive Gicv2.acknowledge gicc_iar_get pbind traces]. intros raw.
  cbn [mmio_bind drive pbind app]. destruct (InterruptAck_from_raw (as_u32 raw)) as [ack|] eqn:Ea.
  2: { exists raw, []. by rewrite Ea. }
  destruct (Z.eqb_spec (InterruptAck_intid ack) MANAGEMENT_SGI) as [Es|]; cbn [negb].
  2: { apply traces_bind, traces_complete. done. }
  apply traces_bind, (traces_shift _ (dispatch_outcome gic ack) _ [ELoad (GReg (gicc_iar gic)) raw] []); [|apply traces_dispatch]. intros during handled Hd.
  destruct handled as [handled| |]; [|done..].
  apply traces_bind. rewrite <- (app_nil_r (_ ++ during)).
  apply (traces_shift _ (fun t r => Forall mute t /\ (r = Ok true -> stop_seen t))).
  2: { apply traces_and_emits; [done|apply mute_stop|apply traces_stop]. }
  intros after stop [Hm Hs]. destruct stop as [[]| |]; [by apply stop_seen_mono, Hs| |done..]. cbn [pbind traces].
  destruct handled; [|done]. exists raw, (during ++ after). rewrite Ea, <- app_assoc. split_and!; [done|done|]. by exists during, after.
Qed.

Lemma traces_fatal fl acc :
  traces (_ <- record_fatal slot_address tpidr fl ;; _ <-? notify_fatal gic installed slot_address tpidr ;; Ret (Ok HandlerHalts))
    (fun tr r => (forall f, r <> Ok (Resumes f)) /\ EStore (HFail FatalFlag) 1 ∈ tr) acc.
Proof using Type.
  unfold record_fatal, FatalState_record. cbn [relocate pbind store traces]. apply traces_bind, traces_any. intros t [].
  apply traces_bind, traces_any. intros t' r. destruct r as [[]| |]; cbn [traces]; (split; [done|set_solver]).
Qed.

Lemma traces_handler f :
  traces (el2_exception_handler gic slot_address tpidr installed f)
    (fun tr r => match r with Panic | Err _ => True | r => handler_outcome gic f tr r end) [].
Proof using Type.
  assert (Hno : forall acc, (is_test_breakpoint f = true -> acc = []) ->
    traces (not_an_irq gic slot_address tpidr installed f) (handler_outcome gic f) acc).
  { intros acc Hacc. unfold not_an_irq. destruct (is_test_breakpoint f) eqn:E; [cbn; by rewrite E, Hacc|].
    eapply traces_mono; [|apply traces_fatal]. intros t r [Hne Hin]. destruct r as [[f'|]| |]; [by destruct (Hne f')|by left..]. }
  assert (Hmono : forall acc p, traces p (handler_outcome gic f) acc ->
    traces p (fun tr r => match r with Panic | Err _ => True | r => handler_outcome gic f tr r end) acc).
  { intros acc p. apply traces_mono. by intros t []. }
  unfold el2_exception_handler. destruct ((f_vector f =? 1) || (f_vector f =? 5)) eqn:Ev; [|by apply Hmono, Hno].
  assert (Hi : is_irq f) by (unfold is_irq; bool_prop; lia).
  assert (Hb : is_test_breakpoint f = false).
  { unfold is_test_breakpoint, CURRENT_EL_SPX_SYNC_VECTOR. destruct (Z.eqb_spec (f_vector f) 4); [|done]. destruct Hi; lia. }
  apply traces_bind. eapply traces_mono; [|apply traces_current_irq]. intros t r Hr.
  destruct r as [[[]|]| |]; cbn [traces]; [|by apply Hmono, Hno; rewrite Hb|..|done|done]; unfold handler_outcome; rewrite ?Hb; auto.
Qed.

Lemma traces_exception f : traces (take_exception gic slot_address tpidr installed f)
  (fun tr r => (exists e, r = Err e) \/ handler_outcome gic f tr r) [].
Proof using Type.
  unfold take_exception. apply traces_bind. eapply traces_mono; [|apply traces_handler]. intros t r Hr.
  destruct r as [r|e|]; cbn [traces]; [by right|left; by exists e|].
  eapply traces_mono; [|apply traces_fatal]. intros t' r' [Hne Hin]. right. destruct r' as [[f'|]| |]; [by destruct (Hne f')|by left..].
Qed.

Lemma unerring_fatal fl : unerring (_ <- record_fatal slot_address tpidr fl ;; _ <-? notify_fatal gic installed slot_address tpidr ;; Ret (Ok HandlerHalts)).
Proof using Type.
  apply unerring_any. intros []. apply unerring_res; [|done]. unfold notify_fatal. destruct installed; [|done].
  generalize 0%nat. induction MAX_CPUS as [|n IH]; intros i; cbn [ring_others]; [done|].
  apply unerring_res; [apply unerring_current_id|]. intros me. apply unerring_any. intros []. apply IH.
Qed.

Lemma unerring_exception f : unerring (take_exception gic slot_address tpidr installed f).
Proof using Type.
  assert (Hn : unerring (not_an_irq gic slot_address tpidr installed f)).
  { unfold not_an_irq. destruct (is_test_breakpoint f); [done|apply unerring_fatal]. }
  apply within_bind. apply (within_mono _ _ (fun r => forall e, r <> Err e)).
  { intros [r|e|] Hr; [done|by destruct (Hr e)|apply unerring_fatal]. }
  unfold el2_exception_handler. destruct (_ || _); [|done]. apply unerring_res; [|by intros [[]|]].
  unfold current_irq. destruct installed; [|done]. cbn [negb]. apply unerring_any. intros [ack|]; [|done].
  destruct (negb _); [by apply unerring_any|]. apply unerring_res; [apply unerring_dispatch|]. intros h.
  by apply unerring_res; [apply unerring_stop|].
Qed.

Lemma exception_outcome f tr r : steps (take_exception gic slot_address tpidr installed f) tr (Ret r) -> handler_outcome gic f tr r.
Proof using Type.
  intros Hs. destruct (traces_steps _ _ [] _ _ (traces_exception f) Hs) as [[e ->]|H]; [|exact H].
  by destruct (unerring_steps _ _ _ (unerring_exception f) Hs).
Qed.
End Outcome.

Lemma frame_fields_elem o r :
  (o, r) ∈ frame_fields ->
  (exists n, (n < 31)%nat /\ r = X n) \/ (exists n high, (n < 32)%nat /\ r = V n high) \/ (o, r) ∈ frame_system.
Proof.
  unfold frame_fields. rewrite !elem_of_app, !list_elem_of_fmap.
  intros [(n & [= -> ->] & Hn%elem_of_seq)|[(n & [= -> ->] & Hn%elem_of_seq)|[(n & [= -> ->] & Hn%elem_of_seq)|Hs]]];
    [left; exists n; split; [lia|done]|right; left; eexists n, _; split; [lia|done]..|by right; right].
Qed.

Lemma interrupted_word m vec o r : (o, r) ∈ frame_fields -> frame_word (interrupted m vec) r = Some (regs m r).
Proof.
  intros [(n & Hn & ->)|[(n & high & Hn & ->)|Hs]]%frame_fields_elem.
  - unfold frame_word, interrupted. cbn [f_x]. by rewrite list_lookup_fmap, lookup_seq_lt.
  - unfold frame_word, interrupted. cbn [f_q]. rewrite list_lookup_fmap, lookup_seq_lt by done. by destruct high.
  - unfold frame_system in Hs. repeat (apply elem_of_cons in Hs as [[= -> ->]|Hs]; [done|]). by apply elem_of_nil in Hs.
Qed.

Lemma frame_word_elr f v r : r <> Sys ELR_EL2 -> frame_word (with_elr f v) r = frame_word f r.
Proof. by destruct r as [| | |[]]. Qed.

Lemma resumed_fields_elem f : f ∈ resumed_fields -> f ∈ frame_fields.
Proof. unfold resumed_fields. rewrite !list_elem_of_In, filter_In. by intros [? _]. Qed.

Lemma interrupted_resumed x :
  x ∈ interrupted_registers -> x = SP \/ exists o, (o, x) ∈ resumed_fields /\ x <> Sys ELR_EL2.
Proof.
  intros Hin. assert (Hall : forallb (fun x => bool_decide (x = SP) ||
    existsb (fun f => bool_decide (f.2 = x /\ x <> Sys ELR_EL2)) resumed_fields) interrupted_registers = true)
    by (vm_compute; reflexivity).
  rewrite forallb_forall in Hall. specialize (Hall x (proj1 (list_elem_of_In _ _) Hin)).
  apply orb_true_iff in Hall as [Hsp%bool_decide_eq_true|Hex]; [by left|right].
  apply existsb_exists in Hex as ([o y] & Hy & Hd%bool_decide_eq_true). destruct Hd as [E Hne]. cbn in E. subst y.
  exists o. split; [by apply list_elem_of_In|done].
Qed.

Lemma elr_field o r : (o, r) ∈ frame_fields -> r = Sys ELR_EL2 <-> o = 256.
Proof.
  intros Hin. assert (Hall : forallb (fun f => bool_decide (f.2 = Sys ELR_EL2 <-> f.1 = 256)) frame_fields = true) by (vm_compute; reflexivity).
  rewrite forallb_forall in Hall. apply (bool_decide_eq_true_1 _ (Hall _ (proj1 (list_elem_of_In _ _) Hin))).
Qed.

Lemma elr_resumed : (256, Sys ELR_EL2) ∈ resumed_fields.
Proof. apply list_elem_of_In. vm_compute. tauto. Qed.

#[local] Opaque resumed_fields frame_fields.

Section Entry.
Context (m0 : machine) (Hready : stack_ready m0) (id : Z).
Notation base := (fun _ : nat => regs m0 SP).

Lemma vector_known : known frame_extents base m0 at_vector.
Proof using Hready.
  split_and!; [|constructor|done]. repeat constructor. cbn. rewrite Z.add_0_r, Z.mod_small; [done|apply (st_sp _ Hready)].
Qed.

Lemma frame_pointer : (regs m0 SP + -816) mod 2 ^ 64 = regs m0 SP - 816.
Proof using Hready.
  destruct (lo_bounds _ _ (st_laid _ Hready) 0%nat (-816) 0 eq_refl). pose proof (st_sp _ Hready) as []. rewrite Z.mod_small; lia.
Qed.

Lemma frame_saved :
  exists m1, run exception_code 1 (VECTOR_SLOT id) m0 =
      Calling El2ExceptionHandler m1 (Cbz 0 Dead (Block load_frame Eret)) /\
    regs m1 (X 0) = regs m0 SP - 816 /\ regs m1 SP = regs m0 SP - 816 /\ frame_at m1 (regs m0 SP - 816) (interrupted m0 id) /\
    forall a, ~ in_reach frame_extents base a -> mem m1 a = mem m0 a.
Proof using Hready.
  destruct (sym_saved_ok id) as [E Hf Hv Hsp Ha].
  destruct (sym_run_sound _ _ _ (st_laid _ Hready) _ _ _ _ (known_rep _ _ _ _ vector_known) E) as (m1 & (mb & Eb & Es)%execute_app & H1).
  exists m1. split_and!.
  - cbn [run VECTOR_SLOT]. rewrite Eb. cbn [exception_code run]. by rewrite Es.
  - rewrite (rep_reg _ _ _ _ _ H1), Ha. apply frame_pointer.
  - rewrite (rep_reg _ _ _ _ _ H1), Hsp. apply frame_pointer.
  - split.
    + intros o r Hin. rewrite (interrupted_word _ _ _ _ Hin). f_equal. rewrite forallb_forall in Hf.
      specialize (Hf (o, r) (proj1 (list_elem_of_In _ _) Hin)). cbn [fst snd] in Hf. apply andb_true_iff in Hf as [Hw%bool_decide_eq_true Hi].
      replace (regs m0 SP - 816 + o) with (regs m0 SP + (o - 816)) by lia. symmetry.
      transitivity (denote base m0 (s_word (sym_saved id) (0%nat, o - 816))); [exact (rep_word _ _ _ _ _ H1 (0%nat, o - 816) Hi)|by rewrite Hw].
    + cbn [f_vector interrupted]. replace (regs m0 SP - 816 + 248) with (regs m0 SP + -568) by lia. symmetry.
      transitivity (denote base m0 (s_word (sym_saved id) (0%nat, -568))); [exact (rep_word _ _ _ _ _ H1 (0%nat, -568) eq_refl)|by rewrite Hv].
  - apply (rep_frame _ _ _ _ _ H1).
Qed.

(** Whatever the frame holds is loaded. *)
Lemma frame_loaded m1 m2 f :
  regs m1 SP = regs m0 SP - 816 -> handler_returned m1 m2 f ->
  exists m3, run exception_code 1 (Cbz 0 Dead (Block load_frame Eret)) m2 = ExceptionReturn m3 /\ regs m3 SP = regs m0 SP /\
    forall o r, (o, r) ∈ resumed_fields -> frame_word f r = Some (regs m3 r).
Proof using Hready.
  intros Hsp1 [Hsp Hx [Hf _]]. destruct sym_resumed_ok as [E Hc Hs]. rewrite Hsp1 in Hsp, Hf.
  assert (Hk : known frame_extents base m2 at_return).
  { split_and!; [|constructor|done]. repeat constructor. cbn. by rewrite Hsp, frame_pointer. }
  destruct (sym_run_sound _ _ _ (st_laid _ Hready) _ _ _ _ (known_rep _ _ _ _ Hk) E) as (m3 & E3 & H3). exists m3. split_and!.
  - cbn [run]. unfold xval. cbn [Nat.eqb XZR]. rewrite Hx. cbn [Z.eqb]. by rewrite E3.
  - rewrite (rep_reg _ _ _ _ _ H3), Hs. cbn. rewrite Z.add_0_r, Z.mod_small; [done|apply (st_sp _ Hready)].
  - intros o r Hin. rewrite (rep_reg _ _ _ _ _ H3). rewrite forallb_forall in Hc.
    specialize (Hc (o, r) (proj1 (list_elem_of_In _ _) Hin)). cbn [fst snd] in Hc. apply bool_decide_eq_true in Hc. rewrite Hc. cbn.
    replace (regs m0 SP + (o - 816)) with (regs m0 SP - 816 + o) by lia. apply Hf.
    by apply resumed_fields_elem.
Qed.
End Entry.

Lemma vector_entry n entry : el2_vectors !! n = Some (Some entry) -> entry = VECTOR_SLOT (Z.of_nat n).
Proof. intros E. do 16 (destruct n as [|n]; [by simplify_eq/=|]). done. Qed.

(** Registers loaded from the frame the handler left are the interrupted ones. *)
Lemma handler_frame m0 id m3 gic tr f :
  handler_outcome gic (interrupted m0 id) tr (Ok (Resumes f)) -> regs m3 SP = regs m0 SP ->
  (forall o r, (o, r) ∈ resumed_fields -> frame_word f r = Some (regs m3 r)) ->
  (forall x, x ∈ interrupted_registers -> regs m3 x = regs m0 x) /\
  regs m3 (Sys ELR_EL2) =
    if is_test_breakpoint (interrupted m0 id) then wrapping_add (regs m0 (Sys ELR_EL2)) 4 else regs m0 (Sys ELR_EL2).
Proof.
  intros Ho Hsp3 Hl. unfold handler_outcome in Ho.
  assert (Hw : forall o x, (o, x) ∈ frame_fields -> x <> Sys ELR_EL2 -> frame_word f x = Some (regs m0 x)).
  { intros o x Hin Hne. rewrite <- (interrupted_word m0 id o x Hin).
    destruct (is_test_breakpoint _); destruct Ho as [-> _]; [by apply frame_word_elr|done]. }
  assert (Hback : forall o x, (o, x) ∈ resumed_fields -> x <> Sys ELR_EL2 -> regs m3 x = regs m0 x).
  { intros o x Hin Hne. pose proof (Hl o x Hin) as E. rewrite (Hw o x) in E; [by injection E|..|done].
    by apply resumed_fields_elem. }
  split.
  - intros x Hin. destruct (interrupted_resumed x Hin) as [->|(o & Ho' & Hne)]; [done|by apply (Hback o)].
  - pose proof (Hl _ _ elr_resumed) as E. cbn in E. injection E as E. rewrite <- E.
    destruct (is_test_breakpoint _); by destruct Ho as [-> _].
Qed.

(** ** Theorem *)

(** C7 [exception_return_transparent]: an exception through any of the fourteen
    entries of the vector table that lead to the common handler (all but the
    two that leave a guest) reaches it with a frame that holds every register
    of the interrupted code and the position of the entry, and no word outside
    the frame changed.  The handler returns for two reasons only: the frame is
    that of the test breakpoint, or it is an interrupt of EL2 code for which
    the controller had nothing left or whose doorbell was dispatched with
    success and completed; then the interrupted code goes on with every
    register, its status and its stack pointer as they were, at the instruction
    where it was interrupted, or behind the breakpoint.  In every other case,
    a panic of the handler included, the failure flag is set, or an interrupt
    found the CPU asked to stop. *)
Theorem exception_return_transparent m0 n entry gic slot_address tpidr installed tr r :
  el2_vectors !! n = Some (Some entry) -> stack_ready m0 ->
  steps (take_exception gic slot_address tpidr installed (interrupted m0 (Z.of_nat n))) tr (Ret r) ->
  exists m1 k, run exception_code 1 entry m0 = Calling El2ExceptionHandler m1 k /\
    regs m1 (X 0) = regs m0 SP - 816 /\ frame_at m1 (regs m0 SP - 816) (interrupted m0 (Z.of_nat n)) /\
    (forall a, ~ in_reach frame_extents (fun _ => regs m0 SP) a -> mem m1 a = mem m0 a) /\
    match r with
    | Ok (Resumes f) =>
        (if is_test_breakpoint (interrupted m0 (Z.of_nat n)) then tr = [] else (n = 1 \/ n = 5)%nat /\ doorbell_answered gic tr) /\
        forall m2, handler_returned m1 m2 f ->
        exists m3, run exception_code 1 k m2 = ExceptionReturn m3 /\
          (forall x, x ∈ interrupted_registers -> regs m3 x = regs m0 x) /\
          regs m3 (Sys ELR_EL2) =
            if is_test_breakpoint (interrupted m0 (Z.of_nat n)) then wrapping_add (regs m0 (Sys ELR_EL2)) 4 else regs m0 (Sys ELR_EL2)
    | _ => EStore (HFail FatalFlag) 1 ∈ tr \/ (n = 1 \/ n = 5)%nat /\ stop_seen tr
    end.
Proof.
  intros ->%vector_entry Hr Ho%exception_outcome. set (id := Z.of_nat n) in *.
  destruct (frame_saved m0 Hr id) as (m1 & E1 & Hx & Hsp & Hf & Hframe). eexists m1, _. split_and!; [exact E1|done..|].
  assert (Hirq : is_irq (interrupted m0 id) -> (n = 1 \/ n = 5)%nat) by (unfold is_irq; cbn; lia).
  destruct r as [[f|]| |]; [|destruct Ho as [Ho|[Hi Ho]]; auto..].
  split; [unfold handler_outcome in Ho; destruct (is_test_breakpoint _); naive_solver|].
  intros m2 Hret. destruct (frame_loaded m0 Hr m1 m2 f Hsp Hret) as (m3 & E3 & Hsp3 & Hl). exists m3. split; [done|].
  apply (handler_frame m0 id m3 gic tr f Ho Hsp3 Hl).
Qed.

(** ** Concrete instance *)

(** Host code that runs into the test breakpoint. *)
Definition at_breakpoint : machine :=
  mkMachine (fun r => if decide (r = SP) then 0x80000 else if decide (r = Sys ELR_EL2) then 0x40100
                      else if decide (r = Sys ESR_EL2) then 0xf2000600 else if decide (r = X 9) then 9 else 0) (fun _ => 0) [].

Lemma at_breakpoint_ready : stack_ready at_breakpoint.
Proof.
  split; [done|]. change (regs at_breakpoint SP) with 0x80000. split; [intros [|b] lo hi [= <- <-]; lia|intros b _; done|].
  intros [|b] [|c] lo hi lo' hi' H1 H2 Hne; done.
Qed.

Lemma exception_return_transparent_witness :
  exists m1 k m3, run exception_code 1 (VECTOR_SLOT 4) at_breakpoint = Calling El2ExceptionHandler m1 k /\
    run exception_code 1 k (set_reg (X 0) 1 (set_word (0x80000 - 816 + 256) 0x40104 m1)) = ExceptionReturn m3 /\
    regs m3 (X 9) = 9 /\ regs m3 (Sys ELR_EL2) = 0x40104.
Proof.
  set (f := interrupted at_breakpoint 4).
  assert (Hs : steps (take_exception sample_driver sample_slots 0 true f) [] (Ret (Ok (Resumes (with_elr f 0x40104))))) by constructor.
  destruct (exception_return_transparent at_breakpoint 4 (VECTOR_SLOT 4) sample_driver sample_slots 0 true [] _ eq_refl at_breakpoint_ready Hs)
    as (m1 & k & E1 & Hx & Hf & _ & _ & Hret).
  destruct (frame_saved at_breakpoint at_breakpoint_ready 4) as (m1' & E1' & _ & Hsp & _). rewrite E1 in E1'. injection E1' as <- _.
  destruct (Hret (set_reg (X 0) 1 (set_word (0x80000 - 816 + 256) 0x40104 m1))) as (m3 & E3 & Hr & He).
  { split; [done|done|]. rewrite Hsp. split; [|exact (fa_vector _ _ _ Hf)].
    intros o r Hin. cbn [mem set_reg set_word]. change (regs at_breakpoint SP) with 0x80000.
    destruct (Z.eqb_spec (0x80000 - 816 + o) (0x80000 - 816 + 256)) as [E|Hne].
    - assert (r = Sys ELR_EL2) as -> by (apply (elr_field o r Hin); lia). done.
    - transitivity (frame_word (interrupted at_breakpoint 4) r); [|exact (fa_fields _ _ _ Hf o r Hin)].
      apply frame_word_elr. intros E. apply Hne. by rewrite (proj1 (elr_field o r Hin) E). }
  exists m1, k, m3. split_and!; [done|done| |by rewrite He].
  rewrite Hr; [done|]. apply elem_of_app. left. apply list_elem_of_fmap. exists 9%nat. split; [done|]. apply elem_of_seq; lia.
Defined.
