(* ===== verification/GuestRun.v ===== *)
(** * Running the guest: src/src/guest.rs

    The loop that alternates between the guest and the host: before each entry
    a received byte is turned into a virtual interrupt and the list registers
    are loaded; after each exit they are saved, and the exit is handled as a
    physical interrupt or as a trapped device access.  The guest is a function
    from the vCPU it enters with to the vector it leaves by and the vCPU it
    leaves; the loop takes one such function per entry.  Its host side is a
    program over the locations of [ManagementIrq], the host's UART
    (src/tvisor_util/debug_util.rs) among them; what the loop prints about
    errors is left out. *)

From S2P Require Import Prelude Page Atomics SecondaryMailbox El2Policy Pcpu GuestPlatform Mmio Gicv2 Vcpu ManagementIrq.

(** ** The host's UART *)

Definition IO_OFFSET : Z := 0x00.
Definition LSR_OFFSET : Z := 0x14.
Definition LSR_TX_READY : Z := Z.shiftl 1 5.
Definition LSR_RX_READY : Z := 1.
Definition UART_TX_POLL_COUNT : nat := Z.to_nat 1000000.

Fixpoint is_tx_ready (n : nat) : hprog bool :=
  match n with
  | O => Ret false
  | S n' =>
      v <- load (Uart LSR_OFFSET) ;;
      if negb (Z.land (as_u32 v) LSR_TX_READY =? 0) then Ret true else is_tx_ready n'
  end.

Definition write_byte_raw (byte : Z) : hprog bool :=
  ready <- is_tx_ready UART_TX_POLL_COUNT ;;
  if negb ready then Ret false else _ <- store (Uart IO_OFFSET) byte ;; Ret true.

(** A line feed is preceded by a carriage return. *)
Definition MiniUart_write_byte (byte : Z) : hprog bool :=
  first <- (if byte =? 10 then write_byte_raw 13 else Ret true) ;;
  if negb first then Ret false else write_byte_raw byte.

Definition MiniUart_read_byte : hprog (option Z) :=
  v <- load (Uart LSR_OFFSET) ;;
  if Z.land (as_u32 v) LSR_RX_READY =? 0 then Ret None
  else b <- load (Uart IO_OFFSET) ;; Ret (Some (as_u8 b)).

(** ** Exits *)

Inductive ExitError :=
| UnexpectedIrq (irq : Z)
| UnexpectedException (reason : VcpuExitReason)
| InvalidGicdRange
| InvalidPl011Range
| InvalidIpa (ipa : Z)
| ConsoleTransmit.

(** How a handled exit ends: the guest goes on, the run ends with an error, the
    CPU halts, or the receive loop has more bytes than [fuel] of them. *)
Inductive handled :=
| Resume (vcpu : Vcpu) (d : MmioDispatcher)
| Failed (e : ExitError) (vcpu : Vcpu) (d : MmioDispatcher)
| CpuHalts
| StillReceiving.

Section Run.
Context (gic : GicV2) (slot_address : nat -> Z) (tpidr mpidr sp : Z).
(** Whether the host's UART is configured, and its interrupt. *)
Context (configured : bool) (console_irq : option Z) (fuel : nat).

Definition write_byte (byte : Z) : hprog bool := if configured then MiniUart_write_byte byte else Ret false.
Definition read_byte : hprog (option Z) := if configured then MiniUart_read_byte else Ret None.

(** [while let Some(byte) = read_byte()]: [None] after [n] bytes. *)
Fixpoint drain (n : nat) (d : MmioDispatcher) : hprog (outcome SlotError (option MmioDispatcher)) :=
  b <- read_byte ;;
  match b with
  | None => Ret (Ok (Some d))
  | Some byte =>
      match n with
      | O => Ret (Ok None)
      | S n' =>
          match enqueue_pl011_rx (E := Empty_set) byte (d, []) with
          | (Panic, _) => Ret Panic
          | (_, (d', _)) => drain n' d'
          end
      end
  end.

Definition handle_irq (vcpu : Vcpu) (d : MmioDispatcher) : hprog (outcome SlotError handled) :=
  ack <- drive (Gicv2.acknowledge gic) ;;
  match ack with
  | None => Ret (Ok (Resume vcpu d))
  | Some ack =>
      let irq := InterruptAck_intid ack in
      if irq =? MANAGEMENT_SGI then
        ok <-? dispatch gic slot_address tpidr ack true (Z.testbit (spsr_el2 (context vcpu)) 7) ;;
        stop <-? stop_if_requested slot_address tpidr ;;
        Ret (Ok (if (stop : bool) then CpuHalts
                 else if (ok : bool) then Resume vcpu d else Failed (UnexpectedIrq irq) vcpu d))
      else if is_timer_ppi irq VIRTUAL_TIMER_PPI then
        let '(queued, g) := queue_timer_ppi irq (Vcpu.gic vcpu) in
        _ <- match queued with Ok _ => Ret tt | _ => fetch_add DuplicateTimers end ;;
        _ <- drive (end_interrupt gic ack) ;;
        Ret (Ok (Resume (with_gic vcpu g) d))
      else if bool_decide (Some irq = console_irq) then
        drained <-? drain fuel d ;;
        match drained with
        | None => Ret (Ok StillReceiving)
        | Some d' => _ <- complete gic ack ;; Ret (Ok (Resume vcpu d'))
        end
      else
        _ <- complete gic ack ;;
        Ret (Ok (Failed (UnexpectedIrq irq) vcpu d))
  end.

(** [(start..end).contains(&ipa)]. *)
Definition in_window (w : IpaRegion) (e : Z) (ipa : Z) : bool := (ipa_start w <=? ipa) && (ipa <? e).

Definition handle_synchronous_exception (vcpu : Vcpu) (d : MmioDispatcher) : hprog (outcome SlotError handled) :=
  reason <-? Ret (decode_reason (exit vcpu) (context vcpu)) ;;
  match reason with
  | Stage2DataAbort ipa _ _ =>
      match IpaRegion_end GUEST_GICD, IpaRegion_end GUEST_PL011 with
      | None, _ => Ret (Ok (Failed InvalidGicdRange vcpu d))
      | _, None => Ret (Ok (Failed InvalidPl011Range vcpu d))
      | Some gicd_end, Some pl011_end =>
          if negb (in_window GUEST_GICD gicd_end ipa || in_window GUEST_PL011 pl011_end ipa) then
            Ret (Ok (Failed (InvalidIpa ipa) vcpu d))
          else
            match emulate_stage2_mmio (exit vcpu) (context vcpu, d) with
            | (Ok transmit, (c, d')) =>
                let vcpu' := with_context vcpu c in
                match transmit with
                | None => Ret (Ok (Resume vcpu' d'))
                | Some byte =>
                    sent <- write_byte byte ;;
                    Ret (Ok (if (sent : bool) then Resume vcpu' d' else Failed ConsoleTransmit vcpu' d'))
                end
            | _ => Ret Panic
            end
      end
  | reason => Ret (Ok (Failed (UnexpectedException reason) vcpu d))
  end.

(** ** The loop *)

(** The UART's interrupt is queued when a byte waits and none is in flight. *)
Definition queue_pending (vcpu : Vcpu) (d : MmioDispatcher) : Vcpu :=
  if pl011_rx_irq_pending d && negb (uart_in_flight (Vcpu.gic vcpu)) then
    with_gic vcpu (snd (queue_uart_spi VIRTUAL_PL011_IRQ (Vcpu.gic vcpu)))
  else vcpu.

(** The assertion of [guest_entry] in src/src/management.rs. *)
Definition guest_entry : hprog (outcome SlotError unit) :=
  h <- check_routing ;;
  Ret (match h with Some h => if h =? GUEST_HCR then Ok tt else Panic | None => Panic end).

Definition boot_cpu_idle : hprog (outcome SlotError unit) :=
  relocate (HSlot 0) (assert_boot_cpu_idle (slot_address 0) tpidr mpidr sp).

Inductive run_end := Again (vcpu : Vcpu) (d : MmioDispatcher) | Exits (vector : Z) (vcpu : Vcpu) | Halts | Receiving.

(** What the loop does with a handled exit. *)
Definition after (vector : Z) (h : handled) : run_end :=
  match h with
  | Resume vcpu d => Again vcpu d
  | Failed _ vcpu _ => Exits vector vcpu
  | CpuHalts => Halts
  | StillReceiving => Receiving
  end.

(** One iteration; [guest] is what the guest does until its next exit. *)
Definition turn (guest : Vcpu -> Z * Vcpu) (vcpu : Vcpu) (d : MmioDispatcher) : hprog (outcome SlotError run_end) :=
  let vcpu := queue_pending vcpu d in
  _ <-? guest_entry ;;
  _ <- drive (restore_virtual_cpu gic (Vcpu.gic vcpu)) ;;
  _ <-? boot_cpu_idle ;;
  _ <- store WorldSwitch 0 ;;
  let '(vector, vcpu) := guest vcpu in
  _ <-? boot_cpu_idle ;;
  saved <- drive (save_virtual_cpu gic) ;;
  let vcpu := with_gic vcpu saved in
  if vector =? 9 then
    h <-? handle_irq vcpu d ;;
    _ <- swap DuplicateTimers 0 ;;
    Ret (Ok (after vector h))
  else if vector =? 8 then
    h <-? handle_synchronous_exception vcpu d ;;
    Ret (Ok (after vector h))
  else Ret (Ok (Exits vector vcpu)).

(** [None]: the guest is still running after the entries given. *)
Fixpoint run_vcpu_with_mmio (guests : list (Vcpu -> Z * Vcpu)) (vcpu : Vcpu) (d : MmioDispatcher) :
    hprog (outcome SlotError (option run_end)) :=
  match guests with
  | [] => Ret (Ok None)
  | guest :: rest =>
      e <-? turn guest vcpu d ;;
      match e with
      | Again vcpu d => run_vcpu_with_mmio rest vcpu d
      | e => Ret (Ok (Some e))
      end
  end.

(** ** What handling an exit does *)

Definition read_only (e : event host_loc) : Prop := match e with ELoad _ _ => True | _ => False end.
Definition from_uart (e : event host_loc) : Prop := match e with ELoad (Uart _) _ => True | _ => False end.

(** The interrupt the controller reports. *)
Definition intid (raw : Z) : Z := Z.land (as_u32 raw) GICH_LR_INTID_MASK.

(** The bytes a trace receives, and a queue of at most 64 that they join. *)
Definition received_bytes (tr : list (event host_loc)) : list Z :=
  omap (fun e => match e with ELoad (Uart 0) v => Some (as_u8 v) | _ => None end) tr.

Definition enqueued (q : list Z) (byte : Z) : list Z := if (length q <? 64)%nat then q ++ [byte] else q.

(** The last access found the UART empty, if there is one. *)
Definition found_empty (tr : list (event host_loc)) : Prop :=
  if configured then exists first v, tr = first ++ [ELoad (Uart LSR_OFFSET) v] /\ Z.land (as_u32 v) LSR_RX_READY = 0
  else tr = [].

(** The accesses of an interrupt exit, its result and the state it leaves. *)
Inductive irq_handled (vcpu : Vcpu) (d : MmioDispatcher) : list (event host_loc) -> handled -> Prop :=
| irq_none raw :
    1020 <= intid raw -> irq_handled vcpu d [ELoad (GReg (gicc_iar gic)) raw] (Resume vcpu d)
| irq_management raw served stopping ok stop :
    intid raw = MANAGEMENT_SGI -> dispatch_outcome gic (mkAck (as_u32 raw)) served (Ok ok) -> Forall mute stopping ->
    steps (stop_if_requested slot_address tpidr) stopping (Ret (Ok stop)) ->
    irq_handled vcpu d ([ELoad (GReg (gicc_iar gic)) raw] ++ served ++ stopping)
      (if stop then CpuHalts else if ok then Resume vcpu d else Failed (UnexpectedIrq MANAGEMENT_SGI) vcpu d)
| irq_timer raw counted :
    intid raw = VIRTUAL_TIMER_PPI ->
    Forall mute counted -> (timer_in_flight (Vcpu.gic vcpu) = false -> counted = []) ->
    irq_handled vcpu d
      ([ELoad (GReg (gicc_iar gic)) raw] ++ counted ++ [EStore (GReg (gicc_eoir gic)) (as_u32 raw)])
      (Resume (with_gic vcpu (snd (queue_timer_ppi VIRTUAL_TIMER_PPI (Vcpu.gic vcpu)))) d)
| irq_console raw received u :
    intid raw <> MANAGEMENT_SGI -> intid raw <> VIRTUAL_TIMER_PPI -> Some (intid raw) = console_irq ->
    Forall from_uart received -> found_empty received ->
    guest_ok (mkDispatcher u (gicd d), x (context vcpu)) -> imsc u = imsc (pl011 d) ->
    (forall q, uart_rep (pl011 d) q -> uart_rep u (foldl enqueued q (received_bytes received))) ->
    irq_handled vcpu d
      ([ELoad (GReg (gicc_iar gic)) raw] ++ received ++ completion gic (mkAck (as_u32 raw)))
      (Resume vcpu (mkDispatcher u (gicd d)))
| irq_receiving raw received :
    Some (intid raw) = console_irq -> Forall from_uart received -> length (received_bytes received) = S fuel ->
    irq_handled vcpu d ([ELoad (GReg (gicc_iar gic)) raw] ++ received) StillReceiving
| irq_other raw :
    intid raw < 1020 -> intid raw <> MANAGEMENT_SGI -> intid raw <> VIRTUAL_TIMER_PPI -> Some (intid raw) <> console_irq ->
    irq_handled vcpu d ([ELoad (GReg (gicc_iar gic)) raw] ++ completion gic (mkAck (as_u32 raw)))
      (Failed (UnexpectedIrq (intid raw)) vcpu d).

(** The bytes a trace puts on the wire. *)
Definition sent_bytes (tr : list (event host_loc)) : list Z :=
  omap (fun e => match e with EStore (Uart _) v => Some v | _ => None end) tr.

Definition to_uart (e : event host_loc) : Prop :=
  match e with ELoad (Uart _) _ | EStore (Uart _) _ => True | _ => False end.

Definition crlf (byte : Z) : list Z := if byte =? 10 then [13; 10] else [byte].

(** What the guest's exit was for. *)
Definition exit_reason (vcpu : Vcpu) : VcpuExitReason := reason_of (exit vcpu) (nth 0 (x (context vcpu)) 0).

Definition in_device (a : Z) : Prop := in_ipa GUEST_GICD a \/ in_ipa GUEST_PL011 a.

(** The accesses of a synchronous exit. *)
Inductive sync_handled (vcpu : Vcpu) (d : MmioDispatcher) : list (event host_loc) -> handled -> Prop :=
| sync_emulated a w f access c d' out tr h :
    exit_reason vcpu = Stage2DataAbort a w f -> in_device a ->
    decode_data_abort (esr_el2 (exit vcpu)) (reported_ipa (exit vcpu)) = Ok access ->
    contained access (d, x (context vcpu)) out (d', x c) ->
    c = with_elr (with_x (context vcpu) (x c)) (elr_el2 (context vcpu) + 4) ->
    match out with
    | None => tr = [] /\ h = Resume (with_context vcpu c) d'
    | Some byte => Forall to_uart tr /\
        (h = Resume (with_context vcpu c) d' /\ sent_bytes tr = crlf byte \/
         h = Failed ConsoleTransmit (with_context vcpu c) d')
    end ->
    sync_handled vcpu d tr h
| sync_outside a w f :
    exit_reason vcpu = Stage2DataAbort a w f -> ~ in_device a -> sync_handled vcpu d [] (Failed (InvalidIpa a) vcpu d)
| sync_unexpected :
    (forall a w f, exit_reason vcpu <> Stage2DataAbort a w f) ->
    sync_handled vcpu d [] (Failed (UnexpectedException (exit_reason vcpu)) vcpu d).

(** An access the decoder or the device refuses, or which the program counter
    cannot be moved behind. *)
Definition refused_access (vcpu : Vcpu) : Prop :=
  match decode_data_abort (esr_el2 (exit vcpu)) (reported_ipa (exit vcpu)) with
  | Ok access => (exists err, rejected access err) \/ 2 ^ 64 <= elr_el2 (context vcpu) + 4
  | Err _ => True
  | Panic => False
  end.

(** The exits whose handling panics: a doorbell that finds a broken lifecycle
    word or request, before or after it is completed, and a refused access to
    a device. *)
Inductive exit_panics (vcpu : Vcpu) : Z -> list (event host_loc) -> Prop :=
| panics_dispatch raw served :
    intid raw = MANAGEMENT_SGI -> dispatch_outcome gic (mkAck (as_u32 raw)) served Panic ->
    exit_panics vcpu 9 (ELoad (GReg (gicc_iar gic)) raw :: served)
| panics_stop raw served ok stopping :
    intid raw = MANAGEMENT_SGI -> dispatch_outcome gic (mkAck (as_u32 raw)) served (Ok ok) ->
    steps (stop_if_requested slot_address tpidr) stopping (Ret Panic) ->
    exit_panics vcpu 9 (ELoad (GReg (gicc_iar gic)) raw :: served ++ stopping)
| panics_access a w f :
    exit_reason vcpu = Stage2DataAbort a w f -> in_device a -> refused_access vcpu -> exit_panics vcpu 8 [].

(** ** Interrupts *)

Definition machine_ok (vcpu : Vcpu) (d : MmioDispatcher) : Prop := guest_ok (d, x (context vcpu)).

Lemma guest_ok_uart d regs u q :
  guest_ok (d, regs) -> uart_rep u q -> Forall u8 q -> imsc u = imsc (pl011 d) -> guest_ok (mkDispatcher u (gicd d), regs).
Proof. intros [H1 H2 _ H4 H5] Hu Hq Hi. split; cbn in *; try done; [by exists q|by rewrite Hi]. Qed.

Lemma received_app t t' : received_bytes (t ++ t') = received_bytes t ++ received_bytes t'.
Proof. unfold received_bytes. apply omap_app. Qed.

Lemma traces_drain n vcpu d (Q : list (event host_loc) -> outcome SlotError (option MmioDispatcher) -> Prop) acc :
  machine_ok vcpu d ->
  (forall t u, Forall from_uart t -> found_empty t -> machine_ok vcpu (mkDispatcher u (gicd d)) -> imsc u = imsc (pl011 d) ->
     (forall q, uart_rep (pl011 d) q -> uart_rep u (foldl enqueued q (received_bytes t))) ->
     Q (acc ++ t) (Ok (Some (mkDispatcher u (gicd d))))) ->
  (forall t, Forall from_uart t -> length (received_bytes t) = S n -> Q (acc ++ t) (Ok None)) ->
  traces (drain n d) Q acc.
Proof.
  intros Hok Hs Hn. set (holds u t := forall q, uart_rep (pl011 d) q -> uart_rep u (foldl enqueued q (received_bytes t))).
  assert (Hgen : forall m t0 u, Forall from_uart t0 -> (configured = false -> t0 = []) -> machine_ok vcpu (mkDispatcher u (gicd d)) -> imsc u = imsc (pl011 d) ->
    holds u t0 -> (length (received_bytes t0) + m = n)%nat -> traces (drain m (mkDispatcher u (gicd d))) Q (acc ++ t0)).
  2: { destruct d as [u g]. specialize (Hgen n [] u). rewrite app_nil_r in Hgen. apply Hgen; try done. by intros q. }
  unfold found_empty in Hs.
  induction m as [|m IH]; intros t0 u H0 H0' Hu Hi Hh Hlen; cbn [drain]; unfold read_byte, MiniUart_read_byte; destruct configured; cbn;
    try (apply Hs; by auto).
  all: intros v; destruct (Z.eqb_spec (Z.land (as_u32 v) LSR_RX_READY) 0) as [Ev|]; cbn;
    [rewrite <- app_assoc; apply Hs; [apply Forall_app; split; [done|by repeat constructor]|by exists t0, v|done..|];
     intros q; rewrite received_app, app_nil_r; apply Hh|].
  all: intros b; rewrite <- !app_assoc; cbn [app]; set (t1 := t0 ++ [ELoad (Uart LSR_OFFSET) v; ELoad (Uart IO_OFFSET) b]);
    assert (H1 : Forall from_uart t1) by (apply Forall_app; split; [done|by repeat constructor]);
    assert (E1 : received_bytes t1 = received_bytes t0 ++ [as_u8 b]) by (unfold t1; by rewrite received_app).
  - apply Hn; [done|]. rewrite E1, length_app. cbn. lia.
  - destruct Hu as [Hc31 Hreg (q & Hr & Hq) Hmask Hctl]. cbn in *.
    pose proof (fun q Hr => enqueue_refines (E := Empty_set) (as_u8 b) u q Hr) as He.
    destruct (enqueue_rx (as_u8 b) u) as [r u'] eqn:E. destruct (He q Hr) as (-> & Hi' & Hr'). cbn.
    apply IH; [done|done| |by rewrite Hi'| |rewrite E1, length_app; cbn; lia].
    + eapply guest_ok_uart; [exact Hok|exact Hr'| |by rewrite Hi'].
      destruct (_ <? _)%nat; [|done]. apply Forall_app. split; [done|]. apply Forall_singleton.
      unfold as_u8. rewrite Z.land_ones by done. by apply Z.mod_pos_bound.
    + intros q0 Hq0. rewrite E1, foldl_app. cbn. by destruct (He _ (Hh q0 Hq0)) as (_ & _ & H').
Qed.

Definition resumed_ok (h : handled) : Prop :=
  match h with Resume vcpu d => machine_ok vcpu d | _ => True end.

(** The doorbell of another CPU. *)
Lemma traces_doorbell vcpu d (Q : list (event host_loc) -> outcome SlotError handled -> Prop) acc raw guest_masked :
  machine_ok vcpu d -> intid raw = MANAGEMENT_SGI ->
  (forall t h, irq_handled vcpu d t h -> resumed_ok h -> Q (acc ++ t) (Ok h)) ->
  (forall t, exit_panics vcpu 9 t -> Q (acc ++ t) Panic) ->
  traces (ok <-? dispatch gic slot_address tpidr (mkAck (as_u32 raw)) true guest_masked ;;
          stop <-? stop_if_requested slot_address tpidr ;;
          Ret (Ok (if (stop : bool) then CpuHalts
                   else if (ok : bool) then Resume vcpu d else Failed (UnexpectedIrq (intid raw)) vcpu d)))
    Q (acc ++ [ELoad (GReg (gicc_iar gic)) raw]).
Proof.
  intros Hok Hm HQ HP. apply traces_bind, traces_of_steps. intros t1 r S1.
  pose proof (traces_steps _ _ [] _ _ (traces_dispatch gic slot_address tpidr _ _ _) S1) as D1. cbn [app] in D1.
  destruct r as [ok|e|]; [|by destruct (unerring_steps _ _ _ (unerring_dispatch _ _ _ _ _ _) S1)|]; rewrite <- ?app_assoc.
  2: { apply HP. by constructor. }
  apply traces_bind, traces_of_steps. intros t2 r2 S2.
  assert (M2 : Forall mute t2).
  { refine (traces_steps _ (fun t _ => Forall mute t) [] _ _ _ S2). apply (traces_emits mute); [apply mute_stop|auto]. }
  destruct r2 as [stop|e|]; [|by destruct (unerring_steps _ _ _ (unerring_stop _ _) S2)|]; cbn [traces]; rewrite <- !app_assoc.
  - rewrite Hm. apply HQ; [by apply irq_management|]. by destruct stop, ok.
  - apply HP. cbn [app]. eapply panics_stop; [exact Hm|exact D1|exact S2].
Qed.

Lemma traces_irq vcpu d (Q : list (event host_loc) -> outcome SlotError handled -> Prop) acc :
  machine_ok vcpu d ->
  (forall t h, irq_handled vcpu d t h -> resumed_ok h -> Q (acc ++ t) (Ok h)) ->
  (forall t, exit_panics vcpu 9 t -> Q (acc ++ t) Panic) ->
  traces (handle_irq vcpu d) Q acc.
Proof.
  intros Hok HQ HP. unfold handle_irq, Gicv2.acknowledge, gicc_iar_get. cbn [mbind mmio_bind read32 drive pbind traces].
  intros raw. cbn [InterruptAck_from_raw]. unfold InterruptAck_from_raw. fold (intid raw).
  destruct (Z.ltb_spec (intid raw) 1020) as [Hlt|Hge].
  2: { cbn [drive pbind traces]. apply HQ; [by constructor|done]. }
  set (ack := mkAck (as_u32 raw)). cbn [drive pbind]. change (InterruptAck_intid ack) with (intid raw).
  destruct (Z.eqb_spec (intid raw) MANAGEMENT_SGI) as [Hm|Hm].
  - by apply (traces_doorbell vcpu d Q).
  - unfold is_timer_ppi. destruct (Z.eqb_spec (intid raw) VIRTUAL_TIMER_PPI) as [Ht|Ht].
    + rewrite Ht. destruct (queue_timer_ppi VIRTUAL_TIMER_PPI (Vcpu.gic vcpu)) as [queued g] eqn:Eq.
      apply traces_bind. assert (Hq : forall counted, Forall mute counted ->
        (timer_in_flight (Vcpu.gic vcpu) = false -> counted = []) ->
        traces (_ <- drive (end_interrupt gic ack) ;; Ret (Ok (Resume (with_gic vcpu g) d))) Q
          ((acc ++ [ELoad (GReg (gicc_iar gic)) raw]) ++ counted)).
      { intros counted Hc Hn. cbn. rewrite <- !app_assoc. replace g with (snd (queue_timer_ppi VIRTUAL_TIMER_PPI (Vcpu.gic vcpu)))
          by (by rewrite Eq). apply HQ; [by constructor|done]. }
      destruct queued; cbn [traces].
      * specialize (Hq []). rewrite app_nil_r in Hq. by apply Hq.
      * apply traces_fetch_add. intros v. apply Hq; [by repeat constructor|]. intros Hf. unfold queue_timer_ppi in Eq.
        by rewrite Hf in Eq.
      * unfold queue_timer_ppi in Eq. by destruct (_ || _).
    + destruct (bool_decide _) eqn:Ec; [apply bool_decide_eq_true in Ec|apply bool_decide_eq_false in Ec].
      * apply traces_bind, (traces_drain _ vcpu); [done|..].
        -- intros t u Hu He Hm' Hi Hh. apply traces_bind, traces_complete. cbn [traces]. rewrite <- !app_assoc.
           apply HQ; [by constructor|done].
        -- intros t Hu Hl. cbn [traces]. rewrite <- app_assoc. apply HQ; [by constructor|done].
      * apply traces_bind, traces_complete. cbn [traces]. rewrite <- app_assoc. apply HQ; [by constructor|done].
Qed.

(** ** Trapped accesses *)

Lemma sent_bytes_app t t' : sent_bytes (t ++ t') = sent_bytes t ++ sent_bytes t'.
Proof. unfold sent_bytes. apply omap_app. Qed.

Lemma traces_tx_ready n Q acc :
  (forall t b, Forall to_uart t -> sent_bytes t = [] -> Q (acc ++ t) b) -> traces (is_tx_ready n) Q acc.
Proof.
  intros HQ. assert (Hgen : forall t0, Forall to_uart t0 -> sent_bytes t0 = [] -> traces (is_tx_ready n) Q (acc ++ t0)).
  2: { specialize (Hgen []). rewrite app_nil_r in Hgen. by apply Hgen. }
  induction n as [|n IH]; intros t0 H0 Hs; cbn [is_tx_ready]; [by apply HQ|]. cbn. intros v. rewrite <- app_assoc.
  assert (Forall to_uart (t0 ++ [ELoad (Uart LSR_OFFSET) v])) by (apply Forall_app; split; [done|by repeat constructor]).
  assert (sent_bytes (t0 ++ [ELoad (Uart LSR_OFFSET) v]) = []) by (rewrite sent_bytes_app, Hs; done).
  destruct (negb _); [by apply HQ|by apply IH].
Qed.

Lemma traces_write_raw byte Q acc :
  (forall t, Forall to_uart t -> sent_bytes t = [byte] -> Q (acc ++ t) true) ->
  (forall t, Forall to_uart t -> sent_bytes t = [] -> Q (acc ++ t) false) ->
  traces (write_byte_raw byte) Q acc.
Proof.
  intros Hy Hn. unfold write_byte_raw. apply traces_bind, traces_tx_ready. intros t [] Ht Hs; cbn; [|by apply Hn].
  rewrite <- app_assoc. apply Hy; [apply Forall_app; split; [done|by repeat constructor]|by rewrite sent_bytes_app, Hs].
Qed.

Lemma traces_write_byte byte Q acc :
  (forall t, Forall to_uart t -> sent_bytes t = crlf byte -> Q (acc ++ t) true) ->
  (forall t, Forall to_uart t -> Q (acc ++ t) false) ->
  traces (write_byte byte) Q acc.
Proof.
  intros Hy Hn. unfold write_byte, MiniUart_write_byte, crlf in *. destruct configured.
  2: { cbn. rewrite <- (app_nil_r acc). apply Hn. constructor. }
  apply traces_bind. destruct (byte =? 10) eqn:E.
  - apply Z.eqb_eq in E as ->. apply traces_write_raw; cbn; [|by auto]. intros t Ht Hs. apply traces_write_raw.
    + intros t' Ht' Hs'. rewrite <- app_assoc. apply Hy; [by apply Forall_app|]. by rewrite sent_bytes_app, Hs, Hs'.
    + intros t' Ht' _. rewrite <- app_assoc. by apply Hn, Forall_app.
  - cbn. apply traces_write_raw; auto.
Qed.

Lemma in_window_exact w e a : IpaRegion_end w = Some e -> in_window w e a = true <-> in_ipa w a.
Proof.
  unfold IpaRegion_end, in_window, in_ipa. intros [-> _]%checked_add_Some. rewrite andb_true_iff, Z.leb_le, Z.ltb_lt. done.
Qed.

Lemma reason_data_abort vcpu x0 a w f :
  reason_of (exit vcpu) x0 = Stage2DataAbort a w f -> a = reported_ipa (exit vcpu).
Proof. unfold reason_of. repeat case_match; congruence. Qed.

Lemma contained_machine vcpu c d d' access out :
  contained access (d, x (context vcpu)) out (d', x c) -> machine_ok (with_context vcpu c) d'.
Proof. by intros [H _]. Qed.

(** An access to a device. *)
Lemma traces_access vcpu d a w f (Q : list (event host_loc) -> outcome SlotError handled -> Prop) acc :
  machine_ok vcpu d -> exit_reason vcpu = Stage2DataAbort a w f -> in_device a ->
  (forall t h, sync_handled vcpu d t h -> resumed_ok h -> Q (acc ++ t) (Ok h)) ->
  (forall t, exit_panics vcpu 8 t -> Q (acc ++ t) Panic) ->
  traces (match emulate_stage2_mmio (exit vcpu) (context vcpu, d) with
          | (Ok transmit, (c, d')) =>
              match transmit with
              | None => Ret (Ok (Resume (with_context vcpu c) d'))
              | Some byte =>
                  sent <- write_byte byte ;;
                  Ret (Ok (if (sent : bool) then Resume (with_context vcpu c) d' else Failed ConsoleTransmit (with_context vcpu c) d'))
              end
          | _ => Ret Panic
          end) Q acc.
Proof.
  intros Hok Hr Hdev HQ HP. pose proof (emulate_stage2_mmio_effect (exit vcpu) (context vcpu) d Hok) as He.
  assert (Hp : refused_access vcpu -> Q acc Panic).
  { intros Hf. rewrite <- (app_nil_r acc). apply HP. by eapply panics_access. }
  destruct (emulate_stage2_mmio (exit vcpu) (context vcpu, d)) as [[out|e|] [c d']]; cbn [traces].
  2: { apply Hp. unfold refused_access. pose proof (decode_spec (esr_el2 (exit vcpu)) (reported_ipa (exit vcpu))) as Hds.
       destruct e as [err|err|].
       - by destruct He as [_ ->].
       - destruct He as (_ & access & -> & Hrej). left. by exists err.
       - destruct (decode_data_abort _ _); [by right|done|done]. }
  2: destruct He.
  destruct He as (access & Hd & Hc & Hctx). pose proof (contained_machine _ _ _ _ _ _ Hc) as Hm.
  assert (Hh : forall t h, match out with
      | None => t = [] /\ h = Resume (with_context vcpu c) d'
      | Some byte => Forall to_uart t /\ (h = Resume (with_context vcpu c) d' /\ sent_bytes t = crlf byte \/
                                          h = Failed ConsoleTransmit (with_context vcpu c) d')
      end -> resumed_ok h -> Q (acc ++ t) (Ok h)).
  { intros t h Ht Ho. apply HQ; [|exact Ho]. by eapply sync_emulated. }
  destruct out as [byte|].
  - apply traces_bind, traces_write_byte; intros t Ht; [intros Hs|]; cbn [traces]; apply Hh; try done; (split; [done|auto]).
  - cbn [traces]. rewrite <- (app_nil_r acc). by apply Hh.
Qed.

Lemma traces_sync vcpu d (Q : list (event host_loc) -> outcome SlotError handled -> Prop) acc :
  machine_ok vcpu d ->
  (forall t h, sync_handled vcpu d t h -> resumed_ok h -> Q (acc ++ t) (Ok h)) ->
  (forall t, exit_panics vcpu 8 t -> Q (acc ++ t) Panic) ->
  traces (handle_synchronous_exception vcpu d) Q acc.
Proof.
  intros Hok HQ HP. pose proof (ok_count _ Hok) as H31. cbn [snd] in H31.
  destruct (x (context vcpu)) as [|x0 regs] eqn:Ex; [discriminate H31|].
  assert (Hx : x (context vcpu) !! 0%nat = Some x0) by (rewrite Ex; reflexivity).
  assert (HQ0 : forall h, sync_handled vcpu d [] h -> resumed_ok h -> Q acc (Ok h)).
  { intros h. rewrite <- (app_nil_r acc). apply HQ. }
  unfold handle_synchronous_exception. rewrite (decode_reason_exact SlotError _ _ x0 Hx). cbn [pbind_res pbind].
  assert (Hreason : exit_reason vcpu = reason_of (exit vcpu) x0) by (unfold exit_reason; by rewrite Ex).
  destruct (reason_of (exit vcpu) x0) as [|a w f| | | | |] eqn:Er; cbn [traces];
    try (rewrite <- Hreason; apply HQ0; [constructor; intros ? ? ?; congruence|exact I]).
  assert (Eg : IpaRegion_end GUEST_GICD = Some 0x08010000) by reflexivity.
  assert (Ep : IpaRegion_end GUEST_PL011 = Some 0x09001000) by reflexivity.
  pose proof (in_window_exact GUEST_GICD _ a Eg) as Wg. pose proof (in_window_exact GUEST_PL011 _ a Ep) as Wp.
  rewrite Eg, Ep. destruct (in_window GUEST_GICD 0x08010000 a || in_window GUEST_PL011 0x09001000 a) eqn:Ew; cbn [negb traces].
  2: { apply HQ0; [|exact I]. econstructor; [exact Hreason|]. apply orb_false_iff in Ew as [Fg Fp].
       intros [Hin|Hin]; [apply Wg in Hin|apply Wp in Hin]; congruence. }
  assert (Hdev : in_device a) by (apply orb_true_iff in Ew as [Ew|Ew]; [left; by apply Wg|right; by apply Wp]).
  apply (traces_access vcpu d a w f); done.
Qed.

(** ** A turn of the loop *)

Definition entered (g : VirtualGicV2State) : list (event host_loc) :=
  [EStore (GReg (gich_vmcr gic)) (vmcr g); EStore (GReg (gich_lr0 gic)) (timer_lr g);
   EStore (GReg (gich_lr1 gic)) (uart_lr g); EStore (GReg (gich_hcr gic)) GICH_HCR_ENABLE].

Definition saved_words (v t u : Z) : list (event host_loc) :=
  [ELoad (GReg (gich_vmcr gic)) v; ELoad (GReg (gich_lr0 gic)) t; ELoad (GReg (gich_lr1 gic)) u;
   EStore (GReg (gich_hcr gic)) 0].

(** How the exit by [vector] is handled. *)
Inductive exit_handled (vcpu : Vcpu) (d : MmioDispatcher) : Z -> list (event host_loc) -> run_end -> Prop :=
| exit_irq t h n :
    irq_handled vcpu d t h -> exit_handled vcpu d 9 (t ++ [ESwap DuplicateTimers n 0]) (after 9 h)
| exit_sync t h : sync_handled vcpu d t h -> exit_handled vcpu d 8 t (after 8 h)
| exit_other vector : vector <> 8 -> vector <> 9 -> exit_handled vcpu d vector [] (Exits vector vcpu).

(** One iteration: the guest is entered under its own HCR profile with exactly
    the vCPU's list registers loaded, among them an interrupt for any byte that
    waits; after the exit the registers are saved and the exit handled. *)
Inductive turn_shape (guest : Vcpu -> Z * Vcpu) (vcpu : Vcpu) (d : MmioDispatcher) :
    list (event host_loc) -> run_end -> Prop :=
| turn_intro entering leaving v t u vector vcpu' handling e :
    (pl011_rx_irq_pending d = true -> uart_in_flight (Vcpu.gic (queue_pending vcpu d)) = true) ->
    Forall read_only entering -> Forall read_only leaving ->
    guest (queue_pending vcpu d) = (vector, vcpu') ->
    exit_handled (with_gic vcpu' (mkVgic (as_u32 v) (as_u32 t) (as_u32 u))) d vector handling e ->
    turn_shape guest vcpu d
      ([ELoad HcrReg GUEST_HCR] ++ entered (Vcpu.gic (queue_pending vcpu d)) ++ entering ++ [EStore WorldSwitch 0] ++
       leaving ++ saved_words v t u ++ handling) e.

(** An iteration that panics: the HCR read back is not the guest's, the boot
    CPU's context is found in use before the entry or after the exit, or the
    exit cannot be handled. *)
Inductive turn_panics (guest : Vcpu -> Z * Vcpu) (vcpu : Vcpu) (d : MmioDispatcher) : list (event host_loc) -> Prop :=
| panics_profile h : h <> GUEST_HCR -> turn_panics guest vcpu d [ELoad HcrReg h]
| panics_before entering :
    steps boot_cpu_idle entering (Ret Panic) ->
    turn_panics guest vcpu d ([ELoad HcrReg GUEST_HCR] ++ entered (Vcpu.gic (queue_pending vcpu d)) ++ entering)
| panics_after entering leaving :
    steps boot_cpu_idle entering (Ret (Ok tt)) -> steps boot_cpu_idle leaving (Ret Panic) ->
    turn_panics guest vcpu d
      ([ELoad HcrReg GUEST_HCR] ++ entered (Vcpu.gic (queue_pending vcpu d)) ++ entering ++ [EStore WorldSwitch 0] ++ leaving)
| panics_exit entering leaving v t u vector vcpu' handling :
    steps boot_cpu_idle entering (Ret (Ok tt)) -> steps boot_cpu_idle leaving (Ret (Ok tt)) ->
    guest (queue_pending vcpu d) = (vector, vcpu') ->
    exit_panics (with_gic vcpu' (mkVgic (as_u32 v) (as_u32 t) (as_u32 u))) vector handling ->
    turn_panics guest vcpu d
      ([ELoad HcrReg GUEST_HCR] ++ entered (Vcpu.gic (queue_pending vcpu d)) ++ entering ++ [EStore WorldSwitch 0] ++
       leaving ++ saved_words v t u ++ handling).

(** The guest leaves a register file of 31 words. *)
Definition keeps_registers (guest : Vcpu -> Z * Vcpu) : Prop :=
  forall vcpu vector vcpu', guest vcpu = (vector, vcpu') ->
    length (x (context vcpu')) = 31%nat /\ Forall u64 (x (context vcpu')).

Lemma machine_ok_guest vcpu vcpu' d g :
  machine_ok vcpu d -> length (x (context vcpu')) = 31%nat -> Forall u64 (x (context vcpu')) -> machine_ok (with_gic vcpu' g) d.
Proof. intros [_ _ H3 H4 H5] H1 H2. by split. Qed.

Lemma queue_pending_in_flight vcpu d :
  pl011_rx_irq_pending d = true -> uart_in_flight (Vcpu.gic (queue_pending vcpu d)) = true.
Proof.
  intros H. unfold queue_pending. rewrite H. destruct (uart_in_flight (Vcpu.gic vcpu)) eqn:E; cbn [negb andb]; [done|].
  unfold queue_uart_spi. by rewrite E.
Qed.

Lemma idle_reads t r : steps boot_cpu_idle t (Ret r) -> Forall read_only t.
Proof.
  intros Hs. refine (traces_steps _ (fun t _ => Forall read_only t) [] _ _ _ Hs). apply (traces_emits read_only); [|auto].
  apply emits_relocate. unfold assert_boot_cpu_idle. emits_go; done.
Qed.

Lemma unerring_idle : unerring boot_cpu_idle.
Proof.
  apply within_relocate. unfold assert_boot_cpu_idle.
  repeat first [destruct (negb _); [done|]|progress cbn|intros ?; split; [done|]]. intros e. by destruct (_ && _).
Qed.

Definition again_ok (e : run_end) : Prop := match e with Again vcpu d => machine_ok vcpu d | _ => True end.

Lemma after_ok vector h : resumed_ok h -> again_ok (after vector h).
Proof. by destruct h. Qed.

Lemma traces_exit vcpu d vector (Q : list (event host_loc) -> outcome SlotError run_end -> Prop) acc :
  machine_ok vcpu d ->
  (forall t e, exit_handled vcpu d vector t e -> again_ok e -> Q (acc ++ t) (Ok e)) ->
  (forall t, exit_panics vcpu vector t -> Q (acc ++ t) Panic) ->
  traces (if vector =? 9 then
            h <-? handle_irq vcpu d ;; _ <- swap DuplicateTimers 0 ;; Ret (Ok (after vector h))
          else if vector =? 8 then
            h <-? handle_synchronous_exception vcpu d ;; Ret (Ok (after vector h))
          else Ret (Ok (Exits vector vcpu))) Q acc.
Proof.
  intros Hok HQ HP. destruct (Z.eqb_spec vector 9) as [->|H9]; [|destruct (Z.eqb_spec vector 8) as [->|H8]].
  - apply traces_bind, traces_irq; [exact Hok| |exact HP].
    intros t h Hh Hr. cbn. intros n. rewrite <- app_assoc. apply HQ; [by constructor|by apply after_ok].
  - apply traces_bind, traces_sync; [exact Hok| |exact HP].
    intros t h Hh Hr. cbn. apply HQ; [by constructor|by apply after_ok].
  - cbn. rewrite <- (app_nil_r acc). apply HQ; [by constructor|exact I].
Qed.

Lemma traces_guest_entry (Q : list (event host_loc) -> outcome SlotError unit -> Prop) acc :
  Q (acc ++ [ELoad HcrReg GUEST_HCR]) (Ok tt) -> (forall h, h <> GUEST_HCR -> Q (acc ++ [ELoad HcrReg h]) Panic) -> traces guest_entry Q acc.
Proof.
  intros Hy Hn. unfold guest_entry. apply traces_bind, traces_routing. intros h. cbn [traces].
  destruct (Z.eqb_spec h GUEST_HCR) as [->|Hne]; [rewrite andb_false_r; exact Hy|].
  destruct (negb _ && _); [by apply Hn|]. rewrite (proj2 (Z.eqb_neq _ _) Hne). by apply Hn.
Qed.

Lemma traces_turn guest vcpu d (Q : list (event host_loc) -> outcome SlotError run_end -> Prop) acc :
  machine_ok vcpu d -> keeps_registers guest ->
  (forall t e, turn_shape guest vcpu d t e -> again_ok e -> Q (acc ++ t) (Ok e)) ->
  (forall t, turn_panics guest vcpu d t -> Q (acc ++ t) Panic) ->
  traces (turn guest vcpu d) Q acc.
Proof.
  intros Hok Hg HQ HP. unfold turn. set (vcpu0 := queue_pending vcpu d).
  apply traces_bind, traces_guest_entry; [|intros h Hh; apply HP; by constructor]. apply traces_bind.
  cbn [drive restore_virtual_cpu gich_vmcr_set gich_lr0_set gich_lr1_set gich_hcr_set write32 mbind mmio_bind traces].
  apply traces_bind, traces_of_steps. intros t1 r1 S1. pose proof (idle_reads _ _ S1) as R1.
  destruct r1 as [[]|e|]; cbn [traces]; rewrite <- ?app_assoc; [|by destruct (unerring_steps _ _ _ unerring_idle S1)|].
  2: { apply HP. by apply panics_before. }
  cbn [pbind store traces]. destruct (guest vcpu0) as [vector vcpu'] eqn:Eg. destruct (Hg _ _ _ Eg) as [H31 Hu].
  apply traces_bind, traces_of_steps. intros t2 r2 S2. pose proof (idle_reads _ _ S2) as R2.
  destruct r2 as [[]|e|]; cbn [traces]; rewrite <- ?app_assoc; [|by destruct (unerring_steps _ _ _ unerring_idle S2)|].
  2: { apply HP. by apply panics_after. }
  apply traces_bind. cbn [drive save_virtual_cpu gich_vmcr_get gich_lr0_get gich_lr1_get gich_hcr_set read32 write32 mbind
    mmio_bind traces]. intros v t u. rewrite <- !app_assoc.
  apply traces_exit; [by eapply machine_ok_guest|intros th e Hh Ha|intros th Hh]; rewrite <- !app_assoc.
  - apply HQ; [|exact Ha].
    apply (turn_intro guest vcpu d t1 t2 v t u vector vcpu' th e); [apply queue_pending_in_flight|exact R1|exact R2|exact Eg|exact Hh].
  - apply HP. exact (panics_exit guest vcpu d t1 t2 v t u vector vcpu' th S1 S2 Eg Hh).
Qed.

(** ** The whole run *)

(** A run is a sequence of such iterations, each from the state the one
    before it left. *)
Inductive run_shape :
    list (Vcpu -> Z * Vcpu) -> Vcpu -> MmioDispatcher -> list (event host_loc) -> option run_end -> Prop :=
| run_pending vcpu d : run_shape [] vcpu d [] None
| run_again guest rest vcpu d vcpu' d' t t' e :
    turn_shape guest vcpu d t (Again vcpu' d') -> machine_ok vcpu' d' -> run_shape rest vcpu' d' t' e ->
    run_shape (guest :: rest) vcpu d (t ++ t') e
| run_ends guest rest vcpu d t e :
    turn_shape guest vcpu d t e -> (forall vcpu' d', e <> Again vcpu' d') -> run_shape (guest :: rest) vcpu d t (Some e).

(** A run that panics, after any number of them. *)
Inductive run_panics : list (Vcpu -> Z * Vcpu) -> Vcpu -> MmioDispatcher -> list (event host_loc) -> Prop :=
| run_panics_later guest rest vcpu d vcpu' d' t t' :
    turn_shape guest vcpu d t (Again vcpu' d') -> machine_ok vcpu' d' -> run_panics rest vcpu' d' t' ->
    run_panics (guest :: rest) vcpu d (t ++ t')
| run_panics_now guest rest vcpu d t : turn_panics guest vcpu d t -> run_panics (guest :: rest) vcpu d t.

Lemma traces_run guests vcpu d (Q : list (event host_loc) -> outcome SlotError (option run_end) -> Prop) acc :
  machine_ok vcpu d -> Forall keeps_registers guests ->
  (forall t e, run_shape guests vcpu d t e -> Q (acc ++ t) (Ok e)) ->
  (forall t, run_panics guests vcpu d t -> Q (acc ++ t) Panic) ->
  traces (run_vcpu_with_mmio guests vcpu d) Q acc.
Proof.
  revert vcpu d acc. induction guests as [|guest rest IH]; intros vcpu d acc Hok Hg HQ HP; cbn [run_vcpu_with_mmio].
  { cbn. rewrite <- (app_nil_r acc). apply HQ. constructor. }
  apply Forall_cons in Hg as [Hg Hr]. apply traces_bind, traces_turn; [exact Hok|exact Hg| |intros t Ht; apply HP; by apply run_panics_now].
  intros t e Ht Ha. destruct e as [vcpu' d'|vector left| |]; cbn [traces]; try (apply HQ; apply run_ends; [exact Ht|discriminate]).
  apply IH; [exact Ha|exact Hr|intros t' e' Hs|intros t' Hs]; rewrite <- app_assoc; [apply HQ|apply HP].
  - by eapply run_again.
  - by eapply run_panics_later.
Qed.

(** C22 [guest_run_sound]: whatever the guest does and the devices answer, every
    entry of the guest happens with the guest's own HCR profile read back and
    exactly the vCPU's interrupt state loaded, which holds an interrupt
    whenever a received byte waits unmasked, and every exit saves that state.
    A physical interrupt is acknowledged once and completed once with its own
    token, by a priority drop only when it is the timer whose completion the
    guest owns; that of the console only after its bytes have joined the
    guest's receive queue and the UART is empty (the handler that has read
    [fuel] bytes and more is still at it).  A trapped access changes exactly
    the device and register it names and moves the program counter on, and a
    byte it transmits goes out, or else the run ends; an access outside the
    devices, any other exception and any other interrupt end the run with the
    guest's state as it was saved; the devices stay well formed.  EL2 panics
    in these cases only: the profile read back is wrong, the boot CPU's
    idle assertion fails, the management code panics on a doorbell, or the guest
    makes an access inside a device window that the decoder or the device
    refuses, or behind which its program counter would overflow. *)
Theorem guest_run_sound guests vcpu d tr r :
  machine_ok vcpu d -> Forall keeps_registers guests ->
  steps (run_vcpu_with_mmio guests vcpu d) tr (Ret r) ->
  match r with
  | Ok e => run_shape guests vcpu d tr e
  | Panic => run_panics guests vcpu d tr
  | Err _ => False
  end.
Proof.
  intros Hok Hg Hs.
  refine (traces_steps _ (fun t r => match r with Ok e => run_shape guests vcpu d t e | Panic => run_panics guests vcpu d t | Err _ => False end)
    [] _ _ _ Hs). by apply traces_run.
Qed.

(** An access in a device window that the decoder or the device refuses does
    not end the run: the host panics. *)
Lemma refused_access_panics vcpu d x0 a w f err :
  machine_ok vcpu d -> x (context vcpu) !! 0%nat = Some x0 -> reason_of (exit vcpu) x0 = Stage2DataAbort a w f ->
  in_ipa GUEST_PL011 a -> decode_data_abort (esr_el2 (exit vcpu)) a = Err err ->
  handle_synchronous_exception vcpu d = Ret Panic.
Proof.
  intros Hok Hx Hr Hin Hd. unfold handle_synchronous_exception. rewrite (decode_reason_exact SlotError _ _ x0 Hx), Hr.
  cbn [pbind_res pbind]. assert (Eg : IpaRegion_end GUEST_GICD = Some 0x08010000) by reflexivity.
  assert (Ep : IpaRegion_end GUEST_PL011 = Some 0x09001000) by reflexivity. rewrite Eg, Ep.
  rewrite (proj2 (in_window_exact GUEST_PL011 _ a Ep) Hin), orb_true_r. cbn [negb].
  pose proof (emulate_stage2_mmio_effect (exit vcpu) (context vcpu) d Hok) as He.
  rewrite <- (reason_data_abort _ _ _ _ _ Hr), Hd in He.
  destruct (emulate_stage2_mmio _ _) as [[out|e|] [c d']]; [|reflexivity..]. destruct He as (access & Hbad & _). discriminate Hbad.
Qed.

End Run.

(** ** Concrete instances *)

(** The guest stores a byte to its UART, then leaves by a vector no handler
    takes. *)
Definition sample_vcpu : Vcpu := with_context (Vcpu_new 0x40080000 0) sample_context.
Definition sample_guests : list (Vcpu -> Z * Vcpu) :=
  [fun v => (8, mkVcpu sample_context sample_exit (timer v) (Vcpu.gic v)); fun v => (4, with_context v sample_context)].

Definition sample_machine (l : host_loc) : Z :=
  match l with
  | HcrReg => GUEST_HCR
  | HSlot 0 (Ctx Present) => 1
  | HSlot 0 (Ctx StackBottom) => 0x1000
  | HSlot 0 (Ctx StackTop) => 0x11000
  | Uart 0x14 => 0x20
  | _ => 0
  end.

Lemma sample_guests_keep : Forall keeps_registers sample_guests.
Proof.
  assert (H : length (x sample_context) = 31%nat /\ Forall u64 (x sample_context)).
  { split; [reflexivity|]. apply (ok_regs _ sample_guest_ok). }
  apply Forall_cons_2; [|apply Forall_cons_2; [|constructor]]; intros v vec v' E; injection E as <- <-; exact H.
Qed.

Definition sample_run : hprog (outcome SlotError (option run_end)) :=
  run_vcpu_with_mmio sample_driver sample_slots 0x40000 0 0x2000 true (Some 125) 64 sample_guests sample_vcpu MmioDispatcher_default.

Lemma guest_run_sound_witness :
  exists tr s' vcpu, run_shape sample_driver sample_slots 0x40000 true (Some 125) 64 sample_guests sample_vcpu MmioDispatcher_default tr (Some (Exits 4 vcpu)) /\
    replay sample_machine tr = Some s' /\ s' (Uart 0) = 0x41.
Proof.
  destruct (Atomics.exec sample_run sample_machine []) as [[r s']|] eqn:E; [|discriminate E].
  assert (Hr : option_map (fun p => (match fst p with Ok (Some (Exits v _)) => v | _ => 0 end, snd p (Uart 0)))
    (Atomics.exec sample_run sample_machine []) = Some (4, 0x41)) by (vm_compute; reflexivity).
  rewrite E in Hr. cbn [option_map fst snd] in Hr. destruct r as [[[|vector vcpu| |]|]| |]; try discriminate Hr.
  injection Hr as -> H1. destruct (exec_steps _ _ _ _ _ E) as (tr & Hs & Hp). exists tr, s', vcpu. split.
  - exact (guest_run_sound _ _ _ _ _ _ _ _ _ sample_vcpu _ _ _ sample_guest_ok sample_guests_keep Hs).
  - split; [exact Hp|exact H1].
Defined.
